(* ===== verification/_CoqProject ===== *)
-Q . S2P
Prelude.v
Votes.v
VerifiedVotes.v
VoteManager.v
VoteQuorum.v
PbftChain.v
Caches.v
TransactionQueue.v
TransactionPool.v
TransactionOrder.v
TransactionQueueOps.v
TransactionReorder.v
TransactionManager.v
TransactionManagerInv.v
TransactionManagerSteps.v
GasPricer.v
Dag.v
DagOrder.v
DagGhost.v
DagManager.v
DagManagerInv.v
DagReorder.v
DagPeriods.v
DagRecovery.v
Sortition.v
SortitionInv.v
PbftManager.v
PbftSafety.v
PbftReach.v
PbftService.v
PbftBlocks.v
PbftPropose.v
PillarVotes.v
PillarChain.v
PbftSync.v
Rewards.v
RewardsRuns.v
ThreadPool.v
ThreadPoolInv.v
ThreadPoolRuns.v
ThreadPoolSafety.v
Rlp.v
RlpStream.v
RlpRead.v
RlpItems.v
RlpCodec.v
VoteRlp.v
DagBlockRlp.v
DagBundleRlp.v
TransactionRlp.v
PbftBlockRlp.v
PeriodDataRlp.v
LogBloom.v
LogFilter.v
VdfSortition.v
DagBlockProposer.v
DagProposal.v
TaraxaPeer.v
TransactionGossip.v
DagSync.v
PeersState.v
VotePackets.v
BlockCache.v
FinalChain.v
FinalChainInv.v
FinalChainRuns.v
FinalChainExample.v
Solidity.v
PillarBlockRlp.v
TrieHash.v
PeriodDataDb.v
LightNode.v
