(* ===== verification/Prelude.v ===== *)
(** * Verification of the taraxa node: consensus core

    The program is a blockchain node.  Validators append blocks of transactions to a
    DAG; a PBFT protocol agrees, period by period, on a DAG block (the anchor) whose
    unfinalized ancestors are executed next, and on pillar blocks, which bridge the
    chain.  The development models the consensus library of the node
    (src/libraries/core_libs/consensus), with the parts of storage, network and common
    code it rests on, and proves what makes each part correct.

    ** Parts, files and sources (below src/libraries; consensus/ is core_libs/consensus/)

    - [Prelude]: machine integers, outcomes, ordered maps, list lemmas.
    - [Votes], [VerifiedVotes], [VoteManager], [VoteQuorum]: vote objects
      (types/vote), the store of verified votes and the vote manager
      (consensus/src/vote_manager), with reward votes and 2t+1 voted blocks.
    - [PbftChain]: Modules [Chain] (pbft_chain.cpp), [Proposed]
      (proposed_blocks.cpp), [SyncQueue] (period_data_queue.cpp).
    - [Caches]: Modules [Expiration], [BlockNumber], [CacheMap] (common/util.hpp).
    - [TransactionQueue], [TransactionPool], [TransactionOrder],
      [TransactionQueueOps]: the transaction pool (transaction_queue.cpp);
      [TransactionReorder]: the order of the transactions of a period.
    - [TransactionManager], [TransactionManagerInv], [TransactionManagerSteps]: the
      transaction manager (transaction_manager.cpp) with its database columns.
    - [Dag], [DagOrder], [DagGhost]: the graphs (dag.cpp); [DagManager],
      [DagManagerInv], [DagReorder], [DagPeriods], [DagRecovery]: the DAG manager
      (dag_manager.cpp), finalization of a period, restart.
    - [GasPricer]: the gas pricer (gas_pricer.cpp), its updates with every block and its initialisation from
      the database.
    - [Sortition], [SortitionInv]: [SortitionParamsManager], the adjustment of the VRF
      threshold to the efficiency of the DAG, its database column and its reconstruction.
    - [Rewards], [RewardsRuns]: [rewards::BlockStats] and [rewards::Stats], the statistics
      from which rewards are distributed, over runs with restarts.
    - [ThreadPool], [ThreadPoolInv], [ThreadPoolRuns], [ThreadPoolSafety]: the thread pool
      for packets with its queues by priority and its mask of blocked packets; the
      invariant that the mask describes the packets in work; the steps of the workers;
      and the guarantees of all runs.
    - [Rlp]: the RLP reader and writer (aleth/libdevcore/RLP.h, RLP.cpp); [RlpStream] the
      encoding and what the writer writes, [RlpRead] and [RlpItems] what the reader reads,
      [RlpCodec] the encodings of fields and tuples (common/encoding_rlp.hpp) with the
      class [CodecOk] of their laws.
    - [VoteRlp], [DagBlockRlp], [DagBundleRlp], [TransactionRlp], [PbftBlockRlp],
      [PeriodDataRlp]: the serialisation of votes, DAG blocks, transactions, PBFT blocks
      and period data (types/), alone and in bundles.
    - [LogBloom], [LogFilter]: blooms of logs and their index in the final chain
      (final_chain.cpp), and the log filters of the RPC that search it (LogFilter.cpp).
    - [VdfSortition]: thresholds of the VRF, difficulty of the delay function and their
      verification (vdf/src/sortition.cpp, common/vrf_wrapper.hpp).
    - [DagBlockProposer]: attempts to propose a DAG block (dag_block_proposer.cpp);
      [DagProposal] proves the proposed blocks against [DagManager].
    - [PbftManager], [PbftSafety], [PbftReach], [PbftService]: the state machine of a
      validator (pbft_manager.cpp), first against the interface [VoteService] of the
      vote manager with its laws [VoteServiceLaws], then on [VoteManager], which
      provides it; [PbftBlocks]: validation of blocks and cert votes; [PbftPropose]:
      the anchor of a proposal; [PbftSync]: synchronisation
      (pbft_sync_packet_handler.cpp and [processPeriodData]).
    - [PillarVotes], [PillarChain]: pillar votes and the pillar chain manager
      (consensus/src/pillar_chain).

    ** How the code is represented

    A class is a [Record] of its members, a method a function from the state before
    it to its result and the state after it; locks make the methods atomic, and
    interleavings are sequences of steps.  Hashes, addresses and keys are the numbers
    their byte arrays denote.  Integers of [w] bits are [Z] with [wrap w] where the code
    can leave the range.  [std::map] is a [gmap] visited in key order ([map_items]);
    hash containers, whose order is not specified, are visited in the order of an
    argument ([iter], [iterate]) for which only a permutation is assumed.  The result
    of an operation is an [outcome]: [Done] with a value, [AssertFailed] where an
    [assert] fails or an exception leaves the method, [Undefined] where the code would
    read through an invalid iterator or an empty container.  Theorems that an
    operation returns show [Done]; they exclude the other two.  Answers of parts that
    are not modelled (accounts and vote counts of the execution layer, signatures,
    random numbers, the clock) are arguments: records [Env], [TrxEnv] and the like, or
    section variables whose assumptions are hypotheses of the theorems.

    ** What the theorems show

    - Votes: in every reachable state a recorded 2t+1 voted block has stored votes of
      that weight of distinct voters; the round changes to the highest round with
      2t+1 next votes; reward votes that pass the check are in the store.
    - Validators: along every run of loop iterations, new rounds and blocks, votes and
      blocks from the network, synchronisation and restarts, a validator cert votes for
      at most one block per round and its next votes respect that; the loop leaves
      every step; the timing backs off within bounds.
    - Blocks: what passes validation satisfies its specification; synchronisation ends
      and accepts exactly valid blocks; the chain head refines the list of blocks.
    - Transactions: the indexes of the pool agree, the order of a proposal is the merge
      it is meant to be, every transaction is in one place, can be found and survives a
      restart, a proposal fits its limit.
    - DAG: the order of a period is deterministic, complete and topological; the ghost
      path is the heaviest; a finalized period leaves graph and database consistent; a
      restart rebuilds them.
    - Pillar chain: at most one block per period gets a quorum; blocks are linked; the
      changes of vote counts are the difference of the two snapshots.
    - Rewards, threshold and gas price: fees are given to validators exactly once, in a
      block and over all distribution intervals with restarts; the threshold moves in the
      right direction within its bounds; a restart restores the sortition state; the
      initialisation of the gas pricer agrees with its updates.
    - Thread pool: no assertion fails however workers interleave, excluded packets are not
      in work together, transactions are processed before the DAG blocks sent after
      them, an idle pool takes work; malformed packets stop the node.
    - Serialisation: the RLP reader accepts exactly the encodings the writer writes and
      stays within its bytes; votes, DAG blocks, transactions, PBFT blocks, bundles and
      the data of a period are read back as they were written; the messages that are
      signed determine what is signed.
    - Log filters: the search in the bloom index and the filter over it find exactly
      the logs that match; a log with too few topics is read out of bounds.
    - Proposal of DAG blocks: selected tips, level, shards and guards of an attempt; the
      block and its sortition pass the verification of a peer; when the DAG of the
      proposer refuses the block nevertheless.
    - Where the code does not do what it means to: theorems that name the state in
      which a vote is lost, a node stops, a cost wraps around or a comment is wrong.

    The files on serialisation work on bytes and have their own records ([SerialVote],
    [SerialDagBlock] and so on), in which a hash is the list of its bytes, and a result
    type [res] with the exceptions of the library.

    ** Fuel and bounds

    Loops over containers recurse over the list they visit.  Searches through the
    graph take fuel that the theorems show to be enough: the number of vertices for
    the traversals, the number of blocks for the recovery and for synchronisation; the
    loops of the RLP reader the number of bytes.
    Arithmetic hypotheses such as [< 2 ^ 64] are stated where a sum could wrap; their
    witnesses are concrete states.

    ** Not modelled, and why

    The EVM and the state database (a Go library behind a C interface), VRF, VDF and
    signatures (external libraries), the p2p layer (vendored aleth code), the JSON forms
    of blocks, RocksDB itself, the RPC servers (generated code and input/output),
    configuration, logging, metrics and the application that wires the parts.  The
    locks and threads inside one operation are not modelled: every public method is
    atomic here, as the mutexes make it, except for the estimation threads of the
    transaction manager, whose sum does not depend on their order, and for [packTrxs],
    which releases the lock between reading the pool and moving a transaction.

    ** Plan

    Next are slashing, the remaining packet handlers and peers, and the final chain
    around the EVM. *)

From stdpp Require Export base tactics numbers list gmap sorting.
From Stdlib Require Export ZArith Lia.

#[export] Set Default Proof Using "Type".

(** ** Machine integers

    An integer of [w] bits is a [Z] in [[0, 2^w)]; the operations of the
    source that can leave this range are written with an explicit wrap. *)

Declare Scope machine_scope.
Delimit Scope machine_scope with mach.

Definition modulus (w : Z) : Z := 2 ^ w.
Definition wrap (w x : Z) : Z := x mod modulus w.
Definition in_range (w x : Z) : Prop := (0 <= x < modulus w)%Z.

Abbreviation u32 := (wrap 32).
Abbreviation u64 := (wrap 64).
Abbreviation u256 := (wrap 256).
Notation "x +64 y" := (wrap 64 (x + y)%Z) (at level 50, left associativity) : machine_scope.
Notation "x -64 y" := (wrap 64 (x - y)%Z) (at level 50, left associativity) : machine_scope.
Notation "x *64 y" := (wrap 64 (x * y)%Z) (at level 40, left associativity) : machine_scope.

(** Largest value of a [uint64_t]. *)
Definition max_u64 : Z := 2 ^ 64 - 1.

(** Conversion of an unsigned value to a signed integer of [w] bits (two's
    complement), as the conversions of C++20 do it. *)
Definition to_signed (w x : Z) : Z :=
  let r := wrap w x in if (r <? 2 ^ (w - 1))%Z then r else (r - 2 ^ w)%Z.

Create HintDb mach.

Section machine_lemmas.
Local Open Scope Z_scope.

Lemma modulus_pos w : 0 <= w -> 0 < modulus w.
Proof. intros. unfold modulus. by apply Z.pow_pos_nonneg. Qed.

Lemma wrap_range w x : 0 <= w -> in_range w (wrap w x).
Proof. intros. apply Z.mod_pos_bound, modulus_pos; lia. Qed.

Lemma wrap_id w x : in_range w x -> wrap w x = x.
Proof. intros. by apply Z.mod_small. Qed.

Lemma wrap_idemp w x : wrap w (wrap w x) = wrap w x.
Proof. unfold wrap. apply Zmod_mod. Qed.

Lemma wrap_add_l w x y : wrap w (wrap w x + y) = wrap w (x + y).
Proof. unfold wrap. apply Zplus_mod_idemp_l. Qed.

Lemma wrap_add_r w x y : wrap w (x + wrap w y) = wrap w (x + y).
Proof. unfold wrap. apply Zplus_mod_idemp_r. Qed.

Lemma wrap_sub_l w x y : wrap w (wrap w x - y) = wrap w (x - y).
Proof. unfold wrap. apply Zminus_mod_idemp_l. Qed.

Lemma wrap_sub_r w x y : wrap w (x - wrap w y) = wrap w (x - y).
Proof. unfold wrap. apply Zminus_mod_idemp_r. Qed.

(** A decrement of zero wraps to the largest value. *)
Lemma wrap_pred_zero : u64 (0 - 1) = max_u64.
Proof. reflexivity. Qed.
Lemma to_signed_id w x : 0 < w -> - 2 ^ (w - 1) <= x < 2 ^ (w - 1) -> to_signed w x = x.
Proof.
  intros Hw Hx. assert (2 ^ w = 2 * 2 ^ (w - 1)) as E by (rewrite <- Z.pow_succ_r by lia; f_equal; lia).
  unfold to_signed, wrap, modulus. destruct (Z.ltb_spec x 0).
  - assert (x mod 2 ^ w = x + 2 ^ w) as -> by (symmetry; apply (Z.mod_unique _ _ (-1)); lia).
    destruct (Z.ltb_spec (x + 2 ^ w) (2 ^ (w - 1))); lia.
  - rewrite Z.mod_small by lia. destruct (Z.ltb_spec x (2 ^ (w - 1))); lia.
Qed.

End machine_lemmas.

#[export] Hint Resolve wrap_range wrap_id modulus_pos : mach.
Create Rewrite HintDb mach_rw.
#[export] Hint Rewrite wrap_idemp wrap_add_l wrap_add_r wrap_sub_l wrap_sub_r : mach_rw.

(** ** Outcomes

    [assert] aborts the process in the builds that keep assertions, and an
    access outside a container is undefined behaviour.  An operation that can
    reach one returns an [outcome]. *)

Inductive outcome (A : Type) : Type :=
| Done (a : A)
| AssertFailed
| Undefined.
Arguments Done {A} a.
Arguments AssertFailed {A}.
Arguments Undefined {A}.

Definition obind {A B} (m : outcome A) (f : A -> outcome B) : outcome B :=
  match m with
  | Done a => f a
  | AssertFailed => AssertFailed
  | Undefined => Undefined
  end.

Declare Scope outcome_scope.
Delimit Scope outcome_scope with out.
Notation "'let*' x ':=' m 'in' k" := (obind m (fun x => k))
  (at level 10, x pattern, m at level 100, k at level 200) : outcome_scope.

Definition oassert (b : bool) : outcome unit := if b then Done tt else AssertFailed.

Definition is_done {A} (m : outcome A) : Prop := exists a, m = Done a.

Fixpoint ofold {A B} (f : A -> B -> outcome A) (l : list B) (a : A) : outcome A :=
  match l with
  | [] => Done a
  | b :: l => obind (f a b) (ofold f l)
  end.

(** A loop that keeps an invariant and never fails under it, does not fail. *)
Lemma ofold_inv {A B} (f : A -> B -> outcome A) (I : A -> Prop) (l : list B) (a : A) :
  (forall a b, b ∈ l -> I a -> exists a', f a b = Done a' /\ I a') ->
  I a -> exists a', ofold f l a = Done a' /\ I a'.
Proof.
  revert a. induction l as [|b l IH]; intros a Hstep HI; simpl; [eauto|].
  destruct (Hstep a b) as (a' & -> & HI'); [set_solver|done|]. simpl.
  apply IH; [|done]. intros. apply Hstep; set_solver.
Qed.

(** ** Ordered iteration

    [std::map] and [std::set] keyed by unsigned integers iterate in increasing
    key order; [map_items] is that iteration of a [gmap]. *)

Definition key_le {A} (x y : Z * A) : Prop := (x.1 <= y.1)%Z.

#[export] Instance key_le_dec {A} (x y : Z * A) : Decision (key_le x y) := Z_le_dec x.1 y.1.
#[export] Instance key_le_trans {A} : Transitive (@key_le A).
Proof. intros ???. unfold key_le. lia. Qed.
#[export] Instance key_le_total {A} : Total (@key_le A).
Proof. intros ??. unfold key_le. lia. Qed.

Definition map_items {A} (m : gmap Z A) : list (Z * A) := merge_sort key_le (map_to_list m).

Section map_items.
Context {A : Type}.
Implicit Types m : gmap Z A.

Lemma map_items_perm m : map_items m ≡ₚ map_to_list m.
Proof. apply merge_sort_Permutation. Qed.

Lemma elem_of_map_items m k x : (k, x) ∈ map_items m <-> m !! k = Some x.
Proof. by rewrite map_items_perm, elem_of_map_to_list. Qed.

Lemma map_items_sorted m : StronglySorted key_le (map_items m).
Proof. apply (StronglySorted_merge_sort _). Qed.

Lemma map_items_NoDup m : NoDup (map_items m).*1.
Proof. rewrite map_items_perm. apply NoDup_fst_map_to_list. Qed.

Lemma map_items_empty : map_items (∅ : gmap Z A) = [].
Proof. unfold map_items. by rewrite map_to_list_empty. Qed.

Lemma map_items_to_map m : list_to_map (map_items m) = m.
Proof.
  rewrite <- (list_to_map_to_list m) at 2. apply list_to_map_proper.
  - apply map_items_NoDup.
  - apply map_items_perm.
Qed.
End map_items.

(** The erase loop [while (it != end && it->first < bound) it = erase(it)] of an
    ordered map: it walks the items in order and stops at the first key that is
    not below the bound. *)
Fixpoint erase_below {A} (items : list (Z * A)) (bound : Z) (m : gmap Z A) : gmap Z A :=
  match items with
  | [] => m
  | (k, _) :: items' =>
      if decide (k < bound)%Z then erase_below items' bound (delete k m) else m
  end.

Lemma erase_below_lookup {A} (items : list (Z * A)) bound (m : gmap Z A) k :
  StronglySorted key_le items ->
  erase_below items bound m !! k =
    if decide (k < bound /\ k ∈ items.*1)%Z then None else m !! k.
Proof.
  revert m. induction items as [|[k0 x0] items IH]; intros m Hs; simpl.
  - rewrite decide_False; [done|]. intros [_ H]. inversion H.
  - apply StronglySorted_inv in Hs as [Hs Hall].
    destruct (decide (k0 < bound)%Z) as [Hlt|Hge].
    + rewrite IH by done.
      destruct (decide (k = k0)) as [->|Hne].
      * rewrite lookup_delete_eq, (decide_True _ _ (P := (_ /\ k0 ∈ k0 :: _)%Z)) by set_solver.
        by case_decide.
      * rewrite lookup_delete_ne by done.
        apply decide_ext. set_solver.
    + rewrite decide_False; [done|]. intros [Hk Hin].
      apply elem_of_cons in Hin as [->|Hin]; [lia|].
      apply list_elem_of_fmap in Hin as ([k1 x1] & -> & Hin).
      rewrite Forall_forall in Hall. specialize (Hall _ Hin).
      unfold key_le in Hall. simpl in *. lia.
Qed.

(** Erasing from the front of the whole map removes exactly the keys below. *)
Lemma erase_below_all {A} bound (m : gmap Z A) k :
  erase_below (map_items m) bound m !! k = if decide (k < bound)%Z then None else m !! k.
Proof.
  rewrite erase_below_lookup by apply map_items_sorted.
  destruct (m !! k) as [x|] eqn:E.
  - apply decide_ext. split; [by intros []|]. intros. split; [done|].
    apply list_elem_of_fmap. exists (k, x). by rewrite elem_of_map_items.
  - by repeat case_decide.
Qed.

(** ** Sums over lists and maps *)

Definition sum_list_Z {A} (g : A -> Z) (l : list A) : Z := foldr (fun x acc => g x + acc)%Z 0%Z l.

Definition map_sum {K A} `{Countable K} (f : A -> Z) (m : gmap K A) : Z :=
  map_fold (fun _ x acc => (f x + acc)%Z) 0%Z m.

Section map_sum.
Context {K A : Type} `{Countable K} (f : A -> Z).
Implicit Types m : gmap K A.

Lemma map_sum_empty : map_sum f (∅ : gmap K A) = 0%Z.
Proof. apply map_fold_empty. Qed.

Lemma map_sum_insert m k x :
  m !! k = None -> map_sum f (<[k:=x]> m) = (f x + map_sum f m)%Z.
Proof. intros. unfold map_sum. rewrite map_fold_insert_L; [done| |done]. intros. lia. Qed.

Lemma map_sum_delete m k x :
  m !! k = Some x -> map_sum f m = (f x + map_sum f (delete k m))%Z.
Proof. intros. unfold map_sum. rewrite (map_fold_delete_L _ _ k x m); [done| |done]. intros. lia. Qed.

Lemma map_sum_nonneg m : (forall k x, m !! k = Some x -> (0 <= f x)%Z) -> (0 <= map_sum f m)%Z.
Proof.
  induction m as [|k x m Hk IH] using map_ind; intros Hf.
  - by rewrite map_sum_empty.
  - rewrite map_sum_insert by done.
    assert (0 <= f x)%Z by (apply (Hf k); by rewrite lookup_insert_eq).
    assert (0 <= map_sum f m)%Z; [|lia].
    apply IH. intros k' x' Hx. apply (Hf k'). rewrite lookup_insert_ne; [done|]. congruence.
Qed.

(** One entry is at most the whole sum. *)
Lemma map_sum_lookup_le m k x :
  (forall k x, m !! k = Some x -> (0 <= f x)%Z) -> m !! k = Some x -> (f x <= map_sum f m)%Z.
Proof.
  intros Hf Hk. rewrite (map_sum_delete m k x) by done.
  assert (0 <= map_sum f (delete k m))%Z; [|lia].
  apply map_sum_nonneg. intros k' x' [_ Hx]%lookup_delete_Some. by eapply Hf.
Qed.

Lemma map_sum_list m : map_sum f m = sum_list_Z f ((map_to_list m).*2).
Proof.
  unfold map_sum. rewrite map_fold_foldr.
  induction (map_to_list m) as [|[k x] l IH]; simpl; [done|]. by rewrite IH.
Qed.
End map_sum.

(** ** Tactics *)

(** Splits the [if]s and [match]es of the goal and of the hypotheses on the way,
    keeping the equations; closes the contradictory cases. *)
Ltac branches :=
  repeat (case_match; simplify_eq/=; try done).

(** Decides the boolean comparisons of [Z] in the goal. *)
Ltac zcmp :=
  repeat match goal with
    | |- context [Z.ltb ?a ?b] => destruct (Z.ltb_spec a b)
    | |- context [Z.leb ?a ?b] => destruct (Z.leb_spec a b)
    | |- context [Z.eqb ?a ?b] => destruct (Z.eqb_spec a b)
    end.

(** ** Counting folds *)

(** A left fold whose step adds [g x] as long as the running total stays below
    a bound (that of the accumulator's type) computes the sum. *)
Lemma foldl_count {A} (f : Z -> A -> Z) (g : A -> Z) (B : Z) (l : list A) (n : Z) :
  (forall x, x ∈ l -> 0 <= g x)%Z ->
  (forall n x, x ∈ l -> 0 <= n -> n + g x < B -> f n x = n + g x)%Z ->
  (0 <= n)%Z -> (n + sum_list_Z g l < B)%Z ->
  foldl f n l = (n + sum_list_Z g l)%Z.
Proof.
  revert n. induction l as [|x l IH]; intros n Hg Hf Hn HB; simpl in *; [lia|].
  assert (0 <= g x)%Z by (apply Hg; set_solver).
  assert (0 <= sum_list_Z g l)%Z as Hnn.
  { clear -Hg. induction l as [|y l IHl]; simpl; [lia|].
    assert (0 <= g y)%Z by (apply Hg; set_solver).
    assert (0 <= sum_list_Z g l)%Z by (apply IHl; set_solver). lia. }
  rewrite Hf by (set_solver || lia).
  rewrite IH; [lia|set_solver| |lia|lia]. intros. apply Hf; [set_solver|done|done].
Qed.

Lemma sum_list_Z_perm {A} (g : A -> Z) (l l' : list A) :
  l ≡ₚ l' -> sum_list_Z g l = sum_list_Z g l'.
Proof. induction 1; simpl; lia. Qed.

Lemma sum_list_Z_app {A} (g : A -> Z) (l l' : list A) :
  sum_list_Z g (l ++ l') = (sum_list_Z g l + sum_list_Z g l')%Z.
Proof. induction l as [|x l IH]; simpl; lia. Qed.

Lemma sum_list_Z_nonneg {A} (g : A -> Z) (l : list A) :
  (forall x, x ∈ l -> 0 <= g x)%Z -> (0 <= sum_list_Z g l)%Z.
Proof.
  intros Hg. induction l as [|y l IH]; simpl; [lia|].
  assert (0 <= g y)%Z by (apply Hg; set_solver).
  assert (0 <= sum_list_Z g l)%Z by (apply IH; set_solver). lia.
Qed.

Lemma sum_list_Z_elem {A} (g : A -> Z) (l : list A) x :
  (forall x, x ∈ l -> 0 <= g x)%Z -> x ∈ l -> (g x <= sum_list_Z g l)%Z.
Proof.
  intros Hg. induction l as [|y l IH]; intros Hin; [set_solver|]; simpl.
  assert (0 <= sum_list_Z g l)%Z by (apply sum_list_Z_nonneg; set_solver).
  apply elem_of_cons in Hin as [->|Hin]; [lia|].
  assert (0 <= g y)%Z by (apply Hg; set_solver).
  assert (g x <= sum_list_Z g l)%Z; [apply IH; set_solver|lia].
Qed.

Lemma length_mbind_sum {A B} (f : A -> list B) (l : list A) :
  Z.of_nat (length (l ≫= f)) = sum_list_Z (fun x => Z.of_nat (length (f x))) l.
Proof.
  induction l as [|x l IH]; [done|]. change ((x :: l) ≫= f) with (f x ++ (l ≫= f)).
  rewrite length_app, Nat2Z.inj_add, IH. done.
Qed.

Lemma length_map_to_list_snd {K A} `{Countable K} (m : gmap K A) :
  length ((map_to_list m).*2) = base.size m.
Proof. by rewrite length_fmap, length_map_to_list. Qed.

Lemma to_signed_small w x :
  (1 <= w)%Z -> (0 <= x < 2 ^ (w - 1))%Z -> to_signed w x = x.
Proof.
  intros Hw Hx. assert (2 ^ w = 2 * 2 ^ (w - 1))%Z as E.
  { rewrite <- Z.pow_succ_r by lia. f_equal. lia. }
  unfold to_signed. rewrite wrap_id by (unfold in_range, modulus; lia).
  destruct (Z.ltb_spec x (2 ^ (w - 1))); lia.
Qed.

(** ** Descending iteration ([rbegin] to [rend]) *)

Lemma StronglySorted_reverse {A} (R : relation A) (l : list A) :
  StronglySorted R l -> StronglySorted (flip R) (reverse l).
Proof.
  induction 1 as [|x l Hl IH Hx]; [constructor|].
  rewrite reverse_cons. apply StronglySorted_app. split_and!.
  - intros y z Hy Hz%list_elem_of_singleton. subst z. unfold flip.
    rewrite elem_of_reverse in Hy. rewrite Forall_forall in Hx. by apply Hx.
  - done.
  - constructor; constructor.
Qed.

Lemma reverse_items_sorted {A} (m : gmap Z A) :
  StronglySorted (flip key_le) (reverse (map_items m)).
Proof. apply StronglySorted_reverse, map_items_sorted. Qed.

Lemma elem_of_reverse_items {A} (m : gmap Z A) k x :
  (k, x) ∈ reverse (map_items m) <-> m !! k = Some x.
Proof. by rewrite elem_of_reverse, elem_of_map_items. Qed.

(** ** Sets covered by lists *)

Lemma set_size_covered {K} `{Countable K} (X : gset K) (l : list K) :
  (forall k, k ∈ X -> k ∈ l) -> (size X <= length l)%nat.
Proof.
  intros Hl. unfold size, set_size. simpl.
  apply submseteq_length, NoDup_submseteq; [apply NoDup_elements|].
  intros k Hk. by apply Hl, elem_of_elements.
Qed.

(** ** Filters that keep all or nothing *)

Lemma list_filter_keeps {A} (P : A -> Prop) `{!forall x, Decision (P x)} (l : list A) :
  (forall x, x ∈ l -> P x) -> filter P l = l.
Proof.
  induction l as [|x l IH]; intros HP; [done|].
  rewrite filter_cons_True by (apply HP; set_solver). f_equal. apply IH. set_solver.
Qed.

Lemma list_filter_drops {A} (P : A -> Prop) `{!forall x, Decision (P x)} (l : list A) :
  (forall x, x ∈ l -> ~ P x) -> filter P l = [].
Proof.
  induction l as [|x l IH]; intros HP; [done|].
  rewrite filter_cons_False by (apply HP; set_solver). apply IH. set_solver.
Qed.

Lemma StronglySorted_filter {A} (R : relation A) (P : A -> Prop) `{!forall x, Decision (P x)} (l : list A) :
  StronglySorted R l -> StronglySorted R (filter P l).
Proof.
  induction 1 as [|x l Hl IH Hx]; [constructor|]. destruct (decide (P x)).
  - rewrite filter_cons_True by done. constructor; [done|]. rewrite Forall_forall in *.
    intros y [_ Hy]%list_elem_of_filter. by apply Hx.
  - by rewrite filter_cons_False by done.
Qed.

Lemma StronglySorted_drop {A} (R : relation A) n (l : list A) :
  StronglySorted R l -> StronglySorted R (drop n l).
Proof.
  revert l. induction n as [|n IH]; intros l; [by rewrite drop_0|].
  destruct l as [|x l]; [done|]. intros [Hl _]%StronglySorted_inv. by apply IH.
Qed.

Lemma NoDup_fst_filter {A B} (P : A * B -> Prop) `{!forall x, Decision (P x)} (l : list (A * B)) :
  NoDup l.*1 -> NoDup (filter P l).*1.
Proof.
  induction l as [|[a b] l IH]; [done|]. simpl. rewrite NoDup_cons. intros [Ha Hl].
  destruct (decide (P (a, b))).
  - rewrite filter_cons_True by done. simpl. rewrite NoDup_cons. split; [|by apply IH].
    intros (e & -> & [_ He]%list_elem_of_filter)%list_elem_of_fmap. apply Ha.
    apply list_elem_of_fmap. by exists e.
  - rewrite filter_cons_False by done. by apply IH.
Qed.

(** In a list with distinct keys, the key set splits along a split of the list. *)
Lemma list_to_set_take_drop {K} `{Countable K} n (l : list K) :
  NoDup l -> list_to_set l ∖ list_to_set (take n l) = (list_to_set (drop n l) : gset K).
Proof.
  intros Hnd. rewrite <- (take_drop n l) in Hnd at 1. apply NoDup_app in Hnd as (_ & Hdisj & _).
  rewrite <- (take_drop n l) at 1. rewrite list_to_set_app_L.
  set_solver.
Qed.

Lemma NoDup_fst_unique {A B} (l : list (A * B)) a b b' :
  NoDup l.*1 -> (a, b) ∈ l -> (a, b') ∈ l -> b = b'.
Proof.
  intros Hnd Hin1 Hin2. apply list_elem_of_lookup in Hin1 as [i Hi], Hin2 as [j Hj].
  assert (i = j) as ->; [|congruence].
  eapply (NoDup_lookup _ _ _ a Hnd); by rewrite list_lookup_fmap, ?Hi, ?Hj.
Qed.

Lemma and_iff_compat_l_strong (P Q R : Prop) : (P -> Q <-> R) -> P /\ Q <-> P /\ R.
Proof. tauto. Qed.

Lemma map_sum_ext {K A} `{Countable K} (f g : A -> Z) (m : gmap K A) :
  (forall k x, m !! k = Some x -> f x = g x) -> map_sum f m = map_sum g m.
Proof.
  induction m as [|k x m Hk IH] using map_ind; intros Hfg; [by rewrite !map_sum_empty|].
  rewrite !map_sum_insert by done. f_equal.
  - apply (Hfg k). by rewrite lookup_insert_eq.
  - apply IH. intros k' x' Hx. apply (Hfg k'). rewrite lookup_insert_ne; [done|]. congruence.
Qed.

Lemma map_sum_le {K A} `{Countable K} (f g : A -> Z) (m : gmap K A) :
  (forall k x, m !! k = Some x -> f x <= g x)%Z -> (map_sum f m <= map_sum g m)%Z.
Proof.
  induction m as [|k x m Hk IH] using map_ind; intros Hfg; [by rewrite !map_sum_empty|].
  rewrite !map_sum_insert by done.
  assert (f x <= g x)%Z by (apply (Hfg k); by rewrite lookup_insert_eq).
  assert (map_sum f m <= map_sum g m)%Z; [|lia].
  apply IH. intros k' x' Hx. apply (Hfg k'). rewrite lookup_insert_ne; [done|]. congruence.
Qed.

Lemma list_filter_iff' {A} (P Q : A -> Prop) `{!forall x, Decision (P x)} `{!forall x, Decision (Q x)} (l : list A) :
  (forall x, x ∈ l -> P x <-> Q x) -> filter P l = filter Q l.
Proof.
  induction l as [|x l IH]; intros HPQ; [done|]. destruct (decide (P x)) as [HP|HP].
  - rewrite !filter_cons_True by (try apply HPQ; set_solver). f_equal. apply IH. set_solver.
  - rewrite !filter_cons_False; [apply IH; set_solver| |done]. by rewrite <- HPQ by set_solver.
Qed.

(** Two sorted lists with the same elements are equal. *)
Lemma merge_sort_perm_eq (l l' : list Z) : l ≡ₚ l' -> merge_sort Z.le l = merge_sort Z.le l'.
Proof.
  intros Hp. apply (StronglySorted_unique Z.le).
  - apply (StronglySorted_merge_sort _).
  - apply (StronglySorted_merge_sort _).
  - by rewrite !merge_sort_Permutation.
Qed.

(** ** The end of a list *)

Definition last_n {A} (n : nat) (l : list A) : list A := drop (length l - n) l.

Lemma map_items_snoc {A} (m : gmap Z A) k x :
  (forall k' x', m !! k' = Some x' -> (k' < k)%Z) -> map_items (<[k := x]> m) = map_items m ++ [(k, x)].
Proof.
  intros Hk. assert (m !! k = None) as Hn by (destruct (m !! k) eqn:E; [apply Hk in E; lia|done]).
  apply (StronglySorted_unique_strong key_le).
  - intros [a u] [b v] H1 H2. unfold key_le. simpl. intros H3 H4. assert (a = b) as <- by lia. f_equal.
    apply elem_of_map_items in H1. apply elem_of_app in H2 as [H2|H2].
    + apply elem_of_map_items in H2. pose proof (Hk _ _ H2). rewrite lookup_insert_ne in H1 by lia. congruence.
    + apply list_elem_of_singleton in H2. injection H2 as -> ->. rewrite lookup_insert_eq in H1. congruence.
  - apply map_items_sorted.
  - apply StronglySorted_app_2; [|apply map_items_sorted|repeat constructor].
    intros [a u] [b v] H1 H2%list_elem_of_singleton. injection H2 as -> ->. apply elem_of_map_items, Hk in H1. unfold key_le. simpl. lia.
  - rewrite !map_items_perm, map_to_list_insert by done. by rewrite Permutation_app_comm.
Qed.

Lemma last_n_last {A} n (l : list A) : (0 < n)%nat -> last (last_n n l) = last l.
Proof.
  intros Hn. unfold last_n. destruct l as [|x l _] using rev_ind; [done|]. rewrite length_app. simpl.
  rewrite drop_app_le by lia. by rewrite !last_snoc.
Qed.

Lemma last_n_snoc {A} n (l : list A) x : last_n n (last_n n l ++ [x]) = last_n n (l ++ [x]).
Proof.
  unfold last_n. rewrite length_app, length_drop, length_app. simpl. destruct n as [|n].
  - rewrite !drop_ge; [done|rewrite length_app; simpl; lia|rewrite length_app, length_drop; simpl; lia].
  - rewrite (drop_app_le l) by lia. rewrite (drop_app_le (drop _ _)) by (rewrite length_drop; lia). rewrite drop_drop. f_equal. f_equal. lia.
Qed.

Lemma elem_of_last_n {A} n (l : list A) x : x ∈ last_n n l -> x ∈ l.
Proof. unfold last_n. intros H. rewrite <- (take_drop (length l - n) l). apply elem_of_app. by right. Qed.
