(* ===== verification/Votes.v ===== *)
(** * PBFT votes

    The vote objects that the vote manager, the network handlers and the PBFT
    manager exchange (libraries/types/vote).  Hashes, addresses, signatures and
    proofs are the numbers their fixed-size byte arrays denote; the all-zero
    array is [0].  A vote's hash and voter address are lazily cached fields of
    the C++ object: the record holds their value. *)

From S2P Require Import Prelude.

Abbreviation blk_hash_t := Z (only parsing).
Abbreviation vote_hash_t := Z (only parsing).
Abbreviation trx_hash_t := Z (only parsing).
Abbreviation addr_t := Z (only parsing).
Abbreviation PbftPeriod := Z (only parsing).
Abbreviation PbftRound := Z (only parsing).
Abbreviation PbftStep := Z (only parsing).

Definition kNullBlockHash : blk_hash_t := 0.

Inductive PbftVoteTypes : Type :=
| invalid_vote
| propose_vote
| soft_vote
| cert_vote
| next_vote.

#[export] Instance PbftVoteTypes_eq_dec : EqDecision PbftVoteTypes.
Proof. solve_decision. Defined.

Definition vote_type_to_nat (t : PbftVoteTypes) : nat :=
  match t with
  | invalid_vote => 0
  | propose_vote => 1
  | soft_vote => 2
  | cert_vote => 3
  | next_vote => 4
  end.

Definition vote_type_of_nat (n : nat) : PbftVoteTypes :=
  match n with
  | 0 => invalid_vote
  | 1 => propose_vote
  | 2 => soft_vote
  | 3 => cert_vote
  | _ => next_vote
  end.

#[export] Instance PbftVoteTypes_countable : Countable PbftVoteTypes.
Proof. apply (inj_countable' vote_type_to_nat vote_type_of_nat). by intros []. Defined.

Record VrfPbftMsg := mkVrfPbftMsg {
  period_ : PbftPeriod;
  round_ : PbftRound;
  step_ : PbftStep;
}.

(** [VrfPbftMsg::getType]: the type of a vote is its step number, capped. *)
Definition msg_getType (msg : VrfPbftMsg) : PbftVoteTypes :=
  match step_ msg with
  | 0 => invalid_vote
  | 1 => propose_vote
  | 2 => soft_vote
  | 3 => cert_vote
  | _ => next_vote
  end%Z.

(** [VrfPbftMsg::operator==]. *)
Definition msg_eqb (a b : VrfPbftMsg) : bool :=
  ((period_ a =? period_ b) && (round_ a =? round_ b) && (step_ a =? step_ b))%Z.

Record PbftVote := mkPbftVote {
  block_hash_ : blk_hash_t;
  pbft_msg_ : VrfPbftMsg;
  proof_ : Z;
  vote_signature_ : Z;
  vote_hash_ : vote_hash_t;
  cached_voter_addr_ : addr_t;
  weight_ : option Z;
}.

Definition getHash (v : PbftVote) : vote_hash_t := vote_hash_ v.
Definition getBlockHash (v : PbftVote) : blk_hash_t := block_hash_ v.
Definition getVoterAddr (v : PbftVote) : addr_t := cached_voter_addr_ v.
Definition getType (v : PbftVote) : PbftVoteTypes := msg_getType (pbft_msg_ v).
Definition getPeriod (v : PbftVote) : PbftPeriod := period_ (pbft_msg_ v).
Definition getRound (v : PbftVote) : PbftRound := round_ (pbft_msg_ v).
Definition getStep (v : PbftVote) : PbftStep := step_ (pbft_msg_ v).
Definition getWeight (v : PbftVote) : option Z := weight_ v.

(** The weight of a validated vote, as a number. *)
Definition weight_of (v : PbftVote) : Z := default 0%Z (getWeight v).

#[export] Instance VrfPbftMsg_eq_dec : EqDecision VrfPbftMsg.
Proof. solve_decision. Defined.
#[export] Instance PbftVote_eq_dec : EqDecision PbftVote.
Proof. solve_decision. Defined.

(** A vote's coordinates: where it is stored. *)
Definition at_coord (p : PbftPeriod) (r : PbftRound) (s : PbftStep) (v : PbftVote) : Prop :=
  getPeriod v = p /\ getRound v = r /\ getStep v = s.

(** The step decides the type: votes of one step have one type. *)
Lemma getType_step v v' : getStep v = getStep v' -> getType v = getType v'.
Proof. unfold getStep, getType, msg_getType. by intros ->. Qed.

Lemma getType_next v : (4 <= getStep v)%Z -> getType v = next_vote.
Proof.
  unfold getStep, getType, msg_getType. destruct (step_ _) as [|q|q]; [lia| |lia].
  do 2 (destruct q as [q|q|]; try done; try lia).
Qed.

Lemma getType_cert v : getType v = cert_vote <-> getStep v = 3%Z.
Proof.
  unfold getStep, getType, msg_getType. split; [|by intros ->].
  destruct (step_ _) as [|q|q]; try done. do 2 (destruct q as [q|q|]; try done).
Qed.

Lemma msg_eqb_spec a b : msg_eqb a b = true <-> a = b.
Proof.
  unfold msg_eqb. rewrite !andb_true_iff, !Z.eqb_eq.
  destruct a, b; simpl. split; [intros [[-> ->] ->]|intros [= -> -> ->]]; done.
Qed.
