(* ===== verification/VerifiedVotes.v ===== *)
(** * Verified votes

    [VerifiedVotes] (consensus/src/vote_manager/verified_votes.cpp): the store
    of all verified votes, by period, round, step and voted block.  The locks
    make every method atomic, so an operation is a function from the state
    before it to its result and the state after it. *)

From S2P Require Import Prelude Votes.
Local Open Scope Z_scope.

Inductive TwoTPlusOneVotedBlockType : Type :=
| SoftVotedBlock
| CertVotedBlock
| NextVotedBlock
| NextVotedNullBlock.

#[export] Instance TwoTPlusOneVotedBlockType_eq_dec : EqDecision TwoTPlusOneVotedBlockType.
Proof. solve_decision. Defined.

#[export] Instance TwoTPlusOneVotedBlockType_countable : Countable TwoTPlusOneVotedBlockType.
Proof.
  apply (inj_countable'
    (fun t => match t with SoftVotedBlock => 0%nat | CertVotedBlock => 1%nat
              | NextVotedBlock => 2%nat | NextVotedNullBlock => 3%nat end)
    (fun n => match n with 0%nat => SoftVotedBlock | 1%nat => CertVotedBlock
              | 2%nat => NextVotedBlock | _ => NextVotedNullBlock end)).
  by intros [].
Defined.

Record VotedBlock := mkVotedBlock { vb_hash : blk_hash_t; vb_step : PbftStep }.

Record VotesWithWeight := mkVotesWithWeight {
  weight : Z;
  votes : gmap vote_hash_t PbftVote;
}.

Record StepVotes := mkStepVotes {
  voted_values : gmap blk_hash_t VotesWithWeight;
  unique_voters : gmap addr_t (PbftVote * option PbftVote);
}.

Record RoundVerifiedVotes := mkRoundVerifiedVotes {
  two_t_plus_one_voted_blocks_ : gmap TwoTPlusOneVotedBlockType VotedBlock;
  step_votes : gmap PbftStep StepVotes;
  network_t_plus_one_step : PbftStep;
}.

Abbreviation RoundVerifiedVotesMap := (gmap PbftRound RoundVerifiedVotes).
Abbreviation PeriodVerifiedVotesMap := (gmap PbftPeriod RoundVerifiedVotesMap).

(** The value-initialised ([{}]) objects that the insertions create. *)
Definition no_votes : VotesWithWeight := mkVotesWithWeight 0 ∅.
Definition empty_step : StepVotes := mkStepVotes ∅ ∅.
Definition empty_round : RoundVerifiedVotes := mkRoundVerifiedVotes ∅ ∅ 0.

(** ** Queries *)

(** [std::accumulate(..., 0, ...)] in [size] accumulates in an [int]: each step
    widens it to [uint64_t], adds, and narrows the sum back. *)
Definition accumulate_sizes (vs : list VotesWithWeight) : Z :=
  foldl (fun acc vw => to_signed 32 (u64 (u64 acc + Z.of_nat (base.size (votes vw))))) 0 vs.

Definition size (vv : PeriodVerifiedVotesMap) : Z :=
  foldl (fun n period =>
    foldl (fun n round =>
      foldl (fun n step => u64 (n + u64 (accumulate_sizes ((map_to_list (voted_values (snd step))).*2))))
        n (map_items (step_votes (snd round))))
      n (map_items (snd period)))
    0 (map_items vv).

Definition round_all_votes (round : RoundVerifiedVotes) : list PbftVote :=
  '(_, step) ← map_items (step_votes round);
  '(_, voted_value) ← map_to_list (voted_values step);
  (map_to_list (votes voted_value)).*2.

(** [VerifiedVotes::votes]. *)
Definition all_votes (vv : PeriodVerifiedVotesMap) : list PbftVote :=
  '(_, period_votes) ← map_items vv;
  '(_, round_votes) ← map_items period_votes;
  round_all_votes round_votes.

Definition getPeriodVotes (vv : PeriodVerifiedVotesMap) (period : PbftPeriod) :
    option RoundVerifiedVotesMap :=
  vv !! period.

Definition getRoundVotes (vv : PeriodVerifiedVotesMap) (period : PbftPeriod) (round : PbftRound) :
    option RoundVerifiedVotes :=
  match vv !! period with
  | None => None
  | Some period_votes => period_votes !! round
  end.

Definition getStepVotes (vv : PeriodVerifiedVotesMap) (period : PbftPeriod) (round : PbftRound)
    (step : PbftStep) : option StepVotes :=
  match vv !! period with
  | None => None
  | Some period_votes =>
      match period_votes !! round with
      | None => None
      | Some round_votes => step_votes round_votes !! step
      end
  end.

Definition getTwoTPlusOneVotedBlock (vv : PeriodVerifiedVotesMap) (period : PbftPeriod)
    (round : PbftRound) (type : TwoTPlusOneVotedBlockType) : option VotedBlock :=
  match vv !! period with
  | None => None
  | Some period_votes =>
      match period_votes !! round with
      | None => None
      | Some round_votes => two_t_plus_one_voted_blocks_ round_votes !! type
      end
  end.

Definition getTwoTPlusOneVotedBlockVotes (vv : PeriodVerifiedVotesMap) (period : PbftPeriod)
    (round : PbftRound) (type : TwoTPlusOneVotedBlockType) : outcome (list PbftVote) :=
  match getTwoTPlusOneVotedBlock vv period round type with
  | None => Done []
  | Some voted =>
      match getStepVotes vv period round (vb_step voted) with
      | None => Done []
      | Some sv =>
          match voted_values sv !! vb_hash voted with
          | None => AssertFailed
          | Some found => Done ((map_to_list (votes found)).*2)
          end
      end
  end.

(** ** Updates *)

(** Writes through the iterators that the lookups returned. *)
Definition put_round (vv : PeriodVerifiedVotesMap) (p : PbftPeriod) (r : PbftRound)
    (rv : RoundVerifiedVotes) : PeriodVerifiedVotesMap :=
  <[p := <[r := rv]> (default ∅ (vv !! p))]> vv.

Definition with_step (rv : RoundVerifiedVotes) (s : PbftStep) (sv : StepVotes) :
    RoundVerifiedVotes :=
  mkRoundVerifiedVotes (two_t_plus_one_voted_blocks_ rv) (<[s := sv]> (step_votes rv))
    (network_t_plus_one_step rv).

Definition setNetworkTPlusOneStep (vv : PeriodVerifiedVotesMap) (vote : PbftVote) :
    PeriodVerifiedVotesMap :=
  match getRoundVotes vv (getPeriod vote) (getRound vote) with
  | None => vv
  | Some rv =>
      put_round vv (getPeriod vote) (getRound vote)
        (mkRoundVerifiedVotes (two_t_plus_one_voted_blocks_ rv) (step_votes rv) (getStep vote))
  end.

(** [emplace] keeps the entry that is already there. *)
Definition insertTwoTPlusOneVotedBlock (vv : PeriodVerifiedVotesMap)
    (type : TwoTPlusOneVotedBlockType) (vote : PbftVote) : PeriodVerifiedVotesMap :=
  match getRoundVotes vv (getPeriod vote) (getRound vote) with
  | None => vv
  | Some rv =>
      match two_t_plus_one_voted_blocks_ rv !! type with
      | Some _ => vv
      | None =>
          put_round vv (getPeriod vote) (getRound vote)
            (mkRoundVerifiedVotes
               (<[type := mkVotedBlock (getBlockHash vote) (getStep vote)]>
                  (two_t_plus_one_voted_blocks_ rv))
               (step_votes rv) (network_t_plus_one_step rv))
      end
  end.

(** The part of [insertUniqueVoter] after the lookup of the voter: what becomes
    of the voter's entry and which existing vote conflicts with the new one. *)
Definition voter_entry (found : option (PbftVote * option PbftVote)) (vote : PbftVote) :
    (PbftVote * option PbftVote) * option PbftVote :=
  match found with
  | None => ((vote, None), None)
  | Some (first, second) =>
      let conflict :=
        match second with
        | Some v2 => if negb (getHash vote =? getHash v2) then v2 else first
        | None => first
        end in
      if negb (getHash first =? getHash vote) then
        if bool_decide (getType vote = next_vote) && negb (getStep vote mod 2 =? 0) then
          match second with
          | None =>
              if (getBlockHash first =? kNullBlockHash) && negb (getBlockHash vote =? kNullBlockHash)
              then ((first, Some vote), None)
              else if negb (getBlockHash first =? kNullBlockHash) && (getBlockHash vote =? kNullBlockHash)
              then ((first, Some vote), None)
              else ((first, second), Some conflict)
          | Some v2 =>
              if getHash v2 =? getHash vote then ((first, second), None)
              else ((first, second), Some conflict)
          end
        else ((first, second), Some conflict)
      else ((first, second), None)
  end.

Definition insertUniqueVoter (vv : PeriodVerifiedVotesMap) (vote : PbftVote) :
    PeriodVerifiedVotesMap * option PbftVote :=
  match getRoundVotes vv (getPeriod vote) (getRound vote) with
  | None => (vv, None)
  | Some rv =>
      match step_votes rv !! getStep vote with
      | None => (vv, None)
      | Some sv =>
          let '(entry, existing) := voter_entry (unique_voters sv !! getVoterAddr vote) vote in
          (put_round vv (getPeriod vote) (getRound vote)
             (with_step rv (getStep vote)
                (mkStepVotes (voted_values sv) (<[getVoterAddr vote := entry]> (unique_voters sv)))),
           existing)
      end
  end.

(** The missing levels of the store are created on the way, also when the vote
    turns out to be known. *)
Definition insertVotedValue (vv : PeriodVerifiedVotesMap) (vote : PbftVote) :
    outcome (PeriodVerifiedVotesMap * option VotesWithWeight) :=
  let rv := default empty_round (getRoundVotes vv (getPeriod vote) (getRound vote)) in
  let sv := default empty_step (step_votes rv !! getStep vote) in
  let vw := default no_votes (voted_values sv !! getBlockHash vote) in
  let store vw' :=
    put_round vv (getPeriod vote) (getRound vote)
      (with_step rv (getStep vote)
         (mkStepVotes (<[getBlockHash vote := vw']> (voted_values sv)) (unique_voters sv))) in
  match votes vw !! getHash vote with
  | Some _ => Done (store vw, None)
  | None =>
      match getWeight vote with
      | None => Undefined
      | Some w =>
          let vw' := mkVotesWithWeight (u64 (weight vw + w)) (<[getHash vote := vote]> (votes vw)) in
          Done (store vw', Some vw')
      end
  end.

Definition cleanupVotesByPeriod (vv : PeriodVerifiedVotesMap) (pbft_period : PbftPeriod) :
    PeriodVerifiedVotesMap :=
  erase_below (map_items vv) pbft_period vv.

(** ** Lookups after updates *)

Lemma getStepVotes_round vv p r s :
  getStepVotes vv p r s = getRoundVotes vv p r ≫= fun rv => step_votes rv !! s.
Proof. unfold getStepVotes, getRoundVotes. by repeat case_match. Qed.

Lemma getRoundVotes_put vv p r rv p' r' :
  getRoundVotes (put_round vv p r rv) p' r' =
    if decide (p = p' /\ r = r') then Some rv else getRoundVotes vv p' r'.
Proof.
  unfold getRoundVotes, put_round. destruct (decide (p = p')) as [<-|Hp].
  - rewrite lookup_insert_eq. destruct (decide (r = r')) as [<-|Hr].
    + by rewrite lookup_insert_eq, decide_True.
    + rewrite lookup_insert_ne, decide_False by naive_solver.
      destruct (vv !! p); simpl; [done|]. by rewrite lookup_empty.
  - by rewrite lookup_insert_ne, decide_False by naive_solver.
Qed.

Lemma getStepVotes_put vv p r rv p' r' s' :
  getStepVotes (put_round vv p r rv) p' r' s' =
    if decide (p = p' /\ r = r') then step_votes rv !! s' else getStepVotes vv p' r' s'.
Proof. rewrite !getStepVotes_round, getRoundVotes_put. by case_decide. Qed.

(** The votes for one block in one step. *)
Definition voted_at (vv : PeriodVerifiedVotesMap) (p : PbftPeriod) (r : PbftRound) (s : PbftStep)
    (h : blk_hash_t) : VotesWithWeight :=
  default no_votes (getStepVotes vv p r s ≫= fun sv => voted_values sv !! h).

(** ** Well-formedness *)

Record vw_wf (p : PbftPeriod) (r : PbftRound) (s : PbftStep) (h : blk_hash_t)
    (vw : VotesWithWeight) : Prop := {
  vw_weight : weight vw = u64 (map_sum weight_of (votes vw));
  vw_votes vh v : votes vw !! vh = Some v ->
    getHash v = vh /\ at_coord p r s v /\ getBlockHash v = h /\ is_Some (getWeight v);
}.

(** A voter has one vote per step, or, in the second finishing steps, one for
    the null block and one for another block. *)
Definition entry_wf (p : PbftPeriod) (r : PbftRound) (s : PbftStep) (a : addr_t)
    (e : PbftVote * option PbftVote) : Prop :=
  let '(v1, o) := e in
  getVoterAddr v1 = a /\ at_coord p r s v1 /\
  match o with
  | None => True
  | Some v2 =>
      getVoterAddr v2 = a /\ at_coord p r s v2 /\ getHash v1 <> getHash v2 /\
      getType v2 = next_vote /\ s mod 2 = 1 /\
      (getBlockHash v1 = kNullBlockHash <-> getBlockHash v2 <> kNullBlockHash)
  end.

Record step_wf (p : PbftPeriod) (r : PbftRound) (s : PbftStep) (sv : StepVotes) : Prop := {
  sv_values h vw : voted_values sv !! h = Some vw -> vw_wf p r s h vw;
  sv_voters a e : unique_voters sv !! a = Some e -> entry_wf p r s a e;
}.

Record round_wf (p : PbftPeriod) (r : PbftRound) (rv : RoundVerifiedVotes) : Prop := {
  rv_steps s sv : step_votes rv !! s = Some sv -> step_wf p r s sv;
  rv_blocks t b : two_t_plus_one_voted_blocks_ rv !! t = Some b ->
    exists sv vw, step_votes rv !! vb_step b = Some sv /\ voted_values sv !! vb_hash b = Some vw;
}.

Definition vv_wf (vv : PeriodVerifiedVotesMap) : Prop :=
  forall p r rv, getRoundVotes vv p r = Some rv -> round_wf p r rv.

Create HintDb vv.
#[export] Hint Resolve vw_weight vw_votes sv_values sv_voters rv_steps rv_blocks : vv.

Lemma vv_wf_empty : vv_wf ∅.
Proof. intros p r rv. unfold getRoundVotes. by rewrite lookup_empty. Qed.

Lemma no_votes_wf p r s h : vw_wf p r s h no_votes.
Proof.
  split; simpl; [by rewrite map_sum_empty|]. by intros ??; rewrite lookup_empty.
Qed.

Lemma empty_step_wf p r s : step_wf p r s empty_step.
Proof. by split; simpl; intros ??; rewrite lookup_empty. Qed.

Lemma empty_round_wf p r : round_wf p r empty_round.
Proof. by split; simpl; intros ??; rewrite lookup_empty. Qed.

#[export] Hint Resolve vv_wf_empty no_votes_wf empty_step_wf empty_round_wf : vv.

Lemma vv_wf_put vv p r rv : vv_wf vv -> round_wf p r rv -> vv_wf (put_round vv p r rv).
Proof.
  intros Hvv Hrv p' r' rv'. rewrite getRoundVotes_put.
  case_decide as D; [destruct D as [<- <-]; naive_solver|apply Hvv].
Qed.

Lemma round_wf_default vv p r :
  vv_wf vv -> round_wf p r (default empty_round (getRoundVotes vv p r)).
Proof. intros Hvv. destruct (getRoundVotes vv p r) eqn:E; simpl; auto with vv. Qed.

Lemma step_wf_default p r s rv :
  round_wf p r rv -> step_wf p r s (default empty_step (step_votes rv !! s)).
Proof. intros Hrv. destruct (step_votes rv !! s) eqn:E; simpl; eauto with vv. Qed.

Lemma vw_wf_default p r s h sv :
  step_wf p r s sv -> vw_wf p r s h (default no_votes (voted_values sv !! h)).
Proof. intros Hsv. destruct (voted_values sv !! h) eqn:E; simpl; eauto with vv. Qed.

#[export] Hint Resolve vv_wf_put round_wf_default step_wf_default vw_wf_default : vv.

(** Replacing a step keeps a round well formed when no voted block is lost. *)
Lemma round_wf_with_step p r s rv sv :
  round_wf p r rv -> step_wf p r s sv ->
  (forall sv0 h, step_votes rv !! s = Some sv0 -> is_Some (voted_values sv0 !! h) ->
    is_Some (voted_values sv !! h)) ->
  round_wf p r (with_step rv s sv).
Proof.
  intros Hrv Hsv Hkeep. split; simpl.
  - intros s' sv' [[<- <-]|[? ?]]%lookup_insert_Some; eauto with vv.
  - intros t b Hb. destruct (rv_blocks _ _ _ Hrv _ _ Hb) as (sv0 & vw & Hs & Hh).
    destruct (decide (s = vb_step b)) as [->|Hne].
    + destruct (Hkeep _ (vb_hash b) Hs) as [vw' ?]; [by rewrite Hh|].
      exists sv, vw'. by rewrite lookup_insert_eq.
    + exists sv0, vw. by rewrite lookup_insert_ne.
Qed.

(** Adding a fresh vote adds its weight to the recorded one. *)
Lemma vw_wf_add p r s h vw v w :
  vw_wf p r s h vw -> votes vw !! getHash v = None -> at_coord p r s v ->
  getBlockHash v = h -> getWeight v = Some w ->
  vw_wf p r s h (mkVotesWithWeight (u64 (weight vw + w)) (<[getHash v := v]> (votes vw))).
Proof.
  intros Hvw Hnew Hc Hh Hw. split; simpl.
  - rewrite map_sum_insert, (vw_weight _ _ _ _ _ Hvw), wrap_add_l by done.
    unfold weight_of at 2. rewrite Hw. simpl. f_equal. lia.
  - intros vh v' [[<- <-]|[? ?]]%lookup_insert_Some; [by rewrite Hw; eauto|].
    by eapply vw_votes.
Qed.

Lemma insertVotedValue_wf vv vote vv' res :
  vv_wf vv -> insertVotedValue vv vote = Done (vv', res) -> vv_wf vv'.
Proof.
  intros Hvv. unfold insertVotedValue.
  set (rv := default empty_round _). set (sv := default empty_step _).
  assert (round_wf (getPeriod vote) (getRound vote) rv) as Hrv by (subst rv; auto with vv).
  assert (step_wf (getPeriod vote) (getRound vote) (getStep vote) sv) as Hsv
    by (subst sv; auto with vv).
  assert (forall vw', vw_wf (getPeriod vote) (getRound vote) (getStep vote) (getBlockHash vote) vw' ->
    vv_wf (put_round vv (getPeriod vote) (getRound vote)
      (with_step rv (getStep vote)
        (mkStepVotes (<[getBlockHash vote := vw']> (voted_values sv)) (unique_voters sv))))) as Hput.
  { intros vw' Hvw'. apply vv_wf_put; [done|]. apply round_wf_with_step; [done| |].
    - split; simpl; [|eauto with vv].
      intros h vw [[<- <-]|[? ?]]%lookup_insert_Some; eauto with vv.
    - intros sv0 h Hs0 Hh. simpl. subst sv. rewrite Hs0. simpl.
      apply lookup_insert_is_Some'. auto. }
  assert (vw_wf (getPeriod vote) (getRound vote) (getStep vote) (getBlockHash vote)
    (default no_votes (voted_values sv !! getBlockHash vote))) as Hvw by auto with vv.
  branches; intros; simplify_eq; apply Hput; [done|].
  apply vw_wf_add; done.
Qed.

Lemma voter_entry_wf p r s found vote :
  (forall e, found = Some e -> entry_wf p r s (getVoterAddr vote) e) ->
  at_coord p r s vote ->
  entry_wf p r s (getVoterAddr vote) (voter_entry found vote).1.
Proof.
  intros Hf Hc. destruct found as [[v1 o]|]; simpl; [|done].
  specialize (Hf _ eq_refl). pose proof Hc as (_ & _ & Hs).
  repeat case_match; simplify_eq/=; try done.
  all: repeat match goal with
    | H : (_ && _)%bool = true |- _ => apply andb_true_iff in H as [? ?]
    | H : negb _ = true |- _ => apply negb_true_iff in H
    | H : bool_decide _ = true |- _ => apply bool_decide_eq_true in H
    | H : (_ =? _) = false |- _ => apply Z.eqb_neq in H
    | H : (_ =? _) = true |- _ => apply Z.eqb_eq in H
    end.
  all: destruct Hf as (? & ? & _); split_and!; auto; try tauto.
  all: pose proof (Z.mod_pos_bound (getStep vote) 2); lia.
Qed.

Lemma insertUniqueVoter_wf vv vote : vv_wf vv -> vv_wf (insertUniqueVoter vv vote).1.
Proof.
  intros Hvv. unfold insertUniqueVoter.
  destruct (getRoundVotes _ _ _) as [rv|] eqn:Erv; [|done].
  destruct (step_votes rv !! _) as [sv|] eqn:Esv; [|done].
  destruct (voter_entry _ _) as [entry existing] eqn:Eve. simpl.
  assert (round_wf (getPeriod vote) (getRound vote) rv) as Hrv by auto.
  assert (step_wf (getPeriod vote) (getRound vote) (getStep vote) sv) as Hsv by eauto with vv.
  apply vv_wf_put; [done|]. apply round_wf_with_step; [done| |].
  - split; simpl; [eauto with vv|].
    intros a e [[<- <-]|[? ?]]%lookup_insert_Some; [|eauto with vv].
    change entry with (entry, existing).1. rewrite <- Eve.
    apply voter_entry_wf; [|done]. eauto with vv.
  - simpl. intros. by simplify_eq.
Qed.

Lemma setNetworkTPlusOneStep_wf vv vote : vv_wf vv -> vv_wf (setNetworkTPlusOneStep vv vote).
Proof.
  intros Hvv. unfold setNetworkTPlusOneStep. destruct (getRoundVotes _ _ _) as [rv|] eqn:E; [|done].
  apply vv_wf_put; [done|]. specialize (Hvv _ _ _ E). split; simpl; eauto with vv.
Qed.

(** The caller records a 2t+1 voted block only for a block with stored votes. *)
Lemma insertTwoTPlusOneVotedBlock_wf vv type vote :
  vv_wf vv ->
  (exists sv, getStepVotes vv (getPeriod vote) (getRound vote) (getStep vote) = Some sv /\
    is_Some (voted_values sv !! getBlockHash vote)) ->
  vv_wf (insertTwoTPlusOneVotedBlock vv type vote).
Proof.
  intros Hvv (sv & Hsv & [vw Hvw]). unfold insertTwoTPlusOneVotedBlock.
  rewrite getStepVotes_round in Hsv.
  destruct (getRoundVotes _ _ _) as [rv|] eqn:E; [|done]. simpl in Hsv.
  case_match; [done|]. apply vv_wf_put; [done|]. specialize (Hvv _ _ _ E).
  split; simpl; [eauto with vv|].
  intros t b [[<- <-]|[? ?]]%lookup_insert_Some; [|eauto with vv]. simpl. eauto.
Qed.

Lemma cleanupVotesByPeriod_lookup vv bound p :
  cleanupVotesByPeriod vv bound !! p = if decide (p < bound) then None else vv !! p.
Proof. apply erase_below_all. Qed.

Lemma cleanupVotesByPeriod_wf vv bound : vv_wf vv -> vv_wf (cleanupVotesByPeriod vv bound).
Proof.
  intros Hvv p r rv. unfold getRoundVotes. rewrite cleanupVotesByPeriod_lookup.
  case_decide; [done|]. apply Hvv.
Qed.

(** ** Properties of the store *)

Lemma voted_at_put vv p r rv s sv h vw p' r' s' h' :
  voted_at (put_round vv p r (with_step rv s (mkStepVotes (<[h := vw]> (voted_values sv))
    (unique_voters sv)))) p' r' s' h' =
  if decide (p = p' /\ r = r') then
    default no_votes
      ((if decide (s = s') then Some (mkStepVotes (<[h := vw]> (voted_values sv)) (unique_voters sv))
        else step_votes rv !! s') ≫= fun sv => voted_values sv !! h')
  else voted_at vv p' r' s' h'.
Proof.
  unfold voted_at. rewrite getStepVotes_put. case_decide; [|done]. simpl.
  rewrite lookup_insert. done.
Qed.

Lemma voted_at_default vv p r s h :
  voted_at vv p r s h =
  default no_votes
    (voted_values (default empty_step
      (step_votes (default empty_round (getRoundVotes vv p r)) !! s)) !! h).
Proof.
  unfold voted_at. rewrite getStepVotes_round. destruct (getRoundVotes _ _ _) as [rv|]; simpl.
  - by destruct (step_votes rv !! s).
  - by rewrite !lookup_empty.
Qed.

Lemma insertVotedValue_effect vv vote w :
  getWeight vote = Some w ->
  let p := getPeriod vote in let r := getRound vote in
  let s := getStep vote in let h := getBlockHash vote in
  exists vv' res,
    insertVotedValue vv vote = Done (vv', res) /\
    (forall p' r' s' h', (p', r', s', h') <> (p, r, s, h) ->
      voted_at vv' p' r' s' h' = voted_at vv p' r' s' h') /\
    match votes (voted_at vv p r s h) !! getHash vote with
    | Some _ => res = None /\ voted_at vv' p r s h = voted_at vv p r s h
    | None =>
        res = Some (voted_at vv' p r s h) /\
        votes (voted_at vv' p r s h) = <[getHash vote := vote]> (votes (voted_at vv p r s h)) /\
        weight (voted_at vv' p r s h) = u64 (weight (voted_at vv p r s h) + w)
    end.
Proof.
  intros Hw p r s h. rewrite (voted_at_default vv p r s h).
  unfold insertVotedValue. fold p r s h. rewrite Hw.
  set (rv := default empty_round _). set (sv := default empty_step _).
  set (vw := default no_votes _).
  assert (forall vw', voted_at (put_round vv p r (with_step rv s
    (mkStepVotes (<[h := vw']> (voted_values sv)) (unique_voters sv)))) p r s h = vw') as Hat.
  { intros vw'. rewrite voted_at_put, !decide_True by done. simpl. by rewrite lookup_insert_eq. }
  assert (forall vw' p' r' s' h', (p', r', s', h') <> (p, r, s, h) ->
    voted_at (put_round vv p r (with_step rv s
      (mkStepVotes (<[h := vw']> (voted_values sv)) (unique_voters sv)))) p' r' s' h' =
    voted_at vv p' r' s' h') as Hne.
  { intros vw' p' r' s' h' Hne. rewrite voted_at_put.
    destruct (decide (p = p' /\ r = r')) as [[<- <-]|]; [|done].
    rewrite (voted_at_default vv p r s' h'). fold rv.
    destruct (decide (s = s')) as [<-|]; simpl; fold sv.
    - rewrite lookup_insert_ne by congruence. by destruct (voted_values sv !! h').
    - by destruct (step_votes rv !! s'). }
  destruct (votes vw !! getHash vote).
  - eexists _, _. split; [done|]. auto.
  - eexists _, _. split; [done|]. rewrite Hat. auto.
Qed.

(** [insertVotedValue] never fails for a vote with a weight; it adds a new
    vote, and its weight modulo 2^64, to the votes of its period, round, step
    and block, reports the updated group, and touches no other group; a vote
    that is already stored is reported as such and changes no group. *)
Theorem insertVotedValue_correct vv vote w :
  getWeight vote = Some w ->
  let p := getPeriod vote in let r := getRound vote in
  let s := getStep vote in let h := getBlockHash vote in
  exists vv' res,
    insertVotedValue vv vote = Done (vv', res) /\
    (forall p' r' s' h', (p', r', s', h') <> (p, r, s, h) ->
      voted_at vv' p' r' s' h' = voted_at vv p' r' s' h') /\
    match votes (voted_at vv p r s h) !! getHash vote with
    | Some _ => res = None /\ voted_at vv' p r s h = voted_at vv p r s h
    | None =>
        res = Some (voted_at vv' p r s h) /\
        votes (voted_at vv' p r s h) = <[getHash vote := vote]> (votes (voted_at vv p r s h)) /\
        weight (voted_at vv' p r s h) = u64 (weight (voted_at vv p r s h) + w)
    end.
Proof. apply insertVotedValue_effect. Qed.

Definition sample_vote : PbftVote := mkPbftVote 7 (mkVrfPbftMsg 5 1 2) 0 0 11 3 (Some 4).

Example insertVotedValue_correct_witness :
  getWeight sample_vote = Some 4 /\
  weight (voted_at ∅ 5 1 2 7) = 0 /\
  exists vv' res, insertVotedValue ∅ sample_vote = Done (vv', res) /\
    weight (voted_at vv' 5 1 2 7) = 4.
Proof.
  split; [reflexivity|]. split; [vm_compute; reflexivity|].
  destruct (insertVotedValue_correct ∅ sample_vote 4 eq_refl) as (vv' & res & H & _ & Hm).
  exists vv', res. split; [exact H|]. vm_compute in Hm. destruct Hm as (_ & _ & Hm). exact Hm.
Defined.

(** Which of the two slots of a voter's entry hold a vote with a given hash. *)
Definition in_entry (e : PbftVote * option PbftVote) (vh : vote_hash_t) : Prop :=
  getHash e.1 = vh \/ exists v2, e.2 = Some v2 /\ getHash v2 = vh.

(** The second slot of an entry is only ever used in the second finishing steps. *)
Definition second_slot_ok (found : option (PbftVote * option PbftVote)) (vote : PbftVote) : Prop :=
  forall v1 v2, found = Some (v1, Some v2) ->
    bool_decide (getType vote = next_vote) && negb (getStep vote mod 2 =? 0) = true.

Lemma voter_entry_cases found vote :
  second_slot_ok found vote ->
  match (voter_entry found vote).2 with
  | None => in_entry (voter_entry found vote).1 (getHash vote)
  | Some old =>
      exists e, found = Some e /\ (voter_entry found vote).1 = e /\
        (old = e.1 \/ e.2 = Some old) /\ getHash old <> getHash vote /\
        ~ in_entry e (getHash vote)
  end.
Proof.
  intros Hok. destruct found as [[v1 o]|]; simpl; [|by left].
  destruct (Z.eqb_spec (getHash v1) (getHash vote)) as [E|N]; simpl; [by left|].
  assert (forall old, (old = v1 \/ o = Some old) -> getHash old <> getHash vote ->
    (forall v2, o = Some v2 -> getHash v2 <> getHash vote) ->
    exists e, Some (v1, o) = Some e /\ (v1, o) = e /\ (old = e.1 \/ e.2 = Some old) /\
      getHash old <> getHash vote /\ ~ in_entry e (getHash vote)) as Hc.
  { intros old ??? . exists (v1, o). split_and!; auto. unfold in_entry. simpl. naive_solver. }
  destruct o as [v2|].
  - rewrite (Hok _ _ eq_refl).
    destruct (Z.eqb_spec (getHash v2) (getHash vote)) as [E2|N2]; simpl; [right; eauto|].
    destruct (Z.eqb_spec (getHash vote) (getHash v2)); [congruence|]. simpl.
    apply Hc; [by right|done|]. by intros ? [= <-].
  - destruct (bool_decide _ && _); simpl; [|by apply Hc; auto].
    destruct (_ && negb _); simpl; [right; simpl; by eauto|].
    destruct (negb _ && _); simpl; [right; simpl; by eauto|]. by apply Hc; auto.
Qed.

Lemma second_slot_ok_wf p r s sv vote :
  step_wf p r s sv -> at_coord p r s vote ->
  second_slot_ok (unique_voters sv !! getVoterAddr vote) vote.
Proof.
  intros Hsv (_ & _ & Hs) v1 v2 Hl. apply (sv_voters _ _ _ _ Hsv) in Hl.
  destruct Hl as (_ & _ & _ & (_ & _ & Hs2) & _ & Ht & Hodd & _).
  rewrite (getType_step vote v2), Ht, Hs by congruence.
  rewrite bool_decide_true, Hodd by done. done.
Qed.

(** In an existing step, [insertUniqueVoter] either accepts the vote, and
    then the voter's entry holds it, or returns a conflicting vote: a different
    vote of the same voter for the same period, round and step, and then the
    entry is unchanged and does not hold the new vote.  No other voter's entry
    and no voted value of the step changes. *)
Theorem insertUniqueVoter_correct vv vote sv :
  vv_wf vv ->
  getStepVotes vv (getPeriod vote) (getRound vote) (getStep vote) = Some sv ->
  let (vv', existing) := insertUniqueVoter vv vote in
  exists sv',
    getStepVotes vv' (getPeriod vote) (getRound vote) (getStep vote) = Some sv' /\
    voted_values sv' = voted_values sv /\
    (forall a, a <> getVoterAddr vote -> unique_voters sv' !! a = unique_voters sv !! a) /\
    match existing with
    | None => exists e, unique_voters sv' !! getVoterAddr vote = Some e /\ in_entry e (getHash vote)
    | Some old =>
        unique_voters sv' = unique_voters sv /\
        at_coord (getPeriod vote) (getRound vote) (getStep vote) old /\
        getVoterAddr old = getVoterAddr vote /\ getHash old <> getHash vote /\
        exists e, unique_voters sv !! getVoterAddr vote = Some e /\ ~ in_entry e (getHash vote)
    end.
Proof.
  intros Hvv Hsv. unfold insertUniqueVoter. rewrite getStepVotes_round in Hsv.
  destruct (getRoundVotes vv _ _) as [rv|] eqn:Erv; [|done]. simpl in Hsv. rewrite Hsv.
  assert (step_wf (getPeriod vote) (getRound vote) (getStep vote) sv) as Hwf by eauto with vv.
  pose proof (voter_entry_cases (unique_voters sv !! getVoterAddr vote) vote) as Hcases.
  destruct (voter_entry _ _) as [entry existing]. simpl in Hcases.
  exists (mkStepVotes (voted_values sv) (<[getVoterAddr vote := entry]> (unique_voters sv))).
  rewrite getStepVotes_put, decide_True by done. simpl. rewrite lookup_insert_eq.
  split_and!; [done|done|by intros; apply lookup_insert_ne|].
  specialize (Hcases (second_slot_ok_wf _ _ _ _ _ Hwf ltac:(done))).
  destruct existing as [old|].
  - destruct Hcases as (e & He & -> & Hold & Hne & Hnot).
    pose proof (sv_voters _ _ _ _ Hwf _ _ He) as Hentry.
    rewrite insert_id by done.
    assert (at_coord (getPeriod vote) (getRound vote) (getStep vote) old /\
      getVoterAddr old = getVoterAddr vote) as [? ?].
    { destruct e as [v1 o]. destruct Hold as [->|Ho]; simpl in *; [naive_solver|].
      destruct o; naive_solver. }
    split_and!; eauto.
  - exists entry. by rewrite lookup_insert_eq.
Qed.

Definition sample_store : PeriodVerifiedVotesMap :=
  match insertVotedValue ∅ sample_vote with Done (vv, _) => vv | _ => ∅ end.

Lemma sample_store_wf : vv_wf sample_store.
Proof.
  unfold sample_store. destruct (insertVotedValue ∅ sample_vote) as [[vv res]| |] eqn:E.
  - by eapply insertVotedValue_wf; [apply vv_wf_empty|].
  - apply vv_wf_empty.
  - apply vv_wf_empty.
Qed.

Example insertUniqueVoter_correct_witness :
  exists sv', getStepVotes (insertUniqueVoter sample_store sample_vote).1 5 1 2 = Some sv' /\
    exists e, unique_voters sv' !! 3 = Some e /\ in_entry e 11.
Proof.
  assert (exists sv, getStepVotes sample_store 5 1 2 = Some sv) as [sv Hsv]
    by (eexists; vm_compute; reflexivity).
  pose proof (insertUniqueVoter_correct sample_store sample_vote sv sample_store_wf Hsv) as H.
  assert ((insertUniqueVoter sample_store sample_vote).2 = None) as Hn by (vm_compute; reflexivity).
  destruct (insertUniqueVoter sample_store sample_vote) as [vv' ex]. simpl in Hn. subst ex.
  destruct H as (sv' & H1 & _ & _ & H2). exists sv'. split; [exact H1|exact H2].
Defined.

Definition step_count (step : PbftStep * StepVotes) : Z :=
  sum_list_Z (fun vw => Z.of_nat (base.size (votes vw))) ((map_to_list (voted_values (snd step))).*2).

Definition round_count (round : PbftRound * RoundVerifiedVotes) : Z :=
  sum_list_Z step_count (map_items (step_votes (snd round))).

Definition period_count (period : PbftPeriod * RoundVerifiedVotesMap) : Z :=
  sum_list_Z round_count (map_items (snd period)).

Lemma step_count_nonneg step : 0 <= step_count step.
Proof. apply sum_list_Z_nonneg. intros; lia. Qed.
Lemma round_count_nonneg round : 0 <= round_count round.
Proof. apply sum_list_Z_nonneg. intros; apply step_count_nonneg. Qed.
Lemma period_count_nonneg period : 0 <= period_count period.
Proof. apply sum_list_Z_nonneg. intros; apply round_count_nonneg. Qed.

Lemma sum_list_Z_ext {A} (f g : A -> Z) l :
  (forall x, f x = g x) -> sum_list_Z f l = sum_list_Z g l.
Proof. intros E. induction l; simpl; [done|]. rewrite E. lia. Qed.

Lemma all_votes_count vv : Z.of_nat (length (all_votes vv)) = sum_list_Z period_count (map_items vv).
Proof.
  unfold all_votes. rewrite length_mbind_sum. apply sum_list_Z_ext. intros [p pv].
  unfold period_count. rewrite length_mbind_sum. apply sum_list_Z_ext. intros [r rv].
  unfold round_count, round_all_votes. rewrite length_mbind_sum. apply sum_list_Z_ext. intros [s sv].
  unfold step_count. rewrite length_mbind_sum. simpl.
  induction (map_to_list (voted_values sv)) as [|[h vw] l IH]; simpl; [done|].
  rewrite length_map_to_list_snd. rewrite IH. done.
Qed.

Lemma accumulate_sizes_small vs :
  sum_list_Z (fun vw => Z.of_nat (base.size (votes vw))) vs < 2 ^ 31 ->
  accumulate_sizes vs = sum_list_Z (fun vw => Z.of_nat (base.size (votes vw))) vs.
Proof.
  intros HB. unfold accumulate_sizes.
  rewrite (foldl_count _ (fun vw => Z.of_nat (base.size (votes vw))) (2 ^ 31)); [done| | |lia|done].
  - intros; lia.
  - intros n vw _ Hn Hlt.
    rewrite (wrap_id 64 n) by (unfold in_range, modulus; lia).
    rewrite wrap_id by (unfold in_range, modulus; lia). apply to_signed_small; lia.
Qed.

(** As long as fewer than 2^31 votes are stored, [size] is the number of
    votes that [votes] returns, although it accumulates in an [int]. *)
Theorem size_correct vv :
  Z.of_nat (length (all_votes vv)) < 2 ^ 31 -> size vv = Z.of_nat (length (all_votes vv)).
Proof.
  rewrite all_votes_count. intros HB. unfold size.
  rewrite (foldl_count _ period_count (2 ^ 31)); [lia| | |lia|lia].
  { intros; apply period_count_nonneg. }
  intros n [p pv] _ Hn HB1. unfold period_count in *. simpl in *.
  apply (foldl_count _ round_count (2 ^ 31)); [intros; apply round_count_nonneg| |lia|lia].
  intros n' [r rv] _ Hn' HB2. unfold round_count in *. simpl in *.
  apply (foldl_count _ step_count (2 ^ 31)); [intros; apply step_count_nonneg| |lia|lia].
  intros n'' [s sv] _ Hn'' HB3. pose proof (step_count_nonneg (s, sv)).
  unfold step_count in *. simpl in *.
  rewrite accumulate_sizes_small by lia.
  rewrite (wrap_id 64 (sum_list_Z _ _)) by (unfold in_range, modulus; lia).
  apply wrap_id. unfold in_range, modulus. lia.
Qed.

Example size_correct_witness : size sample_store = 1.
Proof.
  rewrite (size_correct sample_store); vm_compute; reflexivity.
Defined.

(** In a well-formed store the lookup of the votes for a 2t+1 voted block
    never reaches its [assert(false)]; for a recorded voted block it returns
    exactly the stored votes for that block in the recorded step, whose weights
    sum up to the recorded weight modulo 2^64. *)
Theorem getTwoTPlusOneVotedBlockVotes_correct vv p r t :
  vv_wf vv ->
  exists l, getTwoTPlusOneVotedBlockVotes vv p r t = Done l /\
    match getTwoTPlusOneVotedBlock vv p r t with
    | None => l = []
    | Some b =>
        (forall v, v ∈ l <-> votes (voted_at vv p r (vb_step b) (vb_hash b)) !! getHash v = Some v) /\
        (forall v, v ∈ l -> at_coord p r (vb_step b) v /\ getBlockHash v = vb_hash b) /\
        weight (voted_at vv p r (vb_step b) (vb_hash b)) = u64 (sum_list_Z weight_of l)
    end.
Proof.
  intros Hvv. unfold getTwoTPlusOneVotedBlockVotes.
  assert (getTwoTPlusOneVotedBlock vv p r t =
    getRoundVotes vv p r ≫= fun rv => two_t_plus_one_voted_blocks_ rv !! t) as ->
    by (unfold getTwoTPlusOneVotedBlock, getRoundVotes; by repeat case_match).
  destruct (getRoundVotes vv p r) as [rv|] eqn:Erv; simpl; [|by eauto].
  destruct (two_t_plus_one_voted_blocks_ rv !! t) as [b|] eqn:Eb; [|by eauto].
  pose proof (Hvv _ _ _ Erv) as Hrv.
  destruct (rv_blocks _ _ _ Hrv _ _ Eb) as (sv & vw & Hs & Hh).
  unfold voted_at. rewrite getStepVotes_round, Erv. simpl. rewrite Hs. simpl. rewrite Hh. simpl.
  pose proof (sv_values _ _ _ _ (rv_steps _ _ _ Hrv _ _ Hs) _ _ Hh) as Hvw.
  eexists. split; [done|]. split_and!.
  - intros v. rewrite list_elem_of_fmap. split.
    + intros ([k v'] & -> & Hin%elem_of_map_to_list). simpl.
      by destruct (vw_votes _ _ _ _ _ Hvw _ _ Hin) as [-> _].
    + intros Hv. exists (getHash v, v). by rewrite elem_of_map_to_list.
  - intros v ([k v'] & -> & Hin%elem_of_map_to_list)%list_elem_of_fmap. simpl.
    destruct (vw_votes _ _ _ _ _ Hvw _ _ Hin) as (_ & ? & ? & _). auto.
  - rewrite (vw_weight _ _ _ _ _ Hvw), map_sum_list. done.
Qed.

Example getTwoTPlusOneVotedBlockVotes_correct_witness :
  getTwoTPlusOneVotedBlockVotes
    (insertTwoTPlusOneVotedBlock sample_store SoftVotedBlock sample_vote) 5 1 SoftVotedBlock =
    Done [sample_vote] /\
  exists l, getTwoTPlusOneVotedBlockVotes sample_store 5 1 SoftVotedBlock = Done l.
Proof.
  split; [vm_compute; reflexivity|].
  destruct (getTwoTPlusOneVotedBlockVotes_correct sample_store 5 1 SoftVotedBlock sample_store_wf)
    as (l & H & _).
  exists l. exact H.
Defined.

(** [cleanupVotesByPeriod] removes every vote of the periods below the given
    one and keeps all others, although it stops at the first period that is not
    below. *)
Theorem cleanupVotesByPeriod_correct vv bound p r :
  getRoundVotes (cleanupVotesByPeriod vv bound) p r =
    if decide (p < bound) then None else getRoundVotes vv p r.
Proof.
  unfold getRoundVotes. rewrite cleanupVotesByPeriod_lookup. by case_decide.
Qed.
