(* ===== verification/VoteManager.v ===== *)
(** * The vote manager

    [VoteManager] (consensus/src/vote_manager/vote_manager.cpp): acceptance of
    verified votes, 2t+1 voted blocks, reward votes and the determination of a
    new round.  [FinalChain::dposEligibleTotalVoteCount] asks the external state
    database: it is the argument [dpos] of the operations that call it, [None]
    being its [ErrFutureBlock] exception.  The votes columns of the database are
    part of the state; [submitDoubleVotingProof] calls are logged. *)

From S2P Require Import Prelude Votes VerifiedVotes.
Local Open Scope Z_scope.
Local Open Scope outcome_scope.

Record PbftConfig := mkPbftConfig {
  committee_size : Z;
  number_of_proposers : Z;
}.

(** The columns of [DbStorage] that hold votes (storage.cpp). *)
Record VotesDb := mkVotesDb {
  latest_round_two_t_plus_one_votes : gmap TwoTPlusOneVotedBlockType (list PbftVote);
  extra_reward_votes_column : gmap vote_hash_t PbftVote;
  latest_round_own_votes : gmap vote_hash_t PbftVote;
}.

Definition replaceTwoTPlusOneVotes (db : VotesDb) (type : TwoTPlusOneVotedBlockType)
    (vs : list PbftVote) : VotesDb :=
  mkVotesDb (<[type := vs]> (delete type (latest_round_two_t_plus_one_votes db)))
    (extra_reward_votes_column db) (latest_round_own_votes db).

Definition saveExtraRewardVote (db : VotesDb) (vote : PbftVote) : VotesDb :=
  mkVotesDb (latest_round_two_t_plus_one_votes db)
    (<[getHash vote := vote]> (extra_reward_votes_column db)) (latest_round_own_votes db).

Definition removeExtraRewardVotes (db : VotesDb) (hashes : list vote_hash_t) : VotesDb :=
  mkVotesDb (latest_round_two_t_plus_one_votes db)
    (foldl (fun m h => delete h m) (extra_reward_votes_column db) hashes) (latest_round_own_votes db).

Definition db_saveOwnVerifiedVote (db : VotesDb) (vote : PbftVote) : VotesDb :=
  mkVotesDb (latest_round_two_t_plus_one_votes db) (extra_reward_votes_column db)
    (<[getHash vote := vote]> (latest_round_own_votes db)).

Definition db_clearOwnVerifiedVotes (db : VotesDb) (own : list PbftVote) : VotesDb :=
  mkVotesDb (latest_round_two_t_plus_one_votes db) (extra_reward_votes_column db)
    (foldl (fun m v => delete (getHash v) m) (latest_round_own_votes db) own).

(** The votes of the 2t+1 voted blocks, in the order the loader reads them. *)
Definition getAllTwoTPlusOneVotes (db : VotesDb) : list PbftVote :=
  let load t := default [] (latest_round_two_t_plus_one_votes db !! t) in
  load SoftVotedBlock ++ load CertVotedBlock ++ load NextVotedBlock ++ load NextVotedNullBlock.

Record VoteManager := mkVoteManager {
  current_pbft_period_ : PbftPeriod;
  current_pbft_round_ : PbftRound;
  verified_votes_ : PeriodVerifiedVotesMap;
  reward_votes_block_hash_ : blk_hash_t;
  reward_votes_period_ : PbftPeriod;
  reward_votes_round_ : PbftRound;
  extra_reward_votes_ : list vote_hash_t;
  own_verified_votes_ : list PbftVote;
  current_two_t_plus_one_ : gmap PbftVoteTypes (PbftPeriod * Z);
  db_ : VotesDb;
  double_voting_reports : list (PbftVote * PbftVote);
}.

(** Field updates. *)
Definition set_vv (vm : VoteManager) (vv : PeriodVerifiedVotesMap) : VoteManager :=
  mkVoteManager (current_pbft_period_ vm) (current_pbft_round_ vm) vv (reward_votes_block_hash_ vm)
    (reward_votes_period_ vm) (reward_votes_round_ vm) (extra_reward_votes_ vm)
    (own_verified_votes_ vm) (current_two_t_plus_one_ vm) (db_ vm) (double_voting_reports vm).

Definition set_current (vm : VoteManager) (p : PbftPeriod) (r : PbftRound) : VoteManager :=
  mkVoteManager p r (verified_votes_ vm) (reward_votes_block_hash_ vm)
    (reward_votes_period_ vm) (reward_votes_round_ vm) (extra_reward_votes_ vm)
    (own_verified_votes_ vm) (current_two_t_plus_one_ vm) (db_ vm) (double_voting_reports vm).

Definition set_reward (vm : VoteManager) (h : blk_hash_t) (p : PbftPeriod) (r : PbftRound) :
    VoteManager :=
  mkVoteManager (current_pbft_period_ vm) (current_pbft_round_ vm) (verified_votes_ vm) h p r
    (extra_reward_votes_ vm) (own_verified_votes_ vm) (current_two_t_plus_one_ vm) (db_ vm)
    (double_voting_reports vm).

Definition set_extra (vm : VoteManager) (l : list vote_hash_t) : VoteManager :=
  mkVoteManager (current_pbft_period_ vm) (current_pbft_round_ vm) (verified_votes_ vm)
    (reward_votes_block_hash_ vm) (reward_votes_period_ vm) (reward_votes_round_ vm) l
    (own_verified_votes_ vm) (current_two_t_plus_one_ vm) (db_ vm) (double_voting_reports vm).

Definition set_own (vm : VoteManager) (l : list PbftVote) : VoteManager :=
  mkVoteManager (current_pbft_period_ vm) (current_pbft_round_ vm) (verified_votes_ vm)
    (reward_votes_block_hash_ vm) (reward_votes_period_ vm) (reward_votes_round_ vm)
    (extra_reward_votes_ vm) l (current_two_t_plus_one_ vm) (db_ vm) (double_voting_reports vm).

Definition set_cache (vm : VoteManager) (c : gmap PbftVoteTypes (PbftPeriod * Z)) : VoteManager :=
  mkVoteManager (current_pbft_period_ vm) (current_pbft_round_ vm) (verified_votes_ vm)
    (reward_votes_block_hash_ vm) (reward_votes_period_ vm) (reward_votes_round_ vm)
    (extra_reward_votes_ vm) (own_verified_votes_ vm) c (db_ vm) (double_voting_reports vm).

Definition set_db (vm : VoteManager) (db : VotesDb) : VoteManager :=
  mkVoteManager (current_pbft_period_ vm) (current_pbft_round_ vm) (verified_votes_ vm)
    (reward_votes_block_hash_ vm) (reward_votes_period_ vm) (reward_votes_round_ vm)
    (extra_reward_votes_ vm) (own_verified_votes_ vm) (current_two_t_plus_one_ vm) db
    (double_voting_reports vm).

Definition report_double_voting (vm : VoteManager) (vote existing : PbftVote) : VoteManager :=
  mkVoteManager (current_pbft_period_ vm) (current_pbft_round_ vm) (verified_votes_ vm)
    (reward_votes_block_hash_ vm) (reward_votes_period_ vm) (reward_votes_round_ vm)
    (extra_reward_votes_ vm) (own_verified_votes_ vm) (current_two_t_plus_one_ vm) (db_ vm)
    ((vote, existing) :: double_voting_reports vm).

(** The state before anything is loaded from a database [db]. *)
Definition fresh_manager (db : VotesDb) : VoteManager :=
  mkVoteManager 0 0 ∅ kNullBlockHash 0 0 [] [] ∅ db [].

Definition empty_db : VotesDb := mkVotesDb ∅ ∅ ∅.

(** ** Thresholds *)

Definition getPbftSortitionThreshold (cfg : PbftConfig) (total_dpos_votes_count : Z)
    (vote_type : PbftVoteTypes) : Z :=
  match vote_type with
  | propose_vote => Z.min (number_of_proposers cfg) total_dpos_votes_count
  | _ => Z.min (committee_size cfg) total_dpos_votes_count
  end.

Definition getPbftTwoTPlusOne (cfg : PbftConfig) (dpos : PbftPeriod -> option Z)
    (pbft_chain_size : PbftPeriod) (vm : VoteManager) (pbft_period : PbftPeriod)
    (vote_type : PbftVoteTypes) : VoteManager * option Z :=
  let compute :=
    match dpos pbft_period with
    | None => (vm, None)
    | Some total_dpos_votes_count =>
        let two_t_plus_one :=
          u64 (u64 (getPbftSortitionThreshold cfg total_dpos_votes_count vote_type * 2) / 3 + 1) in
        let vm' :=
          if pbft_period =? pbft_chain_size
          then set_cache vm (<[vote_type := (pbft_period, two_t_plus_one)]>
                 (current_two_t_plus_one_ vm))
          else vm in
        (vm', Some two_t_plus_one)
    end in
  match current_two_t_plus_one_ vm !! vote_type with
  | Some (cached_period, cached_two_t_plus_one) =>
      if (pbft_period =? cached_period) && negb (cached_two_t_plus_one =? 0)
      then (vm, Some cached_two_t_plus_one) else compute
  | None => compute
  end.

(** ** Queries *)

Definition voteInVerifiedMap (vm : VoteManager) (vote : PbftVote) : bool :=
  match getStepVotes (verified_votes_ vm) (getPeriod vote) (getRound vote) (getStep vote) with
  | None => false
  | Some sv =>
      match voted_values sv !! getBlockHash vote with
      | None => false
      | Some vw => bool_decide (is_Some (votes vw !! getHash vote))
      end
  end.

Definition isUniqueVote (vm : VoteManager) (vote : PbftVote) : bool * option PbftVote :=
  match getStepVotes (verified_votes_ vm) (getPeriod vote) (getRound vote) (getStep vote) with
  | None => (true, None)
  | Some sv =>
      match unique_voters sv !! getVoterAddr vote with
      | None => (true, None)
      | Some (first, second) =>
          let existing :=
            match second with
            | Some v2 => if negb (getHash vote =? getHash v2) then v2 else first
            | None => first
            end in
          if getHash first =? getHash vote then (true, None)
          else if bool_decide (getType vote = next_vote) && negb (getStep vote mod 2 =? 0) then
            match second with
            | None =>
                if (getBlockHash first =? kNullBlockHash) &&
                   negb (getBlockHash vote =? kNullBlockHash) then (true, None)
                else if negb (getBlockHash first =? kNullBlockHash) &&
                   (getBlockHash vote =? kNullBlockHash) then (true, None)
                else (false, Some existing)
            | Some v2 =>
                if getHash v2 =? getHash vote then (true, None) else (false, Some existing)
            end
          else (false, Some existing)
      end
  end.

Definition getNetworkTplusOneNextVotingStep (vm : VoteManager) (period : PbftPeriod)
    (round : PbftRound) : PbftStep :=
  match getRoundVotes (verified_votes_ vm) period round with
  | None => 0
  | Some rv => network_t_plus_one_step rv
  end.

(** [PbftStates::value_proposal_state] is step 1. *)
Definition value_proposal_state : PbftStep := 1.

Definition getProposalVotes (vm : VoteManager) (period : PbftPeriod) (round : PbftRound) :
    list PbftVote :=
  match getStepVotes (verified_votes_ vm) period round value_proposal_state with
  | None => []
  | Some sv =>
      '(_, voted_value) ← map_to_list (voted_values sv); (map_to_list (votes voted_value)).*2
  end.

(** The scan of [determineNewRound] over the rounds, from the greatest. *)
Fixpoint scan_rounds (rounds : list (PbftRound * RoundVerifiedVotes)) (current_pbft_round : PbftRound) :
    option PbftRound :=
  match rounds with
  | [] => None
  | (round, rv) :: rounds' =>
      if round <? current_pbft_round then None
      else
        let found :=
          match two_t_plus_one_voted_blocks_ rv !! NextVotedBlock with
          | Some b => Some b
          | None => two_t_plus_one_voted_blocks_ rv !! NextVotedNullBlock
          end in
        match found with
        | Some _ => Some (u32 (round + 1))
        | None => scan_rounds rounds' current_pbft_round
        end
  end.

Definition determineNewRound (vm : VoteManager) (current_pbft_period : PbftPeriod)
    (current_pbft_round : PbftRound) : option PbftRound :=
  match getPeriodVotes (verified_votes_ vm) current_pbft_period with
  | None => None
  | Some period_map => scan_rounds (reverse (map_items period_map)) current_pbft_round
  end.

Definition isValidRewardVote (vm : VoteManager) (vote : PbftVote) : bool :=
  if negb (bool_decide (getType vote = cert_vote)) then false
  else if negb (getBlockHash vote =? reward_votes_block_hash_ vm) then false
  else if negb (getPeriod vote =? reward_votes_period_ vm) then false
  else if u32 (reward_votes_round_ vm + 100) <? getRound vote then false
  else true.

(** ** Adding a vote *)

(** The lambda [saveTwoTPlusOneVotesInDb]; [round_votes] is the copy of the
    round taken after the vote was inserted. *)
Definition saveTwoTPlusOneVotesInDb (vm : VoteManager) (round_votes : RoundVerifiedVotes)
    (votes_with_weight : VotesWithWeight) (type : TwoTPlusOneVotedBlockType) (vote : PbftVote) :
    outcome VoteManager :=
  match two_t_plus_one_voted_blocks_ round_votes !! type with
  | Some found =>
      let* _ := oassert (vb_hash found =? getBlockHash vote) in
      match type with
      | NextVotedBlock | NextVotedNullBlock => Done vm
      | _ => let* _ := oassert (vb_step found =? getStep vote) in Done vm
      end
  | None =>
      let vm' := set_vv vm (insertTwoTPlusOneVotedBlock (verified_votes_ vm) type vote) in
      if negb (bool_decide (getType vote = cert_vote)) &&
         (getPeriod vote =? current_pbft_period_ vm) && (getRound vote =? current_pbft_round_ vm)
      then Done (set_db vm' (replaceTwoTPlusOneVotes (db_ vm') type
                               ((map_to_list (votes votes_with_weight)).*2)))
      else Done vm'
  end.

(** The part of [addVerifiedVote] after the vote was inserted. *)
Definition update_two_t_plus_one (cfg : PbftConfig) (dpos : PbftPeriod -> option Z)
    (pbft_chain_size : PbftPeriod) (vm : VoteManager) (vote : PbftVote)
    (votes_with_weight : VotesWithWeight) : outcome (VoteManager * bool) :=
  match getPbftTwoTPlusOne cfg dpos pbft_chain_size vm (u64 (getPeriod vote - 1)) (getType vote) with
  | (vm, None) => Done (vm, true)
  | (vm, Some two_t_plus_one) =>
      match getRoundVotes (verified_votes_ vm) (getPeriod vote) (getRound vote) with
      | None => Done (vm, true)
      | Some round_votes =>
          let total_weight := weight votes_with_weight in
          let t_plus_one := u64 (u64 (two_t_plus_one - 1) / 2 + 1) in
          let vm :=
            if bool_decide (getType vote = next_vote) && (t_plus_one <=? total_weight) &&
               (network_t_plus_one_step round_votes <? getStep vote)
            then set_vv vm (setNetworkTPlusOneStep (verified_votes_ vm) vote) else vm in
          if total_weight <? two_t_plus_one then Done (vm, true)
          else
            let save type :=
              let* vm := saveTwoTPlusOneVotesInDb vm round_votes votes_with_weight type vote in
              Done (vm, true) in
            match getType vote with
            | soft_vote => save SoftVotedBlock
            | cert_vote => save CertVotedBlock
            | next_vote =>
                if getBlockHash vote =? kNullBlockHash then save NextVotedNullBlock
                else save NextVotedBlock
            | _ => Done (vm, true)
            end
      end
  end.

Definition addVerifiedVote (cfg : PbftConfig) (dpos : PbftPeriod -> option Z)
    (pbft_chain_size : PbftPeriod) (vm : VoteManager) (vote : PbftVote) :
    outcome (VoteManager * bool) :=
  match getWeight vote with
  | None => AssertFailed
  | Some w =>
      if w =? 0 then Done (vm, false)
      else
        let '(vv, existing_vote) := insertUniqueVoter (verified_votes_ vm) vote in
        let vm := set_vv vm vv in
        match existing_vote with
        | Some existing => Done (report_double_voting vm vote existing, false)
        | None =>
            let is_old := getPeriod vote <? current_pbft_period_ vm in
            let is_valid_potential_reward_vote := is_old && isValidRewardVote vm vote in
            if is_old && negb is_valid_potential_reward_vote then Done (vm, false)
            else
              let* res := insertVotedValue (verified_votes_ vm) vote in
              let '(vv, votes_with_weight) := res in
              let vm := set_vv vm vv in
              match votes_with_weight with
              | None => Done (vm, false)
              | Some vw =>
                  let vm :=
                    if is_valid_potential_reward_vote
                    then set_db (set_extra vm (extra_reward_votes_ vm ++ [getHash vote]))
                           (saveExtraRewardVote (db_ vm) vote)
                    else vm in
                  update_two_t_plus_one cfg dpos pbft_chain_size vm vote vw
              end
        end
  end.

(** ** Period and round *)

Definition saveRoundBundles (vm : VoteManager) (round_votes : RoundVerifiedVotes)
    (entry : TwoTPlusOneVotedBlockType * VotedBlock) : outcome VoteManager :=
  let '(type, block) := entry in
  match type with
  | CertVotedBlock => Done vm
  | _ =>
      match step_votes round_votes !! vb_step block with
      | None => AssertFailed
      | Some sv =>
          match voted_values sv !! vb_hash block with
          | None => AssertFailed
          | Some vw =>
              Done (set_db vm (replaceTwoTPlusOneVotes (db_ vm) type ((map_to_list (votes vw)).*2)))
          end
      end
  end.

Definition setCurrentPbftPeriodAndRound (vm : VoteManager) (pbft_period : PbftPeriod)
    (pbft_round : PbftRound) : outcome VoteManager :=
  let vm := set_current vm pbft_period pbft_round in
  match getRoundVotes (verified_votes_ vm) pbft_period pbft_round with
  | None => Done vm
  | Some round_votes =>
      ofold (fun vm entry => saveRoundBundles vm round_votes entry)
        (map_to_list (two_t_plus_one_voted_blocks_ round_votes)) vm
  end.

Definition vm_cleanupVotesByPeriod (vm : VoteManager) (pbft_period : PbftPeriod) : VoteManager :=
  set_vv vm (cleanupVotesByPeriod (verified_votes_ vm) pbft_period).

(** ** Reward votes *)

(** [reward_votes_period_] is declared as a [PbftRound], that is 32 bits. *)
Definition resetRewardVotes (vm : VoteManager) (period : PbftPeriod) (round : PbftRound)
    (step : PbftStep) (block_hash : blk_hash_t) : outcome VoteManager :=
  let vm := set_reward vm block_hash (u32 period) round in
  match getRoundVotes (verified_votes_ vm) period round with
  | None => AssertFailed
  | Some round_votes =>
      match step_votes round_votes !! step with
      | None => AssertFailed
      | Some sv =>
          match two_t_plus_one_voted_blocks_ round_votes !! CertVotedBlock with
          | None => AssertFailed
          | Some b =>
              if negb (vb_hash b =? block_hash) then AssertFailed
              else
                match voted_values sv !! block_hash with
                | None => AssertFailed
                | Some vw =>
                    let db := replaceTwoTPlusOneVotes (db_ vm) CertVotedBlock
                                ((map_to_list (votes vw)).*2) in
                    let db := removeExtraRewardVotes db (extra_reward_votes_ vm) in
                    Done (set_extra (set_db vm db) [])
                end
          end
      end
  end.

(** The loop over the reward vote hashes of the lambda [getRewardVotes]. *)
Fixpoint collect_votes (potential_reward_votes : gmap vote_hash_t PbftVote)
    (vote_hashes : list vote_hash_t) (copy_votes found_all_votes : bool) (acc : list PbftVote) :
    bool * list PbftVote :=
  match vote_hashes with
  | [] => (found_all_votes, acc)
  | vote_hash :: vote_hashes' =>
      let found_vote := potential_reward_votes !! vote_hash in
      let found_all_votes := match found_vote with None => false | Some _ => found_all_votes end in
      let acc :=
        match found_vote with
        | Some v => if found_all_votes && copy_votes then acc ++ [v] else acc
        | None => acc
        end in
      collect_votes potential_reward_votes vote_hashes' copy_votes found_all_votes acc
  end.

Definition lookupRewardVotes (round_votes : RoundVerifiedVotes) (vote_hashes : list vote_hash_t)
    (block_hash : blk_hash_t) (copy_votes : bool) : bool * list PbftVote :=
  match step_votes round_votes !! 3 with
  | None => (false, [])
  | Some sv =>
      match voted_values sv !! block_hash with
      | None => (false, [])
      | Some vw =>
          let '(found_all_votes, found_reward_votes) :=
            collect_votes (votes vw) vote_hashes copy_votes true [] in
          if found_all_votes then (true, found_reward_votes) else (false, [])
      end
  end.

Fixpoint scan_reward_rounds (rounds : list (PbftRound * RoundVerifiedVotes))
    (vote_hashes : list vote_hash_t) (block_hash : blk_hash_t) (copy_votes : bool) :
    bool * list PbftVote :=
  match rounds with
  | [] => (false, [])
  | (_, round_votes) :: rounds' =>
      let tmp_reward_votes := lookupRewardVotes round_votes vote_hashes block_hash copy_votes in
      if tmp_reward_votes.1 then (true, tmp_reward_votes.2)
      else scan_reward_rounds rounds' vote_hashes block_hash copy_votes
  end.

(** The PBFT block is used through its period and its reward vote hashes. *)
Definition checkRewardVotes (vm : VoteManager) (block_period : PbftPeriod)
    (reward_votes_hashes : list vote_hash_t) (copy_votes : bool) : outcome (bool * list PbftVote) :=
  if block_period =? 1 then Done (true, [])
  else
    match getRoundVotes (verified_votes_ vm) (reward_votes_period_ vm) (reward_votes_round_ vm) with
    | None => AssertFailed
    | Some round_votes =>
        let reward_votes :=
          lookupRewardVotes round_votes reward_votes_hashes (reward_votes_block_hash_ vm) copy_votes in
        if reward_votes.1 then Done (true, reward_votes.2)
        else
          match getPeriodVotes (verified_votes_ vm) (reward_votes_period_ vm) with
          | None => AssertFailed
          | Some period_votes =>
              Done (scan_reward_rounds (reverse (map_items period_votes)) reward_votes_hashes
                      (reward_votes_block_hash_ vm) copy_votes)
          end
    end.

Definition getRewardVotes (vm : VoteManager) : outcome (list PbftVote) :=
  let* reward_votes := getTwoTPlusOneVotedBlockVotes (verified_votes_ vm) (reward_votes_period_ vm)
                         (reward_votes_round_ vm) CertVotedBlock in
  match reward_votes with
  | v :: _ =>
      if negb (getBlockHash v =? reward_votes_block_hash_ vm) then AssertFailed
      else Done reward_votes
  | [] => Done reward_votes
  end.

(** ** Own votes *)

Definition saveOwnVerifiedVote (vm : VoteManager) (vote : PbftVote) : VoteManager :=
  set_db (set_own vm (own_verified_votes_ vm ++ [vote])) (db_saveOwnVerifiedVote (db_ vm) vote).

Definition clearOwnVerifiedVotes (vm : VoteManager) : VoteManager :=
  set_own (set_db vm (db_clearOwnVerifiedVotes (db_ vm) (own_verified_votes_ vm))) [].

(** ** Construction *)

(** The lambda [addVerifiedVotes] of the constructor; the flag is
    [rewards_info_already_set]. *)
Definition load_vote (cfg : PbftConfig) (dpos : PbftPeriod -> option Z) (pbft_chain_size : PbftPeriod)
    (set_reward_votes_info : bool) (st : VoteManager * bool) (vote : PbftVote) :
    outcome (VoteManager * bool) :=
  let '(vm, already_set) := st in
  if negb (isUniqueVote vm vote).1 then Done (vm, already_set)
  else
    let* st :=
      (if set_reward_votes_info && bool_decide (getType vote = cert_vote) then
         if negb already_set then
           Done (set_reward vm (getBlockHash vote) (u32 (getPeriod vote)) (getRound vote), true)
         else
           let* _ := oassert (reward_votes_block_hash_ vm =? getBlockHash vote) in
           let* _ := oassert (reward_votes_period_ vm =? getPeriod vote) in
           let* _ := oassert (reward_votes_round_ vm =? getRound vote) in
           Done (vm, already_set)
       else Done (vm, already_set)) in
    let '(vm, already_set) := st in
    let* res := addVerifiedVote cfg dpos pbft_chain_size vm vote in
    Done (res.1, already_set).

Definition addVerifiedVotes (cfg : PbftConfig) (dpos : PbftPeriod -> option Z)
    (pbft_chain_size : PbftPeriod) (vm : VoteManager) (vs : list PbftVote)
    (set_reward_votes_info : bool) : outcome VoteManager :=
  let* st := ofold (load_vote cfg dpos pbft_chain_size set_reward_votes_info) vs (vm, false) in
  Done st.1.

(** Columns are iterated in key order. *)
Definition construct (cfg : PbftConfig) (dpos : PbftPeriod -> option Z) (pbft_chain_size : PbftPeriod)
    (db : VotesDb) : outcome VoteManager :=
  let vm := fresh_manager db in
  let* vm := addVerifiedVotes cfg dpos pbft_chain_size vm (getAllTwoTPlusOneVotes db) true in
  let own_votes := (map_items (latest_round_own_votes db)).*2 in
  let vm := set_own vm (own_verified_votes_ vm ++ own_votes) in
  let* vm := addVerifiedVotes cfg dpos pbft_chain_size vm own_votes false in
  let reward_votes := (map_items (extra_reward_votes_column db)).*2 in
  let vm := set_extra vm (extra_reward_votes_ vm ++ (getHash <$> reward_votes)) in
  addVerifiedVotes cfg dpos pbft_chain_size vm reward_votes false.

(** ** Effects of the store operations on voted values and voted blocks *)

Lemma two_t_block_round vv p r t :
  getTwoTPlusOneVotedBlock vv p r t =
    getRoundVotes vv p r ≫= fun rv => two_t_plus_one_voted_blocks_ rv !! t.
Proof. unfold getTwoTPlusOneVotedBlock, getRoundVotes. by repeat case_match. Qed.

Lemma insertUniqueVoter_voted_at vv vote p r s h :
  voted_at (insertUniqueVoter vv vote).1 p r s h = voted_at vv p r s h.
Proof.
  unfold insertUniqueVoter.
  destruct (getRoundVotes vv _ _) as [rv|] eqn:Erv; [|done].
  destruct (step_votes rv !! _) as [sv|] eqn:Esv; [|done].
  destruct (voter_entry _ _). simpl. unfold voted_at. rewrite getStepVotes_put.
  case_decide as D; [|done]. destruct D as [<- <-]. rewrite getStepVotes_round, Erv. simpl.
  rewrite lookup_insert. case_decide as D; [subst; by rewrite Esv|done].
Qed.

Lemma insertUniqueVoter_blocks vv vote p r t :
  getTwoTPlusOneVotedBlock (insertUniqueVoter vv vote).1 p r t = getTwoTPlusOneVotedBlock vv p r t.
Proof.
  rewrite !two_t_block_round. unfold insertUniqueVoter.
  destruct (getRoundVotes vv _ _) as [rv|] eqn:Erv; [|done].
  destruct (step_votes rv !! _) as [sv|] eqn:Esv; [|done].
  destruct (voter_entry _ _). simpl. rewrite getRoundVotes_put.
  case_decide as D; [|done]. destruct D as [<- <-]. by rewrite Erv.
Qed.

Lemma insertVotedValue_blocks vv vote vv' res p r t :
  insertVotedValue vv vote = Done (vv', res) ->
  getTwoTPlusOneVotedBlock vv' p r t = getTwoTPlusOneVotedBlock vv p r t.
Proof.
  rewrite !two_t_block_round. unfold insertVotedValue.
  intros H. repeat case_match; simplify_eq; rewrite getRoundVotes_put;
    (case_decide as D; [|done]); destruct D as [<- <-]; simpl;
    by destruct (getRoundVotes vv _ _).
Qed.

Lemma setNetworkTPlusOneStep_voted_at vv vote p r s h :
  voted_at (setNetworkTPlusOneStep vv vote) p r s h = voted_at vv p r s h.
Proof.
  unfold setNetworkTPlusOneStep. destruct (getRoundVotes vv _ _) as [rv|] eqn:Erv; [|done].
  unfold voted_at. rewrite getStepVotes_put. case_decide as D; [|done]. destruct D as [<- <-].
  by rewrite getStepVotes_round, Erv.
Qed.

Lemma setNetworkTPlusOneStep_blocks vv vote p r t :
  getTwoTPlusOneVotedBlock (setNetworkTPlusOneStep vv vote) p r t = getTwoTPlusOneVotedBlock vv p r t.
Proof.
  rewrite !two_t_block_round.
  unfold setNetworkTPlusOneStep. destruct (getRoundVotes vv _ _) as [rv|] eqn:Erv; [|done].
  rewrite getRoundVotes_put. case_decide as D; [|done]. destruct D as [<- <-]. by rewrite Erv.
Qed.

Lemma insertTwoTPlusOneVotedBlock_voted_at vv type vote p r s h :
  voted_at (insertTwoTPlusOneVotedBlock vv type vote) p r s h = voted_at vv p r s h.
Proof.
  unfold insertTwoTPlusOneVotedBlock. destruct (getRoundVotes vv _ _) as [rv|] eqn:Erv; [|done].
  case_match; [done|].
  unfold voted_at. rewrite getStepVotes_put. case_decide as D; [|done]. destruct D as [<- <-].
  by rewrite getStepVotes_round, Erv.
Qed.

Lemma insertTwoTPlusOneVotedBlock_blocks vv type vote p r t b :
  getTwoTPlusOneVotedBlock (insertTwoTPlusOneVotedBlock vv type vote) p r t = Some b ->
  getTwoTPlusOneVotedBlock vv p r t = Some b \/
  (p = getPeriod vote /\ r = getRound vote /\ t = type /\
    b = mkVotedBlock (getBlockHash vote) (getStep vote)).
Proof.
  rewrite !two_t_block_round.
  unfold insertTwoTPlusOneVotedBlock. destruct (getRoundVotes vv _ _) as [rv|] eqn:Erv; [|by left].
  case_match; [by left|].
  rewrite getRoundVotes_put. case_decide as D; [|by left]. destruct D as [<- <-]. simpl.
  rewrite Erv. simpl. intros [[<- <-]|[? ?]]%lookup_insert_Some; auto.
Qed.

Lemma voted_at_is_Some vv p r s h vh v :
  votes (voted_at vv p r s h) !! vh = Some v ->
  exists sv, getStepVotes vv p r s = Some sv /\ is_Some (voted_values sv !! h).
Proof.
  unfold voted_at. destruct (getStepVotes vv p r s) as [sv|]; simpl.
  - destruct (voted_values sv !! h) eqn:E; simpl; [|by rewrite lookup_empty]. intros. exists sv.
    by rewrite E.
  - by rewrite lookup_empty.
Qed.

(** The stored votes of a group only grow. *)
Lemma insertVotedValue_grows vv vote vv' res p r s h :
  insertVotedValue vv vote = Done (vv', res) -> is_Some (getWeight vote) ->
  (forall vh v, votes (voted_at vv' p r s h) !! vh = Some v ->
    votes (voted_at vv p r s h) !! vh = Some v \/ v = vote) /\
  (0 <= weight_of vote ->
    map_sum weight_of (votes (voted_at vv p r s h)) <=
    map_sum weight_of (votes (voted_at vv' p r s h))).
Proof.
  intros Hi [w Hw]. destruct (insertVotedValue_effect vv vote w Hw) as (vv1 & res1 & Hi' & Hne & Hat).
  rewrite Hi in Hi'. simplify_eq.
  destruct (decide ((p, r, s, h) = (getPeriod vote, getRound vote, getStep vote, getBlockHash vote)))
    as [[= -> -> -> ->]|Hd].
  - destruct (votes (voted_at vv _ _ _ _) !! getHash vote) eqn:E.
    + destruct Hat as [_ ->]. split; [auto|lia].
    + destruct Hat as (_ & -> & _). split.
      * intros vh v [[<- <-]|[? ?]]%lookup_insert_Some; auto.
      * intros. rewrite map_sum_insert by done. lia.
  - rewrite (Hne _ _ _ _ Hd). split; [auto|lia].
Qed.

Lemma cleanup_voted_at vv bound p r s h :
  voted_at (cleanupVotesByPeriod vv bound) p r s h =
    if decide (p < bound) then no_votes else voted_at vv p r s h.
Proof.
  unfold voted_at. rewrite !getStepVotes_round. unfold getRoundVotes.
  rewrite cleanupVotesByPeriod_lookup. by case_decide.
Qed.
