(* ===== verification/VoteQuorum.v ===== *)
(** * Invariants and properties of the vote manager

    Every recorded 2t+1 voted block is backed by stored votes of that weight in
    every reachable state; the cached threshold is the computed one; the
    uniqueness check agrees with the insertion; where a vote is lost or a double
    vote is accepted. *)

From S2P Require Import Prelude Votes VerifiedVotes VoteManager.
Local Open Scope Z_scope.

(** ** Uniqueness *)

(** The read-only check [isUniqueVote] answers exactly what
    [insertUniqueVoter] would answer on the same store: the vote is unique
    precisely when the insertion reports no existing vote, and otherwise both
    name the same existing vote. *)
Theorem isUniqueVote_agrees vm vote :
  isUniqueVote vm vote =
    let existing := (insertUniqueVoter (verified_votes_ vm) vote).2 in
    (match existing with None => true | Some _ => false end, existing).
Proof.
  unfold isUniqueVote, insertUniqueVoter. rewrite getStepVotes_round.
  destruct (getRoundVotes _ _ _) as [rv|]; simpl; [|done].
  destruct (step_votes rv !! _) as [sv|]; [|done].
  destruct (unique_voters sv !! _) as [[v1 o]|]; simpl; [|done].
  by repeat case_match; simplify_eq/=.
Qed.

Definition step_type (s : PbftStep) : PbftVoteTypes := msg_getType (mkVrfPbftMsg 0 0 s).

Lemma getType_step_type v : getType v = step_type (getStep v).
Proof. done. Qed.

(** ** Thresholds *)

Definition two_t_plus_one_of (cfg : PbftConfig) (total : Z) (t : PbftVoteTypes) : Z :=
  u64 (u64 (getPbftSortitionThreshold cfg total t * 2) / 3 + 1).

Definition cfg_ok (cfg : PbftConfig) : Prop :=
  in_range 32 (committee_size cfg) /\ in_range 32 (number_of_proposers cfg).

Lemma threshold_range cfg total t :
  cfg_ok cfg -> in_range 64 total ->
  0 <= getPbftSortitionThreshold cfg total t < 2 ^ 32 /\
  getPbftSortitionThreshold cfg total t <= total.
Proof.
  intros [Hc Hp] Ht. unfold in_range, modulus in *.
  unfold getPbftSortitionThreshold. destruct t; lia.
Qed.

Lemma two_t_plus_one_exact cfg total t :
  cfg_ok cfg -> in_range 64 total ->
  two_t_plus_one_of cfg total t = getPbftSortitionThreshold cfg total t * 2 / 3 + 1.
Proof.
  intros Hc Ht. destruct (threshold_range cfg total t Hc Ht) as [? _].
  unfold two_t_plus_one_of. set (T := getPbftSortitionThreshold _ _ _) in *.
  rewrite (wrap_id 64 (T * 2)) by (unfold in_range, modulus; lia).
  apply wrap_id. unfold in_range, modulus.
  pose proof (Z.div_pos (T * 2) 3). pose proof (Z.div_le_upper_bound (T * 2) 3 (2 ^ 33)). lia.
Qed.

(** For a sortition threshold T (committee size or proposers, capped by the
    total vote count) the 2t+1 value does not overflow, is the least number
    above two thirds of T, can be reached when T is positive, and any two sets
    of votes that reach it overlap in at least t+1 of T, where t+1 is the value
    that [addVerifiedVote] computes. *)
Theorem two_t_plus_one_quorum cfg dpos size vm period t total :
  cfg_ok cfg -> in_range 64 total -> dpos period = Some total ->
  current_two_t_plus_one_ vm !! t = None ->
  exists q, (getPbftTwoTPlusOne cfg dpos size vm period t).2 = Some q /\
    let T := getPbftSortitionThreshold cfg total t in
    2 * T < 3 * q /\ 3 * (q - 1) <= 2 * T /\
    (0 < T -> q <= T) /\
    (forall w1 w2, q <= w1 -> q <= w2 -> u64 (u64 (q - 1) / 2 + 1) <= w1 + w2 - T).
Proof.
  intros Hc Ht Hd Hn. unfold getPbftTwoTPlusOne. rewrite Hn, Hd. simpl.
  fold (two_t_plus_one_of cfg total t). rewrite two_t_plus_one_exact by done.
  destruct (threshold_range cfg total t Hc Ht) as [HT _].
  set (T := getPbftSortitionThreshold _ _ _) in *.
  eexists. split; [done|].
  assert (2 * T - 2 <= 3 * (T * 2 / 3) <= 2 * T) as Hq.
  { pose proof (Z.div_mod (T * 2) 3 ltac:(lia)). pose proof (Z.mod_pos_bound (T * 2) 3). lia. }
  set (q := T * 2 / 3) in *. replace (q + 1 - 1) with q by lia.
  rewrite (wrap_id 64 q) by (unfold in_range, modulus; lia).
  assert (2 * (q / 2) <= q) as Hh.
  { pose proof (Z.div_mod q 2 ltac:(lia)). pose proof (Z.mod_pos_bound q 2). lia. }
  pose proof (Z.div_pos q 2).
  rewrite wrap_id by (unfold in_range, modulus; lia).
  split_and!; [lia|lia|intros; lia|intros; lia].
Qed.

Definition sample_cfg : PbftConfig := mkPbftConfig 1000 20.

Example two_t_plus_one_quorum_witness :
  cfg_ok sample_cfg /\
  (getPbftTwoTPlusOne sample_cfg (fun _ => Some 300) 9 (fresh_manager empty_db) 9 cert_vote).2 = Some 201 /\
  exists q, (getPbftTwoTPlusOne sample_cfg (fun _ => Some 300) 9 (fresh_manager empty_db) 9 cert_vote).2
              = Some q /\ 2 * 300 < 3 * q.
Proof.
  assert (cfg_ok sample_cfg) as Hc by (split; split; reflexivity || (vm_compute; congruence)).
  split; [exact Hc|]. split; [vm_compute; reflexivity|].
  destruct (two_t_plus_one_quorum sample_cfg (fun _ => Some 300) 9 (fresh_manager empty_db) 9 cert_vote 300
    Hc ltac:(split; reflexivity || (vm_compute; congruence)) eq_refl eq_refl) as (q & Hq & H1 & _).
  exists q. split; [exact Hq|exact H1].
Defined.

(** ** Invariants of reachable states *)

Section invariants.
Context (cfg : PbftConfig).

(** The total vote count of a block, which the external state database fixes
    once the block is known. *)
Context (total : PbftPeriod -> Z).

(** A query can fail for a future block and otherwise returns that count. *)
Definition dpos_ok (dpos : PbftPeriod -> option Z) : Prop :=
  forall p n, dpos p = Some n -> n = total p.

Definition threshold (p : PbftPeriod) (t : PbftVoteTypes) : Z := two_t_plus_one_of cfg (total p) t.

Definition cache_ok (vm : VoteManager) : Prop :=
  forall t p q, current_two_t_plus_one_ vm !! t = Some (p, q) -> q = threshold p t.

(** The steps and blocks that a type of voted block stands for. *)
Definition block_type_ok (t : TwoTPlusOneVotedBlockType) (b : VotedBlock) : Prop :=
  match t with
  | SoftVotedBlock => step_type (vb_step b) = soft_vote
  | CertVotedBlock => step_type (vb_step b) = cert_vote
  | NextVotedBlock => step_type (vb_step b) = next_vote /\ vb_hash b <> kNullBlockHash
  | NextVotedNullBlock => step_type (vb_step b) = next_vote /\ vb_hash b = kNullBlockHash
  end.

(** The stored votes for a block in a step have 2t+1 weight. *)
Definition has_quorum (vv : PeriodVerifiedVotesMap) (p : PbftPeriod) (r : PbftRound) (s : PbftStep)
    (h : blk_hash_t) : Prop :=
  threshold (u64 (p - 1)) (step_type s) <= map_sum weight_of (votes (voted_at vv p r s h)).

Record vm_inv (vm : VoteManager) : Prop := {
  inv_wf : vv_wf (verified_votes_ vm);
  inv_weights p r s h vh v :
    votes (voted_at (verified_votes_ vm) p r s h) !! vh = Some v -> 0 <= weight_of v;
  inv_quorum p r t b :
    getTwoTPlusOneVotedBlock (verified_votes_ vm) p r t = Some b ->
    block_type_ok t b /\ has_quorum (verified_votes_ vm) p r (vb_step b) (vb_hash b);
  inv_cache : cache_ok vm;
}.

Definition vote_ok (v : PbftVote) : Prop := forall w, getWeight v = Some w -> in_range 64 w.

Lemma vote_ok_nonneg v : vote_ok v -> 0 <= weight_of v.
Proof.
  intros Hv. unfold weight_of. destruct (getWeight v) as [w|] eqn:E; simpl; [|lia].
  by destruct (Hv w E).
Qed.

Lemma fresh_inv db : vm_inv (fresh_manager db).
Proof.
  split; simpl.
  - apply vv_wf_empty.
  - intros p r s h vh v. unfold voted_at, getStepVotes. rewrite lookup_empty. simpl.
    by rewrite lookup_empty.
  - intros p r t b. unfold getTwoTPlusOneVotedBlock. by rewrite lookup_empty.
  - intros t p q. simpl. by rewrite lookup_empty.
Qed.

(** The invariant only reads the store and the cache. *)
Lemma vm_inv_same vm vm' :
  verified_votes_ vm' = verified_votes_ vm ->
  current_two_t_plus_one_ vm' = current_two_t_plus_one_ vm -> vm_inv vm -> vm_inv vm'.
Proof.
  intros Hvv Hc [H1 H2 H3 H4]. split; rewrite ?Hvv; try done.
  unfold cache_ok. by rewrite Hc.
Qed.

Lemma vm_inv_insertUniqueVoter vm vote :
  vm_inv vm -> vm_inv (set_vv vm (insertUniqueVoter (verified_votes_ vm) vote).1).
Proof.
  intros [H1 H2 H3 H4]. split; simpl; [by apply insertUniqueVoter_wf| | |done].
  - intros p r s h vh v. rewrite insertUniqueVoter_voted_at. apply H2.
  - intros p r t b. rewrite insertUniqueVoter_blocks. unfold has_quorum.
    rewrite insertUniqueVoter_voted_at. apply H3.
Qed.

Lemma vm_inv_insertVotedValue vm vote vv' res :
  vm_inv vm -> vote_ok vote -> is_Some (getWeight vote) ->
  insertVotedValue (verified_votes_ vm) vote = Done (vv', res) -> vm_inv (set_vv vm vv').
Proof.
  intros [H1 H2 H3 H4] Hok Hw Hi. pose proof (vote_ok_nonneg _ Hok) as Hnn.
  split; simpl; [by eapply insertVotedValue_wf| | |done].
  - intros p r s h vh v Hv.
    destruct (insertVotedValue_grows _ _ _ _ p r s h Hi Hw) as [Hg _].
    destruct (Hg _ _ Hv) as [?| ->]; [by eapply H2|done].
  - intros p r t b. rewrite (insertVotedValue_blocks _ _ _ _ _ _ _ Hi). intros Hb.
    destruct (H3 _ _ _ _ Hb) as [Ht Hq]. split; [done|]. unfold has_quorum in *.
    destruct (insertVotedValue_grows _ _ _ _ p r (vb_step b) (vb_hash b) Hi Hw) as [_ Hg].
    specialize (Hg Hnn). lia.
Qed.

Lemma vm_inv_setNetwork vm vote :
  vm_inv vm -> vm_inv (set_vv vm (setNetworkTPlusOneStep (verified_votes_ vm) vote)).
Proof.
  intros [H1 H2 H3 H4]. split; simpl; [by apply setNetworkTPlusOneStep_wf| | |done].
  - intros p r s h vh v. rewrite setNetworkTPlusOneStep_voted_at. apply H2.
  - intros p r t b. rewrite setNetworkTPlusOneStep_blocks. unfold has_quorum.
    rewrite setNetworkTPlusOneStep_voted_at. apply H3.
Qed.

Lemma vm_inv_insertBlock vm type vote :
  vm_inv vm ->
  block_type_ok type (mkVotedBlock (getBlockHash vote) (getStep vote)) ->
  has_quorum (verified_votes_ vm) (getPeriod vote) (getRound vote) (getStep vote) (getBlockHash vote) ->
  is_Some (votes (voted_at (verified_votes_ vm) (getPeriod vote) (getRound vote) (getStep vote)
    (getBlockHash vote)) !! getHash vote) ->
  vm_inv (set_vv vm (insertTwoTPlusOneVotedBlock (verified_votes_ vm) type vote)).
Proof.
  intros [H1 H2 H3 H4] Ht Hq [v Hv]. split; simpl.
  - apply insertTwoTPlusOneVotedBlock_wf; [done|]. by eapply voted_at_is_Some.
  - intros p r s h vh v'. rewrite insertTwoTPlusOneVotedBlock_voted_at. apply H2.
  - intros p r t b. unfold has_quorum. rewrite insertTwoTPlusOneVotedBlock_voted_at.
    intros [Hb|(-> & -> & -> & ->)]%insertTwoTPlusOneVotedBlock_blocks; [by apply H3|]. done.
  - done.
Qed.

Lemma vm_inv_cleanup vm bound : vm_inv vm -> vm_inv (vm_cleanupVotesByPeriod vm bound).
Proof.
  intros [H1 H2 H3 H4]. split; simpl; [by apply cleanupVotesByPeriod_wf| | |done].
  - intros p r s h vh v. rewrite cleanup_voted_at. case_decide; [simpl; by rewrite lookup_empty|apply H2].
  - intros p r t b. unfold has_quorum. rewrite cleanup_voted_at.
    unfold getTwoTPlusOneVotedBlock. rewrite cleanupVotesByPeriod_lookup.
    case_decide; [done|]. apply H3.
Qed.

(** The threshold lookup changes only the cache, keeps it coherent, and returns
    the threshold of the period. *)
Lemma getPbftTwoTPlusOne_inv dpos size vm period t :
  vm_inv vm -> dpos_ok dpos ->
  let (vm', res) := getPbftTwoTPlusOne cfg dpos size vm period t in
  vm_inv vm' /\ verified_votes_ vm' = verified_votes_ vm /\
  (forall q, res = Some q -> q = threshold period t).
Proof.
  intros Hinv Hd. unfold getPbftTwoTPlusOne.
  assert (forall n, dpos period = Some n -> vm_inv (set_cache vm
    (<[t := (period, two_t_plus_one_of cfg n t)]> (current_two_t_plus_one_ vm)))) as Hset.
  { intros n Hn. destruct Hinv as [H1 H2 H3 H4]. split; try done.
    intros t' p' q'. simpl. intros [[<- [= <- <-]]|[_ Hl]]%lookup_insert_Some.
    - unfold threshold. by rewrite (Hd _ _ Hn).
    - by apply H4. }
  assert (forall n, dpos period = Some n -> forall q, Some (two_t_plus_one_of cfg n t) = Some q ->
    q = threshold period t) as Hq.
  { intros n Hn q [= <-]. unfold threshold. by rewrite (Hd _ _ Hn). }
  destruct (current_two_t_plus_one_ vm !! t) as [[cp cq]|] eqn:Ec.
  - destruct ((period =? cp) && _) eqn:Eb.
    + split_and!; [done|done|]. intros q [= <-].
      apply andb_true_iff in Eb as [->%Z.eqb_eq _]. by eapply inv_cache.
    + destruct (dpos period) as [n|] eqn:En; [|split_and!; done].
      destruct (period =? size); split_and!; eauto.
  - destruct (dpos period) as [n|] eqn:En; [|split_and!; done].
    destruct (period =? size); split_and!; eauto.
Qed.

Lemma wrap_le w x : 0 <= w -> 0 <= x -> wrap w x <= x.
Proof. intros. apply Z.mod_le; [done|]. by apply modulus_pos. Qed.

(** A group whose recorded weight reaches a threshold has votes of that weight. *)
Lemma weight_le_sum vm p r s h :
  vm_inv vm ->
  weight (voted_at (verified_votes_ vm) p r s h) <=
    map_sum weight_of (votes (voted_at (verified_votes_ vm) p r s h)).
Proof.
  intros Hinv.
  assert (vw_wf p r s h (voted_at (verified_votes_ vm) p r s h)) as Hw.
  { rewrite voted_at_default. apply vw_wf_default, step_wf_default, round_wf_default, Hinv. }
  rewrite (vw_weight _ _ _ _ _ Hw). apply wrap_le; [lia|].
  apply map_sum_nonneg. intros. by eapply inv_weights.
Qed.

Definition types_match (type : TwoTPlusOneVotedBlockType) (vote : PbftVote) : Prop :=
  block_type_ok type (mkVotedBlock (getBlockHash vote) (getStep vote)).

(** The votes of soft and certify steps all have the same step. *)
Lemma step_type_soft s : step_type s = soft_vote -> s = 2.
Proof.
  unfold step_type, msg_getType. simpl.
  destruct s as [|q|q]; try done. do 2 (destruct q as [q|q|]; try done).
Qed.

Lemma step_type_cert s : step_type s = cert_vote -> s = 3.
Proof.
  unfold step_type, msg_getType. simpl.
  destruct s as [|q|q]; try done. do 2 (destruct q as [q|q|]; try done).
Qed.

Lemma step_type_soft_cert s s' :
  step_type s = step_type s' -> step_type s = soft_vote \/ step_type s = cert_vote -> s = s'.
Proof.
  intros E [H|H]; [rewrite (step_type_soft s H), (step_type_soft s')|
    rewrite (step_type_cert s H), (step_type_cert s')]; congruence.
Qed.

(** What the round-votes copy is, and that the vote's group is the one passed. *)
Record save_pre (vm : VoteManager) (rv : RoundVerifiedVotes) (vw : VotesWithWeight)
    (vote : PbftVote) : Prop := {
  pre_round t : two_t_plus_one_voted_blocks_ rv !! t =
    getTwoTPlusOneVotedBlock (verified_votes_ vm) (getPeriod vote) (getRound vote) t;
  pre_quorum : has_quorum (verified_votes_ vm) (getPeriod vote) (getRound vote) (getStep vote)
    (getBlockHash vote);
  pre_vote : is_Some (votes (voted_at (verified_votes_ vm) (getPeriod vote) (getRound vote)
    (getStep vote) (getBlockHash vote)) !! getHash vote);
}.

(** Two different blocks with 2t+1 stored votes in one round and vote type. *)
Definition conflicting_quorums (vm : VoteManager) (vote : PbftVote) : Prop :=
  exists b,
    vb_hash b <> getBlockHash vote /\
    step_type (vb_step b) = getType vote /\
    has_quorum (verified_votes_ vm) (getPeriod vote) (getRound vote) (vb_step b) (vb_hash b) /\
    has_quorum (verified_votes_ vm) (getPeriod vote) (getRound vote) (getStep vote)
      (getBlockHash vote).

Lemma save_cases vm rv vw type vote :
  vm_inv vm -> types_match type vote -> save_pre vm rv vw vote ->
  match saveTwoTPlusOneVotesInDb vm rv vw type vote with
  | Done vm' => vm_inv vm'
  | AssertFailed => conflicting_quorums vm vote
  | Undefined => False
  end.
Proof.
  intros Hinv Hty [Hr Hq Hv]. unfold saveTwoTPlusOneVotesInDb. rewrite Hr.
  destruct (getTwoTPlusOneVotedBlock _ _ _ _) as [b|] eqn:Eb.
  - destruct (inv_quorum _ Hinv _ _ _ _ Eb) as [Hbt Hbq].
    destruct (Z.eqb_spec (vb_hash b) (getBlockHash vote)) as [Eh|Nh]; simpl.
    + assert (type = SoftVotedBlock \/ type = CertVotedBlock -> vb_step b = getStep vote) as Hstep.
      { intros Hsc. apply step_type_soft_cert; unfold types_match in *;
          destruct Hsc as [-> | ->]; simpl in *; rewrite ?Hbt, ?Hty; auto. }
      destruct type; simpl; try done; rewrite Hstep, Z.eqb_refl by auto; done.
    + exists b. split_and!; [done| |done|done]. rewrite getType_step_type.
      unfold types_match in *. destruct type; simpl in *; intuition congruence.
  - pose proof (vm_inv_insertBlock vm type vote Hinv Hty Hq Hv) as Hnew.
    destruct (_ && _ && _); [|done]. by eapply vm_inv_same; [..|exact Hnew].
Qed.

Lemma update_cases dpos size vm vote :
  vm_inv vm -> dpos_ok dpos ->
  is_Some (votes (voted_at (verified_votes_ vm) (getPeriod vote) (getRound vote) (getStep vote)
    (getBlockHash vote)) !! getHash vote) ->
  match update_two_t_plus_one cfg dpos size vm vote
          (voted_at (verified_votes_ vm) (getPeriod vote) (getRound vote) (getStep vote)
             (getBlockHash vote)) with
  | Done (vm', res) => vm_inv vm' /\ res = true
  | AssertFailed => conflicting_quorums vm vote
  | Undefined => False
  end.
Proof.
  intros Hinv Hd Hv. set (vw := voted_at _ _ _ _ _) in *. unfold update_two_t_plus_one.
  pose proof (getPbftTwoTPlusOne_inv dpos size vm (u64 (getPeriod vote - 1)) (getType vote) Hinv Hd)
    as H1.
  destruct (getPbftTwoTPlusOne _ _ _ _ _ _) as [vm1 [q|]]; destruct H1 as (Hinv1 & Hvv1 & Hq1); [|done].
  specialize (Hq1 _ eq_refl). rewrite Hvv1.
  destruct (getRoundVotes _ _ _) as [rv|] eqn:Erv; [|done].
  set (vm2 := if bool_decide _ && _ && _ then set_vv _ _ else _).
  assert (vm_inv vm2) as Hinv2 by (subst vm2; case_match; [rewrite <- Hvv1; by apply vm_inv_setNetwork|done]).
  assert (forall p r s h, voted_at (verified_votes_ vm2) p r s h = voted_at (verified_votes_ vm) p r s h)
    as Hat.
  { intros. subst vm2. case_match; simpl; rewrite ?setNetworkTPlusOneStep_voted_at; congruence. }
  destruct (weight vw <? q) eqn:Elt; [done|]. apply Z.ltb_ge in Elt.
  assert (forall t, two_t_plus_one_voted_blocks_ rv !! t =
    getTwoTPlusOneVotedBlock (verified_votes_ vm2) (getPeriod vote) (getRound vote) t) as Hblk.
  { intros t. subst vm2. case_match; simpl; rewrite ?setNetworkTPlusOneStep_blocks, ?Hvv1,
      two_t_block_round, Erv; done. }
  assert (save_pre vm2 rv vw vote) as Hpre.
  { split; [done| |by rewrite Hat].
    unfold has_quorum. rewrite Hat. pose proof (weight_le_sum vm (getPeriod vote) (getRound vote)
      (getStep vote) (getBlockHash vote) Hinv) as Hw. fold vw in Hw. unfold threshold in *.
    rewrite <- getType_step_type. fold vw. lia. }
  assert (forall type, types_match type vote ->
    match obind (saveTwoTPlusOneVotesInDb vm2 rv vw type vote) (fun vm => Done (vm, true)) with
    | Done (vm', res) => vm_inv vm' /\ res = true
    | AssertFailed => conflicting_quorums vm vote
    | Undefined => False
    end) as Hsave.
  { intros type Hty. pose proof (save_cases vm2 rv vw type vote Hinv2 Hty Hpre) as Hc.
    destruct (saveTwoTPlusOneVotesInDb _ _ _ _ _); simpl; [done| |done].
    destruct Hc as (b & ? & ? & Hb1 & Hb2). exists b. unfold has_quorum in *.
    rewrite !Hat in *. done. }
  destruct (getType vote) eqn:Ety; try done.
  - apply Hsave. by unfold types_match.
  - apply Hsave. by unfold types_match.
  - destruct (Z.eqb_spec (getBlockHash vote) kNullBlockHash); apply Hsave; unfold types_match; simpl;
      split; done.
Qed.

(** The manager with the vote stored, where the 2t+1 checks run. *)
Definition with_vote (vm : VoteManager) (vote : PbftVote) : VoteManager :=
  let vv := (insertUniqueVoter (verified_votes_ vm) vote).1 in
  match insertVotedValue vv vote with
  | Done (vv', _) => set_vv vm vv'
  | _ => vm
  end.

Lemma addVerifiedVote_cases dpos size vm vote :
  vm_inv vm -> dpos_ok dpos -> vote_ok vote ->
  match addVerifiedVote cfg dpos size vm vote with
  | Done (vm', _) => vm_inv vm'
  | AssertFailed => getWeight vote = None \/ conflicting_quorums (with_vote vm vote) vote
  | Undefined => False
  end.
Proof.
  intros Hinv Hd Hok. unfold addVerifiedVote, with_vote.
  destruct (getWeight vote) as [w|] eqn:Ew; [|by left].
  destruct (w =? 0); [done|].
  pose proof (vm_inv_insertUniqueVoter vm vote Hinv) as Hinv1.
  destruct (insertUniqueVoter _ vote) as [vv1 [ex|]]; simpl in *.
  { by eapply vm_inv_same; [..|exact Hinv1]. }
  destruct (_ && negb _); [done|].
  destruct (insertVotedValue_effect vv1 vote w Ew) as (vv2 & res & Hi & _ & Hres).
  rewrite Hi. simpl.
  pose proof (vm_inv_insertVotedValue _ _ _ _ Hinv1 Hok ltac:(by rewrite Ew) Hi) as Hinv2.
  change (set_vv (set_vv vm vv1) vv2) with (set_vv vm vv2) in *.
  destruct (votes _ !! getHash vote).
  { destruct Hres as [-> _]. done. }
  destruct Hres as (-> & Hvotes & _).
  set (vm3 := if _ && _ then set_db (set_extra _ _) _ else _).
  assert (verified_votes_ vm3 = vv2) as Hvv3 by (subst vm3; by case_match).
  assert (vm_inv vm3) as Hinv3.
  { subst vm3. case_match; [|done]. by eapply vm_inv_same; [..|exact Hinv2]. }
  pose proof (update_cases dpos size vm3 vote Hinv3 Hd) as Hu. rewrite Hvv3, Hvotes in Hu.
  specialize (Hu ltac:(by rewrite lookup_insert_eq)).
  destruct (update_two_t_plus_one _ _ _ _ _ _) as [[vm4 b]| |]; [by destruct Hu| |done].
  right. destruct Hu as (b & Hb). exists b. unfold has_quorum in *. by rewrite Hvv3 in Hb.
Qed.

Lemma saveRoundBundles_same vm rv e vm' :
  saveRoundBundles vm rv e = Done vm' ->
  verified_votes_ vm' = verified_votes_ vm /\
  current_two_t_plus_one_ vm' = current_two_t_plus_one_ vm.
Proof. unfold saveRoundBundles. intros. by repeat case_match; simplify_eq. Qed.

Lemma setCurrent_cases vm p r :
  vm_inv vm -> exists vm', setCurrentPbftPeriodAndRound vm p r = Done vm' /\ vm_inv vm' /\
    verified_votes_ vm' = verified_votes_ vm.
Proof.
  intros Hinv. unfold setCurrentPbftPeriodAndRound.
  destruct (getRoundVotes _ _ _) as [rv|] eqn:Erv.
  2: { eexists. split; [done|]. split; [by eapply vm_inv_same; [..|exact Hinv]|done]. }
  pose proof (inv_wf _ Hinv _ _ _ Erv) as Hrv. simpl in Hrv.
  destruct (ofold_inv (fun vm entry => saveRoundBundles vm rv entry)
    (fun vm' => vm_inv vm' /\ verified_votes_ vm' = verified_votes_ vm)
    (map_to_list (two_t_plus_one_voted_blocks_ rv)) (set_current vm p r)) as (vm' & -> & ? & ?).
  - intros vm1 [t b] Hin%elem_of_map_to_list [Hi1 Hv1].
    destruct (rv_blocks _ _ _ Hrv _ _ Hin) as (sv & vw & Hs & Hh).
    assert (exists vm2, saveRoundBundles vm1 rv (t, b) = Done vm2) as [vm2 H2].
    { unfold saveRoundBundles. rewrite Hs, Hh. destruct t; eauto. }
    exists vm2. destruct (saveRoundBundles_same _ _ _ _ H2) as [Hvv Hcc].
    split; [done|]. split; [|congruence]. by eapply vm_inv_same; [..|exact Hi1].
  - split; [by eapply vm_inv_same; [..|exact Hinv]|done].
  - eauto.
Qed.

Lemma resetRewardVotes_inv vm p r s h vm' :
  vm_inv vm -> resetRewardVotes vm p r s h = Done vm' -> vm_inv vm'.
Proof.
  intros Hinv. unfold resetRewardVotes. intros. repeat case_match; simplify_eq.
  by eapply vm_inv_same; [..|exact Hinv].
Qed.

Lemma load_vote_inv dpos size b st vote st' :
  dpos_ok dpos -> vote_ok vote -> vm_inv st.1 -> load_vote cfg dpos size b st vote = Done st' ->
  vm_inv st'.1.
Proof.
  intros Hd Hok Hinv. destruct st as [vm f]. unfold load_vote.
  destruct (negb _); [by intros [= <-]|].
  destruct (if b && _ then _ else _) as [[vm1 f1]| |] eqn:Est; try done. simpl.
  assert (vm_inv vm1) as Hinv1.
  { unfold oassert in Est. repeat case_match; simplify_eq/=; try done;
      by eapply vm_inv_same; [..|exact Hinv]. }
  pose proof (addVerifiedVote_cases dpos size vm1 vote Hinv1 Hd Hok) as Hc.
  destruct (addVerifiedVote _ _ _ _ _) as [[vm2 ?]| |]; try done. by intros [= <-].
Qed.

Lemma addVerifiedVotes_inv dpos size vm vs b vm' :
  dpos_ok dpos -> Forall vote_ok vs -> vm_inv vm ->
  addVerifiedVotes cfg dpos size vm vs b = Done vm' -> vm_inv vm'.
Proof.
  intros Hd Hvs Hinv. unfold addVerifiedVotes.
  assert (forall vs st st', Forall vote_ok vs -> vm_inv st.1 ->
    ofold (load_vote cfg dpos size b) vs st = Done st' -> vm_inv st'.1) as Hfold.
  { clear -Hd. intros vs. induction vs as [|v vs IH]; intros st st' Hf Hi; simpl.
    - by intros [= <-].
    - inversion_clear Hf as [|? ? Hv Hf'].
      destruct (load_vote cfg dpos size b st v) as [st1| |] eqn:E1; try done. simpl.
      apply IH; [done|]. by eapply load_vote_inv. }
  destruct (ofold _ _ _) as [st| |] eqn:E; try done. simpl. intros [= <-].
  by eapply Hfold; [exact Hvs| |exact E].
Qed.

Definition db_votes_ok (db : VotesDb) : Prop :=
  Forall vote_ok (getAllTwoTPlusOneVotes db) /\
  Forall vote_ok (map_items (latest_round_own_votes db)).*2 /\
  Forall vote_ok (map_items (extra_reward_votes_column db)).*2.

Lemma construct_inv dpos size db vm :
  dpos_ok dpos -> db_votes_ok db -> construct cfg dpos size db = Done vm -> vm_inv vm.
Proof.
  intros Hd (H1 & H2 & H3). unfold construct.
  destruct (addVerifiedVotes _ _ _ (fresh_manager db) _ _) as [vm1| |] eqn:E1; try done. simpl.
  assert (vm_inv vm1) by (eapply addVerifiedVotes_inv; [..|exact E1]; auto using fresh_inv).
  destruct (addVerifiedVotes _ _ _ (set_own _ _) _ _) as [vm2| |] eqn:E2; try done. simpl.
  assert (vm_inv vm2).
  { eapply addVerifiedVotes_inv; [..|exact E2]; auto. by apply (vm_inv_same vm1). }
  intros E3. eapply addVerifiedVotes_inv; [..|exact E3]; auto. by apply (vm_inv_same vm2).
Qed.

(** The operations that the rest of the node calls on a vote manager. *)
Inductive vm_step : VoteManager -> VoteManager -> Prop :=
| step_add dpos size vote vm vm' b :
    dpos_ok dpos -> vote_ok vote ->
    addVerifiedVote cfg dpos size vm vote = Done (vm', b) -> vm_step vm vm'
| step_two_t_plus_one dpos size p t vm vm' q :
    dpos_ok dpos -> getPbftTwoTPlusOne cfg dpos size vm p t = (vm', q) -> vm_step vm vm'
| step_set_current p r vm vm' :
    setCurrentPbftPeriodAndRound vm p r = Done vm' -> vm_step vm vm'
| step_cleanup p vm : vm_step vm (vm_cleanupVotesByPeriod vm p)
| step_reset p r s h vm vm' : resetRewardVotes vm p r s h = Done vm' -> vm_step vm vm'
| step_save_own vote vm : vm_step vm (saveOwnVerifiedVote vm vote)
| step_clear_own vm : vm_step vm (clearOwnVerifiedVotes vm).

Inductive vm_reachable : VoteManager -> Prop :=
| reach_new dpos size db vm :
    dpos_ok dpos -> db_votes_ok db -> construct cfg dpos size db = Done vm -> vm_reachable vm
| reach_step vm vm' : vm_reachable vm -> vm_step vm vm' -> vm_reachable vm'.

Lemma reachable_inv vm : vm_reachable vm -> vm_inv vm.
Proof.
  induction 1 as [dpos size db vm Hd Hdb Hc|vm vm' _ IH Hs]; [by eapply construct_inv|].
  destruct Hs as [dpos size vote vm vm' b Hd Hok Ha|dpos size p t vm vm' q Hd Hg|p r vm vm' Hs|
    p vm|p r s h vm vm' Hr|vote vm|vm].
  - pose proof (addVerifiedVote_cases dpos size vm vote IH Hd Hok) as Hc. by rewrite Ha in Hc.
  - pose proof (getPbftTwoTPlusOne_inv dpos size vm p t IH Hd) as Hc. rewrite Hg in Hc. by destruct Hc.
  - destruct (setCurrent_cases vm p r IH) as (vm1 & H1 & ? & _). rewrite Hs in H1. by simplify_eq.
  - by apply vm_inv_cleanup.
  - by eapply resetRewardVotes_inv.
  - by eapply vm_inv_same; [..|exact IH].
  - by eapply vm_inv_same; [..|exact IH].
Qed.
End invariants.

(** The votes of a recorded 2t+1 block. *)
Lemma quorum_votes cfg total vm p r t b :
  vm_inv cfg total vm ->
  getTwoTPlusOneVotedBlock (verified_votes_ vm) p r t = Some b ->
  block_type_ok t b /\
  exists l, getTwoTPlusOneVotedBlockVotes (verified_votes_ vm) p r t = Done l /\
    NoDup (getHash <$> l) /\
    (forall v, v ∈ l -> at_coord p r (vb_step b) v /\ getBlockHash v = vb_hash b) /\
    two_t_plus_one_of cfg (total (u64 (p - 1))) (step_type (vb_step b)) <= sum_list_Z weight_of l.
Proof.
  intros Hinv Hb.
  destruct (inv_quorum _ _ _ Hinv _ _ _ _ Hb) as [Hbt Hq]. split; [done|].
  unfold getTwoTPlusOneVotedBlockVotes. rewrite Hb. rewrite two_t_block_round in Hb.
  destruct (getRoundVotes _ p r) as [rv|] eqn:Erv; [|done]. simpl in Hb.
  pose proof (inv_wf _ _ _ Hinv _ _ _ Erv) as Hrv.
  destruct (rv_blocks _ _ _ Hrv _ _ Hb) as (sv & vw & Hs & Hh).
  unfold has_quorum, voted_at in Hq. rewrite getStepVotes_round, Erv in *. simpl in *.
  rewrite Hs in *. simpl in *. rewrite Hh in *. simpl in *.
  pose proof (sv_values _ _ _ _ (rv_steps _ _ _ Hrv _ _ Hs) _ _ Hh) as Hvw.
  eexists. split; [done|]. split_and!.
  - replace (getHash <$> (map_to_list (votes vw)).*2) with (map_to_list (votes vw)).*1;
      [apply NoDup_fst_map_to_list|].
    rewrite <- list_fmap_compose. apply list_fmap_ext. intros i [k v] Hin.
    apply list_elem_of_lookup_2, elem_of_map_to_list in Hin.
    destruct (vw_votes _ _ _ _ _ Hvw _ _ Hin) as [Hk _]. done.
  - intros v ([k v'] & -> & Hin%elem_of_map_to_list)%list_elem_of_fmap. simpl.
    destruct (vw_votes _ _ _ _ _ Hvw _ _ Hin) as (_ & ? & ? & _). auto.
  - by rewrite <- map_sum_list.
Qed.

(** ** Properties *)

(** C1: in every state a vote manager can reach from a database by its
    operations, every recorded 2t+1 voted block is of the kind its type says and
    its votes can be retrieved: they are distinct, belong to that period, round,
    step and block, and their weights add up to at least the 2t+1 threshold of
    the previous period. *)
Theorem reachable_two_t_plus_one cfg total vm p r t b :
  vm_reachable cfg total vm ->
  getTwoTPlusOneVotedBlock (verified_votes_ vm) p r t = Some b ->
  block_type_ok t b /\
  exists l, getTwoTPlusOneVotedBlockVotes (verified_votes_ vm) p r t = Done l /\
    NoDup (getHash <$> l) /\
    (forall v, v ∈ l -> at_coord p r (vb_step b) v /\ getBlockHash v = vb_hash b) /\
    two_t_plus_one_of cfg (total (u64 (p - 1))) (step_type (vb_step b)) <= sum_list_Z weight_of l.
Proof. intros Hr. by apply quorum_votes, reachable_inv. Qed.

(** [addVerifiedVote] in a reachable state aborts only for a vote without
    weight, or when two different blocks have 2t+1 stored votes of the same type
    in the same period and round once the vote is stored; it never reads outside
    a container. *)
Theorem addVerifiedVote_aborts cfg total dpos size vm vote :
  vm_reachable cfg total vm -> dpos_ok total dpos -> vote_ok vote ->
  addVerifiedVote cfg dpos size vm vote <> Undefined /\
  (addVerifiedVote cfg dpos size vm vote = AssertFailed ->
    getWeight vote = None \/
    conflicting_quorums cfg total (with_vote vm vote) vote).
Proof.
  intros Hr Hd Hok. pose proof (reachable_inv _ _ _ Hr) as Hinv.
  pose proof (addVerifiedVote_cases cfg total dpos size vm vote Hinv Hd Hok) as Hc.
  destruct (addVerifiedVote _ _ _ _ _) as [[vm' b]| |]; [by split| |done]. by split.
Qed.

(** The loop of [setCurrentPbftPeriodAndRound] over the voted blocks of a round. *)
Lemma saveRoundBundles_loop p r rv l vm vm0 :
  getRoundVotes (verified_votes_ vm) p r = Some rv -> round_wf p r rv ->
  (forall t b, (t, b) ∈ l -> two_t_plus_one_voted_blocks_ rv !! t = Some b) -> NoDup l.*1 ->
  exists vm', ofold (fun vm entry => saveRoundBundles vm rv entry) l vm0 = Done vm' /\
    current_pbft_period_ vm' = current_pbft_period_ vm0 /\
    current_pbft_round_ vm' = current_pbft_round_ vm0 /\
    verified_votes_ vm' = verified_votes_ vm0 /\
    forall t, latest_round_two_t_plus_one_votes (db_ vm') !! t =
      match (list_to_map l : gmap TwoTPlusOneVotedBlockType VotedBlock) !! t with
      | Some b =>
          if decide (t = CertVotedBlock)
          then latest_round_two_t_plus_one_votes (db_ vm0) !! t
          else Some (map_to_list (votes (voted_at (verified_votes_ vm) p r (vb_step b)
                 (vb_hash b)))).*2
      | None => latest_round_two_t_plus_one_votes (db_ vm0) !! t
      end.
Proof.
  intros Erv Hrv. revert vm0. induction l as [|[t b] l IH]; intros vm0 Hl Hnd.
  { by exists vm0. }
  assert (two_t_plus_one_voted_blocks_ rv !! t = Some b) as Hb by (apply Hl; set_solver).
  destruct (rv_blocks _ _ _ Hrv _ _ Hb) as (sv & vw & Hs & Hh).
  assert (voted_at (verified_votes_ vm) p r (vb_step b) (vb_hash b) = vw) as Hat.
  { unfold voted_at. rewrite getStepVotes_round, Erv. simpl. rewrite Hs. simpl. by rewrite Hh. }
  simpl in Hnd. apply NoDup_cons in Hnd as [Hnin Hnd].
  set (vm1 := match t with CertVotedBlock => vm0 | _ =>
    set_db vm0 (replaceTwoTPlusOneVotes (db_ vm0) t ((map_to_list (votes vw)).*2)) end).
  assert (saveRoundBundles vm0 rv (t, b) = Done vm1) as Hs1.
  { unfold saveRoundBundles. rewrite Hs, Hh. by destruct t. }
  destruct (IH vm1) as (vm' & Hf & Hp & Hrd & Hvv & Hdb); [intros; apply Hl; set_solver|done|].
  exists vm'. cbn [ofold]. rewrite Hs1. cbn [obind]. split; [done|].
  rewrite Hp, Hrd, Hvv. split_and!; [by destruct t|by destruct t|by destruct t|].
  intros t'. rewrite Hdb, list_to_map_cons, lookup_insert.
  destruct (decide (t = t')) as [<-|Ht].
  - rewrite (not_elem_of_list_to_map_1 l t), Hat by done. subst vm1.
    destruct t; simpl; rewrite ?lookup_insert_eq; done.
  - assert (latest_round_two_t_plus_one_votes (db_ vm1) !! t' =
      latest_round_two_t_plus_one_votes (db_ vm0) !! t') as ->; [|done].
    subst vm1. destruct t; simpl; rewrite ?lookup_insert_ne, ?lookup_delete_ne by done; done.
Qed.

(** Changing the period and round in a reachable state never reaches its
    [assert(false)] branches, changes no vote, and leaves in the database, for
    every 2t+1 voted block of the new round other than a certified one, exactly
    the stored votes for that block. *)
Theorem setCurrentPbftPeriodAndRound_correct cfg total vm p r :
  vm_reachable cfg total vm ->
  exists vm', setCurrentPbftPeriodAndRound vm p r = Done vm' /\
    current_pbft_period_ vm' = p /\ current_pbft_round_ vm' = r /\
    verified_votes_ vm' = verified_votes_ vm /\
    forall t b, t <> CertVotedBlock ->
      getTwoTPlusOneVotedBlock (verified_votes_ vm) p r t = Some b ->
      latest_round_two_t_plus_one_votes (db_ vm') !! t =
        Some (map_to_list (votes (voted_at (verified_votes_ vm) p r (vb_step b) (vb_hash b)))).*2.
Proof.
  intros Hr. pose proof (reachable_inv _ _ _ Hr) as Hinv.
  unfold setCurrentPbftPeriodAndRound.
  destruct (getRoundVotes (verified_votes_ (set_current vm p r)) p r) as [rv|] eqn:Erv; simpl in Erv.
  2: { eexists. split; [done|]. split_and!; try done. intros t b _.
       by rewrite two_t_block_round, Erv. }
  pose proof (inv_wf _ _ _ Hinv _ _ _ Erv) as Hrv.
  destruct (saveRoundBundles_loop p r rv (map_to_list (two_t_plus_one_voted_blocks_ rv)) vm
    (set_current vm p r)) as (vm' & Hf & Hp & Hrd & Hvv & Hdb); [done|done| | |].
  { intros t b. apply elem_of_map_to_list. }
  { apply NoDup_fst_map_to_list. }
  exists vm'. split; [done|]. split_and!; try done.
  intros t b Ht. rewrite two_t_block_round, Erv. simpl. intros Hb.
  rewrite Hdb, list_to_map_to_list, Hb, decide_False by done. done.
Qed.

(** ** The voters of a step *)

Definition voters_at (vv : PeriodVerifiedVotesMap) (p : PbftPeriod) (r : PbftRound) (s : PbftStep) :
    gmap addr_t (PbftVote * option PbftVote) :=
  default ∅ (unique_voters <$> getStepVotes vv p r s).

Lemma setNetworkTPlusOneStep_voters vv vote p r s :
  voters_at (setNetworkTPlusOneStep vv vote) p r s = voters_at vv p r s.
Proof.
  unfold setNetworkTPlusOneStep. destruct (getRoundVotes vv _ _) as [rv|] eqn:Erv; [|done].
  unfold voters_at. rewrite getStepVotes_put. case_decide as D; [|done]. destruct D as [<- <-].
  by rewrite getStepVotes_round, Erv.
Qed.

Lemma insertTwoTPlusOneVotedBlock_voters vv type vote p r s :
  voters_at (insertTwoTPlusOneVotedBlock vv type vote) p r s = voters_at vv p r s.
Proof.
  unfold insertTwoTPlusOneVotedBlock. destruct (getRoundVotes vv _ _) as [rv|] eqn:Erv; [|done].
  case_match; [done|].
  unfold voters_at. rewrite getStepVotes_put. case_decide as D; [|done]. destruct D as [<- <-].
  by rewrite getStepVotes_round, Erv.
Qed.

Lemma insertVotedValue_voters vv vote vv' res p r s :
  insertVotedValue vv vote = Done (vv', res) -> voters_at vv' p r s = voters_at vv p r s.
Proof.
  unfold insertVotedValue, voters_at. intros H.
  repeat case_match; simplify_eq; rewrite getStepVotes_put, !getStepVotes_round;
    (case_decide as D; [|done]); destruct D as [<- <-]; simpl;
    rewrite lookup_insert; (case_decide as D; [subst s|]); simpl;
    by destruct (getRoundVotes vv _ _) as [rv|]; simpl; try destruct (step_votes rv !! _).
Qed.

Lemma getPbftTwoTPlusOne_store cfg dpos size vm p t :
  verified_votes_ (getPbftTwoTPlusOne cfg dpos size vm p t).1 = verified_votes_ vm.
Proof. unfold getPbftTwoTPlusOne. by repeat case_match. Qed.

Lemma update_two_t_plus_one_voters cfg dpos size vm vote vw vm' b p r s :
  update_two_t_plus_one cfg dpos size vm vote vw = Done (vm', b) ->
  voters_at (verified_votes_ vm') p r s = voters_at (verified_votes_ vm) p r s.
Proof.
  unfold update_two_t_plus_one.
  pose proof (getPbftTwoTPlusOne_store cfg dpos size vm (u64 (getPeriod vote - 1)) (getType vote)) as Hs.
  destruct (getPbftTwoTPlusOne _ _ _ _ _ _) as [vm1 q]. simpl in Hs. rewrite <- Hs. clear Hs.
  destruct q as [q|]; [|by intros [= <- <-]].
  destruct (getRoundVotes _ _ _) as [rv|]; [|by intros [= <- <-]].
  set (vm2 := if bool_decide _ && _ && _ then set_vv _ _ else _).
  assert (voters_at (verified_votes_ vm2) p r s = voters_at (verified_votes_ vm1) p r s) as <-.
  { subst vm2. case_match; simpl; by rewrite ?setNetworkTPlusOneStep_voters. }
  clearbody vm2. destruct (_ <? _); [by intros [= <- <-]|].
  assert (forall type, obind (saveTwoTPlusOneVotesInDb vm2 rv vw type vote) (fun vm => Done (vm, true))
    = Done (vm', b) -> voters_at (verified_votes_ vm') p r s = voters_at (verified_votes_ vm2) p r s)
    as Hsave.
  { intros type. unfold saveTwoTPlusOneVotesInDb, oassert. repeat case_match; simpl; intros;
      simplify_eq; simpl; by rewrite ?insertTwoTPlusOneVotedBlock_voters. }
  repeat case_match; try apply Hsave; by intros [= <- <-].
Qed.

(** The first vote of a step is accepted without being entered in the
    step's voters, because [addVerifiedVote] looks for a double vote before it
    creates the step.  So the voter's next vote in the same step, for whatever
    block, still counts as unique and no double vote is reported. *)
Theorem first_vote_unregistered cfg dpos size vm v1 v2 vm1 :
  getStepVotes (verified_votes_ vm) (getPeriod v1) (getRound v1) (getStep v1) = None ->
  addVerifiedVote cfg dpos size vm v1 = Done (vm1, true) ->
  at_coord (getPeriod v1) (getRound v1) (getStep v1) v2 -> getVoterAddr v2 = getVoterAddr v1 ->
  isUniqueVote vm1 v2 = (true, None) /\
  (insertUniqueVoter (verified_votes_ vm1) v2).2 = None.
Proof.
  intros Hnone Hadd (Hp & Hr & Hs) Ha.
  enough (voters_at (verified_votes_ vm1) (getPeriod v1) (getRound v1) (getStep v1) = ∅) as Hempty.
  { unfold isUniqueVote, insertUniqueVoter. rewrite Hp, Hr, Hs, getStepVotes_round.
    unfold voters_at in Hempty. rewrite getStepVotes_round in Hempty.
    destruct (getRoundVotes _ _ _) as [rv|]; simpl in *; [|done].
    destruct (step_votes rv !! _) as [sv|]; simpl in *; [|done].
    rewrite Hempty, lookup_empty. done. }
  unfold addVerifiedVote in Hadd. destruct (getWeight v1) as [w|]; [|done].
  destruct (w =? 0); [done|].
  assert (insertUniqueVoter (verified_votes_ vm) v1 = (verified_votes_ vm, None)) as Hu.
  { unfold insertUniqueVoter. rewrite getStepVotes_round in Hnone.
    destruct (getRoundVotes _ _ _) as [rv|]; simpl in *; [|done]. by rewrite Hnone. }
  rewrite Hu in Hadd. simpl in Hadd. destruct (_ && negb _); [done|].
  destruct (insertVotedValue (verified_votes_ vm) v1) as [[vv2 [vw|]]| |] eqn:Ei; try done.
  cbn [obind] in Hadd. apply (update_two_t_plus_one_voters _ _ _ _ _ _ _ _ (getPeriod v1) (getRound v1)
    (getStep v1)) in Hadd.
  rewrite Hadd. destruct (_ && _); simpl; rewrite (insertVotedValue_voters _ _ _ _ _ _ _ Ei);
    unfold voters_at; by rewrite Hnone.
Qed.

(** A run that shows it: with three votes in total the voter [3] certifies two
    different blocks in one step; both votes are accepted, none is reported. *)
Definition sample_dpos (p : PbftPeriod) : option Z := Some 3.
Definition cert_a : PbftVote := mkPbftVote 70 (mkVrfPbftMsg 5 1 3) 0 0 11 3 (Some 1).
Definition cert_b : PbftVote := mkPbftVote 71 (mkVrfPbftMsg 5 1 3) 0 0 12 3 (Some 1).

Definition run_add (vm : VoteManager) (v : PbftVote) : VoteManager * bool :=
  match addVerifiedVote sample_cfg sample_dpos 9 vm v with Done r => r | _ => (vm, false) end.

Example first_vote_unregistered_witness :
  let vm1 := (run_add (fresh_manager empty_db) cert_a).1 in
  isUniqueVote vm1 cert_b = (true, None) /\
  (run_add vm1 cert_b).2 = true /\
  double_voting_reports (run_add vm1 cert_b).1 = [] /\
  votes (voted_at (verified_votes_ (run_add vm1 cert_b).1) 5 1 3 70) !! 11 = Some cert_a /\
  votes (voted_at (verified_votes_ (run_add vm1 cert_b).1) 5 1 3 71) !! 12 = Some cert_b.
Proof.
  intros vm1. split; [|vm_compute; done].
  apply (first_vote_unregistered sample_cfg sample_dpos 9 (fresh_manager empty_db) cert_a cert_b vm1);
    vm_compute; try done; repeat split.
Defined.

(** ** New rounds *)

(** The round has a 2t+1 next voted block, null or not. *)
Definition next_voted (rv : RoundVerifiedVotes) : Prop :=
  is_Some (two_t_plus_one_voted_blocks_ rv !! NextVotedBlock) \/
  is_Some (two_t_plus_one_voted_blocks_ rv !! NextVotedNullBlock).

Lemma next_voted_lookup rv :
  next_voted rv <->
  is_Some (match two_t_plus_one_voted_blocks_ rv !! NextVotedBlock with
           | Some b => Some b
           | None => two_t_plus_one_voted_blocks_ rv !! NextVotedNullBlock
           end).
Proof.
  unfold next_voted. destruct (_ !! NextVotedBlock) as [b|].
  - split; [by eauto|]. intros _. left. by eexists.
  - split; [intros [[? ?]|?]; done|auto].
Qed.

Lemma scan_rounds_spec l r r' :
  StronglySorted (flip key_le) l ->
  scan_rounds l r = Some r' <->
  exists k rv, (k, rv) ∈ l /\ r <= k /\ next_voted rv /\ r' = u32 (k + 1) /\
    exists l1 l2, l = l1 ++ (k, rv) :: l2 /\ forall k' rv', (k', rv') ∈ l1 -> ~ next_voted rv'.
Proof.
  induction l as [|[k0 rv0] l IH]; intros Hs; simpl.
  { split; [done|]. intros (k & rv & Hin & _). inversion Hin. }
  apply StronglySorted_inv in Hs as [Hs Hall]. specialize (IH Hs).
  pose proof (next_voted_lookup rv0) as Hnv.
  destruct (Z.ltb_spec k0 r) as [Hlt|Hge].
  - split; [done|]. intros (k & rv & Hin & Hk & _). exfalso.
    apply elem_of_cons in Hin as [[= <- <-]|Hin]; [lia|].
    rewrite Forall_forall in Hall. specialize (Hall _ Hin). unfold flip, key_le in Hall.
    simpl in Hall. lia.
  - destruct (match _ !! NextVotedBlock with Some b => Some b | None => _ end) as [b|].
    + split.
      * intros [= <-]. exists k0, rv0. split_and!; [set_solver|done|apply Hnv; eauto|done|].
        exists [], l. split; [done|]. set_solver.
      * intros (k & rv & Hin & Hk & Hn & -> & [|[k1 rv1] l1] & l2 & Hl & Hfirst); simplify_eq/=; [done|].
        exfalso. apply (Hfirst k1 rv1); [set_solver|]. apply Hnv. eauto.
    + rewrite IH. split.
      * intros (k & rv & Hin & Hk & Hn & -> & l1 & l2 & -> & Hfirst).
        exists k, rv. split_and!; [set_solver|done|done|done|].
        exists ((k0, rv0) :: l1), l2. split; [done|].
        intros k' rv' [[= <- <-]|?]%elem_of_cons; [|by eapply Hfirst].
        rewrite Hnv. by intros [? ?].
      * intros (k & rv & Hin & Hk & Hn & -> & l1 & l2 & Hl & Hfirst).
        destruct l1 as [|[k1 rv1] l1]; simplify_eq/=.
        { apply Hnv in Hn as [? ?]. done. }
        exists k, rv. split_and!; [set_solver|done|done|done|]. exists l1, l2. split; [done|].
        intros k' rv' ?. apply (Hfirst k'). set_solver.
Qed.

(** C11: [determineNewRound] returns the successor (modulo 2^32) of the greatest
    round of the period that has 2t+1 next votes, if that round is not below the
    current one, and nothing otherwise. *)
Theorem determineNewRound_correct vm p r r' :
  determineNewRound vm p r = Some r' <->
  exists k rv, getRoundVotes (verified_votes_ vm) p k = Some rv /\ r <= k /\ next_voted rv /\
    r' = u32 (k + 1) /\
    forall k' rv', k < k' -> getRoundVotes (verified_votes_ vm) p k' = Some rv' -> ~ next_voted rv'.
Proof.
  unfold determineNewRound, getPeriodVotes, getRoundVotes.
  destruct (verified_votes_ vm !! p) as [pm|].
  2: { split; [done|]. by intros (? & ? & ? & _). }
  rewrite scan_rounds_spec by apply reverse_items_sorted.
  setoid_rewrite elem_of_reverse_items. split.
  - intros (k & rv & Hk & Hr & Hn & -> & l1 & l2 & Hl & Hfirst).
    exists k, rv. split_and!; [done..|]. intros k' rv' Hlt Hk'.
    apply (Hfirst k'). pose proof (reverse_items_sorted pm) as Hsort.
    apply elem_of_reverse_items in Hk'. rewrite Hl in Hk', Hsort.
    apply elem_of_app in Hk' as [?|Hk']; [done|]. exfalso.
    apply StronglySorted_app in Hsort as (_ & _ & Hsort).
    apply StronglySorted_inv in Hsort as [_ Hall]. rewrite Forall_forall in Hall.
    apply elem_of_cons in Hk' as [[= -> ->]|Hk']; [lia|].
    specialize (Hall _ Hk'). unfold flip, key_le in Hall. simpl in Hall. lia.
  - intros (k & rv & Hk & Hr & Hn & -> & Hmax). exists k, rv. split_and!; [done..|].
    apply elem_of_reverse_items in Hk as Hin.
    apply list_elem_of_split in Hin as (l1 & l2 & Hl). exists l1, l2. split; [done|].
    intros k' rv' Hin1. apply (Hmax k').
    + pose proof (reverse_items_sorted pm) as Hsort. pose proof (map_items_NoDup pm) as Hnd.
      rewrite Hl in Hsort. apply StronglySorted_app in Hsort as (Hle & _ & _).
      specialize (Hle (k', rv') (k, rv) Hin1 ltac:(set_solver)). unfold flip, key_le in Hle. simpl in Hle.
      enough (k <> k') by lia. intros <-.
      rewrite <- (reverse_Permutation (map_items pm)), Hl, fmap_app in Hnd.
      apply NoDup_app in Hnd as (_ & Hd & _).
      apply (Hd k); [|set_solver]. apply list_elem_of_fmap. by exists (k, rv').
    + apply elem_of_reverse_items. rewrite Hl. set_solver.
Qed.

(** ** Reward votes *)

Lemma collect_votes_found (m : gmap vote_hash_t PbftVote) hs copy flag acc :
  (collect_votes m hs copy flag acc).1 = true ->
  flag = true /\
  exists vs, Forall2 (fun h v => m !! h = Some v) hs vs /\
    (collect_votes m hs copy flag acc).2 = if copy then acc ++ vs else acc.
Proof.
  revert flag acc. induction hs as [|h hs IH]; intros flag acc; simpl.
  - intros ->. split; [done|]. exists []. split; [done|]. destruct copy; by rewrite ?app_nil_r.
  - destruct (m !! h) as [v|] eqn:E; intros H; apply IH in H as [Hf (vs & Hvs & Heq)]; [subst flag|done].
    split; [done|]. exists (v :: vs). split; [by constructor|]. rewrite Heq.
    destruct copy; simpl; [|done]. by rewrite <- app_assoc.
Qed.

Lemma collect_votes_all (m : gmap vote_hash_t PbftVote) hs copy acc :
  Forall (fun h => is_Some (m !! h)) hs -> (collect_votes m hs copy true acc).1 = true.
Proof.
  revert acc. induction hs as [|h hs IH]; intros acc Hf; simpl; [done|].
  inversion_clear Hf as [|? ? [v Hv] Hf']. rewrite Hv. by apply IH.
Qed.

Lemma lookupRewardVotes_spec rv hs h copy :
  (lookupRewardVotes rv hs h copy).1 = true <->
  exists sv vw, step_votes rv !! 3 = Some sv /\ voted_values sv !! h = Some vw /\
    Forall (fun vh => is_Some (votes vw !! vh)) hs.
Proof.
  unfold lookupRewardVotes. split.
  - destruct (step_votes rv !! 3) as [sv|]; [|done].
    destruct (voted_values sv !! h) as [vw|] eqn:Eh; [|done].
    destruct (collect_votes _ _ _ _ _) as [f l] eqn:Ec.
    pose proof (collect_votes_found (votes vw) hs copy true []) as Hc. rewrite Ec in Hc. simpl in Hc.
    destruct f; [|done]. intros _. destruct (Hc eq_refl) as [_ (vs & Hvs & _)].
    exists sv, vw. split_and!; [done..|]. eapply Forall2_Forall_l; [exact Hvs|].
    apply Forall_true. by eauto.
  - intros (sv & vw & -> & -> & Hf).
    pose proof (collect_votes_all (votes vw) hs copy [] Hf) as Hc.
    destruct (collect_votes _ _ _ _ _) as [[] l]; done.
Qed.

Lemma lookupRewardVotes_copy p r rv hs h :
  round_wf p r rv -> (lookupRewardVotes rv hs h true).1 = true ->
  getHash <$> (lookupRewardVotes rv hs h true).2 = hs /\
  Forall (fun v => at_coord p r 3 v /\ getBlockHash v = h) (lookupRewardVotes rv hs h true).2.
Proof.
  intros Hrv. unfold lookupRewardVotes.
  destruct (step_votes rv !! 3) as [sv|] eqn:Es; [|done].
  destruct (voted_values sv !! h) as [vw|] eqn:Eh; [|done].
  pose proof (sv_values _ _ _ _ (rv_steps _ _ _ Hrv _ _ Es) _ _ Eh) as Hvw.
  pose proof (collect_votes_found (votes vw) hs true true []) as Hc.
  destruct (collect_votes _ _ _ _ _) as [[] l]; [|done]. simpl in *. intros _.
  destruct (Hc eq_refl) as [_ (vs & Hvs & ->)]. simpl. clear Hc Es Eh.
  induction Hvs as [|vh v hs vs Hv Hvs [IH1 IH2]]; [done|].
  destruct (vw_votes _ _ _ _ _ Hvw _ _ Hv) as (<- & ? & ? & _).
  split; [simpl; f_equal; exact IH1|]. by constructor.
Qed.

Lemma scan_reward_rounds_spec rounds hs h copy :
  (scan_reward_rounds rounds hs h copy).1 = true <->
  exists r rv, (r, rv) ∈ rounds /\ (lookupRewardVotes rv hs h copy).1 = true /\
    scan_reward_rounds rounds hs h copy = lookupRewardVotes rv hs h copy.
Proof.
  induction rounds as [|[r rv] rounds IH]; simpl.
  { split; [done|]. intros (r & rv & Hin & _). inversion Hin. }
  destruct (lookupRewardVotes rv hs h copy) as [b l] eqn:E. simpl. destruct b; simpl.
  - split; [|done]. intros _. exists r, rv. rewrite E. split_and!; [set_solver|done|done].
  - rewrite IH. split.
    + intros (r' & rv' & Hin & H). exists r', rv'. split; [set_solver|done].
    + intros (r' & rv' & [[= -> ->]|Hin]%elem_of_cons & H1 & H2); [by rewrite E in H1|].
      exists r', rv'. split_and!; [done|done|done].
Qed.

Lemma scan_reward_rounds_find rounds hs h copy r rv :
  (r, rv) ∈ rounds -> (lookupRewardVotes rv hs h copy).1 = true ->
  (scan_reward_rounds rounds hs h copy).1 = true.
Proof.
  intros Hin Hl. induction rounds as [|[r' rv'] rounds IH]; [inversion Hin|]. simpl.
  destruct (lookupRewardVotes rv' hs _ copy) as [b l] eqn:E. simpl. destruct b; [done|].
  apply IH. apply elem_of_cons in Hin as [[= -> ->]|?]; [by rewrite E in Hl|done].
Qed.

(** In a well-formed store, when [checkRewardVotes] accepts a block after
    the first period and copies the votes, the copied votes are, in order, the
    ones whose hashes the block lists, and all of them are certify votes for the
    block that the rewards are paid for, in its period and in one round. *)
Theorem checkRewardVotes_sound vm block_period hs l :
  vv_wf (verified_votes_ vm) -> block_period <> 1 ->
  checkRewardVotes vm block_period hs true = Done (true, l) ->
  getHash <$> l = hs /\
  exists r, Forall (fun v => at_coord (reward_votes_period_ vm) r 3 v /\
    getBlockHash v = reward_votes_block_hash_ vm) l.
Proof.
  intros Hwf Hp. unfold checkRewardVotes. destruct (Z.eqb_spec block_period 1); [done|].
  destruct (getRoundVotes _ _ _) as [rv|] eqn:Erv; [|done].
  destruct (lookupRewardVotes rv hs _ true) as [b l0] eqn:El. simpl.
  pose proof (lookupRewardVotes_copy _ _ _ hs (reward_votes_block_hash_ vm) (Hwf _ _ _ Erv)) as H0.
  rewrite El in H0. simpl in H0. destruct b.
  - intros [= <-]. destruct (H0 eq_refl) as [? ?]. by eauto.
  - destruct (getPeriodVotes _ _) as [pm|] eqn:Epm; [|done]. intros [= Hs].
    pose proof (scan_reward_rounds_spec (reverse (map_items pm)) hs (reward_votes_block_hash_ vm) true)
      as Hsp. rewrite Hs in Hsp. simpl in Hsp.
    destruct (proj1 Hsp eq_refl) as (r & rv' & Hin & Hl1 & Hl2).
    apply elem_of_reverse_items in Hin.
    assert (getRoundVotes (verified_votes_ vm) (reward_votes_period_ vm) r = Some rv') as Hrv'.
    { unfold getRoundVotes. unfold getPeriodVotes in Epm. by rewrite Epm. }
    pose proof (lookupRewardVotes_copy _ _ _ hs _ (Hwf _ _ _ Hrv') Hl1) as [? ?].
    rewrite <- Hl2 in *. by eauto.
Qed.

(** [checkRewardVotes] accepts a list of hashes exactly when some round of
    the reward period holds a certify vote for the rewarded block with each of
    them, whether or not it is the round in which this node pushed the block. *)
Theorem checkRewardVotes_complete vm block_period hs copy rv0 :
  block_period <> 1 ->
  getRoundVotes (verified_votes_ vm) (reward_votes_period_ vm) (reward_votes_round_ vm) = Some rv0 ->
  exists b l, checkRewardVotes vm block_period hs copy = Done (b, l) /\
    (b = true <->
      exists r, Forall (fun vh => is_Some (votes (voted_at (verified_votes_ vm)
        (reward_votes_period_ vm) r 3 (reward_votes_block_hash_ vm)) !! vh)) hs /\
        exists sv, getStepVotes (verified_votes_ vm) (reward_votes_period_ vm) r 3 = Some sv /\
          is_Some (voted_values sv !! reward_votes_block_hash_ vm)).
Proof.
  intros Hp Hrv0. unfold checkRewardVotes. destruct (Z.eqb_spec block_period 1); [done|].
  rewrite Hrv0. unfold getRoundVotes in Hrv0. unfold getPeriodVotes.
  destruct (verified_votes_ vm !! reward_votes_period_ vm) as [pm|] eqn:Epm; [|done].
  assert (forall r rv, pm !! r = Some rv ->
    getRoundVotes (verified_votes_ vm) (reward_votes_period_ vm) r = Some rv) as Hround.
  { intros r rv. unfold getRoundVotes. by rewrite Epm. }
  assert ((exists r rv, pm !! r = Some rv /\
      (lookupRewardVotes rv hs (reward_votes_block_hash_ vm) copy).1 = true) <->
    exists r, Forall (fun vh => is_Some (votes (voted_at (verified_votes_ vm)
        (reward_votes_period_ vm) r 3 (reward_votes_block_hash_ vm)) !! vh)) hs /\
        exists sv, getStepVotes (verified_votes_ vm) (reward_votes_period_ vm) r 3 = Some sv /\
          is_Some (voted_values sv !! reward_votes_block_hash_ vm)) as Hiff.
  { setoid_rewrite lookupRewardVotes_spec. unfold voted_at. setoid_rewrite getStepVotes_round. split.
    - intros (r & rv & Hr & sv & vw & Hs & Hh & Hf). exists r. rewrite (Hround _ _ Hr). simpl.
      rewrite Hs. simpl. rewrite Hh. split; [done|]. exists sv. by rewrite Hh.
    - intros (r & Hf & sv & Hs & [vw Hh]).
      destruct (getRoundVotes _ _ r) as [rv|] eqn:Erv; [|done]. simpl in *.
      rewrite Hs in Hf. simpl in Hf. rewrite Hh in Hf. simpl in Hf.
      exists r, rv. unfold getRoundVotes in Erv. rewrite Epm in Erv. split; [done|]. by eauto. }
  destruct (lookupRewardVotes rv0 hs _ copy) as [b l] eqn:El. destruct b; simpl.
  - eexists _, _. split; [done|]. split; [|done]. intros _. apply Hiff.
    exists (reward_votes_round_ vm), rv0. by rewrite El.
  - destruct (scan_reward_rounds _ _ _ _) as [b l'] eqn:Es. eexists _, _. split; [done|].
    pose proof (scan_reward_rounds_spec (reverse (map_items pm)) hs (reward_votes_block_hash_ vm) copy)
      as Hsp. rewrite Es in Hsp. simpl in Hsp. rewrite <- Hiff. split.
    + intros Hb. apply Hsp in Hb as (r & rv & Hin%elem_of_reverse_items & Hl & _). by eauto.
    + intros (r & rv & Hr & Hl). destruct b; [done|]. exfalso.
      apply elem_of_reverse_items in Hr.
      pose proof (scan_reward_rounds_find _ _ _ _ _ _ Hr Hl) as Hc. by rewrite Es in Hc.
Qed.

(** ** A concrete run *)

Definition sample_total (p : PbftPeriod) : Z := 3.
Definition soft_a : PbftVote := mkPbftVote 70 (mkVrfPbftMsg 5 1 2) 0 0 21 3 (Some 2).
Definition soft_b : PbftVote := mkPbftVote 70 (mkVrfPbftMsg 5 1 2) 0 0 22 4 (Some 1).
Definition sample_vm : VoteManager :=
  (run_add (run_add (fresh_manager empty_db) soft_a).1 soft_b).1.

Lemma sample_dpos_ok : dpos_ok sample_total sample_dpos.
Proof. intros p n [= <-]. done. Qed.

Lemma sample_fresh_reachable : vm_reachable sample_cfg sample_total (fresh_manager empty_db).
Proof.
  apply (reach_new _ _ sample_dpos 9 empty_db); [apply sample_dpos_ok| |vm_compute; reflexivity].
  unfold db_votes_ok. simpl. rewrite map_items_empty.
  change (getAllTwoTPlusOneVotes empty_db) with (@nil PbftVote). repeat constructor.
Qed.

Lemma sample_vm_reachable : vm_reachable sample_cfg sample_total sample_vm.
Proof.
  assert (forall v w, getWeight v = Some w -> in_range 64 w -> vote_ok v) as Hok.
  { intros v w Hv Hr w' Hw'. congruence. }
  apply (reach_step _ _ (run_add (fresh_manager empty_db) soft_a).1).
  - apply (reach_step _ _ (fresh_manager empty_db)); [apply sample_fresh_reachable|].
    apply (step_add _ _ sample_dpos 9 soft_a _ _ true);
      [apply sample_dpos_ok|by apply (Hok soft_a 2)|vm_compute; reflexivity].
  - apply (step_add _ _ sample_dpos 9 soft_b _ _ true);
      [apply sample_dpos_ok|by apply (Hok soft_b 1)|vm_compute; reflexivity].
Qed.

Example reachable_two_t_plus_one_witness :
  getTwoTPlusOneVotedBlock (verified_votes_ sample_vm) 5 1 SoftVotedBlock = Some (mkVotedBlock 70 2) /\
  exists l, getTwoTPlusOneVotedBlockVotes (verified_votes_ sample_vm) 5 1 SoftVotedBlock = Done l /\
    3 <= sum_list_Z weight_of l.
Proof.
  assert (getTwoTPlusOneVotedBlock (verified_votes_ sample_vm) 5 1 SoftVotedBlock =
    Some (mkVotedBlock 70 2)) as Hb by (vm_compute; reflexivity).
  split; [exact Hb|].
  destruct (reachable_two_t_plus_one sample_cfg sample_total sample_vm 5 1 SoftVotedBlock _
    sample_vm_reachable Hb) as (_ & l & Hl & _ & _ & Hsum).
  exists l. split; [exact Hl|exact Hsum].
Defined.

Example addVerifiedVote_aborts_witness :
  addVerifiedVote sample_cfg sample_dpos 9 sample_vm cert_a <> Undefined.
Proof.
  apply (addVerifiedVote_aborts sample_cfg sample_total sample_dpos 9 sample_vm cert_a
    sample_vm_reachable sample_dpos_ok).
  intros w [= <-]. split; reflexivity || (vm_compute; congruence).
Defined.

Example setCurrentPbftPeriodAndRound_correct_witness :
  exists vm', setCurrentPbftPeriodAndRound sample_vm 5 1 = Done vm' /\
    latest_round_two_t_plus_one_votes (db_ vm') !! SoftVotedBlock =
      Some (map_to_list (votes (voted_at (verified_votes_ sample_vm) 5 1 2 70))).*2.
Proof.
  destruct (setCurrentPbftPeriodAndRound_correct sample_cfg sample_total sample_vm 5 1
    sample_vm_reachable) as (vm' & H & _ & _ & _ & Hdb).
  exists vm'. split; [exact H|].
  apply (Hdb SoftVotedBlock (mkVotedBlock 70 2)); [discriminate|vm_compute; reflexivity].
Defined.

(** A manager that pushed block 70 in period 5, round 1, with one certify vote. *)
Definition reward_vm : VoteManager := set_reward (run_add (fresh_manager empty_db) cert_a).1 70 5 1.

Lemma reward_vm_wf : vv_wf (verified_votes_ reward_vm).
Proof.
  assert (verified_votes_ reward_vm =
    match insertVotedValue ∅ cert_a with Done (vv, _) => vv | _ => ∅ end) as -> by (vm_compute; reflexivity).
  destruct (insertVotedValue ∅ cert_a) as [[vv res]| |] eqn:E; [|apply vv_wf_empty..].
  by eapply insertVotedValue_wf; [apply vv_wf_empty|].
Qed.

Example checkRewardVotes_sound_witness :
  checkRewardVotes reward_vm 6 [11] true = Done (true, [cert_a]) /\
  getHash <$> [cert_a] = [11].
Proof.
  assert (checkRewardVotes reward_vm 6 [11] true = Done (true, [cert_a])) as H
    by (vm_compute; reflexivity).
  split; [exact H|].
  exact (proj1 (checkRewardVotes_sound reward_vm 6 [11] [cert_a] reward_vm_wf ltac:(lia) H)).
Defined.

Example checkRewardVotes_complete_witness :
  exists b l, checkRewardVotes reward_vm 6 [11] false = Done (b, l).
Proof.
  assert (exists rv, getRoundVotes (verified_votes_ reward_vm) 5 1 = Some rv) as [rv Hrv]
    by (eexists; vm_compute; reflexivity).
  destruct (checkRewardVotes_complete reward_vm 6 [11] false rv ltac:(lia) Hrv) as (b & l & H & _).
  exists b, l. exact H.
Defined.
