(* ===== verification/PbftChain.v ===== *)
(** * The PBFT chain head, proposed blocks and the queue of synced periods

    [PbftChain], [ProposedBlocks] and [PeriodDataQueue]
    (consensus/src/pbft/{pbft_chain,proposed_blocks,period_data_queue}.cpp). *)

From S2P Require Import Prelude Votes.
From stdpp Require Import strings pretty.
Local Open Scope Z_scope.
Local Open Scope outcome_scope.

(** The fields of a PBFT block that these components read. *)
Record PbftBlock := mkPbftBlock {
  pb_hash : blk_hash_t;
  pb_prev_block_hash : blk_hash_t;
  pb_pivot_dag_block_hash : blk_hash_t;
  pb_period : PbftPeriod;
  pb_reward_votes : list vote_hash_t;
}.

#[export] Instance PbftBlock_eq_dec : EqDecision PbftBlock.
Proof. solve_decision. Defined.

(** [PbftBlock::checkUniqueRewardVotes]: [false] is the exception. *)
Fixpoint checkUniqueRewardVotes (set : gset vote_hash_t) (reward_votes : list vote_hash_t) : bool :=
  match reward_votes with
  | [] => true
  | hash :: rest =>
      if decide (hash ∈ set) then false else checkUniqueRewardVotes ({[hash]} ∪ set) rest
  end.

Module Chain.

Record PbftChain := mkPbftChain {
  head_hash_ : blk_hash_t;
  size_ : PbftPeriod;
  non_empty_size_ : PbftPeriod;
  last_pbft_block_hash_ : blk_hash_t;
  last_non_null_pbft_dag_anchor_hash_ : blk_hash_t;
}.

(** The JSON object of the chain head that is saved in the database. *)
Record PbftHead := mkPbftHead {
  json_head_hash : blk_hash_t;
  json_size : Z;
  json_non_empty_size : Z;
  json_last_pbft_block_hash : blk_hash_t;
}.

Definition getJsonStr (c : PbftChain) : PbftHead :=
  mkPbftHead (head_hash_ c) (size_ c) (non_empty_size_ c) (last_pbft_block_hash_ c).

Definition getJsonStrForBlock (c : PbftChain) (block_hash : blk_hash_t) (null_anchor : bool) : PbftHead :=
  let non_empty_size := if negb null_anchor then u64 (non_empty_size_ c + 1) else non_empty_size_ c in
  mkPbftHead (head_hash_ c) (u64 (size_ c + 1)) non_empty_size block_hash.

Definition getPbftBlockInChain (db : gmap blk_hash_t PbftBlock) (hash : blk_hash_t) : outcome PbftBlock :=
  match db !! hash with
  | None => AssertFailed
  | Some b => Done b
  end.

(** The walk back to the last block with an anchor, for at most [fuel] blocks;
    [None]: not finished yet. *)
Fixpoint find_anchor (fuel : nat) (db : gmap blk_hash_t PbftBlock) (prev_pbft_block : PbftBlock) :
    option (outcome blk_hash_t) :=
  let anchor := pb_pivot_dag_block_hash prev_pbft_block in
  if negb (anchor =? 0) then Some (Done anchor)
  else
    let prev_block_hash := pb_prev_block_hash prev_pbft_block in
    if prev_block_hash =? 0 then Some (Done anchor)
    else
      match fuel with
      | O => None
      | S fuel =>
          match getPbftBlockInChain db prev_block_hash with
          | Done b => find_anchor fuel db b
          | _ => Some AssertFailed
          end
      end.

(** The constructor, with the head that the database holds afterwards; [None]
    for [head] is an empty database, in which the head of the empty chain is
    saved. *)
Definition construct (fuel : nat) (head : option PbftHead) (db : gmap blk_hash_t PbftBlock) :
    option (outcome (PbftChain * PbftHead)) :=
  match head with
  | None => let c := mkPbftChain 0 0 0 0 0 in Some (Done (c, getJsonStr c))
  | Some doc =>
      if negb (json_last_pbft_block_hash doc =? 0) then
        match getPbftBlockInChain db (json_last_pbft_block_hash doc) with
        | Done b =>
            match find_anchor fuel db b with
            | None => None
            | Some (Done anchor) =>
                Some (Done (mkPbftChain (json_head_hash doc) (json_size doc)
                  (json_non_empty_size doc) (json_last_pbft_block_hash doc) anchor, doc))
            | Some AssertFailed => Some AssertFailed
            | Some Undefined => Some Undefined
            end
        | _ => Some AssertFailed
        end
      else
        Some (Done (mkPbftChain (json_head_hash doc) (json_size doc) (json_non_empty_size doc)
          (json_last_pbft_block_hash doc) 0, doc))
  end.

Definition updatePbftChain (c : PbftChain) (pbft_block_hash anchor_hash : blk_hash_t) : PbftChain :=
  let size := u64 (size_ c + 1) in
  if negb (anchor_hash =? kNullBlockHash)
  then mkPbftChain (head_hash_ c) size (u64 (non_empty_size_ c + 1)) pbft_block_hash anchor_hash
  else mkPbftChain (head_hash_ c) size (non_empty_size_ c) pbft_block_hash
         (last_non_null_pbft_dag_anchor_hash_ c).

Definition checkPbftBlockValidation (c : PbftChain) (pbft_block : PbftBlock) : bool :=
  if negb (u64 (size_ c + 1) =? pb_period pbft_block) then false
  else if negb (pb_prev_block_hash pbft_block =? last_pbft_block_hash_ c) then false
  else true.

(** ** The chain as a list of blocks, the newest first *)

Definition last_hash (chain : list PbftBlock) : blk_hash_t :=
  match chain with [] => 0 | b :: _ => pb_hash b end.

Fixpoint last_anchor (chain : list PbftBlock) : blk_hash_t :=
  match chain with
  | [] => 0
  | b :: chain' =>
      if pb_pivot_dag_block_hash b =? 0 then last_anchor chain' else pb_pivot_dag_block_hash b
  end.

Definition anchored (b : PbftBlock) : bool := negb (pb_pivot_dag_block_hash b =? 0).

(** What the object must hold for a chain. *)
Definition state_of (chain : list PbftBlock) : PbftChain :=
  mkPbftChain 0 (u64 (Z.of_nat (length chain))) (u64 (Z.of_nat (length (List.filter anchored chain))))
    (last_hash chain) (last_anchor chain).

Inductive valid_chain : list PbftBlock -> Prop :=
| valid_nil : valid_chain []
| valid_cons b chain :
    valid_chain chain ->
    pb_period b = u64 (Z.of_nat (length chain) + 1) -> pb_prev_block_hash b = last_hash chain ->
    pb_hash b <> 0 -> valid_chain (b :: chain).

(** C38: Pushing a block keeps the chain object in step with the list of blocks:
    sizes, last block and last anchor are those of the extended list; and the
    head that is saved in the database before the push is the one of the
    extended chain. *)
Theorem updatePbftChain_refines chain b :
  let c := updatePbftChain (state_of chain) (pb_hash b) (pb_pivot_dag_block_hash b) in
  c = state_of (b :: chain) /\
  getJsonStrForBlock (state_of chain) (pb_hash b) (pb_pivot_dag_block_hash b =? 0) = getJsonStr c.
Proof.
  assert (Z.of_nat (length (b :: chain)) = Z.of_nat (length chain) + 1) as E1 by (simpl; lia).
  unfold updatePbftChain, getJsonStrForBlock, getJsonStr, state_of, kNullBlockHash.
  rewrite E1. cbn -[Z.of_nat wrap length]. unfold anchored.
  rewrite !wrap_add_l. destruct (pb_pivot_dag_block_hash b =? 0); cbn -[Z.of_nat wrap length]; [done|].
  assert (forall l : list PbftBlock, Z.of_nat (length (b :: l)) = Z.of_nat (length l) + 1) as E2
    by (intros; simpl; lia).
  by rewrite !E2.
Qed.

(** A block passes [checkPbftBlockValidation] exactly when its period is the
    next one and it points to the last block of the chain, so that a valid chain
    extended by a checked block (with a hash) is valid. *)
Theorem checkPbftBlockValidation_correct chain b :
  checkPbftBlockValidation (state_of chain) b = true <->
  pb_period b = u64 (Z.of_nat (length chain) + 1) /\ pb_prev_block_hash b = last_hash chain.
Proof.
  unfold checkPbftBlockValidation. simpl. rewrite wrap_add_l.
  destruct (Z.eqb_spec (u64 (Z.of_nat (length chain) + 1)) (pb_period b)) as [E|N]; simpl.
  - destruct (Z.eqb_spec (pb_prev_block_hash b) (last_hash chain)); simpl; naive_solver.
  - naive_solver.
Qed.

Lemma find_anchor_chain db b chain fuel :
  valid_chain (b :: chain) -> (forall b', b' ∈ b :: chain -> db !! pb_hash b' = Some b') ->
  (length chain <= fuel)%nat ->
  find_anchor fuel db b = Some (Done (last_anchor (b :: chain))).
Proof.
  revert b fuel. induction chain as [|b' chain IH]; intros b fuel Hv Hdb Hf;
    inversion Hv as [|? ? Hv' Hp Hprev Hh]; subst; simpl in *.
  - destruct fuel; simpl; destruct (pb_pivot_dag_block_hash b =? 0) eqn:E; simpl; try done;
      rewrite Hprev; simpl; by apply Z.eqb_eq in E as ->.
  - destruct fuel as [|fuel]; [lia|]. simpl.
    destruct (pb_pivot_dag_block_hash b =? 0) eqn:E; simpl; [|done].
    rewrite Hprev.
    assert (pb_hash b' <> 0) as Hn by (by inversion Hv').
    destruct (Z.eqb_spec (pb_hash b') 0); [done|].
    unfold getPbftBlockInChain. rewrite (Hdb b') by set_solver.
    apply IH; [done| |lia]. intros. apply Hdb. set_solver.
Qed.

(** Restart.  When the database holds the head of a valid chain and its
    blocks, the constructor terminates within as many steps as there are blocks,
    reaches no assertion, and restores exactly the state that the chain had. *)
Theorem construct_restores chain db fuel :
  valid_chain chain -> (forall b, b ∈ chain -> db !! pb_hash b = Some b) ->
  (length chain <= fuel)%nat ->
  construct fuel (Some (getJsonStr (state_of chain))) db =
    Some (Done (state_of chain, getJsonStr (state_of chain))).
Proof.
  intros Hv Hdb Hf. unfold construct. simpl.
  destruct chain as [|b chain]; [done|]. simpl.
  inversion Hv as [|? ? Hv' Hp Hprev Hh]; subst.
  destruct (Z.eqb_spec (pb_hash b) 0); [done|]. simpl.
  unfold getPbftBlockInChain. rewrite (Hdb b) by set_solver.
  rewrite (find_anchor_chain db b chain) by (done || (simpl in Hf; lia)). done.
Qed.

Definition sample_chain : list PbftBlock :=
  [mkPbftBlock 12 11 0 2 []; mkPbftBlock 11 0 7 1 []].
Definition sample_db : gmap blk_hash_t PbftBlock :=
  list_to_map ((fun b => (pb_hash b, b)) <$> sample_chain).

Example construct_restores_witness :
  construct 2 (Some (mkPbftHead 0 2 1 12)) sample_db =
    Some (Done (mkPbftChain 0 2 1 12 7, mkPbftHead 0 2 1 12)).
Proof.
  apply (construct_restores sample_chain sample_db 2).
  - repeat constructor; simpl; lia.
  - intros b Hb. apply elem_of_cons in Hb as [->|Hb]; [vm_compute; reflexivity|].
    apply list_elem_of_singleton in Hb as ->. vm_compute. reflexivity.
  - simpl. lia.
Defined.

End Chain.

Module Proposed.

(** [proposed_blocks_] with its validation flags, and the column
    [proposed_pbft_blocks] of the database. *)
Record ProposedBlocks := mkProposedBlocks {
  proposed_blocks_ : gmap PbftPeriod (gmap blk_hash_t (PbftBlock * bool));
  proposed_pbft_blocks : gmap blk_hash_t PbftBlock;
}.

Definition saveProposedPbftBlock (db : gmap blk_hash_t PbftBlock) (block : PbftBlock) :
    gmap blk_hash_t PbftBlock := <[pb_hash block := block]> db.

Definition removeProposedPbftBlock (db : gmap blk_hash_t PbftBlock) (hash : blk_hash_t) :
    gmap blk_hash_t PbftBlock := delete hash db.

Definition pushProposedPbftBlock (pb : ProposedBlocks) (block : PbftBlock) (save_to_db : bool) :
    ProposedBlocks * bool :=
  let found_period := default ∅ (proposed_blocks_ pb !! pb_period block) in
  let db := if save_to_db then saveProposedPbftBlock (proposed_pbft_blocks pb) block
            else proposed_pbft_blocks pb in
  match found_period !! pb_hash block with
  | Some _ => (mkProposedBlocks (<[pb_period block := found_period]> (proposed_blocks_ pb)) db, false)
  | None =>
      (mkProposedBlocks
         (<[pb_period block := <[pb_hash block := (block, false)]> found_period]> (proposed_blocks_ pb))
         db, true)
  end.

(** The second lookup is dereferenced without a check. *)
Definition markBlockAsValid (pb : ProposedBlocks) (block : PbftBlock) : outcome ProposedBlocks :=
  match proposed_blocks_ pb !! pb_period block with
  | None => AssertFailed
  | Some found_period =>
      match found_period !! pb_hash block with
      | None => Undefined
      | Some (b, _) =>
          Done (mkProposedBlocks
            (<[pb_period block := <[pb_hash block := (b, true)]> found_period]> (proposed_blocks_ pb))
            (proposed_pbft_blocks pb))
      end
  end.

Definition getPbftProposedBlock (pb : ProposedBlocks) (period : PbftPeriod) (block_hash : blk_hash_t) :
    option (PbftBlock * bool) :=
  match proposed_blocks_ pb !! period with
  | None => None
  | Some found_period => found_period !! block_hash
  end.

Definition isInProposedBlocks (pb : ProposedBlocks) (period : PbftPeriod) (block_hash : blk_hash_t) :
    bool :=
  match proposed_blocks_ pb !! period with
  | None => false
  | Some found_period => bool_decide (is_Some (found_period !! block_hash))
  end.

Fixpoint cleanup_periods (items : list (PbftPeriod * gmap blk_hash_t (PbftBlock * bool)))
    (period : PbftPeriod) (pb : ProposedBlocks) : ProposedBlocks :=
  match items with
  | [] => pb
  | (p, blocks) :: items' =>
      if decide (p < period) then
        cleanup_periods items' period
          (mkProposedBlocks (delete p (proposed_blocks_ pb))
             (foldl removeProposedPbftBlock (proposed_pbft_blocks pb) (map_to_list blocks).*1))
      else pb
  end.

Definition cleanupProposedPbftBlocksByPeriod (pb : ProposedBlocks) (period : PbftPeriod) :
    ProposedBlocks :=
  cleanup_periods (map_items (proposed_blocks_ pb)) period pb.

Fixpoint old_blocks_msg (items : list (PbftPeriod * gmap blk_hash_t (PbftBlock * bool)))
    (current_period : PbftPeriod) : string :=
  match items with
  | [] => EmptyString
  | (p, blocks) :: items' =>
      if decide (p < current_period) then
        (pretty p +:+ " -> " +:+ pretty (Z.of_nat (base.size blocks)) +:+ ". " +:+
           old_blocks_msg items' current_period)%string
      else EmptyString
  end.

Definition checkOldBlocksPresence (pb : ProposedBlocks) (current_period : PbftPeriod) : option string :=
  let msg := old_blocks_msg (map_items (proposed_blocks_ pb)) current_period in
  match msg with EmptyString => None | _ => Some msg end.

Definition getProposedBlocks (pb : ProposedBlocks) : gmap PbftPeriod (list PbftBlock) :=
  omap (fun blocks => match (map_to_list blocks).*2.*1 with [] => None | l => Some l end)
    (proposed_blocks_ pb).

(** ** Properties *)

(** Every block in memory is filed under its period and hash, and in the
    database. *)
Definition pb_wf (pb : ProposedBlocks) : Prop :=
  forall p h b v, getPbftProposedBlock pb p h = Some (b, v) ->
    pb_period b = p /\ pb_hash b = h /\ proposed_pbft_blocks pb !! h = Some b.

(** Different proposed blocks have different hashes. *)
Definition fresh_hash (pb : ProposedBlocks) (block : PbftBlock) : Prop :=
  forall p h b v, getPbftProposedBlock pb p h = Some (b, v) -> h = pb_hash block -> b = block.

Lemma get_insert pb db p blocks p' h :
  getPbftProposedBlock (mkProposedBlocks (<[p := blocks]> (proposed_blocks_ pb)) db) p' h =
    if decide (p = p') then blocks !! h else getPbftProposedBlock pb p' h.
Proof. unfold getPbftProposedBlock. simpl. rewrite lookup_insert. by case_decide. Qed.

Lemma get_default pb p h :
  getPbftProposedBlock pb p h = default ∅ (proposed_blocks_ pb !! p) !! h.
Proof. unfold getPbftProposedBlock. destruct (proposed_blocks_ pb !! p); simpl; [done|]. by rewrite lookup_empty. Qed.

(** Pushing a block reports whether it was new, stores a new block as not
    yet validated, never overwrites a stored block or its validation flag, and
    touches no other block; with [save_to_db] the store stays consistent with
    the database. *)
Theorem pushProposedPbftBlock_correct pb block :
  pb_wf pb -> fresh_hash pb block ->
  let (pb', inserted) := pushProposedPbftBlock pb block true in
  inserted = negb (isInProposedBlocks pb (pb_period block) (pb_hash block)) /\
  (forall p h, getPbftProposedBlock pb' p h =
    if decide ((p, h) = (pb_period block, pb_hash block)) then
      match getPbftProposedBlock pb p h with Some e => Some e | None => Some (block, false) end
    else getPbftProposedBlock pb p h) /\
  pb_wf pb'.
Proof.
  intros Hwf Hfresh. unfold pushProposedPbftBlock.
  set (found := default ∅ (proposed_blocks_ pb !! pb_period block)).
  assert (isInProposedBlocks pb (pb_period block) (pb_hash block) =
    bool_decide (is_Some (found !! pb_hash block))) as ->.
  { unfold isInProposedBlocks. subst found. destruct (proposed_blocks_ pb !! _); simpl; [done|].
    by rewrite lookup_empty. }
  assert (forall p h, found !! h = Some p -> getPbftProposedBlock pb (pb_period block) h = Some p) as Hf
    by (intros; by rewrite get_default).
  destruct (found !! pb_hash block) as [[b v]|] eqn:E.
  - assert (forall p h, getPbftProposedBlock (mkProposedBlocks
      (<[pb_period block := found]> (proposed_blocks_ pb))
      (saveProposedPbftBlock (proposed_pbft_blocks pb) block)) p h = getPbftProposedBlock pb p h) as Hsame.
    { intros. rewrite get_insert. case_decide; [subst; by rewrite get_default|done]. }
    split_and!; [done| |].
    + intros p h. rewrite Hsame. case_decide as D; [|done]. simplify_eq. by rewrite (Hf _ _ E).
    + intros p h b' v'. rewrite Hsame. intros Hb. simpl. unfold saveProposedPbftBlock.
      rewrite lookup_insert. case_decide as D; [|by eapply Hwf].
      pose proof (Hfresh _ _ _ _ Hb (eq_sym D)). subst b'. destruct (Hwf _ _ _ _ Hb) as (? & ? & _). done.
  - split_and!; [done| |].
    + intros p h. rewrite get_insert. destruct (decide (pb_period block = p)) as [<-|Hp].
      * rewrite lookup_insert. destruct (decide (pb_hash block = h)) as [<-|Hh].
        -- rewrite decide_True by done. rewrite get_default. fold found. by rewrite E.
        -- rewrite decide_False by congruence. by rewrite get_default.
      * rewrite decide_False by congruence. done.
    + intros p h b' v'. rewrite get_insert. simpl. unfold saveProposedPbftBlock.
      destruct (decide (pb_period block = p)) as [<-|Hp]; [rewrite lookup_insert_Some|].
      * intros [[<- [= <- <-]]|[Hne Hb]]; [by rewrite lookup_insert_eq|].
        rewrite lookup_insert_ne by done. by apply (Hwf _ _ _ v'), Hf.
      * intros Hb. rewrite lookup_insert. case_decide as D; [|by eapply Hwf].
        pose proof (Hfresh _ _ _ _ Hb (eq_sym D)). subst b'. by destruct (Hwf _ _ _ _ Hb) as (? & ? & _).
Qed.

(** Removing a list of hashes from the database keeps exactly the others. *)
Lemma removeProposed_lookup db hashes h b :
  foldl removeProposedPbftBlock db hashes !! h = Some b <-> db !! h = Some b /\ h ∉ hashes.
Proof.
  revert db. induction hashes as [|x hashes IH]; intros db; simpl; [set_solver|].
  rewrite IH. unfold removeProposedPbftBlock. rewrite lookup_delete_Some. set_solver.
Qed.

Lemma not_elem_of_keys (blocks : gmap blk_hash_t (PbftBlock * bool)) h :
  h ∉ (map_to_list blocks).*1 <-> blocks !! h = None.
Proof.
  rewrite eq_None_not_Some. apply not_iff_compat. split.
  - intros ([k e] & -> & Hin)%list_elem_of_fmap. apply elem_of_map_to_list in Hin. by exists e.
  - intros [e He]. apply list_elem_of_fmap. exists (h, e). by rewrite elem_of_map_to_list.
Qed.

Lemma cleanup_periods_memory items period pb :
  proposed_blocks_ (cleanup_periods items period pb) = erase_below items period (proposed_blocks_ pb).
Proof. revert pb. induction items as [|[p bs] items IH]; intros pb; simpl; [done|]. by case_decide; [rewrite IH|]. Qed.

Lemma cleanup_periods_db items period pb h b :
  StronglySorted key_le items ->
  proposed_pbft_blocks (cleanup_periods items period pb) !! h = Some b <->
  proposed_pbft_blocks pb !! h = Some b /\
  (forall p blocks, (p, blocks) ∈ items -> p < period -> blocks !! h = None).
Proof.
  revert pb. induction items as [|[p bs] items IH]; intros pb Hs; simpl; [set_solver|].
  apply StronglySorted_inv in Hs as [Hs Hall]. case_decide as Hp.
  - rewrite IH by done. simpl. rewrite removeProposed_lookup, not_elem_of_keys. set_solver.
  - split; [|by intros []]. intros Hb. split; [done|]. intros p' bs' Hin Hlt.
    apply elem_of_cons in Hin as [[= -> ->]|Hin]; [lia|].
    rewrite Forall_forall in Hall. specialize (Hall _ Hin). unfold key_le in Hall. simpl in Hall. lia.
Qed.

(** The clean-up drops exactly the periods below the given one from
    memory, deletes from the database exactly the blocks of those periods, and
    leaves memory and database consistent. *)
Theorem cleanupProposedPbftBlocksByPeriod_correct pb period :
  pb_wf pb ->
  let pb' := cleanupProposedPbftBlocksByPeriod pb period in
  (forall p h, getPbftProposedBlock pb' p h =
     if decide (p < period) then None else getPbftProposedBlock pb p h) /\
  (forall h b, proposed_pbft_blocks pb' !! h = Some b <->
     proposed_pbft_blocks pb !! h = Some b /\
     forall p, p < period -> getPbftProposedBlock pb p h = None) /\
  pb_wf pb'.
Proof.
  intros Hwf pb'. subst pb'. unfold cleanupProposedPbftBlocksByPeriod.
  set (pb' := cleanup_periods _ _ _).
  assert (forall p h, getPbftProposedBlock pb' p h =
     if decide (p < period) then None else getPbftProposedBlock pb p h) as Hmem.
  { intros p h. unfold getPbftProposedBlock. subst pb'.
    rewrite cleanup_periods_memory, erase_below_all. by case_decide. }
  assert (forall h b, proposed_pbft_blocks pb' !! h = Some b <->
     proposed_pbft_blocks pb !! h = Some b /\
     forall p, p < period -> getPbftProposedBlock pb p h = None) as Hdb.
  { intros h b. subst pb'. rewrite cleanup_periods_db by apply map_items_sorted.
    apply and_iff_compat_l. unfold getPbftProposedBlock. split.
    - intros Hall p Hp. destruct (_ !! p) as [bs|] eqn:E; [|done].
      apply (Hall p bs); [by apply elem_of_map_items|done].
    - intros Hall p bs Hin%elem_of_map_items Hp. specialize (Hall p Hp). by rewrite Hin in Hall. }
  split_and!; [done|done|].
  intros p h b v. rewrite Hmem. case_decide as Hp; [done|]. intros Hb.
  destruct (Hwf _ _ _ _ Hb) as (Hbp & Hbh & Hbd). split_and!; [done|done|].
  apply Hdb. split; [done|]. intros p' Hp'.
  destruct (getPbftProposedBlock pb p' h) as [[b' v']|] eqn:E; [|done].
  destruct (Hwf _ _ _ _ E) as (Hbp' & _ & Hbd'). congruence.
Qed.

(** Marking a stored block touches its flag only. *)
Lemma markBlockAsValid_stored pb block b v :
  getPbftProposedBlock pb (pb_period block) (pb_hash block) = Some (b, v) ->
  exists pb', markBlockAsValid pb block = Done pb' /\
    proposed_pbft_blocks pb' = proposed_pbft_blocks pb /\
    forall p h, getPbftProposedBlock pb' p h =
      if decide ((p, h) = (pb_period block, pb_hash block)) then Some (b, true)
      else getPbftProposedBlock pb p h.
Proof.
  unfold getPbftProposedBlock at 1, markBlockAsValid.
  destruct (proposed_blocks_ pb !! pb_period block) as [bs|] eqn:E; [|done]. intros ->.
  eexists. split_and!; [done|done|]. intros p h. rewrite get_insert.
  destruct (decide (pb_period block = p)) as [<-|Hp].
  - rewrite lookup_insert. destruct (decide (pb_hash block = h)) as [<-|Hh].
    + by rewrite decide_True.
    + rewrite decide_False by congruence. unfold getPbftProposedBlock. by rewrite E.
  - by rewrite decide_False by congruence.
Qed.

Definition ex_block (h p : Z) : PbftBlock := mkPbftBlock h 0 0 p [].

Lemma pb_wf_empty db : pb_wf (mkProposedBlocks ∅ db).
Proof. intros p h b v. unfold getPbftProposedBlock. simpl. by rewrite lookup_empty. Qed.

Lemma pushProposedPbftBlock_witness :
  let pb := mkProposedBlocks ∅ ∅ in
  (pushProposedPbftBlock pb (ex_block 7 3) true).2 = true /\
  pb_wf (pushProposedPbftBlock pb (ex_block 7 3) true).1.
Proof.
  intros pb. pose proof (pushProposedPbftBlock_correct pb (ex_block 7 3) (pb_wf_empty _)) as H.
  destruct (pushProposedPbftBlock pb (ex_block 7 3) true) as [pb' ins]. simpl.
  destruct H as (-> & _ & ?); [intros p h b v; unfold getPbftProposedBlock; simpl; by rewrite lookup_empty|].
  by split.
Defined.

Lemma cleanupProposedPbftBlocksByPeriod_witness :
  let pb := mkProposedBlocks {[ 3 := {[ 7 := (ex_block 7 3, true) ]} ]} {[ 7 := ex_block 7 3 ]} in
  getPbftProposedBlock (cleanupProposedPbftBlocksByPeriod pb 4) 3 7 = None.
Proof.
  intros pb. destruct (cleanupProposedPbftBlocksByPeriod_correct pb 4) as (H & _ & _); [|by rewrite H].
  intros p h b v. unfold getPbftProposedBlock. simpl.
  destruct (decide (p = 3)) as [->|]; [|by rewrite lookup_singleton_ne by done].
  rewrite lookup_singleton_eq. intros [<- [= <- <-]]%lookup_singleton_Some. done.
Defined.
End Proposed.

(** [PbftBlock::checkUniqueRewardVotes] accepts exactly the duplicate-free lists. *)
Lemma checkUniqueRewardVotes_spec set reward_votes :
  checkUniqueRewardVotes set reward_votes = true <->
  NoDup reward_votes /\ forall h, h ∈ reward_votes -> h ∉ set.
Proof.
  revert set. induction reward_votes as [|h l IH]; intros set; simpl.
  - split; [|done]. intros _. split; [constructor|set_solver].
  - rewrite NoDup_cons. case_decide as Hin; [set_solver|]. rewrite IH. set_solver.
Qed.

(** * [PeriodDataQueue] *)

Module SyncQueue.

(** The part of a period's data that the queue reads; [R] is the rest. *)
Record PeriodData (R : Type) := mkPeriodData {
  pbft_blk : PbftBlock;
  previous_block_cert_votes : list PbftVote;
  period_rest : R;
}.
Arguments mkPeriodData {R} _ _ _.
Arguments pbft_blk {R} _.
Arguments previous_block_cert_votes {R} _.
Arguments period_rest {R} _.

Record PeriodDataQueue (R : Type) := mkPeriodDataQueue {
  queue_ : list (PeriodData R * Z);
  period_ : Z;
  last_block_cert_votes_ : list PbftVote;
}.
Arguments mkPeriodDataQueue {R} _ _ _.
Arguments queue_ {R} _.
Arguments period_ {R} _.
Arguments last_block_cert_votes_ {R} _.

Section queue.
Context {R : Type}.
#[local] Abbreviation PeriodData := (PeriodData R).
#[local] Abbreviation PeriodDataQueue := (PeriodDataQueue R).

Definition emptyQueue : PeriodDataQueue := mkPeriodDataQueue [] 0 [].

Definition getPeriod (q : PeriodDataQueue) : Z := period_ q.

Definition size (q : PeriodDataQueue) : nat :=
  if bool_decide (length (last_block_cert_votes_ q) ≠ 0%nat) || bool_decide (length (queue_ q) = 0%nat)
  then length (queue_ q)
  else (length (queue_ q) - 1)%nat.

Definition empty (q : PeriodDataQueue) : bool := bool_decide (queue_ q = []).

Definition clear (q : PeriodDataQueue) : PeriodDataQueue := mkPeriodDataQueue [] 0 [].

Definition push (q : PeriodDataQueue) (period_data : PeriodData) (node_id max_pbft_size : Z)
    (cert_votes : list PbftVote) : PeriodDataQueue * bool :=
  let period := pb_period (pbft_blk period_data) in
  if negb (period =? u64 (Z.max (period_ q) max_pbft_size + 1)) &&
     (empty q && negb (period =? u64 (max_pbft_size + 2)))
  then (q, false)
  else
    let queue :=
      if (period_ q <? max_pbft_size) && negb (empty q) then [] else queue_ q in
    (mkPeriodDataQueue (queue ++ [(period_data, node_id)]) period cert_votes, true).

(** [queue_.front()] of an empty deque is undefined. *)
Definition pop (q : PeriodDataQueue) :
    outcome (PeriodDataQueue * (PeriodData * list PbftVote * Z)) :=
  match queue_ q with
  | [] => Undefined
  | (block, node_id) :: queue =>
      match queue with
      | (next, _) :: _ =>
          Done (mkPeriodDataQueue queue (period_ q) (last_block_cert_votes_ q),
                (block, previous_block_cert_votes next, node_id))
      | [] =>
          Done (mkPeriodDataQueue [] 0 [], (block, last_block_cert_votes_ q, node_id))
      end
  end.

Definition lastPbftBlock (q : PeriodDataQueue) : option PbftBlock :=
  (fun e => pbft_blk e.1) <$> last (queue_ q).

Fixpoint pop_old (queue : list (PeriodData * Z)) (period : Z) : list (PeriodData * Z) :=
  match queue with
  | [] => []
  | (block, node_id) :: rest =>
      if pb_period (pbft_blk block) <? period then pop_old rest period else queue
  end.

Definition cleanOldData (q : PeriodDataQueue) (period : Z) : PeriodDataQueue :=
  mkPeriodDataQueue (pop_old (queue_ q) period) (period_ q) (last_block_cert_votes_ q).

(** ** Contiguity *)

Definition periods (q : PeriodDataQueue) : list Z := (fun e => pb_period (pbft_blk e.1)) <$> queue_ q.

(** Consecutive periods that end with [e]. *)
Fixpoint contiguous (l : list Z) (e : Z) : Prop :=
  match l with
  | [] => True
  | [p] => p = e
  | p :: ((p' :: _) as l') => p' = p + 1 /\ contiguous l' e
  end.

Definition queue_wf (q : PeriodDataQueue) : Prop := contiguous (periods q) (period_ q).

Lemma contiguous_snoc l e : contiguous l e -> contiguous (l ++ [e + 1]) (e + 1).
Proof.
  induction l as [|p l IH]; [done|]. destruct l as [|p' l].
  - intros ->. done.
  - intros [-> H]. split; [done|]. by apply IH.
Qed.

Lemma contiguous_tail p l e : contiguous (p :: l) e -> contiguous l e.
Proof. destruct l; [done|]. by intros []. Qed.

Lemma contiguous_sorted l e i p : contiguous l e -> l !! i = Some p -> p = e - Z.of_nat (length l) + 1 + Z.of_nat i.
Proof.
  revert i p. induction l as [|p' l IH]; intros i p H Hi; [done|].
  destruct i as [|i].
  - injection Hi as ->. destruct l as [|p'' l]; [simpl in *; lia|].
    destruct H as [-> H]. specialize (IH 0%nat _ H eq_refl). simpl length in *. lia.
  - simpl in Hi. rewrite (IH i p (contiguous_tail _ _ _ H) Hi). simpl length. lia.
Qed.

Lemma pop_old_contiguous queue e period :
  contiguous ((fun x => pb_period (pbft_blk x.1)) <$> queue) e ->
  contiguous ((fun x => pb_period (pbft_blk x.1)) <$> pop_old queue period) e.
Proof.
  induction queue as [|[b n] queue IH]; [done|]. intros H. simpl. case_match; [|done].
  apply IH. by apply contiguous_tail in H.
Qed.

(** The operations of the queue's clients. *)
Inductive op :=
| OpPush (period_data : PeriodData) (node_id max_pbft_size : Z) (cert_votes : list PbftVote)
| OpPop
| OpClear
| OpClean (period : Z).

Definition run_op (q : PeriodDataQueue) (o : op) : outcome PeriodDataQueue :=
  match o with
  | OpPush d n m v => Done (push q d n m v).1
  | OpPop => let* (q', _) := pop q in Done q'
  | OpClear => Done (clear q)
  | OpClean p => Done (cleanOldData q p)
  end.

(** The rule of the comment in [push]: a block goes behind the last queued one,
    or starts a new queue. *)
Definition push_in_order (q : PeriodDataQueue) (o : op) : Prop :=
  match o with
  | OpPush d _ m _ =>
      queue_ q <> [] -> m <= period_ q -> pb_period (pbft_blk d) = period_ q + 1
  | _ => True
  end.

Lemma sync_op_effect q o q' :
  queue_wf q -> push_in_order q o -> run_op q o = Done q' -> queue_wf q'.
Proof.
  unfold queue_wf, periods. intros Hwf Hord. destruct o as [d n m v| | |p]; simpl.
  - intros [= <-]. unfold push. case_match; [done|]. simpl. rewrite fmap_app. simpl.
    unfold empty. destruct (decide (queue_ q = [])) as [E|E].
    + rewrite bool_decide_true, andb_false_r by done. by rewrite E.
    + rewrite bool_decide_false, andb_true_r by done. destruct (Z.ltb_spec (period_ q) m); [done|].
      rewrite Hord by (done || lia). by apply contiguous_snoc.
  - unfold pop. destruct (queue_ q) as [|[b n] [|[b' n'] l]] eqn:E; simpl; [done| |].
    + by intros [= <-].
    + intros [= <-]. simpl. by destruct Hwf.
  - by intros [= <-].
  - intros [= <-]. simpl. by apply pop_old_contiguous.
Qed.

(** As long as blocks are pushed in the order the comment of
    [PeriodDataQueue::push] asks for, the queue always holds consecutive
    periods that end with [period_], through any pushes, pops, clean-ups and
    clears. *)
Theorem queue_stays_contiguous q ops q' :
  queue_wf q ->
  (forall pre o post qo, ops = pre ++ o :: post -> ofold run_op pre q = Done qo -> push_in_order qo o) ->
  ofold run_op ops q = Done q' ->
  queue_wf q' /\
  forall i p, periods q' !! i = Some p -> p = period_ q' - Z.of_nat (length (queue_ q')) + 1 + Z.of_nat i.
Proof.
  intros Hwf Hord Hrun.
  assert (queue_wf q') as Hwf'; [|split; [done|]].
  - revert q Hwf Hord Hrun. induction ops as [|o ops IH]; intros q Hwf Hord; simpl; [by intros [= <-]|].
    destruct (run_op q o) as [q1| |] eqn:E; simpl; [|done..]. intros Hrun.
    apply (IH q1); [|intros pre o' post qo -> Hpre|done].
    + apply (sync_op_effect q o); [done| |done]. by apply (Hord [] o ops q).
    + apply (Hord (o :: pre) o' post qo); [done|]. simpl. by rewrite E.
  - intros i p Hi. rewrite <- (length_fmap (fun e => pb_period (pbft_blk e.1)) (queue_ q')).
    by apply contiguous_sorted.
Qed.

(** ** Draining the queue *)

(** Pops until the queue is empty, collecting what each pop returns. *)
Fixpoint drain (fuel : nat) (q : PeriodDataQueue) :
    outcome (PeriodDataQueue * list (PeriodData * list PbftVote * Z)) :=
  match fuel with
  | O => Done (q, [])
  | S fuel =>
      let* (q', r) := pop q in
      let* (q'', rs) := drain fuel q' in
      Done (q'', r :: rs)
  end.

(** The cert votes that belong to each queued block: the next block carries
    them, or the push of the last block did. *)
Definition cert_votes_of (q : PeriodDataQueue) : list (list PbftVote) :=
  ((fun e => previous_block_cert_votes e.1) <$> tail (queue_ q)) ++ [last_block_cert_votes_ q].

Lemma drain_effect l p votes :
  l <> [] ->
  drain (length l) (mkPeriodDataQueue l p votes) =
    Done (emptyQueue, zip_with (fun e v => (e.1, v, e.2)) l (cert_votes_of (mkPeriodDataQueue l p votes))).
Proof.
  unfold cert_votes_of. simpl.
  induction l as [|[b n] l IH]; [done|]. intros _. destruct l as [|[b' n'] l]; [done|].
  specialize (IH ltac:(done)). change (length ((b, n) :: (b', n') :: l)) with (S (length ((b', n') :: l))).
  cbn [drain]. unfold pop at 1. cbn [queue_ obind SyncQueue.period_ last_block_cert_votes_].
  by rewrite IH.
Qed.

(** Popping a queue until it is empty returns its blocks in the order they
    were pushed, each with the node that sent it and with the cert votes of
    that very block, and leaves the initial state; [size] is the number of
    blocks returned with a non-empty vote list, provided the blocks carry the
    votes of their predecessors. *)
Theorem drain_pairs_votes q :
  queue_ q <> [] ->
  (forall e, e ∈ tail (queue_ q) -> previous_block_cert_votes e.1 <> []) ->
  exists rs,
    drain (length (queue_ q)) q = Done (emptyQueue, rs) /\
    (fun r => (r.1.1, r.2)) <$> rs = queue_ q /\
    (fun r => r.1.2) <$> rs = cert_votes_of q /\
    size q = length (filter (fun r => r.1.2 <> []) rs).
Proof.
  destruct q as [l p votes]. simpl. intros Hl Hv. eexists. split; [by apply drain_effect|].
  unfold cert_votes_of. simpl. destruct l as [|[b n] l]; [done|]. simpl in *. clear Hl.
  revert b n. induction l as [|[b' n'] l IH]; intros b n.
  - unfold size. simpl. destruct votes as [|v votes]; simpl; split_and!; try done.
  - simpl. destruct (IH ltac:(set_solver) b' n') as (H1 & H2 & H3). simpl in H2, H3. split_and!.
    + f_equal. exact H1.
    + f_equal. exact H2.
    + rewrite filter_cons_True by (simpl; apply (Hv (b', n')); set_solver).
      etransitivity; [|exact (f_equal S H3)]. unfold size. simpl.
      destruct votes as [|v votes]; simpl; [|done].
      destruct l; simpl; lia.
Qed.

(** The guard of [push] only rejects when the queue is empty: a block of any
    period is accepted behind a non-empty queue. *)
Lemma push_nonempty_accepts q d n m v : queue_ q <> [] -> (push q d n m v).2 = true.
Proof. intros. unfold push, empty. rewrite bool_decide_false by done. simpl. by rewrite andb_false_r. Qed.

(** [push] enforces its rule ("it needs to be block after the last block in
    the queue or max_pbft_size + 1 or max_pbft_size + 2") only on an empty
    queue: there exactly the blocks of the two allowed periods are accepted,
    while a non-empty queue accepts a block of every period and then holds a
    gap. *)
Theorem push_guard_only_when_empty q d n m v :
  0 <= m < 2 ^ 63 -> 0 <= period_ q < 2 ^ 63 ->
  ((push q d n m v).2 = true <->
     queue_ q <> [] \/
     pb_period (pbft_blk d) = Z.max (period_ q) m + 1 \/ pb_period (pbft_blk d) = m + 2) /\
  (queue_ q <> [] -> m <= period_ q ->
     periods (push q d n m v).1 = periods q ++ [pb_period (pbft_blk d)]).
Proof.
  intros Hm Hp. split.
  - destruct (decide (queue_ q = [])) as [E|E]; [|split; [by left|intros _; by apply push_nonempty_accepts]].
    unfold push, empty. rewrite bool_decide_true by done.
    rewrite !wrap_id by (unfold in_range, modulus; lia). simpl.
    destruct (Z.eqb_spec (pb_period (pbft_blk d)) (Z.max (period_ q) m + 1)),
      (Z.eqb_spec (pb_period (pbft_blk d)) (m + 2)); simpl; split; intros; try tauto; try done.
  - intros E Hle. unfold push, empty, periods. rewrite bool_decide_false by done. simpl.
    rewrite andb_false_r, andb_true_r. simpl. destruct (Z.ltb_spec (period_ q) m); [lia|].
    by rewrite fmap_app.
Qed.

End queue.

Definition ex_pd (p : Z) (votes : list PbftVote) : PeriodData unit := mkPeriodData (mkPbftBlock p 0 0 p []) votes tt.

Definition ex_queue : PeriodDataQueue unit := (push emptyQueue (ex_pd 11 []) 1 10 []).1.

Lemma push_guard_witness :
  periods (push ex_queue (ex_pd 50 []) 1 10 []).1 = [11; 50] /\
  (push ex_queue (ex_pd 50 []) 1 10 []).2 = true.
Proof.
  destruct (push_guard_only_when_empty ex_queue (ex_pd 50 []) 1 10 []) as [H1 H2]; [lia|simpl; lia|].
  split; [|apply H1; by left]. rewrite H2; [done|done|simpl; lia].
Defined.

Lemma queue_stays_contiguous_witness :
  queue_wf (push ex_queue (ex_pd 12 []) 1 10 []).1.
Proof.
  apply (queue_stays_contiguous ex_queue [OpPush (ex_pd 12 []) 1 10 []]); [done| |done].
  intros pre o post qo Hsplit Hrun. destruct pre as [|o' pre]; [|by destruct pre].
  injection Hsplit as <- _. injection Hrun as <-. done.
Defined.

Lemma drain_pairs_votes_witness :
  exists rs, drain 1 ex_queue = Done (emptyQueue, rs) /\ length rs = 1%nat.
Proof.
  destruct (drain_pairs_votes ex_queue) as (rs & H & H2 & _); [done|set_solver|].
  exists rs. split; [exact H|]. assert (length (queue_ ex_queue) = 1%nat) as <- by done.
  rewrite <- H2. by rewrite length_fmap.
Defined.
End SyncQueue.
