(* ===== verification/Caches.v ===== *)
(** * Bounded caches

    The containers of common/util.hpp that the rest of the node keeps hashes
    and results in: [ExpirationCache] (known transactions, validated votes,
    double voting proofs), [ExpirationBlockNumberCache] (what a peer already
    has) and [ExpirationCacheMap] (seen DAG blocks, gas estimations), with
    [ThreadSafeMap] (malicious peers).  Each couples a hash container with a
    queue that says in which order entries expire. *)

From S2P Require Import Prelude.
Local Open Scope Z_scope.
Local Open Scope outcome_scope.

(** * [ExpirationCache] *)

Module Expiration.
Section cache.
Context {Key : Type} `{Countable Key}.

Record ExpirationCache := mkExpirationCache {
  cache_ : gset Key;
  kMaxSize : nat;
  kDeleteStep : nat;
  expiration_ : list Key;
}.

Definition newCache (max_size delete_step : nat) : ExpirationCache :=
  mkExpirationCache ∅ max_size delete_step [].

Definition contains (c : ExpirationCache) (key : Key) : bool := bool_decide (key ∈ cache_ c).

(** [n] rounds of [cache_.erase(expiration_.front()); expiration_.pop_front()];
    the front of an empty deque is undefined. *)
Fixpoint evict (n : nat) (cache : gset Key) (expiration : list Key) : outcome (gset Key * list Key) :=
  match n with
  | O => Done (cache, expiration)
  | S n =>
      match expiration with
      | [] => Undefined
      | key :: expiration' => evict n (cache ∖ {[key]}) expiration'
      end
  end.

(** The part of [insert] that holds the exclusive lock. *)
Definition insert_locked (c : ExpirationCache) (key : Key) : outcome (ExpirationCache * bool) :=
  if decide (key ∈ cache_ c) then Done (c, false)
  else
    let cache := {[key]} ∪ cache_ c in
    let expiration := expiration_ c ++ [key] in
    if bool_decide (kMaxSize c < size cache)%nat then
      let* (cache', expiration') := evict (kDeleteStep c) cache expiration in
      Done (mkExpirationCache cache' (kMaxSize c) (kDeleteStep c) expiration', true)
    else Done (mkExpirationCache cache (kMaxSize c) (kDeleteStep c) expiration, true).

Definition insert (c : ExpirationCache) (key : Key) : outcome (ExpirationCache * bool) :=
  if contains c key then Done (c, false) else insert_locked c key.

Definition erase (c : ExpirationCache) (key : Key) : ExpirationCache :=
  mkExpirationCache (cache_ c ∖ {[key]}) (kMaxSize c) (kDeleteStep c) (expiration_ c).

Definition count (c : ExpirationCache) (key : Key) : nat := if contains c key then 1 else 0.

Definition cache_size (c : ExpirationCache) : nat := size (cache_ c).

Definition clear (c : ExpirationCache) : ExpirationCache :=
  mkExpirationCache ∅ (kMaxSize c) (kDeleteStep c) [].

(** ** Properties *)

(** The check under the shared lock only saves taking the exclusive one. *)
Lemma insert_is_locked c key : insert c key = insert_locked c key.
Proof.
  unfold insert, insert_locked, contains. destruct (decide (key ∈ cache_ c)).
  - by rewrite bool_decide_true.
  - by rewrite bool_decide_false.
Qed.

Lemma evict_spec n cache exp :
  (n <= length exp)%nat ->
  evict n cache exp = Done (cache ∖ list_to_set (take n exp), drop n exp).
Proof.
  revert cache exp. induction n as [|n IH]; intros cache exp Hn; simpl.
  - by rewrite drop_0, difference_empty_L.
  - destruct exp as [|k exp]; simpl in *; [lia|]. rewrite IH by lia. do 2 f_equal. set_solver.
Qed.

(** Every cached key has an entry in the queue. *)
Definition tracked (c : ExpirationCache) : Prop := forall k, k ∈ cache_ c -> k ∈ expiration_ c.

Lemma tracked_size c : tracked c -> (size (cache_ c) <= length (expiration_ c))%nat.
Proof. intros Ht. by apply set_size_covered. Qed.

(** The queue holds exactly the cached keys, once each. *)
Definition exact (c : ExpirationCache) : Prop :=
  NoDup (expiration_ c) /\ forall k, k ∈ cache_ c <-> k ∈ expiration_ c.

Lemma exact_tracked c : exact c -> tracked c.
Proof. intros [_ He] k. apply He. Qed.

Lemma exact_size c : exact c -> size (cache_ c) = length (expiration_ c).
Proof.
  intros [Hnd He]. rewrite <- (size_list_to_set (C := gset Key)) by done.
  f_equal. apply set_eq. intros k. by rewrite elem_of_list_to_set.
Qed.

Definition params_ok (c : ExpirationCache) : Prop := (kDeleteStep c <= kMaxSize c + 1)%nat.

(** One insertion of a key that is not cached. *)
Lemma insert_new c key :
  tracked c -> params_ok c -> key ∉ cache_ c ->
  exists n, insert c key =
    Done (mkExpirationCache (({[key]} ∪ cache_ c) ∖ list_to_set (take n (expiration_ c ++ [key])))
            (kMaxSize c) (kDeleteStep c) (drop n (expiration_ c ++ [key])), true) /\
    n = (if bool_decide (kMaxSize c < S (size (cache_ c)))%nat then kDeleteStep c else 0%nat) /\
    (n <= length (expiration_ c ++ [key]))%nat.
Proof.
  intros Ht Hp Hk. rewrite insert_is_locked. unfold insert_locked.
  rewrite decide_False by done.
  assert (size ({[key]} ∪ cache_ c) = S (size (cache_ c))) as Hsz.
  { rewrite size_union by set_solver. by rewrite size_singleton. }
  rewrite Hsz. pose proof (tracked_size c Ht) as Hlen. unfold params_ok in Hp.
  eexists. split; [|split; [reflexivity|]].
  - case_bool_decide.
    + rewrite evict_spec by (rewrite length_app; simpl; lia). done.
    + rewrite drop_0. simpl. by rewrite difference_empty_L.
  - rewrite length_app. simpl. case_bool_decide; lia.
Qed.

Lemma insert_old c key : key ∈ cache_ c -> insert c key = Done (c, false).
Proof. intros. unfold insert, contains. by rewrite bool_decide_true. Qed.

Lemma insert_tracked c key :
  tracked c -> params_ok c ->
  exists c' b, insert c key = Done (c', b) /\ tracked c' /\ params_ok c' /\
    kMaxSize c' = kMaxSize c /\ kDeleteStep c' = kDeleteStep c /\ b = negb (contains c key).
Proof.
  intros Ht Hp. destruct (decide (key ∈ cache_ c)) as [Hk|Hk].
  - exists c, false. rewrite insert_old by done. unfold contains. rewrite bool_decide_true by done. done.
  - destruct (insert_new c key Ht Hp Hk) as (n & -> & _ & _). eexists _, true.
    split; [done|]. unfold contains. rewrite bool_decide_false by done. split_and!; try done.
    intros k. simpl. rewrite elem_of_difference, elem_of_list_to_set. intros [Hin Hnt].
    assert (k ∈ expiration_ c ++ [key]) as Hin'.
    { apply elem_of_app. apply elem_of_union in Hin as [Hin|Hin]; [right|left; by apply Ht]. set_solver. }
    rewrite <- (take_drop n (expiration_ c ++ [key])) in Hin'. set_solver.
Qed.

Lemma insert_exact c key :
  exact c -> params_ok c -> key ∉ cache_ c ->
  exists c' n, insert c key = Done (c', true) /\ exact c' /\ params_ok c' /\
    kMaxSize c' = kMaxSize c /\ kDeleteStep c' = kDeleteStep c /\
    expiration_ c' = drop n (expiration_ c ++ [key]) /\
    n = (if bool_decide (kMaxSize c < S (size (cache_ c)))%nat then kDeleteStep c else 0%nat).
Proof.
  intros He Hp Hk. destruct (insert_new c key (exact_tracked c He) Hp Hk) as (n & -> & Hn & Hle).
  eexists _, n. split; [done|]. split_and!; try done; [].
  destruct He as [Hnd He].
  assert (NoDup (expiration_ c ++ [key])) as Hnd'.
  { apply NoDup_app. split_and!; [done| |apply NoDup_singleton].
    intros x Hx ->%list_elem_of_singleton. by apply Hk, He. }
  rewrite <- (take_drop n (expiration_ c ++ [key])) in Hnd'. apply NoDup_app in Hnd' as (_ & Hdisj & Hnd').
  split; [done|]. intros k. simpl. rewrite elem_of_difference, elem_of_list_to_set, elem_of_union, He.
  assert (k ∈ expiration_ c ++ [key] <-> k ∈ take n (expiration_ c ++ [key]) \/ k ∈ drop n (expiration_ c ++ [key])) as Hs.
  { rewrite <- elem_of_app. by rewrite take_drop. }
  rewrite elem_of_app, list_elem_of_singleton in Hs. rewrite elem_of_singleton. naive_solver.
Qed.

(** Insertions one after the other, with the keys that were accepted. *)
Fixpoint insert_all (c : ExpirationCache) (keys : list Key) : outcome (ExpirationCache * list Key) :=
  match keys with
  | [] => Done (c, [])
  | key :: keys =>
      let* (c', inserted) := insert c key in
      let* (c'', accepted) := insert_all c' keys in
      Done (c'', if inserted then key :: accepted else accepted)
  end.

Definition bounded (c : ExpirationCache) : Prop := (size (cache_ c) <= kMaxSize c)%nat.

Lemma insert_bounded c key c' b :
  exact c -> bounded c -> params_ok c -> (1 <= kDeleteStep c)%nat -> insert c key = Done (c', b) ->
  bounded c' /\ ((kDeleteStep c <= kMaxSize c)%nat -> key ∈ cache_ c').
Proof.
  intros He Hb Hp Hd Hins. destruct (decide (key ∈ cache_ c)) as [Hk|Hk].
  - rewrite insert_old in Hins by done. by simplify_eq.
  - destruct (insert_exact c key He Hp Hk) as (c1 & n & Hc1 & He1 & _ & Hmax & Hstep & Hexp & Hn).
    rewrite Hc1 in Hins. simplify_eq. unfold bounded in *.
    pose proof (exact_size _ He) as Hsz. pose proof (exact_size _ He1) as Hsz1.
    rewrite Hsz1, Hexp, length_drop, length_app, Hmax. simpl. split.
    + case_bool_decide; lia.
    + intros Hd'. apply He1. rewrite Hexp. apply list_elem_of_lookup.
      exists (length (expiration_ c) - (if bool_decide (kMaxSize c < S (size (cache_ c)))%nat
        then kDeleteStep c else 0))%nat.
      rewrite lookup_drop, lookup_app_r by (case_bool_decide; lia).
      replace (_ - _)%nat with 0%nat by (case_bool_decide; lia). done.
Qed.

Lemma insert_all_effect keys c :
  exact c -> bounded c -> params_ok c -> (1 <= kDeleteStep c)%nat ->
  exists c' accepted, insert_all c keys = Done (c', accepted) /\ exact c' /\ bounded c' /\
    params_ok c' /\ kDeleteStep c' = kDeleteStep c /\ kMaxSize c' = kMaxSize c /\
    exists dropped, expiration_ c ++ accepted = dropped ++ expiration_ c'.
Proof.
  revert c. induction keys as [|key keys IH]; intros c He Hb Hp Hd; simpl.
  - exists c, []. split_and!; try done. exists []. by rewrite app_nil_r.
  - destruct (decide (key ∈ cache_ c)) as [Hk|Hk].
    + rewrite insert_old by done. simpl.
      destruct (IH c He Hb Hp Hd) as (c' & acc & -> & H1). by exists c', acc.
    + destruct (insert_exact c key He Hp Hk) as (c1 & n & Hc1 & He1 & Hp1 & Hmax & Hstep & Hexp & Hn).
      rewrite Hc1. simpl. pose proof (insert_bounded c key c1 true He Hb Hp Hd Hc1) as [Hb1 _].
      destruct (IH c1 He1 Hb1 Hp1 ltac:(lia)) as (c' & acc & -> & He' & Hb' & Hp' & Hs' & Hm' & dr & Hdr).
      exists c', (key :: acc). split_and!; try done; [congruence..|].
      exists (take n (expiration_ c ++ [key]) ++ dr).
      rewrite <- (app_assoc _ dr), <- Hdr, Hexp, app_assoc, take_drop, <- app_assoc. done.
Qed.

Lemma insert_all_snoc c keys key :
  insert_all c (keys ++ [key]) =
    (let* (c1, accepted) := insert_all c keys in
     let* (c2, inserted) := insert c1 key in
     Done (c2, accepted ++ if inserted then [key] else [])).
Proof.
  revert c. induction keys as [|k keys IH]; intros c; simpl.
  - by destruct (insert c key) as [[c' []]| |].
  - destruct (insert c k) as [[c' b]| |]; simpl; [|done..]. rewrite IH.
    destruct (insert_all c' keys) as [[c1 a1]| |]; simpl; [|done..].
    destruct (insert c1 key) as [[c2 b2]| |]; simpl; [|done..]. by destruct b.
Qed.

(** A cache that is only inserted into never touches an empty queue, never
    holds more than [kMaxSize] keys, and is a first-in first-out window: its
    keys are the most recent accepted ones, and the key inserted last is in
    it. *)
Theorem insert_all_fifo max_size delete_step keys key :
  (1 <= delete_step <= max_size)%nat ->
  exists c accepted,
    insert_all (newCache max_size delete_step) (keys ++ [key]) = Done (c, accepted) /\
    (size (cache_ c) <= max_size)%nat /\
    (exists dropped, accepted = dropped ++ expiration_ c) /\
    (forall k, contains c k = true <-> k ∈ expiration_ c) /\
    contains c key = true.
Proof.
  intros Hd. set (c0 := newCache max_size delete_step).
  assert (exact c0) as He by (split; [constructor|set_solver]).
  assert (bounded c0) as Hb by (unfold bounded, c0; cbn [cache_ newCache kMaxSize]; rewrite size_empty; lia).
  assert (params_ok c0) as Hp by (unfold params_ok; simpl; lia).
  destruct (insert_all_effect keys c0 He Hb Hp) as
    (c1 & acc1 & Hrun1 & He1 & Hb1 & Hp1 & Hs1 & Hm1 & _); [simpl; lia|].
  destruct (insert_all_effect (keys ++ [key]) c0 He Hb Hp) as
    (c & acc & Hrun & He' & Hb' & Hp' & Hs' & Hm' & dr & Hdr); [simpl; lia|].
  simpl in *. exists c, acc. split_and!; [done| |by exists dr| |].
  - unfold bounded in Hb'. by rewrite Hm' in Hb'.
  - intros k. unfold contains. rewrite bool_decide_eq_true. apply He'.
  - unfold contains. apply bool_decide_eq_true.
    rewrite insert_all_snoc, Hrun1 in Hrun. simpl in Hrun.
    destruct (insert c1 key) as [[c2 b]| |] eqn:Hins; simpl in Hrun; [|done..]. injection Hrun as <- _.
    apply (insert_bounded c1 key c2 b); [done..|lia|done|lia].
Qed.

(** ** Sequences with [erase] *)

Inductive cache_op :=
| OpInsert (key : Key)
| OpErase (key : Key)
| OpClear.

Definition run_op (c : ExpirationCache) (o : cache_op) : outcome ExpirationCache :=
  match o with
  | OpInsert key => let* (c', _) := insert c key in Done c'
  | OpErase key => Done (erase c key)
  | OpClear => Done (clear c)
  end.

(** For every sequence of insertions, erasures and clears of a cache whose
    delete step is at most one above its maximum size, the eviction never reads
    the front of an empty queue. *)
Theorem ops_never_undefined max_size delete_step ops :
  (delete_step <= max_size + 1)%nat ->
  exists c, ofold run_op ops (newCache max_size delete_step) = Done c /\ tracked c.
Proof.
  intros Hd.
  destruct (ofold_inv run_op (fun c => tracked c /\ params_ok c) ops (newCache max_size delete_step))
    as (c & Hc & Ht & _).
  - intros c o _ [Ht Hp]. destruct o as [key|key|]; simpl.
    + destruct (insert_tracked c key Ht Hp) as (c' & b & -> & Ht' & Hp' & _). by exists c'.
    + eexists. split; [done|]. split; [|done]. intros k. simpl. set_solver.
    + eexists. split; [done|]. split; [|done]. intros k. simpl. set_solver.
  - split; [|done]. intros k. simpl. set_solver.
  - by exists c.
Qed.

(** [n] times: insert a key and erase it again. *)
Definition insert_erase (key : Key) (n : nat) : list cache_op :=
  mjoin (replicate n [OpInsert key; OpErase key]).

Lemma insert_into_empty max_size delete_step key exp :
  (1 <= max_size)%nat ->
  insert (mkExpirationCache ∅ max_size delete_step exp) key =
    Done (mkExpirationCache {[key]} max_size delete_step (exp ++ [key]), true).
Proof.
  intros Hm. rewrite insert_is_locked. unfold insert_locked.
  cbn [cache_ kMaxSize expiration_ kDeleteStep]. rewrite decide_False by set_solver.
  rewrite union_empty_r_L, size_singleton. by rewrite bool_decide_false by lia.
Qed.

Lemma insert_erase_effect max_size delete_step key n exp :
  (1 <= max_size)%nat ->
  ofold run_op (insert_erase key n) (mkExpirationCache ∅ max_size delete_step exp) =
    Done (mkExpirationCache ∅ max_size delete_step (exp ++ replicate n key)).
Proof.
  intros Hm. revert exp. induction n as [|n IH]; intros exp; [by rewrite app_nil_r|].
  change (insert_erase key (S n)) with (OpInsert key :: OpErase key :: insert_erase key n).
  cbn [ofold obind run_op]. rewrite insert_into_empty by done. cbn [obind]. unfold erase.
  cbn [cache_ kMaxSize expiration_ kDeleteStep]. rewrite difference_diag_L, IH. by rewrite <- app_assoc.
Qed.

(** [erase] forgets the key but not its queue entry.  The queue of an empty
    cache therefore grows by one entry with each insertion and erasure, without
    bound. *)
Theorem erase_leaks_queue max_size delete_step key n :
  (1 <= max_size)%nat ->
  exists c, ofold run_op (insert_erase key n) (newCache max_size delete_step) = Done c /\
    cache_size c = 0%nat /\ length (expiration_ c) = n.
Proof.
  intros Hm. eexists. split; [by apply insert_erase_effect|]. split; [done|].
  simpl. by rewrite length_replicate.
Qed.
End cache.
Arguments ExpirationCache Key {_ _}.

Lemma insert_all_fifo_witness :
  exists c acc, insert_all (newCache 2 1) ([1; 2; 1] ++ [3]) = Done (c, acc) /\ contains c 3 = true.
Proof.
  destruct (insert_all_fifo (Key := Z) 2 1 [1; 2; 1] 3) as (c & acc & H & _ & _ & _ & H3); [lia|].
  by exists c, acc.
Defined.

Lemma ops_never_undefined_witness :
  exists c, ofold run_op [OpInsert 1; OpErase 1; OpInsert 2; OpInsert 3] (newCache 1 2) = Done c.
Proof. destruct (ops_never_undefined (Key := Z) 1 2 [OpInsert 1; OpErase 1; OpInsert 2; OpInsert 3]) as (c & H & _); [lia|]. by exists c. Defined.

Lemma erase_leaks_queue_witness :
  exists c, ofold run_op (insert_erase 7 5) (newCache 2 1) = Done c /\ length (expiration_ c) = 5%nat.
Proof. destruct (erase_leaks_queue 2 1 7 5) as (c & H & _ & H2); [lia|]. by exists c. Defined.

(** Stale queue entries make evictions void, so that the size can exceed
    [kMaxSize]; and a key that was erased and inserted again is evicted when its
    old entry expires. *)
Example erase_breaks_bound :
  (let* c := ofold run_op [OpInsert 1; OpInsert 2; OpInsert 3; OpErase 1; OpInsert 4; OpInsert 5]
     (newCache 3 1) in Done (cache_size c, kMaxSize c)) = Done (4%nat, 3%nat).
Proof. vm_compute. reflexivity. Qed.

Example erase_evicts_early :
  (let* c := ofold run_op [OpInsert 1; OpErase 1; OpInsert 2; OpInsert 1; OpInsert 3; OpInsert 4]
     (newCache 3 1) in Done (contains c 1, contains c 2)) = Done (false, true).
Proof. vm_compute. reflexivity. Qed.
End Expiration.

(** * [ExpirationBlockNumberCache] *)

Module BlockNumber.
Section cache.
Context {Key : Type} `{Countable Key}.

(** The inherited [expiration_] of the base class stays empty. *)
Record ExpirationBlockNumberCache := mkBlockNumberCache {
  cache_ : gset Key;
  kMaxSize : nat;
  kDeleteStep : nat;
  block_expiration_ : list (Key * Z);
  kBlocksToKeep : Z;
  last_block_number_ : Z;
}.

Definition newBlockNumberCache (max_size delete_step : nat) (blocks_to_keep : Z) :
    ExpirationBlockNumberCache := mkBlockNumberCache ∅ max_size delete_step [] blocks_to_keep 0.

(** The loop that drops the entries of blocks that are not kept any more. *)
Fixpoint expire (blocks_to_keep block_number : Z) (cache : gset Key) (exp : list (Key * Z)) :
    gset Key * list (Key * Z) :=
  match exp with
  | [] => (cache, [])
  | (key, number) :: exp' =>
      if (blocks_to_keep <? block_number) && (number <? block_number - blocks_to_keep)
      then expire blocks_to_keep block_number (cache ∖ {[key]}) exp'
      else (cache, exp)
  end.

Fixpoint bn_evict (n : nat) (cache : gset Key) (exp : list (Key * Z)) :
    outcome (gset Key * list (Key * Z)) :=
  match n with
  | O => Done (cache, exp)
  | S n =>
      match exp with
      | [] => Undefined
      | (key, _) :: exp' => bn_evict n (cache ∖ {[key]}) exp'
      end
  end.

Definition bn_insert (c : ExpirationBlockNumberCache) (key : Key) (block_number : Z) :
    outcome (ExpirationBlockNumberCache * bool) :=
  if decide (key ∈ cache_ c) then Done (c, false)
  else
    let cache := {[key]} ∪ cache_ c in
    let '(last, (cache, exp)) :=
      if last_block_number_ c <? block_number
      then (block_number, expire (kBlocksToKeep c) block_number cache (block_expiration_ c))
      else (last_block_number_ c, (cache, block_expiration_ c)) in
    let exp := exp ++ [(key, block_number)] in
    let* (cache, exp) :=
      if bool_decide (kMaxSize c < size cache)%nat then bn_evict (kDeleteStep c) cache exp
      else Done (cache, exp) in
    Done (mkBlockNumberCache cache (kMaxSize c) (kDeleteStep c) exp (kBlocksToKeep c) last, true).

(** [clear] of the derived class; [last_block_number_] survives it. *)
Definition bn_clear (c : ExpirationBlockNumberCache) : ExpirationBlockNumberCache :=
  mkBlockNumberCache ∅ (kMaxSize c) (kDeleteStep c) [] (kBlocksToKeep c) (last_block_number_ c).

(** ** Properties *)

Definition number_le (x y : Key * Z) : Prop := x.2 <= y.2.

(** Block [number] is outside of the window of the last block. *)
Definition outdated (keep last number : Z) : Prop := keep < last /\ number < last - keep.

#[local] Instance outdated_dec keep last number : Decision (outdated keep last number).
Proof. unfold outdated. apply _. Defined.

Record cache_wf (c : ExpirationBlockNumberCache) : Prop := {
  wf_nodup : NoDup (block_expiration_ c).*1;
  wf_cache : forall k, k ∈ cache_ c <-> k ∈ (block_expiration_ c).*1;
  wf_sorted : StronglySorted number_le (block_expiration_ c);
  wf_last : forall e, e ∈ block_expiration_ c -> e.2 <= last_block_number_ c;
  wf_window : forall e, e ∈ block_expiration_ c ->
    ~ outdated (kBlocksToKeep c) (last_block_number_ c) e.2;
  wf_bound : (size (cache_ c) <= kMaxSize c)%nat;
}.

Lemma expire_spec keep number cache exp :
  StronglySorted number_le exp ->
  expire keep number cache exp =
    (cache ∖ list_to_set (filter (fun e => outdated keep number e.2) exp).*1,
     filter (fun e => ~ outdated keep number e.2) exp).
Proof.
  revert cache. induction exp as [|[k n] exp IH]; intros cache Hs; simpl.
  - by rewrite difference_empty_L.
  - apply StronglySorted_inv in Hs as [Hs Hall].
    destruct (decide (outdated keep number n)) as [Ho|Ho].
    + rewrite filter_cons_True, filter_cons_False by (simpl; tauto || done).
      unfold outdated in Ho. destruct (Z.ltb_spec keep number), (Z.ltb_spec n (number - keep)); simpl; [|lia..].
      rewrite IH by done. f_equal. set_solver.
    + assert (forall e, e ∈ exp -> ~ outdated keep number e.2) as Hno.
      { intros e He. rewrite Forall_forall in Hall. specialize (Hall e He).
        unfold number_le, outdated in *. simpl in *. lia. }
      assert ((keep <? number) && (n <? number - keep) = false) as ->.
      { unfold outdated in Ho. destruct (Z.ltb_spec keep number), (Z.ltb_spec n (number - keep)); simpl; (done || lia). }
      rewrite filter_cons_False, filter_cons_True by (simpl; tauto || done).
      rewrite (list_filter_keeps (fun e => ~ outdated keep number e.2) exp) by done.
      rewrite (list_filter_drops (fun e => outdated keep number e.2) exp) by done. simpl.
      by rewrite difference_empty_L.
Qed.

Lemma bn_evict_spec n cache exp :
  (n <= length exp)%nat ->
  bn_evict n cache exp = Done (cache ∖ list_to_set (take n exp).*1, drop n exp).
Proof.
  revert cache exp. induction n as [|n IH]; intros cache exp Hn; simpl.
  - by rewrite drop_0, difference_empty_L.
  - destruct exp as [|[k b] exp]; simpl in *; [lia|]. rewrite IH by lia. do 2 f_equal. set_solver.
Qed.

(** What an insertion of a new key for a block that is not behind the last one
    leaves. *)
Definition kept (c : ExpirationBlockNumberCache) (block_number : Z) : list (Key * Z) :=
  filter (fun e => ~ outdated (kBlocksToKeep c) block_number e.2) (block_expiration_ c).

Lemma kept_keys c block_number k :
  cache_wf c ->
  k ∈ cache_ c ->
  k ∉ (filter (fun e => outdated (kBlocksToKeep c) block_number e.2) (block_expiration_ c)).*1 <->
  k ∈ (kept c block_number).*1.
Proof.
  intros Hwf Hk. apply (wf_cache _ Hwf) in Hk. apply list_elem_of_fmap in Hk as ([k' n] & -> & Hin).
  unfold kept. simpl. split.
  - intros Hno. apply list_elem_of_fmap. exists (k', n). split; [done|].
    apply list_elem_of_filter. split; [|done]. intros Ho. apply Hno. apply list_elem_of_fmap.
    exists (k', n). by rewrite list_elem_of_filter.
  - intros ([k1 n1] & -> & [Hno Hin1]%list_elem_of_filter)%list_elem_of_fmap.
    intros ([k2 n2] & Heq & [Ho Hin2]%list_elem_of_filter)%list_elem_of_fmap. simpl in *. subst k2.
    by rewrite (NoDup_fst_unique _ _ _ _ (wf_nodup _ Hwf) Hin1 Hin2) in Hno.
Qed.

Lemma bn_insert_shape c key block_number :
  cache_wf c -> key ∉ cache_ c -> last_block_number_ c <= block_number ->
  let exp := kept c block_number ++ [(key, block_number)] in
  let n := if bool_decide (kMaxSize c < length exp)%nat then kDeleteStep c else 0%nat in
  NoDup exp.*1 /\
  ((n <= length exp)%nat ->
   bn_insert c key block_number =
     Done (mkBlockNumberCache (list_to_set (drop n exp).*1) (kMaxSize c) (kDeleteStep c) (drop n exp)
             (kBlocksToKeep c) block_number, true)).
Proof.
  intros Hwf Hk Hbn exp n.
  assert (key ∉ (kept c block_number).*1) as Hnk.
  { intros ([k' m] & -> & [_ Hin]%list_elem_of_filter)%list_elem_of_fmap. apply Hk, (wf_cache _ Hwf).
    apply list_elem_of_fmap. by exists (k', m). }
  assert (NoDup exp.*1) as Hnd.
  { unfold exp. rewrite fmap_app. apply NoDup_app. split_and!; [|set_solver|apply NoDup_singleton].
    apply NoDup_fst_filter, Hwf. }
  split; [done|]. intros Hn.
  unfold bn_insert. rewrite decide_False by done.
  assert ((if last_block_number_ c <? block_number
     then (block_number, expire (kBlocksToKeep c) block_number ({[key]} ∪ cache_ c) (block_expiration_ c))
     else (last_block_number_ c, ({[key]} ∪ cache_ c, block_expiration_ c))) =
     (block_number, (list_to_set exp.*1, kept c block_number))) as ->.
  { assert (({[key]} ∪ cache_ c) ∖
      list_to_set (filter (fun e => outdated (kBlocksToKeep c) block_number e.2) (block_expiration_ c)).*1
      = (list_to_set exp.*1 : gset Key)) as Hset.
    { apply set_eq. intros k. unfold exp. rewrite fmap_app, elem_of_difference, !elem_of_list_to_set.
      rewrite elem_of_union, elem_of_singleton, elem_of_app. simpl. rewrite list_elem_of_singleton.
      destruct (decide (k = key)) as [->|Hne].
      - split; [by right|]. intros _. split; [by left|].
        intros ([k' m] & -> & [_ Hin]%list_elem_of_filter)%list_elem_of_fmap. apply Hk, (wf_cache _ Hwf).
        apply list_elem_of_fmap. by exists (k', m).
      - split.
        + intros [[?|Hin] Hno]; [done|]. left. by apply (kept_keys c block_number k Hwf Hin).
        + intros [Hin|?]; [|done].
          assert (k ∈ cache_ c) as Hc.
          { apply (wf_cache _ Hwf). apply list_elem_of_fmap in Hin as (e & -> & [_ Hin]%list_elem_of_filter).
            apply list_elem_of_fmap. by exists e. }
          split; [by right|]. by apply (kept_keys c block_number k Hwf Hc). }
    destruct (Z.ltb_spec (last_block_number_ c) block_number) as [Hlt|Hge].
    - rewrite expire_spec by apply Hwf. rewrite Hset. done.
    - assert (block_number = last_block_number_ c) as -> by lia. f_equal. rewrite <- Hset.
      pose proof (wf_window _ Hwf) as Hw. unfold kept.
      rewrite (list_filter_keeps (fun e => ~ outdated (kBlocksToKeep c) (last_block_number_ c) e.2)) by done.
      rewrite (list_filter_drops (fun e => outdated _ _ e.2)) by done. simpl. by rewrite difference_empty_L. }
  rewrite size_list_to_set, length_fmap by done. fold exp. subst n. case_bool_decide.
  - rewrite bn_evict_spec by done. simpl. do 3 f_equal.
    rewrite !fmap_take, fmap_drop. by rewrite list_to_set_take_drop.
  - by rewrite drop_0.
Qed.

Lemma kept_sorted c key block_number :
  cache_wf c -> last_block_number_ c <= block_number ->
  StronglySorted number_le (kept c block_number ++ [(key, block_number)]).
Proof.
  intros Hwf Hbn. apply StronglySorted_app. split_and!.
  - intros e e' [_ He]%list_elem_of_filter He'%list_elem_of_singleton. subst e'.
    pose proof (wf_last _ Hwf e He). unfold number_le. simpl. lia.
  - apply StronglySorted_filter, Hwf.
  - repeat constructor.
Qed.

Lemma in_kept_snoc c key block_number e :
  cache_wf c -> last_block_number_ c <= block_number -> 0 <= kBlocksToKeep c ->
  e ∈ kept c block_number ++ [(key, block_number)] ->
  e.2 <= block_number /\ ~ outdated (kBlocksToKeep c) block_number e.2.
Proof.
  intros Hwf Hbn Hkeep. rewrite elem_of_app, list_elem_of_singleton.
  intros [[Ho He]%list_elem_of_filter| ->].
  - split; [|done]. pose proof (wf_last _ Hwf e He). lia.
  - unfold outdated. simpl. lia.
Qed.

(** As long as the block numbers do not decrease, an insertion always
    succeeds, keeps at most [kMaxSize] keys, exactly those of its queue and none
    of a block outside of the window of [kBlocksToKeep] blocks, and the inserted
    key is among them; if the cache is not full, a key is dropped exactly when
    its block left the window. *)
Theorem bn_insert_correct c key block_number :
  cache_wf c -> (1 <= kDeleteStep c <= kMaxSize c)%nat -> 0 <= kBlocksToKeep c ->
  key ∉ cache_ c -> last_block_number_ c <= block_number ->
  exists c', bn_insert c key block_number = Done (c', true) /\ cache_wf c' /\
    last_block_number_ c' = block_number /\ key ∈ cache_ c' /\
    ((size (cache_ c) < kMaxSize c)%nat -> forall k n, (k, n) ∈ block_expiration_ c ->
       k ∈ cache_ c' <-> ~ outdated (kBlocksToKeep c) block_number n).
Proof.
  intros Hwf Hstep Hkeep Hk Hbn.
  destruct (bn_insert_shape c key block_number Hwf Hk Hbn) as [Hnd Hins].
  pose proof (kept_sorted c key block_number Hwf Hbn) as Hsorted.
  pose proof (in_kept_snoc c key block_number) as Hin.
  set (exp := kept c block_number ++ [(key, block_number)]) in *.
  set (n := if bool_decide (kMaxSize c < length exp)%nat then kDeleteStep c else 0%nat) in *.
  assert (length exp = S (length (kept c block_number))) as Hlen by (unfold exp; rewrite length_app; simpl; lia).
  assert (length (kept c block_number) <= size (cache_ c))%nat as Hkl.
  { etransitivity; [apply length_filter|]. rewrite <- (length_fmap fst).
    rewrite <- (size_list_to_set (C := gset Key)) by apply Hwf. apply subseteq_size.
    intros k Hk'. by apply (wf_cache _ Hwf), (elem_of_list_to_set (C := gset Key)). }
  pose proof (wf_bound _ Hwf) as Hbound.
  assert (n <= length exp - 1)%nat as Hn by (unfold n; case_bool_decide; lia).
  rewrite Hins by lia. eexists. split; [done|].
  assert (forall e, e ∈ drop n exp -> e ∈ exp) as Hsub
    by (intros e He; rewrite <- (take_drop n exp); apply elem_of_app; by right).
  split_and!; simpl.
  - constructor; simpl.
    + rewrite fmap_drop. rewrite <- (take_drop n exp.*1) in Hnd. by apply NoDup_app in Hnd as (_ & _ & ?).
    + intros k. by rewrite elem_of_list_to_set.
    + by apply StronglySorted_drop.
    + intros e He. apply (Hin e); auto.
    + intros e He. apply (Hin e); auto.
    + transitivity (length (drop n exp)).
      * rewrite <- (length_fmap fst (drop n exp)). apply set_size_covered. intros k.
        by rewrite elem_of_list_to_set.
      * rewrite length_drop. unfold n in *. case_bool_decide; lia.
  - done.
  - apply elem_of_list_to_set, list_elem_of_fmap. exists (key, block_number). split; [done|].
    apply list_elem_of_lookup. exists (length (kept c block_number) - n)%nat.
    rewrite lookup_drop. unfold exp. rewrite lookup_app_r by lia.
    by replace (_ - _)%nat with 0%nat by lia.
  - intros Hroom k m Hkm. assert (n = 0%nat) as -> by (unfold n; rewrite bool_decide_false by lia; done).
    rewrite drop_0, elem_of_list_to_set. unfold exp. rewrite fmap_app, elem_of_app.
    assert (k ∈ cache_ c) as Hkc.
    { apply (wf_cache _ Hwf), list_elem_of_fmap. by exists (k, m). }
    rewrite <- (kept_keys c block_number k Hwf Hkc). simpl. rewrite list_elem_of_singleton.
    split.
    + intros [Hno| ->]; [|done]. intros Ho. apply Hno, list_elem_of_fmap. exists (k, m).
      by rewrite list_elem_of_filter.
    + intros Ho. left. intros ([k2 m2] & -> & [Ho2 Hin2]%list_elem_of_filter)%list_elem_of_fmap. simpl in *.
      by rewrite (NoDup_fst_unique _ _ _ _ (wf_nodup _ Hwf) Hkm Hin2) in Ho.
Qed.

Lemma cache_wf_new max_size delete_step keep : cache_wf (newBlockNumberCache max_size delete_step keep).
Proof.
  constructor; simpl; try set_solver; try constructor. apply Nat.le_0_l.
Qed.
End cache.
Arguments ExpirationBlockNumberCache Key {_ _}.

Lemma bn_insert_witness :
  exists c', bn_insert (newBlockNumberCache 3 1 10) 5 100 = Done (c', true) /\ 5 ∈ cache_ c'.
Proof.
  destruct (bn_insert_correct (newBlockNumberCache 3 1 10) 5 100) as (c' & Hc & _ & _ & Hk & _);
    [apply cache_wf_new|simpl; lia|simpl; lia|simpl; set_solver|simpl; lia|]. by exists c'.
Defined.
End BlockNumber.

(** * [ExpirationCacheMap] *)

Module CacheMap.
Section cache.
Context {Key Value : Type} `{Countable Key} `{EqDecision Value}.

(** The default-constructed value that a failed lookup returns. *)
Context (default_value : Value).

Record ExpirationCacheMap := mkExpirationCacheMap {
  cache_ : gmap Key Value;
  expiration_ : list Key;
  kMaxSize : nat;
  kDeleteStep : nat;
}.

Definition newCacheMap (max_size delete_step : nat) : ExpirationCacheMap :=
  mkExpirationCacheMap ∅ [] max_size delete_step.

Fixpoint cm_evict (n : nat) (cache : gmap Key Value) (expiration : list Key) :
    outcome (gmap Key Value * list Key) :=
  match n with
  | O => Done (cache, expiration)
  | S n =>
      match expiration with
      | [] => Undefined
      | key :: expiration' => cm_evict n (delete key cache) expiration'
      end
  end.

Definition eraseOldest (c : ExpirationCacheMap) : outcome ExpirationCacheMap :=
  let* (cache, expiration) := cm_evict (kDeleteStep c) (cache_ c) (expiration_ c) in
  Done (mkExpirationCacheMap cache expiration (kMaxSize c) (kDeleteStep c)).

(** [if (cache_.size() > kMaxSize) eraseOldest();] *)
Definition trim (c : ExpirationCacheMap) : outcome ExpirationCacheMap :=
  if bool_decide (kMaxSize c < size (cache_ c))%nat then eraseOldest c else Done c.

(** [cache_[key] = value; expiration_.push_back(key);] *)
Definition store (c : ExpirationCacheMap) (key : Key) (value : Value) : ExpirationCacheMap :=
  mkExpirationCacheMap (<[key := value]> (cache_ c)) (expiration_ c ++ [key]) (kMaxSize c) (kDeleteStep c).

Definition cm_insert (c : ExpirationCacheMap) (key : Key) (value : Value) :
    outcome (ExpirationCacheMap * bool) :=
  match cache_ c !! key with
  | Some _ => Done (c, false)
  | None => let* c' := trim (store c key value) in Done (c', true)
  end.

Definition cm_count (c : ExpirationCacheMap) (key : Key) : nat :=
  match cache_ c !! key with Some _ => 1 | None => 0 end.

Definition cm_size (c : ExpirationCacheMap) : nat := size (cache_ c).

Definition cm_get (c : ExpirationCacheMap) (key : Key) : Value * bool :=
  match cache_ c !! key with Some v => (v, true) | None => (default_value, false) end.

Definition cm_clear (c : ExpirationCacheMap) : ExpirationCacheMap :=
  mkExpirationCacheMap ∅ [] (kMaxSize c) (kDeleteStep c).

(** [expiration_.erase(std::remove(...), end)]: all entries of the key. *)
Definition remove_key (key : Key) (l : list Key) : list Key := filter (fun k => k <> key) l.

Definition cm_update (c : ExpirationCacheMap) (key : Key) (value : Value) : outcome ExpirationCacheMap :=
  let expiration :=
    match cache_ c !! key with Some _ => remove_key key (expiration_ c) | None => expiration_ c end in
  trim (store (mkExpirationCacheMap (cache_ c) expiration (kMaxSize c) (kDeleteStep c)) key value).

Definition cm_erase (c : ExpirationCacheMap) (key : Key) : ExpirationCacheMap :=
  mkExpirationCacheMap (delete key (cache_ c)) (remove_key key (expiration_ c)) (kMaxSize c) (kDeleteStep c).

Definition updateWithGet (c : ExpirationCacheMap) (key : Key) (value : Value) :
    outcome (ExpirationCacheMap * (Value * bool)) :=
  let ret := cm_get c key in
  let* c' := trim (store c key value) in Done (c', ret).

Definition getRawMap (c : ExpirationCacheMap) : gmap Key Value := cache_ c.

(** [update] with an expected value. *)
Definition update_expected (c : ExpirationCacheMap) (key : Key) (value expected_value : Value) :
    outcome (ExpirationCacheMap * bool) :=
  match cache_ c !! key with
  | Some v =>
      if decide (v = expected_value) then
        let* c' := trim (store c key value) in Done (c', true)
      else Done (c, false)
  | None => Done (c, false)
  end.

(** ** Properties *)

Lemma cm_evict_spec n cache exp :
  (n <= length exp)%nat ->
  exists cache', cm_evict n cache exp = Done (cache', drop n exp) /\
    forall k, cache' !! k = if decide (k ∈ take n exp) then None else cache !! k.
Proof.
  revert cache exp. induction n as [|n IH]; intros cache exp Hn; simpl.
  - exists cache. by rewrite drop_0.
  - destruct exp as [|k exp]; simpl in *; [lia|].
    destruct (IH (delete k cache) exp) as (cache' & -> & Hl); [lia|]. exists cache'. split; [done|].
    intros k'. rewrite Hl. rewrite lookup_delete. repeat case_decide; set_solver.
Qed.

Definition cm_tracked (c : ExpirationCacheMap) : Prop := forall k, is_Some (cache_ c !! k) -> k ∈ expiration_ c.
Definition cm_params_ok (c : ExpirationCacheMap) : Prop := (kDeleteStep c <= kMaxSize c)%nat.

Lemma cm_tracked_size c : cm_tracked c -> (size (cache_ c) <= length (expiration_ c))%nat.
Proof.
  intros Ht. rewrite <- size_dom. apply set_size_covered. intros k Hk. by apply Ht, elem_of_dom.
Qed.

(** Trimming terminates without touching an empty queue and removes entries of
    the front of the queue only. *)
Lemma trim_spec c :
  cm_tracked c -> cm_params_ok c ->
  exists c' n, trim c = Done c' /\ (n <= length (expiration_ c))%nat /\
    ((0 < length (expiration_ c))%nat -> (n < length (expiration_ c))%nat) /\
    expiration_ c' = drop n (expiration_ c) /\
    (forall k, cache_ c' !! k = if decide (k ∈ take n (expiration_ c)) then None else cache_ c !! k) /\
    cm_tracked c' /\ cm_params_ok c' /\ kMaxSize c' = kMaxSize c /\ kDeleteStep c' = kDeleteStep c /\
    n = (if bool_decide (kMaxSize c < size (cache_ c))%nat then kDeleteStep c else 0%nat).
Proof.
  intros Ht Hp. pose proof (cm_tracked_size c Ht) as Hlen. unfold cm_params_ok in Hp.
  unfold trim, eraseOldest. case_bool_decide as Hsz.
  - destruct (cm_evict_spec (kDeleteStep c) (cache_ c) (expiration_ c)) as (cache' & -> & Hl); [lia|].
    eexists _, (kDeleteStep c). split; [done|]. split_and!; try done; simpl; [lia..|].
    intros k. simpl. rewrite Hl. case_decide as Hk; [by intros []|]. intros Hin%Ht.
    rewrite <- (take_drop (kDeleteStep c) (expiration_ c)) in Hin. set_solver.
  - exists c, 0%nat. rewrite drop_0. split_and!; try done; lia.
Qed.

Lemma store_tracked c key value : cm_tracked c -> cm_tracked (store c key value).
Proof.
  intros Ht k. simpl. rewrite elem_of_app, list_elem_of_singleton.
  destruct (decide (k = key)) as [->|]; [by right|]. rewrite lookup_insert_ne by done. intros. left. by apply Ht.
Qed.

Lemma remove_key_elem key l k : k ∈ remove_key key l <-> k ∈ l /\ k <> key.
Proof. unfold remove_key. rewrite list_elem_of_filter. tauto. Qed.

Lemma remove_key_tracked c key cache :
  cm_tracked c -> (forall k, k <> key -> is_Some (cache !! k) -> is_Some (cache_ c !! k)) ->
  cache !! key = None ->
  cm_tracked (mkExpirationCacheMap cache (remove_key key (expiration_ c)) (kMaxSize c) (kDeleteStep c)).
Proof.
  intros Ht Hc Hk k Hs. simpl in *. apply remove_key_elem.
  assert (k <> key) by (intros ->; by rewrite Hk in Hs; destruct Hs). split; [|done].
  by apply Ht, Hc.
Qed.

(** A key whose only queue entry is the last one survives trimming. *)
Lemma trim_keeps_last c key n exp :
  expiration_ c = exp ++ [key] -> key ∉ exp -> (n < length (expiration_ c))%nat ->
  key ∉ take n (expiration_ c).
Proof.
  intros E Hk Hn. rewrite E in *. rewrite length_app in Hn. simpl in Hn.
  rewrite take_app_le by lia. intros Hin. apply Hk.
  rewrite <- (take_drop n exp). apply elem_of_app. by left.
Qed.

Lemma store_after_trim c key value :
  cm_tracked (store c key value) -> cm_params_ok c -> key ∉ expiration_ c ->
  exists c', trim (store c key value) = Done c' /\ cm_tracked c' /\ cm_params_ok c' /\
    cache_ c' !! key = Some value /\
    (forall k v, k <> key -> cache_ c' !! k = Some v -> cache_ c !! k = Some v) /\
    ((size (cache_ (store c key value)) <= kMaxSize c)%nat -> cache_ c' = <[key := value]> (cache_ c)).
Proof.
  intros Ht Hp Hk.
  destruct (trim_spec (store c key value) Ht Hp) as
    (c' & n & -> & Hn & Hlt & Hexp & Hl & Ht' & Hp' & _ & _ & Hn'). exists c'.
  assert (n < length (expiration_ (store c key value)))%nat as Hn''.
  { apply Hlt. simpl. rewrite length_app. simpl. lia. }
  pose proof (trim_keeps_last (store c key value) key n (expiration_ c) eq_refl Hk Hn'') as Hkeep.
  split_and!; try done.
  - rewrite Hl, decide_False by done. simpl. by rewrite lookup_insert_eq.
  - intros k v Hne. rewrite Hl. destruct (decide (k ∈ _)); [done|]. simpl. by rewrite lookup_insert_ne.
  - intros Hsz. apply map_eq. intros k. rewrite Hl, Hn'. rewrite bool_decide_false by (simpl in *; lia).
    simpl. done.
Qed.

(** The map cache behaves as a map under [update] and [erase]: after an
    update the key has the new value, every other key keeps its value or was
    evicted, and nothing is evicted while the map has room; after an erase the
    key is gone and no other key changed.  The eviction never reads an empty
    queue. *)
Theorem cm_update_erase_correct c key value :
  cm_tracked c -> cm_params_ok c -> (cache_ c !! key <> None \/ key ∉ expiration_ c) ->
  (exists c', cm_update c key value = Done c' /\ cm_tracked c' /\ cm_params_ok c' /\
     cm_get c' key = (value, true) /\
     (forall k v, k <> key -> cache_ c' !! k = Some v -> cache_ c !! k = Some v) /\
     ((size (<[key := value]> (cache_ c)) <= kMaxSize c)%nat -> getRawMap c' = <[key := value]> (cache_ c))) /\
  cm_tracked (cm_erase c key) /\ (key ∉ expiration_ (cm_erase c key)) /\
  forall k, cm_get (cm_erase c key) k = if decide (k = key) then (default_value, false) else cm_get c k.
Proof.
  intros Ht Hp Hk. split; [|split_and!].
  - unfold cm_update.
    set (c1 := mkExpirationCacheMap (cache_ c) _ (kMaxSize c) (kDeleteStep c)).
    assert (cm_tracked (store c1 key value) /\ key ∉ expiration_ c1) as [Ht1 Hk1].
    { subst c1. destruct (cache_ c !! key) as [v|] eqn:E; simpl.
      - split; [|rewrite remove_key_elem; tauto]. intros k. simpl.
        rewrite elem_of_app, list_elem_of_singleton, remove_key_elem.
        destruct (decide (k = key)) as [->|]; [by right|]. rewrite lookup_insert_ne by done.
        intros. left. split; [by apply Ht|done].
      - destruct Hk as [?|Hk]; [done|]. split; [|done]. by apply (store_tracked c). }
    destruct (store_after_trim c1 key value Ht1 Hp Hk1) as (c' & -> & Ht' & Hp' & Hg & Ho & Hroom).
    exists c'. split_and!; try done. unfold cm_get. by rewrite Hg.
  - apply (remove_key_tracked c); [done| |apply lookup_delete_eq].
    intros k Hne. by rewrite lookup_delete_ne.
  - simpl. rewrite remove_key_elem. tauto.
  - intros k. unfold cm_get. simpl. rewrite lookup_delete. by repeat case_decide.
Qed.
End cache.
Arguments ExpirationCacheMap Key Value {_ _}.

Definition ex_map : ExpirationCacheMap Z Z := mkExpirationCacheMap {[ 1 := 10; 2 := 20 ]} [1; 2] 2 1.

Lemma ex_map_tracked : cm_tracked ex_map.
Proof.
  intros k. unfold ex_map. simpl. rewrite lookup_insert_is_Some, lookup_singleton_is_Some. set_solver.
Qed.

Lemma cm_update_erase_witness :
  exists c', cm_update ex_map 1 11 = Done c' /\ cm_get 0 c' 1 = (11, true).
Proof.
  destruct (cm_update_erase_correct 0 ex_map 1 11) as [(c' & Hc & _ & _ & Hg & _) _];
    [apply ex_map_tracked|unfold cm_params_ok; simpl; lia|by left|]. by exists c'.
Defined.

(** [updateWithGet] and [update_expected] leave the old queue entry of the key
    behind.  After the key is evicted through it, the next write of the key can
    be evicted at once through the second entry. *)
Example updateWithGet_loses_write :
  (let* (c, _) := updateWithGet 0 (newCacheMap 2 1) 1 10 in
   let* (c, _) := updateWithGet 0 c 1 11 in
   let* (c, _) := cm_insert c 2 20 in
   let* (c, _) := cm_insert c 3 30 in
   let* (c, _) := updateWithGet 0 c 1 12 in Done (cm_get 0 c 1)) = Done (0, false).
Proof. vm_compute. reflexivity. Qed.
End CacheMap.
