(* ===== verification/TransactionQueue.v ===== *)
(** * The transaction pool

    [TransactionQueue] (consensus/src/transaction/transaction_queue.cpp): the
    transactions that wait for a DAG block, indexed by hash, by sender and nonce
    and by gas price, with the non-proposable transactions beside them. *)

From S2P Require Import Prelude Votes Caches.
Local Open Scope Z_scope.
Local Open Scope outcome_scope.

(** The fields of a transaction that the pool reads; [trx_data_size] is the
    length of its data. *)
Record Transaction := mkTransaction {
  trx_hash : trx_hash_t;
  trx_sender : addr_t;
  trx_nonce : Z;
  trx_gas_price : Z;
  trx_gas : Z;
  trx_data_size : Z;
}.

#[export] Instance Transaction_eq_dec : EqDecision Transaction.
Proof. solve_decision. Defined.

Inductive TransactionStatus := Inserted | InsertedNonProposable | Known | Overflow.

#[export] Instance TransactionStatus_eq_dec : EqDecision TransactionStatus.
Proof. solve_decision. Defined.

(** The containers of the queue and the size of the data in them. *)
Record Pool := mkPool {
  account_nonce_transactions_ : gmap addr_t (gmap Z Transaction);
  queue_transactions_ : gmap trx_hash_t Transaction;
  queue_transactions_gas_prices_ : gmap Z Z;
  non_proposable_transactions_ : gmap trx_hash_t (Z * Transaction);
  data_size_ : Z;
}.

Record TransactionQueue := mkTransactionQueue {
  pool : Pool;
  known_txs_ : Expiration.ExpirationCache trx_hash_t;
  transaction_overflow_time_ : Z;
  kNonProposableTransactionsMaxSize : Z;
  kMaxSize : Z;
  kMaxDataSize : Z;
  kMaxSingleAccountTransactionsSize : Z;
}.

Definition kNonProposableTransactionsPeriodExpiryLimit : Z := 10.
Definition kNonProposableTransactionsLimitPercentage : Z := 20.
Definition kSingleAccountTransactionsLimitPercentage : Z := 5.
Definition kTransactionOverflowTimeLimit : Z := 600.

Definition emptyPool : Pool := mkPool ∅ ∅ ∅ ∅ 0.

(** The parameters of [known_txs_] are converted to [uint32_t]. *)
Definition newTransactionQueue (max_size : Z) : TransactionQueue :=
  mkTransactionQueue emptyPool
    (Expiration.newCache (Z.to_nat (u32 (u64 (max_size * 2)))) (Z.to_nat (u32 (max_size / 5))))
    0
    (u64 (max_size * kNonProposableTransactionsLimitPercentage) / 100)
    max_size
    (u64 (max_size * 1024))
    (u64 (max_size * kSingleAccountTransactionsLimitPercentage) / 100).

Definition with_pool (q : TransactionQueue) (p : Pool) : TransactionQueue :=
  mkTransactionQueue p (known_txs_ q) (transaction_overflow_time_ q)
    (kNonProposableTransactionsMaxSize q) (kMaxSize q) (kMaxDataSize q)
    (kMaxSingleAccountTransactionsSize q).

Definition with_known (q : TransactionQueue) (k : Expiration.ExpirationCache trx_hash_t) : TransactionQueue :=
  mkTransactionQueue (pool q) k (transaction_overflow_time_ q)
    (kNonProposableTransactionsMaxSize q) (kMaxSize q) (kMaxDataSize q)
    (kMaxSingleAccountTransactionsSize q).

Definition with_overflow_time (q : TransactionQueue) (now : Z) : TransactionQueue :=
  mkTransactionQueue (pool q) (known_txs_ q) now
    (kNonProposableTransactionsMaxSize q) (kMaxSize q) (kMaxDataSize q)
    (kMaxSingleAccountTransactionsSize q).

Definition queue_size (p : Pool) : Z := Z.of_nat (size (queue_transactions_ p)).

Definition addTransaction (p : Pool) (transaction : Transaction) (proposable : bool)
    (last_block_number : Z) : Pool :=
  if proposable then
    match queue_transactions_ p !! trx_hash transaction with
    | Some _ => p
    | None =>
        mkPool (account_nonce_transactions_ p)
          (<[trx_hash transaction := transaction]> (queue_transactions_ p))
          (<[trx_gas_price transaction :=
               u64 (default 0 (queue_transactions_gas_prices_ p !! trx_gas_price transaction)
                    + trx_gas transaction)]> (queue_transactions_gas_prices_ p))
          (non_proposable_transactions_ p)
          (u64 (data_size_ p + trx_data_size transaction))
    end
  else
    match non_proposable_transactions_ p !! trx_hash transaction with
    | Some _ => p
    | None =>
        mkPool (account_nonce_transactions_ p) (queue_transactions_ p)
          (queue_transactions_gas_prices_ p)
          (<[trx_hash transaction := (last_block_number, transaction)]> (non_proposable_transactions_ p))
          (u64 (data_size_ p + trx_data_size transaction))
    end.

Definition removeTransaction (p : Pool) (transaction : Transaction) (proposable : bool) : Pool * bool :=
  if proposable then
    match queue_transactions_ p !! trx_hash transaction with
    | None => (p, false)
    | Some _ =>
        let gas_price := trx_gas_price transaction in
        let gas_price_entry :=
          u64 (default 0 (queue_transactions_gas_prices_ p !! gas_price) - trx_gas transaction) in
        (mkPool (account_nonce_transactions_ p)
           (delete (trx_hash transaction) (queue_transactions_ p))
           (if gas_price_entry =? 0 then delete gas_price (queue_transactions_gas_prices_ p)
            else <[gas_price := gas_price_entry]> (queue_transactions_gas_prices_ p))
           (non_proposable_transactions_ p)
           (u64 (data_size_ p - trx_data_size transaction)), true)
    end
  else
    match non_proposable_transactions_ p !! trx_hash transaction with
    | None => (p, false)
    | Some _ =>
        (mkPool (account_nonce_transactions_ p) (queue_transactions_ p)
           (queue_transactions_gas_prices_ p)
           (delete (trx_hash transaction) (non_proposable_transactions_ p))
           (u64 (data_size_ p - trx_data_size transaction)), true)
    end.

Definition pool_contains (p : Pool) (hash : trx_hash_t) : bool :=
  bool_decide (is_Some (queue_transactions_ p !! hash)) ||
  bool_decide (is_Some (non_proposable_transactions_ p !! hash)).

Definition pool_get (p : Pool) (hash : trx_hash_t) : option Transaction :=
  match queue_transactions_ p !! hash with
  | Some t => Some t
  | None => snd <$> (non_proposable_transactions_ p !! hash)
  end.

(** ** Ordering by gas price *)

(** The transactions of an account in nonce order. *)
Definition nonce_order (account : gmap Z Transaction) : list Transaction := (map_items account).*2.

(** [head_transactions.insert]: behind the entries of the same gas price. *)
Fixpoint insert_head (t : Transaction) (heads : list Transaction) : list Transaction :=
  match heads with
  | [] => [t]
  | h :: heads' =>
      if trx_gas_price h <? trx_gas_price t then t :: heads else h :: insert_head t heads'
  end.

(** The loop that takes the head with the highest price and replaces it by the
    sender's next transaction; [ret] is the result so far. *)
Fixpoint take_heads (fuel : nat) (count : Z) (heads : list Transaction)
    (iterators : gmap addr_t (list Transaction)) (ret : list Transaction) : option (list Transaction) :=
  match heads with
  | [] => Some ret
  | head_trx :: heads' =>
      let ret := ret ++ [head_trx] in
      if Z.of_nat (length ret) =? count then Some ret
      else
        match fuel with
        | O => None
        | S fuel =>
            match default [] (iterators !! trx_sender head_trx) with
            | [] => take_heads fuel count heads' iterators ret
            | next :: rest =>
                take_heads fuel count (insert_head next heads')
                  (<[trx_sender head_trx := rest]> iterators) ret
            end
        end
  end.

(** The first loop: the first transaction of each account becomes a head; an
    account without transactions would be dereferenced past its end. *)
Fixpoint init_heads (accounts : list (addr_t * gmap Z Transaction)) (heads : list Transaction)
    (iterators : gmap addr_t (list Transaction)) : outcome (list Transaction * gmap addr_t (list Transaction)) :=
  match accounts with
  | [] => Done (heads, iterators)
  | (a, account) :: accounts' =>
      match nonce_order account with
      | [] => Undefined
      | t :: rest => init_heads accounts' (insert_head t heads) (<[a := rest]> iterators)
      end
  end.

Definition account_count (accounts : list (addr_t * gmap Z Transaction)) : nat :=
  sum_list_with (fun e => size e.2) accounts.

Section queue.
(** The iteration order of the hash map [iterators], which the language leaves
    open. *)
Context (iterate : gmap addr_t (gmap Z Transaction) -> list (addr_t * gmap Z Transaction)).

Definition getOrderedTransactions (p : Pool) (count : Z) : outcome (list Transaction) :=
  let accounts := iterate (account_nonce_transactions_ p) in
  let* (heads, iterators) := init_heads accounts [] ∅ in
  match take_heads (account_count accounts) count heads iterators [] with
  | Some ret => Done ret
  | None => Undefined
  end.

Definition getAllTransactions (p : Pool) : list (list Transaction) :=
  (fun e => nonce_order e.2) <$> map_to_list (account_nonce_transactions_ p).

(** ** Modification *)

Definition pool_erase (p : Pool) (transaction : Transaction) : outcome (Pool * bool) :=
  match queue_transactions_ p !! trx_hash transaction with
  | None => Done (removeTransaction p transaction false)
  | Some stored =>
      match account_nonce_transactions_ p !! trx_sender stored with
      | None => AssertFailed
      | Some account =>
          match account !! trx_nonce stored with
          | None => AssertFailed
          | Some t =>
              let* _ := oassert (trx_hash transaction =? trx_hash t) in
              let account := delete (trx_nonce stored) account in
              let accounts :=
                if decide (account = ∅) then delete (trx_sender stored) (account_nonce_transactions_ p)
                else <[trx_sender stored := account]> (account_nonce_transactions_ p) in
              Done (removeTransaction
                (mkPool accounts (queue_transactions_ p) (queue_transactions_gas_prices_ p)
                   (non_proposable_transactions_ p) (data_size_ p)) transaction true)
          end
      end
  end.

(** [account_nonce_transactions_[sender][nonce] = transaction] *)
Definition set_account (p : Pool) (transaction : Transaction) : Pool :=
  let account := default ∅ (account_nonce_transactions_ p !! trx_sender transaction) in
  mkPool (<[trx_sender transaction := <[trx_nonce transaction := transaction]> account]>
            (account_nonce_transactions_ p))
    (queue_transactions_ p) (queue_transactions_gas_prices_ p) (non_proposable_transactions_ p)
    (data_size_ p).

(** The eviction loop over the worst transactions. *)
Fixpoint evict_worst (worst : list Transaction) (counter limit now : Z) (q : TransactionQueue) :
    outcome TransactionQueue :=
  match worst with
  | [] => Done q
  | t :: worst' =>
      let* (p, _) := pool_erase (pool q) t in
      let q := with_known (with_pool (with_overflow_time q now) p) (Expiration.erase (known_txs_ q) (trx_hash t)) in
      let counter := u32 (counter + 1) in
      if limit <=? counter then Done q else evict_worst worst' counter limit now q
  end.

Definition know (q : TransactionQueue) (hash : trx_hash_t) : outcome TransactionQueue :=
  let* (known, _) := Expiration.insert (known_txs_ q) hash in Done (with_known q known).

(** The placement of a proposable transaction; [None]: the account is full. *)
Definition place (q : TransactionQueue) (transaction : Transaction) (last_block_number : Z) :
    outcome (option Pool) :=
  let p := pool q in
  match account_nonce_transactions_ p !! trx_sender transaction with
  | None => Done (Some (addTransaction (set_account p transaction) transaction true 0))
  | Some account =>
      if Z.of_nat (size account) =? kMaxSingleAccountTransactionsSize q then Done None
      else
        match account !! trx_nonce transaction with
        | None => Done (Some (addTransaction (set_account p transaction) transaction true 0))
        | Some old =>
            let* _ := oassert (negb (trx_hash old =? trx_hash transaction)) in
            if trx_gas_price old <? trx_gas_price transaction then
              let p := (removeTransaction p old true).1 in
              let p := addTransaction p old false last_block_number in
              Done (Some (addTransaction (set_account p transaction) transaction true 0))
            else Done (Some (addTransaction p transaction false last_block_number))
        end
  end.

Definition insert (q : TransactionQueue) (transaction : Transaction) (proposable : bool)
    (last_block_number now : Z) : outcome (TransactionQueue * TransactionStatus) :=
  let tx_hash := trx_hash transaction in
  if pool_contains (pool q) tx_hash then Done (q, Known)
  else if kMaxDataSize q <? data_size_ (pool q) then Done (with_overflow_time q now, Overflow)
  else if proposable then
    let* placed := place q transaction last_block_number in
    match placed with
    | None => Done (with_overflow_time q now, Overflow)
    | Some p =>
        let q := with_pool q p in
        let qsize := queue_size p in
        if kMaxSize q <? qsize then
          let* ordered_transactions := getOrderedTransactions p qsize in
          let* q := evict_worst (reverse ordered_transactions) 0 (qsize / 100) now q in
          if bool_decide (queue_transactions_ (pool q) !! tx_hash = None) then Done (q, Overflow)
          else let* q := know q tx_hash in Done (q, Inserted)
        else let* q := know q tx_hash in Done (q, Inserted)
    end
  else if Z.of_nat (size (non_proposable_transactions_ (pool q))) <=? kNonProposableTransactionsMaxSize q then
    let q := with_pool q (addTransaction (pool q) transaction false last_block_number) in
    let* q := know q tx_hash in Done (q, InsertedNonProposable)
  else Done (with_overflow_time q now, Overflow).
End queue.

(** One step of the loop of [blockFinalized]; the overload of
    [removeTransaction] for iterators is inlined. *)
Definition finalize_entry (block_number : Z) (q : TransactionQueue) (e : trx_hash_t * (Z * Transaction)) :
    TransactionQueue :=
  if u64 (e.2.1 + kNonProposableTransactionsPeriodExpiryLimit) <? block_number then
    let p := pool q in
    with_known
      (with_pool q
         (mkPool (account_nonce_transactions_ p) (queue_transactions_ p) (queue_transactions_gas_prices_ p)
            (delete e.1 (non_proposable_transactions_ p)) (u64 (data_size_ p - trx_data_size e.2.2))))
      (Expiration.erase (known_txs_ q) e.1)
  else q.

Definition blockFinalized (q : TransactionQueue) (block_number : Z) : TransactionQueue :=
  foldl (finalize_entry block_number) q (map_to_list (non_proposable_transactions_ (pool q))).

(** The inner loop of [purge]: it returns what is left of the account. *)
Fixpoint purge_account (items : list (Z * Transaction)) (account_nonce : Z)
    (account : gmap Z Transaction) (p : Pool) : gmap Z Transaction * Pool :=
  match items with
  | [] => (account, p)
  | (nonce, t) :: items' =>
      if nonce <? account_nonce then
        purge_account items' account_nonce (delete nonce account) (removeTransaction p t true).1
      else (account, p)
  end.

Definition purge_step (get_nonce : addr_t -> option Z) (p : Pool) (e : addr_t * gmap Z Transaction) : Pool :=
  match get_nonce e.1 with
  | None => p
  | Some account_nonce =>
      let (account, p) := purge_account (map_items e.2) account_nonce e.2 p in
      mkPool
        (if decide (account = ∅) then delete e.1 (account_nonce_transactions_ p)
         else <[e.1 := account]> (account_nonce_transactions_ p))
        (queue_transactions_ p) (queue_transactions_gas_prices_ p) (non_proposable_transactions_ p)
        (data_size_ p)
  end.

(** [get_nonce] is the nonce of the account in the final chain. *)
Definition purge (get_nonce : addr_t -> option Z) (q : TransactionQueue) : TransactionQueue :=
  with_pool q (foldl (purge_step get_nonce) (pool q) (map_to_list (account_nonce_transactions_ (pool q)))).

Definition nonProposableTransactionsOverTheLimit (q : TransactionQueue) : bool :=
  kNonProposableTransactionsMaxSize q <=? Z.of_nat (size (non_proposable_transactions_ (pool q))).

Definition markTransactionKnown (q : TransactionQueue) (hash : trx_hash_t) : outcome TransactionQueue := know q hash.

Definition isTransactionKnown (q : TransactionQueue) (hash : trx_hash_t) : bool :=
  Expiration.contains (known_txs_ q) hash.

Definition transactionsDropped (q : TransactionQueue) (now : Z) : bool :=
  now - transaction_overflow_time_ q <? kTransactionOverflowTimeLimit.

Fixpoint min_gas_price (items : list (Z * Z)) (limit total_gas : Z) : Z :=
  match items with
  | [] => 1
  | (gas_price, gas) :: items' =>
      let total_gas := u64 (total_gas + gas) in
      if limit <=? total_gas then u256 (gas_price + 1) else min_gas_price items' limit total_gas
  end.

Definition getMinGasPriceForBlockInclusion (p : Pool) (limit : Z) : Z :=
  min_gas_price (reverse (map_items (queue_transactions_gas_prices_ p))) limit 0.
