(* ===== verification/TransactionPool.v ===== *)
(** * Correctness of the transaction pool

    The invariant that ties the indexes of [TransactionQueue] together, its
    preservation by every operation, and what the operations return. *)

From S2P Require Import Prelude Votes Caches TransactionQueue.
Local Open Scope Z_scope.
Local Open Scope outcome_scope.

#[local] Arguments removeTransaction : simpl never.
#[local] Arguments addTransaction : simpl never.

(** ** The invariant *)

Definition at_nonce (accounts : gmap addr_t (gmap Z Transaction)) (a : addr_t) (n : Z) : option Transaction :=
  accounts !! a ≫= fun account => account !! n.

(** Gas of the queued transactions with one gas price, and size of all data. *)
Definition gas_at (price : Z) (queue : gmap trx_hash_t Transaction) : Z :=
  map_sum (fun t => if trx_gas_price t =? price then trx_gas t else 0) queue.

Definition data_in (p : Pool) : Z :=
  map_sum trx_data_size (queue_transactions_ p) +
  map_sum (fun e => trx_data_size e.2) (non_proposable_transactions_ p).

(** The running totals equal the sums they stand for, at their width. *)
Record counters_ok (p : Pool) : Prop := {
  c_gas : forall price, default 0 (queue_transactions_gas_prices_ p !! price) =
            u64 (gas_at price (queue_transactions_ p));
  c_data : data_size_ p = u64 (data_in p);
}.

(** The index by sender and nonce and the index by hash hold the same
    transactions, and no account is empty. *)
Record index_ok (accounts : gmap addr_t (gmap Z Transaction)) (queue : gmap trx_hash_t Transaction) : Prop := {
  i_queue : forall h t, queue !! h = Some t <->
              trx_hash t = h /\ at_nonce accounts (trx_sender t) (trx_nonce t) = Some t;
  i_place : forall a n t, at_nonce accounts a n = Some t -> trx_sender t = a /\ trx_nonce t = n;
  i_nonempty : forall a, accounts !! a <> Some ∅;
}.

Record pool_wf (p : Pool) : Prop := {
  wf_counters : counters_ok p;
  wf_index : index_ok (account_nonce_transactions_ p) (queue_transactions_ p);
  wf_np : forall h b t, non_proposable_transactions_ p !! h = Some (b, t) -> trx_hash t = h;
  wf_disjoint : forall h, is_Some (queue_transactions_ p !! h) -> non_proposable_transactions_ p !! h = None;
}.

(** Two transactions with the hash of [t] are the same transaction. *)
Definition no_collision (p : Pool) (t : Transaction) : Prop :=
  forall t', pool_get p (trx_hash t) = Some t' -> t' = t.

(** ** The counters *)

Lemma gas_at_insert price queue h t :
  queue !! h = None ->
  gas_at price (<[h := t]> queue) =
    (if trx_gas_price t =? price then trx_gas t else 0) + gas_at price queue.
Proof. intros. unfold gas_at. by rewrite map_sum_insert. Qed.

Lemma gas_at_delete price queue h t :
  queue !! h = Some t ->
  gas_at price (delete h queue) =
    gas_at price queue - (if trx_gas_price t =? price then trx_gas t else 0).
Proof. intros E. unfold gas_at. rewrite (map_sum_delete _ queue h t E). lia. Qed.

Lemma add_counters p t proposable n : counters_ok p -> counters_ok (addTransaction p t proposable n).
Proof.
  intros [Hg Hd]. unfold addTransaction. destruct proposable; case_match; try done; split; simpl.
  - intros price. rewrite gas_at_insert by done. destruct (Z.eqb_spec (trx_gas_price t) price) as [<-|Hne].
    + rewrite lookup_insert_eq. simpl. rewrite Hg, wrap_add_l. f_equal. lia.
    + rewrite lookup_insert_ne by done. rewrite Hg. f_equal.
  - unfold data_in. simpl. rewrite map_sum_insert by done. rewrite Hd, wrap_add_l. unfold data_in. f_equal. lia.
  - done.
  - unfold data_in. simpl. rewrite map_sum_insert by done. rewrite Hd, wrap_add_l. unfold data_in. simpl. f_equal. lia.
Qed.

Lemma remove_counters p t (proposable : bool) :
  counters_ok p ->
  (if proposable then forall t', queue_transactions_ p !! trx_hash t = Some t' -> t' = t
   else forall b t', non_proposable_transactions_ p !! trx_hash t = Some (b, t') -> t' = t) ->
  counters_ok (removeTransaction p t proposable).1.
Proof.
  intros [Hg Hd] Hsame. unfold removeTransaction.
  destruct proposable; case_match eqn:E; try done; split; simpl.
  - rewrite (Hsame _ eq_refl) in E.
    intros price. rewrite (gas_at_delete price _ _ t E). set (entry := u64 _).
    assert (default 0 ((if entry =? 0 then delete (trx_gas_price t) (queue_transactions_gas_prices_ p)
      else <[trx_gas_price t:=entry]> (queue_transactions_gas_prices_ p)) !! price) =
      if trx_gas_price t =? price then entry else default 0 (queue_transactions_gas_prices_ p !! price)) as ->.
    { destruct (Z.eqb_spec entry 0) as [->|]; destruct (Z.eqb_spec (trx_gas_price t) price) as [<-|];
        rewrite ?lookup_delete_eq, ?lookup_insert_eq, ?lookup_delete_ne, ?lookup_insert_ne by done; done. }
    subst entry. destruct (Z.eqb_spec (trx_gas_price t) price) as [<-|Hne].
    + rewrite Hg, wrap_sub_l. done.
    + rewrite Hg. f_equal. lia.
  - rewrite (Hsame _ eq_refl) in E. unfold data_in. simpl. rewrite Hd, wrap_sub_l. unfold data_in. f_equal.
    rewrite (map_sum_delete trx_data_size _ _ t E). lia.
  - done.
  - destruct p0 as [b t']. rewrite (Hsame _ _ eq_refl) in E.
    unfold data_in. simpl. rewrite Hd, wrap_sub_l. unfold data_in. f_equal.
    rewrite (map_sum_delete (fun e => trx_data_size e.2) (non_proposable_transactions_ p) _ (b, t) E).
    simpl. lia.
Qed.

(** What the two helpers do to the containers. *)
Lemma add_containers p t n :
  account_nonce_transactions_ (addTransaction p t true n) = account_nonce_transactions_ p /\
  queue_transactions_ (addTransaction p t true n) =
    (match queue_transactions_ p !! trx_hash t with
     | Some _ => queue_transactions_ p | None => <[trx_hash t := t]> (queue_transactions_ p) end) /\
  non_proposable_transactions_ (addTransaction p t true n) = non_proposable_transactions_ p.
Proof. unfold addTransaction. by case_match. Qed.

Lemma add_np_containers p t n :
  account_nonce_transactions_ (addTransaction p t false n) = account_nonce_transactions_ p /\
  queue_transactions_ (addTransaction p t false n) = queue_transactions_ p /\
  non_proposable_transactions_ (addTransaction p t false n) =
    (match non_proposable_transactions_ p !! trx_hash t with
     | Some _ => non_proposable_transactions_ p
     | None => <[trx_hash t := (n, t)]> (non_proposable_transactions_ p) end).
Proof. unfold addTransaction. by case_match. Qed.

Lemma remove_containers p t :
  account_nonce_transactions_ (removeTransaction p t true).1 = account_nonce_transactions_ p /\
  queue_transactions_ (removeTransaction p t true).1 = delete (trx_hash t) (queue_transactions_ p) /\
  non_proposable_transactions_ (removeTransaction p t true).1 = non_proposable_transactions_ p.
Proof.
  unfold removeTransaction. case_match; [done|]. simpl. split_and!; try done.
  by rewrite delete_id.
Qed.

Lemma remove_np_containers p t :
  account_nonce_transactions_ (removeTransaction p t false).1 = account_nonce_transactions_ p /\
  queue_transactions_ (removeTransaction p t false).1 = queue_transactions_ p /\
  non_proposable_transactions_ (removeTransaction p t false).1 =
    delete (trx_hash t) (non_proposable_transactions_ p).
Proof.
  unfold removeTransaction. case_match; [done|]. simpl. split_and!; try done.
  by rewrite delete_id.
Qed.

Lemma remove_result p t :
  (removeTransaction p t true).2 = bool_decide (is_Some (queue_transactions_ p !! trx_hash t)).
Proof. unfold removeTransaction. by case_match. Qed.

Lemma np_insert_hash (np : gmap trx_hash_t (Z * Transaction)) n t :
  (forall h b t', np !! h = Some (b, t') -> trx_hash t' = h) ->
  forall h b t', <[trx_hash t := (n, t)]> np !! h = Some (b, t') -> trx_hash t' = h.
Proof. intros Hnp h b t' [[<- [= <- <-]]|[_ E]]%lookup_insert_Some; [done|by eapply Hnp]. Qed.

(** ** The index *)

Lemma at_nonce_insert accounts a account a' n :
  at_nonce (<[a := account]> accounts) a' n =
    if decide (a = a') then account !! n else at_nonce accounts a' n.
Proof. unfold at_nonce. rewrite lookup_insert. by case_decide. Qed.

Lemma at_nonce_delete accounts a a' n :
  at_nonce (delete a accounts) a' n = if decide (a = a') then None else at_nonce accounts a' n.
Proof. unfold at_nonce. rewrite lookup_delete. by case_decide. Qed.

Lemma at_nonce_default accounts a n : default ∅ (accounts !! a) !! n = at_nonce accounts a n.
Proof. unfold at_nonce. destruct (accounts !! a); [done|]. simpl. by rewrite lookup_empty. Qed.

(** Putting a transaction at its place. *)
Lemma at_nonce_set p t a n :
  at_nonce (account_nonce_transactions_ (set_account p t)) a n =
    if decide ((a, n) = (trx_sender t, trx_nonce t)) then Some t
    else at_nonce (account_nonce_transactions_ p) a n.
Proof.
  unfold set_account. simpl. rewrite at_nonce_insert. case_decide as Ha.
  - subst a. rewrite lookup_insert. destruct (decide (trx_nonce t = n)) as [<-|Hn].
    + by rewrite decide_True.
    + rewrite decide_False by congruence. by rewrite at_nonce_default.
  - by rewrite decide_False by congruence.
Qed.

(** The account entry after the erasure of one nonce, as [erase] leaves it. *)
Definition drop_nonce (accounts : gmap addr_t (gmap Z Transaction)) (a : addr_t) (account : gmap Z Transaction) :
    gmap addr_t (gmap Z Transaction) :=
  if decide (account = ∅) then delete a accounts else <[a := account]> accounts.

Lemma at_nonce_drop accounts a account a' n :
  at_nonce (drop_nonce accounts a account) a' n =
    if decide (a = a') then account !! n else at_nonce accounts a' n.
Proof.
  unfold drop_nonce. case_decide as E.
  - rewrite at_nonce_delete. case_decide; [|done]. by rewrite E, lookup_empty.
  - apply at_nonce_insert.
Qed.

Lemma drop_nonce_nonempty accounts a account :
  (forall a, accounts !! a <> Some ∅) -> forall a', drop_nonce accounts a account !! a' <> Some ∅.
Proof.
  intros Hne a'. unfold drop_nonce. case_decide as E.
  - rewrite lookup_delete. by case_decide.
  - rewrite lookup_insert. case_decide; [congruence|done].
Qed.

(** Adding a transaction at a free place, or over [old]. *)
Lemma index_insert accounts accounts' queue t :
  index_ok accounts queue -> queue !! trx_hash t = None ->
  (forall a n, at_nonce accounts' a n =
     if decide ((a, n) = (trx_sender t, trx_nonce t)) then Some t else at_nonce accounts a n) ->
  (forall a, accounts' !! a <> Some ∅) ->
  index_ok accounts' (<[trx_hash t := t]>
    (match at_nonce accounts (trx_sender t) (trx_nonce t) with
     | Some old => delete (trx_hash old) queue | None => queue end)).
Proof.
  intros [Hq Hp Hne] Hfree Hacc Hne'.
  assert (forall h t', h <> trx_hash t ->
    match at_nonce accounts (trx_sender t) (trx_nonce t) with
    | Some old => delete (trx_hash old) queue | None => queue end !! h = Some t' <->
    queue !! h = Some t' /\ (trx_sender t', trx_nonce t') <> (trx_sender t, trx_nonce t)) as Hrest.
  { intros h t' Hh. destruct (at_nonce accounts (trx_sender t) (trx_nonce t)) as [old|] eqn:E.
    - destruct (Hp _ _ _ E) as [Ho1 Ho2]. rewrite lookup_delete_Some. split.
      + intros [Hho Ht']. split; [done|]. intros Heq. injection Heq as Hs Hn. apply Hho.
        apply Hq in Ht' as [Hh' Ht']. rewrite Hs, Hn, E in Ht'. by simplify_eq.
      + intros [Ht' Heq]. split; [|done]. intros <-. apply Heq.
        assert (queue !! trx_hash old = Some old) as Hold by (apply Hq; by rewrite Ho1, Ho2).
        assert (t' = old) by congruence. subst. by rewrite Ho1, Ho2.
    - split; [|by intros []]. intros Ht'. split; [done|]. intros Heq. injection Heq as Hs Hn.
      apply Hq in Ht' as [_ Ht']. by rewrite Hs, Hn, E in Ht'. }
  split.
  - intros h t'. destruct (decide (h = trx_hash t)) as [->|Hh].
    + rewrite lookup_insert_eq. rewrite Hacc. split.
      * intros [= <-]. by rewrite decide_True.
      * intros [Hht Hat]. case_decide as D; [done|]. exfalso.
        assert (queue !! trx_hash t = Some t') by (apply Hq; split; [done|done]). congruence.
    + rewrite lookup_insert_ne by done. rewrite Hrest by done. rewrite Hacc, Hq. case_decide as D.
      * split; [by intros [_ ?]|]. intros [Hht [= ->]]. by destruct Hh.
      * tauto.
  - intros a n t'. rewrite Hacc. case_decide as D; [|by apply Hp]. intros [= <-]. by simplify_eq.
  - done.
Qed.

(** Removing the transaction at its place. *)
Lemma index_delete accounts accounts' queue t :
  index_ok accounts queue -> queue !! trx_hash t = Some t ->
  (forall a n, at_nonce accounts' a n =
     if decide ((a, n) = (trx_sender t, trx_nonce t)) then None else at_nonce accounts a n) ->
  (forall a, accounts' !! a <> Some ∅) ->
  index_ok accounts' (delete (trx_hash t) queue).
Proof.
  intros [Hq Hp Hne] Ht Hacc Hne'. split; [| |done].
  - intros h t'. rewrite lookup_delete_Some, Hacc, Hq. apply Hq in Ht as [_ Ht]. split.
    + intros (Hh & Hht & Hat). split; [done|]. rewrite decide_False; [done|].
      intros Heq. injection Heq as Hs Hn. rewrite Hs, Hn, Ht in Hat. congruence.
    + intros [Hht Hat]. case_decide as D; [done|]. split_and!; [|done|done].
      intros Heq. apply D.
      assert (queue !! h = Some t') as H1 by (apply Hq; done).
      assert (queue !! h = Some t) as H2 by (apply Hq; done).
      by simplify_eq.
  - intros a n t'. rewrite Hacc. case_decide; [done|]. apply Hp.
Qed.

(** ** Erasing *)

Lemma pool_contains_false p h :
  pool_contains p h = false <-> queue_transactions_ p !! h = None /\ non_proposable_transactions_ p !! h = None.
Proof.
  unfold pool_contains. rewrite orb_false_iff, !bool_decide_eq_false, !eq_None_not_Some. done.
Qed.

Lemma set_account_counters p t : counters_ok p -> counters_ok (set_account p t).
Proof. intros [Hg Hd]. by split. Qed.

Lemma no_collision_queue p t t' :
  no_collision p t -> queue_transactions_ p !! trx_hash t = Some t' -> t' = t.
Proof. intros Hc E. apply Hc. unfold pool_get. by rewrite E. Qed.

Lemma no_collision_np p t b t' :
  no_collision p t -> queue_transactions_ p !! trx_hash t = None ->
  non_proposable_transactions_ p !! trx_hash t = Some (b, t') -> t' = t.
Proof. intros Hc E E'. apply Hc. unfold pool_get. by rewrite E, E'. Qed.

Lemma pool_erase_effect p t :
  pool_wf p -> no_collision p t ->
  exists p', pool_erase p t = Done (p', pool_contains p (trx_hash t)) /\ pool_wf p' /\
    queue_transactions_ p' = delete (trx_hash t) (queue_transactions_ p) /\
    non_proposable_transactions_ p' = delete (trx_hash t) (non_proposable_transactions_ p).
Proof.
  intros [Hc Hi Hnp Hd] Hcol. unfold pool_erase.
  destruct (queue_transactions_ p !! trx_hash t) as [stored|] eqn:E.
  - pose proof (no_collision_queue p t stored Hcol E) as ->.
    pose proof (proj1 (i_queue _ _ Hi _ _) E) as [_ Hat]. unfold at_nonce in Hat.
    destruct (account_nonce_transactions_ p !! trx_sender t) as [account|] eqn:Ea; [|done]. simpl in Hat.
    rewrite Hat, Z.eqb_refl. simpl.
    fold (drop_nonce (account_nonce_transactions_ p) (trx_sender t) (delete (trx_nonce t) account)).
    set (p1 := mkPool _ _ _ _ _).
    destruct (remove_containers p1 t) as (R1 & R2 & R3).
    assert ((removeTransaction p1 t true).2 = true) as R4
      by (rewrite remove_result; unfold p1; cbn [queue_transactions_]; by rewrite E, bool_decide_true).
    exists (removeTransaction p1 t true).1. split_and!.
    + rewrite (surjective_pairing (removeTransaction p1 t true)) at 1. rewrite R4.
      unfold pool_contains. by rewrite E, bool_decide_true.
    + split.
      * apply remove_counters; [by destruct Hc|]. intros t'. simpl. rewrite E. by intros [= <-].
      * rewrite R1, R2. simpl. apply (index_delete (account_nonce_transactions_ p)); [done|done| |].
        -- intros a n. rewrite at_nonce_drop. destruct (decide (trx_sender t = a)) as [<-|Hne].
           ++ rewrite lookup_delete. destruct (decide (trx_nonce t = n)) as [<-|Hn].
              ** by rewrite decide_True.
              ** rewrite decide_False by congruence. unfold at_nonce. by rewrite Ea.
           ++ by rewrite decide_False by congruence.
        -- apply drop_nonce_nonempty, Hi.
      * rewrite R3. done.
      * rewrite R2, R3. intros h [t' [_ Ht']%lookup_delete_Some]. apply Hd. by exists t'.
    + by rewrite R2.
    + rewrite R3. simpl. rewrite delete_id; [done|]. apply Hd. by exists t.
  - destruct (remove_np_containers p t) as (R1 & R2 & R3).
    assert ((removeTransaction p t false).2 = pool_contains p (trx_hash t)) as R4.
    { unfold removeTransaction, pool_contains. rewrite E. simpl. by case_match. }
    exists (removeTransaction p t false).1. split_and!.
    + rewrite <- R4. by rewrite <- surjective_pairing.
    + split.
      * apply remove_counters; [done|]. intros b t'. by apply no_collision_np.
      * by rewrite R1, R2.
      * rewrite R3. intros h b t' [_ Ht']%lookup_delete_Some. by eapply Hnp.
      * rewrite R2, R3. intros h Hh. rewrite lookup_delete. case_decide; [done|]. by apply Hd.
    + rewrite R2. by rewrite delete_id.
    + by rewrite R3.
Qed.

(** ** Placing a new transaction *)

(** The containers after the placement of a transaction that is not in the pool. *)
Definition placed_queue (p : Pool) (t : Transaction) : gmap trx_hash_t Transaction :=
  match at_nonce (account_nonce_transactions_ p) (trx_sender t) (trx_nonce t) with
  | None => <[trx_hash t := t]> (queue_transactions_ p)
  | Some old =>
      if trx_gas_price old <? trx_gas_price t
      then <[trx_hash t := t]> (delete (trx_hash old) (queue_transactions_ p))
      else queue_transactions_ p
  end.

Definition placed_np (p : Pool) (t : Transaction) (n : Z) : gmap trx_hash_t (Z * Transaction) :=
  match at_nonce (account_nonce_transactions_ p) (trx_sender t) (trx_nonce t) with
  | None => non_proposable_transactions_ p
  | Some old =>
      if trx_gas_price old <? trx_gas_price t
      then <[trx_hash old := (n, old)]> (non_proposable_transactions_ p)
      else <[trx_hash t := (n, t)]> (non_proposable_transactions_ p)
  end.

(** [set_account] followed by [addTransaction], from a pool that may still list
    a replaced transaction in its account. *)
Lemma set_add_wf p0 p t :
  index_ok (account_nonce_transactions_ p0) (queue_transactions_ p0) ->
  queue_transactions_ p0 !! trx_hash t = None ->
  account_nonce_transactions_ p = account_nonce_transactions_ p0 ->
  queue_transactions_ p =
    (match at_nonce (account_nonce_transactions_ p0) (trx_sender t) (trx_nonce t) with
     | Some old => delete (trx_hash old) (queue_transactions_ p0) | None => queue_transactions_ p0 end) ->
  counters_ok p ->
  (forall h b t', non_proposable_transactions_ p !! h = Some (b, t') -> trx_hash t' = h) ->
  non_proposable_transactions_ p !! trx_hash t = None ->
  (forall h, is_Some (queue_transactions_ p !! h) -> non_proposable_transactions_ p !! h = None) ->
  let p' := addTransaction (set_account p t) t true 0 in
  pool_wf p' /\ queue_transactions_ p' = <[trx_hash t := t]> (queue_transactions_ p) /\
  non_proposable_transactions_ p' = non_proposable_transactions_ p.
Proof.
  intros Hi Hfree Ha Hq Hc Hnp Hnpt Hd p'.
  destruct (add_containers (set_account p t) t 0) as (A1 & A2 & A3). fold p' in A1, A2, A3.
  assert (queue_transactions_ p !! trx_hash t = None) as Hfree'.
  { rewrite Hq. destruct (at_nonce _ _ _); [|done]. rewrite lookup_delete. by case_decide. }
  simpl in A2. rewrite Hfree' in A2. split_and!; [|done|done]. split.
  - by apply add_counters, set_account_counters.
  - rewrite A1, A2, Hq. apply (index_insert (account_nonce_transactions_ p0)); [done|done| |].
    + intros a n. rewrite at_nonce_set. by rewrite Ha.
    + intros a. simpl. rewrite lookup_insert. case_decide.
      * intros [= Hemp]. by apply insert_non_empty in Hemp.
      * rewrite Ha. apply Hi.
  - rewrite A3. done.
  - rewrite A2, A3. intros h. simpl. rewrite lookup_insert. case_decide as D; [by subst|]. apply Hd.
Qed.

Lemma place_effect q t n :
  pool_wf (pool q) -> pool_contains (pool q) (trx_hash t) = false ->
  exists r, place q t n = Done r /\
    match r with
    | None => exists account, account_nonce_transactions_ (pool q) !! trx_sender t = Some account /\
        Z.of_nat (size account) = kMaxSingleAccountTransactionsSize q
    | Some p' => pool_wf p' /\ queue_transactions_ p' = placed_queue (pool q) t /\
        non_proposable_transactions_ p' = placed_np (pool q) t n
    end.
Proof.
  intros [Hc Hi Hnp Hd] [Hq0 Hn0]%pool_contains_false. unfold place, placed_queue, placed_np.
  pose proof (set_add_wf (pool q)) as Hset.
  destruct (account_nonce_transactions_ (pool q) !! trx_sender t) as [account|] eqn:Ea;
    unfold at_nonce in *; rewrite ?Ea; simpl.
  - destruct (Z.eqb_spec (Z.of_nat (size account)) (kMaxSingleAccountTransactionsSize q)) as [Hfull|_].
    { exists None. split; [done|]. by exists account. }
    destruct (account !! trx_nonce t) as [old|] eqn:Eo.
    + assert (queue_transactions_ (pool q) !! trx_hash old = Some old) as Hold.
      { destruct (i_place _ _ Hi (trx_sender t) (trx_nonce t) old) as [Hs Hn];
          [unfold at_nonce; by rewrite Ea|]. apply (i_queue _ _ Hi). unfold at_nonce.
        by rewrite Hs, Hn, Ea. }
      assert (trx_hash old <> trx_hash t) as Hne by congruence.
      destruct (Z.eqb_spec (trx_hash old) (trx_hash t)); [done|]. simpl.
      destruct (trx_gas_price old <? trx_gas_price t).
      * destruct (remove_containers (pool q) old) as (R1 & R2 & R3).
        set (p1 := (removeTransaction (pool q) old true).1) in *.
        destruct (add_np_containers p1 old n) as (A1 & A2 & A3).
        assert (non_proposable_transactions_ (pool q) !! trx_hash old = None) as Hnone
          by (apply Hd; by exists old).
        rewrite R3, Hnone in A3. set (p2 := addTransaction p1 old false n) in *.
        eexists. split; [done|]. destruct (Hset p2 t) as (W & Q & N).
        -- done.
        -- done.
        -- by rewrite A1, R1.
        -- rewrite A2, R2. by rewrite Ea; simpl; rewrite Eo.
        -- apply add_counters, remove_counters; [done|]. intros t'. rewrite Hold. by intros [= <-].
        -- rewrite A3. by apply np_insert_hash.
        -- rewrite A3. by rewrite lookup_insert_ne.
        -- rewrite A2, A3, R2. intros h [t' [Hh Ht']%lookup_delete_Some].
           rewrite lookup_insert_ne by done. apply Hd. by exists t'.
        -- rewrite Q, N, A2, A3, R2. done.
      * destruct (add_np_containers (pool q) t n) as (A1 & A2 & A3). rewrite Hn0 in A3.
        eexists. split; [done|]. split_and!; [|done|done]. split.
        -- by apply add_counters.
        -- by rewrite A1, A2.
        -- rewrite A3. by apply np_insert_hash.
        -- rewrite A2, A3. intros h Hh. rewrite lookup_insert. case_decide as D; [|by apply Hd].
           subst h. rewrite Hq0 in Hh. by destruct Hh.
    + eexists. split; [done|]. apply (Hset (pool q)); try done. by rewrite Ea; simpl; rewrite Eo.
  - eexists. split; [done|]. apply (Hset (pool q)); try done. by rewrite Ea.
Qed.
