(* ===== verification/TransactionOrder.v ===== *)
(** * The order in which transactions are proposed

    [TransactionQueue::getOrderedTransactions]: a merge of the accounts' nonce
    sequences that always takes the available transaction with the highest gas
    price.  The theorem holds for every iteration order of the hash map of
    accounts. *)

From S2P Require Import Prelude Votes Caches TransactionQueue TransactionPool.
Local Open Scope Z_scope.
Local Open Scope outcome_scope.

(** ** The merge without a limit *)

Fixpoint merge_heads (fuel : nat) (heads : list Transaction)
    (iterators : gmap addr_t (list Transaction)) : list Transaction :=
  match fuel, heads with
  | S fuel, head_trx :: heads' =>
      head_trx ::
        match default [] (iterators !! trx_sender head_trx) with
        | [] => merge_heads fuel heads' iterators
        | next :: rest =>
            merge_heads fuel (insert_head next heads') (<[trx_sender head_trx := rest]> iterators)
        end
  | _, _ => []
  end.

Definition waiting (iterators : gmap addr_t (list Transaction)) (a : addr_t) : list Transaction :=
  default [] (iterators !! a).

(** What is still to be taken. *)
Definition remaining (heads : list Transaction) (iterators : gmap addr_t (list Transaction)) : Z :=
  Z.of_nat (length heads) + map_sum (fun l => Z.of_nat (length l)) iterators.

Definition price_ge (t u : Transaction) : Prop := trx_gas_price u <= trx_gas_price t.

(** The state of the loop: one head per account with waiting transactions, the
    heads ordered by price. *)
Record merge_inv (heads : list Transaction) (iterators : gmap addr_t (list Transaction)) : Prop := {
  m_nodup : NoDup (trx_sender <$> heads);
  m_sender : forall a t, t ∈ waiting iterators a -> trx_sender t = a;
  m_head : forall a, waiting iterators a <> [] -> a ∈ trx_sender <$> heads;
  m_sorted : StronglySorted price_ge heads;
}.

Definition of_sender (a : addr_t) (l : list Transaction) : list Transaction :=
  filter (fun t => trx_sender t = a) l.

Lemma insert_head_perm t heads : insert_head t heads ≡ₚ t :: heads.
Proof.
  induction heads as [|h heads IH]; simpl; [done|]. case_match; [done|]. rewrite IH. constructor.
Qed.

Lemma insert_head_sorted t heads :
  StronglySorted price_ge heads -> StronglySorted price_ge (insert_head t heads).
Proof.
  induction 1 as [|h heads Hs IH Hh]; simpl; [repeat constructor|].
  destruct (Z.ltb_spec (trx_gas_price h) (trx_gas_price t)) as [Hlt|Hge].
  - constructor; [by constructor|]. constructor; [unfold price_ge; lia|].
    apply (Forall_impl _ _ _ Hh). unfold price_ge. intros. lia.
  - constructor; [done|]. rewrite insert_head_perm. by constructor.
Qed.

Lemma of_sender_perm_nil a (l : list Transaction) : a ∉ trx_sender <$> l -> of_sender a l = [].
Proof.
  intros Ha. apply list_filter_drops. intros t Ht <-. apply Ha, list_elem_of_fmap. by exists t.
Qed.

(** With distinct senders the filter of a permutation is the same list. *)
Lemma of_sender_unique a (l l' : list Transaction) :
  NoDup (trx_sender <$> l) -> l ≡ₚ l' -> of_sender a l = of_sender a l'.
Proof.
  intros Hnd Hp. assert (NoDup (trx_sender <$> l')) as Hnd' by (by rewrite <- Hp).
  assert (of_sender a l ≡ₚ of_sender a l') as Hperm by (unfold of_sender; by rewrite Hp).
  assert (forall l, NoDup (trx_sender <$> l) -> (length (of_sender a l) <= 1)%nat) as Hshort.
  { clear. induction l as [|t l IH]; intros Hnd; simpl in *; [lia|].
    apply NoDup_cons in Hnd as [Ht Hnd]. unfold of_sender. destruct (decide (trx_sender t = a)) as [<-|].
    - rewrite filter_cons_True by done. simpl. fold (of_sender (trx_sender t) l).
      rewrite of_sender_perm_nil by done. simpl. lia.
    - rewrite filter_cons_False by done. by apply IH. }
  pose proof (Hshort l Hnd) as H1. pose proof (Hshort l' Hnd') as H2.
  destruct (of_sender a l) as [|x [|]], (of_sender a l') as [|y [|]]; simpl in *; try lia; try done.
  - by apply Permutation_nil_l in Hperm.
  - symmetry in Hperm. by apply Permutation_nil_l in Hperm.
  - apply Permutation_singleton_r in Hperm. by simplify_eq.
Qed.

(** One round of the loop. *)
Definition next_heads (heads' : list Transaction) (iterators : gmap addr_t (list Transaction)) (a : addr_t) :
    list Transaction :=
  match waiting iterators a with [] => heads' | next :: _ => insert_head next heads' end.

Definition next_iterators (iterators : gmap addr_t (list Transaction)) (a : addr_t) :
    gmap addr_t (list Transaction) :=
  match waiting iterators a with [] => iterators | _ :: rest => <[a := rest]> iterators end.

Lemma merge_heads_step fuel h heads iterators :
  merge_heads (S fuel) (h :: heads) iterators =
    h :: merge_heads fuel (next_heads heads iterators (trx_sender h)) (next_iterators iterators (trx_sender h)).
Proof. simpl. unfold next_heads, next_iterators, waiting. f_equal. by case_match. Qed.

Lemma waiting_insert iterators a rest a' :
  waiting (<[a := rest]> iterators) a' = if decide (a = a') then rest else waiting iterators a'.
Proof. unfold waiting. rewrite lookup_insert. by case_decide. Qed.

Lemma next_inv h heads iterators :
  merge_inv (h :: heads) iterators ->
  merge_inv (next_heads heads iterators (trx_sender h)) (next_iterators iterators (trx_sender h)).
Proof.
  intros [Hnd Hs Hh Hsort]. simpl in Hnd. apply NoDup_cons in Hnd as [Hn Hnd].
  apply StronglySorted_inv in Hsort as [Hsort _].
  unfold next_heads, next_iterators. destruct (waiting iterators (trx_sender h)) as [|n rest] eqn:E.
  - split; [done|done| |done]. intros a Ha. specialize (Hh a Ha). simpl in Hh.
    apply elem_of_cons in Hh as [->|]; [by rewrite E in Ha|done].
  - assert (trx_sender n = trx_sender h) as Hsn by (apply Hs; rewrite E; set_solver). split.
    + rewrite insert_head_perm. simpl. rewrite Hsn. by constructor.
    + intros a t. rewrite waiting_insert. case_decide as D; [|by apply Hs]. intros Ht. apply Hs.
      subst a. rewrite E. set_solver.
    + intros a. rewrite waiting_insert, insert_head_perm. simpl. rewrite Hsn. intros Ha. case_decide as D.
      * subst a. set_solver.
      * specialize (Hh a Ha). simpl in Hh. done.
    + by apply insert_head_sorted.
Qed.

Lemma remaining_next h heads iterators :
  remaining (next_heads heads iterators (trx_sender h)) (next_iterators iterators (trx_sender h)) =
    remaining (h :: heads) iterators - 1.
Proof.
  unfold remaining, next_heads, next_iterators. unfold waiting at 1 2.
  destruct (iterators !! trx_sender h) as [[|n rest]|] eqn:E; simpl; [lia| |lia].
  rewrite (Permutation_length (insert_head_perm n heads)). simpl length.
  rewrite <- insert_delete_eq, map_sum_insert by apply lookup_delete_eq.
  rewrite (map_sum_delete _ iterators _ _ E). simpl length. lia.
Qed.

Lemma remaining_nonneg heads iterators : 0 <= remaining heads iterators.
Proof.
  unfold remaining. assert (0 <= map_sum (fun l => Z.of_nat (length l)) iterators); [|lia].
  apply map_sum_nonneg. intros. lia.
Qed.

(** Nothing is left to take when there is no head. *)
Lemma merge_inv_nil iterators a : merge_inv [] iterators -> waiting iterators a = [].
Proof.
  intros [_ _ Hh _]. destruct (waiting iterators a) eqn:E; [done|].
  exfalso. specialize (Hh a). rewrite E in Hh. simpl in Hh. set_solver.
Qed.

(** ** Each account in nonce order *)

Lemma merge_of_sender fuel heads iterators a :
  merge_inv heads iterators -> remaining heads iterators <= Z.of_nat fuel ->
  of_sender a (merge_heads fuel heads iterators) = of_sender a heads ++ waiting iterators a.
Proof.
  revert heads iterators. induction fuel as [|fuel IH]; intros heads iterators Hinv Hf.
  - destruct heads as [|h heads].
    + simpl. by rewrite (merge_inv_nil _ a Hinv).
    + pose proof (remaining_next h heads iterators).
      pose proof (remaining_nonneg (next_heads heads iterators (trx_sender h)) (next_iterators iterators (trx_sender h))). lia.
  - destruct heads as [|h heads]; [simpl; by rewrite (merge_inv_nil _ a Hinv)|].
    rewrite merge_heads_step.
    pose proof (next_inv _ _ _ Hinv) as Hinv'.
    pose proof (remaining_next h heads iterators) as Hrem.
    pose proof (IH _ _ Hinv' ltac:(lia)) as IH'.
    destruct Hinv as [Hnd Hs Hh Hsort]. simpl in Hnd. apply NoDup_cons in Hnd as [Hn Hnd].
    unfold of_sender at 1 2. destruct (decide (trx_sender h = a)) as [<-|Hne].
    + rewrite !filter_cons_True by done. fold (of_sender (trx_sender h) heads).
      rewrite of_sender_perm_nil by done.
      match goal with |- h :: filter _ ?m = _ => change (h :: of_sender (trx_sender h) m = [h] ++ waiting iterators (trx_sender h)) end.
      rewrite IH'. unfold next_heads, next_iterators.
      destruct (waiting iterators (trx_sender h)) as [|n rest] eqn:E.
      * by rewrite of_sender_perm_nil, E.
      * rewrite waiting_insert, decide_True by done.
        assert (trx_sender n = trx_sender h) as Hsn by (apply Hs; rewrite E; set_solver).
        rewrite (of_sender_unique _ _ (n :: heads)); [| |apply insert_head_perm].
        -- unfold of_sender. rewrite filter_cons_True by done. fold (of_sender (trx_sender h) heads).
           by rewrite of_sender_perm_nil.
        -- rewrite insert_head_perm. simpl. rewrite Hsn. by constructor.
    + rewrite !filter_cons_False by done.
      match goal with |- filter _ ?m = _ => change (of_sender a m = of_sender a heads ++ waiting iterators a) end.
      rewrite IH'. unfold next_heads, next_iterators.
      destruct (waiting iterators (trx_sender h)) as [|n rest] eqn:E; [done|].
      rewrite waiting_insert, decide_False by done. f_equal.
      assert (trx_sender n = trx_sender h) as Hsn by (apply Hs; rewrite E; set_solver).
      rewrite (of_sender_unique _ _ (n :: heads)); [| |apply insert_head_perm].
      -- unfold of_sender. by rewrite filter_cons_False by congruence.
      -- rewrite insert_head_perm. simpl. rewrite Hsn. by constructor.
Qed.

(** ** The highest price first *)

(** The first transaction of an account in the result was a head. *)
Lemma merge_first_is_head fuel heads iterators pre t post :
  merge_inv heads iterators -> merge_heads fuel heads iterators = pre ++ t :: post ->
  (forall y, y ∈ pre -> trx_sender y <> trx_sender t) -> t ∈ heads.
Proof.
  revert heads iterators pre. induction fuel as [|fuel IH]; intros heads iterators pre Hinv Hm Hpre.
  - by destruct pre.
  - destruct heads as [|h heads]; [by destruct pre|]. rewrite merge_heads_step in Hm.
    destruct pre as [|y pre]; injection Hm as -> Hm; [set_solver|].
    apply elem_of_cons. right.
    assert (trx_sender y <> trx_sender t) as Hne by (apply Hpre; set_solver).
    assert (t ∈ next_heads heads iterators (trx_sender y)) as Ht.
    { eapply IH; [by apply next_inv|done|]. intros z Hz. apply Hpre. set_solver. }
    unfold next_heads in Ht. destruct (waiting iterators (trx_sender y)) as [|n rest] eqn:E; [done|].
    rewrite insert_head_perm in Ht. apply elem_of_cons in Ht as [->|]; [|done]. exfalso. apply Hne.
    symmetry. apply (m_sender _ _ Hinv). rewrite E. set_solver.
Qed.

(** A transaction that could have been taken instead of [x] is not more
    expensive than [x]. *)
Lemma merge_greedy fuel heads iterators pre x mid t post :
  merge_inv heads iterators ->
  merge_heads fuel heads iterators = pre ++ x :: mid ++ t :: post ->
  (forall y, y ∈ x :: mid -> trx_sender y <> trx_sender t) ->
  trx_gas_price t <= trx_gas_price x.
Proof.
  revert heads iterators pre. induction fuel as [|fuel IH]; intros heads iterators pre Hinv Hm Hmid.
  - by destruct pre.
  - destruct heads as [|h heads]; [by destruct pre|]. destruct pre as [|y pre].
    + assert (t ∈ h :: heads) as Ht
        by (eapply (merge_first_is_head (S fuel) _ _ (x :: mid) t post Hinv); [exact Hm|done]).
      rewrite merge_heads_step in Hm. injection Hm as -> _.
      apply elem_of_cons in Ht as [->|Ht]; [lia|].
      pose proof (m_sorted _ _ Hinv) as Hs. apply StronglySorted_inv in Hs as [_ Hs].
      rewrite Forall_forall in Hs. by apply Hs.
    + rewrite merge_heads_step in Hm. injection Hm as -> Hm. eapply IH; [by apply next_inv|exact Hm|done].
Qed.

(** ** The loop with its limit *)

Lemma take_heads_merge fuel count heads iterators ret :
  remaining heads iterators <= Z.of_nat fuel ->
  take_heads fuel count heads iterators ret =
    Some (ret ++ (if Z.of_nat (length ret) <? count
                  then take (Z.to_nat (count - Z.of_nat (length ret))) (merge_heads fuel heads iterators)
                  else merge_heads fuel heads iterators)).
Proof.
  revert heads iterators ret. induction fuel as [|fuel IH]; intros heads iterators ret Hf.
  - destruct heads as [|h heads]; simpl.
    + case_match; [rewrite take_nil|]; by rewrite app_nil_r.
    + pose proof (remaining_next h heads iterators).
      pose proof (remaining_nonneg (next_heads heads iterators (trx_sender h)) (next_iterators iterators (trx_sender h))). lia.
  - destruct heads as [|h heads].
    + simpl. case_match; [rewrite take_nil|]; by rewrite app_nil_r.
    + pose proof (remaining_next h heads iterators) as Hrem.
      specialize (IH (next_heads heads iterators (trx_sender h)) (next_iterators iterators (trx_sender h))
        (ret ++ [h]) ltac:(lia)).
      assert (take_heads (S fuel) count (h :: heads) iterators ret =
        if Z.of_nat (length (ret ++ [h])) =? count then Some (ret ++ [h])
        else take_heads fuel count (next_heads heads iterators (trx_sender h))
               (next_iterators iterators (trx_sender h)) (ret ++ [h])) as ->.
      { unfold next_heads, next_iterators, waiting. cbn [take_heads]. destruct (_ =? count); [done|].
        by destruct (default [] (iterators !! trx_sender h)). }
      rewrite IH, merge_heads_step, length_app. simpl length.
      destruct (Z.eqb_spec (Z.of_nat (length ret + 1)) count) as [Heq|Hneq].
      * destruct (Z.ltb_spec (Z.of_nat (length ret)) count); [|lia].
        replace (Z.to_nat (count - Z.of_nat (length ret))) with 1%nat by lia. done.
      * destruct (Z.ltb_spec (Z.of_nat (length ret)) count), (Z.ltb_spec (Z.of_nat (length ret + 1)) count);
          try lia; rewrite <- app_assoc; [|done].
        replace (Z.to_nat (count - Z.of_nat (length ret))) with
          (S (Z.to_nat (count - Z.of_nat (length ret + 1)))) by lia. done.
Qed.

(** ** The first loop *)

(** The accounts as [init_heads] walks them. *)
Definition accounts_ok (accounts : list (addr_t * gmap Z Transaction)) : Prop :=
  NoDup accounts.*1 /\
  forall a account, (a, account) ∈ accounts -> account <> ∅ /\ forall t, t ∈ nonce_order account -> trx_sender t = a.

Lemma nonce_order_length account : length (nonce_order account) = size account.
Proof. unfold nonce_order. rewrite length_fmap, map_items_perm. apply length_map_to_list. Qed.

Lemma elem_of_nonce_order account t : t ∈ nonce_order account <-> exists n, account !! n = Some t.
Proof.
  unfold nonce_order. rewrite list_elem_of_fmap. split.
  - intros ([n t'] & -> & Hin%elem_of_map_items). by exists n.
  - intros [n Hn]. exists (n, t). by rewrite elem_of_map_items.
Qed.

Lemma init_heads_spec accounts heads iterators :
  accounts_ok accounts -> merge_inv heads iterators ->
  (forall a, a ∈ accounts.*1 -> (a ∉ trx_sender <$> heads) /\ iterators !! a = None) ->
  exists heads' iterators', init_heads accounts heads iterators = Done (heads', iterators') /\
    merge_inv heads' iterators' /\
    remaining heads' iterators' = remaining heads iterators + Z.of_nat (account_count accounts) /\
    (forall a, of_sender a heads' ++ waiting iterators' a =
       match (list_to_map accounts : gmap addr_t (gmap Z Transaction)) !! a with
       | Some account => nonce_order account
       | None => of_sender a heads ++ waiting iterators a end).
Proof.
  revert heads iterators. induction accounts as [|[a account] accounts IH]; intros heads iterators [Hnd Hok] Hinv Hfresh.
  - exists heads, iterators. split_and!; [done|done|simpl; lia|done].
  - simpl in Hnd. apply NoDup_cons in Hnd as [Ha Hnd].
    destruct (Hok a account) as [Hne Hsend]; [set_solver|].
    destruct (Hfresh a) as [Hah Hai]; [set_solver|].
    simpl. destruct (nonce_order account) as [|t rest] eqn:E.
    { exfalso. apply Hne, map_size_empty_inv. by rewrite <- nonce_order_length, E. }
    assert (trx_sender t = a) as Ht by (apply Hsend; set_solver).
    assert (merge_inv (insert_head t heads) (<[a := rest]> iterators)) as Hinv'.
    { destruct Hinv as [I1 I2 I3 I4]. split.
      - rewrite insert_head_perm. simpl. rewrite Ht. by constructor.
      - intros a' u. rewrite waiting_insert. case_decide; [subst a'; intros; apply Hsend; set_solver|apply I2].
      - intros a'. rewrite waiting_insert, insert_head_perm. simpl. rewrite Ht. case_decide; [set_solver|].
        intros Hw. specialize (I3 a' Hw). set_solver.
      - by apply insert_head_sorted. }
    destruct (IH (insert_head t heads) (<[a := rest]> iterators)) as (h' & i' & -> & Hi' & Hr & Hs); [|done| |].
    + split; [done|]. intros a' acc' Hin. apply Hok. set_solver.
    + intros a' Ha'. destruct (Hfresh a') as [F1 F2]; [set_solver|]. split.
      * rewrite insert_head_perm. simpl. rewrite Ht. set_solver.
      * rewrite lookup_insert_ne; [done|]. intros ->. done.
    + exists h', i'. split_and!; [done|done| |].
      * rewrite Hr. unfold remaining. rewrite (Permutation_length (insert_head_perm t heads)).
        rewrite map_sum_insert by done. simpl account_count.
        rewrite <- (nonce_order_length account), E. simpl length. lia.
      * intros a'. rewrite Hs. simpl. rewrite lookup_insert. destruct (decide (a = a')) as [<-|Hne'].
        -- rewrite not_elem_of_list_to_map_1 by done. rewrite waiting_insert, decide_True by done.
           rewrite (of_sender_unique _ _ (t :: heads)); [| |apply insert_head_perm].
           ++ unfold of_sender. rewrite filter_cons_True by done. fold (of_sender a heads).
              rewrite of_sender_perm_nil by done. by rewrite E.
           ++ apply Hinv'.
        -- rewrite waiting_insert, decide_False by done. case_match; [done|]. f_equal.
           rewrite (of_sender_unique _ _ (t :: heads)); [| |apply insert_head_perm; apply Hinv'].
           ++ unfold of_sender. by rewrite filter_cons_False by congruence.
           ++ apply Hinv'.
Qed.

(** ** The whole function *)

Lemma NoDup_of_senders l : (forall a, NoDup (of_sender a l)) -> NoDup l.
Proof.
  induction l as [|t l IH]; intros Hnd; [constructor|]. constructor.
  - specialize (Hnd (trx_sender t)). unfold of_sender in Hnd. rewrite filter_cons_True in Hnd by done.
    apply NoDup_cons in Hnd as [Hnd _]. intros Ht. apply Hnd. by rewrite list_elem_of_filter.
  - apply IH. intros a. specialize (Hnd a). unfold of_sender in *.
    destruct (decide (trx_sender t = a)).
    + rewrite filter_cons_True in Hnd by done. by apply NoDup_cons in Hnd as [_ ?].
    + by rewrite filter_cons_False in Hnd by done.
Qed.

Section order.
Context (iterate : gmap addr_t (gmap Z Transaction) -> list (addr_t * gmap Z Transaction)).
Context (iterate_perm : forall m, iterate m ≡ₚ map_to_list m).

Lemma iterate_ok p :
  pool_wf p -> accounts_ok (iterate (account_nonce_transactions_ p)).
Proof using iterate_perm.
  intros Hwf. split; [rewrite iterate_perm; apply NoDup_fst_map_to_list|].
  intros a account. rewrite iterate_perm, elem_of_map_to_list. intros Ha. split.
  - intros ->. by apply (i_nonempty _ _ (wf_index _ Hwf) a).
  - intros t [n Hn]%elem_of_nonce_order.
    apply (i_place _ _ (wf_index _ Hwf) a n t). unfold at_nonce. by rewrite Ha.
Qed.

Lemma nonce_order_NoDup p a :
  pool_wf p -> NoDup (nonce_order (default ∅ (account_nonce_transactions_ p !! a))).
Proof.
  intros Hwf. unfold nonce_order. apply NoDup_fmap_2_strong; [|apply (NoDup_fmap_1 fst), map_items_NoDup].
  intros [n t] [n' t'] Hin%elem_of_map_items Hin'%elem_of_map_items ?. simpl in *. subst t'.
  rewrite at_nonce_default in Hin, Hin'.
  destruct (i_place _ _ (wf_index _ Hwf) _ _ _ Hin) as [_ <-].
  by destruct (i_place _ _ (wf_index _ Hwf) _ _ _ Hin') as [_ <-].
Qed.

(** [full] is a merge of the accounts of the pool. *)
Definition ordered_merge (p : Pool) (full : list Transaction) : Prop :=
  full ≡ₚ (map_to_list (queue_transactions_ p)).*2 /\
  (forall a, of_sender a full = nonce_order (default ∅ (account_nonce_transactions_ p !! a))) /\
  (forall pre x mid t post, full = pre ++ x :: mid ++ t :: post ->
     (forall y, y ∈ x :: mid -> trx_sender y <> trx_sender t) -> trx_gas_price t <= trx_gas_price x).

Lemma ordered_perm p full :
  pool_wf p ->
  (forall a, of_sender a full = nonce_order (default ∅ (account_nonce_transactions_ p !! a))) ->
  full ≡ₚ (map_to_list (queue_transactions_ p)).*2.
Proof.
  intros Hwf Hs. apply NoDup_Permutation.
  - apply NoDup_of_senders. intros a. rewrite Hs. by apply nonce_order_NoDup.
  - apply NoDup_fmap_2_strong; [|apply NoDup_map_to_list].
    intros [h t] [h' t'] Hin%elem_of_map_to_list Hin'%elem_of_map_to_list ?. simpl in *. subst t'.
    apply (i_queue _ _ (wf_index _ Hwf)) in Hin as [<- _], Hin' as [<- _]. done.
  - intros t. transitivity (t ∈ of_sender (trx_sender t) full).
    { unfold of_sender. rewrite list_elem_of_filter. tauto. }
    rewrite Hs, elem_of_nonce_order, list_elem_of_fmap. split.
    + intros [n Hn]. rewrite at_nonce_default in Hn.
      destruct (i_place _ _ (wf_index _ Hwf) _ _ _ Hn) as [_ <-].
      exists (trx_hash t, t). rewrite elem_of_map_to_list. split; [done|].
      by apply (i_queue _ _ (wf_index _ Hwf)).
    + intros ([h t'] & -> & Hin%elem_of_map_to_list). simpl.
      apply (i_queue _ _ (wf_index _ Hwf)) in Hin as [_ Hat]. exists (trx_nonce t').
      by rewrite at_nonce_default.
Qed.

Lemma getOrdered_effect p count :
  pool_wf p ->
  exists full, ordered_merge p full /\
    getOrderedTransactions iterate p count =
      Done (if 0 <? count then take (Z.to_nat count) full else full).
Proof using iterate_perm.
  intros Hwf. unfold getOrderedTransactions.
  destruct (init_heads_spec (iterate (account_nonce_transactions_ p)) [] ∅) as
    (heads & iterators & -> & Hinv & Hrem & Hs).
  - by apply iterate_ok.
  - split; [constructor| | |constructor]; intros a; unfold waiting; rewrite lookup_empty; simpl; set_solver.
  - intros a _. split; [set_solver|apply lookup_empty].
  - simpl. unfold remaining in Hrem at 2. rewrite map_sum_empty in Hrem. simpl in Hrem.
    rewrite take_heads_merge by lia. simpl.
    set (full := merge_heads _ heads iterators).
    assert (forall a, of_sender a full = nonce_order (default ∅ (account_nonce_transactions_ p !! a))) as Hfull.
    { intros a. unfold full. rewrite merge_of_sender by (done || lia). rewrite Hs.
      rewrite (list_to_map_proper _ (map_to_list (account_nonce_transactions_ p)));
        [|rewrite iterate_perm; apply NoDup_fst_map_to_list|apply iterate_perm].
      rewrite list_to_map_to_list. destruct (account_nonce_transactions_ p !! a); [done|].
      unfold waiting. rewrite lookup_empty. simpl. unfold nonce_order. by rewrite map_items_empty. }
    exists full. split; [|by rewrite Z.sub_0_r]. split_and!; [by apply ordered_perm|done|].
    intros pre x mid t post. by apply merge_greedy.
Qed.
End order.

(** On a consistent pool [getOrderedTransactions] terminates and, whatever
    the iteration order of the hash map, returns the first [count] transactions
    (all of them for a count of zero) of a merge of the accounts: every queued
    transaction exactly once, each account in nonce order, and never a
    transaction before a more expensive one that could have been taken. *)
Theorem getOrderedTransactions_correct iterate p count :
  (forall m, iterate m ≡ₚ map_to_list m) -> pool_wf p ->
  exists full,
    getOrderedTransactions iterate p count =
      Done (if 0 <? count then take (Z.to_nat count) full else full) /\
    full ≡ₚ (map_to_list (queue_transactions_ p)).*2 /\
    (forall a, of_sender a full = nonce_order (default ∅ (account_nonce_transactions_ p !! a))) /\
    (forall pre x mid t post, full = pre ++ x :: mid ++ t :: post ->
       (forall y, y ∈ x :: mid -> trx_sender y <> trx_sender t) -> trx_gas_price t <= trx_gas_price x).
Proof.
  intros Hperm Hwf. destruct (getOrdered_effect iterate Hperm p count Hwf) as (full & (H1 & H2 & H3) & H4).
  by exists full.
Qed.
