(* ===== verification/TransactionQueueOps.v ===== *)
(** * The operations of the transaction queue

    Insertion with its limits and evictions, expiry of non-proposable
    transactions, purging, and the gas price needed for inclusion. *)

From S2P Require Import Prelude Votes Caches TransactionQueue TransactionPool TransactionOrder.
Local Open Scope Z_scope.
Local Open Scope outcome_scope.

#[local] Arguments removeTransaction : simpl never.
#[local] Arguments addTransaction : simpl never.

(** ** The invariant of the queue *)

Record queue_inv (q : TransactionQueue) : Prop := {
  q_pool : pool_wf (pool q);
  q_size : queue_size (pool q) <= kMaxSize q;
  q_max : 0 <= kMaxSize q < 2 ^ 32;
  q_known : Expiration.tracked (known_txs_ q);
  q_params : Expiration.params_ok (known_txs_ q);
}.

(** The limits do not change. *)
Definition same_limits (q q' : TransactionQueue) : Prop :=
  kMaxSize q' = kMaxSize q /\ kMaxDataSize q' = kMaxDataSize q /\
  kNonProposableTransactionsMaxSize q' = kNonProposableTransactionsMaxSize q /\
  kMaxSingleAccountTransactionsSize q' = kMaxSingleAccountTransactionsSize q.

Lemma pool_get_erased p p' t h :
  queue_transactions_ p' = delete (trx_hash t) (queue_transactions_ p) ->
  non_proposable_transactions_ p' = delete (trx_hash t) (non_proposable_transactions_ p) ->
  pool_get p' h = if decide (h = trx_hash t) then None else pool_get p h.
Proof.
  intros Hq Hn. unfold pool_get. rewrite Hq, Hn, !lookup_delete.
  destruct (decide (trx_hash t = h)), (decide (h = trx_hash t)); (done || congruence).
Qed.

Lemma queue_no_collision p t :
  queue_transactions_ p !! trx_hash t = Some t -> no_collision p t.
Proof. intros E t'. unfold pool_get. rewrite E. congruence. Qed.

(** ** Eviction *)

Definition delete_all (queue : gmap trx_hash_t Transaction) (l : list Transaction) : gmap trx_hash_t Transaction :=
  foldl (fun m t => delete (trx_hash t) m) queue l.

(** The state of the known-transactions cache that every operation keeps. *)
Definition known_ok (q : TransactionQueue) : Prop :=
  Expiration.tracked (known_txs_ q) /\ Expiration.params_ok (known_txs_ q).

Lemma known_erase_ok q h :
  known_ok q -> known_ok (with_known q (Expiration.erase (known_txs_ q) h)).
Proof. intros [Ht Hp]. split; [|done]. intros k. simpl. set_solver. Qed.

Lemma know_effect q h :
  known_ok q -> exists q', know q h = Done q' /\ known_ok q' /\ pool q' = pool q /\ same_limits q q'.
Proof.
  intros [Ht Hp]. unfold know.
  destruct (Expiration.insert_tracked (known_txs_ q) h Ht Hp) as (c & b & -> & Ht' & Hp' & _). simpl.
  eexists. split; [done|]. by split_and!.
Qed.

Lemma evict_worst_effect worst counter limit now q :
  pool_wf (pool q) -> known_ok q -> (forall t, t ∈ worst -> no_collision (pool q) t) ->
  0 <= counter < 2 ^ 32 - 1 -> limit < 2 ^ 32 ->
  exists q', evict_worst worst counter limit now q = Done q' /\ pool_wf (pool q') /\ known_ok q' /\
    same_limits q q' /\
    queue_transactions_ (pool q') =
      delete_all (queue_transactions_ (pool q)) (take (Z.to_nat (Z.max 1 (limit - counter))) worst) /\
    (forall h e, non_proposable_transactions_ (pool q') !! h = Some e ->
                 non_proposable_transactions_ (pool q) !! h = Some e).
Proof.
  revert counter q. induction worst as [|t worst IH]; intros counter q Hwf Hk Hc Hcnt Hlim; simpl.
  - exists q. rewrite take_nil. by split_and!.
  - destruct (pool_erase_effect (pool q) t) as (p & -> & Hwf' & Hq' & Hn'); [done|apply Hc; set_solver|].
    simpl. rewrite wrap_id by (unfold in_range, modulus; lia).
    set (q1 := with_known _ _).
    assert (known_ok q1) as Hk1 by (split; [intros k; simpl; destruct Hk; set_solver|apply Hk]).
    assert (forall h e, non_proposable_transactions_ (pool q1) !! h = Some e ->
                 non_proposable_transactions_ (pool q) !! h = Some e) as Hnp1.
    { intros h e. simpl. rewrite Hn'. intros [_ ?]%lookup_delete_Some. done. }
    destruct (Z.leb_spec limit (counter + 1)).
    + exists q1. replace (Z.to_nat (Z.max 1 (limit - counter))) with 1%nat by lia.
      by split_and!; try apply Hk1.
    + destruct (IH (counter + 1) q1) as (q' & -> & W & K & L & Q & N); [done|done| |lia|lia|].
      * intros u Hu t' Hg. simpl in Hg. rewrite (pool_get_erased _ _ _ _ Hq' Hn') in Hg.
        case_decide; [done|]. apply (Hc u); [set_solver|done].
      * exists q'. split_and!; try done; try apply K; try apply L.
        -- rewrite Q. simpl. rewrite Hq'.
           replace (Z.to_nat (Z.max 1 (limit - counter))) with
             (S (Z.to_nat (Z.max 1 (limit - (counter + 1))))) by lia. done.
        -- intros h e He. by apply Hnp1, N.
Qed.

Lemma delete_all_size queue l :
  NoDup (trx_hash <$> l) -> (forall t, t ∈ l -> is_Some (queue !! trx_hash t)) ->
  Z.of_nat (size (delete_all queue l)) = Z.of_nat (size queue) - Z.of_nat (length l).
Proof.
  revert queue. induction l as [|t l IH]; intros queue Hnd Hin; simpl; [lia|].
  simpl in Hnd. apply NoDup_cons in Hnd as [Ht Hnd].
  destruct (Hin t) as [t' Ht']; [set_solver|].
  fold (delete_all (delete (trx_hash t) queue) l).
  rewrite IH; [|done|].
  - rewrite (map_size_delete_Some (trx_hash t) queue) by by exists t'.
    assert (size queue <> 0%nat); [|lia]. intros ->%map_size_empty_iff. by rewrite lookup_empty in Ht'.
  - intros u Hu. rewrite lookup_delete_ne; [apply Hin; set_solver|].
    intros E. apply Ht, list_elem_of_fmap. by exists u.
Qed.

Lemma delete_all_lookup queue l h :
  delete_all queue l !! h = if decide (h ∈ trx_hash <$> l) then None else queue !! h.
Proof.
  revert queue. induction l as [|t l IH]; intros queue; simpl; [done|].
  fold (delete_all (delete (trx_hash t) queue) l). rewrite IH, lookup_delete.
  assert (h ∈ trx_hash t :: (trx_hash <$> l) <-> h = trx_hash t \/ h ∈ trx_hash <$> l) by apply elem_of_cons.
  repeat case_decide; (done || exfalso; naive_solver).
Qed.

Lemma queue_hashes_NoDup p full :
  pool_wf p -> full ≡ₚ (map_to_list (queue_transactions_ p)).*2 -> NoDup (trx_hash <$> full).
Proof.
  intros Hwf Hp. rewrite Hp. rewrite <- list_fmap_compose.
  rewrite (list_fmap_ext _ fst); [apply NoDup_fst_map_to_list|].
  intros i [h t] Hi%list_elem_of_lookup_2. apply elem_of_map_to_list in Hi.
  by apply (i_queue _ _ (wf_index _ Hwf)) in Hi as [? _].
Qed.

Lemma size_insert_le (m : gmap trx_hash_t Transaction) h t : (size (<[h := t]> m) <= S (size m))%nat.
Proof. rewrite map_size_insert. case_match; simpl; lia. Qed.

Lemma size_delete_le (m : gmap trx_hash_t Transaction) h : (size (delete h m) <= size m)%nat.
Proof. rewrite map_size_delete. case_match; simpl; lia. Qed.

Lemma placed_size p t : Z.of_nat (size (placed_queue p t)) <= queue_size p + 1.
Proof.
  unfold placed_queue, queue_size. repeat case_match; [|lia|].
  - pose proof (size_insert_le (delete (trx_hash t0) (queue_transactions_ p)) (trx_hash t) t).
    pose proof (size_delete_le (queue_transactions_ p) (trx_hash t0)). lia.
  - pose proof (size_insert_le (queue_transactions_ p) (trx_hash t) t). lia.
Qed.

(** ** Insertion *)

(** The transactions of the pool after a placement. *)
Lemma placed_get p t n :
  index_ok (account_nonce_transactions_ p) (queue_transactions_ p) ->
  pool_contains p (trx_hash t) = false ->
  (match placed_queue p t !! trx_hash t with
   | Some t' => Some t' | None => snd <$> placed_np p t n !! trx_hash t end) = Some t.
Proof.
  intros Hi [Hq Hn]%pool_contains_false. unfold placed_queue, placed_np. repeat case_match; simplify_eq.
  all: try (rewrite lookup_insert_eq in *; by simplify_eq).
  all: rewrite ?lookup_insert_eq in *; simplify_eq; try done; congruence.
Qed.

Section insert.
Context (iterate : gmap addr_t (gmap Z Transaction) -> list (addr_t * gmap Z Transaction)).
Context (iterate_perm : forall m, iterate m ≡ₚ map_to_list m).

(** The eviction of an overfull pool. *)
Lemma evict_effect q now :
  pool_wf (pool q) -> known_ok q -> 0 <= kMaxSize q < 2 ^ 32 ->
  queue_size (pool q) = kMaxSize q + 1 ->
  exists q', (let* ordered := getOrderedTransactions iterate (pool q) (queue_size (pool q)) in
              evict_worst (reverse ordered) 0 (queue_size (pool q) / 100) now q) = Done q' /\
    pool_wf (pool q') /\ known_ok q' /\ same_limits q q' /\
    queue_size (pool q') = queue_size (pool q) - Z.max 1 (queue_size (pool q) / 100) /\
    (forall h t, queue_transactions_ (pool q') !! h = Some t -> queue_transactions_ (pool q) !! h = Some t) /\
    (forall h e, non_proposable_transactions_ (pool q') !! h = Some e ->
                 non_proposable_transactions_ (pool q) !! h = Some e).
Proof using iterate_perm.
  intros Hwf Hk Hmax Hsize.
  destruct (getOrdered_effect iterate iterate_perm (pool q) (queue_size (pool q)) Hwf) as (full & (Hperm & _) & ->).
  assert (Z.of_nat (length full) = queue_size (pool q)) as Hlen.
  { rewrite Hperm. unfold queue_size. by rewrite length_fmap, length_map_to_list. }
  destruct (Z.ltb_spec 0 (queue_size (pool q))); [|lia]. simpl. rewrite take_ge by lia.
  assert (queue_size (pool q) / 100 < queue_size (pool q)) as Hdiv by (apply Z.div_lt; lia).
  assert (0 <= queue_size (pool q) / 100) by (apply Z.div_pos; lia).
  destruct (evict_worst_effect (reverse full) 0 (queue_size (pool q) / 100) now q) as
    (q' & -> & W & K & L & Q & N); [done|done| |lia|lia|].
  { intros t Ht. rewrite elem_of_reverse, Hperm in Ht. apply list_elem_of_fmap in Ht as ([h t'] & -> & Ht).
    apply elem_of_map_to_list in Ht. simpl. apply queue_no_collision.
    by destruct (proj1 (i_queue _ _ (wf_index _ Hwf) _ _) Ht) as [-> _]. }
  exists q'. split_and!; try done; try apply K; try apply L.
  - unfold queue_size at 1. rewrite Q. rewrite Z.sub_0_r. rewrite delete_all_size.
    + rewrite length_take, length_reverse. unfold queue_size in *. lia.
    + rewrite fmap_take. eapply sublist_NoDup; [|apply sublist_take].
      rewrite reverse_Permutation. by apply (queue_hashes_NoDup (pool q)).
    + intros t Ht. assert (t ∈ reverse full) as Ht' by (eapply elem_of_take in Ht as (i & Ht & _); by eapply list_elem_of_lookup_2).
      rewrite elem_of_reverse, Hperm in Ht'. apply list_elem_of_fmap in Ht' as ([h t'] & -> & Hin).
      apply elem_of_map_to_list in Hin. simpl.
      destruct (proj1 (i_queue _ _ (wf_index _ Hwf) _ _) Hin) as [-> _]. by exists t'.
  - intros h t. rewrite Q, delete_all_lookup. by case_decide.
Qed.

(** The queue grows only when the transaction takes a free nonce. *)
Lemma placed_grow p t n :
  pool_wf p -> queue_size p < Z.of_nat (size (placed_queue p t)) ->
  placed_np p t n = non_proposable_transactions_ p /\
  placed_queue p t = <[trx_hash t := t]> (queue_transactions_ p).
Proof.
  intros Hwf. unfold placed_np, placed_queue, queue_size.
  destruct (at_nonce _ _ _) as [old|] eqn:E; [|done]. case_match; [|lia].
  destruct (i_place _ _ (wf_index _ Hwf) _ _ _ E) as [Hs Hn].
  assert (queue_transactions_ p !! trx_hash old = Some old) as Hold.
  { apply (i_queue _ _ (wf_index _ Hwf)). by rewrite Hs, Hn. }
  pose proof (size_insert_le (delete (trx_hash old) (queue_transactions_ p)) (trx_hash t) t).
  rewrite map_size_delete_Some in * by by exists old.
  assert (size (queue_transactions_ p) <> 0%nat); [|lia].
  intros Hz%map_size_empty_iff. by rewrite Hz, lookup_empty in Hold.
Qed.

(** What the status returned by [insert] says. *)
Definition insert_result (q : TransactionQueue) (t : Transaction) (proposable : bool) (n : Z)
    (q' : TransactionQueue) (status : TransactionStatus) : Prop :=
  match status with
  | Known => q' = q /\ pool_contains (pool q) (trx_hash t) = true
  | InsertedNonProposable =>
      proposable = false /\
      queue_transactions_ (pool q') = queue_transactions_ (pool q) /\
      non_proposable_transactions_ (pool q') =
        <[trx_hash t := (n, t)]> (non_proposable_transactions_ (pool q))
  | Inserted =>
      proposable = true /\ pool_get (pool q') (trx_hash t) = Some t /\
      (Z.of_nat (size (placed_queue (pool q) t)) <= kMaxSize q ->
       queue_transactions_ (pool q') = placed_queue (pool q) t /\
       non_proposable_transactions_ (pool q') = placed_np (pool q) t n)
  | Overflow => pool_get (pool q') (trx_hash t) = None
  end.

Lemma pool_get_none p h : pool_contains p h = false -> pool_get p h = None.
Proof. intros [Hq Hn]%pool_contains_false. unfold pool_get. by rewrite Hq, Hn. Qed.

Lemma insert_nonproposable q t n now :
  queue_inv q -> pool_contains (pool q) (trx_hash t) = false ->
  (kMaxDataSize q <? data_size_ (pool q)) = false ->
  exists q' status, insert iterate q t false n now = Done (q', status) /\
    queue_inv q' /\ same_limits q q' /\ insert_result q t false n q' status.
Proof.
  intros Hinv Hc Hdata. unfold insert. rewrite Hc, Hdata. cbn [negb].
  pose proof Hinv as [Hwf Hsize Hmax Hk Hp].
  case_match.
  - destruct (add_np_containers (pool q) t n) as (A1 & A2 & A3).
    apply pool_contains_false in Hc as [Hq Hn]. rewrite Hn in A3.
    destruct (know_effect (with_pool q (addTransaction (pool q) t false n)) (trx_hash t)) as (q' & -> & [K1 K2] & K3 & K4);
      [done|]. simpl. exists q', InsertedNonProposable. destruct K4 as (L1 & L2 & L3 & L4).
    split; [done|]. split; [split; rewrite ?K3, ?L1; simpl; try done|split; [done|]].
    + destruct Hwf as [Wc Wi Wn Wd]. split; [by apply add_counters|by rewrite A1, A2| |].
      * rewrite A3. by apply np_insert_hash.
      * rewrite A2, A3. intros h Hh. rewrite lookup_insert. case_decide as D; [|by apply Wd].
        subst h. rewrite Hq in Hh. by destruct Hh.
    + unfold queue_size in *. by rewrite A2.
    + simpl. rewrite K3. simpl. by rewrite A2, A3.
  - exists (with_overflow_time q now), Overflow. split; [done|]. split; [done|]. split; [done|].
    by apply pool_get_none.
Qed.

Lemma insert_proposable q t n now :
  queue_inv q -> pool_contains (pool q) (trx_hash t) = false ->
  (kMaxDataSize q <? data_size_ (pool q)) = false ->
  exists q' status, insert iterate q t true n now = Done (q', status) /\
    queue_inv q' /\ same_limits q q' /\ insert_result q t true n q' status.
Proof using iterate_perm.
  intros Hinv Hc Hdata. unfold insert. rewrite Hc, Hdata.
  pose proof Hinv as [Hwf Hsize Hmax Hk Hp].
  destruct (place_effect q t n Hwf Hc) as (r & -> & Hr). simpl obind.
  destruct r as [p|]; [|exists (with_overflow_time q now), Overflow; split_and!; try done; by apply pool_get_none].
  destruct Hr as (Wp & Qp & Np).
  pose proof (placed_get (pool q) t n (wf_index _ Hwf) Hc) as Hget.
  pose proof (placed_size (pool q) t) as Hps.
  assert (queue_size p = Z.of_nat (size (placed_queue (pool q) t))) as Hqp by (unfold queue_size; by rewrite Qp).
  cbn zeta. change (kMaxSize (with_pool q p)) with (kMaxSize q).
  destruct (Z.ltb_spec (kMaxSize q) (queue_size p)) as [Hover|Hfits].
  - destruct (evict_effect (with_pool q p) now) as (q1 & He & W & K & L & S & Qs & Ns);
      [done|done|done|simpl; lia|]. simpl in He, S, Qs, Ns.
    destruct (getOrderedTransactions iterate p (queue_size p)) as [ordered| |]; simpl in He |- *; [|done..].
    rewrite He. simpl. destruct L as (L1 & L2 & L3 & L4). simpl in *.
    assert (queue_size (pool q1) <= kMaxSize q) by lia.
    destruct (placed_grow (pool q) t n Hwf) as [Hnp Hpq]; [lia|].
    case_bool_decide as Hin.
    + exists q1, Overflow. split; [done|]. split; [split; try done; [lia|lia|apply K..]|]. split; [done|].
      unfold insert_result, pool_get. rewrite Hin.
      destruct (non_proposable_transactions_ (pool q1) !! trx_hash t) as [e|] eqn:E; [|done].
      apply Ns in E. rewrite Np, Hnp in E. apply pool_contains_false in Hc as [_ Hn]. congruence.
    + destruct (know_effect q1 (trx_hash t) K) as (q2 & -> & [K1 K2] & K3 & (M1 & M2 & M3 & M4)). simpl.
      exists q2, Inserted. split; [done|]. split; [split; rewrite ?K3; try done; lia|].
      split; [unfold same_limits; split_and!; congruence|]. split_and!; [done| |intros; lia].
      unfold pool_get. rewrite K3. destruct (queue_transactions_ (pool q1) !! trx_hash t) as [t'|] eqn:E; [|done].
      apply Qs in E. rewrite Qp, Hpq, lookup_insert_eq in E. done.
  - destruct (know_effect (with_pool q p) (trx_hash t)) as (q2 & -> & [K1 K2] & K3 & (M1 & M2 & M3 & M4)); [done|].
    simpl. exists q2, Inserted. split; [done|]. simpl in *.
    split; [split; rewrite ?K3, ?M1; try done|]. split; [done|]. split_and!; [done| |].
    + unfold pool_get. by rewrite K3, Qp, Np.
    + intros _. by rewrite K3.
Qed.
End insert.

Lemma insert_effect iterate q t proposable n now :
  (forall m, iterate m ≡ₚ map_to_list m) -> queue_inv q ->
  exists q' status, insert iterate q t proposable n now = Done (q', status) /\
    queue_inv q' /\ same_limits q q' /\ insert_result q t proposable n q' status.
Proof.
  intros Hperm Hinv. destruct (pool_contains (pool q) (trx_hash t)) eqn:Hc.
  { exists q, Known. unfold insert. rewrite Hc. done. }
  destruct (kMaxDataSize q <? data_size_ (pool q)) eqn:Hd.
  { exists (with_overflow_time q now), Overflow. unfold insert. rewrite Hc, Hd.
    split; [done|]. split; [by destruct Hinv|]. split; [done|]. by apply pool_get_none. }
  destruct proposable; [by apply insert_proposable|by apply insert_nonproposable].
Qed.

(** An insertion always returns, keeps every index and running total of the
    pool consistent and the pool within [kMaxSize], and its status tells the
    truth: [Known] changes nothing, [Inserted] leaves the transaction in the
    pool (replacing a cheaper transaction of the same nonce, which becomes
    non-proposable, or becoming non-proposable itself), [InsertedNonProposable]
    only adds it to the non-proposable ones, and after [Overflow] it is not in
    the pool. *)
Theorem insert_correct iterate q t proposable n now :
  (forall m, iterate m ≡ₚ map_to_list m) -> queue_inv q ->
  exists q' status, insert iterate q t proposable n now = Done (q', status) /\
    queue_inv q' /\ insert_result q t proposable n q' status.
Proof.
  intros Hperm Hinv. destruct (insert_effect iterate q t proposable n now Hperm Hinv) as (q' & st & ? & ? & _ & ?).
  by exists q', st.
Qed.

(** ** Expiry of non-proposable transactions *)

Definition expired (block_number : Z) (e : Z * Transaction) : bool :=
  u64 (e.1 + kNonProposableTransactionsPeriodExpiryLimit) <? block_number.

Lemma finalize_entry_effect block_number q h b t :
  pool_wf (pool q) -> known_ok q -> non_proposable_transactions_ (pool q) !! h = Some (b, t) ->
  let q' := finalize_entry block_number q (h, (b, t)) in
  pool_wf (pool q') /\ known_ok q' /\ same_limits q q' /\
  queue_transactions_ (pool q') = queue_transactions_ (pool q) /\
  account_nonce_transactions_ (pool q') = account_nonce_transactions_ (pool q) /\
  non_proposable_transactions_ (pool q') =
    (if expired block_number (b, t) then delete h (non_proposable_transactions_ (pool q))
     else non_proposable_transactions_ (pool q)).
Proof.
  intros [[Hg Hd] Hi Hnp Hdis] Hk Hh. unfold finalize_entry, expired. simpl.
  case_match; simpl; [|done]. split; [|split; [by apply (known_erase_ok q)|done]]. split; simpl.
  - split; simpl; [done|]. rewrite Hd, wrap_sub_l. unfold data_in. simpl. f_equal.
    rewrite (map_sum_delete (fun e => trx_data_size e.2) _ _ _ Hh). simpl. lia.
  - done.
  - intros h' b' t' [_ H']%lookup_delete_Some. by eapply Hnp.
  - intros h' Hh'. rewrite lookup_delete. case_decide; [done|]. by apply Hdis.
Qed.

Lemma finalize_fold block_number items q :
  pool_wf (pool q) -> known_ok q -> NoDup items.*1 ->
  (forall h e, (h, e) ∈ items -> non_proposable_transactions_ (pool q) !! h = Some e) ->
  let q' := foldl (finalize_entry block_number) q items in
  pool_wf (pool q') /\ known_ok q' /\ same_limits q q' /\
  queue_transactions_ (pool q') = queue_transactions_ (pool q) /\
  forall h, non_proposable_transactions_ (pool q') !! h =
    match non_proposable_transactions_ (pool q) !! h with
    | Some e => if bool_decide (h ∈ items.*1) && expired block_number e then None else Some e
    | None => None
    end.
Proof.
  revert q. induction items as [|[h [b t]] items IH]; intros q Hwf Hk Hnd Hin; cbn [foldl].
  - split_and!; try done; try apply Hk. intros h. by destruct (_ !! h).
  - simpl in Hnd. apply NoDup_cons in Hnd as [Hh Hnd].
    assert (non_proposable_transactions_ (pool q) !! h = Some (b, t)) as Hht by (apply Hin; set_solver).
    destruct (finalize_entry_effect block_number q h b t Hwf Hk Hht) as (W & K & (L1 & L2 & L3 & L4) & Q & A & N).
    set (q1 := finalize_entry block_number q (h, (b, t))) in *.
    assert (forall h', h' <> h -> non_proposable_transactions_ (pool q1) !! h' =
      non_proposable_transactions_ (pool q) !! h') as Hother.
    { intros h' Hne. rewrite N. case_match; [by rewrite lookup_delete_ne|done]. }
    destruct (IH q1 W K Hnd) as (W' & K' & (M1 & M2 & M3 & M4) & Q' & N').
    { intros h' e He. rewrite Hother; [apply Hin; set_solver|]. intros ->. apply Hh, list_elem_of_fmap. by exists (h, e). }
    split_and!; [done|done|unfold same_limits; split_and!; congruence|congruence|].
    intros h'. rewrite N'. simpl. destruct (decide (h' = h)) as [->|Hne].
    + rewrite Hht, (bool_decide_true (h ∈ h :: _)) by set_solver. rewrite N. simpl.
      destruct (expired block_number (b, t)); [by rewrite lookup_delete_eq|].
      rewrite Hht. by rewrite bool_decide_false.
    + rewrite Hother by done. destruct (non_proposable_transactions_ (pool q) !! h'); [|done].
      destruct (decide (h' ∈ items.*1)).
      * by rewrite !bool_decide_true by set_solver.
      * by rewrite !bool_decide_false by set_solver.
Qed.

Lemma blockFinalized_effect q block_number :
  queue_inv q ->
  let q' := blockFinalized q block_number in
  queue_inv q' /\ same_limits q q' /\
  queue_transactions_ (pool q') = queue_transactions_ (pool q) /\
  forall h, non_proposable_transactions_ (pool q') !! h =
    match non_proposable_transactions_ (pool q) !! h with
    | Some e => if expired block_number e then None else Some e
    | None => None
    end.
Proof.
  intros [Hwf Hsize Hmax Hk Hp]. unfold blockFinalized.
  destruct (finalize_fold block_number (map_to_list (non_proposable_transactions_ (pool q))) q) as
    (W & K & L & Q & N); [done|done|apply NoDup_fst_map_to_list|intros h e; by rewrite elem_of_map_to_list|].
  simpl. split_and!; try apply L; try done.
  - destruct L as (L1 & _). split; rewrite ?L1; try done; try apply K. unfold queue_size. by rewrite Q.
  - intros h. rewrite N. destruct (_ !! h) as [e|] eqn:E; [|done]. rewrite bool_decide_true; [done|].
    apply list_elem_of_fmap. exists (h, e). by rewrite elem_of_map_to_list.
Qed.

(** After a block is finalized exactly the non-proposable transactions that
    were added more than the expiry limit before it are gone; the proposable
    ones stay, and the pool stays consistent. *)
Theorem blockFinalized_correct q block_number :
  queue_inv q ->
  let q' := blockFinalized q block_number in
  queue_inv q' /\
  queue_transactions_ (pool q') = queue_transactions_ (pool q) /\
  forall h, non_proposable_transactions_ (pool q') !! h =
    match non_proposable_transactions_ (pool q) !! h with
    | Some e => if expired block_number e then None else Some e
    | None => None
    end.
Proof. intros Hinv q'. by destruct (blockFinalized_effect q block_number Hinv) as (? & _ & ?). Qed.

(** ** Purging *)

Lemma purge_account_effect items account_nonce account p :
  StronglySorted key_le items -> counters_ok p ->
  (forall n t t', (n, t) ∈ items -> queue_transactions_ p !! trx_hash t = Some t' -> t' = t) ->
  let r := purge_account items account_nonce account p in
  r.1 = erase_below items account_nonce account /\ counters_ok r.2 /\
  account_nonce_transactions_ r.2 = account_nonce_transactions_ p /\
  non_proposable_transactions_ r.2 = non_proposable_transactions_ p /\
  (forall h t, queue_transactions_ r.2 !! h = Some t <->
     queue_transactions_ p !! h = Some t /\
     forall n u, (n, u) ∈ items -> n < account_nonce -> trx_hash u <> h).
Proof.
  revert account p. induction items as [|[n t] items IH]; intros account p Hs Hc Hcol; cbn [purge_account erase_below].
  - split_and!; try done. set_solver.
  - apply StronglySorted_inv in Hs as [Hs Hall].
    destruct (Z.ltb_spec n account_nonce) as [Hlt|Hge].
    + rewrite decide_True by done. destruct (remove_containers p t) as (R1 & R2 & R3).
      destruct (IH (delete n account) (removeTransaction p t true).1) as (I1 & I2 & I3 & I4 & I5); [done| | |].
      * apply remove_counters; [done|]. intros t'. apply (Hcol n). set_solver.
      * intros n' u t' Hin. rewrite R2. intros [_ Hu]%lookup_delete_Some. apply (Hcol n'); [set_solver|done].
      * split_and!; [done|done|by rewrite I3|by rewrite I4|].
        intros h u. rewrite I5, R2, lookup_delete_Some. set_solver by lia.
    + rewrite decide_False by lia. split_and!; try done. intros h u. split; [|by intros []].
      intros Hu. split; [done|]. intros n' u' Hin Hn'.
      apply elem_of_cons in Hin as [[= -> ->]|Hin]; [lia|].
      rewrite Forall_forall in Hall. specialize (Hall _ Hin). unfold key_le in Hall. simpl in Hall. lia.
Qed.

(** A transaction that the final chain has overtaken. *)
Definition outdated_nonce (get_nonce : addr_t -> option Z) (t : Transaction) : bool :=
  match get_nonce (trx_sender t) with None => false | Some n => trx_nonce t <? n end.

Lemma purge_step_effect get_nonce p a account :
  pool_wf p -> account_nonce_transactions_ p !! a = Some account ->
  let p' := purge_step get_nonce p (a, account) in
  pool_wf p' /\ non_proposable_transactions_ p' = non_proposable_transactions_ p /\
  (forall a', a' <> a -> account_nonce_transactions_ p' !! a' = account_nonce_transactions_ p !! a') /\
  (forall h t, queue_transactions_ p' !! h = Some t <->
     queue_transactions_ p !! h = Some t /\ ~ (trx_sender t = a /\ outdated_nonce get_nonce t = true)).
Proof.
  intros Hwf Ha. pose proof Hwf as [Hc Hi Hnp Hd]. unfold purge_step, outdated_nonce. cbn [fst snd].
  assert (forall n u, (n, u) ∈ map_items account ->
    trx_sender u = a /\ trx_nonce u = n /\ queue_transactions_ p !! trx_hash u = Some u) as Hacc.
  { intros n u Hu%elem_of_map_items.
    assert (at_nonce (account_nonce_transactions_ p) a n = Some u) as Hat by (unfold at_nonce; by rewrite Ha).
    destruct (i_place _ _ Hi _ _ _ Hat) as [Hs Hn]. split_and!; [done|done|].
    apply (i_queue _ _ Hi). by rewrite Hs, Hn. }
  destruct (get_nonce a) as [an|] eqn:En.
  2: { split_and!; try done. intros h t. split; [|by intros []]. intros Ht. split; [done|].
       intros [<- Hn]. by rewrite En in Hn. }
  destruct (purge_account_effect (map_items account) an account p) as (P1 & P2 & P3 & P4 & P5);
    [apply map_items_sorted|done|intros n t t' Hin; destruct (Hacc n t Hin) as (_ & _ & ->); congruence|].
  destruct (purge_account (map_items account) an account p) as [account' p1]. simpl in P1, P2, P3, P4, P5.
  fold (drop_nonce (account_nonce_transactions_ p1) a account').
  assert (forall h t, queue_transactions_ p1 !! h = Some t <->
     queue_transactions_ p !! h = Some t /\ ~ (trx_sender t = a /\ trx_nonce t < an)) as Hq.
  { intros h t. rewrite P5. apply and_iff_compat_l_strong. intros Ht.
    pose proof (proj1 (i_queue _ _ Hi _ _) Ht) as [Hh Hat]. split.
    - intros Hall [Hs Hn]. apply (Hall (trx_nonce t) t); [|done|done].
      apply elem_of_map_items. unfold at_nonce in Hat. by rewrite Hs, Ha in Hat.
    - intros Hno n u Hu Hn Hhu. destruct (Hacc n u Hu) as (Hs & Hn' & Hu').
      rewrite Hhu in Hu'. assert (u = t) as -> by congruence. apply Hno. split; [done|lia]. }
  assert (forall a' n, at_nonce (drop_nonce (account_nonce_transactions_ p1) a account') a' n =
    if decide (a = a' /\ n < an) then None else at_nonce (account_nonce_transactions_ p) a' n) as Hat.
  { intros a' n. rewrite at_nonce_drop, P3. destruct (decide (a = a')) as [<-|Hne].
    - rewrite P1, erase_below_all. unfold at_nonce. rewrite Ha. simpl. apply decide_ext. tauto.
    - by rewrite decide_False by tauto. }
  split_and!; simpl.
  - split; simpl; [by destruct P2| |by rewrite P4|].
    + split.
      * intros h t. rewrite Hq, Hat, (i_queue _ _ Hi). destruct (decide _) as [[<- D]|D]; [naive_solver|].
        split; [naive_solver|]. intros [Hh Ht]. split; [done|]. naive_solver.
      * intros a' n t. rewrite Hat. destruct (decide _); [done|]. apply Hi.
      * apply drop_nonce_nonempty. rewrite P3. apply Hi.
    + rewrite P4. intros h [t Ht]. apply Hd. apply Hq in Ht as [Ht _]. by exists t.
  - done.
  - intros a' Hne. unfold drop_nonce. rewrite P3. case_decide; [by rewrite lookup_delete_ne|by rewrite lookup_insert_ne].
  - intros h t. rewrite Hq. apply and_iff_compat_l, not_iff_compat, and_iff_compat_l_strong. intros ->.
    rewrite En. by rewrite Z.ltb_lt.
Qed.

Lemma purge_fold get_nonce items p :
  pool_wf p -> NoDup items.*1 ->
  (forall a account, (a, account) ∈ items -> account_nonce_transactions_ p !! a = Some account) ->
  let p' := foldl (purge_step get_nonce) p items in
  pool_wf p' /\ non_proposable_transactions_ p' = non_proposable_transactions_ p /\
  (forall h t, queue_transactions_ p' !! h = Some t <->
     queue_transactions_ p !! h = Some t /\ ~ (trx_sender t ∈ items.*1 /\ outdated_nonce get_nonce t = true)).
Proof.
  revert p. induction items as [|[a account] items IH]; intros p Hwf Hnd Hin; cbn [foldl].
  - split_and!; try done. set_solver.
  - simpl in Hnd. apply NoDup_cons in Hnd as [Ha Hnd].
    destruct (purge_step_effect get_nonce p a account Hwf) as (W & N & A & Q); [apply Hin; set_solver|].
    destruct (IH (purge_step get_nonce p (a, account)) W Hnd) as (W' & N' & Q').
    { intros a' acc' Hin'. rewrite A; [apply Hin; set_solver|]. intros ->. apply Ha, list_elem_of_fmap.
      by exists (a, acc'). }
    split_and!; [done|congruence|]. intros h t. rewrite Q', Q. simpl. rewrite elem_of_cons. tauto.
Qed.

Lemma purge_effect get_nonce q :
  queue_inv q ->
  let q' := purge get_nonce q in
  queue_inv q' /\ non_proposable_transactions_ (pool q') = non_proposable_transactions_ (pool q) /\
  forall h t, queue_transactions_ (pool q') !! h = Some t <->
    queue_transactions_ (pool q) !! h = Some t /\ outdated_nonce get_nonce t = false.
Proof.
  intros [Hwf Hsize Hmax Hk Hp]. unfold purge. simpl.
  destruct (purge_fold get_nonce (map_to_list (account_nonce_transactions_ (pool q))) (pool q) Hwf) as (W & N & Q);
    [apply NoDup_fst_map_to_list|intros a acc; by rewrite elem_of_map_to_list|].
  assert (forall h t, queue_transactions_ (foldl (purge_step get_nonce) (pool q)
      (map_to_list (account_nonce_transactions_ (pool q)))) !! h = Some t <->
    queue_transactions_ (pool q) !! h = Some t /\ outdated_nonce get_nonce t = false) as HQ.
  { intros h t. rewrite Q. apply and_iff_compat_l_strong. intros Ht.
    assert (trx_sender t ∈ (map_to_list (account_nonce_transactions_ (pool q))).*1) as Hs.
    { apply (i_queue _ _ (wf_index _ Hwf)) in Ht as [_ Hat]. unfold at_nonce in Hat.
      destruct (account_nonce_transactions_ (pool q) !! trx_sender t) as [acc|] eqn:E; [|done].
      apply list_elem_of_fmap. exists (trx_sender t, acc). by rewrite elem_of_map_to_list. }
    destruct (outdated_nonce get_nonce t); naive_solver. }
  split_and!; [|done|done]. split; try done. simpl. etransitivity; [|exact Hsize].
  unfold queue_size. apply inj_le, map_subseteq_size, map_subseteq_spec. intros h t. rewrite HQ. by intros [].
Qed.

(** [purge] removes exactly the queued transactions whose nonce is below
    the nonce of their account in the final chain, from all indexes, and leaves
    the rest of the pool consistent. *)
Theorem purge_correct get_nonce q :
  queue_inv q ->
  let q' := purge get_nonce q in
  queue_inv q' /\ non_proposable_transactions_ (pool q') = non_proposable_transactions_ (pool q) /\
  forall h t, queue_transactions_ (pool q') !! h = Some t <->
    queue_transactions_ (pool q) !! h = Some t /\ outdated_nonce get_nonce t = false.
Proof. apply purge_effect. Qed.

(** ** Sequences of operations *)

Inductive queue_op :=
| OpInsert (t : Transaction) (proposable : bool) (last_block_number now : Z)
| OpErase (t : Transaction)
| OpBlockFinalized (block_number : Z)
| OpPurge (get_nonce : addr_t -> option Z)
| OpMarkKnown (hash : trx_hash_t).

Definition run_op iterate (q : TransactionQueue) (o : queue_op) : outcome TransactionQueue :=
  match o with
  | OpInsert t proposable n now => let* (q', _) := insert iterate q t proposable n now in Done q'
  | OpErase t => let* (p, _) := pool_erase (pool q) t in Done (with_pool q p)
  | OpBlockFinalized n => Done (blockFinalized q n)
  | OpPurge get_nonce => Done (purge get_nonce q)
  | OpMarkKnown h => markTransactionKnown q h
  end.

(** Transactions that are erased are the ones that were inserted. *)
Definition op_ok (q : TransactionQueue) (o : queue_op) : Prop :=
  match o with OpErase t => no_collision (pool q) t | _ => True end.

Lemma queue_op_effect iterate q o :
  (forall m, iterate m ≡ₚ map_to_list m) -> queue_inv q -> op_ok q o ->
  exists q', run_op iterate q o = Done q' /\ queue_inv q'.
Proof.
  intros Hperm Hinv Hok. destruct o as [t pr n now|t|n|g|h]; simpl in *.
  - destruct (insert_effect iterate q t pr n now Hperm Hinv) as (q' & st & -> & ? & _). by exists q'.
  - pose proof Hinv as [Hwf Hsize Hmax Hk Hp].
    destruct (pool_erase_effect (pool q) t Hwf Hok) as (p & -> & W & Q & _). simpl. eexists. split; [done|].
    split; try done. simpl. unfold queue_size in *. rewrite Q.
    pose proof (size_delete_le (queue_transactions_ (pool q)) (trx_hash t)). lia.
  - eexists. split; [done|]. by apply (blockFinalized_effect q n).
  - eexists. split; [done|]. by apply (purge_effect g q).
  - destruct Hinv as [Hwf Hsize Hmax Hk Hp]. unfold markTransactionKnown.
    destruct (know_effect q h) as (q' & -> & [K1 K2] & K3 & (L1 & _)); [done|].
    exists q'. split; [done|]. by split; rewrite ?K3, ?L1.
Qed.

(** A run in which every operation is admissible when it is executed. *)
Inductive runs iterate : TransactionQueue -> list queue_op -> TransactionQueue -> Prop :=
| runs_nil q : runs iterate q [] q
| runs_cons q o q1 ops q2 :
    op_ok q o -> run_op iterate q o = Done q1 -> runs iterate q1 ops q2 -> runs iterate q (o :: ops) q2.

Lemma new_queue_inv max_size : 0 <= max_size < 2 ^ 31 -> queue_inv (newTransactionQueue max_size).
Proof.
  intros Hm. split; simpl.
  - split; simpl.
    + split; [intros price; by rewrite ?lookup_empty|done].
    + split.
      * intros h t. unfold at_nonce. rewrite !lookup_empty. simpl. naive_solver.
      * intros a n t. unfold at_nonce. by rewrite lookup_empty.
      * intros a. by rewrite lookup_empty.
    + intros h b t. by rewrite lookup_empty.
    + intros h [t Ht]. by rewrite lookup_empty in Ht.
  - assert (queue_size emptyPool = 0) as -> by reflexivity. lia.
  - lia.
  - intros k. simpl. set_solver.
  - assert (max_size / 5 <= max_size) by (apply Z.div_le_upper_bound; lia).
    assert (0 <= max_size / 5) by (apply Z.div_pos; lia).
    unfold Expiration.params_ok. simpl. rewrite (wrap_id 64) by (unfold in_range, modulus; lia).
    rewrite !wrap_id by (unfold in_range, modulus; lia). lia.
Qed.


(** ** The gas price needed for inclusion *)

(** Gas of the queued transactions that cost at least [price]. *)
Definition gas_from (price : Z) (queue : gmap trx_hash_t Transaction) : Z :=
  map_sum (fun t => if price <=? trx_gas_price t then trx_gas t else 0) queue.

Definition total_gas (queue : gmap trx_hash_t Transaction) : Z := map_sum trx_gas queue.

(** Summing the entries of distinct prices counts each transaction once. *)
Lemma sum_gas_at prices queue :
  NoDup prices ->
  sum_list_Z (fun price => gas_at price queue) prices =
    map_sum (fun t => if decide (trx_gas_price t ∈ prices) then trx_gas t else 0) queue.
Proof.
  intros Hnd. induction prices as [|p prices IH]; simpl.
  - transitivity (map_sum (fun _ : Transaction => 0) queue).
    + induction queue as [|k x m Hk IHm] using map_ind; [done|]. by rewrite map_sum_insert.
    + by apply map_sum_ext.
  - apply NoDup_cons in Hnd as [Hp Hnd]. rewrite IH by done. clear IH. unfold gas_at.
    induction queue as [|k x m Hk IHm] using map_ind; [by rewrite !map_sum_empty|].
    rewrite !map_sum_insert by done. rewrite <- IHm.
    destruct (Z.eqb_spec (trx_gas_price x) p) as [->|].
    + rewrite (decide_False (P := p ∈ prices)), (decide_True (P := p ∈ p :: prices)) by set_solver. lia.
    + rewrite (decide_ext (trx_gas_price x ∈ p :: prices) (trx_gas_price x ∈ prices)) by set_solver. lia.
Qed.

(** The walk over the prices, without overflow. *)
Lemma min_gas_price_spec items limit total :
  (forall e, e ∈ items -> 0 <= e.2) -> 0 <= total < limit -> total + sum_list_Z snd items < 2 ^ 64 ->
  (total + sum_list_Z snd items < limit /\ min_gas_price items limit total = 1) \/
  exists pre price gas post, items = pre ++ (price, gas) :: post /\
    total + sum_list_Z snd pre < limit /\ limit <= total + sum_list_Z snd pre + gas /\
    min_gas_price items limit total = u256 (price + 1).
Proof.
  revert total. induction items as [|[price gas] items IH]; intros total Hpos Ht Hsum; simpl in *.
  - left. split; [lia|done].
  - assert (0 <= gas) by (apply (Hpos (price, gas)); set_solver).
    assert (0 <= sum_list_Z snd items) by (apply sum_list_Z_nonneg; intros; apply Hpos; set_solver).
    rewrite wrap_id by (unfold in_range, modulus; lia).
    destruct (Z.leb_spec limit (total + gas)).
    + right. exists [], price, gas, items. split_and!; simpl; [done|lia|lia|done].
    + destruct (IH (total + gas)) as [[Hl Hr]|(pre & p & g & post & -> & E1 & E2 & E3)];
        [intros; apply Hpos; set_solver|lia|lia| |].
      * left. split; [lia|done].
      * right. exists ((price, gas) :: pre), p, g, post. split_and!; simpl; [done|lia|lia|done].
Qed.

Lemma sum_entries p (l : list (Z * Z)) :
  counters_ok p -> (forall e, e ∈ l -> queue_transactions_gas_prices_ p !! e.1 = Some e.2) ->
  (forall h t, queue_transactions_ p !! h = Some t -> 0 <= trx_gas t) ->
  total_gas (queue_transactions_ p) < 2 ^ 64 ->
  sum_list_Z snd l = sum_list_Z (fun price => gas_at price (queue_transactions_ p)) l.*1.
Proof.
  intros Hc Hin Hpos Htot. induction l as [|[price gas] l IH]; simpl; [done|].
  rewrite IH by (intros; apply Hin; set_solver). f_equal.
  specialize (Hin (price, gas) ltac:(set_solver)). simpl in Hin.
  pose proof (c_gas _ Hc price) as Hg. rewrite Hin in Hg. simpl in Hg. rewrite Hg. apply wrap_id.
  unfold in_range, modulus. split.
  - apply map_sum_nonneg. intros k x Hx. case_match; [by eapply Hpos|lia].
  - eapply Z.le_lt_trans; [|exact Htot]. apply map_sum_le. intros k x Hx.
    pose proof (Hpos k x Hx). case_match; lia.
Qed.

(** A prefix of the descending walk contains all prices from its last one on. *)
Lemma descending_prefix (m : gmap Z Z) pre price gas post k g :
  reverse (map_items m) = pre ++ (price, gas) :: post -> m !! k = Some g ->
  (price < k -> k ∈ pre.*1) /\ (k ∈ pre.*1 -> price < k).
Proof.
  intros Hsplit Hk. pose proof (reverse_items_sorted m) as Hs. rewrite Hsplit in Hs.
  apply StronglySorted_app in Hs as (Hpre & _ & Hpost).
  apply StronglySorted_inv in Hpost as [_ Hpost].
  assert (NoDup (pre ++ (price, gas) :: post).*1) as Hnd.
  { rewrite <- Hsplit. rewrite reverse_Permutation. apply map_items_NoDup. }
  split.
  - intros Hlt. assert ((k, g) ∈ pre ++ (price, gas) :: post) as Hin
      by (rewrite <- Hsplit; by apply elem_of_reverse_items).
    apply elem_of_app in Hin as [Hin|Hin]; [apply list_elem_of_fmap; by exists (k, g)|].
    apply elem_of_cons in Hin as [[= -> ->]|Hin]; [lia|].
    rewrite Forall_forall in Hpost. specialize (Hpost _ Hin). unfold flip, key_le in Hpost. simpl in Hpost. lia.
  - intros ([k' g'] & -> & Hin)%list_elem_of_fmap. simpl.
    specialize (Hpre (k', g') (price, gas) Hin ltac:(set_solver)). unfold flip, key_le in Hpre. simpl in Hpre.
    assert (price <> k'); [|lia]. intros ->. rewrite fmap_app in Hnd. apply NoDup_app in Hnd as (_ & Hd & _).
    apply (Hd k'); [|set_solver]. apply list_elem_of_fmap. by exists (k', g').
Qed.

Section min_gas_price.
Context (p : Pool).
Hypothesis Hwf : pool_wf p.
Hypothesis Hpos : forall h t, queue_transactions_ p !! h = Some t -> 0 <= trx_gas t.
Hypothesis Htot : total_gas (queue_transactions_ p) < 2 ^ 64.

Let items : list (Z * Z) := reverse (map_items (queue_transactions_gas_prices_ p)).

Lemma items_entries e : e ∈ items -> queue_transactions_gas_prices_ p !! e.1 = Some e.2.
Proof using Type. destruct e as [k g]. apply elem_of_reverse_items. Qed.

(** A transaction with gas has an entry for its price. *)
Lemma price_has_entry h t :
  queue_transactions_ p !! h = Some t -> 0 < trx_gas t ->
  is_Some (queue_transactions_gas_prices_ p !! trx_gas_price t).
Proof using Hwf Hpos Htot.
  intros Ht Hg. pose proof (c_gas _ (wf_counters _ Hwf) (trx_gas_price t)) as Hc.
  destruct (queue_transactions_gas_prices_ p !! trx_gas_price t) as [g|]; [by exists g|]. simpl in Hc. exfalso.
  assert (forall k x, queue_transactions_ p !! k = Some x ->
    0 <= (if trx_gas_price x =? trx_gas_price t then trx_gas x else 0) <= trx_gas x) as Hb.
  { intros k x Hx. pose proof (Hpos k x Hx). case_match; lia. }
  assert (trx_gas t <= gas_at (trx_gas_price t) (queue_transactions_ p)).
  { unfold gas_at. etransitivity; [|apply (map_sum_lookup_le _ _ _ _ (fun k x Hx => proj1 (Hb k x Hx)) Ht)].
    by rewrite Z.eqb_refl. }
  assert (gas_at (trx_gas_price t) (queue_transactions_ p) <= total_gas (queue_transactions_ p)).
  { apply map_sum_le. intros k x Hx. by apply Hb in Hx as []. }
  rewrite wrap_id in Hc by (unfold in_range, modulus; lia). lia.
Qed.

Lemma sum_prices l (P : Z -> bool) :
  (forall e, e ∈ l -> e ∈ items) -> NoDup l.*1 ->
  (forall k, is_Some (queue_transactions_gas_prices_ p !! k) -> P k = true <-> k ∈ l.*1) ->
  sum_list_Z snd l =
    map_sum (fun t => if P (trx_gas_price t) then trx_gas t else 0) (queue_transactions_ p).
Proof using Hwf Hpos Htot.
  intros Hl Hnd HP.
  rewrite (sum_entries p l (wf_counters _ Hwf)) by (auto using items_entries).
  rewrite sum_gas_at by done. apply map_sum_ext. intros h t Ht.
  destruct (decide (trx_gas t = 0)) as [->|Hg]; [by case_decide; case_match|].
  pose proof (Hpos h t Ht). specialize (HP _ (price_has_entry h t Ht ltac:(lia))).
  destruct (P (trx_gas_price t)); case_decide; naive_solver.
Qed.
End min_gas_price.

(** With gas totals that fit their width, the price returned for a gas limit
    is the least one that gets a transaction into the next DAG block: the queued
    transactions that cost at least as much leave room below the limit, and with
    a lower price (unless it is already the minimum, one) they do not. *)
Theorem getMinGasPriceForBlockInclusion_correct p limit :
  pool_wf p -> 0 < limit ->
  (forall h t, queue_transactions_ p !! h = Some t -> 0 <= trx_gas t) ->
  (forall price g, queue_transactions_gas_prices_ p !! price = Some g -> 0 <= price < 2 ^ 256 - 1) ->
  total_gas (queue_transactions_ p) < 2 ^ 64 ->
  let price := getMinGasPriceForBlockInclusion p limit in
  gas_from price (queue_transactions_ p) < limit /\
  (price = 1 \/ limit <= gas_from (price - 1) (queue_transactions_ p)).
Proof.
  intros Hwf Hlim Hpos Hprice Htot. unfold getMinGasPriceForBlockInclusion. simpl.
  set (items := reverse (map_items (queue_transactions_gas_prices_ p))).
  assert (NoDup items.*1) as Hnd by (unfold items; rewrite reverse_Permutation; apply map_items_NoDup).
  assert (forall k, is_Some (queue_transactions_gas_prices_ p !! k) <-> k ∈ items.*1) as Hkeys.
  { intros k. rewrite list_elem_of_fmap. split.
    - intros [g Hg]. exists (k, g). split; [done|]. by apply elem_of_reverse_items.
    - intros ([k' g] & -> & Hin%elem_of_reverse_items). by exists g. }
  assert (sum_list_Z snd items = total_gas (queue_transactions_ p)) as Hsum.
  { rewrite (sum_prices p Hwf Hpos Htot items (fun _ => true)); [done|done|done|]. intros k Hk.
    split; [by rewrite <- Hkeys|done]. }
  destruct (min_gas_price_spec items limit 0) as [[Hl ->]|(pre & price & gas & post & Hsplit & H1 & H2 & ->)].
  - intros e He. pose proof (c_gas _ (wf_counters _ Hwf) e.1) as Hc.
    rewrite (items_entries p e He) in Hc. simpl in Hc. rewrite Hc. by apply wrap_range.
  - lia.
  - lia.
  - split; [|by left]. eapply Z.le_lt_trans; [|exact Hl]. rewrite Hsum. simpl. apply map_sum_le.
    intros k x Hx. pose proof (Hpos k x Hx). case_match; lia.
  - assert (queue_transactions_gas_prices_ p !! price = Some gas) as Hpg
      by (apply (items_entries p (price, gas)); fold items; rewrite Hsplit; set_solver).
    rewrite wrap_id by (specialize (Hprice price gas Hpg); unfold in_range, modulus; lia).
    assert (NoDup pre.*1 /\ NoDup (pre ++ [(price, gas)]).*1) as [Hn1 Hn2].
    { rewrite Hsplit in Hnd. rewrite cons_middle, app_assoc, fmap_app in Hnd.
      apply NoDup_app in Hnd as (Hnd & _ & _). split; [|done]. rewrite fmap_app in Hnd. by apply NoDup_app in Hnd as (? & _). }
    rewrite Hsplit in Hkeys. split.
    + assert (sum_list_Z snd pre < limit) as Hfirst by lia.
      eapply Z.le_lt_trans; [|exact Hfirst]. unfold gas_from.
      rewrite (sum_prices p Hwf Hpos Htot pre (fun k => price + 1 <=? k)); [done| |done|].
      * intros e He. fold items. rewrite Hsplit. set_solver.
      * intros k [g Hg]. destruct (descending_prefix _ _ _ _ _ k g Hsplit Hg). rewrite Z.leb_le. naive_solver lia.
    + right. replace (price + 1 - 1) with price by lia.
      assert (sum_list_Z snd pre + gas = sum_list_Z snd (pre ++ [(price, gas)])) as Hs.
      { clear. induction pre as [|[] pre IH]; simpl; [lia|]. lia. }
      assert (limit <= sum_list_Z snd (pre ++ [(price, gas)])) as Hlast by lia.
      etransitivity; [exact Hlast|]. unfold gas_from.
      rewrite (sum_prices p Hwf Hpos Htot (pre ++ [(price, gas)]) (fun k => price <=? k)); [done| |done|].
      * intros e He. fold items. rewrite Hsplit. set_solver.
      * intros k [g Hg]. destruct (descending_prefix _ _ _ _ _ k g Hsplit Hg) as [D1 D2].
        rewrite Z.leb_le, fmap_app, elem_of_app. simpl. rewrite list_elem_of_singleton.
        destruct (Z.lt_trichotomy price k) as [|[|]]; naive_solver lia.
Qed.

(** ** A small pool *)

Definition ex_t1 : Transaction := mkTransaction 101 7 0 5 21000 10.
Definition ex_t2 : Transaction := mkTransaction 102 7 1 9 30000 20.
Definition ex_t3 : Transaction := mkTransaction 103 8 0 6 40000 0.

Definition ex_insert (q : TransactionQueue) (t : Transaction) (proposable : bool) : TransactionQueue :=
  match insert map_to_list q t proposable 3 0 with Done (q', _) => q' | _ => q end.

Definition ex_queue : TransactionQueue :=
  ex_insert (ex_insert (ex_insert (newTransactionQueue 200) ex_t1 true) ex_t2 true) ex_t3 false.

Lemma ex_insert_inv q t proposable : queue_inv q -> queue_inv (ex_insert q t proposable).
Proof.
  intros Hinv. destruct (insert_effect map_to_list q t proposable 3 0) as (q' & st & E & ? & _); [done|done|].
  unfold ex_insert. by rewrite E.
Qed.

Lemma ex_queue_inv : queue_inv ex_queue.
Proof. do 3 apply ex_insert_inv. apply new_queue_inv. lia. Qed.

Lemma getOrderedTransactions_witness :
  getOrderedTransactions map_to_list (pool ex_queue) 0 = Done [ex_t1; ex_t2] /\
  exists full, full ≡ₚ (map_to_list (queue_transactions_ (pool ex_queue))).*2.
Proof.
  destruct (getOrderedTransactions_correct map_to_list (pool ex_queue) 0) as (full & H1 & H2 & _);
    [done|apply (q_pool _ ex_queue_inv)|]. split; [vm_compute; reflexivity|]. by exists full.
Defined.

Lemma insert_correct_witness :
  exists q' status, insert map_to_list ex_queue ex_t3 true 4 0 = Done (q', status) /\ queue_inv q'.
Proof.
  destruct (insert_correct map_to_list ex_queue ex_t3 true 4 0) as (q' & st & H1 & H2 & _);
    [done|apply ex_queue_inv|]. by exists q', st.
Defined.

Lemma blockFinalized_witness :
  non_proposable_transactions_ (pool (blockFinalized ex_queue 20)) !! 103 = None.
Proof.
  destruct (blockFinalized_correct ex_queue 20 ex_queue_inv) as (_ & _ & H). rewrite H.
  vm_compute. reflexivity.
Defined.

Lemma purge_witness : queue_inv (purge (fun _ => Some 1) ex_queue).
Proof. destruct (purge_correct (fun _ => Some 1) ex_queue ex_queue_inv) as (H & _). exact H. Defined.


Lemma getMinGasPrice_witness :
  getMinGasPriceForBlockInclusion (pool ex_queue) 40000 = 6 /\
  gas_from 6 (queue_transactions_ (pool ex_queue)) < 40000.
Proof.
  assert (getMinGasPriceForBlockInclusion (pool ex_queue) 40000 = 6) as E by (vm_compute; reflexivity).
  split; [exact E|]. rewrite <- E.
  refine (proj1 (getMinGasPriceForBlockInclusion_correct (pool ex_queue) 40000 (q_pool _ ex_queue_inv) _ _ _ _)).
  - lia.
  - assert (queue_transactions_ (pool ex_queue) = {[ 101 := ex_t1; 102 := ex_t2 ]}) as -> by (vm_compute; reflexivity).
    intros h t [[<- <-]|[_ [<- <-]%lookup_singleton_Some]]%lookup_insert_Some; simpl; lia.
  - assert (queue_transactions_gas_prices_ (pool ex_queue) = {[ 5 := 21000; 9 := 30000 ]}) as -> by (vm_compute; reflexivity).
    intros h t [[<- <-]|[_ [<- <-]%lookup_singleton_Some]]%lookup_insert_Some; lia.
  - vm_compute. reflexivity.
Defined.
