(* ===== verification/TransactionReorder.v ===== *)
(** * Nonce order in a period

    [PbftManager::reorderTransactions]: before a period is saved, the
    transactions of the accounts whose nonces are not in order are sorted. *)

From S2P Require Import Prelude Votes TransactionQueue.
Local Open Scope Z_scope.

(** First loop: the accounts that need reordering, with the position of their last
    transaction. *)
Fixpoint find_reversed (i : nat) (transactions : list Transaction) (account_nonce : gmap addr_t Z)
    (account_reverse_order : gmap addr_t nat) : gmap addr_t nat :=
  match transactions with
  | [] => account_reverse_order
  | t :: rest =>
      match account_reverse_order !! trx_sender t with
      | Some _ => find_reversed (S i) rest account_nonce (<[trx_sender t := i]> account_reverse_order)
      | None =>
          match account_nonce !! trx_sender t with
          | Some nonce =>
              if nonce <? trx_nonce t
              then find_reversed (S i) rest (<[trx_sender t := trx_nonce t]> account_nonce) account_reverse_order
              else if trx_nonce t <? nonce
              then find_reversed (S i) rest account_nonce (<[trx_sender t := i]> account_reverse_order)
              else find_reversed (S i) rest account_nonce account_reverse_order
          | None => find_reversed (S i) rest (<[trx_sender t := trx_nonce t]> account_nonce) account_reverse_order
          end
      end
  end.

(** [std::multimap::insert] puts an entry after those with the same key. *)
Fixpoint multimap_insert (t : Transaction) (l : list Transaction) : list Transaction :=
  match l with
  | [] => [t]
  | x :: l' => if trx_nonce t <? trx_nonce x then t :: l else x :: multimap_insert t l'
  end.

(** Second loop. *)
Fixpoint place_transactions (i : nat) (transactions : list Transaction) (account_reverse_order : gmap addr_t nat)
    (account_nonce_transactions : gmap addr_t (list Transaction)) : list Transaction :=
  match transactions with
  | [] => []
  | t :: rest =>
      match account_reverse_order !! trx_sender t with
      | Some last =>
          let sorted := multimap_insert t (default [] (account_nonce_transactions !! trx_sender t)) in
          let placed := place_transactions (S i) rest account_reverse_order
            (<[trx_sender t := sorted]> account_nonce_transactions) in
          if (last =? i)%nat then sorted ++ placed else placed
      | None => t :: place_transactions (S i) rest account_reverse_order account_nonce_transactions
      end
  end.

Definition reorderTransactions (transactions : list Transaction) : list Transaction :=
  let account_reverse_order := find_reversed 0 transactions ∅ ∅ in
  if decide (account_reverse_order = ∅) then transactions
  else place_transactions 0 transactions account_reverse_order ∅.

(** ** One account *)

Definition from_sender (s : addr_t) (l : list Transaction) : list Transaction := filter (fun t => trx_sender t = s) l.

Definition nonce_le (a b : Transaction) : Prop := trx_nonce a <= trx_nonce b.

(** The transactions with one nonce, in their order. *)
Definition with_nonce (n : Z) (l : list Transaction) : list Transaction := filter (fun t => trx_nonce t = n) l.

(** Insertion into a multimap, one after the other. *)
Definition nonce_sort (l : list Transaction) : list Transaction := foldl (fun acc t => multimap_insert t acc) [] l.

Lemma multimap_insert_perm t l : multimap_insert t l ≡ₚ t :: l.
Proof.
  induction l as [|x l IH]; simpl; [done|]. destruct (trx_nonce t <? trx_nonce x); [done|].
  rewrite IH. apply Permutation_swap.
Qed.

Lemma multimap_insert_sorted t l : StronglySorted nonce_le l -> StronglySorted nonce_le (multimap_insert t l).
Proof.
  induction 1 as [|x l Hs IH Hall]; simpl; [repeat constructor|].
  destruct (Z.ltb_spec (trx_nonce t) (trx_nonce x)).
  - constructor; [by constructor|]. constructor; [unfold nonce_le; lia|].
    eapply Forall_impl; [exact Hall|]. unfold nonce_le. intros y Hy. lia.
  - constructor; [done|]. rewrite multimap_insert_perm. constructor; [done|done].
Qed.

(** After the equal ones: insertion behind a list is appending. *)
Lemma multimap_insert_last t l : (forall x, x ∈ l -> trx_nonce x <= trx_nonce t) -> multimap_insert t l = l ++ [t].
Proof.
  induction l as [|x l IH]; intros Hall; simpl; [done|].
  destruct (Z.ltb_spec (trx_nonce t) (trx_nonce x)); [specialize (Hall x ltac:(by left)); lia|].
  f_equal. apply IH. intros y Hy. apply Hall. by right.
Qed.

Lemma multimap_insert_stable t l n :
  StronglySorted nonce_le l ->
  with_nonce n (multimap_insert t l) = with_nonce n l ++ with_nonce n [t].
Proof.
  unfold with_nonce. induction 1 as [|x l Hs IH Hall]; simpl; [done|].
  destruct (Z.ltb_spec (trx_nonce t) (trx_nonce x)).
  - change (t :: x :: l) with ([t] ++ (x :: l)). rewrite filter_app.
    destruct (decide (trx_nonce t = n)) as [E|E].
    + assert (filter (fun t => trx_nonce t = n) (x :: l) = []) as ->.
      { apply list_filter_drops. intros y [->|Hy]%elem_of_cons; [lia|]. rewrite Forall_forall in Hall.
        specialize (Hall y Hy). unfold nonce_le in Hall. lia. }
      by rewrite app_nil_r.
    + by rewrite (filter_cons_False _ t) by done; rewrite filter_nil, app_nil_r.
  - rewrite !(filter_cons _ x). rewrite IH. by destruct (decide _).
Qed.

Lemma nonce_sort_from l acc :
  StronglySorted nonce_le acc ->
  let r := foldl (fun acc t => multimap_insert t acc) acc l in
  r ≡ₚ acc ++ l /\ StronglySorted nonce_le r /\ forall n, with_nonce n r = with_nonce n acc ++ with_nonce n l.
Proof.
  revert acc. induction l as [|t l IH]; intros acc Hs; simpl.
  - rewrite app_nil_r. split_and!; [done|done|]. intros n. by rewrite app_nil_r.
  - destruct (IH (multimap_insert t acc)) as (Hp & Hso & Hn); [by apply multimap_insert_sorted|].
    split_and!; [|done|].
    + rewrite Hp, multimap_insert_perm. simpl. by rewrite Permutation_middle.
    + intros n. rewrite Hn, multimap_insert_stable by done. rewrite <- app_assoc. f_equal.
      unfold with_nonce. by rewrite <- filter_app.
Qed.

Lemma nonce_sort_sorted_from l acc :
  StronglySorted nonce_le (acc ++ l) -> foldl (fun acc t => multimap_insert t acc) acc l = acc ++ l.
Proof.
  revert acc. induction l as [|t l IH]; intros acc Hs; simpl; [by rewrite app_nil_r|].
  rewrite multimap_insert_last, IH; [by rewrite <- app_assoc|by rewrite <- app_assoc|].
  intros x Hx. apply StronglySorted_app in Hs as (Hs & _ & _). apply (Hs x t); [done|by left].
Qed.

(** ** The first loop *)

(** Position of the last transaction of an account. *)
Fixpoint last_index (i : nat) (s : addr_t) (l : list Transaction) : option nat :=
  match l with
  | [] => None
  | t :: l' =>
      match last_index (S i) s l' with
      | Some k => Some k
      | None => if decide (trx_sender t = s) then Some i else None
      end
  end.

Definition nonces_sorted (bound : option Z) (l : list Transaction) : Prop :=
  StronglySorted Z.le (option_list bound ++ (trx_nonce <$> l)).

Lemma sorted_equal n ns : StronglySorted Z.le (n :: n :: ns) <-> StronglySorted Z.le (n :: ns).
Proof.
  split; [by intros [? _]%StronglySorted_inv|]. intros Hs. constructor; [done|].
  apply StronglySorted_inv in Hs as [_ Hall]. by constructor; [lia|].
Qed.

Lemma sorted_raise n m ns : n <= m -> StronglySorted Z.le (n :: m :: ns) <-> StronglySorted Z.le (m :: ns).
Proof.
  intros Hle. split; [by intros [? _]%StronglySorted_inv|]. intros Hs. constructor; [done|].
  constructor; [done|]. apply StronglySorted_inv in Hs as [_ Hall]. eapply Forall_impl; [exact Hall|]. simpl. lia.
Qed.

Lemma from_sender_cons s t l :
  from_sender s (t :: l) = if decide (trx_sender t = s) then t :: from_sender s l else from_sender s l.
Proof. unfold from_sender. by rewrite filter_cons. Qed.

Lemma last_index_none i s l : last_index i s l = None <-> from_sender s l = [].
Proof.
  revert i. induction l as [|t l IH]; intros i; simpl; [done|]. rewrite from_sender_cons.
  destruct (last_index (S i) s l) as [k|] eqn:E.
  - split; [done|]. destruct (decide (trx_sender t = s)); [done|]. intros Hn.
    apply (IH (S i)) in Hn. congruence.
  - destruct (decide (trx_sender t = s)); [done|]. split; [|done]. intros _. by apply (IH (S i)).
Qed.

(** A descent needs one more transaction. *)
Lemma unsorted_last i s l n :
  ~ StronglySorted Z.le (n :: (trx_nonce <$> from_sender s l)) -> exists k, last_index i s l = Some k.
Proof.
  intros Hs. destruct (last_index i s l) as [k|] eqn:El; [by exists k|]. apply last_index_none in El. rewrite El in Hs.
  destruct Hs. repeat constructor.
Qed.

Lemma find_reversed_spec s l i an ro :
  match ro !! s with
  | Some k => find_reversed i l an ro !! s = Some (default k (last_index i s l))
  | None => (nonces_sorted (an !! s) (from_sender s l) /\ find_reversed i l an ro !! s = None) \/
      (~ nonces_sorted (an !! s) (from_sender s l) /\ find_reversed i l an ro !! s = last_index i s l)
  end.
Proof.
  revert i an ro. induction l as [|t l IH]; intros i an ro; simpl.
  { destruct (ro !! s) as [k|] eqn:E; [done|]. left. split; [|done]. unfold nonces_sorted. simpl.
    destruct (an !! s); repeat constructor. }
  rewrite from_sender_cons. destruct (decide (trx_sender t = s)) as [Ht|Ht].
  - rewrite Ht. destruct (ro !! s) as [k|] eqn:Er.
    { specialize (IH (S i) an (<[s := i]> ro)). rewrite lookup_insert_eq in IH. rewrite IH.
      by destruct (last_index (S i) s l). }
    destruct (an !! s) as [n|] eqn:En.
    + destruct (Z.ltb_spec n (trx_nonce t)); [|destruct (Z.ltb_spec (trx_nonce t) n)].
      * specialize (IH (S i) (<[s := trx_nonce t]> an) ro). rewrite Er, lookup_insert_eq in IH.
        unfold nonces_sorted in *. simpl in *. rewrite sorted_raise by lia.
        destruct IH as [[Hs ->]|[Hs ->]]; [by left|right]. split; [done|]. by destruct (unsorted_last (S i) _ _ _ Hs) as [k ->].
      * right. split; [unfold nonces_sorted; simpl; intros [_ Hf]%StronglySorted_inv; inversion Hf; lia|].
        specialize (IH (S i) an (<[s := i]> ro)). rewrite lookup_insert_eq in IH. rewrite IH.
        by destruct (last_index (S i) s l).
      * assert (trx_nonce t = n) as E by lia. specialize (IH (S i) an ro). rewrite Er, En in IH.
        unfold nonces_sorted in *. simpl in *. rewrite E, sorted_equal.
        destruct IH as [[Hs ->]|[Hs ->]]; [by left|right]. split; [done|]. by destruct (unsorted_last (S i) _ _ _ Hs) as [k ->].
    + specialize (IH (S i) (<[s := trx_nonce t]> an) ro). rewrite Er, lookup_insert_eq in IH.
      unfold nonces_sorted in *. simpl in *. destruct IH as [[Hs ->]|[Hs ->]]; [by left|right]. split; [done|]. by destruct (unsorted_last (S i) _ _ _ Hs) as [k ->].
  - assert (forall an' ro', an' !! s = an !! s -> ro' !! s = ro !! s ->
      match ro !! s with
      | Some k => find_reversed (S i) l an' ro' !! s = Some (default k (last_index (S i) s l))
      | None => (nonces_sorted (an !! s) (from_sender s l) /\ find_reversed (S i) l an' ro' !! s = None) \/
          (~ nonces_sorted (an !! s) (from_sender s l) /\ find_reversed (S i) l an' ro' !! s = last_index (S i) s l)
      end) as Hskip by (intros an' ro' Ha Hr; specialize (IH (S i) an' ro'); by rewrite Ha, Hr in IH).
    replace (match last_index (S i) s l with Some k => Some k | None => None end) with (last_index (S i) s l)
      by (by destruct (last_index (S i) s l)).
    destruct (ro !! trx_sender t); [apply Hskip; [done|by apply lookup_insert_ne]|].
    destruct (an !! trx_sender t) as [n|]; [|apply Hskip; [by apply lookup_insert_ne|done]].
    destruct (n <? trx_nonce t); [apply Hskip; [by apply lookup_insert_ne|done]|].
    destruct (trx_nonce t <? n); apply Hskip; try done. by apply lookup_insert_ne.
Qed.

(** ** The second loop *)

Definition own_lists (acc : gmap addr_t (list Transaction)) : Prop :=
  forall s l, acc !! s = Some l -> from_sender s l = l.

Lemma from_sender_perm s l l' : l ≡ₚ l' -> from_sender s l ≡ₚ from_sender s l'.
Proof. intros Hp. unfold from_sender. by rewrite Hp. Qed.

Lemma from_sender_all s l : from_sender s l = l <-> forall t, t ∈ l -> trx_sender t = s.
Proof.
  split.
  - intros E t Ht. rewrite <- E in Ht. unfold from_sender in Ht. by apply list_elem_of_filter in Ht as [? _].
  - intros Hall. by apply list_filter_keeps.
Qed.

Lemma from_sender_other s s' l : s <> s' -> from_sender s' l = l -> from_sender s l = [].
Proof.
  intros Hne Hl. rewrite from_sender_all in Hl. apply list_filter_drops. intros t Ht E. apply Hne. rewrite <- E. by apply Hl.
Qed.

Lemma own_lists_insert acc t :
  own_lists acc -> own_lists (<[trx_sender t := multimap_insert t (default [] (acc !! trx_sender t))]> acc).
Proof.
  intros Hacc s l. rewrite lookup_insert. case_decide as D; [|apply Hacc]. intros [= <-]. subst s.
  apply from_sender_all. intros x. rewrite multimap_insert_perm. intros [->|Hx]%elem_of_cons; [done|].
  destruct (acc !! trx_sender t) as [l|] eqn:E; [|by apply elem_of_nil in Hx].
  specialize (Hacc _ _ E). rewrite from_sender_all in Hacc. by apply Hacc.
Qed.

Lemma last_index_bound i s l k : last_index i s l = Some k -> (i <= k)%nat.
Proof.
  revert i. induction l as [|t l IH]; intros i; simpl; [done|]. destruct (last_index (S i) s l) as [k'|] eqn:E.
  - intros [= ->]. specialize (IH (S i) E). lia.
  - destruct (decide _); [intros [= ->]; lia|done].
Qed.

(** One iteration, seen by an account that is not the sender. *)
Lemma place_other s t l i ro acc :
  trx_sender t <> s -> own_lists acc ->
  exists acc', own_lists acc' /\ acc' !! s = acc !! s /\
    from_sender s (place_transactions i (t :: l) ro acc) = from_sender s (place_transactions (S i) l ro acc').
Proof.
  intros Hne Hacc. simpl. destruct (ro !! trx_sender t) as [k|].
  - pose proof (own_lists_insert acc t Hacc) as Hacc'. eexists. split; [exact Hacc'|].
    split; [by apply lookup_insert_ne|]. destruct (k =? i)%nat; [|done].
    unfold from_sender at 1. rewrite filter_app.
    assert (filter (fun x => trx_sender x = s) (multimap_insert t (default [] (acc !! trx_sender t))) = []) as ->; [|done].
    apply (from_sender_other s (trx_sender t)); [congruence|]. apply (Hacc' (trx_sender t)), lookup_insert_eq.
  - exists acc. split_and!; [done|done|]. by rewrite from_sender_cons, decide_False.
Qed.

(** What the loop emits for an account that is in order. *)
Lemma place_unmarked s l i ro acc :
  ro !! s = None -> own_lists acc -> from_sender s (place_transactions i l ro acc) = from_sender s l.
Proof.
  intros Hr. revert i acc. induction l as [|t l IH]; intros i acc Hacc; [done|].
  rewrite (from_sender_cons s t l). destruct (decide (trx_sender t = s)) as [Ht|Ht].
  - simpl. rewrite Ht, Hr. rewrite from_sender_cons, decide_True by done. f_equal. by apply IH.
  - destruct (place_other s t l i ro acc Ht Hacc) as (acc' & Hacc' & _ & ->). by apply IH.
Qed.

(** For the others: nothing before the last transaction, all of them there. *)
Lemma place_marked s l i ro acc k :
  ro !! s = Some k -> own_lists acc ->
  (last_index i s l = Some k -> from_sender s (place_transactions i l ro acc) =
     foldl (fun acc t => multimap_insert t acc) (default [] (acc !! s)) (from_sender s l)) /\
  (last_index i s l = None -> from_sender s (place_transactions i l ro acc) = []).
Proof.
  intros Hr. revert i acc. induction l as [|t l IH]; intros i acc Hacc; [done|].
  rewrite (from_sender_cons s t l). destruct (decide (trx_sender t = s)) as [Ht|Ht].
  - simpl. rewrite decide_True by done. split; [|by destruct (last_index (S i) s l)]. rewrite Ht, Hr.
    pose proof (own_lists_insert acc t Hacc) as Hacc'. rewrite Ht in Hacc'.
    destruct (IH (S i) _ Hacc') as [IH1 IH2]. rewrite lookup_insert_eq in IH1. simpl in IH1.
    destruct (last_index (S i) s l) as [k'|] eqn:El; intros [= ->].
    + pose proof (last_index_bound _ _ _ _ El). destruct (Nat.eqb_spec k i); [lia|]. by apply IH1.
    + rewrite Nat.eqb_refl. unfold from_sender at 1. rewrite filter_app.
      unfold from_sender in IH2 at 1. rewrite IH2 by done. rewrite app_nil_r.
      apply last_index_none in El. rewrite El. simpl. apply (Hacc' s), lookup_insert_eq.
  - destruct (place_other s t l i ro acc Ht Hacc) as (acc' & Hacc' & Hs & ->). simpl. rewrite decide_False by done.
    replace (match last_index (S i) s l with Some k => Some k | None => None end) with (last_index (S i) s l)
      by (by destruct (last_index (S i) s l)). rewrite <- Hs. by apply IH.
Qed.

(** ** The result *)

Lemma nonces_sorted_iff l : nonces_sorted None l <-> StronglySorted nonce_le l.
Proof.
  unfold nonces_sorted. simpl. split; (induction l as [|t l IH]; [intros _; constructor|]); simpl;
    intros [Hs Hall]%StronglySorted_inv; (constructor; [by apply IH|]); apply Forall_forall.
  - intros x Hx. apply (proj1 (Forall_forall _ _) Hall), list_elem_of_fmap. by exists x.
  - intros n (x & -> & Hx)%list_elem_of_fmap. by apply (proj1 (Forall_forall _ _) Hall).
Qed.

Lemma nonce_sort_id l : nonces_sorted None l -> nonce_sort l = l.
Proof. intros Hs%nonces_sorted_iff. by apply (nonce_sort_sorted_from l []). Qed.

Lemma reorder_sender txs s : from_sender s (reorderTransactions txs) = nonce_sort (from_sender s txs).
Proof.
  unfold reorderTransactions. pose proof (find_reversed_spec s txs 0 ∅ ∅) as Hf. rewrite !lookup_empty in Hf.
  case_decide as D.
  - rewrite D, lookup_empty in Hf. destruct Hf as [[Hs _]|[Hs Hl]]; [by rewrite nonce_sort_id|].
    symmetry in Hl. apply last_index_none in Hl. by rewrite Hl.
  - assert (own_lists ∅) as He by (intros s' l; by rewrite lookup_empty).
    destruct Hf as [[Hs Hn]|[Hs Hl]].
    + rewrite place_unmarked by done. by rewrite nonce_sort_id.
    + destruct (last_index 0 s txs) as [k|] eqn:El.
      * destruct (place_marked s txs 0 _ ∅ k Hl He) as [Hp _]. rewrite (Hp El). by rewrite lookup_empty.
      * apply last_index_none in El. rewrite place_unmarked by done. by rewrite El.
Qed.

Lemma count_from_sender l t :
  count_occ Transaction_eq_dec (from_sender (trx_sender t) l) t = count_occ Transaction_eq_dec l t.
Proof.
  induction l as [|x l IH]; [done|]. rewrite from_sender_cons. simpl.
  destruct (decide (trx_sender x = trx_sender t)) as [E|E]; simpl; destruct (Transaction_eq_dec x t) as [->|]; congruence.
Qed.

Lemma reorder_perm txs : reorderTransactions txs ≡ₚ txs.
Proof.
  apply (Permutation_count_occ Transaction_eq_dec). intros t.
  rewrite <- count_from_sender, <- (count_from_sender txs), reorder_sender.
  apply (Permutation_count_occ Transaction_eq_dec).
  destruct (nonce_sort_from (from_sender (trx_sender t) txs) []) as [Hp _]; [constructor|done].
Qed.

(** The accounts in order keep their places among each other. *)
Lemma place_keeps l i ro acc :
  own_lists acc -> (forall s l, acc !! s = Some l -> is_Some (ro !! s)) ->
  filter (fun t => ro !! trx_sender t = None) (place_transactions i l ro acc) =
  filter (fun t => ro !! trx_sender t = None) l.
Proof.
  revert i acc. induction l as [|t l IH]; intros i acc Hacc Hro; [done|]. simpl. rewrite (filter_cons _ t l).
  destruct (ro !! trx_sender t) as [k|] eqn:Er.
  - rewrite decide_False by done. pose proof (own_lists_insert acc t Hacc) as Hacc'.
    assert (forall s l, <[trx_sender t := multimap_insert t (default [] (acc !! trx_sender t))]> acc !! s = Some l ->
      is_Some (ro !! s)) as Hro'.
    { intros s l'. rewrite lookup_insert. case_decide as D; [|apply Hro]. intros _. rewrite <- D, Er. by eexists. }
    destruct (k =? i)%nat; [|by apply IH]. rewrite filter_app, IH by done.
    rewrite list_filter_drops; [done|]. intros x Hx.
    assert (trx_sender x = trx_sender t) as ->; [|by rewrite Er].
    specialize (Hacc' (trx_sender t) _ (lookup_insert_eq _ _ _)). rewrite from_sender_all in Hacc'. by apply Hacc'.
  - rewrite decide_True, filter_cons, decide_True by done. f_equal. by apply IH.
Qed.

(** The account's transactions are already in nonce order. *)
Definition in_order (txs : list Transaction) (t : Transaction) : Prop :=
  nonce_sort (from_sender (trx_sender t) txs) = from_sender (trx_sender t) txs.

#[export] Instance in_order_dec txs t : Decision (in_order txs t).
Proof. unfold in_order. apply _. Defined.

Lemma in_order_unmarked txs t :
  t ∈ txs -> in_order txs t <-> find_reversed 0 txs ∅ ∅ !! trx_sender t = None.
Proof.
  intros Ht. pose proof (find_reversed_spec (trx_sender t) txs 0 ∅ ∅) as Hf. rewrite !lookup_empty in Hf.
  unfold in_order. destruct Hf as [[Hs Hn]|[Hs Hl]].
  - split; [done|]. intros _. by apply nonce_sort_id.
  - split.
    + intros E. destruct Hs. apply nonces_sorted_iff. rewrite <- E.
      by destruct (nonce_sort_from (from_sender (trx_sender t) txs) []) as (_ & Hso & _); [constructor|].
    + rewrite Hl. intros Hnone%last_index_none. rewrite Hnone. done.
Qed.

(** The transactions of a period after [reorderTransactions] are the same
    ones; those of one account are in non-decreasing nonce order, equal nonces
    in their old order; and the transactions of accounts that were already in
    order keep their order among each other. *)
Theorem reorderTransactions_correct txs :
  reorderTransactions txs ≡ₚ txs /\
  (forall s, StronglySorted nonce_le (from_sender s (reorderTransactions txs)) /\
     forall n, with_nonce n (from_sender s (reorderTransactions txs)) = with_nonce n (from_sender s txs)) /\
  filter (in_order txs) (reorderTransactions txs) = filter (in_order txs) txs.
Proof.
  split_and!; [apply reorder_perm| |].
  - intros s. rewrite reorder_sender.
    destruct (nonce_sort_from (from_sender s txs) []) as (_ & Hs & Hn); [constructor|]. split; [done|].
    intros n. by rewrite Hn.
  - rewrite (list_filter_iff' _ (fun t => find_reversed 0 txs ∅ ∅ !! trx_sender t = None) (reorderTransactions txs))
      by (intros t Ht; apply in_order_unmarked; by rewrite <- (reorder_perm txs)).
    rewrite (list_filter_iff' _ (fun t => find_reversed 0 txs ∅ ∅ !! trx_sender t = None) txs)
      by (intros t Ht; by apply in_order_unmarked).
    unfold reorderTransactions. case_decide; [done|]. apply place_keeps; intros s l; by rewrite lookup_empty.
Qed.

Example ex_reorder :
  let tx h s n := mkTransaction h s n 1 1 1 in
  reorderTransactions [tx 1 7 5; tx 2 8 0; tx 3 7 4; tx 4 9 1; tx 5 7 5; tx 6 8 1] =
    [tx 2 8 0; tx 4 9 1; tx 3 7 4; tx 1 7 5; tx 5 7 5; tx 6 8 1].
Proof. vm_compute. reflexivity. Qed.
