(* ===== verification/TransactionManager.v ===== *)
(** * The transaction manager

    [TransactionManager] (consensus/src/transaction/transaction_manager.cpp): a
    transaction waits in the pool, is part of a DAG block that is not finalized, or is
    finalized; the manager moves it between these places and the database.  Accounts,
    gas estimations, signatures and the data of a transaction that only its
    verification reads are answers of the environment. *)

From S2P Require Import Prelude Votes Caches TransactionQueue TransactionPool TransactionOrder TransactionQueueOps.
Local Open Scope Z_scope.
Local Open Scope outcome_scope.

(** ** Data *)

Definition kEstimateGasLimit : Z := 200000.
Definition kMinTxGas : Z := 21000.
Definition kRecentlyFinalizedTransactionsFactor : Z := 2.
Definition transaction_purge_interval : Z := 100.

Record TrxConfig := mkTrxConfig {
  tc_chain_id : Z;
  tc_trx_max_gas_limit : Z;
  tc_trx_min_gas_price : Z;
  tc_isOnCornusHardfork : Z -> bool;
  tc_propose_dag_gas_limit : Z;
  tc_transactions_pool_size : Z;
}.

Record Account := mkAccount { acc_nonce : Z; acc_balance : Z }.

(** The answers of the final chain and what only verification reads of a transaction. *)
Record TrxEnv := mkTrxEnv {
  te_account : addr_t -> option Account;
  te_account_at : PbftPeriod -> addr_t -> option Account;
  te_lastBlockNumber : Z;
  te_delegationDelay : Z;
  te_call : Transaction -> PbftPeriod -> Z;             (* [gas_used] of the execution *)
  te_chain_id : Transaction -> Z;
  te_value : Transaction -> Z;
  te_intrinsicGasCovered : Transaction -> bool;
  te_signature_ok : Transaction -> bool;
  te_system_transaction : trx_hash_t -> option Transaction;
  te_now : Z;
}.

(** The columns transactions, trx_period, period_data and the transaction count.
    Locations of system transactions, which no block and no pool contains, belong to the
    environment. *)
Record TrxDb := mkTrxDb {
  db_transactions : gmap trx_hash_t Transaction;
  db_trx_period : gmap trx_hash_t (PbftPeriod * Z);
  db_period_transactions : gmap PbftPeriod (list Transaction);
  db_TrxCount : Z;
}.

Record TransactionManager := mkTransactionManager {
  transactions_pool_ : TransactionQueue;
  nonfinalized_transactions_in_dag_ : gmap trx_hash_t Transaction;
  recently_finalized_transactions_ : gmap trx_hash_t Transaction;
  recently_finalized_transactions_per_period_ : gmap PbftPeriod (list trx_hash_t);
  estimations_cache_ : CacheMap.ExpirationCacheMap Z Z;
  trx_count_ : Z;
  trx_db : TrxDb;
  transaction_added_ : list trx_hash_t;                 (* emitted events *)
}.

Definition tm_pool (m : TransactionManager) (q : TransactionQueue) : TransactionManager :=
  mkTransactionManager q (nonfinalized_transactions_in_dag_ m) (recently_finalized_transactions_ m)
    (recently_finalized_transactions_per_period_ m) (estimations_cache_ m) (trx_count_ m) (trx_db m) (transaction_added_ m).
Definition tm_dag (m : TransactionManager) (d : gmap trx_hash_t Transaction) : TransactionManager :=
  mkTransactionManager (transactions_pool_ m) d (recently_finalized_transactions_ m)
    (recently_finalized_transactions_per_period_ m) (estimations_cache_ m) (trx_count_ m) (trx_db m) (transaction_added_ m).
Definition tm_recent (m : TransactionManager) (r : gmap trx_hash_t Transaction) (l : gmap PbftPeriod (list trx_hash_t)) : TransactionManager :=
  mkTransactionManager (transactions_pool_ m) (nonfinalized_transactions_in_dag_ m) r l (estimations_cache_ m) (trx_count_ m)
    (trx_db m) (transaction_added_ m).
Definition tm_cache (m : TransactionManager) (c : CacheMap.ExpirationCacheMap Z Z) : TransactionManager :=
  mkTransactionManager (transactions_pool_ m) (nonfinalized_transactions_in_dag_ m) (recently_finalized_transactions_ m)
    (recently_finalized_transactions_per_period_ m) c (trx_count_ m) (trx_db m) (transaction_added_ m).
Definition tm_count (m : TransactionManager) (n : Z) : TransactionManager :=
  mkTransactionManager (transactions_pool_ m) (nonfinalized_transactions_in_dag_ m) (recently_finalized_transactions_ m)
    (recently_finalized_transactions_per_period_ m) (estimations_cache_ m) n (trx_db m) (transaction_added_ m).
Definition tm_db (m : TransactionManager) (d : TrxDb) : TransactionManager :=
  mkTransactionManager (transactions_pool_ m) (nonfinalized_transactions_in_dag_ m) (recently_finalized_transactions_ m)
    (recently_finalized_transactions_per_period_ m) (estimations_cache_ m) (trx_count_ m) d (transaction_added_ m).
Definition tm_emit (m : TransactionManager) (h : trx_hash_t) : TransactionManager :=
  mkTransactionManager (transactions_pool_ m) (nonfinalized_transactions_in_dag_ m) (recently_finalized_transactions_ m)
    (recently_finalized_transactions_per_period_ m) (estimations_cache_ m) (trx_count_ m) (trx_db m) (transaction_added_ m ++ [h]).

Definition in_map {A} (m : gmap Z A) (h : Z) : bool := bool_decide (is_Some (m !! h)).

(** ** Database *)

Definition addTransactionToBatch (d : TrxDb) (t : Transaction) : TrxDb :=
  mkTrxDb (<[trx_hash t := t]> (db_transactions d)) (db_trx_period d) (db_period_transactions d) (db_TrxCount d).
Definition removeTransactionToBatch (d : TrxDb) (h : trx_hash_t) : TrxDb :=
  mkTrxDb (delete h (db_transactions d)) (db_trx_period d) (db_period_transactions d) (db_TrxCount d).
Definition saveTrxCount (d : TrxDb) (n : Z) : TrxDb :=
  mkTrxDb (db_transactions d) (db_trx_period d) (db_period_transactions d) n.
Definition transactionFinalized (d : TrxDb) (h : trx_hash_t) : bool := in_map (db_trx_period d) h.

(** The transactions in [savePeriodData]. *)
Fixpoint save_locations (period : PbftPeriod) (pos : Z) (trxs : list Transaction) (d : TrxDb) : TrxDb :=
  match trxs with
  | [] => d
  | t :: rest =>
      let d := removeTransactionToBatch d (trx_hash t) in
      save_locations period (u32 (pos + 1)) rest
        (mkTrxDb (db_transactions d) (<[trx_hash t := (period, pos)]> (db_trx_period d)) (db_period_transactions d) (db_TrxCount d))
  end.

Definition savePeriodTransactions (d : TrxDb) (period : PbftPeriod) (trxs : list Transaction) : TrxDb :=
  let d := save_locations period 0 trxs d in
  mkTrxDb (db_transactions d) (db_trx_period d) (<[period := trxs]> (db_period_transactions d)) (db_TrxCount d).

(** ** Operations *)

Section manager.
Context (cfg : TrxConfig) (est_key : trx_hash_t -> PbftPeriod -> Z)
  (iterate : gmap addr_t (gmap Z Transaction) -> list (addr_t * gmap Z Transaction)).

(** [est_key] is the hash of transaction hash and period. *)
Definition estimateTransactionGas (env : TrxEnv) (m : TransactionManager) (t : Transaction) (period : PbftPeriod) :
    outcome (TransactionManager * Z) :=
  if trx_gas t <=? kEstimateGasLimit then Done (m, trx_gas t)
  else
    let key := est_key (trx_hash t) period in
    match CacheMap.cm_get 0 (estimations_cache_ m) key with
    | (cached, true) => Done (m, cached)
    | (_, false) =>
        let result := te_call env t period in
        let* (c, _) := CacheMap.cm_insert (estimations_cache_ m) key result in
        Done (tm_cache m c, result)
    end.

(** The estimations run in a thread pool; their sum does not depend on the order. *)
Definition estimateTransactions (env : TrxEnv) (m : TransactionManager) (trxs : list Transaction) (period : PbftPeriod) :
    outcome (TransactionManager * Z) :=
  ofold (fun acc t =>
    if trx_gas t <=? kEstimateGasLimit then Done (acc.1, u64 (acc.2 + trx_gas t))
    else let* (m, gas) := estimateTransactionGas env acc.1 t period in Done (m, u64 (acc.2 + gas))) trxs (m, 0).

Inductive verify_error := ChainIdMismatch | InvalidGas | IntrinsicGasTooLow | InvalidSignature | GasPriceTooLow.

Definition verifyTransaction (env : TrxEnv) (t : Transaction) : option verify_error :=
  if negb (te_chain_id env t =? tc_chain_id cfg) then Some ChainIdMismatch
  else if tc_trx_max_gas_limit cfg <? trx_gas t then Some InvalidGas
  else if tc_isOnCornusHardfork cfg (te_lastBlockNumber env) && negb (te_intrinsicGasCovered env t) then Some IntrinsicGasTooLow
  else if negb (te_signature_ok env t) then Some InvalidSignature
  else if trx_gas_price t <? tc_trx_min_gas_price cfg then Some GasPriceTooLow
  else None.

(** V + GP * GL in 256 bits. *)
Definition getCost (env : TrxEnv) (t : Transaction) : Z := u256 (u256 (trx_gas_price t * trx_gas t) + te_value env t).

Definition isProposable (env : TrxEnv) (t : Transaction) : bool :=
  match te_account env (trx_sender t) with
  | None => false
  | Some a => (acc_nonce a <=? trx_nonce t) && (getCost env t <=? acc_balance a)
  end && (trx_gas t <=? tc_propose_dag_gas_limit cfg).

Definition insertValidatedTransaction (env : TrxEnv) (m : TransactionManager) (t : Transaction) (insert_non_proposable : bool) :
    outcome (TransactionManager * TransactionStatus) :=
  if in_map (nonfinalized_transactions_in_dag_ m) (trx_hash t) then Done (m, Known)
  else if in_map (recently_finalized_transactions_ m) (trx_hash t) then Done (m, Known)
  else
    let proposable := isProposable env t in
    if negb proposable && negb insert_non_proposable then Done (m, Known)
    else
      let m := if proposable then tm_emit m (trx_hash t) else m in
      let* (q, status) := insert iterate (transactions_pool_ m) t proposable (te_lastBlockNumber env) (te_now env) in
      Done (tm_pool m q, status).

Inductive insert_answer := InsertOk | AlreadyInPool | VerifyFailed (e : verify_error) | AlreadyFinalized (period : PbftPeriod) | CouldNotInsert.

Definition insertTransaction (env : TrxEnv) (m : TransactionManager) (t : Transaction) : outcome (TransactionManager * insert_answer) :=
  if isTransactionKnown (transactions_pool_ m) (trx_hash t) then Done (m, AlreadyInPool)
  else
    match verifyTransaction env t with
    | Some e => Done (m, VerifyFailed e)
    | None =>
        let* (m, status) := insertValidatedTransaction env m t false in
        Done (m, if bool_decide (status = Inserted) then InsertOk
                 else match db_trx_period (trx_db m) !! trx_hash t with Some (p, _) => AlreadyFinalized p | None => CouldNotInsert end)
    end.

Definition getPoolTransactions (m : TransactionManager) (hashes : list trx_hash_t) : list Transaction * list trx_hash_t :=
  (omap (pool_get (pool (transactions_pool_ m))) hashes,
   filter (fun h => pool_get (pool (transactions_pool_ m)) h = None) hashes).

Definition db_getTransaction (env : TrxEnv) (d : TrxDb) (h : trx_hash_t) : option Transaction :=
  match db_transactions d !! h with
  | Some t => Some t
  | None =>
      match db_trx_period d !! h with
      | Some (p, pos) => db_period_transactions d !! p ≫= fun l => l !! Z.to_nat pos
      | None => te_system_transaction env h
      end
  end.

Definition getTransaction (env : TrxEnv) (m : TransactionManager) (h : trx_hash_t) : option Transaction :=
  match pool_get (pool (transactions_pool_ m)) h with Some t => Some t | None => db_getTransaction env (trx_db m) h end.

(** The check that a transaction is not finalized; the nonce saves the look into the database. *)
Definition finalized_before (env : TrxEnv) (m : TransactionManager) (t : Transaction) : bool :=
  (trx_nonce t <=? from_option acc_nonce 0 (te_account env (trx_sender t))) && transactionFinalized (trx_db m) (trx_hash t).

Definition save_from_dag (env : TrxEnv) (m : TransactionManager) (t : Transaction) : outcome TransactionManager :=
  if in_map (nonfinalized_transactions_in_dag_ m) (trx_hash t) || in_map (recently_finalized_transactions_ m) (trx_hash t) then Done m
  else if finalized_before env m t then Done m
  else
    let m := tm_db m (addTransactionToBatch (trx_db m) t) in
    let m := tm_dag m (<[trx_hash t := t]> (nonfinalized_transactions_in_dag_ m)) in
    let* (p, _) := pool_erase (pool (transactions_pool_ m)) t in
    Done (tm_count (tm_pool m (with_pool (transactions_pool_ m) p)) (u64 (trx_count_ m + 1))).

Definition saveTransactionsFromDagBlock (env : TrxEnv) (m : TransactionManager) (trxs : list Transaction) : outcome TransactionManager :=
  let* m := ofold (save_from_dag env) trxs m in Done (tm_db m (saveTrxCount (trx_db m) (trx_count_ m))).

(** After a restart: finalized transactions leave the column, the others are loaded. *)
Definition recover_step (d0 : TrxDb) (m : TransactionManager) (e : trx_hash_t * Transaction) : TransactionManager :=
  let h := trx_hash e.2 in
  if transactionFinalized d0 h then tm_db m (removeTransactionToBatch (trx_db m) h)
  else
    match nonfinalized_transactions_in_dag_ m !! h with
    | Some _ => m
    | None => tm_dag m (<[h := e.2]> (nonfinalized_transactions_in_dag_ m))
    end.

Definition recoverNonfinalizedTransactions (m : TransactionManager) : TransactionManager :=
  foldl (recover_step (trx_db m)) m (map_items (db_transactions (trx_db m))).

(** The manager the constructor makes. *)
Definition construct_trx (d : TrxDb) : TransactionManager :=
  mkTransactionManager (newTransactionQueue (tc_transactions_pool_size cfg)) ∅ ∅ ∅
    (CacheMap.newCacheMap (Z.to_nat (tc_transactions_pool_size cfg / 10)) (Z.to_nat (tc_transactions_pool_size cfg / 100)))
    (db_TrxCount d) d [].

Definition isTransactionPoolFull (m : TransactionManager) (percentage : Z) : bool :=
  u64 (tc_transactions_pool_size cfg * percentage) / 100 <=? queue_size (pool (transactions_pool_ m)).

Definition getNonfinalizedTrx (m : TransactionManager) (hashes : list trx_hash_t) : list Transaction :=
  omap (fun h => nonfinalized_transactions_in_dag_ m !! h) hashes.

Definition excludeFinalizedTransactions (m : TransactionManager) (hashes : list trx_hash_t) : gset trx_hash_t :=
  list_to_set (filter (fun h => in_map (recently_finalized_transactions_ m) h = false /\ transactionFinalized (trx_db m) h = false) hashes).

Definition verifyTransactionsNotFinalized (env : TrxEnv) (m : TransactionManager) (trxs : list Transaction) : bool :=
  forallb (fun t => negb (in_map (recently_finalized_transactions_ m) (trx_hash t)) && negb (finalized_before env m t)) trxs.

(** The loop of [packTrxs]. *)
Fixpoint pack (env : TrxEnv) (period : PbftPeriod) (weight_limit total_weight : Z) (trxs : list Transaction) (m : TransactionManager) :
    outcome (TransactionManager * list (Transaction * Z)) :=
  match trxs with
  | [] => Done (m, [])
  | t :: rest =>
      if weight_limit <? u64 (total_weight + trx_gas t) then pack env period weight_limit total_weight rest m
      else
        let* (m, gas_used) := estimateTransactionGas env m t period in
        if gas_used <? kMinTxGas then
          let* (p, _) := pool_erase (pool (transactions_pool_ m)) t in
          let* (q, _) := insert iterate (with_pool (transactions_pool_ m) p) t false (te_lastBlockNumber env) (te_now env) in
          pack env period weight_limit total_weight rest (tm_pool m q)
        else
          let total_weight := u64 (total_weight + gas_used) in
          if u64 (weight_limit - total_weight) <=? kMinTxGas then Done (m, [(t, gas_used)])
          else let* (m, l) := pack env period weight_limit total_weight rest m in Done (m, (t, gas_used) :: l)
  end.

Definition packTrxs (env : TrxEnv) (m : TransactionManager) (period : PbftPeriod) (weight_limit : Z) :
    outcome (TransactionManager * list (Transaction * Z)) :=
  let* trxs := getOrderedTransactions iterate (pool (transactions_pool_ m)) (weight_limit / kMinTxGas) in
  pack env period weight_limit 0 trxs m.

Definition add_recent (period : PbftPeriod) (m : TransactionManager) (t : Transaction) : TransactionManager :=
  let l := default [] (recently_finalized_transactions_per_period_ m !! period) in
  tm_recent m (<[trx_hash t := t]> (recently_finalized_transactions_ m))
    (<[period := l ++ [trx_hash t]]> (recently_finalized_transactions_per_period_ m)).

Definition initializeRecentlyFinalizedTransactions (m : TransactionManager) (period : PbftPeriod) (trxs : list Transaction) : TransactionManager :=
  foldl (add_recent period) m trxs.

(** The loop of [PbftManager::run] over the last periods of a chain of [chain_size] blocks. *)
Definition load_recent (env : TrxEnv) (m : TransactionManager) (chain_size : Z) : outcome TransactionManager :=
  let periods := u64 (kRecentlyFinalizedTransactionsFactor * te_delegationDelay env) in
  let start := if periods <? chain_size then u64 (chain_size - periods) else 1 in
  ofold (fun m period =>
    match db_period_transactions (trx_db m) !! period with
    | None => AssertFailed
    | Some trxs => Done (initializeRecentlyFinalizedTransactions m period trxs)
    end) (seqZ start (chain_size - start + 1)) m.

(** Transactions of old periods are no longer recent. *)
Definition forget_old (env : TrxEnv) (m : TransactionManager) (period : PbftPeriod) : TransactionManager :=
  let periods := u64 (kRecentlyFinalizedTransactionsFactor * te_delegationDelay env) in
  if periods <? period then
    let old := u64 (period - periods) in
    tm_recent m (foldl (fun r h => delete h r) (recently_finalized_transactions_ m)
                   (default [] (recently_finalized_transactions_per_period_ m !! old)))
      (delete old (recently_finalized_transactions_per_period_ m))
  else m.

Definition finalize_one (period : PbftPeriod) (m : TransactionManager) (t : Transaction) : outcome TransactionManager :=
  let h := trx_hash t in
  let m := add_recent period m t in
  let* q := markTransactionKnown (transactions_pool_ m) h in
  let m := tm_pool m q in
  let m := if in_map (nonfinalized_transactions_in_dag_ m) h then tm_dag m (delete h (nonfinalized_transactions_in_dag_ m))
           else tm_count m (u64 (trx_count_ m + 1)) in
  let* (p, _) := pool_erase (pool (transactions_pool_ m)) t in
  Done (tm_pool m (with_pool (transactions_pool_ m) p)).

Definition updateFinalizedTransactionsStatus (env : TrxEnv) (m : TransactionManager) (period : PbftPeriod) (trxs : list Transaction) :
    outcome TransactionManager :=
  let m := forget_old env m period in
  let* m := (match trxs with
    | [] => Done m
    | _ => let* m := ofold (finalize_one period) trxs m in Done (tm_db m (saveTrxCount (trx_db m) (trx_count_ m)))
    end) in
  Done (if period mod transaction_purge_interval =? 0
        then tm_pool m (purge (fun a => acc_nonce <$> te_account env a) (transactions_pool_ m)) else m).

Definition remove_nonfinalized (m : TransactionManager) (h : trx_hash_t) : TransactionManager :=
  if in_map (nonfinalized_transactions_in_dag_ m) h
  then tm_dag (tm_db m (removeTransactionToBatch (trx_db m) h)) (delete h (nonfinalized_transactions_in_dag_ m)) else m.

Definition removeNonFinalizedTransactions (m : TransactionManager) (hashes : gset trx_hash_t) : TransactionManager :=
  foldl remove_nonfinalized m (elements hashes).

Definition tm_blockFinalized (m : TransactionManager) (block_number : Z) : TransactionManager :=
  tm_pool m (blockFinalized (transactions_pool_ m) block_number).

(** The finalized transactions in the order of period and position. *)
Definition getFinalizedTransactions (d : TrxDb) (hashes : list trx_hash_t) : outcome (list Transaction) :=
  let period_map : gmap PbftPeriod (gmap Z unit) :=
    foldl (fun pm h => match db_trx_period d !! h with
      | Some (p, pos) => <[p := <[pos := tt]> (default ∅ (pm !! p))]> pm | None => pm end) ∅ hashes in
  ofold (fun acc e =>
    match db_period_transactions d !! e.1 with
    | None => AssertFailed
    | Some l => Done (acc ++ omap (fun pos => l !! Z.to_nat pos) (map_items e.2).*1)
    end) (map_items period_map) [].

Definition find_cached (m : TransactionManager) (h : trx_hash_t) : option Transaction :=
  match pool_get (pool (transactions_pool_ m)) h with
  | Some t => Some t
  | None =>
      match nonfinalized_transactions_in_dag_ m !! h with
      | Some t => Some t
      | None => recently_finalized_transactions_ m !! h
      end
  end.

Definition old_transaction (env : TrxEnv) (period : PbftPeriod) (t : Transaction) : bool :=
  match te_account_at env period (trx_sender t) with Some a => trx_nonce t <? acc_nonce a | None => false end.

Definition getTransactions (env : TrxEnv) (m : TransactionManager) (hashes : list trx_hash_t) (period : PbftPeriod) :
    outcome (list Transaction) :=
  let* finalized := getFinalizedTransactions (trx_db m) (filter (fun h => find_cached m h = None) hashes) in
  Done (omap (find_cached m) hashes ++
        filter (fun t => old_transaction env period t = false) finalized).
End manager.
