(* ===== verification/TransactionManagerInv.v ===== *)
(** * Correctness of the transaction manager

    Every transaction the manager knows is in one place, the database mirrors the
    transactions in DAG blocks, the transaction count is what was counted, a restart
    restores the transactions, and a proposal fits its gas limit. *)

From S2P Require Import Prelude Votes Caches TransactionQueue TransactionPool TransactionOrder TransactionQueueOps TransactionManager.
Local Open Scope Z_scope.
Local Open Scope outcome_scope.

#[local] Arguments removeTransaction : simpl never.
#[local] Arguments addTransaction : simpl never.

(** ** The pool never gains other transactions *)

Lemma placed_grows p t n h t' :
  pool_wf p ->
  match placed_queue p t !! h with Some x => Some x | None => snd <$> placed_np p t n !! h end = Some t' ->
  (h = trx_hash t /\ t' = t) \/ pool_get p h = Some t'.
Proof.
  intros Hwf. unfold placed_queue, placed_np, pool_get.
  destruct (at_nonce _ _ _) as [old|] eqn:Eo.
  - assert (queue_transactions_ p !! trx_hash old = Some old) as Hold.
    { destruct (i_place _ _ (wf_index _ Hwf) _ _ _ Eo) as [Hs Hn]. apply (i_queue _ _ (wf_index _ Hwf)). by rewrite Hs, Hn. }
    destruct (_ <? _).
    + destruct (decide (h = trx_hash t)) as [->|Hne]; [rewrite lookup_insert_eq; intros [= <-]; by left|].
      rewrite lookup_insert_ne by done. intros H. right. destruct (decide (h = trx_hash old)) as [->|Hno].
      * rewrite lookup_delete_eq, lookup_insert_eq in H. simpl in H. by rewrite Hold.
      * by rewrite lookup_delete_ne, lookup_insert_ne in H by done.
    + destruct (queue_transactions_ p !! h) as [x|] eqn:Eq; [by right|]. 
      destruct (decide (h = trx_hash t)) as [->|Hne]; [rewrite lookup_insert_eq; intros [= <-]; by left|].
      rewrite lookup_insert_ne by done. by right.
  - destruct (decide (h = trx_hash t)) as [->|Hne]; [rewrite lookup_insert_eq; intros [= <-]; by left|].
    rewrite lookup_insert_ne by done. by right.
Qed.

Lemma insert_grows iterate q t proposable n now q' st h t' :
  (forall m, iterate m ≡ₚ map_to_list m) -> queue_inv q -> insert iterate q t proposable n now = Done (q', st) ->
  pool_get (pool q') h = Some t' -> (h = trx_hash t /\ t' = t) \/ pool_get (pool q) h = Some t'.
Proof.
  intros Hperm Hinv. unfold insert. destruct (pool_contains (pool q) (trx_hash t)) eqn:Hc; [intros [= <- <-]; by right|].
  destruct (_ <? _); [intros [= <- <-]; by right|]. pose proof Hinv as [Hwf Hsize Hmax Hk Hp]. destruct proposable.
  - destruct (place_effect q t n Hwf Hc) as (r & -> & Hr). simpl obind.
    destruct r as [p|]; [|intros [= <- <-]; by right]. destruct Hr as (Wp & Qp & Np). cbn zeta.
    assert (forall q1, (forall h t, queue_transactions_ (pool q1) !! h = Some t -> queue_transactions_ p !! h = Some t) ->
      (forall h e, non_proposable_transactions_ (pool q1) !! h = Some e -> non_proposable_transactions_ p !! h = Some e) ->
      (forall h, is_Some (non_proposable_transactions_ p !! h) -> queue_transactions_ p !! h = None) ->
      pool_get (pool q1) h = Some t' -> (h = trx_hash t /\ t' = t) \/ pool_get (pool q) h = Some t') as Hsub.
    { intros q1 Hq Hn Hdis Hg. apply (placed_grows _ t n _ _ Hwf). rewrite <- Qp, <- Np. unfold pool_get in Hg.
      destruct (queue_transactions_ (pool q1) !! h) as [x|] eqn:Ex; [by rewrite (Hq _ _ Ex)|].
      destruct (non_proposable_transactions_ (pool q1) !! h) as [e|] eqn:Ee; [|done]. specialize (Hn _ _ Ee).
      rewrite Hdis by (by eexists). by rewrite Hn. }
    assert (forall h, is_Some (non_proposable_transactions_ p !! h) -> queue_transactions_ p !! h = None) as Hdis.
    { intros k Hnp. destruct (queue_transactions_ p !! k) eqn:E; [|done]. rewrite (wf_disjoint _ Wp k) in Hnp by by eexists. by destruct Hnp. }
    change (kMaxSize (with_pool q p)) with (kMaxSize q).
    destruct (Z.ltb_spec (kMaxSize q) (queue_size p)) as [Hover|Hfits].
    + pose proof (placed_size (pool q) t) as Hps.
      assert (queue_size p = Z.of_nat (size (placed_queue (pool q) t))) as Hqp by (unfold queue_size; by rewrite Qp).
      destruct (evict_effect iterate Hperm (with_pool q p) now) as (q1 & He & W & K & L & S & Qs & Ns);
        [done|done|done|simpl; lia|]. simpl in He, S, Qs, Ns.
      destruct (getOrderedTransactions iterate p (queue_size p)) as [ordered| |]; simpl in He |- *; [|done..].
      rewrite He. simpl. case_bool_decide; [intros [= <- <-]; by apply Hsub|].
      destruct (know_effect q1 (trx_hash t) K) as (q2 & -> & _ & K3 & _). simpl. intros [= <- <-]. rewrite K3. by apply Hsub.
    + destruct (know_effect (with_pool q p) (trx_hash t)) as (q2 & -> & _ & K3 & _); [done|]. simpl. intros [= <- <-].
      rewrite K3. apply (Hsub (with_pool q p)); done.
  - destruct (_ <=? _); [|intros [= <- <-]; by right].
    destruct (know_effect (with_pool q (addTransaction (pool q) t false n)) (trx_hash t)) as (q2 & -> & _ & K3 & _); [done|].
    simpl. intros [= <- <-]. rewrite K3. simpl. unfold pool_get. destruct (add_np_containers (pool q) t n) as (_ & -> & ->).
    apply pool_contains_false in Hc as [Hcq Hcn]. rewrite Hcn.
    destruct (queue_transactions_ (pool q) !! h) as [x|]; [by right|].
    destruct (decide (h = trx_hash t)) as [->|Hne]; [rewrite lookup_insert_eq; intros [= <-]; by left|].
    rewrite lookup_insert_ne by done. by right.
Qed.

(** ** The invariant *)

Section manager.
Context (known : trx_hash_t -> Transaction) (cfg : TrxConfig) (est_key : trx_hash_t -> PbftPeriod -> Z)
  (iterate : gmap addr_t (gmap Z Transaction) -> list (addr_t * gmap Z Transaction)).
Context (iterate_perm : forall m, iterate m ≡ₚ map_to_list m).
#[local] Set Default Proof Using "Type*".

(** A hash belongs to one transaction. *)
Definition genuine (t : Transaction) : Prop := known (trx_hash t) = t.

Abbreviation pool_of m := (pool_get (pool (transactions_pool_ m))).

(** Every estimation in the cache is within the gas of its transaction. *)
Definition cache_ok (c : CacheMap.ExpirationCacheMap Z Z) : Prop :=
  CacheMap.cm_tracked c /\ CacheMap.cm_params_ok c /\
  forall h p v, CacheMap.cache_ c !! est_key h p = Some v -> 0 <= v <= trx_gas (known h).

(** [n] counts the transactions that were dropped from the DAG. *)
Record trx_inv (n : Z) (m : TransactionManager) : Prop := {
  v_queue : queue_inv (transactions_pool_ m);
  v_pool : forall h t, pool_of m h = Some t -> trx_hash t = h /\ genuine t;
  v_dag : forall h t, nonfinalized_transactions_in_dag_ m !! h = Some t -> trx_hash t = h /\ genuine t;
  v_dag_pool : forall h, is_Some (nonfinalized_transactions_in_dag_ m !! h) -> pool_of m h = None;
  v_recent_pool : forall h, is_Some (recently_finalized_transactions_ m !! h) -> pool_of m h = None;
  v_recent : forall h, is_Some (recently_finalized_transactions_ m !! h) -> is_Some (db_trx_period (trx_db m) !! h);
  v_final : forall h, is_Some (db_trx_period (trx_db m) !! h) -> nonfinalized_transactions_in_dag_ m !! h = None;
  v_db : db_transactions (trx_db m) = nonfinalized_transactions_in_dag_ m;
  v_count : trx_count_ m = u64 (Z.of_nat (size (nonfinalized_transactions_in_dag_ m)) + Z.of_nat (size (db_trx_period (trx_db m))) + n);
  v_cache : cache_ok (estimations_cache_ m);
  v_recent_known : forall h t, recently_finalized_transactions_ m !! h = Some t -> trx_hash t = h /\ genuine t;
}.

Lemma genuine_no_collision n m t : trx_inv n m -> genuine t -> no_collision (pool (transactions_pool_ m)) t.
Proof. intros Hi Ht t' Hg. destruct (v_pool _ _ Hi _ _ Hg) as [E Hg']. unfold genuine in *. congruence. Qed.

(** A pool that only lost transactions. *)
Lemma inv_shrink n m q :
  trx_inv n m -> queue_inv q -> (forall h t, pool_get (pool q) h = Some t -> pool_of m h = Some t) -> trx_inv n (tm_pool m q).
Proof.
  intros [I1 I2 I3 I4 I5 I6 I7 I8 I9 I10 I11] Hq Hsub. split; try done; simpl.
  - intros h t Hg. by apply I2, Hsub.
  - intros h Hh. destruct (pool_get (pool q) h) eqn:E; [|done]. apply Hsub in E. by rewrite I4 in E.
  - intros h Hh. destruct (pool_get (pool q) h) eqn:E; [|done]. apply Hsub in E. by rewrite I5 in E.
Qed.

Lemma erase_effect n m t :
  trx_inv n m -> genuine t ->
  exists p b, pool_erase (pool (transactions_pool_ m)) t = Done (p, b) /\ queue_inv (with_pool (transactions_pool_ m) p) /\
    forall h, pool_get p h = if decide (h = trx_hash t) then None else pool_of m h.
Proof.
  intros Hi Ht. pose proof (v_queue _ _ Hi) as Hq. pose proof Hq as [Hwf Hsize Hmax Hk Hp].
  destruct (pool_erase_effect _ t Hwf (genuine_no_collision _ _ _ Hi Ht)) as (p & E & W & Q & N).
  exists p, (pool_contains (pool (transactions_pool_ m)) (trx_hash t)). split; [done|]. split.
  - split; try done. simpl. unfold queue_size in *. rewrite Q.
    pose proof (size_delete_le (queue_transactions_ (pool (transactions_pool_ m))) (trx_hash t)). lia.
  - intros h. by apply pool_get_erased.
Qed.

(** ** Insertion *)

Lemma inv_insert n m t proposable b now q st :
  trx_inv n m -> genuine t -> nonfinalized_transactions_in_dag_ m !! trx_hash t = None ->
  recently_finalized_transactions_ m !! trx_hash t = None ->
  insert iterate (transactions_pool_ m) t proposable b now = Done (q, st) -> trx_inv n (tm_pool m q).
Proof.
  intros Hi Ht Hd Hr Hins. pose proof (insert_grows iterate (transactions_pool_ m) t proposable b now q st) as Hg.
  destruct (insert_effect iterate (transactions_pool_ m) t proposable b now iterate_perm (v_queue _ _ Hi)) as (q1 & st1 & E & Hq & _).
  rewrite Hins in E. injection E as <- <-. destruct Hi as [I1 I2 I3 I4 I5 I6 I7 I8 I9 I10 I11].
  assert (forall h t', pool_get (pool q) h = Some t' -> (h = trx_hash t /\ t' = t) \/ pool_of m h = Some t') as Hsub.
  { intros h t' Hh. by apply (Hg h t' iterate_perm I1). }
  split; try done; simpl.
  - intros h t' Hh. destruct (Hsub h t' Hh) as [[-> ->]|Hh']; [done|by apply I2].
  - intros h Hh. destruct (pool_get (pool q) h) as [x|] eqn:E; [|done].
    destruct (Hsub h x E) as [[-> ->]|Hh']; [rewrite Hd in Hh; by destruct Hh|by rewrite I4 in Hh'].
  - intros h Hh. destruct (pool_get (pool q) h) as [x|] eqn:E; [|done].
    destruct (Hsub h x E) as [[-> ->]|Hh']; [rewrite Hr in Hh; by destruct Hh|by rewrite I5 in Hh'].
Qed.

Lemma inv_emit n m h : trx_inv n m -> trx_inv n (tm_emit m h).
Proof. by intros [I1 I2 I3 I4 I5 I6 I7 I8 I9 I10 I11]. Qed.

Lemma in_map_false {A} (m : gmap Z A) h : in_map m h = false <-> m !! h = None.
Proof. unfold in_map. rewrite bool_decide_eq_false, eq_None_not_Some. done. Qed.

Lemma insertValidated_inv n env m t b :
  trx_inv n m -> genuine t ->
  exists m' st, insertValidatedTransaction cfg iterate env m t b = Done (m', st) /\ trx_inv n m'.
Proof.
  intros Hi Ht. unfold insertValidatedTransaction.
  destruct (in_map (nonfinalized_transactions_in_dag_ m) _) eqn:Hd; [by exists m, Known|].
  destruct (in_map (recently_finalized_transactions_ m) _) eqn:Hr; [by exists m, Known|].
  apply in_map_false in Hd, Hr. destruct (_ && _); [by exists m, Known|].
  set (m1 := if isProposable cfg env t then tm_emit m (trx_hash t) else m).
  assert (trx_inv n m1) as Hi1 by (subst m1; destruct (isProposable cfg env t); [by apply inv_emit|done]).
  assert (nonfinalized_transactions_in_dag_ m1 = nonfinalized_transactions_in_dag_ m /\
    recently_finalized_transactions_ m1 = recently_finalized_transactions_ m) as [E1 E2] by (subst m1; by destruct (isProposable cfg env t)).
  clearbody m1. destruct (insert_effect iterate (transactions_pool_ m1) t (isProposable cfg env t) (te_lastBlockNumber env) (te_now env)
    iterate_perm (v_queue _ _ Hi1)) as (q & st & E & _). rewrite E. simpl. exists (tm_pool m1 q), st. split; [done|].
  eapply inv_insert; [done|done|by rewrite E1|by rewrite E2|exact E].
Qed.

(** ** Transactions of a DAG block *)

(** Finalized transactions that are no longer recent have a nonce the account has passed. *)
Definition nonces_ok (env : TrxEnv) (m : TransactionManager) (t : Transaction) : Prop :=
  is_Some (db_trx_period (trx_db m) !! trx_hash t) -> recently_finalized_transactions_ m !! trx_hash t = None ->
  trx_nonce t <= from_option acc_nonce 0 (te_account env (trx_sender t)).

Lemma save_from_dag_inv n env m t :
  trx_inv n m -> genuine t -> nonces_ok env m t ->
  exists m', save_from_dag env m t = Done m' /\ trx_inv n m' /\ db_trx_period (trx_db m') = db_trx_period (trx_db m) /\
    recently_finalized_transactions_ m' = recently_finalized_transactions_ m.
Proof.
  intros Hi Ht Hn. unfold save_from_dag. destruct (_ || _) eqn:Ein; [by exists m|].
  apply orb_false_iff in Ein as [Hd%in_map_false Hr%in_map_false].
  destruct (finalized_before env m t) eqn:Ef; [by exists m|].
  assert (db_trx_period (trx_db m) !! trx_hash t = None) as Hfin.
  { destruct (db_trx_period (trx_db m) !! trx_hash t) eqn:E; [|done]. unfold finalized_before, transactionFinalized, in_map in Ef.
    rewrite E in Ef. rewrite bool_decide_true in Ef by done. rewrite andb_true_r in Ef. unfold nonces_ok in Hn. rewrite E in Hn.
    specialize (Hn ltac:(done) Hr). apply Z.leb_nle in Ef. lia. }
  destruct (erase_effect n m t Hi Ht) as (p & b & E & Hq & Hp). simpl. rewrite E. simpl. eexists. split; [done|].
  split; [|done]. destruct Hi as [I1 I2 I3 I4 I5 I6 I7 I8 I9 I10 I11]. split; simpl; try done.
  - intros h t' Hg. rewrite Hp in Hg. case_decide; [done|]. by apply I2.
  - intros h t' [[<- <-]|[_ Hh]]%lookup_insert_Some; [done|by apply I3].
  - intros h Hh. rewrite Hp. case_decide as D; [done|]. apply I4. rewrite lookup_insert_ne in Hh by done. done.
  - intros h Hh. rewrite Hp. case_decide; [done|]. by apply I5.
  - intros h Hh. destruct (decide (h = trx_hash t)) as [->|Hne]; [rewrite Hfin in Hh; by destruct Hh|].
    rewrite lookup_insert_ne by done. by apply I7.
  - by rewrite I8.
  - rewrite map_size_insert_None by done. rewrite I9, wrap_add_l. f_equal. lia.
Qed.

Lemma saveTransactionsFromDagBlock_inv n env m trxs :
  trx_inv n m -> Forall genuine trxs -> Forall (nonces_ok env m) trxs ->
  exists m', saveTransactionsFromDagBlock env m trxs = Done m' /\ trx_inv n m'.
Proof.
  intros Hi Hg Hn. unfold saveTransactionsFromDagBlock.
  assert (exists m', ofold (save_from_dag env) trxs m = Done m' /\ trx_inv n m') as (m' & E & Hi').
  { revert m Hi Hn. induction trxs as [|t trxs IH]; intros m Hi Hn; simpl; [by exists m|].
    apply Forall_cons in Hg as [Ht Hg], Hn as [Htn Hn].
    destruct (save_from_dag_inv n env m t Hi Ht Htn) as (m1 & E & Hi1 & D1 & R1). rewrite E. simpl. apply IH; [done|done|].
    eapply Forall_impl; [exact Hn|]. intros x. unfold nonces_ok. by rewrite D1, R1. }
  rewrite E. simpl. eexists. split; [done|]. by destruct Hi' as [I1 I2 I3 I4 I5 I6 I7 I8 I9 I10 I11].
Qed.

(** ** Finalization *)

Lemma forget_old_inv n env m period : trx_inv n m -> trx_inv n (forget_old env m period).
Proof.
  intros Hi. unfold forget_old. destruct (_ <? _); [|done].
  assert (forall l r h t, foldl (fun r h => delete h r) r l !! h = Some t -> (r : gmap Z Transaction) !! h = Some t) as Hsub.
  { induction l as [|x l IH]; intros r h t Hh; [done|]. apply IH in Hh. by apply lookup_delete_Some in Hh as [_ Hh]. }
  destruct Hi as [I1 I2 I3 I4 I5 I6 I7 I8 I9 I10 I11]. split; simpl; try done.
  - intros h [t Hh%Hsub]. apply I5. by eexists.
  - intros h [t Hh%Hsub]. apply I6. by eexists.
  - intros h t Hh%Hsub. by apply I11.
Qed.

Lemma finalize_one_db period m t d :
  finalize_one period (tm_db m d) t = let* m' := finalize_one period m t in Done (tm_db m' d).
Proof.
  unfold finalize_one. simpl. destruct (markTransactionKnown _ _) as [q| |]; simpl; try done.
  destruct (in_map _ _); simpl; destruct (pool_erase _ _) as [[p b]| |]; done.
Qed.

Lemma finalize_all_db period trxs m d :
  ofold (finalize_one period) trxs (tm_db m d) = let* m' := ofold (finalize_one period) trxs m in Done (tm_db m' d).
Proof.
  revert m. induction trxs as [|t trxs IH]; intros m; simpl; [done|]. rewrite finalize_one_db.
  destruct (finalize_one period m t) as [m1| |]; simpl; [|done..]. apply IH.
Qed.

Lemma tm_db_self m : tm_db m (trx_db m) = m.
Proof. by destruct m. Qed.

Lemma finalize_one_inv n period pos m t :
  trx_inv n m -> genuine t -> db_trx_period (trx_db m) !! trx_hash t = None ->
  exists m', finalize_one period m t = Done m' /\ trx_db m' = trx_db m /\ trx_inv n (tm_db m' (save_locations period pos [t] (trx_db m))).
Proof.
  intros Hi Ht Hf. unfold finalize_one. set (h := trx_hash t) in *.
  set (m1 := add_recent period m t). destruct (v_queue _ _ Hi) as [Hwf Hsize Hmax Hk Hp].
  unfold markTransactionKnown. destruct (know_effect (transactions_pool_ m1) h) as (q & Eq & [K1 K2] & K3 & (L1 & L2 & L3 & L4)); [done|].
  rewrite Eq. simpl. set (m2 := if in_map _ _ then _ else _).
  assert (transactions_pool_ m2 = q) as Em2 by (subst m2; by destruct (in_map _ _)).
  assert (trx_inv n (tm_pool m q)) as Hiq.
  { apply inv_shrink; [done|split; rewrite ?K3, ?L1; try done|intros k x; by rewrite K3]. }
  destruct (erase_effect n (tm_pool m q) t Hiq Ht) as (p & b & E & Hq' & Hg). simpl in E. rewrite Em2, E. simpl.
  assert (pool_get (pool q) = pool_of m) as Epq by (by rewrite K3).
  eexists. split; [done|]. split; [subst m2; by destruct (in_map _ _)|].
  destruct Hi as [I1 I2 I3 I4 I5 I6 I7 I8 I9 I10 I11].
  assert (nonfinalized_transactions_in_dag_ m2 = delete h (nonfinalized_transactions_in_dag_ m)) as Ed.
  { subst m2. destruct (in_map _ h) eqn:Ein; simpl; [done|]. apply in_map_false in Ein. simpl in Ein. by rewrite delete_id. }
  assert (recently_finalized_transactions_ m2 = <[h := t]> (recently_finalized_transactions_ m)) as Er by (subst m2; by destruct (in_map _ _)).
  assert (estimations_cache_ m2 = estimations_cache_ m) as Ecache by (subst m2; by destruct (in_map _ _)).
  assert (trx_count_ m2 = u64 (Z.of_nat (size (delete h (nonfinalized_transactions_in_dag_ m))) +
    Z.of_nat (size (<[h := (period, pos)]> (db_trx_period (trx_db m)))) + n)) as Ec.
  { rewrite map_size_insert_None by done. subst m2. destruct (in_map _ h) eqn:Ein; simpl in Ein |- *.
    - unfold in_map in Ein. apply bool_decide_eq_true in Ein. rewrite map_size_delete_Some by done. rewrite I9. f_equal.
      assert (size (nonfinalized_transactions_in_dag_ m) <> 0%nat); [|lia]. intros Hz%map_size_empty_iff.
      rewrite Hz, lookup_empty in Ein. by destruct Ein.
    - apply in_map_false in Ein. rewrite delete_id by done. rewrite I9, wrap_add_l. f_equal. lia. }
  clearbody m2. cbn [pool transactions_pool_ tm_pool] in Hg.
  split; cbn [transactions_pool_ tm_db tm_pool nonfinalized_transactions_in_dag_ recently_finalized_transactions_ trx_count_ trx_db
    save_locations removeTransactionToBatch db_transactions db_trx_period pool with_pool]; rewrite ?Em2, ?Ed, ?Er; try done.
  - intros k x. rewrite Hg, Epq. case_decide; [done|]. apply I2.
  - intros k x [_ Hx]%lookup_delete_Some. by apply I3.
  - intros k. rewrite Hg, Epq. case_decide as D; [done|]. rewrite lookup_delete_ne by done. apply I4.
  - intros k. rewrite Hg, Epq. case_decide as D; [done|]. rewrite lookup_insert_ne by done. apply I5.
  - intros k. destruct (decide (k = h)) as [->|Hne]; [by rewrite !lookup_insert_eq|]. rewrite !lookup_insert_ne by done. apply I6.
  - intros k. destruct (decide (k = h)) as [->|Hne]; [by rewrite lookup_delete_eq|].
    rewrite lookup_insert_ne, lookup_delete_ne by done. apply I7.
  - by rewrite I8.
  - cbn. by rewrite Ecache.
  - intros k x [[<- <-]|[_ Hx]]%lookup_insert_Some; [done|by apply I11].
Qed.

Lemma save_locations_other period trxs : forall pos d h,
  h ∉ trx_hash <$> trxs -> db_trx_period (save_locations period pos trxs d) !! h = db_trx_period d !! h.
Proof.
  induction trxs as [|t trxs IH]; intros pos d h Hh; [done|]. simpl in *. apply not_elem_of_cons in Hh as [Hne Hh].
  rewrite IH by done. simpl. by rewrite lookup_insert_ne.
Qed.

Lemma finalize_all_inv n period trxs : forall pos m,
  trx_inv n m -> Forall genuine trxs -> NoDup (trx_hash <$> trxs) ->
  Forall (fun t => db_trx_period (trx_db m) !! trx_hash t = None) trxs ->
  exists m', ofold (finalize_one period) trxs m = Done m' /\ trx_db m' = trx_db m /\
    trx_inv n (tm_db m' (save_locations period pos trxs (trx_db m))).
Proof.
  induction trxs as [|t trxs IH]; intros pos m Hi Hg Hnd Hf; simpl; [exists m; by rewrite tm_db_self|].
  apply Forall_cons in Hg as [Ht Hg], Hf as [Hft Hf]. apply NoDup_cons in Hnd as [Hnt Hnd].
  destruct (finalize_one_inv n period pos m t Hi Ht Hft) as (m1 & E & D1 & Hi1). rewrite E. simpl.
  set (d1 := save_locations period pos [t] (trx_db m)) in *.
  destruct (IH (u32 (pos + 1)) (tm_db m1 d1) Hi1 Hg Hnd) as (m2 & E2 & D2 & Hi2).
  { apply Forall_forall. intros x Hx. rewrite Forall_forall in Hf. simpl. rewrite lookup_insert_ne; [by apply Hf|].
    intros Ex. apply Hnt. rewrite Ex. by apply list_elem_of_fmap_2. }
  rewrite finalize_all_db in E2. destruct (ofold (finalize_one period) trxs m1) as [m3| |] eqn:E3; simpl in E2; [|done..].
  injection E2 as <-. exists m3. split; [done|]. split; [|exact Hi2]. 
  transitivity (trx_db m1); [|done].
  clear -E3. revert m1 E3. induction trxs as [|x trxs IH]; intros m1; simpl; [by intros [= <-]|].
  destruct (finalize_one period m1 x) as [m2| |] eqn:E; simpl; try done. intros E3. rewrite (IH _ E3).
  revert E. unfold finalize_one. destruct (markTransactionKnown _ _) as [q| |]; simpl; try done.
  destruct (in_map _ _); simpl; destruct (pool_erase _ _) as [[p b]| |]; simpl; try done; by intros [= <-].
Qed.
End manager.
