(* ===== verification/TransactionManagerSteps.v ===== *)
(** * Runs of the transaction manager

    The remaining operations keep the invariant of [TransactionManagerInv]; the
    states reached from a restart, in which every finalized and every pending
    transaction can be found; what a proposal contains. *)

From S2P Require Import Prelude Votes Caches TransactionQueue TransactionPool TransactionOrder TransactionQueueOps TransactionManager TransactionManagerInv.
Local Open Scope Z_scope.
Local Open Scope outcome_scope.

#[local] Arguments removeTransaction : simpl never.
#[local] Arguments addTransaction : simpl never.

Section manager.
Context (known : trx_hash_t -> Transaction) (cfg : TrxConfig) (est_key : trx_hash_t -> PbftPeriod -> Z)
  (iterate : gmap addr_t (gmap Z Transaction) -> list (addr_t * gmap Z Transaction)).
Context (iterate_perm : forall m, iterate m ≡ₚ map_to_list m).
Context (est_key_inj : forall h p h' p', est_key h p = est_key h' p' -> h = h').
#[local] Set Default Proof Using "Type*".

Abbreviation genuine := (genuine known).
Abbreviation trx_inv := (trx_inv known est_key).
Abbreviation cache_ok := (cache_ok known est_key).
Abbreviation pool_of m := (pool_get (pool (transactions_pool_ m))).

(** ** The database *)

Definition locations_ok (d : TrxDb) : Prop :=
  (forall h p pos, db_trx_period d !! h = Some (p, pos) ->
     trx_hash (known h) = h /\ exists l, db_period_transactions d !! p = Some l /\ l !! Z.to_nat pos = Some (known h)) /\
  (forall p l t, db_period_transactions d !! p = Some l -> t ∈ l -> genuine t /\ is_Some (db_trx_period d !! trx_hash t)).

Lemma save_locations_rest period trxs : forall pos d,
  db_period_transactions (save_locations period pos trxs d) = db_period_transactions d /\
  db_TrxCount (save_locations period pos trxs d) = db_TrxCount d.
Proof. induction trxs as [|t trxs IH]; intros pos d; [done|]. simpl. split; etransitivity; [apply IH|done|apply IH|done]. Qed.

Lemma save_locations_pos period trxs : forall pos d h p q,
  0 <= pos -> pos + Z.of_nat (length trxs) <= 2 ^ 32 ->
  db_trx_period (save_locations period pos trxs d) !! h = Some (p, q) ->
  (exists i t, trxs !! i = Some t /\ trx_hash t = h /\ p = period /\ q = pos + Z.of_nat i) \/ db_trx_period d !! h = Some (p, q).
Proof.
  induction trxs as [|t trxs IH]; intros pos d h p q Hpos Hlen; simpl; [by right|]. simpl in Hlen. intros H.
  destruct trxs as [|t2 trxs].
  - simpl in H. apply lookup_insert_Some in H as [[<- [= <- <-]]|[_ H]]; [left; exists 0%nat, t; split_and!; [done..|lia]|by right].
  - assert (u32 (pos + 1) = pos + 1) as E. { apply wrap_id. unfold in_range, modulus. simpl in Hlen. lia. }
    rewrite E in H. apply IH in H as [(i & x & Hi & Hx & -> & ->)|H]; [| |lia|simpl in *; lia].
    + left. exists (S i), x. split_and!; [done..|lia].
    + simpl in H. apply lookup_insert_Some in H as [[<- [= <- <-]]|[_ H]]; [left; exists 0%nat, t; split_and!; [done..|lia]|by right].
Qed.

Lemma save_locations_in period trxs : forall pos d h,
  (h ∈ trx_hash <$> trxs \/ is_Some (db_trx_period d !! h)) -> is_Some (db_trx_period (save_locations period pos trxs d) !! h).
Proof.
  induction trxs as [|t trxs IH]; intros pos d h; simpl; [intros [H|H]; [by apply not_elem_of_nil in H|done]|].
  intros [[->|H]%elem_of_cons|H]; apply IH; [right|by left|right]; simpl; [by rewrite lookup_insert_eq|].
  destruct (decide (h = trx_hash t)) as [->|]; [by rewrite lookup_insert_eq|by rewrite lookup_insert_ne].
Qed.

(** A new period of distinct transactions. *)
Lemma savePeriodTransactions_locations d period trxs :
  locations_ok d -> Forall genuine trxs -> Z.of_nat (length trxs) <= 2 ^ 32 -> db_period_transactions d !! period = None ->
  locations_ok (savePeriodTransactions d period trxs).
Proof.
  intros [L1 L2] Hg Hlen Hnew. rewrite Forall_forall in Hg. unfold savePeriodTransactions.
  destruct (save_locations_rest period trxs 0 d) as [Er _]. split; simpl; rewrite Er.
  - intros h p pos [(i & t & Hi & Ht & -> & ->)|H]%save_locations_pos; [| |lia|lia].
    + assert (known h = t) as E by (rewrite <- Ht; apply Hg; by eapply list_elem_of_lookup_2). rewrite E. split; [done|].
      exists trxs. rewrite lookup_insert_eq. split; [done|]. by rewrite Z.add_0_l, Nat2Z.id.
    + destruct (L1 _ _ _ H) as (E & l & Hl & Hp). split; [done|]. exists l. rewrite lookup_insert_ne; [done|congruence].
  - intros p l t [[<- <-]|[_ Hl]]%lookup_insert_Some Ht.
    + split; [by apply Hg|]. apply save_locations_in. left. by apply list_elem_of_fmap_2.
    + destruct (L2 _ _ _ Hl Ht) as [E H]. split; [done|]. apply save_locations_in. by right.
Qed.

Lemma locations_other d d' :
  locations_ok d -> db_trx_period d' = db_trx_period d -> db_period_transactions d' = db_period_transactions d -> locations_ok d'.
Proof. unfold locations_ok. by intros Hd -> ->. Qed.

(** ** What an operation leaves *)

Lemma inv_db n m d :
  trx_inv n m -> db_transactions d = db_transactions (trx_db m) -> db_trx_period d = db_trx_period (trx_db m) -> trx_inv n (tm_db m d).
Proof. intros [I1 I2 I3 I4 I5 I6 I7 I8 I9 I10 I11] E1 E2. split; simpl; rewrite ?E1, ?E2; done. Qed.

Lemma inv_pool_ops n m : trx_inv n m ->
  (forall g, trx_inv n (tm_pool m (purge g (transactions_pool_ m)))) /\ (forall b, trx_inv n (tm_blockFinalized m b)).
Proof.
  intros Hi. pose proof (v_queue _ _ _ _ Hi) as Hq. split.
  - intros g. destruct (purge_effect g _ Hq) as (Hq' & N & Q). apply inv_shrink; [done..|]. unfold pool_get. rewrite N. intros h t.
    destruct (queue_transactions_ (pool (purge _ _)) !! h) as [x|] eqn:E; [apply Q in E as [-> _]; done|]. intros Hn.
    destruct (queue_transactions_ (pool (transactions_pool_ m)) !! h) as [x|] eqn:E'; [|done].
    by rewrite (wf_disjoint _ (q_pool _ Hq) h) in Hn by by eexists.
  - intros b. destruct (blockFinalized_effect _ b Hq) as (Hq' & _ & Q & N). apply inv_shrink; [done..|]. unfold pool_get. rewrite Q. intros h t.
    destruct (queue_transactions_ _ !! h) as [x|]; [done|]. rewrite N. destruct (non_proposable_transactions_ _ !! h) as [e|]; [|done].
    by destruct (expired b e).
Qed.

Lemma updateFinalized_inv n env m period trxs :
  trx_inv n m -> Forall genuine trxs -> NoDup (trx_hash <$> trxs) ->
  Forall (fun t => db_trx_period (trx_db m) !! trx_hash t = None) trxs ->
  exists m', updateFinalizedTransactionsStatus env (tm_db m (savePeriodTransactions (trx_db m) period trxs)) period trxs = Done m' /\
    trx_inv n m' /\ db_trx_period (trx_db m') = db_trx_period (savePeriodTransactions (trx_db m) period trxs) /\
    db_period_transactions (trx_db m') = <[period := trxs]> (db_period_transactions (trx_db m)) /\
    (db_TrxCount (trx_db m) = trx_count_ m -> db_TrxCount (trx_db m') = trx_count_ m').
Proof.
  intros Hi Hg Hnd Hf. unfold updateFinalizedTransactionsStatus. set (d := savePeriodTransactions _ _ _).
  assert (forget_old env (tm_db m d) period = tm_db (forget_old env m period) d) as -> by (unfold forget_old; simpl; by case_match).
  pose proof (forget_old_inv known est_key n env m period Hi) as Hi1.
  assert (trx_db (forget_old env m period) = trx_db m /\ trx_count_ (forget_old env m period) = trx_count_ m) as [D1 C1]
    by (unfold forget_old; by case_match).
  set (m1 := forget_old env m period) in *. clearbody m1.
  destruct (save_locations_rest period trxs 0 (trx_db m)) as [Er Ec].
  assert (forall m2, trx_inv n m2 -> exists m', Done (if period mod transaction_purge_interval =? 0
    then tm_pool m2 (purge (fun a => acc_nonce <$> te_account env a) (transactions_pool_ m2)) else m2) = Done m' /\
    trx_inv n m' /\ trx_db m' = trx_db m2 /\ trx_count_ m' = trx_count_ m2) as Hpurge.
  { intros m2 Hi2. case_match; [|by exists m2]. eexists. split; [done|]. split; [|done]. by apply inv_pool_ops. }
  destruct trxs as [|t trxs'].
  - destruct (Hpurge (tm_db m1 d)) as (m' & E' & Hi' & D' & C'); [apply inv_db; [done|by rewrite D1..]|].
    exists m'. rewrite D', C'. split; [exact E'|]. split_and!; simpl; try done. by rewrite C1.
  - remember (t :: trxs') as trxs eqn:Etr. clear Etr t trxs'. rewrite finalize_all_db.
    destruct (finalize_all_inv known est_key n period trxs 0 m1 Hi1 Hg Hnd) as (m2 & E2 & D2 & Hi2); [by rewrite D1|].
    rewrite E2. simpl obind.
    destruct (Hpurge (tm_db (tm_db m2 d) (saveTrxCount d (trx_count_ m2)))) as (m' & E' & Hi' & D' & C').
    { change (tm_db (tm_db m2 d) ?x) with (tm_db (tm_db m2 (save_locations period 0 trxs (trx_db m1))) x). 
      apply inv_db; [done|by rewrite D1..]. }
    exists m'. rewrite D', C'. split; [exact E'|]. split_and!; simpl; try done. by rewrite Er.
Qed.

Definition dropped (m m' : TransactionManager) : Z :=
  Z.of_nat (size (nonfinalized_transactions_in_dag_ m)) - Z.of_nat (size (nonfinalized_transactions_in_dag_ m')).

Lemma remove_inv n m hs : trx_inv n m ->
  let m' := removeNonFinalizedTransactions m hs in
  trx_inv (n + dropped m m') m' /\ transactions_pool_ m' = transactions_pool_ m /\ trx_count_ m' = trx_count_ m /\
  recently_finalized_transactions_ m' = recently_finalized_transactions_ m /\
  db_trx_period (trx_db m') = db_trx_period (trx_db m) /\ db_period_transactions (trx_db m') = db_period_transactions (trx_db m) /\
  db_TrxCount (trx_db m') = db_TrxCount (trx_db m) /\
  forall d h, h ∉ hs -> nonfinalized_transactions_in_dag_ m !! h = d -> nonfinalized_transactions_in_dag_ m' !! h = d.
Proof.
  unfold removeNonFinalizedTransactions. assert (forall h, h ∉ hs <-> h ∉ elements hs) as Hel by (intros; by rewrite elem_of_elements).
  setoid_rewrite Hel. clear Hel. induction (elements hs) as [|h l IH] in n, m |- *; simpl; intros Hi.
  { unfold dropped. rewrite Z.sub_diag, Z.add_0_r. split_and!; done. }
  set (m1 := remove_nonfinalized m h). assert (trx_inv (n + dropped m m1) m1 /\ transactions_pool_ m1 = transactions_pool_ m /\ trx_count_ m1 = trx_count_ m /\
    recently_finalized_transactions_ m1 = recently_finalized_transactions_ m /\ db_trx_period (trx_db m1) = db_trx_period (trx_db m) /\
    db_period_transactions (trx_db m1) = db_period_transactions (trx_db m) /\ db_TrxCount (trx_db m1) = db_TrxCount (trx_db m) /\
    nonfinalized_transactions_in_dag_ m1 = delete h (nonfinalized_transactions_in_dag_ m)) as (Hi1 & E1 & E2 & E3 & E4 & E5 & E6 & E7).
  { subst m1. unfold remove_nonfinalized. destruct (in_map _ h) eqn:Ein.
    - split_and!; try done. destruct Hi as [I1 I2 I3 I4 I5 I6 I7 I8 I9 I10 I11]. split; simpl; try done.
      + intros k x [_ Hx]%lookup_delete_Some. by apply I3.
      + intros k [x [_ Hx]%lookup_delete_Some]. apply I4. by eexists.
      + intros k Hk. apply lookup_delete_None. right. by apply I7.
      + by rewrite I8.
      + unfold dropped. simpl. rewrite I9. f_equal. lia.
    - apply in_map_false in Ein. rewrite delete_id by done. unfold dropped. rewrite Z.sub_diag, Z.add_0_r. done. }
  clearbody m1. destruct (IH (n + dropped m m1) m1 Hi1) as (Hi2 & F1 & F2 & F3 & F4 & F5 & F6 & F7).
  split_and!; try congruence.
  - by replace (n + dropped m _) with (n + dropped m m1 + dropped m1 (foldl remove_nonfinalized m1 l)) by (unfold dropped; lia).
  - intros d k Hk Hd. apply not_elem_of_cons in Hk as [Hne Hk]. apply F7; [done|]. rewrite E7. by rewrite lookup_delete_ne.
Qed.

Lemma dropped_nonneg m hs : 0 <= dropped m (removeNonFinalizedTransactions m hs).
Proof.
  unfold dropped, removeNonFinalizedTransactions. induction (elements hs) as [|h l IH] in m |- *; simpl; [lia|].
  specialize (IH (remove_nonfinalized m h)).
  assert (size (nonfinalized_transactions_in_dag_ (remove_nonfinalized m h)) <= size (nonfinalized_transactions_in_dag_ m))%nat; [|lia].
  unfold remove_nonfinalized. destruct (in_map _ h); simpl; [apply size_delete_le|lia].
Qed.

(** ** A period is finalized *)

(** The transaction manager's part of [pushPbftBlock]: the batch is written, transactions of
    expired DAG blocks are removed, the transactions of the period are finalized. *)
Definition push_period (env : TrxEnv) (m : TransactionManager) (period : PbftPeriod) (trxs : list Transaction) (expired_trxs : list trx_hash_t) :
    outcome TransactionManager :=
  let m := tm_db m (savePeriodTransactions (trx_db m) period trxs) in
  let m := match expired_trxs with
           | [] => m
           | _ => removeNonFinalizedTransactions m (excludeFinalizedTransactions m expired_trxs)
           end in
  updateFinalizedTransactionsStatus env m period trxs.

Lemma save_locations_remove period trxs h : forall pos d,
  save_locations period pos trxs (removeTransactionToBatch d h) = removeTransactionToBatch (save_locations period pos trxs d) h.
Proof.
  induction trxs as [|t trxs IH]; intros pos d; [done|]. simpl. rewrite <- IH. f_equal. unfold removeTransactionToBatch. simpl.
  by rewrite delete_delete.
Qed.

Lemma remove_after_save period trxs hs m :
  removeNonFinalizedTransactions (tm_db m (savePeriodTransactions (trx_db m) period trxs)) hs =
  let m' := removeNonFinalizedTransactions m hs in tm_db m' (savePeriodTransactions (trx_db m') period trxs).
Proof.
  unfold removeNonFinalizedTransactions. induction (elements hs) as [|h l IH] in m |- *; simpl; [done|]. rewrite <- IH. f_equal.
  unfold remove_nonfinalized. simpl. destruct (in_map _ h); [|done]. unfold tm_dag, tm_db. simpl. f_equal.
  unfold savePeriodTransactions. by rewrite save_locations_remove.
Qed.

Lemma push_period_inv n env m period trxs expired_trxs :
  trx_inv n m -> locations_ok (trx_db m) -> db_TrxCount (trx_db m) = trx_count_ m ->
  Forall genuine trxs -> NoDup (trx_hash <$> trxs) -> Forall (fun t => db_trx_period (trx_db m) !! trx_hash t = None) trxs ->
  Z.of_nat (length trxs) <= 2 ^ 32 -> db_period_transactions (trx_db m) !! period = None ->
  exists n' m', n <= n' /\ push_period env m period trxs expired_trxs = Done m' /\ trx_inv n' m' /\ locations_ok (trx_db m') /\
    db_TrxCount (trx_db m') = trx_count_ m'.
Proof.
  intros Hi Hl Hc Hg Hnd Hf Hlen Hnew. unfold push_period. cbn zeta.
  set (ms := tm_db m (savePeriodTransactions (trx_db m) period trxs)).
  assert (exists n' m1, n <= n' /\ match expired_trxs with [] => ms | _ => removeNonFinalizedTransactions ms (excludeFinalizedTransactions ms expired_trxs) end
    = tm_db m1 (savePeriodTransactions (trx_db m1) period trxs) /\ trx_inv n' m1 /\ db_trx_period (trx_db m1) = db_trx_period (trx_db m) /\
    db_period_transactions (trx_db m1) = db_period_transactions (trx_db m) /\ db_TrxCount (trx_db m1) = trx_count_ m1)
    as (n' & m1 & Hn & -> & Hi1 & P1 & Q1 & C1).
  { destruct expired_trxs as [|x xs]; [exists n, m; split_and!; done|]. set (hs := excludeFinalizedTransactions _ _). subst ms. rewrite remove_after_save.
    destruct (remove_inv n m hs Hi) as (Hi1 & E1 & E2 & E3 & E4 & E5 & E6 & E7).
    exists (n + dropped m (removeNonFinalizedTransactions m hs)), (removeNonFinalizedTransactions m hs). split_and!; try done; [|congruence].
    pose proof (dropped_nonneg m hs). lia. }
  destruct (updateFinalized_inv n' env m1 period trxs Hi1 Hg Hnd) as (m' & E' & Hi' & P' & Q' & C'); [by rewrite P1|].
  exists n', m'. split_and!; try done; [|by apply C'].
  eapply locations_other; [|exact P'|rewrite Q'; by destruct (save_locations_rest period trxs 0 (trx_db m1)) as [<- _]].
  apply savePeriodTransactions_locations; try done; [|by rewrite Q1]. by eapply locations_other.
Qed.

(** ** Restart *)

Lemma recover_fold d0 : forall items m,
  Forall (fun e => trx_hash e.2 = e.1 /\ db_trx_period d0 !! e.1 = None) items -> NoDup items.*1 ->
  (forall e, e ∈ items -> nonfinalized_transactions_in_dag_ m !! e.1 = None) ->
  foldl (recover_step d0) m items = tm_dag m (list_to_map items ∪ nonfinalized_transactions_in_dag_ m).
Proof.
  induction items as [|[h t] items IH]; intros m Hf Hnd Hnew; simpl.
  { rewrite (left_id_L ∅ (∪)). by destruct m. }
  apply Forall_cons in Hf as [[Eh Hfin] Hf]. apply NoDup_cons in Hnd as [Hh Hnd]. simpl in *. subst h.
  unfold recover_step at 2. simpl. unfold transactionFinalized, in_map. rewrite Hfin, bool_decide_false by (by intros []).
  assert (nonfinalized_transactions_in_dag_ m !! trx_hash t = None) as -> by (apply (Hnew (trx_hash t, t)), elem_of_cons; by left).
  rewrite IH; [|done|done|].
  - simpl. unfold tm_dag at 1 3. simpl. f_equal. rewrite <- insert_union_l, insert_union_r; [done|].
    by apply not_elem_of_list_to_map_1.
  - intros e He. simpl. rewrite lookup_insert_ne; [apply Hnew, elem_of_cons; by right|]. intros E. apply Hh. rewrite E. by apply list_elem_of_fmap_2.
Qed.

Lemma recover_restores d :
  (forall h t, db_transactions d !! h = Some t -> trx_hash t = h /\ db_trx_period d !! h = None) ->
  recoverNonfinalizedTransactions (construct_trx cfg d) = tm_dag (construct_trx cfg d) (db_transactions d).
Proof.
  intros Hd. unfold recoverNonfinalizedTransactions. rewrite recover_fold; simpl.
  - by rewrite map_items_to_map, (right_id_L ∅ (∪)).
  - apply Forall_forall. intros [h t] He%elem_of_map_items. by apply Hd.
  - apply map_items_NoDup.
  - intros e _. apply lookup_empty.
Qed.

Definition restart_trx (env : TrxEnv) (d : TrxDb) (chain_size : Z) : outcome TransactionManager :=
  load_recent env (recoverNonfinalizedTransactions (construct_trx cfg d)) chain_size.

Lemma add_recent_inv n m period trxs : trx_inv n m ->
  (forall t, t ∈ trxs -> genuine t /\ is_Some (db_trx_period (trx_db m) !! trx_hash t) /\ pool_of m (trx_hash t) = None) ->
  let m' := initializeRecentlyFinalizedTransactions m period trxs in
  trx_inv n m' /\ transactions_pool_ m' = transactions_pool_ m /\ nonfinalized_transactions_in_dag_ m' = nonfinalized_transactions_in_dag_ m /\
  trx_db m' = trx_db m /\ trx_count_ m' = trx_count_ m.
Proof.
  unfold initializeRecentlyFinalizedTransactions. revert m. induction trxs as [|t trxs IH]; intros m Hi Ht; simpl; [done|].
  destruct (Ht t) as (Hg & Hf & Hp); [apply elem_of_cons; by left|].
  destruct (IH (add_recent period m t)) as (H1 & H2); [|intros x Hx; apply Ht, elem_of_cons; by right|done].
  destruct Hi as [I1 I2 I3 I4 I5 I6 I7 I8 I9 I10 I11]. split; simpl; try done.
  - intros h [x [[<- _]|[_ Hx]]%lookup_insert_Some]; [done|]. apply I5. by eexists.
  - intros h [x [[<- _]|[_ Hx]]%lookup_insert_Some]; [done|]. apply I6. by eexists.
  - intros h x [[<- <-]|[_ Hx]]%lookup_insert_Some; [done|by apply I11].
Qed.

Lemma load_recent_inv n env m chain_size m' : trx_inv n m -> locations_ok (trx_db m) -> (forall h, pool_of m h = None) ->
  load_recent env m chain_size = Done m' ->
  trx_inv n m' /\ transactions_pool_ m' = transactions_pool_ m /\ nonfinalized_transactions_in_dag_ m' = nonfinalized_transactions_in_dag_ m /\
  trx_db m' = trx_db m /\ trx_count_ m' = trx_count_ m.
Proof.
  unfold load_recent. intros Hi [_ L2] Hp. generalize (seqZ (if u64 (kRecentlyFinalizedTransactionsFactor * te_delegationDelay env) <? chain_size
    then u64 (chain_size - u64 (kRecentlyFinalizedTransactionsFactor * te_delegationDelay env)) else 1)
    (chain_size - (if u64 (kRecentlyFinalizedTransactionsFactor * te_delegationDelay env) <? chain_size
    then u64 (chain_size - u64 (kRecentlyFinalizedTransactionsFactor * te_delegationDelay env)) else 1) + 1)). intros l.
  induction l as [|p l IH] in m, Hi, Hp, L2 |- *; simpl; [by intros [= <-]|].
  destruct (db_period_transactions (trx_db m) !! p) as [trxs|] eqn:E; simpl; [|done]. 
  destruct (add_recent_inv n m p trxs Hi) as (Hi1 & E1 & E2 & E3 & E4).
  { intros t Ht. destruct (L2 _ _ _ E Ht) as [G1 G2]. done. }
  intros H. destruct (IH _ Hi1) as (Hi2 & F1 & F2 & F3 & F4); [by rewrite E3|by rewrite E1|exact H|]. split; [done|]. split_and!; congruence.
Qed.

(** The loop succeeds when the database has every period of the chain. *)
Lemma load_recent_total env m chain_size :
  0 <= chain_size < 2 ^ 64 -> (forall p, 1 <= p <= chain_size -> is_Some (db_period_transactions (trx_db m) !! p)) ->
  exists m', load_recent env m chain_size = Done m'.
Proof.
  intros Hsz Hp. unfold load_recent. set (periods := u64 _). set (start := if periods <? chain_size then u64 (chain_size - periods) else 1).
  assert (1 <= start) as Hs.
  { subst start. assert (0 <= periods) by (apply (wrap_range 64); lia). destruct (Z.ltb_spec periods chain_size); [|lia].
    rewrite wrap_id by (unfold in_range, modulus; lia). lia. }
  assert (forall p, p ∈ seqZ start (chain_size - start + 1) -> is_Some (db_period_transactions (trx_db m) !! p)) as Hin
    by (intros p H%elem_of_seqZ; apply Hp; lia).
  clearbody start. clear Hp. induction (seqZ start (chain_size - start + 1)) as [|p l IH] in m, Hin |- *; [by exists m|]. simpl.
  destruct (Hin p) as [trxs ->]; [apply elem_of_cons; by left|]. simpl. apply IH. intros p' Hp'.
  assert (trx_db (initializeRecentlyFinalizedTransactions m p trxs) = trx_db m) as ->; [|apply Hin, elem_of_cons; by right].
  unfold initializeRecentlyFinalizedTransactions. clear. induction trxs as [|t trxs IH] in m |- *; simpl; [done|]. by rewrite IH.
Qed.

Lemma construct_trx_inv n d :
  0 <= tc_transactions_pool_size cfg < 2 ^ 31 -> locations_ok d ->
  (forall h t, db_transactions d !! h = Some t -> trx_hash t = h /\ genuine t /\ db_trx_period d !! h = None) ->
  db_TrxCount d = u64 (Z.of_nat (size (db_transactions d)) + Z.of_nat (size (db_trx_period d)) + n) ->
  trx_inv n (tm_dag (construct_trx cfg d) (db_transactions d)).
Proof.
  intros Hsz [L1 L2] Hd Hc. split; simpl; try done.
  - by apply new_queue_inv.
  - intros h t Ht. by destruct (Hd h t Ht) as (? & ? & _).
  - intros h [x Hx]. by rewrite lookup_empty in Hx.
  - intros h Hh. destruct (db_transactions d !! h) as [t|] eqn:E; [|done]. destruct (Hd h t E) as (_ & _ & Hn). rewrite Hn in Hh. by destruct Hh.
  - split_and!; [intros k [x Hx]; simpl in Hx; by rewrite lookup_empty in Hx| |intros h p v; simpl; by rewrite lookup_empty].
    unfold CacheMap.cm_params_ok. simpl. apply Z2Nat.inj_le; [apply Z.div_pos; lia..|].
    apply Z.div_le_compat_l; lia.
Qed.

(** ** Proposals *)

(** The execution uses no more gas than the transaction offers. *)
Definition calls_ok (env : TrxEnv) : Prop := forall t p, 0 <= trx_gas t -> 0 <= te_call env t p <= trx_gas t.

Lemma estimate_effect n env m t period :
  trx_inv n m -> calls_ok env -> genuine t -> 0 <= trx_gas t ->
  exists c g, estimateTransactionGas est_key env m t period = Done (tm_cache m c, g) /\ trx_inv n (tm_cache m c) /\ 0 <= g <= trx_gas t.
Proof.
  intros Hi Hcalls Ht Hg. unfold estimateTransactionGas.
  destruct (_ <=? _); [exists (estimations_cache_ m), (trx_gas t); split; [by destruct m|split; [by destruct m|lia]]|].
  cbn zeta. set (key := est_key (trx_hash t) period). pose proof (v_cache _ _ _ _ Hi) as (T & P & B). unfold CacheMap.cm_get.
  destruct (CacheMap.cache_ (estimations_cache_ m) !! key) as [v|] eqn:E.
  - exists (estimations_cache_ m), v. split; [by destruct m|]. split; [by destruct m|]. specialize (B _ _ _ E). by rewrite Ht in B.
  - unfold CacheMap.cm_insert. rewrite E.
    destruct (CacheMap.trim_spec (CacheMap.store (estimations_cache_ m) key (te_call env t period))) as (c & k & Ec & _ & _ & _ & Hl & T' & P' & _);
      [by apply CacheMap.store_tracked|done|]. rewrite Ec. simpl. exists c, (te_call env t period). split; [done|]. split; [|by apply Hcalls].
    destruct Hi as [I1 I2 I3 I4 I5 I6 I7 I8 I9 I10 I11]. split; try done. split_and!; [done..|]. simpl. intros h p v. rewrite Hl.
    case_decide; [done|]. simpl. intros [[Ek <-]|[_ Hv]]%lookup_insert_Some; [|by eapply B].
    apply est_key_inj in Ek as <-. rewrite Ht. by apply Hcalls.
Qed.

Lemma pack_effect n env period limit : forall trxs m total,
  trx_inv n m -> calls_ok env -> 0 <= total <= limit ->
  Forall (fun t => genuine t /\ 0 <= trx_gas t /\ limit + trx_gas t < 2 ^ 64 /\
    nonfinalized_transactions_in_dag_ m !! trx_hash t = None /\ recently_finalized_transactions_ m !! trx_hash t = None) trxs ->
  exists m' l, pack est_key iterate env period limit total trxs m = Done (m', l) /\ trx_inv n m' /\ trx_db m' = trx_db m /\
    trx_count_ m' = trx_count_ m /\ sublist l.*1 trxs /\ (forall e, e ∈ l -> kMinTxGas <= e.2 <= trx_gas e.1) /\ total + sum_list_Z snd l <= limit.
Proof.
  induction trxs as [|t trxs IH]; intros m total Hi Hc Htot Hf; simpl.
  { exists m, []. simpl. split_and!; try done; [intros e He; by apply not_elem_of_nil in He|lia]. }
  apply Forall_cons in Hf as [(Ht & Hg & Hov & Hd & Hr) Hf]. rewrite wrap_id by (unfold in_range, modulus; lia).
  destruct (Z.ltb_spec limit (total + trx_gas t)) as [Hbig|Hfit].
  { destruct (IH m total Hi Hc Htot Hf) as (m' & l & E & H1 & H2 & H3 & H4 & H5 & H6). exists m', l. split_and!; try done. by apply sublist_cons. }
  destruct (estimate_effect n env m t period Hi Hc Ht Hg) as (c & g & E & Hi1 & Hge). rewrite E. simpl obind.
  destruct (Z.ltb_spec g kMinTxGas) as [Hlow|Henough].
  - destruct (erase_effect known est_key n (tm_cache m c) t Hi1 Ht) as (p & b & Ep & Hq & Hp). simpl in Ep, Hq, Hp. rewrite Ep. simpl obind.
    assert (trx_inv n (tm_pool (tm_cache m c) (with_pool (transactions_pool_ m) p))) as Hi2.
    { apply inv_shrink; [done..|]. simpl. intros h x. rewrite Hp. by case_decide. }
    destruct (insert_effect iterate (with_pool (transactions_pool_ m) p) t false (te_lastBlockNumber env) (te_now env) iterate_perm Hq)
      as (q & st & Ei & _). simpl in Ei |- *. rewrite Ei. simpl obind.
    destruct (IH (tm_pool (tm_cache m c) q) total) as (m' & l & E' & H1 & H2 & H3 & H4 & H5 & H6); try done.
    { by apply (inv_insert known est_key iterate iterate_perm n (tm_pool (tm_cache m c) (with_pool (transactions_pool_ m) p)) t false
        (te_lastBlockNumber env) (te_now env) q st). }
    exists m', l. split_and!; try done. by apply sublist_cons.
  - rewrite (wrap_id 64 (total + g)) by (unfold in_range, modulus; lia). rewrite wrap_id by (unfold in_range, modulus; lia).
    destruct (_ <=? _).
    + exists (tm_cache m c), [(t, g)]. simpl. split_and!; try done; [apply sublist_skip, sublist_nil_l| |lia].
      intros e ->%list_elem_of_singleton. simpl. lia.
    + destruct (IH (tm_cache m c) (total + g)) as (m' & l & E' & H1 & H2 & H3 & H4 & H5 & H6); try done; [lia|].
      rewrite E'. exists m', ((t, g) :: l). simpl. split_and!; try done; [by apply sublist_skip| |lia].
      intros e [->|He]%elem_of_cons; [simpl; lia|by apply H5].
Qed.

(** ** Runs *)

Lemma insertValidated_db env m t b m' st :
  insertValidatedTransaction cfg iterate env m t b = Done (m', st) -> trx_db m' = trx_db m /\ trx_count_ m' = trx_count_ m.
Proof.
  unfold insertValidatedTransaction. destruct (in_map _ _); [by intros [= <- _]|]. destruct (in_map _ _); [by intros [= <- _]|].
  destruct (_ && _); [by intros [= <- _]|]. destruct (isProposable cfg env t); simpl.
  all: destruct (insert _ _ _ _ _ _) as [[q s]| |]; simpl; try done; by intros [= <- _].
Qed.

Lemma saveTransactionsFromDagBlock_db env m trxs m' :
  saveTransactionsFromDagBlock env m trxs = Done m' ->
  db_trx_period (trx_db m') = db_trx_period (trx_db m) /\ db_period_transactions (trx_db m') = db_period_transactions (trx_db m) /\
  db_TrxCount (trx_db m') = trx_count_ m'.
Proof.
  unfold saveTransactionsFromDagBlock. destruct (ofold _ _ _) as [m1| |] eqn:E; simpl; [|done..]. intros [= <-]. simpl. 
  induction trxs as [|t trxs IH] in m, E |- *; simpl in E; [by injection E as <-|].
  destruct (save_from_dag env m t) as [m2| |] eqn:E2; simpl in E; [|done..]. destruct (IH m2 E) as (-> & -> & _). clear IH E.
  revert E2. unfold save_from_dag. destruct (_ || _); [by intros [= <-]|]. destruct (finalized_before _ _ _); [by intros [= <-]|]. simpl.
  destruct (pool_erase _ _) as [[p b]| |]; simpl; try done. by intros [= <-].
Qed.

Record trx_wf (n : Z) (m : TransactionManager) : Prop := {
  w_inv : trx_inv n m;
  w_loc : locations_ok (trx_db m);
  w_count : db_TrxCount (trx_db m) = trx_count_ m;
}.

Definition limits_ok (m : TransactionManager) (limit : Z) : Prop :=
  0 <= limit /\ forall h t, pool_of m h = Some t -> 0 <= trx_gas t /\ limit + trx_gas t < 2 ^ 64.

Definition period_ok (m : TransactionManager) (period : PbftPeriod) (trxs : list Transaction) : Prop :=
  Forall genuine trxs /\ NoDup (trx_hash <$> trxs) /\ Forall (fun t => db_trx_period (trx_db m) !! trx_hash t = None) trxs /\
  Z.of_nat (length trxs) <= 2 ^ 32 /\ db_period_transactions (trx_db m) !! period = None.

Inductive trx_step (m m' : TransactionManager) : Prop :=
| step_insert env t a : genuine t -> insertTransaction cfg iterate env m t = Done (m', a) -> trx_step m m'
| step_gossip env t b st : genuine t -> insertValidatedTransaction cfg iterate env m t b = Done (m', st) -> trx_step m m'
| step_dag_block env trxs : Forall genuine trxs -> Forall (nonces_ok env m) trxs -> saveTransactionsFromDagBlock env m trxs = Done m' -> trx_step m m'
| step_push_period env period trxs expired_trxs :
    period_ok m period trxs -> push_period env m period trxs expired_trxs = Done m' -> trx_step m m'
| step_finalized block_number : m' = tm_blockFinalized m block_number -> trx_step m m'
| step_pack env period limit l :
    calls_ok env -> limits_ok m limit -> packTrxs est_key iterate env m period limit = Done (m', l) -> trx_step m m'
| step_restart env chain_size : restart_trx env (trx_db m) chain_size = Done m' -> trx_step m m'.

Lemma packTrxs_effect n env m period limit :
  trx_wf n m -> calls_ok env -> limits_ok m limit ->
  exists m' l, packTrxs est_key iterate env m period limit = Done (m', l) /\ trx_wf n m' /\
    (exists trxs, getOrderedTransactions iterate (pool (transactions_pool_ m)) (limit / kMinTxGas) = Done trxs /\ sublist l.*1 trxs) /\
    (forall e, e ∈ l -> kMinTxGas <= e.2 <= trx_gas e.1) /\ sum_list_Z snd l <= limit.
Proof.
  intros [Hi Hl Hc] Hcalls [Hlim Hgas]. unfold packTrxs.
  destruct (getOrdered_effect iterate iterate_perm (pool (transactions_pool_ m)) (limit / kMinTxGas) (q_pool _ (v_queue _ _ _ _ Hi)))
    as (full & (Hperm & _) & Ho).
  set (trxs := if 0 <? limit / kMinTxGas then take (Z.to_nat (limit / kMinTxGas)) full else full) in Ho. rewrite Ho. simpl obind.
  assert (forall t, t ∈ trxs -> queue_transactions_ (pool (transactions_pool_ m)) !! trx_hash t = Some t) as Hin.
  { intros t Ht. assert (t ∈ full) as Hf by (subst trxs; case_match; [rewrite <- (take_drop (Z.to_nat (limit / kMinTxGas)) full); apply elem_of_app; by left|done]).
    rewrite Hperm in Hf. apply list_elem_of_fmap in Hf as ([h x] & -> & Hx%elem_of_map_to_list). simpl.
    destruct (v_pool _ _ _ _ Hi h x) as [<- _]; [unfold pool_get; by rewrite Hx|done]. }
  clearbody trxs.
  destruct (pack_effect n env period limit trxs m 0 Hi Hcalls) as (m' & l & E & Hi' & D & C & S & B & Sum); [lia| |].
  { apply Forall_forall. intros t Ht. apply Hin in Ht.
    assert (pool_of m (trx_hash t) = Some t) as Hp by (unfold pool_get; by rewrite Ht). destruct (Hgas _ _ Hp) as [G1 G2].
    destruct (v_pool _ _ _ _ Hi _ _ Hp) as [_ Hg]. split_and!; try done.
    - destruct (nonfinalized_transactions_in_dag_ m !! trx_hash t) as [x|] eqn:Ex; [|done].
      rewrite (v_dag_pool _ _ _ _ Hi) in Hp by by eexists. done.
    - destruct (recently_finalized_transactions_ m !! trx_hash t) as [x|] eqn:Ex; [|done].
      rewrite (v_recent_pool _ _ _ _ Hi) in Hp by by eexists. done. }
  exists m', l. split; [done|]. split; [split; [done|by rewrite D|by rewrite D, C]|]. split; [by exists trxs|]. split; [done|lia].
Qed.

Lemma wf_recovers n m : trx_wf n m ->
  recoverNonfinalizedTransactions (construct_trx cfg (trx_db m)) = tm_dag (construct_trx cfg (trx_db m)) (db_transactions (trx_db m)).
Proof.
  intros [Hi Hl Hc]. apply recover_restores. intros h t Ht. rewrite (v_db _ _ _ _ Hi) in Ht. destruct (v_dag _ _ _ _ Hi _ _ Ht) as [E _]. split; [done|].
  destruct (db_trx_period (trx_db m) !! h) as [x|] eqn:Ex; [|done]. rewrite (v_final _ _ _ _ Hi) in Ht by by eexists. done.
Qed.

Lemma restart_effect n env m chain_size m' :
  0 <= tc_transactions_pool_size cfg < 2 ^ 31 -> trx_wf n m -> restart_trx env (trx_db m) chain_size = Done m' ->
  trx_wf n m' /\ nonfinalized_transactions_in_dag_ m' = nonfinalized_transactions_in_dag_ m /\ trx_db m' = trx_db m /\
  trx_count_ m' = trx_count_ m /\ forall h, pool_of m' h = None.
Proof.
  intros Hsz Hw. unfold restart_trx. rewrite (wf_recovers n m Hw). destruct Hw as [Hi Hl Hc]. intros H. destruct (load_recent_inv n env (tm_dag (construct_trx cfg (trx_db m)) (db_transactions (trx_db m))) chain_size m') as (Hi' & E1 & E2 & E3 & E4);
    [|done|done|done|].
  - apply construct_trx_inv; [done|done| |].
    + intros h t Ht. rewrite (v_db _ _ _ _ Hi) in Ht. destruct (v_dag _ _ _ _ Hi _ _ Ht) as [E G]. split_and!; [done..|].
      destruct (db_trx_period (trx_db m) !! h) as [x|] eqn:Ex; [|done]. rewrite (v_final _ _ _ _ Hi) in Ht by by eexists. done.
    + rewrite Hc, (v_count _ _ _ _ Hi), (v_db _ _ _ _ Hi). done.
  - simpl in *. split_and!; [split; [done|by rewrite E3|by rewrite E3, E4]|by rewrite E2, (v_db _ _ _ _ Hi)|done|by rewrite E4|].
    intros h. by rewrite E1.
Qed.

Lemma insertTransaction_inv n env m t :
  trx_inv n m -> genuine t -> exists m' a, insertTransaction cfg iterate env m t = Done (m', a) /\ trx_inv n m' /\ trx_db m' = trx_db m /\ trx_count_ m' = trx_count_ m.
Proof.
  intros Hi Ht. unfold insertTransaction. destruct (isTransactionKnown _ _); [by eexists _, _|].
  destruct (verifyTransaction _ _ _); [by eexists _, _|].
  destruct (insertValidated_inv known cfg est_key iterate iterate_perm n env m t false Hi Ht) as (m' & st & E & Hi'). rewrite E. simpl obind.
  destruct (insertValidated_db _ _ _ _ _ _ E) as [D C]. eexists _, _. split; [done|]. done.
Qed.

(** Every operation that may be called returns, in a well-formed state. *)
Lemma trx_step_wf n m m' :
  0 <= tc_transactions_pool_size cfg < 2 ^ 31 -> trx_wf n m -> trx_step m m' -> exists n', n <= n' /\ trx_wf n' m'.
Proof.
  intros Hsz Hwf. pose proof Hwf as [Hi Hl Hc]. intros [env t a Hg E|env t b st Hg E|env trxs Hg Hn E|env period trxs ex (P1 & P2 & P3 & P4 & P5) E|bn ->|env period limit l Hcalls Hlim E|env size E].
  - destruct (insertTransaction_inv n env m t Hi Hg) as (m1 & a1 & E1 & Hi1 & D & C). rewrite E in E1. injection E1 as <- <-.
    exists n. split; [lia|]. split; [done|by rewrite D|by rewrite D, C].
  - destruct (insertValidated_inv known cfg est_key iterate iterate_perm n env m t b Hi Hg) as (m1 & st1 & E1 & Hi1). rewrite E in E1. injection E1 as <- <-.
    destruct (insertValidated_db _ _ _ _ _ _ E) as [D C]. exists n. split; [lia|]. split; [done|by rewrite D|by rewrite D, C].
  - destruct (saveTransactionsFromDagBlock_inv known est_key n env m trxs Hi Hg Hn) as (m1 & E1 & Hi1). rewrite E in E1. injection E1 as <-.
    destruct (saveTransactionsFromDagBlock_db _ _ _ _ E) as (D1 & D2 & D3). exists n. split; [lia|]. split; [done|by eapply locations_other|done].
  - destruct (push_period_inv n env m period trxs ex Hi Hl Hc P1 P2 P3 P4 P5) as (n' & m1 & Hn & E1 & Hi1 & L1 & C1). rewrite E in E1. injection E1 as <-.
    by exists n'.
  - exists n. split; [lia|]. split; [by apply inv_pool_ops|done..].
  - destruct (packTrxs_effect n env m period limit Hwf Hcalls Hlim) as (m1 & l1 & E1 & Hw & _). rewrite E in E1. injection E1 as <- <-. exists n. split; [lia|done].
  - destruct (restart_effect n env m size m' Hsz Hwf E) as [Hw _]. exists n. split; [lia|done].
Qed.

Definition trx_start : TransactionManager := construct_trx cfg (mkTrxDb ∅ ∅ ∅ 0).

Lemma reach_wf m :
  0 <= tc_transactions_pool_size cfg < 2 ^ 31 -> rtc trx_step trx_start m -> exists n, 0 <= n /\ trx_wf n m.
Proof.
  intros Hsz Hr. assert (trx_wf 0 trx_start) as Hw.
  { assert (locations_ok (mkTrxDb ∅ ∅ ∅ 0)) as Hl by (split; intros ??? H; simpl in H; by rewrite lookup_empty in H).
    split; [|done|done]. apply (construct_trx_inv 0 (mkTrxDb ∅ ∅ ∅ 0)); [done|done| |done]. intros h t H. simpl in H. by rewrite lookup_empty in H. }
  assert (forall n, trx_wf n trx_start -> exists n', n <= n' /\ trx_wf n' m) as H; [|by apply H]. clear Hw. intros n Hw.
  revert n Hw. induction Hr as [|m0 m1 m2 Hs Hr IH]; intros n Hw; [exists n; split; [lia|done]|].
  destruct (trx_step_wf n m0 m1 Hsz Hw Hs) as (n1 & Hn1 & Hw1). destruct (IH n1 Hw1) as (n2 & Hn2 & Hw2). exists n2. split; [lia|done].
Qed.
End manager.

(** ** Properties *)

Section properties.
Context (known : trx_hash_t -> Transaction) (cfg : TrxConfig) (est_key : trx_hash_t -> PbftPeriod -> Z)
  (iterate : gmap addr_t (gmap Z Transaction) -> list (addr_t * gmap Z Transaction)).
Context (iterate_perm : forall m, iterate m ≡ₚ map_to_list m).
Context (est_key_inj : forall h p h' p', est_key h p = est_key h' p' -> h = h').
Context (pool_size_ok : 0 <= tc_transactions_pool_size cfg < 2 ^ 31).
#[local] Set Default Proof Using "Type*".

Abbreviation reachable := (rtc (trx_step known cfg est_key iterate) (trx_start cfg)).


(** In every state reached [getTransaction] finds each transaction that waits in
    the pool, is part of a DAG block or was ever finalized, and it is the transaction of
    that hash; for every other hash it answers with the system transaction, if any. *)
Theorem getTransaction_complete env m h :
  reachable m ->
  getTransaction env m h =
    if bool_decide (is_Some (pool_get (pool (transactions_pool_ m)) h) \/ is_Some (nonfinalized_transactions_in_dag_ m !! h) \/
                    is_Some (db_trx_period (trx_db m) !! h))
    then Some (known h) else te_system_transaction env h.
Proof.
  intros Hr. destruct (reach_wf known cfg est_key iterate iterate_perm est_key_inj m pool_size_ok Hr) as (n & _ & [Hi [L _] _]).
  unfold getTransaction, db_getTransaction. destruct (pool_get (pool (transactions_pool_ m)) h) as [t|] eqn:Ep.
  { rewrite bool_decide_true by (left; by eexists). destruct (v_pool _ _ _ _ Hi _ _ Ep) as [<- ->]. done. }
  rewrite (v_db _ _ _ _ Hi). destruct (nonfinalized_transactions_in_dag_ m !! h) as [t|] eqn:Ed.
  { rewrite bool_decide_true by (right; left; by eexists). destruct (v_dag _ _ _ _ Hi _ _ Ed) as [<- ->]. done. }
  destruct (db_trx_period (trx_db m) !! h) as [[p pos]|] eqn:Ef.
  - rewrite bool_decide_true by (right; right; by eexists). destruct (L _ _ _ Ef) as (_ & l & Hl & Hp). rewrite Hl. done.
  - rewrite bool_decide_false; [done|]. intros [[? H]|[[? H]|[? H]]]; done.
Qed.

(** C32: a restart loses nothing but the pool.  When the database has the periods of the
    chain, the start succeeds, the DAG transactions are restored from the database, with
    the transaction count, and every recently finalized transaction is finalized in the
    database. *)
Theorem restart_restores_transactions env m chain_size :
  reachable m -> 0 <= chain_size < 2 ^ 64 ->
  (forall p, 1 <= p <= chain_size -> is_Some (db_period_transactions (trx_db m) !! p)) ->
  exists m', restart_trx cfg env (trx_db m) chain_size = Done m' /\
    nonfinalized_transactions_in_dag_ m' = nonfinalized_transactions_in_dag_ m /\ trx_db m' = trx_db m /\ trx_count_ m' = trx_count_ m /\
    (forall h, pool_get (pool (transactions_pool_ m')) h = None) /\
    (forall h, is_Some (recently_finalized_transactions_ m' !! h) -> transactionFinalized (trx_db m) h = true).
Proof.
  intros Hr Hsz Hp. destruct (reach_wf known cfg est_key iterate iterate_perm est_key_inj m pool_size_ok Hr) as (n & _ & Hw).
  destruct (load_recent_total env (recoverNonfinalizedTransactions (construct_trx cfg (trx_db m))) chain_size Hsz) as [m' E];
    [by rewrite (wf_recovers known cfg est_key est_key_inj n m Hw)|].
  destruct (restart_effect known cfg est_key est_key_inj n env m chain_size m' pool_size_ok Hw E) as ([Hi _ _] & E1 & E2 & E3 & E4).
  exists m'. split_and!; try done. intros h H. apply bool_decide_eq_true. rewrite <- E2. by apply (v_recent _ _ _ _ Hi).
Qed.

(** A proposal fits.  When executions use at most the gas a transaction offers and
    the sums stay below 64 bits, [packTrxs] returns transactions of the ordered pool, in
    that order, each estimated between the minimal transaction gas and the gas it
    offers, and all estimations together stay within the weight limit. *)
Theorem packTrxs_fits env m period limit :
  reachable m -> calls_ok env -> limits_ok m limit ->
  exists m' l trxs, packTrxs est_key iterate env m period limit = Done (m', l) /\
    getOrderedTransactions iterate (pool (transactions_pool_ m)) (limit / kMinTxGas) = Done trxs /\ sublist l.*1 trxs /\
    (forall e, e ∈ l -> kMinTxGas <= e.2 <= trx_gas e.1) /\ sum_list_Z snd l <= limit.
Proof.
  intros Hr Hc Hl. destruct (reach_wf known cfg est_key iterate iterate_perm est_key_inj m pool_size_ok Hr) as (n & _ & Hw).
  destruct (packTrxs_effect known est_key iterate iterate_perm est_key_inj n env m period limit Hw Hc Hl) as (m' & l & E & _ & (trxs & E2 & S) & B & Sum).
  by exists m', l, trxs.
Qed.
End properties.

(** ** Examples *)

Definition ex_cfg : TrxConfig := mkTrxConfig 841 315000000 1 (fun _ => true) 315000000 200.
Definition ex_env : TrxEnv :=
  mkTrxEnv (fun _ => Some (mkAccount 0 1000000000)) (fun _ _ => None) 7 5 (fun t _ => trx_gas t) (fun _ => 841) (fun _ => 0)
    (fun _ => true) (fun _ => true) (fun _ => None) 0.
Definition ex_known (h : trx_hash_t) : Transaction := mkTransaction h h 0 5 21000 100.
Definition ex_key (h : trx_hash_t) (p : PbftPeriod) : Z := h.
Abbreviation ex_step := (trx_step ex_known ex_cfg ex_key map_to_list).
Abbreviation ex_start := (trx_start ex_cfg).

Definition done_or {A} (x : A) (o : outcome A) : A := match o with Done y => y | _ => x end.
Definition ex_in_dag : TransactionManager := done_or ex_start (saveTransactionsFromDagBlock ex_env ex_start [ex_known 1; ex_known 2]).
Definition ex_finalized : TransactionManager := done_or ex_start (push_period ex_env ex_in_dag 1 [ex_known 1] []).
Definition ex_waiting : TransactionManager := (done_or (ex_finalized, CouldNotInsert) (insertTransaction ex_cfg map_to_list ex_env ex_finalized (ex_known 3))).1.

Lemma ex_trx_reachable : rtc ex_step ex_start ex_waiting.
Proof.
  eapply rtc_l; [apply (step_dag_block _ _ _ _ ex_start ex_in_dag ex_env [ex_known 1; ex_known 2])|].
  - by repeat constructor.
  - repeat constructor; intros [x Hx]; vm_compute in Hx; discriminate Hx.
  - vm_compute. reflexivity.
  - eapply rtc_l; [apply (step_push_period _ _ _ _ ex_in_dag ex_finalized ex_env 1 [ex_known 1] [])|].
    + split_and!; [by repeat constructor|apply NoDup_singleton|constructor; [vm_compute; reflexivity|constructor]|simpl; lia|vm_compute; reflexivity].
    + vm_compute. reflexivity.
    + apply rtc_once, (step_insert _ _ _ _ ex_finalized ex_waiting ex_env (ex_known 3) InsertOk); [done|vm_compute; reflexivity].
Qed.


Lemma getTransaction_complete_witness :
  getTransaction ex_env ex_waiting 1 = Some (ex_known 1) /\ getTransaction ex_env ex_waiting 3 = Some (ex_known 3).
Proof.
  assert (forall m : gmap addr_t (gmap Z Transaction), map_to_list m ≡ₚ map_to_list m) as Hp by done.
  split; [rewrite (getTransaction_complete ex_known ex_cfg ex_key map_to_list Hp ltac:(by intros) ltac:(simpl; lia) ex_env ex_waiting 1 ex_trx_reachable)
         |rewrite (getTransaction_complete ex_known ex_cfg ex_key map_to_list Hp ltac:(by intros) ltac:(simpl; lia) ex_env ex_waiting 3 ex_trx_reachable)];
    vm_compute; reflexivity.
Defined.

Lemma restart_restores_transactions_witness :
  exists m', restart_trx ex_cfg ex_env (trx_db ex_waiting) 1 = Done m' /\
    nonfinalized_transactions_in_dag_ m' = nonfinalized_transactions_in_dag_ ex_waiting.
Proof.
  destruct (restart_restores_transactions ex_known ex_cfg ex_key map_to_list ltac:(done) ltac:(by intros) ltac:(simpl; lia) ex_env ex_waiting 1 ex_trx_reachable)
    as (m' & E & H & _); [lia| |by exists m'].
  intros p Hp. assert (p = 1) as -> by lia. exists [ex_known 1]. vm_compute. reflexivity.
Defined.

Lemma packTrxs_fits_witness :
  exists m' l trxs, packTrxs ex_key map_to_list ex_env ex_waiting 1 100000 = Done (m', l) /\
    getOrderedTransactions map_to_list (pool (transactions_pool_ ex_waiting)) 4 = Done trxs /\ sum_list_Z snd l <= 100000.
Proof.
  destruct (packTrxs_fits ex_known ex_cfg ex_key map_to_list ltac:(done) ltac:(by intros) ltac:(simpl; lia) ex_env ex_waiting 1 100000 ex_trx_reachable)
    as (m' & l & trxs & E & E2 & _ & _ & S); [| |by exists m', l, trxs].
  - intros t p Hg. simpl. lia.
  - split; [lia|]. intros h t. unfold pool_get.
    assert (queue_transactions_ (pool (transactions_pool_ ex_waiting)) = {[ 3 := ex_known 3 ]}) as -> by (vm_compute; reflexivity).
    assert (non_proposable_transactions_ (pool (transactions_pool_ ex_waiting)) = ∅) as -> by (vm_compute; reflexivity).
    rewrite lookup_empty. destruct (decide (h = 3)) as [->|]; [rewrite lookup_singleton_eq; intros [= <-]; simpl; lia|by rewrite lookup_singleton_ne].
Defined.

(** ** Behaviour that differs from the intention *)

Definition ex_unaffordable : Transaction := mkTransaction 9 9 0 (2 ^ 241) (2 ^ 15) 100.
Definition ex_poor : TrxEnv :=
  mkTrxEnv (fun _ => Some (mkAccount 0 0)) (fun _ _ => None) 7 5 (fun t _ => trx_gas t) (fun _ => 841) (fun _ => 0)
    (fun _ => true) (fun _ => true) (fun _ => None) 0.

(** The cost of a transaction is computed modulo 2^256.  A transaction with a gas
    price of 2^241 and 2^15 gas costs nothing by [getCost]: it passes the verification and,
    from an account without funds, enters the pool as proposable, where its gas price puts
    it first. *)
Theorem unaffordable_transaction_accepted :
  verifyTransaction ex_cfg ex_poor ex_unaffordable = None /\
  acc_balance <$> te_account ex_poor (trx_sender ex_unaffordable) = Some 0 /\
  0 < trx_gas_price ex_unaffordable * trx_gas ex_unaffordable + te_value ex_poor ex_unaffordable /\
  getCost ex_poor ex_unaffordable = 0 /\ isProposable ex_cfg ex_poor ex_unaffordable = true /\
  exists m, insertTransaction ex_cfg map_to_list ex_poor ex_waiting ex_unaffordable = Done (m, InsertOk) /\
    getOrderedTransactions map_to_list (pool (transactions_pool_ m)) 0 = Done [ex_unaffordable; ex_known 3].
Proof.
  split_and!; [vm_compute; reflexivity..|].
  exists (done_or (ex_waiting, CouldNotInsert) (insertTransaction ex_cfg map_to_list ex_poor ex_waiting ex_unaffordable)).1.
  split; vm_compute; reflexivity.
Qed.

(** [packTrxs] stops when exactly the smallest transaction gas is left, although
    its comment says that it stops when not even the smallest transaction fits: of two
    transactions that fill a limit of 42000 together it packs one. *)
Theorem packTrxs_stops_early :
  let m := (done_or (ex_waiting, CouldNotInsert) (insertTransaction ex_cfg map_to_list ex_env ex_waiting (ex_known 4))).1 in
  (exists trxs, getOrderedTransactions map_to_list (pool (transactions_pool_ m)) 2 = Done trxs /\ trx_gas <$> trxs = [21000; 21000]) /\
  exists m' t, packTrxs ex_key map_to_list ex_env m 1 42000 = Done (m', [(t, 21000)]).
Proof.
  intros m. split.
  - exists [ex_known 3; ex_known 4]. split; vm_compute; reflexivity.
  - exists m, (ex_known 3). vm_compute. reflexivity.
Qed.

(** A transaction that is dropped with an expired DAG block and comes back in
    another DAG block is counted twice: the count is not decreased when it is dropped. *)
Theorem dropped_transaction_counted_twice :
  let again := saveTransactionsFromDagBlock ex_env (removeNonFinalizedTransactions ex_in_dag {[ 1; 2 ]}) [ex_known 1; ex_known 2] in
  exists m, again = Done m /\ trx_count_ m = 4 /\ size (nonfinalized_transactions_in_dag_ m) = 2%nat /\ db_trx_period (trx_db m) = ∅.
Proof.
  intros again. exists (done_or ex_start again). split_and!; vm_compute; reflexivity.
Qed.
