(* ===== verification/GasPricer.v ===== *)
(** * The gas price a node suggests

    [GasPricer] (consensus/src/transaction/gas_pricer.cpp): a percentile of the lowest gas
    prices of the last blocks, kept up to date with every block and computed from the
    database after a start. *)

From S2P Require Import Prelude.
Local Open Scope Z_scope.
Local Open Scope outcome_scope.

(** [gp_capacity] is the capacity of the circular buffer. *)
Record GasPricerConfig := mkGasPricerConfig {
  kPercentile : Z;
  kMinimumPrice : Z;
  kIsLightNode : bool;
  kBlocksGasPricer : bool;
  gp_capacity : nat;
}.

Record GasPricer := mkGasPricer { latest_price_ : Z; price_list_ : list Z }.

Section pricer.
Context (cfg : GasPricerConfig).

Definition newGasPricer : outcome GasPricer :=
  let* _ := oassert (kPercentile cfg <=? 100) in Done (mkGasPricer (kMinimumPrice cfg) []).

(** [push_back] of a full buffer overwrites its first element. *)
Definition circular_push_back (l : list Z) (x : Z) : list Z := last_n (gp_capacity cfg) (l ++ [x]).

(** [std::min_element] of a list that is not empty. *)
Definition min_price (prices : list Z) : option Z :=
  match prices with [] => None | p :: rest => Some (foldl Z.min p rest) end.

(** The price at the percentile of the sorted list. *)
Definition percentile_price (l : list Z) : outcome Z :=
  let index := u64 (u64 (Z.of_nat (length l) - 1) * kPercentile cfg) / 100 in
  if Z.of_nat (length l) <=? index then Undefined
  else match merge_sort Z.le l !! Z.to_nat index with Some p => Done p | None => Undefined end.

Definition choose_price (g : GasPricer) : outcome GasPricer :=
  let* new_price := percentile_price (price_list_ g) in
  Done (mkGasPricer (if new_price =? 0 then latest_price_ g else new_price) (price_list_ g)).

(** [prices] are the gas prices of the transactions of a block. *)
Definition update (g : GasPricer) (prices : list Z) : outcome GasPricer :=
  if negb (kBlocksGasPricer cfg) then Done g
  else
    match min_price prices with
    | None => Done g
    | Some p => if p =? 0 then Done g else choose_price (mkGasPricer (latest_price_ g) (circular_push_back (price_list_ g) p))
    end.

(** The loop of [init] from block [n] down. *)
Fixpoint init_prices (db : gmap Z (list Z)) (n : nat) (l : list Z) : outcome (list Z) :=
  match n with
  | O => Done l
  | S n' =>
      if bool_decide (gp_capacity cfg = length l) then Done l
      else
        match db !! Z.of_nat n with
        | None => if kIsLightNode cfg then Done l else AssertFailed
        | Some prices =>
            match min_price prices with
            | None => init_prices db n' l
            | Some p => if p =? 0 then init_prices db n' l else init_prices db n' (p :: l)
            end
        end
  end.

Definition init (g : GasPricer) (db : gmap Z (list Z)) (last_blk_num : nat) : outcome GasPricer :=
  if negb (kBlocksGasPricer cfg) then Done g
  else
    let* l := init_prices db last_blk_num (price_list_ g) in
    let g := mkGasPricer (latest_price_ g) l in
    match l with [] => Done g | _ => choose_price g end.

(** [inclusion_price] is the answer of the transaction manager. *)
Definition bid (g : GasPricer) (inclusion_price : Z) : Z :=
  Z.max (if kBlocksGasPricer cfg then latest_price_ g else inclusion_price) (kMinimumPrice cfg).

(** ** The price list *)

(** The lowest prices of the blocks that have a positive one. *)
Definition minima (blocks : list (list Z)) : list Z :=
  omap (fun prices => match min_price prices with Some p => if p =? 0 then None else Some p | None => None end) blocks.

Lemma percentile_index n : (0 < n)%nat -> Z.of_nat n < 2 ^ 32 -> 0 <= kPercentile cfg <= 100 ->
  0 <= u64 (u64 (Z.of_nat n - 1) * kPercentile cfg) / 100 < Z.of_nat n.
Proof.
  intros Hn Hs Hp. rewrite (wrap_id 64 (Z.of_nat n - 1)) by (unfold in_range, modulus; lia).
  rewrite wrap_id by (unfold in_range, modulus; nia). split; [apply Z.div_pos; nia|apply Z.div_lt_upper_bound; nia].
Qed.

Lemma choose_effect g : (0 < length (price_list_ g))%nat -> Z.of_nat (length (price_list_ g)) < 2 ^ 32 -> 0 <= kPercentile cfg <= 100 ->
  Forall (fun p => p <> 0) (price_list_ g) ->
  exists p, percentile_price (price_list_ g) = Done p /\ choose_price g = Done (mkGasPricer p (price_list_ g)) /\ p ∈ price_list_ g.
Proof.
  intros Hn Hs Hp Hnz. unfold choose_price, percentile_price. pose proof (percentile_index _ Hn Hs Hp) as Hi.
  set (i := u64 _ / 100) in *. destruct (Z.leb_spec (Z.of_nat (length (price_list_ g))) i); [lia|]. destruct (lookup_lt_is_Some_2 (merge_sort Z.le (price_list_ g)) (Z.to_nat i)) as [p Ep].
  { rewrite merge_sort_Permutation. lia. }
  rewrite Ep. simpl. exists p. assert (p ∈ price_list_ g) as Hin by (rewrite <- (merge_sort_Permutation Z.le); by eapply list_elem_of_lookup_2).
  rewrite Forall_forall in Hnz. specialize (Hnz p Hin). by destruct (Z.eqb_spec p 0).
Qed.

Lemma minima_positive blocks : Forall (fun p => p <> 0) (minima blocks).
Proof.
  apply Forall_forall. intros p Hp. unfold minima in Hp. apply list_elem_of_omap in Hp as (prices & _ & Hp).
  destruct (min_price prices) as [q|]; [|done]. destruct (Z.eqb_spec q 0); [done|]. by injection Hp as <-.
Qed.

Lemma last_n_app {A} n (l1 l2 : list A) : n = length l2 -> last_n n (l1 ++ l2) = l2.
Proof. intros ->. unfold last_n. rewrite length_app. by rewrite drop_app_length' by lia. Qed.

Lemma last_n_all {A} n (l : list A) : (length l <= n)%nat -> last_n n l = l.
Proof. intros Hn. unfold last_n. by replace (length l - n)%nat with 0%nat by lia. Qed.

(** The database holds the prices of the blocks 1, 2, ... *)
Definition blocks_in_db (db : gmap Z (list Z)) (blocks : list (list Z)) : Prop :=
  forall i prices, blocks !! i = Some prices -> db !! Z.of_nat (S i) = Some prices.

Lemma init_prices_effect db blocks : blocks_in_db db blocks -> forall n l,
  (n <= length blocks)%nat -> (length l <= gp_capacity cfg)%nat ->
  init_prices db n l = Done (last_n (gp_capacity cfg) (minima (take n blocks) ++ l)).
Proof.
  intros Hdb. induction n as [|n IH]; intros l Hn Hl; simpl; [by rewrite last_n_all|].
  case_bool_decide as Hfull; [by rewrite last_n_app|].
  destruct (lookup_lt_is_Some_2 blocks n ltac:(lia)) as [prices Ep]. rewrite (take_S_r _ _ _ Ep).
  pose proof (Hdb n prices Ep) as Hl'. simpl in Hl'. rewrite Hl'. unfold minima at 1. rewrite omap_app. fold (minima (take n blocks)). simpl.
  destruct (min_price prices) as [p|]; [destruct (Z.eqb_spec p 0)|].
  - rewrite app_nil_r. apply IH; lia.
  - rewrite <- app_assoc. apply IH; simpl; lia.
  - rewrite app_nil_r. apply IH; lia.
Qed.

(** The state after the blocks, from the list of their lowest prices. *)
Definition priced (mins : list Z) (g : GasPricer) : Prop :=
  price_list_ g = last_n (gp_capacity cfg) mins /\
  if bool_decide (mins = []) then latest_price_ g = kMinimumPrice cfg else percentile_price (price_list_ g) = Done (latest_price_ g).

Lemma priced_unique mins g g' : priced mins g -> priced mins g' -> g = g'.
Proof.
  destruct g as [p l], g' as [p' l']. unfold priced. simpl. intros [-> H1] [-> H2]. case_bool_decide; congruence.
Qed.

Lemma choose_priced g mins : (0 < gp_capacity cfg)%nat -> Z.of_nat (gp_capacity cfg) < 2 ^ 32 -> 0 <= kPercentile cfg <= 100 ->
  mins <> [] -> Forall (fun p => p <> 0) mins -> price_list_ g = last_n (gp_capacity cfg) mins -> exists g', choose_price g = Done g' /\ priced mins g'.
Proof.
  intros Hc Hs Hp Hne Hnz Hl. assert (0 < length (price_list_ g) <= gp_capacity cfg)%nat as Hlen.
  { rewrite Hl. unfold last_n. rewrite length_drop. assert (length mins <> 0)%nat by (by destruct mins). lia. }
  destruct (choose_effect g) as (p & E1 & E2 & _); [lia|lia|done| |].
  { rewrite Hl. apply Forall_forall. intros x Hx%elem_of_last_n. rewrite Forall_forall in Hnz. by apply Hnz. }
  eexists. split; [done|]. split; [done|]. rewrite bool_decide_false by done. done.
Qed.

Lemma updates_effect blocks : kBlocksGasPricer cfg = true -> (0 < gp_capacity cfg)%nat -> Z.of_nat (gp_capacity cfg) < 2 ^ 32 -> 0 <= kPercentile cfg <= 100 ->
  forall g mins, Forall (fun p => p <> 0) mins -> priced mins g -> exists g', ofold update blocks g = Done g' /\ priced (mins ++ minima blocks) g'.
Proof.
  intros Hb Hc Hs Hp. induction blocks as [|prices blocks IH]; intros g mins Hnz Hg; simpl; [exists g; by rewrite app_nil_r|].
  unfold update at 1. rewrite Hb. simpl negb. cbv iota. unfold minima. simpl. fold (minima blocks). 
  destruct (min_price prices) as [p|]; [destruct (Z.eqb_spec p 0)|]; [by apply IH| |by apply IH].
  destruct (choose_priced (mkGasPricer (latest_price_ g) (circular_push_back (price_list_ g) p)) (mins ++ [p])) as (g1 & E1 & Hg1); try done.
  - by destruct mins.
  - apply Forall_app. by repeat constructor.
  - simpl. unfold circular_push_back. destruct Hg as [-> _]. apply last_n_snoc.
  - rewrite E1. simpl. destruct (IH g1 (mins ++ [p])) as (g' & E' & Hg'); [apply Forall_app; by repeat constructor|done|]. exists g'. split; [done|].
    by rewrite <- app_assoc in Hg'.
Qed.
End pricer.

(** A node that starts suggests the price it would suggest if it had run all
    along.  For a node with the blocks 1 to n in its database, [init] gives the same state as [update]
    after every block: the list of the lowest prices of the last blocks with
    positive prices, and the price at the percentile of this list.  Neither fails. *)
Theorem init_equals_updates cfg db blocks :
  kBlocksGasPricer cfg = true -> (0 < gp_capacity cfg)%nat -> Z.of_nat (gp_capacity cfg) < 2 ^ 32 -> 0 <= kPercentile cfg <= 100 ->
  blocks_in_db db blocks ->
  exists g0 g, newGasPricer cfg = Done g0 /\ ofold (update cfg) blocks g0 = Done g /\ init cfg g0 db (length blocks) = Done g /\
    price_list_ g = last_n (gp_capacity cfg) (minima blocks) /\
    (minima blocks <> [] -> percentile_price cfg (price_list_ g) = Done (latest_price_ g)).
Proof.
  intros Hb Hc Hs Hp Hdb. unfold newGasPricer, oassert. rewrite (proj2 (Z.leb_le _ _) (proj2 Hp)). simpl obind.
  set (g0 := mkGasPricer (kMinimumPrice cfg) []). assert (priced cfg [] g0) as Hg0 by done.
  destruct (updates_effect cfg blocks Hb Hc Hs Hp g0 [] ltac:(done) Hg0) as (g & E & Hg). simpl in Hg.
  assert (init cfg g0 db (length blocks) = Done g) as Ei.
  { unfold init. rewrite Hb. simpl negb. cbv iota. rewrite (init_prices_effect cfg db blocks Hdb) by (simpl; lia).
    rewrite firstn_all, app_nil_r. simpl obind. destruct (decide (minima blocks = [])) as [En|Hne].
    - rewrite En in *. unfold last_n. simpl. f_equal. apply (priced_unique cfg [] _ g); [|done]. done.
    - destruct (choose_priced cfg (mkGasPricer (latest_price_ g0) (last_n (gp_capacity cfg) (minima blocks))) (minima blocks)) as (g' & E' & Hg');
        try done; [apply minima_positive|].
      rewrite (priced_unique cfg _ _ _ Hg Hg'). destruct (last_n (gp_capacity cfg) (minima blocks)) as [|x l] eqn:El; [|exact E'].
      exfalso. apply (f_equal length) in El. unfold last_n in El. rewrite length_drop in El. simpl in El. assert (length (minima blocks) <> 0)%nat by (by destruct (minima blocks)). lia. }
  exists g0, g. destruct Hg as [G1 G2]. split_and!; try done. intros Hne. by rewrite bool_decide_false in G2.
Qed.

Definition ex_pricer : GasPricerConfig := mkGasPricerConfig 60 1 false true 3.

Lemma init_equals_updates_witness :
  exists g, init ex_pricer (mkGasPricer 1 []) {[ 1 := [5; 4]; 2 := []; 3 := [9]; 4 := [0; 7]; 5 := [6]; 6 := [8; 20] ]} 6 = Done g /\ latest_price_ g = 8.
Proof.
  destruct (init_equals_updates ex_pricer {[ 1 := [5; 4]; 2 := []; 3 := [9]; 4 := [0; 7]; 5 := [6]; 6 := [8; 20] ]} [[5; 4]; []; [9]; [0; 7]; [6]; [8; 20]])
    as (g0 & g & E0 & _ & Ei & Hl & Hp); [done|simpl; lia..| |].
  - intros i prices Hi. do 6 (destruct i as [|i]; [injection Hi as <-; vm_compute; reflexivity|]). by destruct i.
  - vm_compute in E0. injection E0 as <-. exists g. split; [exact Ei|]. vm_compute in Ei. injection Ei as <-. reflexivity.
Defined.

(** A configuration of no blocks gives a buffer without capacity; the first update then
    reads past the end of the sorted prices. *)
Example no_blocks_undefined : (let* g := newGasPricer (mkGasPricerConfig 60 1 false true 0) in update (mkGasPricerConfig 60 1 false true 0) g [5]) = Undefined.
Proof. vm_compute. reflexivity. Qed.
