(* ===== verification/Dag.v ===== *)
(** * The block DAG

    [Dag] and [PivotTree] (consensus/src/dag/dag.cpp): the graph of DAG blocks,
    reachability, the order of the blocks of a period, and the ghost path.

    The labelled graph is the map from a vertex label to the set of its
    successors; a vertex and its label are identified, which is right as long as
    no label is added twice ([DagManager] checks that).  Vertices and adjacent
    vertices are visited in the order [iter], which the graph library leaves
    open. *)

From S2P Require Import Prelude Votes.
Local Open Scope Z_scope.
Local Open Scope outcome_scope.

Abbreviation graph_t := (gmap blk_hash_t (gset blk_hash_t)).

Definition hasVertex (g : graph_t) (v : blk_hash_t) : bool := bool_decide (is_Some (g !! v)).

Definition getNumVertices (g : graph_t) : nat := size g.

Definition getNumEdges (g : graph_t) : nat := sum_list_with (fun e => size e.2) (map_to_list g).

(** [add_edge_by_label]: a second edge between two vertices is refused. *)
Definition add_edge (g : graph_t) (u v : blk_hash_t) : graph_t * bool :=
  match g !! u with
  | None => (g, false)
  | Some out => if decide (v ∈ out) then (g, false) else (<[u := {[v]} ∪ out]> g, true)
  end.

(** The loop over the tips; [res2] is the result of the last edge tried. *)
Fixpoint add_tips (g : graph_t) (new_vertex : blk_hash_t) (tips : list blk_hash_t) (res2 : bool) :
    graph_t * bool :=
  match tips with
  | [] => (g, res2)
  | e :: tips' =>
      if hasVertex g e then
        let (g, res2) := add_edge g e new_vertex in add_tips g new_vertex tips' res2
      else add_tips g new_vertex tips' res2
  end.

Definition addVEEs (g : graph_t) (new_vertex pivot : blk_hash_t) (tips : list blk_hash_t) :
    outcome (graph_t * bool) :=
  let* _ := oassert (negb (new_vertex =? 0)) in
  let g := match g !! new_vertex with Some _ => g | None => <[new_vertex := ∅]> g end in
  let (g, res) :=
    if negb (pivot =? 0) && hasVertex g pivot then add_edge g pivot new_vertex else (g, true) in
  let (g, res2) := add_tips g new_vertex tips true in
  Done (g, res && res2).

Definition newDag (dag_genesis_block_hash : blk_hash_t) : outcome graph_t :=
  let* (g, _) := addVEEs ∅ dag_genesis_block_hash 0 [] in Done g.

Definition clear (g : graph_t) : graph_t := ∅.

Section traversal.
Context (iter : gset blk_hash_t -> list blk_hash_t).

Definition adjacent_vertices (g : graph_t) (v : blk_hash_t) : list blk_hash_t := iter (default ∅ (g !! v)).

(** [collectLeafVertices] and [getLeaves]. *)
Definition collectLeafVertices (g : graph_t) : outcome (list blk_hash_t) :=
  let leaves := filter (fun v => g !! v = Some ∅) (iter (dom g)) in
  let* _ := oassert (bool_decide (leaves <> [])) in Done leaves.

Definition getLeaves (g : graph_t) (tips : list blk_hash_t) : outcome (list blk_hash_t) :=
  let* leaves := collectLeafVertices g in Done (tips ++ leaves).

(** ** Reachability *)

(** The inner loop of [reachable]; [None] when the target is adjacent. *)
Fixpoint scan_adjacent (adj : list blk_hash_t) (target : blk_hash_t) (st : list blk_hash_t)
    (visited : gset blk_hash_t) : option (list blk_hash_t * gset blk_hash_t) :=
  match adj with
  | [] => Some (st, visited)
  | s :: adj' =>
      if decide (s ∈ visited) then scan_adjacent adj' target st visited
      else if decide (s = target) then None
      else scan_adjacent adj' target (s :: st) ({[s]} ∪ visited)
  end.

Fixpoint reach_loop (fuel : nat) (g : graph_t) (target : blk_hash_t) (st : list blk_hash_t)
    (visited : gset blk_hash_t) : option bool :=
  match st with
  | [] => Some false
  | t :: st' =>
      match fuel with
      | O => None
      | S fuel =>
          match scan_adjacent (adjacent_vertices g t) target st' visited with
          | None => Some true
          | Some (st'', visited') => reach_loop fuel g target st'' visited'
          end
      end
  end.

(** At most one iteration per vertex. *)
Definition reachable (g : graph_t) (from to : blk_hash_t) : option bool :=
  if decide (from = to) then Some true else reach_loop (size g) g to [from] {[from]}.

(** ** The order of a period *)

(** [std::map] and [std::sort] order hashes by value. *)
Definition sorted_hashes (l : list blk_hash_t) : list blk_hash_t := merge_sort Z.le l.

(** Step 1: the blocks that can reach the anchor. *)
Fixpoint collect_epoch (g : graph_t) (target : blk_hash_t) (blks : list blk_hash_t)
    (epfriend : gset blk_hash_t) : outcome (gset blk_hash_t) :=
  match blks with
  | [] => Done epfriend
  | blk :: blks' =>
      if hasVertex g blk then
        match reachable g blk target with
        | Some true => collect_epoch g target blks' ({[blk]} ∪ epfriend)
        | Some false => collect_epoch g target blks' epfriend
        | None => Undefined
        end
      else Undefined
  end.

(** Step 2: the neighbours that are not visited yet, in the order in which they
    are found, and the new set of visited vertices. *)
Fixpoint new_neighbors (adj : list blk_hash_t) (epfriend visited : gset blk_hash_t) :
    list blk_hash_t * gset blk_hash_t :=
  match adj with
  | [] => ([], visited)
  | s :: adj' =>
      if decide (s ∉ epfriend) then new_neighbors adj' epfriend visited
      else if decide (s ∈ visited) then new_neighbors adj' epfriend visited
      else
        let (neighbors, visited') := new_neighbors adj' epfriend ({[s]} ∪ visited) in
        (s :: neighbors, visited')
  end.

Definition stack_t : Type := list (blk_hash_t * bool).

(** One iteration of the depth-first search on a non-empty stack; a pushed
    neighbour is on top of the ones pushed before it. *)
Definition dfs_step (g : graph_t) (epfriend : gset blk_hash_t) (cur : blk_hash_t * bool) (dfs : stack_t)
    (visited : gset blk_hash_t) (out : list blk_hash_t) : stack_t * gset blk_hash_t * list blk_hash_t :=
  if cur.2 then (dfs, visited, out ++ [cur.1])
  else
    let (neighbors, visited') := new_neighbors (adjacent_vertices g cur.1) epfriend visited in
    (foldl (fun st n => (n, false) :: st) ((cur.1, true) :: dfs) (sorted_hashes neighbors), visited', out).

Fixpoint dfs_loop (fuel : nat) (g : graph_t) (epfriend : gset blk_hash_t) (dfs : stack_t)
    (visited : gset blk_hash_t) (out : list blk_hash_t) : option (gset blk_hash_t * list blk_hash_t) :=
  match dfs with
  | [] => Some (visited, out)
  | cur :: dfs' =>
      match fuel with
      | O => None
      | S fuel =>
          let '(dfs'', visited', out') := dfs_step g epfriend cur dfs' visited out in
          dfs_loop fuel g epfriend dfs'' visited' out'
      end
  end.

(** The loop over the epoch; two iterations of the search per vertex are
    enough. *)
Fixpoint visit_all (g : graph_t) (epfriend : gset blk_hash_t) (vs : list blk_hash_t)
    (visited : gset blk_hash_t) (out : list blk_hash_t) : option (list blk_hash_t) :=
  match vs with
  | [] => Some out
  | v :: vs' =>
      if decide (v ∈ visited) then visit_all g epfriend vs' visited out
      else
        match dfs_loop (2 * size epfriend) g epfriend [(v, false)] ({[v]} ∪ visited) out with
        | None => None
        | Some (visited', out') => visit_all g epfriend vs' visited' out'
        end
  end.

Definition non_finalized_list (non_finalized_blks : gmap Z (gset blk_hash_t)) : list blk_hash_t :=
  map_items non_finalized_blks ≫= fun l => iter l.2.

(** [None] is the result [false]. *)
Definition computeOrder (g : graph_t) (anchor : blk_hash_t) (non_finalized_blks : gmap Z (gset blk_hash_t)) :
    outcome (option (list blk_hash_t)) :=
  if hasVertex g anchor then
    let* epfriend := collect_epoch g anchor (non_finalized_list non_finalized_blks) {[anchor]} in
    match visit_all g epfriend (sorted_hashes (elements epfriend)) ∅ [] with
    | Some out => Done (Some (reverse out))
    | None => Undefined
    end
  else Done None.

(** ** The ghost path *)

(** First step: the vertices below the root, before it is reversed. *)
Fixpoint pre_order (fuel : nat) (g : graph_t) (st out : list blk_hash_t) : option (list blk_hash_t) :=
  match st with
  | [] => Some out
  | cur :: st' =>
      match fuel with
      | O => None
      | S fuel =>
          pre_order fuel g (foldl (fun st s => s :: st) st' (adjacent_vertices g cur)) (out ++ [cur])
      end
  end.

(** Second step: [total_w] is an [int], the weights are [size_t]. *)
Definition vertex_weight (g : graph_t) (weight_map : gmap blk_hash_t Z) (n : blk_hash_t) : Z :=
  let total_w := foldl (fun w s =>
      match weight_map !! s with Some x => to_signed 32 (u64 w + x) | None => w end)
    0 (adjacent_vertices g n) in
  u64 (to_signed 32 (total_w + 1)).

Definition weights (g : graph_t) (post_order : list blk_hash_t) : gmap blk_hash_t Z :=
  foldl (fun m n => <[n := vertex_weight g m n]> m) ∅ post_order.

(** Third step: the heaviest successor, the smallest hash among equals; the
    assertion that weights are positive. *)
Definition choose_next (weight_map : gmap blk_hash_t Z) (acc : Z * blk_hash_t) (s : blk_hash_t) :
    outcome (Z * blk_hash_t) :=
  let '(heavist, next) := acc in
  match weight_map !! s with
  | None => Done acc
  | Some w =>
      let* _ := oassert (0 <? w) in
      if heavist <? w then Done (w, s)
      else if w =? heavist then Done (heavist, if s <? next then s else next)
      else Done acc
  end.

Fixpoint collect_path (fuel : nat) (g : graph_t) (weight_map : gmap blk_hash_t Z) (root : blk_hash_t)
    (pivot_chain : list blk_hash_t) : outcome (list blk_hash_t) :=
  let pivot_chain := pivot_chain ++ [root] in
  let* (heavist, next) := ofold (choose_next weight_map) (adjacent_vertices g root) (0, root) in
  if heavist =? 0 then Done pivot_chain
  else
    match fuel with
    | O => Undefined
    | S fuel => collect_path fuel g weight_map next pivot_chain
    end.

(** Both loops make at most one iteration per vertex of a tree. *)
Definition getGhostPath (g : graph_t) (vertex : blk_hash_t) : outcome (list blk_hash_t) :=
  if hasVertex g vertex then
    match pre_order (size g) g [vertex] [] with
    | None => Undefined
    | Some out => collect_path (size g) g (weights g (reverse out)) vertex []
    end
  else Done [].
End traversal.
