(* ===== verification/DagOrder.v ===== *)
(** * Reachability and the order of a period

    [Dag::reachable] decides reachability; [Dag::computeOrder] is independent of
    the iteration orders of the containers, lists exactly the blocks of the
    period, and is a topological order when no edge of the graph is implied by a
    longer path. *)

From S2P Require Import Prelude Votes Dag.
From stdpp Require Import relations.
Local Open Scope Z_scope.
Local Open Scope outcome_scope.

Definition edge (g : graph_t) (u v : blk_hash_t) : Prop := exists out, g !! u = Some out /\ v ∈ out.

(** Edges lead to vertices. *)
Definition graph_wf (g : graph_t) : Prop := forall u v, edge g u v -> is_Some (g !! v).

(** The order in which a container is walked. *)
Definition iteration (iter : gset blk_hash_t -> list blk_hash_t) : Prop := forall X, iter X ≡ₚ elements X.

Lemma elem_of_iter iter X v : iteration iter -> v ∈ iter X <-> v ∈ X.
Proof. intros Hi. by rewrite (Hi X), elem_of_elements. Qed.

Lemma NoDup_iter iter X : iteration iter -> NoDup (iter X).
Proof. intros Hi. rewrite (Hi X). apply NoDup_elements. Qed.

Lemma elem_of_adjacent iter g u v : iteration iter -> v ∈ adjacent_vertices iter g u <-> edge g u v.
Proof.
  intros Hi. unfold adjacent_vertices, edge. rewrite elem_of_iter by done.
  destruct (g !! u) as [out|]; simpl; [naive_solver|set_solver].
Qed.

(** ** Reachability *)

Lemma scan_adjacent_spec adj target st visited :
  target ∉ visited ->
  match scan_adjacent adj target st visited with
  | None => target ∈ adj
  | Some (st', visited') => exists new, st' = new ++ st /\
      visited' = list_to_set new ∪ visited /\ (forall v, v ∈ adj -> v ∈ visited') /\
      (forall v, v ∈ new -> v ∈ adj) /\ (target ∉ visited') /\
      (size visited' = length new + size visited)%nat
  end.
Proof.
  revert st visited. induction adj as [|s adj IH]; intros st visited Ht; simpl.
  - exists []. split_and!; [done|set_solver|set_solver|done|done|done].
  - case_decide as Hs; [|case_decide as He; [set_solver|]].
    + specialize (IH st visited Ht). case_match; [|set_solver]. destruct p as [st' visited'].
      destruct IH as (new & H1 & H2 & H3 & H4 & H5 & H6). exists new. split_and!; try done; set_solver.
    + specialize (IH (s :: st) ({[s]} ∪ visited) ltac:(set_solver)). case_match; [|set_solver].
      destruct p as [st' visited']. destruct IH as (new & H1 & H2 & H3 & H4 & H5 & H6).
      exists (new ++ [s]). rewrite list_to_set_app_L. split_and!; [by rewrite <- app_assoc|set_solver|set_solver|set_solver|done|].
      rewrite H6, length_app. rewrite size_union by set_solver. rewrite size_singleton. simpl. lia.
Qed.

Section reachable.
Context (iter : gset blk_hash_t -> list blk_hash_t) (Hiter : iteration iter).
Context (g : graph_t) (Hwf : graph_wf g).

(** The state of the search from [from]: the visited vertices are reachable, and
    all successors of the ones that left the stack are visited. *)
Record reach_inv (from target : blk_hash_t) (st : list blk_hash_t) (visited : gset blk_hash_t) : Prop := {
  r_from : from ∈ visited;
  r_target : target ∉ visited;
  r_stack : forall v, v ∈ st -> v ∈ visited;
  r_reach : forall v, v ∈ visited -> rtc (edge g) from v;
  r_dom : visited ⊆ dom g;
  r_closed : forall u v, u ∈ visited -> u ∉ st -> edge g u v -> v ∈ visited;
}.

Lemma closed_reach (X : gset blk_hash_t) u v :
  u ∈ X -> rtc (edge g) u v -> (forall u v, u ∈ X -> edge g u v -> v ∈ X) -> v ∈ X.
Proof using Type. intros Hu Hr Hc. induction Hr as [x|x y z Hxy Hr IHr]; [done|]. eauto. Qed.

Lemma reach_loop_spec fuel from target st visited :
  reach_inv from target st visited ->
  (size g + length st <= fuel + size visited)%nat ->
  exists b, reach_loop iter fuel g target st visited = Some b /\ (b = true <-> rtc (edge g) from target).
Proof using Hiter Hwf.
  revert st visited. induction fuel as [|fuel IH]; intros st visited [H1 H2 H3 H4 H5 H6] Hf.
  - destruct st as [|t st]; simpl.
    + exists false. split; [done|]. split; [done|]. intros Hr. exfalso. apply H2.
      apply (closed_reach _ _ _ H1 Hr). intros u v Hu. apply H6; [done|set_solver].
    + assert (size visited <= size g)%nat by (rewrite <- (size_dom g); by apply subseteq_size).
      simpl in Hf. lia.
  - destruct st as [|t st]; simpl.
    + exists false. split; [done|]. split; [done|]. intros Hr. exfalso. apply H2.
      apply (closed_reach _ _ _ H1 Hr). intros u v Hu. apply H6; [done|set_solver].
    + pose proof (scan_adjacent_spec (adjacent_vertices iter g t) target st visited H2) as Hscan.
      assert (t ∈ visited) as Ht by (apply H3; set_solver).
      destruct (scan_adjacent _ _ _ _) as [[st' visited']|].
      * destruct Hscan as (new & -> & Hv & Hadj & Hnew & Hnt & Hsz). apply IH.
        -- split; [set_solver|done|set_solver| | |].
           ++ intros v. rewrite Hv, elem_of_union, elem_of_list_to_set. intros [Hin|Hin]; [|by apply H4].
              apply Hnew, elem_of_adjacent in Hin; [|done]. eapply rtc_r; [by apply H4|done].
           ++ intros v. rewrite Hv, elem_of_union, elem_of_list_to_set. intros [Hin|Hin]; [|by apply H5].
              apply Hnew, elem_of_adjacent in Hin; [|done]. apply elem_of_dom. by apply (Hwf t).
           ++ intros u v Hu Hnu Huv. destruct (decide (u = t)) as [->|Hne].
              ** apply Hadj. by apply elem_of_adjacent.
              ** assert (u ∈ visited) by set_solver. assert (v ∈ visited); [|set_solver].
                 apply (H6 u); [done|set_solver|done].
        -- rewrite length_app. simpl in Hf. lia.
      * exists true. split; [done|]. split; [|done]. intros _.
        apply elem_of_adjacent in Hscan; [|done]. eapply rtc_r; [by apply H4|done].
Qed.

Lemma reachable_effect from to :
  is_Some (g !! from) ->
  exists b, reachable iter g from to = Some b /\ (b = true <-> rtc (edge g) from to).
Proof using Hiter Hwf.
  intros Hfrom. unfold reachable. case_decide as E; [subst; by exists true|].
  apply reach_loop_spec.
  - split; [set_solver|set_solver|set_solver| | |set_solver].
    + intros v ->%elem_of_singleton. apply rtc_refl.
    + intros v ->%elem_of_singleton. by apply elem_of_dom.
  - rewrite size_singleton. simpl. lia.
Qed.
End reachable.

(** The search of [Dag::reachable] terminates within one iteration per
    vertex and decides whether a path leads from one vertex to the other. *)
Theorem reachable_correct iter g from to :
  iteration iter -> graph_wf g -> is_Some (g !! from) ->
  exists b, reachable iter g from to = Some b /\ (b = true <-> rtc (edge g) from to).
Proof. intros. by apply reachable_effect. Qed.

(** ** The blocks of the period *)

Definition in_epoch (g : graph_t) (anchor : blk_hash_t) (blks : list blk_hash_t) (v : blk_hash_t) : Prop :=
  v = anchor \/ (v ∈ blks /\ rtc (edge g) v anchor).

Lemma collect_epoch_spec iter g anchor blks ep :
  iteration iter -> graph_wf g -> (forall v, v ∈ blks -> is_Some (g !! v)) ->
  exists ep', collect_epoch iter g anchor blks ep = Done ep' /\
    forall v, v ∈ ep' <-> v ∈ ep \/ (v ∈ blks /\ rtc (edge g) v anchor).
Proof.
  intros Hi Hwf. revert ep. induction blks as [|b blks IH]; intros ep Hin; simpl.
  - exists ep. set_solver.
  - unfold hasVertex. rewrite bool_decide_true by (apply Hin; set_solver).
    destruct (reachable_effect iter Hi g Hwf b anchor) as (r & -> & Hr); [apply Hin; set_solver|].
    destruct r.
    + destruct (IH ({[b]} ∪ ep)) as (ep' & -> & Hep); [set_solver|]. exists ep'. split; [done|].
      intros v. rewrite Hep, elem_of_cons, elem_of_union, elem_of_singleton. naive_solver.
    + destruct (IH ep) as (ep' & -> & Hep); [set_solver|]. exists ep'. split; [done|].
      intros v. rewrite Hep, elem_of_cons. naive_solver.
Qed.

(** ** The neighbours of a vertex *)

Lemma new_neighbors_spec adj ep visited :
  NoDup adj ->
  new_neighbors adj ep visited =
    (filter (fun s => s ∈ ep /\ s ∉ visited) adj,
     list_to_set (filter (fun s => s ∈ ep /\ s ∉ visited) adj) ∪ visited).
Proof.
  revert visited. induction adj as [|s adj IH]; intros visited Hnd; simpl.
  - f_equal. set_solver.
  - apply NoDup_cons in Hnd as [Hs Hnd]. case_decide as He.
    + rewrite filter_cons_False by tauto. by apply IH.
    + case_decide as Hv.
      * rewrite filter_cons_False by tauto. by apply IH.
      * rewrite filter_cons_True by done. rewrite IH by done.
        assert (filter (fun x => x ∈ ep /\ x ∉ {[s]} ∪ visited) adj =
          filter (fun x => x ∈ ep /\ x ∉ visited) adj) as ->.
        { apply list_filter_iff'. intros x Hx. assert (x <> s) by (intros ->; done). set_solver. }
        simpl. f_equal. set_solver.
Qed.

(** The list that one expansion pushes, topmost first. *)
Definition pushed (iter : gset blk_hash_t -> list blk_hash_t) (g : graph_t) (ep visited : gset blk_hash_t)
    (u : blk_hash_t) : list blk_hash_t :=
  reverse (sorted_hashes (filter (fun s => s ∈ ep /\ s ∉ visited) (adjacent_vertices iter g u))).

Lemma foldl_push (l : list blk_hash_t) (st : stack_t) :
  foldl (fun st n => (n, false) :: st) st l = ((fun n => (n, false)) <$> reverse l) ++ st.
Proof.
  revert st. induction l as [|x l IH]; intros st; simpl; [done|].
  rewrite IH, reverse_cons, fmap_app. by rewrite <- app_assoc.
Qed.

Section dfs.
Context (iter : gset blk_hash_t -> list blk_hash_t) (Hiter : iteration iter).
Context (g : graph_t) (ep : gset blk_hash_t).

Lemma dfs_step_shape u dfs visited out :
  dfs_step iter g ep (u, false) dfs visited out =
    (((fun n => (n, false)) <$> pushed iter g ep visited u) ++ (u, true) :: dfs,
     list_to_set (pushed iter g ep visited u) ∪ visited, out).
Proof using Hiter.
  unfold dfs_step. simpl. rewrite new_neighbors_spec by by apply NoDup_iter.
  rewrite foldl_push. unfold pushed. f_equal. f_equal. f_equal.
  apply set_eq. intros v. rewrite !elem_of_list_to_set, elem_of_reverse. unfold sorted_hashes.
  by rewrite merge_sort_Permutation.
Qed.

Lemma elem_of_pushed visited u w :
  w ∈ pushed iter g ep visited u <-> edge g u w /\ w ∈ ep /\ w ∉ visited.
Proof using Hiter.
  unfold pushed, sorted_hashes. rewrite elem_of_reverse, merge_sort_Permutation, list_elem_of_filter.
  rewrite elem_of_adjacent by done. tauto.
Qed.

Lemma NoDup_pushed visited u : NoDup (pushed iter g ep visited u).
Proof using Hiter.
  unfold pushed, sorted_hashes. rewrite reverse_Permutation, merge_sort_Permutation.
  apply NoDup_filter. by apply NoDup_iter.
Qed.

(** *** Bookkeeping: every visited vertex is on the stack or in the output, once *)

Record dfs_books (dfs : stack_t) (visited : gset blk_hash_t) (out : list blk_hash_t) : Prop := {
  d_nodup : NoDup (dfs.*1 ++ out);
  d_visited : forall v, v ∈ visited <-> v ∈ dfs.*1 ++ out;
  d_epoch : visited ⊆ ep;
}.

Lemma books_expand u dfs visited out :
  dfs_books ((u, false) :: dfs) visited out ->
  dfs_books (((fun n => (n, false)) <$> pushed iter g ep visited u) ++ (u, true) :: dfs)
    (list_to_set (pushed iter g ep visited u) ∪ visited) out.
Proof using Hiter.
  intros [Hnd Hv He]. simpl in *.
  assert ((((fun n => (n, false)) <$> pushed iter g ep visited u) ++ (u, true) :: dfs).*1 ++ out =
    pushed iter g ep visited u ++ u :: dfs.*1 ++ out) as Heq.
  { rewrite fmap_app, <- list_fmap_compose. simpl. rewrite list_fmap_id. by rewrite <- app_assoc. }
  split.
  - rewrite Heq. apply NoDup_app. split_and!; [apply NoDup_pushed| |done].
    intros w (_ & _ & Hw)%elem_of_pushed Hin. by apply Hw, Hv.
  - intros v. rewrite Heq, elem_of_union, elem_of_list_to_set, elem_of_app, Hv. done.
  - intros v. rewrite elem_of_union, elem_of_list_to_set, elem_of_pushed. set_solver.
Qed.

Lemma books_emit u dfs visited out :
  dfs_books ((u, true) :: dfs) visited out -> dfs_books dfs visited (out ++ [u]).
Proof.
  intros [Hnd Hv He]. simpl in *.
  assert (dfs.*1 ++ out ++ [u] ≡ₚ u :: dfs.*1 ++ out) as Hp.
  { rewrite app_assoc. symmetry. apply Permutation_cons_append. }
  split; [by rewrite Hp| |done]. intros v. by rewrite Hp, Hv.
Qed.

(** The number of iterations that are left. *)
Definition cost (e : blk_hash_t * bool) : nat := if e.2 then 1 else 2.

Lemma cost_false (l : list blk_hash_t) : sum_list_with cost ((fun n => (n, false)) <$> l) = (2 * length l)%nat.
Proof.
  induction l as [|x l IH]; [done|].
  change (2 + sum_list_with cost ((fun n => (n, false)) <$> l) = 2 * length (x :: l))%nat.
  rewrite IH. simpl. lia.
Qed.

Definition work (dfs : stack_t) (visited : gset blk_hash_t) : nat :=
  (2 * (size ep - size visited) + sum_list_with cost dfs)%nat.

Lemma work_expand u dfs visited out :
  dfs_books ((u, false) :: dfs) visited out ->
  S (work (((fun n => (n, false)) <$> pushed iter g ep visited u) ++ (u, true) :: dfs)
       (list_to_set (pushed iter g ep visited u) ∪ visited)) = work ((u, false) :: dfs) visited.
Proof using Hiter.
  intros Hb. pose proof (books_expand _ _ _ _ Hb) as [_ _ He']. unfold work.
  apply subseteq_size in He'. rewrite size_union in * |- *.
  2,3: intros w; rewrite elem_of_list_to_set, elem_of_pushed; tauto.
  rewrite size_list_to_set in * by apply NoDup_pushed.
  rewrite sum_list_with_app. simpl.
  rewrite cost_false. change (cost (u, true)) with 1%nat. change (cost (u, false)) with 2%nat. lia.
Qed.

(** A predicate that both kinds of iterations preserve holds in the end, and the
    loop ends within [work] iterations. *)
Lemma dfs_loop_rule (I : stack_t -> gset blk_hash_t -> list blk_hash_t -> Prop) fuel dfs visited out :
  (forall u dfs visited out, dfs_books ((u, false) :: dfs) visited out -> I ((u, false) :: dfs) visited out ->
     I (((fun n => (n, false)) <$> pushed iter g ep visited u) ++ (u, true) :: dfs)
       (list_to_set (pushed iter g ep visited u) ∪ visited) out) ->
  (forall u dfs visited out, dfs_books ((u, true) :: dfs) visited out -> I ((u, true) :: dfs) visited out ->
     I dfs visited (out ++ [u])) ->
  dfs_books dfs visited out -> I dfs visited out -> (work dfs visited <= fuel)%nat ->
  exists visited' out', dfs_loop iter fuel g ep dfs visited out = Some (visited', out') /\
    dfs_books [] visited' out' /\ I [] visited' out' /\ visited ⊆ visited'.
Proof using Hiter.
  intros Hexp Hemit. revert dfs visited out.
  induction fuel as [|fuel IH]; intros dfs visited out Hb HI Hw.
  - destruct dfs as [|[u []] dfs]; simpl; [by exists visited, out| |]; unfold work, cost in Hw; simpl in Hw; lia.
  - destruct dfs as [|[u b] dfs]; [by exists visited, out|]. cbn [dfs_loop]. destruct b.
    + unfold dfs_step. simpl. apply IH; [by apply books_emit|by apply Hemit|].
      unfold work in *. simpl in Hw. change (cost (u, true)) with 1%nat in Hw. lia.
    + rewrite dfs_step_shape.
      destruct (IH (((fun n => (n, false)) <$> pushed iter g ep visited u) ++ (u, true) :: dfs)
        (list_to_set (pushed iter g ep visited u) ∪ visited) out) as (v' & o' & -> & H1 & H2 & H3).
      * by apply books_expand.
      * by apply Hexp.
      * pose proof (work_expand _ _ _ _ Hb). lia.
      * exists v', o'. split_and!; [done|done|done|set_solver].
Qed.

(** The same for the loop over the epoch. *)
Lemma visit_all_rule (I : stack_t -> gset blk_hash_t -> list blk_hash_t -> Prop) vs visited out :
  (forall u dfs visited out, dfs_books ((u, false) :: dfs) visited out -> I ((u, false) :: dfs) visited out ->
     I (((fun n => (n, false)) <$> pushed iter g ep visited u) ++ (u, true) :: dfs)
       (list_to_set (pushed iter g ep visited u) ∪ visited) out) ->
  (forall u dfs visited out, dfs_books ((u, true) :: dfs) visited out -> I ((u, true) :: dfs) visited out ->
     I dfs visited (out ++ [u])) ->
  (forall v visited out, I [] visited out -> I [(v, false)] ({[v]} ∪ visited) out) ->
  (forall v, v ∈ vs -> v ∈ ep) -> dfs_books [] visited out -> I [] visited out ->
  exists visited' out', visit_all iter g ep vs visited out = Some out' /\
    dfs_books [] visited' out' /\ I [] visited' out' /\ visited ⊆ visited' /\ (forall v, v ∈ vs -> v ∈ visited').
Proof using Hiter.
  intros Hexp Hemit Hroot. revert visited out. induction vs as [|v vs IH]; intros visited out Hep Hb HI; simpl.
  - exists visited, out. split_and!; try done. set_solver.
  - case_decide as Hv.
    + destruct (IH visited out) as (v' & o' & -> & H1 & H2 & H3 & H4); [set_solver|done|done|].
      exists v', o'. split_and!; try done. set_solver.
    + assert (dfs_books [(v, false)] ({[v]} ∪ visited) out) as Hb'.
      { destruct Hb as [Hnd Hvis He]. simpl in *. split; simpl.
        - constructor; [|done]. by rewrite <- Hvis.
        - intros x. rewrite elem_of_union, elem_of_singleton, Hvis, elem_of_cons. done.
        - assert (v ∈ ep) by (apply Hep; set_solver). set_solver. }
      destruct (dfs_loop_rule I (2 * size ep) [(v, false)] ({[v]} ∪ visited) out) as
        (v1 & o1 & E & Hb1 & HI1 & Hsub); [done|done|done|by apply Hroot| |].
      { destruct Hb' as [_ _ He']. apply subseteq_size in He'.
        assert (size ({[v]} ∪ visited) <> 0%nat).
        { rewrite size_union by set_solver. rewrite size_singleton. lia. }
        unfold work. simpl. change (cost (v, false)) with 2%nat. lia. }
      simpl in E. rewrite E.
      destruct (IH v1 o1) as (v' & o' & -> & H1 & H2 & H3 & H4); [set_solver|done|done|].
      exists v', o'. split_and!; try done; set_solver.
Qed.

(** *** Topological order *)

(** No cycles, and no edge beside a longer path. *)
Definition acyclic : Prop := forall u, ~ tc (edge g) u u.
Definition reduced : Prop := forall p u w, edge g p w -> tc (edge g) p u -> ~ edge g u w.

Record topo_inv (dfs : stack_t) (visited : gset blk_hash_t) (out : list blk_hash_t) : Prop := {
  t_above : forall l1 p l2, dfs = l1 ++ (p, true) :: l2 -> forall x, x ∈ l1.*1 -> tc (edge g) p x;
  t_parent : forall l1 w l2, dfs = l1 ++ (w, false) :: l2 ->
    (l1 = [] /\ l2 = []) \/ exists m p l3, l2 = m ++ (p, true) :: l3 /\ edge g p w;
  t_children : forall l1 u l2, dfs = l1 ++ (u, true) :: l2 ->
    forall w, w ∈ ep -> edge g u w -> w ∈ out \/ w ∈ l1.*1;
  t_out : forall o1 u o2, out = o1 ++ u :: o2 -> forall w, w ∈ ep -> edge g u w -> w ∈ o1;
}.

(** Where an entry of the stack after an expansion comes from. *)
Lemma split_stack (F : list blk_hash_t) (e0 e : blk_hash_t * bool) dfs l1 l2 :
  ((fun n => (n, false)) <$> F) ++ e0 :: dfs = l1 ++ e :: l2 ->
  (exists F1 F2, F = F1 ++ e.1 :: F2 /\ e.2 = false /\ l1 = ((fun n => (n, false)) <$> F1) /\
     l2 = ((fun n => (n, false)) <$> F2) ++ e0 :: dfs) \/
  (e = e0 /\ l1 = ((fun n => (n, false)) <$> F) /\ l2 = dfs) \/
  (exists l1', l1 = ((fun n => (n, false)) <$> F) ++ e0 :: l1' /\ dfs = l1' ++ e :: l2).
Proof.
  revert l1. induction F as [|x F IH]; intros l1 Heq; simpl in *.
  - destruct l1 as [|y l1]; simplify_eq/=; [right; left; done|]. right. right. by exists l1.
  - destruct l1 as [|y l1]; injection Heq as <- Heq.
    + left. by exists [], F.
    + destruct (IH l1 Heq) as [(F1 & F2 & -> & He & -> & ->)|[(-> & -> & ->)|(l1' & -> & ->)]].
      * left. by exists (x :: F1), F2.
      * right. by left.
      * right. right. by exists l1'.
Qed.

Lemma keys_false (F : list blk_hash_t) : ((fun n => (n, false)) <$> F).*1 = F.
Proof. rewrite <- list_fmap_compose. apply list_fmap_id. Qed.

Lemma topo_expand u dfs visited out :
  acyclic -> reduced -> dfs_books ((u, false) :: dfs) visited out -> topo_inv ((u, false) :: dfs) visited out ->
  topo_inv (((fun n => (n, false)) <$> pushed iter g ep visited u) ++ (u, true) :: dfs)
    (list_to_set (pushed iter g ep visited u) ∪ visited) out.
Proof using Hiter.
  intros Hac Hred Hb [T1 T2 T3 T4]. split; [| | |done].
  - intros l1 p l2 Heq x Hx.
    apply split_stack in Heq as [(F1 & F2 & _ & He & _)|[([= ->] & -> & ->)|(l1' & -> & ->)]]; [done| |].
    + rewrite keys_false in Hx. apply elem_of_pushed in Hx as [He _]. by apply tc_once.
    + pose proof (T1 ((u, false) :: l1') p l2 eq_refl) as Hp. rewrite fmap_app, keys_false, elem_of_app in Hx.
      destruct Hx as [Hx|Hx]; [|by apply Hp].
      apply elem_of_pushed in Hx as [He _]. eapply tc_r; [|done]. apply Hp. set_solver.
  - intros l1 w l2 Heq. right.
    apply split_stack in Heq as [(F1 & F2 & HF & _ & -> & ->)|[(? & _ & _)|(l1' & -> & ->)]]; [|done|].
    + eexists _, u, dfs. split; [done|].
      assert (w ∈ pushed iter g ep visited u) as [He _]%elem_of_pushed by (rewrite HF; set_solver). done.
    + destruct (T2 ((u, false) :: l1') w l2 eq_refl) as [[? _]|]; [done|done].
  - intros l1 p l2 Heq w Hw Hpw.
    apply split_stack in Heq as [(F1 & F2 & _ & He & _)|[([= ->] & -> & ->)|(l1' & -> & ->)]]; [done| |].
    + rewrite keys_false, elem_of_pushed. destruct (decide (w ∈ visited)) as [Hv|Hv]; [|by right].
      left. apply (d_visited _ _ _ Hb) in Hv. simpl in Hv.
      apply elem_of_cons in Hv as [->|Hv]; [by destruct (Hac u); apply tc_once|].
      apply elem_of_app in Hv as [Hv|]; [|done]. exfalso.
      apply list_elem_of_fmap in Hv as ([w' f] & -> & Hin). apply list_elem_of_split in Hin as (a & b & ->). simpl in Hpw.
      destruct f.
      * apply (Hac w'). eapply tc_r; [|done]. apply (T1 ((u, false) :: a) w' b eq_refl). set_solver.
      * destruct (T2 ((u, false) :: a) w' b eq_refl) as [[? _]|(m & q & l3 & -> & Hq)]; [done|].
        apply (Hred q u w' Hq); [|done].
        apply (T1 ((u, false) :: a ++ (w', false) :: m) q l3); [by simpl; rewrite <- app_assoc|set_solver].
    + destruct (T3 ((u, false) :: l1') p l2 eq_refl w Hw Hpw) as [?|Hin]; [by left|right].
      rewrite fmap_app. apply elem_of_app. right. done.
Qed.

Lemma topo_emit u dfs visited out :
  dfs_books ((u, true) :: dfs) visited out -> topo_inv ((u, true) :: dfs) visited out ->
  topo_inv dfs visited (out ++ [u]).
Proof.
  clear Hiter iter. intros _ [T1 T2 T3 T4]. split.
  - intros l1 p l2 -> x Hx. apply (T1 ((u, true) :: l1) p l2 eq_refl). set_solver.
  - intros l1 w l2 ->. right. destruct (T2 ((u, true) :: l1) w l2 eq_refl) as [[? _]|]; done.
  - intros l1 p l2 -> w Hw Hpw. destruct (T3 ((u, true) :: l1) p l2 eq_refl w Hw Hpw) as [?|Hin]; set_solver.
  - intros o1 x o2 Heq w Hw Hxw. destruct o2 as [|y o2 _] using rev_ind.
    + apply app_inj_tail in Heq as [<- <-]. destruct (T3 [] u dfs eq_refl w Hw Hxw) as [?|Hin]; [done|set_solver].
    + rewrite app_comm_cons, app_assoc in Heq. apply app_inj_tail in Heq as [Heq _].
      by apply (T4 o1 x o2 Heq).
Qed.

Lemma topo_root v visited out : topo_inv [] visited out -> topo_inv [(v, false)] ({[v]} ∪ visited) out.
Proof.
  intros [_ _ _ T4]. split; [| | |done].
  - intros l1 p l2 Heq. destruct l1 as [|? [|]]; simplify_eq/=.
  - intros l1 w l2 Heq. left. destruct l1 as [|? [|]]; simplify_eq/=. done.
  - intros l1 p l2 Heq. destruct l1 as [|? [|]]; simplify_eq/=.
Qed.
End dfs.

(** ** The whole function *)

Definition non_finalized (nf : gmap Z (gset blk_hash_t)) (v : blk_hash_t) : Prop :=
  exists level blks, nf !! level = Some blks /\ v ∈ blks.

Lemma elem_of_non_finalized iter nf v :
  iteration iter -> v ∈ non_finalized_list iter nf <-> non_finalized nf v.
Proof.
  intros Hi. unfold non_finalized_list, non_finalized. rewrite list_elem_of_bind. split.
  - intros ([level blks] & Hv & Hin%elem_of_map_items). exists level, blks.
    by rewrite elem_of_iter in Hv.
  - intros (level & blks & Hl & Hv). exists (level, blks). rewrite elem_of_map_items. split; [|done].
    by apply elem_of_iter.
Qed.

(** Every block of the period once; under the two conditions on the graph,
    topologically ordered. *)
Lemma computeOrder_effect iter g anchor nf :
  iteration iter -> graph_wf g -> is_Some (g !! anchor) ->
  (forall v, non_finalized nf v -> is_Some (g !! v)) ->
  exists order, computeOrder iter g anchor nf = Done (Some order) /\ NoDup order /\
    (forall v, v ∈ order <-> v = anchor \/ (non_finalized nf v /\ rtc (edge g) v anchor)) /\
    (acyclic g -> reduced g -> forall o1 v o2, order = o1 ++ v :: o2 ->
       forall w, w ∈ order -> edge g v w -> w ∈ o2).
Proof.
  intros Hi Hwf Ha Hnf. unfold computeOrder, hasVertex. rewrite bool_decide_true by done.
  destruct (collect_epoch_spec iter g anchor (non_finalized_list iter nf) {[anchor]}) as (ep & -> & Hep);
    [done|done|intros v Hv; apply Hnf; by apply (elem_of_non_finalized iter)|]. simpl.
  assert (forall v, v ∈ sorted_hashes (elements ep) -> v ∈ ep) as Hvs.
  { intros v. unfold sorted_hashes. by rewrite merge_sort_Permutation, elem_of_elements. }
  assert (dfs_books ep [] ∅ []) as Hb by (split; [constructor|set_solver|set_solver]).
  destruct (visit_all_rule iter Hi g ep (fun dfs visited out => acyclic g -> reduced g -> topo_inv g ep dfs visited out)
    (sorted_hashes (elements ep)) ∅ []) as (visited & out & -> & [Hnd Hv He] & Ht & _ & Hall); try done.
  - intros u dfs visited out Hbk HI Hac Hred. by apply topo_expand; [..|apply HI].
  - intros u dfs visited out Hbk HI Hac Hred. by apply topo_emit; [|apply HI].
  - intros v visited out HI Hac Hred. by apply topo_root, HI.
  - intros _ _. split; try (intros l1 ? l2 Heq; by destruct l1).
  - exists (reverse out). split; [done|].
    assert (forall v, v ∈ out <-> v ∈ ep) as Hout.
    { intros v. simpl in Hv. rewrite <- Hv. split; [apply He|]. intros Hin. apply Hall.
      unfold sorted_hashes. by rewrite merge_sort_Permutation, elem_of_elements. }
    split_and!.
    + rewrite reverse_Permutation. done.
    + intros v. rewrite elem_of_reverse, Hout, Hep, elem_of_singleton.
      by rewrite (elem_of_non_finalized iter nf v Hi).
    + intros Hac Hred o1 v o2 Heq w Hw Hvw. rewrite elem_of_reverse, Hout in Hw.
      assert (out = reverse o2 ++ v :: reverse o1) as Hsplit.
      { rewrite <- (reverse_involutive out), Heq, reverse_app, reverse_cons, <- app_assoc. done. }
      pose proof (t_out _ _ _ _ _ (Ht Hac Hred) _ _ _ Hsplit w Hw Hvw) as Hin.
      by rewrite elem_of_reverse in Hin.
Qed.

(** For an anchor in the graph the order of its period exists and lists
    exactly the anchor and the non-finalized blocks from which the anchor can be
    reached, each once; the depth-first search terminates within two iterations
    per block. *)
Theorem computeOrder_complete iter g anchor nf :
  iteration iter -> graph_wf g -> is_Some (g !! anchor) ->
  (forall v, non_finalized nf v -> is_Some (g !! v)) ->
  exists order, computeOrder iter g anchor nf = Done (Some order) /\ NoDup order /\
    forall v, v ∈ order <-> v = anchor \/ (non_finalized nf v /\ rtc (edge g) v anchor).
Proof.
  intros Hi Hwf Ha Hnf. destruct (computeOrder_effect iter g anchor nf Hi Hwf Ha Hnf) as (o & ? & ? & ? & _).
  by exists o.
Qed.

(** If the graph has no cycle and no edge beside a longer path between the
    same vertices, the order of a period is topological: a block comes before
    all blocks of the period that point to it. *)
Theorem computeOrder_topological iter g anchor nf order :
  iteration iter -> graph_wf g -> is_Some (g !! anchor) ->
  (forall v, non_finalized nf v -> is_Some (g !! v)) -> acyclic g -> reduced g ->
  computeOrder iter g anchor nf = Done (Some order) ->
  forall o1 v o2 w, order = o1 ++ v :: o2 -> w ∈ order -> edge g v w -> w ∈ o2.
Proof.
  intros Hi Hwf Ha Hnf Hac Hred Hc. destruct (computeOrder_effect iter g anchor nf Hi Hwf Ha Hnf) as (o & Ho & _ & _ & Ht).
  rewrite Hc in Ho. injection Ho as <-. eauto.
Qed.

(** ** Independence of the iteration orders *)

Lemma dfs_step_iter iter1 iter2 g ep cur dfs visited out :
  iteration iter1 -> iteration iter2 ->
  dfs_step iter1 g ep cur dfs visited out = dfs_step iter2 g ep cur dfs visited out.
Proof.
  intros H1 H2. destruct cur as [u []]; [done|]. rewrite !dfs_step_shape by done.
  assert (pushed iter1 g ep visited u = pushed iter2 g ep visited u) as ->; [|done].
  unfold pushed, sorted_hashes. f_equal. apply merge_sort_perm_eq. unfold adjacent_vertices.
  by rewrite (H1 _), (H2 _).
Qed.

Lemma visit_all_iter iter1 iter2 g ep vs visited out :
  iteration iter1 -> iteration iter2 ->
  visit_all iter1 g ep vs visited out = visit_all iter2 g ep vs visited out.
Proof.
  intros H1 H2.
  assert (forall fuel dfs visited out,
    dfs_loop iter1 fuel g ep dfs visited out = dfs_loop iter2 fuel g ep dfs visited out) as Hl.
  { induction fuel as [|fuel IH]; intros [|cur dfs] vis o; simpl; try done.
    rewrite (dfs_step_iter iter1 iter2) by done.
    destruct (dfs_step iter2 g ep cur dfs vis o) as [[? ?] ?]. apply IH. }
  revert visited out. induction vs as [|v vs IH]; intros visited out; simpl; [done|].
  case_decide; [apply IH|]. rewrite Hl. case_match; [|done]. case_match. apply IH.
Qed.

(** C34: two nodes with the same graph and the same non-finalized blocks compute
    the same order, whatever the iteration orders of their hash containers and
    adjacency lists are. *)
Theorem computeOrder_deterministic iter1 iter2 g anchor nf :
  iteration iter1 -> iteration iter2 -> graph_wf g ->
  (forall v, non_finalized nf v -> is_Some (g !! v)) ->
  computeOrder iter1 g anchor nf = computeOrder iter2 g anchor nf.
Proof.
  intros H1 H2 Hwf Hnf. unfold computeOrder. case_match; [|done].
  destruct (collect_epoch_spec iter1 g anchor (non_finalized_list iter1 nf) {[anchor]}) as (ep1 & -> & Hep1);
    [done|done|intros v Hv; apply Hnf; by apply (elem_of_non_finalized iter1)|].
  destruct (collect_epoch_spec iter2 g anchor (non_finalized_list iter2 nf) {[anchor]}) as (ep2 & -> & Hep2);
    [done|done|intros v Hv; apply Hnf; by apply (elem_of_non_finalized iter2)|].
  assert (ep1 = ep2) as ->.
  { apply set_eq. intros v. rewrite Hep1, Hep2, !elem_of_non_finalized by done. done. }
  simpl. by rewrite (visit_all_iter iter1 iter2).
Qed.

(** ** Examples *)

(** Block 2 has pivot 1 and tip 3, and block 3 has pivot 1. *)
Definition shortcut_graph : graph_t := {[ 1 := {[ 2; 3 ]}; 3 := {[ 2 ]}; 2 := ∅ ]}.
Definition shortcut_nf : gmap Z (gset blk_hash_t) := {[ 1 := {[ 1 ]}; 2 := {[ 3 ]}; 3 := {[ 2 ]} ]}.

(** A chain 1 -> 3 -> 2 without the shortcut. *)
Definition chain_graph : graph_t := {[ 1 := {[ 3 ]}; 3 := {[ 2 ]}; 2 := ∅ ]}.

Lemma iteration_elements : iteration elements.
Proof. by intros X. Qed.

Lemma iteration_reverse : iteration (fun X => reverse (elements X)).
Proof. intros X. apply reverse_Permutation. Qed.

(** The search marks a block as visited when it is pushed, not when it is
    expanded.  In a graph where the pivot of a block is also the parent of one
    of its tips, the block can then come out before the tip it points to: the
    order of this period puts the anchor 2 before block 3 although 3 is a parent
    of 2. *)
Theorem computeOrder_not_topological :
  edge shortcut_graph 3 2 /\ computeOrder elements shortcut_graph 2 shortcut_nf = Done (Some [1; 2; 3]).
Proof.
  split; [|vm_compute; reflexivity]. exists {[ 2 ]}. split; [vm_compute; reflexivity|set_solver].
Qed.

Lemma chain_edges u v : edge chain_graph u v -> (u = 1 /\ v = 3) \/ (u = 3 /\ v = 2).
Proof.
  intros (out & Hu & Hv). unfold chain_graph in Hu.
  apply lookup_insert_Some in Hu as [[<- <-]|[_ Hu]]; [set_solver|].
  apply lookup_insert_Some in Hu as [[<- <-]|[_ Hu]]; [set_solver|].
  apply lookup_singleton_Some in Hu as [<- <-]. set_solver.
Qed.

Lemma chain_wf : graph_wf chain_graph.
Proof. intros u v [[-> ->]|[-> ->]]%chain_edges; vm_compute; by eexists. Qed.

Definition chain_rank (u : blk_hash_t) : Z := if u =? 1 then 0 else if u =? 3 then 1 else 2.

Lemma chain_edge_rank u v : edge chain_graph u v -> chain_rank u < chain_rank v.
Proof. by intros [[-> ->]|[-> ->]]%chain_edges. Qed.

Lemma chain_tc u v : tc (edge chain_graph) u v -> chain_rank u < chain_rank v.
Proof.
  induction 1 as [u v Huv%chain_edge_rank|u w v Huw%chain_edge_rank _ IH]; [done|]. lia.
Qed.

Lemma chain_acyclic : acyclic chain_graph.
Proof. intros u Hu%chain_tc. lia. Qed.

Lemma chain_reduced : reduced chain_graph.
Proof.
  intros p u w [[-> ->]|[-> ->]]%chain_edges Htc%chain_tc [[-> Hw]|[-> Hw]]%chain_edges;
    unfold chain_rank in Htc; simpl in *; lia.
Qed.

Lemma chain_nf v : non_finalized shortcut_nf v -> is_Some (chain_graph !! v).
Proof.
  intros (level & blks & Hl & Hv). unfold shortcut_nf in Hl.
  apply lookup_insert_Some in Hl as [[<- <-]|[_ Hl]];
    [|apply lookup_insert_Some in Hl as [[<- <-]|[_ Hl]]; [|apply lookup_singleton_Some in Hl as [<- <-]]].
  all: apply elem_of_singleton in Hv as ->; vm_compute; by eexists.
Qed.

Lemma reachable_witness : reachable elements chain_graph 1 2 = Some true /\ rtc (edge chain_graph) 1 2.
Proof.
  destruct (reachable_correct elements chain_graph 1 2 iteration_elements chain_wf) as (b & Hb & Hr);
    [vm_compute; by eexists|].
  assert (reachable elements chain_graph 1 2 = Some true) as E by (vm_compute; reflexivity).
  split; [exact E|]. apply Hr. congruence.
Defined.

Lemma computeOrder_complete_witness :
  exists order, computeOrder elements chain_graph 2 shortcut_nf = Done (Some order) /\ NoDup order.
Proof.
  destruct (computeOrder_complete elements chain_graph 2 shortcut_nf iteration_elements chain_wf) as (o & H1 & H2 & _);
    [vm_compute; by eexists|apply chain_nf|]. by exists o.
Defined.

Lemma computeOrder_topological_witness :
  computeOrder elements chain_graph 2 shortcut_nf = Done (Some [1; 3; 2]) /\ 2 ∈ [2].
Proof.
  assert (computeOrder elements chain_graph 2 shortcut_nf = Done (Some [1; 3; 2])) as E by (vm_compute; reflexivity).
  split; [exact E|].
  apply (computeOrder_topological elements chain_graph 2 shortcut_nf [1; 3; 2] iteration_elements chain_wf
    ltac:(vm_compute; by eexists) chain_nf chain_acyclic chain_reduced E [1] 3 [2] 2); [done|set_solver|].
  exists {[ 2 ]}. split; [vm_compute; reflexivity|set_solver].
Defined.

Lemma computeOrder_deterministic_witness :
  computeOrder elements chain_graph 2 shortcut_nf =
  computeOrder (fun X => reverse (elements X)) chain_graph 2 shortcut_nf.
Proof.
  apply (computeOrder_deterministic elements _ chain_graph 2 shortcut_nf iteration_elements iteration_reverse chain_wf).
  apply chain_nf.
Defined.
