(* ===== verification/DagGhost.v ===== *)
(** * The ghost path

    [PivotTree::getGhostPath] follows, from the anchor, the child with the
    largest subtree (the smallest hash among equals) down to a leaf.  The subtree
    sizes that the code accumulates are the numbers of descendants. *)

From S2P Require Import Prelude Votes Dag DagOrder.
From stdpp Require Import relations.
Local Open Scope Z_scope.
Local Open Scope outcome_scope.

(** A tree: no cycles, at most one parent. *)
Record pivot_tree (g : graph_t) : Prop := {
  p_wf : graph_wf g;
  p_acyclic : acyclic g;
  p_parent : forall u u' v, edge g u v -> edge g u' v -> u = u';
}.

#[local] Set Default Proof Using "All".

Section ghost.
Context (iter : gset blk_hash_t -> list blk_hash_t) (Hiter : iteration iter).
Context (g : graph_t) (Htree : pivot_tree g).

(** [D v] is the set of descendants of [v], with [v]. *)
Context (D : blk_hash_t -> gset blk_hash_t).
Context (HD : forall v x, x ∈ D v <-> rtc (edge g) v x).

Definition W (v : blk_hash_t) : Z := Z.of_nat (size (D v)).

Lemma W_pos v : 0 < W v.
Proof.
  unfold W. assert (size (D v) <> 0%nat); [|lia]. intros E%size_empty_iff.
  assert (v ∈ D v) by (apply HD; apply rtc_refl). set_solver.
Qed.

(** *** First step: the vertices below the root *)

Record pre_inv (root : blk_hash_t) (st out : list blk_hash_t) : Prop := {
  o_nodup : NoDup (st ++ out);
  o_desc : forall v, v ∈ st ++ out -> rtc (edge g) root v;
  o_dom : forall v, v ∈ st ++ out -> is_Some (g !! v);
  o_parent : forall v, v ∈ st ++ out -> v = root \/ exists u, u ∈ out /\ edge g u v;
  o_children : forall o1 u o2 v, out = o1 ++ u :: o2 -> edge g u v -> v ∈ o2 ++ st;
  o_root : root ∈ st ++ out;
}.

Lemma pre_step root cur st out :
  pre_inv root (cur :: st) out ->
  pre_inv root (reverse (adjacent_vertices iter g cur) ++ st) (out ++ [cur]).
Proof.
  intros [O1 O2 O3 O4 O5 O6]. set (adj := adjacent_vertices iter g cur).
  assert ((reverse adj ++ st) ++ out ++ [cur] ≡ₚ adj ++ (cur :: st) ++ out) as Hp.
  { rewrite reverse_Permutation, <- app_assoc. f_equiv. rewrite app_assoc. symmetry.
    apply (Permutation_cons_append (st ++ out)). }
  assert (forall v, v ∈ adj <-> edge g cur v) as Hadj by (intros; by apply elem_of_adjacent).
  assert (rtc (edge g) root cur) as Hcur by (apply O2; set_solver).
  split.
  - rewrite Hp. apply NoDup_app. split_and!; [by apply NoDup_iter| |done].
    intros v Hv%Hadj Hin. destruct (O4 v Hin) as [->|(u & Hu & Huv)].
    + apply (p_acyclic _ Htree root). by eapply tc_rtc_l; [|apply tc_once].
    + rewrite (p_parent _ Htree u cur v Huv Hv) in Hu. simpl in O1. apply NoDup_cons in O1 as [O1 _]. set_solver.
  - intros v. rewrite Hp, elem_of_app. intros [Hv%Hadj|Hv]; [by eapply rtc_r|by apply O2].
  - intros v. rewrite Hp, elem_of_app. intros [Hv%Hadj|Hv]; [by apply (p_wf _ Htree cur)|by apply O3].
  - intros v. rewrite Hp, elem_of_app. intros [Hv%Hadj|Hv].
    + right. exists cur. split; [set_solver|done].
    + destruct (O4 v Hv) as [->|(u & Hu & Huv)]; [by left|right; exists u; set_solver].
  - intros o1 u o2 v Heq Huv. destruct o2 as [|y o2 _] using rev_ind.
    + apply app_inj_tail in Heq as [_ <-]. simpl. apply elem_of_app. left. rewrite elem_of_reverse. by apply Hadj.
    + rewrite app_comm_cons, app_assoc in Heq. apply app_inj_tail in Heq as [-> <-].
      specialize (O5 o1 u o2 v eq_refl Huv). set_solver.
  - rewrite Hp. set_solver.
Qed.

Lemma foldl_cons_reverse {A} (l st : list A) : foldl (fun st s => s :: st) st l = reverse l ++ st.
Proof.
  revert st. induction l as [|x l IH]; intros st; simpl; [done|].
  rewrite IH, reverse_cons. by rewrite <- app_assoc.
Qed.

Lemma pre_order_spec fuel root st out :
  pre_inv root st out -> (size g <= fuel + length out)%nat ->
  exists out', pre_order iter fuel g st out = Some out' /\ pre_inv root [] out'.
Proof.
  revert st out. induction fuel as [|fuel IH]; intros st out Hinv Hf.
  - destruct st as [|cur st]; [by exists out|]. exfalso.
    assert (length ((cur :: st) ++ out) <= size g)%nat as Hle.
    { rewrite <- (size_dom g), <- (size_list_to_set (C := gset blk_hash_t)) by apply Hinv. apply subseteq_size.
      intros v. rewrite elem_of_list_to_set. intros Hv. apply elem_of_dom. by apply Hinv. }
    rewrite length_app in Hle. cbn [length] in Hle. lia.
  - destruct st as [|cur st]; simpl; [by exists out|]. rewrite foldl_cons_reverse.
    apply IH; [by apply pre_step|]. rewrite length_app. simpl. lia.
Qed.

Lemma pre_inv_root root : is_Some (g !! root) -> pre_inv root [root] [].
Proof.
  intros Hr. split; simpl.
  - apply NoDup_singleton.
  - intros v ->%list_elem_of_singleton. apply rtc_refl.
  - by intros v ->%list_elem_of_singleton.
  - intros v ->%list_elem_of_singleton. by left.
  - intros o1 u o2 v Heq. by destruct o1.
  - set_solver.
Qed.

(** *** Second step: the weights *)

(** Two children of one vertex have no common descendant. *)
Lemma children_disjoint n c c' x :
  edge g n c -> edge g n c' -> rtc (edge g) c x -> rtc (edge g) c' x -> c = c'.
Proof.
  intros Hc Hc' Hx Hx'. assert (rtc (edge g) c c' \/ rtc (edge g) c' c) as Hcmp.
  { clear Hc Hc'. revert x Hx c' Hx'.
    apply (rtc_ind_r (fun x => forall c', rtc (edge g) c' x -> rtc (edge g) c c' \/ rtc (edge g) c' c) c);
      [by right|]. intros y z Hcy Hyz IH c' Hx'.
    apply rtc_inv_r in Hx' as [->|(y' & Hy' & Hzy')]; [left; by eapply rtc_r|].
    rewrite (p_parent _ Htree y' y z Hzy' Hyz) in Hy'. by apply IH. }
  assert (forall a b, edge g n a -> edge g n b -> rtc (edge g) a b -> a = b) as Hone.
  { intros a b Ha Hb Hab. apply rtc_inv_r in Hab as [->|(z & Hz & Hzb)]; [done|].
    rewrite (p_parent _ Htree z n b Hzb Hb) in Hz. exfalso. apply (p_acyclic _ Htree n).
    apply (tc_rtc_r n a n); [by apply tc_once|done]. }
  destruct Hcmp; [by apply Hone|symmetry; by apply Hone].
Qed.

(** The weight of a vertex is one more than the weights of its children. *)
Lemma W_children n l :
  NoDup l -> (forall c, c ∈ l -> edge g n c) ->
  exists X : gset blk_hash_t, (forall x, x ∈ X <-> exists c, c ∈ l /\ rtc (edge g) c x) /\
    Z.of_nat (size X) = sum_list_Z W l.
Proof.
  induction l as [|c l IH]; intros Hnd Hl.
  - exists ∅. split; [set_solver|done].
  - apply NoDup_cons in Hnd as [Hc Hnd]. destruct (IH Hnd) as (X & HX & HS); [set_solver|].
    exists (D c ∪ X). split.
    + intros x. rewrite elem_of_union, HD, HX. set_solver.
    + rewrite size_union; [simpl; unfold W at 1; lia|]. intros x Hx%HD (c' & Hc' & Hx')%HX.
      rewrite (children_disjoint n c c' x) in Hc; [done|apply Hl; set_solver|apply Hl; set_solver|done|done].
Qed.

Lemma W_rec n : W n = 1 + sum_list_Z W (adjacent_vertices iter g n).
Proof.
  destruct (W_children n (adjacent_vertices iter g n)) as (X & HX & <-).
  - by apply NoDup_iter.
  - intros c. by apply elem_of_adjacent.
  - unfold W. assert (D n = {[n]} ∪ X) as ->.
    { apply set_eq. intros x. rewrite HD, elem_of_union, elem_of_singleton, HX. split.
      - intros Hx. inversion Hx as [|? c ? Hc Hcx]; subst; [by left|]. right. exists c.
        by rewrite elem_of_adjacent.
      - intros [->|(c & Hc & Hcx)]; [apply rtc_refl|]. rewrite elem_of_adjacent in Hc by done.
        by eapply rtc_l. }
    rewrite size_union, size_singleton; [lia|].
    intros x ->%elem_of_singleton (c & Hc & Hcx)%HX. rewrite elem_of_adjacent in Hc by done.
    apply (p_acyclic _ Htree n). apply (tc_rtc_r n c n); [by apply tc_once|done].
Qed.

Lemma W_le_size n : is_Some (g !! n) -> W n <= Z.of_nat (size g).
Proof.
  intros Hn. unfold W. rewrite <- (size_dom g). apply inj_le, subseteq_size.
  intros x Hx%HD. apply elem_of_dom.
  apply rtc_inv_r in Hx as [<-|(z & _ & Hzx)]; [done|by apply (p_wf _ Htree z)].
Qed.

Context (Hsize : Z.of_nat (size g) < 2 ^ 31).

Lemma W_small n : is_Some (g !! n) -> W n < 2 ^ 31.
Proof. intros Hn. pose proof (W_le_size n Hn). lia. Qed.

Lemma vertex_weight_spec m n :
  is_Some (g !! n) -> (forall c, edge g n c -> m !! c = Some (W c)) -> vertex_weight iter g m n = W n.
Proof.
  intros Hn Hm. unfold vertex_weight. pose proof (W_rec n) as HW. pose proof (W_small n Hn) as Hs.
  rewrite (foldl_count _ W (2 ^ 31)); [|intros c _; pose proof (W_pos c); lia| |lia|lia].
  - rewrite Z.add_0_l, Z.add_comm, <- HW. pose proof (W_pos n).
    rewrite to_signed_small by lia. apply wrap_id. unfold in_range, modulus. lia.
  - intros w c Hc Hw Hb. rewrite elem_of_adjacent in Hc by done. rewrite (Hm c Hc).
    rewrite (wrap_id 64) by (unfold in_range, modulus; pose proof (W_pos c); lia).
    apply to_signed_small; [lia|]. pose proof (W_pos c). lia.
Qed.

(** Children are processed before their parents. *)
Lemma weights_spec root out :
  pre_inv root [] out ->
  forall v, weights iter g (reverse out) !! v = if decide (v ∈ out) then Some (W v) else None.
Proof.
  intros [O1 O2 O3 O4 O5 O6]. simpl in *. unfold weights.
  assert (forall o2 o1, out = o1 ++ o2 -> forall v,
    foldl (fun m n => <[n := vertex_weight iter g m n]> m) ∅ (reverse o2) !! v =
      if decide (v ∈ o2) then Some (W v) else None) as Hgen.
  { induction o2 as [|u o2 IH]; intros o1 Heq v; [done|].
    rewrite reverse_cons, foldl_app. simpl. specialize (IH (o1 ++ [u])). rewrite <- app_assoc in IH. specialize (IH Heq).
    rewrite vertex_weight_spec.
    - rewrite lookup_insert. destruct (decide (u = v)) as [<-|Hne].
      + by rewrite decide_True by set_solver.
      + rewrite IH. apply decide_ext. set_solver.
    - apply O3. rewrite Heq. set_solver.
    - intros c Hc. rewrite IH. apply decide_True. specialize (O5 o1 u o2 c Heq Hc). by rewrite app_nil_r in O5. }
  by apply (Hgen out []).
Qed.

(** *** Third step: the path *)

(** The heaviest of [l], with the smallest hash among equals. *)
Definition best (l : list blk_hash_t) (c : blk_hash_t) : Prop :=
  c ∈ l /\ forall c', c' ∈ l -> W c' < W c \/ (W c' = W c /\ c <= c').

Lemma choose_spec m root l :
  (forall c, c ∈ l -> m !! c = Some (W c)) ->
  exists h n, ofold (choose_next m) l (0, root) = Done (h, n) /\
    ((l = [] /\ h = 0) \/ (best l n /\ h = W n)).
Proof.
  assert (forall l1 l2 h n, (forall c, c ∈ l1 ++ l2 -> m !! c = Some (W c)) ->
    (l1 = [] /\ h = 0 /\ n = root) \/ (best l1 n /\ h = W n) ->
    exists h' n', ofold (choose_next m) l2 (h, n) = Done (h', n') /\
      ((l1 ++ l2 = [] /\ h' = 0) \/ (best (l1 ++ l2) n' /\ h' = W n'))) as Hgen.
  { intros l1 l2. revert l1. induction l2 as [|c l2 IH]; intros l1 h n Hm Hl1; simpl.
    - exists h, n. rewrite app_nil_r. split; [done|]. naive_solver.
    - rewrite (Hm c) by set_solver. pose proof (W_pos c) as Hpos.
      destruct (Z.ltb_spec 0 (W c)); [|lia]. simpl.
      assert (exists h' n', (if h <? W c then Done (W c, c)
         else if W c =? h then Done (h, if c <? n then c else n) else Done (h, n)) = Done (h', n') /\
         best (l1 ++ [c]) n' /\ h' = W n') as (h' & n' & -> & Hb & ->).
      { assert (c ∈ l1 ++ [c]) as Hc by (apply elem_of_app; right; by apply list_elem_of_singleton).
        destruct Hl1 as [(-> & -> & ->)|[[Hn Hbest] ->]].
        - destruct (Z.ltb_spec 0 (W c)); [|lia]. exists (W c), c. split_and!; [done| |done].
          split; [done|]. intros c' ->%list_elem_of_singleton. right. lia.
        - assert (n ∈ l1 ++ [c]) as Hn' by (apply elem_of_app; by left).
          destruct (Z.ltb_spec (W n) (W c)).
          + exists (W c), c. split_and!; [done| |done]. split; [done|].
            intros c' [Hc'| ->%list_elem_of_singleton]%elem_of_app; [|right; lia].
            left. destruct (Hbest c' Hc'); lia.
          + destruct (Z.eqb_spec (W c) (W n)) as [Heq|].
            * exists (W n), (if c <? n then c else n). split; [done|].
              destruct (Z.ltb_spec c n); (split; [|done || lia]); (split; [done|]);
                intros c' [Hc'| ->%list_elem_of_singleton]%elem_of_app; try (right; lia);
                destruct (Hbest c' Hc'); lia.
            * exists (W n), n. split_and!; [done| |done]. split; [done|].
              intros c' [Hc'| ->%list_elem_of_singleton]%elem_of_app; [by apply Hbest|lia]. }
      simpl. rewrite (app_assoc l1 [c] l2 : l1 ++ c :: l2 = (l1 ++ [c]) ++ l2).
      apply IH; [|by right]. intros c' Hc'. apply Hm. set_solver. }
  intros Hm. apply (Hgen [] l 0 root Hm). by left.
Qed.

Inductive ghost_path : blk_hash_t -> list blk_hash_t -> Prop :=
| ghost_leaf v : (forall c, ~ edge g v c) -> ghost_path v [v]
| ghost_step v c path :
    edge g v c ->
    (forall c', edge g v c' -> W c' < W c \/ (W c' = W c /\ c <= c')) ->
    ghost_path c path -> ghost_path v (v :: path).

Lemma collect_path_spec fuel m root v chain :
  (forall x, rtc (edge g) root x -> m !! x = Some (W x)) -> rtc (edge g) root v ->
  W v <= Z.of_nat fuel + 1 ->
  exists path, collect_path iter fuel g m v chain = Done (chain ++ path) /\ ghost_path v path.
Proof.
  intros Hm. revert v chain. induction fuel as [|fuel IH]; intros v chain Hv Hf; simpl.
  all: destruct (choose_spec m v (adjacent_vertices iter g v)) as (h & n & -> & Hcase);
    [intros c Hc; apply Hm; rewrite elem_of_adjacent in Hc by done; by eapply rtc_r|]; simpl.
  all: destruct Hcase as [[Hnil ->]|[[Hn Hbest] ->]];
    [exists [v]; split; [done|]; constructor; intros c Hc; rewrite <- (elem_of_adjacent iter) in Hc by done;
     rewrite Hnil in Hc; set_solver|].
  all: rewrite elem_of_adjacent in Hn by done; pose proof (W_pos n);
    destruct (Z.eqb_spec (W n) 0); [lia|].
  all: assert (W n < W v) as Hlt by
    (rewrite (W_rec v); assert (W n <= sum_list_Z W (adjacent_vertices iter g v));
     [apply sum_list_Z_elem; [intros c _; pose proof (W_pos c); lia|by apply elem_of_adjacent]|lia]).
  - lia.
  - destruct (IH n (chain ++ [v])) as (path & -> & Hpath); [by eapply rtc_r|lia|].
    exists (v :: path). split; [by rewrite <- app_assoc|]. econstructor; [done| |done].
    intros c' Hc'. apply Hbest. by apply elem_of_adjacent.
Qed.

Lemma getGhostPath_effect v :
  is_Some (g !! v) -> exists path, getGhostPath iter g v = Done path /\ ghost_path v path.
Proof.
  intros Hv. unfold getGhostPath, hasVertex. rewrite bool_decide_true by done.
  destruct (pre_order_spec (size g) v [v] []) as (out & -> & Hout); [by apply pre_inv_root|simpl; lia|].
  destruct (collect_path_spec (size g) (weights iter g (reverse out)) v v []) as (path & Hp & Hg).
  - intros x Hx. rewrite (weights_spec v out Hout). apply decide_True.
    destruct Hout as [_ _ _ _ O5 O6]. simpl in *.
    clear Hv. induction Hx as [|x y z Hxy Hyz IHx]; [done|]. apply IHx.
    apply list_elem_of_split in O6 as (o1 & o2 & ->). specialize (O5 o1 x o2 y eq_refl Hxy).
    rewrite app_nil_r in O5. apply elem_of_app. right. apply elem_of_cons. by right.
  - apply rtc_refl.
  - pose proof (W_le_size v Hv). lia.
  - by exists path.
Qed.

(** The rule determines the path. *)
Lemma ghost_path_unique v path path' : ghost_path v path -> ghost_path v path' -> path = path'.
Proof.
  intros Hp. revert path'. induction Hp as [v Hv|v c path Hc Hbest Hp IH]; intros path' Hp'.
  - inversion Hp' as [|? c ? Hc]; subst; [done|]. by destruct (Hv c).
  - inversion Hp' as [? Hv|? c' p' Hc' Hbest' Hp'']; subst; [by destruct (Hv c)|]. f_equal. apply IH.
    assert (c = c') as ->; [|done]. destruct (Hbest c' Hc'), (Hbest' c Hc); lia.
Qed.
End ghost.

(** C35: in a tree of fewer than 2^31 vertices the ghost path from a vertex
    exists (no assertion fails, both loops end within one iteration per vertex)
    and is the one of the GHOST rule: every step goes to the child with the most
    descendants, to the one with the smallest hash among equals, until a leaf is
    reached; it does not depend on the iteration order of the adjacency
    lists. *)
Theorem getGhostPath_correct g D v :
  pivot_tree g -> Z.of_nat (size g) < 2 ^ 31 ->
  (forall v x, x ∈ D v <-> rtc (edge g) v x) -> is_Some (g !! v) ->
  exists path, ghost_path g D v path /\
    forall iter, iteration iter -> getGhostPath iter g v = Done path.
Proof.
  intros Ht Hs HD Hv.
  destruct (getGhostPath_effect elements iteration_elements g Ht D HD Hs v Hv) as (path & _ & Hp).
  exists path. split; [done|]. intros iter Hi.
  destruct (getGhostPath_effect iter Hi g Ht D HD Hs v Hv) as (path' & -> & Hp').
  f_equal. by eapply ghost_path_unique.
Qed.

(** ** Example *)

Definition chain_desc (v : blk_hash_t) : gset blk_hash_t :=
  if decide (v = 1) then {[ 1; 3; 2 ]} else if decide (v = 3) then {[ 3; 2 ]} else {[ v ]}.

Lemma chain_edge_13 : edge chain_graph 1 3.
Proof. exists {[ 3 ]}. split; [vm_compute; reflexivity|set_solver]. Qed.

Lemma chain_edge_32 : edge chain_graph 3 2.
Proof. exists {[ 2 ]}. split; [vm_compute; reflexivity|set_solver]. Qed.

Lemma chain_desc_spec v x : x ∈ chain_desc v <-> rtc (edge chain_graph) v x.
Proof.
  split.
  - pose proof chain_edge_13. pose proof chain_edge_32.
    unfold chain_desc. repeat case_decide; subst; rewrite ?elem_of_union, ?elem_of_singleton.
    + intros [[->| ->]| ->]; [apply rtc_refl|by apply rtc_once|]. eapply rtc_l; [done|by apply rtc_once].
    + intros [->| ->]; [apply rtc_refl|by apply rtc_once].
    + intros ->. apply rtc_refl.
  - induction 1 as [v|v w x [[-> ->]|[-> ->]]%chain_edges _ IH].
    + unfold chain_desc. repeat case_decide; set_solver.
    + unfold chain_desc in *. simpl in *. set_solver.
    + unfold chain_desc in *. simpl in *. set_solver.
Qed.

Lemma chain_tree : pivot_tree chain_graph.
Proof.
  split; [apply chain_wf|apply chain_acyclic|].
  intros u u' v [[-> ->]|[-> ->]]%chain_edges [[-> ?]|[-> ?]]%chain_edges; done.
Qed.

Lemma getGhostPath_witness :
  exists path, ghost_path chain_graph chain_desc 1 path /\ getGhostPath elements chain_graph 1 = Done path.
Proof.
  destruct (getGhostPath_correct chain_graph chain_desc 1 chain_tree ltac:(vm_compute; reflexivity)
    chain_desc_spec ltac:(vm_compute; by eexists)) as (path & Hp & Hr).
  exists path. split; [exact Hp|]. apply Hr, iteration_elements.
Defined.
