(* ===== verification/DagManager.v ===== *)
(** * The DAG manager

    [DagManager] (consensus/src/dag/dag_manager.cpp) with the DAG columns of the
    database (storage/src/storage.cpp): which blocks are in the DAG, in what
    order a period finalizes them, which expire, and the verification of a
    received block.  The transaction manager and the network are called; the
    calls are recorded in [dm_calls]. *)

From S2P Require Import Prelude Votes Caches TransactionQueue Dag.
Local Open Scope Z_scope.
Local Open Scope outcome_scope.

Record DagBlock := mkDagBlock {
  db_hash : blk_hash_t;
  db_pivot : blk_hash_t;
  db_level : Z;
  db_tips : list blk_hash_t;
  db_trxs : list trx_hash_t;
  db_gas_estimation : Z;
  db_sender : addr_t;
  db_difficulty : Z;
}.

#[export] Instance DagBlock_eq_dec : EqDecision DagBlock.
Proof. solve_decision. Defined.

(** ** The DAG columns of the database *)

Record DagStorage := mkDagStorage {
  dag_blocks : gmap blk_hash_t DagBlock;        (* not finalized *)
  finalized_blocks : gmap blk_hash_t DagBlock;  (* dag_block_period and period_data *)
  dag_blocks_level : gmap Z (gset blk_hash_t);
  dag_blocks_count_ : Z;
  dag_edge_count_ : Z;
}.

Definition storage_getDagBlock (db : DagStorage) (hash : blk_hash_t) : option DagBlock :=
  match dag_blocks db !! hash with
  | Some b => Some b
  | None => finalized_blocks db !! hash
  end.

Definition dagBlockInDb (db : DagStorage) (hash : blk_hash_t) : bool :=
  bool_decide (is_Some (dag_blocks db !! hash)) || bool_decide (is_Some (finalized_blocks db !! hash)).

Definition getBlocksByLevel (db : DagStorage) (level : Z) : gset blk_hash_t :=
  default ∅ (dag_blocks_level db !! level).

Definition removeDagBlock (db : DagStorage) (hash : blk_hash_t) : DagStorage :=
  mkDagStorage (delete hash (dag_blocks db)) (finalized_blocks db) (dag_blocks_level db)
    (dag_blocks_count_ db) (dag_edge_count_ db).

(** The loop of [updateDagBlockCounters]: the level index is read from the
    database and written to the batch, which is committed after the loop. *)
Definition update_counter (db : DagStorage) (acc : gmap Z (gset blk_hash_t) * Z * Z) (blk : DagBlock) :
    gmap Z (gset blk_hash_t) * Z * Z :=
  let '(write_batch, count, edges) := acc in
  let block_hashes := {[db_hash blk]} ∪ getBlocksByLevel db (db_level blk) in
  (<[db_level blk := block_hashes]> write_batch, u64 (count + 1),
   u64 (edges + Z.of_nat (length (db_tips blk)) + 1)).

Definition updateDagBlockCounters (db : DagStorage) (blks : list DagBlock) : DagStorage :=
  let '(write_batch, count, edges) :=
    foldl (update_counter db) (∅, dag_blocks_count_ db, dag_edge_count_ db) blks in
  mkDagStorage (dag_blocks db) (finalized_blocks db) (write_batch ∪ dag_blocks_level db) count edges.

Definition saveDagBlock (db : DagStorage) (blk : DagBlock) : DagStorage :=
  mkDagStorage (<[db_hash blk := blk]> (dag_blocks db)) (finalized_blocks db)
    (<[db_level blk := {[db_hash blk]} ∪ getBlocksByLevel db (db_level blk)]> (dag_blocks_level db))
    (u64 (dag_blocks_count_ db + 1)) (u64 (dag_edge_count_ db + Z.of_nat (length (db_tips blk)) + 1)).

(** The DAG part of [savePeriodData]: the blocks of a period change columns. *)
Definition finalize_dag_block (db : DagStorage) (block : DagBlock) : DagStorage :=
  mkDagStorage (delete (db_hash block) (dag_blocks db)) (<[db_hash block := block]> (finalized_blocks db))
    (dag_blocks_level db) (dag_blocks_count_ db) (dag_edge_count_ db).

Definition savePeriodData (db : DagStorage) (period_dag_blocks : list DagBlock) : DagStorage :=
  foldl finalize_dag_block db period_dag_blocks.

(** ** State *)

(** Calls into other components. *)
Inductive dag_call :=
| SaveTransactionsFromDagBlock (trxs : list Transaction)
| RemoveNonFinalizedTransactions (trxs : gset trx_hash_t)
| BlockVerified (blk : DagBlock)
| GossipDagBlock (blk : DagBlock) (proposed : bool).

(** The graphs and the non-finalized blocks by level. *)
Record DagState := mkDagState {
  pivot_tree_ : graph_t;
  total_dag_ : graph_t;
  non_finalized_blks_ : gmap Z (gset blk_hash_t);
}.

Record DagManager := mkDagManager {
  dag : DagState;
  max_level_ : Z;
  anchor_ : blk_hash_t;
  old_anchor_ : blk_hash_t;
  period_ : PbftPeriod;
  non_finalized_blks_min_difficulty_ : Z;
  frontier_ : blk_hash_t * list blk_hash_t;
  dag_expiry_level_ : Z;
  seen_blocks_ : CacheMap.ExpirationCacheMap blk_hash_t DagBlock;
  dm_db : DagStorage;
  dm_calls : list dag_call;
}.

Section manager.
(** Iteration order of hash containers and configuration. *)
Context (iter : gset blk_hash_t -> list blk_hash_t).
Context (genesis_block_ : DagBlock) (dag_expiry_limit_ : Z).

Definition getDagBlock (m : DagManager) (hash : blk_hash_t) : option DagBlock :=
  match CacheMap.cache_ (seen_blocks_ m) !! hash with
  | Some b => Some b
  | None =>
      if decide (hash = db_hash genesis_block_) then Some genesis_block_
      else storage_getDagBlock (dm_db m) hash
  end.

Definition isDagBlockKnown (m : DagManager) (hash : blk_hash_t) : bool :=
  if (CacheMap.cm_count (seen_blocks_ m) hash =? 0)%nat then dagBlockInDb (dm_db m) hash else true.

(** ** Adding a block *)

Fixpoint check_tips (m : DagManager) (tips : list blk_hash_t) (expected_level : Z) (missing : list blk_hash_t) :
    Z * list blk_hash_t :=
  match tips with
  | [] => (expected_level, missing)
  | tip :: tips' =>
      match getDagBlock m tip with
      | Some tip_block => check_tips m tips' (Z.max expected_level (u64 (db_level tip_block + 1))) missing
      | None => check_tips m tips' expected_level (missing ++ [tip])
      end
  end.

Definition pivotAndTipsAvailable (m : DagManager) (blk : DagBlock) : bool * list blk_hash_t :=
  let '(expected_level, missing) :=
    match getDagBlock m (db_pivot blk) with
    | Some dag_blk_pivot => (u64 (db_level dag_blk_pivot + 1), [])
    | None => (0, [db_pivot blk])
    end in
  let '(expected_level, missing_tips_or_pivot) := check_tips m (db_tips blk) expected_level missing in
  match missing_tips_or_pivot with
  | _ :: _ => (false, missing_tips_or_pivot)
  | [] => (expected_level =? db_level blk, [])
  end.

Definition addToDag (d : DagState) (hash pivot : blk_hash_t) (tips : list blk_hash_t) (level : Z) (finalized : bool) :
    outcome DagState :=
  let* (total, _) := addVEEs (total_dag_ d) hash pivot tips in
  let* (tree, _) := addVEEs (pivot_tree_ d) hash pivot [] in
  if finalized then Done (mkDagState tree total (non_finalized_blks_ d))
  else
    Done (mkDagState tree total
      (<[level := {[hash]} ∪ default ∅ (non_finalized_blks_ d !! level)]> (non_finalized_blks_ d))).

Definition getFrontier (d : DagState) (anchor : blk_hash_t) : outcome (blk_hash_t * list blk_hash_t) :=
  let* pivot_chain := getGhostPath iter (pivot_tree_ d) anchor in
  match last pivot_chain with
  | None => Done (0, [])
  | Some pivot =>
      let* tips := getLeaves iter (total_dag_ d) [] in
      Done (pivot, filter (fun t => t <> pivot) tips)
  end.

(** The part of [addDagBlock] after the checks: the block enters the DAG. *)
Definition enter_dag (m : DagManager) (blk : DagBlock) (db : DagStorage) (calls : list dag_call) :
    outcome DagManager :=
  let* (seen, _) := CacheMap.cm_insert (seen_blocks_ m) (db_hash blk) blk in
  let* d := addToDag (dag m) (db_hash blk) (db_pivot blk) (db_tips blk) (db_level blk) false in
  let* frontier := getFrontier d (anchor_ m) in
  Done (mkDagManager d (Z.max (max_level_ m) (db_level blk)) (anchor_ m) (old_anchor_ m) (period_ m)
    (if db_difficulty blk <? non_finalized_blks_min_difficulty_ m then db_difficulty blk
     else non_finalized_blks_min_difficulty_ m)
    frontier (dag_expiry_level_ m) seen db calls).

Definition addDagBlock (m : DagManager) (blk : DagBlock) (trxs : list Transaction) (proposed save : bool) :
    outcome (DagManager * (bool * list blk_hash_t)) :=
  if save then
    if dagBlockInDb (dm_db m) (db_hash blk) then Done (m, (true, []))
    else if db_level blk <? dag_expiry_level_ m then Done (m, (false, []))
    else
      let res := pivotAndTipsAvailable m blk in
      if negb res.1 then Done (m, res)
      else
        let calls := dm_calls m ++ [SaveTransactionsFromDagBlock trxs] in
        let* m' := enter_dag m blk (saveDagBlock (dm_db m) blk) calls in
        Done (mkDagManager (dag m') (max_level_ m') (anchor_ m') (old_anchor_ m') (period_ m')
          (non_finalized_blks_min_difficulty_ m') (frontier_ m') (dag_expiry_level_ m') (seen_blocks_ m')
          (dm_db m') (dm_calls m' ++ [BlockVerified blk; GossipDagBlock blk proposed]), (true, []))
  else
    let* m' := enter_dag m blk (dm_db m) (dm_calls m) in Done (m', (true, [])).

(** ** The order of a period *)

(** The empty result stands for every failure. *)
Definition getDagBlockOrder (m : DagManager) (anchor : blk_hash_t) (period : PbftPeriod) :
    outcome (list blk_hash_t) :=
  if negb (period =? u64 (period_ m + 1)) then Done []
  else if anchor_ m =? anchor then Done []
  else
    let* order := computeOrder iter (total_dag_ (dag m)) anchor (non_finalized_blks_ (dag m)) in
    match order with
    | None => Done []
    | Some blk_orders => Done blk_orders
    end.

Definition validateBlockNotExpired (dag_expiry_level : Z) (dag_block : DagBlock) (expired : gset blk_hash_t) :
    bool * gset blk_hash_t :=
  if bool_decide (db_pivot dag_block ∈ expired) || existsb (fun tip => bool_decide (tip ∈ expired)) (db_tips dag_block)
     || (db_level dag_block <? dag_expiry_level)
  then (false, {[db_hash dag_block]} ∪ expired)
  else (true, expired).

(** What the loop of [setDagBlockOrder] over the old non-finalized blocks
    builds up. *)
Record Rebuild := mkRebuild {
  rb_dag : DagState;
  rb_min_difficulty : Z;
  rb_expired : gset blk_hash_t;
  rb_expired_trxs : list trx_hash_t;
  rb_seen : CacheMap.ExpirationCacheMap blk_hash_t DagBlock;
  rb_db : DagStorage;
}.

(** [getDagBlock] in the middle of the loop. *)
Definition rb_getDagBlock (r : Rebuild) (hash : blk_hash_t) : option DagBlock :=
  match CacheMap.cache_ (rb_seen r) !! hash with
  | Some b => Some b
  | None =>
      if decide (hash = db_hash genesis_block_) then Some genesis_block_
      else storage_getDagBlock (rb_db r) hash
  end.

Definition rebuild_block (dag_expiry_level : Z) (dag_order_set : gset blk_hash_t) (r : Rebuild)
    (blk_hash : blk_hash_t) : outcome Rebuild :=
  if decide (blk_hash ∈ dag_order_set) then Done r
  else
    match rb_getDagBlock r blk_hash with
    | None => Undefined
    | Some dag_block =>
        let (valid, expired) := validateBlockNotExpired dag_expiry_level dag_block (rb_expired r) in
        if valid then
          let* d := addToDag (rb_dag r) blk_hash (db_pivot dag_block) (db_tips dag_block) (db_level dag_block) false in
          Done (mkRebuild d
            (if db_difficulty dag_block <? rb_min_difficulty r then db_difficulty dag_block else rb_min_difficulty r)
            expired (rb_expired_trxs r) (rb_seen r) (rb_db r))
        else
          Done (mkRebuild (rb_dag r) (rb_min_difficulty r) expired (rb_expired_trxs r ++ db_trxs dag_block)
            (CacheMap.cm_erase (rb_seen r) blk_hash) (removeDagBlock (rb_db r) blk_hash))
    end.

(** [trxs_finalized] is what the database says of each transaction. *)
Definition handleExpiredDagBlocksTransactions (r : Rebuild) (transaction_finalized : trx_hash_t -> bool) :
    outcome (list dag_call) :=
  let candidates : gset trx_hash_t :=
    list_to_set (filter (fun t => transaction_finalized t = false) (rb_expired_trxs r)) in
  let* to_remove := ofold (fun to_remove blk =>
      match rb_getDagBlock r blk with
      | None => Undefined
      | Some dag_block => Done (to_remove ∖ list_to_set (db_trxs dag_block))
      end) (non_finalized_list iter (non_finalized_blks_ (rb_dag r))) candidates in
  Done (if decide (to_remove = ∅) then [] else [RemoveNonFinalizedTransactions to_remove]).

(** The blocks of [dag_order] that are not in the memory DAG; a block that is not
    found would be dereferenced. *)
Fixpoint blocks_to_count (m : DagManager) (non_finalized : gset blk_hash_t) (dag_order : list blk_hash_t) :
    outcome (list DagBlock) :=
  match dag_order with
  | [] => Done []
  | blk :: rest =>
      if decide (blk ∈ non_finalized) then blocks_to_count m non_finalized rest
      else
        match getDagBlock m blk with
        | None => Undefined
        | Some b => let* bs := blocks_to_count m non_finalized rest in Done (b :: bs)
        end
  end.

Definition setDagBlockOrder (m : DagManager) (new_anchor : blk_hash_t) (period : PbftPeriod)
    (dag_order : list blk_hash_t) (transaction_finalized : trx_hash_t -> bool) : outcome (DagManager * Z) :=
  if negb (period =? u64 (period_ m + 1)) then Done (m, 0)
  else if new_anchor =? kNullBlockHash then
    Done (mkDagManager (dag m) (max_level_ m) (anchor_ m) (old_anchor_ m) period
      (non_finalized_blks_min_difficulty_ m) (frontier_ m) (dag_expiry_level_ m) (seen_blocks_ m) (dm_db m)
      (dm_calls m), 0)
  else
    let non_finalized_blocks := non_finalized_list iter (non_finalized_blks_ (dag m)) in
    let* counters := blocks_to_count m (list_to_set non_finalized_blocks) dag_order in
    let db := match counters with [] => dm_db m | _ => updateDagBlockCounters (dm_db m) counters end in
    let dag_order_set : gset blk_hash_t := list_to_set dag_order in
    let* _ := oassert (bool_decide (new_anchor ∈ dag_order_set)) in
    let* d := addToDag (mkDagState ∅ ∅ ∅) new_anchor kNullBlockHash [] 0 true in
    match getDagBlock m new_anchor with
    | None => Undefined
    | Some anchor_block =>
        let expiry := if dag_expiry_limit_ <? db_level anchor_block
          then u64 (db_level anchor_block - dag_expiry_limit_) else dag_expiry_level_ m in
        let* r := ofold (rebuild_block expiry dag_order_set) non_finalized_blocks
          (mkRebuild d (2 ^ 32 - 1) ∅ [] (seen_blocks_ m) db) in
        let* calls :=
          match rb_expired_trxs r with
          | [] => Done []
          | _ => handleExpiredDagBlocksTransactions r transaction_finalized
          end in
        let* frontier := getFrontier (rb_dag r) new_anchor in
        Done (mkDagManager (rb_dag r) (max_level_ m) new_anchor (anchor_ m) period (rb_min_difficulty r)
          frontier expiry (rb_seen r) (rb_db r) (dm_calls m ++ calls),
          u32 (Z.of_nat (size dag_order_set)))
    end.

(** ** Queries *)

Definition getNonFinalizedBlocks (m : DagManager) : PbftPeriod * gmap Z (gset blk_hash_t) :=
  (period_ m, non_finalized_blks_ (dag m)).

Definition getNonFinalizedBlocksSize (m : DagManager) : Z * Z :=
  (Z.of_nat (size (non_finalized_blks_ (dag m))),
   foldl (fun c e => u64 (c + Z.of_nat (size e.2))) 0 (map_items (non_finalized_blks_ (dag m)))).

Definition getNonFinalizedBlocksMinDifficulty (m : DagManager) : Z := non_finalized_blks_min_difficulty_ m.

(** The blocks that a peer does not know, with their transactions in the order of
    their first occurrence. *)
Fixpoint unknown_blocks (m : DagManager) (known_hashes : gset blk_hash_t) (hashes : list blk_hash_t) :
    outcome (list DagBlock) :=
  match hashes with
  | [] => Done []
  | hash :: rest =>
      if decide (hash ∈ known_hashes) then unknown_blocks m known_hashes rest
      else
        match getDagBlock m hash with
        | None => AssertFailed
        | Some blk => let* bs := unknown_blocks m known_hashes rest in Done (blk :: bs)
        end
  end.

Fixpoint unique_trxs (seen : gset trx_hash_t) (l : list trx_hash_t) : list trx_hash_t :=
  match l with
  | [] => []
  | t :: l' => if decide (t ∈ seen) then unique_trxs seen l' else t :: unique_trxs ({[t]} ∪ seen) l'
  end.

Definition getNonFinalizedBlocksWithTransactions (m : DagManager) (known_hashes : gset blk_hash_t) :
    outcome (PbftPeriod * list DagBlock * list trx_hash_t) :=
  let* dag_blocks := unknown_blocks m known_hashes (non_finalized_list iter (non_finalized_blks_ (dag m))) in
  Done (period_ m, dag_blocks, unique_trxs ∅ (dag_blocks ≫= db_trxs)).
End manager.

(** ** Verification of a block *)

Inductive VerifyBlockReturnType :=
| Verified
| MissingTransaction
| AheadBlock
| FailedVdfVerification
| FutureBlock
| NotEligible
| ExpiredBlock
| IncorrectTransactionsEstimation
| BlockTooBig
| FailedTipsVerification
| MissingTip.

#[export] Instance VerifyBlockReturnType_eq_dec : EqDecision VerifyBlockReturnType.
Proof. solve_decision. Defined.

Definition kDagBlockMaxTips : Z := 16.

(** What [verifyBlock] asks other components. *)
Record VerifyEnv := mkVerifyEnv {
  getProposalPeriodForDagLevel : Z -> option PbftPeriod;
  ve_getTransactions : list trx_hash_t -> PbftPeriod -> list Transaction;
  getVrfKey : PbftPeriod -> addr_t -> option Z;
  verifyVdf : DagBlock -> PbftPeriod -> Z -> bool;           (* false: InvalidVdfSortition *)
  dposIsEligible : PbftPeriod -> addr_t -> option bool;      (* None: ErrFutureBlock *)
  getGasLimits : PbftPeriod -> Z * Z;
  estimateTransactions : list Transaction -> PbftPeriod -> Z;
}.

Section verify.
Context (genesis_block_ : DagBlock) (env : VerifyEnv).

Fixpoint tips_unique (seen : gset blk_hash_t) (tips : list blk_hash_t) : bool :=
  match tips with
  | [] => true
  | tip :: tips' => if decide (tip ∈ seen) then false else tips_unique ({[tip]} ∪ seen) tips'
  end.

(** The transactions that came with the block, and the hashes to look up. *)
Fixpoint split_trxs (trxs : gmap trx_hash_t Transaction) (hashes : list trx_hash_t) :
    list Transaction * list trx_hash_t :=
  match hashes with
  | [] => ([], [])
  | h :: hashes' =>
      let (found, query) := split_trxs trxs hashes' in
      match trxs !! h with
      | Some t => (t :: found, query)
      | None => (found, h :: query)
      end
  end.

(** The gas estimations of the tips are added; [None]: a tip is missing. *)
Fixpoint add_tips_gas (m : DagManager) (tips : list blk_hash_t) (gas : Z) : option Z :=
  match tips with
  | [] => Some gas
  | t :: tips' =>
      match getDagBlock genesis_block_ m t with
      | None => None
      | Some tip_blk => add_tips_gas m tips' (u64 (gas + db_gas_estimation tip_blk))
      end
  end.

Definition erase_seen (m : DagManager) (hash : blk_hash_t) : DagManager :=
  mkDagManager (dag m) (max_level_ m) (anchor_ m) (old_anchor_ m) (period_ m)
    (non_finalized_blks_min_difficulty_ m) (frontier_ m) (dag_expiry_level_ m)
    (CacheMap.cm_erase (seen_blocks_ m) hash) (dm_db m) (dm_calls m).

(** The checks that follow the transactions. *)
Definition verify_gas (m : DagManager) (blk : DagBlock) (propose_period : PbftPeriod)
    (all_block_trxs : list Transaction) : outcome (VerifyBlockReturnType * list Transaction) :=
  let '(dag_gas_limit, pbft_gas_limit) := getGasLimits env propose_period in
  let block_gas_estimation := db_gas_estimation blk in
  if dag_gas_limit <? block_gas_estimation then Done (BlockTooBig, [])
  else if negb (estimateTransactions env all_block_trxs propose_period =? block_gas_estimation)
  then Done (IncorrectTransactionsEstimation, [])
  else if dag_gas_limit =? 0 then Undefined
  else if pbft_gas_limit / dag_gas_limit <? Z.of_nat (length (db_tips blk)) + 1 then
    match add_tips_gas m (db_tips blk) block_gas_estimation with
    | None => Done (MissingTip, [])
    | Some total => if pbft_gas_limit <? total then Done (BlockTooBig, []) else Done (Verified, all_block_trxs)
    end
  else Done (Verified, all_block_trxs).

Definition verifyBlock (m : DagManager) (blk : DagBlock) (trxs : gmap trx_hash_t Transaction) :
    outcome (DagManager * (VerifyBlockReturnType * list Transaction)) :=
  if kDagBlockMaxTips <? Z.of_nat (length (db_tips blk)) then Done (m, (FailedTipsVerification, []))
  else if negb (tips_unique {[db_pivot blk]} (db_tips blk)) then Done (m, (FailedTipsVerification, []))
  else
    match getProposalPeriodForDagLevel env (db_level blk) with
    | None => Done (erase_seen m (db_hash blk), (AheadBlock, []))
    | Some propose_period =>
        let (found, trx_hashes_to_query) :=
          if decide (trxs = ∅) then ([], db_trxs blk) else split_trxs trxs (db_trxs blk) in
        let transactions := ve_getTransactions env trx_hashes_to_query propose_period in
        if (length transactions <? length trx_hashes_to_query)%nat
        then Done (erase_seen m (db_hash blk), (MissingTransaction, []))
        else
          let all_block_trxs := found ++ transactions in
          if db_level blk <? dag_expiry_level_ m then Done (m, (ExpiredBlock, []))
          else
            match getVrfKey env propose_period (db_sender blk) with
            | None => Done (m, (FailedVdfVerification, []))
            | Some pk =>
                if negb (verifyVdf env blk propose_period pk) then Done (m, (FailedVdfVerification, []))
                else
                  match dposIsEligible env propose_period (db_sender blk) with
                  | None => Done (m, (FutureBlock, []))
                  | Some false => Done (m, (NotEligible, []))
                  | Some true =>
                      let* r := verify_gas m blk propose_period all_block_trxs in Done (m, r)
                  end
            end
    end.
End verify.
