(* ===== verification/DagManagerInv.v ===== *)
(** * Correctness of the DAG manager

    The invariant that ties the graphs, the non-finalized blocks and the database
    together, and its preservation; with it the hypotheses of the theorems on
    [Dag] and [PivotTree] hold in every state. *)

From S2P Require Import Prelude Votes Caches TransactionQueue Dag DagOrder DagGhost DagManager.
From stdpp Require Import relations.
Local Open Scope Z_scope.
Local Open Scope outcome_scope.

(** ** Adding a vertex with its edges *)

Lemma edge_insert g u out a b :
  edge (<[u := out]> g) a b <-> (if decide (u = a) then b ∈ out else edge g a b).
Proof.
  unfold edge. setoid_rewrite lookup_insert. case_decide; [|done]. split; [naive_solver|]. intros. by exists out.
Qed.

Lemma edge_insert_new g v a b : g !! v = None -> edge (<[v := ∅]> g) a b <-> edge g a b.
Proof.
  intros Hv. rewrite edge_insert. case_decide as D; [|done]. subst a. split; [set_solver|].
  intros (out & Ho & _). congruence.
Qed.

Lemma add_edge_spec g u v :
  is_Some (g !! u) ->
  let g' := (add_edge g u v).1 in
  dom g' = dom g /\ forall a b, edge g' a b <-> edge g a b \/ (a = u /\ b = v).
Proof.
  intros [out Hu]. unfold add_edge. rewrite Hu. case_decide as Hin; simpl.
  - split; [done|]. intros a b. split; [by left|]. intros [?|[-> ->]]; [done|]. by exists out.
  - split; [apply dom_insert_lookup_L; by exists out|]. intros a b. rewrite edge_insert. case_decide as D.
    + subst a. split.
      * rewrite elem_of_union, elem_of_singleton. intros [->|Hb]; [by right|left; by exists out].
      * intros [(out' & Ho & Hb)|[_ ->]]; [|set_solver]. assert (out' = out) as -> by congruence. set_solver.
    + naive_solver.
Qed.

Lemma hasVertex_true g v : hasVertex g v = true <-> v ∈ dom g.
Proof. unfold hasVertex. by rewrite bool_decide_eq_true, elem_of_dom. Qed.

Lemma add_tips_spec g v tips res :
  let g' := (add_tips g v tips res).1 in
  dom g' = dom g /\ forall a b, edge g' a b <-> edge g a b \/ (b = v /\ a ∈ tips /\ a ∈ dom g).
Proof.
  revert g res. induction tips as [|e tips IH]; intros g res; simpl.
  - split; [done|]. set_solver.
  - destruct (hasVertex g e) eqn:He.
    + apply hasVertex_true in He. destruct (add_edge_spec g e v) as [Hd Hedge]; [by apply elem_of_dom|].
      destruct (add_edge g e v) as [g1 r1]. simpl in *. destruct (IH g1 r1) as [Hd' Hedge']. split; [congruence|].
      intros a b. rewrite Hedge', Hedge, Hd, elem_of_cons. naive_solver.
    + destruct (IH g res) as [Hd' Hedge']. split; [done|]. intros a b. rewrite Hedge', elem_of_cons.
      assert (e ∉ dom g) by (rewrite <- hasVertex_true, He; done). naive_solver.
Qed.

(** The parents of a block. *)
Definition is_parent (pivot : blk_hash_t) (tips : list blk_hash_t) (u : blk_hash_t) : Prop :=
  (u = pivot /\ pivot <> 0) \/ u ∈ tips.

Lemma addVEEs_spec g v pivot tips :
  v <> 0 -> g !! v = None -> ~ is_parent pivot tips v ->
  exists g' res, addVEEs g v pivot tips = Done (g', res) /\ dom g' = {[v]} ∪ dom g /\
    forall a b, edge g' a b <-> edge g a b \/ (b = v /\ is_parent pivot tips a /\ a ∈ dom g).
Proof.
  intros Hv Hg Hp. unfold addVEEs. destruct (Z.eqb_spec v 0); [done|]. simpl. rewrite Hg.
  set (g1 := <[v := ∅]> g).
  assert (dom g1 = {[v]} ∪ dom g) as Hd1 by apply dom_insert_L.
  assert (forall a b, edge g1 a b <-> edge g a b) as He1 by (intros; by apply edge_insert_new).
  assert (exists g2 r2, (if negb (pivot =? 0) && hasVertex g1 pivot then add_edge g1 pivot v else (g1, true)) = (g2, r2) /\
    dom g2 = dom g1 /\ forall a b, edge g2 a b <-> edge g a b \/ (b = v /\ a = pivot /\ pivot <> 0 /\ a ∈ dom g1))
    as (g2 & r2 & -> & Hd2 & He2).
  { destruct (Z.eqb_spec pivot 0) as [->|Hpz]; simpl.
    - exists g1, true. split_and!; [done|done|]. intros a b. rewrite He1. naive_solver.
    - destruct (hasVertex g1 pivot) eqn:Hh.
      + apply hasVertex_true in Hh. destruct (add_edge_spec g1 pivot v) as [Hd Hedge]; [by apply elem_of_dom|].
        destruct (add_edge g1 pivot v) as [g2 r2]. exists g2, r2. split_and!; [done|done|].
        intros a b. simpl in Hedge. rewrite Hedge, He1. naive_solver.
      + exists g1, true. split_and!; [done|done|]. intros a b. rewrite He1.
        assert (pivot ∉ dom g1) by (rewrite <- hasVertex_true, Hh; done). naive_solver. }
  destruct (add_tips_spec g2 v tips true) as [Hd3 He3].
  destruct (add_tips g2 v tips true) as [g3 r3]. simpl in *. exists g3, (r2 && r3). split; [done|].
  split; [congruence|]. intros a b. rewrite He3, He2, Hd2, Hd1.
  unfold is_parent in *. rewrite elem_of_union, elem_of_singleton. naive_solver.
Qed.

(** ** The invariant of the graphs *)

Definition NF (d : DagState) (v : blk_hash_t) : Prop := non_finalized (non_finalized_blks_ d) v.

Definition parent_of (b : DagBlock) (u : blk_hash_t) : Prop := is_parent (db_pivot b) (db_tips b) u.

(** [blk] looks a block up, [anchor] is the anchor of the last period. *)
Record dag_ok (blk : blk_hash_t -> option DagBlock) (anchor : blk_hash_t) (d : DagState) : Prop := {
  g_total_dom : forall v, v ∈ dom (total_dag_ d) <-> v = anchor \/ NF d v;
  g_tree_dom : forall v, v ∈ dom (pivot_tree_ d) <-> v = anchor \/ NF d v;
  g_total_edge : forall u v, edge (total_dag_ d) u v ->
    NF d v /\ u ∈ dom (total_dag_ d) /\ exists b, blk v = Some b /\ parent_of b u;
  g_tree_edge : forall u v, edge (pivot_tree_ d) u v ->
    NF d v /\ u ∈ dom (pivot_tree_ d) /\ exists b, blk v = Some b /\ u = db_pivot b /\ parent_of b u;
  g_level : forall l X v, non_finalized_blks_ d !! l = Some X -> v ∈ X ->
    exists b, blk v = Some b /\ db_level b = l /\ db_hash b = v;
  g_parents : forall v b u, NF d v -> blk v = Some b -> parent_of b u ->
    exists bu, blk u = Some bu /\ db_level bu < db_level b;
  g_anchor : ~ NF d anchor;
  g_nonzero : forall v, NF d v -> v <> 0;
}.

Lemma ranked_acyclic (g : graph_t) (rank : blk_hash_t -> Z) :
  (forall u v, edge g u v -> rank u < rank v) -> acyclic g.
Proof.
  intros Hr u Hu. assert (forall a b, tc (edge g) a b -> rank a < rank b) as Htc.
  { clear -Hr. intros a b Hab. induction Hab as [a b Hab%Hr|a c b Hac%Hr _ IH]; lia. }
  specialize (Htc u u Hu). lia.
Qed.

Lemma argmax (rank : blk_hash_t -> Z) (l : list blk_hash_t) :
  l <> [] -> exists x, x ∈ l /\ forall y, y ∈ l -> rank y <= rank x.
Proof.
  induction l as [|x l IH]; [done|]. intros _. destruct l as [|y l].
  - exists x. split; [set_solver|]. intros z ->%list_elem_of_singleton. lia.
  - destruct IH as (m & Hm & Hmax); [done|]. destruct (Z.le_gt_cases (rank m) (rank x)).
    + exists x. split; [by left|]. intros z [->|Hz]%elem_of_cons; [lia|]. specialize (Hmax z Hz). lia.
    + exists m. split; [by right|]. intros z [->|Hz]%elem_of_cons; [lia|by apply Hmax].
Qed.

(** The set of descendants, computed. *)
Definition descendants (g : graph_t) (v : blk_hash_t) : gset blk_hash_t :=
  if decide (is_Some (g !! v)) then filter (fun x => reachable elements g v x = Some true) (dom g) else {[v]}.

Lemma descendants_spec g v x : graph_wf g -> x ∈ descendants g v <-> rtc (edge g) v x.
Proof.
  intros Hwf. unfold descendants. case_decide as Hv.
  - rewrite elem_of_filter. destruct (reachable_effect elements iteration_elements g Hwf v x Hv) as (b & -> & Hb).
    split; [intros [[= ->] _]; by apply Hb|]. intros Hx. split; [by rewrite (proj2 Hb Hx)|].
    apply elem_of_dom. apply rtc_inv_r in Hx as [<-|(z & _ & Hz)]; [done|by apply (Hwf z)].
  - rewrite elem_of_singleton. split; [intros ->; apply rtc_refl|]. intros Hx.
    inversion Hx as [|? y ? (out & Hy & _) ?]; subst; [done|]. by destruct Hv; exists out.
Qed.

Section consequences.
Context (blk : blk_hash_t -> option DagBlock) (anchor : blk_hash_t) (d : DagState).
Context (Hok : dag_ok blk anchor d).

Definition level_of (v : blk_hash_t) : Z := match blk v with Some b => db_level b | None => 0 end.

Lemma total_edge_level u v : edge (total_dag_ d) u v -> level_of u < level_of v.
Proof using Hok.
  intros (Hv & _ & b & Hb & Hp)%(g_total_edge _ _ _ Hok). unfold level_of.
  destruct (g_parents _ _ _ Hok v b u Hv Hb Hp) as (bu & -> & Hl). by rewrite Hb.
Qed.

Lemma tree_edge_level u v : edge (pivot_tree_ d) u v -> level_of u < level_of v.
Proof using Hok.
  intros (Hv & _ & b & Hb & _ & Hp)%(g_tree_edge _ _ _ Hok). unfold level_of.
  destruct (g_parents _ _ _ Hok v b u Hv Hb Hp) as (bu & -> & Hl). by rewrite Hb.
Qed.

Lemma total_wf : graph_wf (total_dag_ d).
Proof using Hok.
  intros u v (Hv & _ & _)%(g_total_edge _ _ _ Hok). apply elem_of_dom. rewrite (g_total_dom _ _ _ Hok). by right.
Qed.

Lemma total_acyclic : acyclic (total_dag_ d).
Proof using Hok. apply (ranked_acyclic _ level_of), total_edge_level. Qed.

Lemma tree_ok : pivot_tree (pivot_tree_ d).
Proof using Hok.
  split.
  - intros u v (Hv & _ & _)%(g_tree_edge _ _ _ Hok). apply elem_of_dom. rewrite (g_tree_dom _ _ _ Hok). by right.
  - apply (ranked_acyclic _ level_of), tree_edge_level.
  - intros u u' v (_ & _ & b & Hb & -> & _)%(g_tree_edge _ _ _ Hok) (_ & _ & b' & Hb' & -> & _)%(g_tree_edge _ _ _ Hok).
    congruence.
Qed.

Lemma nf_in_total v : NF d v -> is_Some (total_dag_ d !! v).
Proof using Hok. intros Hv. apply elem_of_dom. rewrite (g_total_dom _ _ _ Hok). by right. Qed.

Lemma anchor_in_tree : is_Some (pivot_tree_ d !! anchor).
Proof using Hok. apply elem_of_dom. rewrite (g_tree_dom _ _ _ Hok). by left. Qed.

(** A finite acyclic graph has a leaf. *)
Lemma total_has_leaf : exists v, total_dag_ d !! v = Some ∅.
Proof using Hok.
  destruct (argmax level_of (elements (dom (total_dag_ d)))) as (v & Hv & Hmax).
  { intros E%elements_empty_inv. assert (anchor ∈ dom (total_dag_ d)) as Ha by (apply (g_total_dom _ _ _ Hok); by left).
    apply leibniz_equiv in E. rewrite E in Ha. set_solver. }
  apply elem_of_elements, elem_of_dom in Hv as [out Hout]. exists v. rewrite Hout. f_equal.
  apply set_eq. intros w. split; [|set_solver]. intros Hw. exfalso. assert (edge (total_dag_ d) v w) as He by (by exists out).
  pose proof (total_edge_level v w He).
  assert (level_of w <= level_of v); [|lia]. apply Hmax, elem_of_elements, elem_of_dom. by apply (total_wf v).
Qed.

(** The frontier exists: no assertion of the ghost path or of the leaves fails. *)
Lemma getFrontier_effect iter :
  iteration iter -> Z.of_nat (size (pivot_tree_ d)) < 2 ^ 31 ->
  exists path pivot tips, getFrontier iter d anchor = Done (pivot, tips) /\
    ghost_path (pivot_tree_ d) (descendants (pivot_tree_ d)) anchor path /\ last path = Some pivot /\
    forall t, t ∈ tips <-> t <> pivot /\ total_dag_ d !! t = Some ∅.
Proof using Hok.
  intros Hi Hsz. unfold getFrontier.
  destruct (getGhostPath_effect iter Hi (pivot_tree_ d) tree_ok (descendants (pivot_tree_ d))
    (fun v x => descendants_spec _ v x (p_wf _ tree_ok)) Hsz anchor anchor_in_tree) as (path & -> & Hp). simpl.
  assert (exists pivot, last path = Some pivot) as [pivot Hl].
  { destruct (last path) as [x|] eqn:E; [by exists x|]. apply last_None in E as ->. inversion Hp. }
  rewrite Hl. unfold getLeaves, collectLeafVertices.
  set (leaves := filter (fun v => total_dag_ d !! v = Some ∅) (iter (dom (total_dag_ d)))).
  assert (forall v, v ∈ leaves <-> total_dag_ d !! v = Some ∅) as Hleaves.
  { intros v. unfold leaves. rewrite list_elem_of_filter, elem_of_iter by done. split; [by intros []|].
    intros Hv. split; [done|]. apply elem_of_dom. by exists ∅. }
  rewrite bool_decide_true.
  - simpl. eexists path, pivot, _. split_and!; [done|done|done|]. intros t. by rewrite list_elem_of_filter, Hleaves.
  - destruct total_has_leaf as [v Hv]. apply Hleaves in Hv. intros E. rewrite E in Hv. set_solver.
Qed.
End consequences.

(** ** A block enters the graphs *)

Lemma NF_insert (nf : gmap Z (gset blk_hash_t)) l h v :
  non_finalized (<[l := {[h]} ∪ default ∅ (nf !! l)]> nf) v <-> non_finalized nf v \/ v = h.
Proof.
  unfold non_finalized. split.
  - intros (l' & X & Hl & Hv). apply lookup_insert_Some in Hl as [[<- <-]|[Hne Hl]].
    + apply elem_of_union in Hv as [->%elem_of_singleton|Hv]; [by right|left].
      exists l. destruct (nf !! l) as [Y|]; simpl in Hv; [by exists Y|set_solver].
    + left. by exists l', X.
  - intros [(l' & X & Hl & Hv)| ->].
    + destruct (decide (l = l')) as [<-|Hne].
      * exists l, ({[h]} ∪ X). rewrite lookup_insert_eq, Hl. split; [done|set_solver].
      * exists l', X. by rewrite lookup_insert_ne.
    + exists l, ({[h]} ∪ default ∅ (nf !! l)). rewrite lookup_insert_eq. split; [done|set_solver].
Qed.

Lemma addToDag_effect blk anchor d b :
  dag_ok blk anchor d -> blk (db_hash b) = Some b -> db_hash b <> 0 ->
  db_hash b <> anchor -> ~ NF d (db_hash b) ->
  (forall u, parent_of b u -> exists bu, blk u = Some bu /\ db_level bu < db_level b) ->
  exists d', addToDag d (db_hash b) (db_pivot b) (db_tips b) (db_level b) false = Done d' /\
    dag_ok blk anchor d' /\ (forall v, NF d' v <-> NF d v \/ v = db_hash b) /\
    (forall l, non_finalized_blks_ d' !! l =
       if decide (l = db_level b) then Some ({[db_hash b]} ∪ default ∅ (non_finalized_blks_ d !! l))
       else non_finalized_blks_ d !! l).
Proof.
  intros Hok Hb Hz Hanc Hnf Hpar. pose proof Hok as [G1 G2 G3 G4 G5 G6 G7 G8].
  assert (~ parent_of b (db_hash b)) as Hself.
  { intros Hs. destruct (Hpar _ Hs) as (bu & Hbu & Hl). rewrite Hb in Hbu. injection Hbu as <-. lia. }
  assert (forall (g : graph_t), (forall v, v ∈ dom g <-> v = anchor \/ NF d v) -> g !! db_hash b = None) as Hnew.
  { intros g Hg. apply not_elem_of_dom. rewrite Hg. tauto. }
  unfold addToDag.
  destruct (addVEEs_spec (total_dag_ d) (db_hash b) (db_pivot b) (db_tips b)) as (g1 & r1 & -> & Hd1 & He1);
    [done|by apply Hnew|done|]. simpl.
  destruct (addVEEs_spec (pivot_tree_ d) (db_hash b) (db_pivot b) []) as (g2 & r2 & -> & Hd2 & He2);
    [done|by apply Hnew|intros [?|Hp]; [apply Hself; by left|by apply elem_of_nil in Hp]|]. simpl.
  eexists. split; [done|].
  assert (forall v, NF (mkDagState g2 g1 (<[db_level b := {[db_hash b]} ∪ default ∅ (non_finalized_blks_ d !! db_level b)]>
    (non_finalized_blks_ d))) v <-> NF d v \/ v = db_hash b) as HNF by (intros v; apply NF_insert).
  split_and!; [|done|].
  - split; simpl.
    + intros v. rewrite Hd1, elem_of_union, elem_of_singleton, G1, HNF. tauto.
    + intros v. rewrite Hd2, elem_of_union, elem_of_singleton, G2, HNF. tauto.
    + intros u v. rewrite He1, HNF, Hd1, elem_of_union. intros [(Hv & Hu & b' & Hb' & Hp)%G3|(-> & Hp & Hu)].
      * naive_solver.
      * split; [by right|]. split; [by right|]. by exists b.
    + intros u v. rewrite He2, HNF, Hd2, elem_of_union. intros [(Hv & Hu & b' & Hb' & Hp)%G4|(-> & Hp & Hu)].
      * naive_solver.
      * split; [by right|]. split; [by right|]. exists b.
        destruct Hp as [[-> ?]|Hp%elem_of_nil]; [|done]. split_and!; [done|done|by left].
    + intros l X v Hl Hv. apply lookup_insert_Some in Hl as [[<- <-]|[Hne Hl]]; [|by eapply G5].
      apply elem_of_union in Hv as [->%elem_of_singleton|Hv]; [by exists b|].
      destruct (non_finalized_blks_ d !! db_level b) as [Y|] eqn:E; simpl in Hv; [by eapply G5|set_solver].
    + intros v b' u. rewrite HNF. intros [Hv| ->] Hb' Hp; [by eapply G6|].
      rewrite Hb in Hb'. injection Hb' as <-. by apply Hpar.
    + rewrite HNF. naive_solver.
    + intros v. rewrite HNF. intros [?| ->]; [by apply G8|done].
  - intros l. simpl. rewrite lookup_insert. destruct (decide (db_level b = l)) as [<-|Hne].
    + by rewrite decide_True.
    + by rewrite decide_False by congruence.
Qed.

(** ** The database and the cache of seen blocks *)

(** Lookup through genesis block and database. *)
Definition blk_of (genesis : DagBlock) (db : DagStorage) (h : blk_hash_t) : option DagBlock :=
  match storage_getDagBlock db h with
  | Some b => Some b
  | None => if decide (h = db_hash genesis) then Some genesis else None
  end.

Record store_ok (genesis : DagBlock) (seen : CacheMap.ExpirationCacheMap blk_hash_t DagBlock) (db : DagStorage) : Prop := {
  s_seen : forall h b, CacheMap.cache_ seen !! h = Some b -> storage_getDagBlock db h = Some b;
  s_hash : forall h b, storage_getDagBlock db h = Some b -> db_hash b = h;
  s_genesis : forall b, storage_getDagBlock db (db_hash genesis) = Some b -> b = genesis;
  s_level : forall h b, blk_of genesis db h = Some b -> 0 <= db_level b < 2 ^ 64 - 1;
  s_tracked : CacheMap.cm_tracked seen;
  s_params : CacheMap.cm_params_ok seen;
}.

Lemma lookup_blk genesis seen db h :
  store_ok genesis seen db ->
  match CacheMap.cache_ seen !! h with
  | Some b => Some b
  | None => if decide (h = db_hash genesis) then Some genesis else storage_getDagBlock db h
  end = blk_of genesis db h.
Proof.
  intros [S1 S2 S3 _ _ _]. unfold blk_of. destruct (CacheMap.cache_ seen !! h) as [b|] eqn:E.
  - by rewrite (S1 _ _ E).
  - case_decide as D; [|by destruct (storage_getDagBlock db h)]. subst h.
    destruct (storage_getDagBlock db (db_hash genesis)) as [b|] eqn:E'; [|done]. by rewrite (S3 b eq_refl).
Qed.

Lemma blk_of_hash genesis seen db h b :
  store_ok genesis seen db -> blk_of genesis db h = Some b -> db_hash b = h.
Proof.
  intros Hs. unfold blk_of. destruct (storage_getDagBlock db h) as [b'|] eqn:E.
  - intros [= <-]. by apply (s_hash _ _ _ Hs).
  - case_decide; [|done]. by intros [= <-].
Qed.

(** The invariant of the manager. *)
Record dm_inv (genesis : DagBlock) (m : DagManager) : Prop := {
  m_dag : dag_ok (blk_of genesis (dm_db m)) (anchor_ m) (dag m);
  m_store : store_ok genesis (seen_blocks_ m) (dm_db m);
  m_anchor : is_Some (blk_of genesis (dm_db m) (anchor_ m));
}.

Lemma getDagBlock_effect genesis m h :
  dm_inv genesis m -> getDagBlock genesis m h = blk_of genesis (dm_db m) h.
Proof. intros [_ Hs _]. unfold getDagBlock. by apply lookup_blk. Qed.

(** More blocks in the database do not disturb the graphs. *)
Lemma dag_ok_mono blk blk' anchor d :
  (forall h b, blk h = Some b -> blk' h = Some b) -> dag_ok blk anchor d -> dag_ok blk' anchor d.
Proof.
  intros Hext Hok. pose proof Hok as [G1 G2 G3 G4 G5 G6 G7 G8]. split; try done.
  - intros u v (Hv & Hu & b & Hb & Hp)%G3. eauto 10.
  - intros u v (Hv & Hu & b & Hb & Hp & Hq)%G4. eauto 10.
  - intros l X v Hl Hv. destruct (G5 l X v Hl Hv) as (b & ? & ? & ?). eauto.
  - intros v b u Hv Hb Hp. pose proof Hv as (l & X & Hl & Hx). destruct (G5 l X v Hl Hx) as (b0 & Hb0 & _).
    assert (b0 = b) as -> by (apply Hext in Hb0; congruence).
    destruct (G6 v b u Hv Hb0 Hp) as (bu & Hbu & Hlt). eauto.
Qed.

(** ** Availability of the parents *)

Lemma check_tips_spec genesis m tips e missing e' missing' :
  dm_inv genesis m -> check_tips genesis m tips e missing = (e', missing') ->
  e <= e' /\
  missing' = missing ++ filter (fun t => blk_of genesis (dm_db m) t = None) tips /\
  (e' = e \/ exists t bt, t ∈ tips /\ blk_of genesis (dm_db m) t = Some bt /\ e' = db_level bt + 1) /\
  forall t bt, t ∈ tips -> blk_of genesis (dm_db m) t = Some bt -> db_level bt + 1 <= e'.
Proof.
  intros Hinv. revert e missing. induction tips as [|t tips IH]; intros e missing; simpl.
  - intros [= <- <-]. split_and!; [lia|by rewrite app_nil_r|by left|set_solver].
  - rewrite (getDagBlock_effect genesis m t Hinv).
    destruct (blk_of genesis (dm_db m) t) as [bt|] eqn:E; intros Hc; apply IH in Hc as (C1 & C2 & C3 & C4).
    + assert (u64 (db_level bt + 1) = db_level bt + 1) as Hw.
      { apply wrap_id. pose proof (s_level _ _ _ (m_store _ _ Hinv) _ _ E). unfold in_range, modulus. lia. }
      rewrite Hw in *. rewrite filter_cons_False by congruence. split_and!; [lia|done| |].
      * destruct C3 as [C3|(t' & bt' & ? & ? & ?)]; [|right; exists t', bt'; set_solver].
        destruct (Z.max_spec e (db_level bt + 1)) as [[_ Hm]|[_ Hm]]; [right; exists t, bt|left; lia].
        split; [by left|]. split; [done|lia].
      * intros t' bt' [->|Ht']%elem_of_cons Hbt; [|by eapply C4]. assert (bt' = bt) by congruence. subst. lia.
    + rewrite filter_cons_True by done. rewrite <- app_assoc in C2. split_and!; [lia|done| |].
      * destruct C3 as [C3|(t' & bt' & ? & ? & ?)]; [by left|right; exists t', bt'; set_solver].
      * intros t' bt' [->|Ht']%elem_of_cons Hbt; [congruence|by eapply C4].
Qed.

(** The parents of a block: pivot and tips. *)
Definition parents (b : DagBlock) : list blk_hash_t := db_pivot b :: db_tips b.

Lemma pivotAndTips_effect genesis m b :
  dm_inv genesis m ->
  let missing := filter (fun u => blk_of genesis (dm_db m) u = None) (parents b) in
  exists ok, pivotAndTipsAvailable genesis m b = (ok, missing) /\
    (ok = true <-> missing = [] /\
       (forall u bu, u ∈ parents b -> blk_of genesis (dm_db m) u = Some bu -> db_level bu < db_level b) /\
       exists u bu, u ∈ parents b /\ blk_of genesis (dm_db m) u = Some bu /\ db_level b = db_level bu + 1).
Proof.
  intros Hinv missing. unfold pivotAndTipsAvailable, parents in *.
  rewrite (getDagBlock_effect genesis m (db_pivot b) Hinv). subst missing.
  destruct (blk_of genesis (dm_db m) (db_pivot b)) as [bp|] eqn:E.
  - rewrite filter_cons_False by congruence.
    assert (u64 (db_level bp + 1) = db_level bp + 1) as ->.
    { apply wrap_id. pose proof (s_level _ _ _ (m_store _ _ Hinv) _ _ E). unfold in_range, modulus. lia. }
    destruct (check_tips genesis m (db_tips b) (db_level bp + 1) []) as [e' missing'] eqn:Hc.
    apply check_tips_spec in Hc as (C1 & C2 & C3 & C4); [|done]. simpl in C2. rewrite <- C2.
    destruct missing' as [|x missing'].
    + exists (e' =? db_level b). split; [done|]. rewrite Z.eqb_eq. split.
      * intros ->. split_and!; [done| |].
        -- intros u bu [->|Hu]%elem_of_cons Hbu; [assert (bu = bp) by congruence; subst; lia|].
           specialize (C4 u bu Hu Hbu). lia.
        -- destruct C3 as [->|(t & bt & Ht & Hbt & ->)]; [by exists (db_pivot b), bp; split_and!; [left| |]|].
           exists t, bt. split_and!; [by right|done|done].
      * intros (_ & Hall & u & bu & Hu & Hbu & Hl).
        assert (db_level bp < db_level b) by (apply (Hall (db_pivot b)); [by left|done]).
        assert (e' <= db_level b).
        { destruct C3 as [->|(t & bt & Ht & Hbt & ->)]; [lia|]. specialize (Hall t bt ltac:(by right) Hbt). lia. }
        apply elem_of_cons in Hu as [->|Hu]; [assert (bu = bp) by congruence; subst; lia|].
        specialize (C4 u bu Hu Hbu). lia.
    + exists false. split; [done|]. split; [done|]. by intros [? _].
  - rewrite filter_cons_True by done.
    destruct (check_tips genesis m (db_tips b) 0 [db_pivot b]) as [e' missing'] eqn:Hc.
    apply check_tips_spec in Hc as (C1 & C2 & C3 & C4); [|done]. rewrite C2. exists false. split; [done|].
    split; [done|]. by intros [? _].
Qed.

(** [pivotAndTipsAvailable] returns the pivot and tips that are not known,
    in the order of the block, and accepts exactly the blocks whose pivot and
    tips are all known and whose level is one above the highest of them. *)
Theorem pivotAndTipsAvailable_correct genesis m b :
  dm_inv genesis m ->
  let missing := filter (fun u => blk_of genesis (dm_db m) u = None) (parents b) in
  exists ok, pivotAndTipsAvailable genesis m b = (ok, missing) /\
    (ok = true <-> missing = [] /\
       (forall u bu, u ∈ parents b -> blk_of genesis (dm_db m) u = Some bu -> db_level bu < db_level b) /\
       exists u bu, u ∈ parents b /\ blk_of genesis (dm_db m) u = Some bu /\ db_level b = db_level bu + 1).
Proof. apply pivotAndTips_effect. Qed.

(** ** Adding a received block *)

Lemma storage_save db b h :
  storage_getDagBlock (saveDagBlock db b) h =
    if decide (h = db_hash b) then Some b else storage_getDagBlock db h.
Proof.
  unfold storage_getDagBlock, saveDagBlock. simpl. rewrite lookup_insert.
  destruct (decide (db_hash b = h)) as [<-|Hne]; [by rewrite decide_True|by rewrite decide_False by congruence].
Qed.

Lemma dagBlockInDb_false db h : dagBlockInDb db h = false <-> storage_getDagBlock db h = None.
Proof.
  unfold dagBlockInDb, storage_getDagBlock. rewrite orb_false_iff, !bool_decide_eq_false, <- !eq_None_not_Some.
  destruct (dag_blocks db !! h); naive_solver.
Qed.

Lemma seen_insert genesis seen db b :
  store_ok genesis seen db -> storage_getDagBlock db (db_hash b) = None -> db_hash b <> db_hash genesis ->
  0 <= db_level b < 2 ^ 64 - 1 ->
  exists seen' r, CacheMap.cm_insert seen (db_hash b) b = Done (seen', r) /\ store_ok genesis seen' (saveDagBlock db b).
Proof.
  intros [S1 S2 S3 S4 S5 S6] Hnone Hgen Hlev. unfold CacheMap.cm_insert.
  destruct (CacheMap.cache_ seen !! db_hash b) as [x|] eqn:E; [by rewrite (S1 _ _ E) in Hnone|].
  destruct (CacheMap.trim_spec (CacheMap.store seen (db_hash b) b)) as
    (seen' & n & -> & _ & _ & _ & Hl & Ht & Hp & _); [by apply CacheMap.store_tracked|done|]. simpl.
  exists seen', true. split; [done|]. split; [| | | |done|done].
  - intros h x Hx. rewrite Hl in Hx. destruct (decide _); [done|]. simpl in Hx.
    rewrite storage_save. apply lookup_insert_Some in Hx as [[<- <-]|[Hne Hx]]; [by rewrite decide_True|].
    rewrite decide_False by done. by apply S1.
  - intros h x. rewrite storage_save. case_decide as D; [by intros [= <-]|apply S2].
  - intros x. rewrite storage_save. rewrite decide_False by congruence. apply S3.
  - intros h x. unfold blk_of. rewrite storage_save. case_decide as D; [by intros [= <-]|apply S4].
Qed.

(** One more block makes the tree larger by at most one vertex. *)
Lemma tree_size_step blk blk' anchor anchor' d d' h :
  dag_ok blk anchor d -> dag_ok blk' anchor' d' -> (forall v, (v = anchor' \/ NF d' v) <-> (v = anchor \/ NF d v) \/ v = h) ->
  (size (pivot_tree_ d') <= S (size (pivot_tree_ d)))%nat.
Proof.
  intros Hok Hok' HNF. rewrite <- !(size_dom (pivot_tree_ _)).
  transitivity (size ({[h]} ∪ dom (pivot_tree_ d))).
  - apply subseteq_size. intros v.
    rewrite (g_tree_dom _ _ _ Hok'), HNF, elem_of_union, elem_of_singleton, (g_tree_dom _ _ _ Hok). tauto.
  - rewrite size_union_alt, size_singleton.
    pose proof (subseteq_size (dom (pivot_tree_ d) ∖ {[h]}) (dom (pivot_tree_ d)) ltac:(set_solver)). lia.
Qed.

Definition block_ok (genesis b : DagBlock) : Prop :=
  db_hash b <> 0 /\ db_hash b <> db_hash genesis /\ 0 <= db_level b < 2 ^ 64 - 1.

Lemma addDagBlock_effect iter genesis m b trxs proposed :
  iteration iter -> dm_inv genesis m -> block_ok genesis b ->
  Z.of_nat (size (pivot_tree_ (dag m))) < 2 ^ 31 - 1 ->
  exists m' r, addDagBlock iter genesis m b trxs proposed true = Done (m', r) /\ dm_inv genesis m' /\
    ((m' = m /\ (r = (true, []) <-> is_Some (storage_getDagBlock (dm_db m) (db_hash b)))) \/
     (r = (true, []) /\ storage_getDagBlock (dm_db m) (db_hash b) = None /\
      dag_expiry_level_ m <= db_level b /\
      (forall v, NF (dag m') v <-> NF (dag m) v \/ v = db_hash b) /\ anchor_ m' = anchor_ m /\
      period_ m' = period_ m /\ dm_db m' = saveDagBlock (dm_db m) b /\
      dm_calls m' = dm_calls m ++ [SaveTransactionsFromDagBlock trxs; BlockVerified b; GossipDagBlock b proposed])).
Proof.
  intros Hi Hinv (Hz & Hgen & Hlev) Hsz. unfold addDagBlock.
  destruct (dagBlockInDb (dm_db m) (db_hash b)) eqn:Hin.
  { exists m, (true, []). split; [done|]. split; [done|]. left. split; [done|]. split; [|done]. intros _.
    destruct (storage_getDagBlock (dm_db m) (db_hash b)) eqn:E; [by eexists|].
    apply dagBlockInDb_false in E. congruence. }
  apply dagBlockInDb_false in Hin.
  assert (forall r : bool * list blk_hash_t, r.1 = false ->
    (m = m /\ (r = (true, []) <-> is_Some (storage_getDagBlock (dm_db m) (db_hash b))))) as Hfail.
  { intros r Hr. split; [done|]. rewrite Hin. split; [intros ->; done|by intros []]. }
  destruct (Z.ltb_spec (db_level b) (dag_expiry_level_ m)) as [Hexp|Hexp].
  { exists m, (false, []). split; [done|]. split; [done|]. left. by apply Hfail. }
  destruct (pivotAndTips_effect genesis m b Hinv) as (ok & -> & Hok). simpl.
  destruct ok; simpl.
  2: { eexists m, _. split; [done|]. split; [done|]. left. by apply Hfail. }
  destruct (proj1 Hok eq_refl) as (Hmiss & Hlow & _).
  pose proof Hinv as [Hdag Hstore Hanc].
  destruct (seen_insert genesis (seen_blocks_ m) (dm_db m) b Hstore Hin Hgen Hlev) as (seen' & rs & Hseen & Hstore').
  assert (blk_of genesis (dm_db m) (db_hash b) = None) as Hnone.
  { unfold blk_of. by rewrite Hin, decide_False. }
  assert (forall h x, blk_of genesis (dm_db m) h = Some x -> blk_of genesis (saveDagBlock (dm_db m) b) h = Some x) as Hext.
  { intros h x Hx. unfold blk_of. rewrite storage_save, decide_False; [done|]. intros ->. congruence. }
  assert (blk_of genesis (saveDagBlock (dm_db m) b) (db_hash b) = Some b) as Hb.
  { unfold blk_of. by rewrite storage_save, decide_True. }
  pose proof (dag_ok_mono _ _ _ _ Hext Hdag) as Hdag1.
  destruct (addToDag_effect _ _ _ b Hdag1 Hb Hz) as (d' & Had & Hdag' & HNF & _).
  - intros E. rewrite <- E in Hanc. rewrite Hnone in Hanc. by destruct Hanc.
  - intros (l & X & Hl & HX). destruct (g_level _ _ _ Hdag _ _ _ Hl HX) as (x & Hx & _). congruence.
  - intros u Hu. assert (u ∈ parents b) as Hup by (unfold parents; destruct Hu as [[-> _]|Hu]; [by left|by right]).
    destruct (blk_of genesis (dm_db m) u) as [bu|] eqn:E.
    + exists bu. split; [by apply Hext|by apply (Hlow u)].
    + exfalso. assert (u ∈ filter (fun u => blk_of genesis (dm_db m) u = None) (parents b)) as Hf
        by (by rewrite list_elem_of_filter). rewrite Hmiss in Hf. by apply elem_of_nil in Hf.
  - destruct (getFrontier_effect _ _ _ Hdag' iter Hi) as (path & pv & tips & Hfr & _).
    { pose proof (tree_size_step _ _ _ _ _ _ (db_hash b) Hdag Hdag' ltac:(intros v; rewrite HNF; tauto)). lia. }
    unfold enter_dag. rewrite Hseen. simpl. rewrite Had. simpl. rewrite Hfr. simpl.
    eexists _, _. split; [done|]. split.
    + split; simpl; [done|done|]. destruct Hanc as [x Hx]. exists x. by apply Hext.
    + right. simpl. rewrite <- app_assoc. by split_and!.
Qed.
