(* ===== verification/DagReorder.v ===== *)
(** * Finalizing a period of the DAG

    [DagManager::setDagBlockOrder] rebuilds the graphs on top of the new anchor:
    the finalized blocks leave the DAG, the expired ones and their descendants
    are removed from the database, the rest is kept. *)

From S2P Require Import Prelude Votes Caches TransactionQueue Dag DagOrder DagGhost DagManager DagManagerInv.
From stdpp Require Import relations.
Local Open Scope Z_scope.
Local Open Scope outcome_scope.

(** ** The blocks by increasing level *)

Section levels.
Context (iter : gset blk_hash_t -> list blk_hash_t) (Hiter : iteration iter).
Context (rank : blk_hash_t -> Z).

Lemma bind_sorted (items : list (Z * gset blk_hash_t)) :
  StronglySorted key_le items ->
  (forall l X v, (l, X) ∈ items -> v ∈ X -> rank v = l) ->
  StronglySorted (fun u v => rank u <= rank v) (items ≫= fun e => iter e.2).
Proof using Hiter.
  induction 1 as [|[l X] items Hs IH Hall]; intros Hr; [constructor|].
  change (((l, X) :: items) ≫= fun e => iter e.2) with (iter X ++ (items ≫= fun e => iter e.2)).
  apply StronglySorted_app. split_and!.
  - intros u v Hu Hv. apply elem_of_iter in Hu; [|done].
    apply list_elem_of_bind in Hv as ([l' X'] & Hv & Hin). apply elem_of_iter in Hv; [|done].
    rewrite (Hr l X u) by (done || by left). rewrite (Hr l' X' v) by (done || by right).
    rewrite Forall_forall in Hall. apply (Hall _ Hin).
  - assert (forall u, u ∈ iter X -> rank u = l) as Hx
      by (intros u Hu; apply (Hr l X); [by left|by apply elem_of_iter in Hu]).
    induction (iter X) as [|u us IHu]; [constructor|]. constructor; [apply IHu; intros; apply Hx; by right|].
    apply Forall_forall. intros v Hv. rewrite (Hx u), (Hx v); [lia|by right|by left].
  - apply IH. intros l' X' v Hin. apply Hr. by right.
Qed.

Lemma bind_NoDup (items : list (Z * gset blk_hash_t)) :
  NoDup items.*1 ->
  (forall l X v, (l, X) ∈ items -> v ∈ X -> rank v = l) ->
  NoDup (items ≫= fun e => iter e.2).
Proof using Hiter.
  induction items as [|[l X] items IH]; intros Hnd Hr; [constructor|]. simpl in Hnd.
  apply NoDup_cons in Hnd as [Hl Hnd].
  change (((l, X) :: items) ≫= fun e => iter e.2) with (iter X ++ (items ≫= fun e => iter e.2)).
  apply NoDup_app. split_and!.
  - by apply NoDup_iter.
  - intros v Hv Hv'. apply elem_of_iter in Hv; [|done].
    apply list_elem_of_bind in Hv' as ([l' X'] & Hv' & Hin). apply elem_of_iter in Hv'; [|done].
    apply Hl, list_elem_of_fmap. exists (l', X'). split; [|done]. simpl.
    rewrite <- (Hr l X v), <- (Hr l' X' v); [done|by right|done|by left|done].
  - apply IH; [done|]. intros l' X' v Hin. apply Hr. by right.
Qed.
End levels.

(** ** Removing a block from the database *)

Lemma storage_remove db h h' :
  storage_getDagBlock (removeDagBlock db h) h' =
    if decide (h = h') then finalized_blocks db !! h' else storage_getDagBlock db h'.
Proof. unfold storage_getDagBlock, removeDagBlock. simpl. rewrite lookup_delete. by case_decide. Qed.

(** Storage after removals holds a part of the blocks it had. *)
Lemma storage_remove_sub db h h' b :
  (forall k x y, dag_blocks db !! k = Some x -> finalized_blocks db !! k = Some y -> x = y) ->
  storage_getDagBlock (removeDagBlock db h) h' = Some b -> storage_getDagBlock db h' = Some b.
Proof.
  intros Hc. rewrite storage_remove. case_decide as D; [|done]. intros Hf. unfold storage_getDagBlock.
  destruct (dag_blocks db !! h') as [x|] eqn:E; [|done]. by rewrite (Hc _ _ _ E Hf).
Qed.

(** A block that is finalized is the same in both columns. *)
Definition columns_ok (db : DagStorage) : Prop :=
  forall k x y, dag_blocks db !! k = Some x -> finalized_blocks db !! k = Some y -> x = y.

Lemma columns_remove db h : columns_ok db -> columns_ok (removeDagBlock db h).
Proof. intros Hc k x y. simpl. intros [_ Hx]%lookup_delete_Some. by apply Hc. Qed.

Lemma store_remove genesis seen db h :
  store_ok genesis seen db -> columns_ok db ->
  store_ok genesis (CacheMap.cm_erase seen h) (removeDagBlock db h).
Proof.
  intros [S1 S2 S3 S4 S5 S6] Hc. split.
  - intros k b. simpl. intros [Hne Hk]%lookup_delete_Some. rewrite storage_remove, decide_False by done. by apply S1.
  - intros k b Hk. apply S2. by eapply storage_remove_sub.
  - intros b Hk. apply S3. by eapply storage_remove_sub.
  - intros k b Hk. apply (S4 k). unfold blk_of in *.
    destruct (storage_getDagBlock (removeDagBlock db h) k) as [x|] eqn:E.
    + apply storage_remove_sub in E; [|done]. by rewrite E.
    + case_decide as D; [|done]. injection Hk as <-. subst k.
      destruct (storage_getDagBlock db (db_hash genesis)) as [y|] eqn:E'; [|done]. f_equal. by apply S3.
  - apply (CacheMap.remove_key_tracked seen); [done| |apply lookup_delete_eq].
    intros k Hne. by rewrite lookup_delete_ne.
  - done.
Qed.

(** The graphs only depend on the kept blocks and their parents. *)
Lemma dag_ok_shrink blk blk' anchor d :
  (forall v, NF d v -> blk' v = blk v) ->
  (forall v b u, NF d v -> blk v = Some b -> parent_of b u -> blk' u = blk u) ->
  dag_ok blk anchor d -> dag_ok blk' anchor d.
Proof.
  intros Hsame Hpar Hok. pose proof Hok as [G1 G2 G3 G4 G5 G6 G7 G8]. split; try done.
  - intros u v (Hv & Hu & b & Hb & Hp)%G3. rewrite <- (Hsame v Hv) in Hb. eauto 10.
  - intros u v (Hv & Hu & b & Hb & Hp & Hq)%G4. rewrite <- (Hsame v Hv) in Hb. eauto 10.
  - intros l X v Hl Hv. destruct (G5 l X v Hl Hv) as (b & Hb & ? & ?). exists b.
    rewrite Hsame; [done|]. by exists l, X.
  - intros v b u Hv Hb Hp. rewrite (Hsame v Hv) in Hb. rewrite (Hpar v b u Hv Hb Hp). by eapply G6.
Qed.

Lemma blk_of_sub genesis db h v b :
  columns_ok db -> (forall x, storage_getDagBlock db (db_hash genesis) = Some x -> x = genesis) ->
  blk_of genesis (removeDagBlock db h) v = Some b -> blk_of genesis db v = Some b.
Proof.
  intros Hc Hg. unfold blk_of. destruct (storage_getDagBlock (removeDagBlock db h) v) as [x|] eqn:E.
  - apply storage_remove_sub in E; [|done]. by rewrite E.
  - case_decide as D; [|done]. subst v. intros [= <-].
    destruct (storage_getDagBlock db (db_hash genesis)) as [y|] eqn:E'; [|done]. f_equal. by apply Hg.
Qed.

Lemma blk_of_other genesis db h v : h <> v -> blk_of genesis (removeDagBlock db h) v = blk_of genesis db v.
Proof. intros Hne. unfold blk_of. by rewrite storage_remove, decide_False. Qed.

(** ** Which blocks expire *)

(** A candidate expires by its level, or with one of its parents. *)
Inductive Expired (blk : blk_hash_t -> option DagBlock) (candidate : blk_hash_t -> Prop) (expiry : Z) :
    blk_hash_t -> Prop :=
| Expired_level v b : candidate v -> blk v = Some b -> db_level b < expiry -> Expired blk candidate expiry v
| Expired_parent v b u : candidate v -> blk v = Some b -> u ∈ parents b -> Expired blk candidate expiry u ->
    Expired blk candidate expiry v.

Lemma Expired_candidate blk candidate expiry v : Expired blk candidate expiry v -> candidate v.
Proof. by destruct 1. Qed.

Lemma validate_spec expiry b expired valid expired' :
  validateBlockNotExpired expiry b expired = (valid, expired') ->
  (valid = true /\ expired' = expired /\ expiry <= db_level b /\ forall u, u ∈ parents b -> (u ∉ expired)) \/
  (valid = false /\ expired' = {[db_hash b]} ∪ expired /\
   (db_level b < expiry \/ exists u, u ∈ parents b /\ u ∈ expired)).
Proof.
  unfold validateBlockNotExpired, parents.
  destruct (bool_decide (db_pivot b ∈ expired) || _ || _) eqn:E; intros [= <- <-].
  - right. split_and!; [done..|]. apply orb_true_iff in E as [E|E]; [right|left; by apply Z.ltb_lt].
    apply orb_true_iff in E as [E%bool_decide_eq_true|E]; [exists (db_pivot b); split; [by left|done]|].
    apply existsb_exists in E as (t & Ht%list_elem_of_In & Hx%bool_decide_eq_true). exists t. split; [by right|done].
  - left. apply orb_false_iff in E as [[E1%bool_decide_eq_false E2]%orb_false_iff E3%Z.ltb_ge].
    split_and!; [done..|]. intros u [->|Hu]%elem_of_cons; [done|]. intros Hx.
    assert (existsb (fun tip => bool_decide (tip ∈ expired)) (db_tips b) = true); [|congruence].
    apply existsb_exists. exists u. split; [by apply list_elem_of_In|by apply bool_decide_eq_true].
Qed.

(** ** The loop over the old non-finalized blocks *)

Section rebuild.
#[local] Set Default Proof Using "All".
Context (genesis : DagBlock) (db0 : DagStorage) (order : gset blk_hash_t) (new_anchor : blk_hash_t) (expiry : Z).
Context (all : list blk_hash_t).
#[local] Abbreviation blk0 := (blk_of genesis db0).
#[local] Abbreviation candidate := (fun v => v ∈ all /\ (v ∉ order)).
#[local] Abbreviation gone := (Expired blk0 candidate expiry).
Context (Hsorted : StronglySorted (fun u v => level_of blk0 u <= level_of blk0 v) all) (Hnodup : NoDup all).
Context (Hblk : forall v, v ∈ all -> exists b, blk0 v = Some b /\ db_hash b = v /\ v <> 0).
Context (Hpar : forall v b u, v ∈ all -> blk0 v = Some b -> parent_of b u ->
  exists bu, blk0 u = Some bu /\ db_level bu < db_level b).
Context (Hanchor : new_anchor ∈ order).

Record rebuild_inv (done : list blk_hash_t) (r : Rebuild) : Prop := {
  rb_same : forall v, (v ∉ rb_expired r) -> blk_of genesis (rb_db r) v = blk0 v;
  rb_exp : forall v, v ∈ rb_expired r <-> v ∈ done /\ (v ∉ order) /\ gone v;
  rb_nf : forall v, NF (rb_dag r) v <-> v ∈ done /\ (v ∉ order) /\ ~ gone v;
  rb_ok : dag_ok (blk_of genesis (rb_db r)) new_anchor (rb_dag r);
  rb_store : store_ok genesis (rb_seen r) (rb_db r);
  rb_columns : columns_ok (rb_db r);
  rb_trxs : forall t, t ∈ rb_expired_trxs r <-> exists v b, v ∈ rb_expired r /\ blk0 v = Some b /\ t ∈ db_trxs b;
}.

(** A parent of [x] that is in the list comes before it. *)
Lemma parent_before l1 x l2 b u :
  all = l1 ++ x :: l2 -> blk0 x = Some b -> parent_of b u -> u ∈ all -> u ∈ l1.
Proof.
  intros Hall Hb Hp Hu. destruct (Hpar x b u) as (bu & Hbu & Hlt); [rewrite Hall; set_solver|done|done|].
  assert (level_of blk0 u < level_of blk0 x) as Hl by (unfold level_of; rewrite Hb, Hbu; done).
  rewrite Hall in Hu, Hsorted. apply StronglySorted_app in Hsorted as (_ & _ & Hs).
  apply elem_of_app in Hu as [Hu|[->|Hu]%elem_of_cons]; [done|lia|].
  apply StronglySorted_inv in Hs as [_ Hs]. rewrite Forall_forall in Hs. specialize (Hs u Hu). lia.
Qed.

Lemma later_level l1 x l2 v : all = l1 ++ x :: l2 -> v ∈ l1 -> level_of blk0 v <= level_of blk0 x.
Proof.
  intros Hall Hv. rewrite Hall in Hsorted. apply StronglySorted_app in Hsorted as (Hs & _ & _).
  apply Hs; [done|by left].
Qed.

Lemma parents_parent_of b u : parent_of b u <-> u ∈ parents b /\ (u = db_pivot b -> u ∈ db_tips b \/ u <> 0).
Proof. unfold parent_of, is_parent, parents. rewrite elem_of_cons. destruct (decide (u = 0)); naive_solver. Qed.

(** What the loop decides of [x] is what [Expired] says. *)
Lemma gone_step l1 x l2 b (expired : gset blk_hash_t) :
  all = l1 ++ x :: l2 -> x ∉ order -> blk0 x = Some b ->
  (forall v, v ∈ expired <-> v ∈ l1 /\ (v ∉ order) /\ gone v) ->
  (gone x <-> db_level b < expiry \/ exists u, u ∈ parents b /\ u ∈ expired).
Proof.
  intros Hall Ho Hb Hexp. assert (x ∈ all) as Hx by (rewrite Hall; set_solver). split.
  - intros Hg. inversion Hg as [v b' _ Hb' Hl|v b' u _ Hb' Hu Hgu]; subst v; assert (b' = b) as -> by congruence;
      [by left|right]. exists u. split; [done|]. apply Hexp. destruct (Expired_candidate _ _ _ _ Hgu) as [Hin Hno].
    split_and!; [|done|done]. eapply parent_before; [done|done| |done]. apply parents_parent_of. split; [done|].
    intros _. right. by destruct (Hblk u Hin) as (_ & _ & _ & ?).
  - intros [Hl|(u & Hu & Hin)]; [by apply (Expired_level _ _ _ x b)|].
    apply (Expired_parent _ _ _ x b u); [done|done|done|]. by apply Hexp.
Qed.

Lemma done_step (l1 : list blk_hash_t) x (v : blk_hash_t) : v ∈ l1 ++ [x] <-> v ∈ l1 \/ v = x.
Proof. by rewrite elem_of_app, list_elem_of_singleton. Qed.

(** A block of the order is skipped. *)
Lemma skip_step l1 x r : x ∈ order -> rebuild_inv l1 r -> rebuild_inv (l1 ++ [x]) r.
Proof.
  intros Ho [R1 R2 R3 R4 R5 R6 R7]. split; try done; intros v; rewrite done_step.
  - rewrite R2. naive_solver.
  - rewrite R3. naive_solver.
Qed.

(** A block that is not expired is kept. *)
Lemma keep_step l1 x l2 b r :
  all = l1 ++ x :: l2 -> x ∉ order -> blk0 x = Some b -> rebuild_inv l1 r -> ~ gone x ->
  exists d, addToDag (rb_dag r) x (db_pivot b) (db_tips b) (db_level b) false = Done d /\
    forall difficulty, rebuild_inv (l1 ++ [x])
      (mkRebuild d difficulty (rb_expired r) (rb_expired_trxs r) (rb_seen r) (rb_db r)).
Proof.
  intros Hall Ho Hb [R1 R2 R3 R4 R5 R6 R7] Hg.
  assert (x ∈ all) as Hx by (rewrite Hall; set_solver).
  assert (x ∉ l1) as Hxl by (rewrite Hall in Hnodup; apply NoDup_app in Hnodup as (_ & Hd & _); intros ?; by apply (Hd x), elem_of_cons; [|left]).
  destruct (Hblk x Hx) as (b' & Hb' & Hh & Hz). assert (b' = b) as -> by congruence.
  destruct (addToDag_effect (blk_of genesis (rb_db r)) new_anchor (rb_dag r) b) as (d & Had & Hok & HNF & _).
  - done.
  - rewrite Hh, R1; [done|]. rewrite R2. naive_solver.
  - by rewrite Hh.
  - rewrite Hh. intros ->. done.
  - rewrite Hh, R3. naive_solver.
  - intros u Hu. rewrite R1.
    + by apply (Hpar x).
    + rewrite R2. intros (Hin & Hno & Hgu). apply Hg, (Expired_parent _ _ _ x b u); [done|done| |done].
      by apply parents_parent_of in Hu as [? _].
  - rewrite Hh in Had, HNF. exists d. split; [done|]. intros difficulty. split; simpl; try done.
    + intros v. rewrite R2, done_step. naive_solver.
    + intros v. rewrite HNF, R3, done_step. naive_solver.
Qed.

(** An expired block leaves the database and the cache. *)
Lemma drop_step l1 x l2 b r difficulty :
  all = l1 ++ x :: l2 -> x ∉ order -> blk0 x = Some b -> rebuild_inv l1 r -> gone x ->
  rebuild_inv (l1 ++ [x]) (mkRebuild (rb_dag r) difficulty ({[x]} ∪ rb_expired r)
    (rb_expired_trxs r ++ db_trxs b) (CacheMap.cm_erase (rb_seen r) x) (removeDagBlock (rb_db r) x)).
Proof.
  intros Hall Ho Hb [R1 R2 R3 R4 R5 R6 R7] Hg.
  assert (x ∉ l1) as Hxl by (rewrite Hall in Hnodup; apply NoDup_app in Hnodup as (_ & Hd & _); intros ?; by apply (Hd x), elem_of_cons; [|left]).
  split; simpl.
  - intros v Hv. rewrite blk_of_other by set_solver. apply R1. set_solver.
  - intros v. rewrite elem_of_union, elem_of_singleton, R2, done_step. naive_solver.
  - intros v. rewrite R3, done_step. naive_solver.
  - apply (dag_ok_shrink (blk_of genesis (rb_db r))); [| |done].
    + intros v Hv%R3. apply blk_of_other. naive_solver.
    + intros v bv u Hv Hbv Hp. apply blk_of_other. intros <-.
      destruct (g_parents _ _ _ R4 v bv x Hv Hbv Hp) as (bx & Hbx & Hlt).
      apply R3 in Hv as (Hvl & Hvo & Hvg). rewrite R1 in Hbv, Hbx by (rewrite R2; naive_solver).
      pose proof (later_level l1 x l2 v Hall Hvl) as Hle. unfold level_of in Hle. rewrite Hbv, Hbx in Hle. lia.
  - by apply store_remove.
  - by apply columns_remove.
  - intros t. rewrite elem_of_app, R7. setoid_rewrite elem_of_union. setoid_rewrite elem_of_singleton. split.
    + intros [(v & bv & ? & ? & ?)|Ht]; [exists v, bv; naive_solver|exists x, b; naive_solver].
    + intros (v & bv & [->|Hv] & Hbv & Ht); [right; congruence|left; by exists v, bv].
Qed.

Lemma rebuild_step l1 x l2 r :
  all = l1 ++ x :: l2 -> rebuild_inv l1 r ->
  exists r', rebuild_block genesis expiry order r x = Done r' /\ rebuild_inv (l1 ++ [x]) r'.
Proof.
  intros Hall Hr. unfold rebuild_block. case_decide as Ho; [exists r; split; [done|by apply skip_step]|].
  assert (x ∈ all) as Hx by (rewrite Hall; set_solver).
  destruct (Hblk x Hx) as (b & Hb & Hh & Hz).
  assert (rb_getDagBlock genesis r x = Some b) as ->.
  { unfold rb_getDagBlock. rewrite (lookup_blk genesis (rb_seen r) (rb_db r) x (rb_store _ _ Hr)).
    rewrite (rb_same _ _ Hr); [done|]. rewrite (rb_exp _ _ Hr). intros (Hin & _).
    rewrite Hall in Hnodup. apply NoDup_app in Hnodup as (_ & Hd & _). apply (Hd x); [done|by left]. }
  pose proof (gone_step l1 x l2 b (rb_expired r) Hall Ho Hb (rb_exp _ _ Hr)) as Hgone.
  destruct (validateBlockNotExpired expiry b (rb_expired r)) as [valid expired] eqn:Hv.
  apply validate_spec in Hv as [(-> & -> & Hlev & Hu)|(-> & -> & Hwhy)].
  - destruct (keep_step l1 x l2 b r Hall Ho Hb Hr) as (d & -> & Hinv).
    + rewrite Hgone. intros [?|(u & ? & ?)]; [lia|by apply (Hu u)].
    + simpl. eexists. split; [done|apply Hinv].
  - eexists. split; [done|]. rewrite Hh. apply (drop_step l1 x l2); [done|done|done|done|by apply Hgone].
Qed.

Lemma ofold_prefix {A} (f : A -> blk_hash_t -> outcome A) (I : list blk_hash_t -> A -> Prop) l1 l a :
  (forall l1 x l2 a, all = l1 ++ x :: l2 -> I l1 a -> exists a', f a x = Done a' /\ I (l1 ++ [x]) a') ->
  all = l1 ++ l -> I l1 a -> exists a', ofold f l a = Done a' /\ I all a'.
Proof.
  intros Hstep. revert l1 a. induction l as [|x l IH]; intros l1 a Hall Ha.
  - rewrite app_nil_r in Hall. exists a. by rewrite Hall.
  - destruct (Hstep l1 x l a Hall Ha) as (a1 & Hf & Ha1). simpl. rewrite Hf. simpl.
    apply (IH (l1 ++ [x])); [by rewrite <- app_assoc|done].
Qed.

Lemma rebuild_effect r :
  rebuild_inv [] r -> exists r', ofold (rebuild_block genesis expiry order) all r = Done r' /\ rebuild_inv all r'.
Proof. apply (ofold_prefix _ rebuild_inv [] all); [|done]. intros. by eapply rebuild_step. Qed.
End rebuild.

(** ** The graph of the new anchor alone *)

Lemma anchor_dag blk anchor :
  anchor <> 0 ->
  exists d, addToDag (mkDagState ∅ ∅ ∅) anchor kNullBlockHash [] 0 true = Done d /\ dag_ok blk anchor d /\
    forall v, ~ NF d v.
Proof.
  intros Hz. unfold addToDag. simpl.
  assert (~ is_parent kNullBlockHash [] anchor) as Hp by (intros [[_ ?]|?%elem_of_nil]; done).
  destruct (addVEEs_spec ∅ anchor kNullBlockHash []) as (g & r & -> & Hd & He); [done|apply lookup_empty|done|].
  simpl. eexists. split; [done|].
  assert (forall v, ~ non_finalized ∅ v) as Hnf by (intros v (l & X & Hl & _); by rewrite lookup_empty in Hl).
  assert (forall u v, ~ edge g u v) as Hne.
  { intros u v. rewrite He. intros [(out & Ho & _)|(_ & [[_ ?]|?%elem_of_nil] & _)]; [by rewrite lookup_empty in Ho|done|done]. }
  split; [|done]. split; simpl.
  - intros v. rewrite Hd, dom_empty_L. split; [set_solver|]. intros [->|Hv]; [set_solver|by destruct (Hnf v)].
  - intros v. rewrite Hd, dom_empty_L. split; [set_solver|]. intros [->|Hv]; [set_solver|by destruct (Hnf v)].
  - intros u v He'. by destruct (Hne u v).
  - intros u v He'. by destruct (Hne u v).
  - intros l X v Hl. by rewrite lookup_empty in Hl.
  - intros v b u Hv. by destruct (Hnf v).
  - apply Hnf.
  - intros v Hv. by destruct (Hnf v).
Qed.

(** ** The old non-finalized blocks, by level *)

Lemma nf_list_facts iter genesis m :
  iteration iter -> dm_inv genesis m ->
  let all := non_finalized_list iter (non_finalized_blks_ (dag m)) in
  let blk := blk_of genesis (dm_db m) in
  (forall v, v ∈ all <-> NF (dag m) v) /\
  StronglySorted (fun u v => level_of blk u <= level_of blk v) all /\ NoDup all /\
  (forall v, v ∈ all -> exists b, blk v = Some b /\ db_hash b = v /\ v <> 0) /\
  (forall v b u, v ∈ all -> blk v = Some b -> parent_of b u -> exists bu, blk u = Some bu /\ db_level bu < db_level b).
Proof.
  intros Hi [Hdag Hstore _] all blk.
  assert (forall v, v ∈ all <-> NF (dag m) v) as Hin by (intros v; by apply elem_of_non_finalized).
  assert (forall l X v, (l, X) ∈ map_items (non_finalized_blks_ (dag m)) -> v ∈ X -> level_of blk v = l) as Hlev.
  { intros l X v Hl%elem_of_map_items Hv. destruct (g_level _ _ _ Hdag l X v Hl Hv) as (b & Hb & Hlb & _).
    unfold level_of, blk. by rewrite Hb. }
  split_and!; [done| | | |].
  - apply bind_sorted; [done|apply map_items_sorted|done].
  - apply (bind_NoDup iter Hi (level_of blk)); [apply map_items_NoDup|done].
  - intros v Hv%Hin. pose proof Hv as (l & X & Hl & Hx). destruct (g_level _ _ _ Hdag l X v Hl Hx) as (b & Hb & _ & Hh).
    exists b. split_and!; [done|done|]. by apply (g_nonzero _ _ _ Hdag).
  - intros v b u Hv%Hin. by apply (g_parents _ _ _ Hdag).
Qed.

(** ** Counters *)

Lemma blocks_to_count_effect genesis m nf order :
  dm_inv genesis m -> (forall v, v ∈ order -> is_Some (blk_of genesis (dm_db m) v)) ->
  exists bs, blocks_to_count genesis m nf order = Done bs.
Proof.
  intros Hinv. induction order as [|v order IH]; intros Hall; [by exists []|]. simpl.
  destruct IH as [bs Hbs]; [intros u Hu; apply Hall; by right|].
  case_decide; [by exists bs|]. rewrite getDagBlock_effect by done.
  destruct (Hall v ltac:(by left)) as [b ->]. rewrite Hbs. simpl. by exists (b :: bs).
Qed.

Lemma updateCounters_columns db bs :
  dag_blocks (updateDagBlockCounters db bs) = dag_blocks db /\
  finalized_blocks (updateDagBlockCounters db bs) = finalized_blocks db.
Proof. unfold updateDagBlockCounters. by destruct (foldl _ _ bs) as [[??]?]. Qed.

Lemma same_columns genesis seen db db' :
  dag_blocks db' = dag_blocks db -> finalized_blocks db' = finalized_blocks db ->
  (forall v, blk_of genesis db' v = blk_of genesis db v) /\
  (store_ok genesis seen db -> store_ok genesis seen db') /\ (columns_ok db -> columns_ok db').
Proof.
  intros Hd Hf. assert (forall v, storage_getDagBlock db' v = storage_getDagBlock db v) as Hs
    by (intros v; unfold storage_getDagBlock; by rewrite Hd, Hf).
  assert (forall v, blk_of genesis db' v = blk_of genesis db v) as Hb by (intros v; unfold blk_of; by rewrite Hs).
  split_and!; [done| |unfold columns_ok; by rewrite Hd, Hf].
  intros [S1 S2 S3 S4 S5 S6]. split; [| | | |done|done].
  - intros h b. rewrite Hs. apply S1.
  - intros h b. rewrite Hs. apply S2.
  - intros b. rewrite Hs. apply S3.
  - intros h b. rewrite Hb. apply S4.
Qed.

(** ** The transactions of expired blocks *)

Lemma erase_included (look : blk_hash_t -> option DagBlock) l (X : gset trx_hash_t) :
  (forall v, v ∈ l -> is_Some (look v)) ->
  exists X', ofold (fun to_remove blk =>
      match look blk with
      | None => Undefined
      | Some dag_block => Done (to_remove ∖ list_to_set (db_trxs dag_block))
      end) l X = Done X' /\
    forall t, t ∈ X' <-> t ∈ X /\ ~ exists v b, v ∈ l /\ look v = Some b /\ t ∈ db_trxs b.
Proof.
  revert X. induction l as [|v l IH]; intros X Hall; simpl.
  - exists X. split; [done|]. intros t. split; [|naive_solver]. intros Ht. split; [done|].
    intros (v & b & Hv & _). by apply elem_of_nil in Hv.
  - destruct (Hall v ltac:(by left)) as [b Hb]. rewrite Hb. simpl.
    destruct (IH (X ∖ list_to_set (db_trxs b))) as (X' & HX' & Hspec); [intros u Hu; apply Hall; by right|].
    exists X'. split; [done|]. intros t. rewrite Hspec, elem_of_difference, elem_of_list_to_set.
    setoid_rewrite elem_of_cons. split.
    + intros [[Ht Hnb] Hno]. split; [done|]. intros (u & bu & [->|Hu] & Hbu & Htu); [by simplify_eq|].
      apply Hno. by exists u, bu.
    + intros [Ht Hno]. split; [split; [done|]|]; [intros Htb; apply Hno; exists v, b; by split; [left|]|].
      intros (u & bu & Hu & Hbu & Htu). apply Hno. exists u, bu. by split; [right|].
Qed.

(** The transactions that leave the pool of non-finalized transactions. *)
Definition orphaned (blk : blk_hash_t -> option DagBlock) (kept gone : blk_hash_t -> Prop)
    (transaction_finalized : trx_hash_t -> bool) (t : trx_hash_t) : Prop :=
  (exists v b, gone v /\ blk v = Some b /\ t ∈ db_trxs b) /\ transaction_finalized t = false /\
  ~ exists v b, kept v /\ blk v = Some b /\ t ∈ db_trxs b.

Lemma handleExpired_effect iter genesis r tf :
  iteration iter -> store_ok genesis (rb_seen r) (rb_db r) ->
  (forall v, NF (rb_dag r) v -> is_Some (blk_of genesis (rb_db r) v)) ->
  exists X, handleExpiredDagBlocksTransactions iter genesis r tf =
      Done (if decide (X = ∅) then [] else [RemoveNonFinalizedTransactions X]) /\
    forall t, t ∈ X <-> t ∈ rb_expired_trxs r /\ tf t = false /\
      ~ exists v b, NF (rb_dag r) v /\ blk_of genesis (rb_db r) v = Some b /\ t ∈ db_trxs b.
Proof.
  intros Hi Hs Hall. unfold handleExpiredDagBlocksTransactions.
  assert (forall v, rb_getDagBlock genesis r v = blk_of genesis (rb_db r) v) as Hlook
    by (intros v; unfold rb_getDagBlock; by apply lookup_blk).
  destruct (erase_included (rb_getDagBlock genesis r) (non_finalized_list iter (non_finalized_blks_ (rb_dag r)))
    (list_to_set (filter (fun t => tf t = false) (rb_expired_trxs r)))) as (X & -> & HX).
  { intros v Hv%elem_of_non_finalized; [|done]. rewrite Hlook. by apply Hall. }
  exists X. split; [done|]. intros t. rewrite HX, elem_of_list_to_set, list_elem_of_filter.
  setoid_rewrite Hlook. setoid_rewrite (elem_of_non_finalized iter); [|done]. unfold NF. naive_solver.
Qed.

Lemma expired_calls iter genesis r tf :
  iteration iter -> store_ok genesis (rb_seen r) (rb_db r) ->
  (forall v, NF (rb_dag r) v -> is_Some (blk_of genesis (rb_db r) v)) ->
  exists X : gset trx_hash_t, match rb_expired_trxs r with [] => Done []
      | _ => handleExpiredDagBlocksTransactions iter genesis r tf end =
      Done (if decide (X = ∅) then [] else [RemoveNonFinalizedTransactions X]) /\
    forall t, t ∈ X <-> t ∈ rb_expired_trxs r /\ tf t = false /\
      ~ exists v b, NF (rb_dag r) v /\ blk_of genesis (rb_db r) v = Some b /\ t ∈ db_trxs b.
Proof.
  intros Hi Hs Hall. destruct (rb_expired_trxs r) as [|t0 ts] eqn:Et.
  - exists ∅. rewrite decide_True by done. split; [done|]. set_solver.
  - rewrite <- Et. by apply handleExpired_effect.
Qed.

(** ** The whole operation *)

Record finalizes (genesis : DagBlock) (limit : Z) (m m' : DagManager)
    (new_anchor : blk_hash_t) (dag_order : list blk_hash_t) (tf : trx_hash_t -> bool) : Prop := {
  f_anchor : anchor_ m' = new_anchor /\ old_anchor_ m' = anchor_ m /\ period_ m' = u64 (period_ m + 1);
  f_expiry : exists b, blk_of genesis (dm_db m) new_anchor = Some b /\
    dag_expiry_level_ m' = (if decide (limit < db_level b) then db_level b - limit else dag_expiry_level_ m);
  f_nf : forall v, NF (dag m') v <-> NF (dag m) v /\ (v ∉ dag_order) /\
    ~ Expired (blk_of genesis (dm_db m)) (fun v => NF (dag m) v /\ (v ∉ dag_order)) (dag_expiry_level_ m') v;
  f_db : forall v,
    ~ Expired (blk_of genesis (dm_db m)) (fun v => NF (dag m) v /\ (v ∉ dag_order)) (dag_expiry_level_ m') v ->
    blk_of genesis (dm_db m') v = blk_of genesis (dm_db m) v;
  f_calls : exists X : gset trx_hash_t,
    dm_calls m' = dm_calls m ++ (if decide (X = ∅) then [] else [RemoveNonFinalizedTransactions X]) /\
    forall t, t ∈ X <-> orphaned (blk_of genesis (dm_db m)) (NF (dag m'))
      (Expired (blk_of genesis (dm_db m)) (fun v => NF (dag m) v /\ (v ∉ dag_order)) (dag_expiry_level_ m')) tf t;
  f_frontier : exists path pivot tips, frontier_ m' = (pivot, tips) /\
    ghost_path (pivot_tree_ (dag m')) (descendants (pivot_tree_ (dag m'))) new_anchor path /\
    last path = Some pivot /\ forall t, t ∈ tips <-> t <> pivot /\ total_dag_ (dag m') !! t = Some ∅;
}.

Lemma Expired_ext blk (P Q : blk_hash_t -> Prop) expiry v :
  (forall v, P v <-> Q v) -> Expired blk P expiry v <-> Expired blk Q expiry v.
Proof.
  intros Heq. split; induction 1 as [v b Hc Hb Hl|v b u Hc Hb Hu _ IH];
    try (by apply (Expired_level _ _ _ v b); [apply Heq| |]); by apply (Expired_parent _ _ _ v b u); [apply Heq|..].
Qed.

Lemma finalized_tree_size blk blk' anchor anchor' d d' :
  dag_ok blk anchor d -> dag_ok blk' anchor' d' -> (forall v, NF d' v -> NF d v) ->
  (size (pivot_tree_ d') <= S (size (pivot_tree_ d)))%nat.
Proof.
  intros Hok Hok' HNF. rewrite <- !(size_dom (pivot_tree_ _)).
  transitivity (size ({[anchor']} ∪ dom (pivot_tree_ d))).
  - apply subseteq_size. intros v.
    rewrite (g_tree_dom _ _ _ Hok'), elem_of_union, elem_of_singleton, (g_tree_dom _ _ _ Hok). naive_solver.
  - rewrite size_union_alt, size_singleton.
    pose proof (subseteq_size (dom (pivot_tree_ d) ∖ {[anchor']}) (dom (pivot_tree_ d)) ltac:(set_solver)). lia.
Qed.

Section set_order.
Context (iter : gset blk_hash_t -> list blk_hash_t) (genesis : DagBlock) (limit : Z) (m : DagManager).
Context (new_anchor : blk_hash_t) (dag_order : list blk_hash_t) (tf : trx_hash_t -> bool).
Context (Hi : iteration iter) (Hinv : dm_inv genesis m) (Hcols : columns_ok (dm_db m)).
Context (Hsz : Z.of_nat (size (pivot_tree_ (dag m))) < 2 ^ 31 - 1) (Hlim : 0 <= limit).
Context (Hanc : new_anchor ∈ dag_order) (Hz : new_anchor <> 0).
Context (Havail : forall v, v ∈ dag_order -> is_Some (blk_of genesis (dm_db m) v)).

Lemma rebuilt db d expiry :
  dag_blocks db = dag_blocks (dm_db m) -> finalized_blocks db = finalized_blocks (dm_db m) ->
  dag_ok (blk_of genesis db) new_anchor d -> (forall v, ~ NF d v) ->
  exists r, ofold (rebuild_block genesis expiry (list_to_set dag_order))
      (non_finalized_list iter (non_finalized_blks_ (dag m)))
      (mkRebuild d (2 ^ 32 - 1) ∅ [] (seen_blocks_ m) db) = Done r /\
    rebuild_inv genesis (dm_db m) (list_to_set dag_order) new_anchor expiry
      (non_finalized_list iter (non_finalized_blks_ (dag m)))
      (non_finalized_list iter (non_finalized_blks_ (dag m))) r.
Proof using All.
  intros Hd Hf Hok Hnone. destruct (nf_list_facts iter genesis m Hi Hinv) as (Hin & Hs & Hnd & Hb & Hp).
  destruct (same_columns genesis (seen_blocks_ m) (dm_db m) db Hd Hf) as (Hsame & Hst & Hco).
  apply rebuild_effect; try done; [set_solver|]. split; simpl.
  - intros v _. apply Hsame.
  - intros v. set_solver.
  - intros v. split; [intros Hv; by destruct (Hnone v)|]. intros [Hv%elem_of_nil _]. done.
  - done.
  - apply Hst, (m_store _ _ Hinv).
  - by apply Hco.
  - intros t. split; [by intros ?%elem_of_nil|]. set_solver.
Qed.

Lemma setDagBlockOrder_effect :
  exists m', setDagBlockOrder iter genesis limit m new_anchor (u64 (period_ m + 1)) dag_order tf =
      Done (m', u32 (Z.of_nat (size (list_to_set dag_order : gset blk_hash_t)))) /\
    dm_inv genesis m' /\ columns_ok (dm_db m') /\ finalizes genesis limit m m' new_anchor dag_order tf.
Proof using All.
  unfold setDagBlockOrder. rewrite Z.eqb_refl. simpl. destruct (Z.eqb_spec new_anchor kNullBlockHash) as [|_]; [done|].
  destruct (blocks_to_count_effect genesis m
    (list_to_set (non_finalized_list iter (non_finalized_blks_ (dag m)))) dag_order Hinv Havail) as [bs ->]. simpl.
  rewrite bool_decide_true by (by apply elem_of_list_to_set). simpl.
  set (db := match bs with [] => dm_db m | _ => updateDagBlockCounters (dm_db m) bs end).
  assert (dag_blocks db = dag_blocks (dm_db m) /\ finalized_blocks db = finalized_blocks (dm_db m)) as [Hd Hf].
  { subst db. destruct bs; [done|apply updateCounters_columns]. }
  destruct (anchor_dag (blk_of genesis db) new_anchor Hz) as (d & -> & Hok & Hnone). simpl.
  rewrite getDagBlock_effect by done. destruct (Havail new_anchor Hanc) as [ab Hab]. rewrite Hab.
  set (expiry := if limit <? db_level ab then u64 (db_level ab - limit) else dag_expiry_level_ m).
  destruct (rebuilt db d expiry Hd Hf Hok Hnone) as (r & -> & [R1 R2 R3 R4 R5 R6 R7]). simpl.
  set (all := non_finalized_list iter (non_finalized_blks_ (dag m))) in *.
  assert (forall v, v ∈ all <-> NF (dag m) v) as Hall by (intros v; by apply elem_of_non_finalized).
  assert (forall v, Expired (blk_of genesis (dm_db m)) (fun v => v ∈ all /\ v ∉ (list_to_set dag_order : gset blk_hash_t)) expiry v
    <-> Expired (blk_of genesis (dm_db m)) (fun v => NF (dag m) v /\ (v ∉ dag_order)) expiry v) as Hexp.
  { intros v. apply Expired_ext. intros u. by rewrite Hall, elem_of_list_to_set. }
  assert (forall v, NF (rb_dag r) v -> blk_of genesis (rb_db r) v = blk_of genesis (dm_db m) v) as Hkept.
  { intros v (_ & _ & Hv)%R3. apply R1. rewrite R2. naive_solver. }
  destruct (getFrontier_effect _ _ _ R4 iter Hi) as (path & pivot & tips & Hfr & Hfs).
  { assert (size (pivot_tree_ (rb_dag r)) <= S (size (pivot_tree_ (dag m))))%nat; [|lia].
    apply (finalized_tree_size _ _ _ _ _ _ (m_dag _ _ Hinv) R4). intros v (Hv%Hall & _)%R3. done. }
  rewrite Hfr.
  destruct (expired_calls iter genesis r tf Hi R5) as (X & -> & HX).
  { intros v (l & Y & Hl & Hv). destruct (g_level _ _ _ R4 l Y v Hl Hv) as (b & -> & _). by eexists. }
  simpl. eexists. split; [done|]. split_and!.
  - split; simpl; [done|done|]. rewrite R1; [by rewrite Hab|]. rewrite R2. set_solver.
  - done.
  - split; simpl.
    + done.
    + exists ab. split; [done|]. unfold expiry. destruct (Z.ltb_spec limit (db_level ab)); [|by rewrite decide_False by lia].
      rewrite decide_True by done. apply wrap_id. pose proof (s_level _ _ _ (m_store _ _ Hinv) _ _ Hab).
      unfold in_range, modulus. lia.
    + intros v. rewrite R3, Hall, Hexp, elem_of_list_to_set. done.
    + intros v Hv. apply R1. rewrite R2, Hexp. naive_solver.
    + exists X. split; [done|]. intros t. rewrite HX, R7. unfold orphaned. setoid_rewrite R2. setoid_rewrite Hexp.
      assert (forall v, Expired (blk_of genesis (dm_db m)) (fun v => NF (dag m) v /\ (v ∉ dag_order)) expiry v ->
        v ∈ all /\ v ∉ (list_to_set dag_order : gset blk_hash_t)) as Hc.
      { intros v [Hn Ho]%Expired_candidate. by rewrite Hall, elem_of_list_to_set. }
      split.
      * intros ((v & b & (_ & _ & Hv) & Hb & Ht) & Htf & Hno). split_and!; [by exists v, b|done|].
        intros (u & bu & Hu & Hbu & Htu). apply Hno. exists u, bu. by rewrite Hkept.
      * intros ((v & b & Hv & Hb & Ht) & Htf & Hno). split_and!; [exists v, b; naive_solver|done|].
        intros (u & bu & Hu & Hbu & Htu). apply Hno. exists u, bu. by rewrite <- Hkept.
    + by exists path, pivot, tips.
Qed.
End set_order.
