(* ===== verification/DagPeriods.v ===== *)
(** * The DAG manager over time

    The periods of the DAG as a step relation (blocks are added, the order of a
    period is computed, its blocks are moved to the finalized columns, the order
    is set), the theorems on every reachable state, the counters of the level
    index and the verification of a block. *)

From S2P Require Import Prelude Votes Caches TransactionQueue Dag DagOrder DagGhost DagManager DagManagerInv DagReorder.
From stdpp Require Import relations.
Local Open Scope Z_scope.
Local Open Scope outcome_scope.

(** ** Moving the blocks of a period *)

(** The block data of a period agree with what is already stored. *)
Definition period_blocks_ok (genesis : DagBlock) (db : DagStorage) (blks : list DagBlock) : Prop :=
  NoDup (db_hash <$> blks) /\
  forall b, b ∈ blks -> block_ok genesis b /\ forall x, storage_getDagBlock db (db_hash b) = Some x -> x = b.

Lemma storage_finalize db b h :
  storage_getDagBlock (finalize_dag_block db b) h = if decide (db_hash b = h) then Some b else storage_getDagBlock db h.
Proof.
  unfold storage_getDagBlock, finalize_dag_block. simpl. rewrite lookup_delete, lookup_insert. by case_decide.
Qed.

Lemma finalize_block genesis seen db b :
  store_ok genesis seen db -> columns_ok db -> block_ok genesis b ->
  (forall x, storage_getDagBlock db (db_hash b) = Some x -> x = b) ->
  let db' := finalize_dag_block db b in
  store_ok genesis seen db' /\ columns_ok db' /\
  (forall h x, blk_of genesis db h = Some x -> blk_of genesis db' h = Some x) /\
  blk_of genesis db' (db_hash b) = Some b.
Proof.
  intros [S1 S2 S3 S4 S5 S6] Hc (Hz & Hg & Hl) Hsame db'.
  assert (forall h x, storage_getDagBlock db h = Some x -> storage_getDagBlock db' h = Some x) as Hext.
  { intros h x Hx. unfold db'. rewrite storage_finalize. case_decide as D; [|done]. subst h. f_equal. symmetry. by apply Hsame. }
  split_and!; [split| | |]; try done.
  - intros h x Hx. by apply Hext, S1.
  - intros h x. unfold db'. rewrite storage_finalize. case_decide; [by intros [= <-]|apply S2].
  - intros x. unfold db'. rewrite storage_finalize, decide_False by done. apply S3.
  - intros h x. unfold blk_of, db'. rewrite storage_finalize. case_decide; [by intros [= <-]|]. apply (S4 h).
  - intros k x y. simpl. rewrite lookup_delete, lookup_insert. case_decide; [done|]. apply Hc.
  - intros h x. unfold blk_of. destruct (storage_getDagBlock db h) as [y|] eqn:E; [by rewrite (Hext _ _ E)|].
    case_decide as D; [|done]. subst h. unfold db'. by rewrite storage_finalize, decide_False, E by done.
  - unfold blk_of, db'. by rewrite storage_finalize, decide_True.
Qed.

Lemma savePeriodData_effect genesis seen db blks :
  store_ok genesis seen db -> columns_ok db -> period_blocks_ok genesis db blks ->
  let db' := savePeriodData db blks in
  store_ok genesis seen db' /\ columns_ok db' /\
  (forall h x, blk_of genesis db h = Some x -> blk_of genesis db' h = Some x) /\
  forall b, b ∈ blks -> blk_of genesis db' (db_hash b) = Some b.
Proof.
  revert db. induction blks as [|b blks IH]; intros db Hs Hc [Hnd Hok]; simpl; [by set_solver|].
  apply NoDup_cons in Hnd as [Hb Hnd]. destruct (Hok b ltac:(by left)) as [Hbo Hbs].
  destruct (finalize_block genesis seen db b Hs Hc Hbo Hbs) as (Hs1 & Hc1 & He1 & Hb1).
  destruct (IH (finalize_dag_block db b) Hs1 Hc1) as (Hs2 & Hc2 & He2 & Hb2).
  { split; [done|]. intros b' Hb'. destruct (Hok b' ltac:(by right)) as [Hbo' Hbs']. split; [done|].
    intros x. rewrite storage_finalize, decide_False; [apply Hbs'|]. intros E. apply Hb, list_elem_of_fmap. by exists b'. }
  split_and!; [done|done|auto|]. intros b' [->|Hb']%elem_of_cons; [by apply He2|by apply Hb2].
Qed.

(** ** The step relation *)

Definition with_db (m : DagManager) (db : DagStorage) : DagManager :=
  mkDagManager (dag m) (max_level_ m) (anchor_ m) (old_anchor_ m) (period_ m)
    (non_finalized_blks_min_difficulty_ m) (frontier_ m) (dag_expiry_level_ m) (seen_blocks_ m) db (dm_calls m).

Section steps.
Context (iter : gset blk_hash_t -> list blk_hash_t) (genesis : DagBlock) (limit : Z).

(** The weights of the ghost path are 32-bit; the DAG stays below that size. *)
Definition dag_small (m : DagManager) : Prop := Z.of_nat (size (pivot_tree_ (dag m))) < 2 ^ 31 - 1.

Inductive dag_step : DagManager -> DagManager -> Prop :=
| step_addDagBlock m m' b trxs proposed r :
    dag_small m -> block_ok genesis b ->
    addDagBlock iter genesis m b trxs proposed true = Done (m', r) -> dag_step m m'
| step_savePeriodData m blks :
    period_blocks_ok genesis (dm_db m) blks -> dag_step m (with_db m (savePeriodData (dm_db m) blks))
| step_setDagBlockOrder m m' new_anchor period dag_order tf n :
    dag_small m -> new_anchor = kNullBlockHash \/ new_anchor ∈ dag_order ->
    (forall v, v ∈ dag_order -> is_Some (blk_of genesis (dm_db m) v)) ->
    setDagBlockOrder iter genesis limit m new_anchor period dag_order tf = Done (m', n) -> dag_step m m'.

(** The state of a node that starts from an empty database. *)
Definition new_dag (max_size delete_step : nat) : outcome DagManager :=
  let* d := addToDag (mkDagState ∅ ∅ ∅) (db_hash genesis) kNullBlockHash [] 0 true in
  let* frontier := getFrontier iter d (db_hash genesis) in
  Done (mkDagManager d 0 (db_hash genesis) 0 0 (2 ^ 32 - 1) frontier 0 (CacheMap.newCacheMap max_size delete_step)
    (mkDagStorage ∅ ∅ ∅ 0 0) []).

Context (Hi : iteration iter) (Hgen : db_hash genesis <> 0) (Hglev : db_level genesis = 0) (Hlim : 0 <= limit).

Definition dm_ok (m : DagManager) : Prop := dm_inv genesis m /\ columns_ok (dm_db m).

Lemma new_dag_ok max_size delete_step :
  (delete_step <= max_size)%nat -> exists m, new_dag max_size delete_step = Done m /\ dm_ok m /\ dag_small m.
Proof using Hi Hgen Hglev.
  intros Hp. unfold new_dag.
  destruct (anchor_dag (blk_of genesis (mkDagStorage ∅ ∅ ∅ 0 0)) (db_hash genesis) Hgen) as (d & -> & Hok & Hnf). simpl.
  assert (size (pivot_tree_ d) = 1%nat) as Hsz.
  { rewrite <- (size_dom (pivot_tree_ d)). rewrite <- (size_singleton (C := gset blk_hash_t) (db_hash genesis)). f_equal.
    apply set_eq. intros v. rewrite (g_tree_dom _ _ _ Hok), elem_of_singleton. specialize (Hnf v). tauto. }
  destruct (getFrontier_effect _ _ _ Hok iter Hi) as (path & pivot & tips & -> & _); [rewrite Hsz; lia|]. simpl.
  eexists. split; [done|]. unfold dag_small. simpl. rewrite Hsz. split; [|lia]. split; [|by intros k x y Hk].
  split; simpl; [done| |].
  - split; simpl; [done|done|done| |intros k Hx; by destruct Hx as [x Hx]|done].
    intros h b. change (blk_of genesis _ h) with (if decide (h = db_hash genesis) then Some genesis else None).
    case_decide; [|done]. intros [= <-]. rewrite Hglev. lia.
  - unfold blk_of. simpl. rewrite decide_True by done. by eexists.
Qed.

Lemma addDagBlock_ok m b trxs proposed m' r :
  dm_ok m -> dag_small m -> block_ok genesis b -> addDagBlock iter genesis m b trxs proposed true = Done (m', r) ->
  dm_ok m'.
Proof using Hi.
  intros [Hinv Hc] Hsm Hb Hadd.
  destruct (addDagBlock_effect iter genesis m b trxs proposed Hi Hinv Hb Hsm) as (m1 & r1 & Hadd1 & Hinv1 & Hcase).
  rewrite Hadd in Hadd1. injection Hadd1 as <- <-. split; [done|].
  destruct Hcase as [[-> _]|(_ & Hnone & _ & _ & _ & _ & -> & _)]; [done|].
  intros k x y. simpl. rewrite lookup_insert. case_decide as D; [|apply Hc]. subst k. intros _ Hy.
  unfold storage_getDagBlock in Hnone. destruct (dag_blocks (dm_db m) !! db_hash b); [done|congruence].
Qed.

Lemma setDagBlockOrder_ok m new_anchor period dag_order tf m' n :
  dm_ok m -> dag_small m -> new_anchor = kNullBlockHash \/ new_anchor ∈ dag_order ->
  (forall v, v ∈ dag_order -> is_Some (blk_of genesis (dm_db m) v)) ->
  setDagBlockOrder iter genesis limit m new_anchor period dag_order tf = Done (m', n) -> dm_ok m'.
Proof using Hi Hlim.
  intros [Hinv Hc] Hsm Hanc Hav Hset. destruct (decide (period = u64 (period_ m + 1))) as [->|Hne].
  - destruct (decide (new_anchor = 0)) as [->|Hz].
    + unfold setDagBlockOrder in Hset. rewrite Z.eqb_refl in Hset. simpl in Hset. injection Hset as <- <-. simpl.
      split; [|done]. by destruct Hinv.
    + destruct Hanc as [->|Hanc]; [done|].
      destruct (setDagBlockOrder_effect iter genesis limit m new_anchor dag_order tf Hi Hinv Hc Hsm Hlim Hanc Hz Hav)
        as (m1 & Hs & Hinv1 & Hc1 & _). rewrite Hset in Hs. by injection Hs as <- _.
  - unfold setDagBlockOrder in Hset. rewrite (proj2 (Z.eqb_neq _ _) Hne) in Hset. simpl in Hset. by injection Hset as <- <-.
Qed.

Lemma dag_step_ok m m' : dag_step m m' -> dm_ok m -> dm_ok m'.
Proof using Hi Hlim.
  intros [m0 m1 b trxs proposed r Hsm Hb Hadd|m0 blks Hb|m0 m1 na period order tf n Hsm Ha Hav Hset] Hok.
  - by eapply addDagBlock_ok.
  - destruct Hok as [[Hdag Hst Hanc] Hc].
    destruct (savePeriodData_effect genesis _ _ blks Hst Hc Hb) as (Hst' & Hc' & Hext & _).
    split; [|done]. split; simpl; [by eapply dag_ok_mono|done|]. destruct Hanc as [x Hx]. exists x. by apply Hext.
  - by eapply setDagBlockOrder_ok.
Qed.

Lemma dag_steps_ok m m' : rtc dag_step m m' -> dm_ok m -> dm_ok m'.
Proof using Hi Hlim. induction 1 as [|m m1 m' Hs _ IH]; [done|]. intros Hok. by apply IH, (dag_step_ok m). Qed.
End steps.


(** ** Blocks and periods *)

(** [addDagBlock] of a received block returns, keeps the invariant, and
    either leaves everything as it was (known, expired, or with unknown parents
    or the wrong level; success is reported only for a known block) or adds exactly this
    block to the DAG and the database, saves its transactions first and then
    announces it; anchor and period do not change. *)
Theorem addDagBlock_correct iter genesis m b trxs proposed :
  iteration iter -> dm_inv genesis m -> block_ok genesis b -> dag_small m ->
  exists m' r, addDagBlock iter genesis m b trxs proposed true = Done (m', r) /\ dm_inv genesis m' /\
    ((m' = m /\ (r = (true, []) <-> is_Some (storage_getDagBlock (dm_db m) (db_hash b)))) \/
     (r = (true, []) /\ storage_getDagBlock (dm_db m) (db_hash b) = None /\ dag_expiry_level_ m <= db_level b /\
      (forall v, NF (dag m') v <-> NF (dag m) v \/ v = db_hash b) /\ anchor_ m' = anchor_ m /\ period_ m' = period_ m /\
      dm_db m' = saveDagBlock (dm_db m) b /\
      dm_calls m' = dm_calls m ++ [SaveTransactionsFromDagBlock trxs; BlockVerified b; GossipDagBlock b proposed])).
Proof. apply addDagBlock_effect. Qed.

(** The blocks that a period with this anchor takes. *)
Definition in_period (m : DagManager) (anchor v : blk_hash_t) : Prop :=
  NF (dag m) v /\ rtc (edge (total_dag_ (dag m))) v anchor.

Lemma getDagBlockOrder_effect iter genesis m anchor :
  iteration iter -> dm_inv genesis m -> NF (dag m) anchor ->
  exists order, getDagBlockOrder iter m anchor (u64 (period_ m + 1)) = Done order /\ NoDup order /\
    forall v, v ∈ order <-> in_period m anchor v.
Proof.
  intros Hi Hinv Hnf. unfold getDagBlockOrder. rewrite Z.eqb_refl. simpl.
  pose proof (m_dag _ _ Hinv) as Hdag.
  destruct (Z.eqb_spec (anchor_ m) anchor) as [<-|_]; [by destruct (g_anchor _ _ _ Hdag)|].
  destruct (computeOrder_effect iter (total_dag_ (dag m)) anchor (non_finalized_blks_ (dag m)) Hi)
    as (order & -> & Hnd & Hin & _).
  - by eapply total_wf.
  - by eapply nf_in_total.
  - intros v Hv. by eapply nf_in_total.
  - simpl. exists order. split_and!; [done|done|]. intros v. rewrite Hin. unfold in_period, NF in *.
    split; [intros [->|?]; [split; [done|apply rtc_refl]|done]|by right].
Qed.

(** For a non-finalized anchor and the next period [getDagBlockOrder]
    returns each block of the period once: the non-finalized blocks from which the
    anchor can be reached.  For another period, or the current anchor, it returns
    nothing. *)
Theorem getDagBlockOrder_correct iter genesis m anchor period :
  iteration iter -> dm_inv genesis m -> NF (dag m) anchor \/ anchor = anchor_ m ->
  exists order, getDagBlockOrder iter m anchor period = Done order /\ NoDup order /\
    forall v, v ∈ order <-> period = u64 (period_ m + 1) /\ anchor <> anchor_ m /\ in_period m anchor v.
Proof.
  intros Hi Hinv Hcase. destruct (decide (period = u64 (period_ m + 1))) as [->|Hne].
  - destruct (decide (anchor = anchor_ m)) as [->|Ha].
    + exists []. unfold getDagBlockOrder. rewrite !Z.eqb_refl. split_and!; [done|constructor|]. set_solver.
    + destruct Hcase as [Hnf|]; [|done].
      destruct (getDagBlockOrder_effect iter genesis m anchor Hi Hinv Hnf) as (o & Ho & Hnd & Hin).
      exists o. split_and!; [done|done|]. intros v. rewrite Hin. tauto.
  - exists []. unfold getDagBlockOrder. rewrite (proj2 (Z.eqb_neq _ _) Hne).
    split_and!; [done|constructor|]. set_solver.
Qed.

(** [setDagBlockOrder] for the next period and an anchor of the order
    returns the number of blocks; afterwards the non-finalized blocks are the old ones
    that are neither in the order nor expired (too low a level for the new anchor,
    or with an expired parent), both graphs are rebuilt on the new anchor and
    satisfy the invariant, every other block is still in the database, exactly the
    transactions that were only in expired blocks and are not finalized are handed to
    the transaction manager for removal, and the frontier is the end of the ghost path with the other leaves as tips. *)
Theorem setDagBlockOrder_correct iter genesis limit m new_anchor dag_order tf :
  iteration iter -> dm_inv genesis m -> columns_ok (dm_db m) -> dag_small m -> 0 <= limit ->
  new_anchor ∈ dag_order -> new_anchor <> 0 -> (forall v, v ∈ dag_order -> is_Some (blk_of genesis (dm_db m) v)) ->
  exists m', setDagBlockOrder iter genesis limit m new_anchor (u64 (period_ m + 1)) dag_order tf =
      Done (m', u32 (Z.of_nat (size (list_to_set dag_order : gset blk_hash_t)))) /\
    dm_inv genesis m' /\ columns_ok (dm_db m') /\ finalizes genesis limit m m' new_anchor dag_order tf.
Proof. intros. by apply setDagBlockOrder_effect. Qed.

(** C37: the order that [getDagBlockOrder] computes for a non-finalized anchor can
    be set: [setDagBlockOrder] returns, the invariant holds again, and the
    blocks that remain are those that are not of the period and not expired. *)
Theorem finalize_period_correct iter genesis limit m anchor tf :
  iteration iter -> dm_inv genesis m -> columns_ok (dm_db m) -> dag_small m -> 0 <= limit -> NF (dag m) anchor ->
  exists order m' n, getDagBlockOrder iter m anchor (u64 (period_ m + 1)) = Done order /\
    setDagBlockOrder iter genesis limit m anchor (u64 (period_ m + 1)) order tf = Done (m', n) /\
    dm_inv genesis m' /\ anchor_ m' = anchor /\ period_ m' = u64 (period_ m + 1) /\
    forall v, NF (dag m') v <-> NF (dag m) v /\ ~ in_period m anchor v /\
      ~ Expired (blk_of genesis (dm_db m)) (fun v => NF (dag m) v /\ ~ in_period m anchor v) (dag_expiry_level_ m') v.
Proof.
  intros Hi Hinv Hc Hsm Hlim Hnf.
  destruct (getDagBlockOrder_effect iter genesis m anchor Hi Hinv Hnf) as (order & Hord & Hnd & Hin).
  assert (anchor ∈ order) as Hanc by (apply Hin; split; [done|apply rtc_refl]).
  pose proof (m_dag _ _ Hinv) as Hdag.
  destruct (setDagBlockOrder_effect iter genesis limit m anchor order tf Hi Hinv Hc Hsm Hlim Hanc)
    as (m' & Hset & Hinv' & _ & Hf).
  - by apply (g_nonzero _ _ _ Hdag).
  - intros v [Hv _]%Hin. destruct Hv as (l & X & Hl & Hx). destruct (g_level _ _ _ Hdag l X v Hl Hx) as (b & -> & _).
    by eexists.
  - eexists order, m', _. split_and!; [done|done|done|apply (f_anchor _ _ _ _ _ _ _ Hf)..|].
    intros v. rewrite (f_nf _ _ _ _ _ _ _ Hf), Hin. erewrite Expired_ext; [done|]. intros u. simpl. by rewrite Hin.
Qed.

(** ** Example: four blocks, one period *)

Definition ex_genesis : DagBlock := mkDagBlock 1 0 0 [] [] 0 0 0.
Definition ex_block (hash pivot level : Z) (tips trxs : list Z) : DagBlock :=
  mkDagBlock hash pivot level tips trxs 0 0 hash.

(** Blocks 2 and 3 on genesis, 4 on both, 5 on 3 alone. *)
Definition ex_blocks : list DagBlock :=
  [ex_block 2 1 1 [] [20]; ex_block 3 1 1 [] [30]; ex_block 4 2 2 [3] [40]; ex_block 5 3 2 [] [20; 50]].

Definition ex_add (m : DagManager) (b : DagBlock) : outcome DagManager :=
  let* (m', _) := addDagBlock elements ex_genesis m b [] false true in Done m'.

Definition ex_start : outcome DagManager := new_dag elements ex_genesis 10 1.
Definition ex_run (blocks : list DagBlock) : outcome DagManager := let* m := ex_start in ofold ex_add blocks m.

Definition outcome_get {A} (d : A) (o : outcome A) : A := match o with Done a => a | _ => d end.
Definition no_dag : DagManager :=
  mkDagManager (mkDagState ∅ ∅ ∅) 0 0 0 0 0 (0, []) 0 (CacheMap.newCacheMap 0 0) (mkDagStorage ∅ ∅ ∅ 0 0) [].
Definition ex_manager : DagManager := outcome_get no_dag (ex_run ex_blocks).

Lemma ex_run_steps limit blocks m0 m :
  (forall b, b ∈ blocks -> block_ok ex_genesis b) -> ofold ex_add blocks m0 = Done m ->
  (forall l1 l2 m1, blocks = l1 ++ l2 -> ofold ex_add l1 m0 = Done m1 -> dag_small m1) ->
  rtc (dag_step elements ex_genesis limit) m0 m.
Proof.
  revert m0. induction blocks as [|b blocks IH]; intros m0 Hb Hrun Hsm; simpl in Hrun; [injection Hrun as <-; apply rtc_refl|].
  destruct (ex_add m0 b) as [m1| |] eqn:E; simpl in Hrun; try done. unfold ex_add in E.
  destruct (addDagBlock elements ex_genesis m0 b [] false true) as [[m1' r]| |] eqn:E'; try done. injection E as ->.
  apply (rtc_l _ m0 m1).
  - apply (step_addDagBlock _ _ _ m0 m1 b [] false r); [by apply (Hsm [] (b :: blocks))|apply Hb; by left|done].
  - apply IH; [intros; apply Hb; by right|done|]. intros l1 l2 m2 -> Hm2. apply (Hsm (b :: l1) l2); [done|].
    simpl. unfold ex_add. by rewrite E'.
Qed.

Lemma ex_dag_reachable : exists m0, ex_start = Done m0 /\ rtc (dag_step elements ex_genesis 1) m0 ex_manager.
Proof.
  exists (outcome_get no_dag ex_start). split; [by vm_compute|].
  apply (ex_run_steps 1 ex_blocks).
  - intros b Hb. apply (proj1 (Forall_forall (block_ok ex_genesis) ex_blocks)); [|done].
    repeat constructor; vm_compute; (done || congruence).
  - by vm_compute.
  - intros l1 l2 m1 Hsplit Hrun.
    assert (forallb (fun n => match ofold ex_add (take n ex_blocks) (outcome_get no_dag ex_start) with
      | Done m => Z.of_nat (size (pivot_tree_ (dag m))) <? 2 ^ 31 - 1 | _ => true end) (seq 0 5) = true) as Hall
      by (vm_compute; reflexivity).
    assert (length ex_blocks = length (l1 ++ l2)) as Hlen by (by rewrite Hsplit). rewrite length_app in Hlen. simpl in Hlen.
    apply (proj1 (forallb_forall _ _)) with (x := length l1) in Hall; [|apply in_seq; lia].
    rewrite Hsplit, take_app_length, Hrun in Hall. by apply Z.ltb_lt.
Qed.


Lemma ex_manager_ok : dm_ok ex_genesis ex_manager /\ dag_small ex_manager.
Proof.
  destruct ex_dag_reachable as (m0 & H0 & Hr). split; [|vm_compute; reflexivity].
  destruct (new_dag_ok elements ex_genesis iteration_elements ltac:(done) ltac:(done) 10 1 ltac:(lia)) as (m & Hm & Hok & _).
  unfold ex_start in H0. rewrite H0 in Hm. injection Hm as <-.
  by apply (dag_steps_ok elements ex_genesis 1 iteration_elements ltac:(lia) m0).
Qed.

Lemma ex_NF v : (v = 2 \/ v = 3 \/ v = 4 \/ v = 5) -> NF (dag ex_manager) v.
Proof.
  intros Hv. set (l := if decide (v <= 3) then 1 else 2).
  exists l, (default ∅ (non_finalized_blks_ (dag ex_manager) !! l)).
  destruct Hv as [->|[->|[->| ->]]]; (split; [vm_compute; reflexivity|]); apply (bool_decide_unpack _); vm_compute; done.
Qed.

Lemma ex_period : u64 (period_ ex_manager + 1) = 1.
Proof. vm_compute. reflexivity. Qed.

Lemma pivotAndTipsAvailable_correct_witness :
  exists ok, pivotAndTipsAvailable ex_genesis ex_manager (ex_block 6 4 3 [7] []) = (ok, [7]) /\ ok = false.
Proof.
  destruct (pivotAndTipsAvailable_correct ex_genesis ex_manager (ex_block 6 4 3 [7] []) (proj1 (proj1 ex_manager_ok)))
    as (ok & He & Hok). exists ok. split; [by rewrite He; vm_compute|]. destruct ok; [|done].
  destruct (proj1 Hok eq_refl) as [Hm _]. vm_compute in Hm. done.
Defined.

Lemma addDagBlock_correct_witness :
  exists m' r, addDagBlock elements ex_genesis ex_manager (ex_block 6 4 3 [5] []) [] true true = Done (m', r) /\
    dm_inv ex_genesis m'.
Proof.
  destruct ex_manager_ok as [[Hinv _] Hsm].
  destruct (addDagBlock_correct elements ex_genesis ex_manager (ex_block 6 4 3 [5] []) [] true iteration_elements Hinv)
    as (m' & r & Ha & Hi & _); [split_and!; vm_compute; congruence|exact Hsm|].
  exists m', r. exact (conj Ha Hi).
Defined.

Lemma getDagBlockOrder_correct_witness :
  exists order, getDagBlockOrder elements ex_manager 4 1 = Done order /\ NoDup order.
Proof.
  destruct ex_manager_ok as [[Hinv _] Hsm].
  destruct (getDagBlockOrder_correct elements ex_genesis ex_manager 4 1 iteration_elements Hinv) as (o & Ho & Hnd & _);
    [left; apply ex_NF; auto|]. exists o. exact (conj Ho Hnd).
Defined.

Lemma setDagBlockOrder_correct_witness :
  exists m', setDagBlockOrder elements ex_genesis 1 ex_manager 4 1 [2; 3; 4] (fun _ => false) = Done (m', 3) /\
    dm_inv ex_genesis m'.
Proof.
  destruct ex_manager_ok as [[Hinv Hc] Hsm].
  destruct (setDagBlockOrder_correct elements ex_genesis 1 ex_manager 4 [2; 3; 4] (fun _ => false) iteration_elements
    Hinv Hc Hsm) as (m' & Hs & Hi & _); [lia|set_solver|lia| |rewrite ex_period in Hs; exists m'; exact (conj Hs Hi)].
  intros v Hv. apply (proj1 (Forall_forall (fun v => is_Some (blk_of ex_genesis (dm_db ex_manager) v)) [2; 3; 4])); [|done].
  repeat constructor; vm_compute; by eexists.
Defined.

Lemma finalize_period_correct_witness :
  exists order m' n, getDagBlockOrder elements ex_manager 4 1 = Done order /\
    setDagBlockOrder elements ex_genesis 1 ex_manager 4 1 order (fun _ => false) = Done (m', n) /\ anchor_ m' = 4.
Proof.
  destruct ex_manager_ok as [[Hinv Hc] Hsm].
  destruct (finalize_period_correct elements ex_genesis 1 ex_manager 4 (fun _ => false) iteration_elements Hinv Hc Hsm)
    as (o & m' & n & Ho & Hs & _ & Ha & _); [lia|apply ex_NF; auto|].
  rewrite ex_period in Ho, Hs. exists o, m', n. exact (conj Ho (conj Hs Ha)).
Defined.

(** The order and the rebuilt DAG, evaluated: block 5 stays; with expiry limit 0
    nothing below level 2 is accepted any more. *)
Example ex_finalize :
  (let* order := getDagBlockOrder elements ex_manager 4 1 in
   let* (m, n) := setDagBlockOrder elements ex_genesis 0 ex_manager 4 1 order (fun _ => false) in
   Done (order, n, frontier_ m, dag_expiry_level_ m, non_finalized_list elements (non_finalized_blks_ (dag m)))) =
  Done ([3; 2; 4], 3, (4, [5]), 2, [5]).
Proof. vm_compute. reflexivity. Qed.

(** ** The level index *)

Lemma update_counter_fold db blks batch count edges :
  let '(batch', count', _) := foldl (update_counter db) (batch, count, edges) blks in
  (forall l, batch' !! l =
     match last (filter (fun b => db_level b = l) blks) with
     | Some b => Some ({[db_hash b]} ∪ getBlocksByLevel db l)
     | None => batch !! l
     end) /\ (0 <= count < 2 ^ 64 -> count' = u64 (count + Z.of_nat (length blks))).
Proof.
  revert batch count edges. induction blks as [|b blks IH]; intros batch count edges; simpl.
  - split; [done|]. intros Hr. rewrite Z.add_0_r. symmetry. apply wrap_id. unfold in_range, modulus. lia.
  - specialize (IH (<[db_level b := {[db_hash b]} ∪ getBlocksByLevel db (db_level b)]> batch) (u64 (count + 1))
      (u64 (edges + Z.of_nat (length (db_tips b)) + 1))).
    destruct (foldl _ _ blks) as [[batch' count'] edges']. destruct IH as [IH1 IH2]. split.
    + intros l. rewrite IH1. rewrite filter_cons. destruct (decide (db_level b = l)) as [<-|Hne].
      * rewrite last_cons. destruct (last _); [done|]. by rewrite lookup_insert_eq.
      * destruct (last _); [done|]. by rewrite lookup_insert_ne.
    + intros Hr. rewrite IH2 by (apply (wrap_range 64); lia). rewrite wrap_add_l. f_equal. lia.
Qed.

(** [updateDagBlockCounters] counts every block, but for each level it records
    only the last block of the batch with that level beside those that were there:
    the level index is read from the database, which does not see what the batch
    has written. *)
Theorem updateDagBlockCounters_exact db blks l :
  0 <= dag_blocks_count_ db < 2 ^ 64 ->
  getBlocksByLevel (updateDagBlockCounters db blks) l =
    match last (filter (fun b => db_level b = l) blks) with
    | Some b => {[db_hash b]} ∪ getBlocksByLevel db l
    | None => getBlocksByLevel db l
    end /\
  dag_blocks_count_ (updateDagBlockCounters db blks) = u64 (dag_blocks_count_ db + Z.of_nat (length blks)).
Proof.
  intros Hr. unfold updateDagBlockCounters.
  pose proof (update_counter_fold db blks ∅ (dag_blocks_count_ db) (dag_edge_count_ db)) as Hf.
  destruct (foldl _ _ blks) as [[batch count] edges]. destruct Hf as [Hb Hc]. simpl. split; [|by apply Hc].
  unfold getBlocksByLevel at 1. simpl. rewrite lookup_union, Hb.
  destruct (last _); [by destruct (dag_blocks_level db !! l)|]. rewrite lookup_empty.
  unfold getBlocksByLevel. by destruct (dag_blocks_level db !! l).
Qed.

Lemma updateDagBlockCounters_exact_witness :
  getBlocksByLevel (updateDagBlockCounters (mkDagStorage ∅ ∅ ∅ 0 0) [ex_block 2 1 1 [] []; ex_block 3 1 1 [] []]) 1 =
    {[3]} ∪ ∅.
Proof.
  exact (proj1 (updateDagBlockCounters_exact (mkDagStorage ∅ ∅ ∅ 0 0)
    [ex_block 2 1 1 [] []; ex_block 3 1 1 [] []] 1 ltac:(simpl; lia))).
Defined.

(** ** Verification *)

Lemma tips_unique_spec tips seen :
  tips_unique seen tips = true <-> NoDup tips /\ forall t, t ∈ tips -> (t ∉ seen).
Proof.
  revert seen. induction tips as [|t tips IH]; intros seen; simpl.
  - split; [|done]. intros _. split; [constructor|]. intros t Ht. by apply elem_of_nil in Ht.
  - case_decide as D.
    + split; [done|]. intros [_ Hs]. by destruct (Hs t ltac:(by left)).
    + rewrite IH, NoDup_cons. set_solver.
Qed.

(** The gas of the tips. *)
Definition tips_gas (genesis : DagBlock) (m : DagManager) (tips : list blk_hash_t) : Z :=
  sum_list_Z (fun t => match getDagBlock genesis m t with Some b => db_gas_estimation b | None => 0 end) tips.

Lemma add_tips_gas_spec genesis m tips gas total :
  0 <= gas < 2 ^ 64 ->
  add_tips_gas genesis m tips gas = Some total <->
  (forall t, t ∈ tips -> is_Some (getDagBlock genesis m t)) /\ total = u64 (gas + tips_gas genesis m tips).
Proof.
  revert gas. induction tips as [|t tips IH]; intros gas Hr; simpl.
  - rewrite Z.add_0_r, wrap_id by done. split; [intros [= <-]; split; [|done]|naive_solver].
    intros t Ht. by apply elem_of_nil in Ht.
  - destruct (getDagBlock genesis m t) as [b|] eqn:E.
    + rewrite IH by (apply (wrap_range 64); lia). rewrite wrap_add_l, <- Z.add_assoc.
      setoid_rewrite elem_of_cons. split; [intros [Hall ->]|intros [Hall ->]]; split; try done; [|by intros; apply Hall; right].
      intros t' [->|Ht']; [by eexists|by apply Hall].
    + split; [done|]. intros [Hall _]. destruct (Hall t ltac:(by left)). congruence.
Qed.

Lemma split_trxs_spec trxs hashes :
  split_trxs trxs hashes = (omap (fun h => trxs !! h) hashes, filter (fun h => trxs !! h = None) hashes).
Proof.
  induction hashes as [|h hashes IH]; [done|]. simpl. rewrite IH. destruct (trxs !! h) as [t|] eqn:E.
  - by rewrite filter_cons_False by congruence.
  - by rewrite filter_cons_True.
Qed.

Lemma collect_trxs (trxs : gmap trx_hash_t Transaction) hashes :
  (if decide (trxs = ∅) then ([], hashes) else split_trxs trxs hashes) =
  (omap (fun h => trxs !! h) hashes, filter (fun h => trxs !! h = None) hashes).
Proof.
  case_decide as D; [|apply split_trxs_spec]. subst trxs. rewrite <- split_trxs_spec.
  induction hashes as [|h hashes IH]; [done|]. simpl. rewrite <- IH. by rewrite lookup_empty.
Qed.

(** What a block must satisfy to be verified in proposal period [p]. *)
Record valid_block (genesis : DagBlock) (env : VerifyEnv) (m : DagManager) (blk : DagBlock)
    (trxs : gmap trx_hash_t Transaction) (p : PbftPeriod) (all_trxs : list Transaction) : Prop := {
  v_tips : Z.of_nat (length (db_tips blk)) <= kDagBlockMaxTips /\ NoDup (db_pivot blk :: db_tips blk);
  v_period : getProposalPeriodForDagLevel env (db_level blk) = Some p;
  v_trxs : let query := filter (fun h => trxs !! h = None) (db_trxs blk) in
    (length query <= length (ve_getTransactions env query p))%nat /\
    all_trxs = omap (fun h => trxs !! h) (db_trxs blk) ++ ve_getTransactions env query p;
  v_level : dag_expiry_level_ m <= db_level blk;
  v_vdf : exists pk, getVrfKey env p (db_sender blk) = Some pk /\ verifyVdf env blk p pk = true;
  v_dpos : dposIsEligible env p (db_sender blk) = Some true;
  v_gas : db_gas_estimation blk <= (getGasLimits env p).1 /\
    estimateTransactions env all_trxs p = db_gas_estimation blk;
  v_tips_gas : (getGasLimits env p).2 / (getGasLimits env p).1 < Z.of_nat (length (db_tips blk)) + 1 ->
    (forall t, t ∈ db_tips blk -> is_Some (getDagBlock genesis m t)) /\
    u64 (db_gas_estimation blk + tips_gas genesis m (db_tips blk)) <= (getGasLimits env p).2;
}.

Lemma verify_gas_spec genesis env m blk p txs res :
  (getGasLimits env p).1 <> 0 -> 0 <= db_gas_estimation blk < 2 ^ 64 ->
  verify_gas genesis env m blk p txs = Done (Verified, res) <->
  res = txs /\ db_gas_estimation blk <= (getGasLimits env p).1 /\
  estimateTransactions env txs p = db_gas_estimation blk /\
  ((getGasLimits env p).2 / (getGasLimits env p).1 < Z.of_nat (length (db_tips blk)) + 1 ->
    (forall t, t ∈ db_tips blk -> is_Some (getDagBlock genesis m t)) /\
    u64 (db_gas_estimation blk + tips_gas genesis m (db_tips blk)) <= (getGasLimits env p).2).
Proof.
  intros Hnz Hr. unfold verify_gas. destruct (getGasLimits env p) as [dl pl]. simpl in *.
  destruct (Z.ltb_spec dl (db_gas_estimation blk)); [split; [done|lia]|].
  destruct (Z.eqb_spec (estimateTransactions env txs p) (db_gas_estimation blk)); simpl; [|split; [done|tauto]].
  rewrite (proj2 (Z.eqb_neq dl 0)) by done.
  destruct (Z.ltb_spec (pl / dl) (Z.of_nat (length (db_tips blk)) + 1)).
  - destruct (add_tips_gas genesis m (db_tips blk) (db_gas_estimation blk)) as [total|] eqn:E.
    + apply add_tips_gas_spec in E as [Hall ->]; [|done].
      destruct (Z.ltb_spec pl (u64 (db_gas_estimation blk + tips_gas genesis m (db_tips blk)))).
      * split; [done|]. intros (_ & _ & _ & Ht). destruct Ht; lia.
      * split; [intros [= <-]; by split_and!|by intros (-> & _)].
    + split; [done|]. intros (_ & _ & _ & Ht). destruct Ht as [Hall _]; [done|].
      assert (add_tips_gas genesis m (db_tips blk) (db_gas_estimation blk) =
        Some (u64 (db_gas_estimation blk + tips_gas genesis m (db_tips blk)))); [|congruence].
      by apply add_tips_gas_spec.
  - split; [intros [= <-]; split_and!; try done; lia|by intros (-> & _)].
Qed.

(** [verifyBlock] answers [Verified] exactly for the blocks with at most 16
    tips, all different and different from the pivot, whose transactions are all
    available, whose level has a proposal period and is not expired, whose
    sender has a VRF key, a valid VDF proof and enough stake in that period, and
    whose gas is the estimate of its transactions, within the limit of a
    block and, when the limit of a period could be exceeded, within it together with all its
    (known) tips.  The manager is unchanged then. *)
Theorem verifyBlock_correct genesis env m blk trxs m' txs :
  (forall p, (getGasLimits env p).1 <> 0) -> 0 <= db_gas_estimation blk < 2 ^ 64 ->
  verifyBlock genesis env m blk trxs = Done (m', (Verified, txs)) <->
  m' = m /\ exists p, valid_block genesis env m blk trxs p txs.
Proof.
  intros Hlim Hr. unfold verifyBlock. split.
  - destruct (Z.ltb_spec kDagBlockMaxTips (Z.of_nat (length (db_tips blk)))); [done|].
    destruct (tips_unique _ _) eqn:Hu; [|done]. apply tips_unique_spec in Hu as [Hnd Hpv]. simpl.
    destruct (getProposalPeriodForDagLevel env (db_level blk)) as [p|] eqn:Hp; [|done].
    rewrite collect_trxs. destruct (Nat.ltb_spec (length (ve_getTransactions env
      (filter (fun h => trxs !! h = None) (db_trxs blk)) p)) (length (filter (fun h => trxs !! h = None) (db_trxs blk)))); [done|].
    destruct (Z.ltb_spec (db_level blk) (dag_expiry_level_ m)); [done|].
    destruct (getVrfKey env p (db_sender blk)) as [pk|] eqn:Hk; [|done].
    destruct (verifyVdf env blk p pk) eqn:Hv; [|done]. simpl.
    destruct (dposIsEligible env p (db_sender blk)) as [[]|] eqn:Hd; [|done|done].
    destruct (verify_gas _ _ _ _ _ _) as [[v res]| |] eqn:Hg; simpl; [|done|done]. intros [= <- -> ->].
    apply verify_gas_spec in Hg as (-> & Hg1 & Hg2 & Hg3); [|done|done]. split; [done|]. exists p.
    split; [split; [lia|]|done|done|lia|by exists pk|done|done|done].
    apply NoDup_cons. split; [|done]. intros Hin. apply (Hpv _ Hin). set_solver.
  - intros (-> & p & [[Hlen Hnd] Hp [Htx ->] Hlev (pk & Hk & Hv) Hd [Hg1 Hg2] Hg3]).
    rewrite (proj2 (Z.ltb_ge _ _)) by lia. apply NoDup_cons in Hnd as [Hpv Hnd].
    rewrite (proj2 (tips_unique_spec _ _)); [|set_solver]. simpl. rewrite Hp, collect_trxs.
    rewrite (proj2 (Nat.ltb_ge _ _)) by done. rewrite (proj2 (Z.ltb_ge _ _)) by lia. rewrite Hk, Hv, Hd. simpl.
    by rewrite (proj2 (verify_gas_spec genesis env m blk p _ _ (Hlim p) Hr) (conj eq_refl (conj Hg1 (conj Hg2 Hg3)))).
Qed.

Definition ex_env : VerifyEnv :=
  mkVerifyEnv (fun _ => Some 1) (fun _ _ => []) (fun _ _ => Some 9) (fun _ _ _ => true) (fun _ _ => Some true)
    (fun _ => (100, 1000)) (fun _ _ => 0).

Lemma verifyBlock_correct_witness :
  exists p, valid_block ex_genesis ex_env ex_manager (ex_block 6 4 3 [5] []) ∅ p [].
Proof.
  apply (verifyBlock_correct ex_genesis ex_env ex_manager (ex_block 6 4 3 [5] []) ∅ ex_manager []);
    [intros p; simpl; lia|simpl; lia|vm_compute; reflexivity].
Defined.
