(* ===== verification/DagRecovery.v ===== *)
(** * Restart of the DAG manager

    The constructor of [DagManager] and [recoverDag]: the anchor is found in the
    PBFT chain, and the non-finalized blocks of the database enter the DAG
    again, level by level. *)

From S2P Require Import Prelude Votes PbftChain Caches TransactionQueue Dag DagOrder DagGhost DagManager DagManagerInv DagReorder DagPeriods.
Local Open Scope Z_scope.
Local Open Scope outcome_scope.

(** The largest key of the level index. *)
Definition getLastBlocksLevel (db : DagStorage) : Z :=
  match last (map_items (dag_blocks_level db)) with Some (level, _) => level | None => 0 end.

(** The database iterates over the column in the order of the hashes. *)
Definition getNonfinalizedDagBlocks (db : DagStorage) : gmap Z (list DagBlock) :=
  foldl (fun res e => <[db_level e.2 := default [] (res !! db_level e.2) ++ [e.2]]> res) ∅ (map_items (dag_blocks db)).

(** The walk along the PBFT chain to the last anchor, with the hash of the block
    before it; [None]: not finished after [fuel] blocks. *)
Fixpoint recover_anchor (fuel : nat) (chain : gmap blk_hash_t PbftBlock) (pbft_block_hash : blk_hash_t) :
    option (outcome (option blk_hash_t * blk_hash_t)) :=
  if pbft_block_hash =? 0 then Some (Done (None, 0))
  else
    match Chain.getPbftBlockInChain chain pbft_block_hash with
    | Done pbft_block =>
        let anchor := pb_pivot_dag_block_hash pbft_block in
        if negb (anchor =? 0) then Some (Done (Some anchor, pb_prev_block_hash pbft_block))
        else
          match fuel with
          | O => None
          | S fuel => recover_anchor fuel chain (pb_prev_block_hash pbft_block)
          end
    | _ => Some AssertFailed
    end.

Section recovery.
Context (iter : gset blk_hash_t -> list blk_hash_t) (genesis_block_ : DagBlock) (dag_expiry_limit_ : Z).
Context (env : VerifyEnv).

Definition construct_dag (db : DagStorage) (max_size delete_step : nat) : outcome DagManager :=
  let* d := addToDag (mkDagState ∅ ∅ ∅) (db_hash genesis_block_) kNullBlockHash [] 0 true in
  let* frontier := getFrontier iter d (db_hash genesis_block_) in
  Done (mkDagManager d (getLastBlocksLevel db) (db_hash genesis_block_) 0 0 (2 ^ 32 - 1) frontier 0
    (CacheMap.newCacheMap max_size delete_step) db []).

(** The checks of a stored block; [false] leaves the loop over its level. *)
Definition recover_check (m : DagManager) (blk : DagBlock) : outcome bool :=
  if decide (is_Some (finalized_blocks (dm_db m) !! db_hash blk)) then Done false
  else
    match getProposalPeriodForDagLevel env (db_level blk) with
    | None => AssertFailed
    | Some propose_period =>
        match getVrfKey env propose_period (db_sender blk) with
        | None => Done false
        | Some pk => Done (verifyVdf env blk propose_period pk)
        end
    end.

(** The loop over the blocks of one level. *)
Fixpoint recover_level (m : DagManager) (blks : list DagBlock) : outcome DagManager :=
  match blks with
  | [] => Done m
  | blk :: rest =>
      let* ok := recover_check m blk in
      if negb ok then Done m
      else if (pivotAndTipsAvailable genesis_block_ m blk).1 then
        let* (m', res) := addDagBlock iter genesis_block_ m blk [] false false in
        recover_level (if res.1 then m' else with_db m' (removeDagBlock (dm_db m') (db_hash blk))) rest
      else recover_level (with_db m (removeDagBlock (dm_db m) (db_hash blk))) rest
  end.

Definition with_anchor (m : DagManager) (d : DagState) (anchor old_anchor : blk_hash_t) (period expiry : Z) : DagManager :=
  mkDagManager d (max_level_ m) anchor old_anchor period (non_finalized_blks_min_difficulty_ m) (frontier_ m)
    expiry (seen_blocks_ m) (dm_db m) (dm_calls m).

(** The first part of [recoverDag]: period, anchor and expiry level. *)
Definition recover_chain (m : DagManager) (chain : gmap blk_hash_t PbftBlock) (last_hash : blk_hash_t) :
    outcome DagManager :=
  if last_hash =? 0 then Done m
  else
    let* last_block := Chain.getPbftBlockInChain chain last_hash in
    match recover_anchor (size chain) chain last_hash with
    | Some (Done (Some anchor, next)) =>
        let* d := addToDag (dag m) anchor kNullBlockHash [] 0 true in
        match getDagBlock genesis_block_ m anchor with
        | None => Undefined
        | Some anchor_block =>
            let expiry := if dag_expiry_limit_ <? db_level anchor_block
              then u64 (db_level anchor_block - dag_expiry_limit_) else dag_expiry_level_ m in
            let* old_anchor :=
              (if next =? 0 then Done (old_anchor_ m)
               else
                 let* b := Chain.getPbftBlockInChain chain next in
                 Done (if pb_pivot_dag_block_hash b =? 0 then old_anchor_ m else pb_pivot_dag_block_hash b)) in
            Done (with_anchor m d anchor old_anchor (pb_period last_block) expiry)
        end
    | Some (Done (None, _)) =>
        Done (with_anchor m (dag m) (anchor_ m) (old_anchor_ m) (pb_period last_block) (dag_expiry_level_ m))
    | _ => AssertFailed
    end.

Definition recoverDag (m : DagManager) (chain : gmap blk_hash_t PbftBlock) (last_hash : blk_hash_t) :
    outcome DagManager :=
  let* m := recover_chain m chain last_hash in
  let* m := ofold (fun m lvl => recover_level m lvl.2) (map_items (getNonfinalizedDagBlocks (dm_db m))) m in
  let* frontier := getFrontier iter (dag m) (anchor_ m) in
  Done (mkDagManager (dag m) (max_level_ m) (anchor_ m) (old_anchor_ m) (period_ m)
    (non_finalized_blks_min_difficulty_ m) frontier (dag_expiry_level_ m) (seen_blocks_ m) (dm_db m) (dm_calls m)).

(** A node that starts. *)
Definition start_dag (db : DagStorage) (max_size delete_step : nat) (chain : gmap blk_hash_t PbftBlock)
    (last_hash : blk_hash_t) : outcome DagManager :=
  let* m := construct_dag db max_size delete_step in recoverDag m chain last_hash.
End recovery.

(** ** The anchor *)

Lemma recover_anchor_chain db chain fuel :
  Chain.valid_chain chain -> (forall b, b ∈ chain -> db !! pb_hash b = Some b) -> (length chain <= fuel)%nat ->
  exists next, (next = 0 \/ is_Some (db !! next)) /\
    recover_anchor fuel db (Chain.last_hash chain) =
    Some (Done (if decide (Chain.last_anchor chain = 0) then None else Some (Chain.last_anchor chain), next)).
Proof.
  revert fuel. induction chain as [|b chain IH]; intros fuel Hv Hdb Hf.
  - exists 0. split; [by left|]. by destruct fuel.
  - inversion Hv as [|? ? Hv' Hp Hprev Hh]; subst. simpl in *.
    assert (recover_anchor fuel db (pb_hash b) =
      if negb (pb_pivot_dag_block_hash b =? 0) then Some (Done (Some (pb_pivot_dag_block_hash b), pb_prev_block_hash b))
      else match fuel with O => None | S fuel => recover_anchor fuel db (pb_prev_block_hash b) end) as ->.
    { destruct fuel; simpl; rewrite (proj2 (Z.eqb_neq _ _) Hh); unfold Chain.getPbftBlockInChain;
        by rewrite (Hdb b) by (by left). }
    destruct (Z.eqb_spec (pb_pivot_dag_block_hash b) 0) as [E|Hne]; simpl.
    + destruct fuel as [|fuel]; [lia|]. rewrite Hprev. apply IH; [done| |lia]. intros b' Hb'. apply Hdb. by right.
    + exists (pb_prev_block_hash b). rewrite decide_False by done. split; [|done]. rewrite Hprev.
      destruct chain as [|b' chain]; [by left|right]. simpl. rewrite (Hdb b') by (right; by left). by eexists.
Qed.

Lemma add_root d anchor :
  anchor <> 0 -> exists d', addToDag d anchor kNullBlockHash [] 0 true = Done d'.
Proof.
  intros Hz. unfold addToDag, addVEEs. rewrite (proj2 (Z.eqb_neq _ _) Hz). by eexists.
Qed.

(** Restart.  For a valid PBFT chain in the database whose last anchor is a
    stored block, the walk to the anchor ends within the number of blocks, and period
    and anchor are those of the chain: the period of the last block and the last
    non-null anchor (genesis if there is none). *)
Theorem recover_chain_correct genesis limit m db chain b :
  Chain.valid_chain (b :: chain) -> (forall b', b' ∈ b :: chain -> db !! pb_hash b' = Some b') ->
  (length (b :: chain) <= size db)%nat ->
  (Chain.last_anchor (b :: chain) <> 0 -> is_Some (getDagBlock genesis m (Chain.last_anchor (b :: chain)))) ->
  exists m', recover_chain genesis limit m db (pb_hash b) = Done m' /\ period_ m' = pb_period b /\
    anchor_ m' = (if decide (Chain.last_anchor (b :: chain) = 0) then anchor_ m else Chain.last_anchor (b :: chain)).
Proof.
  intros Hv Hdb Hsz Hblk. unfold recover_chain.
  assert (pb_hash b <> 0) as Hh by (by inversion Hv). rewrite (proj2 (Z.eqb_neq _ _) Hh).
  unfold Chain.getPbftBlockInChain at 1. rewrite (Hdb b) by (by left).
  destruct (recover_anchor_chain db (b :: chain) (size db) Hv Hdb Hsz) as (next & Hnext & Hrec).
  change (Chain.last_hash (b :: chain)) with (pb_hash b) in Hrec. rewrite Hrec. clear Hrec.
  destruct (decide (Chain.last_anchor (b :: chain) = 0)) as [E|Hne].
  - simpl. by eexists.
  - destruct (add_root (dag m) _ Hne) as [d Hd]. destruct (Hblk Hne) as [ab Hab].
    cbn [obind]. rewrite Hd. cbn [obind]. rewrite Hab. unfold Chain.getPbftBlockInChain.
    destruct (Z.eqb_spec next 0) as [->|Hn]; simpl; [by eexists|].
    destruct Hnext as [?|[nb ->]]; [done|]. simpl. by eexists.
Qed.

(** ** Genesis after a restart *)

Section genesis_leaf.
Context (iter : gset blk_hash_t -> list blk_hash_t) (genesis : DagBlock) (limit : Z) (env : VerifyEnv).
#[local] Abbreviation g0 := (db_hash genesis).

Definition is_leaf (d : DagState) (v : blk_hash_t) : Prop := total_dag_ d !! v = Some ∅.

Lemma add_edge_leaf g u v k : u <> k -> g !! k = Some ∅ -> (add_edge g u v).1 !! k = Some ∅.
Proof.
  intros Hne Hk. unfold add_edge. destruct (g !! u) as [out|]; [|done]. case_decide; [done|]. simpl. by rewrite lookup_insert_ne.
Qed.

Lemma add_tips_leaf g v tips res k : (k ∉ tips) -> g !! k = Some ∅ -> (add_tips g v tips res).1 !! k = Some ∅.
Proof.
  revert g res. induction tips as [|t tips IH]; intros g res Hk Hg; [done|]. simpl. apply not_elem_of_cons in Hk as [Hne Hk].
  destruct (hasVertex g t); [|by apply IH]. pose proof (add_edge_leaf g t v k ltac:(congruence) Hg) as Hg'.
  destruct (add_edge g t v) as [g' r']. by apply IH.
Qed.

Lemma addVEEs_leaf g v pivot tips g' r k :
  addVEEs g v pivot tips = Done (g', r) -> k <> pivot -> (k ∉ tips) -> g !! k = Some ∅ -> g' !! k = Some ∅.
Proof.
  unfold addVEEs. destruct (v =? 0); [done|]. simpl. intros Hadd Hp Ht Hk.
  set (g1 := match g !! v with Some _ => g | None => <[v := ∅]> g end) in *.
  assert (g1 !! k = Some ∅) as Hg1.
  { subst g1. destruct (g !! v) eqn:E; [done|]. rewrite lookup_insert. case_decide; done. }
  assert ((if negb (pivot =? 0) && hasVertex g1 pivot then add_edge g1 pivot v else (g1, true)).1 !! k = Some ∅) as Hg2.
  { destruct (negb _ && _); [apply add_edge_leaf; congruence|done]. }
  destruct (if negb (pivot =? 0) && hasVertex g1 pivot then add_edge g1 pivot v else (g1, true)) as [g2 r2].
  pose proof (add_tips_leaf g2 v tips true k Ht Hg2) as Hg3. destruct (add_tips g2 v tips true) as [g3 r3].
  by injection Hadd as <- _.
Qed.

Lemma addToDag_leaf d hash pivot tips level fin d' k :
  addToDag d hash pivot tips level fin = Done d' -> k <> pivot -> (k ∉ tips) -> is_leaf d k -> is_leaf d' k.
Proof.
  unfold addToDag, is_leaf. destruct (addVEEs (total_dag_ d) hash pivot tips) as [[t r]| |] eqn:E; try done. simpl.
  destruct (addVEEs (pivot_tree_ d) hash pivot []) as [[t' r']| |]; try done. simpl. intros Hd Hp Ht Hk.
  pose proof (addVEEs_leaf _ _ _ _ _ _ _ E Hp Ht Hk). destruct fin; by injection Hd as <-.
Qed.

Definition not_on_genesis (b : DagBlock) : Prop := g0 <> db_pivot b /\ (g0 ∉ db_tips b).

Lemma recover_level_leaf m blks m' :
  Forall not_on_genesis blks -> recover_level iter genesis env m blks = Done m' ->
  is_leaf (dag m) g0 -> is_leaf (dag m') g0.
Proof.
  intros Hall. revert m. induction Hall as [|b blks [Hp Ht] Hall IH]; intros m; simpl; [by intros [= <-]|].
  destruct (recover_check env m b) as [[]| |]; simpl; try done; [|by intros [= <-]].
  destruct (pivotAndTipsAvailable genesis m b).1; [|intros Hrec; apply (IH _ Hrec)].
  unfold enter_dag. destruct (CacheMap.cm_insert _ _ _) as [[seen r]| |]; simpl; try done.
  destruct (addToDag (dag m) _ _ _ _ _) as [d| |] eqn:Ed; simpl; try done.
  destruct (getFrontier iter d (anchor_ m)) as [fr| |]; simpl; try done.
  intros Hrec Hl. apply (IH _ Hrec). simpl. by eapply addToDag_leaf.
Qed.

Lemma nonfinalized_blocks_in db b :
  (exists l bs, getNonfinalizedDagBlocks db !! l = Some bs /\ b ∈ bs) -> exists h, dag_blocks db !! h = Some b.
Proof.
  unfold getNonfinalizedDagBlocks. intros (l & bs & Hl & Hb).
  assert (forall items (res : gmap Z (list DagBlock)), (forall l bs b, res !! l = Some bs -> b ∈ bs -> exists h, (h, b) ∈ map_items (dag_blocks db)) ->
    (forall e, e ∈ items -> e ∈ map_items (dag_blocks db)) ->
    forall l bs b, foldl (fun res (e : Z * DagBlock) => <[db_level e.2 := default [] (res !! db_level e.2) ++ [e.2]]> res) res items !! l
      = Some bs -> b ∈ bs -> exists h, (h, b) ∈ map_items (dag_blocks db)) as Hfold.
  { clear. induction items as [|[h x] items IH]; intros res Hres Hin; [done|]. simpl. apply IH; [|intros; apply Hin; by right].
    intros l bs b. rewrite lookup_insert. case_decide as D; [|apply Hres]. intros [= <-].
    rewrite elem_of_app, list_elem_of_singleton. intros [Hb| ->]; [|exists h; apply Hin; by left].
    destruct (res !! db_level x) as [bs'|] eqn:E; [by eapply Hres|by apply elem_of_nil in Hb]. }
  destruct (Hfold (map_items (dag_blocks db)) ∅) with (l := l) (bs := bs) (b := b) as [h Hh];
    [intros l' bs' b' Hl'; by rewrite lookup_empty in Hl'|done|done|done|]. exists h. by apply elem_of_map_items.
Qed.

Lemma recover_levels_leaf lvls m m' :
  (forall l bs, (l, bs) ∈ lvls -> Forall not_on_genesis bs) ->
  ofold (fun m (lvl : Z * list DagBlock) => recover_level iter genesis env m lvl.2) lvls m = Done m' ->
  is_leaf (dag m) g0 -> is_leaf (dag m') g0.
Proof.
  revert m. induction lvls as [|[l bs] lvls IH]; intros m Hall; simpl; [by intros [= <-]|].
  destruct (recover_level iter genesis env m bs) as [m1| |] eqn:E; simpl; try done. intros Hrec Hl.
  apply (IH m1); [intros; apply (Hall l0); by right|done|]. eapply recover_level_leaf; [|done|done]. apply (Hall l). by left.
Qed.

Lemma recover_chain_leaf m chain last m' :
  g0 <> 0 -> recover_chain genesis limit m chain last = Done m' -> is_leaf (dag m) g0 ->
  is_leaf (dag m') g0 /\ dm_db m' = dm_db m.
Proof.
  intros Hz. unfold recover_chain. destruct (last =? 0); [by intros [= <-]|].
  destruct (Chain.getPbftBlockInChain chain last) as [lb| |]; simpl; try done.
  destruct (recover_anchor _ _ _) as [[[[a|] nx]| |]|]; try done.
  - destruct (addToDag (dag m) a kNullBlockHash [] 0 true) as [d| |] eqn:Ed; simpl; try done.
    destruct (getDagBlock genesis m a); [|done].
    destruct (if nx =? 0 then _ else _); simpl; try done. intros [= <-] Hl. simpl. split; [|done].
    eapply addToDag_leaf; [done|done|apply not_elem_of_nil|done].
  - intros [= <-] Hl. done.
Qed.
End genesis_leaf.

(** After a restart the genesis block is a tip of the frontier (or its
    pivot, which is not null), however long the chain is, unless a non-finalized block points to it:
    the constructor puts genesis into both graphs and [recoverDag] adds the anchor
    beside it without clearing them, as [setDagBlockOrder] does. *)
Theorem recovered_frontier_has_genesis iter genesis limit env db max_size delete_step chain last_hash m :
  iteration iter -> db_hash genesis <> 0 ->
  (forall h b, dag_blocks db !! h = Some b -> not_on_genesis genesis b) ->
  start_dag iter genesis limit env db max_size delete_step chain last_hash = Done m -> (frontier_ m).1 <> 0 ->
  (frontier_ m).1 = db_hash genesis \/ db_hash genesis ∈ (frontier_ m).2.
Proof.
  intros Hi Hz Hdb. unfold start_dag, construct_dag.
  destruct (addToDag (mkDagState ∅ ∅ ∅) (db_hash genesis) kNullBlockHash [] 0 true) as [d| |] eqn:Ed; simpl; try done.
  assert (is_leaf d (db_hash genesis)) as Hd.
  { unfold addToDag, addVEEs in Ed. rewrite (proj2 (Z.eqb_neq _ _) Hz) in Ed. simpl in Ed. injection Ed as <-.
    unfold is_leaf. simpl. by rewrite lookup_empty, lookup_insert_eq. }
  destruct (getFrontier iter d _) as [fr| |]; simpl; try done. unfold recoverDag.
  match goal with |- context [recover_chain genesis limit ?m0 chain last_hash] => set (m0' := m0) end.
  destruct (recover_chain genesis limit m0' chain last_hash) as [m1| |] eqn:Hc; simpl; try done.
  apply recover_chain_leaf in Hc as [Hl1 Hdb1]; [|done|done]. simpl in Hdb1.
  destruct (ofold _ _ m1) as [m2| |] eqn:Hr; simpl; try done.
  apply recover_levels_leaf in Hr; [|intros l bs Hin%elem_of_map_items; apply Forall_forall; intros b Hb|done].
  - destruct (getFrontier iter (dag m2) (anchor_ m2)) as [[pv tips]| |] eqn:Hf; simpl; try done. intros [= <-]. simpl. intros Hpv.
    unfold getFrontier in Hf. destruct (getGhostPath iter (pivot_tree_ (dag m2)) (anchor_ m2)) as [path| |]; simpl in Hf; try done.
    destruct (last path) as [pv'|] eqn:Hp.
    + unfold getLeaves, collectLeafVertices in Hf. destruct (bool_decide _); simpl in Hf; [|done]. injection Hf as <- <-.
      destruct (decide (pv' = db_hash genesis)); [by left|right]. rewrite !list_elem_of_filter, elem_of_iter by done.
      split; [congruence|]. split; [done|]. apply elem_of_dom. by exists ∅.
    + by injection Hf as <- <-.
  - destruct (nonfinalized_blocks_in db b) as [h Hh]; [exists l, bs; by rewrite <- Hdb1|]. by eapply Hdb.
Qed.


(** Genesis 1; block 2 is finalized as the anchor of period 1, block 3 points to it. *)
Definition ex_db : DagStorage :=
  mkDagStorage {[3 := ex_block 3 2 2 [] []]} {[2 := ex_block 2 1 1 [] []]} ∅ 0 0.
Definition ex_chain : gmap blk_hash_t PbftBlock := {[70 := mkPbftBlock 70 0 2 1 []]}.

Example ex_recovered :
  (let* m := start_dag elements ex_genesis 10 ex_env ex_db 10 1 ex_chain 70 in
   Done (anchor_ m, period_ m, frontier_ m, non_finalized_list elements (non_finalized_blks_ (dag m)))) =
  Done (2, 1, (3, [1]), [3]).
Proof. vm_compute. reflexivity. Qed.

Lemma recovered_frontier_has_genesis_witness :
  exists m, start_dag elements ex_genesis 10 ex_env ex_db 10 1 ex_chain 70 = Done m /\ 1 ∈ (frontier_ m).2.
Proof.
  set (m := outcome_get no_dag (start_dag elements ex_genesis 10 ex_env ex_db 10 1 ex_chain 70)).
  assert (start_dag elements ex_genesis 10 ex_env ex_db 10 1 ex_chain 70 = Done m) as Hm by (vm_compute; reflexivity).
  assert ((frontier_ m).1 = 3) as Hp by (vm_compute; reflexivity).
  exists m. split; [exact Hm|].
  destruct (recovered_frontier_has_genesis elements ex_genesis 10 ex_env ex_db 10 1 ex_chain 70 m iteration_elements)
    as [E|Hin]; [simpl; lia| |exact Hm|rewrite Hp; lia|rewrite Hp in E; done|exact Hin].
  intros h b. unfold ex_db. simpl. rewrite lookup_singleton_Some. intros [_ <-]. by split; [|apply not_elem_of_nil].
Defined.

Lemma recover_chain_correct_witness :
  exists m', recover_chain ex_genesis 10 (with_db no_dag ex_db) ex_chain 70 = Done m' /\ anchor_ m' = 2.
Proof.
  destruct (recover_chain_correct ex_genesis 10 (with_db no_dag ex_db) ex_chain [] (mkPbftBlock 70 0 2 1 []))
    as (m' & Hm & _ & Ha).
  - constructor; [constructor|done|done|done].
  - intros b ->%list_elem_of_singleton. done.
  - vm_compute. lia.
  - intros _. vm_compute. by eexists.
  - exists m'. split; [exact Hm|exact Ha].
Defined.
