(* ===== verification/Sortition.v ===== *)
(** * Adjustment of the VRF threshold

    [SortitionParamsManager] (consensus/src/dag/sortition_params_manager.cpp): the
    efficiency of the DAG over an interval of PBFT blocks decides how the threshold of
    the VRF, which limits who may propose DAG blocks, changes.  With the columns of the
    database it reads after a restart. *)

From S2P Require Import Prelude.
Local Open Scope Z_scope.
Local Open Scope outcome_scope.

Abbreviation u16 := (wrap 16).

(** ** Data *)

Definition kOnePercent : Z := 100.
Definition kThresholdUpperMinValue : Z := 80.
Definition UINT16_MAX : Z := 65535.

Record SortitionConfig := mkSortitionConfig {
  sc_threshold_upper : Z;
  changes_count_for_average : Z;
  dag_efficiency_targets : Z * Z;
  changing_interval : Z;
  computation_interval : Z;
}.

Definition targetEfficiency (c : SortitionConfig) : Z :=
  u16 (((dag_efficiency_targets c).1 + (dag_efficiency_targets c).2) / 2).

Record SortitionParamsChange := mkSortitionParamsChange {
  spc_period : Z;
  spc_threshold_upper : Z;
  interval_efficiency : Z;
}.

(** What the manager reads of a period: whether the anchor is null, the transactions of
    each DAG block and the transactions of the period. *)
Record SortitionPeriod := mkSortitionPeriod {
  sp_period : Z;
  sp_null_anchor : bool;
  sp_dag_blocks : list (list Z);
  sp_transactions : list Z;
}.

Record SortitionDb := mkSortitionDb {
  sortition_params_change : gmap Z SortitionParamsChange;
  sortition_period_data : gmap Z SortitionPeriod;
}.

(** [vrf_threshold] is [sortition_config_.vrf.threshold_upper]. *)
Record SortitionParamsManager := mkSortitionParamsManager {
  vrf_threshold : Z;
  dag_efficiencies_ : list Z;
  ignored_efficiency_counter_ : Z;
  params_changes_ : list SortitionParamsChange;
  sortition_db : SortitionDb;
}.

(** ** Database *)

Definition saveSortitionParamsChange (d : SortitionDb) (period : Z) (c : SortitionParamsChange) : SortitionDb :=
  mkSortitionDb (<[period := c]> (sortition_params_change d)) (sortition_period_data d).

(** The last [count] changes, oldest first. *)
Definition getLastSortitionParams (d : SortitionDb) (count : nat) : list SortitionParamsChange :=
  last_n count (map_items (sortition_params_change d)).*2.

Definition getParamsChangeForPeriod (d : SortitionDb) (period : Z) : option SortitionParamsChange :=
  snd <$> last (filter (fun e => e.1 <= period) (map_items (sortition_params_change d))).

(** ** Operations *)

Section manager.
Context (cfg : SortitionConfig).

Definition calculateDagEfficiency (b : SortitionPeriod) : Z :=
  let total := u64 (sum_list_Z (fun trxs => Z.of_nat (length trxs)) (sp_dag_blocks b)) in
  if total =? 0 then 100 * kOnePercent
  else u16 (u64 (Z.of_nat (length (sp_transactions b)) * 100 * kOnePercent) / total).

(** The sum is an [int]. *)
Definition averageDagEfficiency (m : SortitionParamsManager) : outcome Z :=
  let* _ := oassert (bool_decide (0 < length (dag_efficiencies_ m))%nat) in
  let sum := sum_list_Z id (dag_efficiencies_ m) in
  if 2 ^ 31 <=? sum then Undefined else Done (u16 (sum / Z.of_nat (length (dag_efficiencies_ m)))).

Definition cleanup (m : SortitionParamsManager) : SortitionParamsManager :=
  mkSortitionParamsManager (vrf_threshold m) [] (ignored_efficiency_counter_ m)
    (last_n (Z.to_nat (changes_count_for_average cfg)) (params_changes_ m)) (sortition_db m).

Definition getThresholdChange (efficiency target_efficiency current_threshold : Z) : outcome Z :=
  let change deviation :=
    if u16 deviation <? 20 then current_threshold / 100
    else if u16 deviation <? 40 then UINT16_MAX / 50
    else UINT16_MAX / 20 in
  if target_efficiency <? efficiency then
    if 100 * kOnePercent - target_efficiency =? 0 then Undefined
    else Done (change (Z.quot ((efficiency - target_efficiency) * 100) (100 * kOnePercent - target_efficiency)))
  else if efficiency <? target_efficiency then
    Done (change (Z.quot ((target_efficiency - efficiency) * 100) target_efficiency))
  else Done 0.

(** [lower_bound], and the element before it when the efficiency is over the target. *)
Definition getClosestThreshold (efficiencies : gmap Z Z) (target : Z) (is_over_target : bool) : outcome Z :=
  let items := map_items efficiencies in
  match (if is_over_target then last (filter (fun e => e.1 < target) items)
         else head (filter (fun e => target <= e.1) items)) with
  | Some e => Done e.2
  | None => Undefined
  end.

Fixpoint efficiencies_of (changes : list SortitionParamsChange) (acc : gmap Z Z) : gmap Z Z :=
  match changes with
  | prev :: (c :: _) as rest => efficiencies_of rest (<[interval_efficiency c := spc_threshold_upper prev]> acc)
  | _ => acc
  end.

Definition getEfficienciesToUpperRange (m : SortitionParamsManager) (efficiency last_threshold_upper : Z) : gmap Z Z :=
  let efficiencies := efficiencies_of (params_changes_ m) ∅ in
  if bool_decide (1 < length (params_changes_ m))%nat then <[efficiency := last_threshold_upper]> efficiencies else efficiencies.

Definition getNewUpperRange (m : SortitionParamsManager) (efficiency : Z) : outcome Z :=
  match last (params_changes_ m) with
  | None => AssertFailed
  | Some last_change =>
      let last_threshold_upper := spc_threshold_upper last_change in
      if ((dag_efficiency_targets cfg).1 <=? efficiency) && (efficiency <=? (dag_efficiency_targets cfg).2)
      then Done last_threshold_upper
      else
        let target := targetEfficiency cfg in
        let* change := getThresholdChange efficiency target last_threshold_upper in
        let is_over_target := target <=? efficiency in
        let threshold_change := if is_over_target then change else - change in
        let efficiencies := getEfficienciesToUpperRange m efficiency last_threshold_upper in
        match map_items efficiencies, last (map_items efficiencies) with
        | first :: _, Some greatest =>
            if (greatest.1 <? target) || (target <=? first.1) then Done (last_threshold_upper + threshold_change)
            else
              let* closest := getClosestThreshold efficiencies target is_over_target in
              let is_over_last := last_threshold_upper <=? closest in
              if Bool.eqb is_over_target is_over_last then Done ((closest + last_threshold_upper) / 2)
              else Done (last_threshold_upper + threshold_change)
        | _, _ => Done (last_threshold_upper + threshold_change)
        end
  end.

Definition clamp (x : Z) : Z :=
  if x <? kThresholdUpperMinValue then kThresholdUpperMinValue else if UINT16_MAX <? x then UINT16_MAX else x.

Definition calculateChange (m : SortitionParamsManager) (period : Z) : outcome (SortitionParamsManager * SortitionParamsChange) :=
  let* average := averageDagEfficiency m in
  let* new_upper_range := getNewUpperRange m average in
  let t := u16 (clamp new_upper_range) in
  Done (mkSortitionParamsManager t (dag_efficiencies_ m) (ignored_efficiency_counter_ m) (params_changes_ m) (sortition_db m),
        mkSortitionParamsChange period t average).

Definition counted (ignored : Z) : bool := changing_interval cfg - computation_interval cfg <=? to_signed 32 ignored.

Definition pbftBlockPushed (m : SortitionParamsManager) (b : SortitionPeriod) (non_empty_pbft_chain_size : Z) : outcome SortitionParamsManager :=
  if changing_interval cfg =? 0 then Done m
  else if counted (ignored_efficiency_counter_ m) then
    let m := mkSortitionParamsManager (vrf_threshold m) (dag_efficiencies_ m ++ [calculateDagEfficiency b])
               (ignored_efficiency_counter_ m) (params_changes_ m) (sortition_db m) in
    if non_empty_pbft_chain_size mod changing_interval cfg =? 0 then
      let* (m, c) := calculateChange m (sp_period b) in
      let m := mkSortitionParamsManager (vrf_threshold m) (dag_efficiencies_ m) (ignored_efficiency_counter_ m)
                 (params_changes_ m ++ [c]) (saveSortitionParamsChange (sortition_db m) (sp_period b) c) in
      let m := cleanup m in
      Done (mkSortitionParamsManager (vrf_threshold m) (dag_efficiencies_ m) 0 (params_changes_ m) (sortition_db m))
    else Done m
  else Done (mkSortitionParamsManager (vrf_threshold m) (dag_efficiencies_ m) (u32 (ignored_efficiency_counter_ m + 1))
               (params_changes_ m) (sortition_db m)).

(** One period in the loop of the constructor. *)
Definition count_period (acc : list Z * Z) (b : SortitionPeriod) : list Z * Z :=
  if sp_null_anchor b then acc
  else if counted acc.2 then (acc.1 ++ [calculateDagEfficiency b], acc.2)
  else (acc.1, u32 (acc.2 + 1)).

Fixpoint count_periods (fuel : nat) (d : SortitionDb) (period : Z) (acc : list Z * Z) : option (list Z * Z) :=
  match fuel with
  | O => None
  | S fuel =>
      match sortition_period_data d !! period with
      | None => Some acc
      | Some b => count_periods fuel d (u64 (period + 1)) (count_period acc b)
      end
  end.

(** The constructor; [None] if the loop did not end. *)
Definition construct_sortition (d : SortitionDb) : option SortitionParamsManager :=
  let loaded := getLastSortitionParams d (Z.to_nat (changes_count_for_average cfg)) in
  let '(d, changes, threshold) :=
    match last loaded with
    | None =>
        let pc := mkSortitionParamsChange 0 (sc_threshold_upper cfg) (targetEfficiency cfg) in
        (saveSortitionParamsChange d 0 pc, [pc], sc_threshold_upper cfg)
    | Some c => (d, loaded, spc_threshold_upper c)
    end in
  let start := match last changes with Some c => u64 (spc_period c + 1) | None => 0 end in
  match count_periods (S (size (sortition_period_data d))) d start ([], 0) with
  | None => None
  | Some (efficiencies, ignored) => Some (mkSortitionParamsManager threshold efficiencies ignored changes d)
  end.

Definition getSortitionParams (m : SortitionParamsManager) (period : option Z) : Z :=
  match period with
  | None => vrf_threshold m
  | Some p =>
      if changing_interval cfg =? 0 then vrf_threshold m
      else match getParamsChangeForPeriod (sortition_db m) p with Some c => spc_threshold_upper c | None => vrf_threshold m end
  end.
End manager.
