(* ===== verification/SortitionInv.v ===== *)
(** * Correctness of the threshold adjustment

    Every adjustment returns a threshold within its bounds, in the direction of the
    target efficiency; a restart rebuilds the state of the manager from the database. *)

From S2P Require Import Prelude Sortition.
Local Open Scope Z_scope.
Local Open Scope outcome_scope.

(** ** The new threshold *)

Section manager.
Context (cfg : SortitionConfig).
#[local] Set Default Proof Using "Type*".

Record config_ok : Prop := {
  ok_changing : 1 <= changing_interval cfg < 2 ^ 16;
  ok_computation : 0 <= computation_interval cfg < 2 ^ 16;
  ok_count : 1 <= changes_count_for_average cfg < 2 ^ 16;
  ok_targets : 0 <= (dag_efficiency_targets cfg).1 <= (dag_efficiency_targets cfg).2;
  ok_targets_max : (dag_efficiency_targets cfg).2 <= 100 * kOnePercent;
  ok_threshold : kThresholdUpperMinValue <= sc_threshold_upper cfg <= UINT16_MAX;
}.

Definition threshold_ok (t : Z) : Prop := kThresholdUpperMinValue <= t <= UINT16_MAX.

Lemma target_between : config_ok -> (dag_efficiency_targets cfg).1 <= targetEfficiency cfg <= (dag_efficiency_targets cfg).2.
Proof.
  intros [_ _ _ Ht Hm _]. unfold kOnePercent in Hm. unfold targetEfficiency.
  rewrite wrap_id; [|split; [apply Z.div_pos; lia|apply Z.div_lt_upper_bound; unfold modulus; lia]].
  split; [apply Z.div_le_lower_bound; lia|apply Z.div_le_upper_bound; lia].
Qed.

Lemma threshold_change_effect efficiency target t :
  0 <= efficiency <= 100 * kOnePercent -> 0 <= target <= 100 * kOnePercent -> 0 <= t ->
  exists c, getThresholdChange efficiency target t = Done c /\ 0 <= c.
Proof.
  intros He Ht Hc. unfold getThresholdChange.
  assert (forall d, 0 <= if u16 d <? 20 then t / 100 else if u16 d <? 40 then UINT16_MAX / 50 else UINT16_MAX / 20) as Hd.
  { intros d. repeat case_match; [apply Z.div_pos; lia|vm_compute; discriminate..]. }
  destruct (Z.ltb_spec target efficiency).
  - destruct (Z.eqb_spec (100 * kOnePercent - target) 0); [lia|]. eexists. split; [done|apply Hd].
  - destruct (Z.ltb_spec efficiency target); eexists; (split; [done|]); [apply Hd|lia].
Qed.

Lemma efficiencies_values changes : forall acc k v,
  efficiencies_of changes acc !! k = Some v -> acc !! k = Some v \/ exists c, c ∈ changes /\ v = spc_threshold_upper c.
Proof.
  induction changes as [|a [|b changes] IH]; intros acc k v H; [by left..|].
  change (efficiencies_of (a :: b :: changes) acc) with (efficiencies_of (b :: changes) (<[interval_efficiency b := spc_threshold_upper a]> acc)) in H.
  apply IH in H as [[[_ <-]|[_ H]]%lookup_insert_Some|(c & Hc & ->)]; [right; exists a; split; [apply elem_of_cons; by left|done]|by left|].
  right. exists c. split; [|done]. apply elem_of_cons. by right.
Qed.

(** A position between its neighbours is found, and is a threshold of the map. *)
Lemma closest_effect efficiencies target is_over first greatest items :
  map_items efficiencies = first :: items -> last (map_items efficiencies) = Some greatest -> first.1 < target -> target <= greatest.1 ->
  exists k v, getClosestThreshold efficiencies target is_over = Done v /\ efficiencies !! k = Some v.
Proof.
  intros Ef El Hf Hg. unfold getClosestThreshold. destruct is_over.
  - destruct (last (filter (fun e => e.1 < target) (map_items efficiencies))) as [[k v]|] eqn:E.
    + exists k, v. split; [done|]. apply elem_of_map_items. apply last_Some in E as [l E].
      assert ((k, v) ∈ filter (fun e => e.1 < target) (map_items efficiencies)) as Hin by (rewrite E; apply elem_of_app; right; by left).
      by apply list_elem_of_filter in Hin as [_ Hin].
    + apply last_None in E. rewrite Ef in E. rewrite filter_cons_True in E by done. done.
  - destruct (head (filter (fun e => target <= e.1) (map_items efficiencies))) as [[k v]|] eqn:E.
    + exists k, v. split; [done|]. apply elem_of_map_items.
      destruct (filter _ _) as [|y ys] eqn:Efil; [done|]. injection E as ->.
      assert ((k, v) ∈ filter (fun e => target <= e.1) (map_items efficiencies)) as Hin by (rewrite Efil; by left).
      by apply list_elem_of_filter in Hin as [_ Hin].
    + apply last_Some in El as [l El]. destruct (filter (fun e => target <= e.1) (map_items efficiencies)) as [|y ys] eqn:Efil; [|done].
      assert (greatest ∈ filter (fun e => target <= e.1) (map_items efficiencies)) as Hin.
      { apply list_elem_of_filter. split; [done|]. rewrite El. apply elem_of_app. right. by left. }
      rewrite Efil in Hin. by apply not_elem_of_nil in Hin.
Qed.

(** The threshold stays in the target range, falls below it and rises above it. *)
Lemma new_range_effect m c efficiency :
  config_ok -> last (params_changes_ m) = Some c -> (forall x, x ∈ params_changes_ m -> threshold_ok (spc_threshold_upper x)) ->
  0 <= efficiency <= 100 * kOnePercent ->
  exists r, getNewUpperRange cfg m efficiency = Done r /\
    ((dag_efficiency_targets cfg).1 <= efficiency <= (dag_efficiency_targets cfg).2 -> r = spc_threshold_upper c) /\
    (efficiency < (dag_efficiency_targets cfg).1 -> r <= spc_threshold_upper c) /\
    ((dag_efficiency_targets cfg).2 < efficiency -> spc_threshold_upper c <= r).
Proof.
  intros Hok El Hth He. pose proof (target_between Hok) as Htb. destruct Hok as [_ _ _ Ht Hm _].
  unfold getNewUpperRange. rewrite El. set (T := spc_threshold_upper c).
  destruct (Z.leb_spec (dag_efficiency_targets cfg).1 efficiency), (Z.leb_spec efficiency (dag_efficiency_targets cfg).2); simpl andb; cbv iota.
  1: { eexists. split; [done|]. split_and!; [done|lia|lia]. }
  3: lia.
  all: assert (threshold_ok T) as HT by (apply Hth; apply last_Some in El as [l ->]; apply elem_of_app; right; by left).
  all: unfold threshold_ok, kThresholdUpperMinValue, UINT16_MAX in HT.
  all: destruct (threshold_change_effect efficiency (targetEfficiency cfg) T) as (ch & -> & Hch); [done|lia|lia|]; simpl obind; cbn zeta.
  all: destruct (Z.leb_spec (targetEfficiency cfg) efficiency); [|try lia]; try lia.
  all: set (effs := getEfficienciesToUpperRange m efficiency T).
  all: destruct (map_items effs) as [|first items] eqn:Ei; [eexists; split; [done|split_and!; lia]|].
  all: destruct (last (first :: items)) as [greatest|] eqn:Eg; [|eexists; split; [done|split_and!; lia]].
  all: destruct (Z.ltb_spec greatest.1 (targetEfficiency cfg)); [eexists; split; [done|split_and!; lia]|].
  all: destruct (Z.leb_spec (targetEfficiency cfg) first.1); [eexists; split; [done|split_and!; lia]|].
  all: simpl orb; cbv iota.
  - destruct (closest_effect effs (targetEfficiency cfg) true first greatest items Ei) as (k & v & -> & _); [by rewrite Ei|lia|lia|]. simpl obind.
    destruct (Z.leb_spec T v); simpl Bool.eqb; cbv iota; eexists; (split; [done|split_and!; [lia|lia|]]); intros _; [apply Z.div_le_lower_bound; lia|lia].
  - destruct (closest_effect effs (targetEfficiency cfg) false first greatest items Ei) as (k & v & -> & _); [by rewrite Ei|lia|lia|]. simpl obind.
    destruct (Z.leb_spec T v); simpl Bool.eqb; cbv iota; eexists; (split; [done|split_and!; [lia| |lia]]); intros _; [lia|apply Z.div_le_upper_bound; lia].
Qed.

(** ** The invariant *)

(** A period contains each transaction of its DAG blocks at most once. *)
Definition block_ok (b : SortitionPeriod) : Prop :=
  let total := sum_list_Z (fun trxs => Z.of_nat (length trxs)) (sp_dag_blocks b) in
  Z.of_nat (length (sp_transactions b)) <= total /\ total < 2 ^ 32.

Lemma efficiency_range b : block_ok b -> 0 <= calculateDagEfficiency b <= 100 * kOnePercent.
Proof.
  intros [Hle Hlt]. unfold calculateDagEfficiency, kOnePercent.
  set (total := sum_list_Z _ _) in *. assert (0 <= total) by (subst total; apply sum_list_Z_nonneg; intros; lia).
  rewrite (wrap_id 64 total) by (unfold in_range, modulus; lia). destruct (Z.eqb_spec total 0); [lia|].
  rewrite (wrap_id 64) by (unfold in_range, modulus; lia).
  assert (0 <= Z.of_nat (length (sp_transactions b)) * 100 * 100 / total <= 10000).
  { split; [apply Z.div_pos; lia|apply Z.div_le_upper_bound; lia]. }
  rewrite wrap_id by (unfold in_range, modulus; lia). lia.
Qed.

(** The periods after a change, up to the last one. *)
Definition periods_after (d : SortitionDb) (p n : Z) : list SortitionPeriod :=
  omap (fun q => sortition_period_data d !! q) (seqZ (p + 1) (n - p)).

(** [n] periods, [k] of them with an anchor. *)
Record sortition_inv (n k : Z) (m : SortitionParamsManager) : Prop := {
  s_size : 0 <= n < 2 ^ 64 - 1;
  s_nonempty_size : 0 <= k;
  s_periods : forall p, is_Some (sortition_period_data (sortition_db m) !! p) <-> 1 <= p <= n;
  s_period_ok : forall p b, sortition_period_data (sortition_db m) !! p = Some b -> block_ok b;
  s_changes : params_changes_ m = getLastSortitionParams (sortition_db m) (Z.to_nat (changes_count_for_average cfg));
  s_keys : forall p c, sortition_params_change (sortition_db m) !! p = Some c -> spc_period c = p /\ 0 <= p <= n /\ threshold_ok (spc_threshold_upper c);
  s_last : exists c, last (params_changes_ m) = Some c /\ vrf_threshold m = spc_threshold_upper c /\
    foldl (count_period cfg) ([], 0) (periods_after (sortition_db m) (spc_period c) n) = (dag_efficiencies_ m, ignored_efficiency_counter_ m);
  s_length : Z.of_nat (length (dag_efficiencies_ m)) <= k mod changing_interval cfg;
  s_ignoring : counted cfg (ignored_efficiency_counter_ m) = false -> dag_efficiencies_ m = [];
  s_range : Forall (fun e => 0 <= e <= 100 * kOnePercent) (dag_efficiencies_ m);
  s_ignored : 0 <= ignored_efficiency_counter_ m < 2 ^ 16;
}.

Lemma changes_thresholds n k m : sortition_inv n k m -> forall x, x ∈ params_changes_ m -> threshold_ok (spc_threshold_upper x).
Proof.
  intros Hi x. rewrite (s_changes _ _ _ Hi). unfold getLastSortitionParams. intros Hx%elem_of_last_n.
  apply list_elem_of_fmap in Hx as ([p c] & -> & Hc%elem_of_map_items). by destruct (s_keys _ _ _ Hi _ _ Hc) as (_ & _ & ?).
Qed.

Lemma last_change_key n k m c : config_ok -> sortition_inv n k m -> last (params_changes_ m) = Some c ->
  sortition_params_change (sortition_db m) !! spc_period c = Some c.
Proof.
  intros Hok Hi Hl. rewrite (s_changes _ _ _ Hi) in Hl. unfold getLastSortitionParams in Hl.
  rewrite last_n_last in Hl by (destruct Hok; lia). apply last_Some in Hl as [l Hl].
  assert (c ∈ (map_items (sortition_params_change (sortition_db m))).*2) as Hc by (rewrite Hl; apply elem_of_app; right; by left).
  apply list_elem_of_fmap in Hc as ([p c'] & -> & Hc%elem_of_map_items). simpl. by destruct (s_keys _ _ _ Hi _ _ Hc) as (-> & _).
Qed.

(** ** One change *)

Lemma average_effect m : dag_efficiencies_ m <> [] -> Forall (fun e => 0 <= e <= 100 * kOnePercent) (dag_efficiencies_ m) ->
  Z.of_nat (length (dag_efficiencies_ m)) <= 2 ^ 16 ->
  exists a, averageDagEfficiency m = Done a /\ 0 <= a <= 100 * kOnePercent.
Proof.
  intros Hne Hr Hlen. unfold averageDagEfficiency. destruct (dag_efficiencies_ m) as [|e0 l0] eqn:E; [done|]. rewrite <- E in *. clear Hne.
  rewrite bool_decide_true by (rewrite E; simpl; lia). simpl obind.
  assert (0 <= sum_list_Z id (dag_efficiencies_ m) <= 10000 * Z.of_nat (length (dag_efficiencies_ m))) as Hs.
  { clear -Hr. induction (dag_efficiencies_ m) as [|e l IH]; [simpl; lia|]. apply Forall_cons in Hr as [He Hr]. specialize (IH Hr).
    unfold kOnePercent in He. cbn [sum_list_Z foldr length] in *. unfold id at 1 3. fold (sum_list_Z id l). lia. }
  destruct (Z.leb_spec (2 ^ 31) (sum_list_Z id (dag_efficiencies_ m))); [lia|]. eexists. split; [done|]. unfold kOnePercent.
  assert (0 < Z.of_nat (length (dag_efficiencies_ m))) by (rewrite E; simpl; lia).
  assert (0 <= sum_list_Z id (dag_efficiencies_ m) / Z.of_nat (length (dag_efficiencies_ m)) <= 10000).
  { split; [apply Z.div_pos; lia|apply Z.div_le_upper_bound; lia]. }
  rewrite wrap_id by (unfold in_range, modulus; lia). lia.
Qed.

Lemma clamp_range x : threshold_ok (clamp x) /\ (threshold_ok x -> clamp x = x).
Proof.
  unfold threshold_ok, clamp, kThresholdUpperMinValue, UINT16_MAX.
  destruct (Z.ltb_spec x 80); [lia|]. destruct (Z.ltb_spec 65535 x); lia.
Qed.

(** What a change does to the threshold. *)
Definition adjusted (average old new : Z) : Prop :=
  threshold_ok new /\
  ((dag_efficiency_targets cfg).1 <= average <= (dag_efficiency_targets cfg).2 -> new = old) /\
  (average < (dag_efficiency_targets cfg).1 -> new <= old) /\
  ((dag_efficiency_targets cfg).2 < average -> old <= new).

Lemma calculateChange_effect m c period :
  config_ok -> last (params_changes_ m) = Some c -> (forall x, x ∈ params_changes_ m -> threshold_ok (spc_threshold_upper x)) ->
  dag_efficiencies_ m <> [] -> Forall (fun e => 0 <= e <= 100 * kOnePercent) (dag_efficiencies_ m) -> Z.of_nat (length (dag_efficiencies_ m)) <= 2 ^ 16 ->
  exists average t, averageDagEfficiency m = Done average /\ 
    calculateChange cfg m period = Done (mkSortitionParamsManager t (dag_efficiencies_ m) (ignored_efficiency_counter_ m) (params_changes_ m) (sortition_db m),
      mkSortitionParamsChange period t average) /\ adjusted average (spc_threshold_upper c) t.
Proof.
  intros Hok Hl Hth Hne Hr Hlen. destruct (average_effect m Hne Hr Hlen) as (a & Ea & Ha). unfold calculateChange. rewrite Ea. simpl obind.
  destruct (new_range_effect m c a Hok Hl Hth Ha) as (r & Er & H1 & H2 & H3). rewrite Er. simpl obind.
  destruct (clamp_range r) as [Hc Hid]. exists a, (clamp r). split; [done|].
  rewrite wrap_id by (unfold in_range, modulus; unfold threshold_ok, kThresholdUpperMinValue, UINT16_MAX in Hc; lia). split; [done|].
  assert (threshold_ok (spc_threshold_upper c)) as Hold by (apply Hth; apply last_Some in Hl as [l ->]; apply elem_of_app; right; by left).
  split; [done|]. split_and!.
  - intros Hin. rewrite H1 by done. by apply clamp_range.
  - intros Hlow. specialize (H2 Hlow). revert Hold. clear -H2. unfold threshold_ok, clamp, kThresholdUpperMinValue, UINT16_MAX. intros.
    destruct (Z.ltb_spec r 80); [lia|]. destruct (Z.ltb_spec 65535 r); lia.
  - intros Hhigh. specialize (H3 Hhigh). revert Hold. clear -H3. unfold threshold_ok, clamp, kThresholdUpperMinValue, UINT16_MAX. intros.
    destruct (Z.ltb_spec r 80); [lia|]. destruct (Z.ltb_spec 65535 r); lia.
Qed.

(** ** A block is pushed *)

(** The manager's part of [pushPbftBlock_]; blocks with a null anchor are not counted. *)
Definition push_sortition (m : SortitionParamsManager) (b : SortitionPeriod) (non_empty_size : Z) : outcome SortitionParamsManager :=
  let d := mkSortitionDb (sortition_params_change (sortition_db m)) (<[sp_period b := b]> (sortition_period_data (sortition_db m))) in
  let m := mkSortitionParamsManager (vrf_threshold m) (dag_efficiencies_ m) (ignored_efficiency_counter_ m) (params_changes_ m) d in
  if sp_null_anchor b then Done m else pbftBlockPushed cfg m b (u64 (non_empty_size + 1)).

Lemma periods_after_push d d' p n b :
  p <= n -> sortition_period_data d' = <[n + 1 := b]> (sortition_period_data d) ->
  periods_after d' p (n + 1) = periods_after d p n ++ [b].
Proof.
  intros Hp Hd. unfold periods_after. replace (n + 1 - p) with ((n - p) + 1) by lia. rewrite seqZ_app by lia. rewrite omap_app. f_equal.
  - rewrite Hd. apply list_omap_ext, Forall_Forall2_diag, Forall_forall. intros q Hq%elem_of_seqZ. by rewrite lookup_insert_ne by lia.
  - replace (p + 1 + (n - p)) with (n + 1) by lia. simpl. rewrite Hd. by rewrite lookup_insert_eq.
Qed.

Lemma push_inv n k m b :
  config_ok -> sortition_inv n k m -> block_ok b -> sp_period b = n + 1 -> n + 1 < 2 ^ 64 - 1 -> k + 1 < 2 ^ 64 ->
  exists m', push_sortition m b k = Done m' /\ sortition_inv (n + 1) (if sp_null_anchor b then k else k + 1) m' /\
    (vrf_threshold m' = vrf_threshold m \/ exists average, adjusted average (vrf_threshold m) (vrf_threshold m')).
Proof.
  intros Hok Hi Hb Hp Hn Hk. pose proof (changes_thresholds n k m Hi) as Hth. pose proof Hi as [I1 I2 I3 I4 I5 I6 I7 I8 I9 I10 I11].
  destruct I7 as (c & L1 & L2 & L3). pose proof (last_change_key n k m c Hok Hi L1) as Hkey. destruct (I6 _ _ Hkey) as (_ & Hcp & Hct).
  pose proof Hok as [K1 K2 K3 _ _ _]. unfold push_sortition. rewrite Hp.
  set (d := mkSortitionDb _ _). pose proof (periods_after_push (sortition_db m) d (spc_period c) n b ltac:(lia) eq_refl) as Hper.
  assert (forall p, is_Some (sortition_period_data d !! p) <-> 1 <= p <= n + 1) as P1.
  { intros p. simpl. destruct (decide (p = n + 1)) as [->|]; [rewrite lookup_insert_eq; split; [lia|by eexists]|].
    rewrite lookup_insert_ne by done. rewrite I3. lia. }
  assert (forall p x, sortition_period_data d !! p = Some x -> block_ok x) as P2.
  { intros p x Hx. simpl in Hx. apply lookup_insert_Some in Hx as [[_ <-]|[_ Hx]]; [done|by eapply I4]. }
  assert (forall p x, sortition_params_change d !! p = Some x -> spc_period x = p /\ 0 <= p <= n + 1 /\ threshold_ok (spc_threshold_upper x)) as P3.
  { intros p x Hx. destruct (I6 p x Hx) as (? & ? & ?). split_and!; try done; lia. }
  destruct (sp_null_anchor b) eqn:Enull.
  { eexists. split; [done|]. split; [|by left]. split; try done; [lia|]. exists c. simpl. split_and!; try done.
    rewrite Hper, foldl_app, L3. simpl. unfold count_period. by rewrite Enull. }
  unfold pbftBlockPushed. destruct (Z.eqb_spec (changing_interval cfg) 0); [lia|]. cbn zeta iota beta. simpl ignored_efficiency_counter_.
  rewrite (wrap_id 64 (k + 1)) by (unfold in_range, modulus; lia).
  destruct (counted cfg (ignored_efficiency_counter_ m)) eqn:Ec.
  2: { specialize (I9 eq_refl). eexists. split; [done|]. split; [|by left].
    assert (ignored_efficiency_counter_ m + 1 < 2 ^ 16) as Hlt.
    { unfold counted in Ec. apply Z.leb_gt in Ec. rewrite to_signed_small in Ec by lia. lia. }
    split; simpl; try done; try lia.
    - exists c. split_and!; try done. rewrite Hper, foldl_app, L3. simpl. unfold count_period. rewrite Enull. simpl. by rewrite Ec.
    - rewrite I9. simpl. apply Z.mod_pos_bound. lia.
    - rewrite wrap_id; [lia|unfold in_range, modulus; lia]. }
  set (e := calculateDagEfficiency b). pose proof (efficiency_range b Hb) as He. fold e in He.
  assert (Forall (fun e => 0 <= e <= 100 * kOnePercent) (dag_efficiencies_ m ++ [e])) as Hr by (apply Forall_app; split; [done|constructor; [exact He|constructor]]).
  assert (Z.of_nat (length (dag_efficiencies_ m ++ [e])) <= k mod changing_interval cfg + 1) as Hlen by (rewrite length_app; simpl; lia).
  pose proof (Z.mod_pos_bound k (changing_interval cfg) ltac:(lia)) as Hmod.
  destruct (Z.eqb_spec ((k + 1) mod changing_interval cfg) 0) as [Hz|Hnz].
  - set (m1 := mkSortitionParamsManager (vrf_threshold m) (dag_efficiencies_ m ++ [e]) (ignored_efficiency_counter_ m) (params_changes_ m) d).
    destruct (calculateChange_effect m1 c (sp_period b) Hok L1 Hth) as (a & t & _ & Et & Hadj); [by destruct (dag_efficiencies_ m)|done|simpl; lia|].
    change (calculateChange cfg _ (sp_period b)) with (calculateChange cfg m1 (sp_period b)). rewrite Et. simpl obind. eexists. split; [done|].
    split; [|right; exists a; simpl; by rewrite L2]. 
    assert (map_items (<[n + 1 := mkSortitionParamsChange (n + 1) t a]> (sortition_params_change (sortition_db m))) =
      map_items (sortition_params_change (sortition_db m)) ++ [(n + 1, mkSortitionParamsChange (n + 1) t a)]) as Hsnoc.
    { apply map_items_snoc. intros p x Hx. destruct (I6 _ _ Hx) as (_ & ? & _). lia. }
    split; simpl; rewrite ?Hp; try done; try lia.
    + rewrite I5. unfold getLastSortitionParams. simpl. rewrite Hsnoc, fmap_app. simpl. by rewrite last_n_snoc.
    + intros p x [[<- <-]|[_ Hx]]%lookup_insert_Some; [|by apply P3]. simpl. split_and!; [done|lia|lia|apply Hadj].
    + exists (mkSortitionParamsChange (n + 1) t a). rewrite last_n_last by lia. rewrite last_snoc. split_and!; try done.
      simpl. unfold periods_after. by rewrite Z.sub_diag.
  - eexists. split; [done|]. split; [|by left].
    assert ((k + 1) mod changing_interval cfg = k mod changing_interval cfg + 1) as Hm1.
    { rewrite Z.add_mod in Hnz |- * by lia. destruct (decide (changing_interval cfg = 1)) as [E1|]; [rewrite E1, !Z.mod_1_r in Hnz; done|].
      rewrite (Z.mod_small 1) in Hnz |- * by lia. destruct (decide (k mod changing_interval cfg + 1 = changing_interval cfg)) as [E2|].
      - rewrite E2, Z.mod_same in Hnz by lia. done.
      - rewrite Z.mod_small by lia. done. }
    split; simpl; try done; try lia; [|by rewrite Ec].
    exists c. split_and!; try done. rewrite Hper, foldl_app, L3. simpl. unfold count_period. rewrite Enull. simpl. by rewrite Ec.
Qed.

(** ** Restart *)

Lemma count_periods_effect d n : forall fuel p acc,
  (forall q, is_Some (sortition_period_data d !! q) <-> 1 <= q <= n) -> n < 2 ^ 64 - 1 -> 1 <= p <= n + 1 -> n + 1 - p < Z.of_nat fuel ->
  count_periods cfg fuel d p acc = Some (foldl (count_period cfg) acc (periods_after d (p - 1) n)).
Proof.
  induction fuel as [|fuel IH]; intros p acc Hd Hn Hp Hf; [lia|]. simpl. unfold periods_after. replace (p - 1 + 1) with p by lia.
  destruct (sortition_period_data d !! p) as [b|] eqn:E.
  - assert (1 <= p <= n) by (apply Hd; by eexists). rewrite wrap_id by (unfold in_range, modulus; lia). rewrite IH by (done || lia).
    f_equal. rewrite (seqZ_cons p) by lia. simpl. rewrite E. simpl. unfold periods_after.
    replace (p + 1 - 1 + 1) with (Z.succ p) by lia. by replace (n - (p + 1 - 1)) with (Z.pred (n - (p - 1))) by lia.
  - assert (p = n + 1) as ->. { destruct (decide (p = n + 1)); [done|]. assert (is_Some (sortition_period_data d !! p)) as [? Hs] by (apply Hd; lia). congruence. }
    replace (n - (n + 1 - 1)) with 0 by lia. done.
Qed.

Lemma periods_size d n : 0 <= n -> (forall q, is_Some (sortition_period_data d !! q) <-> 1 <= q <= n) -> Z.of_nat (size (sortition_period_data d)) = n.
Proof.
  intros Hn Hd. rewrite <- size_dom. replace (dom (sortition_period_data d)) with (list_to_set (C := gset Z) (seqZ 1 n)).
  - rewrite size_list_to_set by apply NoDup_seqZ. rewrite length_seqZ. lia.
  - apply set_eq. intros q. rewrite elem_of_list_to_set, elem_of_seqZ, elem_of_dom, Hd. lia.
Qed.

Lemma restart_same n k m : config_ok -> sortition_inv n k m -> construct_sortition cfg (sortition_db m) = Some m.
Proof.
  intros Hok Hi. pose proof Hi as [I1 I2 I3 I4 I5 I6 (c & L1 & L2 & L3) I8 I9 I10 I11].
  pose proof (last_change_key n k m c Hok Hi L1) as Hkey. destruct (I6 _ _ Hkey) as (_ & Hcp & _).
  unfold construct_sortition. rewrite <- I5, L1. cbn beta iota zeta. rewrite L1.
  rewrite (wrap_id 64) by (unfold in_range, modulus; lia).
  rewrite (count_periods_effect (sortition_db m) n) by (done || lia || (rewrite Nat2Z.inj_succ, (periods_size _ n) by (done || lia); lia)).
  replace (spc_period c + 1 - 1) with (spc_period c) by lia. rewrite L3, <- L2. by destruct m.
Qed.

(** The threshold of the last period is the current one. *)
Lemma params_current n k m : config_ok -> sortition_inv n k m -> getSortitionParams cfg m (Some n) = vrf_threshold m.
Proof.
  intros Hok Hi. pose proof Hi as [I1 I2 I3 I4 I5 I6 (c & L1 & L2 & L3) I8 I9 I10 I11]. unfold getSortitionParams, getParamsChangeForPeriod.
  destruct (Z.eqb_spec (changing_interval cfg) 0) as [E|_]; [destruct Hok; lia|].
  rewrite list_filter_keeps by (intros [p x] Hx%elem_of_map_items; destruct (I6 _ _ Hx) as (_ & ? & _); simpl; lia).
  rewrite I5 in L1. unfold getLastSortitionParams in L1. rewrite last_n_last in L1 by (destruct Hok; lia).
  rewrite fmap_last in L1. rewrite L1. done.
Qed.

(** ** Runs *)

Record SortitionRun := mkSortitionRun { run_mgr : SortitionParamsManager; run_periods : Z; run_nonempty : Z }.

Inductive sortition_step (s s' : SortitionRun) : Prop :=
| step_pushed b : block_ok b -> sp_period b = run_periods s + 1 -> run_periods s + 1 < 2 ^ 64 - 1 -> run_nonempty s + 1 < 2 ^ 64 ->
    push_sortition (run_mgr s) b (run_nonempty s) = Done (run_mgr s') -> run_periods s' = run_periods s + 1 ->
    run_nonempty s' = (if sp_null_anchor b then run_nonempty s else run_nonempty s + 1) -> sortition_step s s'
| step_restarted : construct_sortition cfg (sortition_db (run_mgr s)) = Some (run_mgr s') -> run_periods s' = run_periods s ->
    run_nonempty s' = run_nonempty s -> sortition_step s s'.

Definition first_change : SortitionParamsChange := mkSortitionParamsChange 0 (sc_threshold_upper cfg) (targetEfficiency cfg).
Definition first_run : SortitionRun :=
  mkSortitionRun (mkSortitionParamsManager (sc_threshold_upper cfg) [] 0 [first_change] (mkSortitionDb {[ 0 := first_change ]} ∅)) 0 0.

(** The first start of a node. *)
Lemma first_run_start : construct_sortition cfg (mkSortitionDb ∅ ∅) = Some (run_mgr first_run).
Proof.
  unfold construct_sortition, getLastSortitionParams. simpl sortition_params_change. rewrite map_items_empty. simpl fmap.
  assert (last_n (Z.to_nat (changes_count_for_average cfg)) [] = ([] : list SortitionParamsChange)) as -> by (unfold last_n; by rewrite drop_nil).
  simpl. done.
Qed.

Lemma first_run_inv : config_ok -> sortition_inv 0 0 (run_mgr first_run).
Proof.
  intros Hok. pose proof Hok as [K1 K2 K3 K4 K5 K6]. split; simpl; try done; try lia.
  - intros p. rewrite lookup_empty. split; [by intros []|lia].
  - unfold getLastSortitionParams. simpl. replace (map_items {[0 := first_change]}) with [(0, first_change)].
    + simpl. unfold last_n. simpl. replace (1 - Z.to_nat (changes_count_for_average cfg))%nat with 0%nat by lia. done.
    + symmetry. rewrite <- insert_empty. rewrite map_items_snoc by (intros ??; by rewrite lookup_empty). by rewrite map_items_empty.
  - intros p c [<- <-]%lookup_singleton_Some. simpl. split_and!; [done|lia|lia|apply K6].
  - exists first_change. simpl. done.
Qed.

Lemma run_inv s : config_ok -> rtc sortition_step first_run s -> sortition_inv (run_periods s) (run_nonempty s) (run_mgr s).
Proof.
  intros Hok Hr. pose proof (first_run_inv Hok) as Hi. change 0 with (run_periods first_run) in Hi at 1. change 0 with (run_nonempty first_run) in Hi.
  revert Hi. induction Hr as [|s0 s1 s2 Hs Hr IH]; [done|]. intros Hi. apply IH. destruct Hs as [b Hb Hp Hn Hk E P N|E P N]; rewrite P, N.
  - destruct (push_inv _ _ _ b Hok Hi Hb Hp Hn Hk) as (m' & E' & Hi' & _). congruence.
  - rewrite (restart_same _ _ _ Hok Hi) in E. injection E as <-. done.
Qed.


(** The constructor of the sortition manager rebuilds, from the database of any
    state reached, exactly that state: the threshold, the recent changes, the efficiencies
    counted since the last change and the number of ignored blocks; and the threshold the
    database gives for the last period is the current one. *)
Theorem sortition_restart_same s :
  config_ok -> rtc sortition_step first_run s ->
  construct_sortition cfg (sortition_db (run_mgr s)) = Some (run_mgr s) /\
  getSortitionParams cfg (run_mgr s) (Some (run_periods s)) = getSortitionParams cfg (run_mgr s) None.
Proof.
  intros Hok Hr. pose proof (run_inv s Hok Hr) as Hi. split; [by eapply restart_same|]. simpl. by apply (params_current _ _ _ Hok Hi).
Qed.
End manager.

(** ** Examples *)

Definition ex_sortition : SortitionConfig := mkSortitionConfig 26214 2 (6900, 7100) 2 1.
Definition ex_block (p : Z) : SortitionPeriod := mkSortitionPeriod p false [[1; 2]; [2; 3]; [1; 2; 3; 4]] [1; 2; 3; 4].

Fixpoint ex_push (blocks : list SortitionPeriod) (s : SortitionRun) : SortitionRun :=
  match blocks with
  | [] => s
  | b :: rest =>
      match push_sortition ex_sortition (run_mgr s) b (run_nonempty s) with
      | Done m => ex_push rest (mkSortitionRun m (run_periods s + 1) (run_nonempty s + 1))
      | _ => s
      end
  end.
Definition ex_run : SortitionRun := ex_push [ex_block 1; ex_block 2; ex_block 3] (first_run ex_sortition).

Lemma ex_config_ok : config_ok ex_sortition.
Proof. split; simpl; unfold kOnePercent, kThresholdUpperMinValue, UINT16_MAX; lia. Qed.

Lemma ex_run_reached : rtc (sortition_step ex_sortition) (first_run ex_sortition) ex_run.
Proof.
  assert (forall p, block_ok (ex_block p)) as Hb by (intros p; split; simpl; lia).
  eapply rtc_l; [apply (step_pushed _ _ (ex_push [ex_block 1] (first_run ex_sortition)) (ex_block 1)); try done; vm_compute; reflexivity|].
  eapply rtc_l; [apply (step_pushed _ _ (ex_push [ex_block 1; ex_block 2] (first_run ex_sortition)) (ex_block 2)); try done; vm_compute; reflexivity|].
  apply rtc_once, (step_pushed _ _ _ (ex_block 3)); try done; vm_compute; reflexivity.
Qed.


Lemma sortition_restart_witness : construct_sortition ex_sortition (sortition_db (run_mgr ex_run)) = Some (run_mgr ex_run).
Proof. apply (sortition_restart_same ex_sortition ex_run ex_config_ok ex_run_reached). Defined.
