(* ===== verification/PbftManager.v ===== *)
(** * The PBFT manager: rounds, steps and votes

    [PbftManager] (consensus/src/pbft/pbft_manager.cpp), the state machine of a
    validator: the five states of a round, what it votes for in each of them, how
    it moves to the next step, round and period, and what it keeps in the database
    for a restart.  The vote manager is used through the interface [VoteService];
    the answers of the other components at one moment are collected in [Env]. *)

From S2P Require Import Prelude Votes VerifiedVotes PbftChain TransactionQueue TransactionReorder.
Local Open Scope Z_scope.
Local Open Scope outcome_scope.

(** ** The vote manager as the PBFT manager sees it *)

Class VoteService (V : Type) := {
  voted_block : V -> PbftPeriod -> PbftRound -> TwoTPlusOneVotedBlockType -> option blk_hash_t;
  voted_votes : V -> PbftPeriod -> PbftRound -> TwoTPlusOneVotedBlockType -> outcome (list PbftVote);
  new_round : V -> PbftPeriod -> PbftRound -> option PbftRound;
  next_voting_step : V -> PbftPeriod -> PbftRound -> PbftStep;
  proposal_votes : V -> PbftPeriod -> PbftRound -> list PbftVote;
  is_unique : V -> PbftVote -> bool;
  reward_votes : V -> outcome (list PbftVote);
  own_verified_votes : V -> list PbftVote;
  add_vote : (PbftPeriod -> option Z) -> PbftPeriod -> V -> PbftVote -> outcome (V * bool);
  save_own : V -> PbftVote -> V;
  clear_own : V -> V;
  set_period_round : V -> PbftPeriod -> PbftRound -> outcome V;
  cleanup_votes : V -> PbftPeriod -> V;
  reset_reward : V -> PbftPeriod -> PbftRound -> PbftStep -> blk_hash_t -> outcome V;
}.

(** What it promises: blocks with 2t+1 votes stay recorded while votes are added. *)
Class VoteServiceLaws (V : Type) `{VoteService V} := {
  add_vote_keeps dpos size v vote v' b p r t h :
    add_vote dpos size v vote = Done (v', b) -> voted_block v p r t = Some h -> voted_block v' p r t = Some h;
  clear_own_keeps v p r t : voted_block (clear_own v) p r t = voted_block v p r t;
  save_own_keeps v vote p r t : voted_block (save_own v vote) p r t = voted_block v p r t;
  set_period_round_keeps v p r v' p' r' t :
    set_period_round v p r = Done v' -> voted_block v' p' r' t = voted_block v p' r' t;
}.

(** ** Data *)

Inductive PbftStates := value_proposal_state | filter_state | certify_state | finish_state | finish_polling_state.

#[export] Instance PbftStates_eq_dec : EqDecision PbftStates.
Proof. solve_decision. Defined.

Record PbftMgrConfig := mkPbftMgrConfig {
  lambda_ms : Z;
  isOnCactiHardfork : PbftPeriod -> bool;
  lambda_default : Z;
  lambda_min : Z;
  lambda_max : Z;
  lambda_change : Z;
  lambda_change_interval : Z;
  isDynamicLambdaChangeInterval : PbftPeriod -> bool;
  block_propagation_min : Z;
  block_propagation_max : Z;
  isPbftWithPillarBlockPeriod : PbftPeriod -> bool;
  isPillarBlockPeriod : PbftPeriod -> bool;
  isFicusHardfork : PbftPeriod -> bool;
  dpos_blocks_per_year : Z;
  calcBlocksPerYear : Z -> Z;
  dag_blocks_size : Z;
  ghost_path_move_back : Z;
  pbft_gas_limit : PbftPeriod -> Z;
  dag_genesis_block_hash_ : blk_hash_t;
}.

(** The columns of the manager in the database. *)
Record PbftMgrDb := mkPbftMgrDb {
  db_round : Z;
  db_step : Z;
  db_next_voted_soft_value : bool;
  db_next_voted_null_block_hash : bool;
  db_executed_block : bool;
  db_cert_voted_block_in_round : option (PbftRound * PbftBlock);
  db_lambda : Z;
  db_rounds_count : Z;
}.

Record BroadcastCounters := mkBroadcastCounters {
  broadcast_votes_counter_ : Z;
  rebroadcast_votes_counter_ : Z;
  broadcast_reward_votes_counter_ : Z;
  rebroadcast_reward_votes_counter_ : Z;
}.

Record EligibleWallets := mkEligibleWallets {
  wallets_period_ : PbftPeriod;
  wallets_ : list (bool * addr_t);
}.

(** The part of the extra data that varies: the pillar block hash. *)
Record PbftBlockExtraData := mkPbftBlockExtraData { pillar_block_hash_ : option blk_hash_t }.

(** What is pushed into the chain: a block, its DAG blocks and transactions. *)
Record PeriodData := mkPeriodData {
  pd_pbft_blk : PbftBlock;
  pd_previous_block_cert_votes : list PbftVote;
  pd_dag_blocks : list blk_hash_t;
  pd_transactions : list Transaction;
  pd_pillar_votes : option (list Z);
}.

(** Calls into the other components and the database. *)
Inductive pbft_call :=
| SaveOwnVote (vote : PbftVote)
| GossipVote (vote : PbftVote) (block : option PbftBlock) (rebroadcast : bool)
| GossipVotesBundle (votes : list PbftVote) (rebroadcast : bool)
| PlacePillarVote (wallet : addr_t) (period : PbftPeriod) (block_hash : blk_hash_t)
| GossipPillarVote (vote : Z) (rebroadcast : bool)
| SavePeriodData (head : Chain.PbftHead) (period_data : PeriodData)
| SortitionPbftBlockPushed (period_data : PeriodData) (non_empty_pbft_chain_size : PbftPeriod)
| SetDagBlockOrder (anchor : blk_hash_t) (period : PbftPeriod) (order : list blk_hash_t)
| UpdateFinalizedTransactionsStatus (period_data : PeriodData)
| SavePeriodLambda (period : PbftPeriod) (lambda : Z)
| Finalize (period_data : PeriodData) (dag_blocks_order : list blk_hash_t) (blocks_per_year : Z)
| CreatePillarBlock (period : PbftPeriod).

Record PbftManager (V : Type) := mkPbftManager {
  round_m : PbftRound;
  step_m : PbftStep;
  state_ : PbftStates;
  cert_voted_block_for_round_ : option PbftBlock;
  already_next_voted_value_ : bool;
  already_next_voted_null_block_hash_ : bool;
  executed_pbft_block_ : bool;
  go_finish_state_ : bool;
  loop_back_finish_state_ : bool;
  current_round_lambda_ : Z;
  dynamic_lambda_ : Z;
  rounds_count_dynamic_lambda_ : Z;
  next_step_time_ms_ : Z;
  current_round_start_datetime_ : Z;
  current_period_start_datetime_ : Z;
  second_finish_step_start_datetime_ : Z;
  counters_ : BroadcastCounters;
  last_placed_pillar_vote_period_ : PbftPeriod;
  eligible_wallets_ : EligibleWallets;
  pbft_chain_ : Chain.PbftChain;
  vote_mgr_ : V;
  blocks_ : Proposed.ProposedBlocks;
  pm_db : PbftMgrDb;
  pm_calls : list pbft_call;
}.
Arguments mkPbftManager {V} _ _ _ _ _ _ _ _ _ _ _ _ _ _ _ _ _ _ _ _ _ _ _ _.
Arguments round_m {V} _.
Arguments step_m {V} _.
Arguments state_ {V} _.
Arguments cert_voted_block_for_round_ {V} _.
Arguments already_next_voted_value_ {V} _.
Arguments already_next_voted_null_block_hash_ {V} _.
Arguments executed_pbft_block_ {V} _.
Arguments go_finish_state_ {V} _.
Arguments loop_back_finish_state_ {V} _.
Arguments current_round_lambda_ {V} _.
Arguments dynamic_lambda_ {V} _.
Arguments rounds_count_dynamic_lambda_ {V} _.
Arguments next_step_time_ms_ {V} _.
Arguments current_round_start_datetime_ {V} _.
Arguments current_period_start_datetime_ {V} _.
Arguments second_finish_step_start_datetime_ {V} _.
Arguments counters_ {V} _.
Arguments last_placed_pillar_vote_period_ {V} _.
Arguments eligible_wallets_ {V} _.
Arguments pbft_chain_ {V} _.
Arguments vote_mgr_ {V} _.
Arguments blocks_ {V} _.
Arguments pm_db {V} _.
Arguments pm_calls {V} _.

(** The answers of the other components at one moment. *)
Record Env := mkEnv {
  now : Z;
  network : option bool;                                  (* [pbft_syncing], if there is a network *)
  env_dpos : PbftPeriod -> option Z;
  validatePbftBlock : PbftBlock -> bool;
  generateVoteWithWeight : blk_hash_t -> PbftVoteTypes -> PbftPeriod -> PbftRound -> PbftStep -> addr_t -> option PbftVote;
  getPillarBlockHash : PbftBlock -> blk_hash_t;
  getCurrentPillarBlock : option (PbftPeriod * blk_hash_t);
  genAndPlacePillarVote : PbftPeriod -> blk_hash_t -> addr_t -> bool;
  getProposal : PbftVote -> Z;
  findPbftBlockInChain : blk_hash_t -> bool;
  env_checkRewardVotes : PbftBlock -> option (list PbftVote);
  vrf_sortition_ok : PbftPeriod -> PbftRound -> addr_t -> bool;
  finalChainHash : PbftPeriod -> option blk_hash_t;
  makePbftBlock : blk_hash_t -> blk_hash_t -> blk_hash_t -> blk_hash_t -> PbftPeriod -> addr_t -> list vote_hash_t ->
    option PbftBlockExtraData -> PbftBlock;               (* signs and hashes a new block *)
  getGhostPath : blk_hash_t -> list blk_hash_t;
  last_level_block : option blk_hash_t;                   (* first block of the last non-finalized level *)
  getDagBlockOrder : blk_hash_t -> PbftPeriod -> list blk_hash_t;
  getDagBlockGas : blk_hash_t -> option Z;
  order_sha3 : list blk_hash_t -> blk_hash_t;
  dposIsEligible : PbftPeriod -> addr_t -> bool;
  lastBlockNumber : PbftPeriod;
  delegationDelay : PbftPeriod;
  pbftBlockInDb : blk_hash_t -> bool;
  finalizePillarBlock : blk_hash_t -> list Z;
  createPillarBlock : PbftPeriod -> option blk_hash_t;
  cached_dag_order : blk_hash_t -> option (list (blk_hash_t * list trx_hash_t)); (* [anchor_dag_block_order_cache_] *)
  getNonfinalizedTrx : list trx_hash_t -> list Transaction;
  getPeriodLambda : PbftPeriod -> option Z;
  getOwnPillarBlockVote : option Z;
}.

Definition kPollingIntervalMs : Z := 100.
Definition kMaxSteps : PbftStep := 13.
Definition kMaxExponentialLambda : Z := 60000.
Definition kBroadcastVotesLambdaTime : Z := 20.
Definition kRebroadcastVotesLambdaTime : Z := 60.

Section manager.
Context {V : Type} `{VoteService V} (cfg : PbftMgrConfig).

Definition set_round_m (m : PbftManager V) (x : PbftRound) : PbftManager V :=
  mkPbftManager x (step_m m) (state_ m) (cert_voted_block_for_round_ m) (already_next_voted_value_ m)
    (already_next_voted_null_block_hash_ m) (executed_pbft_block_ m) (go_finish_state_ m)
    (loop_back_finish_state_ m) (current_round_lambda_ m) (dynamic_lambda_ m) (rounds_count_dynamic_lambda_ m)
    (next_step_time_ms_ m) (current_round_start_datetime_ m) (current_period_start_datetime_ m)
    (second_finish_step_start_datetime_ m) (counters_ m) (last_placed_pillar_vote_period_ m)
    (eligible_wallets_ m) (pbft_chain_ m) (vote_mgr_ m) (blocks_ m) (pm_db m) (pm_calls m).

Definition set_step_m (m : PbftManager V) (x : PbftStep) : PbftManager V :=
  mkPbftManager (round_m m) x (state_ m) (cert_voted_block_for_round_ m) (already_next_voted_value_ m)
    (already_next_voted_null_block_hash_ m) (executed_pbft_block_ m) (go_finish_state_ m)
    (loop_back_finish_state_ m) (current_round_lambda_ m) (dynamic_lambda_ m) (rounds_count_dynamic_lambda_ m)
    (next_step_time_ms_ m) (current_round_start_datetime_ m) (current_period_start_datetime_ m)
    (second_finish_step_start_datetime_ m) (counters_ m) (last_placed_pillar_vote_period_ m)
    (eligible_wallets_ m) (pbft_chain_ m) (vote_mgr_ m) (blocks_ m) (pm_db m) (pm_calls m).

Definition set_state (m : PbftManager V) (x : PbftStates) : PbftManager V :=
  mkPbftManager (round_m m) (step_m m) x (cert_voted_block_for_round_ m) (already_next_voted_value_ m)
    (already_next_voted_null_block_hash_ m) (executed_pbft_block_ m) (go_finish_state_ m)
    (loop_back_finish_state_ m) (current_round_lambda_ m) (dynamic_lambda_ m) (rounds_count_dynamic_lambda_ m)
    (next_step_time_ms_ m) (current_round_start_datetime_ m) (current_period_start_datetime_ m)
    (second_finish_step_start_datetime_ m) (counters_ m) (last_placed_pillar_vote_period_ m)
    (eligible_wallets_ m) (pbft_chain_ m) (vote_mgr_ m) (blocks_ m) (pm_db m) (pm_calls m).

Definition set_cert_voted_block_for_round (m : PbftManager V) (x : option PbftBlock) : PbftManager V :=
  mkPbftManager (round_m m) (step_m m) (state_ m) x (already_next_voted_value_ m)
    (already_next_voted_null_block_hash_ m) (executed_pbft_block_ m) (go_finish_state_ m)
    (loop_back_finish_state_ m) (current_round_lambda_ m) (dynamic_lambda_ m) (rounds_count_dynamic_lambda_ m)
    (next_step_time_ms_ m) (current_round_start_datetime_ m) (current_period_start_datetime_ m)
    (second_finish_step_start_datetime_ m) (counters_ m) (last_placed_pillar_vote_period_ m)
    (eligible_wallets_ m) (pbft_chain_ m) (vote_mgr_ m) (blocks_ m) (pm_db m) (pm_calls m).

Definition set_already_next_voted_value (m : PbftManager V) (x : bool) : PbftManager V :=
  mkPbftManager (round_m m) (step_m m) (state_ m) (cert_voted_block_for_round_ m) x
    (already_next_voted_null_block_hash_ m) (executed_pbft_block_ m) (go_finish_state_ m)
    (loop_back_finish_state_ m) (current_round_lambda_ m) (dynamic_lambda_ m) (rounds_count_dynamic_lambda_ m)
    (next_step_time_ms_ m) (current_round_start_datetime_ m) (current_period_start_datetime_ m)
    (second_finish_step_start_datetime_ m) (counters_ m) (last_placed_pillar_vote_period_ m)
    (eligible_wallets_ m) (pbft_chain_ m) (vote_mgr_ m) (blocks_ m) (pm_db m) (pm_calls m).

Definition set_already_next_voted_null_block_hash (m : PbftManager V) (x : bool) : PbftManager V :=
  mkPbftManager (round_m m) (step_m m) (state_ m) (cert_voted_block_for_round_ m) (already_next_voted_value_
    m) x (executed_pbft_block_ m) (go_finish_state_ m) (loop_back_finish_state_ m) (current_round_lambda_ m)
    (dynamic_lambda_ m) (rounds_count_dynamic_lambda_ m) (next_step_time_ms_ m) (current_round_start_datetime_
    m) (current_period_start_datetime_ m) (second_finish_step_start_datetime_ m) (counters_ m)
    (last_placed_pillar_vote_period_ m) (eligible_wallets_ m) (pbft_chain_ m) (vote_mgr_ m) (blocks_ m) (pm_db
    m) (pm_calls m).

Definition set_executed_pbft_block (m : PbftManager V) (x : bool) : PbftManager V :=
  mkPbftManager (round_m m) (step_m m) (state_ m) (cert_voted_block_for_round_ m) (already_next_voted_value_
    m) (already_next_voted_null_block_hash_ m) x (go_finish_state_ m) (loop_back_finish_state_ m)
    (current_round_lambda_ m) (dynamic_lambda_ m) (rounds_count_dynamic_lambda_ m) (next_step_time_ms_ m)
    (current_round_start_datetime_ m) (current_period_start_datetime_ m) (second_finish_step_start_datetime_
    m) (counters_ m) (last_placed_pillar_vote_period_ m) (eligible_wallets_ m) (pbft_chain_ m) (vote_mgr_ m)
    (blocks_ m) (pm_db m) (pm_calls m).

Definition set_go_finish_state (m : PbftManager V) (x : bool) : PbftManager V :=
  mkPbftManager (round_m m) (step_m m) (state_ m) (cert_voted_block_for_round_ m) (already_next_voted_value_
    m) (already_next_voted_null_block_hash_ m) (executed_pbft_block_ m) x (loop_back_finish_state_ m)
    (current_round_lambda_ m) (dynamic_lambda_ m) (rounds_count_dynamic_lambda_ m) (next_step_time_ms_ m)
    (current_round_start_datetime_ m) (current_period_start_datetime_ m) (second_finish_step_start_datetime_
    m) (counters_ m) (last_placed_pillar_vote_period_ m) (eligible_wallets_ m) (pbft_chain_ m) (vote_mgr_ m)
    (blocks_ m) (pm_db m) (pm_calls m).

Definition set_loop_back_finish_state (m : PbftManager V) (x : bool) : PbftManager V :=
  mkPbftManager (round_m m) (step_m m) (state_ m) (cert_voted_block_for_round_ m) (already_next_voted_value_
    m) (already_next_voted_null_block_hash_ m) (executed_pbft_block_ m) (go_finish_state_ m) x
    (current_round_lambda_ m) (dynamic_lambda_ m) (rounds_count_dynamic_lambda_ m) (next_step_time_ms_ m)
    (current_round_start_datetime_ m) (current_period_start_datetime_ m) (second_finish_step_start_datetime_
    m) (counters_ m) (last_placed_pillar_vote_period_ m) (eligible_wallets_ m) (pbft_chain_ m) (vote_mgr_ m)
    (blocks_ m) (pm_db m) (pm_calls m).

Definition set_current_round_lambda (m : PbftManager V) (x : Z) : PbftManager V :=
  mkPbftManager (round_m m) (step_m m) (state_ m) (cert_voted_block_for_round_ m) (already_next_voted_value_
    m) (already_next_voted_null_block_hash_ m) (executed_pbft_block_ m) (go_finish_state_ m)
    (loop_back_finish_state_ m) x (dynamic_lambda_ m) (rounds_count_dynamic_lambda_ m) (next_step_time_ms_ m)
    (current_round_start_datetime_ m) (current_period_start_datetime_ m) (second_finish_step_start_datetime_
    m) (counters_ m) (last_placed_pillar_vote_period_ m) (eligible_wallets_ m) (pbft_chain_ m) (vote_mgr_ m)
    (blocks_ m) (pm_db m) (pm_calls m).

Definition set_dynamic_lambda (m : PbftManager V) (x : Z) : PbftManager V :=
  mkPbftManager (round_m m) (step_m m) (state_ m) (cert_voted_block_for_round_ m) (already_next_voted_value_
    m) (already_next_voted_null_block_hash_ m) (executed_pbft_block_ m) (go_finish_state_ m)
    (loop_back_finish_state_ m) (current_round_lambda_ m) x (rounds_count_dynamic_lambda_ m)
    (next_step_time_ms_ m) (current_round_start_datetime_ m) (current_period_start_datetime_ m)
    (second_finish_step_start_datetime_ m) (counters_ m) (last_placed_pillar_vote_period_ m)
    (eligible_wallets_ m) (pbft_chain_ m) (vote_mgr_ m) (blocks_ m) (pm_db m) (pm_calls m).

Definition set_rounds_count_dynamic_lambda (m : PbftManager V) (x : Z) : PbftManager V :=
  mkPbftManager (round_m m) (step_m m) (state_ m) (cert_voted_block_for_round_ m) (already_next_voted_value_
    m) (already_next_voted_null_block_hash_ m) (executed_pbft_block_ m) (go_finish_state_ m)
    (loop_back_finish_state_ m) (current_round_lambda_ m) (dynamic_lambda_ m) x (next_step_time_ms_ m)
    (current_round_start_datetime_ m) (current_period_start_datetime_ m) (second_finish_step_start_datetime_
    m) (counters_ m) (last_placed_pillar_vote_period_ m) (eligible_wallets_ m) (pbft_chain_ m) (vote_mgr_ m)
    (blocks_ m) (pm_db m) (pm_calls m).

Definition set_next_step_time_ms (m : PbftManager V) (x : Z) : PbftManager V :=
  mkPbftManager (round_m m) (step_m m) (state_ m) (cert_voted_block_for_round_ m) (already_next_voted_value_
    m) (already_next_voted_null_block_hash_ m) (executed_pbft_block_ m) (go_finish_state_ m)
    (loop_back_finish_state_ m) (current_round_lambda_ m) (dynamic_lambda_ m) (rounds_count_dynamic_lambda_ m)
    x (current_round_start_datetime_ m) (current_period_start_datetime_ m) (second_finish_step_start_datetime_
    m) (counters_ m) (last_placed_pillar_vote_period_ m) (eligible_wallets_ m) (pbft_chain_ m) (vote_mgr_ m)
    (blocks_ m) (pm_db m) (pm_calls m).

Definition set_current_round_start_datetime (m : PbftManager V) (x : Z) : PbftManager V :=
  mkPbftManager (round_m m) (step_m m) (state_ m) (cert_voted_block_for_round_ m) (already_next_voted_value_
    m) (already_next_voted_null_block_hash_ m) (executed_pbft_block_ m) (go_finish_state_ m)
    (loop_back_finish_state_ m) (current_round_lambda_ m) (dynamic_lambda_ m) (rounds_count_dynamic_lambda_ m)
    (next_step_time_ms_ m) x (current_period_start_datetime_ m) (second_finish_step_start_datetime_ m)
    (counters_ m) (last_placed_pillar_vote_period_ m) (eligible_wallets_ m) (pbft_chain_ m) (vote_mgr_ m)
    (blocks_ m) (pm_db m) (pm_calls m).

Definition set_current_period_start_datetime (m : PbftManager V) (x : Z) : PbftManager V :=
  mkPbftManager (round_m m) (step_m m) (state_ m) (cert_voted_block_for_round_ m) (already_next_voted_value_
    m) (already_next_voted_null_block_hash_ m) (executed_pbft_block_ m) (go_finish_state_ m)
    (loop_back_finish_state_ m) (current_round_lambda_ m) (dynamic_lambda_ m) (rounds_count_dynamic_lambda_ m)
    (next_step_time_ms_ m) (current_round_start_datetime_ m) x (second_finish_step_start_datetime_ m)
    (counters_ m) (last_placed_pillar_vote_period_ m) (eligible_wallets_ m) (pbft_chain_ m) (vote_mgr_ m)
    (blocks_ m) (pm_db m) (pm_calls m).

Definition set_second_finish_step_start_datetime (m : PbftManager V) (x : Z) : PbftManager V :=
  mkPbftManager (round_m m) (step_m m) (state_ m) (cert_voted_block_for_round_ m) (already_next_voted_value_
    m) (already_next_voted_null_block_hash_ m) (executed_pbft_block_ m) (go_finish_state_ m)
    (loop_back_finish_state_ m) (current_round_lambda_ m) (dynamic_lambda_ m) (rounds_count_dynamic_lambda_ m)
    (next_step_time_ms_ m) (current_round_start_datetime_ m) (current_period_start_datetime_ m) x (counters_
    m) (last_placed_pillar_vote_period_ m) (eligible_wallets_ m) (pbft_chain_ m) (vote_mgr_ m) (blocks_ m)
    (pm_db m) (pm_calls m).

Definition set_counters (m : PbftManager V) (x : BroadcastCounters) : PbftManager V :=
  mkPbftManager (round_m m) (step_m m) (state_ m) (cert_voted_block_for_round_ m) (already_next_voted_value_
    m) (already_next_voted_null_block_hash_ m) (executed_pbft_block_ m) (go_finish_state_ m)
    (loop_back_finish_state_ m) (current_round_lambda_ m) (dynamic_lambda_ m) (rounds_count_dynamic_lambda_ m)
    (next_step_time_ms_ m) (current_round_start_datetime_ m) (current_period_start_datetime_ m)
    (second_finish_step_start_datetime_ m) x (last_placed_pillar_vote_period_ m) (eligible_wallets_ m)
    (pbft_chain_ m) (vote_mgr_ m) (blocks_ m) (pm_db m) (pm_calls m).

Definition set_last_placed_pillar_vote_period (m : PbftManager V) (x : PbftPeriod) : PbftManager V :=
  mkPbftManager (round_m m) (step_m m) (state_ m) (cert_voted_block_for_round_ m) (already_next_voted_value_
    m) (already_next_voted_null_block_hash_ m) (executed_pbft_block_ m) (go_finish_state_ m)
    (loop_back_finish_state_ m) (current_round_lambda_ m) (dynamic_lambda_ m) (rounds_count_dynamic_lambda_ m)
    (next_step_time_ms_ m) (current_round_start_datetime_ m) (current_period_start_datetime_ m)
    (second_finish_step_start_datetime_ m) (counters_ m) x (eligible_wallets_ m) (pbft_chain_ m) (vote_mgr_ m)
    (blocks_ m) (pm_db m) (pm_calls m).

Definition set_eligible_wallets (m : PbftManager V) (x : EligibleWallets) : PbftManager V :=
  mkPbftManager (round_m m) (step_m m) (state_ m) (cert_voted_block_for_round_ m) (already_next_voted_value_
    m) (already_next_voted_null_block_hash_ m) (executed_pbft_block_ m) (go_finish_state_ m)
    (loop_back_finish_state_ m) (current_round_lambda_ m) (dynamic_lambda_ m) (rounds_count_dynamic_lambda_ m)
    (next_step_time_ms_ m) (current_round_start_datetime_ m) (current_period_start_datetime_ m)
    (second_finish_step_start_datetime_ m) (counters_ m) (last_placed_pillar_vote_period_ m) x (pbft_chain_ m)
    (vote_mgr_ m) (blocks_ m) (pm_db m) (pm_calls m).

Definition set_pbft_chain (m : PbftManager V) (x : Chain.PbftChain) : PbftManager V :=
  mkPbftManager (round_m m) (step_m m) (state_ m) (cert_voted_block_for_round_ m) (already_next_voted_value_
    m) (already_next_voted_null_block_hash_ m) (executed_pbft_block_ m) (go_finish_state_ m)
    (loop_back_finish_state_ m) (current_round_lambda_ m) (dynamic_lambda_ m) (rounds_count_dynamic_lambda_ m)
    (next_step_time_ms_ m) (current_round_start_datetime_ m) (current_period_start_datetime_ m)
    (second_finish_step_start_datetime_ m) (counters_ m) (last_placed_pillar_vote_period_ m)
    (eligible_wallets_ m) x (vote_mgr_ m) (blocks_ m) (pm_db m) (pm_calls m).

Definition set_vote_mgr (m : PbftManager V) (x : V) : PbftManager V :=
  mkPbftManager (round_m m) (step_m m) (state_ m) (cert_voted_block_for_round_ m) (already_next_voted_value_
    m) (already_next_voted_null_block_hash_ m) (executed_pbft_block_ m) (go_finish_state_ m)
    (loop_back_finish_state_ m) (current_round_lambda_ m) (dynamic_lambda_ m) (rounds_count_dynamic_lambda_ m)
    (next_step_time_ms_ m) (current_round_start_datetime_ m) (current_period_start_datetime_ m)
    (second_finish_step_start_datetime_ m) (counters_ m) (last_placed_pillar_vote_period_ m)
    (eligible_wallets_ m) (pbft_chain_ m) x (blocks_ m) (pm_db m) (pm_calls m).

Definition set_blocks (m : PbftManager V) (x : Proposed.ProposedBlocks) : PbftManager V :=
  mkPbftManager (round_m m) (step_m m) (state_ m) (cert_voted_block_for_round_ m) (already_next_voted_value_
    m) (already_next_voted_null_block_hash_ m) (executed_pbft_block_ m) (go_finish_state_ m)
    (loop_back_finish_state_ m) (current_round_lambda_ m) (dynamic_lambda_ m) (rounds_count_dynamic_lambda_ m)
    (next_step_time_ms_ m) (current_round_start_datetime_ m) (current_period_start_datetime_ m)
    (second_finish_step_start_datetime_ m) (counters_ m) (last_placed_pillar_vote_period_ m)
    (eligible_wallets_ m) (pbft_chain_ m) (vote_mgr_ m) x (pm_db m) (pm_calls m).

Definition set_pm_db (m : PbftManager V) (x : PbftMgrDb) : PbftManager V :=
  mkPbftManager (round_m m) (step_m m) (state_ m) (cert_voted_block_for_round_ m) (already_next_voted_value_
    m) (already_next_voted_null_block_hash_ m) (executed_pbft_block_ m) (go_finish_state_ m)
    (loop_back_finish_state_ m) (current_round_lambda_ m) (dynamic_lambda_ m) (rounds_count_dynamic_lambda_ m)
    (next_step_time_ms_ m) (current_round_start_datetime_ m) (current_period_start_datetime_ m)
    (second_finish_step_start_datetime_ m) (counters_ m) (last_placed_pillar_vote_period_ m)
    (eligible_wallets_ m) (pbft_chain_ m) (vote_mgr_ m) (blocks_ m) x (pm_calls m).

Definition set_pm_calls (m : PbftManager V) (x : list pbft_call) : PbftManager V :=
  mkPbftManager (round_m m) (step_m m) (state_ m) (cert_voted_block_for_round_ m) (already_next_voted_value_
    m) (already_next_voted_null_block_hash_ m) (executed_pbft_block_ m) (go_finish_state_ m)
    (loop_back_finish_state_ m) (current_round_lambda_ m) (dynamic_lambda_ m) (rounds_count_dynamic_lambda_ m)
    (next_step_time_ms_ m) (current_round_start_datetime_ m) (current_period_start_datetime_ m)
    (second_finish_step_start_datetime_ m) (counters_ m) (last_placed_pillar_vote_period_ m)
    (eligible_wallets_ m) (pbft_chain_ m) (vote_mgr_ m) (blocks_ m) (pm_db m) x.

Definition upd_db (m : PbftManager V) (f : PbftMgrDb -> PbftMgrDb) : PbftManager V := set_pm_db m (f (pm_db m)).
Definition call (m : PbftManager V) (c : pbft_call) : PbftManager V := set_pm_calls m (pm_calls m ++ [c]).

Definition save_step (s : Z) (d : PbftMgrDb) : PbftMgrDb :=
  mkPbftMgrDb (db_round d) s (db_next_voted_soft_value d) (db_next_voted_null_block_hash d) (db_executed_block d)
    (db_cert_voted_block_in_round d) (db_lambda d) (db_rounds_count d).
Definition save_next_voted (soft null : bool) (d : PbftMgrDb) : PbftMgrDb :=
  mkPbftMgrDb (db_round d) (db_step d) soft null (db_executed_block d) (db_cert_voted_block_in_round d)
    (db_lambda d) (db_rounds_count d).
Definition save_executed (b : bool) (d : PbftMgrDb) : PbftMgrDb :=
  mkPbftMgrDb (db_round d) (db_step d) (db_next_voted_soft_value d) (db_next_voted_null_block_hash d) b
    (db_cert_voted_block_in_round d) (db_lambda d) (db_rounds_count d).
Definition save_cert_voted (c : option (PbftRound * PbftBlock)) (d : PbftMgrDb) : PbftMgrDb :=
  mkPbftMgrDb (db_round d) (db_step d) (db_next_voted_soft_value d) (db_next_voted_null_block_hash d)
    (db_executed_block d) c (db_lambda d) (db_rounds_count d).
Definition save_lambda (l n : Z) (d : PbftMgrDb) : PbftMgrDb :=
  mkPbftMgrDb (db_round d) (db_step d) (db_next_voted_soft_value d) (db_next_voted_null_block_hash d)
    (db_executed_block d) (db_cert_voted_block_in_round d) l n.

(** ** Period, round, step *)

Definition getPbftPeriod (m : PbftManager V) : PbftPeriod := u64 (Chain.size_ (pbft_chain_ m) + 1).

Definition getRoundLambda (m : PbftManager V) (round : PbftRound) : Z :=
  if round =? 1 then dynamic_lambda_ m else lambda_default cfg.

(** The back-off of [setPbftStep]. *)
Definition backoff_lambda (lambda step network_step : Z) : Z :=
  let lambda := if step =? kMaxSteps then lambda_ms cfg else lambda in
  if (step <? network_step) && (kMaxSteps - 4 <=? network_step - step) then lambda_ms cfg
  else if lambda <? kMaxExponentialLambda then
    if kMaxExponentialLambda <? lambda * 2 then kMaxExponentialLambda else lambda * 2
  else lambda.

Definition setPbftStep (m : PbftManager V) (pbft_step : PbftStep) : PbftManager V :=
  let m := set_step_m (upd_db m (save_step pbft_step)) pbft_step in
  if (kMaxSteps <=? pbft_step) && negb (pbft_step mod 2 =? 0)
  then set_current_round_lambda m (backoff_lambda (current_round_lambda_ m) pbft_step
         (next_voting_step (vote_mgr_ m) (getPbftPeriod m) (round_m m)))
  else m.

Definition getPbftDeadline (m : PbftManager V) : Z :=
  if isOnCactiHardfork cfg (getPbftPeriod m) then
    Z.max (4 * current_round_lambda_ m)
      (if 1 <? round_m m then block_propagation_max cfg else block_propagation_min cfg)
  else 4 * current_round_lambda_ m.

Definition setFilterState_ (m : PbftManager V) : PbftManager V :=
  let m := setPbftStep (set_state m filter_state) (u32 (step_m m + 1)) in
  set_next_step_time_ms m (2 * current_round_lambda_ m).

Definition setCertifyState_ (m : PbftManager V) : PbftManager V :=
  let m := setPbftStep (set_state m certify_state) (u32 (step_m m + 1)) in
  set_next_step_time_ms m (2 * current_round_lambda_ m).

Definition setFinishState_ (m : PbftManager V) : PbftManager V :=
  let m := setPbftStep (set_state m finish_state) (u32 (step_m m + 1)) in
  set_next_step_time_ms m (getPbftDeadline m).

Definition reset_next_voted (m : PbftManager V) : PbftManager V :=
  set_already_next_voted_null_block_hash (set_already_next_voted_value (upd_db m (save_next_voted false false)) false) false.

Definition setFinishPollingState_ (env : Env) (m : PbftManager V) : PbftManager V :=
  let m := setPbftStep (set_state m finish_polling_state) (u32 (step_m m + 1)) in
  let m := set_second_finish_step_start_datetime (reset_next_voted m) (now env) in
  set_next_step_time_ms m (next_step_time_ms_ m + kPollingIntervalMs).

Definition loopBackFinishState_ (m : PbftManager V) : PbftManager V :=
  let m := reset_next_voted (setPbftStep (set_state m finish_state) (u32 (step_m m + 1))) in
  set_next_step_time_ms m (next_step_time_ms_ m + kPollingIntervalMs).

(** ** Wallets *)

Definition updateWalletsEligibility (env : Env) (w : EligibleWallets) (period : PbftPeriod) : outcome EligibleWallets :=
  let* _ := oassert ((wallets_period_ w <? period) || (period =? 0)) in
  let* _ := oassert (period <=? u64 (lastBlockNumber env + delegationDelay env)) in
  Done (mkEligibleWallets period ((fun e => (dposIsEligible env period e.2, e.2)) <$> wallets_ w)).

Definition getWallets (w : EligibleWallets) (current_pbft_period : PbftPeriod) : outcome (list (bool * addr_t)) :=
  let* _ := oassert (wallets_period_ w =? u64 (current_pbft_period - 1)) in Done (wallets_ w).

(** ** Blocks *)

Definition getValidPbftProposedBlock (env : Env) (pb : Proposed.ProposedBlocks) (period : PbftPeriod)
    (block_hash : blk_hash_t) : outcome (Proposed.ProposedBlocks * option PbftBlock) :=
  match Proposed.getPbftProposedBlock pb period block_hash with
  | None => Done (pb, None)
  | Some (block, true) => Done (pb, Some block)
  | Some (block, false) =>
      if negb (validatePbftBlock env block) then Done (pb, None)
      else let* pb := Proposed.markBlockAsValid pb block in Done (pb, Some block)
  end.

(** Candidates by the lowest hash of their votes; a later one replaces an earlier
    one with the same key. *)
Definition leader_candidates (env : Env) (propose_votes : list PbftVote) : gmap Z PbftVote :=
  foldl (fun c v => if getBlockHash v =? kNullBlockHash then c else <[getProposal env v := v]> c) ∅ propose_votes.

Fixpoint scan_candidates (env : Env) (pb : Proposed.ProposedBlocks) (candidates : list (Z * PbftVote))
    (empty_leader_block_data : option (PbftBlock * PbftVote)) :
    outcome (Proposed.ProposedBlocks * option (PbftBlock * PbftVote)) :=
  match candidates with
  | [] => Done (pb, empty_leader_block_data)
  | (_, leader_vote) :: rest =>
      let proposed_block_hash := getBlockHash leader_vote in
      if findPbftBlockInChain env proposed_block_hash then scan_candidates env pb rest empty_leader_block_data
      else
        let* (pb, leader_block) := getValidPbftProposedBlock env pb (getPeriod leader_vote) proposed_block_hash in
        match leader_block with
        | None => scan_candidates env pb rest empty_leader_block_data
        | Some b =>
            if pb_pivot_dag_block_hash b =? kNullBlockHash then
              scan_candidates env pb rest
                (match empty_leader_block_data with None => Some (b, leader_vote) | Some e => Some e end)
            else Done (pb, Some (b, leader_vote))
        end
  end.

Definition identifyLeaderBlock (env : Env) (pb : Proposed.ProposedBlocks) (propose_votes : list PbftVote) :
    outcome (Proposed.ProposedBlocks * option (PbftBlock * PbftVote)) :=
  match propose_votes with
  | [] => Done (pb, None)
  | _ => scan_candidates env pb (map_items (leader_candidates env propose_votes)) None
  end.

(** ** Placing votes *)

Definition gossipVote (env : Env) (m : PbftManager V) (vote : PbftVote) (block : option PbftBlock) (rebroadcast : bool) :
    outcome (PbftManager V) :=
  let* _ := oassert (match block with None => true | Some b => getBlockHash vote =? pb_hash b end) in
  Done (match network env with None => m | Some _ => call m (GossipVote vote block rebroadcast) end).

Definition gossipNewOwnVote (env : Env) (m : PbftManager V) (vote : PbftVote) (block : option PbftBlock) :
    outcome (PbftManager V) := gossipVote env m vote block (bool_decide (getType vote = propose_vote)).

Definition gossipNewOwnVotesBundle (env : Env) (m : PbftManager V) (votes : list PbftVote) : PbftManager V :=
  match network env with None => m | Some _ => call m (GossipVotesBundle votes false) end.

(** The pillar block to vote for beside the PBFT vote. *)
Definition pillar_vote_block (env : Env) (m : PbftManager V) (period : PbftPeriod) (pbft_block : option PbftBlock) :
    option blk_hash_t :=
  if isPbftWithPillarBlockPeriod cfg period && (last_placed_pillar_vote_period_ m <? period) then
    match pbft_block with
    | Some b => Some (getPillarBlockHash env b)
    | None =>
        match getCurrentPillarBlock env with
        | Some (p, h) => if p =? u64 (period - 1) then Some h else None
        | None => None
        end
    end
  else None.

Record Placing := mkPlacing { pl_mgr : PbftManager V; pl_votes : list PbftVote; pl_success : bool }.

(** The loop over the wallets. *)
Definition place_vote (env : Env) (vote_type : PbftVoteTypes) (period : PbftPeriod) (round : PbftRound) (step : PbftStep)
    (block_hash : blk_hash_t) (pbft_block : option PbftBlock) (pillar : option blk_hash_t) (s : Placing)
    (wallet : bool * addr_t) : outcome Placing :=
  let '(eligible, addr) := wallet in
  if negb eligible then Done s
  else
    match generateVoteWithWeight env block_hash vote_type period round step addr with
    | None => Done s
    | Some vote =>
        let* (v, added) := add_vote (env_dpos env) (Chain.size_ (pbft_chain_ (pl_mgr s))) (vote_mgr_ (pl_mgr s)) vote in
        let m := set_vote_mgr (pl_mgr s) v in
        if negb added then Done (mkPlacing m (pl_votes s) (pl_success s))
        else
          let* m := (if bool_decide (vote_type = propose_vote) then gossipNewOwnVote env m vote pbft_block else Done m) in
          let votes := if bool_decide (vote_type = propose_vote) then pl_votes s else pl_votes s ++ [vote] in
          let m := call (set_vote_mgr m (save_own (vote_mgr_ m) vote)) (SaveOwnVote vote) in
          let m :=
            match pillar with
            | Some h =>
                if genAndPlacePillarVote env period h addr
                then set_last_placed_pillar_vote_period (call m (PlacePillarVote addr period h)) period else m
            | None => m
            end in
          Done (mkPlacing m votes true)
    end.

Definition genAndPlaceVote (env : Env) (m : PbftManager V) (vote_type : PbftVoteTypes) (period : PbftPeriod)
    (round : PbftRound) (step : PbftStep) (block_hash : blk_hash_t) (pbft_block : option PbftBlock) :
    outcome (PbftManager V * bool) :=
  let* _ := oassert (match pbft_block with
    | None => true | Some b => (pb_period b =? period) && (pb_hash b =? block_hash) end) in
  let pillar := pillar_vote_block env m period pbft_block in
  let* wallets := getWallets (eligible_wallets_ m) period in
  let* s := ofold (place_vote env vote_type period round step block_hash pbft_block pillar) wallets (mkPlacing m [] false) in
  let* m :=
    match pl_votes s with
    | [] => Done (pl_mgr s)
    | [vote] => gossipNewOwnVote env (pl_mgr s) vote pbft_block
    | votes => Done (gossipNewOwnVotesBundle env (pl_mgr s) votes)
    end in
  Done (m, pl_success s).

Definition genAndPlaceProposeVote (env : Env) (m : PbftManager V) (proposed_block : PbftBlock) (reward_votes : list PbftVote) :
    outcome (PbftManager V * bool) :=
  let period := getPbftPeriod m in
  if negb (pb_period proposed_block =? period) then Done (m, false)
  else
    let m := match network env with None => m | Some _ => call m (GossipVotesBundle reward_votes false) end in
    genAndPlaceVote env m propose_vote period (round_m m) (step_m m) (pb_hash proposed_block) (Some proposed_block).

(** ** The steps of a round *)

(** *** Own proposals *)

Definition calculateOrderHash (env : Env) (dag_block_hashes : list blk_hash_t) : blk_hash_t :=
  match dag_block_hashes with [] => kNullBlockHash | _ => order_sha3 env dag_block_hashes end.

(** The last of the first [included] blocks of the order that is on the ghost path. *)
Fixpoint findClosestAnchor (ghost dag_order : list blk_hash_t) (included : nat) : outcome blk_hash_t :=
  match included with
  | O => match ghost !! 1%nat with Some h => Done h | None => Undefined end
  | S i =>
      match dag_order !! i with
      | None => Undefined
      | Some h => if decide (h ∈ ghost) then Done h else findClosestAnchor ghost dag_order i
      end
  end.

(** The first block that is not the anchor of the last period, or the last one. *)
Fixpoint skip_last_anchor (last_period_anchor : blk_hash_t) (ghost : list blk_hash_t) : outcome blk_hash_t :=
  match ghost with
  | [] => Undefined
  | [h] => Done h
  | h :: rest => if h =? last_period_anchor then skip_last_anchor last_period_anchor rest else Done h
  end.

Definition ghost_anchor (ghost : list blk_hash_t) (last_period_anchor : blk_hash_t) : outcome blk_hash_t :=
  let size := Z.of_nat (length ghost) in
  if size <=? dag_blocks_size cfg then
    let ghost_index := if size <? u32 (ghost_path_move_back cfg + 1) then 0 else size - 1 - ghost_path_move_back cfg in
    skip_last_anchor last_period_anchor (drop (Z.to_nat ghost_index) ghost)
  else match ghost !! Z.to_nat (u32 (dag_blocks_size cfg - 1)) with Some h => Done h | None => Undefined end.

(** How many blocks of the order fit into the gas limit. *)
Fixpoint blocks_included (env : Env) (limit total_weight : Z) (order : list blk_hash_t) : outcome nat :=
  match order with
  | [] => Done O
  | h :: rest =>
      match getDagBlockGas env h with
      | None => AssertFailed
      | Some w =>
          if limit <? total_weight + w then Done O
          else let* n := blocks_included env limit (total_weight + w) rest in Done (S n)
      end
  end.

(** Anchor and order of the proposal; [None] is the null anchor. *)
Definition choose_anchor (env : Env) (period : PbftPeriod) (last_period_anchor : blk_hash_t) :
    outcome (option (blk_hash_t * list blk_hash_t)) :=
  let ghost := getGhostPath env last_period_anchor in
  match ghost with
  | [] => Done None
  | _ =>
      let* dag_block_hash := ghost_anchor ghost last_period_anchor in
      let candidate :=
        if dag_block_hash =? dag_genesis_block_hash_ cfg then None
        else if dag_block_hash =? last_period_anchor then last_level_block env else Some dag_block_hash in
      match candidate with
      | None => Done None
      | Some dag_block_hash =>
          let order := getDagBlockOrder env dag_block_hash period in
          let* _ := oassert (negb (bool_decide (order = []))) in
          let* included := blocks_included env (pbft_gas_limit cfg period) 0 order in
          if decide (included = length order) then Done (Some (dag_block_hash, order))
          else
            let* closest := findClosestAnchor ghost order included in
            Done (Some (closest, getDagBlockOrder env closest period))
      end
  end.

Definition createPbftBlockExtraData (env : Env) (period : PbftPeriod) : option PbftBlockExtraData :=
  if isPbftWithPillarBlockPeriod cfg period then
    match getCurrentPillarBlock env with
    | Some (p, h) => if p =? u64 (period - 1) then Some (mkPbftBlockExtraData (Some h)) else None
    | None => None
    end
  else Some (mkPbftBlockExtraData None).

(** A block of every wallet, with its propose vote. *)
Definition wallet_proposal (env : Env) (m : PbftManager V) (period : PbftPeriod) (make : addr_t -> PbftBlock)
    (s : Proposed.ProposedBlocks * list PbftVote) (wallet : addr_t) : Proposed.ProposedBlocks * list PbftVote :=
  let block := make wallet in
  match generateVoteWithWeight env (pb_hash block) propose_vote period (round_m m) (step_m m) wallet with
  | None => s
  | Some vote =>
      if negb (is_unique (vote_mgr_ m) vote) then s
      else ((Proposed.pushProposedPbftBlock s.1 block false).1, s.2 ++ [vote])
  end.

Definition generatePbftBlock (env : Env) (m : PbftManager V) (period : PbftPeriod) (prev_blk_hash anchor_hash order_hash : blk_hash_t)
    (extra_data : option PbftBlockExtraData) (wallets : list addr_t) :
    outcome (PbftManager V * option (PbftBlock * PbftVote * list PbftVote)) :=
  let* reward := reward_votes (vote_mgr_ m) in
  let* _ := oassert ((period <=? 1) || match reward with v :: _ => getPeriod v =? u64 (period - 1) | [] => false end) in
  match finalChainHash env period with
  | None => Done (m, None)
  | Some final_chain_hash =>
      let make a := makePbftBlock env prev_blk_hash anchor_hash order_hash final_chain_hash period a (getHash <$> reward) extra_data in
      let '(propose_blocks, propose_votes) :=
        foldl (wallet_proposal env m period make) (Proposed.mkProposedBlocks ∅ ∅, []) wallets in
      let* (_, leader) := identifyLeaderBlock env propose_blocks propose_votes in
      match leader with
      | None => Done (m, None)
      | Some (block, vote) =>
          let* (v, added) := add_vote (env_dpos env) (Chain.size_ (pbft_chain_ m)) (vote_mgr_ m) vote in
          let m := set_vote_mgr m v in
          if negb added then Done (m, None)
          else
            let m := set_blocks m (Proposed.pushProposedPbftBlock (blocks_ m) block true).1 in
            Done (call (set_vote_mgr m (save_own (vote_mgr_ m) vote)) (SaveOwnVote vote), Some (block, vote, reward))
      end
  end.

Definition proposePbftBlock (env : Env) (m : PbftManager V) :
    outcome (PbftManager V * option (PbftBlock * PbftVote * list PbftVote)) :=
  let period := getPbftPeriod m in
  let* wallets := getWallets (eligible_wallets_ m) period in
  let eligible := (filter (fun w => w.1 && vrf_sortition_ok env period (round_m m) w.2) wallets).*2 in
  let last_anchor := Chain.last_non_null_pbft_dag_anchor_hash_ (pbft_chain_ m) in
  let last_anchor := if last_anchor =? kNullBlockHash then dag_genesis_block_hash_ cfg else last_anchor in
  let prev := Chain.last_pbft_block_hash_ (pbft_chain_ m) in
  match (if isFicusHardfork cfg period then Some <$> createPbftBlockExtraData env period else Some None) with
  | None => Done (m, None)
  | Some extra_data =>
      let* chosen := choose_anchor env period last_anchor in
      match chosen with
      | None => generatePbftBlock env m period prev kNullBlockHash kNullBlockHash extra_data eligible
      | Some (anchor, order) => generatePbftBlock env m period prev anchor (calculateOrderHash env order) extra_data eligible
      end
  end.

Definition null_next_voted (m : PbftManager V) : bool :=
  bool_decide (is_Some (voted_block (vote_mgr_ m) (getPbftPeriod m) (u32 (round_m m - 1)) NextVotedNullBlock)).

Definition proposeBlock_ (env : Env) (m : PbftManager V) : outcome (PbftManager V) :=
  let period := getPbftPeriod m in
  if (round_m m =? 1) || null_next_voted m then
    let* (m, proposed) := proposePbftBlock env m in
    match proposed with
    | None => Done m
    | Some (block, vote, reward_votes) =>
        let m := match network env with None => m | Some _ => call m (GossipVotesBundle reward_votes false) end in
        gossipNewOwnVote env m vote (Some block)
    end
  else
    match voted_block (vote_mgr_ m) period (u32 (round_m m - 1)) NextVotedBlock with
    | Some next_voted_block_hash =>
        let* _ := oassert (1 <? round_m m) in
        let* (pb, next_voted_block) := getValidPbftProposedBlock env (blocks_ m) period next_voted_block_hash in
        let m := set_blocks m pb in
        match next_voted_block with
        | None => Done m
        | Some b =>
            match env_checkRewardVotes env b with
            | None => Done m
            | Some reward_votes => let* (m, _) := genAndPlaceProposeVote env m b reward_votes in Done m
            end
        end
    | None => AssertFailed
    end.

Definition identifyBlock_ (env : Env) (m : PbftManager V) : outcome (PbftManager V) :=
  let period := getPbftPeriod m in
  if (round_m m =? 1) || null_next_voted m then
    let* (pb, leader) := identifyLeaderBlock env (blocks_ m) (proposal_votes (vote_mgr_ m) period (round_m m)) in
    let m := set_blocks m pb in
    match leader with
    | None => Done m
    | Some (b, _) =>
        let* _ := oassert (pb_period b =? period) in
        let* (m, _) := genAndPlaceVote env m soft_vote (pb_period b) (round_m m) (step_m m) (pb_hash b) (Some b) in
        Done m
    end
  else
    match voted_block (vote_mgr_ m) period (u32 (round_m m - 1)) NextVotedBlock with
    | Some next_voted_block_hash =>
        let* (pb, next_voted_block) := getValidPbftProposedBlock env (blocks_ m) period next_voted_block_hash in
        let m := set_blocks m pb in
        match next_voted_block with
        | None => Done m
        | Some b =>
            let* (m, _) := genAndPlaceVote env m soft_vote period (round_m m) (step_m m) next_voted_block_hash (Some b) in
            Done m
        end
    | None => Done m
    end.

Definition certifyBlock_ (env : Env) (m : PbftManager V) : outcome (PbftManager V) :=
  let period := getPbftPeriod m in
  let elapsed := now env - current_round_start_datetime_ m in
  let m := set_go_finish_state m (getPbftDeadline m - kPollingIntervalMs <? elapsed) in
  if go_finish_state_ m then Done m
  else if elapsed <? 2 * current_round_lambda_ m then Done m
  else if bool_decide (is_Some (cert_voted_block_for_round_ m)) then Done m
  else
    match voted_block (vote_mgr_ m) period (round_m m) SoftVotedBlock with
    | None => Done m
    | Some soft_voted_block_hash =>
        let* (pb, soft_voted_block) := getValidPbftProposedBlock env (blocks_ m) period soft_voted_block_hash in
        let m := set_blocks m pb in
        match soft_voted_block with
        | None => Done m
        | Some b =>
            let* (m, success) := genAndPlaceVote env m cert_vote (pb_period b) (round_m m) (step_m m) (pb_hash b) (Some b) in
            if negb success then Done m
            else Done (upd_db (set_cert_voted_block_for_round m (Some b)) (save_cert_voted (Some (round_m m, b))))
        end
    end.

Definition firstFinish_ (env : Env) (m : PbftManager V) : outcome (PbftManager V) :=
  let period := getPbftPeriod m in
  match cert_voted_block_for_round_ m with
  | Some b =>
      let* _ := oassert (pb_period b =? period) in
      let* (m, _) := genAndPlaceVote env m next_vote (pb_period b) (round_m m) (step_m m) (pb_hash b) (Some b) in
      Done m
  | None =>
      if (2 <=? round_m m) && null_next_voted m then
        let* (m, _) := genAndPlaceVote env m next_vote period (round_m m) (step_m m) kNullBlockHash None in Done m
      else
        match voted_block (vote_mgr_ m) period (u32 (round_m m - 1)) NextVotedBlock with
        | Some previous_round_next_voted_value =>
            let* (pb, block) := getValidPbftProposedBlock env (blocks_ m) period previous_round_next_voted_value in
            let m := set_blocks m pb in
            match block with
            | None => Done m
            | Some b =>
                let* (m, _) := genAndPlaceVote env m next_vote period (round_m m) (step_m m)
                  previous_round_next_voted_value (Some b) in
                Done m
            end
        | None =>
            let* _ := oassert (negb (null_next_voted m)) in
            let* (m, _) := genAndPlaceVote env m next_vote period (round_m m) (step_m m) kNullBlockHash None in Done m
        end
  end.

(** The first lambda of [secondFinish_]. *)
Definition next_vote_soft_voted_block (env : Env) (m : PbftManager V) : outcome (PbftManager V) :=
  let period := getPbftPeriod m in
  if already_next_voted_value_ m then Done m
  else
    match voted_block (vote_mgr_ m) period (round_m m) SoftVotedBlock with
    | None => Done m
    | Some soft_voted_block_hash =>
        let* (pb, soft_voted_block) := getValidPbftProposedBlock env (blocks_ m) period soft_voted_block_hash in
        let m := set_blocks m pb in
        match soft_voted_block with
        | None => Done m
        | Some b =>
            let* (m, success) := genAndPlaceVote env m next_vote period (round_m m) (step_m m) soft_voted_block_hash (Some b) in
            if negb success then Done m
            else Done (set_already_next_voted_value
              (upd_db m (fun d => save_next_voted true (db_next_voted_null_block_hash d) d)) true)
        end
    end.

(** The second one. *)
Definition next_vote_null_block (env : Env) (m : PbftManager V) : outcome (PbftManager V) :=
  if bool_decide (is_Some (cert_voted_block_for_round_ m)) || already_next_voted_null_block_hash_ m || (round_m m <? 2)
  then Done m
  else if negb (null_next_voted m) then Done m
  else
    let* (m, success) := genAndPlaceVote env m next_vote (getPbftPeriod m) (round_m m) (step_m m) kNullBlockHash None in
    if negb success then Done m
    else Done (set_already_next_voted_null_block_hash
      (upd_db m (fun d => save_next_voted (db_next_voted_soft_value d) true d)) true).

Definition secondFinish_ (env : Env) (m : PbftManager V) : outcome (PbftManager V) :=
  let* m := next_vote_soft_voted_block env m in
  let* m := next_vote_null_block env m in
  Done (set_loop_back_finish_state m
    (2 * (current_round_lambda_ m - kPollingIntervalMs) <? now env - second_finish_step_start_datetime_ m)).

(** ** Rounds and periods *)

Definition reset_db (m : PbftManager V) (round : PbftRound) (d : PbftMgrDb) : PbftMgrDb :=
  mkPbftMgrDb round 1 false false (db_executed_block d)
    (match cert_voted_block_for_round_ m with Some _ => None | None => db_cert_voted_block_in_round d end)
    (db_lambda d) (db_rounds_count d).

Definition resetPbftConsensus (env : Env) (m : PbftManager V) (round : PbftRound) : outcome (PbftManager V) :=
  let c := counters_ m in
  let m := set_counters m (mkBroadcastCounters 1 1 (broadcast_reward_votes_counter_ c) (rebroadcast_reward_votes_counter_ c)) in
  let m := set_state (set_step_m (set_round_m m round) 1) value_proposal_state in
  let period := getPbftPeriod m in
  let m := set_current_round_lambda m (if isOnCactiHardfork cfg period then getRoundLambda m round else lambda_ms cfg) in
  let m := set_cert_voted_block_for_round (upd_db m (reset_db m round)) None in
  let m := set_vote_mgr m (clear_own (vote_mgr_ m)) in
  let m := set_already_next_voted_value (set_already_next_voted_null_block_hash m false) false in
  let m := if executed_pbft_block_ m then set_executed_pbft_block (upd_db m (save_executed false)) false else m in
  let* v := set_period_round (vote_mgr_ m) period round in
  Done (set_current_round_start_datetime (set_vote_mgr m v) (now env)).

Definition advancePeriod (env : Env) (m : PbftManager V) : outcome (PbftManager V) :=
  let* m := resetPbftConsensus env m 1 in
  let c := counters_ m in
  let m := set_counters m (mkBroadcastCounters (broadcast_votes_counter_ c) (rebroadcast_votes_counter_ c) 1 1) in
  let m := set_current_period_start_datetime m (now env) in
  let chain_size := Chain.size_ (pbft_chain_ m) in
  let* w := updateWalletsEligibility env (eligible_wallets_ m) chain_size in
  let m := set_vote_mgr (set_eligible_wallets m w) (cleanup_votes (vote_mgr_ m) chain_size) in
  Done (set_blocks m (Proposed.cleanupProposedPbftBlocksByPeriod (blocks_ m) (u64 (chain_size + 1)))).

Definition advanceRound (env : Env) (m : PbftManager V) : outcome (PbftManager V * bool) :=
  match new_round (vote_mgr_ m) (getPbftPeriod m) (round_m m) with
  | None => Done (m, false)
  | Some r =>
      let* _ := oassert (round_m m <? r) in
      let* m := resetPbftConsensus env m r in Done (m, true)
  end.

Definition adjustDynamicLambda (m : PbftManager V) (finalized_period : PbftPeriod) (finalized_round : PbftRound) :
    PbftManager V :=
  let count := u32 (rounds_count_dynamic_lambda_ m + finalized_round) in
  let lambda := dynamic_lambda_ m in
  let '(count, lambda) :=
    if isDynamicLambdaChangeInterval cfg finalized_period then
      (0, if (count =? lambda_change_interval cfg) && (lambda_min cfg <? lambda)
          then Z.max (u32 (lambda - lambda_change cfg)) (lambda_min cfg) else lambda)
    else (count, lambda) in
  let lambda :=
    if (1 <? finalized_round) && (lambda <? lambda_max cfg)
    then Z.min (u32 (lambda + lambda_change cfg)) (lambda_max cfg) else lambda in
  upd_db (set_dynamic_lambda (set_rounds_count_dynamic_lambda m count) lambda) (save_lambda lambda count).

(** ** Blocks into the chain *)

(** The pillar block of a period and, for the eligible wallets, the votes for it. *)
Definition processPillarBlock (env : Env) (m : PbftManager V) (chain_size : PbftPeriod) : outcome (PbftManager V) :=
  let* _ := oassert (u64 (chain_size - delegationDelay env) <=? lastBlockNumber env) in
  let m := call m (CreatePillarBlock chain_size) in
  match createPillarBlock env chain_size with
  | None => Done m
  | Some h =>
      let period := u64 (chain_size + 1) in
      let* wallets := getWallets (eligible_wallets_ m) period in
      Done (foldl (fun m w =>
        if w.1 && genAndPlacePillarVote env period h w.2
        then set_last_placed_pillar_vote_period (call m (PlacePillarVote w.2 period h)) period else m) m wallets)
  end.

(** The lambda of the block and the blocks per year that follow from it. *)
Definition push_lambda (env : Env) (m : PbftManager V) (period : PbftPeriod) (round : PbftRound) : PbftManager V * Z :=
  if isOnCactiHardfork cfg period then
    let block_lambda := getRoundLambda m round in
    let m := if bool_decide (getPeriodLambda env (u64 (period - 1)) = Some block_lambda) then m
             else call m (SavePeriodLambda period block_lambda) in
    (adjustDynamicLambda m period round, calcBlocksPerYear cfg block_lambda)
  else (m, dpos_blocks_per_year cfg).

Definition with_pillar_votes (pd : PeriodData) (v : option (list Z)) : PeriodData :=
  mkPeriodData (pd_pbft_blk pd) (pd_previous_block_cert_votes pd) (pd_dag_blocks pd) (pd_transactions pd) v.

Definition with_transactions (pd : PeriodData) (l : list Transaction) : PeriodData :=
  mkPeriodData (pd_pbft_blk pd) (pd_previous_block_cert_votes pd) (pd_dag_blocks pd) l (pd_pillar_votes pd).

(** [pushPbftBlock_] from the database update on. *)
Definition push_block (env : Env) (m : PbftManager V) (pd : PeriodData) (sample_cert_vote : PbftVote) :
    outcome (PbftManager V) :=
  let block := pd_pbft_blk pd in
  let period := pb_period block in
  let anchor := pb_pivot_dag_block_hash block in
  let head := Chain.getJsonStrForBlock (pbft_chain_ m) (pb_hash block) (anchor =? kNullBlockHash) in
  let dag_blocks_order := pd_dag_blocks pd in
  let pd := with_transactions pd (reorderTransactions (pd_transactions pd)) in
  let m := call m (SavePeriodData head pd) in
  let* v := reset_reward (vote_mgr_ m) (getPeriod sample_cert_vote) (getRound sample_cert_vote)
    (getStep sample_cert_vote) (getBlockHash sample_cert_vote) in
  let m := set_vote_mgr m v in
  let m := if negb (anchor =? kNullBlockHash)
           then call m (SortitionPbftBlockPushed pd (u64 (Chain.non_empty_size_ (pbft_chain_ m) + 1))) else m in
  let m := call m (SetDagBlockOrder anchor period dag_blocks_order) in
  let m := call m (UpdateFinalizedTransactionsStatus pd) in
  let m := set_pbft_chain m (Chain.updatePbftChain (pbft_chain_ m) (pb_hash block) anchor) in
  let '(m, blocks_per_year) := push_lambda env m period (getRound sample_cert_vote) in
  let m := call m (Finalize pd dag_blocks_order blocks_per_year) in
  let m := set_executed_pbft_block (upd_db m (save_executed true)) true in
  let* m := advancePeriod env m in
  if isPillarBlockPeriod cfg period then
    let* _ := oassert (period =? Chain.size_ (pbft_chain_ m)) in processPillarBlock env m period
  else Done m.

Definition pushPbftBlock_ (env : Env) (m : PbftManager V) (pd : PeriodData) (cert_votes : list PbftVote) :
    outcome (PbftManager V * bool) :=
  let block := pd_pbft_blk pd in
  if pbftBlockInDb env (pb_hash block) then
    let* _ := oassert (match cert_voted_block_for_round_ m with
      | Some b => negb (pb_hash b =? pb_hash block) | None => true end) in
    Done (m, false)
  else
    match cert_votes with
    | [] => AssertFailed
    | sample_cert_vote :: _ =>
        let* _ := oassert (pb_hash block =? getBlockHash sample_cert_vote) in
        if isPbftWithPillarBlockPeriod cfg (pb_period block) then
          match finalizePillarBlock env (getPillarBlockHash env block) with
          | [] => Done (m, false)
          | votes => let* m := push_block env m (with_pillar_votes pd (Some votes)) sample_cert_vote in Done (m, true)
          end
        else let* m := push_block env m pd sample_cert_vote in Done (m, true)
    end.

(** The transactions of the DAG blocks, each once, in the order of their first occurrence. *)
Fixpoint collect_trxs (trx_set : gset trx_hash_t) (trxs : list trx_hash_t) : list trx_hash_t :=
  match trxs with
  | [] => []
  | h :: rest => if decide (h ∈ trx_set) then collect_trxs trx_set rest else h :: collect_trxs ({[h]} ∪ trx_set) rest
  end.

Definition pushCertVotedPbftBlockIntoChain_ (env : Env) (m : PbftManager V) (pbft_block : PbftBlock)
    (cert_votes : list PbftVote) : outcome (PbftManager V * bool) :=
  let* (dag_blocks, transactions) :=
    (if pb_pivot_dag_block_hash pbft_block =? kNullBlockHash then Done ([], [])
     else
       match cached_dag_order env (pb_pivot_dag_block_hash pbft_block) with
       | None => AssertFailed
       | Some order => Done (order.*1, getNonfinalizedTrx env (collect_trxs ∅ (mjoin order.*2)))
       end) in
  match env_checkRewardVotes env pbft_block with
  | None => Done (m, false)
  | Some reward_votes => pushPbftBlock_ env m (mkPeriodData pbft_block reward_votes dag_blocks transactions None) cert_votes
  end.

Definition tryPushCertVotesBlock (env : Env) (m : PbftManager V) : outcome (PbftManager V * bool) :=
  let period := getPbftPeriod m in
  let* cert_votes := voted_votes (vote_mgr_ m) period (round_m m) CertVotedBlock in
  match cert_votes with
  | [] => Done (m, false)
  | v :: _ =>
      let* (pb, pbft_block) := getValidPbftProposedBlock env (blocks_ m) period (getBlockHash v) in
      let m := set_blocks m pb in
      match pbft_block with
      | None => Done (m, false)
      | Some block => pushCertVotedPbftBlockIntoChain_ env m block cert_votes
      end
  end.

(** ** Start *)

Definition init_lambda (m : PbftManager V) (round : PbftRound) : outcome (PbftManager V) :=
  let d := pm_db m in
  let chain_size := u64 (getPbftPeriod m - 1) in
  if isOnCactiHardfork cfg chain_size then
    let m := set_rounds_count_dynamic_lambda m (db_rounds_count d) in
    let* m :=
      (if 1 <=? chain_size then
         let* _ := oassert (negb (db_lambda d =? 1)) in Done (set_dynamic_lambda m (db_lambda d))
       else Done (set_dynamic_lambda m (lambda_max cfg))) in
    Done (set_current_round_lambda m (getRoundLambda m round))
  else Done (set_current_round_lambda m (lambda_ms cfg)).

(** Where a node continues: after the voting steps of the round it was in. *)
Definition init_step (d : PbftMgrDb) : PbftStep * PbftStates :=
  if (db_round d =? 1) && (db_step d =? 1) then (1, value_proposal_state)
  else if db_step d <? 4 then (4, finish_state)
  else if db_step d mod 2 =? 0 then (db_step d, finish_state)
  else (db_step d, finish_polling_state).

Definition load_proposed (m : PbftManager V) : PbftManager V :=
  set_blocks m (foldl (fun pb b => (Proposed.pushProposedPbftBlock pb b false).1) (blocks_ m)
    (map_items (Proposed.proposed_pbft_blocks (blocks_ m))).*2).

Definition load_cert_voted (m : PbftManager V) (round : PbftRound) : PbftManager V :=
  match db_cert_voted_block_in_round (pm_db m) with
  | Some (r, b) =>
      let m := set_blocks m (Proposed.pushProposedPbftBlock (blocks_ m) b true).1 in
      if (getPbftPeriod m =? pb_period b) && (round =? r) then set_cert_voted_block_for_round m (Some b) else m
  | None => m
  end.

Definition initialState (env : Env) (m : PbftManager V) : outcome (PbftManager V) :=
  let round := db_round (pm_db m) in
  let* m := init_lambda m round in
  let '(step, state) := init_step (pm_db m) in
  let m := if bool_decide (state = finish_polling_state) then set_second_finish_step_start_datetime m (now env) else m in
  let m := set_round_m (setPbftStep (set_state m state) step) round in
  let m := load_cert_voted (load_proposed m) round in
  let d := pm_db m in
  let m := set_executed_pbft_block m (db_executed_block d) in
  let m := set_already_next_voted_value m (db_next_voted_soft_value d) in
  let m := set_already_next_voted_null_block_hash m (db_next_voted_null_block_hash d) in
  let m := set_current_period_start_datetime (set_current_round_start_datetime m (now env)) (now env) in
  let m := set_next_step_time_ms m 0 in
  let* v := set_period_round (vote_mgr_ m) (getPbftPeriod m) round in
  Done (set_vote_mgr m v).

(** The object that the constructor makes before [initialState], from the chain,
    the vote manager and the database of the node that stopped. *)
Definition restarted (m : PbftManager V) (v : V) : PbftManager V :=
  mkPbftManager 1 1 value_proposal_state None false false false false false 0 (lambda_max cfg) 0 0 0 0 0
    (mkBroadcastCounters 1 1 1 1) 0 (mkEligibleWallets 0 ((fun e => (false, e.2)) <$> wallets_ (eligible_wallets_ m)))
    (pbft_chain_ m) v (Proposed.mkProposedBlocks ∅ (Proposed.proposed_pbft_blocks (blocks_ m))) (pm_db m) (pm_calls m).

Definition restart (env : Env) (m : PbftManager V) (v : V) : outcome (PbftManager V) :=
  let* m := initialState env (restarted m v) in
  let size := Chain.size_ (pbft_chain_ m) in
  let* w := updateWalletsEligibility env (eligible_wallets_ m) size in
  let m := set_eligible_wallets m w in
  if isPillarBlockPeriod cfg size then
    match getCurrentPillarBlock env with
    | None => Undefined
    | Some _ => processPillarBlock env m size
    end
  else Done m.

(** ** Broadcast and the loop *)

Definition gossipVotes (m : PbftManager V) (votes : list PbftVote) (rebroadcast : bool) : PbftManager V :=
  match votes with [] => m | _ => call m (GossipVotesBundle votes rebroadcast) end.

Definition stuckPeriodBroadcastVotes (env : Env) (rebroadcast : bool) (m : PbftManager V) : outcome (PbftManager V) :=
  let* votes := reward_votes (vote_mgr_ m) in
  let m := gossipVotes m votes rebroadcast in
  let m := foldl (fun m v =>
    call m (GossipVote v (fst <$> Proposed.getPbftProposedBlock (blocks_ m) (getPeriod v) (getBlockHash v)) rebroadcast))
    m (own_verified_votes (vote_mgr_ m)) in
  Done (match getOwnPillarBlockVote env with Some v => call m (GossipPillarVote v rebroadcast) | None => m end).

Definition stuckRoundBroadcastVotes (env : Env) (rebroadcast : bool) (m : PbftManager V) : outcome (PbftManager V) :=
  let round := round_m m in
  let period := getPbftPeriod m in
  let* m := stuckPeriodBroadcastVotes env rebroadcast m in
  let* votes := voted_votes (vote_mgr_ m) period round SoftVotedBlock in
  let m := gossipVotes m votes rebroadcast in
  if 1 <? round then
    let* votes := voted_votes (vote_mgr_ m) period (u32 (round - 1)) NextVotedBlock in
    let m := gossipVotes m votes rebroadcast in
    let* votes := voted_votes (vote_mgr_ m) period (u32 (round - 1)) NextVotedNullBlock in
    Done (gossipVotes m votes rebroadcast)
  else Done m.

Definition broadcastVotes (env : Env) (m : PbftManager V) : outcome (PbftManager V) :=
  let c := counters_ m in
  match network env with
  | None => Done m
  | Some _ =>
      if current_round_lambda_ m =? 0 then Undefined
      else
        let round_elapsed := Z.quot (now env - current_round_start_datetime_ m) (current_round_lambda_ m) in
        let period_elapsed := Z.quot (now env - current_period_start_datetime_ m) (current_round_lambda_ m) in
        let b := broadcast_votes_counter_ c in
        let rb := rebroadcast_votes_counter_ c in
        let br := broadcast_reward_votes_counter_ c in
        let rbr := rebroadcast_reward_votes_counter_ c in
        if u32 (kRebroadcastVotesLambdaTime * rb) <? round_elapsed then
          let* m := stuckRoundBroadcastVotes env true m in Done (set_counters m (mkBroadcastCounters (u32 (b + 1)) (u32 (rb + 1)) br rbr))
        else if u32 (kBroadcastVotesLambdaTime * b) <? round_elapsed then
          let* m := stuckRoundBroadcastVotes env false m in Done (set_counters m (mkBroadcastCounters (u32 (b + 1)) rb br rbr))
        else if u32 (kRebroadcastVotesLambdaTime * rbr) <? period_elapsed then
          let* m := stuckPeriodBroadcastVotes env true m in Done (set_counters m (mkBroadcastCounters b rb (u32 (br + 1)) (u32 (rbr + 1))))
        else if u32 (kBroadcastVotesLambdaTime * br) <? period_elapsed then
          let* m := stuckPeriodBroadcastVotes env false m in Done (set_counters m (mkBroadcastCounters b rb (u32 (br + 1)) rbr))
        else Done m
  end.

(** [sync] is what [pushSyncedPbftBlocksIntoChain] does; the flag says that the loop
    starts again. *)
Definition stateOperations_ (env : Env) (sync : PbftManager V -> outcome (PbftManager V)) (m : PbftManager V) :
    outcome (PbftManager V * bool) :=
  let* m := sync m in
  let* (m, pushed) :=
    match network env with
    | Some false => let* m := broadcastVotes env m in tryPushCertVotesBlock env m
    | _ => Done (m, false)
    end in
  if pushed then Done (m, true)
  else
    let* (m, advanced) := advanceRound env m in
    if advanced then Done (m, true)
    else
      let* wallets := getWallets (eligible_wallets_ m) (getPbftPeriod m) in
      Done (m, negb (existsb fst wallets)).

(** The [switch] of [run]. *)
Definition run_state (env : Env) (m : PbftManager V) : outcome (PbftManager V) :=
  match state_ m with
  | value_proposal_state => let* m := proposeBlock_ env m in Done (setFilterState_ m)
  | filter_state => let* m := identifyBlock_ env m in Done (setCertifyState_ m)
  | certify_state =>
      let* m := certifyBlock_ env m in
      Done (if go_finish_state_ m then setFinishState_ m
            else set_next_step_time_ms m (next_step_time_ms_ m + kPollingIntervalMs))
  | finish_state => let* m := firstFinish_ env m in Done (setFinishPollingState_ env m)
  | finish_polling_state =>
      let* m := secondFinish_ env m in
      Done (if loop_back_finish_state_ m then loopBackFinishState_ m
            else set_next_step_time_ms m (next_step_time_ms_ m + kPollingIntervalMs))
  end.

(** One iteration of [run]. *)
Definition run_iteration (env : Env) (sync : PbftManager V -> outcome (PbftManager V)) (m : PbftManager V) :
    outcome (PbftManager V) :=
  let* (m, again) := stateOperations_ env sync m in
  if again then Done m else run_state env m.

Definition processProposedBlock (m : PbftManager V) (proposed_block : PbftBlock) : PbftManager V :=
  if Proposed.isInProposedBlocks (blocks_ m) (pb_period proposed_block) (pb_hash proposed_block) then m
  else set_blocks m (Proposed.pushProposedPbftBlock (blocks_ m) proposed_block true).1.
End manager.
