(* ===== verification/PbftSafety.v ===== *)
(** * What a validator votes for

    The invariant of the PBFT state machine, proved against the interface of the
    vote manager, and the safety of the own votes: whatever votes and blocks arrive,
    however often rounds, periods and restarts happen, a validator cert votes for at most
    one block per round, and if it did, all its next votes of that round are for this
    block. *)

From S2P Require Import Prelude Votes VerifiedVotes PbftChain TransactionQueue TransactionReorder PbftManager.
Local Open Scope Z_scope.
Local Open Scope outcome_scope.

(** ** Proposed blocks are filed under their period and hash *)

Definition filed (pb : Proposed.ProposedBlocks) : Prop :=
  forall p h b v, Proposed.getPbftProposedBlock pb p h = Some (b, v) -> pb_period b = p /\ pb_hash b = h.

Lemma filed_empty db : filed (Proposed.mkProposedBlocks ∅ db).
Proof. intros p h b v. unfold Proposed.getPbftProposedBlock. simpl. by rewrite lookup_empty. Qed.

Lemma filed_push pb block s : filed pb -> filed (Proposed.pushProposedPbftBlock pb block s).1.
Proof.
  intros Hf p h b v. unfold Proposed.pushProposedPbftBlock.
  destruct (default ∅ (Proposed.proposed_blocks_ pb !! pb_period block) !! pb_hash block) as [e|] eqn:E; simpl;
    rewrite Proposed.get_insert; destruct (decide (pb_period block = p)) as [<-|Hp]; try apply Hf.
  - rewrite <- Proposed.get_default. apply Hf.
  - rewrite lookup_insert. case_decide as D; [by intros [= <- <-]|]. rewrite <- Proposed.get_default. apply Hf.
Qed.

Lemma filed_cleanup pb period : filed pb -> filed (Proposed.cleanupProposedPbftBlocksByPeriod pb period).
Proof.
  intros Hf p h b v. unfold Proposed.cleanupProposedPbftBlocksByPeriod, Proposed.getPbftProposedBlock.
  rewrite Proposed.cleanup_periods_memory, erase_below_all. case_decide; [done|]. apply Hf.
Qed.

Lemma filed_valid env pb p h pb' ob :
  filed pb -> getValidPbftProposedBlock env pb p h = Done (pb', ob) ->
  filed pb' /\ forall b, ob = Some b -> pb_period b = p /\ pb_hash b = h.
Proof.
  intros Hf. unfold getValidPbftProposedBlock.
  destruct (Proposed.getPbftProposedBlock pb p h) as [[b v]|] eqn:E; [|intros [= <- <-]; by split].
  destruct (Hf _ _ _ _ E) as [Hp Hh].
  destruct v; [intros [= <- <-]; split; [done|by intros b' [= <-]]|].
  destruct (negb _); [intros [= <- <-]; by split|].
  assert (Proposed.getPbftProposedBlock pb (pb_period b) (pb_hash b) = Some (b, false)) as E' by (by rewrite Hp, Hh).
  destruct (Proposed.markBlockAsValid_stored pb b b false E') as (pb1 & -> & _ & Hget). simpl. intros [= <- <-].
  split; [|by intros b' [= <-]]. intros p' h' b' v'. rewrite Hget. case_decide as D; [|apply Hf].
  intros [= <- <-]. by injection D as -> ->.
Qed.

Lemma filed_scan env candidates pb e pb' ob :
  filed pb -> scan_candidates env pb candidates e = Done (pb', ob) -> filed pb'.
Proof.
  revert pb e. induction candidates as [|[k v] rest IH]; intros pb e Hf; simpl; [by intros [= <- <-]|].
  destruct (findPbftBlockInChain env (getBlockHash v)); [by apply IH|].
  destruct (getValidPbftProposedBlock env pb (getPeriod v) (getBlockHash v)) as [[pb1 ob1]| |] eqn:E; simpl; try done.
  apply filed_valid in E as [Hf1 _]; [|done]. destruct ob1 as [b|]; [|by apply IH].
  destruct (_ =? _); [by apply IH|by intros [= <- <-]].
Qed.

(** ** The own votes *)

Definition own_votes {V} (m : PbftManager V) : list PbftVote :=
  omap (fun c => match c with SaveOwnVote v => Some v | _ => None end) (pm_calls m).

(** What is asked of the vote generator: a vote for what it was asked for. *)
Definition generates_ok (env : Env) : Prop :=
  forall h t p r s a v, generateVoteWithWeight env h t p r s a = Some v -> getBlockHash v = h /\ at_coord p r s v.

Section placing.
#[local] Set Default Proof Using "Type*".
Context {V : Type} `{VoteServiceLaws V} (cfg : PbftMgrConfig).

(** [m'] is [m] after calls: votes recorded, messages sent, blocks validated. *)
Definition with_calls (m : PbftManager V) (v : V) (calls : list pbft_call) (pillar_period : PbftPeriod)
    (pb : Proposed.ProposedBlocks) : PbftManager V :=
  set_blocks (set_last_placed_pillar_vote_period (set_pm_calls (set_vote_mgr m v) calls) pillar_period) pb.

(** [m'] results from placing the votes [new]. *)
Definition placed (m m' : PbftManager V) (new : list PbftVote) : Prop :=
  (exists v calls pp pb, m' = with_calls m v calls pp pb /\ (filed (blocks_ m) -> filed pb)) /\ own_votes m' = own_votes m ++ new /\
  forall p r t h, voted_block (vote_mgr_ m) p r t = Some h -> voted_block (vote_mgr_ m') p r t = Some h.

Lemma placed_refl m : placed m m [].
Proof.
  split_and!; [|by rewrite app_nil_r|done].
  exists (vote_mgr_ m), (pm_calls m), (last_placed_pillar_vote_period_ m), (blocks_ m). by destruct m.
Qed.

Lemma placed_trans m1 m2 m3 n1 n2 : placed m1 m2 n1 -> placed m2 m3 n2 -> placed m1 m3 (n1 ++ n2).
Proof.
  intros ((v & c & pp & pb & -> & Hpb) & Ho & Hk) ((v' & c' & pp' & pb' & -> & Hpb') & Ho' & Hk').
  split_and!; [exists v', c', pp', pb'; auto| |auto].
  rewrite Ho', Ho. by rewrite app_assoc.
Qed.

Lemma placed_call m c : (forall v, c <> SaveOwnVote v) -> placed m (call m c) [].
Proof.
  intros Hc. split_and!; [|unfold own_votes, call; simpl; rewrite omap_app; simpl; destruct c; naive_solver|done].
  exists (vote_mgr_ m), (pm_calls m ++ [c]), (last_placed_pillar_vote_period_ m), (blocks_ m). by destruct m.
Qed.

Lemma placed_gossip env m vote b rb m' : gossipVote env m vote b rb = Done m' -> placed m m' [].
Proof.
  unfold gossipVote. destruct (match b with None => true | Some b => _ end); simpl; [|done]. intros [= <-].
  destruct (network env); [by apply placed_call|apply placed_refl].
Qed.

Lemma placed_bundle env m votes : placed m (gossipNewOwnVotesBundle env m votes) [].
Proof. unfold gossipNewOwnVotesBundle. destruct (network env); [by apply placed_call|apply placed_refl]. Qed.

(** One wallet adds one vote or none. *)
Lemma place_vote_effect env t p r st h ob pillar s w s' :
  generates_ok env -> place_vote env t p r st h ob pillar s w = Done s' ->
  exists new, placed (pl_mgr s) (pl_mgr s') new /\ Forall (fun v => getBlockHash v = h /\ at_coord p r st v) new /\
    (pl_success s' = true <-> pl_success s = true \/ new <> []).
Proof.
  intros Hg. destruct w as [el a]. unfold place_vote. destruct el; simpl.
  2: { intros [= <-]. exists []. split_and!; [apply placed_refl|constructor|naive_solver]. }
  destruct (generateVoteWithWeight env h t p r st a) as [v|] eqn:Ev.
  2: { intros [= <-]. exists []. split_and!; [apply placed_refl|constructor|naive_solver]. }
  pose proof (Hg _ _ _ _ _ _ _ Ev) as Hv.
  destruct (add_vote (env_dpos env) _ (vote_mgr_ (pl_mgr s)) v) as [[vm added]| |] eqn:Ea; simpl; try done.
  assert (placed (pl_mgr s) (set_vote_mgr (pl_mgr s) vm) []) as Hadd.
  { split_and!; [|by rewrite app_nil_r|intros p' r' t' h' Hh; by apply (add_vote_keeps _ _ _ _ _ _ _ _ _ _ Ea)].
    exists vm, (pm_calls (pl_mgr s)), (last_placed_pillar_vote_period_ (pl_mgr s)), (blocks_ (pl_mgr s)).
    by destruct (pl_mgr s). }
  destruct added; simpl.
  2: { intros [= <-]. exists []. split_and!; [done|constructor|naive_solver]. }
  assert (forall m1 m2, placed (pl_mgr s) m1 [] ->
    m2 = call (set_vote_mgr m1 (save_own (vote_mgr_ m1) v)) (SaveOwnVote v) -> placed (pl_mgr s) m2 [v]) as Hsave.
  { intros m1 m2 H1 ->. apply (placed_trans _ m1 _ [] [v] H1). split_and!.
    - exists (save_own (vote_mgr_ m1) v), (pm_calls m1 ++ [SaveOwnVote v]), (last_placed_pillar_vote_period_ m1), (blocks_ m1).
      by destruct m1.
    - unfold own_votes, call. simpl. by rewrite omap_app.
    - intros p' r' t' h' Hh. simpl. by rewrite save_own_keeps. }
  assert (forall m1 m2, placed (pl_mgr s) m1 [v] -> m2 = match pillar with
      | Some h => if genAndPlacePillarVote env p h a
          then set_last_placed_pillar_vote_period (call m1 (PlacePillarVote a p h)) p else m1
      | None => m1 end -> placed (pl_mgr s) m2 [v]) as Hpillar.
  { intros m1 m2 H1 ->. destruct pillar as [hp|]; [|done]. destruct (genAndPlacePillarVote env p hp a); [|done].
    rewrite <- (app_nil_r [v]). apply (placed_trans _ m1); [done|].
    split_and!; [|unfold own_votes, call; simpl; by rewrite omap_app|done].
    exists (vote_mgr_ m1), (pm_calls m1 ++ [PlacePillarVote a p hp]), p, (blocks_ m1). by destruct m1. }
  destruct (if bool_decide (t = propose_vote) then _ else _) as [m1| |] eqn:Em; simpl; try done. intros [= <-]. simpl.
  exists [v]. split_and!; [|by apply Forall_singleton|naive_solver].
  eapply Hpillar; [|done]. eapply Hsave; [|done].
  case_bool_decide; [|by injection Em as <-].
  apply (placed_trans _ (set_vote_mgr (pl_mgr s) vm) _ [] []); [done|]. by eapply placed_gossip.
Qed.

Lemma place_votes_effect env t p r st h ob pillar ws s s' :
  generates_ok env -> ofold (place_vote env t p r st h ob pillar) ws s = Done s' ->
  exists new, placed (pl_mgr s) (pl_mgr s') new /\ Forall (fun v => getBlockHash v = h /\ at_coord p r st v) new /\
    (pl_success s' = true <-> pl_success s = true \/ new <> []).
Proof.
  intros Hg. revert s. induction ws as [|w ws IH]; intros s; simpl.
  - intros [= <-]. exists []. split_and!; [apply placed_refl|constructor|naive_solver].
  - destruct (place_vote env t p r st h ob pillar s w) as [s1| |] eqn:E; simpl; try done. intros Hrest.
    apply place_vote_effect in E as (n1 & Hp1 & Hf1 & Hs1); [|done]. apply IH in Hrest as (n2 & Hp2 & Hf2 & Hs2).
    exists (n1 ++ n2). split_and!; [by eapply placed_trans|by apply Forall_app|]. rewrite Hs2, Hs1. clear.
    destruct n1; simpl; [intuition congruence|]. split; [intros _; by right|intros _; by left; right].
Qed.

(** Placing votes: the own votes grow by votes for this hash at these coordinates. *)
Lemma genAndPlaceVote_effect env m t p r st h ob m' ok :
  generates_ok env -> genAndPlaceVote cfg env m t p r st h ob = Done (m', ok) ->
  (forall b, ob = Some b -> pb_period b = p /\ pb_hash b = h) /\
  exists new, placed m m' new /\ Forall (fun v => getBlockHash v = h /\ at_coord p r st v) new /\ (ok = true <-> new <> []).
Proof.
  intros Hg. unfold genAndPlaceVote.
  destruct (match ob with None => true | Some b => _ end) eqn:Eb; simpl; [|done].
  assert (forall b, ob = Some b -> pb_period b = p /\ pb_hash b = h) as Hob.
  { intros b ->. by apply andb_true_iff in Eb as [?%Z.eqb_eq ?%Z.eqb_eq]. }
  destruct (getWallets (eligible_wallets_ m) p) as [ws| |]; simpl; try done.
  destruct (ofold _ ws _) as [s| |] eqn:Es; simpl; try done.
  apply place_votes_effect in Es as (new & Hp & Hf & Hs); [|done]. simpl in Hp, Hs.
  intros Hfin. split; [done|]. exists new.
  assert (exists m1, (match pl_votes s with [] => Done (pl_mgr s) | [vote] => gossipNewOwnVote env (pl_mgr s) vote ob
    | votes => Done (gossipNewOwnVotesBundle env (pl_mgr s) votes) end) = Done m1 /\ placed (pl_mgr s) m1 [] /\
      m' = m1 /\ ok = pl_success s) as (m1 & _ & Hp1 & -> & ->).
  { destruct (pl_votes s) as [|v [|v' vs]]; simpl in *.
    - injection Hfin as <- <-. eexists. split_and!; [done|apply placed_refl|done|done].
    - destruct (gossipNewOwnVote env (pl_mgr s) v ob) as [m1| |] eqn:E; simpl in Hfin; try done.
      injection Hfin as <- <-. exists m1. split_and!; [done|by eapply placed_gossip|done|done].
    - injection Hfin as <- <-. eexists. split_and!; [done|apply placed_bundle|done|done]. }
  split_and!; [|done|naive_solver]. rewrite <- (app_nil_r new). by eapply placed_trans.
Qed.
End placing.

(** ** The invariant *)

Definition state_step (state : PbftStates) (step : PbftStep) : Prop :=
  match state with
  | value_proposal_state => step = 1
  | filter_state => step = 2
  | certify_state => step = 3
  | finish_state => 4 <= step /\ step mod 2 = 0
  | finish_polling_state => 5 <= step /\ step mod 2 = 1
  end.

(** A vote of the past, seen from period, round and step. *)
Definition not_after (p : PbftPeriod) (r : PbftRound) (s : PbftStep) (v : PbftVote) : Prop :=
  getPeriod v < p \/ (getPeriod v = p /\ (getRound v < r \/ (getRound v = r /\ getStep v <= s))).

(** The safety of a set of votes: what was cert voted is what is next voted. *)
Definition votes_safe (own : list PbftVote) : Prop :=
  forall v w, v ∈ own -> w ∈ own -> getPeriod v = getPeriod w -> getRound v = getRound w ->
    getType v = cert_vote -> getType w = cert_vote \/ getType w = next_vote -> getBlockHash w = getBlockHash v.

Section invariant.
#[local] Set Default Proof Using "Type*".
Context {V : Type} `{VoteServiceLaws V} (cfg : PbftMgrConfig).

Record pm_inv (m : PbftManager V) : Prop := {
  i_state : state_step (state_ m) (step_m m);
  i_round : 1 <= round_m m;
  i_size : 0 <= Chain.size_ (pbft_chain_ m) < 2 ^ 64 - 1;
  i_own : forall v, v ∈ own_votes m -> 1 <= getStep v /\ not_after (getPbftPeriod m) (round_m m) (step_m m) v;
  i_cert : forall b, cert_voted_block_for_round_ m = Some b -> pb_period b = getPbftPeriod m /\
    voted_block (vote_mgr_ m) (getPbftPeriod m) (round_m m) SoftVotedBlock = Some (pb_hash b);
  i_cert_own : forall v, v ∈ own_votes m -> at_coord (getPbftPeriod m) (round_m m) 3 v ->
    exists b, cert_voted_block_for_round_ m = Some b /\ getBlockHash v = pb_hash b;
  i_safe : votes_safe (own_votes m);
  i_db : db_round (pm_db m) = round_m m /\ db_step (pm_db m) = step_m m /\
    db_cert_voted_block_in_round (pm_db m) = (fun b => (round_m m, b)) <$> cert_voted_block_for_round_ m;
  i_filed : filed (blocks_ m);
}.

Lemma getType_ge v : 1 <= getStep v -> getType v = cert_vote \/ getType v = next_vote -> 3 <= getStep v.
Proof.
  intros Hs Ht. destruct (decide (getStep v = 1)) as [E|]; [|destruct (decide (getStep v = 2)) as [E|]; [|lia]];
    unfold getType, getStep, msg_getType in *; rewrite E in Ht; by destruct Ht.
Qed.

(** Moving on within a round: nothing but step, state and timing changes. *)
Lemma inv_move m m' :
  pm_inv m -> round_m m' = round_m m -> pbft_chain_ m' = pbft_chain_ m -> pm_calls m' = pm_calls m ->
  cert_voted_block_for_round_ m' = cert_voted_block_for_round_ m ->
  (forall p r t h, voted_block (vote_mgr_ m) p r t = Some h -> voted_block (vote_mgr_ m') p r t = Some h) ->
  filed (blocks_ m') -> db_round (pm_db m') = db_round (pm_db m) -> db_step (pm_db m') = step_m m' ->
  db_cert_voted_block_in_round (pm_db m') = db_cert_voted_block_in_round (pm_db m) ->
  step_m m <= step_m m' -> state_step (state_ m') (step_m m') -> pm_inv m'.
Proof.
  intros [I1 I2 I3 I4 I5 I6 I7 (I8 & I9 & I10) I11] Er Ec Eo Ecv Ev Ef Ed1 Ed2 Ed3 Hs Hst.
  assert (getPbftPeriod m' = getPbftPeriod m) as Ep by (unfold getPbftPeriod; by rewrite Ec).
  assert (own_votes m' = own_votes m) as Eow by (unfold own_votes; by rewrite Eo).
  split; rewrite ?Ep, ?Er, ?Eow, ?Ec, ?Ecv; try done.
  - intros v Hv. specialize (I4 v Hv). unfold not_after in *. lia.
  - intros b Hb. destruct (I5 b Hb) as [? Hvb]. split; [done|by apply Ev].
  - by rewrite Ed1, Ed2, Ed3.
Qed.

(** New votes of the current step, other than cert votes. *)
Lemma inv_placed m m' new h :
  pm_inv m -> placed m m' new ->
  Forall (fun v => getBlockHash v = h /\ at_coord (getPbftPeriod m) (round_m m) (step_m m) v) new ->
  step_m m <> 3 -> (4 <= step_m m -> forall b, cert_voted_block_for_round_ m = Some b -> h = pb_hash b) -> pm_inv m'.
Proof.
  intros [I1 I2 I3 I4 I5 I6 I7 I8 I9] ((vm & calls & pp & pb & -> & Hpb) & Ho & Hk) Hnew H3 Hh.
  rewrite Forall_forall in Hnew.
  assert (1 <= step_m m) as Hpos by (destruct (state_ m); simpl in I1; lia).
  split; simpl; try done.
  - intros v. rewrite Ho, elem_of_app. intros [Hv|Hv]; [by apply I4|]. destruct (Hnew v Hv) as [_ (Hp & Hr & Hs)].
    unfold not_after. change (getPbftPeriod (with_calls m vm calls pp pb)) with (getPbftPeriod m). rewrite Hp, Hr, Hs. lia.
  - intros b Hb. destruct (I5 b Hb) as [? Hvb]. split; [done|]. by apply Hk.
  - intros v. rewrite Ho, elem_of_app. intros [Hv|Hv]; [by apply I6|]. intros (_ & _ & Hs3).
    destruct (Hnew v Hv) as [_ (_ & _ & Hs)]. congruence.
  - intros v w. rewrite Ho, !elem_of_app. intros Hv Hw Hp Hr Hcv Hw3.
    destruct Hv as [Hv|Hv]; [|apply getType_cert in Hcv; destruct (Hnew v Hv) as [_ (_ & _ & Hs)]; congruence].
    destruct Hw as [Hw|Hw]; [by apply I7|]. destruct (Hnew w Hw) as [-> (Hwp & Hwr & Hws)].
    destruct (I6 v Hv) as (b & Hb & ->); [apply getType_cert in Hcv; split_and!; congruence|].
    apply Hh; [|done]. apply getType_ge in Hw3; lia.
  - by apply Hpb.
Qed.

(** The cert votes of a round. *)
Lemma inv_certified m m' new b d :
  pm_inv m -> step_m m = 3 -> state_ m = certify_state -> cert_voted_block_for_round_ m = None -> placed m m' new ->
  Forall (fun v => getBlockHash v = pb_hash b /\ at_coord (getPbftPeriod m) (round_m m) 3 v) new ->
  pb_period b = getPbftPeriod m ->
  voted_block (vote_mgr_ m) (getPbftPeriod m) (round_m m) SoftVotedBlock = Some (pb_hash b) ->
  d = save_cert_voted (Some (round_m m, b)) (pm_db m) ->
  pm_inv (set_pm_db (set_cert_voted_block_for_round m' (Some b)) d).
Proof.
  intros [I1 I2 I3 I4 I5 I6 I7 (I8 & I9 & I10) I11] Hs Hst Hnone ((vm & calls & pp & pb & -> & Hpb) & Ho & Hk) Hnew Hbp Hsoft ->.
  rewrite Forall_forall in Hnew. set (m2 := set_pm_db _ _).
  assert (own_votes m2 = own_votes m ++ new) as Ho2 by exact Ho.
  assert (getPbftPeriod m2 = getPbftPeriod m) as Ep by done.
  split; rewrite ?Ep, ?Ho2; simpl; try done.
  - intros v. rewrite elem_of_app. intros [Hv|Hv]; [by apply I4|]. destruct (Hnew v Hv) as [_ (Hp & Hr & Hvs)].
    unfold not_after. rewrite Hp, Hr, Hvs. lia.
  - intros b' [= <-]. split; [done|]. by apply Hk.
  - intros v. rewrite elem_of_app. intros [Hv|Hv] Hc.
    + destruct (I6 v Hv Hc) as (b' & Hb' & _). congruence.
    + exists b. split; [done|]. by apply Hnew.
  - intros v w. rewrite !elem_of_app. intros Hv Hw Hp Hr Hcv Hw3.
    assert (forall x, x ∈ own_votes m -> getPeriod x = getPbftPeriod m -> getRound x = round_m m ->
      getType x = cert_vote \/ getType x = next_vote -> False) as Hold.
    { intros x Hx Hxp Hxr Ht. destruct (I4 x Hx) as [Hpos Hna]. apply getType_ge in Ht; [|done].
      unfold not_after in Hna. rewrite Hs in Hna. destruct (I6 x Hx) as (b' & ? & _); [|congruence].
      split_and!; [done|done|lia]. }
    destruct Hv as [Hv|Hv], Hw as [Hw|Hw]; [by apply I7| | |].
    + destruct (Hnew w Hw) as [_ (Hwp & Hwr & _)]. exfalso. apply (Hold v Hv); [congruence|congruence|by left].
    + destruct (Hnew v Hv) as [_ (Hvp & Hvr & _)]. exfalso. apply (Hold w Hw); [congruence|congruence|done].
    + destruct (Hnew v Hv) as [-> _], (Hnew w Hw) as [-> _]. done.
  - by apply Hpb.
Qed.

(** ** The states *)

Definition votes_here (m : PbftManager V) (h : blk_hash_t) (new : list PbftVote) : Prop :=
  Forall (fun v => getBlockHash v = h /\ at_coord (getPbftPeriod m) (round_m m) (step_m m) v) new.

Lemma placed_blocks m pb : (filed (blocks_ m) -> filed pb) -> placed m (set_blocks m pb) [].
Proof.
  intros Hf. split_and!; [|by rewrite app_nil_r|done].
  exists (vote_mgr_ m), (pm_calls m), (last_placed_pillar_vote_period_ m), pb. by destruct m.
Qed.

Lemma placed_valid env m p h pb ob :
  filed (blocks_ m) -> getValidPbftProposedBlock env (blocks_ m) p h = Done (pb, ob) -> placed m (set_blocks m pb) [].
Proof. intros Hf Hg. apply filed_valid in Hg as [Hf' _]; [|done]. by apply placed_blocks. Qed.

Lemma placed_reward env m rv :
  placed m (match network env with None => m | Some _ => call m (GossipVotesBundle rv false) end) [].
Proof. destruct (network env); [by apply placed_call|apply placed_refl]. Qed.

Lemma placed_same m m' new :
  placed m m' new -> round_m m' = round_m m /\ getPbftPeriod m' = getPbftPeriod m /\ step_m m' = step_m m /\
    cert_voted_block_for_round_ m' = cert_voted_block_for_round_ m /\ pm_db m' = pm_db m /\ state_ m' = state_ m.
Proof. by intros ((v & c & pp & pb & -> & _) & _). Qed.

(** Voting after a preparation that places nothing. *)
Lemma vote_after env m m1 t h ob m' ok :
  generates_ok env -> placed m m1 [] ->
  genAndPlaceVote cfg env m1 t (getPbftPeriod m) (round_m m) (step_m m) h ob = Done (m', ok) ->
  exists new, placed m m' new /\ votes_here m h new /\ (ok = true <-> new <> []).
Proof.
  intros Hg Hp Hv. apply genAndPlaceVote_effect in Hv as (_ & new & Hp' & Hf & Hok); [|done].
  exists new. split_and!; [by apply (placed_trans m m1 m' [])| |done].
  destruct (placed_same _ _ _ Hp) as (Er & Ep & Es & _). unfold votes_here. done.
Qed.

(** The leader among candidates is one of them, with its block. *)
Lemma scan_candidates_in env cands pb e pb' b v :
  filed pb -> scan_candidates env pb cands e = Done (pb', Some (b, v)) ->
  e = Some (b, v) \/ (v ∈ cands.*2 /\ pb_hash b = getBlockHash v).
Proof.
  revert pb e. induction cands as [|[k c] rest IH]; intros pb e Hf; simpl; [intros [= <- ->]; by left|].
  assert (v ∈ rest.*2 /\ pb_hash b = getBlockHash v -> v ∈ c :: rest.*2 /\ pb_hash b = getBlockHash v) as Hmono
    by (intros [? ?]; split; [by right|done]).
  destruct (findPbftBlockInChain env (getBlockHash c)); [intros [?|?]%IH; auto|].
  destruct (getValidPbftProposedBlock env pb (getPeriod c) (getBlockHash c)) as [[pb1 ob]| |] eqn:Ev; simpl; try done.
  apply filed_valid in Ev as [Hf1 Hb]; [|done]. destruct ob as [x|]; [|intros [?|?]%IH; auto].
  destruct (Hb x eq_refl) as [_ Hx]. destruct (_ =? _).
  - intros [He|?]%IH; [|auto..]. destruct e; [by left|]. injection He as -> ->. right. split; [by left|done].
  - intros [= <- <- <-]. right. split; [by left|done].
Qed.

Lemma identifyLeaderBlock_in env pb votes pb' b v :
  filed pb -> identifyLeaderBlock env pb votes = Done (pb', Some (b, v)) -> v ∈ votes /\ pb_hash b = getBlockHash v.
Proof.
  intros Hf. unfold identifyLeaderBlock. destruct votes as [|v0 vs]; [done|].
  intros [?|[Hin Hb]]%scan_candidates_in; [done| |done]. split; [|done].
  apply list_elem_of_fmap in Hin as ([k x] & -> & Hin). apply elem_of_map_items in Hin. revert Hin.
  unfold leader_candidates. generalize (v0 :: vs) as l. intros l.
  assert (forall (c : gmap Z PbftVote), foldl (fun c v => if getBlockHash v =? kNullBlockHash then c else
    <[getProposal env v := v]> c) c l !! k = Some x -> c !! k = Some x \/ x ∈ l) as Hgen.
  { induction l as [|y l IH]; intros c; simpl; [auto|]. intros [Hc|?]%IH; [|right; by right].
    destruct (_ =? _); [auto|]. apply lookup_insert_Some in Hc as [[_ <-]|[_ ?]]; [right; by left|auto]. }
  intros [Hc|?]%Hgen; [by rewrite lookup_empty in Hc|done].
Qed.

(** Own proposals are votes of the asked period and the current round and step. *)
Lemma wallet_proposals_ok env m period make ws s :
  generates_ok env -> filed s.1 -> Forall (at_coord period (round_m m) (step_m m)) s.2 ->
  let s' := foldl (wallet_proposal env m period make) s ws in
  filed s'.1 /\ Forall (at_coord period (round_m m) (step_m m)) s'.2.
Proof.
  intros Hg. revert s. induction ws as [|w ws IH]; intros s Hf Hv; [done|]. apply IH; unfold wallet_proposal;
    (destruct (generateVoteWithWeight env _ _ _ _ _ _) as [v|] eqn:Ev; [|done]); destruct (negb _); try done; simpl.
  - by apply filed_push.
  - apply Forall_app. split; [done|]. apply Forall_singleton. by destruct (Hg _ _ _ _ _ _ _ Ev).
Qed.

Lemma generatePbftBlock_effect env m prev anchor oh extra ws m' res :
  generates_ok env -> generatePbftBlock env m (getPbftPeriod m) prev anchor oh extra ws = Done (m', res) ->
  exists h new, placed m m' new /\ votes_here m h new.
Proof.
  intros Hg. unfold generatePbftBlock. destruct (reward_votes (vote_mgr_ m)) as [reward| |]; simpl; try done.
  destruct (_ || _); simpl; [|done].
  assert (exists h new, placed m m new /\ votes_here m h new) as Hnone by (exists 0, []; split; [apply placed_refl|constructor]).
  destruct (finalChainHash env _) as [fch|]; [|by intros [= <- <-]].
  match goal with |- context [foldl ?f ?s ws] => destruct (foldl f s ws) as [pbs votes] eqn:Ef;
    destruct (wallet_proposals_ok env m (getPbftPeriod m) _ ws s Hg (filed_empty ∅) (Forall_nil_2 _) : filed (foldl f s ws).1 /\ _) as [Hf Hv]
  end. rewrite Ef in Hf, Hv. simpl in Hf, Hv.
  destruct (identifyLeaderBlock env pbs votes) as [[pb' leader]| |] eqn:El; simpl; try done.
  destruct leader as [[b v]|]; [|by intros [= <- <-]].
  destruct (identifyLeaderBlock_in _ _ _ _ _ _ Hf El) as [Hin Hb]. rewrite Forall_forall in Hv. specialize (Hv v Hin).
  destruct (add_vote _ _ (vote_mgr_ m) v) as [[vm added]| |] eqn:Ea; simpl; try done.
  assert (placed m (set_vote_mgr m vm) []) as Hadd.
  { split_and!; [|by rewrite app_nil_r|intros; by eapply add_vote_keeps].
    exists vm, (pm_calls m), (last_placed_pillar_vote_period_ m), (blocks_ m). by destruct m. }
  destruct added; simpl; [|intros [= <- <-]; exists 0, []; split; [done|constructor]].
  intros [= <- <-]. exists (pb_hash b), [v]. split; [|by apply Forall_singleton].
  apply (placed_trans m (set_vote_mgr m vm) _ [] [v] Hadd). split_and!.
  - eexists (save_own vm v), (pm_calls m ++ [SaveOwnVote v]), (last_placed_pillar_vote_period_ m),
      (Proposed.pushProposedPbftBlock (blocks_ m) b true).1. split; [reflexivity|]. apply filed_push.
  - unfold own_votes, call. simpl. by rewrite omap_app.
  - intros p r t h Hh. simpl. by rewrite save_own_keeps.
Qed.

Lemma proposePbftBlock_effect env m m' res :
  generates_ok env -> proposePbftBlock cfg env m = Done (m', res) -> exists h new, placed m m' new /\ votes_here m h new.
Proof.
  intros Hg. unfold proposePbftBlock. destruct (getWallets _ _) as [ws| |]; simpl; try done.
  destruct (if isFicusHardfork cfg _ then _ else _) as [extra|];
    [|intros [= <- <-]; exists 0, []; split; [apply placed_refl|constructor]].
  destruct (choose_anchor cfg env _ _) as [[[a o]|]| |]; simpl; try done; by apply generatePbftBlock_effect.
Qed.

Lemma proposeBlock_effect env m m' :
  generates_ok env -> filed (blocks_ m) -> proposeBlock_ cfg env m = Done m' ->
  exists h new, placed m m' new /\ votes_here m h new.
Proof.
  intros Hg Hf. unfold proposeBlock_. destruct ((round_m m =? 1) || null_next_voted m).
  - destruct (proposePbftBlock cfg env m) as [[m1 res]| |] eqn:Ep; simpl; try done.
    apply proposePbftBlock_effect in Ep as (h & new & Hp & Hv); [|done].
    destruct res as [[[b v] rv]|]; [|intros [= <-]; by exists h, new]. intros Hgo. exists h, new. split; [|done].
    rewrite <- (app_nil_r new). eapply (placed_trans m); [exact Hp|].
    unfold gossipNewOwnVote in Hgo. apply placed_gossip in Hgo.
    apply (placed_trans m1 _ m' [] []) in Hgo; [done|]. apply placed_reward.
  - destruct (voted_block (vote_mgr_ m) _ _ NextVotedBlock) as [h|]; [|done].
    destruct (1 <? round_m m); simpl; [|done].
    destruct (getValidPbftProposedBlock env (blocks_ m) (getPbftPeriod m) h) as [[pb ob]| |] eqn:Ev; simpl; try done.
    pose proof (placed_valid _ _ _ _ _ _ Hf Ev) as Hpb.
    destruct ob as [b|]; [|intros [= <-]; exists 0, []; split; [done|constructor]].
    destruct (env_checkRewardVotes env b) as [rv|]; [|intros [= <-]; exists 0, []; split; [done|constructor]].
    unfold genAndPlaceProposeVote. simpl.
    destruct (negb _); simpl; [intros [= <-]; exists 0, []; split; [done|constructor]|].
    set (m2 := match network env with None => _ | Some _ => _ end).
    assert (placed m m2 []) as H2 by (apply (placed_trans m _ m2 [] []) in Hpb; [done|]; apply placed_reward).
    destruct (placed_same _ _ _ H2) as (Er & Ep & Es & _). change (getPbftPeriod (set_blocks m pb)) with (getPbftPeriod m).
    rewrite Er, Es. destruct (genAndPlaceVote _ _ m2 _ _ _ _ _ _) as [[m3 ok]| |] eqn:Eg; simpl; try done. intros [= <-].
    destruct (vote_after _ _ _ _ _ _ _ _ Hg H2 Eg) as (new & ? & ? & _). by exists (pb_hash b), new.
Qed.

Lemma identifyBlock_effect env m m' :
  generates_ok env -> filed (blocks_ m) -> identifyBlock_ cfg env m = Done m' ->
  exists h new, placed m m' new /\ votes_here m h new.
Proof.
  intros Hg Hf. unfold identifyBlock_.
  assert (forall pb, placed m (set_blocks m pb) [] -> exists h new, placed m (set_blocks m pb) new /\ votes_here m h new)
    as Hnone by (intros pb Hp; exists 0, []; split; [done|constructor]).
  destruct ((round_m m =? 1) || null_next_voted m).
  - destruct (identifyLeaderBlock env (blocks_ m) _) as [[pb ob]| |] eqn:Ei; simpl; try done.
    assert (placed m (set_blocks m pb) []) as Hpb.
    { apply placed_blocks. intros _. unfold identifyLeaderBlock in Ei.
      destruct (proposal_votes _ _ _); [by injection Ei as <- _|by eapply filed_scan]. }
    destruct ob as [[b v]|]; [|intros [= <-]; by apply Hnone].
    destruct (Z.eqb_spec (pb_period b) (getPbftPeriod m)) as [Eb|]; simpl; [|done]. rewrite Eb.
    destruct (genAndPlaceVote _ _ _ _ _ _ _ _ _) as [[m3 ok]| |] eqn:Eg; simpl; try done. intros [= <-].
    destruct (vote_after _ _ _ _ _ _ _ _ Hg Hpb Eg) as (new & ? & ? & _). by exists (pb_hash b), new.
  - destruct (voted_block (vote_mgr_ m) _ _ NextVotedBlock) as [h|].
    2: { intros [= <-]. exists 0, []. split; [apply placed_refl|constructor]. }
    destruct (getValidPbftProposedBlock env (blocks_ m) (getPbftPeriod m) h) as [[pb ob]| |] eqn:Ev; simpl; try done.
    pose proof (placed_valid _ _ _ _ _ _ Hf Ev) as Hpb. destruct ob as [b|]; [|intros [= <-]; by apply Hnone].
    destruct (genAndPlaceVote _ _ _ _ _ _ _ _ _) as [[m3 ok]| |] eqn:Eg; simpl; try done. intros [= <-].
    destruct (vote_after _ _ _ _ _ _ _ _ Hg Hpb Eg) as (new & ? & ? & _). by exists h, new.
Qed.

Lemma inv_nothing m m' : pm_inv m -> placed m m' [] -> pm_inv m'.
Proof.
  intros [I1 I2 I3 I4 I5 I6 I7 I8 I9] ((vm & calls & pp & pb & -> & Hpb) & Ho & Hk). rewrite app_nil_r in Ho.
  split; rewrite ?Ho; simpl; try done; [|by apply Hpb].
  intros b Hb. destruct (I5 b Hb) as [? Hvb]. split; [done|]. by apply Hk.
Qed.

Lemma certifyBlock_inv env m m' :
  generates_ok env -> pm_inv m -> state_ m = certify_state -> certifyBlock_ cfg env m = Done m' ->
  pm_inv m' /\ state_ m' = certify_state /\ step_m m' = 3.
Proof.
  intros Hg Hinv Hst. assert (step_m m = 3) as H3 by (pose proof (i_state _ Hinv) as Hs; by rewrite Hst in Hs).
  unfold certifyBlock_. set (m1 := set_go_finish_state m _).
  assert (pm_inv m1) as Hinv1 by (apply (inv_move m); try done; apply Hinv).
  assert (forall m2, placed m1 m2 [] -> pm_inv m2 /\ state_ m2 = certify_state /\ step_m m2 = 3) as Hnone.
  { intros m2 Hp. split; [by apply (inv_nothing m1)|]. destruct (placed_same _ _ _ Hp) as (_ & _ & -> & _ & _ & ->). done. }
  assert (pm_inv m1 /\ state_ m1 = certify_state /\ step_m m1 = 3) as Hsame by (by split_and!).
  destruct (go_finish_state_ m1); [by intros [= <-]|].
  destruct (_ <? 2 * current_round_lambda_ m1); [by intros [= <-]|].
  case_bool_decide as Hc; [by intros [= <-]|]. apply eq_None_not_Some in Hc.
  destruct (voted_block (vote_mgr_ m1) (getPbftPeriod m) (round_m m1) SoftVotedBlock) as [h|] eqn:Esoft; [|by intros [= <-]].
  destruct (getValidPbftProposedBlock env (blocks_ m1) (getPbftPeriod m) h) as [[pb ob]| |] eqn:Ev; simpl; try done.
  destruct (filed_valid _ _ _ _ _ _ (i_filed _ Hinv1) Ev) as [_ Hb].
  pose proof (placed_valid _ m1 _ _ _ _ (i_filed _ Hinv1) Ev) as Hpb.
  destruct ob as [b|]; [|intros [= <-]; by apply Hnone]. destruct (Hb b eq_refl) as [Hbp Hbh]. rewrite Hbp.
  destruct (genAndPlaceVote _ _ _ _ _ _ _ _ _) as [[m3 ok]| |] eqn:Eg; simpl; try done.
  destruct (vote_after env m1 _ _ _ _ _ _ Hg Hpb Eg) as (new & Hp & Hv & Hok).
  destruct (placed_same _ _ _ Hp) as (Er & Ep & Es & Ecv & Edb & Est).
  destruct ok; simpl; intros [= <-].
  - split; [|split; [|exact (eq_trans Es H3)]; exact (eq_trans Est Hst)].
    unfold upd_db. simpl. apply (inv_certified m1 m3 new b); try done.
    + unfold votes_here in Hv. rewrite (eq_refl : step_m m1 = step_m m), H3 in Hv. exact Hv.
    + rewrite Hbh. exact Esoft.
    + by rewrite Er, Edb.
  - assert (new = []) as -> by (destruct new; [done|]; discriminate (proj2 Hok ltac:(done))). by apply Hnone.
Qed.

(** In a finish state with a cert voted block the next votes are for it. *)
Lemma firstFinish_effect env m m' :
  generates_ok env -> pm_inv m -> firstFinish_ cfg env m = Done m' ->
  exists h new, placed m m' new /\ votes_here m h new /\
    forall b, cert_voted_block_for_round_ m = Some b -> h = pb_hash b.
Proof.
  intros Hg Hinv. unfold firstFinish_. destruct (cert_voted_block_for_round_ m) as [b|] eqn:Ec.
  { destruct (Z.eqb_spec (pb_period b) (getPbftPeriod m)) as [Eb|]; simpl; [|done]. rewrite Eb.
    destruct (genAndPlaceVote _ _ _ _ _ _ _ _ _) as [[m3 ok]| |] eqn:Eg; simpl; try done. intros [= <-].
    destruct (vote_after _ _ _ _ _ _ _ _ Hg (placed_refl m) Eg) as (new & ? & ? & _).
    exists (pb_hash b), new. split_and!; [done|done|by intros b' [= <-]]. }
  assert (forall m1 t h ob m3 ok, placed m m1 [] ->
    genAndPlaceVote cfg env m1 t (getPbftPeriod m) (round_m m) (step_m m) h ob = Done (m3, ok) -> 
    exists h new, placed m m3 new /\ votes_here m h new /\ forall b, None = Some b -> h = pb_hash b) as Hgo.
  { intros m1 t h ob m3 ok Hp Eg. destruct (vote_after _ _ _ _ _ _ _ _ Hg Hp Eg) as (new & ? & ? & _).
    exists h, new. by split_and!. }
  destruct ((2 <=? round_m m) && null_next_voted m).
  { destruct (genAndPlaceVote _ _ _ _ _ _ _ _ _) as [[m3 ok]| |] eqn:Eg; simpl; try done. intros [= <-].
    by eapply Hgo, Eg; apply placed_refl. }
  destruct (voted_block (vote_mgr_ m) _ _ NextVotedBlock) as [h|].
  - destruct (getValidPbftProposedBlock env (blocks_ m) (getPbftPeriod m) h) as [[pb ob]| |] eqn:Ev; simpl; try done.
    pose proof (placed_valid _ m _ _ _ _ (i_filed _ Hinv) Ev) as Hpb.
    destruct ob as [b|]; [|intros [= <-]; exists 0, []; split_and!; [done|constructor|done]].
    destruct (genAndPlaceVote _ _ _ _ _ _ _ _ _) as [[m3 ok]| |] eqn:Eg; simpl; try done. intros [= <-].
    by eapply Hgo, Eg.
  - destruct (negb (null_next_voted m)); simpl; [|done].
    destruct (genAndPlaceVote _ _ _ _ _ _ _ _ _) as [[m3 ok]| |] eqn:Eg; simpl; try done. intros [= <-].
    by eapply Hgo, Eg; apply placed_refl.
Qed.

Lemma soft_next_inv env m m' :
  generates_ok env -> pm_inv m -> 4 <= step_m m -> next_vote_soft_voted_block cfg env m = Done m' ->
  pm_inv m' /\ state_ m' = state_ m /\ step_m m' = step_m m.
Proof.
  intros Hg Hinv H4. unfold next_vote_soft_voted_block. destruct (already_next_voted_value_ m); [by intros [= <-]|].
  destruct (voted_block (vote_mgr_ m) _ _ SoftVotedBlock) as [h|] eqn:Es; [|by intros [= <-]].
  destruct (getValidPbftProposedBlock env (blocks_ m) (getPbftPeriod m) h) as [[pb ob]| |] eqn:Ev; simpl; try done.
  pose proof (placed_valid _ m _ _ _ _ (i_filed _ Hinv) Ev) as Hpb.
  destruct ob as [b|]; [|intros [= <-]; split; [by apply (inv_nothing m)|done]].
  destruct (genAndPlaceVote _ _ _ _ _ _ _ _ _) as [[m3 ok]| |] eqn:Eg; simpl; try done.
  destruct (vote_after env m _ _ _ _ _ _ Hg Hpb Eg) as (new & Hp & Hv & _).
  assert (pm_inv m3) as H3.
  { apply (inv_placed m m3 new h); [done|done|done|lia|]. intros _ b' Hb'.
    destruct (i_cert _ Hinv b' Hb') as [_ Hs']. congruence. }
  destruct (placed_same _ _ _ Hp) as (_ & _ & Est & _ & _ & Esta).
  destruct ok; simpl; intros [= <-]; [|done]. split; [|done]. apply (inv_move m3); try done; apply H3.
Qed.

Lemma null_next_inv env m m' :
  generates_ok env -> pm_inv m -> 4 <= step_m m -> next_vote_null_block cfg env m = Done m' ->
  pm_inv m' /\ state_ m' = state_ m /\ step_m m' = step_m m.
Proof.
  intros Hg Hinv H4. unfold next_vote_null_block.
  destruct (bool_decide (is_Some (cert_voted_block_for_round_ m)) || _ || _) eqn:Ec; [by intros [= <-]|].
  apply orb_false_iff in Ec as [[Ec%bool_decide_eq_false _]%orb_false_iff _]. apply eq_None_not_Some in Ec.
  destruct (negb (null_next_voted m)); [by intros [= <-]|].
  destruct (genAndPlaceVote _ _ _ _ _ _ _ _ _) as [[m3 ok]| |] eqn:Eg; simpl; try done.
  destruct (vote_after env m _ _ _ _ _ _ Hg (placed_refl m) Eg) as (new & Hp & Hv & _).
  assert (pm_inv m3) as H3 by (apply (inv_placed m m3 new kNullBlockHash); [done|done|done|lia|]; intros _ b Hb; congruence).
  destruct (placed_same _ _ _ Hp) as (_ & _ & Est & _ & _ & Esta).
  destruct ok; simpl; intros [= <-]; [|done]. split; [|done]. apply (inv_move m3); try done; apply H3.
Qed.

Lemma secondFinish_inv env m m' :
  generates_ok env -> pm_inv m -> 4 <= step_m m -> secondFinish_ cfg env m = Done m' ->
  pm_inv m' /\ state_ m' = state_ m /\ step_m m' = step_m m.
Proof.
  intros Hg Hinv H4. unfold secondFinish_.
  destruct (next_vote_soft_voted_block cfg env m) as [m1| |] eqn:E1; simpl; try done.
  apply soft_next_inv in E1 as (H1 & Hs1 & Ht1); [|done..].
  destruct (next_vote_null_block cfg env m1) as [m2| |] eqn:E2; simpl; try done.
  apply null_next_inv in E2 as (H2 & Hs2 & Ht2); [|done|done|lia]. intros [= <-].
  split; [|simpl; split; congruence]. apply (inv_move m2); try done; apply H2.
Qed.

(** ** The transitions *)

(** [setPbftStep] writes the step and perhaps the lambda. *)
Lemma setPbftStep_fields m s :
  exists l, setPbftStep cfg m s = set_current_round_lambda (set_step_m (upd_db m (save_step s)) s) l.
Proof.
  unfold setPbftStep. destruct (_ && _); [by eexists|]. exists (current_round_lambda_ m). by destruct m.
Qed.

Lemma inv_next_state m m' state :
  pm_inv m -> step_m m < 2 ^ 32 - 1 -> state_step state (step_m m + 1) ->
  (exists l, m' = set_current_round_lambda (set_step_m (upd_db (set_state m state) (save_step (step_m m + 1))) (step_m m + 1)) l) ->
  pm_inv m'.
Proof. intros Hinv Hs Hst [l ->]. apply (inv_move m); simpl; try done; [apply Hinv|lia]. Qed.

Lemma next_step m : pm_inv m -> step_m m < 2 ^ 32 - 1 -> u32 (step_m m + 1) = step_m m + 1.
Proof.
  intros Hinv Hs. apply wrap_id. unfold in_range, modulus. pose proof (i_state _ Hinv) as Hst.
  assert (1 <= step_m m) by (destruct (state_ m); simpl in Hst; lia). lia.
Qed.

(** Timing and flags do not matter. *)
Lemma inv_time m t : pm_inv m -> pm_inv (set_next_step_time_ms m t).
Proof. intros Hinv. apply (inv_move m); try done; apply Hinv. Qed.

Lemma inv_finish_time m t : pm_inv m -> pm_inv (set_second_finish_step_start_datetime m t).
Proof. intros Hinv. apply (inv_move m); try done; apply Hinv. Qed.

Lemma inv_reset_next_voted m : pm_inv m -> pm_inv (reset_next_voted m).
Proof. intros Hinv. apply (inv_move m); try done; apply Hinv. Qed.

Lemma setState_inv m state :
  pm_inv m -> step_m m < 2 ^ 32 - 1 -> state_step state (step_m m + 1) ->
  pm_inv (setPbftStep cfg (set_state m state) (u32 (step_m m + 1))).
Proof.
  intros Hinv Hs Hst. rewrite (next_step m Hinv Hs).
  destruct (setPbftStep_fields (set_state m state) (step_m m + 1)) as [l ->]. by apply (inv_next_state m _ state); [..|exists l].
Qed.

Lemma run_state_inv env m m' :
  generates_ok env -> pm_inv m -> step_m m < 2 ^ 32 - 1 -> run_state cfg env m = Done m' -> pm_inv m'.
Proof.
  intros Hg Hinv Hs. unfold run_state. pose proof (i_state _ Hinv) as Hst. destruct (state_ m) eqn:Estate; simpl in Hst.
  - destruct (proposeBlock_ cfg env m) as [m1| |] eqn:E; simpl; try done. intros [= <-].
    apply proposeBlock_effect in E as (h & new & Hp & Hv); [|done|apply Hinv].
    assert (pm_inv m1) as H1 by (by apply (inv_placed m m1 new h); [done|done|done|lia|lia]).
    destruct (placed_same _ _ _ Hp) as (_ & _ & Es & _). apply inv_time, setState_inv; [done|lia|simpl; lia].
  - destruct (identifyBlock_ cfg env m) as [m1| |] eqn:E; simpl; try done. intros [= <-].
    apply identifyBlock_effect in E as (h & new & Hp & Hv); [|done|apply Hinv].
    assert (pm_inv m1) as H1 by (by apply (inv_placed m m1 new h); [done|done|done|lia|lia]).
    destruct (placed_same _ _ _ Hp) as (_ & _ & Es & _). apply inv_time, setState_inv; [done|lia|simpl; lia].
  - destruct (certifyBlock_ cfg env m) as [m1| |] eqn:E; simpl; try done. intros [= <-].
    apply certifyBlock_inv in E as (H1 & Hs1 & Ht1); [|done..].
    destruct (go_finish_state_ m1); [|by apply inv_time]. apply inv_time, setState_inv; [done|lia|]. simpl.
    rewrite Ht1. split; [lia|done].
  - destruct (firstFinish_ cfg env m) as [m1| |] eqn:E; simpl; try done. intros [= <-].
    apply firstFinish_effect in E as (h & new & Hp & Hv & Hc); [|done..].
    assert (pm_inv m1) as H1 by (apply (inv_placed m m1 new h); [done|done|done|lia|auto]).
    destruct (placed_same _ _ _ Hp) as (_ & _ & Es & _). apply inv_time.
    assert (pm_inv (reset_next_voted (setPbftStep cfg (set_state m1 finish_polling_state) (u32 (step_m m1 + 1))))) as H2.
    { apply inv_reset_next_voted, setState_inv; [done|lia|]. simpl. rewrite Es. split; [lia|].
      rewrite Z.add_mod by lia. by rewrite (proj2 Hst). }
    exact (inv_finish_time _ _ H2).
  - destruct (secondFinish_ cfg env m) as [m1| |] eqn:E; simpl; try done. intros [= <-].
    apply secondFinish_inv in E as (H1 & Hs1 & Ht1); [|done|done|lia].
    destruct (loop_back_finish_state_ m1); [|by apply inv_time]. apply inv_time, inv_reset_next_voted, setState_inv; [done|lia|].
    simpl. rewrite Ht1. split; [lia|]. rewrite Z.add_mod by lia. by rewrite (proj2 Hst).
Qed.

(** ** Rounds and periods *)

(** All own votes are of earlier rounds. *)
Definition own_before (m : PbftManager V) (r : PbftRound) : Prop :=
  forall v, v ∈ own_votes m -> 1 <= getStep v /\
    (getPeriod v < getPbftPeriod m \/ (getPeriod v = getPbftPeriod m /\ getRound v < r)).

Lemma reset_inv env m r m' :
  filed (blocks_ m) -> votes_safe (own_votes m) -> 0 <= Chain.size_ (pbft_chain_ m) < 2 ^ 64 - 1 -> 1 <= r ->
  own_before m r -> (cert_voted_block_for_round_ m = None -> db_cert_voted_block_in_round (pm_db m) = None) ->
  resetPbftConsensus cfg env m r = Done m' ->
  pm_inv m' /\ cert_voted_block_for_round_ m' = None.
Proof.
  intros Hf Hsafe Hsz Hr Hown Hcert. unfold resetPbftConsensus.
  set (m1 := if executed_pbft_block_ _ then _ else _).
  assert (pm_calls m1 = pm_calls m /\ pbft_chain_ m1 = pbft_chain_ m /\ blocks_ m1 = blocks_ m /\ round_m m1 = r /\
    step_m m1 = 1 /\ state_ m1 = value_proposal_state /\ cert_voted_block_for_round_ m1 = None /\
    db_round (pm_db m1) = r /\ db_step (pm_db m1) = 1 /\ db_cert_voted_block_in_round (pm_db m1) = None)
    as (E1 & E2 & E3 & E4 & E5 & E6 & E7 & E8 & E9 & E10).
  { assert ((match cert_voted_block_for_round_ m with Some _ => None | None => db_cert_voted_block_in_round (pm_db m) end)
      = @None (PbftRound * PbftBlock)) as Hn by (destruct (cert_voted_block_for_round_ m); [done|by apply Hcert]).
    subst m1. destruct (executed_pbft_block_ _); simpl; by split_and!. }
  destruct (set_period_round (vote_mgr_ m1) _ r) as [v| |] eqn:Ev; simpl; try done. intros [= <-]. split; [|done].
  set (m2 := set_current_round_start_datetime (set_vote_mgr m1 v) (now env)).
  assert (own_votes m2 = own_votes m) as Eo by (unfold own_votes, m2; simpl; by rewrite E1).
  assert (getPbftPeriod m2 = getPbftPeriod m) as Ep by (unfold getPbftPeriod, m2; simpl; by rewrite E2).
  split; rewrite ?Eo, ?Ep; unfold m2; simpl; rewrite ?E2, ?E3, ?E4, ?E5, ?E6, ?E7, ?E8, ?E9, ?E10; try done.
  - intros w Hw. destruct (Hown w Hw) as [Hpos Hb]. split; [done|]. unfold not_after. lia.
  - intros w Hw (Hwp & Hwr & _). destruct (Hown w Hw) as [_ Hb]. lia.
Qed.

Lemma advanceRound_inv env m m' b : pm_inv m -> advanceRound cfg env m = Done (m', b) -> pm_inv m'.
Proof.
  intros Hinv. unfold advanceRound. destruct (new_round _ _ _) as [r|]; [|by intros [= <- <-]].
  destruct (Z.ltb_spec (round_m m) r) as [Hlt|]; simpl; [|done].
  destruct (resetPbftConsensus cfg env m r) as [m1| |] eqn:E; simpl; try done. intros [= <- <-].
  pose proof Hinv as [I1 I2 I3 I4 I5 I6 I7 (_ & _ & I8) I9].
  apply reset_inv in E as [? _]; [done|done|done|done|lia| |intros Hc; by rewrite I8, Hc].
  intros v Hv. destruct (I4 v Hv) as [Hpos Hna]. split; [done|]. unfold not_after in Hna. lia.
Qed.

(** Without a cert voted block the votes do not matter. *)
Lemma inv_votes m v : pm_inv m -> cert_voted_block_for_round_ m = None -> pm_inv (set_vote_mgr m v).
Proof. intros [I1 I2 I3 I4 I5 I6 I7 I8 I9] Hc. split; try done. simpl. intros b Hb. congruence. Qed.

(** Calls other than saving an own vote do not matter either. *)
Lemma inv_calls m calls : pm_inv m -> own_votes (set_pm_calls m calls) = own_votes m -> pm_inv (set_pm_calls m calls).
Proof. intros [I1 I2 I3 I4 I5 I6 I7 I8 I9] Ho. by split; simpl; rewrite ?Ho. Qed.

Lemma own_call (m : PbftManager V) c : (forall v, c <> SaveOwnVote v) -> own_votes (call m c) = own_votes m.
Proof. intros Hc. unfold own_votes, call. simpl. rewrite omap_app. simpl. destruct c; rewrite ?app_nil_r; naive_solver. Qed.

Lemma inv_call m c : (forall v, c <> SaveOwnVote v) -> pm_inv m -> pm_inv (call m c).
Proof. intros Hc Hm. apply inv_calls; [done|by apply own_call]. Qed.

Lemma inv_pillar_period m p : pm_inv m -> pm_inv (set_last_placed_pillar_vote_period m p).
Proof. intros Hm. apply (inv_move m); try done; apply Hm. Qed.

Lemma processPillarBlock_inv env m n m' : pm_inv m -> processPillarBlock env m n = Done m' -> pm_inv m'.
Proof.
  intros Hm. unfold processPillarBlock. destruct (u64 _ <=? _); simpl; [|done].
  apply (inv_call m (CreatePillarBlock n)) in Hm; [|done].
  destruct (createPillarBlock env n) as [h|]; [|by intros [= <-]].
  destruct (getWallets _ _) as [ws| |]; simpl; try done. intros [= <-]. revert Hm.
  generalize (call m (CreatePillarBlock n)). induction ws as [|[el a] ws IH]; intros m1 Hm; [done|].
  cbn [foldl fst snd]. apply IH. destruct (el && _); [|done]. by apply inv_pillar_period, inv_call.
Qed.

Lemma advancePeriod_inv env m m' :
  filed (blocks_ m) -> votes_safe (own_votes m) -> 0 <= Chain.size_ (pbft_chain_ m) < 2 ^ 64 - 1 ->
  own_before m 1 -> (cert_voted_block_for_round_ m = None -> db_cert_voted_block_in_round (pm_db m) = None) ->
  advancePeriod cfg env m = Done m' -> pm_inv m'.
Proof.
  intros Hf Hsafe Hsz Hown Hcert. unfold advancePeriod.
  destruct (resetPbftConsensus cfg env m 1) as [m2| |] eqn:Er; simpl; try done.
  apply reset_inv in Er as [H2 Hc2]; [|done..].
  destruct (updateWalletsEligibility env _ _) as [w| |]; simpl; try done. intros [= <-].
  apply (inv_move (set_vote_mgr m2 (cleanup_votes (vote_mgr_ m2) (Chain.size_ (pbft_chain_ m2))))); try done.
  - by apply inv_votes.
  - apply filed_cleanup, (i_filed _ H2).
  - apply H2.
  - apply H2.
Qed.

(** What the rest of a push leaves alone. *)
Definition push_frame (m m' : PbftManager V) : Prop :=
  own_votes m' = own_votes m /\ blocks_ m' = blocks_ m /\ pbft_chain_ m' = pbft_chain_ m /\
  cert_voted_block_for_round_ m' = cert_voted_block_for_round_ m /\
  db_cert_voted_block_in_round (pm_db m') = db_cert_voted_block_in_round (pm_db m).

Lemma push_frame_trans m1 m2 m3 : push_frame m1 m2 -> push_frame m2 m3 -> push_frame m1 m3.
Proof. unfold push_frame. intuition congruence. Qed.

Lemma push_frame_call m c : (forall v, c <> SaveOwnVote v) -> push_frame m (call m c).
Proof. intros Hc. split; [by apply own_call|done]. Qed.

Lemma push_lambda_frame env m p r : push_frame m (push_lambda cfg env m p r).1.
Proof.
  unfold push_lambda. destruct (isOnCactiHardfork cfg p); [|done]. simpl.
  set (m1 := if bool_decide _ then m else _).
  assert (push_frame m m1) as H1 by (subst m1; destruct (bool_decide _); [done|by apply push_frame_call]).
  apply (push_frame_trans _ m1); [done|]. unfold adjustDynamicLambda.
  by destruct (if isDynamicLambdaChangeInterval cfg p then _ else _).
Qed.

Lemma push_block_inv env m pd vote m' :
  pm_inv m -> Chain.size_ (pbft_chain_ m) < 2 ^ 64 - 2 -> push_block cfg env m pd vote = Done m' -> pm_inv m'.
Proof.
  intros Hinv Hsz. unfold push_block. destruct (reset_reward _ _ _ _ _) as [v| |]; simpl; try done.
  set (m1 := set_pbft_chain _ _).
  destruct (push_lambda cfg env m1 (pb_period (pd_pbft_blk pd)) (getRound vote)) as [m2 by_] eqn:El.
  pose proof (push_lambda_frame env m1 (pb_period (pd_pbft_blk pd)) (getRound vote)) as Hl. rewrite El in Hl. simpl in Hl.
  set (m3 := set_executed_pbft_block _ true).
  assert (push_frame m2 m3) as H3 by (apply (push_frame_trans _ (call m2 (Finalize (with_transactions pd
    (reorderTransactions (pd_transactions pd))) (pd_dag_blocks pd) by_))); [by apply push_frame_call|done]).
  pose proof (push_frame_trans _ _ _ Hl H3) as (E1 & E2 & E3 & E4 & E5).
  assert (own_votes m1 = own_votes m /\ blocks_ m1 = blocks_ m /\
    pbft_chain_ m1 = Chain.updatePbftChain (pbft_chain_ m) (pb_hash (pd_pbft_blk pd)) (pb_pivot_dag_block_hash (pd_pbft_blk pd)) /\
    cert_voted_block_for_round_ m1 = cert_voted_block_for_round_ m /\ pm_db m1 = pm_db m) as (F1 & F2 & F3 & F4 & F5).
  { subst m1. destruct (negb _); (split; [unfold own_votes; simpl; rewrite !omap_app; simpl; by rewrite !app_nil_r|done]). }
  assert (Chain.size_ (pbft_chain_ m3) = Chain.size_ (pbft_chain_ m) + 1) as Esz.
  { rewrite E3, F3. unfold Chain.updatePbftChain. pose proof (i_size _ Hinv).
    assert (u64 (Chain.size_ (pbft_chain_ m) + 1) = Chain.size_ (pbft_chain_ m) + 1) as Hw
      by (apply wrap_id; unfold in_range, modulus; lia).
    destruct (negb _); simpl; exact Hw. }
  clearbody m1 m3. clear Hl H3 El.
  destruct (advancePeriod cfg env m3) as [m4| |] eqn:Ea; simpl; try done.
  pose proof Hinv as [I1 I2 I3 I4 I5 I6 I7 (_ & _ & I8) I9].
  apply advancePeriod_inv in Ea; [|by rewrite E2, F2|by rewrite E1, F1|lia| |rewrite E4, E5, F4, F5; intros Hc; by rewrite I8, Hc].
  2: { intros x. rewrite E1, F1. intros Hx. destruct (I4 x Hx) as [Hpos Hna]. split; [done|].
       unfold getPbftPeriod in *. rewrite Esz. unfold not_after in Hna. left.
       rewrite !wrap_id in * by (unfold in_range, modulus; lia). lia. }
  destruct (isPillarBlockPeriod cfg _); [|by intros [= <-]].
  destruct (pb_period _ =? _); simpl; [|done]. by apply processPillarBlock_inv.
Qed.

Lemma pushPbftBlock_inv env m pd votes m' ok :
  pm_inv m -> Chain.size_ (pbft_chain_ m) < 2 ^ 64 - 2 -> pushPbftBlock_ cfg env m pd votes = Done (m', ok) -> pm_inv m'.
Proof.
  intros Hinv Hsz. unfold pushPbftBlock_. destruct (pbftBlockInDb env _).
  { destruct (match cert_voted_block_for_round_ m with Some _ => _ | None => _ end); simpl; [by intros [= <- <-]|done]. }
  destruct votes as [|vote votes]; [done|]. destruct (pb_hash _ =? _); simpl; [|done].
  destruct (isPbftWithPillarBlockPeriod cfg _).
  - destruct (finalizePillarBlock env _) as [|x l]; [by intros [= <- <-]|].
    destruct (push_block _ _ _ _ _) as [m1| |] eqn:E; simpl; try done. intros [= <- <-]. by eapply push_block_inv.
  - destruct (push_block _ _ _ _ _) as [m1| |] eqn:E; simpl; try done. intros [= <- <-]. by eapply push_block_inv.
Qed.

Lemma tryPushCertVotesBlock_inv env m m' ok :
  pm_inv m -> Chain.size_ (pbft_chain_ m) < 2 ^ 64 - 2 -> tryPushCertVotesBlock cfg env m = Done (m', ok) -> pm_inv m'.
Proof.
  intros Hinv Hsz. unfold tryPushCertVotesBlock. destruct (voted_votes _ _ _ _) as [l| |]; simpl; try done.
  destruct l as [|v l]; [by intros [= <- <-]|].
  destruct (getValidPbftProposedBlock env _ _ _) as [[pb ob]| |] eqn:Ev; simpl; try done.
  assert (pm_inv (set_blocks m pb)) as H1.
  { apply (inv_move m); try done; try apply Hinv. eapply filed_valid; [apply (i_filed _ Hinv)|exact Ev]. }
  destruct ob as [b|]; [|by intros [= <- <-]]. unfold pushCertVotedPbftBlockIntoChain_.
  destruct (if pb_pivot_dag_block_hash b =? kNullBlockHash then _ else _) as [[dag trxs]| |]; simpl; try done.
  destruct (env_checkRewardVotes env b); [|by intros [= <- <-]]. by apply pushPbftBlock_inv.
Qed.

(** ** Restart *)

Lemma filed_push_all l pb : filed pb -> filed (foldl (fun pb b => (Proposed.pushProposedPbftBlock pb b false).1) pb l).
Proof. revert pb. induction l as [|b l IH]; intros pb Hf; [done|]. simpl. by apply IH, filed_push. Qed.

Lemma init_lambda_fields (m : PbftManager V) r m' :
  init_lambda cfg m r = Done m' ->
  exists l dl rc, m' = set_current_round_lambda (set_dynamic_lambda (set_rounds_count_dynamic_lambda m rc) dl) l.
Proof.
  unfold init_lambda. destruct (isOnCactiHardfork cfg _).
  - destruct (1 <=? _); [destruct (negb _)|]; simpl; intros [= <-]; eauto.
  - intros [= <-]. exists (lambda_ms cfg), (dynamic_lambda_ m), (rounds_count_dynamic_lambda_ m). by destruct m.
Qed.

Lemma init_step_state d : 1 <= db_step d -> 
  let '(step, state) := init_step d in state_step state step /\ db_step d <= step.
Proof.
  intros Hs. unfold init_step. destruct ((db_round d =? 1) && (db_step d =? 1)) eqn:E; simpl.
  - apply andb_true_iff in E as [_ E%Z.eqb_eq]. lia.
  - destruct (Z.ltb_spec (db_step d) 4); simpl; [split; [split; [lia|done]|lia]|].
    destruct (Z.eqb_spec (db_step d mod 2) 0) as [E2|E2]; simpl; [lia|].
    pose proof (Z.mod_pos_bound (db_step d) 2). assert (db_step d <> 4) by (intros E4; by rewrite E4 in E2). lia.
Qed.

(** A node that restarts with the votes of its round has the invariant again. *)
Lemma restart_inv env m v m' :
  pm_inv m ->
  (forall t h, voted_block (vote_mgr_ m) (getPbftPeriod m) (round_m m) t = Some h ->
     voted_block v (getPbftPeriod m) (round_m m) t = Some h) ->
  restart cfg env m v = Done m' -> pm_inv m'.
Proof.
  intros Hinv Hkeep. unfold restart, initialState.
  pose proof Hinv as [I1 I2 I3 I4 I5 I6 I7 (I8 & I9 & I10) I11].
  assert (1 <= db_step (pm_db m)) as Hpos by (rewrite I9; destruct (state_ m); simpl in I1; lia).
  destruct (init_lambda cfg (restarted cfg m v) (db_round (pm_db (restarted cfg m v)))) as [m1| |] eqn:El; simpl; try done.
  apply init_lambda_fields in El as (l & dl & rc & ->). simpl.
  pose proof (init_step_state (pm_db m) Hpos) as Hst. destruct (init_step (pm_db m)) as [step state] eqn:Ei.
  destruct Hst as [Hst Hle]. rewrite I9 in Hle.
  match goal with |- context [set_state ?x state] => set (m1 := x) end.
  destruct (setPbftStep_fields (set_state m1 state) step) as [l' ->].
  assert (pbft_chain_ m1 = pbft_chain_ m /\ pm_calls m1 = pm_calls m /\ cert_voted_block_for_round_ m1 = None /\
    pm_db m1 = pm_db m /\ vote_mgr_ m1 = v /\ filed (blocks_ m1)) as (E1 & E2 & E3 & E4 & E5 & E6).
  { subst m1. destruct (bool_decide _); simpl; (split_and!; [done..|apply filed_empty]). }
  set (m2 := load_proposed _).
  assert (pbft_chain_ m2 = pbft_chain_ m /\ pm_calls m2 = pm_calls m /\ cert_voted_block_for_round_ m2 = None /\
    pm_db m2 = save_step step (pm_db m) /\ vote_mgr_ m2 = v /\ filed (blocks_ m2) /\ state_ m2 = state /\
    step_m m2 = step /\ round_m m2 = round_m m) as (F1 & F2 & F3 & F4 & F5 & F6 & F7 & F8 & F9).
  { unfold m2, load_proposed. simpl. rewrite E4. split_and!; try done. by apply filed_push_all. }
  set (m3 := load_cert_voted m2 _).
  assert (pbft_chain_ m3 = pbft_chain_ m /\ pm_calls m3 = pm_calls m /\
    cert_voted_block_for_round_ m3 = cert_voted_block_for_round_ m /\
    pm_db m3 = save_step step (pm_db m) /\ vote_mgr_ m3 = v /\ filed (blocks_ m3) /\ state_ m3 = state /\
    step_m m3 = step /\ round_m m3 = round_m m) as (G1 & G2 & G3 & G4 & G5 & G6 & G7 & G8 & G9).
  { unfold m3, load_cert_voted. rewrite F4. clear Ei. clearbody m2.
    cbn [save_step db_cert_voted_block_in_round]. rewrite I10.
    destruct (cert_voted_block_for_round_ m) as [b|] eqn:Ec; cbn [fmap option_fmap option_map]; [|by split_and!].
    assert (getPbftPeriod m2 = getPbftPeriod m) as Ep by (unfold getPbftPeriod; by rewrite F1).
    change (getPbftPeriod (set_blocks m2 (Proposed.pushProposedPbftBlock (blocks_ m2) b true).1)) with (getPbftPeriod m2).
    rewrite Ep, (proj1 (I5 b eq_refl)), I8, !Z.eqb_refl. simpl. split_and!; try done. by apply filed_push. }
  set (m4 := set_next_step_time_ms _ 0).
  match goal with |- context [set_period_round ?x ?y ?z] => destruct (set_period_round x y z) as [v'| |] eqn:Ev end; simpl; try done.
  destruct (updateWalletsEligibility env _ _) as [w| |]; simpl; try done.
  assert (forall b, cert_voted_block_for_round_ m = Some b ->
    voted_block v' (getPbftPeriod m) (round_m m) SoftVotedBlock = Some (pb_hash b)) as Hsoft.
  { intros b Hb. erewrite set_period_round_keeps by exact Ev. simpl. rewrite G5. apply Hkeep, (I5 b Hb). }
  set (m5 := set_eligible_wallets _ w).
  assert (own_votes m5 = own_votes m) as Eo by (unfold own_votes, m5; simpl; by rewrite G2).
  assert (getPbftPeriod m5 = getPbftPeriod m) as Ep by (unfold getPbftPeriod, m5; simpl; by rewrite G1).
  assert (pm_inv m5) as H5.
  { split; rewrite ?Eo, ?Ep; unfold m5; simpl; rewrite ?G1, ?G3, ?G4, ?G7, ?G8, ?G9; simpl; try done.
    - intros x Hx. destruct (I4 x Hx) as [? Hna]. split; [done|]. unfold not_after in *. lia.
    - intros b Hb. split; [by apply I5|by apply Hsoft]. }
  clearbody m5. destruct (isPillarBlockPeriod cfg _); [|by intros [= <-]].
  destruct (getCurrentPillarBlock env); [|done]. by apply processPillarBlock_inv.
Qed.
End invariant.
