(* ===== verification/PbftReach.v ===== *)
(** * Runs of the PBFT manager

    The steps a validator takes (an iteration of its loop, a new round, a new block,
    votes and blocks from the network, broadcasts, restarts) as one relation, the
    safety of the votes it casts along every run, the progress of its loop and the
    bounds of its timing. *)

From S2P Require Import Prelude Votes VerifiedVotes PbftChain TransactionQueue PbftManager PbftSafety.
Local Open Scope Z_scope.
Local Open Scope outcome_scope.

(** ** The relation *)

(** A node that never voted, with an empty database. *)
Definition genesis_manager {V} (cfg : PbftMgrConfig) (v : V) (chain : Chain.PbftChain) (wallets : list addr_t) :
    PbftManager V :=
  mkPbftManager 1 1 value_proposal_state None false false false false false (lambda_ms cfg) (lambda_max cfg) 0 0 0 0 0
    (mkBroadcastCounters 1 1 1 1) 0 (mkEligibleWallets 0 ((fun a => (false, a)) <$> wallets)) chain v
    (Proposed.mkProposedBlocks ∅ ∅) (mkPbftMgrDb 1 1 false false false None 1 0) [].

Section reach.
#[local] Set Default Proof Using "Type*".
Context {V : Type} `{VoteServiceLaws V} (cfg : PbftMgrConfig).

Inductive pm_step : PbftManager V -> PbftManager V -> Prop :=
| pm_run env m m' :
    generates_ok env -> step_m m < 2 ^ 32 - 1 -> run_state cfg env m = Done m' -> pm_step m m'
| pm_round env m m' b : advanceRound cfg env m = Done (m', b) -> pm_step m m'
| pm_push env m pd votes m' b :
    Chain.size_ (pbft_chain_ m) < 2 ^ 64 - 2 -> pushPbftBlock_ cfg env m pd votes = Done (m', b) -> pm_step m m'
| pm_try_push env m m' b :
    Chain.size_ (pbft_chain_ m) < 2 ^ 64 - 2 -> tryPushCertVotesBlock cfg env m = Done (m', b) -> pm_step m m'
| pm_vote dpos m vote v b :
    add_vote dpos (Chain.size_ (pbft_chain_ m)) (vote_mgr_ m) vote = Done (v, b) -> pm_step m (set_vote_mgr m v)
| pm_threshold m v :
    (forall p r t, voted_block v p r t = voted_block (vote_mgr_ m) p r t) -> pm_step m (set_vote_mgr m v)
| pm_block m block : pm_step m (processProposedBlock m block)
| pm_broadcast env m m' : broadcastVotes env m = Done m' -> pm_step m m'
| pm_restart env m v m' :
    (forall t h, voted_block (vote_mgr_ m) (getPbftPeriod m) (round_m m) t = Some h ->
       voted_block v (getPbftPeriod m) (round_m m) t = Some h) ->
    restart cfg env m v = Done m' -> pm_step m m'.

Lemma processProposedBlock_inv m b : pm_inv m -> pm_inv (processProposedBlock m b).
Proof.
  intros Hinv. unfold processProposedBlock. destruct (Proposed.isInProposedBlocks _ _ _); [done|].
  apply (inv_move m); try done; [|apply Hinv..]. by apply filed_push, (i_filed _ Hinv).
Qed.

(** Nothing but calls that are no own votes. *)
Definition only_sends (m m' : PbftManager V) : Prop :=
  exists calls, m' = set_pm_calls m calls /\ own_votes m' = own_votes m.

#[local] Instance only_sends_refl : Reflexive only_sends.
Proof. intros m. exists (pm_calls m). by destruct m. Qed.
#[local] Instance only_sends_trans : Transitive only_sends.
Proof. intros m1 m2 m3 (c2 & -> & H2) (c3 & -> & H3). exists c3. split; [done|]. by rewrite H3. Qed.

Lemma only_sends_call m c : (forall v, c <> SaveOwnVote v) -> only_sends m (call m c).
Proof.
  intros Hc. exists (pm_calls m ++ [c]). split; [done|]. unfold own_votes. simpl. rewrite omap_app. simpl.
  destruct c; rewrite ?app_nil_r; naive_solver.
Qed.

Lemma only_sends_gossip m votes b : only_sends m (gossipVotes m votes b).
Proof. destruct votes; [done|]. by apply only_sends_call. Qed.

Lemma stuckPeriod_sends env b m m' : stuckPeriodBroadcastVotes env b m = Done m' -> only_sends m m'.
Proof.
  unfold stuckPeriodBroadcastVotes. destruct (reward_votes _) as [votes| |]; simpl; try done. intros [= <-].
  etrans; [apply (only_sends_gossip m votes b)|]. generalize (gossipVotes m votes b) as m1. intros m1.
  trans (foldl (fun m v => call m (GossipVote v (fst <$> Proposed.getPbftProposedBlock (blocks_ m) (getPeriod v) (getBlockHash v)) b))
    m1 (own_verified_votes (vote_mgr_ m1))).
  - generalize (own_verified_votes (vote_mgr_ m1)) as l. intros l. revert m1.
    induction l as [|v l IH]; intros m1; [done|]. simpl. etrans; [|apply IH]. by apply only_sends_call.
  - destruct (getOwnPillarBlockVote env); [by apply only_sends_call|done].
Qed.

Lemma stuckRound_sends env b m m' : stuckRoundBroadcastVotes env b m = Done m' -> only_sends m m'.
Proof.
  unfold stuckRoundBroadcastVotes. destruct (stuckPeriodBroadcastVotes env b m) as [m1| |] eqn:E; simpl; try done.
  apply stuckPeriod_sends in E. destruct (voted_votes (vote_mgr_ m1) _ _ _) as [v1| |]; simpl; try done.
  pose proof (only_sends_gossip m1 v1 b) as H1. generalize dependent (gossipVotes m1 v1 b). intros m2 H1.
  destruct (1 <? round_m m); [|intros [= <-]; by etrans].
  destruct (voted_votes (vote_mgr_ m2) _ _ _) as [v2| |]; simpl; try done.
  pose proof (only_sends_gossip m2 v2 b) as H2. generalize dependent (gossipVotes m2 v2 b). intros m3 H2.
  destruct (voted_votes (vote_mgr_ m3) _ _ _) as [v3| |]; simpl; try done. intros [= <-].
  do 3 (etrans; [eassumption|]). apply only_sends_gossip.
Qed.

Lemma broadcast_fields env (m m' : PbftManager V) :
  broadcastVotes env m = Done m' ->
  exists c calls, m' = set_counters (set_pm_calls m calls) c /\ own_votes m' = own_votes m.
Proof.
  assert (forall m1 c, only_sends m m1 -> exists c' calls, set_counters m1 c = set_counters (set_pm_calls m calls) c' /\
    own_votes (set_counters m1 c) = own_votes m) as Hs.
  { intros m1 c (calls & -> & Ho). exists c, calls. split; [done|]. rewrite <- Ho. done. }
  assert (exists c calls, m = set_counters (set_pm_calls m calls) c /\ own_votes m = own_votes m) as Hsame.
  { exists (counters_ m), (pm_calls m). by destruct m. }
  unfold broadcastVotes. destruct (network env); [|by intros [= <-]]. destruct (_ =? 0); [done|].
  repeat match goal with |- (if ?b then _ else _) = _ -> _ => destruct b end; try (by intros [= <-]);
    match goal with |- context [obind ?x _] => destruct x as [m1| |] eqn:E; simpl; try done end; intros [= <-];
    apply Hs; eauto using stuckRound_sends, stuckPeriod_sends.
Qed.

Lemma broadcastVotes_inv env m m' : pm_inv m -> broadcastVotes env m = Done m' -> pm_inv m'.
Proof.
  intros [I1 I2 I3 I4 I5 I6 I7 I8 I9] Hb. apply broadcast_fields in Hb as (c & calls & -> & Ho).
  by split; simpl; rewrite ?Ho.
Qed.

Lemma pm_step_inv m m' : pm_inv m -> pm_step m m' -> pm_inv m'.
Proof.
  intros Hinv Hs. destruct Hs.
  - by eapply run_state_inv.
  - by eapply advanceRound_inv.
  - by eapply pushPbftBlock_inv.
  - by eapply tryPushCertVotesBlock_inv.
  - apply (inv_move m); try done; try apply Hinv. simpl. intros. by eapply add_vote_keeps.
  - apply (inv_move m); try done; try apply Hinv. simpl. intros p r t h Hb. by rewrite H1.
  - by apply processProposedBlock_inv.
  - by eapply broadcastVotes_inv.
  - by eapply restart_inv.
Qed.

Lemma genesis_inv v chain wallets :
  0 <= Chain.size_ chain < 2 ^ 64 - 1 -> pm_inv (genesis_manager cfg v chain wallets).
Proof.
  intros Hsz. split; simpl; try done; try (intros x Hx; by apply elem_of_nil in Hx).
  intros x y Hx. by apply elem_of_nil in Hx.
Qed.

Lemma steps_inv m m' : pm_inv m -> rtc pm_step m m' -> pm_inv m'.
Proof. intros Hinv Hr. induction Hr as [m|m m1 m2 Hs _ IH]; [done|]. by apply IH, (pm_step_inv m). Qed.

Lemma reach_inv v chain wallets m :
  0 <= Chain.size_ chain < 2 ^ 64 - 1 -> rtc pm_step (genesis_manager cfg v chain wallets) m -> pm_inv m.
Proof.
  intros Hsz Hr. by apply (steps_inv (genesis_manager cfg v chain wallets)); [apply genesis_inv|].
Qed.

(** ** Iterations *)

(** How far an operation can move step and chain: at most [n] blocks. *)
Definition moves (n : Z) (m m' : PbftManager V) : Prop :=
  step_m m' <= Z.max 1 (step_m m) /\ Chain.size_ (pbft_chain_ m') <= Chain.size_ (pbft_chain_ m) + n.

Lemma moves_trans n k m1 m2 m3 : moves n m1 m2 -> moves k m2 m3 -> moves (n + k) m1 m3.
Proof. unfold moves. lia. Qed.

Lemma moves_same n m m' : 0 <= n -> step_m m' = step_m m -> pbft_chain_ m' = pbft_chain_ m -> moves n m m'.
Proof. unfold moves. intros ? -> ->. lia. Qed.

Lemma reset_moves env m r m' :
  resetPbftConsensus cfg env m r = Done m' -> step_m m' = 1 /\ pbft_chain_ m' = pbft_chain_ m.
Proof.
  unfold resetPbftConsensus. destruct (set_period_round _ _ _) as [v| |]; simpl; try done. intros [= <-]. simpl.
  by destruct (executed_pbft_block_ m).
Qed.

Lemma processPillarBlock_same env (m : PbftManager V) n m' :
  processPillarBlock env m n = Done m' -> step_m m' = step_m m /\ pbft_chain_ m' = pbft_chain_ m.
Proof.
  unfold processPillarBlock. destruct (_ <=? _); simpl; [|done].
  destruct (createPillarBlock env n) as [h|]; [|by intros [= <-]].
  destruct (getWallets _ _) as [ws| |]; simpl; try done. intros [= <-].
  assert (forall m1 : PbftManager V, step_m m1 = step_m m -> pbft_chain_ m1 = pbft_chain_ m ->
    let m2 := foldl (fun m w => if w.1 && genAndPlacePillarVote env (u64 (n + 1)) h w.2
      then set_last_placed_pillar_vote_period (call m (PlacePillarVote w.2 (u64 (n + 1)) h)) (u64 (n + 1)) else m) m1 ws in
    step_m m2 = step_m m /\ pbft_chain_ m2 = pbft_chain_ m) as Hf; [|by apply Hf].
  induction ws as [|w ws IH]; intros m1 H1 H2; [done|]. cbn [foldl]. apply IH; by destruct (w.1 && _).
Qed.

Lemma push_block_moves env m pd vote m' :
  0 <= Chain.size_ (pbft_chain_ m) < 2 ^ 64 - 2 -> push_block cfg env m pd vote = Done m' ->
  step_m m' = 1 /\ Chain.size_ (pbft_chain_ m') = Chain.size_ (pbft_chain_ m) + 1 /\
  Chain.last_pbft_block_hash_ (pbft_chain_ m') = pb_hash (pd_pbft_blk pd).
Proof.
  intros Hsz. unfold push_block. destruct (reset_reward _ _ _ _ _) as [v| |]; simpl; try done.
  set (m1 := set_pbft_chain _ _).
  pose proof (push_lambda_frame cfg env m1 (pb_period (pd_pbft_blk pd)) (getRound vote)) as (_ & _ & Ec & _).
  destruct (push_lambda cfg env m1 (pb_period (pd_pbft_blk pd)) (getRound vote)) as [m2 by_]. cbn [fst] in Ec.
  assert (pbft_chain_ m1 = Chain.updatePbftChain (pbft_chain_ m) (pb_hash (pd_pbft_blk pd)) (pb_pivot_dag_block_hash (pd_pbft_blk pd)))
    as E1 by (subst m1; by destruct (negb _)).
  match goal with |- context [advancePeriod cfg env ?x] => set (m3 := x) end.
  assert (pbft_chain_ m3 = pbft_chain_ m2) as E3 by done. clearbody m1 m3.
  assert (forall m4, advancePeriod cfg env m3 = Done m4 -> step_m m4 = 1 /\ pbft_chain_ m4 = pbft_chain_ m3) as Ha.
  { unfold advancePeriod. destruct (resetPbftConsensus cfg env m3 1) as [m5| |] eqn:Er; simpl; try done.
    apply reset_moves in Er as [H1 H2]. destruct (updateWalletsEligibility env _ _) as [w| |]; simpl; try done.
    by intros m4 [= <-]. }
  destruct (advancePeriod cfg env m3) as [m4| |]; simpl; try done. destruct (Ha m4 eq_refl) as [A1 A2].
  assert (step_m m4 = 1 /\ Chain.size_ (pbft_chain_ m4) = Chain.size_ (pbft_chain_ m) + 1 /\
    Chain.last_pbft_block_hash_ (pbft_chain_ m4) = pb_hash (pd_pbft_blk pd)) as Hr.
  { rewrite A2, E3, Ec, E1. split; [done|]. unfold Chain.updatePbftChain.
    assert (u64 (Chain.size_ (pbft_chain_ m) + 1) = Chain.size_ (pbft_chain_ m) + 1) as Hw
      by (apply wrap_id; unfold in_range, modulus; lia). destruct (negb _); simpl; by rewrite Hw. }
  destruct (isPillarBlockPeriod cfg _); [|by intros [= <-]].
  destruct (pb_period _ =? _); simpl; [|done]. intros Hp. apply processPillarBlock_same in Hp as [-> ->]. done.
Qed.

Lemma pushPbftBlock_moves env m pd votes m' b :
  0 <= Chain.size_ (pbft_chain_ m) < 2 ^ 64 - 2 -> pushPbftBlock_ cfg env m pd votes = Done (m', b) -> moves 1 m m'.
Proof.
  intros Hsz. assert (moves 1 m m) as Hid by (by apply moves_same).
  assert (forall pd vote m1, push_block cfg env m pd vote = Done m1 -> moves 1 m m1) as Hp.
  { intros pd' vote m1 (E1 & E2 & _)%push_block_moves; [|done]. unfold moves. lia. }
  unfold pushPbftBlock_. destruct (pbftBlockInDb env _).
  { destruct (match cert_voted_block_for_round_ m with Some _ => _ | None => _ end); simpl; [by intros [= <- <-]|done]. }
  destruct votes as [|vote votes]; [done|]. destruct (pb_hash _ =? _); simpl; [|done].
  destruct (isPbftWithPillarBlockPeriod cfg _).
  - destruct (finalizePillarBlock env _) as [|x l]; [by intros [= <- <-]|].
    destruct (push_block _ _ _ _ _) as [m1| |] eqn:E; simpl; try done. intros [= <- <-]. by eapply Hp.
  - destruct (push_block _ _ _ _ _) as [m1| |] eqn:E; simpl; try done. intros [= <- <-]. by eapply Hp.
Qed.

Lemma tryPush_moves env m m' b :
  0 <= Chain.size_ (pbft_chain_ m) < 2 ^ 64 - 2 -> tryPushCertVotesBlock cfg env m = Done (m', b) -> moves 1 m m'.
Proof.
  intros Hsz. assert (moves 1 m m) as Hid by (by apply moves_same).
  unfold tryPushCertVotesBlock. destruct (voted_votes _ _ _ _) as [l| |]; simpl; try done.
  destruct l as [|v l]; [by intros [= <- <-]|].
  destruct (getValidPbftProposedBlock env _ _ _) as [[pb ob]| |]; simpl; try done.
  destruct ob as [b0|]; [|by intros [= <- <-]]. unfold pushCertVotedPbftBlockIntoChain_.
  destruct (if pb_pivot_dag_block_hash b0 =? kNullBlockHash then _ else _) as [[dag trxs]| |]; simpl; try done.
  destruct (env_checkRewardVotes env b0); [|by intros [= <- <-]]. intros Hp.
  by apply (pushPbftBlock_moves env (set_blocks m pb)) in Hp.
Qed.

Lemma advanceRound_moves env m m' b : advanceRound cfg env m = Done (m', b) -> moves 0 m m'.
Proof.
  unfold advanceRound. destruct (new_round _ _ _) as [r|]; [|intros [= <- <-]; by apply moves_same].
  destruct (_ <? _); simpl; [|done]. destruct (resetPbftConsensus cfg env m r) as [m1| |] eqn:E; simpl; try done.
  apply reset_moves in E as [H1 H2]. intros [= <- <-]. unfold moves. rewrite H1, H2. lia.
Qed.

(** An iteration of the loop is a sequence of steps, if synchronisation is one that
    adds at most [n] blocks. *)
Lemma run_iteration_steps n env sync m m' :
  pm_inv m -> generates_ok env -> 0 <= n -> step_m m < 2 ^ 32 - 1 -> Chain.size_ (pbft_chain_ m) + n < 2 ^ 64 - 2 ->
  (forall m', sync m = Done m' -> rtc pm_step m m' /\ moves n m m') ->
  run_iteration cfg env sync m = Done m' -> rtc pm_step m m'.
Proof.
  intros Hinv Hg Hn Hst Hsz Hsync. unfold run_iteration, stateOperations_.
  destruct (sync m) as [m1| |] eqn:E1; simpl; try done. destruct (Hsync m1 eq_refl) as [S1 M1].
  assert (forall m'', rtc pm_step m m'' -> 0 <= Chain.size_ (pbft_chain_ m'')) as Hpos.
  { intros m'' Hr. apply (i_size _ (steps_inv m m'' Hinv Hr)). }
  assert (forall m2 pushed, (match network env with
    | Some false => let* m := broadcastVotes env m1 in tryPushCertVotesBlock cfg env m
    | _ => Done (m1, false) end) = Done (m2, pushed) -> rtc pm_step m m2 /\ moves (n + 1) m m2) as H2.
  { intros m2 pushed. destruct (network env) as [[]|]; [intros [= <- <-]| |intros [= <- <-]].
    1, 3: split; [done|]; apply (moves_trans n 1 m m1); [done|by apply moves_same].
    destruct (broadcastVotes env m1) as [m3| |] eqn:Eb; simpl; try done. intros Ht.
    assert (rtc pm_step m m3) as H3 by (eapply rtc_r; [exact S1|by eapply pm_broadcast]).
    assert (step_m m3 = step_m m1 /\ pbft_chain_ m3 = pbft_chain_ m1) as [B1 B2]
      by (by apply broadcast_fields in Eb as (c & calls & -> & _)).
    assert (0 <= Chain.size_ (pbft_chain_ m3) < 2 ^ 64 - 2) as Hsz3.
    { split; [by apply Hpos|]. rewrite B2. unfold moves in M1. lia. }
    split; [eapply rtc_r; [exact H3|]; eapply pm_try_push; [apply Hsz3|exact Ht]|].
    apply (moves_trans n 1 m m1); [done|]. apply tryPush_moves in Ht; [|done]. unfold moves in *. by rewrite <- B1, <- B2. }
  destruct (match network env with Some false => _ | _ => _ end) as [[m2 pushed]| |] eqn:E2; simpl; try done.
  specialize (H2 m2 pushed eq_refl) as [S2 M2]. destruct pushed; [by intros [= <-]|].
  destruct (advanceRound cfg env m2) as [[m3 adv]| |] eqn:E3; simpl; try done.
  assert (rtc pm_step m m3) as H3 by (eapply rtc_r; [exact S2|by eapply pm_round]).
  apply advanceRound_moves in E3. destruct adv; [by intros [= <-]|]. destruct (getWallets _ _) as [ws| |]; simpl; try done.
  destruct (negb _); [by intros [= <-]|]. intros Hr. eapply rtc_r; [exact H3|].
  eapply pm_run; [done| |exact Hr]. unfold moves in *. lia.
Qed.

(** ** Progress of the loop *)

(** When the time of a state is over. *)
Definition time_over (env : Env) (m : PbftManager V) : Prop :=
  match state_ m with
  | certify_state => getPbftDeadline cfg m - kPollingIntervalMs < now env - current_round_start_datetime_ m
  | finish_polling_state =>
      2 * (current_round_lambda_ m - kPollingIntervalMs) < now env - second_finish_step_start_datetime_ m
  | _ => True
  end.

(** What a state is timed by. *)
Definition same_time (m m' : PbftManager V) : Prop :=
  round_m m' = round_m m /\ step_m m' = step_m m /\ state_ m' = state_ m /\ pbft_chain_ m' = pbft_chain_ m /\
  current_round_lambda_ m' = current_round_lambda_ m /\
  current_round_start_datetime_ m' = current_round_start_datetime_ m /\
  second_finish_step_start_datetime_ m' = second_finish_step_start_datetime_ m.

Lemma same_time_refl m : same_time m m.
Proof. by split_and!. Qed.

Lemma same_time_trans m1 m2 m3 : same_time m1 m2 -> same_time m2 m3 -> same_time m1 m3.
Proof. unfold same_time. naive_solver congruence. Qed.

Lemma placed_same_time m m' new : placed m m' new -> same_time m m'.
Proof. intros ((v & c & pp & pb & -> & _) & _). by split_and!. Qed.

Lemma time_over_same env m m' : same_time m m' -> time_over env m' <-> time_over env m.
Proof.
  intros (E1 & E2 & E3 & E4 & E5 & E6 & E7). unfold time_over, getPbftDeadline, getPbftPeriod.
  by rewrite E1, E3, E4, E5, E6, E7.
Qed.

Lemma certifyBlock_time env m m' :
  generates_ok env -> filed (blocks_ m) -> state_ m = certify_state -> certifyBlock_ cfg env m = Done m' ->
  same_time m m' /\ (go_finish_state_ m' = true <-> time_over env m).
Proof.
  intros Hg Hf Hst. unfold certifyBlock_, time_over. rewrite Hst.
  set (m1 := set_go_finish_state m _).
  assert (same_time m m1) as Hs1 by (by split_and!).
  assert (go_finish_state_ m1 = true <-> getPbftDeadline cfg m - kPollingIntervalMs <
    now env - current_round_start_datetime_ m) as Hgo by (simpl; by rewrite Z.ltb_lt).
  assert (forall m2, same_time m1 m2 -> go_finish_state_ m2 = go_finish_state_ m1 ->
    same_time m m2 /\ (go_finish_state_ m2 = true <-> getPbftDeadline cfg m - kPollingIntervalMs <
      now env - current_round_start_datetime_ m)) as Hend.
  { intros m2 Hs E. rewrite E. split; [by eapply same_time_trans|done]. }
  pose proof (Hend m1 (same_time_refl m1) eq_refl) as Hsame.
  case_eq (go_finish_state_ m1); intros _; [intros [= <-]; exact Hsame|].
  destruct (_ <? 2 * _); [intros [= <-]; exact Hsame|].
  destruct (bool_decide _); [intros [= <-]; exact Hsame|].
  destruct (voted_block _ _ _ SoftVotedBlock) as [h|]; [|intros [= <-]; exact Hsame].
  destruct (getValidPbftProposedBlock env _ _ h) as [[pb ob]| |] eqn:Ev; simpl; try done.
  destruct ob as [b|]; [|intros [= <-]; by apply Hend].
  destruct (genAndPlaceVote _ _ _ _ _ _ _ _ _) as [[m3 ok]| |] eqn:Eg; simpl; try done.
  apply genAndPlaceVote_effect in Eg as (_ & new & Hp & _); [|done].
  assert (same_time m1 m3 /\ go_finish_state_ m3 = go_finish_state_ m1) as [Hs3 Eg3].
  { destruct Hp as ((v & c & pp & pb' & -> & _) & _). by split_and!. }
  destruct ok; simpl; intros [= <-]; by apply Hend.
Qed.

Lemma secondFinish_time env m m' :
  generates_ok env -> state_ m = finish_polling_state -> secondFinish_ cfg env m = Done m' ->
  same_time m m' /\ (loop_back_finish_state_ m' = true <-> time_over env m).
Proof.
  intros Hg Hst. unfold secondFinish_.
  destruct (next_vote_soft_voted_block cfg env m) as [m1| |] eqn:E1; simpl; try done.
  destruct (next_vote_null_block cfg env m1) as [m2| |] eqn:E2; simpl; try done. intros [= <-].
  assert (same_time m m1) as H1.
  { revert E1. unfold next_vote_soft_voted_block. destruct (already_next_voted_value_ m); [by intros [= <-]|].
    destruct (voted_block _ _ _ SoftVotedBlock) as [h|]; [|by intros [= <-]].
    destruct (getValidPbftProposedBlock env _ _ h) as [[pb ob]| |]; simpl; try done.
    destruct ob as [b|]; [|by intros [= <-]].
    destruct (genAndPlaceVote _ _ _ _ _ _ _ _ _) as [[m3 ok]| |] eqn:Eg; simpl; try done.
    apply genAndPlaceVote_effect in Eg as (_ & new & Hp & _); [|done]. apply placed_same_time in Hp.
    destruct ok; simpl; intros [= <-]; exact Hp. }
  assert (same_time m1 m2) as H2.
  { revert E2. unfold next_vote_null_block. destruct (_ || _); [by intros [= <-]|].
    destruct (negb _); [by intros [= <-]|].
    destruct (genAndPlaceVote _ _ _ _ _ _ _ _ _) as [[m3 ok]| |] eqn:Eg; simpl; try done.
    apply genAndPlaceVote_effect in Eg as (_ & new & Hp & _); [|done]. apply placed_same_time in Hp.
    destruct ok; simpl; intros [= <-]; exact Hp. }
  pose proof (same_time_trans _ _ _ H1 H2) as H3. split; [exact H3|]. simpl. rewrite Z.ltb_lt.
  rewrite <- (time_over_same env m m2 H3). unfold time_over. destruct H3 as (_ & _ & -> & _). by rewrite Hst.
Qed.

(** An iteration of the loop leaves its step exactly when the time of the state is over. *)
Lemma run_state_time env m m' :
  generates_ok env -> pm_inv m -> step_m m < 2 ^ 32 - 1 -> run_state cfg env m = Done m' ->
  (time_over env m -> step_m m' = step_m m + 1) /\ (~ time_over env m -> same_time m m').
Proof.
  intros Hg Hinv Hs. pose proof (next_step m Hinv Hs) as Hn.
  assert (forall m1 st, same_time m m1 -> step_m (setPbftStep cfg (set_state m1 st) (u32 (step_m m1 + 1))) = step_m m + 1) as Hset.
  { intros m1 st (_ & E & _). rewrite E, Hn. destruct (setPbftStep_fields cfg (set_state m1 st) (step_m m + 1)) as [l ->]. done. }
  unfold run_state. destruct (state_ m) eqn:Est.
  - destruct (proposeBlock_ cfg env m) as [m1| |] eqn:E; simpl; try done. intros [= <-].
    apply proposeBlock_effect in E as (h & new & Hp%placed_same_time & _); [|done|apply Hinv].
    unfold time_over. rewrite Est. split; [intros _; by apply Hset|done].
  - destruct (identifyBlock_ cfg env m) as [m1| |] eqn:E; simpl; try done. intros [= <-].
    apply identifyBlock_effect in E as (h & new & Hp%placed_same_time & _); [|done|apply Hinv].
    unfold time_over. rewrite Est. split; [intros _; by apply Hset|done].
  - destruct (certifyBlock_ cfg env m) as [m1| |] eqn:E; simpl; try done. intros [= <-].
    apply certifyBlock_time in E as [Hsame Hgo]; [|done|apply Hinv|done].
    destruct (go_finish_state_ m1); [split; [intros _; by apply Hset|naive_solver]|].
    split; [naive_solver|]. intros _. exact Hsame.
  - destruct (firstFinish_ cfg env m) as [m1| |] eqn:E; simpl; try done. intros [= <-].
    apply firstFinish_effect in E as (h & new & Hp%placed_same_time & _); [|done..].
    unfold time_over. rewrite Est. split; [intros _; by apply (Hset m1 finish_polling_state)|done].
  - destruct (secondFinish_ cfg env m) as [m1| |] eqn:E; simpl; try done. intros [= <-].
    apply secondFinish_time in E as [Hsame Hgo]; [|done..].
    destruct (loop_back_finish_state_ m1); [split; [intros _; by apply (Hset m1 finish_state)|naive_solver]|].
    split; [naive_solver|]. intros _. exact Hsame.
Qed.

(** Iterations of the loop, with the answers of the other components in each of them. *)
Definition run_loop (envs : list Env) (m : PbftManager V) : outcome (PbftManager V) :=
  ofold (fun m env => run_state cfg env m) envs m.

Lemma time_over_dec env m : time_over env m \/ ~ time_over env m.
Proof. unfold time_over. destruct (state_ m); try (by left); lia. Qed.

Lemma run_loop_step envs m m' :
  Forall generates_ok envs -> pm_inv m -> step_m m + Z.of_nat (length envs) < 2 ^ 32 - 1 -> run_loop envs m = Done m' ->
  pm_inv m' /\ (same_time m m' \/ step_m m < step_m m') /\
  (Exists (fun env => time_over env m) envs -> step_m m < step_m m').
Proof.
  intros Hok. revert m. induction Hok as [|env envs Hg _ IH]; intros m Hinv Hs; unfold run_loop; simpl.
  { intros [= <-]. split_and!; [done|left; apply same_time_refl|]. by intros ?%Exists_nil. }
  destruct (run_state cfg env m) as [m1| |] eqn:E; simpl; try done. intros Hrest. simpl in Hs.
  rewrite Nat2Z.inj_succ in Hs. assert (step_m m < 2 ^ 32 - 1) as Hlt by lia.
  pose proof (run_state_inv cfg env m m1 Hg Hinv Hlt E) as H1.
  destruct (run_state_time env m m1 Hg Hinv Hlt E) as [Hyes Hno].
  destruct (time_over_dec env m) as [Ht|Ht].
  - specialize (Hyes Ht). destruct (IH m1 H1) as (? & Hm & _); [lia|exact Hrest|].
    assert (step_m m < step_m m') by (destruct Hm as [(_ & -> & _)|?]; lia). auto.
  - specialize (Hno Ht). pose proof Hno as (_ & Est & _).
    destruct (IH m1 H1) as (? & Hm & Hex); [lia|exact Hrest|].
    split_and!; [done|destruct Hm as [?|?]; [left; by eapply same_time_trans|right; lia]|].
    intros [?|Htl]%Exists_cons; [done|]. rewrite <- Est. apply Hex. eapply Exists_impl; [exact Htl|].
    intros e. by apply (time_over_same e m m1).
Qed.
End reach.

(** ** Timing *)

Section timing.
#[local] Set Default Proof Using "Type*".
Context {V : Type} `{VoteService V} (cfg : PbftMgrConfig).

(** The node goes through [n] steps of a round that makes no progress. *)
Fixpoint step_through (m : PbftManager V) (n : nat) : PbftManager V :=
  match n with
  | O => m
  | S n => let m := step_through m n in setPbftStep cfg m (u32 (step_m m + 1))
  end.

Lemma setPbftStep_frame (m : PbftManager V) s :
  step_m (setPbftStep cfg m s) = s /\ round_m (setPbftStep cfg m s) = round_m m /\
  pbft_chain_ (setPbftStep cfg m s) = pbft_chain_ m /\ vote_mgr_ (setPbftStep cfg m s) = vote_mgr_ m.
Proof. unfold setPbftStep. by destruct (_ && _). Qed.

Lemma step_through_frame (m : PbftManager V) n :
  1 <= step_m m -> step_m m + Z.of_nat n < 2 ^ 32 ->
  step_m (step_through m n) = step_m m + Z.of_nat n /\ round_m (step_through m n) = round_m m /\
  pbft_chain_ (step_through m n) = pbft_chain_ m /\ vote_mgr_ (step_through m n) = vote_mgr_ m.
Proof.
  intros Hpos. induction n as [|n IH]; intros Hs; [simpl; by rewrite Z.add_0_r|].
  destruct IH as (E1 & E2 & E3 & E4); [lia|]. simpl step_through.
  destruct (setPbftStep_frame (step_through m n) (u32 (step_m (step_through m n) + 1))) as (-> & -> & -> & ->).
  split_and!; try done. rewrite E1, wrap_id by (unfold in_range, modulus; lia). lia.
Qed.

(** The lambda doubles on every odd step from step 13 on, up to one minute. *)
Lemma backoff_step lambda step net :
  0 < lambda_ms cfg <= kMaxExponentialLambda -> 13 <= step -> net <= step ->
  backoff_lambda cfg lambda step net =
    if decide (step = 13) then Z.min kMaxExponentialLambda (lambda_ms cfg * 2)
    else if decide (lambda < kMaxExponentialLambda) then Z.min kMaxExponentialLambda (lambda * 2) else lambda.
Proof.
  unfold backoff_lambda, kMaxSteps, kMaxExponentialLambda. intros Hl Hs Hn.
  rewrite (proj2 (Z.ltb_ge _ _) Hn). simpl.
  destruct (Z.eqb_spec step 13), (decide (step = 13)); try lia; repeat (case_match; try lia).
Qed.

Lemma backoff_lambda_after (m : PbftManager V) k :
  0 < lambda_ms cfg <= kMaxExponentialLambda -> step_m m = 12 ->
  next_voting_step (vote_mgr_ m) (getPbftPeriod m) (round_m m) <= 13 -> 13 + 2 * Z.of_nat k < 2 ^ 32 - 1 ->
  current_round_lambda_ (step_through m (2 * k + 1)) = Z.min kMaxExponentialLambda (lambda_ms cfg * 2 ^ (Z.of_nat k + 1)).
Proof.
  intros Hl Hm Hn. induction k as [|k IH]; intros Hk.
  - change (2 * 0 + 1)%nat with 1%nat. simpl. rewrite Hm. change (u32 (12 + 1)) with 13. unfold setPbftStep. simpl.
    rewrite backoff_step by (try lia; exact Hn). done.
  - replace (2 * S k + 1)%nat with (S (S (2 * k + 1))) by lia. cbn [step_through].
    set (m1 := step_through m (2 * k + 1)) in *.
    destruct (step_through_frame m (2 * k + 1)) as (E1 & E2 & E3 & E4); [lia|lia|]. fold m1 in E1, E2, E3, E4.
    specialize (IH ltac:(lia)).
    assert (u32 (step_m m1 + 1) = 14 + 2 * Z.of_nat k) as Es
      by (rewrite E1, Hm; replace (12 + Z.of_nat (2 * k + 1) + 1) with (14 + 2 * Z.of_nat k) by lia;
          apply wrap_id; unfold in_range, modulus; lia).
    assert (current_round_lambda_ (setPbftStep cfg m1 (u32 (step_m m1 + 1))) = current_round_lambda_ m1) as Eeven.
    { rewrite Es. unfold setPbftStep. replace ((14 + 2 * Z.of_nat k) mod 2) with 0
        by (replace (14 + 2 * Z.of_nat k) with ((7 + Z.of_nat k) * 2) by lia; by rewrite Z.mod_mul).
      by rewrite andb_false_r. }
    set (m2 := setPbftStep cfg m1 (u32 (step_m m1 + 1))) in *.
    destruct (setPbftStep_frame m1 (u32 (step_m m1 + 1))) as (F1 & F2 & F3 & F4). fold m2 in F1, F2, F3, F4.
    rewrite Es in F1. rewrite F1, wrap_id by (unfold in_range, modulus; lia).
    replace (14 + 2 * Z.of_nat k + 1) with (15 + 2 * Z.of_nat k) by lia.
    unfold setPbftStep, kMaxSteps. rewrite (proj2 (Z.leb_le _ _)) by lia.
    replace ((15 + 2 * Z.of_nat k) mod 2) with 1
      by (replace (15 + 2 * Z.of_nat k) with (1 + (7 + Z.of_nat k) * 2) by lia; by rewrite Z.mod_add).
    cbn [andb negb Z.eqb]. simpl current_round_lambda_.
    rewrite backoff_step; [|done|lia|].
    2: { unfold getPbftPeriod in *. simpl. rewrite F2, F3, F4, E2, E3, E4. lia. }
    rewrite decide_False by lia. rewrite Eeven, IH, Nat2Z.inj_succ.
    replace (2 ^ (Z.succ (Z.of_nat k) + 1)) with (2 ^ (Z.of_nat k + 1) * 2)
      by (rewrite Z.mul_comm, <- Z.pow_succ_r by lia; f_equal; lia).
    unfold kMaxExponentialLambda in *. rewrite Z.mul_assoc.
    generalize (lambda_ms cfg * 2 ^ (Z.of_nat k + 1)). intros p. case_decide; lia.
Qed.

(** The dynamic lambda after a block. *)
Lemma adjustDynamicLambda_value (m : PbftManager V) period round :
  0 <= lambda_change cfg <= lambda_min cfg -> lambda_max cfg + lambda_change cfg < 2 ^ 32 ->
  lambda_min cfg <= dynamic_lambda_ m <= lambda_max cfg ->
  let m' := adjustDynamicLambda cfg m period round in
  let all_first := u32 (rounds_count_dynamic_lambda_ m + round) = lambda_change_interval cfg in
  let lowered := if isDynamicLambdaChangeInterval cfg period && bool_decide all_first
    then Z.max (lambda_min cfg) (dynamic_lambda_ m - lambda_change cfg) else dynamic_lambda_ m in
  dynamic_lambda_ m' = (if 1 <? round then Z.min (lambda_max cfg) (lowered + lambda_change cfg) else lowered) /\
  db_lambda (pm_db m') = dynamic_lambda_ m' /\ db_rounds_count (pm_db m') = rounds_count_dynamic_lambda_ m'.
Proof using Type.
  intros Hc Hmax Hl. unfold adjustDynamicLambda.
  destruct (isDynamicLambdaChangeInterval cfg period); simpl.
  - destruct (Z.eqb_spec (u32 (rounds_count_dynamic_lambda_ m + round)) (lambda_change_interval cfg)) as [E|E];
      [rewrite bool_decide_true by done|rewrite bool_decide_false by done]; simpl.
    + destruct (Z.ltb_spec (lambda_min cfg) (dynamic_lambda_ m)).
      * rewrite wrap_id by (unfold in_range, modulus; lia).
        destruct (1 <? round); simpl; [|split; [lia|done]]. destruct (Z.ltb_spec (Z.max (dynamic_lambda_ m - lambda_change cfg) (lambda_min cfg)) (lambda_max cfg));
          [rewrite wrap_id by (unfold in_range, modulus; lia)|]; (split; [lia|done]).
      * destruct (1 <? round); simpl; [|split; [lia|done]]. destruct (Z.ltb_spec (dynamic_lambda_ m) (lambda_max cfg));
          [rewrite wrap_id by (unfold in_range, modulus; lia)|]; (split; [lia|done]).
    + destruct (1 <? round); simpl; [|split; [lia|done]]. destruct (Z.ltb_spec (dynamic_lambda_ m) (lambda_max cfg));
        [rewrite wrap_id by (unfold in_range, modulus; lia)|]; (split; [lia|done]).
  - destruct (1 <? round); simpl; [|split; [lia|done]]. destruct (Z.ltb_spec (dynamic_lambda_ m) (lambda_max cfg));
      [rewrite wrap_id by (unfold in_range, modulus; lia)|]; (split; [lia|done]).
Qed.
End timing.
