(* ===== verification/PbftService.v ===== *)
(** * The PBFT manager on the vote manager

    The vote manager provides the service the PBFT manager is proved against, so the
    theorems hold for the two together; the safety, the progress and the timing of a
    validator, and what a crash at the wrong moment does. *)

From S2P Require Import Prelude Votes VerifiedVotes VoteManager VoteQuorum PbftChain TransactionQueue PbftManager PbftSafety PbftReach.
Local Open Scope Z_scope.
Local Open Scope outcome_scope.

(** ** The service *)

Section service.
Context (vcfg : PbftConfig).

#[local] Instance vote_manager_service : VoteService VoteManager := {
  voted_block vm p r t := vb_hash <$> getTwoTPlusOneVotedBlock (verified_votes_ vm) p r t;
  voted_votes vm p r t := getTwoTPlusOneVotedBlockVotes (verified_votes_ vm) p r t;
  new_round := determineNewRound;
  next_voting_step := getNetworkTplusOneNextVotingStep;
  proposal_votes := getProposalVotes;
  is_unique vm v := (isUniqueVote vm v).1;
  reward_votes := getRewardVotes;
  own_verified_votes := own_verified_votes_;
  add_vote := addVerifiedVote vcfg;
  save_own := saveOwnVerifiedVote;
  clear_own := clearOwnVerifiedVotes;
  set_period_round := setCurrentPbftPeriodAndRound;
  cleanup_votes := vm_cleanupVotesByPeriod;
  reset_reward := resetRewardVotes;
}.

(** A recorded block stays while votes are added. *)
Lemma insertTwoTPlusOneVotedBlock_keeps vv type vote p r t b :
  getTwoTPlusOneVotedBlock vv p r t = Some b ->
  getTwoTPlusOneVotedBlock (insertTwoTPlusOneVotedBlock vv type vote) p r t = Some b.
Proof.
  rewrite !two_t_block_round. unfold insertTwoTPlusOneVotedBlock.
  destruct (getRoundVotes vv (getPeriod vote) (getRound vote)) as [rv|] eqn:Erv; [|done].
  destruct (two_t_plus_one_voted_blocks_ rv !! type) as [b'|] eqn:Et; [done|].
  rewrite getRoundVotes_put. case_decide as D; [|done]. destruct D as [<- <-]. rewrite Erv. simpl.
  intros Hb. rewrite lookup_insert_ne; congruence.
Qed.

Lemma saveTwoTPlusOneVotesInDb_keeps vm rv vw type vote vm' p r t b :
  saveTwoTPlusOneVotesInDb vm rv vw type vote = Done vm' ->
  getTwoTPlusOneVotedBlock (verified_votes_ vm) p r t = Some b ->
  getTwoTPlusOneVotedBlock (verified_votes_ vm') p r t = Some b.
Proof.
  unfold saveTwoTPlusOneVotesInDb. destruct (two_t_plus_one_voted_blocks_ rv !! type) as [found|].
  - destruct (vb_hash found =? getBlockHash vote); simpl; [|done].
    destruct type; simpl; try (by intros [= <-]);
      (destruct (vb_step found =? getStep vote); simpl; [by intros [= <-]|done]).
  - destruct (_ && _ && _); intros [= <-]; simpl; apply insertTwoTPlusOneVotedBlock_keeps.
Qed.

Lemma getPbftTwoTPlusOne_votes cfg dpos size vm p t :
  verified_votes_ (getPbftTwoTPlusOne cfg dpos size vm p t).1 = verified_votes_ vm.
Proof. unfold getPbftTwoTPlusOne. by repeat case_match; simplify_eq/=. Qed.

Lemma update_two_t_plus_one_keeps dpos size vm vote vw vm' ok p r t b :
  update_two_t_plus_one vcfg dpos size vm vote vw = Done (vm', ok) ->
  getTwoTPlusOneVotedBlock (verified_votes_ vm) p r t = Some b ->
  getTwoTPlusOneVotedBlock (verified_votes_ vm') p r t = Some b.
Proof.
  unfold update_two_t_plus_one.
  pose proof (getPbftTwoTPlusOne_votes vcfg dpos size vm (u64 (getPeriod vote - 1)) (getType vote)) as Evv.
  destruct (getPbftTwoTPlusOne vcfg dpos size vm _ _) as [vm1 q]. simpl in Evv. rewrite <- Evv.
  destruct q as [two_t|]; [|by intros [= <- <-]].
  destruct (getRoundVotes (verified_votes_ vm1) _ _) as [rv|]; [|by intros [= <- <-]].
  match goal with |- context [if _ && _ && _ then set_vv vm1 ?x else vm1] =>
    match goal with |- context [if ?c then set_vv vm1 x else vm1] => set (vm2 := if c then set_vv vm1 x else vm1) end end.
  assert (forall x, getTwoTPlusOneVotedBlock (verified_votes_ vm1) p r t = Some x ->
    getTwoTPlusOneVotedBlock (verified_votes_ vm2) p r t = Some x) as H2.
  { intros x Hx. subst vm2. destruct (_ && _ && _); [|done]. simpl. by rewrite setNetworkTPlusOneStep_blocks. }
  clearbody vm2. destruct (weight vw <? two_t); [intros [= <- <-]; by apply H2|]. intros Hs Hb. specialize (H2 b Hb). revert Hs.
  destruct (getType vote); try (by intros [= <- <-]);
    try (destruct (getBlockHash vote =? kNullBlockHash));
    (destruct (saveTwoTPlusOneVotesInDb vm2 rv vw _ vote) as [vm3| |] eqn:E; simpl; try done; intros [= <- <-];
     by eapply saveTwoTPlusOneVotesInDb_keeps).
Qed.

Lemma addVerifiedVote_keeps dpos size vm vote vm' ok p r t b :
  addVerifiedVote vcfg dpos size vm vote = Done (vm', ok) ->
  getTwoTPlusOneVotedBlock (verified_votes_ vm) p r t = Some b ->
  getTwoTPlusOneVotedBlock (verified_votes_ vm') p r t = Some b.
Proof.
  unfold addVerifiedVote. destruct (getWeight vote) as [w|]; [|done]. destruct (w =? 0); [by intros [= <- <-]|].
  pose proof (insertUniqueVoter_blocks (verified_votes_ vm) vote p r t) as Hu.
  destruct (insertUniqueVoter (verified_votes_ vm) vote) as [vv ex]. simpl in Hu. rewrite <- Hu.
  destruct ex as [e|]; [by intros [= <- <-]|]. destruct (_ && negb _); [by intros [= <- <-]|].
  simpl. destruct (insertVotedValue vv vote) as [[vv' res]| |] eqn:Ei; simpl; try done.
  rewrite <- (insertVotedValue_blocks _ _ _ _ p r t Ei). destruct res as [vw|]; [|by intros [= <- <-]].
  intros Hup Hb. eapply update_two_t_plus_one_keeps; [exact Hup|]. by destruct (_ && _).
Qed.

Lemma setCurrent_votes vm p r vm' : setCurrentPbftPeriodAndRound vm p r = Done vm' -> verified_votes_ vm' = verified_votes_ vm.
Proof.
  unfold setCurrentPbftPeriodAndRound. destruct (getRoundVotes _ p r) as [rv|]; [|by intros [= <-]].
  generalize (map_to_list (two_t_plus_one_voted_blocks_ rv)) as l. intros l.
  assert (verified_votes_ (set_current vm p r) = verified_votes_ vm) as E by done. revert E.
  generalize (set_current vm p r). induction l as [|[t b] l IH]; intros m E; simpl; [by intros [= <-]|].
  destruct (match t with CertVotedBlock => _ | _ => _ end) as [m1| |] eqn:Es; simpl; try done. apply IH.
  rewrite <- E. revert Es. clear. destruct t; try (by intros [= <-]); by repeat case_match; intros; simplify_eq/=.
Qed.

#[local] Instance vote_manager_laws : VoteServiceLaws VoteManager.
Proof.
  split.
  - intros dpos size v vote v' b p r t h Ha Hb. cbn in Ha, Hb |- *.
    destruct (getTwoTPlusOneVotedBlock (verified_votes_ v) p r t) as [x|] eqn:E; [|done].
    by rewrite (addVerifiedVote_keeps _ _ _ _ _ _ _ _ _ _ Ha E).
  - done.
  - done.
  - intros v p r v' p' r' t Hs. cbn in Hs |- *. by rewrite (setCurrent_votes _ _ _ _ Hs).
Qed.

(** ** Properties *)


(** C3: when a validator has recorded a cert voted block for its round, the vote
    manager holds distinct soft votes of that round for this very block whose weights
    add up to at least the 2t+1 threshold. *)
Theorem cert_voted_block_has_quorum cfg total vm chain wallets m b :
  0 <= Chain.size_ chain < 2 ^ 64 - 1 -> rtc (pm_step cfg) (genesis_manager cfg vm chain wallets) m ->
  vm_reachable vcfg total (vote_mgr_ m) -> cert_voted_block_for_round_ m = Some b ->
  exists l, getTwoTPlusOneVotedBlockVotes (verified_votes_ (vote_mgr_ m)) (getPbftPeriod m) (round_m m) SoftVotedBlock = Done l /\
    NoDup (getHash <$> l) /\
    (forall v, v ∈ l -> getType v = soft_vote /\ getPeriod v = getPbftPeriod m /\ getRound v = round_m m /\
       getBlockHash v = pb_hash b) /\
    two_t_plus_one_of vcfg (total (u64 (getPbftPeriod m - 1))) soft_vote <= sum_list_Z weight_of l.
Proof.
  intros Hsz Hr Hvm Hc. destruct (i_cert _ (reach_inv cfg vm chain wallets m Hsz Hr) b Hc) as [_ Hsoft].
  cbn in Hsoft. destruct (getTwoTPlusOneVotedBlock _ _ _ SoftVotedBlock) as [vb|] eqn:Eb; [|done].
  injection Hsoft as Hh. destruct (quorum_votes vcfg total _ _ _ _ _ (reachable_inv _ _ _ Hvm) Eb) as (Ht & l & Hl & Hnd & Hv & Hq).
  simpl in Ht. rewrite Ht in Hq. exists l. split_and!; [done|done| |done].
  intros v Hin. destruct (Hv v Hin) as [(Hp & Hrd & Hs) Hbh]. split_and!; [|done|done|congruence].
  by rewrite getType_step_type, Hs.
Qed.

(** C7: the state of a validator is well formed in every reachable state: its step
    belongs to its state (proposal 1, filter 2, certify 3, then even and odd finish
    steps), no vote it cast is ahead of its period, round and step, a cert voted block is
    of the current period, and round, step and cert voted block are in the database as
    they are in memory. *)
Theorem reachable_manager_wf cfg vm chain wallets m :
  0 <= Chain.size_ chain < 2 ^ 64 - 1 -> rtc (pm_step cfg) (genesis_manager cfg vm chain wallets) m ->
  state_step (state_ m) (step_m m) /\ 1 <= round_m m /\
  (forall v, v ∈ own_votes m -> not_after (getPbftPeriod m) (round_m m) (step_m m) v) /\
  (forall b, cert_voted_block_for_round_ m = Some b -> pb_period b = getPbftPeriod m) /\
  db_round (pm_db m) = round_m m /\ db_step (pm_db m) = step_m m /\
  db_cert_voted_block_in_round (pm_db m) = (fun b => (round_m m, b)) <$> cert_voted_block_for_round_ m.
Proof.
  intros Hsz Hr. destruct (reach_inv cfg vm chain wallets m Hsz Hr) as [I1 I2 I3 I4 I5 I6 I7 (I8 & I9 & I10) I11].
  split_and!; [done|done|intros v Hv; by apply I4|intros b Hb; by apply I5|done..].
Qed.


(** While a round makes no progress and the network is not ahead, the lambda is
    min(60000, 2^(k+1) * lambda_ms) at step 13 + 2k: it doubles on every odd step and
    stays at one minute from then on. *)
Theorem lambda_backs_off cfg m k :
  0 < lambda_ms cfg <= kMaxExponentialLambda -> step_m m = 12 ->
  getNetworkTplusOneNextVotingStep (vote_mgr_ m) (getPbftPeriod m) (round_m m) <= 13 -> 13 + 2 * Z.of_nat k < 2 ^ 32 - 1 ->
  current_round_lambda_ (step_through cfg m (2 * k + 1)) = Z.min kMaxExponentialLambda (lambda_ms cfg * 2 ^ (Z.of_nat k + 1)).
Proof. intros Hl Hm Hn Hk. by apply backoff_lambda_after. Qed.
End service.

(** [adjustDynamicLambda] keeps the dynamic lambda between its minimum and its
    maximum: it is lowered by the change only at the end of an interval whose blocks all
    took one round, and raised by it after a block that took more than one round; the
    database holds the new value. *)
Theorem adjustDynamicLambda_correct cfg (m : PbftManager VoteManager) period round :
  0 <= lambda_change cfg <= lambda_min cfg -> lambda_max cfg + lambda_change cfg < 2 ^ 32 ->
  lambda_min cfg <= dynamic_lambda_ m <= lambda_max cfg ->
  let m' := adjustDynamicLambda cfg m period round in
  lambda_min cfg <= dynamic_lambda_ m' <= lambda_max cfg /\ db_lambda (pm_db m') = dynamic_lambda_ m' /\
  (dynamic_lambda_ m' < dynamic_lambda_ m -> isDynamicLambdaChangeInterval cfg period = true /\ 
     u32 (rounds_count_dynamic_lambda_ m + round) = lambda_change_interval cfg) /\
  (dynamic_lambda_ m < dynamic_lambda_ m' -> 1 < round) /\
  (isDynamicLambdaChangeInterval cfg period = false -> 1 < round ->
     dynamic_lambda_ m' = Z.min (lambda_max cfg) (dynamic_lambda_ m + lambda_change cfg)).
Proof.
  intros Hc Hmax Hl. destruct (adjustDynamicLambda_value cfg m period round Hc Hmax Hl) as (E & Ed & _).
  cbv zeta. rewrite Ed, E. split; [|split; [done|]].
  - destruct (isDynamicLambdaChangeInterval cfg period && _); destruct (1 <? round); lia.
  - split_and!.
    + intros Hlt. destruct (isDynamicLambdaChangeInterval cfg period); simpl in *.
      * split; [done|]. case_bool_decide; [done|]. destruct (1 <? round); lia.
      * destruct (1 <? round); lia.
    + intros Hlt. destruct (Z.ltb_spec 1 round); [done|].
      destruct (isDynamicLambdaChangeInterval cfg period && _); lia.
    + intros Hi Hr. rewrite Hi. simpl. by rewrite (proj2 (Z.ltb_lt _ _) Hr).
Qed.

(** ** A concrete run *)

#[local] Instance sample_service : VoteService VoteManager := vote_manager_service sample_cfg.

Definition ex_cfg : PbftMgrConfig :=
  mkPbftMgrConfig 1500 (fun _ => false) 1500 500 2000 10 10 (fun _ => false) 5000 10000 (fun _ => false)
    (fun _ => false) (fun _ => false) 2000000 (fun l => l) 30 0 (fun _ => 100000) 1.

Definition ex_vote (h p r s a : Z) : PbftVote :=
  mkPbftVote h (mkVrfPbftMsg p r s) 0 0 (100000 * a + 1000 * s + h) a (Some 1).

(** One eligible wallet of three votes in total; all blocks are valid. *)
Definition ex_env (t : Z) : Env :=
  mkEnv t None (fun _ => Some 3) (fun _ => true) (fun h _ p r s a => Some (ex_vote h p r s a)) (fun _ => 0) None
    (fun _ _ _ => false) (fun v => getHash v) (fun _ => false) (fun _ => Some []) (fun _ _ _ => false)
    (fun _ => None) (fun _ _ _ _ p _ _ _ => mkPbftBlock 0 0 0 p []) (fun _ => []) None (fun _ _ => []) (fun _ => None) (fun _ => 0)
    (fun _ _ => true) 0 5
    (fun _ => false) (fun _ => []) (fun _ => None) (fun _ => Some []) (fun _ => []) (fun _ => None) None.

Definition ex_block : PbftBlock := mkPbftBlock 70 60 50 1 [].

Definition or_self {A} (o : outcome A) (a : A) : A := match o with Done x => x | _ => a end.

(** The node starts, a block, its proposal and the soft votes of two other validators arrive. *)
Definition ex_start : PbftManager VoteManager :=
  genesis_manager ex_cfg (fresh_manager empty_db) (Chain.mkPbftChain 1 0 0 0 0) [7].
Definition ex_started : PbftManager VoteManager := or_self (restart ex_cfg (ex_env 0) ex_start (fresh_manager empty_db)) ex_start.
Definition ex_receive (m : PbftManager VoteManager) (v : PbftVote) : PbftManager VoteManager :=
  match addVerifiedVote sample_cfg (fun _ => Some 3) (Chain.size_ (pbft_chain_ m)) (vote_mgr_ m) v with
  | Done (vm, _) => set_vote_mgr m vm | _ => m end.
Definition ex_voted : PbftManager VoteManager :=
  ex_receive (ex_receive (ex_receive (processProposedBlock ex_started ex_block) (ex_vote 70 1 1 1 8))
    (ex_vote 70 1 1 2 8)) (ex_vote 70 1 1 2 9).
Definition ex_run (t : Z) (m : PbftManager VoteManager) : PbftManager VoteManager := or_self (run_state ex_cfg (ex_env t) m) m.
(** It soft votes, cert votes and, when the time is over, next votes. *)
Definition ex_filtered : PbftManager VoteManager := ex_run 3000 (ex_run 0 ex_voted).
Definition ex_certified : PbftManager VoteManager := ex_run 3100 ex_filtered.
Definition ex_finished : PbftManager VoteManager := ex_run 6100 (ex_run 6000 ex_certified).

Lemma ex_generates t : generates_ok (ex_env t).
Proof. intros h ty p r s a v [= <-]. done. Qed.

Lemma ex_receive_step m v :
  pm_step ex_cfg m (ex_receive m v) \/ ex_receive m v = m.
Proof.
  unfold ex_receive. destruct (addVerifiedVote _ _ _ _ _) as [[vm b]| |] eqn:E; [left|by right..].
  exact (pm_vote ex_cfg (fun _ => Some 3) m v vm b E).
Qed.

Lemma ex_run_step t m :
  step_m m < 2 ^ 32 - 1 -> pm_step ex_cfg m (ex_run t m) \/ ex_run t m = m.
Proof.
  intros Hs. unfold ex_run. destruct (run_state _ _ _) as [m'| |] eqn:E; [left|by right..].
  by apply (pm_run ex_cfg (ex_env t)); [apply ex_generates|..].
Qed.

Lemma rtc_or {A} (R : A -> A -> Prop) a b c : rtc R a b -> (R b c \/ c = b) -> rtc R a c.
Proof. intros Hab [Hs| ->]; [by eapply rtc_r|done]. Qed.

Lemma ex_reachable :
  rtc (pm_step ex_cfg) ex_start ex_filtered /\ rtc (pm_step ex_cfg) ex_start ex_certified /\
  rtc (pm_step ex_cfg) ex_start ex_finished.
Proof.
  assert (rtc (pm_step ex_cfg) ex_start ex_voted) as H0.
  { do 3 (eapply rtc_or; [|apply ex_receive_step]).
    eapply rtc_or; [|left; apply pm_block]. apply rtc_once. apply (pm_restart ex_cfg (ex_env 0) _ (fresh_manager empty_db)).
    - done.
    - vm_compute. reflexivity. }
  assert (rtc (pm_step ex_cfg) ex_start ex_filtered) as H1.
  { eapply rtc_or; [|apply ex_run_step; vm_compute; reflexivity].
    eapply rtc_or; [exact H0|apply ex_run_step; vm_compute; reflexivity]. }
  assert (rtc (pm_step ex_cfg) ex_start ex_certified) as H2
    by (eapply rtc_or; [exact H1|apply ex_run_step; vm_compute; reflexivity]).
  split; [exact H1|split; [exact H2|]].
  eapply rtc_or; [|apply ex_run_step; vm_compute; reflexivity].
  eapply rtc_or; [exact H2|apply ex_run_step; vm_compute; reflexivity].
Qed.

Lemma ex_finished_votes : own_votes ex_finished = [ex_vote 70 1 1 2 7; ex_vote 70 1 1 3 7; ex_vote 70 1 1 4 7].
Proof. vm_compute. reflexivity. Qed.

Definition ex_add (vm : VoteManager) (v : PbftVote) : VoteManager :=
  match addVerifiedVote sample_cfg (fun _ => Some 3) 0 vm v with Done (vm', _) => vm' | _ => vm end.
Definition ex_vm : VoteManager :=
  let vm := or_self (setCurrentPbftPeriodAndRound (fresh_manager empty_db) 1 1) (fresh_manager empty_db) in
  let vm := foldl ex_add vm [ex_vote 70 1 1 1 8; ex_vote 70 1 1 2 8; ex_vote 70 1 1 2 9] in
  let vm := saveOwnVerifiedVote (ex_add vm (ex_vote 70 1 1 2 7)) (ex_vote 70 1 1 2 7) in
  saveOwnVerifiedVote (ex_add vm (ex_vote 70 1 1 3 7)) (ex_vote 70 1 1 3 7).

Lemma ex_add_reachable vm h p r s a :
  vm_reachable sample_cfg sample_total vm -> vm_reachable sample_cfg sample_total (ex_add vm (ex_vote h p r s a)).
Proof.
  intros Hr. unfold ex_add. destruct (addVerifiedVote _ _ _ _ _) as [[vm' b]| |] eqn:E; [|done..].
  apply (reach_step _ _ vm); [done|]. eapply step_add; [|..|exact E]; [by intros ? ? [= <-]|].
  intros w [= <-]. done.
Qed.

Lemma ex_vm_reachable : vm_reachable sample_cfg sample_total ex_vm.
Proof.
  assert (forall vm v, vm_reachable sample_cfg sample_total vm ->
    vm_reachable sample_cfg sample_total (saveOwnVerifiedVote vm v)) as Hsave.
  { intros vm v Hr. apply (reach_step _ _ vm); [done|apply step_save_own]. }
  apply Hsave, ex_add_reachable, Hsave, ex_add_reachable. do 3 apply ex_add_reachable.
  apply (reach_step _ _ (fresh_manager empty_db)); [apply sample_fresh_reachable|].
  apply (step_set_current _ _ 1 1). vm_compute. reflexivity.
Qed.

Lemma ex_votes : vote_mgr_ ex_certified = ex_vm.
Proof. vm_compute. reflexivity. Qed.

Lemma ex_size : 0 <= Chain.size_ (Chain.mkPbftChain 1 0 0 0 0) < 2 ^ 64 - 1.
Proof. done. Qed.


Example cert_voted_block_has_quorum_witness :
  exists l, getTwoTPlusOneVotedBlockVotes (verified_votes_ (vote_mgr_ ex_certified)) 1 1 SoftVotedBlock = Done l /\
    3 <= sum_list_Z weight_of l.
Proof.
  assert (vm_reachable sample_cfg sample_total (vote_mgr_ ex_certified)) as Hvm
    by (rewrite ex_votes; exact ex_vm_reachable).
  destruct (cert_voted_block_has_quorum sample_cfg ex_cfg sample_total (fresh_manager empty_db)
    (Chain.mkPbftChain 1 0 0 0 0) [7] ex_certified ex_block ex_size (proj1 (proj2 ex_reachable)) Hvm)
    as (l & Hl & _ & _ & Hq); [vm_compute; reflexivity|].
  exists l. exact (conj Hl Hq).
Defined.

Example reachable_manager_wf_witness :
  state_step (state_ ex_finished) (step_m ex_finished) /\ step_m ex_finished = 5 /\ state_ ex_finished = finish_polling_state.
Proof.
  destruct (reachable_manager_wf sample_cfg ex_cfg (fresh_manager empty_db) (Chain.mkPbftChain 1 0 0 0 0) [7]
    ex_finished ex_size (proj2 (proj2 ex_reachable))) as [Hs _].
  split; [exact Hs|]. vm_compute. split; reflexivity.
Defined.


Example lambda_backs_off_witness :
  current_round_lambda_ (step_through ex_cfg (set_step_m ex_start 12) 5) = 12000.
Proof.
  apply (lambda_backs_off sample_cfg ex_cfg (set_step_m ex_start 12) 2); vm_compute; intuition congruence.
Defined.

Example adjustDynamicLambda_correct_witness :
  dynamic_lambda_ (adjustDynamicLambda ex_cfg (set_dynamic_lambda ex_start 600) 7 3) = 610.
Proof.
  destruct (adjustDynamicLambda_correct ex_cfg (set_dynamic_lambda ex_start 600) 7 3) as (_ & _ & _ & _ & Hup);
    [vm_compute; intuition congruence..|].
  apply Hup; reflexivity.
Defined.

(** ** A crash while certifying *)

(** The node stops after [genAndPlaceVote] placed the cert vote and before
    [saveCertVotedBlockInRound] recorded the block. *)
Definition ex_crashed : PbftManager VoteManager :=
  (or_self (genAndPlaceVote ex_cfg (ex_env 3100) ex_filtered cert_vote 1 1 3 70 (Some ex_block)) (ex_filtered, false)).1.

(** A node that stops between sending its cert vote and recording the cert voted
    block votes against it after the restart: the vote manager is built from the saved
    votes, the PBFT manager from its own columns, and the first finish step next votes
    for the null block in the round of the cert vote. *)
Theorem crash_before_record_votes_null :
  genAndPlaceVote ex_cfg (ex_env 3100) ex_filtered cert_vote 1 1 3 70 (Some ex_block) = Done (ex_crashed, true) /\
  exists vm m m', construct sample_cfg (fun _ => Some 3) 0 (db_ (vote_mgr_ ex_crashed)) = Done vm /\
    restart ex_cfg (ex_env 4000) ex_crashed vm = Done m /\ run_state ex_cfg (ex_env 9000) m = Done m' /\
    ex_vote 70 1 1 3 7 ∈ own_votes m' /\ ex_vote kNullBlockHash 1 1 4 7 ∈ own_votes m'.
Proof.
  split; [vm_compute; reflexivity|].
  set (vm := or_self (construct sample_cfg (fun _ => Some 3) 0 (db_ (vote_mgr_ ex_crashed))) ex_vm).
  set (m := or_self (restart ex_cfg (ex_env 4000) ex_crashed vm) ex_crashed).
  set (m' := or_self (run_state ex_cfg (ex_env 9000) m) m).
  exists vm, m, m'. split; [vm_compute; reflexivity|]. split; [vm_compute; reflexivity|]. split; [vm_compute; reflexivity|].
  assert (own_votes m' = [ex_vote 70 1 1 2 7; ex_vote 70 1 1 3 7; ex_vote kNullBlockHash 1 1 4 7]) as E
    by (vm_compute; reflexivity).
  rewrite E. clear. set_solver.
Qed.
