(* ===== verification/PbftBlocks.v ===== *)
(** * Validation of PBFT blocks

    [PbftManager]: [validatePbftBlock] with its cache of DAG orders and
    [validatePbftBlockCertVotes] with [VoteManager::validateVote]
    (pbft_manager.cpp, vote_manager.cpp).  The answers of final chain, DAG, pillar
    chain and the verification of keys, signatures and proofs are arguments. *)

From S2P Require Import Prelude Votes VerifiedVotes VoteManager VoteQuorum PbftChain TransactionQueue PbftManager.
Local Open Scope Z_scope.
Local Open Scope outcome_scope.

(** ** Blocks *)

(** A block with the fields that only its validation reads. *)
Record FullPbftBlock := mkFullPbftBlock {
  fb_block : PbftBlock;
  fb_order_hash : blk_hash_t;
  fb_final_chain_hash : blk_hash_t;
  fb_extra_data : option PbftBlockExtraData;
}.

Record DagBlockData := mkDagBlockData {
  db_hash : blk_hash_t;
  db_gas_estimation : Z;
}.

Inductive PbftStateRootValidation := Valid | Missing | Invalid.

#[export] Instance PbftStateRootValidation_eq_dec : EqDecision PbftStateRootValidation.
Proof. solve_decision. Defined.

(** The answers of the other components. *)
Record ValidationEnv := mkValidationEnv {
  ve_finalChainHash : PbftPeriod -> option blk_hash_t;
  ve_pillar_block : option blk_hash_t;
  ve_dag_order : blk_hash_t -> PbftPeriod -> list blk_hash_t;
  ve_dag_block : blk_hash_t -> option DagBlockData;
  ve_order_sha3 : list blk_hash_t -> blk_hash_t;
  ve_block_in_chain : blk_hash_t -> PbftBlock;
  ve_ghost_path : blk_hash_t -> list blk_hash_t;
}.

Abbreviation OrderCache := (gmap blk_hash_t (list DagBlockData)).

Definition validateFinalChainHash (expected : option blk_hash_t) (b : FullPbftBlock) : PbftStateRootValidation :=
  match expected with
  | None => Missing
  | Some h => if fb_final_chain_hash b =? h then Valid else Invalid
  end.

Section blocks.
Context (cfg : PbftMgrConfig).

Definition validatePbftBlockExtraData (b : FullPbftBlock) : bool :=
  let period := pb_period (fb_block b) in
  if isFicusHardfork cfg period then
    match fb_extra_data b with
    | None => false
    | Some extra =>
        if isPbftWithPillarBlockPeriod cfg period then bool_decide (is_Some (pillar_block_hash_ extra))
        else negb (bool_decide (is_Some (pillar_block_hash_ extra)))
    end
  else negb (bool_decide (is_Some (fb_extra_data b))).

(** The u256 total of 64-bit estimations does not wrap. *)
Definition checkBlockWeight (dag_blocks : list DagBlockData) (period : PbftPeriod) : bool :=
  foldl (fun value b => value + db_gas_estimation b) 0 dag_blocks <=? pbft_gas_limit cfg period.

Definition order_hash (env : ValidationEnv) (order : list blk_hash_t) : blk_hash_t :=
  match order with [] => kNullBlockHash | _ => ve_order_sha3 env order end.

Fixpoint load_order (env : ValidationEnv) (order : list blk_hash_t) : outcome (list DagBlockData) :=
  match order with
  | [] => Done []
  | h :: rest =>
      match ve_dag_block env h with
      | None => AssertFailed
      | Some b => let* l := load_order env rest in Done (b :: l)
      end
  end.

(** The check of the pillar block hash; dereferencing a missing one is undefined. *)
Definition pillar_hash_ok (env : ValidationEnv) (b : FullPbftBlock) : outcome bool :=
  if isPbftWithPillarBlockPeriod cfg (pb_period (fb_block b)) then
    match ve_pillar_block env with
    | None => Done false
    | Some current =>
        match fb_extra_data b ≫= pillar_block_hash_ with
        | None => Undefined
        | Some h => Done (h =? current)
        end
    end
  else Done true.

(** The checks before the DAG order. *)
Definition block_checks (env : ValidationEnv) (chain : Chain.PbftChain) (vm : VoteManager) (b : FullPbftBlock) : outcome bool :=
  if negb (Chain.checkPbftBlockValidation chain (fb_block b)) then Done false
  else if negb (bool_decide (validateFinalChainHash (ve_finalChainHash env (pb_period (fb_block b))) b = Valid)) then Done false
  else
    let* (rewards_ok, _) := checkRewardVotes vm (pb_period (fb_block b)) (pb_reward_votes (fb_block b)) false in
    if negb rewards_ok then Done false
    else if negb (validatePbftBlockExtraData b) then Done false
    else pillar_hash_ok env b.

(** The gas limit does not apply to the block next to the last anchor. *)
Definition weight_checked (env : ValidationEnv) (chain : Chain.PbftChain) (anchor : blk_hash_t) : bool :=
  let last := Chain.last_pbft_block_hash_ chain in
  if last =? kNullBlockHash then false
  else
    match ve_ghost_path env (pb_pivot_dag_block_hash (ve_block_in_chain env last)) with
    | _ :: second :: _ => negb (anchor =? second)
    | _ => false
    end.

Definition validate_order (env : ValidationEnv) (chain : Chain.PbftChain) (cache : OrderCache) (b : FullPbftBlock) :
    outcome (OrderCache * bool) :=
  let anchor := pb_pivot_dag_block_hash (fb_block b) in
  let period := pb_period (fb_block b) in
  let order := ve_dag_order env anchor period in
  if bool_decide (order = []) then Done (cache, false)
  else if negb (order_hash env order =? fb_order_hash b) then Done (cache, false)
  else
    let* blocks := load_order env order in
    let cache := <[anchor := blocks]> cache in
    if weight_checked env chain anchor && negb (checkBlockWeight blocks period)
    then Done (delete anchor cache, false) else Done (cache, true).

Definition validatePbftBlock (env : ValidationEnv) (chain : Chain.PbftChain) (vm : VoteManager) (cache : OrderCache)
    (b : FullPbftBlock) : outcome (OrderCache * bool) :=
  let* ok := block_checks env chain vm b in
  if negb ok then Done (cache, false)
  else
    let anchor := pb_pivot_dag_block_hash (fb_block b) in
    if anchor =? kNullBlockHash then Done (cache, true)
    else if bool_decide (is_Some (cache !! anchor)) then Done (cache, true)
    else validate_order env chain cache b.
End blocks.

(** ** Cert votes of a synced block *)

(** What the DPOS contract, the key manager and the cryptography answer. *)
Record VoteEnv := mkVoteEnv {
  dposEligibleVoteCount : PbftPeriod -> addr_t -> option Z;
  dposEligibleTotalVoteCount : PbftPeriod -> option Z;
  getVrfKey : PbftPeriod -> addr_t -> option Z;
  verifyVote : PbftVote -> bool;
  verifyVrfSortition : PbftVote -> Z -> bool -> bool;
  calculateWeight : PbftVote -> Z -> Z -> Z -> Z;
}.

Definition with_weight (v : PbftVote) (w : Z) : PbftVote :=
  mkPbftVote (block_hash_ v) (pbft_msg_ v) (proof_ v) (vote_signature_ v) (vote_hash_ v) (cached_voter_addr_ v) (Some w).

Section cert_votes.
Context (vcfg : PbftConfig) (env : VoteEnv).

(** Whether the hash goes into the cache of validated votes, and the vote with its
    weight if it is valid. *)
Definition validateVote (v : PbftVote) (strict : bool) : bool * option PbftVote :=
  let period := u64 (getPeriod v - 1) in
  match dposEligibleVoteCount env period (getVoterAddr v) with
  | None => (false, None)
  | Some stake =>
      (true,
       if stake =? 0 then None
       else
         match getVrfKey env period (getVoterAddr v) with
         | None => None
         | Some pk =>
             if negb (verifyVote env v) then None
             else if negb (verifyVrfSortition env v pk strict) then None
             else
               match dposEligibleTotalVoteCount env period with
               | None => None
               | Some total =>
                   let w := calculateWeight env v stake total (getPbftSortitionThreshold vcfg total (getType v)) in
                   if w =? 0 then None else Some (with_weight v w)
               end
         end)
  end.

Definition cert_vote_matches (block : PbftBlock) (p : PbftPeriod) (r : PbftRound) (v : PbftVote) : bool :=
  (getPeriod v =? p) && (getRound v =? r) && bool_decide (getType v = cert_vote) && (getStep v =? 3) &&
  (getBlockHash v =? pb_hash block).

(** The loop: the weights are summed up, the votes are added whether or not they are new. *)
Fixpoint sum_cert_votes (size : PbftPeriod) (block : PbftBlock) (p : PbftPeriod) (r : PbftRound) (strict_validation : bool)
    (vote_to_validate vote_counter : Z) (votes : list PbftVote) (vm : VoteManager) (votes_weight : Z) :
    outcome (VoteManager * option Z) :=
  match votes with
  | [] => Done (vm, Some votes_weight)
  | v :: rest =>
      if negb (cert_vote_matches block p r v) then Done (vm, None)
      else
        match (validateVote v (strict_validation || (vote_counter =? vote_to_validate))).2 with
        | None => Done (vm, None)
        | Some v =>
            let* (vm, _) := addVerifiedVote vcfg (dposEligibleTotalVoteCount env) size vm v in
            sum_cert_votes size block p r strict_validation vote_to_validate (vote_counter + 1) rest vm
              (u64 (votes_weight + weight_of v))
        end
  end.

Definition full_vote_validation_interval : Z := 100.

(** [random] is the result of [std::rand]; a division by zero is undefined. *)
Definition validatePbftBlockCertVotes (random : Z) (size : PbftPeriod) (vm : VoteManager) (block : PbftBlock)
    (cert_votes : list PbftVote) : outcome (VoteManager * bool) :=
  match cert_votes with
  | [] => Undefined
  | first :: _ =>
      let vote_to_validate := random mod Z.of_nat (length cert_votes) in
      let strict_validation := pb_period block mod full_vote_validation_interval =? 0 in
      if negb (pb_period block =? getPeriod first) then Done (vm, false)
      else
        let* (vm, res) := sum_cert_votes size block (getPeriod first) (getRound first) strict_validation vote_to_validate 0
          cert_votes vm 0 in
        match res with
        | None => Done (vm, false)
        | Some votes_weight =>
            match getPbftTwoTPlusOne vcfg (dposEligibleTotalVoteCount env) size vm (u64 (getPeriod first - 1)) cert_vote with
            | (vm, None) => Done (vm, false)
            | (vm, Some two_t_plus_one) => Done (vm, negb (votes_weight <? two_t_plus_one))
            end
        end
  end.
End cert_votes.

(** ** What validation accepts *)

(** The conditions on a proposed block, apart from its reward votes. *)
Record block_valid (cfg : PbftMgrConfig) (env : ValidationEnv) (chain : Chain.PbftChain) (b : FullPbftBlock) : Prop := {
  bv_period : pb_period (fb_block b) = u64 (Chain.size_ chain + 1);
  bv_prev : pb_prev_block_hash (fb_block b) = Chain.last_pbft_block_hash_ chain;
  bv_final : ve_finalChainHash env (pb_period (fb_block b)) = Some (fb_final_chain_hash b);
  bv_extra : isFicusHardfork cfg (pb_period (fb_block b)) = true <-> is_Some (fb_extra_data b);
  bv_pillar : isFicusHardfork cfg (pb_period (fb_block b)) = true ->
    if isPbftWithPillarBlockPeriod cfg (pb_period (fb_block b))
    then exists h, fb_extra_data b = Some (mkPbftBlockExtraData (Some h)) /\ ve_pillar_block env = Some h
    else fb_extra_data b = Some (mkPbftBlockExtraData None);
}.

(** The conditions on the DAG order of an anchor. *)
Definition order_valid (cfg : PbftMgrConfig) (env : ValidationEnv) (chain : Chain.PbftChain) (b : FullPbftBlock)
    (blocks : list DagBlockData) : Prop :=
  let anchor := pb_pivot_dag_block_hash (fb_block b) in
  let order := ve_dag_order env anchor (pb_period (fb_block b)) in
  order <> [] /\ ve_order_sha3 env order = fb_order_hash b /\ load_order env order = Done blocks /\
  (weight_checked env chain anchor = true -> checkBlockWeight cfg blocks (pb_period (fb_block b)) = true).

Section lemmas.
Context (cfg : PbftMgrConfig) (env : ValidationEnv) (chain : Chain.PbftChain) (vm : VoteManager).

Lemma check_chain b :
  Chain.checkPbftBlockValidation chain b = true <->
  pb_period b = u64 (Chain.size_ chain + 1) /\ pb_prev_block_hash b = Chain.last_pbft_block_hash_ chain.
Proof.
  unfold Chain.checkPbftBlockValidation. destruct (Z.eqb_spec (u64 (Chain.size_ chain + 1)) (pb_period b)); simpl; [|naive_solver].
  destruct (Z.eqb_spec (pb_prev_block_hash b) (Chain.last_pbft_block_hash_ chain)); simpl; naive_solver.
Qed.

Lemma check_final expected b : validateFinalChainHash expected b = Valid <-> expected = Some (fb_final_chain_hash b).
Proof.
  unfold validateFinalChainHash. destruct expected as [h|]; [|naive_solver].
  destruct (Z.eqb_spec (fb_final_chain_hash b) h); naive_solver.
Qed.

(** Extra data and pillar block hash, when only blocks after the fork carry one. *)
Lemma check_extra b :
  (isPbftWithPillarBlockPeriod cfg (pb_period (fb_block b)) = true -> isFicusHardfork cfg (pb_period (fb_block b)) = true) ->
  (validatePbftBlockExtraData cfg b = true /\ pillar_hash_ok cfg env b = Done true <->
   (isFicusHardfork cfg (pb_period (fb_block b)) = true <-> is_Some (fb_extra_data b)) /\
   (isFicusHardfork cfg (pb_period (fb_block b)) = true ->
    if isPbftWithPillarBlockPeriod cfg (pb_period (fb_block b))
    then exists h, fb_extra_data b = Some (mkPbftBlockExtraData (Some h)) /\ ve_pillar_block env = Some h
    else fb_extra_data b = Some (mkPbftBlockExtraData None))).
Proof.
  intros Hp. unfold validatePbftBlockExtraData, pillar_hash_ok.
  destruct (isPbftWithPillarBlockPeriod cfg _); [rewrite Hp by done|destruct (isFicusHardfork cfg _)];
    destruct (fb_extra_data b) as [[[h|]]|]; simpl; try (split; naive_solver).
  - destruct (ve_pillar_block env) as [x|]; [|split; naive_solver]. split.
    + intros [_ [= E%Z.eqb_eq]]. subst. naive_solver.
    + intros [_ H]. destruct (H eq_refl) as (h' & [= <-] & [= ->]). by rewrite Z.eqb_refl.
Qed.

Lemma block_checks_true b :
  (isPbftWithPillarBlockPeriod cfg (pb_period (fb_block b)) = true -> isFicusHardfork cfg (pb_period (fb_block b)) = true) ->
  block_checks cfg env chain vm b = Done true <->
  block_valid cfg env chain b /\
  exists l, checkRewardVotes vm (pb_period (fb_block b)) (pb_reward_votes (fb_block b)) false = Done (true, l).
Proof.
  intros Hp. unfold block_checks.
  destruct (Chain.checkPbftBlockValidation chain (fb_block b)) eqn:Ec; simpl.
  2: { split; [done|]. intros [Hv _]. assert (Chain.checkPbftBlockValidation chain (fb_block b) = true); [|congruence].
       apply check_chain. split; apply Hv. }
  apply check_chain in Ec as [E1 E2].
  case_bool_decide as Hf; simpl.
  2: { split; [done|]. intros [Hv _]. destruct Hf. apply check_final, Hv. }
  apply check_final in Hf.
  destruct (checkRewardVotes vm _ _ false) as [[ok l]| |]; simpl; [|naive_solver..].
  destruct ok; simpl; [|naive_solver]. pose proof (check_extra b Hp) as Hx.
  destruct (validatePbftBlockExtraData cfg b) eqn:Ee; simpl.
  - split; [|intros [Hv _]; apply Hx; split; apply Hv]. intros Hd. destruct Hx as [Hx _]. destruct Hx as [? ?]; [done|].
    split; [by split|eauto].
  - split; [done|]. intros [Hv _]. assert (false = true); [|done]. apply Hx. split; apply Hv.
Qed.

Lemma validate_order_true cache b cache' :
  validate_order cfg env chain cache b = Done (cache', true) <->
  exists blocks, order_valid cfg env chain b blocks /\ cache' = <[pb_pivot_dag_block_hash (fb_block b) := blocks]> cache.
Proof.
  unfold validate_order, order_valid. set (a := pb_pivot_dag_block_hash (fb_block b)).
  set (order := ve_dag_order env a _). case_bool_decide as Ho; [naive_solver|].
  assert (order_hash env order = ve_order_sha3 env order) as -> by (unfold order_hash; by destruct order).
  destruct (Z.eqb_spec (ve_order_sha3 env order) (fb_order_hash b)) as [E|E]; simpl; [|naive_solver].
  destruct (load_order env order) as [blocks| |]; simpl; [|naive_solver..].
  destruct (weight_checked env chain a && negb _) eqn:Ew.
  - apply andb_true_iff in Ew as [Ew Ec%negb_true_iff]. split; [done|].
    intros (l & (_ & _ & [= <-] & Hw) & _). rewrite Hw in Ec; done.
  - split; [|by intros (l & (_ & _ & [= <-] & _) & ->)]. intros [= <-]. exists blocks. split_and!; try done.
    intros Hw. rewrite Hw in Ew. simpl in Ew. by apply negb_false_iff.
Qed.

Lemma validate_order_false cache b cache' :
  cache !! pb_pivot_dag_block_hash (fb_block b) = None ->
  validate_order cfg env chain cache b = Done (cache', false) -> cache' = cache.
Proof.
  intros Hn. unfold validate_order. case_bool_decide; [naive_solver|]. destruct (negb _); [naive_solver|].
  destruct (load_order env _); simpl; try done. destruct (_ && _); [|done]. intros [= <-].
  by rewrite delete_insert_id.
Qed.
End lemmas.

(** ** Properties *)

(** C9: a proposed block whose anchor is not cached is accepted exactly when it
    extends the chain, its final chain hash, extra data and pillar block hash are the
    expected ones, its reward votes are known and, with an anchor, the DAG has an
    order for it with the hash of the block and within the gas limit; the blocks of the
    order are cached then, and only then does the cache change. *)
Theorem validatePbftBlock_correct cfg env chain vm cache b :
  let anchor := pb_pivot_dag_block_hash (fb_block b) in
  (isPbftWithPillarBlockPeriod cfg (pb_period (fb_block b)) = true -> isFicusHardfork cfg (pb_period (fb_block b)) = true) ->
  cache !! anchor = None ->
  (forall cache', validatePbftBlock cfg env chain vm cache b = Done (cache', true) <->
    block_valid cfg env chain b /\
    (exists l, checkRewardVotes vm (pb_period (fb_block b)) (pb_reward_votes (fb_block b)) false = Done (true, l)) /\
    if decide (anchor = kNullBlockHash) then cache' = cache
    else exists blocks, order_valid cfg env chain b blocks /\ cache' = <[anchor := blocks]> cache) /\
  (forall cache', validatePbftBlock cfg env chain vm cache b = Done (cache', false) -> cache' = cache).
Proof.
  intros anchor Hp Hc. pose proof (block_checks_true cfg env chain vm b Hp) as Hb.
  unfold validatePbftBlock. destruct (block_checks cfg env chain vm b) as [[]| |]; simpl.
  2-4: split; [intros cache'; split; [done|]; intros (Hv & Hr & _); assert (exists x : bool, False) as [_ []];
    try (destruct Hb as [_ Hb]; by specialize (Hb (conj Hv Hr)))|intros cache'; naive_solver].
  destruct Hb as [Hb _]. destruct (Hb eq_refl) as [Hv Hr]. fold anchor.
  destruct (Z.eqb_spec anchor kNullBlockHash) as [E|E], (decide (anchor = kNullBlockHash)); try done.
  - split; intros cache'; naive_solver.
  - rewrite bool_decide_false by (rewrite Hc; by intros []). split; intros cache'.
    + rewrite validate_order_true. naive_solver.
    + by apply validate_order_false.
Qed.

(** Once an anchor is cached, blocks with this anchor are accepted without a look
    at their order hash: replacing the order hash of an accepted block by any other
    gives a block that is accepted too. *)
Theorem cached_anchor_skips_order_hash cfg env chain vm cache b h :
  is_Some (cache !! pb_pivot_dag_block_hash (fb_block b)) ->
  validatePbftBlock cfg env chain vm cache b = Done (cache, true) ->
  validatePbftBlock cfg env chain vm cache (mkFullPbftBlock (fb_block b) h (fb_final_chain_hash b) (fb_extra_data b)) =
    Done (cache, true).
Proof.
  intros Hc. unfold validatePbftBlock, block_checks, validatePbftBlockExtraData, pillar_hash_ok, validateFinalChainHash.
  cbn [fb_block fb_final_chain_hash fb_extra_data]. by rewrite (bool_decide_true _ Hc).
Qed.

Lemma sum_cert_votes_spec vcfg env size block p r strict k votes : forall i vm w vm' w',
  sum_cert_votes vcfg env size block p r strict k i votes vm w = Done (vm', Some w') ->
  Forall (fun v => cert_vote_matches block p r v = true) votes /\
  exists weighted, Forall2 (fun v x => exists s, (validateVote vcfg env v s).2 = Some x) votes weighted /\
    (forall v, 0 <= k - i -> votes !! Z.to_nat (k - i) = Some v -> is_Some (validateVote vcfg env v true).2) /\
    (0 <= w < 2 ^ 64 -> w' = u64 (w + sum_list_Z weight_of weighted)).
Proof.
  induction votes as [|v votes IH]; intros i vm w vm' w'; simpl.
  - intros [= <- <-]. split; [constructor|]. exists []. split_and!; [constructor|done|].
    intros Hw. simpl. by rewrite Z.add_0_r, wrap_id.
  - destruct (cert_vote_matches block p r v) eqn:Em; simpl; [|done].
    destruct (validateVote vcfg env v (strict || (i =? k))).2 as [x|] eqn:Ev; [|done].
    destruct (addVerifiedVote vcfg _ size vm x) as [[vm1 added]| |]; simpl; try done.
    intros (Hf & weighted & H2 & Hk & Hw)%IH. split; [by constructor|]. exists (x :: weighted). split_and!.
    + constructor; [by eexists|done].
    + intros v' Hki. destruct (decide (k = i)) as [->|Hne].
      * rewrite Z.sub_diag. simpl. intros [= <-]. rewrite Z.eqb_refl, orb_true_r in Ev. by eexists.
      * replace (Z.to_nat (k - i)) with (S (Z.to_nat (k - (i + 1)))) by lia. simpl. apply Hk. lia.
    + intros Hwr. rewrite Hw by (by apply (wrap_range 64)). simpl. by rewrite wrap_add_l, Z.add_assoc.
Qed.

(** Cert votes that are accepted for a block are all cert votes of one round for
    this block and valid, one chosen at random has a strictly verified proof, and the
    sum of their weights, each vote of the list counted, reaches the 2t+1 threshold. *)
Theorem validatePbftBlockCertVotes_sound vcfg env random size vm block votes vm' :
  0 <= random ->
  validatePbftBlockCertVotes vcfg env random size vm block votes = Done (vm', true) ->
  exists r weighted two_t_plus_one,
    (forall v, v ∈ votes -> getPeriod v = pb_period block /\ getRound v = r /\ getType v = cert_vote /\
       getBlockHash v = pb_hash block) /\
    Forall2 (fun v x => exists strict, (validateVote vcfg env v strict).2 = Some x) votes weighted /\
    (exists v, votes !! Z.to_nat (random mod Z.of_nat (length votes)) = Some v /\ is_Some (validateVote vcfg env v true).2) /\
    two_t_plus_one <= u64 (sum_list_Z weight_of weighted) /\
    exists vm1, getPbftTwoTPlusOne vcfg (dposEligibleTotalVoteCount env) size vm1 (u64 (pb_period block - 1)) cert_vote =
      (vm', Some two_t_plus_one).
Proof.
  intros Hrnd. unfold validatePbftBlockCertVotes. destruct votes as [|first votes]; [done|].
  set (n := Z.of_nat (length (first :: votes))). destruct (Z.eqb_spec (pb_period block) (getPeriod first)) as [Ep|]; cbn [negb]; [|done].
  match goal with |- context [obind ?x _] => destruct x as [[vm1 res]| |] eqn:Es end; simpl; try done.
  destruct res as [w|]; [|done]. destruct (getPbftTwoTPlusOne _ _ _ _ _ _) as [vm2 [q|]] eqn:Eq; [|done].
  destruct (Z.ltb_spec w q); simpl; [done|]. intros [= <-].
  destruct (sum_cert_votes_spec vcfg env size block _ _ _ _ _ _ _ _ _ _ Es) as (Hm & weighted & H2 & Hk & Hw).
  exists (getRound first), weighted, q. split_and!; [|done| | |].
  - intros v Hv. rewrite Forall_forall in Hm. specialize (Hm v Hv). unfold cert_vote_matches in Hm.
    rewrite !andb_true_iff, !Z.eqb_eq, bool_decide_eq_true in Hm. rewrite Ep. naive_solver.
  - assert (0 <= random mod n < n) as Hb by (apply Z.mod_pos_bound; unfold n; simpl; lia).
    destruct (lookup_lt_is_Some_2 (first :: votes) (Z.to_nat (random mod n))) as [v Hv].
    { apply Nat2Z.inj_lt. rewrite Z2Nat.id by lia. exact (proj2 Hb). }
    exists v. split; [done|]. apply Hk; rewrite Z.sub_0_r; [lia|done].
  - rewrite Hw in H by done. exact H.
  - exists vm1. by rewrite Ep.
Qed.

(** ** Concrete blocks and votes *)

Definition ex_vcfg : PbftMgrConfig :=
  mkPbftMgrConfig 1500 (fun _ => false) 1500 500 2000 10 10 (fun _ => false) 5000 10000 (fun _ => false)
    (fun _ => false) (fun _ => false) 2000000 (fun l => l) 30 0 (fun _ => 100) 1.
Definition ex_chain : Chain.PbftChain := Chain.mkPbftChain 1 0 0 0 0.
Definition ex_venv : ValidationEnv :=
  mkValidationEnv (fun _ => Some 9) None (fun _ _ => [50; 51]) (fun h => Some (mkDagBlockData h 10)) (fun _ => 77)
    (fun _ => mkPbftBlock 0 0 0 0 []) (fun _ => []).
Definition ex_full_block : FullPbftBlock := mkFullPbftBlock (mkPbftBlock 70 0 50 1 []) 77 9 None.
Definition ex_cache : OrderCache := {[50 := [mkDagBlockData 50 10; mkDagBlockData 51 10]]}.

Example validatePbftBlock_correct_witness :
  validatePbftBlock ex_vcfg ex_venv ex_chain (fresh_manager empty_db) ∅ ex_full_block = Done (ex_cache, true).
Proof.
  destruct (validatePbftBlock_correct ex_vcfg ex_venv ex_chain (fresh_manager empty_db) ∅ ex_full_block) as [H _];
    [done|reflexivity|]. apply H.
  split; [constructor; [reflexivity|reflexivity|reflexivity|split; [done|by intros []]|done]|]. split; [exists []; reflexivity|]. simpl.
  exists [mkDagBlockData 50 10; mkDagBlockData 51 10]. by split_and!.
Defined.

Example cached_anchor_skips_order_hash_witness :
  validatePbftBlock ex_vcfg ex_venv ex_chain (fresh_manager empty_db) ∅
    (mkFullPbftBlock (fb_block ex_full_block) 78 9 None) = Done (∅, false) /\
  validatePbftBlock ex_vcfg ex_venv ex_chain (fresh_manager empty_db) ex_cache
    (mkFullPbftBlock (fb_block ex_full_block) 78 9 None) = Done (ex_cache, true).
Proof.
  split; [vm_compute; reflexivity|].
  apply (cached_anchor_skips_order_hash ex_vcfg ex_venv ex_chain (fresh_manager empty_db) ex_cache ex_full_block 78);
    [by eexists|vm_compute; reflexivity].
Defined.

(** Three votes in total, one of them is the voter's. *)
Definition ex_vote_env : VoteEnv :=
  mkVoteEnv (fun _ _ => Some 1) (fun _ => Some 3) (fun _ _ => Some 5) (fun _ => true) (fun _ _ _ => true) (fun _ _ _ _ => 1).
Definition ex_cert (a : addr_t) : PbftVote := mkPbftVote 70 (mkVrfPbftMsg 1 1 3) 0 0 (100 + a) a None.
Definition ex_cert_block : PbftBlock := mkPbftBlock 70 0 50 1 [].
Definition vm_of {A} (o : outcome (VoteManager * A)) : VoteManager := match o with Done (vm, _) => vm | _ => fresh_manager empty_db end.

Example validatePbftBlockCertVotes_sound_witness :
  validatePbftBlockCertVotes sample_cfg ex_vote_env 7 0 (fresh_manager empty_db) ex_cert_block [ex_cert 1; ex_cert 2; ex_cert 3] =
    Done (vm_of (validatePbftBlockCertVotes sample_cfg ex_vote_env 7 0 (fresh_manager empty_db) ex_cert_block
      [ex_cert 1; ex_cert 2; ex_cert 3]), true) /\
  exists q weighted, q <= u64 (sum_list_Z weight_of weighted) /\ length weighted = 3%nat.
Proof.
  assert (validatePbftBlockCertVotes sample_cfg ex_vote_env 7 0 (fresh_manager empty_db) ex_cert_block
    [ex_cert 1; ex_cert 2; ex_cert 3] = Done (vm_of (validatePbftBlockCertVotes sample_cfg ex_vote_env 7 0
      (fresh_manager empty_db) ex_cert_block [ex_cert 1; ex_cert 2; ex_cert 3]), true)) as E by (vm_compute; reflexivity).
  split; [exact E|].
  destruct (validatePbftBlockCertVotes_sound sample_cfg ex_vote_env 7 0 (fresh_manager empty_db) ex_cert_block
    [ex_cert 1; ex_cert 2; ex_cert 3] _ ltac:(done) E) as (r & weighted & q & _ & H2 & _ & Hq & _).
  exists q, weighted. split; [exact Hq|]. symmetry. exact (Forall2_length _ _ _ H2).
Defined.

(** The sum counts copies of a vote: where the threshold is three votes, three
    copies of one vote of weight one are accepted as a certificate although the vote
    manager stores a weight of one; and an empty list makes the code divide by zero
    before it checks for emptiness. *)
Theorem copies_of_a_vote_are_counted :
  let run := validatePbftBlockCertVotes sample_cfg ex_vote_env 7 0 (fresh_manager empty_db) ex_cert_block in
  (getPbftTwoTPlusOne sample_cfg (fun _ => Some 3) 0 (fresh_manager empty_db) 0 cert_vote).2 = Some 3 /\
  (exists vm, run [ex_cert 1; ex_cert 1; ex_cert 1] = Done (vm, true) /\
     weight (voted_at (verified_votes_ vm) 1 1 3 70) = 1 /\
     getTwoTPlusOneVotedBlock (verified_votes_ vm) 1 1 CertVotedBlock = None) /\
  run [] = Undefined.
Proof.
  intros run. split; [vm_compute; reflexivity|]. split; [|reflexivity].
  exists (vm_of (run [ex_cert 1; ex_cert 1; ex_cert 1])). split; [vm_compute; reflexivity|].
  split; vm_compute; reflexivity.
Qed.
