(* ===== verification/PbftPropose.v ===== *)
(** * The anchor of an own proposal

    [PbftManager::proposePbftBlock]: which DAG block a proposed PBFT block anchors, and
    how the order is cut when it does not fit into the gas limit of a period. *)

From S2P Require Import Prelude Votes PbftChain TransactionQueue PbftManager.
Local Open Scope Z_scope.
Local Open Scope outcome_scope.

(** The gas of the DAG blocks of an order. *)
Definition order_gas (env : Env) (order : list blk_hash_t) : Z :=
  sum_list_Z (fun h => default 0 (getDagBlockGas env h)) order.

Section propose.
Context (cfg : PbftMgrConfig) (env : Env).

Lemma blocks_included_spec limit order : forall total n,
  blocks_included env limit total order = Done n ->
  (n <= length order)%nat /\ (total <= limit -> total + order_gas env (take n order) <= limit) /\
  ((n < length order)%nat -> limit < total + order_gas env (take (S n) order)).
Proof.
  induction order as [|h order IH]; intros total n; cbn [blocks_included].
  - intros [= <-]. split_and!; [done|unfold order_gas; simpl; lia|simpl; lia].
  - destruct (getDagBlockGas env h) as [w|] eqn:Ew; [|done]. destruct (Z.ltb_spec limit (total + w)).
    + intros [= <-]. unfold order_gas. simpl. rewrite Ew. simpl. split_and!; lia.
    + destruct (blocks_included env limit (total + w) order) as [k| |] eqn:E; simpl; try done. intros [= <-].
      apply IH in E as (H1 & H2 & H3). unfold order_gas in *. split_and!.
      * simpl. lia.
      * intros _. simpl. rewrite Ew. simpl. specialize (H2 ltac:(lia)). lia.
      * simpl. intros Hk. specialize (H3 ltac:(lia)). rewrite Ew. simpl in *. lia.
Qed.

Lemma findClosestAnchor_spec ghost order n a :
  findClosestAnchor ghost order n = Done a ->
  (exists i, (i < n)%nat /\ order !! i = Some a /\ a ∈ ghost /\
     forall j h, (i < j < n)%nat -> order !! j = Some h -> h ∉ ghost) \/
  (ghost !! 1%nat = Some a /\ forall j h, (j < n)%nat -> order !! j = Some h -> h ∉ ghost).
Proof.
  induction n as [|n IH]; simpl.
  - destruct (ghost !! 1%nat); [|done]. intros [= ->]. right. split; [done|lia].
  - destruct (order !! n) as [h|] eqn:Eh; [|done]. case_decide as Hin.
    + intros [= ->]. left. exists n. split_and!; [lia|done|done|lia].
    + intros [(i & ? & ? & ? & Hj)|[? Hj]]%IH.
      * left. exists i. split_and!; [lia|done|done|]. intros j h' ? Hl.
        destruct (decide (j = n)) as [->|]; [congruence|]. apply (Hj j); [lia|done].
      * right. split; [done|]. intros j h' ? Hl. destruct (decide (j = n)) as [->|]; [congruence|]. apply (Hj j); [lia|done].
Qed.

Lemma skip_last_anchor_spec last l h : skip_last_anchor last l = Done h -> h ∈ l.
Proof.
  revert h. induction l as [|x l IH]; intros h; [done|]. simpl. destruct l as [|y l]; [intros [= ->]; by left|].
  destruct (x =? last); [intros ?%IH; by right|intros [= ->]; by left].
Qed.

Lemma ghost_anchor_spec ghost last h : ghost_anchor cfg ghost last = Done h -> h ∈ ghost.
Proof.
  unfold ghost_anchor. destruct (_ <=? _).
  - intros Hs%skip_last_anchor_spec. apply list_elem_of_lookup_1 in Hs as [i Hi].
    rewrite lookup_drop in Hi. by apply list_elem_of_lookup_2 in Hi.
  - destruct (ghost !! _) as [x|] eqn:E; [|done]. intros [= ->]. by apply list_elem_of_lookup_2 in E.
Qed.
End propose.

(** A validator wants to anchor a new block of its ghost path, or the block of the
    last level when the path has none.  It proposes this block with its DAG order if
    the order fits into the gas limit of the period; otherwise the anchor is the last block
    on the ghost path among those that fit, or the second block of the ghost path when
    none of those is on it. *)
Theorem choose_anchor_correct cfg env period last anchor order :
  0 <= pbft_gas_limit cfg period ->
  choose_anchor cfg env period last = Done (Some (anchor, order)) ->
  order = getDagBlockOrder env anchor period /\
  exists wanted, let full := getDagBlockOrder env wanted period in let ghost := getGhostPath env last in
    (wanted ∈ ghost /\ wanted <> last /\ wanted <> dag_genesis_block_hash_ cfg \/
     last_level_block env = Some wanted /\ last ∈ ghost) /\
    ((anchor = wanted /\ order_gas env order <= pbft_gas_limit cfg period) \/
     exists n, (n < length full)%nat /\
       order_gas env (take n full) <= pbft_gas_limit cfg period < order_gas env (take (S n) full) /\
       ((exists i, (i < n)%nat /\ full !! i = Some anchor /\ anchor ∈ ghost /\
           forall j h, (i < j < n)%nat -> full !! j = Some h -> h ∉ ghost) \/
        (ghost !! 1%nat = Some anchor /\ forall j h, (j < n)%nat -> full !! j = Some h -> h ∉ ghost))).
Proof.
  intros Hlim. unfold choose_anchor. set (ghost := getGhostPath env last).
  destruct ghost as [|g ghost'] eqn:Eg; [done|]. rewrite <- Eg.
  destruct (ghost_anchor cfg ghost last) as [d| |] eqn:Ed; simpl; try done. apply ghost_anchor_spec in Ed.
  match goal with |- context [match ?c with Some _ => _ | None => Done None end] => destruct c as [w|] eqn:Ew end; [|done].
  assert (w ∈ ghost /\ w <> last /\ w <> dag_genesis_block_hash_ cfg \/ last_level_block env = Some w /\ last ∈ ghost) as Hw.
  { destruct (Z.eqb_spec d (dag_genesis_block_hash_ cfg)); [done|].
    destruct (Z.eqb_spec d last) as [->|]; [by right|]. injection Ew as ->. by left. }
  case_bool_decide; simpl; [done|].
  destruct (blocks_included env _ 0 _) as [n| |] eqn:Ei; simpl; try done.
  apply blocks_included_spec in Ei as (Hn & Hfit & Hover). specialize (Hfit Hlim).
  destruct (decide (n = length _)) as [En|En].
  - intros [= <- <-]. split; [done|]. exists w. split; [done|]. left. split; [done|].
    rewrite En, firstn_all in Hfit. lia.
  - destruct (findClosestAnchor ghost _ n) as [c| |] eqn:Ec; simpl; try done. intros [= <- <-].
    split; [done|]. exists w. split; [done|]. right. exists n.
    assert (n < length (getDagBlockOrder env w period))%nat as Hlt by lia.
    specialize (Hover Hlt). split_and!; [done|lia|lia|]. by apply findClosestAnchor_spec.
Qed.

(** ** Concrete DAGs *)

Definition ex_pcfg : PbftMgrConfig :=
  mkPbftMgrConfig 1500 (fun _ => false) 1500 500 2000 10 10 (fun _ => false) 5000 10000 (fun _ => false)
    (fun _ => false) (fun _ => false) 2000000 (fun l => l) 30 0 (fun _ => 25) 1.

(** Every DAG block needs 10 gas; 3 is the block of the last level. *)
Definition ex_penv (ghost : list blk_hash_t) (order : blk_hash_t -> list blk_hash_t) : Env :=
  mkEnv 0 None (fun _ => Some 3) (fun _ => true) (fun _ _ _ _ _ _ => None) (fun _ => 0) None
    (fun _ _ _ => false) (fun v => getHash v) (fun _ => false) (fun _ => Some []) (fun _ _ _ => false)
    (fun _ => None) (fun _ _ _ _ p _ _ _ => mkPbftBlock 0 0 0 p []) (fun _ => ghost) (Some 3) (fun h _ => order h)
    (fun _ => Some 10) (fun _ => 0) (fun _ _ => true) 0 5
    (fun _ => false) (fun _ => []) (fun _ => None) (fun _ => Some []) (fun _ => []) (fun _ => None) None.

Example choose_anchor_correct_witness :
  choose_anchor ex_pcfg (ex_penv [2; 4; 6] (fun h => if h =? 6 then [4; 5; 6] else [4])) 1 2 = Done (Some (4, [4])) /\
  order_gas (ex_penv [2; 4; 6] (fun h => if h =? 6 then [4; 5; 6] else [4])) [4] <= 25.
Proof.
  split; [reflexivity|].
  destruct (choose_anchor_correct ex_pcfg (ex_penv [2; 4; 6] (fun h => if h =? 6 then [4; 5; 6] else [4])) 1 2 4 [4])
    as (-> & _); [done|reflexivity|]. vm_compute. congruence.
Defined.

(** When the ghost path is the anchor of the last period alone and the order of the
    block taken instead does not fit into the gas limit, the code reads the second
    element of the one element path. *)
Theorem proposal_reads_past_ghost_path :
  choose_anchor ex_pcfg (ex_penv [2] (fun _ => [7; 8; 3])) 1 2 = Undefined.
Proof. reflexivity. Qed.
