(* ===== verification/PillarVotes.v ===== *)
(** * Votes for pillar blocks

    [PillarVotes] (consensus/src/pillar_chain/pillar_votes.cpp): the verified votes
    for the pillar blocks of the last periods.  Hash maps are iterated in an order
    that is not specified: [iter] stands for it. *)

From S2P Require Import Prelude Votes.
Local Open Scope Z_scope.
Local Open Scope outcome_scope.

Record PillarVote := mkPillarVote {
  pv_period : PbftPeriod;
  pv_block_hash : blk_hash_t;
  pv_hash : vote_hash_t;
  pv_addr : addr_t;
}.

#[export] Instance PillarVote_eq_dec : EqDecision PillarVote.
Proof. solve_decision. Defined.

(** Votes for one pillar block with their weights, and the accumulated weight. *)
Record WeightVotes := mkWeightVotes {
  wv_votes : gmap vote_hash_t (PillarVote * Z);
  wv_weight : Z;
}.

Record PeriodVotes := mkPeriodVotes {
  pillar_block_votes : gmap blk_hash_t WeightVotes;
  pillar_unique_voters : gmap addr_t vote_hash_t;
  pillar_threshold : Z;
}.

Abbreviation PillarVotes := (gmap PbftPeriod PeriodVotes).

Definition voteExists (pv : PillarVotes) (vote : PillarVote) : bool :=
  match pv !! pv_period vote with
  | None => false
  | Some p =>
      match pillar_block_votes p !! pv_block_hash vote with
      | None => false
      | Some w => bool_decide (is_Some (wv_votes w !! pv_hash vote))
      end
  end.

Definition isUniquePillarVote (pv : PillarVotes) (vote : PillarVote) : bool :=
  match pv !! pv_period vote with
  | None => true
  | Some p =>
      match pillar_unique_voters p !! pv_addr vote with
      | None => true
      | Some h => h =? pv_hash vote
      end
  end.

(** Order of the multiset: higher weights first. *)
Definition weight_ge (a b : PillarVote * Z) : Prop := b.2 <= a.2.

#[export] Instance weight_ge_dec a b : Decision (weight_ge a b) := Z_le_dec b.2 a.2.
#[export] Instance weight_ge_trans : Transitive weight_ge.
Proof. intros a b c. unfold weight_ge. lia. Qed.
#[export] Instance weight_ge_total : Total weight_ge.
Proof. intros a b. unfold weight_ge. lia. Qed.

(** Votes are taken until their weights reach the threshold. *)
Fixpoint take_votes (threshold count : Z) (l : list (PillarVote * Z)) : list PillarVote :=
  match l with
  | [] => []
  | (v, w) :: rest =>
      let count := u64 (count + w) in
      v :: (if threshold <=? count then [] else take_votes threshold count rest)
  end.

Section store.
Context (iter : gmap vote_hash_t (PillarVote * Z) -> list (PillarVote * Z)).

Definition getVerifiedVotes (pv : PillarVotes) (period : PbftPeriod) (pillar_block_hash : blk_hash_t)
    (above_threshold : bool) : list PillarVote :=
  match pv !! period with
  | None => []
  | Some p =>
      match pillar_block_votes p !! pillar_block_hash with
      | None => []
      | Some w =>
          if above_threshold then
            if wv_weight w <? pillar_threshold p then []
            else take_votes (pillar_threshold p) 0 (merge_sort weight_ge (iter (wv_votes w)))
          else (iter (wv_votes w)).*1
      end
  end.
End store.

Definition periodDataInitialized (pv : PillarVotes) (period : PbftPeriod) : bool := bool_decide (is_Some (pv !! period)).

Definition no_pillar_votes : WeightVotes := mkWeightVotes ∅ 0.

(** The update of a period by a vote that is unique. *)
Definition add_to_period (p : PeriodVotes) (vote : PillarVote) (count : Z) : PeriodVotes :=
  let w := default no_pillar_votes (pillar_block_votes p !! pv_block_hash vote) in
  let w :=
    match wv_votes w !! pv_hash vote with
    | Some _ => w
    | None => mkWeightVotes (<[pv_hash vote := (vote, count)]> (wv_votes w)) (u64 (wv_weight w + count))
    end in
  mkPeriodVotes (<[pv_block_hash vote := w]> (pillar_block_votes p))
    (match pillar_unique_voters p !! pv_addr vote with
     | Some _ => pillar_unique_voters p
     | None => <[pv_addr vote := pv_hash vote]> (pillar_unique_voters p)
     end) (pillar_threshold p).

Definition pillar_addVerifiedVote (pv : PillarVotes) (vote : PillarVote) (validator_vote_count : Z) :
    outcome (PillarVotes * bool) :=
  match pv !! pv_period vote with
  | None => AssertFailed
  | Some p =>
      match pillar_unique_voters p !! pv_addr vote with
      | Some h => if negb (h =? pv_hash vote) then Done (pv, false)
                  else Done (<[pv_period vote := add_to_period p vote validator_vote_count]> pv, true)
      | None => Done (<[pv_period vote := add_to_period p vote validator_vote_count]> pv, true)
      end
  end.

(** [insert] keeps the entry that is already there. *)
Definition initializePeriodData (pv : PillarVotes) (period : PbftPeriod) (threshold : Z) : PillarVotes :=
  match pv !! period with
  | Some _ => pv
  | None => <[period := mkPeriodVotes ∅ ∅ threshold]> pv
  end.

Definition eraseVotes (pv : PillarVotes) (min_period : PbftPeriod) : PillarVotes :=
  filter (fun e => min_period <= e.1) pv.

(** ** Well-formedness *)

(** A vote is identified by its hash; [count] are the vote counts of the validators. *)
Record period_wf (count : addr_t -> Z) (period : PbftPeriod) (p : PeriodVotes) : Prop := {
  pw_vote bh w h v c : pillar_block_votes p !! bh = Some w -> wv_votes w !! h = Some (v, c) ->
    pv_period v = period /\ pv_block_hash v = bh /\ pv_hash v = h /\ c = count (pv_addr v) /\
    pillar_unique_voters p !! pv_addr v = Some h;
  pw_weight bh w : pillar_block_votes p !! bh = Some w -> wv_weight w = u64 (map_sum snd (wv_votes w));
  pw_voter a h : pillar_unique_voters p !! a = Some h -> exists bh w v c,
    pillar_block_votes p !! bh = Some w /\ wv_votes w !! h = Some (v, c) /\ pv_addr v = a;
}.

(** The votes of the store that agree on a hash are the same vote. *)
Definition hash_identifies (known : vote_hash_t -> PillarVote) (vote : PillarVote) : Prop := known (pv_hash vote) = vote.

Section wf.
Context (count : PbftPeriod -> addr_t -> Z) (known : vote_hash_t -> PillarVote).

(** The votes of a period. *)
Definition period_ok (p : PbftPeriod) (pd : PeriodVotes) : Prop := period_wf (count p) p pd /\
  forall bh w h v c, pillar_block_votes pd !! bh = Some w -> wv_votes w !! h = Some (v, c) -> hash_identifies known v.

Definition pillar_wf (pv : PillarVotes) : Prop := forall p pd, pv !! p = Some pd -> period_ok p pd.

Lemma initializePeriodData_wf pv p t : pillar_wf pv -> pillar_wf (initializePeriodData pv p t).
Proof.
  intros Hwf p' pd. unfold initializePeriodData. destruct (pv !! p) as [x|] eqn:E; [apply Hwf|].
  rewrite lookup_insert_Some. intros [[<- <-]|[_ ?]]; [|by apply Hwf].
  split; [split|]; simpl; intros *; rewrite lookup_empty; naive_solver.
Qed.

Lemma eraseVotes_wf pv p : pillar_wf pv -> pillar_wf (eraseVotes pv p).
Proof. intros Hwf p' pd [Hp _]%map_lookup_filter_Some. by apply Hwf. Qed.

(** A vote that is already stored is stored under its block. *)
Lemma stored_under p pd vote : period_wf (count p) p pd ->
  (forall bh w h v c, pillar_block_votes pd !! bh = Some w -> wv_votes w !! h = Some (v, c) -> hash_identifies known v) ->
  hash_identifies known vote -> pillar_unique_voters pd !! pv_addr vote = Some (pv_hash vote) ->
  exists w c, pillar_block_votes pd !! pv_block_hash vote = Some w /\ wv_votes w !! pv_hash vote = Some (vote, c).
Proof.
  intros Hwf Hk Hv Hu. destruct (pw_voter _ _ _ Hwf _ _ Hu) as (bh & w & v & c & Hb & Hw & _).
  pose proof (Hk _ _ _ _ _ Hb Hw) as Hkv. destruct (pw_vote _ _ _ Hwf _ _ _ _ _ Hb Hw) as (_ & <- & Hh & _).
  unfold hash_identifies in *. rewrite Hh, Hv in Hkv. subst v. eauto.
Qed.

Definition block_votes (pd : PeriodVotes) (bh : blk_hash_t) : WeightVotes :=
  default no_pillar_votes (pillar_block_votes pd !! bh).

Lemma block_votes_in pd bh h x :
  wv_votes (block_votes pd bh) !! h = Some x ->
  pillar_block_votes pd !! bh = Some (block_votes pd bh).
Proof. unfold block_votes. destruct (pillar_block_votes pd !! bh); simpl; [done|by rewrite lookup_empty]. Qed.

(** A known vote changes nothing. *)
Lemma add_known p pd vote c x :
  period_ok p pd -> hash_identifies known vote ->
  wv_votes (block_votes pd (pv_block_hash vote)) !! pv_hash vote = Some x -> add_to_period pd vote c = pd.
Proof.
  intros [Hpw Hk] Hv Hx. destruct x as [v0 c0]. pose proof (block_votes_in _ _ _ _ Hx) as Hb.
  destruct (pw_vote _ _ _ Hpw _ _ _ _ _ Hb Hx) as (_ & _ & Hh0 & _ & Hu0).
  pose proof (Hk _ _ _ _ _ Hb Hx) as Hk0. unfold hash_identifies in Hk0, Hv. rewrite Hh0, Hv in Hk0. subst v0.
  unfold add_to_period. fold (block_votes pd (pv_block_hash vote)). rewrite Hx, Hu0, insert_id by done. by destruct pd.
Qed.

(** A new vote of a new voter. *)
Lemma add_new_ok pd vote :
  period_ok (pv_period vote) pd -> hash_identifies known vote ->
  wv_votes (block_votes pd (pv_block_hash vote)) !! pv_hash vote = None -> pillar_unique_voters pd !! pv_addr vote = None ->
  period_ok (pv_period vote) (add_to_period pd vote (count (pv_period vote) (pv_addr vote))).
Proof.
  intros [Hpw Hk] Hv Ew Hu. unfold add_to_period. fold (block_votes pd (pv_block_hash vote)). rewrite Ew, Hu.
  set (w := block_votes pd (pv_block_hash vote)) in *. set (c := count (pv_period vote) (pv_addr vote)).
  assert (forall bh w1 h v x, <[pv_block_hash vote := mkWeightVotes (<[pv_hash vote := (vote, c)]> (wv_votes w))
      (u64 (wv_weight w + c))]> (pillar_block_votes pd) !! bh = Some w1 -> wv_votes w1 !! h = Some (v, x) ->
    (bh = pv_block_hash vote /\ h = pv_hash vote /\ v = vote /\ x = c) \/
    exists w0, pillar_block_votes pd !! bh = Some w0 /\ wv_votes w0 !! h = Some (v, x)) as Hcases.
  { intros bh w1 h v x. rewrite lookup_insert_Some. intros [[<- <-]|[_ ?]]; [|eauto]. simpl.
    rewrite lookup_insert_Some. intros [[<- [= <- <-]]|[_ Hx]]; [by left|]. right. eauto using block_votes_in. }
  split; [split|]; simpl.
  - intros bh w1 h v x Hb Hh. destruct (Hcases _ _ _ _ _ Hb Hh) as [(-> & -> & -> & ->)|(w0 & Hb0 & Hh0)].
    + split_and!; try done. by rewrite lookup_insert_eq.
    + destruct (pw_vote _ _ _ Hpw _ _ _ _ _ Hb0 Hh0) as (? & ? & ? & ? & Hux). split_and!; try done.
      rewrite lookup_insert_ne; [done|congruence].
  - intros bh w1. rewrite lookup_insert_Some. intros [[<- <-]|[_ ?]]; [|by eapply pw_weight]. simpl.
    rewrite map_sum_insert by done. simpl. unfold w, block_votes.
    destruct (pillar_block_votes pd !! pv_block_hash vote) as [w0|] eqn:E0; simpl.
    + rewrite (pw_weight _ _ _ Hpw _ _ E0), wrap_add_l. f_equal. lia.
    + rewrite map_sum_empty. by rewrite Z.add_0_r.
  - intros a h. rewrite lookup_insert_Some. intros [[<- <-]|[_ Ha]].
    + eexists _, _, _, _. rewrite lookup_insert_eq. split; [done|]. simpl. by rewrite lookup_insert_eq.
    + destruct (pw_voter _ _ _ Hpw _ _ Ha) as (bh & w0 & v & x & Hb & Hh & Ha').
      destruct (decide (bh = pv_block_hash vote)) as [->|Hne].
      * eexists _, _, v, x. rewrite lookup_insert_eq. split; [done|]. simpl. split; [|done].
        assert (w = w0) as -> by (unfold w, block_votes; by rewrite Hb). rewrite lookup_insert_ne; [done|congruence].
      * eexists bh, w0, v, x. by rewrite lookup_insert_ne.
  - intros bh w1 h v x Hb Hh. destruct (Hcases _ _ _ _ _ Hb Hh) as [(_ & _ & -> & _)|(w0 & Hb0 & Hh0)]; [done|].
    by eapply Hk.
Qed.

Lemma add_exists pv pd vote c : voteExists (<[pv_period vote := add_to_period pd vote c]> pv) vote = true.
Proof.
  unfold voteExists. rewrite lookup_insert_eq. unfold add_to_period. simpl. rewrite lookup_insert_eq.
  apply bool_decide_eq_true. fold (block_votes pd (pv_block_hash vote)).
  destruct (wv_votes (block_votes pd (pv_block_hash vote)) !! pv_hash vote) as [y|] eqn:Ey; [by rewrite Ey|].
  simpl. by rewrite lookup_insert_eq.
Qed.

Lemma pillar_addVerifiedVote_effect pv vote pv' ok :
  pillar_wf pv -> hash_identifies known vote ->
  pillar_addVerifiedVote pv vote (count (pv_period vote) (pv_addr vote)) = Done (pv', ok) ->
  pillar_wf pv' /\ (ok = true <-> voteExists pv' vote = true) /\
  (ok = true <-> isUniquePillarVote pv vote = true) /\ (ok = false -> pv' = pv).
Proof.
  intros Hwf Hv. unfold pillar_addVerifiedVote, isUniquePillarVote.
  destruct (pv !! pv_period vote) as [pd|] eqn:Ep; [|done]. pose proof (Hwf _ _ Ep : period_ok _ _) as Hok.
  set (pd' := add_to_period pd vote _).
  assert (pillar_unique_voters pd !! pv_addr vote = None \/ pillar_unique_voters pd !! pv_addr vote = Some (pv_hash vote) ->
    period_ok (pv_period vote) pd') as Hgo.
  { intros Hu. unfold pd'. destruct (wv_votes (block_votes pd (pv_block_hash vote)) !! pv_hash vote) as [x|] eqn:Ew.
    - by rewrite (add_known _ _ _ _ _ Hok Hv Ew).
    - apply add_new_ok; try done. destruct Hu as [Hu|Hu]; [done|]. destruct Hok as [Hpw Hk].
      destruct (stored_under _ _ _ Hpw Hk Hv Hu) as (w1 & c1 & Hb & Hh). unfold block_votes in Ew. rewrite Hb in Ew.
      simpl in Ew. congruence. }
  assert (period_ok (pv_period vote) pd' -> pillar_wf (<[pv_period vote := pd']> pv)) as Hins.
  { intros Hpd p q. rewrite lookup_insert_Some. intros [[<- <-]|[_ ?]]; [done|by apply Hwf]. }
  destruct (pillar_unique_voters pd !! pv_addr vote) as [h|] eqn:Eu.
  - destruct (Z.eqb_spec h (pv_hash vote)) as [->|Hne]; simpl; intros [= <- <-].
    + split_and!; [auto|split; [intros _; apply add_exists|done]|done|done].
    + split_and!; [done| |done|done]. split; [done|]. unfold voteExists. rewrite Ep.
      destruct (pillar_block_votes pd !! pv_block_hash vote) as [w|] eqn:Eb; [|done]. intros Hex%bool_decide_eq_true.
      destruct Hex as [[v c] Hw]. destruct Hok as [Hpw Hk]. destruct (pw_vote _ _ _ Hpw _ _ _ _ _ Eb Hw) as (_ & _ & Hh & _ & Hu).
      pose proof (Hk _ _ _ _ _ Eb Hw) as Hkv. unfold hash_identifies in *. rewrite Hh, Hv in Hkv. subst v. congruence.
  - intros [= <- <-]. split_and!; [auto|split; [intros _; apply add_exists|done]|done|done].
Qed.
End wf.

(** ** Sums of votes *)

(** Among the parts of a list sorted by weight, the first elements weigh most. *)
Lemma sum_top {A} (f : A -> Z) (l part : list A) n :
  StronglySorted (fun a b => f b <= f a) l -> Forall (fun x => 0 <= f x) l -> part ⊆+ l -> (length part <= n)%nat ->
  sum_list_Z f part <= sum_list_Z f (take n l).
Proof.
  intros Hs Hf. revert part n. induction Hs as [|x l Hs IH Hx]; intros part n Hp Hn.
  { apply submseteq_nil_r in Hp as ->. by destruct n. }
  apply Forall_cons in Hf as [Hx0 Hf]. specialize (IH Hf). destruct n as [|n]; [by destruct part; [|simpl in Hn; lia]|].
  apply submseteq_cons_r in Hp as [Hp|(part' & Hperm & Hp)].
  - destruct part as [|y part]; simpl.
    + specialize (IH [] n ltac:(apply submseteq_nil_l) ltac:(simpl; lia)). simpl in IH. lia.
    + assert (f y <= f x) as Hy.
      { rewrite Forall_forall in Hx. apply Hx. eapply elem_of_submseteq; [|exact Hp]. by left. }
      assert (part ⊆+ l) as Hp' by (etrans; [|exact Hp]; by apply submseteq_cons).
      specialize (IH part n Hp' ltac:(simpl in Hn; lia)). lia.
  - assert (sum_list_Z f part = f x + sum_list_Z f part') as ->.
    { rewrite (sum_list_Z_perm f _ _ Hperm). done. }
    assert (length part = S (length part')) as Hl by (by rewrite Hperm). simpl. specialize (IH part' n Hp ltac:(lia)). lia.
Qed.

Definition vote_weights (l : list (PillarVote * Z)) : Z := sum_list_Z snd l.

(** [take_votes] takes the shortest prefix that reaches the threshold. *)
Lemma take_votes_prefix t l : forall c,
  0 <= c -> Forall (fun x => 0 <= x.2) l -> c < t -> t <= c + vote_weights l -> c + vote_weights l < 2 ^ 64 ->
  exists k, (k < length l)%nat /\ take_votes t c l = (take (S k) l).*1 /\
    t <= c + vote_weights (take (S k) l) /\ c + vote_weights (take k l) < t.
Proof.
  unfold vote_weights. induction l as [|[v w] l IH]; intros c Hc Hf Ht Hge Hlt; simpl in *; [lia|].
  apply Forall_cons in Hf as [Hw Hf]. simpl in Hw.
  assert (0 <= sum_list_Z snd l) as Hnn by (by apply sum_list_Z_nonneg, Forall_forall).
  rewrite wrap_id by (unfold in_range, modulus; lia). destruct (Z.leb_spec t (c + w)).
  - exists 0%nat. split_and!; [lia| |simpl; lia|simpl; lia]. by rewrite take_0.
  - destruct (IH (c + w)) as (k & Hk & Ek & H1 & H2); [lia|done|lia|lia|lia|]. exists (S k).
    assert (forall n, sum_list_Z snd (take (S n) ((v, w) :: l)) = w + sum_list_Z snd (take n l)) as Etake by done.
    rewrite !Etake. split_and!; [lia| |lia|lia]. rewrite Ek. done.
Qed.

(** ** Reachable stores *)

Section reachable.
Context (count : PbftPeriod -> addr_t -> Z) (total : PbftPeriod -> Z) (known : vote_hash_t -> PillarVote).

(** The DPOS contract: vote counts of distinct validators add up to at most the total. *)
Definition counts_ok : Prop :=
  (forall p a, 0 <= count p a) /\ (forall p l, NoDup l -> sum_list_Z (count p) l <= total p) /\ (forall p, total p < 2 ^ 64).

(** What the pillar chain manager does with the store. *)
Inductive pillar_step : PillarVotes -> PillarVotes -> Prop :=
| pillar_init pv p : pillar_step pv (initializePeriodData pv p (total p / 2 + 1))
| pillar_add pv vote pv' ok :
    hash_identifies known vote ->
    pillar_addVerifiedVote pv vote (count (pv_period vote) (pv_addr vote)) = Done (pv', ok) -> pillar_step pv pv'
| pillar_erase pv p : pillar_step pv (eraseVotes pv p).

Definition pillar_inv (pv : PillarVotes) : Prop :=
  pillar_wf count known pv /\ forall p pd, pv !! p = Some pd -> pillar_threshold pd = total p / 2 + 1.

Lemma pillar_step_inv pv pv' : pillar_inv pv -> pillar_step pv pv' -> pillar_inv pv'.
Proof.
  intros [Hwf Ht] Hs. destruct Hs as [pv p|pv vote pv' ok Hv Ha|pv p].
  - split; [by apply initializePeriodData_wf|]. intros p' pd. unfold initializePeriodData.
    destruct (pv !! p); [apply Ht|]. rewrite lookup_insert_Some. intros [[<- <-]|[_ ?]]; [done|by apply Ht].
  - split; [by apply (pillar_addVerifiedVote_effect _ _ _ _ _ _ Hwf Hv Ha)|]. revert Ha. unfold pillar_addVerifiedVote.
    destruct (pv !! pv_period vote) as [pd|] eqn:Ep; [|done]. intros Ha p q.
    assert (pv' = pv \/ pv' = <[pv_period vote := add_to_period pd vote (count (pv_period vote) (pv_addr vote))]> pv) as [->| ->]
      by (destruct (pillar_unique_voters pd !! _) as [h|]; [destruct (negb _)|]; injection Ha as <- <-; auto); [apply Ht|].
    rewrite lookup_insert_Some. intros [[<- <-]|[_ ?]]; [|by apply Ht]. simpl. by apply Ht.
  - split; [by apply eraseVotes_wf|]. intros p' pd [Hp _]%map_lookup_filter_Some. by apply Ht.
Qed.

Lemma pillar_reach_inv pv : rtc pillar_step ∅ pv -> pillar_inv pv.
Proof.
  assert (pillar_inv ∅) as H0 by (split; intros p pd; by rewrite lookup_empty). revert H0. intros H0 Hr.
  induction Hr as [pv|pv pv1 pv2 Hs _ IH]; [done|]. by apply IH, (pillar_step_inv pv).
Qed.

(** The voters of a pillar block. *)
Definition voters (w : WeightVotes) : list addr_t := (fun x => pv_addr x.2.1) <$> map_to_list (wv_votes w).

Lemma voters_weight p pd bh w :
  period_wf (count p) p pd -> pillar_block_votes pd !! bh = Some w ->
  map_sum snd (wv_votes w) = sum_list_Z (count p) (voters w).
Proof.
  intros Hpw Hb. rewrite map_sum_list. unfold voters.
  assert (forall l, (forall x, x ∈ l -> wv_votes w !! x.1 = Some x.2) ->
    sum_list_Z snd l.*2 = sum_list_Z (count p) ((fun x => pv_addr x.2.1) <$> l)) as Hgen.
  { induction l as [|[h [v c]] l IH]; intros Hl; [done|].
    change (c + sum_list_Z snd l.*2 = count p (pv_addr v) + sum_list_Z (count p) ((fun x => pv_addr x.2.1) <$> l)).
    rewrite IH by (intros x Hx; apply Hl; by right).
    destruct (pw_vote _ _ _ Hpw _ _ _ _ _ Hb (Hl (h, (v, c)) ltac:(by left))) as (_ & _ & _ & -> & _). done. }
  apply Hgen. intros [h x] Hx. by apply elem_of_map_to_list.
Qed.

Lemma voters_NoDup p pd bh w : period_wf (count p) p pd -> pillar_block_votes pd !! bh = Some w -> NoDup (voters w).
Proof.
  intros Hpw Hb. unfold voters. apply NoDup_fmap_2_strong; [|apply NoDup_map_to_list].
  intros [h1 [v1 c1]] [h2 [v2 c2]] H1%elem_of_map_to_list H2%elem_of_map_to_list. simpl. intros Ha.
  destruct (pw_vote _ _ _ Hpw _ _ _ _ _ Hb H1) as (_ & _ & _ & _ & U1).
  destruct (pw_vote _ _ _ Hpw _ _ _ _ _ Hb H2) as (_ & _ & _ & _ & U2). rewrite Ha in U1.
  assert (h1 = h2) as -> by congruence. congruence.
Qed.

Lemma voters_disjoint p pd bh1 w1 bh2 w2 a :
  period_ok count known p pd -> pillar_block_votes pd !! bh1 = Some w1 -> pillar_block_votes pd !! bh2 = Some w2 ->
  a ∈ voters w1 -> a ∈ voters w2 -> bh1 = bh2.
Proof.
  intros [Hpw Hk] Hb1 Hb2 H1 H2.
  apply list_elem_of_fmap in H1 as ([h1 [v1 c1]] & -> & H1%elem_of_map_to_list).
  apply list_elem_of_fmap in H2 as ([h2 [v2 c2]] & Ha & H2%elem_of_map_to_list). simpl in Ha.
  destruct (pw_vote _ _ _ Hpw _ _ _ _ _ Hb1 H1) as (_ & E1 & P1 & _ & U1).
  destruct (pw_vote _ _ _ Hpw _ _ _ _ _ Hb2 H2) as (_ & E2 & P2 & _ & U2). rewrite Ha in U1.
  assert (h1 = h2) as Eh by congruence.
  pose proof (Hk _ _ _ _ _ Hb1 H1) as K1. pose proof (Hk _ _ _ _ _ Hb2 H2) as K2. unfold hash_identifies in *.
  assert (v1 = v2) as Ev by congruence. congruence.
Qed.

Lemma block_weight p pd bh w :
  counts_ok -> period_wf (count p) p pd -> pillar_block_votes pd !! bh = Some w ->
  wv_weight w = sum_list_Z (count p) (voters w).
Proof.
  intros (Hnn & Hsum & Htot) Hpw Hb. rewrite (pw_weight _ _ _ Hpw _ _ Hb), (voters_weight _ _ _ _ Hpw Hb).
  apply wrap_id. unfold in_range, modulus. split; [apply sum_list_Z_nonneg; intros; apply Hnn|].
  specialize (Hsum p (voters w) (voters_NoDup _ _ _ _ Hpw Hb)). specialize (Htot p). lia.
Qed.

Lemma one_above_threshold pv p pd bh1 w1 bh2 w2 :
  counts_ok -> pillar_inv pv -> pv !! p = Some pd ->
  pillar_block_votes pd !! bh1 = Some w1 -> pillar_block_votes pd !! bh2 = Some w2 ->
  pillar_threshold pd <= wv_weight w1 -> pillar_threshold pd <= wv_weight w2 -> bh1 = bh2.
Proof.
  intros Hc [Hwf Ht] Hp Hb1 Hb2 Hw1 Hw2. destruct (decide (bh1 = bh2)) as [|Hne]; [done|exfalso].
  pose proof (Hwf _ _ Hp) as Hok. pose proof Hok as [Hpw _]. rewrite (Ht _ _ Hp) in Hw1, Hw2.
  rewrite (block_weight _ _ _ _ Hc Hpw Hb1) in Hw1. rewrite (block_weight _ _ _ _ Hc Hpw Hb2) in Hw2.
  destruct Hc as (_ & Hsum & _).
  assert (sum_list_Z (count p) (voters w1 ++ voters w2) <= total p) as Hs.
  { apply Hsum, NoDup_app. split_and!; [by eapply voters_NoDup| |by eapply voters_NoDup].
    intros a H1 H2. apply Hne. by eapply voters_disjoint. }
  rewrite sum_list_Z_app in Hs. pose proof (Z.div_mod (total p) 2). pose proof (Z.mod_pos_bound (total p) 2). lia.
Qed.
End reachable.

(** ** Properties *)

(** C20: Pillar chain consensus is safe: in every store that pillar votes can produce,
    at most one pillar block per period has votes of at least the threshold of more than
    half of the total vote count. *)
Theorem at_most_one_pillar_block count total known iter pv p bh1 bh2 :
  counts_ok count total -> rtc (pillar_step count total known) ∅ pv ->
  getVerifiedVotes iter pv p bh1 true <> [] -> getVerifiedVotes iter pv p bh2 true <> [] -> bh1 = bh2.
Proof.
  intros Hc Hr H1 H2. pose proof (pillar_reach_inv _ _ _ _ Hr) as Hinv. unfold getVerifiedVotes in *.
  destruct (pv !! p) as [pd|] eqn:Ep; [|done].
  destruct (pillar_block_votes pd !! bh1) as [w1|] eqn:E1; [|done].
  destruct (pillar_block_votes pd !! bh2) as [w2|] eqn:E2; [|done].
  destruct (Z.ltb_spec (wv_weight w1) (pillar_threshold pd)); [done|].
  destruct (Z.ltb_spec (wv_weight w2) (pillar_threshold pd)); [done|].
  by apply (one_above_threshold count total known pv p pd bh1 w1 bh2 w2).
Qed.

(** The votes with which a pillar block is finalized are stored votes for it in a
    reachable store, their vote counts reach the threshold, and no smaller number of stored
    votes does: every part of the stored votes that reaches the threshold has at least as
    many votes.  This holds for every iteration order of the hash map. *)
Theorem getVerifiedVotes_minimal count total known iter pv p bh :
  counts_ok count total -> rtc (pillar_step count total known) ∅ pv ->
  (forall m, iter m ≡ₚ (map_to_list m).*2) -> getVerifiedVotes iter pv p bh true <> [] ->
  exists pd w taken, pv !! p = Some pd /\ pillar_block_votes pd !! bh = Some w /\
    getVerifiedVotes iter pv p bh true = taken.*1 /\ taken ⊆+ (map_to_list (wv_votes w)).*2 /\
    pillar_threshold pd <= vote_weights taken /\
    forall part, part ⊆+ (map_to_list (wv_votes w)).*2 -> pillar_threshold pd <= vote_weights part ->
      (length taken <= length part)%nat.
Proof.
  intros Hc Hr Hiter. pose proof (pillar_reach_inv _ _ _ _ Hr) as [Hwf Ht]. unfold getVerifiedVotes.
  destruct (pv !! p) as [pd|] eqn:Ep; [|done]. destruct (pillar_block_votes pd !! bh) as [w|] eqn:Eb; [|done].
  destruct (Z.ltb_spec (wv_weight w) (pillar_threshold pd)) as [|Hge]; [done|]. intros _.
  destruct (Hwf _ _ Ep) as [Hpw _]. set (l := merge_sort weight_ge (iter (wv_votes w))).
  assert (l ≡ₚ (map_to_list (wv_votes w)).*2) as Hperm by (unfold l; by rewrite merge_sort_Permutation).
  assert (vote_weights l = wv_weight w) as Hlw.
  { unfold vote_weights. rewrite (sum_list_Z_perm _ _ _ Hperm), <- map_sum_list, (voters_weight count _ _ _ _ Hpw Eb).
    symmetry. by eapply block_weight. }
  assert (0 < pillar_threshold pd) as Hpos.
  { rewrite (Ht _ _ Ep). destruct Hc as (_ & Hs & _). specialize (Hs p [] (NoDup_nil_2)). simpl in Hs.
    pose proof (Z.div_pos (total p) 2). lia. }
  assert (Forall (fun x => 0 <= x.2) l) as Hnn.
  { apply Forall_forall. intros [v c] Hx. rewrite Hperm in Hx.
    apply list_elem_of_fmap in Hx as ([h y] & -> & Hx%elem_of_map_to_list). simpl.
    destruct y as [v' c']. destruct (pw_vote _ _ _ Hpw _ _ _ _ _ Eb Hx) as (_ & _ & _ & -> & _). apply Hc. }
  assert (wv_weight w < 2 ^ 64) as Hlt.
  { rewrite (block_weight count total _ _ _ _ Hc Hpw Eb). destruct Hc as (_ & Hs & Htot).
    specialize (Hs p (voters w) (voters_NoDup _ _ _ _ _ Hpw Eb)). specialize (Htot p). lia. }
  destruct (take_votes_prefix (pillar_threshold pd) l 0) as (k & Hk & Etake & Hreach & Hshort); [lia|done|lia|lia|lia|].
  exists pd, w, (take (S k) l). split_and!; [done|done|done| |lia|].
  - rewrite <- Hperm. apply sublist_submseteq, sublist_take.
  - intros part Hpart Hpt. rewrite length_take_le by lia. destruct (decide (S k <= length part)%nat) as [|Hn]; [done|].
    exfalso. rewrite <- Hperm in Hpart.
    assert (StronglySorted (fun a b : PillarVote * Z => b.2 <= a.2) l) as Hs.
    { apply (StronglySorted_merge_sort weight_ge). }
    pose proof (sum_top snd l part k Hs Hnn Hpart ltac:(lia)). unfold vote_weights in *. lia.
Qed.

(** ** A concrete store *)

Definition ex_count (p : PbftPeriod) (a : addr_t) : Z := if bool_decide (a ∈ [1; 2; 3]) then a else 0.
Definition ex_pillar_vote (a bh : Z) : PillarVote := mkPillarVote 11 bh (100 * a + bh) a.
Definition ex_known (h : vote_hash_t) : PillarVote := mkPillarVote 11 (h mod 100) h (h / 100).
Definition ex_pillar_add (pv : PillarVotes) (v : PillarVote) : PillarVotes :=
  match pillar_addVerifiedVote pv v (ex_count (pv_period v) (pv_addr v)) with Done (pv', _) => pv' | _ => pv end.
Definition ex_pillar_store : PillarVotes :=
  foldl ex_pillar_add (initializePeriodData ∅ 11 (6 / 2 + 1)) [ex_pillar_vote 1 7; ex_pillar_vote 3 7; ex_pillar_vote 2 8].
Definition ex_iter (m : gmap vote_hash_t (PillarVote * Z)) : list (PillarVote * Z) := (map_to_list m).*2.

Lemma ex_counts_ok : counts_ok ex_count (fun _ => 6).
Proof.
  split_and!; [|intros p l Hl|done].
  - intros p a. unfold ex_count. case_bool_decide as H; [|done]. set_unfold. lia.
  - revert Hl. change (NoDup l -> sum_list_Z (ex_count 0) l <= 6). intros Hl.
    assert (sum_list_Z (ex_count 0) l <= sum_list_Z (ex_count 0) (filter (fun a => a ∈ [1; 2; 3]) l)) as H1.
    { clear Hl. induction l as [|x l IH]; [done|]. rewrite filter_cons. unfold sum_list_Z in *. simpl.
      case_decide as D; simpl; [lia|]. unfold ex_count at 1. rewrite bool_decide_false by done. lia. }
    assert (filter (fun a => a ∈ [1; 2; 3]) l ⊆+ [3; 2; 1]) as Hsub.
    { apply NoDup_submseteq; [by apply NoDup_filter|]. intros x [Hx _]%list_elem_of_filter. set_solver. }
    assert (forall a b, Forall (fun x => 0 <= ex_count 0 x) b -> a ⊆+ b -> sum_list_Z (ex_count 0) a <= sum_list_Z (ex_count 0) b) as Hmono.
    { intros a b Hb (c & Hp)%submseteq_Permutation. rewrite (sum_list_Z_perm _ _ _ Hp), sum_list_Z_app.
      assert (0 <= sum_list_Z (ex_count 0) c); [|lia]. apply sum_list_Z_nonneg. intros x Hx.
      rewrite Forall_forall in Hb. apply Hb. rewrite Hp. set_solver. }
    transitivity (sum_list_Z (ex_count 0) [3; 2; 1]); [|vm_compute; congruence].
    etrans; [exact H1|]. apply Hmono; [|done]. repeat constructor; vm_compute; congruence.
Qed.

Lemma ex_pillar_add_reach pv v :
  hash_identifies ex_known v -> rtc (pillar_step ex_count (fun _ => 6) ex_known) ∅ pv ->
  rtc (pillar_step ex_count (fun _ => 6) ex_known) ∅ (ex_pillar_add pv v).
Proof.
  intros Hv Hr. unfold ex_pillar_add. destruct (pillar_addVerifiedVote _ _ _) as [[pv' ok]| |] eqn:E; [|done..].
  eapply rtc_r; [exact Hr|]. by eapply pillar_add.
Qed.

Lemma ex_pillar_reachable : rtc (pillar_step ex_count (fun _ => 6) ex_known) ∅ ex_pillar_store.
Proof.
  do 3 (apply ex_pillar_add_reach; [vm_compute; reflexivity|]).
  apply rtc_once. apply (pillar_init ex_count (fun _ => 6) ex_known ∅ 11).
Qed.

Example getVerifiedVotes_minimal_witness :
  getVerifiedVotes ex_iter ex_pillar_store 11 7 true = [ex_pillar_vote 3 7; ex_pillar_vote 1 7] /\
  exists pd w taken, ex_pillar_store !! 11 = Some pd /\ pillar_block_votes pd !! 7 = Some w /\ pillar_threshold pd <= vote_weights taken.
Proof.
  split; [vm_compute; reflexivity|].
  destruct (getVerifiedVotes_minimal ex_count (fun _ => 6) ex_known ex_iter ex_pillar_store 11 7 ex_counts_ok ex_pillar_reachable)
    as (pd & w & taken & Hpd & Hw & _ & _ & Ht & _); [done|vm_compute; congruence|].
  exists pd, w, taken. exact (conj Hpd (conj Hw Ht)).
Defined.

Example at_most_one_pillar_block_witness :
  getVerifiedVotes ex_iter ex_pillar_store 11 7 true <> [] /\ getVerifiedVotes ex_iter ex_pillar_store 11 8 true = [] /\ 7 = 7.
Proof.
  assert (getVerifiedVotes ex_iter ex_pillar_store 11 7 true <> []) as H by (vm_compute; congruence).
  split; [exact H|]. split; [vm_compute; reflexivity|].
  exact (at_most_one_pillar_block ex_count (fun _ => 6) ex_known ex_iter ex_pillar_store 11 7 7 ex_counts_ok ex_pillar_reachable H H).
Defined.
