(* ===== verification/PillarChain.v ===== *)
(** * The pillar chain

    [PillarChainManager] (consensus/src/pillar_chain/pillar_chain_manager.cpp) and the
    periods of [FicusHardforkConfig] (config/src/hardfork.cpp): pillar blocks with the
    changes of the validators' vote counts, the votes for them and their finalization.
    The DPOS contract, signatures, block hashes and the votes of old periods in the
    database are arguments. *)

From S2P Require Import Prelude Votes PillarVotes.
Local Open Scope Z_scope.
Local Open Scope outcome_scope.

(** ** Periods *)

Record FicusHardforkConfig := mkFicusHardforkConfig {
  ficus_block_num : Z;
  pillar_blocks_interval : Z;
}.

Section ficus.
Context (hf : FicusHardforkConfig).

Definition isFicusHardfork (period : PbftPeriod) : bool := ficus_block_num hf <=? period.

Definition firstPillarBlockPeriod : PbftPeriod :=
  if ficus_block_num hf =? 0 then pillar_blocks_interval hf else ficus_block_num hf.

Definition isPillarBlockPeriod (period : PbftPeriod) (skip_first_pillar_block : bool) : bool :=
  (ficus_block_num hf <=? period) &&
  (u64 (firstPillarBlockPeriod + (if skip_first_pillar_block then 1 else 0) * pillar_blocks_interval hf) <=? period) &&
  (period mod pillar_blocks_interval hf =? 0).

Definition isPbftWithPillarBlockPeriod (period : PbftPeriod) : bool :=
  (firstPillarBlockPeriod <=? period) && (period mod pillar_blocks_interval hf =? 1).

(** [false] is the exception. *)
Definition ficus_validate (delegation_delay : Z) : bool :=
  if ficus_block_num hf =? max_u64 then true
  else if ficus_block_num hf <? delegation_delay then false
  else if pillar_blocks_interval hf <=? 1 then false
  else ficus_block_num hf mod pillar_blocks_interval hf =? 0.
End ficus.

(** ** Data *)

Record PillarBlock := mkPillarBlock {
  pbft_period_ : PbftPeriod;
  state_root_ : Z;
  previous_pillar_block_hash_ : blk_hash_t;
  bridge_root_ : Z;
  epoch_ : Z;
  validators_votes_count_changes_ : list (addr_t * Z);
}.

#[export] Instance PillarBlock_eq_dec : EqDecision PillarBlock.
Proof. solve_decision. Defined.

Inductive pillar_call :=
| SaveOwnPillarVote (vote : PillarVote)
| GossipPillarVote (vote : PillarVote)
| RequestPillarVotesBundle (period : PbftPeriod) (hash : blk_hash_t)
| PillarBlockFinalized (block : PillarBlock) (votes : list PillarVote).

Record PillarChainManager := mkPillarChainManager {
  last_finalized_pillar_block_ : option PillarBlock;
  current_pillar_block_ : option PillarBlock;
  current_pillar_block_vote_counts_ : list (addr_t * Z);
  pillar_votes_ : PillarVotes;
  db_current_pillar_block : option (PillarBlock * list (addr_t * Z));
  db_pillar_blocks : gmap PbftPeriod PillarBlock;
  pillar_calls : list pillar_call;
}.

(** The answers of the final chain, the database and the cryptography. *)
Record PillarEnv := mkPillarEnv {
  pe_dposIsEligible : PbftPeriod -> addr_t -> option bool;         (* [None]: ErrFutureBlock *)
  pe_dposVoteCount : PbftPeriod -> addr_t -> option Z;
  pe_dposTotal : PbftPeriod -> option Z;
  pe_voteCounts : PbftPeriod -> list (addr_t * Z);
  pe_verifyVote : PillarVote -> bool;
  pe_period_votes : PbftPeriod -> list PillarVote;
  pe_network : bool;
}.

Definition set_pillar_votes (m : PillarChainManager) (v : PillarVotes) : PillarChainManager :=
  mkPillarChainManager (last_finalized_pillar_block_ m) (current_pillar_block_ m) (current_pillar_block_vote_counts_ m) v
    (db_current_pillar_block m) (db_pillar_blocks m) (pillar_calls m).

Definition pillar_call_log (m : PillarChainManager) (c : pillar_call) : PillarChainManager :=
  mkPillarChainManager (last_finalized_pillar_block_ m) (current_pillar_block_ m) (current_pillar_block_vote_counts_ m)
    (pillar_votes_ m) (db_current_pillar_block m) (db_pillar_blocks m) (pillar_calls m ++ [c]).

(** ** Vote count changes *)

(** [transformToMap]: the first entry of an address stays. *)
Definition transformToMap (vote_counts : list (addr_t * Z)) : gmap addr_t Z :=
  foldl (fun m e => match m !! e.1 with Some _ => m | None => <[e.1 := e.2]> m end) ∅ vote_counts.

(** The first loop: validators with a current vote count. *)
Definition current_change (previous : gmap addr_t Z) (e : addr_t * Z) : option Z :=
  match previous !! e.1 with
  | None => Some (to_signed 32 e.2)
  | Some p => let change := to_signed 64 (u64 (e.2 - p)) in if change =? 0 then None else Some (to_signed 32 change)
  end.

Definition getOrderedValidatorsVoteCountsChanges (current_vote_counts previous_vote_counts : list (addr_t * Z)) :
    outcome (list (addr_t * Z)) :=
  let* _ := oassert (negb (bool_decide (previous_vote_counts = []))) in
  let current := transformToMap current_vote_counts in
  let previous := transformToMap previous_vote_counts in
  let changes := foldl (fun m e => match current_change previous e with Some c => <[e.1 := c]> m | None => m end)
    (∅ : gmap addr_t Z) (map_to_list current) in
  let left := filter (fun e : addr_t * Z => current !! e.1 = None) previous in
  let changes := foldl (fun m e => match m !! e.1 with Some _ => m | None => <[e.1 := to_signed 32 (- to_signed 32 e.2)]> m end)
    changes (map_to_list left) in
  Done (map_items changes).

(** ** The manager *)

Section manager.
Context (hf : FicusHardforkConfig) (block_hash : PillarBlock -> blk_hash_t)
  (iter : gmap vote_hash_t (PillarVote * Z) -> list (PillarVote * Z)).

Definition getPillarConsensusThreshold (env : PillarEnv) (period : PbftPeriod) : option Z :=
  (fun total => u64 (total / 2 + 1)) <$> pe_dposTotal env period.

Definition isPillarBlockLatestFinalized (m : PillarChainManager) (h : blk_hash_t) : bool :=
  match last_finalized_pillar_block_ m with Some b => block_hash b =? h | None => false end.

Definition isValidPillarBlock (m : PillarChainManager) (b : PillarBlock) : outcome bool :=
  if pbft_period_ b =? firstPillarBlockPeriod hf then Done true
  else
    match last_finalized_pillar_block_ m with
    | None => AssertFailed
    | Some l => Done ((u64 (pbft_period_ b - pillar_blocks_interval hf) =? pbft_period_ l) &&
                      (previous_pillar_block_hash_ b =? block_hash l))
    end.

Definition saveNewPillarBlock (m : PillarChainManager) (b : PillarBlock) (counts : list (addr_t * Z)) : PillarChainManager :=
  mkPillarChainManager (last_finalized_pillar_block_ m) (Some b) counts (pillar_votes_ m) (Some (b, counts))
    (db_pillar_blocks m) (pillar_calls m).

Definition createPillarBlock (env : PillarEnv) (m : PillarChainManager) (period : PbftPeriod) (state_root bridge_root bridge_epoch : Z) :
    outcome (PillarChainManager * option PillarBlock) :=
  let new_vote_counts := pe_voteCounts env period in
  let* (previous_pillar_block_hash, changes) :=
    (if period =? firstPillarBlockPeriod hf then Done (0, (fun e => (e.1, to_signed 32 e.2)) <$> new_vote_counts)
     else
       match last_finalized_pillar_block_ m with
       | None => AssertFailed
       | Some l =>
           let* changes := getOrderedValidatorsVoteCountsChanges new_vote_counts (current_pillar_block_vote_counts_ m) in
           Done (block_hash l, changes)
       end) in
  let b := mkPillarBlock period state_root previous_pillar_block_hash bridge_root bridge_epoch changes in
  let* valid := isValidPillarBlock m b in
  if negb valid then Done (m, None) else Done (saveNewPillarBlock m b new_vote_counts, Some b).

Definition addVerifiedPillarVote (env : PillarEnv) (m : PillarChainManager) (vote : PillarVote) : outcome (PillarChainManager * Z) :=
  match pe_dposVoteCount env (u64 (pv_period vote - 1)) (pv_addr vote) with
  | None => Done (m, 0)
  | Some count =>
      if count =? 0 then Done (m, 0)
      else
        let initialized :=
          if periodDataInitialized (pillar_votes_ m) (pv_period vote) then Some m
          else
            match getPillarConsensusThreshold env (u64 (pv_period vote - 1)) with
            | None => None
            | Some t => Some (set_pillar_votes m (initializePeriodData (pillar_votes_ m) (pv_period vote) t))
            end in
        match initialized with
        | None => Done (m, 0)
        | Some m =>
            let* (v, added) := pillar_addVerifiedVote (pillar_votes_ m) vote count in
            if negb added then Done (m, 0) else Done (set_pillar_votes m v, count)
        end
  end.

(** [vote] is the signed vote of the wallet. *)
Definition genAndPlacePillarVote (env : PillarEnv) (m : PillarChainManager) (vote : PillarVote) (broadcast_vote : bool) :
    outcome (PillarChainManager * bool) :=
  let* (m, weight) := addVerifiedPillarVote env m vote in
  if weight =? 0 then Done (m, false)
  else
    let m := pillar_call_log m (SaveOwnPillarVote vote) in
    Done (if pe_network env && broadcast_vote then pillar_call_log m (GossipPillarVote vote) else m, true).

Definition getVerifiedPillarVotes (env : PillarEnv) (m : PillarChainManager) (period : PbftPeriod) (h : blk_hash_t)
    (above_threshold : bool) : list PillarVote :=
  match getVerifiedVotes iter (pillar_votes_ m) period h above_threshold with
  | [] => pe_period_votes env period
  | votes => votes
  end.

Definition finalizePillarBlock (env : PillarEnv) (m : PillarChainManager) (h : blk_hash_t) : PillarChainManager * list PillarVote :=
  match current_pillar_block_ m with
  | None => (m, [])
  | Some current =>
      if negb (block_hash current =? h) then (m, [])
      else
        match getVerifiedPillarVotes env m (u64 (pbft_period_ current + 1)) h true with
        | [] => (if pe_network env then pillar_call_log m (RequestPillarVotesBundle (u64 (pbft_period_ current + 1)) h) else m, [])
        | votes =>
            if isPillarBlockLatestFinalized m h then (m, votes)
            else
              (mkPillarChainManager (Some current) (current_pillar_block_ m) (current_pillar_block_vote_counts_ m)
                 (eraseVotes (pillar_votes_ m) (u64 (pbft_period_ current + 1))) (db_current_pillar_block m)
                 (<[pbft_period_ current := current]> (db_pillar_blocks m)) (pillar_calls m ++ [PillarBlockFinalized current votes]),
               votes)
        end
  end.

Definition isRelevantPillarVote (m : PillarChainManager) (vote : PillarVote) : bool :=
  match current_pillar_block_ m with
  | None => (pv_period vote =? u64 (firstPillarBlockPeriod hf + 1)) && negb (voteExists (pillar_votes_ m) vote)
  | Some current =>
      if pv_period vote =? u64 (pbft_period_ current + 1) then
        (pv_block_hash vote =? block_hash current) && negb (voteExists (pillar_votes_ m) vote)
      else (pv_period vote =? u64 (pbft_period_ current + pillar_blocks_interval hf + 1)) && negb (voteExists (pillar_votes_ m) vote)
  end.

Definition validatePillarVote (env : PillarEnv) (m : PillarChainManager) (vote : PillarVote) : bool :=
  if negb (isUniquePillarVote (pillar_votes_ m) vote) then false
  else
    match pe_dposIsEligible env (u64 (pv_period vote - 1)) (pv_addr vote) with
    | Some true => pe_verifyVote env vote
    | _ => false
    end.

(** The constructor: the own vote, the current block and the last finalized one with
    its votes come from the database. *)
Definition construct_pillar (env : PillarEnv) (own_vote : option PillarVote) (current : option (PillarBlock * list (addr_t * Z)))
    (blocks : gmap PbftPeriod PillarBlock) : outcome PillarChainManager :=
  let m := mkPillarChainManager None None [] ∅ current blocks [] in
  let* (m, _) := match own_vote with Some v => addVerifiedPillarVote env m v | None => Done (m, 0) end in
  let m :=
    match current with
    | None => m
    | Some (b, counts) =>
        mkPillarChainManager (last_finalized_pillar_block_ m) (Some b) counts (pillar_votes_ m) (db_current_pillar_block m)
          (db_pillar_blocks m) (pillar_calls m)
    end in
  match last (map_items blocks) with
  | None => Done m
  | Some (_, b) =>
      let m := mkPillarChainManager (Some b) (current_pillar_block_ m) (current_pillar_block_vote_counts_ m) (pillar_votes_ m)
        (db_current_pillar_block m) (db_pillar_blocks m) (pillar_calls m) in
      match pe_period_votes env (u64 (pbft_period_ b + 1)) with
      | [] => AssertFailed
      | votes => ofold (fun m v => let* (m, _) := addVerifiedPillarVote env m v in Done m) votes m
      end
  end.

(** ** The pillar votes of a synced block ([PbftManager::validatePbftBlockPillarVotes]) *)

Fixpoint sum_pillar_votes (env : PillarEnv) (required_period : PbftPeriod) (current : PillarBlock) (m : PillarChainManager)
    (weight : Z) (votes : list PillarVote) : outcome (PillarChainManager * option Z) :=
  match votes with
  | [] => Done (m, Some weight)
  | v :: rest =>
      if negb (pv_period v =? required_period) then Done (m, None)
      else if negb (pv_block_hash v =? block_hash current) then Done (m, None)
      else if negb (validatePillarVote env m v) then Done (m, None)
      else
        let* (m, w) := addVerifiedPillarVote env m v in
        if w =? 0 then Done (m, None) else sum_pillar_votes env required_period current m (u64 (weight + w)) rest
  end.

Definition validatePbftBlockPillarVotes (env : PillarEnv) (m : PillarChainManager) (block_period : PbftPeriod)
    (votes : option (list PillarVote)) : outcome (PillarChainManager * bool) :=
  match votes with
  | None | Some [] => Done (m, false)
  | Some votes =>
      match current_pillar_block_ m with
      | None => Undefined
      | Some current =>
          if negb (u64 (pbft_period_ current + 1) =? block_period) then Done (m, false)
          else
            let* (m, res) := sum_pillar_votes env block_period current m 0 votes in
            match res, getPillarConsensusThreshold env (u64 (block_period - 1)) with
            | Some weight, Some t => Done (m, t <=? weight)
            | _, _ => Done (m, false)
            end
      end
  end.
End manager.

(** ** Changes *)

(** Writing entries of a list without duplicate keys into a map, some of them skipped. *)
Lemma fold_entries {A B} (f : Z * A -> option B) (l : list (Z * A)) (m : gmap Z B) a :
  NoDup l.*1 ->
  let r := foldl (fun m e => match f e with Some c => <[e.1 := c]> m | None => m end) m l in
  (forall v, (a, v) ∈ l -> r !! a = match f (a, v) with Some c => Some c | None => m !! a end) /\
  (a ∉ l.*1 -> r !! a = m !! a).
Proof.
  revert m. induction l as [|[k x] l IH]; intros m Hnd; simpl.
  { split; [intros v Hv; by apply elem_of_nil in Hv|done]. }
  apply NoDup_cons in Hnd as [Hk Hnd]. specialize (IH (match f (k, x) with Some c => <[k := c]> m | None => m end) Hnd).
  destruct IH as [IH1 IH2]. split.
  - intros v [[= -> ->]|Hv]%elem_of_cons.
    + rewrite IH2 by done. destruct (f (k, x)); [by rewrite lookup_insert_eq|done].
    + rewrite (IH1 v Hv). assert (a <> k) as Hne by (intros ->; apply Hk; apply (list_elem_of_fmap_2 fst) in Hv; exact Hv).
      destruct (f (a, v)); [done|]. destruct (f (k, x)); [by rewrite lookup_insert_ne|done].
  - intros [Hne Ha]%not_elem_of_cons. rewrite IH2 by done. destruct (f (k, x)); [by rewrite lookup_insert_ne|done].
Qed.

(** The vote count of a validator in a list of vote counts. *)
Definition count_of (l : list (addr_t * Z)) (a : addr_t) : Z := default 0 (transformToMap l !! a).

Lemma to_signed_wrap w x : to_signed w (wrap w x) = to_signed w x.
Proof. unfold to_signed. by rewrite wrap_idemp. Qed.

(** What becomes of a validator. *)
Definition change_of (current previous : option Z) : option Z :=
  match current, previous with
  | Some c, None => Some c
  | Some c, Some p => if c =? p then None else Some (c - p)
  | None, Some p => Some (- p)
  | None, None => None
  end.

Definition small_counts (l : list (addr_t * Z)) : Prop := forall a c, transformToMap l !! a = Some c -> 0 <= c < 2 ^ 31.

Lemma changes_lookup current previous :
  small_counts current -> small_counts previous -> previous <> [] ->
  exists m : gmap addr_t Z, getOrderedValidatorsVoteCountsChanges current previous = Done (map_items m) /\
    forall a, m !! a = change_of (transformToMap current !! a) (transformToMap previous !! a).
Proof.
  intros Hc Hp Hne. unfold getOrderedValidatorsVoteCountsChanges. rewrite bool_decide_false by done. simpl.
  eexists. split; [done|]. intros a. set (cm := transformToMap current) in *. set (pm := transformToMap previous) in *.
  set (m1 := foldl _ ∅ (map_to_list cm)). set (lm := filter _ pm).
  assert (m1 !! a = cm !! a ≫= fun c => current_change pm (a, c)) as H1.
  { destruct (fold_entries (current_change pm) (map_to_list cm) ∅ a (NoDup_fst_map_to_list cm)) as [Hin Hout].
    unfold m1. destruct (cm !! a) as [c|] eqn:Ec; simpl.
    - rewrite (Hin c) by (by apply elem_of_map_to_list). by destruct (current_change pm (a, c)).
    - apply Hout. intros ([k x] & -> & Hx%elem_of_map_to_list)%list_elem_of_fmap. simpl in Ec. congruence. }
  assert (forall l m, NoDup l.*1 -> (forall e, e ∈ l -> m !! e.1 = None) ->
    foldl (fun m e => match m !! e.1 with Some _ => m | None => <[e.1 := to_signed 32 (- to_signed 32 e.2)]> m end) m l =
    foldl (fun m e => match Some (to_signed 32 (- to_signed 32 e.2)) with Some c => <[e.1 := c]> m | None => m end) (m : gmap addr_t Z) l) as Hfold.
  { induction l as [|e l IH]; intros m Hnd Hm; [done|]. apply NoDup_cons in Hnd as [Hk Hnd]. cbn [foldl].
    rewrite (Hm e) by (by left). apply IH; [done|]. intros e' He'. rewrite lookup_insert_ne; [apply Hm; by right|].
    intros E. apply Hk. rewrite E. by apply list_elem_of_fmap_2. }
  rewrite Hfold; [|apply NoDup_fst_map_to_list|].
  2: { intros [k x] Hx%elem_of_map_to_list. apply map_lookup_filter_Some in Hx as [_ Hx]. simpl in Hx |- *.
       destruct (fold_entries (current_change pm) (map_to_list cm) ∅ k (NoDup_fst_map_to_list cm)) as [_ Hout].
       unfold m1. rewrite Hout; [done|]. intros ([k' y] & -> & Hy%elem_of_map_to_list)%list_elem_of_fmap. simpl in Hx. congruence. }
  destruct (fold_entries (fun e => Some (to_signed 32 (- to_signed 32 e.2))) (map_to_list lm) m1 a (NoDup_fst_map_to_list lm)) as [Hin Hout].
  destruct (cm !! a) as [c|] eqn:Ec; simpl in H1 |- *.
  - rewrite Hout, H1.
    + unfold current_change. simpl. destruct (pm !! a) as [p|] eqn:Ep.
      * pose proof (Hc a c Ec). pose proof (Hp a p Ep). rewrite to_signed_wrap, to_signed_id by lia.
        destruct (Z.eqb_spec (c - p) 0), (Z.eqb_spec c p); try lia; [done|]. by rewrite to_signed_id by lia.
      * pose proof (Hc a c Ec). by rewrite to_signed_id by lia.
    + intros ([k x] & -> & Hx%elem_of_map_to_list)%list_elem_of_fmap. apply map_lookup_filter_Some in Hx as [_ Hx].
      simpl in *. congruence.
  - destruct (pm !! a) as [p|] eqn:Ep.
    + rewrite (Hin p) by (apply elem_of_map_to_list, map_lookup_filter_Some; by split). pose proof (Hp a p Ep).
      cbn [snd]. rewrite (to_signed_id 32 p) by lia. by rewrite (to_signed_id 32 (- p)) by lia.
    + rewrite Hout; [by rewrite H1|]. intros ([k x] & -> & Hx%elem_of_map_to_list)%list_elem_of_fmap.
      apply map_lookup_filter_Some in Hx as [Hx _]. simpl in *. congruence.
Qed.

(** ** The chain of finalized blocks *)

(** The finalized blocks, the last one first. *)
Definition finalized (m : PillarChainManager) : list PillarBlock :=
  reverse (omap (fun c => match c with PillarBlockFinalized b _ => Some b | _ => None end) (pillar_calls m)).

Lemma finalized_log m c :
  (forall b v, c <> PillarBlockFinalized b v) -> finalized (pillar_call_log m c) = finalized m.
Proof. intros Hc. unfold finalized. simpl. rewrite omap_app. simpl. destruct c; rewrite ?app_nil_r; naive_solver. Qed.

Lemma addVerifiedPillarVote_frame env m vote m' w :
  addVerifiedPillarVote env m vote = Done (m', w) -> exists v, m' = set_pillar_votes m v.
Proof.
  assert (exists v, m = set_pillar_votes m v) as Hid by (exists (pillar_votes_ m); by destruct m).
  unfold addVerifiedPillarVote. destruct (pe_dposVoteCount env _ _) as [c|]; [|by intros [= <- <-]].
  destruct (c =? 0); [by intros [= <- <-]|].
  destruct (if periodDataInitialized _ _ then _ else _) as [m1|] eqn:Ei; [|by intros [= <- <-]].
  assert (exists v, m1 = set_pillar_votes m v) as [v1 ->].
  { destruct (periodDataInitialized _ _); [by injection Ei as <-|].
    destruct (getPillarConsensusThreshold env _); [|done]. injection Ei as <-. eauto. }
  destruct (pillar_addVerifiedVote _ _ _) as [[v ok]| |]; simpl; try done. destruct ok; simpl; intros [= <- <-]; eauto.
Qed.

Section chain.
Context (hf : FicusHardforkConfig) (block_hash : PillarBlock -> blk_hash_t)
  (iter : gmap vote_hash_t (PillarVote * Z) -> list (PillarVote * Z)).
#[local] Set Default Proof Using "Type*".

(** A chain of blocks from the first pillar period on. *)
Fixpoint linked (l : list PillarBlock) : Prop :=
  match l with
  | [] => True
  | [b] => pbft_period_ b = firstPillarBlockPeriod hf
  | b :: ((b' :: _) as l') => pbft_period_ b = pbft_period_ b' + pillar_blocks_interval hf /\
      previous_pillar_block_hash_ b = block_hash b' /\ linked l'
  end.

(** [b] may follow the finalized blocks. *)
Definition extends (l : list PillarBlock) (b : PillarBlock) : Prop := linked (b :: l).

Record chain_inv (m : PillarChainManager) : Prop := {
  ci_last : last_finalized_pillar_block_ m = head (finalized m);
  ci_linked : linked (finalized m);
  ci_current : forall b, current_pillar_block_ m = Some b -> head (finalized m) = Some b \/ extends (finalized m) b;
}.

(** What happens to the manager: new pillar blocks of later periods, votes, finalization. *)
Inductive chain_step : PillarChainManager -> PillarChainManager -> Prop :=
| chain_create env m period sr br e m' ob :
    0 <= period < 2 ^ 64 -> (forall l, last_finalized_pillar_block_ m = Some l -> pbft_period_ l < period) ->
    createPillarBlock hf block_hash env m period sr br e = Done (m', ob) -> chain_step m m'
| chain_vote env m vote m' w : addVerifiedPillarVote env m vote = Done (m', w) -> chain_step m m'
| chain_place env m vote b m' ok : genAndPlacePillarVote env m vote b = Done (m', ok) -> chain_step m m'
| chain_finalize env m h : chain_step m (finalizePillarBlock block_hash iter env m h).1.

Lemma chain_inv_votes m v : chain_inv m -> chain_inv (set_pillar_votes m v).
Proof. by intros [? ? ?]. Qed.

Lemma chain_inv_log m c : (forall b v, c <> PillarBlockFinalized b v) -> chain_inv m -> chain_inv (pillar_call_log m c).
Proof. intros Hc [? ? ?]. by split; simpl; rewrite ?finalized_log. Qed.

Lemma createPillarBlock_extends env m period sr br e m' ob :
  chain_inv m -> 1 < pillar_blocks_interval hf < 2 ^ 64 -> 0 <= period < 2 ^ 64 ->
  (forall l, last_finalized_pillar_block_ m = Some l -> pbft_period_ l < period) ->
  createPillarBlock hf block_hash env m period sr br e = Done (m', ob) -> chain_inv m'.
Proof.
  intros [I1 I2 I3] Hint Hper Hlater. unfold createPillarBlock.
  match goal with |- context [obind ?x _] => destruct x as [[prev changes]| |] eqn:Ec end; simpl; try done.
  set (b := mkPillarBlock period sr prev br e changes).
  destruct (isValidPillarBlock hf block_hash m b) as [[]| |] eqn:Ev; simpl; try done; [|by intros [= <- <-]].
  intros [= <- <-]. split; [done|done|]. simpl. intros b' [= <-]. right.
  assert (forall m0, finalized (saveNewPillarBlock m0 b (pe_voteCounts env period)) = finalized m0) as -> by done.
  revert Ev. unfold isValidPillarBlock. simpl. unfold extends. destruct (finalized m) as [|l rest] eqn:El.
  - rewrite I1. simpl. destruct (Z.eqb_spec period (firstPillarBlockPeriod hf)); [done|done].
  - rewrite I1. simpl. destruct (Z.eqb_spec period (firstPillarBlockPeriod hf)) as [->|Hne].
    + (* the first period cannot come after a finalized block *)
      assert (firstPillarBlockPeriod hf <= pbft_period_ l) as Hge.
      { clear - I2 Hint. revert l I2. induction rest as [|l' rest IH]; intros l; simpl; [lia|].
        intros (-> & _ & Hl). specialize (IH l' Hl). lia. }
      specialize (Hlater l). rewrite I1 in Hlater. specialize (Hlater eq_refl). lia.
    + intros [= [Hp%Z.eqb_eq Hh%Z.eqb_eq]%andb_true_iff]. split_and!; [|done|done]. simpl.
      specialize (Hlater l). rewrite I1 in Hlater. specialize (Hlater eq_refl). unfold wrap, modulus in Hp.
      destruct (decide (pillar_blocks_interval hf <= period)).
      * rewrite Z.mod_small in Hp by lia. lia.
      * exfalso. assert ((period - pillar_blocks_interval hf) mod 2 ^ 64 = period - pillar_blocks_interval hf + 2 ^ 64) as Em
          by (symmetry; apply (Z.mod_unique _ _ (-1)); lia). rewrite Em in Hp. lia.
Qed.

Lemma chain_step_inv m m' : 1 < pillar_blocks_interval hf < 2 ^ 64 -> chain_inv m -> chain_step m m' -> chain_inv m'.
Proof.
  intros Hint Hinv Hs. destruct Hs as [env m period sr br e m' ob ? ? Hc|env m vote m' w Ha|env m vote b m' ok Hg|env m h].
  - by eapply createPillarBlock_extends.
  - apply addVerifiedPillarVote_frame in Ha as [v ->]. by apply chain_inv_votes.
  - revert Hg. unfold genAndPlacePillarVote. destruct (addVerifiedPillarVote env m vote) as [[m1 w]| |] eqn:Ea; simpl; try done.
    apply addVerifiedPillarVote_frame in Ea as [v ->]. destruct (w =? 0); intros [= <- <-]; [by apply chain_inv_votes|].
    destruct (_ && _); repeat apply chain_inv_log; try done; by apply chain_inv_votes.
  - unfold finalizePillarBlock. destruct (current_pillar_block_ m) as [c|] eqn:Ec; [|done]. destruct (negb _) eqn:Eh; [done|].
    destruct (getVerifiedPillarVotes _ _ _ _ _ _) as [|v vs]; [destruct (pe_network env); [by apply chain_inv_log|done]|].
    unfold isPillarBlockLatestFinalized. pose proof Hinv as [I1 I2 I3]. apply negb_false_iff, Z.eqb_eq in Eh. subst h.
    destruct (I3 c Ec) as [Hhd|Hext].
    + rewrite I1, Hhd, Z.eqb_refl. done.
    + destruct (match last_finalized_pillar_block_ m with Some _ => _ | None => _ end); [done|]. simpl.
      assert (forall m0, pillar_calls m0 = pillar_calls m ++ [PillarBlockFinalized c (v :: vs)] -> finalized m0 = c :: finalized m) as Hfin.
      { intros m0 E. unfold finalized. rewrite E, omap_app. simpl. by rewrite reverse_app. }
      split; simpl; rewrite (Hfin (mkPillarChainManager _ _ _ _ _ _ _) eq_refl); [done|done|].
      intros b Hb. left. simpl. congruence.
Qed.
End chain.

Lemma chain_reach_inv hf block_hash iter m m' :
  1 < pillar_blocks_interval hf < 2 ^ 64 -> chain_inv hf block_hash m -> rtc (chain_step hf block_hash iter) m m' ->
  chain_inv hf block_hash m'.
Proof. intros Hint Hinv Hr. induction Hr; [done|]. eauto using chain_step_inv. Qed.

Definition no_pillar_blocks : PillarChainManager := mkPillarChainManager None None [] ∅ None ∅ [].

Lemma no_pillar_blocks_inv hf block_hash : chain_inv hf block_hash no_pillar_blocks.
Proof. split; done. Qed.

Lemma linked_periods hf block_hash l i b :
  linked hf block_hash l -> reverse l !! i = Some b ->
  pbft_period_ b = firstPillarBlockPeriod hf + Z.of_nat i * pillar_blocks_interval hf.
Proof.
  revert i b. induction l as [|x l IH]; intros i b Hl Hi; [by rewrite reverse_nil in Hi|]. rewrite reverse_cons in Hi.
  assert (linked hf block_hash l) as Hl' by (destruct l; [done|by destruct Hl as (_ & _ & ?)]).
  apply lookup_app_Some in Hi as [Hi|[Hge Hi]]; [by apply IH|].
  apply list_lookup_singleton_Some in Hi as [Hi ->]. rewrite length_reverse in Hge, Hi.
  assert (i = length l) as -> by lia. destruct l as [|y l]; [simpl in *; lia|]. destruct Hl as (-> & _ & _).
  rewrite (IH (length l) y Hl'); [simpl; lia|]. rewrite reverse_cons, lookup_app_r by (rewrite length_reverse; lia).
  by rewrite length_reverse, Nat.sub_diag.
Qed.

Lemma linked_hashes hf block_hash l i b b' :
  linked hf block_hash l -> reverse l !! i = Some b -> reverse l !! S i = Some b' ->
  previous_pillar_block_hash_ b' = block_hash b.
Proof.
  revert i b b'. induction l as [|x l IH]; intros i b b' Hl Hi Hi'; [by rewrite reverse_nil in Hi|].
  rewrite reverse_cons in Hi, Hi'.
  assert (linked hf block_hash l) as Hl' by (destruct l; [done|by destruct Hl as (_ & _ & ?)]).
  apply lookup_app_Some in Hi' as [Hi'|[Hge Hi']].
  { rewrite lookup_app_l in Hi by (apply lookup_lt_Some in Hi'; lia). by eapply IH. }
  apply list_lookup_singleton_Some in Hi' as [Hi' ->]. rewrite length_reverse in Hge, Hi'.
  destruct l as [|y l]; [simpl in *; lia|]. destruct Hl as (_ & -> & _). cbn [length] in Hge, Hi'. assert (i = length l) as -> by lia.
  rewrite reverse_cons, <- app_assoc, lookup_app_r, length_reverse, Nat.sub_diag in Hi by (rewrite length_reverse; lia).
  by injection Hi as <-.
Qed.

Lemma ficus_periods hf delegation_delay :
  ficus_validate hf delegation_delay = true -> 0 <= ficus_block_num hf < max_u64 ->
  1 < pillar_blocks_interval hf /\ (pillar_blocks_interval hf | firstPillarBlockPeriod hf) /\
  ficus_block_num hf <= firstPillarBlockPeriod hf.
Proof.
  unfold ficus_validate, firstPillarBlockPeriod. destruct (Z.eqb_spec (ficus_block_num hf) max_u64) as [|_]; [lia|].
  destruct (ficus_block_num hf <? delegation_delay); [done|]. destruct (Z.leb_spec (pillar_blocks_interval hf) 1); [done|].
  intros Hn%Z.eqb_eq ?. apply Z.mod_divide in Hn; [|lia]. destruct (Z.eqb_spec (ficus_block_num hf) 0); (split; [lia|]).
  - split; [apply Z.divide_refl|lia].
  - split; [done|lia].
Qed.

Lemma small_counts_check l :
  forallb (fun e : Z * Z => (0 <=? e.2) && (e.2 <? 2 ^ 31)) (map_to_list (transformToMap l)) = true -> small_counts l.
Proof.
  intros H a c Hc. rewrite forallb_forall in H. specialize (H (a, c)). simpl in H.
  rewrite <- list_elem_of_In, elem_of_map_to_list in H. specialize (H Hc). lia.
Qed.

Lemma map_items_keys_lt {A} (m : gmap Z A) : StronglySorted Z.lt (map_items m).*1.
Proof.
  pose proof (map_items_sorted m) as Hs. pose proof (map_items_NoDup m) as Hn. revert Hs Hn.
  induction (map_items m) as [|x l IH]; simpl; intros Hs Hn; [constructor|].
  apply StronglySorted_inv in Hs as [Hs Hall]. apply NoDup_cons in Hn as [Hx Hn]. constructor; [by apply IH|].
  apply Forall_forall. intros k (y & -> & Hy)%list_elem_of_fmap. rewrite Forall_forall in Hall. specialize (Hall y Hy).
  unfold key_le in Hall. assert (x.1 <> y.1); [|lia]. intros E. apply Hx. rewrite E. by apply list_elem_of_fmap_2.
Qed.

(** ** Theorems *)

(** C21: the finalized pillar blocks form one chain.  In every manager that block
    creation, votes and finalization reach from an empty one, the [i]-th finalized block
    has the period first + [i] * interval and, from the second on, the hash of its
    predecessor; the last finalized block of the manager is the end of that chain.  New
    blocks are created for periods after the last finalized one. *)
Theorem pillar_chain_linked hf block_hash iter m :
  1 < pillar_blocks_interval hf < 2 ^ 64 -> rtc (chain_step hf block_hash iter) no_pillar_blocks m ->
  last_finalized_pillar_block_ m = last (reverse (finalized m)) /\
  (forall i b, reverse (finalized m) !! i = Some b ->
     pbft_period_ b = firstPillarBlockPeriod hf + Z.of_nat i * pillar_blocks_interval hf) /\
  (forall i b b', reverse (finalized m) !! i = Some b -> reverse (finalized m) !! S i = Some b' ->
     previous_pillar_block_hash_ b' = block_hash b).
Proof.
  intros Hint Hr. destruct (chain_reach_inv hf block_hash iter _ _ Hint (no_pillar_blocks_inv hf block_hash) Hr) as [I1 I2 _].
  split_and!; [by rewrite last_reverse|intros i b; by eapply linked_periods|intros i b b'; by eapply linked_hashes].
Qed.

(** The block of period [p] carries a pillar block hash exactly when a pillar block
    was created in period [p - 1], for every configuration that passes validation; such
    a period is after the hardfork. *)
Theorem pillar_periods_agree hf delegation_delay p :
  ficus_validate hf delegation_delay = true -> 0 <= ficus_block_num hf < max_u64 -> pillar_blocks_interval hf < 2 ^ 64 ->
  1 <= p < 2 ^ 64 ->
  isPbftWithPillarBlockPeriod hf p = isPillarBlockPeriod hf (p - 1) false /\
  (isPbftWithPillarBlockPeriod hf p = true -> isFicusHardfork hf (p - 1) = true).
Proof.
  intros Hv Hn Hk64 Hp. destruct (ficus_periods hf delegation_delay Hv Hn) as (Hk & Hf & Hle).
  set (f := firstPillarBlockPeriod hf) in *. set (k := pillar_blocks_interval hf) in *. set (n := ficus_block_num hf) in *.
  assert (f < 2 ^ 64) as Hf64 by (unfold f, firstPillarBlockPeriod, max_u64 in *; destruct (_ =? 0); lia).
  destruct Hf as [r Hr]. pose proof (Z.div_mod p k ltac:(lia)) as Edm. pose proof (Z.mod_pos_bound p k ltac:(lia)) as Hb.
  assert (isPbftWithPillarBlockPeriod hf p = isPillarBlockPeriod hf (p - 1) false) as E.
  { unfold isPbftWithPillarBlockPeriod, isPillarBlockPeriod. fold f k n. rewrite Z.mul_0_l, Z.add_0_r, wrap_id by (unfold in_range, modulus; lia).
    apply eq_iff_eq_true. rewrite !andb_true_iff, !Z.leb_le, !Z.eqb_eq. split.
    - intros [Hge E]. assert ((p - 1) mod k = 0) by (replace (p - 1) with (p / k * k) by lia; apply Z.mod_mul; lia).
      assert (p <> f) by (intros ->; rewrite Hr, Z.mod_mul in E by lia; lia). lia.
    - intros [[? ?] [q Hq]%Z.mod_divide]; [|lia]. split; [lia|]. replace p with (1 + q * k) by lia.
      rewrite Z.mod_add, Z.mod_small by lia. done. }
  split; [done|]. rewrite E. unfold isPillarBlockPeriod, isFicusHardfork. fold n. rewrite !andb_true_iff. tauto.
Qed.

(** What a list of changes says about a validator. *)
Definition change_in (changes : list (addr_t * Z)) (a : addr_t) : Z := default 0 ((list_to_map changes : gmap addr_t Z) !! a).

(** The vote count changes of a pillar block are ordered by address without
    duplicates, and adding them to the previous vote counts gives the current ones, for
    validators that came, stayed or left (vote counts below 2^31). *)
Theorem getOrderedValidatorsVoteCountsChanges_correct current previous :
  small_counts current -> small_counts previous -> previous <> [] ->
  exists changes, getOrderedValidatorsVoteCountsChanges current previous = Done changes /\
    StronglySorted Z.lt changes.*1 /\
    forall a, count_of current a = count_of previous a + change_in changes a.
Proof.
  intros Hc Hp Hne. destruct (changes_lookup current previous Hc Hp Hne) as (m & E & Hm). exists (map_items m).
  split; [done|]. split; [apply map_items_keys_lt|]. intros a. unfold change_in.
  rewrite (map_items_to_map m), Hm. unfold count_of, change_of.
  destruct (transformToMap current !! a), (transformToMap previous !! a) as [p|]; simpl; try lia.
  destruct (Z.eqb_spec z p); simpl; lia.
Qed.

(** A pillar block that is created again for its period has no vote count changes:
    the counts saved with the first block are taken as those of the previous period.
    The second block equals the first one only when that one had no changes either. *)
Theorem recreated_pillar_block_has_no_changes hf block_hash env m period sr br e m' b :
  period <> firstPillarBlockPeriod hf -> pe_voteCounts env period <> [] -> small_counts (pe_voteCounts env period) ->
  createPillarBlock hf block_hash env m period sr br e = Done (m', Some b) ->
  exists m'' b', createPillarBlock hf block_hash env m' period sr br e = Done (m'', Some b') /\
    validators_votes_count_changes_ b' = [] /\
    (b' = b <-> validators_votes_count_changes_ b = []).
Proof.
  intros Hper Hcs Hsm. unfold createPillarBlock. destruct (Z.eqb_spec period (firstPillarBlockPeriod hf)) as [|_]; [done|].
  destruct (last_finalized_pillar_block_ m) as [l|] eqn:El; [|done].
  destruct (getOrderedValidatorsVoteCountsChanges _ (current_pillar_block_vote_counts_ m)) as [ch| |]; simpl; try done.
  unfold isValidPillarBlock at 1. rewrite El. simpl.
  destruct (Z.eqb_spec period (firstPillarBlockPeriod hf)) as [|_]; [done|]. simpl.
  destruct (negb _) eqn:Ev; [done|]. intros [= <- <-]. simpl. rewrite El.
  destruct (changes_lookup _ _ Hsm Hsm Hcs) as (mm & E & Hmm). rewrite E. simpl.
  assert (mm = ∅) as ->.
  { apply map_eq. intros a. rewrite Hmm, lookup_empty. unfold change_of.
    destruct (transformToMap (pe_voteCounts env period) !! a); [by rewrite Z.eqb_refl|done]. }
  rewrite map_items_empty. unfold isValidPillarBlock. simpl. rewrite El.
  destruct (Z.eqb_spec period (firstPillarBlockPeriod hf)) as [|_]; [done|]. simpl. rewrite Ev.
  do 2 eexists. split; [done|]. simpl. split; [done|]. split; [by intros [= <-]|by intros ->].
Qed.

(** ** A concrete chain *)

Definition ex_hf : FicusHardforkConfig := mkFicusHardforkConfig 10 10.
Definition ex_block_hash (b : PillarBlock) : blk_hash_t := pbft_period_ b.
Definition ex_pillar_env (p : PbftPeriod -> list (addr_t * Z)) : PillarEnv :=
  mkPillarEnv (fun p a => Some true) (fun p a => Some (ex_count p a)) (fun _ => Some 6) p (fun _ => true) (fun _ => []) false.
Definition ex_counts_at (p : PbftPeriod) : list (addr_t * Z) := if p =? 10 then [(1, 1); (2, 2); (3, 3)] else [(1, 4); (3, 3); (4, 5)].

(** [validatePbftBlockPillarVotes] adds up the weight of every vote of the list,
    copies included: two copies of a vote of weight 2 reach the threshold 4 of the
    total 6 alone. *)
Theorem copies_of_a_pillar_vote_are_counted :
  exists env m v, getPillarConsensusThreshold env 10 = Some 4 /\ pe_dposVoteCount env 10 (pv_addr v) = Some 2 /\
    (exists m', validatePbftBlockPillarVotes ex_block_hash env m 11 (Some [v]) = Done (m', false)) /\
    (exists m', validatePbftBlockPillarVotes ex_block_hash env m 11 (Some [v; v]) = Done (m', true)).
Proof.
  exists (ex_pillar_env ex_counts_at),
    (mkPillarChainManager None (Some (mkPillarBlock 10 0 0 0 0 [])) [] ∅ None ∅ []), (mkPillarVote 11 10 100 2).
  split; [reflexivity|]. split; [reflexivity|]. split; eexists; vm_compute; reflexivity.
Qed.

Definition ex_create (m : PillarChainManager) (p : PbftPeriod) : PillarChainManager :=
  match createPillarBlock ex_hf ex_block_hash (ex_pillar_env ex_counts_at) m p 0 0 0 with Done (m', _) => m' | _ => m end.
Definition ex_vote (m : PillarChainManager) (a p : Z) : PillarChainManager :=
  match addVerifiedPillarVote (ex_pillar_env ex_counts_at) m (mkPillarVote (p + 1) p (1000 * a + p) a) with Done (m', _) => m' | _ => m end.
Definition ex_finalize (m : PillarChainManager) (p : Z) : PillarChainManager :=
  (finalizePillarBlock ex_block_hash ex_iter (ex_pillar_env ex_counts_at) m p).1.
Definition ex_pillar_round (m : PillarChainManager) (p : Z) : PillarChainManager :=
  ex_finalize (ex_vote (ex_vote (ex_create m p) 3 p) 2 p) p.
Definition ex_chain : PillarChainManager := ex_pillar_round (ex_pillar_round no_pillar_blocks 10) 20.

Lemma ex_vote_step m a p : rtc (chain_step ex_hf ex_block_hash ex_iter) m (ex_vote m a p).
Proof.
  unfold ex_vote. destruct (addVerifiedPillarVote _ _ _) as [[m' w]| |] eqn:E; [|done..].
  apply rtc_once. by eapply chain_vote.
Qed.

Lemma ex_create_step m p :
  0 <= p < 2 ^ 64 -> (forall l, last_finalized_pillar_block_ m = Some l -> pbft_period_ l < p) ->
  rtc (chain_step ex_hf ex_block_hash ex_iter) m (ex_create m p).
Proof.
  intros Hp Hl. unfold ex_create. destruct (createPillarBlock _ _ _ _ _ _ _ _) as [[m' ob]| |] eqn:E; [|done..].
  apply rtc_once. by eapply chain_create.
Qed.

Lemma ex_round_steps m p :
  0 <= p < 2 ^ 64 -> (forall l, last_finalized_pillar_block_ m = Some l -> pbft_period_ l < p) ->
  rtc (chain_step ex_hf ex_block_hash ex_iter) m (ex_pillar_round m p).
Proof.
  intros Hp Hl. etrans; [by apply ex_create_step|]. do 2 (etrans; [apply ex_vote_step|]).
  apply rtc_once. apply chain_finalize.
Qed.

Lemma ex_chain_reachable : rtc (chain_step ex_hf ex_block_hash ex_iter) no_pillar_blocks ex_chain.
Proof.
  etrans; apply ex_round_steps; [lia|done|lia|]. intros l Hl.
  assert (pbft_period_ <$> last_finalized_pillar_block_ (ex_pillar_round no_pillar_blocks 10) = Some 10) as E by (vm_compute; reflexivity).
  rewrite Hl in E. injection E as ->. done.
Qed.

Example pillar_chain_linked_witness :
  pbft_period_ <$> reverse (finalized ex_chain) = [10; 20] /\
  last_finalized_pillar_block_ ex_chain = last (reverse (finalized ex_chain)).
Proof.
  split; [vm_compute; reflexivity|].
  exact (proj1 (pillar_chain_linked ex_hf ex_block_hash ex_iter ex_chain (conj eq_refl eq_refl) ex_chain_reachable)).
Defined.

Example pillar_periods_agree_witness :
  isPbftWithPillarBlockPeriod ex_hf 21 = true /\ isPillarBlockPeriod ex_hf 20 false = true /\
  isPbftWithPillarBlockPeriod ex_hf 21 = isPillarBlockPeriod ex_hf 20 false.
Proof.
  split; [reflexivity|]. split; [reflexivity|].
  assert (0 <= ficus_block_num ex_hf < max_u64) as Hn by (unfold max_u64; simpl; lia).
  exact (proj1 (pillar_periods_agree ex_hf 5 21 eq_refl Hn eq_refl ltac:(lia))).
Defined.

Example changes_correct_witness :
  exists changes, getOrderedValidatorsVoteCountsChanges (ex_counts_at 20) (ex_counts_at 10) = Done changes /\
    changes = [(1, 3); (2, -2); (4, 5)] /\ count_of (ex_counts_at 20) 2 = count_of (ex_counts_at 10) 2 + change_in changes 2.
Proof.
  destruct (getOrderedValidatorsVoteCountsChanges_correct (ex_counts_at 20) (ex_counts_at 10)) as (ch & E & _ & Hch).
  1, 2: apply small_counts_check; vm_compute; reflexivity.
  - discriminate.
  - exists ch. split; [exact E|]. split; [|exact (Hch 2)].
    assert (getOrderedValidatorsVoteCountsChanges (ex_counts_at 20) (ex_counts_at 10) = Done [(1, 3); (2, -2); (4, 5)]) as E2
      by (vm_compute; reflexivity).
    congruence.
Defined.

Definition ex_before : PillarChainManager := ex_pillar_round no_pillar_blocks 10.

Example recreated_pillar_block_has_no_changes_witness :
  exists m' b m'' b', createPillarBlock ex_hf ex_block_hash (ex_pillar_env ex_counts_at) ex_before 20 0 0 0 = Done (m', Some b) /\
    createPillarBlock ex_hf ex_block_hash (ex_pillar_env ex_counts_at) m' 20 0 0 0 = Done (m'', Some b') /\
    validators_votes_count_changes_ b = [(1, 3); (2, -2); (4, 5)] /\ validators_votes_count_changes_ b' = [].
Proof.
  set (b := mkPillarBlock 20 0 10 0 0 [(1, 3); (2, -2); (4, 5)]).
  set (m' := saveNewPillarBlock ex_before b (ex_counts_at 20)).
  assert (createPillarBlock ex_hf ex_block_hash (ex_pillar_env ex_counts_at) ex_before 20 0 0 0 = Done (m', Some b)) as E
    by (vm_compute; reflexivity).
  destruct (recreated_pillar_block_has_no_changes ex_hf ex_block_hash (ex_pillar_env ex_counts_at) ex_before 20 0 0 0 m' b)
    as (m'' & b' & E' & Hch & _).
  - vm_compute. discriminate.
  - discriminate.
  - apply small_counts_check. vm_compute. reflexivity.
  - exact E.
  - exists m', b, m'', b'. exact (conj E (conj E' (conj eq_refl Hch))).
Defined.
