(* ===== verification/PbftSync.v ===== *)
(** * Blocks from other nodes

    The synchronisation of a node: [PbftSyncPacketHandler::process] queues the blocks
    of the syncing peer, [PbftManager::pushSyncedPbftBlocksIntoChain] and
    [processPeriodData] take them from the queue, validate them and push them into the
    chain (pbft_sync_packet_handler.cpp, pbft_manager.cpp).  Votes are shared objects:
    the cert votes of a block are those the next queued block carries, so the weights
    that validation stores in them are seen there.  The network threads run between,
    not during, the operations. *)

From S2P Require Import Prelude Votes VerifiedVotes VoteManager VoteQuorum PbftChain TransactionQueue PillarVotes PillarChain PbftManager PbftSafety PbftReach PbftService PbftBlocks.
Local Open Scope Z_scope.
Local Open Scope outcome_scope.

(** ** Data *)

(** What a period's data has besides block and cert votes. *)
Record SyncRest := mkSyncRest {
  sr_order_hash : blk_hash_t;
  sr_final_chain_hash : blk_hash_t;
  sr_extra_data : option PbftBlockExtraData;
  sr_dag_blocks : list (blk_hash_t * list trx_hash_t);
  sr_transactions : list Transaction;
  sr_pillar_votes : option (list PillarVote);
}.

Abbreviation SyncPeriodData := (SyncQueue.PeriodData SyncRest).
Abbreviation SyncQueue := (SyncQueue.PeriodDataQueue SyncRest).

Definition full_block (pd : SyncPeriodData) : FullPbftBlock :=
  let rest := SyncQueue.period_rest pd in
  mkFullPbftBlock (SyncQueue.pbft_blk pd) (sr_order_hash rest) (sr_final_chain_hash rest) (sr_extra_data rest).

Definition with_previous_votes (pd : SyncPeriodData) (votes : list PbftVote) : SyncPeriodData :=
  SyncQueue.mkPeriodData (SyncQueue.pbft_blk pd) votes (SyncQueue.period_rest pd).

(** The same object as [pushPbftBlock_] sees it. *)
Definition period_data (pd : SyncPeriodData) : PeriodData :=
  let rest := SyncQueue.period_rest pd in
  mkPeriodData (SyncQueue.pbft_blk pd) (SyncQueue.previous_block_cert_votes pd) (sr_dag_blocks rest).*1 (sr_transactions rest)
    (option_map (List.map pv_hash) (sr_pillar_votes rest)).

(** What [processPeriodData] only logs. *)
Inductive sync_log :=
| MissingTransaction (block hash : Z)
| FinalizedTransactions (block : blk_hash_t).

Record SyncState := mkSyncState {
  ss_mgr : PbftManager VoteManager;
  sync_queue_ : SyncQueue;
  ss_pillar : PillarChainManager;
  ss_malicious : list Z;                        (* [handleMaliciousSyncPeer] *)
  ss_sync_period : option PbftPeriod;           (* [setSyncStatePeriod] *)
  ss_log : list sync_log;
}.

Definition set_mgr (s : SyncState) (m : PbftManager VoteManager) : SyncState :=
  mkSyncState m (sync_queue_ s) (ss_pillar s) (ss_malicious s) (ss_sync_period s) (ss_log s).
Definition set_queue (s : SyncState) (q : SyncQueue) : SyncState :=
  mkSyncState (ss_mgr s) q (ss_pillar s) (ss_malicious s) (ss_sync_period s) (ss_log s).
Definition set_pillar (s : SyncState) (p : PillarChainManager) : SyncState :=
  mkSyncState (ss_mgr s) (sync_queue_ s) p (ss_malicious s) (ss_sync_period s) (ss_log s).
Definition set_sync_period (s : SyncState) (p : PbftPeriod) : SyncState :=
  mkSyncState (ss_mgr s) (sync_queue_ s) (ss_pillar s) (ss_malicious s) (Some p) (ss_log s).
Definition add_log (s : SyncState) (l : list sync_log) : SyncState :=
  mkSyncState (ss_mgr s) (sync_queue_ s) (ss_pillar s) (ss_malicious s) (ss_sync_period s) (ss_log s ++ l).
Definition report (s : SyncState) (node_id : Z) : SyncState :=
  mkSyncState (ss_mgr s) (sync_queue_ s) (ss_pillar s) (ss_malicious s ++ [node_id]) (ss_sync_period s) (ss_log s).

(** The answers of the other components; [sw_final_chain_hash] is the answer once
    [waitForFinalized] has let the final chain catch up. *)
Record SyncWorld := mkSyncWorld {
  sw_env : Env;
  sw_votes : VoteEnv;
  sw_pillar : PillarEnv;
  sw_final_chain_hash : PbftPeriod -> blk_hash_t;
  sw_block_in_chain : blk_hash_t -> option PbftBlock;
  sw_random : Z;
  sw_transactionFinalized : trx_hash_t -> bool;
  sw_verifyTransactionsNotFinalized : list Transaction -> bool;
}.

Section sync.
Context (cfg : PbftMgrConfig) (vcfg : PbftConfig) (pillar_hash : PillarBlock -> blk_hash_t).
#[local] Instance sync_service : VoteService VoteManager := vote_manager_service vcfg.

(** ** The queue of the manager *)

Definition pbftSyncingPeriod (s : SyncState) : PbftPeriod :=
  Z.max (SyncQueue.getPeriod (sync_queue_ s)) (Chain.size_ (pbft_chain_ (ss_mgr s))).

Definition lastPbftBlockHashFromQueueOrChain (s : SyncState) : blk_hash_t :=
  match SyncQueue.lastPbftBlock (sync_queue_ s) with
  | Some b => if getPbftPeriod (ss_mgr s) <=? pb_period b then pb_hash b else Chain.last_pbft_block_hash_ (pbft_chain_ (ss_mgr s))
  | None => Chain.last_pbft_block_hash_ (pbft_chain_ (ss_mgr s))
  end.

(** The senders of the transactions are looked up in parallel first. *)
Definition periodDataQueuePush (s : SyncState) (pd : SyncPeriodData) (node_id : Z) (votes : list PbftVote) : SyncState :=
  set_queue s (SyncQueue.push (sync_queue_ s) pd node_id (Chain.size_ (pbft_chain_ (ss_mgr s))) votes).1.

(** ** Validation *)

Definition validatePillarDataInPeriodData (pd : SyncPeriodData) : bool :=
  if negb (validatePbftBlockExtraData cfg (full_block pd)) then false
  else
    Bool.eqb (isPbftWithPillarBlockPeriod cfg (pb_period (SyncQueue.pbft_blk pd)))
      (bool_decide (is_Some (sr_pillar_votes (SyncQueue.period_rest pd)))).

(** The transactions of the DAG blocks that the period data does not contain. *)
Definition transactions_to_check (pd : SyncPeriodData) : list trx_hash_t :=
  filter (fun h => h ∉ trx_hash <$> sr_transactions (SyncQueue.period_rest pd))
    (collect_trxs ∅ (mjoin (sr_dag_blocks (SyncQueue.period_rest pd)).*2)).

Definition transaction_log (w : SyncWorld) (pd : SyncPeriodData) : list sync_log :=
  let block := pb_hash (SyncQueue.pbft_blk pd) in
  (MissingTransaction block <$> filter (fun h => sw_transactionFinalized w h = false) (transactions_to_check pd)) ++
  (if sw_verifyTransactionsNotFinalized w (sr_transactions (SyncQueue.period_rest pd)) then [] else [FinalizedTransactions block]).

(** The vote objects after [validatePbftBlockCertVotes]: validation stored the weights. *)
Definition validated_votes (w : SyncWorld) (block : PbftBlock) (votes : list PbftVote) : list PbftVote :=
  let vote_to_validate := sw_random w mod Z.of_nat (length votes) in
  let strict_validation := pb_period block mod full_vote_validation_interval =? 0 in
  imap (fun i v => default v (validateVote vcfg (sw_votes w) v (strict_validation || (Z.of_nat i =? vote_to_validate))).2) votes.

(** The votes of a popped block are those of the block in front of the queue. *)
Definition share_votes (q : SyncQueue) (votes : list PbftVote) : SyncQueue :=
  match SyncQueue.queue_ q with
  | [] => q
  | (next, n) :: rest =>
      SyncQueue.mkPeriodDataQueue ((with_previous_votes next votes, n) :: rest) (SyncQueue.period_ q) (SyncQueue.last_block_cert_votes_ q)
  end.

(** The queue is cleared and the sender reported. *)
Definition reject (s : SyncState) (node_id : Z) : SyncState := report (set_queue s (SyncQueue.clear (sync_queue_ s))) node_id.

(** Votes of a predecessor that was in the chain already are replaced. *)
Definition replace_unverified (pd : SyncPeriodData) (reward_votes : list PbftVote) : SyncPeriodData :=
  match SyncQueue.previous_block_cert_votes pd with
  | v :: _ => if bool_decide (is_Some (getWeight v)) then pd else with_previous_votes pd reward_votes
  | [] => pd
  end.

(** [processPeriodData] from the check of the cert votes on. *)
Definition check_votes (w : SyncWorld) (s : SyncState) (pd : SyncPeriodData) (cert_votes : list PbftVote) (node_id : Z) :
    outcome (SyncState * option (SyncPeriodData * list PbftVote)) :=
  let block := SyncQueue.pbft_blk pd in
  let* (vm, certified) := validatePbftBlockCertVotes vcfg (sw_votes w) (sw_random w) (Chain.size_ (pbft_chain_ (ss_mgr s)))
    (vote_mgr_ (ss_mgr s)) block cert_votes in
  let s := set_mgr s (set_vote_mgr (ss_mgr s) vm) in
  if negb certified then Done (reject s node_id, None)
  else
    let cert_votes := validated_votes w block cert_votes in
    let s := add_log (set_queue s (share_votes (sync_queue_ s) cert_votes)) (transaction_log w pd) in
    if negb (validatePillarDataInPeriodData pd) then Done (reject s node_id, None)
    else
      let* (p, pillar_ok) :=
        (if isPbftWithPillarBlockPeriod cfg (pb_period block)
         then validatePbftBlockPillarVotes pillar_hash (sw_pillar w) (ss_pillar s) (pb_period block)
           (sr_pillar_votes (SyncQueue.period_rest pd))
         else Done (ss_pillar s, true)) in
      let s := set_pillar s p in
      if negb pillar_ok then Done (reject s node_id, None) else Done (s, Some (pd, cert_votes)).

Definition processPeriodData (w : SyncWorld) (s : SyncState) : outcome (SyncState * option (SyncPeriodData * list PbftVote)) :=
  let* (q, (pd, cert_votes, node_id)) := SyncQueue.pop (sync_queue_ s) in
  let s := set_queue s q in
  let block := SyncQueue.pbft_blk pd in
  let chain := pbft_chain_ (ss_mgr s) in
  if findPbftBlockInChain (sw_env w) (pb_hash block) then Done (s, None)
  else
    let* _ := oassert (bool_decide (is_Some (network (sw_env w)))) in
    if negb (pb_prev_block_hash block =? Chain.last_pbft_block_hash_ chain) then
      match sw_block_in_chain w (Chain.last_pbft_block_hash_ chain) with
      | None => AssertFailed
      | Some last => Done (if pb_period block <=? pb_period last then s else reject s node_id, None)
      end
    else if bool_decide (validateFinalChainHash (Some (sw_final_chain_hash w (pb_period block))) (full_block pd) = Invalid)
    then Done (reject s node_id, None)
    else
      let* (rewards_ok, reward_votes) := checkRewardVotes (vote_mgr_ (ss_mgr s)) (pb_period block) (pb_reward_votes block) true in
      if negb rewards_ok then Done (reject s node_id, None)
      else check_votes w s (replace_unverified pd reward_votes) cert_votes node_id.

(** The loop with a bound on its iterations; the flag says that it ended. *)
Fixpoint push_synced (fuel : nat) (world : SyncState -> SyncWorld) (s : SyncState) : outcome (SyncState * bool) :=
  if bool_decide (SyncQueue.size (sync_queue_ s) = 0%nat) then Done (s, true)
  else
    match fuel with
    | O => Done (s, false)
    | S fuel =>
        let* (s1, res) := processPeriodData (world s) s in
        match res with
        | None => push_synced fuel world s1
        | Some (pd, votes) =>
            let* (m, pushed) := pushPbftBlock_ cfg (sw_env (world s1)) (ss_mgr s1) (period_data pd) votes in
            let s2 := set_mgr s1 m in
            if pushed then push_synced fuel world (set_sync_period s2 (pbftSyncingPeriod s2)) else Done (s2, true)
        end
    end.

(** An iteration takes a block from the queue, so its length bounds the loop. *)
Definition pushSyncedPbftBlocksIntoChain (world : SyncState -> SyncWorld) (s : SyncState) : outcome (SyncState * bool) :=
  match network (sw_env (world s)) with
  | None => Done (s, true)
  | Some _ =>
      let q := SyncQueue.cleanOldData (sync_queue_ s) (getPbftPeriod (ss_mgr s)) in
      push_synced (length (SyncQueue.queue_ q)) world (set_queue s q)
  end.

(** ** Packets of the syncing peer *)

Inductive sync_result :=
| Ignored | MaliciousPeer | StopSyncing | SyncComplete | DelayedSync | Waiting
| RequestBlocks (period : PbftPeriod).

(** How the handler goes on after a block was queued. *)
Definition continue_sync (s : SyncState) (block_period sync_level_size : Z) (pbft_chain_synced last_block is_syncing : bool) :
    sync_result :=
  let pbft_sync_period := pbftSyncingPeriod s in
  if pbft_chain_synced then SyncComplete
  else if negb last_block then Waiting
  else if block_period <? pbft_sync_period then StopSyncing
  else if negb is_syncing then Waiting
  else if u64 (Chain.size_ (pbft_chain_ (ss_mgr s)) + 10 * sync_level_size) <? pbft_sync_period then DelayedSync
  else RequestBlocks (u64 (pbft_sync_period + 1)).

(** The votes a block carries when the queue is empty are verified and added. *)
Fixpoint add_reward_votes (w : SyncWorld) (size : PbftPeriod) (vm : VoteManager) (votes : list PbftVote) : outcome (VoteManager * bool) :=
  match votes with
  | [] => Done (vm, true)
  | v :: rest =>
      match (validateVote vcfg (sw_votes w) v true).2 with
      | None => Done (vm, false)
      | Some v => let* (vm, _) := addVerifiedVote vcfg (dposEligibleTotalVoteCount (sw_votes w)) size vm v in add_reward_votes w size vm rest
      end
  end.

(** The check of the reward votes for an empty queue: the block with verified votes, or why not. *)
Definition verify_reward_votes (w : SyncWorld) (s : SyncState) (pd : SyncPeriodData) :
    outcome (SyncState * (SyncPeriodData + sync_result)) :=
  let block := SyncQueue.pbft_blk pd in
  if negb (SyncQueue.empty (sync_queue_ s)) then Done (s, inl pd)
  else
    let* (vm, ok) := add_reward_votes w (Chain.size_ (pbft_chain_ (ss_mgr s))) (vote_mgr_ (ss_mgr s)) (SyncQueue.previous_block_cert_votes pd) in
    let s := set_mgr s (set_vote_mgr (ss_mgr s) vm) in
    if negb ok then Done (s, inr MaliciousPeer)
    else
      let* (rewards_ok, votes) := checkRewardVotes vm (pb_period block) (pb_reward_votes block) true in
      if rewards_ok then Done (s, inl (with_previous_votes pd votes))
      else Done (s, inr (if pb_period block <=? reward_votes_period_ vm then StopSyncing else MaliciousPeer)).

Definition process_sync_packet (w : SyncWorld) (s : SyncState) (syncing_peer : option Z) (peer : Z) (pd : SyncPeriodData)
    (current_block_cert_votes : option (list PbftVote)) (last_block is_syncing : bool) (sync_level_size : Z) :
    outcome (SyncState * sync_result) :=
  let block := SyncQueue.pbft_blk pd in
  let synced := bool_decide (is_Some current_block_cert_votes) in
  let malicious s := Done (report s peer, MaliciousPeer) in
  let go_on s := Done (s, continue_sync s (pb_period block) sync_level_size synced last_block is_syncing) in
  if negb (bool_decide (syncing_peer = Some peer)) then Done (s, Ignored)
  else if findPbftBlockInChain (sw_env w) (pb_hash block) then go_on s
  else if negb (pb_period block =? u64 (pbftSyncingPeriod s + 1)) then
    Done (s, if synced && (pb_period block =? pbftSyncingPeriod s) then SyncComplete else Ignored)
  else if existsb (fun v => negb (getBlockHash v =? pb_hash block)) (default [] current_block_cert_votes) then malicious s
  else if existsb (fun v => negb (getBlockHash v =? lastPbftBlockHashFromQueueOrChain s)) (SyncQueue.previous_block_cert_votes pd)
  then malicious s
  else if negb (validatePillarDataInPeriodData pd) then malicious s
  else if negb (calculateOrderHash (sw_env w) (sr_dag_blocks (SyncQueue.period_rest pd)).*1 =? sr_order_hash (SyncQueue.period_rest pd))
  then malicious s
  else
    let* (s, r) := verify_reward_votes w s pd in
    match r with
    | inr MaliciousPeer => malicious s
    | inr r => Done (s, r)
    | inl pd => go_on (periodDataQueuePush s pd peer (default [] current_block_cert_votes))
    end.
End sync.

(** ** The loop ends *)

Section proofs.
Context (cfg : PbftMgrConfig) (vcfg : PbftConfig) (pillar_hash : PillarBlock -> blk_hash_t).
#[local] Set Default Proof Using "Type".
#[local] Instance proof_service : VoteService VoteManager := vote_manager_service vcfg.
#[local] Instance proof_laws : VoteServiceLaws VoteManager := vote_manager_laws vcfg.

Abbreviation queue_length s := (length (SyncQueue.queue_ (sync_queue_ s))).

Lemma pop_shorter (q q' : SyncQueue) x : SyncQueue.pop q = Done (q', x) -> length (SyncQueue.queue_ q) = S (length (SyncQueue.queue_ q')).
Proof.
  unfold SyncQueue.pop. destruct (SyncQueue.queue_ q) as [|[b n] [|[b' n'] l]] eqn:E; try done; by intros [= <- <-].
Qed.

Lemma share_votes_length q votes : length (SyncQueue.queue_ (share_votes q votes)) = length (SyncQueue.queue_ q).
Proof. unfold share_votes. by destruct (SyncQueue.queue_ q) as [|[pd n] l] eqn:E; simpl; rewrite ?E. Qed.

Lemma check_votes_shorter w s pd votes n s' r :
  check_votes cfg vcfg pillar_hash w s pd votes n = Done (s', r) -> (queue_length s' <= queue_length s)%nat.
Proof.
  unfold check_votes. destruct (validatePbftBlockCertVotes _ _ _ _ _ _ _) as [[vm ok]| |]; simpl; try done.
  destruct ok; simpl; [|intros [= <- <-]; simpl; lia].
  destruct (negb _); simpl; [intros [= <- <-]; simpl; lia|].
  destruct (if isPbftWithPillarBlockPeriod cfg _ then _ else _) as [[p ok]| |]; simpl; try done.
  destruct ok; simpl; intros [= <- <-]; simpl; rewrite ?share_votes_length; lia.
Qed.

Lemma processPeriodData_shorter w s s' r :
  processPeriodData cfg vcfg pillar_hash w s = Done (s', r) -> (queue_length s' < queue_length s)%nat.
Proof.
  unfold processPeriodData. destruct (SyncQueue.pop (sync_queue_ s)) as [[q [[pd votes] n]]| |] eqn:Ep; simpl; try done.
  apply pop_shorter in Ep. destruct (findPbftBlockInChain _ _); [intros [= <- <-]; simpl; lia|].
  destruct (bool_decide _); simpl; [|done]. destruct (negb _).
  { destruct (sw_block_in_chain w _) as [last|]; [|done]. intros [= <- <-]. destruct (_ <=? _); simpl; lia. }
  destruct (bool_decide _); [intros [= <- <-]; simpl; lia|].
  destruct (checkRewardVotes _ _ _ _) as [[ok rv]| |]; simpl; try done. destruct ok; simpl; [|intros [= <- <-]; simpl; lia].
  intros Hc%check_votes_shorter. simpl in Hc. lia.
Qed.

Lemma push_synced_ends fuel world s s' b :
  (queue_length s <= fuel)%nat -> push_synced cfg vcfg pillar_hash fuel world s = Done (s', b) -> b = true.
Proof.
  revert s. induction fuel as [|fuel IH]; intros s Hl; simpl; (case_bool_decide as Hsz; [by intros [= <- <-]|]).
  { destruct Hsz. unfold SyncQueue.size. destruct (SyncQueue.queue_ (sync_queue_ s)); simpl in *; [|lia]. by destruct (_ || _). }
  destruct (processPeriodData _ _ _ _ s) as [[s1 r]| |] eqn:Ep; simpl; try done. apply processPeriodData_shorter in Ep.
  destruct r as [[pd votes]|]; [|apply IH; lia].
  destruct (pushPbftBlock_ cfg _ _ _ _) as [[m pushed]| |]; simpl; try done.
  destruct pushed; [|by intros [= <- <-]]. apply IH. simpl. lia.
Qed.

(** ** The loop as steps of the manager *)

Lemma set_vote_mgr_self (m : PbftManager VoteManager) : set_vote_mgr m (vote_mgr_ m) = m.
Proof. by destruct m. Qed.

Lemma sum_cert_votes_steps (m : PbftManager VoteManager) env block p r strict k votes i vm w vm' res :
  sum_cert_votes vcfg env (Chain.size_ (pbft_chain_ m)) block p r strict k i votes vm w = Done (vm', res) ->
  rtc (pm_step cfg) (set_vote_mgr m vm) (set_vote_mgr m vm').
Proof.
  revert i vm w. induction votes as [|v votes IH]; intros i vm w; simpl; [by intros [= <- <-]|].
  destruct (negb _); [by intros [= <- <-]|]. destruct (validateVote vcfg env v _).2 as [x|]; [|by intros [= <- <-]].
  destruct (addVerifiedVote vcfg _ _ vm x) as [[vm1 added]| |] eqn:Ea; simpl; try done. intros Hs.
  eapply rtc_l; [|by eapply IH]. exact (pm_vote cfg (dposEligibleTotalVoteCount env) (set_vote_mgr m vm) x vm1 added Ea).
Qed.

Lemma validatePbftBlockCertVotes_steps env random (m : PbftManager VoteManager) block votes vm b :
  validatePbftBlockCertVotes vcfg env random (Chain.size_ (pbft_chain_ m)) (vote_mgr_ m) block votes = Done (vm, b) ->
  rtc (pm_step cfg) m (set_vote_mgr m vm).
Proof.
  unfold validatePbftBlockCertVotes. destruct votes as [|first votes]; [done|].
  destruct (negb _); [intros [= <- <-]; by rewrite set_vote_mgr_self|].
  match goal with |- context [obind ?x _] => destruct x as [[vm1 res]| |] eqn:Es end; cbn [obind]; try done.
  apply (sum_cert_votes_steps m) in Es. rewrite set_vote_mgr_self in Es. destruct res as [w|]; [|by intros [= <- <-]].
  pose proof (getPbftTwoTPlusOne_votes vcfg (dposEligibleTotalVoteCount env) (Chain.size_ (pbft_chain_ m)) vm1
    (u64 (getPeriod first - 1)) cert_vote) as Ev.
  destruct (getPbftTwoTPlusOne _ _ _ vm1 _ _) as [vm2 q]. cbn [fst] in Ev. intros Hd.
  assert (vm = vm2) as -> by (by destruct q; injection Hd as <-). eapply rtc_r; [exact Es|].
  apply (pm_threshold cfg (set_vote_mgr m vm1)). intros p r t. cbn. by rewrite Ev.
Qed.

Lemma check_votes_steps w s pd votes n s' r :
  check_votes cfg vcfg pillar_hash w s pd votes n = Done (s', r) ->
  rtc (pm_step cfg) (ss_mgr s) (ss_mgr s') /\ moves 0 (ss_mgr s) (ss_mgr s').
Proof.
  unfold check_votes. destruct (validatePbftBlockCertVotes _ _ _ _ _ _ _) as [[vm ok]| |] eqn:Ev; simpl; try done.
  intros Hs. assert (ss_mgr s' = set_vote_mgr (ss_mgr s) vm) as E.
  { destruct ok; simpl in Hs; [|by injection Hs as <- <-]. destruct (negb _) in Hs; [by injection Hs as <- <-|].
    destruct (if isPbftWithPillarBlockPeriod cfg _ then _ else _) as [[p ok]| |]; simpl in Hs; try done.
    destruct ok; simpl in Hs; by injection Hs as <- <-. }
  rewrite E. split; [by eapply validatePbftBlockCertVotes_steps|by apply moves_same].
Qed.

Lemma processPeriodData_steps w s s' r :
  processPeriodData cfg vcfg pillar_hash w s = Done (s', r) ->
  rtc (pm_step cfg) (ss_mgr s) (ss_mgr s') /\ moves 0 (ss_mgr s) (ss_mgr s').
Proof.
  assert (rtc (pm_step cfg) (ss_mgr s) (ss_mgr s) /\ moves 0 (ss_mgr s) (ss_mgr s)) as Hid by (split; [done|by apply moves_same]).
  unfold processPeriodData. destruct (SyncQueue.pop (sync_queue_ s)) as [[q [[pd votes] n]]| |]; simpl; try done.
  destruct (findPbftBlockInChain _ _); [by intros [= <- <-]|]. destruct (bool_decide _); simpl; [|done]. destruct (negb _).
  { destruct (sw_block_in_chain w _) as [last|]; [|done]. intros [= <- <-]. by destruct (_ <=? _). }
  destruct (bool_decide _); [by intros [= <- <-]|].
  destruct (checkRewardVotes _ _ _ _) as [[ok rv]| |]; simpl; try done. destruct ok; simpl; [|by intros [= <- <-]].
  intros Hc%check_votes_steps. exact Hc.
Qed.

Lemma push_synced_steps fuel world s s' b :
  pm_inv (ss_mgr s) -> Chain.size_ (pbft_chain_ (ss_mgr s)) + Z.of_nat fuel < 2 ^ 64 - 2 ->
  push_synced cfg vcfg pillar_hash fuel world s = Done (s', b) ->
  rtc (pm_step cfg) (ss_mgr s) (ss_mgr s') /\ moves (Z.of_nat fuel) (ss_mgr s) (ss_mgr s').
Proof.
  revert s. induction fuel as [|fuel IH]; intros s Hinv Hsz; cbn [push_synced]; (case_bool_decide as Hz; 
    [intros [= <- <-]; split; [done|apply moves_same; [lia|done..]]|]).
  { intros [= <- <-]. split; [done|by apply moves_same]. }
  destruct (processPeriodData _ _ _ _ s) as [[s1 r]| |] eqn:Ep; simpl; try done.
  apply processPeriodData_steps in Ep as [S1 M1]. pose proof (steps_inv cfg _ _ Hinv S1) as Hinv1.
  assert (forall s2, ss_mgr s2 = ss_mgr s1 -> push_synced cfg vcfg pillar_hash fuel world s2 = Done (s', b) ->
    rtc (pm_step cfg) (ss_mgr s) (ss_mgr s') /\ moves (Z.of_nat (S fuel)) (ss_mgr s) (ss_mgr s')) as Hnone.
  { intros s2 E2 Hp. apply IH in Hp; rewrite E2 in *; [|done|unfold moves in M1; lia].
    destruct Hp as [S2 M2]. split; [by etrans|]. unfold moves in *. lia. }
  destruct r as [[pd votes]|]; [|by apply Hnone].
  destruct (pushPbftBlock_ cfg _ _ _ _) as [[m pushed]| |] eqn:Eq; simpl; try done.
  assert (0 <= Chain.size_ (pbft_chain_ (ss_mgr s1)) < 2 ^ 64 - 2) as Hb.
  { split; [apply (i_size _ Hinv1)|unfold moves in M1; lia]. }
  pose proof (pushPbftBlock_moves cfg _ _ _ _ _ _ Hb Eq) as M2.
  assert (rtc (pm_step cfg) (ss_mgr s) m) as S2 by (eapply rtc_r; [exact S1|]; eapply pm_push; [apply Hb|exact Eq]).
  destruct pushed; [|intros [= <- <-]; split; [done|unfold moves in *; simpl; lia]].
  intros Hp. apply IH in Hp; simpl in *; [|by apply (steps_inv cfg (ss_mgr s))|unfold moves in *; lia].
  destruct Hp as [S3 M3]. split; [by etrans|]. unfold moves in *. lia.
Qed.

(** ** What is accepted *)

(** The sum of the weights of the votes as validation leaves them. *)
Lemma sum_cert_votes_exact env size block p r strict k votes : forall i vm w vm' w',
  sum_cert_votes vcfg env size block p r strict k i votes vm w = Done (vm', Some w') -> 0 <= w < 2 ^ 64 ->
  w' = u64 (w + sum_list_Z weight_of
    (imap (fun j v => default v (validateVote vcfg env v (strict || (i + Z.of_nat j =? k))).2) votes)) /\
  forall j v, votes !! j = Some v -> cert_vote_matches block p r v = true /\
    is_Some (validateVote vcfg env v (strict || (i + Z.of_nat j =? k))).2.
Proof.
  induction votes as [|v votes IH]; intros i vm w vm' w'; simpl.
  - intros [= <- <-] Hw. split; [by rewrite Z.add_0_r, wrap_id|done].
  - destruct (cert_vote_matches block p r v) eqn:Em; simpl; [|done].
    destruct (validateVote vcfg env v (strict || (i =? k))).2 as [x|] eqn:Ev; [|done].
    destruct (addVerifiedVote vcfg _ size vm x) as [[vm1 added]| |]; simpl; try done.
    intros Hs Hw. apply IH in Hs as [-> Hf]; [|by apply (wrap_range 64)]. split.
    + rewrite wrap_add_l, <- Z.add_assoc, Z.add_0_r, Ev. simpl. do 2 f_equal. unfold sum_list_Z. simpl. f_equal.
      f_equal. apply imap_ext. intros j v' _. unfold compose. by replace (i + 1 + Z.of_nat j) with (i + Z.of_nat (S j)) by lia.
    + intros [|j] v'; simpl.
      * intros [= <-]. rewrite Z.add_0_r, Ev. by split; [|eexists].
      * intros Hj. destruct (Hf j v' Hj) as [? Hv]. split; [done|].
        by replace (i + Z.of_nat (S j)) with (i + 1 + Z.of_nat j) by lia.
Qed.

(** Votes that were validated as the cert votes of a block with 2t+1. *)
Definition certified (w : SyncWorld) (s : SyncState) (block : PbftBlock) (votes validated : list PbftVote) : Prop :=
  validated = validated_votes vcfg w block votes /\ validated <> [] /\
  (exists r, forall v, v ∈ votes -> getPeriod v = pb_period block /\ getRound v = r /\ getType v = cert_vote /\
     getBlockHash v = pb_hash block) /\
  (forall j v, votes !! j = Some v -> exists strict, validated !! j = (validateVote vcfg (sw_votes w) v strict).2 /\
     is_Some (validateVote vcfg (sw_votes w) v strict).2) /\
  exists vm vm' q, getPbftTwoTPlusOne vcfg (dposEligibleTotalVoteCount (sw_votes w)) (Chain.size_ (pbft_chain_ (ss_mgr s))) vm
    (u64 (pb_period block - 1)) cert_vote = (vm', Some q) /\ q <= u64 (sum_list_Z weight_of validated).

Lemma validated_certified w s block votes vm :
  validatePbftBlockCertVotes vcfg (sw_votes w) (sw_random w) (Chain.size_ (pbft_chain_ (ss_mgr s)))
    (vote_mgr_ (ss_mgr s)) block votes = Done (vm, true) -> certified w s block votes (validated_votes vcfg w block votes).
Proof.
  unfold validatePbftBlockCertVotes. destruct votes as [|first votes]; [done|]. set (l := first :: votes).
  destruct (Z.eqb_spec (pb_period block) (getPeriod first)) as [Ep|]; cbn [negb]; [|done].
  match goal with |- context [obind ?x _] => destruct x as [[vm1 res]| |] eqn:Es end; cbn [obind]; try done.
  destruct res as [wt|]; [|done]. destruct (getPbftTwoTPlusOne _ _ _ _ _ _) as [vm2 [q|]] eqn:Eq; [|done].
  destruct (Z.ltb_spec wt q) as [|Hq]; simpl; [done|]. intros [= <-].
  apply sum_cert_votes_exact in Es as [-> Hf]; [|done]. split; [done|]. split; [done|]. split.
  { exists (getRound first). intros v [j Hj]%list_elem_of_lookup. destruct (Hf j v Hj) as [Hm _].
    unfold cert_vote_matches in Hm. rewrite !andb_true_iff, !Z.eqb_eq, bool_decide_eq_true in Hm. rewrite Ep. naive_solver. }
  split.
  { intros j v Hj. destruct (Hf j v Hj) as [_ Hv]. eexists. split; [|exact Hv]. unfold validated_votes. fold l.
    rewrite list_lookup_imap, Hj. cbn [fmap option_fmap option_map]. destruct Hv as [x Hx]. rewrite Hx.
    rewrite Z.add_0_l in Hx. unfold full_vote_validation_interval, l in *. by rewrite Hx. }
  exists vm1, vm2, q. rewrite Ep. split; [done|]. exact Hq.
Qed.

(** [sync_of] is what the loop of the manager sees of synchronisation. *)
Definition sync_of (world : SyncState -> SyncWorld) (s : SyncState) (m : PbftManager VoteManager) : outcome (PbftManager VoteManager) :=
  let* (s', _) := pushSyncedPbftBlocksIntoChain cfg vcfg pillar_hash world (set_mgr s m) in Done (ss_mgr s').

Lemma pop_old_length (queue : list (SyncPeriodData * Z)) p : (length (SyncQueue.pop_old queue p) <= length queue)%nat.
Proof. induction queue as [|[b n] l IH]; simpl; [done|]. destruct (_ <? _); simpl; [|done]. by apply le_S. Qed.

Lemma sync_of_steps world s m m' :
  pm_inv m -> Chain.size_ (pbft_chain_ m) + Z.of_nat (queue_length s) < 2 ^ 64 - 2 -> sync_of world s m = Done m' ->
  rtc (pm_step cfg) m m' /\ moves (Z.of_nat (queue_length s)) m m'.
Proof.
  intros Hinv Hsz. unfold sync_of, pushSyncedPbftBlocksIntoChain.
  destruct (network _); [|intros [= <-]; split; [done|apply moves_same; [lia|done..]]]. cbn [sync_queue_ set_mgr ss_mgr].
  set (q := SyncQueue.cleanOldData _ _).
  assert (length (SyncQueue.queue_ q) <= queue_length s)%nat as Hl by apply pop_old_length. clearbody q.
  destruct (push_synced _ _ _ _ _ _) as [[s1 ended]| |] eqn:E; simpl; try done. intros [= <-].
  apply push_synced_steps in E; [|done|cbn [ss_mgr set_queue set_mgr]; lia]. destruct E as [E1 E2]. split; [exact E1|].
  unfold moves in *. simpl in *. lia.
Qed.

(** ** Theorems *)

(** C8: the loop that takes blocks from the synchronisation queue ends: it never needs
    more iterations than the queue has blocks, whatever the other components answer. *)
Theorem synchronisation_ends world s s' :
  pushSyncedPbftBlocksIntoChain cfg vcfg pillar_hash world s <> Done (s', false).
Proof.
  unfold pushSyncedPbftBlocksIntoChain. destruct (network _); [|done]. intros E.
  apply push_synced_ends in E; done.
Qed.


(** C5: an iteration of the loop of a validator with synchronisation in it, from a
    reachable state, is again a run: the votes the validator has cast afterwards are
    safe, at most one block per cert voted round. *)
Theorem loop_with_sync_safe vm chain wallets m env world s m' :
  0 <= Chain.size_ chain < 2 ^ 64 - 1 -> rtc (pm_step cfg) (genesis_manager cfg vm chain wallets) m -> generates_ok env ->
  step_m m < 2 ^ 32 - 1 -> Chain.size_ (pbft_chain_ m) + Z.of_nat (queue_length s) < 2 ^ 64 - 2 ->
  run_iteration cfg env (sync_of world s) m = Done m' ->
  rtc (pm_step cfg) (genesis_manager cfg vm chain wallets) m' /\ votes_safe (own_votes m').
Proof.
  intros Hsz Hr Hg Hst Hq Hrun. pose proof (reach_inv cfg vm chain wallets m Hsz Hr) as Hinv.
  assert (rtc (pm_step cfg) m m') as Hs.
  { apply (run_iteration_steps cfg (Z.of_nat (queue_length s)) env (sync_of world s)); try done; [lia|].
    intros m1. by apply sync_of_steps. }
  split; [by etrans|]. apply (i_safe _ (steps_inv cfg m m' Hinv Hs)).
Qed.
End proofs.

(** ** Concrete packets *)

Definition ex_senv : Env :=
  mkEnv 100 (Some false) (fun _ => Some 3) (fun _ => true) (fun _ _ _ _ _ _ => None) (fun _ => 0) None
    (fun _ _ _ => false) (fun v => getHash v) (fun _ => false) (fun _ => Some []) (fun _ _ _ => false)
    (fun _ => None) (fun _ _ _ _ p _ _ _ => mkPbftBlock 0 0 0 p []) (fun _ => []) None (fun _ _ => []) (fun _ => None) (fun _ => 0)
    (fun _ _ => true) 0 5
    (fun _ => false) (fun _ => []) (fun _ => None) (fun _ => Some []) (fun _ => []) (fun _ => None) None.
Definition ex_world : SyncWorld :=
  mkSyncWorld ex_senv ex_vote_env (ex_pillar_env ex_counts_at) (fun _ => 9) (fun _ => None) 7 (fun _ => false) (fun _ => true).
Definition ex_sync_start : SyncState := mkSyncState ex_start SyncQueue.emptyQueue no_pillar_blocks [] None [].
Definition ex_period (b : PbftBlock) (votes : list PbftVote) : SyncPeriodData :=
  SyncQueue.mkPeriodData b votes (mkSyncRest 0 9 None [] [] None).
Definition ex_receive_block (s : SyncState) (b : PbftBlock) (votes : list PbftVote) : SyncState :=
  (or_self (process_sync_packet ex_cfg sample_cfg ex_world s (Some 5) 5 (ex_period b votes) None false true 10) (s, Ignored)).1.
Definition ex_first : PbftBlock := mkPbftBlock 70 0 0 1 [].
Definition ex_second : PbftBlock := mkPbftBlock 71 70 0 2 [].


Definition ex_synced : SyncState :=
  ex_receive_block (ex_receive_block ex_sync_start ex_first []) ex_second [ex_cert 1; ex_cert 2; ex_cert 3].
#[local] Instance ex_sync_service : VoteService VoteManager := vote_manager_service sample_cfg.

Definition ex_iterated : PbftManager VoteManager :=
  or_self (run_iteration ex_cfg ex_senv (sync_of ex_cfg sample_cfg ex_block_hash (fun _ => ex_world) ex_synced) ex_start) ex_start.


Example loop_with_sync_safe_witness :
  Chain.size_ (pbft_chain_ ex_iterated) = 1 /\ rtc (pm_step ex_cfg) ex_start ex_iterated.
Proof.
  split; [vm_compute; reflexivity|].
  refine (proj1 (loop_with_sync_safe ex_cfg sample_cfg ex_block_hash (fresh_manager empty_db) (Chain.mkPbftChain 1 0 0 0 0) [7]
    ex_start ex_senv (fun _ => ex_world) ex_synced ex_iterated ex_size (rtc_refl _ _) _ eq_refl eq_refl _)).
  - intros h t p r s a v [=].
  - vm_compute. reflexivity.
Defined.
