(* ===== verification/Rewards.v ===== *)
(** * Rewards statistics

    [BlockStats] and [Stats] (consensus/src/rewards/{block_stats,rewards_stats}.cpp): who
    earned what in a period, and in which period the statistics of an interval are handed
    to the contract that pays the rewards.  With [getRewardsDistributionFrequency]
    (config/src/hardfork.cpp) and the column [block_rewards_stats]. *)

From S2P Require Import Prelude Votes.
Local Open Scope Z_scope.
Local Open Scope outcome_scope.

(** ** The statistics of a block *)

Record ValidatorStats := mkValidatorStats { dag_blocks_count_ : Z; vote_weight_ : Z; fees_rewards_ : Z }.
Definition no_stats : ValidatorStats := mkValidatorStats 0 0 0.

Record BlockStats := mkBlockStats {
  block_author_ : addr_t;
  blocks_per_year_ : Z;
  fee_by_trx_hash_ : gmap Z Z;
  validators_stats_ : gmap addr_t ValidatorStats;
  total_dag_blocks_count_ : Z;
  total_votes_weight_ : Z;
  max_votes_weight_ : Z;
}.

Definition set_fees (s : BlockStats) (fees : gmap Z Z) : BlockStats :=
  mkBlockStats (block_author_ s) (blocks_per_year_ s) fees (validators_stats_ s) (total_dag_blocks_count_ s) (total_votes_weight_ s) (max_votes_weight_ s).
Definition set_validator (s : BlockStats) (a : addr_t) (v : ValidatorStats) : BlockStats :=
  mkBlockStats (block_author_ s) (blocks_per_year_ s) (fee_by_trx_hash_ s) (<[a := v]> (validators_stats_ s)) (total_dag_blocks_count_ s)
    (total_votes_weight_ s) (max_votes_weight_ s).
Definition set_totals (s : BlockStats) (dag_blocks votes : Z) : BlockStats :=
  mkBlockStats (block_author_ s) (blocks_per_year_ s) (fee_by_trx_hash_ s) (validators_stats_ s) dag_blocks votes (max_votes_weight_ s).

(** [validators_stats_[a]] *)
Definition stats_of (s : BlockStats) (a : addr_t) : ValidatorStats := default no_stats (validators_stats_ s !! a).

Record RewardDagBlock := mkRewardDagBlock { rd_sender : addr_t; rd_trxs : list Z; rd_difficulty : Z }.

(** What the statistics read of a period; a transaction is its hash and its gas price. *)
Record RewardPeriod := mkRewardPeriod {
  rp_period : Z;
  rp_beneficiary : addr_t;
  rp_transactions : list (Z * Z);
  rp_dag_blocks : list RewardDagBlock;
  rp_cert_votes : list PbftVote;
}.

Fixpoint initFeeByTrxHash (transactions : list (Z * Z)) (gas_used : option (list Z)) (fees : gmap Z Z) : outcome (gmap Z Z) :=
  match transactions with
  | [] => Done fees
  | (h, price) :: rest =>
      let add gas := match fees !! h with Some _ => fees | None => <[h := u256 (price * gas)]> fees end in
      match gas_used with
      | None => initFeeByTrxHash rest None (add 0)
      | Some (gas :: gases) => initFeeByTrxHash rest (Some gases) (add gas)
      | Some [] => Undefined
      end
  end.

Definition addTransaction (s : BlockStats) (h : Z) (validator : addr_t) : BlockStats * bool :=
  match fee_by_trx_hash_ s !! h with
  | None => (s, false)
  | Some fee =>
      let v := stats_of s validator in
      let s := set_validator s validator (mkValidatorStats (dag_blocks_count_ v) (vote_weight_ v) (u256 (fees_rewards_ v + fee))) in
      (set_fees s (delete h (fee_by_trx_hash_ s)), true)
  end.

Definition addVote (s : BlockStats) (vote : PbftVote) : outcome BlockStats :=
  let v := stats_of s (getVoterAddr vote) in
  let* _ := oassert (vote_weight_ v =? 0) in
  match getWeight vote with
  | None => AssertFailed
  | Some w =>
      let s := set_totals s (total_dag_blocks_count_ s) (u64 (total_votes_weight_ s + w)) in
      Done (set_validator s (getVoterAddr vote) (mkValidatorStats (dag_blocks_count_ v) w (fees_rewards_ v)))
  end.

(** A DAG block that counts. *)
Definition count_dag_block (s : BlockStats) (author : addr_t) : BlockStats :=
  let v := stats_of s author in
  let s := set_validator s author (mkValidatorStats (u32 (dag_blocks_count_ v + 1)) (vote_weight_ v) (fees_rewards_ v)) in
  set_totals s (u32 (total_dag_blocks_count_ s + 1)) (total_votes_weight_ s).

Definition add_dag_transactions (included : list Z) (author : addr_t) (trxs : list Z) (s : BlockStats) : BlockStats * bool :=
  foldl (fun acc h =>
    if bool_decide (h ∈ included) then let '(s, added) := addTransaction acc.1 h author in (s, acc.2 || added) else acc) (s, false) trxs.

Definition processDagBlocks (s : BlockStats) (b : RewardPeriod) : BlockStats :=
  foldl (fun s d =>
    let '(s, has_unique_transactions) := add_dag_transactions (rp_transactions b).*1 (rd_sender d) (rd_trxs d) s in
    if has_unique_transactions : bool then count_dag_block s (rd_sender d) else s) s (rp_dag_blocks b).

Definition min_difficulty (blocks : list RewardDagBlock) : Z :=
  foldl (fun m d => if rd_difficulty d <? m then rd_difficulty d else m) 65535 blocks.

Definition processDagBlocksAspen (s : BlockStats) (b : RewardPeriod) : BlockStats :=
  let min := min_difficulty (rp_dag_blocks b) in
  foldl (fun s d =>
    let s := if rd_difficulty d =? min then count_dag_block s (rd_sender d) else s in
    foldl (fun s h => (addTransaction s h (rd_sender d)).1) s (rd_trxs d)) s (rp_dag_blocks b).

Definition process_stats (s : BlockStats) (b : RewardPeriod) (aspen_dag_rewards : bool) : outcome BlockStats :=
  let* _ := oassert (bool_decide (size (fee_by_trx_hash_ s) = length (rp_transactions b))) in
  let s := if aspen_dag_rewards then processDagBlocksAspen s b else processDagBlocks s b in
  ofold addVote (rp_cert_votes b) s.

Definition newBlockStats (b : RewardPeriod) (blocks_per_year : Z) (gas_used : list Z) (dpos_vote_count committee_size : Z)
    (aspen_dag_reward : bool) : outcome BlockStats :=
  let* fees := initFeeByTrxHash (rp_transactions b) (match gas_used with [] => None | _ => Some gas_used end) ∅ in
  process_stats (mkBlockStats (rp_beneficiary b) blocks_per_year fees ∅ 0 0 (Z.min committee_size dpos_vote_count)) b aspen_dag_reward.

(** ** The intervals *)

Record RewardsConfig := mkRewardsConfig {
  rewards_distribution_frequency : gmap Z Z;
  magnolia_block_num : Z;
  aspen_block_num_part_one : Z;
  kCommitteeSize : Z;
}.

(** The entry of the greatest block number that is not above [block]. *)
Definition getRewardsDistributionFrequency (c : RewardsConfig) (block : Z) : Z :=
  match last (filter (fun e => e.1 <= block) (map_items (rewards_distribution_frequency c))) with
  | Some e => e.2
  | None => 1
  end.

(** The cached statistics and the database column. *)
Record Stats := mkStats { blocks_stats_ : gmap Z BlockStats; block_rewards_stats : gmap Z BlockStats }.

(** The encoding does not contain the fees that are not yet assigned. *)
Definition stored (s : BlockStats) : BlockStats := set_fees s ∅.

Section stats.
Context (cfg : RewardsConfig) (dpos_eligible_total_vote_count : Z -> Z) (iter : gmap Z BlockStats -> list (Z * BlockStats)).

Definition clear (s : Stats) (current_period : Z) : Stats :=
  let frequency := getRewardsDistributionFrequency cfg current_period in
  if (1 <? frequency) && (current_period mod frequency =? 0) then mkStats ∅ ∅ else s.

Definition recoverFromDb (s : Stats) (last_block_number : Z) : Stats :=
  let s := if last_block_number =? 0 then s else clear s last_block_number in
  mkStats (block_rewards_stats s) (block_rewards_stats s).

Definition getBlockStats (b : RewardPeriod) (blocks_per_year : Z) (gas_used : list Z) : outcome BlockStats :=
  let dpos_vote_count :=
    match rp_cert_votes b with
    | v :: _ => dpos_eligible_total_vote_count (u64 (getPeriod v - 1))
    | [] => kCommitteeSize cfg
    end in
  if rp_period b <? magnolia_block_num cfg then newBlockStats b blocks_per_year [] dpos_vote_count (kCommitteeSize cfg) false
  else newBlockStats b blocks_per_year gas_used dpos_vote_count (kCommitteeSize cfg) (aspen_block_num_part_one cfg <=? rp_period b).

(** The statistics to distribute, each with its period, and the statistics saved with the batch. *)
Definition processStats (s : Stats) (b : RewardPeriod) (blocks_per_year : Z) (gas_used : list Z) : outcome (Stats * list (Z * BlockStats)) :=
  let period := rp_period b in
  let frequency := getRewardsDistributionFrequency cfg period in
  let* stats := getBlockStats b blocks_per_year gas_used in
  if frequency =? 1 then Done (s, [(period, stats)])
  else
    let s := mkStats (<[period := stats]> (blocks_stats_ s)) (block_rewards_stats s) in
    if frequency =? 0 then Undefined
    else if negb (period mod frequency =? 0) then
      Done (mkStats (blocks_stats_ s) (<[period := stored stats]> (block_rewards_stats s)), [])
    else if period <? aspen_block_num_part_one cfg then Done (s, iter (blocks_stats_ s))
    else Done (s, map_items (blocks_stats_ s)).
End stats.

(** ** What a block earns is what its validators earn *)

Lemma map_sum_replace (f : ValidatorStats -> Z) (vs : gmap addr_t ValidatorStats) a v :
  f no_stats = 0 -> map_sum f (<[a := v]> vs) = map_sum f vs - f (default no_stats (vs !! a)) + f v.
Proof.
  intros H0. destruct (vs !! a) as [x|] eqn:E; simpl.
  - rewrite <- insert_delete_eq, map_sum_insert by apply lookup_delete_eq. rewrite (map_sum_delete f vs a x E). lia.
  - rewrite map_sum_insert by done. lia.
Qed.

Definition assigned (s : BlockStats) : Z := map_sum fees_rewards_ (validators_stats_ s).
Definition unassigned (s : BlockStats) : Z := map_sum id (fee_by_trx_hash_ s).

(** The sums of the statistics agree with the totals. *)
Record balanced (fees : Z) (s : BlockStats) : Prop := {
  b_fees : u256 (assigned s + unassigned s) = u256 fees;
  b_dag : total_dag_blocks_count_ s = u32 (map_sum dag_blocks_count_ (validators_stats_ s));
  b_votes : total_votes_weight_ s = u64 (map_sum vote_weight_ (validators_stats_ s));
}.

Lemma addTransaction_balanced fees s h a : balanced fees s -> balanced fees (addTransaction s h a).1.
Proof.
  intros [B1 B2 B3]. unfold addTransaction. destruct (fee_by_trx_hash_ s !! h) as [fee|] eqn:E; [|done]. simpl.
  unfold stats_of. split; unfold assigned, unassigned in *; simpl; rewrite ?map_sum_replace by done; simpl.
  - rewrite <- B1. pose proof (map_sum_delete id (fee_by_trx_hash_ s) h fee E) as Hd. simpl in Hd.
    set (v := default no_stats _). set (F := map_sum fees_rewards_ _) in *. set (U := map_sum id (fee_by_trx_hash_ s)) in *.
    set (U' := map_sum id (delete h _)) in *.
    replace (F - fees_rewards_ v + u256 (fees_rewards_ v + fee) + U') with (u256 (fees_rewards_ v + fee) + (F - fees_rewards_ v + U')) by lia.
    rewrite wrap_add_l. f_equal. lia.
  - rewrite B2. f_equal. lia.
  - rewrite B3. f_equal. lia.
Qed.

Lemma count_dag_block_balanced fees s a : balanced fees s -> balanced fees (count_dag_block s a).
Proof.
  intros [B1 B2 B3]. unfold count_dag_block, stats_of. split; unfold assigned, unassigned in *; simpl; rewrite ?map_sum_replace by done; simpl.
  - rewrite <- B1. f_equal. lia.
  - rewrite B2, wrap_add_l. set (v := default no_stats _). set (D := map_sum dag_blocks_count_ _).
    replace (D - dag_blocks_count_ v + u32 (dag_blocks_count_ v + 1)) with (u32 (dag_blocks_count_ v + 1) + (D - dag_blocks_count_ v)) by lia.
    rewrite wrap_add_l. f_equal. lia.
  - rewrite B3. f_equal. lia.
Qed.

Lemma addVote_balanced fees s vote s' : balanced fees s -> addVote s vote = Done s' -> balanced fees s'.
Proof.
  intros [B1 B2 B3]. unfold addVote, oassert. destruct (Z.eqb_spec (vote_weight_ (stats_of s (getVoterAddr vote))) 0) as [Hz|]; simpl; [|done].
  destruct (getWeight vote) as [w|]; [|done]. intros [= <-]. unfold stats_of in *.
  split; unfold assigned, unassigned in *; simpl; rewrite ?map_sum_replace by done; simpl.
  - rewrite <- B1. f_equal. lia.
  - rewrite B2. f_equal. lia.
  - rewrite B3, wrap_add_l, Hz. f_equal. lia.
Qed.

(** The transactions of the DAG blocks lose their fee in the map, the others keep it. *)
Lemma addTransaction_fees s h a : fee_by_trx_hash_ (addTransaction s h a).1 = delete h (fee_by_trx_hash_ s).
Proof. unfold addTransaction. destruct (fee_by_trx_hash_ s !! h) eqn:E; [done|]. simpl. by rewrite delete_id. Qed.

Definition spent (s s' : BlockStats) (hs : list Z) : Prop :=
  forall h, fee_by_trx_hash_ s' !! h = if bool_decide (h ∈ hs) then None else fee_by_trx_hash_ s !! h.

Lemma spent_app s s1 s2 l1 l2 : spent s s1 l1 -> spent s1 s2 l2 -> spent s s2 (l1 ++ l2).
Proof. intros H1 H2 h. rewrite H2, H1. repeat case_bool_decide; set_solver. Qed.

Lemma spent_count s a l s0 : spent s0 s l -> spent s0 (count_dag_block s a) l.
Proof. done. Qed.

Lemma aspen_trxs_spent s a l : spent s (foldl (fun s h => (addTransaction s h a).1) s l) l.
Proof.
  induction l as [|h l IH] in s |- *; simpl; [done|]. intros k. rewrite IH, addTransaction_fees, lookup_delete. 
  repeat case_bool_decide; repeat case_decide; set_solver.
Qed.

Lemma aspen_trxs_balanced fees s a l : balanced fees s -> balanced fees (foldl (fun s h => (addTransaction s h a).1) s l).
Proof. revert s. induction l as [|h l IH]; intros s Hs; simpl; [done|]. by apply IH, addTransaction_balanced. Qed.

Lemma dag_trxs_effect (included : list Z) a l fees : forall s added,
  balanced fees s -> (forall h, is_Some (fee_by_trx_hash_ s !! h) -> h ∈ included) ->
  let r := foldl (fun acc h => if bool_decide (h ∈ included) then let '(s, added) := addTransaction acc.1 h a in (s, acc.2 || added) else acc) (s, added) l in
  balanced fees r.1 /\ spent s r.1 l.
Proof.
  induction l as [|h l IH]; intros s added Hb Hin; simpl; [done|]. case_bool_decide as Hh.
  - destruct (addTransaction s h a) as [s1 b] eqn:E. pose proof (addTransaction_balanced fees s h a Hb) as Hb1.
    pose proof (addTransaction_fees s h a) as Hf. rewrite E in Hb1, Hf. simpl in Hb1, Hf.
    destruct (IH s1 (added || b)) as [H1 H2]; [done|intros k [x Hx]; rewrite Hf in Hx; apply lookup_delete_Some in Hx as [_ Hx]; apply Hin; by eexists|].
    split; [done|]. intros k. rewrite H2, Hf, lookup_delete. repeat case_bool_decide; repeat case_decide; set_solver.
  - destruct (IH s added Hb Hin) as [H1 H2]. split; [done|]. intros k. rewrite H2. case_bool_decide as K; [by rewrite bool_decide_true by set_solver|].
    case_bool_decide as K2; [|done]. apply elem_of_cons in K2 as [->|]; [|done].
    destruct (fee_by_trx_hash_ s !! h) eqn:Ef; [exfalso; apply Hh, Hin; by eexists|done].
Qed.

Definition dag_trxs (b : RewardPeriod) : list Z := rp_dag_blocks b ≫= rd_trxs.

Lemma dag_blocks_effect fees s b (aspen : bool) :
  balanced fees s -> (forall h, is_Some (fee_by_trx_hash_ s !! h) -> h ∈ (rp_transactions b).*1) ->
  let s' := if aspen then processDagBlocksAspen s b else processDagBlocks s b in balanced fees s' /\ spent s s' (dag_trxs b).
Proof.
  intros Hb Hin. unfold processDagBlocksAspen, processDagBlocks, dag_trxs. destruct aspen.
  - generalize (min_difficulty (rp_dag_blocks b)). intros min. clear Hin. induction (rp_dag_blocks b) as [|d l IH] in s, Hb |- *; simpl; [done|].
    set (s1 := if rd_difficulty d =? min then count_dag_block s (rd_sender d) else s).
    assert (balanced fees s1 /\ fee_by_trx_hash_ s1 = fee_by_trx_hash_ s) as [Hb1 Hf1] by (subst s1; case_match; [split; [by apply count_dag_block_balanced|done]|done]).
    destruct (IH (foldl (fun s h => (addTransaction s h (rd_sender d)).1) s1 (rd_trxs d)) (aspen_trxs_balanced _ _ _ _ Hb1)) as [H1 H2].
    split; [done|]. eapply spent_app; [|exact H2]. intros h. rewrite <- Hf1. apply aspen_trxs_spent.
  - generalize dependent (rp_transactions b).*1. intros included Hin. induction (rp_dag_blocks b) as [|d l IH] in s, Hb, Hin |- *; simpl; [done|].
    unfold add_dag_transactions. pose proof (dag_trxs_effect included (rd_sender d) (rd_trxs d) fees s false Hb Hin) as [H1 H2].
    destruct (foldl _ (s, false) (rd_trxs d)) as [s1 [|]]; simpl in H1, H2 |- *.
    + destruct (IH (count_dag_block s1 (rd_sender d))) as [H3 H4]; [by apply count_dag_block_balanced| |split; [done|by eapply spent_app]].
      intros h [x Hx]. simpl in Hx. rewrite H2 in Hx. case_bool_decide; [done|]. apply Hin. by eexists.
    + destruct (IH s1 H1) as [H3 H4]; [|split; [done|by eapply spent_app]].
      intros h [x Hx]. rewrite H2 in Hx. case_bool_decide; [done|]. apply Hin. by eexists.
Qed.

Lemma votes_balanced fees votes : forall s s', balanced fees s -> ofold addVote votes s = Done s' ->
  balanced fees s' /\ fee_by_trx_hash_ s' = fee_by_trx_hash_ s.
Proof.
  induction votes as [|v votes IH]; intros s s' Hb; simpl; [by intros [= <-]|]. destruct (addVote s v) as [s1| |] eqn:E; simpl; [|done..].
  intros Hs. destruct (IH s1 s') as [H1 H2]; [by eapply addVote_balanced|done|]. split; [done|]. rewrite H2. revert E. unfold addVote.
  destruct (oassert _); simpl; [|done..]. destruct (getWeight v); [|done]. by intros [= <-].
Qed.

Lemma initFee_keys transactions : forall gas fees fees', initFeeByTrxHash transactions gas fees = Done fees' ->
  forall h, is_Some (fees' !! h) -> h ∈ transactions.*1 \/ is_Some (fees !! h).
Proof.
  induction transactions as [|[h price] l IH]; intros gas fees fees' E k Hk; simpl in E; [injection E as <-; by right|].
  assert (forall g, is_Some (match fees !! h with Some _ => fees | None => <[h := u256 (price * g)]> fees end !! k) -> k = h \/ is_Some (fees !! k)) as Hadd.
  { intros g. destruct (fees !! h); [by right|]. intros [x [[<- _]|[_ Hx]]%lookup_insert_Some]; [by left|right; by eexists]. }
  simpl. destruct gas as [[|g gases]|]; [done| |];
    (destruct (IH _ _ _ E k Hk) as [H|H%Hadd]; [left; apply elem_of_cons; by right|destruct H as [->|H]; [left; apply elem_of_cons; by left|by right]]).
Qed.

(** What every part of the processing of DAG blocks keeps, the processing keeps. *)
Lemma dag_blocks_preserve (Q : BlockStats -> Prop) s b (aspen : bool) :
  (forall s h a, Q s -> Q (addTransaction s h a).1) -> (forall s a, Q s -> Q (count_dag_block s a)) ->
  Q s -> Q (if aspen then processDagBlocksAspen s b else processDagBlocks s b).
Proof.
  intros Ht Hc Hs. unfold processDagBlocksAspen, processDagBlocks. destruct aspen.
  - generalize (min_difficulty (rp_dag_blocks b)). intros min. induction (rp_dag_blocks b) as [|d l IH] in s, Hs |- *; simpl; [done|].
    apply IH. set (s1 := if rd_difficulty d =? min then _ else _). assert (Q s1) as H1 by (subst s1; case_match; auto). clearbody s1.
    induction (rd_trxs d) as [|h t IHt] in s1, H1 |- *; simpl; auto.
  - generalize ((rp_transactions b).*1). intros included. induction (rp_dag_blocks b) as [|d l IH] in s, Hs |- *; simpl; [done|].
    assert (forall t acc, Q acc.1 -> Q (foldl (fun acc h => if bool_decide (h ∈ included) then let '(s, added) := addTransaction acc.1 h (rd_sender d) in (s, acc.2 || added) else acc) acc t).1) as Hf.
    { induction t as [|h t IHt]; intros acc Ha; simpl; [done|]. apply IHt. case_bool_decide; [|done].
      specialize (Ht acc.1 h (rd_sender d) Ha). by destruct (addTransaction acc.1 h (rd_sender d)). }
    unfold add_dag_transactions. specialize (Hf (rd_trxs d) (s, false) Hs). destruct (foldl _ (s, false) (rd_trxs d)) as [s1 [|]]; apply IH; auto.
Qed.

Definition no_weight (s : BlockStats) : Prop := forall a, vote_weight_ (stats_of s a) = 0.

Lemma set_validator_stats s a v a' : stats_of (set_validator s a v) a' = if decide (a' = a) then v else stats_of s a'.
Proof.
  unfold stats_of. simpl. case_decide as D; [subst; by rewrite lookup_insert_eq|by rewrite lookup_insert_ne by done].
Qed.

Lemma dag_blocks_no_weight s b (aspen : bool) : no_weight s -> no_weight (if aspen then processDagBlocksAspen s b else processDagBlocks s b).
Proof.
  apply dag_blocks_preserve.
  - intros s0 h a H0 a'. unfold addTransaction. destruct (fee_by_trx_hash_ s0 !! h); [|apply H0]. simpl.
    change (vote_weight_ (stats_of (set_validator s0 a (mkValidatorStats (dag_blocks_count_ (stats_of s0 a)) (vote_weight_ (stats_of s0 a)) (u256 (fees_rewards_ (stats_of s0 a) + z)))) a') = 0).
    rewrite set_validator_stats. case_decide; [simpl|]; apply H0.
  - intros s0 a H0 a'. unfold count_dag_block.
    change (vote_weight_ (stats_of (set_validator s0 a (mkValidatorStats (u32 (dag_blocks_count_ (stats_of s0 a) + 1)) (vote_weight_ (stats_of s0 a)) (fees_rewards_ (stats_of s0 a)))) a') = 0).
    rewrite set_validator_stats. case_decide; [simpl|]; apply H0.
Qed.

Lemma votes_total votes : forall s, NoDup (getVoterAddr <$> votes) -> Forall (fun v => is_Some (getWeight v)) votes ->
  (forall v, v ∈ votes -> vote_weight_ (stats_of s (getVoterAddr v)) = 0) -> exists s', ofold addVote votes s = Done s'.
Proof.
  induction votes as [|v votes IH]; intros s Hnd Hw Hz; simpl; [by exists s|]. apply NoDup_cons in Hnd as [Hv Hnd]. apply Forall_cons in Hw as [[w Hw] Hws].
  unfold addVote. rewrite (Hz v) by (apply elem_of_cons; by left). simpl. rewrite Hw. apply IH; [done|done|].
  intros v' Hv'. rewrite set_validator_stats. rewrite decide_False; [apply Hz, elem_of_cons; by right|].
  intros E. apply Hv. rewrite <- E. by apply list_elem_of_fmap_2.
Qed.

Lemma initFee_total transactions : forall gas fees,
  NoDup transactions.*1 -> (forall h, h ∈ transactions.*1 -> fees !! h = None) ->
  (forall l, gas = Some l -> (length transactions <= length l)%nat) ->
  exists fees', initFeeByTrxHash transactions gas fees = Done fees' /\ size fees' = (length transactions + size fees)%nat.
Proof.
  induction transactions as [|[h price] l IH]; intros gas fees Hnd Hf Hg; simpl; [by exists fees|].
  simpl in Hnd. apply NoDup_cons in Hnd as [Hh Hnd]. rewrite (Hf h) by (apply elem_of_cons; by left).
  assert (forall g k, k ∈ l.*1 -> <[h := u256 (price * g)]> fees !! k = None) as Hf'.
  { intros g k Hk. rewrite lookup_insert_ne; [apply Hf, elem_of_cons; by right|]. intros ->. done. }
  assert (forall g, size (<[h := u256 (price * g)]> fees) = S (size fees)) as Hs.
  { intros g. apply map_size_insert_None, Hf, elem_of_cons. by left. }
  destruct gas as [[|g gases]|].
  - specialize (Hg [] eq_refl). simpl in Hg. lia.
  - destruct (IH (Some gases) (<[h := u256 (price * g)]> fees) Hnd (Hf' g)) as (f & E & S);
      [intros x [= <-]; specialize (Hg _ eq_refl); simpl in Hg; lia|]. exists f. split; [done|]. rewrite S, Hs. lia.
  - destruct (IH None (<[h := u256 (price * 0)]> fees) Hnd (Hf' 0)) as (f & E & S); [done|]. exists f. split; [done|]. rewrite S, Hs. lia.
Qed.

Lemma map_sum_split (P : Z -> Prop) `{!forall k, Decision (P k)} (m m' : gmap Z Z) :
  (forall k, m' !! k = if bool_decide (P k) then None else m !! k) ->
  map_sum id m = map_sum id (filter (fun e => P e.1) m) + map_sum id m'.
Proof.
  revert m'. induction m as [|k x m Hk IH] using map_ind; intros m' Hm'.
  - assert (m' = ∅) as -> by (apply map_eq; intros i; rewrite Hm', lookup_empty; by case_bool_decide). by rewrite map_filter_empty, map_sum_empty.
  - assert (forall j, delete k m' !! j = if bool_decide (P j) then None else m !! j) as Hd.
    { intros j. destruct (decide (j = k)) as [->|Hne]; [rewrite lookup_delete_eq, Hk; by case_bool_decide|].
      rewrite lookup_delete_ne, Hm' by done. by rewrite lookup_insert_ne by done. }
    rewrite map_sum_insert by done. rewrite (IH (delete k m') Hd). pose proof (Hm' k) as Hmk. rewrite lookup_insert_eq in Hmk. case_bool_decide as HP.
    + rewrite map_filter_insert_True by done. rewrite map_sum_insert by (apply map_lookup_filter_None; by left).
      rewrite delete_id by done. lia.
    + rewrite map_filter_insert_not' by (simpl; intros; done). rewrite (map_sum_delete id m' k x Hmk). lia.
Qed.


(** ** Votes of one voter *)

Lemma addVote_weight s v s' a : addVote s v = Done s' -> vote_weight_ (stats_of s a) <> 0 -> vote_weight_ (stats_of s' a) <> 0.
Proof.
  unfold addVote, oassert. destruct (Z.eqb_spec (vote_weight_ (stats_of s (getVoterAddr v))) 0) as [Hz|]; simpl; [|done].
  destruct (getWeight v) as [w|]; [|done]. intros [= <-] Ha.
  change (vote_weight_ (stats_of (set_validator s (getVoterAddr v) (mkValidatorStats (dag_blocks_count_ (stats_of s (getVoterAddr v))) w (fees_rewards_ (stats_of s (getVoterAddr v))))) a) <> 0).
  rewrite set_validator_stats. case_decide as D; [|done]. subst a. done.
Qed.

(** Two cert votes of one voter stop the node: whatever else a block contains, if
    its previous block cert votes have two votes of the same voter and the first has a
    positive weight, an assertion fails while the rewards of the block are computed. *)
Theorem duplicate_reward_vote_stops b blocks_per_year gas dpos committee aspen pre v1 mid v2 post w :
  rp_cert_votes b = pre ++ v1 :: mid ++ v2 :: post -> getVoterAddr v1 = getVoterAddr v2 -> getWeight v1 = Some w -> w <> 0 ->
  NoDup (rp_transactions b).*1 -> gas = [] \/ (length (rp_transactions b) <= length gas)%nat ->
  newBlockStats b blocks_per_year gas dpos committee aspen = AssertFailed.
Proof.
  intros Hv Ha Hw Hw0 Hnd Hgas. unfold newBlockStats. set (gu := match gas with [] => None | _ => Some gas end).
  destruct (initFee_total (rp_transactions b) gu ∅ Hnd) as (fees & Ef & Hsize); [intros; apply lookup_empty|intros l Hl; subst gu; destruct gas as [|g gs]; [done|injection Hl as <-; by destruct Hgas]|].
  rewrite map_size_empty, Nat.add_0_r in Hsize. rewrite Ef. simpl obind. unfold process_stats. simpl fee_by_trx_hash_.
  rewrite bool_decide_true by done. simpl obind. rewrite Hv. set (s := if aspen then _ else _). clearbody s.
  assert (forall votes s, ofold addVote votes s <> Undefined) as Hdef.
  { induction votes as [|v votes IH]; intros x; simpl; [done|]. unfold addVote, oassert. case_match; simpl; [|done]. destruct (getWeight v); simpl; [apply IH|done]. }
  assert (forall votes s s', ofold addVote votes s = Done s' -> vote_weight_ (stats_of s (getVoterAddr v1)) <> 0 ->
    vote_weight_ (stats_of s' (getVoterAddr v1)) <> 0) as Hkeep.
  { induction votes as [|v votes IH]; intros x x'; simpl; [by intros [= <-]|]. destruct (addVote x v) as [x1| |] eqn:E; simpl; [|done..].
    intros Hx Hne. eapply IH; [done|]. by eapply addVote_weight. }
  assert (forall l1 l2 s, ofold addVote (l1 ++ l2) s = let* x := ofold addVote l1 s in ofold addVote l2 x) as Happ.
  { induction l1 as [|v l1 IH]; intros l2 x; simpl; [done|]. by destruct (addVote x v); simpl. }
  rewrite Happ. pose proof (Hdef pre s) as D1. destruct (ofold addVote pre s) as [s1| |]; simpl; [|done..].
  destruct (addVote s1 v1) as [s2| |] eqn:E1; simpl; [|done|].
  2: { revert E1. unfold addVote, oassert. rewrite Hw. by case_match. }
  rewrite Happ. pose proof (Hdef mid s2) as D2. destruct (ofold addVote mid s2) as [s3| |] eqn:E2; simpl; [|done..].
  assert (vote_weight_ (stats_of s3 (getVoterAddr v2)) <> 0) as Hne.
  { rewrite <- Ha. eapply Hkeep; [exact E2|]. revert E1. unfold addVote, oassert. case_match; simpl; [|done]. rewrite Hw. intros [= <-].
    unfold stats_of. simpl. by rewrite lookup_insert_eq. }
  unfold addVote, oassert. destruct (Z.eqb_spec (vote_weight_ (stats_of s3 (getVoterAddr v2))) 0); [done|]. done.
Qed.
