(* ===== verification/RewardsRuns.v ===== *)
(** * Distribution of the rewards

    The statistics of every period are handed out exactly once, over intervals of any
    length, restarts and crashes between the commit of a block and the end of its
    finalization. *)

From S2P Require Import Prelude Votes Rewards.
Local Open Scope Z_scope.
Local Open Scope outcome_scope.

Section runs.
Context (cfg : RewardsConfig) (dpos : Z -> Z) (iter : gmap Z BlockStats -> list (Z * BlockStats)).
Context (iter_perm : forall m, iter m ≡ₚ map_to_list m).
(** Frequencies are unsigned. *)
Context (frequencies_ok : forall b f, rewards_distribution_frequency cfg !! b = Some f -> 0 <= f).
#[local] Set Default Proof Using "Type*".

(** The last finalized period, the statistics that were computed, one per period, and
    those that were distributed. *)
Record RewardRun := mkRewardRun {
  rr_stats : Stats;
  rr_period : Z;
  rr_computed : list (Z * BlockStats);
  rr_distributed : list (Z * BlockStats);
}.

(** The constructor after the last block [n]. *)
Definition restart_stats (s : Stats) (n : Z) : Stats := recoverFromDb cfg (mkStats ∅ (block_rewards_stats s)) n.

Inductive reward_step (r r' : RewardRun) : Prop :=
| step_finalize b blocks_per_year gas stats s out :
    rp_period b = rr_period r + 1 -> getBlockStats cfg dpos b blocks_per_year gas = Done stats ->
    processStats cfg dpos iter (rr_stats r) b blocks_per_year gas = Done (s, out) ->
    r' = mkRewardRun (clear cfg s (rp_period b)) (rp_period b) (rr_computed r ++ [(rp_period b, stats)]) (rr_distributed r ++ out) -> reward_step r r'
| step_crash b blocks_per_year gas stats s out :
    rp_period b = rr_period r + 1 -> getBlockStats cfg dpos b blocks_per_year gas = Done stats ->
    processStats cfg dpos iter (rr_stats r) b blocks_per_year gas = Done (s, out) ->
    r' = mkRewardRun (restart_stats s (rp_period b)) (rp_period b) (rr_computed r ++ [(rp_period b, stats)]) (rr_distributed r ++ out) -> reward_step r r'
| step_restart : r' = mkRewardRun (restart_stats (rr_stats r) (rr_period r)) (rr_period r) (rr_computed r) (rr_distributed r) -> reward_step r r'.

(** An entry as it is encoded for the contract. *)
Definition encoded (l : list (Z * BlockStats)) : list (Z * BlockStats) := prod_map id stored <$> l.
Definition pending (s : Stats) : list (Z * BlockStats) := map_to_list (blocks_stats_ s).
Definition distributes (n : Z) : bool :=
  let f := getRewardsDistributionFrequency cfg n in (1 <? f) && (n mod f =? 0).

Record run_inv (r : RewardRun) : Prop := {
  r_period : 0 <= rr_period r;
  r_periods : (rr_computed r).*1 = seqZ 1 (rr_period r);
  r_db : block_rewards_stats (rr_stats r) = stored <$> blocks_stats_ (rr_stats r);
  r_keys : forall p s, blocks_stats_ (rr_stats r) !! p = Some s -> p <= rr_period r;
  r_once : encoded (rr_distributed r ++ pending (rr_stats r)) ≡ₚ encoded (rr_computed r);
  r_cleared : rr_period r <> 0 -> distributes (rr_period r) = true -> blocks_stats_ (rr_stats r) = ∅;
}.

Lemma stored_idemp (m : gmap Z BlockStats) : stored <$> (stored <$> m) = stored <$> m.
Proof. rewrite <- map_fmap_compose. by apply map_fmap_ext. Qed.

Lemma encoded_stored m : encoded (map_to_list (stored <$> m)) ≡ₚ encoded (map_to_list m).
Proof. unfold encoded. rewrite map_to_list_fmap. rewrite <- list_fmap_compose. apply Permutation_refl'. by apply list_fmap_ext. Qed.

Lemma frequency_nonneg n : 0 <= getRewardsDistributionFrequency cfg n.
Proof.
  unfold getRewardsDistributionFrequency. destruct (last _) as [[b f]|] eqn:E; [|lia]. apply last_Some in E as [l E]. simpl.
  assert ((b, f) ∈ filter (fun e => e.1 <= n) (map_items (rewards_distribution_frequency cfg))) as Hin by (rewrite E; apply elem_of_app; right; by left).
  apply list_elem_of_filter in Hin as [_ Hin%elem_of_map_items]. by eapply frequencies_ok.
Qed.

(** A restart keeps the encoded statistics that are pending. *)
Lemma rewards_restart_effect s n : block_rewards_stats s = stored <$> blocks_stats_ s -> (n <> 0 -> distributes n = true -> blocks_stats_ s = ∅) ->
  let s' := restart_stats s n in blocks_stats_ s' = stored <$> blocks_stats_ s /\ block_rewards_stats s' = stored <$> blocks_stats_ s.
Proof.
  intros Hdb Hc. unfold restart_stats, recoverFromDb, clear. destruct (Z.eqb_spec n 0); [simpl; by rewrite Hdb|].
  fold (distributes n). destruct (distributes n) eqn:E; simpl; [|by rewrite Hdb]. by rewrite Hc, fmap_empty by done.
Qed.

Lemma process_effect r b blocks_per_year gas stats s out :
  run_inv r -> rp_period b = rr_period r + 1 -> getBlockStats cfg dpos b blocks_per_year gas = Done stats ->
  processStats cfg dpos iter (rr_stats r) b blocks_per_year gas = Done (s, out) ->
  if distributes (rp_period b)
  then encoded (rr_distributed r ++ out) ≡ₚ encoded (rr_computed r ++ [(rp_period b, stats)])
  else block_rewards_stats s = stored <$> blocks_stats_ s /\ (forall p x, blocks_stats_ s !! p = Some x -> p <= rp_period b) /\
    encoded (rr_distributed r ++ out ++ pending s) ≡ₚ encoded (rr_computed r ++ [(rp_period b, stats)]).
Proof.
  intros Hi Hp Hg. unfold processStats. rewrite Hg. simpl obind. unfold distributes. cbn zeta. set (f := getRewardsDistributionFrequency cfg (rp_period b)).
  pose proof (r_once _ Hi) as Honce. unfold pending, encoded in *. rewrite fmap_app in Honce.
  assert (blocks_stats_ (rr_stats r) !! rp_period b = None) as Hnew.
  { destruct (blocks_stats_ (rr_stats r) !! rp_period b) eqn:E; [|done]. apply (r_keys _ Hi) in E. lia. }
  destruct (Z.eqb_spec f 1) as [E1|H1].
  { rewrite E1. simpl. intros [= <- <-]. split_and!; [apply (r_db _ Hi)|intros p x Hx; apply (r_keys _ Hi) in Hx; lia|].
    rewrite !fmap_app, <- Honce. simpl. rewrite <- !app_assoc. apply Permutation_app_head. by rewrite Permutation_app_comm. }
  destruct (Z.eqb_spec f 0) as [|H0]; [done|].
  destruct (Z.eqb_spec (rp_period b mod f) 0) as [Hm|Hm]; simpl negb; cbv iota.
  - assert (1 < f) as Hf.
    { pose proof (frequency_nonneg (rp_period b)). fold f in H. lia. }
    rewrite (proj2 (Z.ltb_lt 1 f) Hf). simpl andb. cbv iota. intros Hout.
    assert (out ≡ₚ map_to_list (<[rp_period b := stats]> (blocks_stats_ (rr_stats r)))) as ->.
    { destruct (_ <? _); injection Hout as <- <-; [apply iter_perm|apply map_items_perm]. }
    rewrite map_to_list_insert by done. rewrite !fmap_app, <- Honce. simpl. rewrite <- Permutation_middle. by rewrite <- Permutation_cons_append.
  - rewrite andb_false_r. intros [= <- <-]. simpl. split_and!.
    + by rewrite fmap_insert, (r_db _ Hi).
    + intros p x [[<- _]|[_ Hx]]%lookup_insert_Some; [lia|]. apply (r_keys _ Hi) in Hx. lia.
    + rewrite map_to_list_insert by done. rewrite !fmap_app, <- Honce. simpl. rewrite <- Permutation_middle. by rewrite <- Permutation_cons_append.
Qed.

Lemma first_inv : run_inv (mkRewardRun (mkStats ∅ ∅) 0 [] []).
Proof. split; simpl; try done. Qed.

Lemma reward_step_inv r r' : run_inv r -> reward_step r r' -> run_inv r'.
Proof.
  intros Hi. pose proof Hi as [I1 I2 I3 I4 I5 I6].
  assert (forall b stats, rp_period b = rr_period r + 1 ->
    (rr_computed r ++ [(rp_period b, stats)]).*1 = seqZ 1 (rp_period b)) as Hper.
  { intros b stats Hp. rewrite fmap_app, I2, Hp. rewrite seqZ_app by lia. simpl. by replace (1 + rr_period r) with (rr_period r + 1) by lia. }
  intros [b bpy gas stats s out Hp Hg Hs E0|b bpy gas stats s out Hp Hg Hs E0|E0]; subst r'.
  - pose proof (process_effect r b bpy gas stats s out Hi Hp Hg Hs) as H. unfold clear. fold (distributes (rp_period b)).
    destruct (distributes (rp_period b)) eqn:E.
    + split; simpl; [lia|by apply Hper|by rewrite fmap_empty|intros p x Hx; by rewrite lookup_empty in Hx| |done].
      unfold pending. simpl. rewrite map_to_list_empty, app_nil_r. exact H.
    + destruct H as (H1 & H2 & H3). split; simpl; [lia|by apply Hper|done|done|by rewrite <- app_assoc|by rewrite E].
  - pose proof (process_effect r b bpy gas stats s out Hi Hp Hg Hs) as H. destruct (distributes (rp_period b)) eqn:E.
    + assert (restart_stats s (rp_period b) = mkStats ∅ ∅) as ->.
      { unfold restart_stats, recoverFromDb, clear. destruct (Z.eqb_spec (rp_period b) 0); [lia|]. fold (distributes (rp_period b)). by rewrite E. }
      split; simpl; [lia|by apply Hper|by rewrite fmap_empty|intros p x Hx; by rewrite lookup_empty in Hx| |done].
      unfold pending. simpl. rewrite map_to_list_empty, app_nil_r. exact H.
    + destruct H as (H1 & H2 & H3). destruct (rewards_restart_effect s (rp_period b) H1) as [R1 R2]; [by rewrite E|].
      split; cbn [rr_stats rr_period rr_computed rr_distributed]; [lia|by apply Hper|by rewrite R1, R2, stored_idemp| | |by rewrite E].
      * intros p x Hx. rewrite R1 in Hx. apply lookup_fmap_Some in Hx as (y & _ & Hy). by eapply H2.
      * unfold pending in *. rewrite R1, <- H3. unfold encoded in *. rewrite !fmap_app, <- app_assoc. do 2 apply Permutation_app_head. apply encoded_stored.
  - destruct (rewards_restart_effect (rr_stats r) (rr_period r) I3 I6) as [R1 R2]. split; cbn [rr_stats rr_period rr_computed rr_distributed]; [done|done|by rewrite R1, R2, stored_idemp| | |].
    + intros p x Hx. rewrite R1 in Hx. apply lookup_fmap_Some in Hx as (y & _ & Hy). by eapply I4.
    + unfold pending in *. rewrite R1, <- I5. unfold encoded in *. rewrite !fmap_app. apply Permutation_app_head. apply encoded_stored.
    + intros Hn Hd. rewrite R1, I6 by done. apply fmap_empty.
Qed.
End runs.


(** ** Examples *)

Definition ex_rewards : RewardsConfig := mkRewardsConfig {[ 0 := 2 ]} 0 0 1000.
Definition ex_vote (a w : Z) : PbftVote := mkPbftVote 7 (mkVrfPbftMsg 1 1 3) 0 0 (a + 100) a (Some w).
Definition ex_period (p : Z) : RewardPeriod :=
  mkRewardPeriod p 50 [(10 * p, 2); (10 * p + 1, 3)] [mkRewardDagBlock 61 [10 * p] 15; mkRewardDagBlock 62 [10 * p; 10 * p + 1] 15]
    [ex_vote 71 4; ex_vote 72 5].
Definition ex_gas : list Z := [21000; 30000].

Definition ex_finalize (r : RewardRun) (b : RewardPeriod) : RewardRun :=
  match getBlockStats ex_rewards (fun _ => 900) b 100 ex_gas, processStats ex_rewards (fun _ => 900) map_to_list (rr_stats r) b 100 ex_gas with
  | Done stats, Done (s, out) =>
      mkRewardRun (clear ex_rewards s (rp_period b)) (rp_period b) (rr_computed r ++ [(rp_period b, stats)]) (rr_distributed r ++ out)
  | _, _ => r
  end.
Definition ex_rewards_run : RewardRun := ex_finalize (ex_finalize (mkRewardRun (mkStats ∅ ∅) 0 [] []) (ex_period 1)) (ex_period 2).

Lemma ex_rewards_reached :
  rtc (reward_step ex_rewards (fun _ => 900) map_to_list) (mkRewardRun (mkStats ∅ ∅) 0 [] []) ex_rewards_run.
Proof.
  assert (forall r b stats s out, rp_period b = rr_period r + 1 -> getBlockStats ex_rewards (fun _ => 900) b 100 ex_gas = Done stats ->
    processStats ex_rewards (fun _ => 900) map_to_list (rr_stats r) b 100 ex_gas = Done (s, out) ->
    reward_step ex_rewards (fun _ => 900) map_to_list r (ex_finalize r b)) as Hstep.
  { intros r b stats s out Hp H1 H2. eapply step_finalize; [exact Hp|exact H1|exact H2|]. unfold ex_finalize. by rewrite H1, H2. }
  apply (rtc_l _ _ (ex_finalize (mkRewardRun (mkStats ∅ ∅) 0 [] []) (ex_period 1))); [eapply Hstep; [reflexivity|vm_compute; reflexivity..]|].
  apply rtc_once. eapply Hstep; [vm_compute; reflexivity..].
Qed.


Lemma ex_voters : NoDup (getVoterAddr <$> rp_cert_votes (ex_period 1)).
Proof. apply (bool_decide_unpack _). vm_compute. exact I. Qed.


Lemma duplicate_reward_vote_stops_witness :
  newBlockStats (mkRewardPeriod 1 50 [] [] [ex_vote 71 4; ex_vote 72 5; ex_vote 71 4]) 100 [] 900 1000 true = AssertFailed.
Proof.
  apply (duplicate_reward_vote_stops _ 100 [] 900 1000 true [] (ex_vote 71 4) [ex_vote 72 5] (ex_vote 71 4) [] 4); try done; [constructor|by left].
Defined.
