(* ===== verification/ThreadPool.v ===== *)
(** * The thread pool for packets

    Packets from other nodes wait in three queues by priority; workers take the first
    packet that no packet in work blocks (network/src/threadpool: packet_data.cpp,
    packets_queue.cpp, packets_blocking_mask.cpp, priority_queue.cpp,
    tarcap_thread_pool.cpp, and network/include/network/tarcap/packet_types.hpp).  A worker
    holds the mutex while it takes a packet and while it unblocks others; the counters
    of workers change after that, without the mutex. *)

From S2P Require Import Prelude.
Local Open Scope Z_scope.
Local Open Scope outcome_scope.

(** ** Packets *)

Inductive SubprotocolPacketType :=
| kHighPriorityPackets | kVotePacket | kGetNextVotesSyncPacket | kVotesBundlePacket
| kMidPriorityPackets | kDagBlockPacket | kDagSyncPacket | kTransactionPacket
| kLowPriorityPackets | kStatusPacket | kGetPbftSyncPacket | kPbftSyncPacket | kGetDagSyncPacket | kPillarVotePacket
| kGetPillarVotesBundlePacket | kPillarVotesBundlePacket | kPbftBlocksBundlePacket.

#[export] Instance packet_type_eq_dec : EqDecision SubprotocolPacketType.
Proof. solve_decision. Defined.

Definition packet_type_id (t : SubprotocolPacketType) : nat :=
  match t with
  | kHighPriorityPackets => 0 | kVotePacket => 1 | kGetNextVotesSyncPacket => 2 | kVotesBundlePacket => 3
  | kMidPriorityPackets => 4 | kDagBlockPacket => 5 | kDagSyncPacket => 6 | kTransactionPacket => 7
  | kLowPriorityPackets => 8 | kStatusPacket => 9 | kGetPbftSyncPacket => 10 | kPbftSyncPacket => 11 | kGetDagSyncPacket => 12
  | kPillarVotePacket => 13 | kGetPillarVotesBundlePacket => 14 | kPillarVotesBundlePacket => 15 | kPbftBlocksBundlePacket => 16
  end.

Definition packet_type_of (n : nat) : option SubprotocolPacketType :=
  [kHighPriorityPackets; kVotePacket; kGetNextVotesSyncPacket; kVotesBundlePacket; kMidPriorityPackets; kDagBlockPacket; kDagSyncPacket;
   kTransactionPacket; kLowPriorityPackets; kStatusPacket; kGetPbftSyncPacket; kPbftSyncPacket; kGetDagSyncPacket; kPillarVotePacket;
   kGetPillarVotesBundlePacket; kPillarVotesBundlePacket; kPbftBlocksBundlePacket] !! n.

#[export] Program Instance packet_type_countable : Countable SubprotocolPacketType := inj_countable packet_type_id packet_type_of _.
Next Obligation. by intros []. Qed.

Inductive PacketPriority := High | Mid | Low.
#[export] Instance priority_eq_dec : EqDecision PacketPriority.
Proof. solve_decision. Defined.

(** The enumerators that separate the groups are not the type of a packet. *)
Definition getPacketPriority (t : SubprotocolPacketType) : outcome PacketPriority :=
  let n := packet_type_id t in
  if bool_decide (packet_type_id kHighPriorityPackets < n /\ n < packet_type_id kMidPriorityPackets)%nat then Done High
  else if bool_decide (packet_type_id kMidPriorityPackets < n /\ n < packet_type_id kLowPriorityPackets)%nat then Done Mid
  else if bool_decide (packet_type_id kLowPriorityPackets < n)%nat then Done Low
  else AssertFailed.

(** [item_count_] is the number of items of the RLP, [dag_block_] the level and the
    signature that are read from the DAG block in it, [None] if reading throws. *)
Record PacketData := mkPacketData {
  id_ : Z;
  type_ : SubprotocolPacketType;
  priority_ : PacketPriority;
  from_node_id_ : Z;
  item_count_ : Z;
  dag_block_ : option (Z * Z);
}.

Definition newPacketData (t : SubprotocolPacketType) (from_node_id item_count : Z) (dag_block : option (Z * Z)) : outcome PacketData :=
  let* priority := getPacketPriority t in Done (mkPacketData 0 t priority from_node_id item_count dag_block).

(** ** Sets of packets in work *)

(** A map to sets of packet ids has no empty sets. *)
Definition ids_insert {K} `{Countable K} (m : gmap K (gset Z)) (k : K) (i : Z) : outcome (gmap K (gset Z)) :=
  let s := default ∅ (m !! k) in
  let* _ := oassert (bool_decide (i ∉ s)) in Done (<[k := {[ i ]} ∪ s]> m).

Definition ids_erase {K} `{Countable K} (m : gmap K (gset Z)) (k : K) (i : Z) : outcome (gmap K (gset Z)) :=
  match m !! k with
  | None => AssertFailed
  | Some s =>
      let* _ := oassert (bool_decide (i ∈ s)) in
      if bool_decide (1 < size s)%nat then Done (<[k := s ∖ {[ i ]}]> m) else Done (delete k m)
  end.

Record PacketsBlockingMask := mkPacketsBlockingMask {
  hard_blocked_packet_types_ : gmap SubprotocolPacketType (gset Z);
  peer_order_blocked_packet_types_ : gmap SubprotocolPacketType (gmap Z (gset Z));
  processing_dag_levels_ : gmap Z (gset Z);
  processing_dag_blocks_ : gmap Z Z;
}.

Definition markPacketAsHardBlocked (m : PacketsBlockingMask) (p : PacketData) (t : SubprotocolPacketType) : outcome PacketsBlockingMask :=
  let* h := ids_insert (hard_blocked_packet_types_ m) t (id_ p) in
  Done (mkPacketsBlockingMask h (peer_order_blocked_packet_types_ m) (processing_dag_levels_ m) (processing_dag_blocks_ m)).

Definition markPacketAsHardUnblocked (m : PacketsBlockingMask) (p : PacketData) (t : SubprotocolPacketType) : outcome PacketsBlockingMask :=
  let* h := ids_erase (hard_blocked_packet_types_ m) t (id_ p) in
  Done (mkPacketsBlockingMask h (peer_order_blocked_packet_types_ m) (processing_dag_levels_ m) (processing_dag_blocks_ m)).

Definition markPacketAsPeerOrderBlocked (m : PacketsBlockingMask) (p : PacketData) (t : SubprotocolPacketType) : outcome PacketsBlockingMask :=
  let* peers := ids_insert (default ∅ (peer_order_blocked_packet_types_ m !! t)) (from_node_id_ p) (id_ p) in
  Done (mkPacketsBlockingMask (hard_blocked_packet_types_ m) (<[t := peers]> (peer_order_blocked_packet_types_ m)) (processing_dag_levels_ m)
          (processing_dag_blocks_ m)).

Definition markPacketAsPeerOrderUnblocked (m : PacketsBlockingMask) (p : PacketData) (t : SubprotocolPacketType) : outcome PacketsBlockingMask :=
  match peer_order_blocked_packet_types_ m !! t with
  | None => AssertFailed
  | Some peers =>
      let* peers := ids_erase peers (from_node_id_ p) (id_ p) in
      Done (mkPacketsBlockingMask (hard_blocked_packet_types_ m) (<[t := peers]> (peer_order_blocked_packet_types_ m)) (processing_dag_levels_ m)
              (processing_dag_blocks_ m))
  end.

Definition getSmallestDagLevelBeingProcessed (m : PacketsBlockingMask) : option Z := fst <$> head (map_items (processing_dag_levels_ m)).

Definition kRequiredDagPacketSizeV3 : Z := 2.
Definition kRequiredDagPacketSizeV2 : Z := 8.

(** Level and signature of the DAG block of a packet. *)
Definition dagBlockFromDagPacket (p : PacketData) : outcome (Z * Z) :=
  if (item_count_ p =? kRequiredDagPacketSizeV2) || (item_count_ p =? kRequiredDagPacketSizeV3)
  then match dag_block_ p with Some b => Done b | None => AssertFailed end
  else AssertFailed.

Definition setDagBlockBeingProcessed (m : PacketsBlockingMask) (p : PacketData) : outcome PacketsBlockingMask :=
  let* (_, sig) := dagBlockFromDagPacket p in
  let* _ := oassert (bool_decide (processing_dag_blocks_ m !! sig = None)) in
  Done (mkPacketsBlockingMask (hard_blocked_packet_types_ m) (peer_order_blocked_packet_types_ m) (processing_dag_levels_ m)
          (<[sig := id_ p]> (processing_dag_blocks_ m))).

Definition unsetDagBlockBeingProcessed (m : PacketsBlockingMask) (p : PacketData) : outcome PacketsBlockingMask :=
  let* (_, sig) := dagBlockFromDagPacket p in
  let* _ := oassert (bool_decide (is_Some (processing_dag_blocks_ m !! sig))) in
  Done (mkPacketsBlockingMask (hard_blocked_packet_types_ m) (peer_order_blocked_packet_types_ m) (processing_dag_levels_ m)
          (delete sig (processing_dag_blocks_ m))).

Definition setDagBlockLevelBeingProcessed (m : PacketsBlockingMask) (p : PacketData) : outcome PacketsBlockingMask :=
  let* (level, _) := dagBlockFromDagPacket p in
  let* _ := oassert (match getSmallestDagLevelBeingProcessed m with Some l => level <=? l | None => true end) in
  let* levels := ids_insert (processing_dag_levels_ m) level (id_ p) in
  Done (mkPacketsBlockingMask (hard_blocked_packet_types_ m) (peer_order_blocked_packet_types_ m) levels (processing_dag_blocks_ m)).

Definition unsetDagBlockLevelBeingProcessed (m : PacketsBlockingMask) (p : PacketData) : outcome PacketsBlockingMask :=
  let* (level, _) := dagBlockFromDagPacket p in
  let* levels := ids_erase (processing_dag_levels_ m) level (id_ p) in
  Done (mkPacketsBlockingMask (hard_blocked_packet_types_ m) (peer_order_blocked_packet_types_ m) levels (processing_dag_blocks_ m)).

Definition isPacketHardBlocked (m : PacketsBlockingMask) (p : PacketData) : bool :=
  bool_decide (is_Some (hard_blocked_packet_types_ m !! type_ p)).

Definition isDagBlockPacketBlockedBySameDagBlock (m : PacketsBlockingMask) (p : PacketData) : outcome bool :=
  let* (_, sig) := dagBlockFromDagPacket p in Done (bool_decide (is_Some (processing_dag_blocks_ m !! sig))).

Definition isDagBlockPacketBlockedByLevel (m : PacketsBlockingMask) (p : PacketData) : outcome bool :=
  match getSmallestDagLevelBeingProcessed m with
  | None => Done false
  | Some smallest => let* (level, _) := dagBlockFromDagPacket p in Done (smallest <? level)
  end.

Definition isPacketPeerOrderBlocked (m : PacketsBlockingMask) (p : PacketData) : outcome bool :=
  match peer_order_blocked_packet_types_ m !! type_ p ≫= fun peers => peers !! from_node_id_ p with
  | None => Done false
  | Some ids =>
      match merge_sort Z.le (elements ids) with
      | [] => Undefined
      | smallest :: _ => if smallest <? id_ p then Done true else let* _ := oassert (negb (id_ p =? smallest)) in Done false
      end
  end.

(** [queue_empty] is [periodDataQueueEmpty] of the PBFT manager. *)
Definition isPacketBlocked (queue_empty : bool) (m : PacketsBlockingMask) (p : PacketData) : outcome bool :=
  if isPacketHardBlocked m p then Done true
  else
    let* special :=
      (if bool_decide (type_ p = kDagBlockPacket) then
         let* by_level := isDagBlockPacketBlockedByLevel m p in
         if by_level : bool then Done true else isDagBlockPacketBlockedBySameDagBlock m p
       else if bool_decide (type_ p = kPbftBlocksBundlePacket) then Done (negb queue_empty)
       else Done false) in
    if special : bool then Done true else isPacketPeerOrderBlocked m p.

(** ** Queues *)

Record PacketsQueue := mkPacketsQueue {
  packets_ : list PacketData;
  kMaxWorkersCount_ : Z;
  act_workers_count_ : Z;
  act_packets_count_ : Z;
}.

Definition maxWorkersCountReached (q : PacketsQueue) : bool := kMaxWorkersCount_ q <=? act_workers_count_ q.
Definition pq_empty (q : PacketsQueue) : bool := act_packets_count_ q =? 0.

Definition pq_pushBack (q : PacketsQueue) (p : PacketData) : PacketsQueue :=
  mkPacketsQueue (packets_ q ++ [p]) (kMaxWorkersCount_ q) (act_workers_count_ q) (u64 (act_packets_count_ q + 1)).

Definition set_workers (q : PacketsQueue) (n : Z) : PacketsQueue :=
  mkPacketsQueue (packets_ q) (kMaxWorkersCount_ q) n (act_packets_count_ q).
Definition incrementActWorkersCount (q : PacketsQueue) : PacketsQueue := set_workers q (u64 (act_workers_count_ q + 1)).
Definition decrementActWorkersCount (q : PacketsQueue) : outcome PacketsQueue :=
  let* _ := oassert (0 <? act_workers_count_ q) in Done (set_workers q (act_workers_count_ q - 1)).

(** The first packet that is not blocked, and the others. *)
Fixpoint first_unblocked (queue_empty : bool) (m : PacketsBlockingMask) (ps : list PacketData) : outcome (option (PacketData * list PacketData)) :=
  match ps with
  | [] => Done None
  | p :: rest =>
      let* blocked := isPacketBlocked queue_empty m p in
      if blocked : bool then
        let* r := first_unblocked queue_empty m rest in
        Done (match r with Some (x, others) => Some (x, p :: others) | None => None end)
      else Done (Some (p, rest))
  end.

Definition pq_pop (queue_empty : bool) (m : PacketsBlockingMask) (q : PacketsQueue) : outcome (PacketsQueue * option PacketData) :=
  let* r := first_unblocked queue_empty m (packets_ q) in
  match r with
  | None => Done (q, None)
  | Some (p, rest) =>
      let* _ := oassert (negb (act_packets_count_ q =? 0)) in
      Done (mkPacketsQueue rest (kMaxWorkersCount_ q) (act_workers_count_ q) (act_packets_count_ q - 1), Some p)
  end.

Record PriorityQueue := mkPriorityQueue {
  high_queue : PacketsQueue;
  mid_queue : PacketsQueue;
  low_queue : PacketsQueue;
  blocked_packets_mask_ : PacketsBlockingMask;
  MAX_TOTAL_WORKERS_COUNT : Z;
  act_total_workers_count_ : Z;
}.

Definition queue_of (q : PriorityQueue) (p : PacketPriority) : PacketsQueue :=
  match p with High => high_queue q | Mid => mid_queue q | Low => low_queue q end.
Definition set_queue_of (q : PriorityQueue) (p : PacketPriority) (x : PacketsQueue) : PriorityQueue :=
  match p with
  | High => mkPriorityQueue x (mid_queue q) (low_queue q) (blocked_packets_mask_ q) (MAX_TOTAL_WORKERS_COUNT q) (act_total_workers_count_ q)
  | Mid => mkPriorityQueue (high_queue q) x (low_queue q) (blocked_packets_mask_ q) (MAX_TOTAL_WORKERS_COUNT q) (act_total_workers_count_ q)
  | Low => mkPriorityQueue (high_queue q) (mid_queue q) x (blocked_packets_mask_ q) (MAX_TOTAL_WORKERS_COUNT q) (act_total_workers_count_ q)
  end.
Definition set_mask (q : PriorityQueue) (m : PacketsBlockingMask) : PriorityQueue :=
  mkPriorityQueue (high_queue q) (mid_queue q) (low_queue q) m (MAX_TOTAL_WORKERS_COUNT q) (act_total_workers_count_ q).
Definition set_total (q : PriorityQueue) (n : Z) : PriorityQueue :=
  mkPriorityQueue (high_queue q) (mid_queue q) (low_queue q) (blocked_packets_mask_ q) (MAX_TOTAL_WORKERS_COUNT q) n.

Definition newPriorityQueue (workers : Z) : outcome PriorityQueue :=
  let* _ := oassert (3 <=? workers) in
  let high := Z.max 1 (workers * 4 / 10) in
  let mid := Z.max 1 (workers * 4 / 10) in
  let low := Z.max 1 (workers * 3 / 10) in
  let* _ := oassert (high + mid <? workers) in
  Done (mkPriorityQueue (mkPacketsQueue [] high 0 0) (mkPacketsQueue [] mid 0 0) (mkPacketsQueue [] low 0 0)
          (mkPacketsBlockingMask ∅ ∅ ∅ ∅) workers 0).

Definition pushBack (q : PriorityQueue) (p : PacketData) : PriorityQueue := set_queue_of q (priority_ p) (pq_pushBack (queue_of q (priority_ p)) p).

Definition priorities : list PacketPriority := [High; Mid; Low].

Definition canBorrowThread (q : PriorityQueue) : bool :=
  let reserved := Z.of_nat (length (filter (fun p => act_workers_count_ (queue_of q p) = 0) priorities)) in
  act_total_workers_count_ q <? u64 (MAX_TOTAL_WORKERS_COUNT q - reserved).

(** One pass over the queues; the flag says that a queue was at its limit. *)
Fixpoint pop_pass (queue_empty limits : bool) (ps : list PacketPriority) (q : PriorityQueue) : outcome (PriorityQueue * option PacketData * bool) :=
  match ps with
  | [] => Done (q, None, false)
  | p :: rest =>
      if pq_empty (queue_of q p) then pop_pass queue_empty limits rest q
      else if limits && maxWorkersCountReached (queue_of q p) then
        let* r := pop_pass queue_empty limits rest q in Done (r.1, true)
      else
        let* (x, packet) := pq_pop queue_empty (blocked_packets_mask_ q) (queue_of q p) in
        match packet with
        | Some d => Done (set_queue_of q p x, Some d, false)
        | None => pop_pass queue_empty limits rest q
        end
  end.

Definition pop (queue_empty : bool) (q : PriorityQueue) : outcome (PriorityQueue * option PacketData) :=
  if MAX_TOTAL_WORKERS_COUNT q <=? act_total_workers_count_ q then Done (q, None)
  else
    let* r := pop_pass queue_empty true priorities q in
    match r with
    | (q, Some d, _) => Done (q, Some d)
    | (q, None, try_borrow_thread) =>
        if negb try_borrow_thread then Done (q, None)
        else if negb (canBorrowThread q) then Done (q, None)
        else let* r := pop_pass queue_empty false priorities q in Done r.1
    end.

Definition isNonBlockingPacket (t : SubprotocolPacketType) : bool :=
  match t with
  | kVotePacket | kGetNextVotesSyncPacket | kVotesBundlePacket | kStatusPacket | kPillarVotePacket => true
  | _ => false
  end.

(** A PBFT sync packet falls through to the case of the packets that are processed one at a time. *)
Definition updateBlockingDependencies (m : PacketsBlockingMask) (p : PacketData) (unblock : bool) : outcome PacketsBlockingMask :=
  let hard m t := if unblock then markPacketAsHardUnblocked m p t else markPacketAsHardBlocked m p t in
  let peer m t := if unblock then markPacketAsPeerOrderUnblocked m p t else markPacketAsPeerOrderBlocked m p t in
  match type_ p with
  | kPbftSyncPacket => let* m := hard m kPbftBlocksBundlePacket in hard m (type_ p)
  | kGetDagSyncPacket | kGetPbftSyncPacket | kGetPillarVotesBundlePacket | kPillarVotesBundlePacket | kPbftBlocksBundlePacket => hard m (type_ p)
  | kDagSyncPacket => let* m := hard m (type_ p) in peer m kDagBlockPacket
  | kTransactionPacket => peer m kDagBlockPacket
  | kDagBlockPacket =>
      if unblock then let* m := unsetDagBlockLevelBeingProcessed m p in unsetDagBlockBeingProcessed m p
      else let* m := setDagBlockLevelBeingProcessed m p in setDagBlockBeingProcessed m p
  | _ => Done m
  end.

Definition updateDependenciesStart (q : PriorityQueue) (p : PacketData) : outcome PriorityQueue :=
  let* _ := oassert (act_total_workers_count_ q <? MAX_TOTAL_WORKERS_COUNT q) in
  let q := set_total q (u64 (act_total_workers_count_ q + 1)) in
  let q := set_queue_of q (priority_ p) (incrementActWorkersCount (queue_of q (priority_ p))) in
  let* m := updateBlockingDependencies (blocked_packets_mask_ q) p false in
  Done (set_mask q m).

(** [updateDependenciesFinish] under the mutex, and after it. *)
Definition finish_unblock (q : PriorityQueue) (p : PacketData) : outcome PriorityQueue :=
  let* _ := oassert (0 <? act_total_workers_count_ q) in
  if isNonBlockingPacket (type_ p) then Done q
  else let* m := updateBlockingDependencies (blocked_packets_mask_ q) p true in Done (set_mask q m).

Definition finish_total (q : PriorityQueue) : PriorityQueue := set_total q (u64 (act_total_workers_count_ q - 1)).

Definition finish_count (q : PriorityQueue) (p : PacketData) : outcome PriorityQueue :=
  let* x := decrementActWorkersCount (queue_of q (priority_ p)) in
  Done (set_queue_of q (priority_ p) x).

(** ** The pool *)

(** [in_work] are the packets workers process, [finishing] those whose dependencies are
    removed and whose worker is still counted, [leaving] those whose worker is counted for
    its queue only. *)
Record PacketsThreadPool := mkPacketsThreadPool {
  queue_ : PriorityQueue;
  packets_count_ : Z;
  in_work : list PacketData;
  finishing : list PacketData;
  leaving : list PacketData;
}.

Definition newPacketsThreadPool (workers : Z) : outcome PacketsThreadPool :=
  let* q := newPriorityQueue workers in Done (mkPacketsThreadPool q 0 [] [] []).

Definition tp_push (t : PacketsThreadPool) (p : PacketData) : PacketsThreadPool :=
  let p := mkPacketData (packets_count_ t) (type_ p) (priority_ p) (from_node_id_ p) (item_count_ p) (dag_block_ p) in
  mkPacketsThreadPool (pushBack (queue_ t) p) (u64 (packets_count_ t + 1)) (in_work t) (finishing t) (leaving t).

(** A worker takes a packet, if there is one it may process. *)
Definition tp_take (queue_empty : bool) (t : PacketsThreadPool) : outcome (PacketsThreadPool * option PacketData) :=
  let* (q, packet) := pop queue_empty (queue_ t) in
  match packet with
  | None => Done (mkPacketsThreadPool q (packets_count_ t) (in_work t) (finishing t) (leaving t), None)
  | Some p =>
      let* q := updateDependenciesStart q p in
      Done (mkPacketsThreadPool q (packets_count_ t) (p :: in_work t) (finishing t) (leaving t), Some p)
  end.

(** The worker of the packet at position [i] is done with it. *)
Definition tp_unblock (t : PacketsThreadPool) (i : nat) : outcome PacketsThreadPool :=
  match in_work t !! i with
  | None => Done t
  | Some p =>
      let* q := finish_unblock (queue_ t) p in
      Done (mkPacketsThreadPool q (packets_count_ t) (delete i (in_work t)) (p :: finishing t) (leaving t))
  end.

Definition tp_leave (t : PacketsThreadPool) (i : nat) : PacketsThreadPool :=
  match finishing t !! i with
  | None => t
  | Some p => mkPacketsThreadPool (finish_total (queue_ t)) (packets_count_ t) (in_work t) (delete i (finishing t)) (p :: leaving t)
  end.

Definition tp_release (t : PacketsThreadPool) (i : nat) : outcome PacketsThreadPool :=
  match leaving t !! i with
  | None => Done t
  | Some p =>
      let* q := finish_count (queue_ t) p in
      Done (mkPacketsThreadPool q (packets_count_ t) (in_work t) (finishing t) (delete i (leaving t)))
  end.
