(* ===== verification/ThreadPoolInv.v ===== *)
(** * Correctness of the thread pool

    The blocking mask always describes the packets in work, so that no assertion of the
    pool fails however its workers interleave; which packets are processed at the same
    time and in which order; and how packets that are not well formed stop the node. *)

From S2P Require Import Prelude ThreadPool.
Local Open Scope Z_scope.
Local Open Scope outcome_scope.

(** ** Sets of ids *)

Definition nonempty (s : gset Z) : option (gset Z) := if decide (s = ∅) then None else Some s.
Definition represents {K} `{Countable K} (m : gmap K (gset Z)) (f : K -> gset Z) : Prop := forall k, m !! k = nonempty (f k).

Lemma nonempty_some s x : x ∈ s -> nonempty s = Some s.
Proof. intros Hx. unfold nonempty. rewrite decide_False; [done|]. intros ->. by apply not_elem_of_empty in Hx. Qed.

Lemma default_nonempty s : default ∅ (nonempty s) = s.
Proof. unfold nonempty. by case_decide. Qed.

Lemma ids_insert_rep {K} `{Countable K} (m : gmap K (gset Z)) f k i :
  represents m f -> i ∉ f k ->
  exists m', ids_insert m k i = Done m' /\ represents m' (fun k' => if decide (k' = k) then {[ i ]} ∪ f k' else f k').
Proof.
  intros Hm Hi. unfold ids_insert. rewrite Hm, default_nonempty, bool_decide_true by done. simpl. eexists. split; [done|].
  intros k'. destruct (decide (k' = k)) as [->|Hne].
  - rewrite lookup_insert_eq. symmetry. apply (nonempty_some _ i). set_solver.
  - by rewrite lookup_insert_ne by done.
Qed.

Lemma ids_erase_rep {K} `{Countable K} (m : gmap K (gset Z)) f k i :
  represents m f -> i ∈ f k ->
  exists m', ids_erase m k i = Done m' /\ represents m' (fun k' => if decide (k' = k) then f k' ∖ {[ i ]} else f k').
Proof.
  intros Hm Hi. unfold ids_erase. rewrite Hm, (nonempty_some _ i) by done. rewrite bool_decide_true by done. simpl.
  case_bool_decide as Hs; (eexists; split; [done|]); intros k'; (destruct (decide (k' = k)) as [->|Hne]; [|by rewrite ?lookup_insert_ne, ?lookup_delete_ne]).
  - rewrite lookup_insert_eq. unfold nonempty. rewrite decide_False; [done|]. intros He.
    assert (f k ⊆ {[ i ]}) as Hsub.
    { intros x Hx. apply elem_of_singleton. destruct (decide (x = i)) as [|Hne]; [done|]. exfalso. apply (not_elem_of_empty (C := gset Z) x).
      rewrite <- He. apply elem_of_difference. by rewrite elem_of_singleton. }
    apply subseteq_size in Hsub. rewrite size_singleton in Hsub. lia.
  - rewrite lookup_delete_eq. unfold nonempty. rewrite decide_True; [done|].
    assert (size (f k ∖ {[ i ]}) = 0%nat) as Hz.
    { assert ({[ i ]} ⊆ f k) as Hsub by (by apply singleton_subseteq_l). rewrite size_difference by exact Hsub. rewrite size_singleton. lia. }
    by apply size_empty_inv, leibniz_equiv in Hz.
Qed.

Lemma represents_ext {K} `{Countable K} (m : gmap K (gset Z)) f g : represents m f -> (forall k, f k = g k) -> represents m g.
Proof. intros Hm Hfg k. by rewrite Hm, Hfg. Qed.

(** ** What a packet in work blocks *)

Definition hard_targets (t : SubprotocolPacketType) : list SubprotocolPacketType :=
  match t with
  | kPbftSyncPacket => [kPbftBlocksBundlePacket; kPbftSyncPacket]
  | kGetDagSyncPacket | kGetPbftSyncPacket | kGetPillarVotesBundlePacket | kPillarVotesBundlePacket | kPbftBlocksBundlePacket | kDagSyncPacket => [t]
  | _ => []
  end.

Definition peer_targets (t : SubprotocolPacketType) : list SubprotocolPacketType :=
  match t with kDagSyncPacket | kTransactionPacket => [kDagBlockPacket] | _ => [] end.

Definition ids_where (P : PacketData -> bool) (ps : list PacketData) : gset Z := list_to_set (id_ <$> filter (fun p => P p = true) ps).

Definition hard_ids (ps : list PacketData) (t : SubprotocolPacketType) : gset Z := ids_where (fun p => bool_decide (t ∈ hard_targets (type_ p))) ps.
Definition peer_ids (ps : list PacketData) (t : SubprotocolPacketType) (n : Z) : gset Z :=
  ids_where (fun p => bool_decide (t ∈ peer_targets (type_ p)) && (from_node_id_ p =? n)) ps.
Definition is_dag_block (p : PacketData) : bool := bool_decide (type_ p = kDagBlockPacket).
Definition level_ids (ps : list PacketData) (l : Z) : gset Z := ids_where (fun p => is_dag_block p && bool_decide (fst <$> dag_block_ p = Some l)) ps.

Lemma ids_where_cons P p ps : ids_where P (p :: ps) = if P p then {[ id_ p ]} ∪ ids_where P ps else ids_where P ps.
Proof. unfold ids_where. rewrite filter_cons. destruct (P p) eqn:E; [by rewrite decide_True|by rewrite decide_False by congruence]. Qed.

Lemma elem_of_ids_where P ps i : i ∈ ids_where P ps <-> exists p, p ∈ ps /\ P p = true /\ id_ p = i.
Proof.
  unfold ids_where. rewrite elem_of_list_to_set, list_elem_of_fmap. split.
  - intros (p & -> & [HP Hp]%list_elem_of_filter). by exists p.
  - intros (p & Hp & HP & <-). exists p. split; [done|]. by apply list_elem_of_filter.
Qed.

Lemma ids_where_fresh P ps i : i ∉ id_ <$> ps -> i ∉ ids_where P ps.
Proof. intros Hi (p & Hp & _ & <-)%elem_of_ids_where. apply Hi. by apply list_elem_of_fmap_2. Qed.

(** The mask describes the packets [ps]. *)
Record mask_ok (ps : list PacketData) (m : PacketsBlockingMask) : Prop := {
  m_hard : represents (hard_blocked_packet_types_ m) (hard_ids ps);
  m_peer : forall t, represents (default ∅ (peer_order_blocked_packet_types_ m !! t)) (peer_ids ps t);
  m_levels : represents (processing_dag_levels_ m) (level_ids ps);
  m_blocks : forall sig i, processing_dag_blocks_ m !! sig = Some i <->
    exists p, p ∈ ps /\ is_dag_block p = true /\ snd <$> dag_block_ p = Some sig /\ id_ p = i;
}.

Lemma ids_where_perm P ps ps' : ps ≡ₚ ps' -> ids_where P ps = ids_where P ps'.
Proof. intros Hp. unfold ids_where. by rewrite Hp. Qed.

Lemma mask_ok_perm ps ps' m : ps ≡ₚ ps' -> mask_ok ps m -> mask_ok ps' m.
Proof.
  intros Hp [H1 H2 H3 H4]. split.
  - eapply represents_ext; [done|]. intros t. by apply ids_where_perm.
  - intros t. eapply represents_ext; [done|]. intros n. by apply ids_where_perm.
  - eapply represents_ext; [done|]. intros l. by apply ids_where_perm.
  - intros sig i. rewrite H4. by setoid_rewrite Hp.
Qed.

(** ** Marking and removing *)

Lemma hard_mark m p t f : represents (hard_blocked_packet_types_ m) f -> id_ p ∉ f t ->
  exists h, markPacketAsHardBlocked m p t = Done (mkPacketsBlockingMask h (peer_order_blocked_packet_types_ m) (processing_dag_levels_ m) (processing_dag_blocks_ m)) /\
    represents h (fun k => if decide (k = t) then {[ id_ p ]} ∪ f k else f k).
Proof. intros Hf Hi. unfold markPacketAsHardBlocked. destruct (ids_insert_rep _ f t (id_ p) Hf Hi) as (h & -> & Hh). by exists h. Qed.

Lemma hard_unmark m p t f : represents (hard_blocked_packet_types_ m) f -> id_ p ∈ f t ->
  exists h, markPacketAsHardUnblocked m p t = Done (mkPacketsBlockingMask h (peer_order_blocked_packet_types_ m) (processing_dag_levels_ m) (processing_dag_blocks_ m)) /\
    represents h (fun k => if decide (k = t) then f k ∖ {[ id_ p ]} else f k).
Proof. intros Hf Hi. unfold markPacketAsHardUnblocked. destruct (ids_erase_rep _ f t (id_ p) Hf Hi) as (h & -> & Hh). by exists h. Qed.

Lemma peer_mark m p f : (forall t, represents (default ∅ (peer_order_blocked_packet_types_ m !! t)) (f t)) -> id_ p ∉ f kDagBlockPacket (from_node_id_ p) ->
  exists h, markPacketAsPeerOrderBlocked m p kDagBlockPacket = Done (mkPacketsBlockingMask (hard_blocked_packet_types_ m) h (processing_dag_levels_ m) (processing_dag_blocks_ m)) /\
    forall t, represents (default ∅ (h !! t)) (fun n => if decide (t = kDagBlockPacket /\ n = from_node_id_ p) then {[ id_ p ]} ∪ f t n else f t n).
Proof.
  intros Hf Hi. unfold markPacketAsPeerOrderBlocked. destruct (ids_insert_rep _ _ (from_node_id_ p) (id_ p) (Hf kDagBlockPacket) Hi) as (x & -> & Hx).
  simpl. eexists. split; [done|]. intros t. destruct (decide (t = kDagBlockPacket)) as [->|Ht].
  - rewrite lookup_insert_eq. simpl. eapply represents_ext; [exact Hx|]. intros n. simpl. repeat case_decide; naive_solver.
  - rewrite lookup_insert_ne by done. eapply represents_ext; [apply Hf|]. intros n. rewrite decide_False; [done|]. naive_solver.
Qed.

Lemma peer_unmark m p f : (forall t, represents (default ∅ (peer_order_blocked_packet_types_ m !! t)) (f t)) -> id_ p ∈ f kDagBlockPacket (from_node_id_ p) ->
  exists h, markPacketAsPeerOrderUnblocked m p kDagBlockPacket = Done (mkPacketsBlockingMask (hard_blocked_packet_types_ m) h (processing_dag_levels_ m) (processing_dag_blocks_ m)) /\
    forall t, represents (default ∅ (h !! t)) (fun n => if decide (t = kDagBlockPacket /\ n = from_node_id_ p) then f t n ∖ {[ id_ p ]} else f t n).
Proof.
  intros Hf Hi. unfold markPacketAsPeerOrderUnblocked. pose proof (Hf kDagBlockPacket) as Hd.
  destruct (peer_order_blocked_packet_types_ m !! kDagBlockPacket) as [peers|] eqn:E; simpl in Hd.
  2: { specialize (Hd (from_node_id_ p)). rewrite lookup_empty, (nonempty_some _ (id_ p)) in Hd by done. done. }
  destruct (ids_erase_rep _ _ (from_node_id_ p) (id_ p) Hd Hi) as (x & -> & Hx).
  simpl. eexists. split; [done|]. intros t. destruct (decide (t = kDagBlockPacket)) as [->|Ht].
  - rewrite lookup_insert_eq. simpl. eapply represents_ext; [exact Hx|]. intros n. simpl. repeat case_decide; naive_solver.
  - rewrite lookup_insert_ne by done. eapply represents_ext; [apply Hf|]. intros n. rewrite decide_False; [done|]. naive_solver.
Qed.

(** A DAG block packet that can be read. *)
Definition dag_ok (p : PacketData) : Prop := is_dag_block p = true -> exists b, dagBlockFromDagPacket p = Done b.

Lemma dag_read p b : dagBlockFromDagPacket p = Done b -> dag_block_ p = Some b.
Proof. unfold dagBlockFromDagPacket. case_match; [|done]. destruct (dag_block_ p); [|done]. by intros [= ->]. Qed.

Lemma other_blocks p ps sig i : is_dag_block p = false ->
  (exists q, q ∈ p :: ps /\ is_dag_block q = true /\ snd <$> dag_block_ q = Some sig /\ id_ q = i) <->
  (exists q, q ∈ ps /\ is_dag_block q = true /\ snd <$> dag_block_ q = Some sig /\ id_ q = i).
Proof.
  intros Hp. split; intros (q & Hq & Hd & H); exists q; [|by split; [apply elem_of_cons; right|]].
  apply elem_of_cons in Hq as [->|Hq]; [congruence|done].
Qed.

(** The parts of the mask that [p] does not touch. *)
Lemma same_hard p ps k : hard_targets (type_ p) = [] -> hard_ids (p :: ps) k = hard_ids ps k.
Proof. intros H. unfold hard_ids. rewrite ids_where_cons, H. by rewrite bool_decide_false by (by apply not_elem_of_nil). Qed.
Lemma same_peer p ps t n : peer_targets (type_ p) = [] -> peer_ids (p :: ps) t n = peer_ids ps t n.
Proof. intros H. unfold peer_ids. rewrite ids_where_cons, H. by rewrite bool_decide_false by (by apply not_elem_of_nil). Qed.
Lemma same_levels p ps l : is_dag_block p = false -> level_ids (p :: ps) l = level_ids ps l.
Proof. intros H. unfold level_ids. rewrite ids_where_cons, H. done. Qed.

Lemma hard_cons p ps k : hard_ids (p :: ps) k = if bool_decide (k ∈ hard_targets (type_ p)) then {[ id_ p ]} ∪ hard_ids ps k else hard_ids ps k.
Proof. apply ids_where_cons. Qed.
Lemma peer_cons p ps t n : peer_targets (type_ p) = [kDagBlockPacket] ->
  peer_ids (p :: ps) t n = if decide (t = kDagBlockPacket /\ n = from_node_id_ p) then {[ id_ p ]} ∪ peer_ids ps t n else peer_ids ps t n.
Proof.
  intros H. unfold peer_ids. rewrite ids_where_cons, H. destruct (decide (t = kDagBlockPacket)) as [->|Ht].
  - rewrite bool_decide_true by by apply list_elem_of_singleton. simpl. destruct (Z.eqb_spec (from_node_id_ p) n) as [<-|]; [by rewrite decide_True|by rewrite decide_False by naive_solver].
  - rewrite bool_decide_false by (by rewrite list_elem_of_singleton). simpl. by rewrite decide_False by naive_solver.
Qed.

Lemma union_minus (s : gset Z) i : i ∉ s -> ({[ i ]} ∪ s) ∖ {[ i ]} = s.
Proof. intros Hi. apply set_eq. intros x. rewrite elem_of_difference, elem_of_union, elem_of_singleton.
  split; [intros [[->|Hx] Hne]; done|intros Hx; split; [by right|by intros ->]].
Qed.

(** Packets that block only whole types. *)
Lemma hard_start ps m p ts : mask_ok ps m -> id_ p ∉ id_ <$> ps -> hard_targets (type_ p) = ts -> NoDup ts -> peer_targets (type_ p) = [] -> is_dag_block p = false ->
  exists m', ofold (fun m t => markPacketAsHardBlocked m p t) ts m = Done m' /\ mask_ok (p :: ps) m'.
Proof.
  intros [M1 M2 M3 M4] Hid Hts Hnd Hpeer Hdag.
  assert (forall l m0 f, NoDup l -> represents (hard_blocked_packet_types_ m0) f -> (forall t, t ∈ l -> id_ p ∉ f t) ->
    exists h, ofold (fun m t => markPacketAsHardBlocked m p t) l m0 = Done (mkPacketsBlockingMask h (peer_order_blocked_packet_types_ m0) (processing_dag_levels_ m0) (processing_dag_blocks_ m0)) /\
      represents h (fun k => if bool_decide (k ∈ l) then {[ id_ p ]} ∪ f k else f k)) as Hfold.
  { induction l as [|t l IH]; intros m0 f Hl Hf Hfr; simpl; [exists (hard_blocked_packet_types_ m0); split; [by destruct m0|]; by eapply represents_ext|].
    apply NoDup_cons in Hl as [Ht Hl]. destruct (hard_mark m0 p t f Hf) as (h & -> & Hh); [apply Hfr, elem_of_cons; by left|]. simpl.
    edestruct (IH (mkPacketsBlockingMask h (peer_order_blocked_packet_types_ m0) (processing_dag_levels_ m0) (processing_dag_blocks_ m0))) as (h' & E & Hh'); [done|exact Hh| |].
    - intros t' Ht'. simpl. rewrite decide_False by (intros ->; done). apply Hfr, elem_of_cons. by right.
    - exists h'. split; [exact E|]. eapply represents_ext; [exact Hh'|]. intros k. simpl. repeat case_bool_decide; repeat case_decide; set_solver. }
  destruct (Hfold ts m (hard_ids ps) Hnd M1) as (h & E & Hh); [intros t _; by apply ids_where_fresh|].
  eexists. split; [exact E|]. split; simpl.
  - eapply represents_ext; [exact Hh|]. intros k. by rewrite hard_cons, Hts.
  - intros t. eapply represents_ext; [apply M2|]. intros n. by rewrite same_peer.
  - eapply represents_ext; [exact M3|]. intros l. by rewrite same_levels.
  - intros sig i. rewrite M4, other_blocks by done. done.
Qed.

Lemma hard_finish ps m p ts : mask_ok (p :: ps) m -> id_ p ∉ id_ <$> ps -> hard_targets (type_ p) = ts -> NoDup ts -> peer_targets (type_ p) = [] -> is_dag_block p = false ->
  exists m', ofold (fun m t => markPacketAsHardUnblocked m p t) ts m = Done m' /\ mask_ok ps m'.
Proof.
  intros [M1 M2 M3 M4] Hid Hts Hnd Hpeer Hdag.
  assert (forall l m0 f, NoDup l -> represents (hard_blocked_packet_types_ m0) f -> (forall t, t ∈ l -> id_ p ∈ f t) ->
    exists h, ofold (fun m t => markPacketAsHardUnblocked m p t) l m0 = Done (mkPacketsBlockingMask h (peer_order_blocked_packet_types_ m0) (processing_dag_levels_ m0) (processing_dag_blocks_ m0)) /\
      represents h (fun k => if bool_decide (k ∈ l) then f k ∖ {[ id_ p ]} else f k)) as Hfold.
  { induction l as [|t l IH]; intros m0 f Hl Hf Hfr; simpl; [exists (hard_blocked_packet_types_ m0); split; [by destruct m0|]; by eapply represents_ext|].
    apply NoDup_cons in Hl as [Ht Hl]. destruct (hard_unmark m0 p t f Hf) as (h & -> & Hh); [apply Hfr, elem_of_cons; by left|]. simpl.
    edestruct (IH (mkPacketsBlockingMask h (peer_order_blocked_packet_types_ m0) (processing_dag_levels_ m0) (processing_dag_blocks_ m0))) as (h' & E & Hh'); [done|exact Hh| |].
    - intros t' Ht'. simpl. rewrite decide_False by (intros ->; done). apply Hfr, elem_of_cons. by right.
    - exists h'. split; [exact E|]. eapply represents_ext; [exact Hh'|]. intros k. simpl. repeat case_bool_decide; repeat case_decide; set_solver. }
  destruct (Hfold ts m (hard_ids (p :: ps)) Hnd M1) as (h & E & Hh).
  { intros t Ht. rewrite hard_cons, Hts, bool_decide_true by done. set_solver. }
  eexists. split; [exact E|]. split; simpl.
  - eapply represents_ext; [exact Hh|]. intros k. simpl. rewrite hard_cons, Hts. case_bool_decide; [|done]. by apply union_minus, ids_where_fresh.
  - intros t. eapply represents_ext; [apply M2|]. intros n. by rewrite same_peer.
  - eapply represents_ext; [exact M3|]. intros l. by rewrite same_levels.
  - intros sig i. rewrite M4, other_blocks by done. done.
Qed.

(** Packets that block later packets of their peer. *)
Lemma peer_start ps m p f : represents (hard_blocked_packet_types_ m) f -> (forall k, f k = hard_ids (p :: ps) k) ->
  (forall t, represents (default ∅ (peer_order_blocked_packet_types_ m !! t)) (peer_ids ps t)) -> represents (processing_dag_levels_ m) (level_ids ps) ->
  (forall sig i, processing_dag_blocks_ m !! sig = Some i <-> exists q, q ∈ ps /\ is_dag_block q = true /\ snd <$> dag_block_ q = Some sig /\ id_ q = i) ->
  id_ p ∉ id_ <$> ps -> peer_targets (type_ p) = [kDagBlockPacket] -> is_dag_block p = false ->
  exists m', markPacketAsPeerOrderBlocked m p kDagBlockPacket = Done m' /\ mask_ok (p :: ps) m'.
Proof.
  intros M1 Hf M2 M3 M4 Hid Hpeer Hdag. destruct (peer_mark m p (peer_ids ps) M2) as (h & E & Hh); [by apply ids_where_fresh|].
  eexists. split; [exact E|]. split; simpl.
  - by eapply represents_ext.
  - intros t. eapply represents_ext; [apply Hh|]. intros n. simpl. by rewrite peer_cons.
  - eapply represents_ext; [exact M3|]. intros l. by rewrite same_levels.
  - intros sig i. rewrite M4, other_blocks by done. done.
Qed.

Lemma peer_finish ps m p f : represents (hard_blocked_packet_types_ m) f -> (forall k, f k = hard_ids ps k) ->
  (forall t, represents (default ∅ (peer_order_blocked_packet_types_ m !! t)) (peer_ids (p :: ps) t)) -> represents (processing_dag_levels_ m) (level_ids (p :: ps)) ->
  (forall sig i, processing_dag_blocks_ m !! sig = Some i <-> exists q, q ∈ p :: ps /\ is_dag_block q = true /\ snd <$> dag_block_ q = Some sig /\ id_ q = i) ->
  id_ p ∉ id_ <$> ps -> peer_targets (type_ p) = [kDagBlockPacket] -> is_dag_block p = false ->
  exists m', markPacketAsPeerOrderUnblocked m p kDagBlockPacket = Done m' /\ mask_ok ps m'.
Proof.
  intros M1 Hf M2 M3 M4 Hid Hpeer Hdag. destruct (peer_unmark m p (peer_ids (p :: ps)) M2) as (h & E & Hh).
  { rewrite peer_cons, decide_True by done. set_solver. }
  eexists. split; [exact E|]. split; simpl.
  - by eapply represents_ext.
  - intros t. eapply represents_ext; [apply Hh|]. intros n. simpl. rewrite peer_cons by done. case_decide as D; [|done].
    by apply union_minus, ids_where_fresh.
  - eapply represents_ext; [exact M3|]. intros l. by rewrite same_levels.
  - intros sig i. rewrite M4, other_blocks by done. done.
Qed.

(** DAG block packets. *)
Lemma smallest_level ps m l : represents (processing_dag_levels_ m) (level_ids ps) -> getSmallestDagLevelBeingProcessed m = Some l ->
  forall q l' sig, q ∈ ps -> is_dag_block q = true -> dag_block_ q = Some (l', sig) -> l <= l'.
Proof.
  intros M3 Hl q l' sig Hq Hd Hb. unfold getSmallestDagLevelBeingProcessed in Hl.
  destruct (map_items (processing_dag_levels_ m)) as [|[l0 s0] items] eqn:E; [done|]. injection Hl as ->.
  assert (id_ q ∈ level_ids ps l') as Hin.
  { apply elem_of_ids_where. exists q. rewrite Hd, Hb. simpl. by rewrite bool_decide_true. }
  assert ((l', level_ids ps l') ∈ map_items (processing_dag_levels_ m)) as Hit by (apply elem_of_map_items; rewrite M3; by apply (nonempty_some _ (id_ q))).
  pose proof (map_items_sorted (processing_dag_levels_ m)) as Hs. rewrite E in Hit, Hs. apply elem_of_cons in Hit as [[= -> _]|Hit]; [done|].
  apply StronglySorted_inv in Hs as [_ Hs]. rewrite Forall_forall in Hs. apply (Hs _ Hit).
Qed.

Lemma dag_start ps m p level sig : mask_ok ps m -> id_ p ∉ id_ <$> ps -> type_ p = kDagBlockPacket -> dagBlockFromDagPacket p = Done (level, sig) ->
  (forall l, getSmallestDagLevelBeingProcessed m = Some l -> level <= l) -> processing_dag_blocks_ m !! sig = None ->
  exists m', (let* m := setDagBlockLevelBeingProcessed m p in setDagBlockBeingProcessed m p) = Done m' /\ mask_ok (p :: ps) m'.
Proof.
  intros [M1 M2 M3 M4] Hid Ht Hb Hl Hs. pose proof (dag_read p _ Hb) as Hd.
  assert (is_dag_block p = true) as Hdag by (unfold is_dag_block; by rewrite bool_decide_true).
  unfold setDagBlockLevelBeingProcessed. rewrite Hb. simpl obind.
  assert ((match getSmallestDagLevelBeingProcessed m with Some l => level <=? l | None => true end) = true) as ->.
  { destruct (getSmallestDagLevelBeingProcessed m) as [l|]; [apply Z.leb_le; by apply Hl|done]. }
  simpl obind. destruct (ids_insert_rep _ _ level (id_ p) M3) as (x & -> & Hx); [by apply ids_where_fresh|]. simpl obind.
  unfold setDagBlockBeingProcessed. rewrite Hb. simpl obind. simpl. rewrite bool_decide_true by done. simpl. eexists. split; [done|]. split; simpl.
  - eapply represents_ext; [exact M1|]. intros k. rewrite same_hard; [done|]. by rewrite Ht.
  - intros t. eapply represents_ext; [apply M2|]. intros n. rewrite same_peer; [done|]. by rewrite Ht.
  - eapply represents_ext; [exact Hx|]. intros l. unfold level_ids at 3. rewrite ids_where_cons, Hdag, Hd. simpl.
    destruct (decide (l = level)) as [->|Hne]; [by rewrite bool_decide_true|]. rewrite bool_decide_false; [done|]. congruence.
  - intros s i. destruct (decide (s = sig)) as [->|Hne].
    + rewrite lookup_insert_eq. split; [intros [= <-]; exists p; rewrite Hd; split_and!; try done; apply elem_of_cons; by left|].
      intros (q & Hq & Hqd & Hqs & <-). apply elem_of_cons in Hq as [->|Hq]; [done|].
      assert (processing_dag_blocks_ m !! sig = Some (id_ q)) as H by (apply M4; by exists q). congruence.
    + rewrite lookup_insert_ne by done. rewrite M4. split; intros (q & Hq & Hqd & Hqs & Hqi); exists q.
      * split; [apply elem_of_cons; by right|done].
      * apply elem_of_cons in Hq as [->|Hq]; [rewrite Hd in Hqs; simpl in Hqs; congruence|done].
Qed.

Lemma dag_finish ps m p level sig : mask_ok (p :: ps) m -> id_ p ∉ id_ <$> ps -> type_ p = kDagBlockPacket -> dagBlockFromDagPacket p = Done (level, sig) ->
  exists m', (let* m := unsetDagBlockLevelBeingProcessed m p in unsetDagBlockBeingProcessed m p) = Done m' /\ mask_ok ps m'.
Proof.
  intros [M1 M2 M3 M4] Hid Ht Hb. pose proof (dag_read p _ Hb) as Hd.
  assert (is_dag_block p = true) as Hdag by (unfold is_dag_block; by rewrite bool_decide_true).
  assert (forall l, level_ids (p :: ps) l = if decide (l = level) then {[ id_ p ]} ∪ level_ids ps l else level_ids ps l) as Hlev.
  { intros l. unfold level_ids at 1. rewrite ids_where_cons, Hdag, Hd. simpl.
    destruct (decide (l = level)) as [->|Hne]; [by rewrite bool_decide_true|]. rewrite bool_decide_false; [done|]. congruence. }
  unfold unsetDagBlockLevelBeingProcessed. rewrite Hb. simpl obind.
  destruct (ids_erase_rep _ _ level (id_ p) M3) as (x & -> & Hx); [rewrite Hlev, decide_True by done; set_solver|]. simpl obind.
  unfold unsetDagBlockBeingProcessed. rewrite Hb. simpl obind. simpl.
  assert (processing_dag_blocks_ m !! sig = Some (id_ p)) as Hsig by (apply M4; exists p; rewrite Hd; split_and!; try done; apply elem_of_cons; by left).
  rewrite Hsig, bool_decide_true by done. simpl. eexists. split; [done|]. split; simpl.
  - eapply represents_ext; [exact M1|]. intros k. rewrite same_hard; [done|]. by rewrite Ht.
  - intros t. eapply represents_ext; [apply M2|]. intros n. rewrite same_peer; [done|]. by rewrite Ht.
  - eapply represents_ext; [exact Hx|]. intros l. simpl. rewrite Hlev. case_decide; [|done]. by apply union_minus, ids_where_fresh.
  - intros s i. destruct (decide (s = sig)) as [->|Hne].
    + rewrite lookup_delete_eq. split; [done|]. intros (q & Hq & Hqd & Hqs & <-).
      assert (processing_dag_blocks_ m !! sig = Some (id_ q)) as H by (apply M4; exists q; split; [apply elem_of_cons; by right|done]).
      rewrite Hsig in H. injection H as H. exfalso. apply Hid. rewrite H. by apply list_elem_of_fmap_2.
    + rewrite lookup_delete_ne by done. rewrite M4. split; intros (q & Hq & Hqd & Hqs & Hqi); exists q.
      * apply elem_of_cons in Hq as [->|Hq]; [rewrite Hd in Hqs; simpl in Hqs; congruence|done].
      * split; [apply elem_of_cons; by right|done].
Qed.

(** ** Blocked packets *)

(** No packet of [ps] blocks [p]. *)
Record unblocked (ps : list PacketData) (p : PacketData) : Prop := {
  u_hard : forall q, q ∈ ps -> type_ p ∉ hard_targets (type_ q);
  u_peer : forall q, q ∈ ps -> type_ p ∈ peer_targets (type_ q) -> from_node_id_ q = from_node_id_ p -> id_ p < id_ q;
  u_level : forall q l sig l' sig', is_dag_block p = true -> dag_block_ p = Some (l, sig) ->
    q ∈ ps -> is_dag_block q = true -> dag_block_ q = Some (l', sig') -> l <= l' /\ sig <> sig';
}.

Lemma hard_blocked_spec ps m p : mask_ok ps m -> isPacketHardBlocked m p = false -> forall q, q ∈ ps -> type_ p ∉ hard_targets (type_ q).
Proof.
  intros [M1 _ _ _] Hb q Hq Hin. unfold isPacketHardBlocked in Hb. rewrite M1 in Hb. apply bool_decide_eq_false in Hb. apply Hb.
  rewrite (nonempty_some _ (id_ q)); [done|]. apply elem_of_ids_where. exists q. split; [done|]. by rewrite bool_decide_true.
Qed.

Lemma peer_blocked_spec ps m p : mask_ok ps m -> id_ p ∉ id_ <$> ps ->
  exists b, isPacketPeerOrderBlocked m p = Done b /\
    (b = false -> forall q, q ∈ ps -> type_ p ∈ peer_targets (type_ q) -> from_node_id_ q = from_node_id_ p -> id_ p < id_ q).
Proof.
  intros [_ M2 _ _] Hid. unfold isPacketPeerOrderBlocked. pose proof (M2 (type_ p) (from_node_id_ p)) as Hm.
  assert (peer_order_blocked_packet_types_ m !! type_ p ≫= (fun peers => peers !! from_node_id_ p) = nonempty (peer_ids ps (type_ p) (from_node_id_ p))) as ->.
  { rewrite <- Hm. destruct (peer_order_blocked_packet_types_ m !! type_ p); simpl; [done|by rewrite lookup_empty]. }
  set (s := peer_ids ps (type_ p) (from_node_id_ p)).
  assert (forall q, q ∈ ps -> type_ p ∈ peer_targets (type_ q) -> from_node_id_ q = from_node_id_ p -> id_ q ∈ s) as Hin.
  { intros q Hq Ht Hf. apply elem_of_ids_where. exists q. split; [done|]. rewrite bool_decide_true by done. simpl. by rewrite (proj2 (Z.eqb_eq _ _) Hf). }
  unfold nonempty. destruct (decide (s = ∅)) as [E|Hne].
  { exists false. split; [done|]. intros _ q Hq Ht Hf. specialize (Hin q Hq Ht Hf). rewrite E in Hin. by apply not_elem_of_empty in Hin. }
  pose proof (merge_sort_Permutation Z.le (elements s)) as Hp. pose proof (StronglySorted_merge_sort Z.le (elements s)) as Hs.
  destruct (merge_sort Z.le (elements s)) as [|smallest rest].
  { exfalso. apply Hne. apply Permutation_nil in Hp. by apply elements_empty_inv, leibniz_equiv in Hp. }
  assert (smallest ∈ s) as Hsm by (apply elem_of_elements; rewrite <- Hp; by left).
  destruct (Z.ltb_spec smallest (id_ p)) as [|Hle]; [by exists true|].
  assert (id_ p <> smallest) as Hneq by (intros Heq; rewrite <- Heq in Hsm; by apply (ids_where_fresh _ ps _ Hid) in Hsm).
  unfold oassert. destruct (Z.eqb_spec (id_ p) smallest); [done|]. simpl. exists false. split; [done|]. intros _ q Hq Ht Hf.
  specialize (Hin q Hq Ht Hf). apply elem_of_elements in Hin. rewrite <- Hp in Hin. apply elem_of_cons in Hin as [->|Hin]; [lia|].
  apply StronglySorted_inv in Hs as [_ Hs]. rewrite Forall_forall in Hs. specialize (Hs _ Hin). lia.
Qed.

Lemma blocked_spec e ps m p : mask_ok ps m -> id_ p ∉ id_ <$> ps -> dag_ok p ->
  exists b, isPacketBlocked e m p = Done b /\ (b = false -> unblocked ps p /\
    forall level sig, is_dag_block p = true -> dagBlockFromDagPacket p = Done (level, sig) ->
      (forall l, getSmallestDagLevelBeingProcessed m = Some l -> level <= l) /\ processing_dag_blocks_ m !! sig = None).
Proof.
  intros Hm Hid Hok. unfold isPacketBlocked. destruct (isPacketHardBlocked m p) eqn:Eh; [by exists true|].
  pose proof (hard_blocked_spec ps m p Hm Eh) as Hhard. destruct (peer_blocked_spec ps m p Hm Hid) as (bp & Ep & Hpeer).
  unfold dag_ok, is_dag_block in Hok. case_bool_decide as Hd.
  - destruct (Hok eq_refl) as [[level sig] Hb]. pose proof (dag_read _ _ Hb) as Hdb.
    unfold isDagBlockPacketBlockedByLevel, isDagBlockPacketBlockedBySameDagBlock. rewrite Hb.
    assert (exists bl, (match getSmallestDagLevelBeingProcessed m with None => Done false
      | Some smallest => let* (level, _) := Done (level, sig) in Done (smallest <? level) end) = Done bl /\
      (bl = false -> forall l, getSmallestDagLevelBeingProcessed m = Some l -> level <= l)) as (bl & -> & Hbl).
    { destruct (getSmallestDagLevelBeingProcessed m) as [l|]; simpl; [|by exists false]. exists (l <? level). split; [done|].
      intros H%Z.ltb_ge l' [= <-]. done. }
    simpl obind. destruct bl; [by exists true|]. specialize (Hbl eq_refl). simpl obind.
    destruct (bool_decide (is_Some (processing_dag_blocks_ m !! sig))) eqn:Es; [by exists true|]. apply bool_decide_eq_false, eq_None_not_Some in Es.
    exists bp. split; [done|]. intros ->. split; [|intros l s _ [= <- <-]; done]. split; [done|by apply Hpeer|].
    intros q l s l' s' _ Hp Hq Hqd Hqb. rewrite Hdb in Hp. injection Hp as <- <-. split.
    + destruct (getSmallestDagLevelBeingProcessed m) as [x|] eqn:Ex.
      * transitivity x; [by apply Hbl|]. by eapply smallest_level; [apply Hm|..].
      * exfalso. unfold getSmallestDagLevelBeingProcessed in Ex. assert ((l', level_ids ps l') ∈ map_items (processing_dag_levels_ m)) as Hit.
        { apply elem_of_map_items. rewrite (m_levels _ _ Hm). apply (nonempty_some _ (id_ q)), elem_of_ids_where. exists q. rewrite Hqd, Hqb. simpl. by rewrite bool_decide_true. }
        destruct (map_items (processing_dag_levels_ m)); [by apply not_elem_of_nil in Hit|done].
    + intros <-. assert (processing_dag_blocks_ m !! sig = Some (id_ q)) as H; [|congruence]. apply (m_blocks _ _ Hm). exists q. by rewrite Hqb.
  - assert (forall level sig, is_dag_block p = true -> dagBlockFromDagPacket p = Done (level, sig) ->
      (forall l, getSmallestDagLevelBeingProcessed m = Some l -> level <= l) /\ processing_dag_blocks_ m !! sig = None) as Hno.
    { intros l s H. unfold is_dag_block in H. by rewrite bool_decide_false in H. }
    assert (bp = false -> unblocked ps p) as Hun.
    { intros ->. split; [done|by apply Hpeer|]. intros q l s l' s' H. unfold is_dag_block in H. by rewrite bool_decide_false in H. }
    case_bool_decide; simpl; [destruct e; simpl|]; try (by exists true); exists bp; naive_solver.
Qed.

Lemma mask_start e ps m p : mask_ok ps m -> id_ p ∉ id_ <$> ps -> dag_ok p -> isPacketBlocked e m p = Done false ->
  exists m', updateBlockingDependencies m p false = Done m' /\ mask_ok (p :: ps) m'.
Proof.
  intros Hm Hid Hok Hb. destruct (blocked_spec e ps m p Hm Hid Hok) as (b & Eb & Hun). rewrite Hb in Eb. injection Eb as <-.
  destruct (Hun eq_refl) as [_ Hdag]. clear Hun Hb.
  assert (forall ts, hard_targets (type_ p) = ts -> NoDup ts -> peer_targets (type_ p) = [] -> is_dag_block p = false ->
    exists m', ofold (fun m t => markPacketAsHardBlocked m p t) ts m = Done m' /\ mask_ok (p :: ps) m') as Hhard by (intros; by apply hard_start).
  unfold is_dag_block in *. destruct (type_ p) eqn:Et; cbn [hard_targets peer_targets] in Hhard;
    unfold updateBlockingDependencies; rewrite Et; try (apply (Hhard [] eq_refl); [constructor|done|done]).
  all: try (destruct (Hhard _ eq_refl) as (m' & E & Hm'); [apply NoDup_singleton|done|done|]; exists m'; split; [|done]; simpl in E;
    by destruct (markPacketAsHardBlocked m p _)).
  - destruct (Hok ltac:(unfold is_dag_block; by rewrite Et)) as [[level sig] Hr]. destruct (Hdag level sig) as [H1 H2]; [done..|].
    by apply (dag_start ps m p level sig).
  - destruct Hm as [M1 M2 M3 M4]. destruct (hard_mark m p kDagSyncPacket _ M1) as (h & -> & Hh); [by apply ids_where_fresh|]. simpl obind.
    eapply peer_start; [exact Hh| |exact M2|exact M3|exact M4|exact Hid|by rewrite Et|unfold is_dag_block; by rewrite Et].
    intros k. rewrite hard_cons, Et. cbn [hard_targets]. destruct (decide (k = kDagSyncPacket)) as [->|D].
    + by rewrite bool_decide_true by by apply list_elem_of_singleton.
    + rewrite bool_decide_false; [done|]. by rewrite list_elem_of_singleton.
  - destruct Hm as [M1 M2 M3 M4]. eapply peer_start; [exact M1| |exact M2|exact M3|exact M4|exact Hid|by rewrite Et|unfold is_dag_block; by rewrite Et].
    intros k. by rewrite same_hard by by rewrite Et.
  - destruct (Hhard _ eq_refl) as (m' & E & Hm'); [apply (bool_decide_unpack _); vm_compute; exact I|done|done|]. exists m'. split; [|done].
    simpl in E. destruct (markPacketAsHardBlocked m p kPbftBlocksBundlePacket) as [m1| |]; simpl in *; [|done..].
    by destruct (markPacketAsHardBlocked m1 p kPbftSyncPacket).
Qed.

Lemma mask_finish ps m p : mask_ok (p :: ps) m -> id_ p ∉ id_ <$> ps -> dag_ok p ->
  exists m', updateBlockingDependencies m p true = Done m' /\ mask_ok ps m'.
Proof.
  intros Hm Hid Hok.
  assert (forall ts, hard_targets (type_ p) = ts -> NoDup ts -> peer_targets (type_ p) = [] -> is_dag_block p = false ->
    exists m', ofold (fun m t => markPacketAsHardUnblocked m p t) ts m = Done m' /\ mask_ok ps m') as Hhard by (intros; by apply hard_finish).
  unfold is_dag_block in *. destruct (type_ p) eqn:Et; cbn [hard_targets peer_targets] in Hhard;
    unfold updateBlockingDependencies; rewrite Et; try (apply (Hhard [] eq_refl); [constructor|done|done]).
  all: try (destruct (Hhard _ eq_refl) as (m' & E & Hm'); [apply NoDup_singleton|done|done|]; exists m'; split; [|done]; simpl in E;
    by destruct (markPacketAsHardUnblocked m p _)).
  - destruct (Hok ltac:(unfold is_dag_block; by rewrite Et)) as [[level sig] Hr]. by apply (dag_finish ps m p level sig).
  - destruct Hm as [M1 M2 M3 M4].
    assert (forall k, hard_ids (p :: ps) k = if decide (k = kDagSyncPacket) then {[ id_ p ]} ∪ hard_ids ps k else hard_ids ps k) as Hh0.
    { intros k. rewrite hard_cons, Et. cbn [hard_targets]. destruct (decide (k = kDagSyncPacket)) as [->|D].
      - by rewrite bool_decide_true by by apply list_elem_of_singleton.
      - rewrite bool_decide_false; [done|]. by rewrite list_elem_of_singleton. }
    destruct (hard_unmark m p kDagSyncPacket _ M1) as (h & -> & Hh); [rewrite Hh0, decide_True by done; set_solver|]. simpl obind.
    eapply peer_finish; [exact Hh| |exact M2|exact M3|exact M4|exact Hid|by rewrite Et|unfold is_dag_block; by rewrite Et].
    intros k. simpl. rewrite Hh0. destruct (decide (k = kDagSyncPacket)); [|done]. by apply union_minus, ids_where_fresh.
  - destruct Hm as [M1 M2 M3 M4]. eapply peer_finish; [exact M1| |exact M2|exact M3|exact M4|exact Hid|by rewrite Et|unfold is_dag_block; by rewrite Et].
    intros k. by rewrite same_hard by by rewrite Et.
  - destruct (Hhard _ eq_refl) as (m' & E & Hm'); [apply (bool_decide_unpack _); vm_compute; exact I|done|done|]. exists m'. split; [|done].
    simpl in E. destruct (markPacketAsHardUnblocked m p kPbftBlocksBundlePacket) as [m1| |]; simpl in *; [|done..].
    by destruct (markPacketAsHardUnblocked m1 p kPbftSyncPacket).
Qed.

(** ** Queues *)

Lemma queue_of_set q pr x pr' : queue_of (set_queue_of q pr x) pr' = if decide (pr' = pr) then x else queue_of q pr'.
Proof. by destruct pr, pr'. Qed.

Lemma set_queue_rest q pr x : blocked_packets_mask_ (set_queue_of q pr x) = blocked_packets_mask_ q /\
  MAX_TOTAL_WORKERS_COUNT (set_queue_of q pr x) = MAX_TOTAL_WORKERS_COUNT q /\ act_total_workers_count_ (set_queue_of q pr x) = act_total_workers_count_ q.
Proof. by destruct pr. Qed.

Definition queued (q : PriorityQueue) : list PacketData := packets_ (high_queue q) ++ packets_ (mid_queue q) ++ packets_ (low_queue q).

Lemma queued_queue q pr p : p ∈ packets_ (queue_of q pr) -> p ∈ queued q.
Proof. unfold queued. intros H. rewrite !elem_of_app. destruct pr; auto. Qed.

Lemma queued_remove q pr pre x post k w n : packets_ (queue_of q pr) = pre ++ x :: post ->
  queued q ≡ₚ x :: queued (set_queue_of q pr (mkPacketsQueue (pre ++ post) k w n)).
Proof.
  unfold queued. intros H. destruct pr; simpl in *; rewrite H.
  - by rewrite <- (Permutation_middle pre post x).
  - rewrite <- (Permutation_middle pre post x). simpl. symmetry. apply Permutation_middle.
  - rewrite !app_assoc. symmetry. apply Permutation_middle.
Qed.

Lemma queued_push q p : queued (pushBack q p) ≡ₚ p :: queued q.
Proof.
  unfold queued, pushBack, pq_pushBack. destruct (priority_ p); simpl; rewrite <- ?app_assoc; simpl.
  - by rewrite <- Permutation_middle.
  - rewrite <- !Permutation_middle. done.
  - rewrite <- Permutation_cons_append. rewrite !app_assoc. by rewrite <- Permutation_middle.
Qed.

(** The first packet of [l] that is not blocked. *)
Definition takes (e : bool) (m : PacketsBlockingMask) (l : list PacketData) (x : PacketData) (rest : list PacketData) : Prop :=
  exists pre post, l = pre ++ x :: post /\ rest = pre ++ post /\ isPacketBlocked e m x = Done false /\
    forall p, p ∈ pre -> isPacketBlocked e m p = Done true.

Lemma first_unblocked_spec e ps m l : mask_ok ps m -> (forall p, p ∈ l -> id_ p ∉ id_ <$> ps /\ dag_ok p) ->
  (first_unblocked e m l = Done None /\ forall p, p ∈ l -> isPacketBlocked e m p = Done true) \/
  exists x rest, first_unblocked e m l = Done (Some (x, rest)) /\ takes e m l x rest.
Proof.
  intros Hm. induction l as [|p l IH]; intros Hl; simpl; [left; split; [done|]; intros p Hp; by apply not_elem_of_nil in Hp|].
  destruct (Hl p) as [Hid Hok]; [apply elem_of_cons; by left|]. destruct (blocked_spec e ps m p Hm Hid Hok) as (b & Eb & _). rewrite Eb. simpl.
  destruct b.
  - destruct IH as [[E H]|(x & rest & E & pre & post & -> & -> & Hx & Hpre)]; [intros q Hq; apply Hl, elem_of_cons; by right|..]; rewrite E; simpl.
    + left. split; [done|]. intros q [->|Hq]%elem_of_cons; [done|by apply H].
    + right. exists x, (p :: pre ++ post). split; [done|]. exists (p :: pre), post. split_and!; [done..|]. intros q [->|Hq]%elem_of_cons; [done|by apply Hpre].
  - right. exists p, l. split; [done|]. exists [], l. split_and!; [done..|]. intros q Hq. by apply not_elem_of_nil in Hq.
Qed.
