(* ===== verification/ThreadPoolRuns.v ===== *)
(** * Runs of the thread pool

    However packets arrive and workers take, unblock and release them, no assertion of
    the pool fails, packets that exclude each other are not processed at the same time,
    and a pool without work in progress makes progress. *)

From S2P Require Import Prelude ThreadPool ThreadPoolInv.
Local Open Scope Z_scope.
Local Open Scope outcome_scope.

(** ** Taking a packet *)

(** [x] is taken from the queue [pr]. *)
Definition popped (e : bool) (q q' : PriorityQueue) (x : PacketData) : Prop :=
  exists pr rest, takes e (blocked_packets_mask_ q) (packets_ (queue_of q pr)) x rest /\
    q' = set_queue_of q pr (mkPacketsQueue rest (kMaxWorkersCount_ (queue_of q pr)) (act_workers_count_ (queue_of q pr)) (act_packets_count_ (queue_of q pr) - 1)).

Section queue.
Context (e : bool) (ps : list PacketData) (q : PriorityQueue).
Context (Hmask : mask_ok ps (blocked_packets_mask_ q)).
Context (Hpackets : forall pr p, p ∈ packets_ (queue_of q pr) -> id_ p ∉ id_ <$> ps /\ dag_ok p).
Context (Hcount : forall pr, act_packets_count_ (queue_of q pr) = Z.of_nat (length (packets_ (queue_of q pr)))).
#[local] Set Default Proof Using "Type*".

Lemma pq_pop_spec pr :
  (pq_pop e (blocked_packets_mask_ q) (queue_of q pr) = Done (queue_of q pr, None) /\
   forall p, p ∈ packets_ (queue_of q pr) -> isPacketBlocked e (blocked_packets_mask_ q) p = Done true) \/
  exists x rest, takes e (blocked_packets_mask_ q) (packets_ (queue_of q pr)) x rest /\
    pq_pop e (blocked_packets_mask_ q) (queue_of q pr) =
      Done (mkPacketsQueue rest (kMaxWorkersCount_ (queue_of q pr)) (act_workers_count_ (queue_of q pr)) (act_packets_count_ (queue_of q pr) - 1), Some x).
Proof.
  unfold pq_pop. destruct (first_unblocked_spec e ps _ (packets_ (queue_of q pr)) Hmask (Hpackets pr)) as [[-> H]|(x & rest & -> & Ht)]; simpl obind; [by left|].
  right. exists x, rest. split; [done|]. destruct Ht as (pre & post & E & _). rewrite (Hcount pr), E, length_app. simpl length.
  destruct (Z.eqb_spec (Z.of_nat (length pre + S (length post))) 0); [lia|]. done.
Qed.

Lemma pop_pass_spec limits : forall prs,
  (exists x q' b, pop_pass e limits prs q = Done (q', Some x, b) /\ popped e q q' x) \/
  exists b, pop_pass e limits prs q = Done (q, None, b) /\
    (b = false -> forall pr p, pr ∈ prs -> p ∈ packets_ (queue_of q pr) -> isPacketBlocked e (blocked_packets_mask_ q) p = Done true).
Proof.
  induction prs as [|pr prs IH]; simpl.
  { right. exists false. split; [done|]. intros _ pr p H. by apply not_elem_of_nil in H. }
  destruct (pq_empty (queue_of q pr)) eqn:Ee.
  { unfold pq_empty in Ee. apply Z.eqb_eq in Ee. rewrite Hcount in Ee.
    destruct IH as [IH|(b & E & Hb)]; [by left|right; exists b; split; [done|]]. intros -> pr' p [->|Hpr]%elem_of_cons Hp; [|by eapply Hb].
    destruct (packets_ (queue_of q pr)); [by apply not_elem_of_nil in Hp|simpl in Ee; lia]. }
  destruct (limits && _).
  { destruct IH as [(x & q' & b & -> & H)|(b & -> & Hb)]; simpl; [left; by exists x, q', true|right; by exists true]. }
  destruct (pq_pop_spec pr) as [[-> Hall]|(x & rest & Ht & ->)]; simpl obind; cbv beta iota.
  - destruct IH as [IH|(b & E & Hb)]; [by left|right; exists b; split; [done|]]. intros -> pr' p [->|Hpr]%elem_of_cons Hp; [by apply Hall|by eapply Hb].
  - left. eexists x, _, false. split; [done|]. by exists pr, rest.
Qed.

Lemma pop_spec :
  (exists x q', pop e q = Done (q', Some x) /\ popped e q q' x /\ act_total_workers_count_ q < MAX_TOTAL_WORKERS_COUNT q) \/ pop e q = Done (q, None).
Proof.
  unfold pop. destruct (Z.leb_spec (MAX_TOTAL_WORKERS_COUNT q) (act_total_workers_count_ q)) as [|Hlt]; [by right|].
  destruct (pop_pass_spec true priorities) as [(x & q' & b & -> & H)|(b & -> & _)]; cbn [obind]; [left; by exists x, q'|].
  destruct b; cbn [negb]; [|by right]. destruct (canBorrowThread q); cbn [negb]; [|by right].
  destruct (pop_pass_spec false priorities) as [(x & q' & b & -> & H)|(b & -> & _)]; simpl; [left; by exists x, q'|by right].
Qed.

(** Without work in progress a packet is taken unless all are blocked. *)
Lemma pop_progress pr p : (forall pr, act_workers_count_ (queue_of q pr) = 0 /\ 0 < kMaxWorkersCount_ (queue_of q pr)) ->
  act_total_workers_count_ q = 0 -> 0 < MAX_TOTAL_WORKERS_COUNT q -> p ∈ packets_ (queue_of q pr) -> isPacketBlocked e (blocked_packets_mask_ q) p = Done false ->
  exists x q', pop e q = Done (q', Some x).
Proof.
  intros Hw Ht Hm Hp Hb. unfold pop. destruct (Z.leb_spec (MAX_TOTAL_WORKERS_COUNT q) (act_total_workers_count_ q)); [lia|].
  assert (forall prs q' b, pop_pass e true prs q = Done (q', None, b) -> b = false) as Hflag.
  { induction prs as [|r prs IH]; intros q' b; simpl; [by intros [= _ <-]|]. destruct (pq_empty _); [apply IH|].
    unfold maxWorkersCountReached. destruct (Hw r) as [H1 H2]. destruct (Z.leb_spec (kMaxWorkersCount_ (queue_of q r)) (act_workers_count_ (queue_of q r))); [lia|]. simpl.
    destruct (pq_pop _ _ _) as [[y [d|]]| |]; simpl; [done|apply IH|done..]. }
  destruct (pop_pass_spec true priorities) as [(x & q' & b & -> & H1)|(b & E & Hall)]; [by exists x, q'|].
  rewrite (Hflag _ _ _ E) in E. specialize (Hflag _ _ _ E). destruct b; [|].
  - destruct (pop_pass_spec true priorities) as [(x & q' & b & E2 & _)|(b & E2 & H2)]; [congruence|]. rewrite E in E2. injection E2 as <-.
    rewrite (H2 eq_refl pr p) in Hb; [done|unfold priorities; destruct pr; set_solver|done].
  - rewrite (Hall eq_refl pr p) in Hb; [done|unfold priorities; destruct pr; set_solver|done].
Qed.
End queue.

(** ** The invariant *)

Definition counted_packets (t : PacketsThreadPool) : list PacketData := in_work t ++ finishing t.
Definition held_packets (t : PacketsThreadPool) : list PacketData := counted_packets t ++ leaving t.
Definition all_packets (t : PacketsThreadPool) : list PacketData := queued (queue_ t) ++ held_packets t.

Definition of_priority (pr : PacketPriority) (l : list PacketData) : Z := Z.of_nat (length (filter (fun p => priority_ p = pr) l)).

Record pool_inv (t : PacketsThreadPool) : Prop := {
  p_ids : NoDup (id_ <$> all_packets t);
  p_range : forall p, p ∈ all_packets t -> 0 <= id_ p < packets_count_ t;
  p_length : Z.of_nat (length (all_packets t)) <= packets_count_ t < 2 ^ 64;
  p_dag : forall p, p ∈ all_packets t -> dag_ok p;
  p_mask : mask_ok (in_work t) (blocked_packets_mask_ (queue_ t));
  p_priority : forall pr p, p ∈ packets_ (queue_of (queue_ t) pr) -> priority_ p = pr;
  p_packets : forall pr, act_packets_count_ (queue_of (queue_ t) pr) = Z.of_nat (length (packets_ (queue_of (queue_ t) pr)));
  p_workers : forall pr, act_workers_count_ (queue_of (queue_ t) pr) = of_priority pr (held_packets t) /\ 0 < kMaxWorkersCount_ (queue_of (queue_ t) pr);
  p_total : act_total_workers_count_ (queue_ t) = Z.of_nat (length (counted_packets t));
  p_max : act_total_workers_count_ (queue_ t) <= MAX_TOTAL_WORKERS_COUNT (queue_ t) < 2 ^ 32;
}.

(** A packet in a queue is not in work. *)
Lemma queued_fresh t pr p : pool_inv t -> p ∈ packets_ (queue_of (queue_ t) pr) -> id_ p ∉ id_ <$> in_work t /\ dag_ok p.
Proof.
  intros Hi Hp. assert (p ∈ queued (queue_ t)) as Hq by by eapply queued_queue. split; [|apply (p_dag _ Hi), elem_of_app; by left].
  pose proof (p_ids _ Hi) as Hnd. unfold all_packets, held_packets, counted_packets in Hnd. rewrite !fmap_app in Hnd. apply NoDup_app in Hnd as (_ & Hd & _).
  intros Hin. apply (Hd (id_ p)); [by apply list_elem_of_fmap_2|]. apply elem_of_app. left. apply elem_of_app. by left.
Qed.

Lemma of_priority_cons pr p l : of_priority pr (p :: l) = of_priority pr l + if decide (priority_ p = pr) then 1 else 0.
Proof. unfold of_priority. rewrite filter_cons. case_decide; simpl; lia. Qed.

Lemma of_priority_perm pr l l' : l ≡ₚ l' -> of_priority pr l = of_priority pr l'.
Proof. intros H. unfold of_priority. by rewrite H. Qed.

Lemma of_priority_bound pr l : 0 <= of_priority pr l <= Z.of_nat (length l).
Proof. unfold of_priority. pose proof (length_filter (fun p => priority_ p = pr) l). lia. Qed.

(** ** The operations *)

Lemma tp_push_inv t p : pool_inv t -> dag_ok p -> packets_count_ t + 1 < 2 ^ 64 -> pool_inv (tp_push t p).
Proof.
  intros Hi Hok Hc. pose proof Hi as [I1 I2 I3 I4 I5 I6 I7 I8 I9 I10].
  set (x := mkPacketData (packets_count_ t) (type_ p) (priority_ p) (from_node_id_ p) (item_count_ p) (dag_block_ p)).
  assert (dag_ok x) as Hx by exact Hok.
  assert (all_packets (tp_push t p) ≡ₚ x :: all_packets t) as Hperm.
  { unfold all_packets. change (held_packets (tp_push t p)) with (held_packets t). simpl queue_. fold x. by rewrite queued_push. }
  assert (forall pr, queue_of (pushBack (queue_ t) x) pr = if decide (pr = priority_ p) then pq_pushBack (queue_of (queue_ t) pr) x else queue_of (queue_ t) pr) as Hq.
  { intros pr. unfold pushBack. rewrite queue_of_set. simpl. case_decide; [by subst|done]. }
  destruct (set_queue_rest (queue_ t) (priority_ x) (pq_pushBack (queue_of (queue_ t) (priority_ x)) x)) as (R1 & R2 & R3).
  assert (u64 (packets_count_ t + 1) = packets_count_ t + 1) as Hw by (apply wrap_id; unfold in_range, modulus; lia).
  split.
  - rewrite Hperm. simpl. constructor; [|done]. intros (q & Hq1 & Hq2)%list_elem_of_fmap. apply I2 in Hq2. simpl in Hq1. lia.
  - intros q Hq1. rewrite Hperm in Hq1. simpl packets_count_. rewrite Hw. apply elem_of_cons in Hq1 as [->|Hq1]; [simpl|apply I2 in Hq1]; lia.
  - rewrite Hperm. simpl. rewrite Hw. lia.
  - intros q Hq1. rewrite Hperm in Hq1. apply elem_of_cons in Hq1 as [->|Hq1]; [done|by apply I4].
  - simpl. fold x. unfold pushBack. by rewrite R1.
  - intros pr q. simpl. fold x. rewrite Hq. case_decide as D; [|apply I6]. simpl. rewrite elem_of_app, list_elem_of_singleton. intros [H| ->]; [by apply I6|done].
  - intros pr. simpl. fold x. rewrite Hq. case_decide as D; [|apply I7]. simpl. rewrite I7, length_app. simpl.
    assert (length (packets_ (queue_of (queue_ t) pr)) <= length (all_packets t))%nat.
    { unfold all_packets, queued. rewrite !length_app. destruct pr; simpl; lia. }
    rewrite wrap_id by (unfold in_range, modulus; lia). lia.
  - intros pr. simpl. fold x. rewrite Hq. change (held_packets (tp_push t p)) with (held_packets t). case_decide; apply I8.
  - simpl. fold x. unfold pushBack. rewrite R3. done.
  - simpl. fold x. unfold pushBack. by rewrite R2, R3.
Qed.

Lemma take_inv e t : pool_inv t ->
  exists t' r, tp_take e t = Done (t', r) /\ pool_inv t' /\
    match r with
    | None => t' = t
    | Some x => in_work t' = x :: in_work t /\ finishing t' = finishing t /\ leaving t' = leaving t /\ unblocked (in_work t) x /\ exists pr rest, takes e (blocked_packets_mask_ (queue_ t)) (packets_ (queue_of (queue_ t) pr)) x rest /\
        forall pr', packets_ (queue_of (queue_ t') pr') = if decide (pr' = pr) then rest else packets_ (queue_of (queue_ t) pr')
    end.
Proof.
  intros Hi. pose proof Hi as [I1 I2 I3 I4 I5 I6 I7 I8 I9 I10]. unfold tp_take.
  destruct (pop_spec e (in_work t) (queue_ t) I5 (fun pr p => queued_fresh t pr p Hi) I7) as [(x & q' & E & (pr & rest & Ht & Eq') & Hlt)|E]; rewrite E; cbn [obind].
  2: { eexists _, None. split; [done|]. by destruct t. }
  pose proof Ht as (pre & post & Epk & Erest & Hub & _).
  assert (x ∈ packets_ (queue_of (queue_ t) pr)) as Hx by (rewrite Epk; apply elem_of_app; right; by left).
  destruct (queued_fresh t pr x Hi Hx) as [Hid Hok]. pose proof (I6 pr x Hx) as Hpr.
  destruct (blocked_spec e (in_work t) _ x I5 Hid Hok) as (b & Eb & Hun). rewrite Hub in Eb. injection Eb as <-. destruct (Hun eq_refl) as [Hunb _].
  destruct (mask_start e (in_work t) _ x I5 Hid Hok Hub) as (m' & Em & Hm').
  set (nq := mkPacketsQueue rest _ _ _) in Eq'. destruct (set_queue_rest (queue_ t) pr nq) as (R1 & R2 & R3). rewrite <- Eq' in R1, R2, R3.
  unfold updateDependenciesStart, oassert. rewrite R2, R3, (proj2 (Z.ltb_lt _ _) Hlt). cbn [obind].
  assert (u64 (act_total_workers_count_ (queue_ t) + 1) = act_total_workers_count_ (queue_ t) + 1) as Hw by (apply wrap_id; unfold in_range, modulus; lia). rewrite Hw.
  set (q1 := set_total q' _). set (q2 := set_queue_of q1 (priority_ x) _).
  assert (blocked_packets_mask_ q2 = blocked_packets_mask_ (queue_ t)) as Em2 by (subst q2 q1; rewrite (proj1 (set_queue_rest _ _ _)); simpl; done).
  rewrite Em2, Em. cbn [obind]. eexists _, (Some x). split; [done|].
  assert (forall pr', queue_of q2 pr' = if decide (pr' = pr) then incrementActWorkersCount nq else queue_of (queue_ t) pr') as Hq2.
  { intros pr'. subst q2. rewrite queue_of_set, Hpr. assert (forall p, queue_of q1 p = queue_of q' p) as Hq1 by (intros []; done). rewrite !Hq1, Eq', !queue_of_set.
    case_decide; [by rewrite decide_True|done]. }
  assert (queued (queue_ t) ≡ₚ x :: queued (set_mask q2 m')) as Hqd.
  { rewrite (queued_remove _ pr pre x post (kMaxWorkersCount_ nq) (u64 (act_workers_count_ nq + 1)) (act_packets_count_ nq) Epk). constructor.
    assert (forall p, packets_ (queue_of (set_queue_of (queue_ t) pr (mkPacketsQueue (pre ++ post) (kMaxWorkersCount_ nq) (u64 (act_workers_count_ nq + 1)) (act_packets_count_ nq))) p) =
      packets_ (queue_of q2 p)) as Hsame by (intros p; rewrite queue_of_set, Hq2; case_decide; [subst nq; simpl; by rewrite Erest|done]).
    unfold queued. pose proof (Hsame High) as HH. pose proof (Hsame Mid) as HM. pose proof (Hsame Low) as HL. cbn [queue_of] in HH, HM, HL. rewrite HH, HM, HL. done. }
  assert (forall pr', queue_of (set_mask q2 m') pr' = queue_of q2 pr') as Hsm by (by intros []).
  set (t' := mkPacketsThreadPool (set_mask q2 m') (packets_count_ t) (x :: in_work t) (finishing t) (leaving t)).
  split; [|split_and!; [done..|]; exists pr, rest; split; [done|]; intros pr'; subst t'; simpl; rewrite Hsm, Hq2; by case_decide].
  assert (all_packets t' ≡ₚ all_packets t) as Hperm.
  { unfold all_packets, held_packets, counted_packets. simpl. rewrite Hqd. symmetry. rewrite <- app_comm_cons. apply Permutation_middle. }
  assert (length rest = length (packets_ (queue_of (queue_ t) pr)) - 1)%nat as Hlen by (rewrite Epk, Erest, !length_app; simpl; lia).
  assert (length (packets_ (queue_of (queue_ t) pr)) <> 0)%nat as Hpos by (rewrite Epk, length_app; simpl; lia).
  split; simpl.
  - by rewrite Hperm.
  - intros p Hp. rewrite Hperm in Hp. by apply I2.
  - rewrite Hperm. done.
  - intros p Hp. rewrite Hperm in Hp. by apply I4.
  - exact Hm'.
  - intros pr' p. rewrite Hsm, Hq2. case_decide as D; [|apply I6]. subst pr'. simpl. intros Hp. apply I6. rewrite Epk. rewrite Erest in Hp.
    apply elem_of_app in Hp as [Hp|Hp]; apply elem_of_app; [by left|right; apply elem_of_cons; by right].
  - intros pr'. rewrite Hsm, Hq2. case_decide as D; [|apply I7]. subst pr'. simpl. rewrite I7, Hlen. lia.
  - intros pr'. unfold held_packets, counted_packets. simpl. rewrite Hsm, Hq2, of_priority_cons, Hpr. destruct (I8 pr') as [W1 W2]. destruct (decide (pr' = pr)) as [->|D].
    + rewrite decide_True by done. simpl. rewrite W1. pose proof (of_priority_bound pr (held_packets t)).
      assert (length (held_packets t) < length (all_packets t))%nat by (unfold all_packets; rewrite Hqd; simpl; rewrite length_app; lia).
      rewrite wrap_id by (unfold in_range, modulus; lia). done.
    + rewrite decide_False by done. split; [|done]. unfold held_packets, counted_packets in W1. lia.
  - subst q2. destruct (set_queue_rest q1 (priority_ x) (incrementActWorkersCount (queue_of q1 (priority_ x)))) as (_ & _ & ->). simpl. rewrite I9. unfold counted_packets. simpl. lia.
  - subst q2. destruct (set_queue_rest q1 (priority_ x) (incrementActWorkersCount (queue_of q1 (priority_ x)))) as (_ & -> & ->). simpl. rewrite R2. lia.
Qed.

Lemma unblock_inv t i : pool_inv t -> exists t', tp_unblock t i = Done t' /\ pool_inv t'.
Proof.
  intros Hi. pose proof Hi as [I1 I2 I3 I4 I5 I6 I7 I8 I9 I10]. unfold tp_unblock. destruct (in_work t !! i) as [p|] eqn:Ep; [|by exists t].
  pose proof (delete_Permutation _ _ _ Ep) as Hdel. set (ps := delete i (in_work t)) in *.
  assert (p ∈ all_packets t) as Hp by (unfold all_packets, held_packets, counted_packets; rewrite !elem_of_app; right; left; left; by eapply list_elem_of_lookup_2).
  assert (id_ p ∉ id_ <$> ps) as Hid.
  { unfold all_packets, held_packets, counted_packets in I1. rewrite !fmap_app in I1. apply NoDup_app in I1 as (_ & _ & I1). apply NoDup_app in I1 as (I1 & _). apply NoDup_app in I1 as (I1 & _). rewrite Hdel in I1. by apply NoDup_cons in I1 as [? _]. }
  pose proof (mask_ok_perm _ _ _ Hdel I5) as Hm. destruct (mask_finish ps _ p Hm Hid (I4 p Hp)) as (m' & Em & Hm').
  assert (counted_packets t ≡ₚ ps ++ p :: finishing t) as Hcp by (unfold counted_packets; rewrite Hdel; simpl; apply Permutation_middle).
  unfold finish_unblock, oassert. rewrite I9. rewrite (proj2 (Z.ltb_lt 0 (Z.of_nat (length (counted_packets t))))) by (rewrite Hcp, length_app; simpl; lia). cbn [obind].
  assert (exists q m2, (if isNonBlockingPacket (type_ p) then Done (queue_ t) else let* m := updateBlockingDependencies (blocked_packets_mask_ (queue_ t)) p true in Done (set_mask (queue_ t) m)) = Done q /\
    q = set_mask (queue_ t) m2 /\ mask_ok ps m2) as (q & m2 & -> & -> & Hm2).
  { destruct (isNonBlockingPacket (type_ p)) eqn:En.
    - exists (queue_ t), (blocked_packets_mask_ (queue_ t)). split; [done|]. split; [by destruct (queue_ t)|].
      unfold updateBlockingDependencies in Em. unfold isNonBlockingPacket in En. destruct (type_ p); try discriminate En; injection Em as <-; exact Hm'.
    - rewrite Em. by exists (set_mask (queue_ t) m'), m'. }
  cbn [obind]. eexists. split; [done|]. set (t' := mkPacketsThreadPool _ _ ps (p :: finishing t) (leaving t)).
  assert (counted_packets t' ≡ₚ counted_packets t) as Hcp' by (by rewrite Hcp).
  assert (held_packets t' ≡ₚ held_packets t) as Hh by (unfold held_packets; by rewrite Hcp').
  assert (all_packets t' ≡ₚ all_packets t) as Hperm by (unfold all_packets; by rewrite Hh).
  assert (forall pr, queue_of (set_mask (queue_ t) m2) pr = queue_of (queue_ t) pr) as Hq by (by intros []).
  split; simpl.
  - by rewrite Hperm.
  - intros x Hx. rewrite Hperm in Hx. by apply I2.
  - by rewrite Hperm.
  - intros x Hx. rewrite Hperm in Hx. by apply I4.
  - exact Hm2.
  - intros pr x. rewrite Hq. apply I6.
  - intros pr. rewrite Hq. apply I7.
  - intros pr. rewrite Hq, (of_priority_perm pr _ _ Hh). apply I8.
  - by rewrite Hcp'.
  - done.
Qed.

Lemma leave_inv t i : pool_inv t -> pool_inv (tp_leave t i).
Proof.
  intros Hi. pose proof Hi as [I1 I2 I3 I4 I5 I6 I7 I8 I9 I10]. unfold tp_leave. destruct (finishing t !! i) as [p|] eqn:Ep; [|done].
  pose proof (delete_Permutation _ _ _ Ep) as Hdel. set (fs := delete i (finishing t)) in *. set (t' := mkPacketsThreadPool _ _ _ fs _).
  assert (held_packets t' ≡ₚ held_packets t) as Hh.
  { unfold held_packets, counted_packets. simpl. rewrite Hdel, <- !app_assoc. simpl. by rewrite <- (Permutation_middle fs). }
  assert (all_packets t' ≡ₚ all_packets t) as Hperm by (unfold all_packets; by rewrite Hh).
  assert (Z.of_nat (length (counted_packets t)) = Z.of_nat (length (in_work t ++ fs)) + 1) as Hlen
    by (unfold counted_packets; rewrite Hdel, !length_app; simpl; lia).
  assert (forall pr, queue_of (finish_total (queue_ t)) pr = queue_of (queue_ t) pr) as Hq by (by intros []).
  assert (u64 (act_total_workers_count_ (queue_ t) - 1) = Z.of_nat (length (in_work t ++ fs))) as Hn
    by (rewrite I9, wrap_id by (unfold in_range, modulus; lia); lia).
  split; simpl.
  - by rewrite Hperm.
  - intros x Hx. rewrite Hperm in Hx. by apply I2.
  - by rewrite Hperm.
  - intros x Hx. rewrite Hperm in Hx. by apply I4.
  - exact I5.
  - intros pr x. rewrite Hq. apply I6.
  - intros pr. rewrite Hq. apply I7.
  - intros pr. rewrite Hq, (of_priority_perm pr _ _ Hh). apply I8.
  - exact Hn.
  - lia.
Qed.

Lemma release_inv t i : pool_inv t -> exists t', tp_release t i = Done t' /\ pool_inv t'.
Proof.
  intros Hi. pose proof Hi as [I1 I2 I3 I4 I5 I6 I7 I8 I9 I10]. unfold tp_release. destruct (leaving t !! i) as [p|] eqn:Ep; [|by exists t].
  pose proof (delete_Permutation _ _ _ Ep) as Hdel. set (ls := delete i (leaving t)) in *.
  assert (held_packets t ≡ₚ p :: counted_packets t ++ ls) as Hcp by (unfold held_packets; rewrite Hdel; symmetry; apply Permutation_middle).
  assert (forall pr, of_priority pr (held_packets t) = of_priority pr (counted_packets t ++ ls) + if decide (priority_ p = pr) then 1 else 0) as Hof
    by (intros pr; by rewrite (of_priority_perm pr _ _ Hcp), of_priority_cons).
  destruct (I8 (priority_ p)) as [W _]. rewrite Hof, decide_True in W by done. pose proof (of_priority_bound (priority_ p) (counted_packets t ++ ls)) as Hb.
  unfold finish_count, decrementActWorkersCount, oassert.
  rewrite (proj2 (Z.ltb_lt 0 (act_workers_count_ (queue_of (queue_ t) (priority_ p))))) by lia. cbn [obind]. eexists. split; [done|].
  set (nq := set_workers _ _). destruct (set_queue_rest (queue_ t) (priority_ p) nq) as (R1 & R2 & R3).
  set (t' := mkPacketsThreadPool _ _ _ _ ls).
  assert (queued (queue_ t') = queued (queue_ t)) as Hqd by (unfold queued; subst t' nq; simpl; by destruct (priority_ p)).
  assert (all_packets t ≡ₚ p :: all_packets t') as Hperm.
  { unfold all_packets. rewrite Hqd. change (held_packets t') with (counted_packets t ++ ls). rewrite Hcp. symmetry. apply Permutation_middle. }
  assert (forall x, x ∈ all_packets t' -> x ∈ all_packets t) as Hsub by (intros x Hx; rewrite Hperm; by right).
  split; simpl.
  - rewrite Hperm in I1. by apply NoDup_cons in I1 as [_ ?].
  - intros x Hx. by apply I2, Hsub.
  - rewrite Hperm in I3. simpl in I3. lia.
  - intros x Hx. by apply I4, Hsub.
  - by rewrite R1.
  - intros pr x. rewrite queue_of_set. case_decide; [subst; apply I6|apply I6].
  - intros pr. rewrite queue_of_set. case_decide; [subst; apply I7|apply I7].
  - intros pr. change (held_packets t') with (counted_packets t ++ ls). rewrite queue_of_set. destruct (I8 pr) as [W1 W2]. rewrite Hof in W1. destruct (decide (pr = priority_ p)) as [->|D].
    + rewrite decide_True in W1 by done. simpl. split; [lia|done].
    + rewrite decide_False in W1 by done. split; [lia|done].
  - rewrite R3. exact I9.
  - by rewrite R2, R3.
Qed.
