(* ===== verification/ThreadPoolSafety.v ===== *)
(** * Guarantees of the thread pool

    In every run of the pool no assertion fails, packets that exclude each other are not
    in work together, the transactions a peer sends are processed before the DAG blocks it
    sends after them, and an idle pool with work takes some.  Packets that cannot be read
    stop the node, and the rule that keeps one thread for each queue does not hold. *)

From S2P Require Import Prelude ThreadPool ThreadPoolInv ThreadPoolRuns.
Local Open Scope Z_scope.
Local Open Scope outcome_scope.

(** ** Runs *)

(** The states of a pool of [workers] threads: packets arrive, and workers take them,
    remove their dependencies and leave the counters in any order. *)
Inductive pool_run (workers : Z) : PacketsThreadPool -> Prop :=
| run_start t : newPacketsThreadPool workers = Done t -> pool_run workers t
| run_push t type from item_count block p : pool_run workers t -> newPacketData type from item_count block = Done p -> dag_ok p ->
    packets_count_ t + 1 < 2 ^ 64 -> pool_run workers (tp_push t p)
| run_take t e t' r : pool_run workers t -> tp_take e t = Done (t', r) -> pool_run workers t'
| run_unblock t i t' : pool_run workers t -> tp_unblock t i = Done t' -> pool_run workers t'
| run_leave t i : pool_run workers t -> pool_run workers (tp_leave t i)
| run_release t i t' : pool_run workers t -> tp_release t i = Done t' -> pool_run workers t'.

(** Packets that are processed one at a time. *)
Definition one_at_a_time : list SubprotocolPacketType :=
  [kGetDagSyncPacket; kGetPbftSyncPacket; kGetPillarVotesBundlePacket; kPillarVotesBundlePacket; kPbftBlocksBundlePacket; kPbftSyncPacket; kDagSyncPacket].

Definition signature (p : PacketData) : option Z := if is_dag_block p then snd <$> dag_block_ p else None.

Definition exclusive (ps : list PacketData) : Prop :=
  NoDup (filter (fun t => t ∈ one_at_a_time) (type_ <$> ps)) /\ NoDup (omap signature ps).

Lemma one_at_a_time_blocks t : t ∈ one_at_a_time -> t ∈ hard_targets t.
Proof. destruct t; intros H; try (by simpl; set_solver); exfalso; revert H; apply (bool_decide_unpack _); by vm_compute. Qed.

Lemma exclusive_take ps x : exclusive ps -> unblocked ps x -> exclusive (x :: ps).
Proof.
  intros [E1 E2] [U1 _ U3]. split.
  - rewrite fmap_cons, filter_cons. case_decide as D; [|done]. constructor; [|done]. intros [_ Hin]%list_elem_of_filter.
    apply list_elem_of_fmap in Hin as (q & Hq & Hin). apply (U1 q Hin). rewrite <- Hq. by apply one_at_a_time_blocks.
  - simpl. unfold signature at 1. destruct (is_dag_block x) eqn:Ed; [|done]. destruct (dag_block_ x) as [[l sig]|] eqn:Eb; [|done]. simpl.
    constructor; [|done]. intros (q & Hq & Hs)%list_elem_of_omap. unfold signature in Hs. destruct (is_dag_block q) eqn:Eq; [|done].
    destruct (dag_block_ q) as [[l' sig']|] eqn:Eqb; [|done]. simpl in Hs. injection Hs as ->. by eapply U3.
Qed.

Lemma exclusive_finish ps i p : ps !! i = Some p -> exclusive ps -> exclusive (delete i ps).
Proof.
  intros Ep [E1 E2]. apply delete_Permutation in Ep. rewrite Ep in E1, E2. split.
  - rewrite fmap_cons, filter_cons in E1. case_decide; [by apply NoDup_cons in E1 as [_ ?]|done].
  - simpl in E2. destruct (signature p); [by apply NoDup_cons in E2 as [_ ?]|done].
Qed.

Record run_ok (workers : Z) (t : PacketsThreadPool) : Prop := {
  r_inv : pool_inv t;
  r_max : MAX_TOTAL_WORKERS_COUNT (queue_ t) = workers;
  r_sorted : forall pr, StronglySorted Z.lt (id_ <$> packets_ (queue_of (queue_ t) pr));
  r_typed : forall pr p, p ∈ packets_ (queue_of (queue_ t) pr) -> getPacketPriority (type_ p) = Done pr;
  r_exclusive : exclusive (in_work t);
}.

Lemma new_pool workers : 3 <= workers < 2 ^ 32 -> exists t, newPacketsThreadPool workers = Done t /\ run_ok workers t /\
  forall pr, packets_ (queue_of (queue_ t) pr) = [].
Proof.
  intros Hw. unfold newPacketsThreadPool, newPriorityQueue, oassert. rewrite (proj2 (Z.leb_le 3 workers)) by lia. cbn [obind].
  rewrite (proj2 (Z.ltb_lt _ workers)) by (Z.to_euclidean_division_equations; lia). cbn [obind]. eexists. split; [done|].
  split; [|by intros []]. split; simpl.
  - split; simpl.
    + constructor.
    + intros p H. by apply not_elem_of_nil in H.
    + lia.
    + intros p H. by apply not_elem_of_nil in H.
    + split; simpl; [intros k; apply lookup_empty|intros t; rewrite lookup_empty; intros k; apply lookup_empty|intros k; apply lookup_empty|].
      intros sig i. rewrite lookup_empty. split; [done|]. intros (p & H & _). by apply not_elem_of_nil in H.
    + intros [] p H; by apply not_elem_of_nil in H.
    + by intros [].
    + intros []; simpl; split; try done; lia.
    + done.
    + lia.
  - done.
  - intros []; simpl; constructor.
  - intros [] p H; by apply not_elem_of_nil in H.
  - split; constructor.
Qed.

Lemma newPacketData_priority type from n b p : newPacketData type from n b = Done p -> getPacketPriority (type_ p) = Done (priority_ p).
Proof. unfold newPacketData. destruct (getPacketPriority type) eqn:E; [|done..]. by intros [= <-]. Qed.

Lemma sorted_sublist {A} (R : relation A) l l' : l `sublist_of` l' -> StronglySorted R l' -> StronglySorted R l.
Proof.
  induction 1 as [|x l l' Hl IH|x l l' Hl IH]; intros Hs; [done|..]; apply StronglySorted_inv in Hs as [Hs Hx]; [|by apply IH].
  constructor; [by apply IH|]. rewrite Forall_forall in *. intros y Hy. apply Hx. by eapply elem_of_sublist.
Qed.

Lemma take_effect workers e t t' r : run_ok workers t -> tp_take e t = Done (t', r) -> run_ok workers t' /\
  match r with
  | None => t' = t
  | Some x => in_work t' = x :: in_work t /\ unblocked (in_work t) x /\
      exists pr rest, takes e (blocked_packets_mask_ (queue_ t)) (packets_ (queue_of (queue_ t) pr)) x rest
  end.
Proof.
  intros [R1 R2 R3 R4 R5] Et. destruct (take_inv e t R1) as (t2 & r2 & E & Hi & Hr). rewrite E in Et. injection Et as -> ->.
  destruct r as [x|]; [|by subst t'; split].
  destruct Hr as (Ew & _ & _ & Hu & pr & rest & Ht & Hq). split; [|by split_and!; [..|exists pr, rest]].
  assert (forall pr', sublist (packets_ (queue_of (queue_ t') pr')) (packets_ (queue_of (queue_ t) pr'))) as Hsub.
  { intros pr'. rewrite Hq. case_decide as D; [|done]. subst pr'. destruct Ht as (pre & post & -> & -> & _). apply sublist_app; [done|by constructor]. }
  split; [done| |intros pr'..|].
  - revert E. unfold tp_take. destruct (pop_spec e (in_work t) (queue_ t) (p_mask _ R1) (fun pr p => queued_fresh t pr p R1) (p_packets _ R1)) as [(y & q' & -> & (py & ry & _ & ->) & _)| ->];
      cbn [obind]; [|done]. unfold updateDependenciesStart, oassert. destruct (_ <? _); [|done]. cbn [obind].
    destruct (updateBlockingDependencies _ _ _); [|done..]. cbn [obind]. intros [= <- _]. simpl. rewrite <- R2. by destruct py, (priority_ y).
  - eapply sorted_sublist; [apply fmap_sublist, Hsub|apply R3].
  - intros p Hp. apply R4. eapply elem_of_sublist; [exact Hp|apply Hsub].
  - rewrite Ew. by apply exclusive_take.
Qed.

Lemma run_ok_all workers t : 3 <= workers < 2 ^ 32 -> pool_run workers t -> run_ok workers t.
Proof.
  intros Hw. induction 1 as [t E|t type from n b p _ IH Ep Hok Hc|t e t' r _ IH E|t i t' _ IH E|t i _ IH|t i t' _ IH E].
  - destruct (new_pool workers Hw) as (t2 & E2 & Ht & _). rewrite E in E2. by injection E2 as ->.
  - pose proof IH as [R1 R2 R3 R4 R5]. pose proof (newPacketData_priority _ _ _ _ _ Ep) as Hpr.
    set (x := mkPacketData (packets_count_ t) (type_ p) (priority_ p) (from_node_id_ p) (item_count_ p) (dag_block_ p)).
    assert (forall pr, packets_ (queue_of (queue_ (tp_push t p)) pr) = packets_ (queue_of (queue_ t) pr) ++ if decide (pr = priority_ p) then [x] else []) as Hq.
    { intros pr. simpl. fold x. unfold pushBack. rewrite queue_of_set. simpl. case_decide; [by subst pr|by rewrite app_nil_r]. }
    split; [by apply tp_push_inv|simpl; rewrite <- R2; by destruct (priority_ p)|intros pr..|done]; rewrite Hq.
    + case_decide as D; [|by rewrite app_nil_r]. rewrite fmap_app. apply StronglySorted_app_2; [|apply R3|simpl; constructor; constructor].
      intros i j (y & -> & Hy)%list_elem_of_fmap Hj%list_elem_of_singleton. subst j. simpl.
      apply (p_range _ R1), elem_of_app. left. by eapply queued_queue.
    + intros y Hy. apply elem_of_app in Hy as [Hy|Hy]; [by apply R4|]. case_decide as D; [|by apply not_elem_of_nil in Hy].
      apply list_elem_of_singleton in Hy as ->. by rewrite D.
  - by eapply take_effect.
  - pose proof IH as [R1 R2 R3 R4 R5]. destruct (unblock_inv t i R1) as (t2 & E2 & Hi). pose proof E as E'. rewrite E2 in E'. injection E' as ->.
    unfold tp_unblock in E. destruct (in_work t !! i) as [p|] eqn:Ep; [|by injection E as <-].
    destruct (finish_unblock (queue_ t) p) as [q| |] eqn:Ef; [|done..]. injection E as <-.
    assert (exists m, q = set_mask (queue_ t) m) as [m ->].
    { unfold finish_unblock, oassert in Ef. destruct (0 <? _); [|done]. cbn [obind] in Ef. destruct (isNonBlockingPacket _).
      - injection Ef as <-. exists (blocked_packets_mask_ (queue_ t)). by destruct (queue_ t).
      - destruct (updateBlockingDependencies _ _ _) as [m| |]; [|done..]. injection Ef as <-. by exists m. }
    split; [done|done|intros pr..|by eapply exclusive_finish].
    + pose proof (R3 pr) as H. by destruct pr.
    + intros p0 H. apply R4. by destruct pr.
  - pose proof IH as [R1 R2 R3 R4 R5]. pose proof (leave_inv t i R1) as Hi. unfold tp_leave in *. destruct (finishing t !! i); [|done].
    split; [done|done|intros pr..|done].
    + pose proof (R3 pr) as H. by destruct pr.
    + intros p0 H. apply R4. by destruct pr.
  - pose proof IH as [R1 R2 R3 R4 R5]. destruct (release_inv t i R1) as (t2 & E2 & Hi). pose proof E as E'. rewrite E2 in E'. injection E' as ->.
    unfold tp_release in E. destruct (leaving t !! i) as [p|] eqn:Ep; [|by injection E as <-].
    unfold finish_count, decrementActWorkersCount, oassert in E. destruct (0 <? _); [|done]. injection E as <-.
    assert (forall pr q, packets_ (queue_of (set_queue_of (queue_ t) (priority_ p) (set_workers (queue_of (queue_ t) (priority_ p)) q)) pr) = packets_ (queue_of (queue_ t) pr)) as Hq
      by (intros pr q; rewrite queue_of_set; case_decide; by subst).
    split; [done|simpl; rewrite <- R2; by destruct (priority_ p)|intros pr..|done]; simpl; rewrite Hq; [apply R3|apply R4].
Qed.

(** ** What the pool guarantees *)

Lemma transaction_unblocked e ps m p : mask_ok ps m -> type_ p = kTransactionPacket -> isPacketBlocked e m p = Done false.
Proof.
  intros [M1 M2 _ _] Ht. unfold isPacketBlocked, isPacketHardBlocked, isPacketPeerOrderBlocked. rewrite Ht, M1.
  assert (hard_ids ps kTransactionPacket = ∅) as ->.
  { apply set_eq. intros i. unfold hard_ids. rewrite elem_of_ids_where. split; [|by intros ?%not_elem_of_empty]. intros (q & _ & H%bool_decide_eq_true & _).
    destruct (type_ q); cbn in H; rewrite ?elem_of_cons in H; (by apply not_elem_of_nil in H) || by destruct H as [|[|?%not_elem_of_nil]] || by destruct H as [|?%not_elem_of_nil]. }
  unfold nonempty. rewrite decide_True by done. simpl.
  assert (peer_ids ps kTransactionPacket (from_node_id_ p) = ∅) as Hp.
  { apply set_eq. intros i. unfold peer_ids. rewrite elem_of_ids_where. split; [|by intros ?%not_elem_of_empty]. intros (q & _ & [H%bool_decide_eq_true _]%andb_true_iff & _).
    destruct (type_ q); cbn in H; (by apply not_elem_of_nil in H) || by apply list_elem_of_singleton in H. }
  pose proof (M2 kTransactionPacket (from_node_id_ p)) as H. rewrite Hp in H. unfold nonempty in H. rewrite decide_True in H by done.
  destruct (peer_order_blocked_packet_types_ m !! kTransactionPacket); simpl in *; [by rewrite H|done].
Qed.


(** C27: The transactions a peer sends are processed before the DAG blocks it sends after
    them: when a worker takes a DAG block, every transaction packet of the same peer that
    waits or is in work came later; and the DAG blocks in work are not below its level. *)
Theorem transactions_before_dag_blocks workers t e t' x : 3 <= workers < 2 ^ 32 -> pool_run workers t ->
  tp_take e t = Done (t', Some x) -> type_ x = kDagBlockPacket ->
  (forall q, q ∈ queued (queue_ t) ++ in_work t -> type_ q = kTransactionPacket -> from_node_id_ q = from_node_id_ x -> id_ x < id_ q) /\
  (forall q l sig l' sig', q ∈ in_work t -> type_ q = kDagBlockPacket -> dag_block_ x = Some (l, sig) -> dag_block_ q = Some (l', sig') -> l <= l' /\ sig <> sig').
Proof.
  intros Hw Hr Et Hx. pose proof (run_ok_all workers t Hw Hr) as Hok. pose proof Hok as [R1 R2 R3 R4 R5].
  destruct (take_effect workers e t t' _ Hok Et) as (_ & _ & [_ U2 U3] & pr & rest & pre & post & Epk & _ & _ & Hpre). split.
  2: { intros q l sig l' sig' Hq Hd Hlx Hlq. unfold is_dag_block in U3. eapply (U3 q); [by rewrite bool_decide_true|done..|by rewrite bool_decide_true|done]. }
  assert (pr = Mid) as ->.
  { assert (x ∈ packets_ (queue_of (queue_ t) pr)) as H by (rewrite Epk; apply elem_of_app; right; by left). apply R4 in H. rewrite Hx in H. by injection H. }
  intros q [Hq|Hq]%elem_of_app Ht Hf; [|by apply (U2 q Hq); [rewrite Ht, Hx; by left|]].
  assert (q ∈ packets_ (queue_of (queue_ t) Mid)) as Hm.
  { unfold queued in Hq. rewrite !elem_of_app in Hq. destruct Hq as [Hq|[Hq|Hq]]; [|done|].
    - apply (R4 High) in Hq. by rewrite Ht in Hq.
    - apply (R4 Low) in Hq. by rewrite Ht in Hq. }
  rewrite Epk in Hm. apply elem_of_app in Hm as [Hm|[->|Hm]%elem_of_cons]; [|congruence|].
  - apply Hpre in Hm. by rewrite (transaction_unblocked e _ _ _ (p_mask _ R1) Ht) in Hm.
  - specialize (R3 Mid). rewrite Epk, fmap_app, fmap_cons in R3. apply StronglySorted_app in R3 as (_ & _ & R3).
    apply StronglySorted_inv in R3 as [_ R3]. rewrite Forall_forall in R3. apply R3. by apply list_elem_of_fmap_2.
Qed.

Lemma unblocked_idle e m p : mask_ok [] m -> dag_ok p -> type_ p <> kPbftBlocksBundlePacket -> isPacketBlocked e m p = Done false.
Proof.
  intros [M1 M2 M3 M4] Hok Hne. unfold isPacketBlocked, isPacketHardBlocked, isPacketPeerOrderBlocked. rewrite M1.
  assert (forall k, hard_ids [] k = ∅) as -> by done. unfold nonempty. rewrite decide_True by done. cbn [is_Some bool_decide].
  rewrite bool_decide_false by (by intros [? ?]).
  assert (peer_order_blocked_packet_types_ m !! type_ p ≫= (fun peers => peers !! from_node_id_ p) = None) as ->.
  { pose proof (M2 (type_ p) (from_node_id_ p)) as H. assert (peer_ids [] (type_ p) (from_node_id_ p) = ∅) as E by done. rewrite E in H.
    unfold nonempty in H. rewrite decide_True in H by done. destruct (peer_order_blocked_packet_types_ m !! type_ p); done. }
  rewrite (bool_decide_false (type_ p = kPbftBlocksBundlePacket)) by done. case_bool_decide as D; [|done].
  destruct Hok as [[level sig] Hb]; [unfold is_dag_block; by rewrite bool_decide_true|].
  unfold isDagBlockPacketBlockedByLevel, isDagBlockPacketBlockedBySameDagBlock. rewrite Hb.
  assert (getSmallestDagLevelBeingProcessed m = None) as ->.
  { unfold getSmallestDagLevelBeingProcessed. destruct (map_items (processing_dag_levels_ m)) as [|[l s] items] eqn:Ei; [done|].
    assert ((l, s) ∈ map_items (processing_dag_levels_ m)) as H by (rewrite Ei; by left). apply elem_of_map_items in H. by rewrite M3 in H. }
  simpl. destruct (processing_dag_blocks_ m !! sig) as [i|] eqn:Es; [|done].
  apply M4 in Es as (q & Hq & _). by apply not_elem_of_nil in Hq.
Qed.

(** An idle pool makes progress: when no packet is in work or finishing and one waits
    that is not a bundle of PBFT blocks, the next worker takes a packet. *)
Theorem idle_pool_takes workers t e p : 3 <= workers < 2 ^ 32 -> pool_run workers t -> in_work t = [] -> finishing t = [] -> leaving t = [] ->
  p ∈ queued (queue_ t) -> type_ p <> kPbftBlocksBundlePacket -> exists t' x, tp_take e t = Done (t', Some x).
Proof.
  intros Hw Hr E1 E2 E3 Hp Hne. destruct (run_ok_all workers t Hw Hr) as [R1 R2 _ _ _].
  assert (held_packets t = []) as Hh by (unfold held_packets, counted_packets; by rewrite E1, E2, E3).
  assert (exists pr, p ∈ packets_ (queue_of (queue_ t) pr)) as [pr Hpr].
  { unfold queued in Hp. rewrite !elem_of_app in Hp. destruct Hp as [Hp|[Hp|Hp]]; [by exists High|by exists Mid|by exists Low]. }
  assert (isPacketBlocked e (blocked_packets_mask_ (queue_ t)) p = Done false) as Hb.
  { apply unblocked_idle; [rewrite <- E1; apply (p_mask _ R1)|by apply (queued_fresh t pr)|done]. }
  destruct (pop_progress e (in_work t) (queue_ t) (p_mask _ R1) (fun pr p => queued_fresh t pr p R1) (p_packets _ R1) pr p) as (x & q & E).
  - intros pr'. destruct (p_workers _ R1 pr') as [-> ?]. by rewrite Hh.
  - rewrite (p_total _ R1). unfold counted_packets. by rewrite E1, E2.
  - rewrite R2. lia.
  - done.
  - done.
  - destruct (take_inv e t R1) as (t' & r & Et & _). rewrite Et. unfold tp_take in Et. rewrite E in Et. cbn [obind] in Et.
    destruct (updateDependenciesStart q x); [|done..]. injection Et as <- <-. by eexists _, _.
Qed.

(** ** Packets that cannot be read *)

Lemma unreadable_blocked e ps m p : mask_ok ps m -> type_ p = kDagBlockPacket -> dagBlockFromDagPacket p = AssertFailed ->
  isPacketBlocked e m p = AssertFailed.
Proof.
  intros [M1 _ _ _] Ht Hb. unfold isPacketBlocked, isPacketHardBlocked. rewrite Ht, M1.
  assert (hard_ids ps kDagBlockPacket = ∅) as ->.
  { apply set_eq. intros i. unfold hard_ids. rewrite elem_of_ids_where. split; [|by intros ?%not_elem_of_empty]. intros (q & _ & H%bool_decide_eq_true & _).
    destruct (type_ q); cbn in H; rewrite ?elem_of_cons in H; (by apply not_elem_of_nil in H) || by destruct H as [|[|?%not_elem_of_nil]] || by destruct H as [|?%not_elem_of_nil]. }
  unfold nonempty. rewrite decide_True by done. simpl. unfold isDagBlockPacketBlockedByLevel, isDagBlockPacketBlockedBySameDagBlock. rewrite Hb.
  by destruct (getSmallestDagLevelBeingProcessed m).
Qed.

#[local] Arguments isPacketBlocked : simpl never.

(** A DAG block packet whose number of items is not that of a DAG block stops the node:
    it is queued without a check, and the worker that looks at it fails an assertion. *)
Theorem malformed_dag_packet_stops workers t e from item_count block p : 3 <= workers < 2 ^ 32 -> pool_run workers t -> queued (queue_ t) = [] ->
  act_total_workers_count_ (queue_ t) < workers -> maxWorkersCountReached (mid_queue (queue_ t)) = false ->
  newPacketData kDagBlockPacket from item_count block = Done p -> item_count <> kRequiredDagPacketSizeV2 -> item_count <> kRequiredDagPacketSizeV3 ->
  tp_take e (tp_push t p) = AssertFailed.
Proof.
  intros Hw Hr Hq Ht Hm [= <-] H2 H3. destruct (run_ok_all workers t Hw Hr) as [R1 R2 _ _ _].
  unfold queued in Hq. apply app_eq_nil in Hq as [Q1 [Q2 Q3]%app_eq_nil].
  pose proof (p_packets _ R1 High) as C1. pose proof (p_packets _ R1 Mid) as C2. pose proof (p_mask _ R1) as M. simpl in C1, C2.
  destruct t as [[[hp hm hw hc] [mp mm mw mc] lq m mx tot] cnt iw fi le]. simpl in *. subst hp mp mx. simpl in C1, C2. subst hc mc.
  set (x := mkPacketData cnt kDagBlockPacket Mid from item_count block).
  assert (dagBlockFromDagPacket x = AssertFailed) as Hx.
  { unfold dagBlockFromDagPacket. simpl. by rewrite (proj2 (Z.eqb_neq _ _) H2), (proj2 (Z.eqb_neq _ _) H3). }
  unfold tp_take, tp_push, pop. simpl. destruct (Z.leb_spec workers tot); [lia|]. unfold pq_empty, maxWorkersCountReached in *. simpl.
  simpl in Hm. rewrite Hm. unfold pq_pop. simpl. fold x. by rewrite (unreadable_blocked e iw m x M eq_refl Hx).
Qed.

(** A packet whose type is one of the enumerators that only separate the groups of
    packet types (0, 4, 8) stops the node when its priority is looked up. *)
Example separator_type_stops from item_count block :
  (forall t, newPacketData t from item_count block = AssertFailed <-> t ∈ [kHighPriorityPackets; kMidPriorityPackets; kLowPriorityPackets]).
Proof. intros t. rewrite !elem_of_cons, elem_of_nil. destruct t; simpl; naive_solver. Qed.

(** ** Executions *)

Inductive pool_event :=
| EPush (type : SubprotocolPacketType) (from item_count : Z) (block : option (Z * Z))
| ETake (queue_empty : bool) | EUnblock (i : nat) | ELeave (i : nat) | ERelease (i : nat).

Definition outcome_option {A} (x : outcome A) : option A := match x with Done a => Some a | _ => None end.

Definition pool_exec1 (t : PacketsThreadPool) (ev : pool_event) : option PacketsThreadPool :=
  match ev with
  | EPush type from n b =>
      match newPacketData type from n b with
      | Done p =>
          if (negb (is_dag_block p) || match dagBlockFromDagPacket p with Done _ => true | _ => false end) && (packets_count_ t + 1 <? 2 ^ 64)
          then Some (tp_push t p) else None
      | _ => None
      end
  | ETake e => fst <$> outcome_option (tp_take e t)
  | EUnblock i => outcome_option (tp_unblock t i)
  | ELeave i => Some (tp_leave t i)
  | ERelease i => outcome_option (tp_release t i)
  end.

Definition pool_exec (workers : Z) (evs : list pool_event) : option PacketsThreadPool :=
  fold_left (fun t ev => t ≫= fun t => pool_exec1 t ev) evs (outcome_option (newPacketsThreadPool workers)).

Lemma outcome_option_some {A} (x : outcome A) a : outcome_option x = Some a -> x = Done a.
Proof. destruct x; simpl; congruence. Qed.

Lemma pool_exec1_run workers t ev t' : pool_run workers t -> pool_exec1 t ev = Some t' -> pool_run workers t'.
Proof.
  intros Hr. destruct ev as [type from n b|e|i|i|i]; simpl.
  - destruct (newPacketData type from n b) as [p| |] eqn:E; [|done..]. destruct (_ && _) eqn:G; [|done]. intros [= <-].
    apply andb_true_iff in G as [G1 G2%Z.ltb_lt]. eapply run_push; [done|done| |done]. intros Hd. rewrite Hd in G1. simpl in G1.
    destruct (dagBlockFromDagPacket p) as [x| |]; [by exists x|done..].
  - destruct (tp_take e t) as [[t2 r]| |] eqn:E; simpl; [|done..]. intros [= <-]. by eapply run_take.
  - intros E%outcome_option_some. by eapply run_unblock.
  - intros [= <-]. by apply run_leave.
  - intros E%outcome_option_some. by eapply run_release.
Qed.

Lemma pool_exec_run workers evs t : pool_exec workers evs = Some t -> pool_run workers t.
Proof.
  unfold pool_exec.
  assert (forall evs o t, (forall t0, o = Some t0 -> pool_run workers t0) -> fold_left (fun t ev => t ≫= fun t => pool_exec1 t ev) evs o = Some t -> pool_run workers t) as H.
  { clear. induction evs as [|ev evs IH]; simpl; intros o t Ho E; [by apply Ho|]. eapply IH; [|exact E]. intros t1 E1.
    apply bind_Some in E1 as (t0 & -> & E1). eapply pool_exec1_run; [by apply Ho|done]. }
  apply H. intros t0 E%outcome_option_some. by apply run_start.
Qed.

(** The rule that each queue keeps one thread does not hold: with the 14 threads of
    the default configuration, 12 votes and 2 packets of transactions take all threads,
    although no thread works for the queue of low priority, whose packets wait. *)
Example reserved_thread_taken : exists t, pool_run 14 t /\ act_total_workers_count_ (queue_ t) = 14 /\ act_workers_count_ (low_queue (queue_ t)) = 0 /\
  packets_ (low_queue (queue_ t)) <> [] /\ tp_take true t = Done (t, None).
Proof.
  set (evs := repeat (EPush kVotePacket 1 1 None) 12 ++ repeat (ETake true) 12 ++ repeat (EPush kTransactionPacket 1 1 None) 2 ++ repeat (ETake true) 2 ++
    [EPush kStatusPacket 1 1 None; ETake true]).
  destruct (pool_exec 14 evs) as [t|] eqn:E; [|by vm_compute in E]. pose proof (pool_exec_run 14 evs t E) as Hr.
  exists t. split; [done|]. vm_compute in E. injection E as <-. split_and!; vm_compute; done.
Qed.

(** ** Examples *)

Definition ex_pool : list pool_event :=
  [EPush kTransactionPacket 7 1 None; EPush kDagBlockPacket 7 2 (Some (3, 100)); EPush kDagBlockPacket 8 8 (Some (3, 101));
   EPush kPbftSyncPacket 8 1 None; ETake true].


(** The transactions of peer 7 are in work, so the DAG block of peer 8 is taken first. *)
Lemma transactions_before_dag_blocks_witness : exists t t' x, pool_exec 5 ex_pool = Some t /\ tp_take true t = Done (t', Some x) /\ from_node_id_ x = 8 /\
  forall q, q ∈ queued (queue_ t) ++ in_work t -> type_ q = kTransactionPacket -> from_node_id_ q = from_node_id_ x -> id_ x < id_ q.
Proof.
  destruct (pool_exec 5 ex_pool) as [t|] eqn:E; [|by vm_compute in E]. pose proof (pool_exec_run _ _ _ E) as Hr.
  destruct (tp_take true t) as [[t' [x|]]| |] eqn:Et; [|vm_compute in E; injection E as <-; by vm_compute in Et..].
  exists t, t', x. split; [done|]. split; [done|]. split; [vm_compute in E; injection E as <-; vm_compute in Et; by injection Et as _ <-|].
  apply (transactions_before_dag_blocks 5 t true t' x ltac:(lia) Hr Et). vm_compute in E. injection E as <-. vm_compute in Et. by injection Et as _ <-.
Defined.

Lemma idle_pool_takes_witness : exists t t' x, pool_exec 3 [EPush kStatusPacket 1 1 None] = Some t /\ tp_take false t = Done (t', Some x).
Proof.
  destruct (pool_exec 3 [EPush kStatusPacket 1 1 None]) as [t|] eqn:E; [|by vm_compute in E]. exists t.
  pose proof (pool_exec_run _ _ _ E) as Hr. vm_compute in E. injection E as E.
  destruct (idle_pool_takes 3 t false (mkPacketData 0 kStatusPacket Low 1 1 None) ltac:(lia) Hr) as (t' & x & Et); [by rewrite <- E..|rewrite <- E; by left|done|].
  exists t', x. split; [done|exact Et].
Defined.

Lemma malformed_dag_packet_stops_witness : exists t p, pool_exec 3 [] = Some t /\ newPacketData kDagBlockPacket 9 3 None = Done p /\ tp_take true (tp_push t p) = AssertFailed.
Proof.
  destruct (pool_exec 3 []) as [t|] eqn:E; [|by vm_compute in E]. pose proof (pool_exec_run _ _ _ E) as Hr. exists t. eexists. split; [done|]. split; [reflexivity|].
  vm_compute in E. injection E as E. apply (malformed_dag_packet_stops 3 t true 9 3 None); [lia|exact Hr|rewrite <- E; reflexivity..|reflexivity|done|done].
Defined.
