(* ===== verification/Rlp.v ===== *)
(** * Recursive linear prefix encoding

    The reader [RLP] and the writer [RLPStream] of aleth/libdevcore (RLP.h, RLP.cpp, with
    vector_ref.h and CommonData.h), which every packet and every database entry of the
    node goes through.  A [bytesConstRef] is the list of bytes it refers to; an iterator
    also keeps the bytes behind its item, which stand for its pointer. *)

From S2P Require Import Prelude.
Local Open Scope Z_scope.

(** ** Results *)

(** Exceptions of the library, of common/encoding_rlp.hpp and of the types that are read;
    [AssertionFailed] stands for a failed assertion, [OutOfBounds] for a
    read outside of the data and for a loop that does not end. *)
Inductive RlpException := BadRLP | UndersizeRLP | OversizeRLP | BadCast | RLPException | InvalidEncodingSize | RuntimeError | InvalidTransaction | AssertionFailed.

Inductive res (A : Type) : Type :=
| Ok (a : A)
| Throw (e : RlpException)
| OutOfBounds.
Arguments Ok {A} a.
Arguments Throw {A} e.
Arguments OutOfBounds {A}.

Definition rbind {A B} (m : res A) (f : A -> res B) : res B :=
  match m with Ok a => f a | Throw e => Throw e | OutOfBounds => OutOfBounds end.

Declare Scope rlp_scope.
Delimit Scope rlp_scope with rlp.
Notation "'let*' x ':=' m 'in' k" := (rbind m (fun x => k))
  (at level 10, x pattern, m at level 100, k at level 200) : rlp_scope.
Local Open Scope rlp_scope.

Definition require (b : bool) (e : RlpException) : res unit := if b then Ok tt else Throw e.

Section loops.
Context {A B : Type}.

Definition rfold (f : A -> B -> res A) : list B -> A -> res A :=
  fix go l a := match l with [] => Ok a | b :: l => rbind (f a b) (go l) end.

Definition rmap (f : A -> res B) : list A -> res (list B) :=
  fix go l := match l with [] => Ok [] | a :: l => rbind (f a) (fun b => rbind (go l) (fun bs => Ok (b :: bs))) end.
End loops.

(** ** Bytes and big-endian numbers *)

Abbreviation bytes := (list Z).
Definition byte_ok (b : Z) : Prop := 0 <= b < 256.
Abbreviation bytes_ok := (Forall byte_ok).

Definition bsize (d : bytes) : Z := Z.of_nat (length d).

Definition byte_at (d : bytes) (i : Z) : res Z := match d !! Z.to_nat i with Some b => Ok b | None => OutOfBounds end.

(** [vector_ref::cropped]; the sum of two sizes within the data does not wrap. *)
Definition cropped (d : bytes) (begin count : Z) : bytes :=
  if (begin <=? bsize d) && (count <=? bsize d) && (begin + count <=? bsize d) then take (Z.to_nat count) (drop (Z.to_nat begin) d) else [].
Definition cropped_from (d : bytes) (begin : Z) : bytes := if begin <=? bsize d then drop (Z.to_nat begin) d else [].

(** The loops over the bytes of a number; [Z.log2] bounds their length. *)
Fixpoint big_endian_loop (fuel : nat) (i : Z) (out : bytes) : bytes :=
  match fuel with
  | O => out
  | S fuel => if i =? 0 then out else big_endian_loop fuel (Z.shiftr i 8) (Z.land i 255 :: out)
  end.
Definition fuel_of (i : Z) : nat := S (Z.to_nat (Z.log2 i)).
Definition pushInt (i : Z) : bytes := big_endian_loop (fuel_of i) i [].

Fixpoint bytesRequired_loop (fuel : nat) (i : Z) (n : Z) : Z :=
  match fuel with
  | O => n
  | S fuel => if i =? 0 then n else bytesRequired_loop fuel (Z.shiftr i 8) (n + 1)
  end.
Definition bytesRequired (i : Z) : Z := bytesRequired_loop (fuel_of i) i 0.

(** [fromBigEndian] to an unsigned type of [w] bits. *)
Definition fromBigEndian (w : Z) (d : bytes) : Z := fold_left (fun ret b => wrap w (Z.lor (Z.shiftl ret 8) b)) d 0.

(** ** Constants *)

Definition c_rlpMaxLengthBytes : Z := 8.
Definition c_rlpDataImmLenStart : Z := 128.
Definition c_rlpListStart : Z := 192.
Definition c_rlpDataImmLenCount : Z := c_rlpListStart - c_rlpDataImmLenStart - c_rlpMaxLengthBytes.
Definition c_rlpDataIndLenZero : Z := c_rlpDataImmLenStart + c_rlpDataImmLenCount - 1.
Definition c_rlpListImmLenCount : Z := 256 - c_rlpListStart - c_rlpMaxLengthBytes.
Definition c_rlpListIndLenZero : Z := c_rlpListStart + c_rlpListImmLenCount - 1.

Record Strictness := mkStrictness { AllowNonCanon : bool; ThrowOnFail : bool; FailIfTooBig : bool; FailIfTooSmall : bool }.
Definition Strict : Strictness := mkStrictness false true true false.
Definition VeryStrict : Strictness := mkStrictness false true true true.
Definition LaissezFaire : Strictness := mkStrictness true false false false.
Definition SizeOnly : Strictness := mkStrictness false true false true.

(** ** The reader *)

Definition isNull (d : bytes) : bool := bsize d =? 0.
Definition isData (d : bytes) : bool := match d with [] => false | n :: _ => n <? c_rlpListStart end.
Definition isList (d : bytes) : bool := match d with [] => false | n :: _ => c_rlpListStart <=? n end.
Definition isSingleByte (d : bytes) : bool := match d with [] => false | n :: _ => n <? c_rlpDataImmLenStart end.
Definition isEmpty (d : bytes) : bool := match d with [] => false | n :: _ => (n =? c_rlpDataImmLenStart) || (n =? c_rlpListStart) end.

Definition requireGood (d : bytes) : res unit :=
  if isNull d then Throw BadRLP
  else
    let* n := byte_at d 0 in
    if negb (n =? c_rlpDataImmLenStart + 1) then Ok tt
    else if bsize d <? 2 then Throw BadRLP
    else let* b := byte_at d 1 in if b <? c_rlpDataImmLenStart then Throw BadRLP else Ok tt.

Definition isInt (d : bytes) : res bool :=
  if isNull d then Ok false
  else
    let* _ := requireGood d in
    let* n := byte_at d 0 in
    if n <? c_rlpDataImmLenStart then Ok (negb (n =? 0))
    else if n =? c_rlpDataImmLenStart then Ok true
    else if n <=? c_rlpDataIndLenZero then
      if bsize d <=? 1 then Throw BadRLP else let* b := byte_at d 1 in Ok (negb (b =? 0))
    else if n <? c_rlpListStart then
      if bsize d <=? 1 + n - c_rlpDataIndLenZero then Throw BadRLP else let* b := byte_at d (1 + n - c_rlpDataIndLenZero) in Ok (negb (b =? 0))
    else Ok false.

(** The length that [length_size] bytes behind the first one give. *)
Fixpoint read_length (d : bytes) (i : nat) (n : nat) (ret : Z) : res Z :=
  match n with
  | O => Ok ret
  | S n => let* b := byte_at d (Z.of_nat i + 1) in read_length d (S i) n (u64 (Z.lor (Z.shiftl ret 8) b))
  end.

(** Both branches of an item whose length is not part of the first byte. *)
Definition long_length (d : bytes) (length_size limit : Z) : res Z :=
  if bsize d <=? length_size then Throw BadRLP
  else
    let* b := byte_at d 1 in
    if b =? 0 then Throw BadRLP
    else if 8 <? length_size then Throw UndersizeRLP
    else
      let* ret := read_length d 0 (Z.to_nat length_size) 0 in
      if ret <? limit then Throw BadRLP
      else if max_u64 - 256 <=? ret then Throw UndersizeRLP
      else Ok ret.

Definition rlength (d : bytes) : res Z :=
  if isNull d then Ok 0
  else
    let* _ := requireGood d in
    let* n := byte_at d 0 in
    if n <? c_rlpDataImmLenStart then Ok 1
    else if n <=? c_rlpDataIndLenZero then Ok (n - c_rlpDataImmLenStart)
    else if n <? c_rlpListStart then long_length d (n - c_rlpDataIndLenZero) (c_rlpListStart - c_rlpDataImmLenStart - c_rlpMaxLengthBytes)
    else if n <=? c_rlpListIndLenZero then Ok (n - c_rlpListStart)
    else long_length d (n - c_rlpListIndLenZero) (256 - c_rlpListStart - c_rlpMaxLengthBytes).

Definition lengthSize (d : bytes) : Z :=
  match d with
  | [] => 0
  | n :: _ =>
      if isData d && (c_rlpDataIndLenZero <? n) then n - c_rlpDataIndLenZero
      else if isList d && (c_rlpListIndLenZero <? n) then n - c_rlpListIndLenZero
      else 0
  end.
Definition payloadOffset (d : bytes) : Z := if isSingleByte d then 0 else 1 + lengthSize d.

Definition payload (d : bytes) : res bytes :=
  let* l := rlength d in
  if bsize d <? l then Throw BadRLP else Ok (cropped d (payloadOffset d) l).

Definition actualSize (d : bytes) : res Z :=
  if isNull d then Ok 0
  else if isSingleByte d then Ok 1
  else if isData d || isList d then let* l := rlength d in Ok (u64 (payloadOffset d + l))
  else Ok 0.

(** The constructor of [RLP]. *)
Definition newRLP (d : bytes) (s : Strictness) : res bytes :=
  let* m :=
    (if FailIfTooBig s then
       let* a := actualSize d in
       if a <? bsize d then if ThrowOnFail s then Throw OversizeRLP else Ok [] else Ok d
     else Ok d) in
  if FailIfTooSmall s then
    let* a := actualSize m in
    if bsize d <? a then if ThrowOnFail s then Throw UndersizeRLP else Ok [] else Ok m
  else Ok m.

Definition sizeAsEncoded (d : bytes) : res Z := let* d := newRLP d SizeOnly in actualSize d.

Fixpoint items_loop (fuel : nat) (d : bytes) (i : Z) : res Z :=
  if bsize d =? 0 then Ok i
  else
    match fuel with
    | O => OutOfBounds
    | S fuel => let* n := sizeAsEncoded d in items_loop fuel (cropped_from d n) (i + 1)
    end.

Definition items (d : bytes) : res Z := if isList d then let* p := payload d in items_loop (length p) p 0 else Ok 0.
Definition itemCount (d : bytes) : res Z := if isList d then items d else Ok 0.

(** ** Iterators *)

Record iterator := mkIterator { it_rest : bytes; it_count : Z; it_remaining : Z }.

Definition m_currentItem (it : iterator) : bytes := take (Z.to_nat (it_count it)) (it_rest it).

Definition it_begin (d : bytes) : res iterator :=
  if isList d then
    let* pl := payload d in
    let* n := sizeAsEncoded pl in
    let item := cropped pl 0 n in
    Ok (mkIterator (drop (Z.to_nat (payloadOffset d)) d) (bsize item) (bsize pl - bsize item))
  else Ok (mkIterator [] 0 0).
Definition it_end : iterator := mkIterator [] 0 0.
Definition it_eqb (a b : iterator) : bool := (bsize (it_rest a) =? bsize (it_rest b)) && (it_count a =? it_count b).

Definition it_next (it : iterator) : res iterator :=
  let rest := drop (Z.to_nat (it_count it)) (it_rest it) in
  if it_remaining it =? 0 then Ok (mkIterator rest 0 0)
  else
    let current := take (Z.to_nat (it_remaining it)) rest in
    let* n := sizeAsEncoded current in
    let item := cropped current 0 n in
    Ok (mkIterator rest (bsize item) (it_remaining it - Z.min (it_remaining it) (bsize item))).

Definition it_deref (it : iterator) : res bytes := newRLP (m_currentItem it) VeryStrict.

(** [for (auto i : rlp)], collecting the items. *)
Fixpoint iterate_loop (fuel : nat) (it : iterator) : res (list bytes) :=
  if it_eqb it it_end then Ok []
  else
    match fuel with
    | O => OutOfBounds
    | S fuel =>
        let* item := it_deref it in
        let* it := it_next it in
        let* items := iterate_loop fuel it in
        Ok (item :: items)
    end.
Definition rlp_items (d : bytes) : res (list bytes) := let* it := it_begin d in iterate_loop (length d) it.

(** ** Access by index *)

(** The cache of the last item. *)
Record IndexCache := mkIndexCache { m_lastIndex : Z; m_lastEnd : Z; m_lastItem : bytes }.
Definition no_cache : IndexCache := mkIndexCache max_u64 0 [].

Fixpoint index_loop (fuel : nat) (d : bytes) (i : Z) (c : IndexCache) : res IndexCache :=
  if (m_lastIndex c <? i) && negb (bsize (m_lastItem c) =? 0) then
    match fuel with
    | O => OutOfBounds
    | S fuel =>
        let* p := payload d in
        let item := cropped_from p (m_lastEnd c) in
        let* n := sizeAsEncoded item in
        let item := cropped item 0 n in
        index_loop fuel d i (mkIndexCache (m_lastIndex c + 1) (m_lastEnd c + bsize item) item)
    end
  else Ok c.

Definition rlp_index (d : bytes) (i : Z) (c : IndexCache) : res (bytes * IndexCache) :=
  let* c :=
    (if i <? m_lastIndex c then
       let* p := payload d in
       let* n := sizeAsEncoded p in
       Ok (mkIndexCache 0 n (cropped p 0 n))
     else Ok c) in
  let* c := index_loop (S (length d)) d i c in
  let* r := newRLP (m_lastItem c) SizeOnly in
  Ok (r, c).

(** ** Conversions *)

Definition toBytes (d : bytes) (s : Strictness) : res bytes :=
  if negb (isData d) then if ThrowOnFail s then Throw BadCast else Ok []
  else
    let* p := payload d in
    let* l := rlength d in
    if bsize p <? l then OutOfBounds else Ok (take (Z.to_nat l) p).

(** [toInt] of an unsigned type of [w] bits. *)
Definition toInt (w : Z) (d : bytes) (s : Strictness) : res Z :=
  let* _ := requireGood d in
  let* int := isInt d in
  if (negb int && negb (AllowNonCanon s)) || isList d || isNull d then if ThrowOnFail s then Throw BadCast else Ok 0
  else
    let* p := payload d in
    if (w / 8 <? bsize p) && FailIfTooBig s then if ThrowOnFail s then Throw BadCast else Ok 0
    else Ok (fromBigEndian w p).

(** [toHash] of a hash of [n] bytes. *)
Definition toHash (n : nat) (d : bytes) (s : Strictness) : res bytes :=
  let* _ := requireGood d in
  let* p := payload d in
  let l := length p in
  if negb (isData d) || (bool_decide (n < l)%nat && FailIfTooBig s) || (bool_decide (l < n)%nat && FailIfTooSmall s)
  then if ThrowOnFail s then Throw BadCast else Ok (replicate n 0)
  else Ok (replicate (n - Nat.min n l) 0 ++ take (Nat.min n l) p).

(** ** The writer *)

(** The top of the stack of open lists is the head: the items a list still needs and the
    position its items start at. *)
Record RLPStream := mkRLPStream { m_out : bytes; m_listStack : list (Z * nat) }.
Definition newRLPStream : RLPStream := mkRLPStream [] [].

Definition push (s : RLPStream) (d : bytes) : RLPStream := mkRLPStream (m_out s ++ d) (m_listStack s).

(** The prefix of a closed list of [s] bytes, that is moved in front of them. *)
Definition list_prefix (s : Z) : res bytes :=
  if s <? c_rlpListImmLenCount then Ok [c_rlpListStart + s]
  else if c_rlpListIndLenZero + bytesRequired s <=? 255 then Ok (c_rlpListIndLenZero + bytesRequired s :: pushInt s)
  else Throw RLPException.

Fixpoint note_loop (stack : list (Z * nat)) (out : bytes) (itemCount : Z) : res RLPStream :=
  match stack with
  | [] => Ok (mkRLPStream out [])
  | (n, p) :: rest =>
      if n <? itemCount then Throw RLPException
      else if negb (n - itemCount =? 0) then Ok (mkRLPStream out ((n - itemCount, p) :: rest))
      else
        let* prefix := list_prefix (bsize out - Z.of_nat p) in
        note_loop rest (take p out ++ prefix ++ drop p out) 1
  end.
Definition noteAppended (s : RLPStream) (itemCount : Z) : res RLPStream :=
  if itemCount =? 0 then Ok s else note_loop (m_listStack s) (m_out s) itemCount.

Definition appendRaw (s : RLPStream) (d : bytes) (itemCount : Z) : res RLPStream := noteAppended (push s d) itemCount.

Definition pushCount (s : RLPStream) (count base : Z) : res RLPStream :=
  let br := bytesRequired count in
  if 255 <? br + base then Throw RLPException else Ok (push s (br + base :: pushInt count)).

Definition appendListRaw (s : RLPStream) (rlp : bytes) : res RLPStream :=
  let* s := (if bsize rlp <? c_rlpListImmLenCount then Ok (push s [bsize rlp + c_rlpListStart]) else pushCount s (bsize rlp) c_rlpListIndLenZero) in
  appendRaw s rlp 1.

Definition appendList (s : RLPStream) (items : Z) : res RLPStream :=
  if items =? 0 then appendListRaw s [] else Ok (mkRLPStream (m_out s) ((items, length (m_out s)) :: m_listStack s)).

Fixpoint strip_zeros (d : bytes) : bytes := match d with 0 :: d' => strip_zeros d' | _ => d end.

Definition append (s : RLPStream) (d : bytes) (compact : bool) : res RLPStream :=
  let d := if compact then strip_zeros d else d in
  let* s :=
    match d with
    | [b] => if b <? c_rlpDataImmLenStart then Ok (push s [b])
             else appendRaw (push s [1 + c_rlpDataImmLenStart]) d 0
    | _ =>
        let* s := (if bsize d <? c_rlpDataImmLenCount then Ok (push s [bsize d + c_rlpDataImmLenStart]) else pushCount s (bsize d) c_rlpDataIndLenZero) in
        appendRaw s d 0
    end in
  noteAppended s 1.

Definition append_int_ (s : RLPStream) (i : Z) : res RLPStream :=
  let* s :=
    (if i =? 0 then Ok (push s [c_rlpDataImmLenStart])
     else if i <? c_rlpDataImmLenStart then Ok (push s [i])
     else
       let br := bytesRequired i in
       if br <? c_rlpDataImmLenCount then Ok (push s (br + c_rlpDataImmLenStart :: pushInt i))
       else
         let brbr := bytesRequired br in
         if 255 <? c_rlpDataIndLenZero + brbr then Throw RLPException
         else Ok (push s ((c_rlpDataIndLenZero + brbr :: pushInt br) ++ pushInt i))) in
  noteAppended s 1.

(** [out] and [invalidate]. *)
Definition stream_out (s : RLPStream) : res bytes := match m_listStack s with [] => Ok (m_out s) | _ => Throw RLPException end.
