(* ===== verification/RlpStream.v ===== *)
(** * What the RLP writer writes

    The encoding of a tree of items as the specification of RLP defines it, and that the
    writer, which opens lists on a stack and moves their prefix in front of their items
    when they are complete, writes exactly this encoding. *)

From S2P Require Import Prelude Rlp.
Local Open Scope Z_scope.
Local Open Scope rlp_scope.

(** ** Big-endian numbers *)

Definition be_value (d : bytes) : Z := fold_left (fun r b => r * 256 + b) d 0.
Definition no_leading_zero (d : bytes) : Prop := match d with [] => True | b :: _ => 0 < b end.

Lemma be_value_snoc d b : be_value (d ++ [b]) = be_value d * 256 + b.
Proof. unfold be_value. by rewrite fold_left_app. Qed.

Lemma be_value_bound d : bytes_ok d -> 0 <= be_value d < 256 ^ bsize d.
Proof.
  unfold bsize. induction d as [|b d IH] using rev_ind; intros Hd; [done|]. apply Forall_app in Hd as [Hd Hb%Forall_inv].
  rewrite be_value_snoc, length_app. simpl. rewrite Nat2Z.inj_add, Z.pow_add_r by lia. specialize (IH Hd). unfold byte_ok in Hb. nia.
Qed.

Lemma be_value_lower b d : bytes_ok (b :: d) -> 0 < b -> 256 ^ bsize d <= be_value (b :: d).
Proof.
  unfold bsize. induction d as [|c d IH] using rev_ind; intros Hd Hb; [simpl; unfold be_value; simpl; lia|].
  rewrite app_comm_cons in *. apply Forall_app in Hd as [Hd Hc%Forall_inv]. rewrite be_value_snoc, length_app. simpl.
  rewrite Nat2Z.inj_add, Z.pow_add_r by lia. specialize (IH Hd Hb). unfold byte_ok in Hc. nia.
Qed.

Lemma shiftr_8 i : Z.shiftr i 8 = i / 256.
Proof. by rewrite Z.shiftr_div_pow2. Qed.
Lemma land_255 i : Z.land i 255 = i mod 256.
Proof. change 255 with (Z.ones 8). by rewrite Z.land_ones. Qed.

Lemma big_endian_loop_app fuel : forall i out, big_endian_loop fuel i out = big_endian_loop fuel i [] ++ out.
Proof.
  induction fuel as [|fuel IH]; intros i out; simpl; [done|]. destruct (i =? 0); [done|].
  rewrite IH, (IH _ [_]), <- app_assoc. done.
Qed.

Lemma big_endian_loop_fuel f1 : forall f2 i, 0 <= i < 256 ^ Z.of_nat f1 -> i < 256 ^ Z.of_nat f2 -> big_endian_loop f1 i [] = big_endian_loop f2 i [].
Proof.
  assert (forall n i, 0 <= i < 256 ^ Z.of_nat (S n) -> 0 <= Z.shiftr i 8 < 256 ^ Z.of_nat n) as Hs.
  { intros n i. rewrite shiftr_8, Nat2Z.inj_succ, Z.pow_succ_r by lia. intros Hi. split; [apply Z.div_pos; lia|apply Z.div_lt_upper_bound; lia]. }
  induction f1 as [|f1 IH]; intros f2 i H1 H2.
  - assert (i = 0) as -> by (simpl in H1; lia). by destruct f2.
  - destruct f2 as [|f2]; [assert (i = 0) as -> by (simpl in H2; lia); done|]. simpl. destruct (i =? 0); [done|].
    rewrite (big_endian_loop_app f1), (big_endian_loop_app f2). f_equal. apply IH; [by apply Hs|]. apply Hs. lia.
Qed.

Lemma fuel_enough i : 0 <= i -> i < 256 ^ Z.of_nat (fuel_of i).
Proof.
  intros Hi. unfold fuel_of. rewrite Nat2Z.inj_succ, Z2Nat.id by apply Z.log2_nonneg. destruct (Z.eq_dec i 0) as [->|]; [done|].
  destruct (Z.log2_spec i) as [_ H]; [lia|]. eapply Z.lt_le_trans; [exact H|]. apply Z.pow_le_mono_l. pose proof (Z.log2_nonneg i). lia.
Qed.

Lemma pushInt_step i : 0 < i -> pushInt i = pushInt (i / 256) ++ [i mod 256].
Proof.
  intros Hi. unfold pushInt at 1. unfold fuel_of. cbn [big_endian_loop]. destruct (Z.eqb_spec i 0); [lia|].
  rewrite big_endian_loop_app, shiftr_8, land_255. f_equal. pose proof (Z.div_pos i 256 ltac:(lia) ltac:(lia)) as H0.
  apply big_endian_loop_fuel; [|by apply fuel_enough]. split; [done|].
  pose proof (fuel_enough i ltac:(lia)) as H. unfold fuel_of in H. rewrite Nat2Z.inj_succ, Z.pow_succ_r in H by lia. apply Z.div_lt_upper_bound; lia.
Qed.

Lemma pushInt_0 : pushInt 0 = [].
Proof. done. Qed.

Lemma pushInt_spec i : 0 <= i -> be_value (pushInt i) = i /\ bytes_ok (pushInt i) /\ no_leading_zero (pushInt i) /\ (0 < i -> pushInt i <> []).
Proof.
  intros Hi. revert i Hi. apply (Zlt_0_ind (fun i => be_value (pushInt i) = i /\ bytes_ok (pushInt i) /\ no_leading_zero (pushInt i) /\ (0 < i -> pushInt i <> []))).
  intros i IH Hi. destruct (Z.eq_dec i 0) as [->|Hne]; [rewrite pushInt_0; split_and!; [done|constructor|done|lia]|].
  rewrite pushInt_step by lia. destruct (IH (i / 256)) as (H1 & H2 & H3 & H4); [split; [apply Z.div_pos; lia|apply Z.div_lt; lia]|].
  pose proof (Z.mod_pos_bound i 256 ltac:(lia)) as Hm. split_and!.
  - rewrite be_value_snoc, H1. pose proof (Z.div_mod i 256). lia.
  - apply Forall_app. split; [done|]. by constructor.
  - destruct (pushInt (i / 256)) as [|b l] eqn:E; simpl; [|done]. destruct (Z.eq_dec (i / 256) 0) as [H0|]; [pose proof (Z.div_mod i 256); lia|].
    exfalso. by apply H4; [pose proof (Z.div_pos i 256); lia|].
  - intros _ Hn. by apply app_eq_nil in Hn as [_ ?].
Qed.

Lemma pushInt_be_value d : bytes_ok d -> no_leading_zero d -> pushInt (be_value d) = d.
Proof.
  induction d as [|b d IH] using rev_ind; intros Hd Hz; [done|]. apply Forall_app in Hd as [Hd Hb%Forall_inv]. unfold byte_ok in Hb.
  rewrite be_value_snoc. pose proof (be_value_bound d Hd) as Hv.
  assert (0 < be_value d * 256 + b) as Hp.
  { destruct d as [|c d]; simpl in Hz; [unfold be_value; simpl; lia|]. pose proof (be_value_lower c d Hd Hz) as Hl.
    assert (0 < 256 ^ bsize d) by (apply Z.pow_pos_nonneg; unfold bsize; lia). lia. }
  rewrite pushInt_step by done. replace ((be_value d * 256 + b) / 256) with (be_value d) by (symmetry; rewrite Z.add_comm, Z.div_add by lia; rewrite Z.div_small; lia).
  replace ((be_value d * 256 + b) mod 256) with b by (rewrite Z.add_comm, Z.mod_add by lia; rewrite Z.mod_small; lia).
  rewrite IH; [done|done|]. by destruct d.
Qed.

Lemma bytesRequired_spec i : 0 <= i -> bytesRequired i = bsize (pushInt i).
Proof.
  intros _. unfold bytesRequired, pushInt. assert (forall f j n out, bytesRequired_loop f j n + bsize out = n + bsize (big_endian_loop f j out)) as H.
  { unfold bsize. induction f as [|f IH]; intros j n out; cbn [bytesRequired_loop big_endian_loop]; [done|]. destruct (j =? 0); [done|]. specialize (IH (Z.shiftr j 8) (n + 1) (Z.land j 255 :: out)). cbn [length] in IH. lia. }
  specialize (H (fuel_of i) i 0 []). unfold bsize in *. cbn [length] in H. lia.
Qed.

Lemma pushInt_size i k : 0 <= i < 256 ^ k -> 0 <= k -> bsize (pushInt i) <= k.
Proof.
  intros Hi Hk. destruct (pushInt_spec i) as (H1 & H2 & H3 & _); [lia|]. destruct (pushInt i) as [|b d]; [done|]. simpl in H3.
  pose proof (be_value_lower b d H2 H3) as Hl. rewrite H1 in Hl. unfold bsize in *. simpl.
  assert (Z.of_nat (length d) < k) as Hlt; [|lia]. apply (Z.pow_lt_mono_r_iff 256); [lia..|]. lia.
Qed.

Lemma pushInt_small i : 0 < i < 256 -> pushInt i = [i].
Proof. intros Hi. rewrite pushInt_step, Z.div_small, Z.mod_small by lia. done. Qed.

(** [fromBigEndian] of bytes is their value, reduced to the width. *)
Lemma fromBigEndian_spec w d : 8 <= w -> bytes_ok d -> fromBigEndian w d = wrap w (be_value d).
Proof.
  intros Hw. unfold fromBigEndian. induction d as [|b d IH] using rev_ind; intros Hd; [done|]. apply Forall_app in Hd as [Hd Hb%Forall_inv].
  rewrite fold_left_app, be_value_snoc. simpl. rewrite IH by done. unfold byte_ok in Hb.
  assert (forall r, Z.lor (Z.shiftl r 8) b = r * 256 + b) as Hl.
  { intros r. assert (Z.land (Z.shiftl r 8) b = 0) as H0.
    - apply Z.bits_inj'. intros k Hk. rewrite Z.land_spec, Z.shiftl_spec, Z.bits_0 by done. destruct (Z_lt_le_dec k 8); [by rewrite Z.testbit_neg_r by lia|].
      destruct (Z.eq_dec b 0) as [->|]; [by rewrite Z.bits_0, andb_false_r|]. rewrite (Z.bits_above_log2 b k), andb_false_r; [done|lia|].
      apply Z.log2_lt_pow2; [lia|]. apply Z.lt_le_trans with (2 ^ 8); [lia|]. apply Z.pow_le_mono_r; lia.
    - pose proof (Z.add_lor_land (Z.shiftl r 8) b) as H. rewrite Z.shiftl_mul_pow2 in * by lia. lia. }
  rewrite Hl. unfold wrap. rewrite <- Zplus_mod_idemp_l, Zmult_mod_idemp_l, Zplus_mod_idemp_l. done.
Qed.

(** ** The encoding *)

#[local] Unset Elimination Schemes.
Inductive item :=
| Data (d : bytes)
| Items (l : list item).
#[local] Set Elimination Schemes.

Lemma item_ind (P : item -> Prop) : (forall d, P (Data d)) -> (forall l, Forall P l -> P (Items l)) -> forall it, P it.
Proof.
  intros Hd Hl. fix IH 1. intros [d|l]; [apply Hd|]. apply Hl. induction l as [|i l IHl]; constructor; [apply IH|apply IHl].
Qed.

Definition header (short long n : Z) : bytes := if n <? 56 then [short + n] else long + bsize (pushInt n) :: pushInt n.

Definition encode_data (d : bytes) : bytes :=
  match d with
  | [b] => if b <? 128 then [b] else [129; b]
  | _ => header 128 183 (bsize d) ++ d
  end.

Fixpoint encode (it : item) : bytes :=
  match it with
  | Data d => encode_data d
  | Items l => header 192 247 (bsize (flat_map encode l)) ++ flat_map encode l
  end.

Definition int_item (i : Z) : item := Data (pushInt i).

(** Writing an item with the operations of the stream. *)
Fixpoint stream_item (s : RLPStream) (it : item) : res RLPStream :=
  match it with
  | Data d => append s d false
  | Items l => let* s := appendList s (bsize (map (fun _ => 0) l)) in rfold stream_item l s
  end.

(** ** The writer writes the encoding *)

Lemma rbind_ok {A} (m : res A) : rbind m Ok = m.
Proof. by destruct m. Qed.

Lemma bsize_nonneg d : 0 <= bsize d.
Proof. unfold bsize. lia. Qed.
Lemma bsize_app d e : bsize (d ++ e) = bsize d + bsize e.
Proof. unfold bsize. rewrite length_app. lia. Qed.
Lemma bsize_cons b d : bsize (b :: d) = 1 + bsize d.
Proof. unfold bsize. simpl. lia. Qed.
#[local] Hint Resolve bsize_nonneg : core.

Lemma prefix_fits n : 0 <= n < 2 ^ 64 -> bytesRequired n <= 8.
Proof. intros Hn. rewrite bytesRequired_spec by lia. apply pushInt_size; [change (256 ^ 8) with (2 ^ 64); lia|lia]. Qed.

Lemma list_prefix_header n : 0 <= n < 2 ^ 64 -> list_prefix n = Ok (header 192 247 n).
Proof.
  intros Hn. unfold list_prefix, header. change c_rlpListImmLenCount with 56. change c_rlpListIndLenZero with 247. change c_rlpListStart with 192.
  destruct (n <? 56); [done|]. pose proof (prefix_fits n Hn) as Hp. destruct (Z.leb_spec (247 + bytesRequired n) 255); [|lia]. by rewrite bytesRequired_spec by lia.
Qed.

Lemma pushCount_header s n short long : 56 <= n < 2 ^ 64 -> 0 <= long <= 247 -> pushCount s n long = Ok (push s (header short long n)).
Proof.
  intros Hn Hl. unfold pushCount, header. pose proof (prefix_fits n ltac:(lia)) as Hp. destruct (Z.ltb_spec 255 (bytesRequired n + long)); [lia|].
  destruct (Z.ltb_spec n 56); [lia|]. rewrite bytesRequired_spec by lia. by rewrite Z.add_comm.
Qed.

Lemma push_push s d e : push (push s d) e = push s (d ++ e).
Proof. unfold push. simpl. by rewrite <- app_assoc. Qed.

Lemma data_prefix s d : bsize d < 2 ^ 64 ->
  (if bsize d <? c_rlpDataImmLenCount then Ok (push s [bsize d + c_rlpDataImmLenStart]) else pushCount s (bsize d) c_rlpDataIndLenZero) = Ok (push s (header 128 183 (bsize d))).
Proof.
  intros Hd. pose proof (bsize_nonneg d). change c_rlpDataImmLenCount with 56. change c_rlpDataIndLenZero with 183. change c_rlpDataImmLenStart with 128. destruct (Z.ltb_spec (bsize d) 56).
  - unfold header. destruct (Z.ltb_spec (bsize d) 56); [|lia]. by rewrite Z.add_comm.
  - by apply pushCount_header.
Qed.

Lemma append_encode s d : bsize d < 2 ^ 64 -> append s d false = note_loop (m_listStack s) (m_out s ++ encode_data d) 1.
Proof.
  intros Hd. unfold append. rewrite data_prefix by done. unfold appendRaw, noteAppended. simpl.
  destruct d as [|b [|c d]]; cbn [rbind encode_data]; [by rewrite push_push| |by rewrite push_push].
  change c_rlpDataImmLenStart with 128. destruct (b <? 128); [done|]. cbn [rbind]. by rewrite push_push.
Qed.

Lemma append_int_encode s i : 0 <= i -> bsize (pushInt i) < 56 -> append_int_ s i = note_loop (m_listStack s) (m_out s ++ encode (int_item i)) 1.
Proof.
  intros Hi Hb. unfold append_int_, int_item, noteAppended. change c_rlpDataImmLenCount with 56. change c_rlpDataImmLenStart with 128. cbn [encode].
  destruct (Z.eqb_spec i 0) as [->|]; [done|]. destruct (Z.ltb_spec i 128).
  - rewrite pushInt_small by lia. cbn [encode_data]. destruct (Z.ltb_spec i 128); [|lia]. done.
  - rewrite bytesRequired_spec by lia. destruct (Z.ltb_spec (bsize (pushInt i)) 56); [|lia]. cbn [rbind].
    destruct (pushInt_spec i Hi) as (Hv & Hok & _ & Hne). specialize (Hne ltac:(lia)).
    assert (encode_data (pushInt i) = (bsize (pushInt i) + 128) :: pushInt i) as ->; [|done].
    unfold encode_data, header. destruct (Z.ltb_spec (bsize (pushInt i)) 56); [|lia]. rewrite (Z.add_comm _ 128).
    destruct (pushInt i) as [|b [|c d]]; [done| |done]. unfold be_value in Hv. simpl in Hv. destruct (Z.ltb_spec b 128); [lia|]. done.
Qed.

Lemma appendListRaw_encode s d : bsize d < 2 ^ 64 -> appendListRaw s d = note_loop (m_listStack s) (m_out s ++ header 192 247 (bsize d) ++ d) 1.
Proof.
  intros Hd. pose proof (bsize_nonneg d). unfold appendListRaw. change c_rlpListImmLenCount with 56. change c_rlpListIndLenZero with 247. change c_rlpListStart with 192.
  assert ((if bsize d <? 56 then Ok (push s [bsize d + 192]) else pushCount s (bsize d) 247) = Ok (push s (header 192 247 (bsize d)))) as ->.
  { destruct (Z.ltb_spec (bsize d) 56); [|by apply pushCount_header]. unfold header. destruct (Z.ltb_spec (bsize d) 56); [|lia]. by rewrite Z.add_comm. }
  cbn [rbind]. unfold appendRaw, noteAppended. rewrite push_push. done.
Qed.

Lemma flat_map_size (l : list item) i : i ∈ l -> bsize (encode i) <= bsize (flat_map encode l).
Proof.
  induction l as [|j l IH]; [by intros ?%not_elem_of_nil|]. intros [->|Hi]%elem_of_cons; simpl; rewrite bsize_app; [pose proof (bsize_nonneg (flat_map encode l))|pose proof (bsize_nonneg (encode j)); specialize (IH Hi)]; lia.
Qed.

Lemma data_size d : bsize d <= bsize (encode_data d).
Proof.
  unfold encode_data. destruct d as [|b [|c d]]; [done|destruct (b <? 128); unfold bsize; simpl; lia|]. rewrite bsize_app. pose proof (bsize_nonneg (header 128 183 (bsize (b :: c :: d)))). lia.
Qed.

Lemma items_size l : bsize (flat_map encode l) <= bsize (encode (Items l)).
Proof. cbn [encode]. rewrite bsize_app. pose proof (bsize_nonneg (header 192 247 (bsize (flat_map encode l)))). lia. Qed.

Lemma stream_item_note it : forall s, bsize (encode it) < 2 ^ 64 -> stream_item s it = note_loop (m_listStack s) (m_out s ++ encode it) 1.
Proof.
  induction it as [d|l IH] using item_ind; intros s Hs.
  { simpl. apply append_encode. pose proof (data_size d). simpl in Hs. lia. }
  pose proof (items_size l) as Hl. cbn [stream_item]. unfold appendList. destruct l as [|i0 l0]; [cbn [map]; change (bsize [] =? 0) with true; cbn [rfold]; by rewrite appendListRaw_encode, rbind_ok|].
  set (l := i0 :: l0) in *. assert (bsize (map (fun _ => 0) l) = Z.of_nat (length l)) as -> by (unfold bsize; by rewrite length_map).
  destruct (Z.eqb_spec (Z.of_nat (length l)) 0) as [|_]; [subst l; simpl in *; lia|]. cbn [rbind].
  assert (forall l out p st, l <> [] -> Forall (fun it => forall s, bsize (encode it) < 2 ^ 64 -> stream_item s it = note_loop (m_listStack s) (m_out s ++ encode it) 1) l ->
    Forall (fun i => bsize (encode i) < 2 ^ 64) l ->
    rfold stream_item l (mkRLPStream out ((Z.of_nat (length l), p) :: st)) = note_loop ((1, p) :: st) (out ++ flat_map encode l) 1) as Hfold.
  { clear. induction l as [|i l IHl]; intros out p st Hne Hf Hsz; [done|]. apply Forall_cons in Hf as [Hi Hf]. apply Forall_cons in Hsz as [Hsi Hsz].
    cbn [rfold]. rewrite Hi by done. cbn [m_listStack m_out]. destruct l as [|j l].
    - cbn [rfold flat_map length]. rewrite rbind_ok, app_nil_r. done.
    - cbn [note_loop]. destruct (Z.ltb_spec (Z.of_nat (length (i :: j :: l))) 1); [simpl in *; lia|].
      destruct (Z.eqb_spec (Z.of_nat (length (i :: j :: l)) - 1) 0); [simpl in *; lia|]. cbn [negb rbind].
      replace (Z.of_nat (length (i :: j :: l)) - 1) with (Z.of_nat (length (j :: l))) by (simpl; lia).
      rewrite IHl by done. cbn [flat_map]. by rewrite !app_assoc. }
  rewrite Hfold; [|done|done|]; last first.
  { apply Forall_forall. intros i Hi. pose proof (flat_map_size l i Hi). lia. }
  cbn [note_loop]. change (1 <? 1) with false. change (1 - 1 =? 0) with true. cbn [negb].
  rewrite bsize_app. replace (bsize (m_out s) + bsize (flat_map encode l) - Z.of_nat (length (m_out s))) with (bsize (flat_map encode l)) by (unfold bsize; lia).
  rewrite list_prefix_header by (split; [done|lia]). cbn [rbind]. rewrite take_app_length, drop_app_length. done.
Qed.

(** The stream, which opens lists on a stack and moves their prefixes in front of the
    items that were already written, produces the encoding of the tree of items, whatever
    its depth and shape. *)
Theorem stream_writes_encoding it : bsize (encode it) < 2 ^ 64 -> (let* s := stream_item newRLPStream it in stream_out s) = Ok (encode it).
Proof. intros Hs. rewrite stream_item_note by done. done. Qed.

Lemma stream_writes_encoding_witness :
  (let* s := stream_item newRLPStream (Items [Data [1]; Items [Data (repeat 7 60); Items []]; Data []]) in stream_out s) =
    Ok (encode (Items [Data [1]; Items [Data (repeat 7 60); Items []]; Data []])).
Proof. apply stream_writes_encoding. vm_compute. reflexivity. Defined.
