(* ===== verification/RlpRead.v ===== *)
(** * What the RLP reader reads

    Reading a frame (a prefix and its payload), the three ways to go through a list, and
    the exact correspondence between items and the data that is accepted. *)

From S2P Require Import Prelude Rlp RlpStream.
Local Open Scope Z_scope.
Local Open Scope rlp_scope.
#[local] Hint Resolve bsize_nonneg : core.

(** ** Frames *)

(** [d] starts with the canonical prefix of the payload [p], and [rest] follows. *)
Inductive framed : bytes -> bool -> bytes -> bytes -> Prop :=
| framed_byte b rest : 0 <= b < 128 -> framed (b :: rest) false [b] rest
| framed_data p rest : (forall b, p = [b] -> 128 <= b) -> framed (header 128 183 (bsize p) ++ p ++ rest) false p rest
| framed_list p rest : framed (header 192 247 (bsize p) ++ p ++ rest) true p rest.

Lemma read_length_spec d : forall n i ret, (i + n < length d)%nat ->
  read_length d i n ret = Ok (fold_left (fun r b => u64 (Z.lor (Z.shiftl r 8) b)) (take n (drop (S i) d)) ret).
Proof.
  induction n as [|n IH]; intros i ret Hl; [done|]. cbn [read_length]. unfold byte_at. replace (Z.to_nat (Z.of_nat i + 1)) with (S i) by lia.
  destruct (lookup_lt_is_Some_2 d (S i)) as [b Hb]; [lia|]. rewrite Hb. cbn [rbind]. rewrite IH by lia.
  rewrite (drop_S d b (S i)) by done. done.
Qed.

Lemma read_length_value d k : bytes_ok d -> (0 < k <= 8)%nat -> (k < length d)%nat ->
  read_length d 0 k 0 = Ok (be_value (take k (drop 1 d))).
Proof.
  intros Hd Hk Hl. rewrite read_length_spec by lia. f_equal. fold (fromBigEndian 64 (take k (drop 1 d))).
  assert (bytes_ok (take k (drop 1 d))) as Ht by by apply Forall_take, Forall_drop.
  rewrite fromBigEndian_spec by done. apply wrap_id. unfold in_range, modulus. pose proof (be_value_bound _ Ht) as Hb.
  unfold bsize in Hb. rewrite length_take, length_drop in Hb. assert (256 ^ Z.of_nat (Nat.min k (length d - 1)) <= 256 ^ 8) by (apply Z.pow_le_mono_r; lia).
  change (256 ^ 8) with (2 ^ 64) in *. lia.
Qed.

(** The prefix of more than 55 bytes. *)
Lemma long_header short long n : 56 <= n < 2 ^ 63 -> exists b l, header short long n = long + bsize (b :: l) :: b :: l /\ 0 < b /\
  (0 < length (b :: l) <= 8)%nat /\ be_value (b :: l) = n /\ bytes_ok (b :: l).
Proof.
  intros Hn. unfold header. destruct (Z.ltb_spec n 56); [lia|]. destruct (pushInt_spec n ltac:(lia)) as (H1 & H2 & H3 & H4).
  pose proof (pushInt_size n 8 ltac:(change (256 ^ 8) with (2 ^ 64); lia) ltac:(lia)) as Hs.
  destruct (pushInt n) as [|b l]; [by specialize (H4 ltac:(lia))|]. exists b, l. split_and!; try done; [simpl; lia|]. unfold bsize in Hs. lia.
Qed.

Lemma long_length_spec n b l p rest limit : (0 < length (b :: l) <= 8)%nat -> 0 < b -> bytes_ok (b :: l) -> byte_ok n -> bytes_ok (p ++ rest) ->
  be_value (b :: l) = bsize p -> limit <= bsize p < 2 ^ 63 -> long_length (n :: (b :: l) ++ p ++ rest) (bsize (b :: l)) limit = Ok (bsize p).
Proof.
  intros Hl Hb Hok Hn Hpr Hv Hp. unfold long_length. rewrite bsize_cons, bsize_app. pose proof (bsize_nonneg (p ++ rest)).
  destruct (Z.leb_spec (1 + (bsize (b :: l) + bsize (p ++ rest))) (bsize (b :: l))); [lia|].
  change (byte_at (n :: (b :: l) ++ p ++ rest) 1) with (@Ok Z b). cbn [rbind].
  destruct (Z.eqb_spec b 0); [lia|]. destruct (Z.ltb_spec 8 (bsize (b :: l))); [unfold bsize in *; lia|].
  unfold bsize at 1. rewrite Nat2Z.id, read_length_value; [|constructor; [done|by apply Forall_app]|lia|simpl; rewrite length_app; lia].
  change (drop 1 (n :: (b :: l) ++ p ++ rest)) with ((b :: l) ++ p ++ rest). rewrite take_app_length. cbn [rbind]. rewrite Hv. unfold max_u64. destruct (Z.ltb_spec (bsize p) limit); [lia|].
  destruct (Z.leb_spec (2 ^ 64 - 1 - 256) (bsize p)); [lia|]. done.
Qed.

Record read_ok (d : bytes) (l : bool) (p rest : bytes) : Prop := {
  ro_list : isList d = l;
  ro_data : isData d = negb l;
  ro_null : isNull d = false;
  ro_good : requireGood d = Ok tt;
  ro_length : rlength d = Ok (bsize p);
  ro_offset : drop (Z.to_nat (payloadOffset d)) d = p ++ rest;
  ro_size : payloadOffset d + bsize p + bsize rest = bsize d;
  ro_lower : 0 <= payloadOffset d <= 9 /\ 1 <= payloadOffset d + bsize p;
  ro_actual : actualSize d = Ok (payloadOffset d + bsize p);
}.

Lemma actual_of_length d p l : isNull d = false -> isData d || isList d = true -> (isSingleByte d = true -> payloadOffset d + bsize p = 1) ->
  rlength d = Ok (bsize p) -> 0 <= payloadOffset d <= 9 -> bsize p < 2 ^ 63 -> l = payloadOffset d + bsize p -> actualSize d = Ok l.
Proof.
  intros H1 H2 H3 H4 H5 H6 ->. unfold actualSize. rewrite H1. destruct (isSingleByte d); [by rewrite H3|]. rewrite H2, H4. cbn [rbind].
  pose proof (bsize_nonneg p). rewrite wrap_id; [done|]. unfold in_range, modulus. lia.
Qed.

Ltac consts := change c_rlpDataImmLenStart with 128 in *; change c_rlpListStart with 192 in *; change c_rlpDataIndLenZero with 183 in *;
  change c_rlpListIndLenZero with 247 in *; change c_rlpDataImmLenCount with 56 in *; change c_rlpListImmLenCount with 56 in *;
  change c_rlpMaxLengthBytes with 8 in *.

Ltac decide_byte := repeat (match goal with
  | |- context [?a <? ?b] => destruct (Z.ltb_spec a b); try lia
  | |- context [?a <=? ?b] => destruct (Z.leb_spec a b); try lia
  | |- context [?a =? ?b] => destruct (Z.eqb_spec a b); try lia
  end; cbn [negb andb orb rbind]).

Lemma isNull_cons b d : isNull (b :: d) = false.
Proof. unfold isNull. rewrite bsize_cons. pose proof (bsize_nonneg d). by destruct (Z.eqb_spec (1 + bsize d) 0); [lia|]. Qed.

Lemma read_byte b rest : 0 <= b < 128 -> read_ok (b :: rest) false [b] rest.
Proof.
  intros Hb. assert (payloadOffset (b :: rest) = 0) as Ho by (unfold payloadOffset, isSingleByte; consts; by decide_byte).
  assert (requireGood (b :: rest) = Ok tt) as Hg.
  { unfold requireGood. rewrite isNull_cons. change (byte_at (b :: rest) 0) with (@Ok Z b). consts. by decide_byte. }
  split; try (unfold isList, isData; consts; by decide_byte).
  - unfold rlength. rewrite isNull_cons, Hg. cbn [rbind]. change (byte_at (b :: rest) 0) with (@Ok Z b). consts. cbn [rbind]. by decide_byte.
  - by rewrite Ho.
  - rewrite Ho, !bsize_cons. unfold bsize. simpl. lia.
  - rewrite Ho. unfold bsize. simpl. lia.
  - rewrite Ho. unfold actualSize, isSingleByte. rewrite isNull_cons. consts. by decide_byte.
Qed.

Lemma read_short (l : bool) p rest : (l = false -> forall b, p = [b] -> 128 <= b) -> bsize p < 56 ->
  read_ok ((if l then 192 else 128) + bsize p :: p ++ rest) l p rest.
Proof.
  intros Hb Hp. pose proof (bsize_nonneg p) as H0. set (n := (if l then 192 else 128) + bsize p). set (d := n :: p ++ rest).
  assert (payloadOffset d = 1) as Ho by (unfold payloadOffset, isSingleByte, lengthSize, isData, isList, d; subst n; consts; destruct l; by decide_byte).
  assert (requireGood d = Ok tt) as Hg.
  { unfold requireGood, d. rewrite isNull_cons. change (byte_at (n :: p ++ rest) 0) with (@Ok Z n). consts. cbn [rbind]. subst n. destruct l; [by decide_byte|].
    destruct (Z.eqb_spec (128 + bsize p) (128 + 1)) as [E|]; [|done]. cbn [negb]. destruct p as [|b [|]]; try (unfold bsize in *; simpl in E; lia).
    specialize (Hb eq_refl b eq_refl). rewrite bsize_cons. pose proof (bsize_nonneg ([b] ++ rest)) as Hr. rewrite bsize_app in *.
    change (byte_at _ 1) with (@Ok Z b). change (bsize [b]) with 1. pose proof (bsize_nonneg rest). by decide_byte. }
  assert (isNull d = false) as Hn by apply isNull_cons.
  assert (rlength d = Ok (bsize p)) as Hl.
  { unfold rlength. rewrite Hn, Hg. cbn [rbind]. change (byte_at d 0) with (@Ok Z n). consts. cbn [rbind]. subst n. destruct l; decide_byte; f_equal; lia. }
  assert (isList d = l) as HL by (unfold isList, d; consts; subst n; destruct l; by decide_byte).
  assert (isData d = negb l) as HD by (unfold isData, d; consts; subst n; destruct l; by decide_byte).
  split; try done.
  - by rewrite Ho.
  - rewrite Ho. unfold d. rewrite bsize_cons, bsize_app. lia.
  - rewrite Ho. lia.
  - eapply actual_of_length; try done; [rewrite HL, HD; by destruct l| |rewrite Ho; lia|lia].
    unfold isSingleByte, d. consts. subst n. destruct l; decide_byte; done.
Qed.

Lemma read_long (l : bool) p rest : 56 <= bsize p < 2 ^ 63 -> bytes_ok (p ++ rest) ->
  read_ok (header (if l then 192 else 128) (if l then 247 else 183) (bsize p) ++ p ++ rest) l p rest.
Proof.
  intros Hp Hok. destruct (long_header (if l then 192 else 128) (if l then 247 else 183) (bsize p) Hp) as (b & h & -> & Hb & Hlen & Hv & Hh).
  set (n := (if l then 247 else 183) + bsize (b :: h)). change ((n :: b :: h) ++ p ++ rest) with (n :: (b :: h) ++ p ++ rest). set (d := n :: (b :: h) ++ p ++ rest).
  assert (1 <= bsize (b :: h) <= 8) as Hk by (unfold bsize; lia).
  assert (payloadOffset d = 1 + bsize (b :: h)) as Ho.
  { unfold payloadOffset, isSingleByte, lengthSize, isData, isList, d; subst n; consts; destruct l; decide_byte; lia. }
  assert (requireGood d = Ok tt) as Hg.
  { unfold requireGood, d. rewrite isNull_cons. change (byte_at (n :: _) 0) with (@Ok Z n). consts. cbn [rbind]. subst n. destruct l; by decide_byte. }
  assert (isNull d = false) as Hn by apply isNull_cons.
  assert (byte_ok n) as Hnok by (unfold byte_ok; subst n; destruct l; lia).
  assert (rlength d = Ok (bsize p)) as Hl.
  { unfold rlength. rewrite Hn, Hg. cbn [rbind]. change (byte_at d 0) with (@Ok Z n). consts. cbn [rbind]. subst n. destruct l; decide_byte.
    - replace (247 + bsize (b :: h) - 247) with (bsize (b :: h)) by lia. by apply long_length_spec; try done; lia.
    - replace (183 + bsize (b :: h) - 183) with (bsize (b :: h)) by lia. by apply long_length_spec; try done; lia. }
  assert (isList d = l) as HL by (unfold isList, d; consts; subst n; destruct l; by decide_byte).
  assert (isData d = negb l) as HD by (unfold isData, d; consts; subst n; destruct l; by decide_byte).
  split; try done.
  - rewrite Ho. replace (Z.to_nat (1 + bsize (b :: h))) with (length (n :: b :: h)) by (unfold bsize; simpl; lia).
    change d with ((n :: b :: h) ++ p ++ rest). by rewrite drop_app_length.
  - rewrite Ho. unfold d. unfold bsize. simpl. rewrite !length_app. lia.
  - rewrite Ho. lia.
  - eapply actual_of_length; try done; [rewrite HL, HD; by destruct l| |rewrite Ho; lia|lia].
    unfold isSingleByte, d. consts. subst n. destruct l; decide_byte; done.
Qed.

Lemma framed_read d l p rest : framed d l p rest -> bytes_ok d -> bsize d < 2 ^ 63 -> read_ok d l p rest.
Proof.
  intros Hf Hok Hs. destruct Hf as [b rest Hb|p rest Hp|p rest].
  - by apply read_byte.
  - apply Forall_app in Hok as [_ Hok]. rewrite !bsize_app in Hs. pose proof (bsize_nonneg (header 128 183 (bsize p))). pose proof (bsize_nonneg rest).
    destruct (Z_lt_le_dec (bsize p) 56); [|by apply (read_long false); [lia|]]. unfold header. destruct (Z.ltb_spec (bsize p) 56); [|lia]. by apply (read_short false p rest (fun _ => Hp)).
  - apply Forall_app in Hok as [_ Hok]. rewrite !bsize_app in Hs. pose proof (bsize_nonneg (header 192 247 (bsize p))). pose proof (bsize_nonneg rest).
    destruct (Z_lt_le_dec (bsize p) 56); [|by apply (read_long true); [lia|]]. unfold header. destruct (Z.ltb_spec (bsize p) 56); [|lia]. by apply (read_short true p rest).
Qed.

(** ** Only frames are read *)

Lemma byte_at_0 b d : byte_at (b :: d) 0 = Ok b.
Proof. done. Qed.

Lemma byte_at_in d i : 0 <= i < bsize d -> exists b, byte_at d i = Ok b /\ d !! Z.to_nat i = Some b.
Proof. intros Hi. unfold byte_at. destruct (lookup_lt_is_Some_2 d (Z.to_nat i)) as [b ->]; [unfold bsize in *; lia|]. by exists b. Qed.

(** [long_length] reads the bytes of a canonical length, or throws. *)
Lemma long_length_inv n d k limit : bytes_ok (n :: d) -> 1 <= k <= 8 -> 56 <= limit ->
  (exists e, long_length (n :: d) k limit = Throw e) \/
  exists v rest, long_length (n :: d) k limit = Ok v /\ limit <= v < 2 ^ 64 - 257 /\ d = pushInt v ++ rest /\ bsize (pushInt v) = k.
Proof.
  intros Hok Hk Hlim. apply Forall_cons in Hok as [Hn Hok]. unfold long_length. rewrite bsize_cons. destruct (Z.leb_spec (1 + bsize d) k); [by left; eexists|].
  destruct d as [|b d]; [unfold bsize in *; simpl in *; lia|]. change (byte_at (n :: b :: d) 1) with (@Ok Z b). cbn [rbind].
  destruct (Z.eqb_spec b 0); [by left; eexists|]. destruct (Z.ltb_spec 8 k); [lia|].
  rewrite read_length_value; [|by constructor|lia|unfold bsize in *; simpl in *; lia]. cbn [rbind]. change (drop 1 (n :: b :: d)) with (b :: d).
  set (L := take (Z.to_nat k) (b :: d)). assert (bytes_ok L) as HL by by apply Forall_take.
  assert (no_leading_zero L) as HzL. { subst L. destruct (Z.to_nat k) eqn:E; [lia|]. simpl. apply Forall_cons in Hok as [Hb _]. unfold byte_ok in Hb. lia. }
  destruct (Z.ltb_spec (be_value L) limit); [by left; eexists|]. unfold max_u64. destruct (Z.leb_spec (2 ^ 64 - 1 - 256) (be_value L)); [by left; eexists|].
  right. exists (be_value L), (drop (Z.to_nat k) (b :: d)). rewrite pushInt_be_value by done. split_and!; [done|lia|lia| |].
  - subst L. by rewrite take_drop.
  - subst L. unfold bsize in *. rewrite length_take. simpl in *. lia.
Qed.

Lemma frame_of_prefix n d off len (short long : Z) : 0 <= len ->
  (header short long len = n :: take off d /\ (off <= length d)%nat /\ Z.of_nat off + len <= bsize d) ->
  exists p rest, n :: d = header short long (bsize p) ++ p ++ rest /\ bsize p = len.
Proof.
  intros Hl (Hh & Ho & Hs). exists (take (Z.to_nat len) (drop off d)), (drop (Z.to_nat len) (drop off d)).
  assert (bsize (take (Z.to_nat len) (drop off d)) = len) as Hb by (unfold bsize in *; rewrite length_take, length_drop; lia).
  rewrite Hb, Hh, (take_drop (Z.to_nat len)). simpl. by rewrite take_drop.
Qed.

Lemma header_short short long n : 0 <= n < 56 -> header short long n = [short + n].
Proof. intros Hn. unfold header. destruct (Z.ltb_spec n 56); [done|lia]. Qed.
Lemma header_long short long n : 56 <= n -> header short long n = long + bsize (pushInt n) :: pushInt n.
Proof. intros Hn. unfold header. destruct (Z.ltb_spec n 56); [lia|done]. Qed.

(** Data that has a size is a frame, or too short for it. *)
Lemma actualSize_inv d : bytes_ok d -> bsize d < 2 ^ 63 -> d <> [] ->
  (exists e, actualSize d = Throw e) \/ (exists n, actualSize d = Ok n /\ bsize d < n) \/ exists l p rest, framed d l p rest.
Proof.
  intros Hok Hs Hne. destruct d as [|n d]; [done|]. pose proof Hok as [Hn Hd]%Forall_cons. unfold byte_ok in Hn. pose proof (bsize_nonneg d) as H0.
  unfold actualSize. rewrite isNull_cons. unfold isSingleByte, isData, isList. consts. destruct (Z.ltb_spec n 128).
  { right. right. exists false, [n], d. constructor. lia. }
  assert ((n <? 192) || (192 <=? n) = true) as -> by (destruct (Z.ltb_spec n 192); [done|]; simpl; apply Z.leb_le; lia).
  unfold rlength. rewrite isNull_cons.
  assert (requireGood (n :: d) = Throw BadRLP \/ (requireGood (n :: d) = Ok tt /\ (n = 129 -> exists b d', d = b :: d' /\ 128 <= b))) as [->|[-> H129]].
  { unfold requireGood. rewrite isNull_cons, byte_at_0. consts. cbn [rbind]. destruct (Z.eqb_spec n (128 + 1)); cbn [negb]; [|right; split; [done|lia]].
    destruct d as [|b d]; [by left|]. rewrite !bsize_cons. pose proof (bsize_nonneg d). destruct (Z.ltb_spec (1 + (1 + bsize d)) 2); [lia|].
    change (byte_at (n :: b :: d) 1) with (@Ok Z b). cbn [rbind]. destruct (Z.ltb_spec b 128); [by left|right]. split; [done|]. intros _. by exists b, d. }
  { cbn [rbind]. left. by eexists. }
  cbn [rbind]. rewrite byte_at_0. cbn [rbind]. consts. destruct (Z.ltb_spec n 128); [lia|].
  assert (forall v off, 0 <= v < 2 ^ 64 - 257 -> 0 <= off <= 9 -> u64 (off + v) = off + v) as Hw by (intros; apply wrap_id; unfold in_range, modulus; lia).
  assert (payloadOffset (n :: d) = 1 + lengthSize (n :: d)) as Hpo by (unfold payloadOffset, isSingleByte; consts; by destruct (Z.ltb_spec n 128); [lia|]).
  destruct (Z.leb_spec n 183) as [H183|H183].
  { cbn [rbind]. assert (lengthSize (n :: d) = 0) as Hls by (unfold lengthSize, isData, isList; consts; by decide_byte). rewrite Hpo, Hls, Hw by lia.
    destruct (Z_lt_le_dec (bsize d) (n - 128)); [right; left; eexists; split; [done|]; rewrite bsize_cons; lia|]. right. right.
    destruct (frame_of_prefix n d 0 (n - 128) 128 183) as (p & rest & E & Hp); [lia|split_and!; [rewrite header_short by lia; simpl; f_equal; lia|lia|simpl; lia]|].
    exists false, p, rest. rewrite E. constructor. intros b ->. change (bsize [b]) with 1 in *. destruct H129 as (b' & d' & Ed & Hb); [lia|].
    rewrite Hp, header_short in E by lia. simpl in E. rewrite Ed in E. injection E as _ <- _. done. }
  destruct (Z.ltb_spec n 192) as [H192|H192].
  { change (192 - 128 - 8) with 56. destruct (long_length_inv n d (n - 183) 56 Hok) as [(e & ->)|(v & rest & Hv & Hb & Hd2 & Hk)]; [lia..|by left; eexists|].
    rewrite Hv. cbn [rbind]. assert (lengthSize (n :: d) = n - 183) as Hls by (unfold lengthSize, isData, isList; consts; by decide_byte).
    rewrite Hpo, Hls, Hw by lia. destruct (Z_lt_le_dec (bsize rest) v) as [Hlt|Hge].
    - right. left. eexists. split; [done|]. rewrite bsize_cons, Hd2, bsize_app, Hk. lia.
    - right. right. destruct (frame_of_prefix n d (length (pushInt v)) v 128 183) as (p & r & E & Hp); [lia| |exists false, p, r; rewrite E; constructor; intros b ->; change (bsize [b]) with 1 in *; lia].
      rewrite header_long, Hk, Hd2, take_app_length by lia. split_and!; [f_equal; lia|rewrite length_app; lia|]. fold (bsize (pushInt v)). rewrite bsize_app. lia. }
  destruct (Z.leb_spec n 247) as [H247|H247].
  { cbn [rbind]. assert (lengthSize (n :: d) = 0) as Hls by (unfold lengthSize, isData, isList; consts; by decide_byte). rewrite Hpo, Hls, Hw by lia.
    destruct (Z_lt_le_dec (bsize d) (n - 192)); [right; left; eexists; split; [done|]; rewrite bsize_cons; lia|]. right. right.
    destruct (frame_of_prefix n d 0 (n - 192) 192 247) as (p & rest & E & Hp); [lia|split_and!; [rewrite header_short by lia; simpl; f_equal; lia|lia|simpl; lia]|].
    exists true, p, rest. rewrite E. constructor. }
  change (256 - 192 - 8) with 56. destruct (long_length_inv n d (n - 247) 56 Hok) as [(e & ->)|(v & rest & Hv & Hb & Hd2 & Hk)]; [lia..|by left; eexists|].
  rewrite Hv. cbn [rbind]. assert (lengthSize (n :: d) = n - 247) as Hls by (unfold lengthSize, isData, isList; consts; by decide_byte).
  rewrite Hpo, Hls, Hw by lia. destruct (Z_lt_le_dec (bsize rest) v) as [Hlt|Hge].
  - right. left. eexists. split; [done|]. rewrite bsize_cons, Hd2, bsize_app, Hk. lia.
  - right. right. destruct (frame_of_prefix n d (length (pushInt v)) v 192 247) as (p & r & E & Hp); [lia| |exists true, p, r; rewrite E; constructor].
    rewrite header_long, Hk, Hd2, take_app_length by lia. split_and!; [f_equal; lia|rewrite length_app; lia|]. fold (bsize (pushInt v)). rewrite bsize_app. lia.
Qed.

(** ** Lists *)

Lemma framed_split d l p rest : framed d l p rest -> exists it, d = it ++ rest /\ framed it l p [] /\ it <> [].
Proof.
  intros [b r Hb|q r Hq|q r].
  - exists [b]. split_and!; [done|by constructor|done].
  - exists (header 128 183 (bsize q) ++ q). rewrite <- app_assoc. split_and!; [done| |unfold header; by case_match]. rewrite <- (app_nil_r q) at 2. by constructor.
  - exists (header 192 247 (bsize q) ++ q). rewrite <- app_assoc. split_and!; [done| |unfold header; by case_match]. rewrite <- (app_nil_r q) at 2. by constructor.
Qed.

Lemma framed_app it l p rest : framed it l p [] -> framed (it ++ rest) l p rest.
Proof.
  intros H. remember [] as nil eqn:Hnil. destruct H as [b r Hb|q r Hq|q r]; subst r; rewrite ?app_nil_r, <- ?app_assoc.
  - by constructor.
  - by constructor.
  - by constructor.
Qed.

Lemma sizeAsEncoded_frame it l p rest : framed it l p [] -> bytes_ok (it ++ rest) -> bsize (it ++ rest) < 2 ^ 63 -> sizeAsEncoded (it ++ rest) = Ok (bsize it).
Proof.
  intros Hf Hok Hs. pose proof (framed_read _ _ _ _ (framed_app _ _ _ rest Hf) Hok Hs) as [_ _ _ _ _ _ Hsz _ Ha].
  unfold sizeAsEncoded, newRLP. simpl. rewrite Ha. cbn [rbind]. pose proof (bsize_nonneg rest). destruct (Z.ltb_spec (bsize (it ++ rest)) (payloadOffset (it ++ rest) + bsize p)); [lia|].
  cbn [rbind]. rewrite Ha. f_equal. rewrite bsize_app in Hsz. lia.
Qed.

Lemma sizeAsEncoded_cases d : bytes_ok d -> bsize d < 2 ^ 63 -> d <> [] ->
  (exists e, sizeAsEncoded d = Throw e) \/ exists it l p rest, d = it ++ rest /\ framed it l p [] /\ it <> [] /\ sizeAsEncoded d = Ok (bsize it).
Proof.
  intros Hok Hs Hne. destruct (actualSize_inv d Hok Hs Hne) as [(e & He)|[(n & Hn & Hlt)|(l & p & rest & Hf)]].
  - left. exists e. unfold sizeAsEncoded, newRLP. simpl. by rewrite He.
  - left. exists UndersizeRLP. unfold sizeAsEncoded, newRLP. simpl. rewrite Hn. cbn [rbind]. by rewrite (proj2 (Z.ltb_lt _ _) Hlt).
  - right. destruct (framed_split d l p rest Hf) as (it & -> & Hit & Hi). exists it, l, p, rest. split_and!; try done. by eapply sizeAsEncoded_frame.
Qed.

Lemma cropped_all it rest : cropped (it ++ rest) 0 (bsize it) = it.
Proof.
  unfold cropped. rewrite bsize_app. pose proof (bsize_nonneg it). pose proof (bsize_nonneg rest). destruct (Z.leb_spec 0 (bsize it + bsize rest)); [|lia].
  destruct (Z.leb_spec (bsize it) (bsize it + bsize rest)); [|lia]. destruct (Z.leb_spec (0 + bsize it) (bsize it + bsize rest)); [|lia]. simpl.
  unfold bsize. by rewrite Nat2Z.id, drop_0, take_app_length.
Qed.

Lemma cropped_from_app it rest : cropped_from (it ++ rest) (bsize it) = rest.
Proof.
  unfold cropped_from. rewrite bsize_app. pose proof (bsize_nonneg rest). destruct (Z.leb_spec (bsize it) (bsize it + bsize rest)); [|lia].
  unfold bsize. by rewrite Nat2Z.id, drop_app_length.
Qed.

(** The items of a payload, one behind the other. *)
Fixpoint split_items (fuel : nat) (d : bytes) : res (list bytes) :=
  match d, fuel with
  | [], _ => Ok []
  | _, O => OutOfBounds
  | _, S fuel =>
      let* n := sizeAsEncoded d in
      let* items := split_items fuel (drop (Z.to_nat n) d) in
      Ok (take (Z.to_nat n) d :: items)
  end.

Lemma split_step f it rest n : it <> [] -> n = bsize it -> sizeAsEncoded (it ++ rest) = Ok n ->
  split_items (S f) (it ++ rest) = let* items := split_items f rest in Ok (it :: items).
Proof.
  intros Hne -> Hs. destruct it as [|b it]; [done|]. cbn [split_items app]. change (b :: it ++ rest) with ((b :: it) ++ rest). rewrite Hs. cbn [rbind].
  unfold bsize. by rewrite Nat2Z.id, take_app_length, drop_app_length.
Qed.

Lemma split_throw f d e : d <> [] -> sizeAsEncoded d = Throw e -> split_items (S f) d = Throw e.
Proof. intros Hne Hs. destruct d; [done|]. cbn [split_items]. by rewrite Hs. Qed.

(** Induction over the items of a payload. *)
Lemma payload_ind (P : bytes -> Prop) :
  P [] ->
  (forall d e, d <> [] -> bytes_ok d -> bsize d < 2 ^ 63 -> sizeAsEncoded d = Throw e -> P d) ->
  (forall it l p rest, it <> [] -> framed it l p [] -> bytes_ok (it ++ rest) -> bsize (it ++ rest) < 2 ^ 63 -> sizeAsEncoded (it ++ rest) = Ok (bsize it) -> P rest -> P (it ++ rest)) ->
  forall d, bytes_ok d -> bsize d < 2 ^ 63 -> P d.
Proof.
  intros H0 He Hs d. remember (length d) as n eqn:Hn. revert d Hn. induction n as [n IH] using lt_wf_ind. intros d -> Hok Hsz.
  destruct (decide (d = [])) as [->|Hne]; [done|]. destruct (sizeAsEncoded_cases d Hok Hsz Hne) as [(e & E)|(it & l & p & rest & -> & Hf & Hi & E)]; [by eapply He|].
  eapply Hs; try done. eapply IH; [|done| |].
  - rewrite length_app. destruct it; [done|simpl; lia].
  - by apply Forall_app in Hok as [_ ?].
  - rewrite bsize_app in Hsz. pose proof (bsize_nonneg it). lia.
Qed.

Lemma split_fuel d : bytes_ok d -> bsize d < 2 ^ 63 -> forall f1 f2, (length d <= f1)%nat -> (length d <= f2)%nat -> split_items f1 d = split_items f2 d.
Proof.
  revert d. apply (payload_ind (fun d => forall f1 f2, (length d <= f1)%nat -> (length d <= f2)%nat -> split_items f1 d = split_items f2 d)).
  - by intros [|f1] [|f2].
  - intros d e Hne _ _ E f1 f2 H1 H2. destruct d; [done|]. destruct f1, f2; simpl in *; try lia. by rewrite E.
  - intros it l p rest Hne _ _ _ E IH f1 f2 H1 H2. rewrite length_app in *. assert (length it <> 0)%nat by (by destruct it). destruct f1 as [|f1], f2 as [|f2]; try lia.
    rewrite !(split_step _ it rest _ Hne eq_refl E), (IH f1 f2) by lia. done.
Qed.

Lemma items_loop_split d : bytes_ok d -> bsize d < 2 ^ 63 -> forall f i, (length d <= f)%nat ->
  items_loop f d i = let* l := split_items f d in Ok (i + Z.of_nat (length l)).
Proof.
  revert d. apply (payload_ind (fun d => forall f i, (length d <= f)%nat -> items_loop f d i = let* l := split_items f d in Ok (i + Z.of_nat (length l)))).
  - intros [|f] i _; simpl; by rewrite Z.add_0_r.
  - intros d e Hne _ _ E f i Hf. destruct f as [|f]; [destruct d; simpl in *; [done|lia]|]. rewrite (split_throw f d e Hne E). cbn [items_loop].
    destruct (Z.eqb_spec (bsize d) 0); [destruct d; unfold bsize in *; simpl in *; [done|lia]|]. by rewrite E.
  - intros it l p rest Hne _ _ _ E IH f i Hf. rewrite length_app in Hf. assert (length it <> 0)%nat by (by destruct it). destruct f as [|f]; [lia|].
    rewrite (split_step f it rest _ Hne eq_refl E). cbn [items_loop]. destruct (Z.eqb_spec (bsize (it ++ rest)) 0); [rewrite bsize_app in *; unfold bsize in *; lia|].
    rewrite E. cbn [rbind]. rewrite cropped_from_app, IH by lia. destruct (split_items f rest); cbn [rbind]; [|done..]. f_equal. simpl. lia.
Qed.

Lemma newRLP_frame it l p : framed it l p [] -> bytes_ok it -> bsize it < 2 ^ 63 -> newRLP it VeryStrict = Ok it.
Proof.
  intros Hf Hok Hs. pose proof (framed_read _ _ _ _ Hf Hok Hs) as [_ _ _ _ _ _ Hsz _ Ha]. change (bsize []) with 0 in Hsz. rewrite Z.add_0_r in Hsz. rewrite Hsz in Ha.
  unfold newRLP. simpl. rewrite Ha. cbn [rbind]. rewrite Z.ltb_irrefl. cbn [rbind]. rewrite Ha. cbn [rbind]. by rewrite Z.ltb_irrefl.
Qed.

Lemma iterate_split t : bytes_ok t -> bsize t < 2 ^ 63 -> forall f cur l p, (length t <= f)%nat -> framed cur l p [] -> cur <> [] -> bytes_ok cur -> bsize cur < 2 ^ 63 ->
  iterate_loop (S f) (mkIterator (cur ++ t) (bsize cur) (bsize t)) = let* items := split_items f t in Ok (cur :: items).
Proof.
  assert (forall f t cur l p, framed cur l p [] -> cur <> [] -> bytes_ok cur -> bsize cur < 2 ^ 63 -> iterate_loop (S f) (mkIterator (cur ++ t) (bsize cur) (bsize t)) =
    let* it := it_next (mkIterator (cur ++ t) (bsize cur) (bsize t)) in let* items := iterate_loop f it in Ok (cur :: items)) as Hstep.
  { intros f0 t0 cur l p Hf Hne Hok Hs. cbn [iterate_loop]. unfold it_eqb. simpl. rewrite bsize_app. destruct (Z.eqb_spec (bsize cur + bsize t0) (bsize [])) as [E|_].
    - destruct cur; [done|]. rewrite bsize_cons in E. change (bsize []) with 0 in E. pose proof (bsize_nonneg cur). pose proof (bsize_nonneg t0). lia.
    - cbn [andb]. unfold it_deref, m_currentItem. simpl. assert (Z.to_nat (bsize cur) = length cur) as -> by (unfold bsize; lia).
      rewrite take_app_length, (newRLP_frame cur l p) by done. done. }
  revert t. apply (payload_ind (fun t => forall f cur l p, (length t <= f)%nat -> framed cur l p [] -> cur <> [] -> bytes_ok cur -> bsize cur < 2 ^ 63 ->
    iterate_loop (S f) (mkIterator (cur ++ t) (bsize cur) (bsize t)) = let* items := split_items f t in Ok (cur :: items))).
  - intros f cur l p Hf Hfr Hne Hok Hs. rewrite (Hstep _ _ _ _ _ Hfr) by done. unfold it_next. simpl.
    assert (Z.to_nat (bsize cur) = length cur) as -> by (unfold bsize; lia). rewrite drop_app_length. destruct f; done.
  - intros d e Hned _ _ E f cur l p Hf Hfr Hne Hok Hs. rewrite (Hstep _ _ _ _ _ Hfr) by done. unfold it_next. simpl.
    assert (Z.to_nat (bsize cur) = length cur) as -> by (unfold bsize; lia). rewrite drop_app_length.
    destruct (Z.eqb_spec (bsize d) 0); [destruct d; unfold bsize in *; simpl in *; [done|lia]|]. assert (Z.to_nat (bsize d) = length d) as -> by (unfold bsize; lia).
    rewrite firstn_all, E. destruct f; [destruct d; simpl in *; [done|lia]|]. by rewrite (split_throw f d e).
  - intros it l2 p2 rest Hit Hfit Hokr Hsr E IH f cur l p Hf Hfr Hne Hok Hs. rewrite (Hstep _ _ _ _ _ Hfr) by done. unfold it_next. simpl.
    assert (Z.to_nat (bsize cur) = length cur) as -> by (unfold bsize; lia). rewrite drop_app_length. rewrite length_app in Hf. assert (length it <> 0)%nat by (by destruct it).
    destruct (Z.eqb_spec (bsize (it ++ rest)) 0); [rewrite bsize_app in *; unfold bsize in *; lia|].
    assert (Z.to_nat (bsize (it ++ rest)) = length (it ++ rest)) as -> by (unfold bsize; lia). rewrite firstn_all, E. cbn [rbind]. rewrite cropped_all.
    rewrite bsize_app, Z.min_r by (pose proof (bsize_nonneg rest); lia). replace (bsize it + bsize rest - bsize it) with (bsize rest) by lia.
    destruct f as [|f]; [lia|]. rewrite bsize_app in Hsr. pose proof (bsize_nonneg rest). apply Forall_app in Hokr as [Hoki Hokr].
    rewrite (IH f it l2 p2) by (try done; lia). by rewrite (split_step f it rest _ Hit eq_refl E).
Qed.

Lemma payload_frame d l p : framed d l p [] -> bytes_ok d -> bsize d < 2 ^ 63 -> payload d = Ok p /\ bytes_ok p /\ bsize p < 2 ^ 63 /\ (l = true -> (length p < length d)%nat).
Proof.
  intros Hf Hok Hs. pose proof (framed_read _ _ _ _ Hf Hok Hs) as [Hl _ _ _ Hlen Ho Hsz Hlo _]. rewrite app_nil_r in Ho. change (bsize []) with 0 in Hsz. rewrite Z.add_0_r in Hsz.
  assert (bytes_ok p) as Hp by (rewrite <- Ho; by apply Forall_drop). pose proof (bsize_nonneg p).
  unfold payload. rewrite Hlen. cbn [rbind]. destruct (Z.ltb_spec (bsize d) (bsize p)); [lia|]. split_and!; [|done|lia|].
  - f_equal. unfold cropped. destruct (Z.leb_spec (payloadOffset d) (bsize d)); [|lia]. destruct (Z.leb_spec (bsize p) (bsize d)); [|lia].
    destruct (Z.leb_spec (payloadOffset d + bsize p) (bsize d)); [|lia]. simpl. rewrite Ho. unfold bsize. by rewrite Nat2Z.id, firstn_all.
  - intros ->. assert (1 <= payloadOffset d) by (unfold payloadOffset, isSingleByte, isList in *; destruct d as [|b d]; [done|]; consts;
      destruct (Z.ltb_spec b 128); [destruct (Z.leb_spec 192 b); [lia|done]|]; unfold lengthSize, isData, isList; consts; decide_byte; lia).
    unfold bsize in *. lia.
Qed.

(** The iteration and the count see the same items. *)
Lemma list_items d p : framed d true p [] -> bytes_ok d -> bsize d < 2 ^ 63 ->
  rlp_items d = split_items (length p) p /\ itemCount d = let* l := split_items (length p) p in Ok (Z.of_nat (length l)).
Proof.
  intros Hf Hok Hs. destruct (payload_frame d true p Hf Hok Hs) as (Hp & Hpok & Hps & Hlt). specialize (Hlt eq_refl).
  pose proof (framed_read _ _ _ _ Hf Hok Hs) as [Hl _ _ _ _ Ho _ _ _]. rewrite app_nil_r in Ho. split.
  - unfold rlp_items, it_begin. rewrite Hl, Hp. cbn [rbind]. destruct (decide (p = [])) as [->|Hne].
    + simpl. rewrite Ho. simpl. by destruct (length d).
    + destruct (sizeAsEncoded_cases p Hpok Hps Hne) as [(e & E)|(it & l & q & rest & -> & Hfi & Hi & E)]; rewrite E; cbn [rbind].
      * destruct (length p) as [|n] eqn:En; [by destruct p|]. by rewrite (split_throw n p e).
      * rewrite cropped_all, Ho, bsize_app. replace (bsize it + bsize rest - bsize it) with (bsize rest) by lia. rewrite bsize_app in Hps. pose proof (bsize_nonneg it). pose proof (bsize_nonneg rest).
        apply Forall_app in Hpok as [Hoki Hokr]. rewrite length_app in *. destruct (length d) as [|n] eqn:En; [lia|].
        rewrite (iterate_split rest Hokr ltac:(lia) n it l q) by (try done; lia). assert (length it <> 0)%nat by (by destruct it).
        destruct (length it + length rest)%nat as [|m] eqn:Em; [lia|]. rewrite (split_step m it rest _ Hi eq_refl E). by rewrite (split_fuel rest Hokr ltac:(lia) n m) by lia.
  - unfold itemCount, items. rewrite Hl, Hp. cbn [rbind]. by rewrite items_loop_split.
Qed.
