(* ===== verification/RlpItems.v ===== *)
(** * Items and the data that is accepted for them

    Reading a whole tree of items with the operations of [RLP]; reading and writing are
    inverse to each other; reading never leaves the data; access by index through its
    cache. *)

From S2P Require Import Prelude Rlp RlpStream RlpRead.
Local Open Scope Z_scope.
Local Open Scope rlp_scope.
#[local] Hint Resolve bsize_nonneg : core.

(** ** Reading a tree of items *)

Fixpoint read_item (fuel : nat) (d : bytes) : res item :=
  match fuel with
  | O => OutOfBounds
  | S fuel =>
      if isList d then let* ds := rlp_items d in let* l := rmap (read_item fuel) ds in Ok (Items l)
      else let* b := toBytes d VeryStrict in Ok (Data b)
  end.
Definition read_rlp (d : bytes) : res item := let* d := newRLP d VeryStrict in read_item (S (length d)) d.

Lemma toBytes_frame d p s : framed d false p [] -> bytes_ok d -> bsize d < 2 ^ 63 -> toBytes d s = Ok p.
Proof.
  intros Hf Hok Hs. destruct (payload_frame d false p Hf Hok Hs) as (Hp & _). pose proof (framed_read _ _ _ _ Hf Hok Hs) as [_ Hd _ _ Hl _ _ _ _].
  unfold toBytes. rewrite Hd, Hp, Hl. simpl. rewrite Z.ltb_irrefl. unfold bsize. by rewrite Nat2Z.id, firstn_all.
Qed.

(** The payload of an item. *)
Definition item_payload (it : item) : bytes := match it with Data d => d | Items l => flat_map encode l end.
Definition item_list (it : item) : bool := match it with Data _ => false | Items _ => true end.

Lemma encode_framed it : bytes_ok (encode it) -> framed (encode it) (item_list it) (item_payload it) [].
Proof.
  destruct it as [d|its]; cbn [encode item_list item_payload]; intros Hok.
  - unfold encode_data in *. destruct d as [|b [|c d]].
    + by apply (framed_data [] []).
    + destruct (Z.ltb_spec b 128) as [Hb|Hb]; [apply framed_byte; apply Forall_cons in Hok as [Hok _]; unfold byte_ok in Hok; lia|].
      apply (framed_data [b] []). intros b' [= <-]. done.
    + rewrite <- (app_nil_r (b :: c :: d)) at 2. apply framed_data. done.
  - rewrite <- (app_nil_r (flat_map encode its)) at 2. apply framed_list.
Qed.

Lemma encode_nonempty it : encode it <> [].
Proof. destruct it as [[|b [|c d]]|l]; cbn [encode encode_data]; [done|by case_match|unfold header; by case_match..]. Qed.

Lemma frame_encode d p : framed d false p [] -> bytes_ok d -> d = encode (Data p).
Proof.
  intros H Hok. inversion H as [b r Hb| q r Hq|]; subst.
  - cbn. destruct (Z.ltb_spec b 128); [done|lia].
  - rewrite app_nil_r. cbn [encode]. unfold encode_data. destruct p as [|b [|c p]]; [done| |done]. specialize (Hq b eq_refl). destruct (Z.ltb_spec b 128); [lia|done].
Qed.

Lemma split_encode l : bytes_ok (flat_map encode l) -> bsize (flat_map encode l) < 2 ^ 63 -> forall f, (length (flat_map encode l) <= f)%nat ->
  split_items f (flat_map encode l) = Ok (map encode l).
Proof.
  induction l as [|it l IH]; intros Hok Hs f Hf; [by destruct f|]. cbn [flat_map map] in *. rewrite length_app in Hf. pose proof (encode_nonempty it) as Hne.
  assert (length (encode it) <> 0)%nat by (by destruct (encode it)). destruct f as [|f]; [lia|]. pose proof Hok as [Hok1 Hok2]%Forall_app.
  rewrite (split_step f (encode it) _ (bsize (encode it)) Hne eq_refl); [|by eapply sizeAsEncoded_frame; [apply encode_framed|..]].
  rewrite bsize_app in Hs. pose proof (bsize_nonneg (encode it)). by rewrite IH by (try done; lia).
Qed.

(** ** Reading is the inverse of writing *)

Lemma read_encode it : bytes_ok (encode it) -> bsize (encode it) < 2 ^ 63 -> forall f, (length (encode it) < f)%nat -> read_item f (encode it) = Ok it.
Proof.
  induction it as [d|l IH] using item_ind; intros Hok Hs f Hf; (destruct f as [|f]; [lia|]); cbn [read_item]; pose proof (encode_framed _ Hok) as Hfr;
    pose proof (framed_read _ _ _ _ Hfr Hok Hs) as [Hl _ _ _ _ _ _ _ _]; rewrite Hl; cbn [item_list].
  - by rewrite (toBytes_frame _ d).
  - cbn [item_list item_payload] in Hfr. destruct (list_items _ _ Hfr Hok Hs) as [-> _]. destruct (payload_frame _ _ _ Hfr Hok Hs) as (_ & Hpok & Hps & Hlt). specialize (Hlt eq_refl).
    rewrite split_encode by done. cbn [rbind].
    assert (rmap (read_item f) (map encode l) = Ok l) as ->; [|done].
    assert (forall i, i ∈ l -> bytes_ok (encode i) /\ bsize (encode i) < 2 ^ 63 /\ (length (encode i) < f)%nat) as Hall.
    { intros i Hi. pose proof (flat_map_size l i Hi) as Hsz. split_and!; [|lia|unfold bsize in *; lia].
      rewrite Forall_forall in *. intros b Hb. apply Hpok. apply list_elem_of_In, in_flat_map. exists i. split; by apply list_elem_of_In. }
    clear -IH Hall. induction l as [|i l IHl]; [done|]. cbn [map rmap]. apply Forall_cons in IH as [Hi IH].
    destruct (Hall i) as (H1 & H2 & H3); [by left|]. rewrite Hi by done. cbn [rbind]. rewrite IHl; [done|done|]. intros j Hj. apply Hall. by right.
Qed.

Lemma split_frames p : bytes_ok p -> bsize p < 2 ^ 63 -> forall f ds, split_items f p = Ok ds ->
  p = concat ds /\ Forall (fun d => bytes_ok d /\ bsize d < 2 ^ 63 /\ exists l q, framed d l q []) ds.
Proof.
  revert p. apply (payload_ind (fun p => forall f ds, split_items f p = Ok ds ->
    p = concat ds /\ Forall (fun d => bytes_ok d /\ bsize d < 2 ^ 63 /\ exists l q, framed d l q []) ds)).
  - intros [|f] ds [= <-]; by split.
  - intros d e Hne _ _ E f ds. destruct d; [done|]. destruct f; [done|]. by rewrite (split_throw _ _ e).
  - intros it l q rest Hne Hf Hok Hs E IH f ds. destruct f as [|f]; [destruct it; done|]. rewrite (split_step f it rest _ Hne eq_refl E).
    destruct (split_items f rest) as [ds'| |] eqn:Er; [|done..]. intros [= <-]. destruct (IH f ds' Er) as [Hc Hall]. apply Forall_app in Hok as [Hok _].
    split; [simpl; by f_equal|]. constructor; [|done]. split_and!; [done| |by exists l, q]. rewrite bsize_app in Hs. pose proof (bsize_nonneg rest). lia.
Qed.

Lemma read_item_encode f : forall d l q it, framed d l q [] -> bytes_ok d -> bsize d < 2 ^ 63 -> read_item f d = Ok it -> d = encode it.
Proof.
  induction f as [|f IH]; intros d l q it Hf Hok Hs Hr; [done|]. cbn [read_item] in Hr.
  pose proof (framed_read _ _ _ _ Hf Hok Hs) as [Hl _ _ _ _ _ _ _ _]. rewrite Hl in Hr. destruct l.
  - destruct (list_items _ _ Hf Hok Hs) as [Hi _]. destruct (payload_frame _ _ _ Hf Hok Hs) as (_ & Hqok & Hqs & _). rewrite Hi in Hr.
    destruct (split_items (length q) q) as [ds| |] eqn:Es; [|done..]. cbn [rbind] in Hr. destruct (rmap (read_item f) ds) as [its| |] eqn:Em; [|done..]. injection Hr as <-.
    destruct (split_frames q Hqok Hqs _ _ Es) as [Hq Hall]. assert (ds = map encode its) as Hds.
    { clear -IH Em Hall. revert its Em. induction ds as [|d ds IHds]; intros its Em; [by injection Em as <-|]. cbn [rmap] in Em. apply Forall_cons in Hall as [(H1 & H2 & l & q & H3) Hall].
      destruct (read_item f d) as [i| |] eqn:E; [|done..]. cbn [rbind] in Em. destruct (rmap (read_item f) ds) as [its'| |]; [|done..]. injection Em as <-.
      simpl. f_equal; [by eapply IH|]. by apply IHds. }
    assert (q = flat_map encode its) as -> by (by rewrite Hq, Hds, flat_map_concat_map).
    inversion Hf as [| |p r Hp]; subst. rewrite app_nil_r. done.
  - rewrite (toBytes_frame d q) in Hr by done. injection Hr as <-. by apply frame_encode.
Qed.

Lemma newRLP_inv d d' : bytes_ok d -> bsize d < 2 ^ 63 -> newRLP d VeryStrict = Ok d' -> d' = d /\ (d = [] \/ exists l p, framed d l p []).
Proof.
  intros Hok Hs. destruct (decide (d = [])) as [->|Hne]; [intros [= <-]; split; [done|by left]|]. unfold newRLP. simpl.
  destruct (actualSize_inv d Hok Hs Hne) as [(e & ->)|[(n & En & Hn)|(l & p & rest & Hf)]]; [done|rewrite En; cbn [rbind]| ].
  - destruct (Z.ltb_spec n (bsize d)); [lia|]. cbn [rbind]. rewrite En. cbn [rbind]. destruct (Z.ltb_spec (bsize d) n); [done|lia].
  - pose proof (framed_read _ _ _ _ Hf Hok Hs) as [_ _ _ _ _ _ Hsz _ Ha]. rewrite Ha. cbn [rbind]. pose proof (bsize_nonneg rest).
    destruct (Z.ltb_spec (payloadOffset d + bsize p) (bsize d)); [done|]. cbn [rbind]. rewrite Ha. cbn [rbind].
    destruct (Z.ltb_spec (bsize d) (payloadOffset d + bsize p)); [lia|]. intros [= <-]. split; [done|right]. exists l, p.
    destruct rest; [done|]. rewrite bsize_cons in Hsz. pose proof (bsize_nonneg rest). lia.
Qed.

(** C23: reading inverts writing, exactly: the reader accepts the encoding of every tree of
    items and returns that tree, and it accepts nothing else: every item has a single
    encoding, so that data that was signed or hashed cannot be rewritten. *)
Theorem rlp_bijection d it : bytes_ok d -> bsize d < 2 ^ 63 -> (read_rlp d = Ok it <-> d = encode it).
Proof.
  intros Hok Hs. unfold read_rlp. split.
  - destruct (newRLP d VeryStrict) as [d'| |] eqn:E; [|done..]. destruct (newRLP_inv d d' Hok Hs E) as [-> [->|(l & p & Hf)]]; [done|]. cbn [rbind]. by eapply read_item_encode.
  - intros ->. rewrite (newRLP_frame _ _ _ (encode_framed it Hok) Hok Hs). cbn [rbind]. apply read_encode; [done|done|lia].
Qed.

Lemma rlp_bijection_witness :
  read_rlp (encode (Items [int_item 1024; Items [Data (repeat 9 60)]])) = Ok (Items [int_item 1024; Items [Data (repeat 9 60)]]) /\
  read_rlp [129; 5] = Throw BadRLP.
Proof.
  split; [|reflexivity]. apply rlp_bijection; [|vm_compute; reflexivity|reflexivity].
  apply (bool_decide_unpack (bytes_ok _)); vm_compute; exact I.
Defined.

(** ** Reading stays within the data *)

Lemma split_in_bounds p : bytes_ok p -> bsize p < 2 ^ 63 -> forall f, (length p <= f)%nat -> split_items f p <> OutOfBounds.
Proof.
  revert p. apply (payload_ind (fun p => forall f, (length p <= f)%nat -> split_items f p <> OutOfBounds)).
  - by intros [|f] _.
  - intros d e Hne _ _ E [|f] Hf; [destruct d; simpl in Hf; [done|lia]|]. by rewrite (split_throw f d e).
  - intros it l q rest Hne _ _ _ E IH f Hf. rewrite length_app in Hf. assert (length it <> 0)%nat by (by destruct it). destruct f as [|f]; [lia|].
    rewrite (split_step f it rest _ Hne eq_refl E). specialize (IH f ltac:(lia)). by destruct (split_items f rest).
Qed.

Lemma isInt_in_bounds d l p : framed d l p [] -> bytes_ok d -> bsize d < 2 ^ 63 -> exists b, isInt d = Ok b \/ isInt d = Throw BadRLP.
Proof.
  intros Hf Hok Hs. pose proof (framed_read _ _ _ _ Hf Hok Hs) as [_ _ Hn Hg _ _ _ _ _]. unfold isInt. rewrite Hn, Hg. cbn [rbind].
  destruct d as [|n d]; [done|]. apply Forall_cons in Hok as [Hnb _]. unfold byte_ok in Hnb. change (byte_at (n :: d) 0) with (@Ok Z n). cbn [rbind].
  assert (forall i, 0 <= i -> exists b, (if bsize (n :: d) <=? i then Throw BadRLP else let* b := byte_at (n :: d) i in Ok (negb (b =? 0))) = Ok b \/
    (if bsize (n :: d) <=? i then Throw BadRLP else let* b := byte_at (n :: d) i in Ok (negb (b =? 0))) = Throw BadRLP) as Hat.
  { intros i Hi. destruct (Z.leb_spec (bsize (n :: d)) i); [exists true; by right|]. destruct (byte_at_in (n :: d) i) as (b & -> & _); [lia|]. eexists. by left. }
  consts. destruct (Z.ltb_spec n 128); [eexists; by left|]. destruct (Z.eqb_spec n 128); [eexists; by left|]. destruct (Z.leb_spec n 183); [by apply Hat|].
  destruct (Z.ltb_spec n 192); [apply Hat; lia|]. exists false. by left.
Qed.

Lemma newRLP_in_bounds d : bytes_ok d -> bsize d < 2 ^ 63 -> newRLP d VeryStrict <> OutOfBounds.
Proof.
  intros Hok Hs. destruct (decide (d = [])) as [->|Hne]; [done|]. unfold newRLP. simpl.
  destruct (actualSize_inv d Hok Hs Hne) as [(e & ->)|[(n & En & Hn)|(l & p & rest & Hf)]]; [done|rewrite En; cbn [rbind]|].
  - destruct (n <? bsize d); [done|]. cbn [rbind]. rewrite En. cbn [rbind]. by destruct (bsize d <? n).
  - pose proof (framed_read _ _ _ _ Hf Hok Hs) as [_ _ _ _ _ _ _ _ Ha]. rewrite Ha. cbn [rbind].
    destruct (_ <? _); [done|]. cbn [rbind]. rewrite Ha. cbn [rbind]. by destruct (_ <? _).
Qed.

Lemma read_item_in_bounds f : forall d l p, framed d l p [] -> bytes_ok d -> bsize d < 2 ^ 63 -> (length d < f)%nat -> read_item f d <> OutOfBounds.
Proof.
  induction f as [|f IH]; intros d l p Hf Hok Hs Hl; [lia|]. cbn [read_item]. pose proof (framed_read _ _ _ _ Hf Hok Hs) as [HL _ _ _ _ _ _ _ _]. rewrite HL. destruct l.
  - destruct (list_items _ _ Hf Hok Hs) as [-> _]. destruct (payload_frame _ _ _ Hf Hok Hs) as (_ & Hpok & Hps & Hlt). specialize (Hlt eq_refl).
    destruct (split_items (length p) p) as [ds| |] eqn:E; [|done|by apply split_in_bounds in E]. cbn [rbind]. destruct (split_frames p Hpok Hps _ _ E) as [Hc Hall].
    assert (rmap (read_item f) ds <> OutOfBounds) as Hm; [|by destruct (rmap (read_item f) ds)].
    assert (forall d, d ∈ ds -> (length d <= length p)%nat) as Hle.
    { rewrite Hc. clear. induction ds as [|x ds IH]; [by intros ? ?%not_elem_of_nil|]. intros d [->|Hd]%elem_of_cons; simpl; rewrite length_app; [lia|]. specialize (IH d Hd). lia. }
    assert (length p < f)%nat as Hpf by lia. clear -IH Hall Hle Hpf. induction ds as [|d ds IHds]; [done|]. cbn [rmap]. apply Forall_cons in Hall as [(H1 & H2 & l & q & H3) Hall].
    assert (read_item f d <> OutOfBounds) as Hd by (eapply IH; try done; specialize (Hle d ltac:(by left)); lia).
    destruct (read_item f d); [|done..]. cbn [rbind]. assert (rmap (read_item f) ds <> OutOfBounds) as Hr by (apply IHds; [done|intros x Hx; apply Hle; by right]).
    by destruct (rmap (read_item f) ds).
  - by rewrite (toBytes_frame d p) by done.
Qed.



(** ** Access by index *)

Fixpoint rlp_indexes (d : bytes) (ixs : list Z) (c : IndexCache) : res (list bytes) :=
  match ixs with
  | [] => Ok []
  | i :: ixs => let* (r, c) := rlp_index d i c in let* rs := rlp_indexes d ixs c in Ok (r :: rs)
  end.

Section index.
Context (d p : bytes) (ds : list bytes).
Context (Hpl : payload d = Ok p) (Hok : bytes_ok p) (Hs : bsize p < 2 ^ 63) (Hsplit : split_items (length p) p = Ok ds) (Hlen : (length p <= length d)%nat).

Definition cache_at (k : nat) (c : IndexCache) : Prop :=
  (k <= length ds)%nat /\ c = mkIndexCache (Z.of_nat k) (bsize (concat (take (S k) ds))) (default [] (ds !! k)).

Lemma split_concat : p = concat ds /\ Forall (fun x => x <> []) ds.
Proof using Hpl Hok Hs Hsplit Hlen.
  destruct (split_frames p Hok Hs _ _ Hsplit) as [Hc Hall]. split; [done|]. eapply Forall_impl; [exact Hall|]. intros x (_ & _ & l & q & Hf) ->.
  inversion Hf as [|q' r Hq E|q' r E]; subst; unfold header in *; destruct (_ <? 56); done.
Qed.

Lemma tail_size k : sizeAsEncoded (concat (drop k ds)) = Ok (bsize (default [] (ds !! k))) /\
  cropped (concat (drop k ds)) 0 (bsize (default [] (ds !! k))) = default [] (ds !! k).
Proof using Hpl Hok Hs Hsplit Hlen.
  destruct (split_frames p Hok Hs _ _ Hsplit) as [Hc Hall]. destruct (ds !! k) as [x|] eqn:Ek.
  - rewrite (drop_S ds x k Ek). simpl. rewrite Forall_forall in Hall. destruct (Hall x) as (H1 & H2 & l & q & Hf); [by eapply list_elem_of_lookup_2|].
    rewrite <- (take_drop_middle ds k x Ek) in Hc. rewrite concat_app in Hc. simpl in Hc. rewrite Hc in Hok, Hs. apply Forall_app in Hok as [_ Hok'].
    rewrite bsize_app in Hs. pose proof (bsize_nonneg (concat (take k ds))). split; [eapply sizeAsEncoded_frame; try done; lia|]. apply cropped_all.
  - apply lookup_ge_None in Ek. rewrite drop_ge by lia. done.
Qed.

Lemma count_items : (length ds <= length p)%nat.
Proof using Hpl Hok Hs Hsplit Hlen.
  destruct split_concat as [-> Hne]. clear -Hne. induction ds as [|x l IH]; [done|]. apply Forall_cons in Hne as [Hx Hne]. simpl. rewrite length_app. specialize (IH Hne).
  destruct x; [done|simpl; lia].
Qed.

Lemma index_loop_spec : forall f k i c, cache_at k c -> Z.of_nat k <= i -> (length ds - k < f)%nat ->
  exists c', index_loop f d i c = Ok c' /\ cache_at (Nat.min (Z.to_nat i) (length ds)) c'.
Proof using Hpl Hok Hs Hsplit Hlen.
  destruct split_concat as [Hc Hne]. induction f as [|f IH]; intros k i c [Hk ->] Hi Hf; [lia|]. cbn [index_loop]. cbn [m_lastIndex m_lastItem m_lastEnd].
  destruct (Z.ltb_spec (Z.of_nat k) i) as [Hlt|Hge].
  2: { cbn [andb]. eexists. split; [done|]. split; [lia|]. by replace (Nat.min (Z.to_nat i) (length ds)) with k by lia. }
  destruct (ds !! k) as [x|] eqn:Ek; simpl default.
  - assert (x <> []) as Hx by (rewrite Forall_forall in Hne; apply Hne; by eapply list_elem_of_lookup_2). pose proof (lookup_lt_Some _ _ _ Ek) as Hkl.
    destruct (Z.eqb_spec (bsize x) 0); [destruct x; unfold bsize in *; simpl in *; [done|lia]|]. cbn [andb negb]. rewrite Hpl. cbn [rbind].
    assert (cropped_from p (bsize (concat (take (S k) ds))) = concat (drop (S k) ds)) as ->.
    { rewrite Hc at 1. rewrite <- (take_drop (S k) ds) at 1. rewrite concat_app. apply cropped_from_app. }
    destruct (tail_size (S k)) as [-> Hcr]. cbn [rbind]. rewrite Hcr. apply (IH (S k)); [|lia|lia]. split; [lia|].
    f_equal; [lia|]. destruct (ds !! S k) as [y|] eqn:Ey; simpl.
    + rewrite (take_S_r ds (S k) y Ey), concat_app, bsize_app. simpl. by rewrite app_nil_r.
    + apply lookup_ge_None in Ey. rewrite !take_ge by lia. change (bsize []) with 0. lia.
  - apply lookup_ge_None in Ek. change (bsize []) with 0. cbn [andb negb Z.eqb]. eexists. split; [done|]. split; [lia|].
    replace (Nat.min (Z.to_nat i) (length ds)) with k by lia. by rewrite lookup_ge_None_2 by lia.
Qed.

Lemma rlp_index_spec i c : 0 <= i < 2 ^ 64 -> c = no_cache \/ (exists k, cache_at k c) ->
  exists c', rlp_index d i c = Ok (default [] (ds !! Z.to_nat i), c') /\ (c' = no_cache \/ exists k, cache_at k c').
Proof using Hpl Hok Hs Hsplit Hlen.
  intros Hi Hc. pose proof count_items as Hcount. unfold rlp_index.
  assert (forall x, x = default [] (ds !! Nat.min (Z.to_nat i) (length ds)) -> newRLP x SizeOnly = Ok (default [] (ds !! Z.to_nat i))) as Hfin.
  { intros x ->. destruct (decide (Z.to_nat i < length ds)%nat) as [Hlt|Hge].
    - replace (Nat.min (Z.to_nat i) (length ds)) with (Z.to_nat i) by lia. destruct (lookup_lt_is_Some_2 ds (Z.to_nat i) Hlt) as [x Hx]. rewrite Hx. simpl.
      destruct (split_frames p Hok Hs _ _ Hsplit) as [_ Hall]. rewrite Forall_forall in Hall. destruct (Hall x) as (H1 & H2 & l & q & Hf); [by eapply list_elem_of_lookup_2|].
      pose proof (framed_read _ _ _ _ Hf H1 H2) as [_ _ _ _ _ _ Hsz _ Ha]. change (bsize []) with 0 in Hsz. unfold newRLP. simpl. rewrite Ha. cbn [rbind].
      destruct (Z.ltb_spec (bsize x) (payloadOffset x + bsize q)); [lia|done].
    - rewrite !lookup_ge_None_2 by lia. done. }
  destruct Hc as [->|(k & Hk)].
  - cbn [m_lastIndex no_cache]. destruct (Z.ltb_spec i max_u64) as [Hlt|Hge].
    + rewrite Hpl. cbn [rbind]. destruct (tail_size 0) as [Hz Hcr]. destruct split_concat as [Hc _]. rewrite drop_0, <- Hc in *. rewrite Hz. cbn [rbind]. rewrite Hcr.
      destruct (index_loop_spec (S (length d)) 0 i (mkIndexCache 0 (bsize (default [] (ds !! 0%nat))) (default [] (ds !! 0%nat)))) as (c' & -> & Hc').
      * split; [lia|]. f_equal. destruct ds as [|x l]; simpl; [done|]. by rewrite app_nil_r.
      * lia.
      * lia.
      * cbn [rbind]. pose proof Hc' as [_ Ec]. rewrite (Hfin (m_lastItem c')) by (by rewrite Ec). cbn [rbind]. eexists. split; [done|]. right. by eexists.
    + assert (i = max_u64) as -> by (unfold max_u64 in *; lia). cbn [rbind index_loop m_lastIndex no_cache]. rewrite Z.ltb_irrefl. cbn [andb rbind].
      change (m_lastItem no_cache) with (@nil Z). rewrite (Hfin []) by (rewrite lookup_ge_None_2; [done|unfold bsize, max_u64 in *; lia]). cbn [rbind]. eexists. split; [done|]. by left.
  - pose proof Hk as [Hkl ->]. cbn [m_lastIndex]. destruct (Z.ltb_spec i (Z.of_nat k)) as [Hlt|Hge].
    + rewrite Hpl. cbn [rbind]. destruct (tail_size 0) as [Hz Hcr]. destruct split_concat as [Hc _]. rewrite drop_0, <- Hc in *. rewrite Hz. cbn [rbind]. rewrite Hcr.
      destruct (index_loop_spec (S (length d)) 0 i (mkIndexCache 0 (bsize (default [] (ds !! 0%nat))) (default [] (ds !! 0%nat)))) as (c' & -> & Hc').
      * split; [lia|]. f_equal. destruct ds as [|x l]; simpl; [done|]. by rewrite app_nil_r.
      * lia.
      * lia.
      * cbn [rbind]. pose proof Hc' as [_ Ec]. rewrite (Hfin (m_lastItem c')) by (by rewrite Ec). cbn [rbind]. eexists. split; [done|]. right. by eexists.
    + cbn [rbind]. destruct (index_loop_spec (S (length d)) k i _ Hk) as (c' & -> & Hc'); [lia|lia|].
      cbn [rbind]. pose proof Hc' as [_ Ec]. rewrite (Hfin (m_lastItem c')) by (by rewrite Ec). cbn [rbind]. eexists. split; [done|]. right. by eexists.
Qed.
End index.

(** The cache of the subscript operator is transparent: accesses to a list in any order
    and any number return its items, and null beyond its end. *)
Theorem index_any_order d ds ixs : bytes_ok d -> bsize d < 2 ^ 63 -> newRLP d VeryStrict = Ok d -> isList d = true -> rlp_items d = Ok ds ->
  Forall (fun i => 0 <= i < 2 ^ 64) ixs -> rlp_indexes d ixs no_cache = Ok (map (fun i => default [] (ds !! Z.to_nat i)) ixs).
Proof.
  intros Hok Hs Hn Hl Hds His. destruct (newRLP_inv d d Hok Hs Hn) as [_ [->|(l & p & Hf)]]; [done|].
  pose proof (framed_read _ _ _ _ Hf Hok Hs) as [HL _ _ _ _ _ _ _ _]. rewrite Hl in HL. subst l. destruct (list_items _ _ Hf Hok Hs) as [Hi _]. rewrite Hi in Hds.
  destruct (payload_frame _ _ _ Hf Hok Hs) as (Hp & Hpok & Hps & Hlt). specialize (Hlt eq_refl).
  assert (forall ixs c, Forall (fun i => 0 <= i < 2 ^ 64) ixs -> c = no_cache \/ (exists k, cache_at ds k c) -> rlp_indexes d ixs c = Ok (map (fun i => default [] (ds !! Z.to_nat i)) ixs)) as H.
  { clear ixs His. induction ixs as [|i ixs IH]; intros c His Hc; [done|]. apply Forall_cons in His as [Hii His]. cbn [rlp_indexes map].
    destruct (rlp_index_spec d p ds Hp Hpok Hps Hds ltac:(lia) i c Hii Hc) as (c' & -> & Hc'). cbn [rbind]. by rewrite IH. }
  apply H; [done|by left].
Qed.

Definition ex_list : list item := [int_item 5; int_item 300; Data [7]].

Lemma index_any_order_witness :
  rlp_indexes (encode (Items ex_list)) [2; 0; 9; 1] no_cache = Ok (map (fun i => default [] (map encode ex_list !! Z.to_nat i)) [2; 0; 9; 1]).
Proof.
  apply index_any_order; [|vm_compute; reflexivity..|].
  - apply (bool_decide_unpack (bytes_ok _)); vm_compute; exact I.
  - repeat constructor; lia.
Defined.
