(* ===== verification/RlpCodec.v ===== *)
(** * Encodings of fields and tuples

    The functions [rlp] of common/encoding_rlp.hpp: how the fields of a type are written to
    a stream and read back, for numbers, hashes, bytes, sequences, optional fields and
    tuples.  A [Codec] is the pair of functions of a type, and [CodecOk] the law that both
    agree on one item. *)

From S2P Require Import Prelude Rlp RlpStream RlpRead RlpItems.
Local Open Scope Z_scope.
Local Open Scope rlp_scope.
#[local] Hint Resolve bsize_nonneg : core.

Record Codec (A : Type) := mkCodec {
  c_enc : RLPStream -> A -> res RLPStream;
  c_dec : bytes -> Strictness -> res A;
  c_default : A;
}.
Arguments mkCodec {A}.
Arguments c_enc {A}.
Arguments c_dec {A}.
Arguments c_default {A}.

Definition small (it : item) : Prop := bytes_ok (encode it) /\ bsize (encode it) < 2 ^ 63.

(** Values that satisfy [ok] are the item [f]. *)
Class CodecOk {A} (c : Codec A) (f : A -> item) (ok : A -> Prop) : Prop := {
  enc_item s a : ok a -> small (f a) -> c_enc c s a = stream_item s (f a);
  dec_item a st : ok a -> small (f a) -> c_dec c (encode (f a)) st = Ok a;
}.

(** ** Fields *)

(** An unsigned integer of [w] bits. *)
Definition uint (w : Z) : Codec Z := mkCodec append_int_ (toInt w) 0.
Definition hash (n : nat) : Codec bytes := mkCodec (fun s h => append s h false) (toHash n) (replicate n 0).
Definition bytes_codec : Codec bytes := mkCodec (fun s b => append s b false) toBytes [].

(** [std::optional]. *)
Definition optional {A} (c : Codec A) : Codec (option A) :=
  mkCodec
    (fun s o => match o with Some a => c_enc c s a | None => append_int_ s 0 end)
    (fun d st => if isNull d || isEmpty d then Ok None else let* a := c_dec c d st in Ok (Some a))
    None.

(** Range-based [for] loops and [std::transform] over the items: the body runs on an item
    before the iterator is advanced. *)
Fixpoint for_loop {A} (f : bytes -> res A) (fuel : nat) (it : iterator) : res (list A) :=
  if it_eqb it it_end then Ok []
  else
    match fuel with
    | O => OutOfBounds
    | S fuel =>
        let* item := it_deref it in
        let* a := f item in
        let* it := it_next it in
        let* l := for_loop f fuel it in
        Ok (a :: l)
    end.
Definition rlp_for {A} (f : bytes -> res A) (d : bytes) : res (list A) := let* it := it_begin d in for_loop f (length d) it.

(** Sequences. *)
Definition sequence {A} (c : Codec A) : Codec (list A) :=
  mkCodec
    (fun s l => let* s := appendList s (Z.of_nat (length l)) in rfold (c_enc c) l s)
    (fun d st => rlp_for (fun d => c_dec c d st) d)
    [].

(** ** Tuples *)

Record TupleCodec (A : Type) := mkTupleCodec {
  t_size : nat;
  t_enc : RLPStream -> A -> res RLPStream;
  t_dec : iterator -> Strictness -> res A;
  t_default : A;
}.
Arguments mkTupleCodec {A}.
Arguments t_size {A}.
Arguments t_enc {A}.
Arguments t_dec {A}.
Arguments t_default {A}.

Definition tuple1 {A} (c : Codec A) : TupleCodec A :=
  mkTupleCodec 1 (c_enc c)
    (fun it st => if it_eqb it it_end then Ok (c_default c) else let* d := it_deref it in c_dec c d st)
    (c_default c).

Definition tuple_cons {A B} (c : Codec A) (t : TupleCodec B) : TupleCodec (A * B) :=
  mkTupleCodec (S (t_size t))
    (fun s ab => let* s := c_enc c s ab.1 in t_enc t s ab.2)
    (fun it st =>
       if it_eqb it it_end then Ok (c_default c, t_default t)
       else
         let* d := it_deref it in
         let* a := c_dec c d st in
         let* it := it_next it in
         let* b := t_dec t it st in
         Ok (a, b))
    (c_default c, t_default t).
Infix "&:" := tuple_cons (at level 60, right associativity) : rlp_scope.

Definition rlp_tuple {A} (t : TupleCodec A) : Codec A :=
  mkCodec
    (fun s a => let* s := appendList s (Z.of_nat (t_size t)) in t_enc t s a)
    (fun d st =>
       let* n := itemCount d in
       if negb (n =? Z.of_nat (t_size t)) then Throw InvalidEncodingSize
       else let* it := it_begin d in t_dec t it st)
    (t_default t).

(** [rlp_enc] and [rlp_dec]. *)
Definition rlp_enc {A} (c : Codec A) (a : A) : res bytes := let* s := c_enc c newRLPStream a in stream_out s.

Class TupleOk {A} (t : TupleCodec A) (fs : A -> list item) (ok : A -> Prop) : Prop := {
  t_length a : length (fs a) = t_size t;
  t_enc_items s a : ok a -> Forall small (fs a) -> t_enc t s a = rfold stream_item (fs a) s;
  t_dec_items a i its st : ok a -> fs a = i :: its -> Forall small (fs a) -> bytes_ok (flat_map encode (fs a)) -> bsize (flat_map encode (fs a)) < 2 ^ 63 ->
    t_dec t (mkIterator (encode i ++ flat_map encode its) (bsize (encode i)) (bsize (flat_map encode its))) st = Ok a;
}.

(** ** The laws of the fields *)

Lemma small_Items l : small (Items l) -> Forall small l.
Proof.
  intros [Hok Hs]. cbn [encode] in *. apply Forall_app in Hok as [_ Hok]. rewrite bsize_app in Hs. pose proof (bsize_nonneg (header 192 247 (bsize (flat_map encode l)))).
  apply Forall_forall. intros i Hi. pose proof (flat_map_size l i Hi). split; [|lia]. rewrite Forall_forall in *. intros b Hb. apply Hok.
  apply list_elem_of_In, in_flat_map. exists i. split; by apply list_elem_of_In.
Qed.

Lemma encode_inj i j : small i -> small j -> encode i = encode j -> i = j.
Proof.
  intros [Hi Hsi] [Hj Hsj] E. pose proof (read_encode i Hi Hsi _ (Nat.lt_succ_diag_r _)) as H1. pose proof (read_encode j Hj Hsj _ (Nat.lt_succ_diag_r _)) as H2. rewrite E in H1. congruence.
Qed.

Lemma Ok_encode_inj i j : small i -> small j -> Ok (encode i) = Ok (encode j) -> i = j.
Proof. intros Hi Hj E. apply encode_inj; [done|done|]. exact (f_equal (fun r => match r with Ok d => d | _ => [] end) E). Qed.

Lemma stream_item_data s d : small (Data d) -> append s d false = stream_item s (Data d).
Proof. done. Qed.

Lemma uint_ok w : 8 <= w <= 256 -> w mod 8 = 0 -> CodecOk (uint w) int_item (fun i => 0 <= i < 2 ^ w).
Proof.
  intros Hw Hm. assert (w = 8 * (w / 8)) as Hw8 by (pose proof (Z.div_mod w 8 ltac:(lia)); lia).
  assert (forall i, 0 <= i < 2 ^ w -> bsize (pushInt i) <= w / 8) as Hsz.
  { intros i Hi. apply pushInt_size; [|apply Z.div_pos; lia]. change 256 with (2 ^ 8). rewrite <- Z.pow_mul_r, <- Hw8 by lia. done. }
  assert (w / 8 <= 32) as H32 by (apply Z.div_le_upper_bound; lia). split.
  - intros s i Hi [Hok Hs]. cbn [uint c_enc]. specialize (Hsz i Hi). rewrite append_int_encode, stream_item_note by lia. done.
  - intros i st Hi [Hok Hs]. specialize (Hsz i Hi). destruct (pushInt_spec i ltac:(lia)) as (Hv & Hb & Hz & Hne). cbn [uint c_dec]. pose proof (encode_framed (int_item i) Hok) as Hf.
    cbn [int_item item_list item_payload] in Hf. pose proof (framed_read _ _ _ _ Hf Hok Hs) as [HL HD HN HG Hlen Ho Hsize _ _]. destruct (payload_frame _ _ _ Hf Hok Hs) as (Hp & _ & _ & _).
    unfold toInt. rewrite HG. cbn [rbind].
    assert (isInt (encode (int_item i)) = Ok true) as ->.
    { unfold isInt. rewrite HN, HG. cbn [rbind int_item encode]. unfold encode_data. destruct (pushInt i) as [|b [|c l]] eqn:E; [done| |].
      - simpl in Hz. apply Forall_cons in Hb as [Hb _]. unfold byte_ok in Hb. destruct (Z.ltb_spec b 128); cbn [byte_at lookup]; unfold byte_at; simpl; consts.
        + destruct (Z.ltb_spec b 128); [|lia]. destruct (Z.eqb_spec b 0); [lia|done].
        + destruct (Z.eqb_spec b 0); [lia|]. done.
      - rewrite header_short by (split; [done|]; lia). simpl in Hz. unfold byte_at. simpl. consts. set (n := 128 + bsize (b :: c :: l)).
        assert (130 <= n <= 160) as Hn by (subst n; rewrite !bsize_cons in *; pose proof (bsize_nonneg l); lia). destruct (Z.ltb_spec n 128); [lia|]. destruct (Z.eqb_spec n 128); [lia|].
        destruct (Z.leb_spec n 183); [|lia]. rewrite !bsize_cons. pose proof (bsize_nonneg l). destruct (Z.leb_spec (1 + (1 + (1 + bsize l))) 1); [lia|]. cbn. rewrite (proj2 (Z.eqb_neq b 0)) by lia. by case_match. }
    cbn [rbind]. rewrite HL, HN. cbn [negb andb orb]. rewrite Hp. cbn [rbind].
    destruct (Z.ltb_spec (w / 8) (bsize (pushInt i))); [lia|]. cbn [andb]. f_equal. rewrite fromBigEndian_spec, Hv by (done || lia). apply wrap_id. done.
Qed.

Lemma hash_ok n : CodecOk (hash n) Data (fun h => length h = n).
Proof.
  split.
  - done.
  - intros h st Hn [Hok Hs]. cbn [hash c_dec]. pose proof (encode_framed (Data h) Hok) as Hf. cbn [item_list item_payload] in Hf.
    pose proof (framed_read _ _ _ _ Hf Hok Hs) as [HL HD HN HG Hlen _ _ _ _]. destruct (payload_frame _ _ _ Hf Hok Hs) as (Hp & _ & _ & _).
    unfold toHash. rewrite HG, Hp. cbn [rbind]. rewrite HD, Hn, !bool_decide_false by lia. cbn [negb andb orb]. rewrite Nat.min_id, Nat.sub_diag. simpl.
    by rewrite <- Hn, firstn_all.
Qed.

Lemma bytes_codec_ok : CodecOk bytes_codec Data (fun _ => True).
Proof.
  split; [done|]. intros b st _ [Hok Hs]. cbn [bytes_codec c_dec]. apply toBytes_frame; try done. by apply (encode_framed (Data b)).
Qed.

(** What an optional field may hold, for the reader not to take it for none. *)
Definition not_empty {A} (f : A -> item) (ok : A -> Prop) : Prop := forall a, ok a -> small (f a) -> isEmpty (encode (f a)) = false.

Lemma optional_ok {A} (c : Codec A) f ok : CodecOk c f ok -> not_empty f ok ->
  CodecOk (optional c) (fun o => match o with Some a => f a | None => Data [] end) (fun o => match o with Some a => ok a | None => True end).
Proof.
  intros [He Hd] Hn. split.
  - intros s [a|] Ho Hs; cbn [optional c_enc]; [by apply He|]. rewrite append_int_encode, stream_item_note by (vm_compute; done). done.
  - intros [a|] st Ho Hs; cbn [optional c_dec].
    + rewrite (Hn a Ho Hs). assert (isNull (encode (f a)) = false) as ->. { destruct (encode (f a)) as [|b d] eqn:E; [by apply encode_nonempty in E|apply isNull_cons]. }
      cbn [orb]. rewrite Hd by done. done.
    + done.
Qed.

Lemma data_not_empty d : d <> [] -> small (Data d) -> isEmpty (encode (Data d)) = false.
Proof.
  intros Hne [Hok Hs]. cbn [encode] in *. unfold encode_data in *. destruct d as [|b [|c d]]; [done| |].
  - destruct (Z.ltb_spec b 128); unfold isEmpty; consts; [|done]. destruct (Z.eqb_spec b 128), (Z.eqb_spec b 192); lia || done.
  - set (n := bsize (b :: c :: d)) in *. rewrite bsize_app in Hs. fold n in Hs. pose proof (bsize_nonneg (header 128 183 n)).
    assert (2 <= n) as Hn by (subst n; rewrite !bsize_cons; pose proof (bsize_nonneg d); lia). clear Hok. clearbody n. unfold header in *. destruct (Z.ltb_spec n 56) as [Hlt|Hge]; cbn [app isEmpty]; consts.
    + destruct (Z.eqb_spec (128 + n) 128), (Z.eqb_spec (128 + n) 192); lia || done.
    + pose proof (pushInt_size n 8 ltac:(change (256 ^ 8) with (2 ^ 64); lia) ltac:(lia)). destruct (pushInt_spec n ltac:(lia)) as (_ & _ & _ & Hv).
      assert (0 < bsize (pushInt n)) as Hp. { specialize (Hv ltac:(lia)). destruct (pushInt n) as [|x l]; [done|]. rewrite bsize_cons. pose proof (bsize_nonneg l). lia. }
      destruct (Z.eqb_spec (183 + bsize (pushInt n)) 128), (Z.eqb_spec (183 + bsize (pushInt n)) 192); lia || done.
Qed.

(** Numbers other than zero, and hashes. *)
Lemma uint_pos_ok w : 8 <= w <= 256 -> w mod 8 = 0 -> CodecOk (uint w) int_item (fun i => 0 < i < 2 ^ w).
Proof. intros Hw Hm. destruct (uint_ok w Hw Hm) as [He Hd]. split; intros; [apply He|apply Hd]; done || lia. Qed.

Lemma rlp_for_items {A} (f : bytes -> res A) d ds : rlp_items d = Ok ds -> rlp_for f d = rmap f ds.
Proof.
  unfold rlp_items, rlp_for. destruct (it_begin d) as [it| |]; [|done..]. cbn [rbind]. revert it ds. generalize (length d). intros fuel.
  induction fuel as [|fuel IH]; intros it ds; cbn [iterate_loop for_loop]; destruct (it_eqb it it_end); try (by intros [= <-]).
  destruct (it_deref it) as [i| |]; [|done..]. cbn [rbind]. destruct (it_next it) as [it'| |]; [|done..]. cbn [rbind].
  destruct (iterate_loop fuel it') as [l| |] eqn:E; [|done..]. intros [= <-]. cbn [rmap]. by rewrite (IH _ _ E).
Qed.

Lemma sequence_ok {A} (c : Codec A) f ok : CodecOk c f ok -> CodecOk (sequence c) (fun l => Items (map f l)) (Forall ok).
Proof.
  intros [He Hd]. split.
  - intros s l Hl Hs. cbn [sequence c_enc stream_item]. assert (bsize (map (fun _ => 0) (map f l)) = Z.of_nat (length l)) as -> by (unfold bsize; by rewrite !length_map).
    destruct (appendList s (Z.of_nat (length l))) as [s'| |]; [|done..]. cbn [rbind]. apply small_Items in Hs. revert s'.
    induction l as [|a l IH]; intros s'; [done|]. cbn [map rfold] in *. apply Forall_cons in Hl as [Ha Hl]. apply Forall_cons in Hs as [Hsa Hs]. rewrite He by done.
    destruct (stream_item s' (f a)); [|done..]. cbn [rbind]. by apply IH.
  - intros l st Hl Hs. cbn [sequence c_dec]. pose proof Hs as [Hok Hsz]. pose proof (encode_framed _ Hok) as Hf. cbn [item_list item_payload] in Hf.
    destruct (list_items _ _ Hf Hok Hsz) as [Hi _]. destruct (payload_frame _ _ _ Hf Hok Hsz) as (_ & Hpok & Hps & _). rewrite split_encode in Hi by done. rewrite (rlp_for_items _ _ _ Hi).
    apply small_Items in Hs. clear -Hl Hs Hd. induction l as [|a l IH]; [done|]. cbn [map rmap] in *. apply Forall_cons in Hl as [Ha Hl]. apply Forall_cons in Hs as [Hsa Hs].
    rewrite Hd by done. cbn [rbind]. by rewrite IH.
Qed.

(** ** The laws of tuples *)

Lemma deref_item i rest n : small i -> n = bsize (encode i) -> forall r, it_eqb (mkIterator (encode i ++ rest) n r) it_end = false /\ it_deref (mkIterator (encode i ++ rest) n r) = Ok (encode i).
Proof.
  intros [Hok Hs] -> r. split.
  - unfold it_eqb. simpl. rewrite bsize_app. destruct (encode i) as [|b d] eqn:E; [by apply encode_nonempty in E|]. rewrite bsize_cons. pose proof (bsize_nonneg d). pose proof (bsize_nonneg rest).
    change (bsize []) with 0. destruct (Z.eqb_spec (1 + bsize d + bsize rest) 0); [lia|done].
  - unfold it_deref, m_currentItem. simpl. assert (Z.to_nat (bsize (encode i)) = length (encode i)) as -> by (unfold bsize; lia). rewrite take_app_length.
    eapply newRLP_frame; [by apply encode_framed|done|done].
Qed.

(** The iterator at the first of the items that are left. *)
Definition iter_at (l : list item) : iterator :=
  match l with i :: its => mkIterator (encode i ++ flat_map encode its) (bsize (encode i)) (bsize (flat_map encode its)) | [] => mkIterator [] 0 0 end.

Definition fits (l : list item) : Prop := Forall small l /\ bytes_ok (flat_map encode l) /\ bsize (flat_map encode l) < 2 ^ 63.

Lemma fits_cons i l : fits (i :: l) -> small i /\ fits l.
Proof.
  intros ([Hi Hl]%Forall_cons & Hok & Hs). cbn [flat_map] in *. apply Forall_app in Hok as [_ Hok]. rewrite bsize_app in Hs. pose proof (bsize_nonneg (encode i)). split; [done|]. split_and!; [done|done|lia].
Qed.

Lemma first_size i l : fits (i :: l) -> sizeAsEncoded (encode i ++ flat_map encode l) = Ok (bsize (encode i)).
Proof. intros ([[Hi _] _]%Forall_cons & Hok & Hs). eapply sizeAsEncoded_frame; [by apply encode_framed|done|done]. Qed.

Lemma it_next_items i l : fits (i :: l) -> it_next (iter_at (i :: l)) = Ok (iter_at l).
Proof.
  intros Hf. destruct (fits_cons i l Hf) as [Hi Hl]. unfold it_next. cbn [iter_at it_remaining it_rest it_count].
  assert (Z.to_nat (bsize (encode i)) = length (encode i)) as -> by (unfold bsize; lia). rewrite drop_app_length. destruct l as [|j its]; [done|].
  pose proof (first_size j its Hl) as Hsz. set (p := flat_map encode (j :: its)). assert (p = encode j ++ flat_map encode its) as Ep by done.
  destruct (Z.eqb_spec (bsize p) 0) as [E0|_]; [rewrite Ep, bsize_app in E0; pose proof (encode_nonempty j); destruct (encode j); [done|rewrite bsize_cons in E0; unfold bsize in *; lia]|].
  assert (Z.to_nat (bsize p) = length p) as -> by (unfold bsize; lia). rewrite firstn_all, Ep, Hsz. cbn [rbind]. rewrite cropped_all, bsize_app.
  rewrite Z.min_r by (pose proof (bsize_nonneg (flat_map encode its)); lia). by replace (bsize (encode j) + bsize (flat_map encode its) - bsize (encode j)) with (bsize (flat_map encode its)) by lia.
Qed.

Lemma it_deref_items i l : fits (i :: l) -> it_eqb (iter_at (i :: l)) it_end = false /\ it_deref (iter_at (i :: l)) = Ok (encode i).
Proof. intros Hf. destruct (fits_cons i l Hf) as [Hi _]. by apply deref_item. Qed.

Lemma small_fits l : small (Items l) -> fits l.
Proof.
  intros Hs. pose proof (small_Items _ Hs) as Hi. destruct Hs as [Hok Hs]. pose proof (encode_framed _ Hok) as Hf. cbn [item_list item_payload] in Hf.
  destruct (payload_frame _ _ _ Hf Hok Hs) as (_ & Hpok & Hps & _). by split_and!.
Qed.

Lemma it_begin_items i l : small (Items (i :: l)) -> it_begin (encode (Items (i :: l))) = Ok (iter_at (i :: l)).
Proof.
  intros Hs. pose proof (small_fits _ Hs) as Hft. destruct Hs as [Hok Hs]. pose proof (encode_framed _ Hok) as Hf. cbn [item_list item_payload] in Hf. destruct (payload_frame _ _ _ Hf Hok Hs) as (Hp & _).
  pose proof (framed_read _ _ _ _ Hf Hok Hs) as [HL _ _ _ _ Ho _ _ _]. rewrite app_nil_r in Ho. unfold it_begin. rewrite HL, Hp. cbn [rbind flat_map]. rewrite (first_size i l Hft). cbn [rbind].
  rewrite cropped_all, Ho. cbn [flat_map]. rewrite bsize_app. by replace (bsize (encode i) + bsize (flat_map encode l) - bsize (encode i)) with (bsize (flat_map encode l)) by lia.
Qed.

Lemma tuple1_ok {A} (c : Codec A) f ok : CodecOk c f ok -> TupleOk (tuple1 c) (fun a => [f a]) ok.
Proof.
  intros [He Hd]. split; [done| |].
  - intros s a Ha Hs. cbn [tuple1 t_enc rfold]. apply Forall_inv in Hs. rewrite He by done. by rewrite rbind_ok.
  - intros a i its st Ha [= <- <-] Hs _ _. apply Forall_inv in Hs. cbn [tuple1 t_dec]. destruct (deref_item (f a) (flat_map encode []) _ Hs eq_refl (bsize (flat_map encode []))) as [-> ->].
    cbn [rbind]. by apply Hd.
Qed.

Lemma tuple_cons_ok {A B} (c : Codec A) f ok (t : TupleCodec B) fs okt : CodecOk c f ok -> TupleOk t fs okt -> (0 < t_size t)%nat ->
  TupleOk (c &: t) (fun ab => f ab.1 :: fs ab.2) (fun ab => ok ab.1 /\ okt ab.2).
Proof.
  intros [He Hd] [Hl Hte Htd] Ht. split.
  - intros [a b]. simpl. by rewrite Hl.
  - intros s [a b] [Ha Hb] Hs. simpl in *. apply Forall_cons in Hs as [Hsa Hs]. rewrite He by done. destruct (stream_item s (f a)); [|done..]. cbn [rbind]. by apply Hte.
  - intros [a b] i its st [Ha Hb] Hi Hs Hok1 Hs1. cbn [fst snd] in *. injection Hi as <- <-. pose proof Hs as [Hsa Hsb]%Forall_cons. cbn [tuple_cons t_dec].
    destruct (deref_item (f a) (flat_map encode (fs b)) _ Hsa eq_refl (bsize (flat_map encode (fs b)))) as [-> ->]. cbn [rbind]. rewrite Hd by done. cbn [rbind].
    specialize (Hl b). destruct (fs b) as [|j its] eqn:Ej; [simpl in Hl; lia|]. assert (fits (f a :: j :: its)) as Hft by (by split_and!).
    pose proof (it_next_items _ _ Hft) as Hnx. cbn [iter_at] in Hnx. rewrite Hnx. cbn [rbind]. destruct (fits_cons _ _ Hft) as [_ (Hx1 & Hx2 & Hx3)]. cbn [iter_at]. rewrite (Htd b j its st Hb Ej); [done|by rewrite Ej..].
Qed.

Lemma rlp_tuple_ok {A} (t : TupleCodec A) fs ok : TupleOk t fs ok -> (0 < t_size t)%nat -> CodecOk (rlp_tuple t) (fun a => Items (fs a)) ok.
Proof.
  intros [Hl He Hd] Ht. split.
  - intros s a Ha Hs. cbn [rlp_tuple c_enc stream_item]. assert (bsize (map (fun _ => 0) (fs a)) = Z.of_nat (t_size t)) as -> by (unfold bsize; by rewrite length_map, Hl).
    destruct (appendList s (Z.of_nat (t_size t))); [|done..]. cbn [rbind]. apply He; [done|by apply small_Items].
  - intros a st Ha Hs. pose proof (small_Items _ Hs) as Hsi. destruct Hs as [Hok Hs]. cbn [rlp_tuple c_dec]. pose proof (encode_framed _ Hok) as Hf. cbn [item_list item_payload] in Hf.
    destruct (list_items _ _ Hf Hok Hs) as [_ ->]. destruct (payload_frame _ _ _ Hf Hok Hs) as (Hp & Hpok & Hps & _). rewrite split_encode by done. cbn [rbind]. rewrite length_map, Hl, Z.eqb_refl. cbn [negb].
    specialize (Hl a). destruct (fs a) as [|i its] eqn:Ei; [simpl in Hl; lia|]. rewrite it_begin_items by done. cbn [rbind iter_at]. apply (Hd a i its st Ha Ei); by rewrite Ei.
Qed.

(** ** Round trips *)

(** What [rlp_enc] writes is the encoding of the item, and reading it gives the value. *)
Lemma codec_roundtrip {A} (c : Codec A) f ok a st : CodecOk c f ok -> ok a -> small (f a) ->
  rlp_enc c a = Ok (encode (f a)) /\ newRLP (encode (f a)) VeryStrict = Ok (encode (f a)) /\ c_dec c (encode (f a)) st = Ok a.
Proof.
  intros [He Hd] Ha Hs. pose proof Hs as [Hok Hsz]. split_and!; [|by eapply newRLP_frame; [apply encode_framed|..]|by apply Hd].
  unfold rlp_enc. rewrite He, stream_item_note by (done || lia). done.
Qed.

(** A list field that is a string is read as the empty list, also in strict mode. *)
Lemma sequence_of_data {A} (c : Codec A) d st : isList d = false -> c_dec (sequence c) d st = Ok [].
Proof. intros Hl. cbn [sequence c_dec]. unfold rlp_for, it_begin. rewrite Hl. cbn [rbind]. by destruct (length d). Qed.

(** ** Raw items and access by index *)

Lemma raw_item s it : small it -> appendRaw s (encode it) 1 = stream_item s it.
Proof. intros [Hok Hs]. rewrite stream_item_note by lia. done. Qed.

Lemma appendList_items s l n : n = Z.of_nat (length l) -> (let* s := appendList s n in rfold stream_item l s) = stream_item s (Items l).
Proof. intros ->. cbn [stream_item]. unfold bsize. by rewrite length_map. Qed.

(** [rlp[i]] with the cache of a new reader; any other state of the cache gives the same. *)
Definition rlp_at (d : bytes) (i : Z) : res bytes := let* (r, _) := rlp_index d i no_cache in Ok r.

Lemma rlp_at_encode l (i : nat) it : small (Items l) -> l !! i = Some it -> rlp_at (encode (Items l)) (Z.of_nat i) = Ok (encode it).
Proof.
  intros [Hok Hs] Hi. pose proof (encode_framed _ Hok) as Hf. cbn [item_list item_payload] in Hf. destruct (payload_frame _ _ _ Hf Hok Hs) as (Hp & Hpok & Hps & Hlt). specialize (Hlt eq_refl).
  pose proof (split_encode l Hpok Hps (length (flat_map encode l)) ltac:(lia)) as Hsp. pose proof (count_items (encode (Items l)) _ _ Hp Hpok Hps Hsp ltac:(lia)) as Hc. rewrite length_map in Hc.
  pose proof (lookup_lt_Some _ _ _ Hi) as Hlen. unfold bsize in Hps.
  destruct (rlp_index_spec _ _ _ Hp Hpok Hps Hsp ltac:(lia) (Z.of_nat i) no_cache) as (c' & E & _); [lia|by left|].
  unfold rlp_at. rewrite E. cbn [rbind]. rewrite Nat2Z.id, list_lookup_fmap, Hi. done.
Qed.

Lemma rlp_at_item l i (n : nat) it : small (Items l) -> l !! n = Some it -> i = Z.of_nat n -> rlp_at (encode (Items l)) i = Ok (encode it).
Proof. intros Hs Hi ->. by apply rlp_at_encode. Qed.

Lemma itemCount_encode l : small (Items l) -> itemCount (encode (Items l)) = Ok (Z.of_nat (length l)) /\ rlp_items (encode (Items l)) = Ok (map encode l).
Proof.
  intros [Hok Hs]. pose proof (encode_framed _ Hok) as Hf. cbn [item_list item_payload] in Hf. destruct (list_items _ _ Hf Hok Hs) as [-> ->].
  destruct (payload_frame _ _ _ Hf Hok Hs) as (_ & Hpok & Hps & _). rewrite split_encode by done. cbn [rbind]. by rewrite length_map.
Qed.

Lemma rlp_for_encode {A} (f : bytes -> res A) l : small (Items l) -> rlp_for f (encode (Items l)) = rmap f (map encode l).
Proof. intros Hs. apply rlp_for_items. by apply itemCount_encode. Qed.

Lemma newRLP_encode it : small it -> newRLP (encode it) VeryStrict = Ok (encode it).
Proof. intros [Hok Hs]. eapply newRLP_frame; [by apply encode_framed|done|done]. Qed.

Lemma stream_out_item it : small it -> (let* s := stream_item newRLPStream it in stream_out s) = Ok (encode it).
Proof. intros [Hok Hs]. rewrite stream_item_note by lia. done. Qed.

(** Writing numbers and hashes. *)
Lemma append_int_item s w i : 8 <= w <= 256 -> w mod 8 = 0 -> 0 <= i < 2 ^ w -> small (int_item i) -> append_int_ s i = stream_item s (int_item i).
Proof. intros Hw Hm Hi Hs. by apply (@enc_item _ (uint w) _ _ (uint_ok w Hw Hm)). Qed.

(** Reading numbers and hashes with any flags. *)
Lemma toInt_item w i st : 8 <= w <= 256 -> w mod 8 = 0 -> 0 <= i < 2 ^ w -> small (int_item i) -> toInt w (encode (int_item i)) st = Ok i.
Proof. intros Hw Hm Hi Hs. by apply (@dec_item _ (uint w) _ _ (uint_ok w Hw Hm)). Qed.
Lemma toHash_item n h st : length h = n -> small (Data h) -> toHash n (encode (Data h)) st = Ok h.
Proof. intros Hn Hs. by apply (@dec_item _ (hash n) _ _ (hash_ok n)). Qed.

(** ** Writing item by item *)

(** A program that appends the items of a list one after the other. *)
Lemma write_list l n (K : RLPStream -> res bytes) : small (Items l) -> n = Z.of_nat (length l) -> (forall s, K s = let* s := rfold stream_item l s in stream_out s) ->
  (let* s := appendList newRLPStream n in K s) = Ok (encode (Items l)).
Proof.
  intros Hs Hn HK. rewrite <- (stream_out_item _ Hs), <- (appendList_items _ _ n Hn). destruct (appendList newRLPStream n) as [s| |]; [|done..]. cbn [rbind]. apply HK.
Qed.

Lemma rbind_assoc {A B C} (m : res A) (f : A -> res B) (g : B -> res C) : rbind (rbind m f) g = rbind m (fun a => rbind (f a) g).
Proof. by destruct m. Qed.

Section write.
Context {B : Type} (l : list item) (K k : RLPStream -> res B).
Hypothesis rest : forall s, K s = let* s := rfold stream_item l s in k s.

Lemma write_item s it : (let* s := stream_item s it in K s) = let* s := rfold stream_item (it :: l) s in k s.
Proof using rest. cbn [rfold]. destruct (stream_item s it) as [s'| |]; [|done..]. cbn [rbind]. apply rest. Qed.
Lemma write_int s i : 0 <= i < 2 ^ 256 -> small (int_item i) -> (let* s := append_int_ s i in K s) = let* s := rfold stream_item (int_item i :: l) s in k s.
Proof using rest. intros Hi Hs. rewrite (append_int_item s 256 i) by (lia || done). apply write_item. Qed.
Lemma write_data s d : (let* s := append s d false in K s) = let* s := rfold stream_item (Data d :: l) s in k s.
Proof using rest. apply (write_item s (Data d)). Qed.
Lemma write_raw s it b : b = encode it -> small it -> (let* s := appendRaw s b 1 in K s) = let* s := rfold stream_item (it :: l) s in k s.
Proof using rest. intros -> Hs. rewrite raw_item by done. apply write_item. Qed.
Lemma write_sub s its n : n = Z.of_nat (length its) ->
  (let* s := appendList s n in let* s := rfold stream_item its s in K s) = let* s := rfold stream_item (Items its :: l) s in k s.
Proof using rest.
  intros Hn. rewrite <- write_item, <- (appendList_items s its n Hn). destruct (appendList s n) as [s'| |]; [|done..]. cbn [rbind]. done.
Qed.
End write.

Lemma write_last s it : stream_item s it = rfold stream_item [it] s.
Proof. cbn [rfold]. by rewrite rbind_ok. Qed.

(** Entries that are written as items. *)
Lemma rfold_items {A} (f : RLPStream -> A -> res RLPStream) (g : A -> item) l : (forall s a, a ∈ l -> f s a = stream_item s (g a)) -> forall s, rfold f l s = rfold stream_item (map g l) s.
Proof.
  induction l as [|a l IH]; intros Hf s; [done|]. cbn [rfold map]. rewrite Hf by (by left). destruct (stream_item s (g a)) as [s'| |]; [|done..]. cbn [rbind].
  apply IH. intros s2 b Hb. apply Hf. by right.
Qed.
Lemma write_subs {A B} (f : RLPStream -> A -> res RLPStream) (g : A -> item) its l n (K k : RLPStream -> res B) s :
  (forall s, K s = let* s := rfold stream_item l s in k s) -> n = Z.of_nat (length its) -> (forall s a, a ∈ its -> f s a = stream_item s (g a)) ->
  (let* s := appendList s n in let* s := rfold f its s in K s) = let* s := rfold stream_item (Items (map g its) :: l) s in k s.
Proof.
  intros HK Hn Hf. rewrite <- (write_sub l K k HK s (map g its) n) by (by rewrite length_map). destruct (appendList s n) as [s'| |]; [|done..]. cbn [rbind]. by rewrite (rfold_items f g its Hf).
Qed.
Lemma rmap_items {A B} (f : bytes -> res B) (g : A -> item) (h : A -> B) l : (forall a, a ∈ l -> f (encode (g a)) = Ok (h a)) -> rmap f (map encode (map g l)) = Ok (map h l).
Proof.
  induction l as [|a l IH]; intros Hf; [done|]. cbn [rmap map]. rewrite Hf by (by left). cbn [rbind]. rewrite IH; [done|]. intros b Hb. apply Hf. by right.
Qed.

Lemma dec_as {A} (c : Codec A) f ok it a st : CodecOk c f ok -> ok a -> it = f a -> small it -> c_dec c (encode it) st = Ok a.
Proof. intros Hc Ha -> Hs. by apply dec_item. Qed.

Lemma codec_as {A} (c : Codec A) f ok it a st : CodecOk c f ok -> ok a -> it = f a -> small it -> rlp_enc c a = Ok (encode it) /\ c_dec c (encode it) st = Ok a.
Proof. intros Hc Ha -> Hs. destruct (codec_roundtrip c f ok a st Hc Ha Hs) as (E1 & _ & E3). done. Qed.

Lemma int_not_empty w : not_empty int_item (fun i => 0 < i < 2 ^ w).
Proof. intros i Hi Hs. apply data_not_empty; [|done]. destruct (pushInt_spec i ltac:(lia)) as (_ & _ & _ & Hv). apply Hv. lia. Qed.
Lemma hash_not_empty n : (0 < n)%nat -> not_empty Data (fun h => length h = n).
Proof. intros Hn h Hh Hs. apply data_not_empty; [|done]. by destruct h; simpl in Hh; [lia|]. Qed.

(** The laws of a tuple are those of its fields. *)
Create HintDb codec.
#[export] Hint Resolve uint_ok hash_ok bytes_codec_ok sequence_ok optional_ok tuple1_ok tuple_cons_ok rlp_tuple_ok : codec.
Ltac codec_law := lazymatch goal with
  | |- CodecOk (rlp_tuple _) _ _ => apply rlp_tuple_ok; [codec_law|simpl; lia]
  | |- TupleOk (_ &: _) _ _ => apply tuple_cons_ok; [codec_law|codec_law|simpl; lia]
  | |- TupleOk (tuple1 _) _ _ => apply tuple1_ok; codec_law
  | |- CodecOk (sequence _) _ _ => apply sequence_ok; codec_law
  | |- CodecOk (optional (uint _)) _ _ => eapply optional_ok; [apply uint_pos_ok; [lia|reflexivity]|apply int_not_empty]
  | |- CodecOk (optional (hash _)) _ _ => eapply optional_ok; [apply hash_ok|apply hash_not_empty; lia]
  | |- CodecOk (uint _) _ _ => apply uint_ok; [lia|reflexivity]
  | |- CodecOk (hash _) _ _ => apply hash_ok
  | |- CodecOk bytes_codec _ _ => apply bytes_codec_ok
  | |- _ => eauto with codec
  end.

(** ** Sizes of the encodings *)

Lemma header_size short long n : 0 <= n < 2 ^ 64 -> bsize (header short long n) <= 9.
Proof.
  intros Hn. unfold header. destruct (n <? 56); [done|]. rewrite bsize_cons. pose proof (pushInt_size n 8 ltac:(change (256 ^ 8) with (2 ^ 64); lia) ltac:(lia)). lia.
Qed.

Lemma header_bytes short long n : 0 <= short <= 192 -> 0 <= long <= 247 -> 0 <= n < 2 ^ 64 -> bytes_ok (header short long n).
Proof.
  intros Hs Hl Hn. unfold header. destruct (Z.ltb_spec n 56); [constructor; [unfold byte_ok; lia|constructor]|]. destruct (pushInt_spec n) as (_ & Hb & _ & _); [lia|].
  pose proof (pushInt_size n 8 ltac:(change (256 ^ 8) with (2 ^ 64); lia) ltac:(lia)). pose proof (bsize_nonneg (pushInt n)). constructor; [unfold byte_ok; lia|done].
Qed.

Lemma small_data d : bytes_ok d -> bsize d < 2 ^ 62 -> small (Data d) /\ bsize (encode (Data d)) <= 9 + bsize d.
Proof.
  intros Hd Hs. pose proof (bsize_nonneg d) as H0. assert (bytes_ok (encode (Data d)) /\ bsize (encode (Data d)) <= 9 + bsize d) as [H1 H2].
  { cbn [encode]. unfold encode_data. assert (bytes_ok (header 128 183 (bsize d) ++ d) /\ bsize (header 128 183 (bsize d) ++ d) <= 9 + bsize d) as [H1 H2].
    - rewrite bsize_app. split; [apply Forall_app; split; [apply header_bytes; lia|done]|]. pose proof (header_size 128 183 (bsize d)). lia.
    - destruct d as [|b [|c d]]; [done| |done]. apply Forall_cons in Hd as [Hb _]. destruct (Z.ltb_spec b 128).
      + split; [constructor; [done|constructor]|unfold bsize; simpl; lia].
      + split; [constructor; [unfold byte_ok; lia|constructor; [done|constructor]]|unfold bsize; simpl; lia]. }
  split; [split; [done|lia]|done].
Qed.

Lemma small_items l k : Forall (fun i => small i /\ bsize (encode i) <= k) l -> 0 <= k -> k * Z.of_nat (length l) < 2 ^ 62 -> small (Items l) /\ bsize (encode (Items l)) <= 9 + k * Z.of_nat (length l).
Proof.
  intros Hl Hk Hb. assert (bytes_ok (flat_map encode l) /\ bsize (flat_map encode l) <= k * Z.of_nat (length l)) as [H1 H2].
  { clear Hb. induction l as [|i l IH]; [split; [constructor|unfold bsize; simpl; lia]|]. apply Forall_cons in Hl as [[[Hi _] Hs] Hl]. destruct (IH Hl) as [IH1 IH2]. cbn [flat_map].
    rewrite bsize_app. split; [by apply Forall_app|]. simpl length. lia. }
  pose proof (bsize_nonneg (flat_map encode l)). pose proof (header_size 192 247 (bsize (flat_map encode l)) ltac:(lia)). cbn [encode]. unfold small. cbn [encode]. rewrite bsize_app. split_and!; [|lia|lia].
  apply Forall_app. split; [apply header_bytes; lia|done].
Qed.

Lemma small_int w i : 8 <= w <= 256 -> 0 <= i < 2 ^ w -> small (int_item i) /\ bsize (encode (int_item i)) <= 41.
Proof.
  intros Hw Hi. destruct (pushInt_spec i ltac:(lia)) as (_ & Hb & _ & _).
  assert (bsize (pushInt i) <= 32) as Hs. { apply pushInt_size; [|lia]. change (256 ^ 32) with (2 ^ 256). pose proof (Z.pow_le_mono_r 2 w 256 ltac:(lia) ltac:(lia)). lia. }
  destruct (small_data (pushInt i) Hb) as [H1 H2]; [lia|]. split; [done|]. unfold int_item. lia.
Qed.

Lemma small_fixed d n : bytes_ok d -> length d = n -> (n <= 200)%nat -> small (Data d) /\ bsize (encode (Data d)) <= 300.
Proof. intros Hd Hn Hl. destruct (small_data d Hd) as [H1 H2]; [unfold bsize; lia|]. split; [done|]. unfold bsize in *. lia. Qed.

Lemma weaken_small i j k : small i /\ bsize (encode i) <= j -> j <= k -> small i /\ bsize (encode i) <= k.
Proof. intros [H1 H2] H. split; [done|lia]. Qed.

Ltac small1 := first [eapply weaken_small; [apply (small_int 256); lia|lia] | eapply weaken_small; [eapply small_fixed; [eassumption|eassumption|lia]|lia] | assumption].
Ltac smalls := repeat first [apply List.Forall_nil | apply List.Forall_cons; [small1|]].

Lemma map_small_in {A} (g : A -> item) l k n b : Forall (fun a => small (g a) /\ bsize (encode (g a)) <= k) l -> 0 <= k -> Z.of_nat (length l) <= n -> 9 + k * n <= b -> b < 2 ^ 62 ->
  small (Items (map g l)) /\ bsize (encode (Items (map g l))) <= b.
Proof.
  intros Hl Hk Hn Hb Hb2. destruct (small_items (map g l) k) as [Hs Hz]; [by apply Forall_fmap|lia|rewrite length_map; nia|]. split; [done|]. rewrite length_map in Hz. nia.
Qed.

Lemma map_small {A} (g : A -> item) l k : Forall (fun a => small (g a) /\ bsize (encode (g a)) <= k) l -> 0 <= k <= 2 ^ 20 -> Z.of_nat (length l) < 2 ^ 32 ->
  small (Items (map g l)) /\ bsize (encode (Items (map g l))) <= 2 ^ 53.
Proof. intros Hl Hk Hn. by apply (map_small_in g l (2 ^ 20) (2 ^ 32)); [eapply Forall_impl; [exact Hl|intros a [H1 H2]; split; [done|lia]]|lia..]. Qed.

(** Reading the items of a list by index. *)
Ltac read_at Hs i n := rewrite (rlp_at_item _ i n _ Hs eq_refl eq_refl); cbn [rbind].

(** Writing item by item. *)
Ltac write_items := repeat first
  [ reflexivity
  | apply write_data; intros ?
  | apply write_int; [intros ?|lia|assumption] ].
