(* ===== verification/VoteRlp.v ===== *)
(** * Serialisation of votes

    PBFT votes and pillar votes as they are sent and stored, alone and in bundles
    (types/vote/src: pbft_vote.cpp, pillar_vote.cpp, vrf_sortition.cpp,
    votes_bundle_rlp.cpp).  Hashes, proofs and signatures are byte strings of their size. *)

From S2P Require Import Prelude Rlp RlpStream RlpRead RlpItems RlpCodec.
Local Open Scope Z_scope.
Local Open Scope rlp_scope.
#[local] Hint Resolve bsize_nonneg : core.

(** ** PBFT votes *)

Record VrfSortition := mkVrfSortition { vs_period : Z; vs_round : Z; vs_step : Z; vs_proof : bytes }.
Record SerialVote := mkSerialVote { sv_block_hash : bytes; sv_sortition : VrfSortition; sv_signature : bytes; sv_weight : option Z }.

(** [VrfPbftSortition::getRlpBytes] and its constructor. *)
Definition sortition_rlp (v : VrfSortition) : res bytes :=
  let* s := appendList newRLPStream 4 in
  let* s := append_int_ s (vs_period v) in
  let* s := append_int_ s (vs_round v) in
  let* s := append_int_ s (vs_step v) in
  let* s := append s (vs_proof v) false in
  stream_out s.

Definition sortition_codec : Codec (Z * (Z * (Z * bytes))) := rlp_tuple (uint 64 &: uint 32 &: uint 32 &: tuple1 (hash 80)).

Definition sortition_from (b : bytes) : res VrfSortition :=
  let* d := newRLP b VeryStrict in
  let* (period, (round, (step, proof))) := c_dec sortition_codec d VeryStrict in
  Ok (mkVrfSortition period round step proof).

(** [PbftVote::rlp] and [PbftVote::PbftVote]. *)
Definition vote_rlp (inc_sig inc_weight : bool) (v : SerialVote) : res bytes :=
  let with_weight := inc_weight && bool_decide (is_Some (sv_weight v)) in
  let* s := appendList newRLPStream (2 + (if inc_sig then 1 else 0) + (if with_weight then 1 else 0)) in
  let* s := append s (sv_block_hash v) false in
  let* b := sortition_rlp (sv_sortition v) in
  let* s := append s b false in
  let* s := (if inc_sig then append s (sv_signature v) false else Ok s) in
  let* s := (match sv_weight v with Some w => if inc_weight then append_int_ s w else Ok s | None => Ok s end) in
  stream_out s.

Definition vote3_codec : Codec (bytes * (bytes * bytes)) := rlp_tuple (hash 32 &: bytes_codec &: tuple1 (hash 65)).
Definition vote4_codec : Codec (bytes * (bytes * (bytes * option Z))) := rlp_tuple (hash 32 &: bytes_codec &: hash 65 &: tuple1 (optional (uint 64))).

Definition vote_from (d : bytes) : res SerialVote :=
  let* n := itemCount d in
  let* (h, (b, (sig, w))) :=
    (if n =? 3 then let* (h, (b, sig)) := c_dec vote3_codec d VeryStrict in Ok (h, (b, (sig, None))) else c_dec vote4_codec d VeryStrict) in
  let* s := sortition_from b in
  Ok (mkSerialVote h s sig w).

(** [PbftVote::optimizedRlp] and the constructor for a vote of a bundle. *)
Definition optimized_codec : Codec (bytes * bytes) := rlp_tuple (hash 80 &: tuple1 (hash 65)).

Definition optimizedRlp (v : SerialVote) : res bytes :=
  let* s := appendList newRLPStream 2 in
  let* s := append s (vs_proof (sv_sortition v)) false in
  let* s := append s (sv_signature v) false in
  stream_out s.

Definition vote_of_bundle (block_hash : bytes) (period round step : Z) (d : bytes) : res SerialVote :=
  let* (proof, sig) := c_dec optimized_codec d VeryStrict in
  Ok (mkSerialVote block_hash (mkVrfSortition period round step proof) sig None).

Definition kPbftVotesBundleRlpSize : Z := 5.
Definition kPillarVotesBundleRlpSize : Z := 3.

Definition encodePbftVotesBundleRlp (votes : list SerialVote) : res bytes :=
  match last votes with
  | None => Throw AssertionFailed
  | Some reference =>
      let* s := appendList newRLPStream kPbftVotesBundleRlpSize in
      let* s := append s (sv_block_hash reference) false in
      let* s := append_int_ s (vs_period (sv_sortition reference)) in
      let* s := append_int_ s (vs_round (sv_sortition reference)) in
      let* s := append_int_ s (vs_step (sv_sortition reference)) in
      let* s := appendList s (Z.of_nat (length votes)) in
      let* s := rfold (fun s v => let* b := optimizedRlp v in appendRaw s b 1) votes s in
      stream_out s
  end.

Definition decodePbftVotesBundleRlp (d : bytes) : res (list SerialVote) :=
  let* n := itemCount d in
  if negb (n =? kPbftVotesBundleRlpSize) then Throw AssertionFailed
  else
    let* d0 := rlp_at d 0 in let* h := toHash 32 d0 Strict in
    let* d1 := rlp_at d 1 in let* period := toInt 64 d1 Strict in
    let* d2 := rlp_at d 2 in let* round := toInt 32 d2 Strict in
    let* d3 := rlp_at d 3 in let* step := toInt 32 d3 Strict in
    let* d4 := rlp_at d 4 in
    let* _ := itemCount d4 in
    rlp_for (vote_of_bundle h period round step) d4.

(** ** Pillar votes *)

Record SerialPillarVote := mkSerialPillarVote { sp_period : Z; sp_block_hash : bytes; sp_signature : bytes }.

Definition pillar_vote_codec : Codec (Z * (bytes * bytes)) := rlp_tuple (uint 64 &: hash 32 &: tuple1 (hash 65)).
Definition pillar_vote_rlp (v : SerialPillarVote) : res bytes := rlp_enc pillar_vote_codec (sp_period v, (sp_block_hash v, sp_signature v)).
Definition pillar_vote_from (d : bytes) : res SerialPillarVote :=
  let* (period, (h, sig)) := c_dec pillar_vote_codec d VeryStrict in Ok (mkSerialPillarVote period h sig).

Definition encodePillarVotesBundleRlp (votes : list SerialPillarVote) : res bytes :=
  match last votes with
  | None => Throw AssertionFailed
  | Some reference =>
      let* s := appendList newRLPStream kPillarVotesBundleRlpSize in
      let* s := append s (sp_block_hash reference) false in
      let* s := append_int_ s (sp_period reference) in
      let* s := appendList s (Z.of_nat (length votes)) in
      let* s := rfold (fun s v => let* b := rlp_enc (hash 65) (sp_signature v) in appendRaw s b 1) votes s in
      stream_out s
  end.

Definition decodePillarVotesBundleRlp (d : bytes) : res (list SerialPillarVote) :=
  let* n := itemCount d in
  if negb (n =? kPillarVotesBundleRlpSize) then Throw AssertionFailed
  else
    let* d0 := rlp_at d 0 in let* h := toHash 32 d0 Strict in
    let* d1 := rlp_at d 1 in let* period := toInt 64 d1 Strict in
    let* d2 := rlp_at d 2 in
    let* _ := itemCount d2 in
    rlp_for (fun d => let* sig := c_dec (hash 65) d LaissezFaire in Ok (mkSerialPillarVote period h sig)) d2.

(** ** Well-formed votes *)

Definition sortition_ok (v : VrfSortition) : Prop :=
  0 <= vs_period v < 2 ^ 64 /\ 0 <= vs_round v < 2 ^ 32 /\ 0 <= vs_step v < 2 ^ 32 /\ length (vs_proof v) = 80%nat /\ bytes_ok (vs_proof v).
Definition vote_ok (v : SerialVote) : Prop :=
  length (sv_block_hash v) = 32%nat /\ bytes_ok (sv_block_hash v) /\ sortition_ok (sv_sortition v) /\ length (sv_signature v) = 65%nat /\ bytes_ok (sv_signature v) /\
  match sv_weight v with Some w => 0 <= w < 2 ^ 64 | None => True end.
Definition pillar_vote_ok (v : SerialPillarVote) : Prop :=
  0 <= sp_period v < 2 ^ 64 /\ length (sp_block_hash v) = 32%nat /\ bytes_ok (sp_block_hash v) /\ length (sp_signature v) = 65%nat /\ bytes_ok (sp_signature v).

Definition sortition_item (v : VrfSortition) : item := Items [int_item (vs_period v); int_item (vs_round v); int_item (vs_step v); Data (vs_proof v)].
Definition vote_items (v : SerialVote) : list item := [Data (sv_block_hash v); Data (encode (sortition_item (sv_sortition v))); Data (sv_signature v)].
Definition optimized_item (v : SerialVote) : item := Items [Data (vs_proof (sv_sortition v)); Data (sv_signature v)].

(** ** The items that are written *)

Lemma sortition_small v : sortition_ok v -> small (sortition_item v) /\ bsize (encode (sortition_item v)) <= 1209.
Proof.
  intros (H1 & H2 & H3 & H4 & H5). destruct (small_items [int_item (vs_period v); int_item (vs_round v); int_item (vs_step v); Data (vs_proof v)] 300) as [Hs Hb]; [|lia|simpl; lia|by split].
  smalls.
Qed.

Lemma sortition_roundtrip v : sortition_ok v -> sortition_rlp v = Ok (encode (sortition_item v)) /\ sortition_from (encode (sortition_item v)) = Ok v.
Proof.
  intros Hv. destruct (sortition_small v Hv) as [Hs _]. destruct Hv as (H1 & H2 & H3 & H4 & H5). split.
  - pose proof (small_Items _ Hs) as Hi. rewrite !Forall_cons in Hi. destruct Hi as (S1 & S2 & S3 & S4 & _). apply write_list; [done|done|]. intros s. write_items.
  - unfold sortition_from. rewrite newRLP_encode by done. cbn [rbind].
    assert (c_dec sortition_codec (encode (sortition_item v)) VeryStrict = Ok (vs_period v, (vs_round v, (vs_step v, vs_proof v)))) as ->; [|by destruct v].
    eapply dec_as; [unfold sortition_codec; codec_law|simpl; done|reflexivity|done].
Qed.

(** ** Round trips of votes *)

(** What is left of the weight of a vote that is read: none if it was not written, and a weight of zero is read as none. *)
Definition kept_weight (inc_weight : bool) (w : option Z) : option Z := if inc_weight then match w with Some w => if w =? 0 then None else Some w | None => None end else None.
Definition set_weight (w : option Z) (v : SerialVote) : SerialVote := mkSerialVote (sv_block_hash v) (sv_sortition v) (sv_signature v) w.

Definition weight_items (inc_weight : bool) (v : SerialVote) : list item :=
  match sv_weight v with Some w => if inc_weight then [int_item w] else [] | None => [] end.
Definition vote_item (inc_weight : bool) (v : SerialVote) : item := Items (vote_items v ++ weight_items inc_weight v).
Definition unsigned_item (v : SerialVote) : item := Items [Data (sv_block_hash v); Data (encode (sortition_item (sv_sortition v)))].

Lemma vote_fields_small v : vote_ok v -> Forall (fun i => small i /\ bsize (encode i) <= 1300) (vote_items v).
Proof.
  intros (H1 & H2 & Hs & H3 & H4 & _). destruct (sortition_small _ Hs) as [[Hb Hlt] Hsz]. unfold vote_items. smalls. apply List.Forall_cons; [|smalls].
  eapply weaken_small; [apply small_data; [done|lia]|lia].
Qed.

Lemma vote_small inc v : vote_ok v -> small (vote_item inc v).
Proof.
  intros Hv. eapply (small_items _ 1300); [|lia|].
  - apply Forall_app. split; [by apply vote_fields_small|]. destruct Hv as (_ & _ & _ & _ & _ & Hw). unfold weight_items. destruct (sv_weight v), inc; smalls.
  - unfold weight_items, vote_items. destruct (sv_weight v), inc; simpl; lia.
Qed.

Lemma vote_rlp_item inc v : vote_ok v -> vote_rlp true inc v = Ok (encode (vote_item inc v)).
Proof.
  intros Hv. pose proof (vote_small inc v Hv) as Hs. pose proof Hv as (H1 & H2 & Hso & H3 & H4 & Hw). unfold vote_rlp. apply write_list; [done| |].
  - unfold weight_items, vote_items. by destruct (sv_weight v), inc.
  - intros s. destruct (sortition_roundtrip _ Hso) as [-> _]. cbn [rbind]. apply small_Items, Forall_app in Hs as [_ Hs]. unfold vote_items. cbn [app]. write_items.
    unfold weight_items in *. destruct (sv_weight v) as [w|], inc; try reflexivity. apply Forall_inv in Hs. write_items.
Qed.

Lemma vote_unsigned_item v : vote_ok v -> small (unsigned_item v) /\ forall inc, sv_weight v = None \/ inc = false -> vote_rlp false inc v = Ok (encode (unsigned_item v)).
Proof.
  intros Hv. assert (small (unsigned_item v)) as Hs.
  { eapply (small_items _ 1300); [|lia|simpl; lia]. pose proof (vote_fields_small v Hv) as H. unfold vote_items in H. rewrite !Forall_cons in *. tauto. }
  split; [done|]. intros inc Hw. destruct Hv as (H1 & H2 & Hso & H3 & H4 & _). unfold vote_rlp. apply write_list; [done| |].
  - by destruct Hw as [-> | ->]; [rewrite andb_false_r|].
  - intros s. destruct (sortition_roundtrip _ Hso) as [-> _]. cbn [rbind]. write_items. destruct Hw as [-> | ->]; [done|]. by destruct (sv_weight v).
Qed.

Lemma vote_read inc v : vote_ok v -> vote_from (encode (vote_item inc v)) = Ok (set_weight (kept_weight inc (sv_weight v)) v).
Proof.
  intros Hv. pose proof (vote_small inc v Hv) as Hs. pose proof Hv as (H1 & H2 & Hso & H3 & H4 & Hw). unfold vote_from, vote_item in *.
  destruct (itemCount_encode _ Hs) as [-> _]. cbn [rbind]. destruct (sortition_roundtrip _ Hso) as [_ Hsort]. unfold weight_items, kept_weight in *.
  destruct (sv_weight v) as [w|] eqn:Ew, inc; rewrite ?app_nil_r in *.
  2-4: assert (c_dec vote3_codec (encode (Items (vote_items v))) VeryStrict = Ok (sv_block_hash v, (encode (sortition_item (sv_sortition v)), sv_signature v))) as ->
    by (eapply dec_as; [unfold vote3_codec; codec_law|simpl; done|reflexivity|done]).
  2-4: change (Z.of_nat (length (vote_items v)) =? 3) with true; cbn [rbind]; rewrite Hsort; reflexivity.
  assert (c_dec vote4_codec (encode (Items (vote_items v ++ [int_item w]))) VeryStrict
    = Ok (sv_block_hash v, (encode (sortition_item (sv_sortition v)), (sv_signature v, if w =? 0 then None else Some w)))) as ->;
    [|change (Z.of_nat (length (vote_items v ++ [int_item w])) =? 3) with false; cbn [rbind]; by rewrite Hsort].
  eapply dec_as; [unfold vote4_codec; codec_law| | |done]; simpl; destruct (Z.eqb_spec w 0) as [->|]; done || (split_and!; lia || done).
Qed.

(** A well-formed vote that is serialised with its signature, with or without its weight,
    is read back as the same vote; the weight is lost if it was not written and if it
    is zero, which the reader of an optional field takes for none. *)
Theorem vote_roundtrip inc v : vote_ok v ->
  exists d, vote_rlp true inc v = Ok d /\ newRLP d VeryStrict = Ok d /\ vote_from d = Ok (set_weight (kept_weight inc (sv_weight v)) v).
Proof.
  intros Hv. exists (encode (vote_item inc v)). split_and!; [by apply vote_rlp_item|by apply newRLP_encode, vote_small|by apply vote_read].
Qed.

Definition sample_vote (w : option Z) : SerialVote := mkSerialVote (replicate 32 7) (mkVrfSortition 300 2 1 (replicate 80 200)) (replicate 65 9) w.

Lemma sample_vote_ok w : match w with Some w => 0 <= w < 2 ^ 64 | None => True end -> vote_ok (sample_vote w).
Proof. intros Hw. repeat split; try done; try (apply Forall_replicate; unfold byte_ok; lia). Qed.

Lemma vote_roundtrip_witness :
  exists d, vote_rlp true true (sample_vote (Some 5)) = Ok d /\ newRLP d VeryStrict = Ok d /\ vote_from d = Ok (sample_vote (Some 5)).
Proof. exact (vote_roundtrip true (sample_vote (Some 5)) (sample_vote_ok (Some 5) ltac:(simpl; lia))). Defined.

(** The content of a vote that is hashed for its signature determines the block hash,
    the period, the round, the step and the proof: two votes with one message to sign
    differ at most in signature and weight. *)
Theorem signed_content v v' : vote_ok v -> vote_ok v' ->
  (vote_rlp false false v = vote_rlp false false v' <-> sv_block_hash v = sv_block_hash v' /\ sv_sortition v = sv_sortition v').
Proof.
  intros Hv Hv'. destruct (vote_unsigned_item v Hv) as [Hs E], (vote_unsigned_item v' Hv') as [Hs' E']. rewrite E, E' by (by right). split.
  - intros Heq%Ok_encode_inj; [|done..]. apply (f_equal (fun i => match i with Items [Data a; Data b] => (a, b) | _ => ([], []) end)) in Heq.
    cbv beta iota delta [unsigned_item] in Heq. apply pair_equal_spec in Heq as [Hh Ho]. split; [done|].
    pose proof (sortition_roundtrip _ (proj1 (proj2 (proj2 Hv)))) as [_ R]. pose proof (sortition_roundtrip _ (proj1 (proj2 (proj2 Hv')))) as [_ R']. rewrite Ho in R. congruence.
  - intros [Hh Ho]. unfold unsigned_item. by rewrite Hh, Ho.
Qed.

Lemma signed_content_witness :
  vote_rlp false false (sample_vote (Some 5)) = vote_rlp false false (sample_vote None).
Proof. apply (signed_content _ _ (sample_vote_ok (Some 5) ltac:(simpl; lia)) (sample_vote_ok None I)). split; reflexivity. Defined.

(** ** Bundles *)

Lemma optimized_small v : vote_ok v -> small (optimized_item v) /\ bsize (encode (optimized_item v)) <= 700.
Proof.
  intros (_ & _ & (_ & _ & _ & H1 & H2) & H3 & H4 & _). destruct (small_items [Data (vs_proof (sv_sortition v)); Data (sv_signature v)] 300) as [Hs Hb]; [smalls|lia|simpl; lia|].
  split; [done|]. etrans; [exact Hb|simpl; lia].
Qed.

Lemma optimized_item_rlp v : vote_ok v -> optimizedRlp v = Ok (encode (optimized_item v)).
Proof. intros Hv. destruct (optimized_small v Hv) as [Hs _]. apply write_list; [done|done|]. intros s. write_items. Qed.

Definition same_vote (r v : SerialVote) : Prop :=
  sv_block_hash v = sv_block_hash r /\ vs_period (sv_sortition v) = vs_period (sv_sortition r) /\ vs_round (sv_sortition v) = vs_round (sv_sortition r) /\ vs_step (sv_sortition v) = vs_step (sv_sortition r).

Lemma optimized_read r v : vote_ok v -> same_vote r v ->
  vote_of_bundle (sv_block_hash r) (vs_period (sv_sortition r)) (vs_round (sv_sortition r)) (vs_step (sv_sortition r)) (encode (optimized_item v)) = Ok (set_weight None v).
Proof.
  intros Hv (E1 & E2 & E3 & E4). destruct (optimized_small v Hv) as [Hs _]. destruct Hv as (_ & _ & (_ & _ & _ & H1 & H2) & H3 & H4 & _). unfold vote_of_bundle.
  assert (c_dec optimized_codec (encode (optimized_item v)) VeryStrict = Ok (vs_proof (sv_sortition v), sv_signature v)) as ->
    by (eapply dec_as; [unfold optimized_codec; codec_law|simpl; done|reflexivity|done]).
  cbn [rbind]. destruct v as [h [p r' s pr] sig w]. simpl in *. by rewrite <- E1, <- E2, <- E3, <- E4.
Qed.

Definition bundle_items (r : SerialVote) (votes : list SerialVote) : list item :=
  [Data (sv_block_hash r); int_item (vs_period (sv_sortition r)); int_item (vs_round (sv_sortition r)); int_item (vs_step (sv_sortition r)); Items (map optimized_item votes)].

Lemma bundle_bound r votes : vote_ok r -> Forall vote_ok votes -> Z.of_nat (length votes) < 2 ^ 32 -> small (Items (bundle_items r votes)) /\ bsize (encode (Items (bundle_items r votes))) <= 2 ^ 56.
Proof.
  intros (H1 & H2 & (H3 & H4 & H5 & _) & _) Hv Hn. destruct (small_items (bundle_items r votes) (2 ^ 53)) as [Hs Hb]; [|lia|simpl; lia|split; [done|]; etrans; [exact Hb|simpl; lia]]. unfold bundle_items.
  assert (small (Items (map optimized_item votes)) /\ bsize (encode (Items (map optimized_item votes))) <= 2 ^ 53); [|smalls].
  apply (map_small _ _ 700); [|lia|done]. eapply Forall_impl; [exact Hv|]. intros v. apply optimized_small.
Qed.

Lemma bundle_small r votes : vote_ok r -> Forall vote_ok votes -> Z.of_nat (length votes) < 2 ^ 32 -> small (Items (bundle_items r votes)).
Proof. intros. by apply bundle_bound. Qed.

Lemma bundle_rlp_item votes r : last votes = Some r -> Forall vote_ok votes -> Z.of_nat (length votes) < 2 ^ 32 -> encodePbftVotesBundleRlp votes = Ok (encode (Items (bundle_items r votes))).
Proof.
  intros Hr Hv Hn. assert (vote_ok r) as Hrok by (apply last_Some in Hr as [l ->]; apply Forall_app in Hv as [_ Hv]; by apply Forall_inv in Hv).
  pose proof (bundle_small r votes Hrok Hv Hn) as Hs. unfold encodePbftVotesBundleRlp. rewrite Hr. pose proof (small_Items _ Hs) as Hi. unfold bundle_items in Hi. rewrite !Forall_cons in Hi.
  destruct Hi as (S1 & S2 & S3 & S4 & S5 & _). destruct Hrok as (_ & _ & (H3 & H4 & H5 & _) & _). apply write_list; [done|done|]. intros s. unfold bundle_items. write_items.
  rewrite Forall_forall in Hv. apply write_subs; [done|done|]. intros ? v Hin.
  rewrite optimized_item_rlp by auto. apply raw_item. by apply optimized_small, Hv.
Qed.

Lemma bundle_read r votes : vote_ok r -> Forall vote_ok votes -> Forall (same_vote r) votes -> Z.of_nat (length votes) < 2 ^ 32 ->
  decodePbftVotesBundleRlp (encode (Items (bundle_items r votes))) = Ok (map (set_weight None) votes).
Proof.
  intros Hr Hv Hsame Hn. pose proof (bundle_small r votes Hr Hv Hn) as Hs. pose proof (small_Items _ Hs) as Hi. unfold bundle_items in Hi. rewrite !Forall_cons in Hi.
  destruct Hi as (S1 & S2 & S3 & S4 & S5 & _). destruct Hr as (H1 & _ & (H3 & H4 & H5 & _) & _). unfold decodePbftVotesBundleRlp. destruct (itemCount_encode _ Hs) as [-> _]. cbn [rbind].
  change (Z.of_nat (length (bundle_items r votes)) =? kPbftVotesBundleRlpSize) with true. cbn [negb]. destruct (itemCount_encode _ S5) as [E1 _].
  read_at Hs 0 0%nat. rewrite toHash_item by done. cbn [rbind]. read_at Hs 1 1%nat. rewrite toInt_item by (done || lia). cbn [rbind].
  read_at Hs 2 2%nat. rewrite toInt_item by (done || lia). cbn [rbind]. read_at Hs 3 3%nat. rewrite toInt_item by (done || lia). cbn [rbind].
  read_at Hs 4 4%nat. rewrite E1, rlp_for_encode by done. cbn [rbind]. rewrite Forall_forall in Hv, Hsame. apply (rmap_items _ optimized_item (set_weight None)). intros v Hin. apply optimized_read; auto.
Qed.

(** A bundle of votes for one block, period, round and step is read back as these votes
    in order; the weights are not part of a bundle. *)
Theorem votes_bundle_roundtrip votes : votes <> [] -> Forall vote_ok votes -> (forall v v', v ∈ votes -> v' ∈ votes -> same_vote v v') -> Z.of_nat (length votes) < 2 ^ 32 ->
  exists d, encodePbftVotesBundleRlp votes = Ok d /\ newRLP d VeryStrict = Ok d /\ decodePbftVotesBundleRlp d = Ok (map (set_weight None) votes).
Proof.
  intros Hne Hv Hsame Hn. destruct (last votes) as [r|] eqn:El; [|by apply last_None in El].
  assert (r ∈ votes) as Hr by (apply last_Some in El as [l ->]; apply elem_of_app; right; by left). assert (vote_ok r) as Hrok by (rewrite Forall_forall in Hv; auto).
  exists (encode (Items (bundle_items r votes))). split_and!; [by apply bundle_rlp_item|by apply newRLP_encode, bundle_small|].
  apply bundle_read; [done|done| |done]. apply Forall_forall. intros v Hin. by apply Hsame.
Qed.

Lemma votes_bundle_roundtrip_witness :
  exists d, encodePbftVotesBundleRlp [sample_vote None; sample_vote (Some 5)] = Ok d /\ newRLP d VeryStrict = Ok d /\ decodePbftVotesBundleRlp d = Ok [sample_vote None; sample_vote None].
Proof.
  apply (votes_bundle_roundtrip [sample_vote None; sample_vote (Some 5)]); [done| |intros v v' Hv Hv'|done].
  - apply List.Forall_cons; [by apply sample_vote_ok|]. apply List.Forall_cons; [apply sample_vote_ok; simpl; lia|constructor].
  - rewrite !elem_of_cons, elem_of_nil in Hv, Hv'. destruct Hv as [->|[->|[]]], Hv' as [->|[->|[]]]; done.
Defined.

(** ** Pillar votes *)

Definition pillar_vote_item (v : SerialPillarVote) : item := Items [int_item (sp_period v); Data (sp_block_hash v); Data (sp_signature v)].
Definition pillar_bundle_items (r : SerialPillarVote) (votes : list SerialPillarVote) : list item :=
  [Data (sp_block_hash r); int_item (sp_period r); Items (map (fun v => Data (sp_signature v)) votes)].

Lemma pillar_vote_small v : pillar_vote_ok v -> small (pillar_vote_item v).
Proof. intros (H1 & H2 & H3 & H4 & H5). apply (small_items _ 300); [smalls|lia|simpl; lia]. Qed.

(** A pillar vote is read back as it was written. *)
Theorem pillar_vote_roundtrip v : pillar_vote_ok v -> exists d, pillar_vote_rlp v = Ok d /\ newRLP d VeryStrict = Ok d /\ pillar_vote_from d = Ok v.
Proof.
  intros Hv. pose proof (pillar_vote_small v Hv) as Hs. destruct Hv as (H1 & H2 & H3 & H4 & H5).
  assert (exists f ok, CodecOk pillar_vote_codec f ok /\ ok (sp_period v, (sp_block_hash v, sp_signature v)) /\ f (sp_period v, (sp_block_hash v, sp_signature v)) = pillar_vote_item v) as (f & ok & Hc & Hok & Hf).
  { eexists _, _. split_and!; [unfold pillar_vote_codec; codec_law|simpl; done|reflexivity]. }
  destruct (codec_roundtrip _ _ _ (sp_period v, (sp_block_hash v, sp_signature v)) VeryStrict Hc Hok ltac:(by rewrite Hf)) as (E1 & E2 & E3). exists (encode (pillar_vote_item v)).
  rewrite Hf in *. split_and!; [done|done|]. unfold pillar_vote_from. rewrite E3. by destruct v.
Qed.

Lemma pillar_bundle_bound r votes : pillar_vote_ok r -> Forall pillar_vote_ok votes -> Z.of_nat (length votes) < 2 ^ 32 ->
  small (Items (pillar_bundle_items r votes)) /\ bsize (encode (Items (pillar_bundle_items r votes))) <= 2 ^ 56.
Proof.
  intros (H1 & H2 & H3 & _) Hv Hn. destruct (small_items (pillar_bundle_items r votes) (2 ^ 53)) as [Hs Hb]; [|lia|simpl; lia|split; [done|]; etrans; [exact Hb|simpl; lia]]. unfold pillar_bundle_items.
  assert (small (Items (map (fun v => Data (sp_signature v)) votes)) /\ bsize (encode (Items (map (fun v => Data (sp_signature v)) votes))) <= 2 ^ 53); [|smalls].
  apply (map_small _ _ 300); [|lia|done]. eapply Forall_impl; [exact Hv|]. intros v (_ & _ & _ & H4 & H5). by eapply small_fixed; [|exact H4|lia].
Qed.

Lemma signature_rlp v : pillar_vote_ok v -> small (Data (sp_signature v)) /\ rlp_enc (hash 65) (sp_signature v) = Ok (encode (Data (sp_signature v))) /\ c_dec (hash 65) (encode (Data (sp_signature v))) LaissezFaire = Ok (sp_signature v).
Proof.
  intros (_ & _ & _ & H4 & H5). destruct (small_fixed _ 65 H5 H4 ltac:(lia)) as [Hs _]. split; [done|]. destruct (codec_roundtrip _ _ _ (sp_signature v) LaissezFaire (hash_ok 65) H4 Hs) as (E1 & _ & E3). done.
Qed.

Lemma pillar_bundle_item votes r : last votes = Some r -> Forall pillar_vote_ok votes -> Forall (fun v => sp_period v = sp_period r /\ sp_block_hash v = sp_block_hash r) votes -> Z.of_nat (length votes) < 2 ^ 32 ->
  encodePillarVotesBundleRlp votes = Ok (encode (Items (pillar_bundle_items r votes))) /\ decodePillarVotesBundleRlp (encode (Items (pillar_bundle_items r votes))) = Ok votes.
Proof.
  intros El Hv Hsame Hn. unfold encodePillarVotesBundleRlp. rewrite El. rewrite Forall_forall in Hsame.
  assert (r ∈ votes) as Hr by (apply last_Some in El as [l ->]; apply elem_of_app; right; by left).
  pose proof (proj1 (Forall_forall _ _) Hv) as Hv'. destruct (pillar_bundle_bound r votes (Hv' r Hr) Hv Hn) as [Hs _]. pose proof (small_Items _ Hs) as Hi. unfold pillar_bundle_items in Hi.
  rewrite !Forall_cons in Hi. destruct Hi as (S1 & S2 & S3 & _). destruct (Hv' r Hr) as (H1 & H2 & _). split.
  - apply write_list; [done|done|]. intros s. unfold pillar_bundle_items. write_items.
    apply (write_subs _ (fun v => Data (sp_signature v))); [done|done|]. intros ? v Hin. destruct (signature_rlp v (Hv' v Hin)) as (Hsv & -> & _). by apply raw_item.
  - unfold decodePillarVotesBundleRlp. destruct (itemCount_encode _ Hs) as [-> _]. cbn [rbind]. change (Z.of_nat (length (pillar_bundle_items r votes)) =? kPillarVotesBundleRlpSize) with true. cbn [negb].
    destruct (itemCount_encode _ S3) as [E1 _]. read_at Hs 0 0%nat. rewrite toHash_item by done. cbn [rbind]. read_at Hs 1 1%nat. rewrite toInt_item by (done || lia). cbn [rbind].
    read_at Hs 2 2%nat. rewrite E1, rlp_for_encode by done. cbn [rbind]. rewrite <- (map_id votes) at 2. apply (rmap_items _ (fun v => Data (sp_signature v)) id). intros v Hin.
    destruct (signature_rlp v (Hv' v Hin)) as (_ & _ & ->). destruct (Hsame v Hin) as [<- <-]. by destruct v.
Qed.

(** A bundle of pillar votes for one pillar block and period is read back as these votes
    in order. *)
Theorem pillar_bundle_roundtrip votes period h : votes <> [] -> Forall pillar_vote_ok votes -> Forall (fun v => sp_period v = period /\ sp_block_hash v = h) votes -> Z.of_nat (length votes) < 2 ^ 32 ->
  exists d, encodePillarVotesBundleRlp votes = Ok d /\ newRLP d VeryStrict = Ok d /\ decodePillarVotesBundleRlp d = Ok votes.
Proof.
  intros Hne Hv Hsame Hn. destruct (last votes) as [r|] eqn:El; [|by apply last_None in El].
  assert (r ∈ votes) as Hr by (apply last_Some in El as [l ->]; apply elem_of_app; right; by left). rewrite Forall_forall in Hsame. destruct (Hsame r Hr) as [<- <-]. rewrite <- Forall_forall in Hsame.
  destruct (pillar_bundle_item votes r El Hv Hsame Hn) as [E1 E2]. exists (encode (Items (pillar_bundle_items r votes))). split_and!; [done| |done].
  apply newRLP_encode, pillar_bundle_bound; [|done|done]. rewrite Forall_forall in Hv. auto.
Qed.

Definition sample_pillar_vote (b : Z) : SerialPillarVote := mkSerialPillarVote 4000 (replicate 32 7) (replicate 65 b).

Lemma pillar_bundle_roundtrip_witness :
  exists d, encodePillarVotesBundleRlp [sample_pillar_vote 1; sample_pillar_vote 2] = Ok d /\ newRLP d VeryStrict = Ok d /\ decodePillarVotesBundleRlp d = Ok [sample_pillar_vote 1; sample_pillar_vote 2].
Proof.
  apply (pillar_bundle_roundtrip [sample_pillar_vote 1; sample_pillar_vote 2] 4000 (replicate 32 7)); [done| |repeat (apply List.Forall_cons; [done|]); constructor|done].
  repeat (apply List.Forall_cons; [repeat split; try done; apply Forall_replicate; unfold byte_ok; lia|]); constructor.
Defined.
