(* ===== verification/DagBlockRlp.v ===== *)
(** * Serialisation of DAG blocks

    DAG blocks alone and in bundles, where the hashes of their transactions are
    shared (types/dag_block/src: dag_block.cpp, dag_block_bundle_rlp.cpp), with the
    verifiable delay function solution they carry (vdf/src/sortition.cpp). *)

From S2P Require Import Prelude Rlp RlpStream RlpRead RlpItems RlpCodec.
Local Open Scope Z_scope.
Local Open Scope rlp_scope.
#[local] Hint Resolve bsize_nonneg : core.

(** ** Solutions of the delay function *)

Record SerialVdf := mkSerialVdf { vdf_proof : bytes; vdf_sol_first : bytes; vdf_sol_second : bytes; vdf_difficulty : Z }.
Definition no_vdf : SerialVdf := mkSerialVdf (replicate 80 0) [] [] 0.

(** [VdfSortition::rlp] and [VdfSortition::VdfSortition(bytes)]. *)
Definition vdf_rlp (v : SerialVdf) : res bytes :=
  let* s := appendList newRLPStream 4 in
  let* s := append s (vdf_proof v) false in
  let* s := append s (vdf_sol_first v) false in
  let* s := append s (vdf_sol_second v) false in
  let* s := append_int_ s (vdf_difficulty v) in
  stream_out s.

Definition vdf_codec : Codec (bytes * (bytes * (bytes * Z))) := rlp_tuple (hash 80 &: bytes_codec &: bytes_codec &: tuple1 (uint 16)).

Definition vdf_from (b : bytes) : res SerialVdf :=
  if bsize b =? 0 then Ok no_vdf
  else
    let* d := newRLP b VeryStrict in
    let* (proof, (sol1, (sol2, difficulty))) := c_dec vdf_codec d VeryStrict in
    Ok (mkSerialVdf proof sol1 sol2 difficulty).

(** ** DAG blocks *)

Record SerialDagBlock := mkSerialDagBlock {
  sd_pivot : bytes;
  sd_level : Z;
  sd_timestamp : Z;
  sd_vdf : SerialVdf;
  sd_tips : list bytes;
  sd_trxs : list bytes;
  sd_sig : bytes;
  sd_gas_estimation : Z;
}.

(** [RLPStream::appendVector] of hashes. *)
Definition appendVector (s : RLPStream) (l : list bytes) : res RLPStream :=
  let* s := appendList s (Z.of_nat (length l)) in rfold (fun s h => append s h false) l s.

(** [DagBlock::streamRLP] and [DagBlock::rlp]. *)
Definition dag_block_rlp (include_sig include_trxs : bool) (b : SerialDagBlock) : res bytes :=
  let* s := appendList newRLPStream (6 + (if include_sig then 1 else 0) + (if include_trxs then 1 else 0)) in
  let* s := append s (sd_pivot b) false in
  let* s := append_int_ s (sd_level b) in
  let* s := append_int_ s (sd_timestamp b) in
  let* v := vdf_rlp (sd_vdf b) in
  let* s := append s v false in
  let* s := appendVector s (sd_tips b) in
  let* s := (if include_trxs then appendVector s (sd_trxs b) else Ok s) in
  let* s := (if include_sig then append s (sd_sig b) false else Ok s) in
  let* s := append_int_ s (sd_gas_estimation b) in
  stream_out s.

Definition dag_block_codec : Codec (bytes * (Z * (Z * (bytes * (list bytes * (list bytes * (bytes * Z))))))) :=
  rlp_tuple (hash 32 &: uint 64 &: uint 64 &: bytes_codec &: sequence (hash 32) &: sequence (hash 32) &: hash 65 &: tuple1 (uint 64)).
Definition bundled_codec : Codec (bytes * (Z * (Z * (bytes * (list bytes * (bytes * Z)))))) :=
  rlp_tuple (hash 32 &: uint 64 &: uint 64 &: bytes_codec &: sequence (hash 32) &: hash 65 &: tuple1 (uint 64)).

(** The two constructors that read a block. *)
Definition dag_block_from (d : bytes) : res SerialDagBlock :=
  let* (pivot, (level, (timestamp, (v, (tips, (trxs, (sig, gas))))))) := c_dec dag_block_codec d VeryStrict in
  let* v := vdf_from v in
  Ok (mkSerialDagBlock pivot level timestamp v tips trxs sig gas).

Definition dag_block_of_bundle (d : bytes) (trxs : list bytes) : res SerialDagBlock :=
  let* (pivot, (level, (timestamp, (v, (tips, (sig, gas)))))) := c_dec bundled_codec d VeryStrict in
  let* v := vdf_from v in
  Ok (mkSerialDagBlock pivot level timestamp v tips trxs sig gas).

(** Fields that are read without the rest of the block. *)
Definition kLevelPosInRlp : Z := 1.
Definition kSigPosInRlp : Z := 6.
Definition extract_dag_level_from_rlp (d : bytes) : res Z := let* r := rlp_at d kLevelPosInRlp in toInt 64 r Strict.
Definition extract_signature_from_rlp (d : bytes) : res bytes := let* r := rlp_at d kSigPosInRlp in toHash 65 r Strict.

(** ** Well-formed blocks and their items *)

Definition hash32_ok (h : bytes) : Prop := length h = 32%nat /\ bytes_ok h.
Definition hashes_ok (l : list bytes) : Prop := Forall hash32_ok l /\ Z.of_nat (length l) < 2 ^ 20.
Definition vdf_ok (v : SerialVdf) : Prop :=
  length (vdf_proof v) = 80%nat /\ bytes_ok (vdf_proof v) /\ bytes_ok (vdf_sol_first v) /\ bsize (vdf_sol_first v) < 2 ^ 20 /\
  bytes_ok (vdf_sol_second v) /\ bsize (vdf_sol_second v) < 2 ^ 20 /\ 0 <= vdf_difficulty v < 2 ^ 16.
Definition dag_block_ok (b : SerialDagBlock) : Prop :=
  hash32_ok (sd_pivot b) /\ 0 <= sd_level b < 2 ^ 64 /\ 0 <= sd_timestamp b < 2 ^ 64 /\ vdf_ok (sd_vdf b) /\ hashes_ok (sd_tips b) /\ hashes_ok (sd_trxs b) /\
  length (sd_sig b) = 65%nat /\ bytes_ok (sd_sig b) /\ 0 <= sd_gas_estimation b < 2 ^ 64.

Definition vdf_item (v : SerialVdf) : item := Items [Data (vdf_proof v); Data (vdf_sol_first v); Data (vdf_sol_second v); int_item (vdf_difficulty v)].
Definition hashes_item (l : list bytes) : item := Items (map Data l).
Definition dag_fields (include_sig include_trxs : bool) (b : SerialDagBlock) : list item :=
  [Data (sd_pivot b); int_item (sd_level b); int_item (sd_timestamp b); Data (encode (vdf_item (sd_vdf b))); hashes_item (sd_tips b)] ++
  (if include_trxs then [hashes_item (sd_trxs b)] else []) ++ (if include_sig then [Data (sd_sig b)] else []) ++ [int_item (sd_gas_estimation b)].

Lemma hashes_small l : hashes_ok l -> small (hashes_item l) /\ bsize (encode (hashes_item l)) <= 2 ^ 29.
Proof. intros [Hl Hn]. apply (map_small_in _ _ 300 (2 ^ 20)); [|lia..]. eapply Forall_impl; [exact Hl|]. intros h [H1 H2]. by eapply small_fixed; [|exact H1|lia]. Qed.

Lemma vdf_small v : vdf_ok v -> small (vdf_item v) /\ bsize (encode (vdf_item v)) <= 2 ^ 23.
Proof.
  intros (H1 & H2 & H3 & H4 & H5 & H6 & H7). destruct (small_items [Data (vdf_proof v); Data (vdf_sol_first v); Data (vdf_sol_second v); int_item (vdf_difficulty v)] (2 ^ 20 + 9)) as [Hs Hb]; [|lia|simpl; lia|].
  - smalls. apply List.Forall_cons; [eapply weaken_small; [apply small_data; [done|lia]|lia]|]. apply List.Forall_cons; [eapply weaken_small; [apply small_data; [done|lia]|lia]|smalls].
  - split; [done|]. etrans; [exact Hb|simpl; lia].
Qed.

Lemma vdf_rlp_item v : vdf_ok v -> vdf_rlp v = Ok (encode (vdf_item v)).
Proof.
  intros Hv. destruct (vdf_small v Hv) as [Hs _]. destruct Hv as (_ & _ & _ & _ & _ & _ & H7). pose proof (small_Items _ Hs) as Hi. rewrite !Forall_cons in Hi. destruct Hi as (_ & _ & _ & S4 & _).
  apply write_list; [done|done|]. intros s. write_items.
Qed.

Lemma vdf_read v : vdf_ok v -> vdf_from (encode (vdf_item v)) = Ok v.
Proof.
  intros Hv. destruct (vdf_small v Hv) as [Hs _]. destruct Hv as (H1 & _ & _ & _ & _ & _ & H7). unfold vdf_from.
  destruct (Z.eqb_spec (bsize (encode (vdf_item v))) 0) as [E|_]; [exfalso; apply (encode_nonempty (vdf_item v)), length_zero_iff_nil; unfold bsize in E; lia|].
  rewrite newRLP_encode by done. cbn [rbind].
  assert (c_dec vdf_codec (encode (vdf_item v)) VeryStrict = Ok (vdf_proof v, (vdf_sol_first v, (vdf_sol_second v, vdf_difficulty v)))) as ->; [|by destruct v].
  eapply dec_as; [unfold vdf_codec; codec_law|simpl; done|reflexivity|done].
Qed.

Lemma dag_fields_small include_sig include_trxs b : dag_block_ok b ->
  Forall (fun i => small i /\ bsize (encode i) <= 2 ^ 29) (dag_fields include_sig include_trxs b) /\ small (Items (dag_fields include_sig include_trxs b)) /\
  bsize (encode (Items (dag_fields include_sig include_trxs b))) <= 2 ^ 33.
Proof.
  intros ([H1 H1'] & H2 & H3 & Hv & Ht & Hx & H4 & H5 & H6). destruct (vdf_small _ Hv) as [[Hvb Hvs] Hvz]. pose proof (hashes_small _ Ht). pose proof (hashes_small _ Hx).
  assert (Forall (fun i => small i /\ bsize (encode i) <= 2 ^ 29) (dag_fields include_sig include_trxs b)) as Hf.
  { assert (small (Data (encode (vdf_item (sd_vdf b)))) /\ bsize (encode (Data (encode (vdf_item (sd_vdf b))))) <= 2 ^ 29) by (eapply weaken_small; [apply small_data; [done|lia]|lia]).
    unfold dag_fields. rewrite !Forall_app. split_and!; [smalls|destruct include_trxs; smalls|destruct include_sig; smalls|smalls]. }
  split; [done|]. destruct (small_items _ (2 ^ 29) Hf) as [Hs Hb]; [lia|unfold dag_fields; destruct include_sig, include_trxs; simpl; lia|]. split; [done|].
  etrans; [exact Hb|]. unfold dag_fields. destruct include_sig, include_trxs; simpl; lia.
Qed.

Lemma appendVector_item s l : appendVector s l = stream_item s (hashes_item l).
Proof.
  unfold appendVector, hashes_item. rewrite <- (appendList_items s _ (Z.of_nat (length l))) by (by rewrite length_map). destruct (appendList s (Z.of_nat (length l))) as [s'| |]; [|done..]. cbn [rbind].
  by apply rfold_items.
Qed.

Lemma dag_block_rlp_item include_sig include_trxs b : dag_block_ok b -> dag_block_rlp include_sig include_trxs b = Ok (encode (Items (dag_fields include_sig include_trxs b))).
Proof.
  intros Hb. destruct (dag_fields_small include_sig include_trxs b Hb) as (Hf & Hs & _). destruct Hb as (_ & H2 & H3 & Hv & _ & _ & _ & _ & H6). unfold dag_block_rlp. apply write_list; [done| |].
  - unfold dag_fields. by destruct include_sig, include_trxs.
  - rewrite vdf_rlp_item by done. intros s. unfold dag_fields in *. rewrite !Forall_app, !Forall_cons in Hf. cbn [app rbind].
    destruct Hf as (((S1 & _) & (S2 & _) & (S3 & _) & _) & _ & _ & ((S6 & _) & _)). write_items.
    rewrite appendVector_item. apply write_item. intros ?. destruct include_trxs; cbn [app]; [rewrite appendVector_item; apply write_item; intros ?|cbn [rbind]]; (destruct include_sig; cbn [app]; [apply write_data; intros ?|cbn [rbind]]); write_items.
Qed.

Lemma hashes_lengths l : Forall hash32_ok l -> Forall (fun h => length h = 32%nat) l.
Proof. intros Hl. eapply Forall_impl; [exact Hl|by intros h [? _]]. Qed.

Lemma dag_block_read b : dag_block_ok b -> dag_block_from (encode (Items (dag_fields true true b))) = Ok b.
Proof.
  intros Hb. destruct (dag_fields_small true true b Hb) as (_ & Hs & _). destruct Hb as ([H1 _] & H2 & H3 & Hv & [Ht _] & [Hx _] & H4 & _ & H6). unfold dag_block_from.
  assert (c_dec dag_block_codec (encode (Items (dag_fields true true b))) VeryStrict =
    Ok (sd_pivot b, (sd_level b, (sd_timestamp b, (encode (vdf_item (sd_vdf b)), (sd_tips b, (sd_trxs b, (sd_sig b, sd_gas_estimation b)))))))) as ->.
  { eapply dec_as; [unfold dag_block_codec; codec_law| |reflexivity|done]. cbn [fst snd]. apply hashes_lengths in Ht, Hx. split_and!; done || lia. }
  cbn [rbind]. rewrite vdf_read by done. by destruct b.
Qed.

Lemma bundled_read b trxs : dag_block_ok b -> trxs = sd_trxs b -> dag_block_of_bundle (encode (Items (dag_fields true false b))) trxs = Ok b.
Proof.
  intros Hb ->. destruct (dag_fields_small true false b Hb) as (_ & Hs & _). destruct Hb as ([H1 _] & H2 & H3 & Hv & [Ht _] & _ & H4 & _ & H6). unfold dag_block_of_bundle.
  assert (c_dec bundled_codec (encode (Items (dag_fields true false b))) VeryStrict =
    Ok (sd_pivot b, (sd_level b, (sd_timestamp b, (encode (vdf_item (sd_vdf b)), (sd_tips b, (sd_sig b, sd_gas_estimation b))))))) as ->.
  { eapply dec_as; [unfold bundled_codec; codec_law| |reflexivity|done]. cbn [fst snd]. apply hashes_lengths in Ht. split_and!; done || lia. }
  cbn [rbind]. rewrite vdf_read by done. by destruct b.
Qed.

(** A well-formed DAG block that is serialised is read back as the same block, and the
    level and the signature that are read at their positions, without the rest of the
    block, are those of the block. *)
Theorem dag_block_roundtrip b : dag_block_ok b ->
  exists d, dag_block_rlp true true b = Ok d /\ newRLP d VeryStrict = Ok d /\ dag_block_from d = Ok b /\
    extract_dag_level_from_rlp d = Ok (sd_level b) /\ extract_signature_from_rlp d = Ok (sd_sig b).
Proof.
  intros Hb. destruct (dag_fields_small true true b Hb) as (Hf & Hs & _). exists (encode (Items (dag_fields true true b))).
  split_and!; [by apply dag_block_rlp_item|by apply newRLP_encode|by apply dag_block_read| |].
  all: destruct Hb as (_ & H2 & _ & _ & _ & _ & H4 & _); unfold dag_fields in Hf; cbn [app] in Hf; rewrite !Forall_cons in Hf; destruct Hf as (_ & (S2 & _) & _ & _ & _ & _ & (S7 & _) & _).
  - unfold extract_dag_level_from_rlp, kLevelPosInRlp. read_at Hs 1 1%nat. by apply toInt_item.
  - unfold extract_signature_from_rlp, kSigPosInRlp. read_at Hs 6 6%nat. by apply toHash_item.
Qed.

Definition sample_dag_block (level : Z) (trxs : list bytes) : SerialDagBlock :=
  mkSerialDagBlock (replicate 32 1) level 1700000000 (mkSerialVdf (replicate 80 3) [5; 6] [200] 17) [replicate 32 2] trxs (replicate 65 8) 21000.

Lemma hash32_replicate b : byte_ok b -> hash32_ok (replicate 32 b).
Proof. intros Hb. split; [done|by apply Forall_replicate]. Qed.

Lemma sample_dag_block_ok level trxs : 0 <= level < 2 ^ 64 -> hashes_ok trxs -> dag_block_ok (sample_dag_block level trxs).
Proof.
  intros Hl Ht. assert (forall b n, byte_ok b -> bytes_ok (replicate n b)) as Hr by (intros b n Hb; by apply Forall_replicate).
  split; [apply hash32_replicate; unfold byte_ok; lia|]. split; [done|]. split; [simpl; lia|]. split.
  { repeat split; simpl; try lia; try done; try (apply Hr; unfold byte_ok; lia); repeat (apply List.Forall_cons; [unfold byte_ok; lia|]); constructor. }
  split; [split; [apply List.Forall_cons; [apply hash32_replicate; unfold byte_ok; lia|constructor]|done]|]. split; [done|]. split; [done|]. split; [apply Hr; unfold byte_ok; lia|simpl; lia].
Qed.

Lemma dag_block_roundtrip_witness :
  exists d, dag_block_rlp true true (sample_dag_block 7 [replicate 32 4]) = Ok d /\ newRLP d VeryStrict = Ok d /\ dag_block_from d = Ok (sample_dag_block 7 [replicate 32 4]) /\
    extract_dag_level_from_rlp d = Ok 7 /\ extract_signature_from_rlp d = Ok (replicate 65 8).
Proof.
  apply (dag_block_roundtrip (sample_dag_block 7 [replicate 32 4])). apply sample_dag_block_ok; [lia|]. split; [|done].
  apply List.Forall_cons; [apply hash32_replicate; unfold byte_ok; lia|constructor].
Defined.
