(* ===== verification/DagBundleRlp.v ===== *)
(** * Serialisation of bundles of DAG blocks

    Several DAG blocks in one message, as syncing peers and the entries of a period store
    them: the hashes of the transactions are written once, and each block refers to them by
    index (types/dag_block/src/dag_block_bundle_rlp.cpp). *)

From S2P Require Import Prelude Rlp RlpStream RlpRead RlpItems RlpCodec DagBlockRlp.
Local Open Scope Z_scope.
Local Open Scope rlp_scope.

Definition kDAGBlocksBundleRlpSize : Z := 3.

(** The hashes that were met, with the index each got. *)
Record TrxIndex := mkTrxIndex { trx_hash_map : gmap bytes Z; ordered_trx_hashes : list bytes }.

Definition start : TrxIndex := mkTrxIndex ∅ [].

Definition index_trx (t : TrxIndex) (trx : bytes) : TrxIndex * Z :=
  match trx_hash_map t !! trx with
  | Some i => (t, i)
  | None =>
      let i := Z.of_nat (size (trx_hash_map t)) mod 2 ^ 32 in
      (mkTrxIndex (<[trx := i]> (trx_hash_map t)) (ordered_trx_hashes t ++ [trx]), i)
  end.

Fixpoint index_trxs (t : TrxIndex) (trxs : list bytes) : TrxIndex * list Z :=
  match trxs with
  | [] => (t, [])
  | trx :: trxs => let (t, i) := index_trx t trx in let (t, idx) := index_trxs t trxs in (t, i :: idx)
  end.

Fixpoint index_blocks (t : TrxIndex) (blocks : list SerialDagBlock) : TrxIndex * list (list Z) :=
  match blocks with
  | [] => (t, [])
  | b :: blocks => let (t, idx) := index_trxs t (sd_trxs b) in let (t, indexes) := index_blocks t blocks in (t, idx :: indexes)
  end.

(** The part of [encodeDAGBlocksBundleRlp] after the check for no blocks. *)
Definition write_bundle (blocks : list SerialDagBlock) : res bytes :=
  let (t, indexes) := index_blocks start blocks in
  let* s := appendList newRLPStream kDAGBlocksBundleRlpSize in
  let* s := appendList s (Z.of_nat (length (ordered_trx_hashes t))) in
  let* s := rfold (fun s h => append s h false) (ordered_trx_hashes t) s in
  let* s := appendList s (Z.of_nat (length indexes)) in
  let* s := rfold (fun s idx => let* s := appendList s (Z.of_nat (length idx)) in rfold append_int_ idx s) indexes s in
  let* s := appendList s (Z.of_nat (length blocks)) in
  let* s := rfold (fun s b => let* d := dag_block_rlp true false b in appendRaw s d 1) blocks s in
  stream_out s.

Definition encodeDAGBlocksBundleRlp (blocks : list SerialDagBlock) : res bytes :=
  match blocks with [] => Ok [] | _ => write_bundle blocks end.

(** [v[i]] of a vector, without a check of the index. *)
Definition at_index {A} (l : list A) (i : Z) : res A := match l !! Z.to_nat i with Some a => Ok a | None => OutOfBounds end.

Definition hashes_of (ordered : list bytes) (idx_rlp : bytes) : res (list bytes) :=
  let* _ := itemCount idx_rlp in
  rlp_for (fun i => let* n := toInt 32 i Strict in at_index ordered n) idx_rlp.

(** The loop over [i < blocks_bundle_rlp[2].itemCount()]; [d] is [blocks_bundle_rlp[2]]. *)
Definition bundle_blocks (d : bytes) (dags_trx_hashes : list (list bytes)) : res (list SerialDagBlock) :=
  let* n := itemCount d in
  rmap (fun i => let* b := rlp_at d (Z.of_nat i) in let* trxs := at_index dags_trx_hashes (Z.of_nat i) in dag_block_of_bundle b trxs) (seq 0 (Z.to_nat n)).

Definition decodeDAGBlocksBundleRlp (d : bytes) : res (list SerialDagBlock) :=
  let* n := itemCount d in
  if negb (n =? kDAGBlocksBundleRlpSize) then Ok []
  else
    let* d0 := rlp_at d 0 in
    let* _ := itemCount d0 in
    let* ordered := rlp_for (fun h => toHash 32 h Strict) d0 in
    let* d1 := rlp_at d 1 in
    let* dags_trx_hashes := rlp_for (hashes_of ordered) d1 in
    let* d2 := rlp_at d 2 in
    bundle_blocks d2 dags_trx_hashes.

(** One block of a bundle. *)
Definition decodeDAGBlockBundleRlp (index : Z) (d : bytes) : res (option SerialDagBlock) :=
  let* n := itemCount d in
  if negb (n =? kDAGBlocksBundleRlpSize) then Ok None
  else
    let* d2 := rlp_at d 2 in
    let* n := itemCount d2 in
    if n <=? index then Ok None
    else
      let* d0 := rlp_at d 0 in
      let* _ := itemCount d0 in
      let* ordered := rlp_for (fun h => toHash 32 h Strict) d0 in
      let* d1 := rlp_at d 1 in
      let* idx_rlp := rlp_at d1 index in
      let* hashes := hashes_of ordered idx_rlp in
      let* b := rlp_at d2 index in
      let* b := dag_block_of_bundle b hashes in
      Ok (Some b).

(** ** The indexes of the transactions *)

(** The map holds the position of each hash that was met. *)
Record index_inv (t : TrxIndex) : Prop := {
  ii_size : size (trx_hash_map t) = length (ordered_trx_hashes t);
  ii_lookup trx i : trx_hash_map t !! trx = Some i -> 0 <= i < 2 ^ 32 /\ ordered_trx_hashes t !! Z.to_nat i = Some trx;
  ii_known trx : trx ∈ ordered_trx_hashes t -> is_Some (trx_hash_map t !! trx);
  ii_nodup : NoDup (ordered_trx_hashes t);
}.

Lemma start_inv : index_inv start.
Proof. split; [done|done|set_solver|constructor]. Qed.

(** The index of a hash in the list. *)
Definition points_to (l : list bytes) (i : Z) (h : bytes) : Prop := 0 <= i < 2 ^ 32 /\ l !! Z.to_nat i = Some h.

Lemma points_to_prefix l l' i h : l `prefix_of` l' -> points_to l i h -> points_to l' i h.
Proof. intros Hp [Hi Hl]. split; [done|]. by eapply prefix_lookup_Some. Qed.

Lemma index_trx_spec t trx t' i : index_inv t -> Z.of_nat (length (ordered_trx_hashes t)) < 2 ^ 32 -> index_trx t trx = (t', i) ->
  index_inv t' /\ ordered_trx_hashes t `prefix_of` ordered_trx_hashes t' /\ points_to (ordered_trx_hashes t') i trx /\
  (length (ordered_trx_hashes t') <= S (length (ordered_trx_hashes t)))%nat /\ (forall h, h ∈ ordered_trx_hashes t' -> h ∈ ordered_trx_hashes t \/ h = trx).
Proof.
  intros [Hs Hl Hk Hn] Hb. unfold index_trx. destruct (trx_hash_map t !! trx) as [j|] eqn:E; intros [= <- <-].
  - split_and!; [by split|done|by apply Hl|lia|auto].
  - rewrite Hs, Z.mod_small by lia. simpl. split_and!.
    + assert (trx ∉ ordered_trx_hashes t) as Hnew by (intros H; apply Hk in H as [? H]; congruence). split; simpl.
      * rewrite map_size_insert_None, length_app by done. simpl. lia.
      * intros h j. destruct (decide (h = trx)) as [->|Hne]; [rewrite lookup_insert_eq; intros [= <-]|rewrite lookup_insert_ne by done; intros H].
        -- split; [lia|]. rewrite Nat2Z.id, lookup_app_r, Nat.sub_diag by lia. done.
        -- destruct (Hl _ _ H) as [H1 H2]. split; [done|]. by apply lookup_app_l_Some.
      * intros h. rewrite elem_of_app, list_elem_of_singleton. destruct (decide (h = trx)) as [->|Hne]; [by rewrite lookup_insert_eq|]. rewrite lookup_insert_ne by done. intros [H|H]; [by apply Hk|done].
      * apply NoDup_app. split; [done|]. split; [set_solver|apply NoDup_singleton].
    + by apply prefix_app_r.
    + split; [lia|]. rewrite Nat2Z.id, lookup_app_r, Nat.sub_diag by lia. done.
    + rewrite length_app. simpl. lia.
    + intros h. rewrite elem_of_app, list_elem_of_singleton. naive_solver.
Qed.

Lemma index_trxs_spec trxs : forall t t' idx, index_inv t -> Z.of_nat (length (ordered_trx_hashes t) + length trxs) < 2 ^ 32 -> index_trxs t trxs = (t', idx) ->
  index_inv t' /\ ordered_trx_hashes t `prefix_of` ordered_trx_hashes t' /\ Forall2 (points_to (ordered_trx_hashes t')) idx trxs /\
  (length (ordered_trx_hashes t') <= length (ordered_trx_hashes t) + length trxs)%nat /\ (forall h, h ∈ ordered_trx_hashes t' -> h ∈ ordered_trx_hashes t \/ h ∈ trxs).
Proof.
  induction trxs as [|trx trxs IH]; intros t t' idx Hi Hb; cbn [index_trxs]; [intros [= <- <-]; split_and!; [done|done|constructor|simpl; lia|auto]|].
  destruct (index_trx t trx) as [t1 i] eqn:E1, (index_trxs t1 trxs) as [t2 idx'] eqn:E2. intros [= <- <-]. simpl in Hb.
  destruct (index_trx_spec t trx t1 i Hi ltac:(lia) E1) as (Hi1 & Hp1 & Hx & Hl1 & Hm1). destruct (IH t1 t2 idx' Hi1 ltac:(lia) E2) as (Hi2 & Hp2 & Hf & Hl2 & Hm2).
  split_and!; [done|by etrans|constructor; [by eapply points_to_prefix|done]|simpl; lia|]. intros h Hh. rewrite elem_of_cons. destruct (Hm2 h Hh) as [H|]; [|auto]. destruct (Hm1 h H); auto.
Qed.

Definition all_trxs (blocks : list SerialDagBlock) : list bytes := flat_map sd_trxs blocks.

Lemma index_blocks_spec blocks : forall t t' indexes, index_inv t -> Z.of_nat (length (ordered_trx_hashes t) + length (all_trxs blocks)) < 2 ^ 32 -> index_blocks t blocks = (t', indexes) ->
  index_inv t' /\ ordered_trx_hashes t `prefix_of` ordered_trx_hashes t' /\ Forall2 (fun idx b => Forall2 (points_to (ordered_trx_hashes t')) idx (sd_trxs b)) indexes blocks /\
  (length (ordered_trx_hashes t') <= length (ordered_trx_hashes t) + length (all_trxs blocks))%nat /\ (forall h, h ∈ ordered_trx_hashes t' -> h ∈ ordered_trx_hashes t \/ h ∈ all_trxs blocks).
Proof.
  induction blocks as [|b blocks IH]; intros t t' indexes Hi Hb; cbn [index_blocks]; [intros [= <- <-]; split_and!; [done|done|constructor|simpl; lia|auto]|].
  unfold all_trxs in *. cbn [flat_map] in *. rewrite length_app in *. destruct (index_trxs t (sd_trxs b)) as [t1 idx] eqn:E1, (index_blocks t1 blocks) as [t2 indexes'] eqn:E2. intros [= <- <-].
  destruct (index_trxs_spec (sd_trxs b) t t1 idx Hi ltac:(lia) E1) as (Hi1 & Hp1 & Hx & Hl1 & Hm1). destruct (IH t1 t2 indexes' Hi1 ltac:(lia) E2) as (Hi2 & Hp2 & Hf & Hl2 & Hm2).
  split_and!; [done|by etrans| |lia|].
  - constructor; [|done]. eapply Forall2_impl; [exact Hx|]. intros i h Hih. by eapply points_to_prefix.
  - intros h Hh. rewrite elem_of_app. destruct (Hm2 h Hh) as [H|]; [|auto]. destruct (Hm1 h H); auto.
Qed.

(** ** The items of a bundle *)

Definition idx_item (idx : list Z) : item := Items (map int_item idx).
Definition bundle_fields (t : TrxIndex) (indexes : list (list Z)) (blocks : list SerialDagBlock) : list item :=
  [hashes_item (ordered_trx_hashes t); Items (map idx_item indexes); Items (map (fun b => Items (dag_fields true false b)) blocks)].

Definition bundle_ok (blocks : list SerialDagBlock) : Prop :=
  Forall dag_block_ok blocks /\ Z.of_nat (length blocks) < 2 ^ 20 /\ Z.of_nat (length (all_trxs blocks)) < 2 ^ 32.

Lemma rmap_Forall2 {A B C} (f : bytes -> res C) (g : A -> item) (h : B -> C) (P : A -> B -> Prop) l bs : (forall a b, a ∈ l -> P a b -> f (encode (g a)) = Ok (h b)) -> Forall2 P l bs ->
  rmap f (map encode (map g l)) = Ok (map h bs).
Proof.
  intros Hf HP. induction HP as [|a b l bs Hab HP IH]; [done|]. cbn [rmap map]. rewrite (Hf a b) by (done || by left). cbn [rbind]. rewrite IH; [done|]. intros a' b' Ha. apply Hf. by right.
Qed.

Lemma rmap_seq {A} (f : nat -> res A) l : (forall i a, l !! i = Some a -> f i = Ok a) -> rmap f (seq 0 (length l)) = Ok l.
Proof.
  revert f. induction l as [|a l IH]; intros f Hf; [done|]. cbn [length seq rmap]. rewrite (Hf 0%nat a) by done. cbn [rbind]. rewrite <- seq_shift.
  assert (rmap f (map S (seq 0 (length l))) = rmap (fun i => f (S i)) (seq 0 (length l))) as -> by (clear; induction (seq 0 (length l)) as [|x xs IH]; [done|]; cbn [map rmap]; by rewrite IH).
  rewrite (IH (fun i => f (S i))); [done|]. intros i b Hi. by apply Hf.
Qed.

Section bundle.
Context (blocks : list SerialDagBlock) (t : TrxIndex) (indexes : list (list Z)).
Hypothesis ok : bundle_ok blocks.
Hypothesis indexed : index_blocks start blocks = (t, indexes).

Lemma indexed_spec : Forall hash32_ok (ordered_trx_hashes t) /\ Z.of_nat (length (ordered_trx_hashes t)) < 2 ^ 32 /\ NoDup (ordered_trx_hashes t) /\ length indexes = length blocks /\
  Forall2 (fun idx b => Forall2 (points_to (ordered_trx_hashes t)) idx (sd_trxs b)) indexes blocks.
Proof using ok indexed.
  destruct ok as (Hb & Hn & Ht). destruct (index_blocks_spec blocks start t indexes start_inv ltac:(simpl; lia) indexed) as (Hi & _ & Hf & Hl & Hm). simpl in Hl.
  split_and!; [|lia|by apply ii_nodup|by eapply Forall2_length|done].
  apply Forall_forall. intros h Hh. destruct (Hm h Hh) as [H|H]; [by apply elem_of_nil in H|]. unfold all_trxs in H. apply list_elem_of_In, in_flat_map in H as (b & H1 & H2).
  apply list_elem_of_In in H1, H2. rewrite Forall_forall in Hb. destruct (Hb b H1) as (_ & _ & _ & _ & _ & [Hx _] & _). rewrite Forall_forall in Hx. auto.
Qed.

Lemma idx_in idx : idx ∈ indexes -> Forall (fun i => 0 <= i < 2 ^ 32) idx /\ Z.of_nat (length idx) < 2 ^ 20.
Proof using ok indexed.
  intros Hin. destruct indexed_spec as (_ & _ & _ & _ & Hf). apply list_elem_of_lookup in Hin as [n Hn]. destruct (Forall2_lookup_l _ _ _ _ _ Hf Hn) as (b & Hb & Hx). split.
  - apply Forall_forall. intros i Hi. apply list_elem_of_lookup in Hi as [m Hm]. by destruct (Forall2_lookup_l _ _ _ _ _ Hx Hm) as (h & _ & [Hi _]).
  - rewrite (Forall2_length _ _ _ Hx). destruct ok as (Hok & _). rewrite Forall_forall in Hok. apply list_elem_of_lookup_2 in Hb. by destruct (Hok b Hb) as (_ & _ & _ & _ & _ & [_ H] & _).
Qed.

Lemma idx_small idx : idx ∈ indexes -> small (idx_item idx) /\ bsize (encode (idx_item idx)) <= 2 ^ 26.
Proof using ok indexed.
  intros Hin. destruct (idx_in idx Hin) as [Hi Hn]. apply (map_small_in _ _ 41 (2 ^ 20)); [|lia..]. eapply Forall_impl; [exact Hi|]. intros i Hr. apply (small_int 32); [lia|exact Hr].
Qed.

Lemma bundle_items_small : small (Items (bundle_fields t indexes blocks)) /\ small (hashes_item (ordered_trx_hashes t)) /\ small (Items (map idx_item indexes)) /\
  small (Items (map (fun b => Items (dag_fields true false b)) blocks)) /\ bsize (encode (Items (bundle_fields t indexes blocks))) <= 2 ^ 56.
Proof using ok indexed.
  destruct indexed_spec as (Hh & Hl & _ & Hlen & _). pose proof ok as (Hb & Hn & _).
  assert (small (hashes_item (ordered_trx_hashes t)) /\ bsize (encode (hashes_item (ordered_trx_hashes t))) <= 2 ^ 54) as H1.
  { apply (map_small_in _ _ 300 (2 ^ 32)); [|lia..]. eapply Forall_impl; [exact Hh|]. intros h [? ?]. by eapply small_fixed; [|eassumption|lia]. }
  assert (small (Items (map idx_item indexes)) /\ bsize (encode (Items (map idx_item indexes))) <= 2 ^ 54) as H2.
  { apply (map_small_in _ _ (2 ^ 26) (2 ^ 20)); [|lia..]. apply Forall_forall. apply idx_small. }
  assert (small (Items (map (fun b => Items (dag_fields true false b)) blocks)) /\ bsize (encode (Items (map (fun b => Items (dag_fields true false b)) blocks))) <= 2 ^ 54) as H3.
  { apply (map_small_in _ _ (2 ^ 33) (2 ^ 20)); [|lia..]. eapply Forall_impl; [exact Hb|]. intros b H. by destruct (dag_fields_small true false b H) as (_ & ? & ?). }
  destruct (small_items (bundle_fields t indexes blocks) (2 ^ 54)) as [Hs Hz]; [unfold bundle_fields; smalls|lia|simpl; lia|]. split_and!; [done|apply H1|apply H2|apply H3|].
  etrans; [exact Hz|simpl; lia].
Qed.

Lemma bundle_written : write_bundle blocks = Ok (encode (Items (bundle_fields t indexes blocks))).
Proof using ok indexed.
  destruct bundle_items_small as (Hs & _). unfold write_bundle. rewrite indexed.
  apply write_list; [done|done|]. intros s. apply (write_subs _ Data); [|done|done]. intros s1. apply (write_subs _ idx_item); [|done|].
  - intros s2. apply (write_subs _ (fun b => Items (dag_fields true false b))); [done|done|]. intros s3 b Hin. destruct ok as (Hb & _). rewrite Forall_forall in Hb.
    rewrite dag_block_rlp_item by auto. cbn [rbind]. apply raw_item. by destruct (dag_fields_small true false b (Hb b Hin)) as (_ & H & _).
  - intros s3 idx Hin. destruct (idx_in idx Hin) as [Hi _], (idx_small idx Hin) as [Hsi _]. apply small_Items in Hsi. unfold idx_item.
    rewrite <- (appendList_items s3 _ (Z.of_nat (length idx))) by (by rewrite length_map). destruct (appendList s3 (Z.of_nat (length idx))) as [s4| |]; [|done..]. cbn [rbind].
    apply rfold_items. intros s5 i Hi'. rewrite Forall_forall in Hi. rewrite Forall_fmap, Forall_forall in Hsi. apply (append_int_item s5 32); [lia|done|by apply Hi|by apply Hsi].
Qed.

Lemma hashes_of_idx idx b : idx ∈ indexes -> Forall2 (points_to (ordered_trx_hashes t)) idx (sd_trxs b) -> hashes_of (ordered_trx_hashes t) (encode (idx_item idx)) = Ok (sd_trxs b).
Proof using ok indexed.
  intros Hin Hx. destruct (idx_small idx Hin) as [Hs _]. unfold hashes_of, idx_item in *. destruct (itemCount_encode _ Hs) as [-> _]. rewrite rlp_for_encode by done. cbn [rbind].
  apply small_Items in Hs. clear Hin. induction Hx as [|i h idx' trxs [Hi Hl] Hx IH]; [done|]. cbn [map] in *. apply Forall_cons in Hs as [H1 H2]. cbn [rmap]. rewrite toInt_item by (done || lia).
  cbn [rbind]. unfold at_index at 1. rewrite Hl. cbn [rbind]. by rewrite IH.
Qed.

Lemma all_hashes_of : rmap (hashes_of (ordered_trx_hashes t)) (map encode (map idx_item indexes)) = Ok (map sd_trxs blocks).
Proof using ok indexed.
  destruct indexed_spec as (_ & _ & _ & _ & Hf). eapply rmap_Forall2; [|exact Hf]. intros idx b Hin Hx. by apply hashes_of_idx.
Qed.

Lemma bundle_blocks_read : bundle_blocks (encode (Items (map (fun b => Items (dag_fields true false b)) blocks))) (map sd_trxs blocks) = Ok blocks.
Proof using ok indexed.
  destruct bundle_items_small as (_ & _ & _ & Hs & _). destruct ok as (Hb & _). unfold bundle_blocks. destruct (itemCount_encode _ Hs) as [-> _]. cbn [rbind]. rewrite length_map, Nat2Z.id.
  apply rmap_seq. intros i b Hi. rewrite (rlp_at_encode _ i (Items (dag_fields true false b)) Hs) by (by rewrite list_lookup_fmap, Hi). cbn [rbind].
  unfold at_index. rewrite Nat2Z.id, list_lookup_fmap, Hi. cbn [fmap option_fmap option_map rbind]. apply bundled_read; [|done]. eapply Forall_lookup_1; [exact Hb|exact Hi].
Qed.

Lemma ordered_read : rlp_for (fun h => toHash 32 h Strict) (encode (hashes_item (ordered_trx_hashes t))) = Ok (ordered_trx_hashes t).
Proof using ok indexed.
  destruct bundle_items_small as (_ & H1 & _). destruct indexed_spec as (Hh & _). unfold hashes_item in *. rewrite rlp_for_encode, (rmap_items _ Data id), map_id; [done| |done].
  intros h Hin. apply small_Items in H1. rewrite Forall_fmap, Forall_forall in H1. rewrite Forall_forall in Hh. apply toHash_item; [by apply Hh|by apply H1].
Qed.

Lemma bundle_read_back : decodeDAGBlocksBundleRlp (encode (Items (bundle_fields t indexes blocks))) = Ok blocks.
Proof using ok indexed.
  destruct bundle_items_small as (Hs & H1 & H2 & H3 & _). unfold decodeDAGBlocksBundleRlp. destruct (itemCount_encode _ Hs) as [-> _]. cbn [rbind].
  change (Z.of_nat (length (bundle_fields t indexes blocks)) =? kDAGBlocksBundleRlpSize) with true. cbn [negb]. read_at Hs 0 0%nat.
  destruct (itemCount_encode _ H1) as [E _]. unfold hashes_item at 1. rewrite E. cbn [rbind]. rewrite ordered_read. cbn [rbind]. read_at Hs 1 1%nat.
  rewrite rlp_for_encode, all_hashes_of by done. cbn [rbind]. read_at Hs 2 2%nat. apply bundle_blocks_read.
Qed.

Lemma bundle_read_one i b : blocks !! i = Some b -> decodeDAGBlockBundleRlp (Z.of_nat i) (encode (Items (bundle_fields t indexes blocks))) = Ok (Some b).
Proof using ok indexed.
  intros Hi. destruct bundle_items_small as (Hs & H1 & H2 & H3 & _). destruct indexed_spec as (_ & _ & _ & Hlen & Hf). pose proof (lookup_lt_Some _ _ _ Hi) as Hlt.
  destruct (Forall2_lookup_r _ _ _ _ _ Hf Hi) as (idx & Hidx & Hx). unfold decodeDAGBlockBundleRlp. destruct (itemCount_encode _ Hs) as [-> _]. cbn [rbind].
  change (Z.of_nat (length (bundle_fields t indexes blocks)) =? kDAGBlocksBundleRlpSize) with true. cbn [negb]. read_at Hs 2 2%nat. destruct (itemCount_encode _ H3) as [-> _]. cbn [rbind].
  rewrite length_map. destruct (Z.leb_spec (Z.of_nat (length blocks)) (Z.of_nat i)); [lia|]. read_at Hs 0 0%nat. destruct (itemCount_encode _ H1) as [E _]. unfold hashes_item at 1. rewrite E. cbn [rbind].
  rewrite ordered_read. cbn [rbind]. read_at Hs 1 1%nat. rewrite (rlp_at_encode _ i (idx_item idx) H2) by (by rewrite list_lookup_fmap, Hidx). cbn [rbind].
  rewrite (hashes_of_idx idx b) by (done || by apply list_elem_of_lookup_2 with i). cbn [rbind]. rewrite (rlp_at_encode _ i (Items (dag_fields true false b)) H3) by (by rewrite list_lookup_fmap, Hi). cbn [rbind].
  rewrite bundled_read; [done| |done]. destruct ok as (Hb & _). by eapply Forall_lookup_1.
Qed.
End bundle.

(** A bundle of well-formed DAG blocks is read back as these blocks in order, each with
    all its transactions, although the bundle holds the hash of a transaction once; a block
    that is read alone by its index is the block at this index. *)
Theorem dag_bundle_roundtrip blocks : blocks <> [] -> bundle_ok blocks ->
  exists d, encodeDAGBlocksBundleRlp blocks = Ok d /\ newRLP d VeryStrict = Ok d /\ decodeDAGBlocksBundleRlp d = Ok blocks /\
    NoDup (ordered_trx_hashes (index_blocks start blocks).1) /\ (forall i b, blocks !! i = Some b -> decodeDAGBlockBundleRlp (Z.of_nat i) d = Ok (Some b)).
Proof.
  intros Hne Hok. destruct (index_blocks start blocks) as [t indexes] eqn:E. exists (encode (Items (bundle_fields t indexes blocks))). split_and!.
  - unfold encodeDAGBlocksBundleRlp. destruct blocks; [done|]. by apply bundle_written.
  - by apply newRLP_encode, bundle_items_small.
  - by apply bundle_read_back.
  - by eapply indexed_spec.
  - intros i b Hi. by apply bundle_read_one.
Qed.

Lemma dag_bundle_roundtrip_witness :
  exists d, encodeDAGBlocksBundleRlp [sample_dag_block 7 [replicate 32 4; replicate 32 5]; sample_dag_block 8 [replicate 32 5]] = Ok d /\ newRLP d VeryStrict = Ok d /\
    decodeDAGBlocksBundleRlp d = Ok [sample_dag_block 7 [replicate 32 4; replicate 32 5]; sample_dag_block 8 [replicate 32 5]] /\
    NoDup [replicate 32 4; replicate 32 5] /\ (forall i b, [sample_dag_block 7 [replicate 32 4; replicate 32 5]; sample_dag_block 8 [replicate 32 5]] !! i = Some b -> decodeDAGBlockBundleRlp (Z.of_nat i) d = Ok (Some b)).
Proof.
  apply (dag_bundle_roundtrip [sample_dag_block 7 [replicate 32 4; replicate 32 5]; sample_dag_block 8 [replicate 32 5]]); [done|].
  assert (forall l, Forall (fun b => b = 4 \/ b = 5) l -> hashes_ok (take 9 (map (replicate 32) l))) as H.
  { intros l Hl. split; [apply Forall_take, Forall_fmap; eapply Forall_impl; [exact Hl|]; intros b [-> | ->]; apply hash32_replicate; unfold byte_ok; lia|]. rewrite length_take. lia. }
  split; [|done]. apply List.Forall_cons; [apply sample_dag_block_ok; [lia|apply (H [4; 5])]|apply List.Forall_cons; [apply sample_dag_block_ok; [lia|apply (H [5])]|constructor]]; repeat (apply List.Forall_cons; [by auto|]); constructor.
Defined.

(** ** What the reader does not check *)

Lemma small_bundle l1 l2 l3 : l1 = [] -> Forall (fun i => small i /\ bsize (encode i) <= 2 ^ 20) l2 -> Forall (fun i => small i /\ bsize (encode i) <= 2 ^ 33) l3 ->
  Z.of_nat (length l2) <= 2 -> Z.of_nat (length l3) <= 2 -> small (Items [Items l1; Items l2; Items l3]) /\ small (Items l1) /\ small (Items l2) /\ small (Items l3).
Proof.
  intros -> H2 H3 L2 L3. assert (small (Items []) /\ bsize (encode (Items [])) <= 2 ^ 40) as S1 by (apply weaken_small with 9; [by apply (small_items [] 0)|lia]).
  assert (small (Items l2) /\ bsize (encode (Items l2)) <= 2 ^ 40) as S2 by (destruct (small_items l2 (2 ^ 20)) as [? ?]; [done|lia|lia|split; [done|lia]]).
  assert (small (Items l3) /\ bsize (encode (Items l3)) <= 2 ^ 40) as S3 by (destruct (small_items l3 (2 ^ 33)) as [? ?]; [done|lia|lia|split; [done|lia]]).
  split_and!; [|apply S1|apply S2|apply S3]. apply (small_items _ (2 ^ 40)); [smalls|lia|simpl; lia].
Qed.

(** Reading a bundle without transactions up to the blocks. *)
Lemma bundle_read_start l2 l3 : small (Items [Items []; Items l2; Items l3]) -> small (Items []) -> small (Items l2) ->
  decodeDAGBlocksBundleRlp (encode (Items [Items []; Items l2; Items l3])) = let* h := rmap (hashes_of []) (map encode l2) in bundle_blocks (encode (Items l3)) h.
Proof.
  intros Hs H1 H2. unfold decodeDAGBlocksBundleRlp. destruct (itemCount_encode _ Hs) as [-> _]. cbn [rbind].
  change (Z.of_nat (length [Items []; Items l2; Items l3]) =? kDAGBlocksBundleRlpSize) with true. cbn [negb]. read_at Hs 0 0%nat. destruct (itemCount_encode _ H1) as [-> _]. cbn [rbind].
  rewrite rlp_for_encode by done. cbn [map rmap rbind]. read_at Hs 1 1%nat. rewrite rlp_for_encode by done. destruct (rmap _ _); [|done..]. cbn [rbind]. read_at Hs 2 2%nat. done.
Qed.

(** The indexes of a bundle are not checked: a bundle that names a transaction it does not
    hold, and one with fewer lists of indexes than blocks, make the reader access the
    vectors out of bounds, although both are well-formed encodings. *)
Theorem bundle_out_of_bounds :
  (forall i, 0 <= i < 2 ^ 32 -> exists d, newRLP d VeryStrict = Ok d /\ d = encode (Items [Items []; Items [Items [int_item i]]; Items []]) /\ decodeDAGBlocksBundleRlp d = OutOfBounds) /\
  (forall b, dag_block_ok b -> exists d, newRLP d VeryStrict = Ok d /\ d = encode (Items [Items []; Items []; Items [Items (dag_fields true false b)]]) /\ decodeDAGBlocksBundleRlp d = OutOfBounds).
Proof.
  split.
  - intros i Hi. assert (small (Items [int_item i]) /\ bsize (encode (Items [int_item i])) <= 2 ^ 20) as Hx.
    { destruct (small_items [int_item i] 41) as [H1 H2]; [smalls|lia|simpl; lia|]. split; [done|]. etrans; [exact H2|simpl; lia]. }
    destruct (small_bundle [] [Items [int_item i]] []) as (Hs & H1 & H2 & H3); [done|by apply Forall_singleton|apply List.Forall_nil|simpl; lia..|].
    exists (encode (Items [Items []; Items [Items [int_item i]]; Items []])). split_and!; [by apply newRLP_encode|done|]. rewrite bundle_read_start by done. cbn [map rmap rbind].
    destruct Hx as [Hx _]. unfold hashes_of at 1. destruct (itemCount_encode _ Hx) as [-> _]. rewrite rlp_for_encode by done. cbn [rbind map rmap]. apply small_Items, Forall_inv in Hx.
    rewrite toInt_item by (done || lia). done.
  - intros b Hb. destruct (dag_fields_small true false b Hb) as (_ & Hx).
    destruct (small_bundle [] [] [Items (dag_fields true false b)]) as (Hs & H1 & H2 & H3); [done|apply List.Forall_nil|by apply Forall_singleton|simpl; lia..|].
    exists (encode (Items [Items []; Items []; Items [Items (dag_fields true false b)]])). split_and!; [by apply newRLP_encode|done|]. rewrite bundle_read_start by done. cbn [map rmap rbind].
    unfold bundle_blocks. destruct (itemCount_encode _ H3) as [-> _]. cbn [rbind].
    change (seq 0 (Z.to_nat (Z.of_nat (length [Items (dag_fields true false b)])))) with [0%nat]. cbn [rmap]. rewrite (rlp_at_encode _ 0 (Items (dag_fields true false b)) H3) by done. done.
Qed.
