(* ===== verification/TransactionRlp.v ===== *)
(** * Serialisation of transactions

    How a transaction is read and written, with the chain id inside the signature's [v], and
    the gas a transaction has to pay for its data (types/transaction/src/transaction.cpp).
    The numbers [r] and [s] of a signature are kept as numbers of 256 bits. *)

From S2P Require Import Prelude Rlp RlpStream RlpRead RlpItems RlpCodec.
Local Open Scope Z_scope.
Local Open Scope rlp_scope.
#[local] Hint Resolve bsize_nonneg : core.

Record SerialTransaction := mkSerialTransaction {
  tx_nonce : Z;
  tx_gas_price : Z;
  tx_gas : Z;
  tx_receiver : option bytes;
  tx_value : Z;
  tx_data : bytes;
  tx_chain_id : Z;
  tx_v : Z;
  tx_r : Z;
  tx_s : Z;
}.

(** ** Reading *)

Definition toChainID (val : Z) : res Z := if (val =? 0) || (max_u64 <? val) then Throw InvalidTransaction else Ok val.

Definition transaction_codec : Codec (Z * (Z * (Z * (option bytes * (Z * (bytes * (Z * (Z * Z)))))))) :=
  rlp_tuple (uint 256 &: uint 256 &: uint 64 &: optional (hash 20) &: uint 256 &: bytes_codec &: uint 256 &: uint 256 &: tuple1 (uint 256)).

(** The chain id and the parity of the signature from [v]. *)
Definition split_v (v r s : Z) : res (Z * Z) :=
  if (r =? 0) && (s =? 0) then let* c := toChainID v in Ok (c, 0)
  else
    let* c := (if 36 <? v then toChainID ((v - 35) / 2) else if negb (v =? 27) && negb (v =? 28) then Throw InvalidTransaction else Ok 0) in
    Ok (c, (if c =? 0 then v - 27 else v - (c * 2 + 35)) mod 2 ^ 8).

(** [Transaction::fromRLP] on a new transaction. *)
Definition fromRLP (d : bytes) (verify_strict : bool) : res SerialTransaction :=
  let* (nonce, (gas_price, (gas, (receiver, (value, (data, (v, (r, s)))))))) := c_dec transaction_codec d (if verify_strict then VeryStrict else LaissezFaire) in
  let* (chain_id, parity) := split_v v r s in
  Ok (mkSerialTransaction nonce gas_price gas receiver value data chain_id parity r s).

(** [Transaction::Transaction(bytes)]. *)
Definition transaction_from (b : bytes) (verify_strict : bool) : res SerialTransaction :=
  let* d := newRLP b VeryStrict in fromRLP d verify_strict.

(** ** Writing *)

(** The number of 64 bits that is written for [v]. *)
Definition join_v (t : SerialTransaction) : Z := (tx_v t + (if tx_chain_id t =? 0 then 27 else (tx_chain_id t * 2 + 35) mod 2 ^ 64)) mod 2 ^ 64.

(** [Transaction::streamRLP]. *)
Definition transaction_stream (for_signature : bool) (t : SerialTransaction) : res bytes :=
  let* s := appendList newRLPStream (if negb for_signature || negb (tx_chain_id t =? 0) then 9 else 6) in
  let* s := append_int_ s (tx_nonce t) in
  let* s := append_int_ s (tx_gas_price t) in
  let* s := append_int_ s (tx_gas t) in
  let* s := (match tx_receiver t with Some a => append s a false | None => append_int_ s 0 end) in
  let* s := append_int_ s (tx_value t) in
  let* s := append s (tx_data t) false in
  let* s :=
    (if negb for_signature then
       let* s := append_int_ s (join_v t) in
       let* s := append_int_ s (tx_r t) in
       append_int_ s (tx_s t)
     else if negb (tx_chain_id t =? 0) then
       let* s := append_int_ s (tx_chain_id t) in
       let* s := append_int_ s 0 in
       append_int_ s 0
     else Ok s) in
  stream_out s.

(** [Transaction::rlp] of a transaction that was not read. *)
Definition transaction_rlp (t : SerialTransaction) : res bytes := transaction_stream false t.

(** ** The gas of the data *)

Definition kTxGas : Z := 21000.
Definition kTxGasContractCreation : Z := 53000.
Definition kTxDataZeroGas : Z := 4.
Definition kTxDataNonZeroGas : Z := 68.

Definition count_nonzero (data : bytes) : Z := Z.of_nat (length (filter (fun b => b <> 0) data)).

Definition IntrinsicGas (data : bytes) (is_contract_creation : bool) : res Z :=
  let gas := if is_contract_creation then kTxGasContractCreation else kTxGas in
  match data with
  | [] => Ok gas
  | _ =>
      let nz := count_nonzero data in
      if (max_u64 - gas) / kTxDataNonZeroGas <? nz then Throw RuntimeError
      else
        let gas := (gas + nz * kTxDataNonZeroGas mod 2 ^ 64) mod 2 ^ 64 in
        let z := bsize data - nz in
        if (max_u64 - gas) / kTxDataZeroGas <? z then Throw RuntimeError else Ok ((gas + z * kTxDataZeroGas mod 2 ^ 64) mod 2 ^ 64)
  end.

Definition intrinsicGasCovered (t : SerialTransaction) : bool :=
  match IntrinsicGas (tx_data t) (bool_decide (tx_receiver t = None)) with
  | Ok gas => gas <=? tx_gas t
  | Throw _ | OutOfBounds => false
  end.

(** What the data costs. *)
Definition data_gas (t : SerialTransaction) : Z :=
  (match tx_receiver t with Some _ => 21000 | None => 53000 end) + sum_list_Z (fun b => if b =? 0 then 4 else 68) (tx_data t).

(** ** Round trips *)

Definition transaction_ok (t : SerialTransaction) : Prop :=
  0 <= tx_nonce t < 2 ^ 256 /\ 0 <= tx_gas_price t < 2 ^ 256 /\ 0 <= tx_gas t < 2 ^ 64 /\
  match tx_receiver t with Some a => length a = 20%nat /\ bytes_ok a | None => True end /\
  0 <= tx_value t < 2 ^ 256 /\ bytes_ok (tx_data t) /\ bsize (tx_data t) < 2 ^ 24 /\
  0 <= tx_chain_id t /\ tx_chain_id t * 2 + 36 < 2 ^ 64 /\ (tx_v t = 0 \/ tx_v t = 1) /\ 0 <= tx_r t < 2 ^ 256 /\ 0 <= tx_s t < 2 ^ 256.
Definition signed (t : SerialTransaction) : Prop := tx_r t <> 0 \/ tx_s t <> 0.

Definition receiver_item (o : option bytes) : item := match o with Some a => Data a | None => Data [] end.
Definition base_fields (t : SerialTransaction) : list item :=
  [int_item (tx_nonce t); int_item (tx_gas_price t); int_item (tx_gas t); receiver_item (tx_receiver t); int_item (tx_value t); Data (tx_data t)].
Definition transaction_fields (t : SerialTransaction) : list item := base_fields t ++ [int_item (join_v t); int_item (tx_r t); int_item (tx_s t)].
Definition signature_fields (t : SerialTransaction) : list item := base_fields t ++ (if tx_chain_id t =? 0 then [] else [int_item (tx_chain_id t); int_item 0; int_item 0]).

Lemma join_v_exact t : transaction_ok t -> join_v t = tx_v t + (if tx_chain_id t =? 0 then 27 else tx_chain_id t * 2 + 35) /\ 0 <= join_v t < 2 ^ 64.
Proof.
  intros (_ & _ & _ & _ & _ & _ & _ & H1 & H2 & H3 & _). unfold join_v. rewrite (Z.mod_small (tx_chain_id t * 2 + 35)) by lia.
  destruct (Z.eqb_spec (tx_chain_id t) 0); rewrite Z.mod_small by lia; lia.
Qed.

Lemma fields_small_list t l : transaction_ok t -> Forall (fun i => small i /\ bsize (encode i) <= 2 ^ 25) l -> (length l <= 3)%nat ->
  Forall (fun i => small i /\ bsize (encode i) <= 2 ^ 25) (base_fields t ++ l) /\ small (Items (base_fields t ++ l)) /\ bsize (encode (Items (base_fields t ++ l))) <= 2 ^ 29.
Proof.
  intros (H1 & H2 & H3 & H4 & H5 & H6 & H7 & _) Hl Hn. assert (Forall (fun i => small i /\ bsize (encode i) <= 2 ^ 25) (base_fields t ++ l)) as Hf.
  { apply Forall_app. split; [|done]. assert (small (receiver_item (tx_receiver t)) /\ bsize (encode (receiver_item (tx_receiver t))) <= 2 ^ 25).
    { destruct (tx_receiver t) as [a|]; cbn [receiver_item]; [destruct H4; small1|]. eapply weaken_small; [by apply small_data|done]. }
    assert (small (Data (tx_data t)) /\ bsize (encode (Data (tx_data t))) <= 2 ^ 25) by (eapply weaken_small; [apply small_data; [done|lia]|lia]). unfold base_fields. smalls. }
  split; [done|]. assert (Z.of_nat (length (base_fields t ++ l)) <= 9) as Hlen by (rewrite length_app; simpl; lia).
  destruct (small_items _ (2 ^ 25) Hf) as [Hs Hb]; [lia|lia|]. split; [done|lia].
Qed.

Lemma transaction_small t : transaction_ok t ->
  Forall (fun i => small i /\ bsize (encode i) <= 2 ^ 25) (transaction_fields t) /\ small (Items (transaction_fields t)) /\ bsize (encode (Items (transaction_fields t))) <= 2 ^ 29.
Proof.
  intros Ht. apply fields_small_list; [done| |simpl; lia]. destruct (join_v_exact t Ht) as [_ Hj]. destruct Ht as (_ & _ & _ & _ & _ & _ & _ & _ & _ & _ & H1 & H2). smalls.
Qed.

Lemma signature_small t : transaction_ok t ->
  Forall (fun i => small i /\ bsize (encode i) <= 2 ^ 25) (signature_fields t) /\ small (Items (signature_fields t)) /\ bsize (encode (Items (signature_fields t))) <= 2 ^ 29.
Proof.
  intros Ht. apply fields_small_list; [done| |destruct (tx_chain_id t =? 0); simpl; lia]. destruct Ht as (_ & _ & _ & _ & _ & _ & _ & H1 & H2 & _). destruct (tx_chain_id t =? 0); smalls.
Qed.

Lemma write_receiver {B} l (K k : RLPStream -> res B) o s : (forall s, K s = let* s := rfold stream_item l s in k s) ->
  (let* s := (match o with Some a => append s a false | None => append_int_ s 0 end) in K s) = let* s := rfold stream_item (receiver_item o :: l) s in k s.
Proof. intros HK. destruct o as [a|]; [by apply write_data|]. apply (write_int l K k HK s 0); [lia|]. by apply small_data. Qed.

Lemma transaction_rlp_item t : transaction_ok t -> transaction_rlp t = Ok (encode (Items (transaction_fields t))).
Proof.
  intros Ht. destruct (transaction_small t Ht) as (Hf & Hs & _). destruct (join_v_exact t Ht) as [_ Hj]. destruct Ht as (H1 & H2 & H3 & _ & H5 & _ & _ & _ & _ & _ & H8 & H9).
  unfold transaction_fields, base_fields in Hf. cbn [app] in Hf. rewrite !Forall_cons in Hf. destruct Hf as ((S1 & _) & (S2 & _) & (S3 & _) & _ & (S5 & _) & _ & (S7 & _) & (S8 & _) & (S9 & _) & _).
  unfold transaction_rlp, transaction_stream. apply write_list; [done|done|]. intros s. cbn [negb orb]. unfold transaction_fields, base_fields. cbn [app]. write_items.
  apply write_receiver. intros ?. write_items. rewrite rbind_assoc. write_items. rewrite rbind_assoc. write_items.
Qed.

Lemma signature_rlp_item t : transaction_ok t -> transaction_stream true t = Ok (encode (Items (signature_fields t))).
Proof.
  intros Ht. destruct (signature_small t Ht) as (Hf & Hs & _). destruct Ht as (H1 & H2 & H3 & _ & H5 & _ & _ & H6 & H7 & _).
  unfold signature_fields, base_fields in Hf. cbn [app] in Hf. rewrite !Forall_cons in Hf. destruct Hf as ((S1 & _) & (S2 & _) & (S3 & _) & _ & (S5 & _) & _ & Hf).
  unfold transaction_stream. apply write_list; [done|unfold signature_fields; by destruct (tx_chain_id t =? 0)|]. intros s. cbn [negb orb]. unfold signature_fields, base_fields. cbn [app]. write_items.
  apply write_receiver. intros ?. write_items. destruct (tx_chain_id t =? 0); [done|]. rewrite !Forall_cons in Hf. destruct Hf as ((S7 & _) & (S8 & _) & (S9 & _) & _). cbn [negb].
  rewrite rbind_assoc. write_items. rewrite rbind_assoc. write_items.
Qed.

Lemma split_join_v t : transaction_ok t -> signed t -> split_v (join_v t) (tx_r t) (tx_s t) = Ok (tx_chain_id t, tx_v t).
Proof.
  intros Ht Hsg. destruct (join_v_exact t Ht) as [-> _]. destruct Ht as (_ & _ & _ & _ & _ & _ & _ & H1 & H2 & H3 & _). unfold split_v.
  assert ((tx_r t =? 0) && (tx_s t =? 0) = false) as -> by (destruct Hsg; [rewrite (proj2 (Z.eqb_neq (tx_r t) 0))|rewrite (proj2 (Z.eqb_neq (tx_s t) 0)), andb_false_r]; done).
  destruct (Z.eqb_spec (tx_chain_id t) 0) as [->|Hc].
  - destruct H3 as [-> | ->]; done.
  - destruct (Z.ltb_spec 36 (tx_v t + (tx_chain_id t * 2 + 35))); [|lia].
    assert ((tx_v t + (tx_chain_id t * 2 + 35) - 35) / 2 = tx_chain_id t) as -> by (symmetry; apply Z.div_unique_pos with (tx_v t); lia).
    unfold toChainID, max_u64. rewrite (proj2 (Z.eqb_neq (tx_chain_id t) 0)) by done. destruct (Z.ltb_spec (2 ^ 64 - 1) (tx_chain_id t)); [lia|]. cbn [orb rbind].
    rewrite (proj2 (Z.eqb_neq (tx_chain_id t) 0)) by done. rewrite Z.mod_small by lia. f_equal. f_equal. lia.
Qed.

Lemma transaction_dec t it st : transaction_ok t -> small it -> it = Items (transaction_fields t) ->
  c_dec transaction_codec (encode it) st = Ok (tx_nonce t, (tx_gas_price t, (tx_gas t, (tx_receiver t, (tx_value t, (tx_data t, (join_v t, (tx_r t, tx_s t)))))))).
Proof.
  intros Ht Hs ->. destruct (join_v_exact t Ht) as [_ Hj]. destruct Ht as (H1 & H2 & H3 & H4 & H5 & _ & _ & _ & _ & _ & H8 & H9).
  eapply dec_as; [unfold transaction_codec; codec_law| | |done].
  - cbn [fst snd]. assert (match tx_receiver t with Some a => length a = 20%nat | None => True end) by (destruct (tx_receiver t); [by destruct H4|done]). split_and!; done || lia.
  - unfold transaction_fields, base_fields, receiver_item. cbn [app fst snd]. by destruct (tx_receiver t).
Qed.

(** C25: A signed transaction that is serialised is read back as the same transaction, strictly
    or not: the chain id and the parity of the signature are recovered from the one
    number they are written as, for every chain id that this number has room for. *)
Theorem transaction_roundtrip t verify_strict : transaction_ok t -> signed t ->
  exists d, transaction_rlp t = Ok d /\ transaction_from d verify_strict = Ok t.
Proof.
  intros Ht Hsg. destruct (transaction_small t Ht) as (_ & Hs & _). exists (encode (Items (transaction_fields t))). split; [by apply transaction_rlp_item|].
  unfold transaction_from, fromRLP. rewrite newRLP_encode by done. cbn [rbind]. rewrite (transaction_dec t) by done. cbn [rbind]. rewrite split_join_v by done. by destruct t.
Qed.

Definition sample_transaction (receiver : option bytes) (chain_id : Z) : SerialTransaction := mkSerialTransaction 3 1000000000 21000 receiver 5 [1; 0; 255] chain_id 1 77 88.

Lemma sample_transaction_ok receiver chain_id : match receiver with Some a => length a = 20%nat /\ bytes_ok a | None => True end -> 0 <= chain_id < 2 ^ 62 -> transaction_ok (sample_transaction receiver chain_id).
Proof.
  intros Hr Hc. unfold transaction_ok. cbn [sample_transaction tx_nonce tx_gas_price tx_gas tx_receiver tx_value tx_data tx_chain_id tx_v tx_r tx_s].
  split_and!; try lia; try done. repeat (apply List.Forall_cons; [unfold byte_ok; lia|]). constructor.
Qed.

Lemma transaction_roundtrip_witness :
  exists d, transaction_rlp (sample_transaction None 841) = Ok d /\ transaction_from d true = Ok (sample_transaction None 841).
Proof. apply (transaction_roundtrip (sample_transaction None 841) true); [apply sample_transaction_ok; [done|lia]|left; discriminate]. Defined.

Lemma pushInt_inj i j : 0 <= i -> 0 <= j -> pushInt i = pushInt j -> i = j.
Proof. intros Hi Hj E. destruct (pushInt_spec i Hi) as (Ei & _), (pushInt_spec j Hj) as (Ej & _). congruence. Qed.
Lemma int_item_inj i j : 0 <= i -> 0 <= j -> int_item i = int_item j -> i = j.
Proof. intros Hi Hj [= E]. by apply pushInt_inj. Qed.

(** What is hashed for the signature of a transaction determines everything but the
    signature: two transactions with one message to sign have the same nonce, prices, receiver,
    value, data and chain id. *)
Theorem signature_message t t' : transaction_ok t -> transaction_ok t' ->
  (transaction_stream true t = transaction_stream true t' <->
   (tx_nonce t, tx_gas_price t, tx_gas t, tx_receiver t, tx_value t, tx_data t, tx_chain_id t) = (tx_nonce t', tx_gas_price t', tx_gas t', tx_receiver t', tx_value t', tx_data t', tx_chain_id t')).
Proof.
  intros Ht Ht'. rewrite !signature_rlp_item by done. split; [|by intros [= E1 E2 E3 E4 E5 E6 E7]; unfold signature_fields, base_fields; rewrite E1, E2, E3, E4, E5, E6, E7].
  intros Heq%Ok_encode_inj; [|by apply signature_small..]. unfold signature_fields, base_fields in Heq. cbn [app] in Heq. apply (f_equal (fun i => match i with Items l => l | _ => [] end)) in Heq. cbv beta iota in Heq.
  apply (app_inj_1 [_; _; _; _; _; _] [_; _; _; _; _; _]) in Heq as [Hb Hc]; [|done].
  destruct Ht as (H1 & H2 & H3 & H4 & H5 & _ & _ & H6 & _), Ht' as (H1' & H2' & H3' & H4' & H5' & _ & _ & H6' & _). simplify_list_eq.
  match goal with H : receiver_item _ = receiver_item _ |- _ => rename H into Hr end.
  repeat match goal with H : pushInt _ = pushInt _ |- _ => apply pushInt_inj in H; [|lia..] end.
  assert (tx_receiver t = tx_receiver t') as -> by (destruct (tx_receiver t) as [[|]|], (tx_receiver t') as [[|]|]; naive_solver).
  assert (tx_chain_id t = tx_chain_id t') as -> by (destruct (Z.eqb_spec (tx_chain_id t) 0), (Z.eqb_spec (tx_chain_id t') 0); [lia|done|done|]; apply (f_equal (hd (int_item 0))) in Hc; cbn [hd] in Hc; apply int_item_inj in Hc; lia).
  congruence.
Qed.

Lemma signature_message_witness :
  transaction_stream true (sample_transaction None 841) = transaction_stream true (mkSerialTransaction 3 1000000000 21000 None 5 [1; 0; 255] 841 0 1 2).
Proof.
  apply (signature_message (sample_transaction None 841) (mkSerialTransaction 3 1000000000 21000 None 5 [1; 0; 255] 841 0 1 2)); [apply sample_transaction_ok; [done|lia]| |reflexivity].
  pose proof (sample_transaction_ok None 841 I ltac:(lia)) as (H1 & H2 & H3 & H4 & H5 & H6 & H7 & H8 & H9 & _). unfold transaction_ok. cbn [tx_v tx_r tx_s]. split_and!; try done; try lia; by left.
Defined.

(** ** What strict reading accepts *)

(** A transaction without receiver has more than one serialisation that is accepted when
    read strictly: an empty list in place of the receiver is read as no receiver, and the
    message for the signature does not change. *)
Theorem receiver_malleable :
  exists d d', d <> d' /\ transaction_rlp (sample_transaction None 841) = Ok d /\
    transaction_from d true = Ok (sample_transaction None 841) /\ transaction_from d' true = Ok (sample_transaction None 841).
Proof.
  exists (encode (Items (transaction_fields (sample_transaction None 841)))),
    (encode (Items [int_item 3; int_item 1000000000; int_item 21000; Items []; int_item 5; Data [1; 0; 255]; int_item (841 * 2 + 36); int_item 77; int_item 88])).
  split_and!; vm_compute; try discriminate; reflexivity.
Qed.

(** ** Gas *)

Lemma data_gas_count data : sum_list_Z (fun b => if b =? 0 then 4 else 68) data = 68 * count_nonzero data + 4 * (bsize data - count_nonzero data) /\ 0 <= count_nonzero data <= bsize data.
Proof.
  unfold count_nonzero. induction data as [|b data [IH1 IH2]]; [done|]. rewrite bsize_cons. unfold sum_list_Z in *. cbn [foldr]. rewrite IH1. destruct (Z.eqb_spec b 0) as [->|Hb].
  - rewrite filter_cons_False by (intros H; by apply H). lia.
  - rewrite filter_cons_True by done. cbn [length]. lia.
Qed.

Lemma guard_exact g n k : 0 <= g <= max_u64 -> 0 <= n -> 0 < k -> ((max_u64 - g) / k <? n) = (max_u64 <? g + n * k).
Proof.
  intros Hg Hn Hk. apply eq_bool_prop_intro. rewrite !Is_true_true, !Z.ltb_lt. split; intros H.
  - pose proof (Z.mul_succ_div_gt (max_u64 - g) k Hk). nia.
  - apply Z.div_lt_upper_bound; lia.
Qed.

Lemma intrinsic_cost (data : bytes) (creation : bool) : let cost := (if creation then 53000 else 21000) + (68 * count_nonzero data + 4 * (bsize data - count_nonzero data)) in
  match IntrinsicGas data creation with Ok g => g = cost /\ cost <= max_u64 | Throw _ => max_u64 < cost | OutOfBounds => False end.
Proof.
  intros cost. destruct (data_gas_count data) as [_ Hn]. unfold IntrinsicGas. destruct data as [|b data']; [subst cost; by destruct creation|]. set (data := b :: data') in *.
  set (c := if creation then kTxGasContractCreation else kTxGas). assert (c = if creation then 53000 else 21000) as Ec by (by destruct creation). assert (0 <= c <= 53000) as Hc by (destruct creation; lia).
  assert (max_u64 = 2 ^ 64 - 1) as Hm by done. unfold kTxDataNonZeroGas, kTxDataZeroGas. rewrite guard_exact by lia. destruct (Z.ltb_spec max_u64 (c + count_nonzero data * 68)) as [H1|H1]; [subst cost; lia|].
  rewrite (Z.mod_small (count_nonzero data * 68)) by lia. rewrite (Z.mod_small (c + _)) by lia. rewrite guard_exact by lia.
  destruct (Z.ltb_spec max_u64 (c + count_nonzero data * 68 + (bsize data - count_nonzero data) * 4)) as [H2|H2]; [subst cost; lia|].
  rewrite (Z.mod_small ((bsize data - count_nonzero data) * 4)) by lia. rewrite Z.mod_small by lia. subst cost. lia.
Qed.

(** The gas for the data is computed without overflow: the gas of a transaction covers it
    exactly if the base price of the kind of transaction plus 4 for each zero byte and 68 for
    each other byte is at most the gas limit, also where the sum exceeds 64 bits. *)
Theorem intrinsic_gas_exact t : 0 <= tx_gas t < 2 ^ 64 -> intrinsicGasCovered t = (data_gas t <=? tx_gas t).
Proof.
  intros Hg. unfold intrinsicGasCovered, data_gas. destruct (data_gas_count (tx_data t)) as [-> Hn]. pose proof (intrinsic_cost (tx_data t) (bool_decide (tx_receiver t = None))) as H. cbv zeta in H.
  assert ((if bool_decide (tx_receiver t = None) then 53000 else 21000) = match tx_receiver t with Some _ => 21000 | None => 53000 end) as E by (by destruct (tx_receiver t)). rewrite E in H.
  assert (max_u64 = 2 ^ 64 - 1) by done. destruct (IntrinsicGas _ _) as [g|e|]; [by destruct H as [-> _]| |done]. symmetry. apply Z.leb_gt. lia.
Qed.

Lemma intrinsic_gas_exact_witness : intrinsicGasCovered (sample_transaction None 841) = (53000 + (68 + 4 + 68) <=? 21000).
Proof. apply (intrinsic_gas_exact (sample_transaction None 841)). simpl. lia. Defined.

(** ** System transactions *)

(** [SystemTransaction::streamRLP]. *)
Definition system_transaction_rlp (t : SerialTransaction) : res bytes :=
  let* s := appendList newRLPStream 9 in
  let* s := append_int_ s (tx_nonce t) in
  let* s := append_int_ s (tx_gas_price t) in
  let* s := append_int_ s (tx_gas t) in
  let* s := (match tx_receiver t with Some a => append s a false | None => append_int_ s 0 end) in
  let* s := append_int_ s (tx_value t) in
  let* s := append s (tx_data t) false in
  let* s := append_int_ s (tx_chain_id t) in
  let* s := append_int_ s 0 in
  let* s := append_int_ s 0 in
  stream_out s.

Definition system_codec : Codec (Z * (Z * (Z * (option bytes * (Z * (bytes * (Z * (bytes * bytes)))))))) :=
  rlp_tuple (uint 256 &: uint 256 &: uint 64 &: optional (hash 20) &: uint 256 &: bytes_codec &: uint 8 &: hash 32 &: tuple1 (hash 32)).

(** [SystemTransaction::fromRLP] on a new transaction: the chain id is not set. *)
Definition system_transaction_from (b : bytes) (verify_strict : bool) : res SerialTransaction :=
  let* d := newRLP b VeryStrict in
  let* (nonce, (gas_price, (gas, (receiver, (value, (data, (v, (r, s)))))))) := c_dec system_codec d (if verify_strict then VeryStrict else LaissezFaire) in
  Ok (mkSerialTransaction nonce gas_price gas receiver value data 0 v (fromBigEndian 256 r) (fromBigEndian 256 s)).

Definition system_fields (t : SerialTransaction) : list item := base_fields t ++ [int_item (tx_chain_id t); int_item 0; int_item 0].

(** Reading a hash of no bytes without strictness gives zero. *)
Definition lax_hash : Codec bytes := mkCodec (fun s _ => append s [] false) (fun d _ => toHash 32 d LaissezFaire) (replicate 32 0).

Lemma lax_hash_ok : CodecOk lax_hash (fun _ => Data []) (fun h => h = replicate 32 0).
Proof. split; [done|]. intros h st -> Hs. reflexivity. Qed.

(** Tuples that are read in the same way. *)
Definition same_reader {A} (st : Strictness) (t t' : TupleCodec A) : Prop := t_size t = t_size t' /\ t_default t = t_default t' /\ forall it, t_dec t it st = t_dec t' it st.

Lemma same_tuple1 {A} st (c c' : Codec A) : c_default c = c_default c' -> (forall d, c_dec c d st = c_dec c' d st) -> same_reader st (tuple1 c) (tuple1 c').
Proof. intros Hd Hc. split_and!; [done|done|]. intros it. cbn [tuple1 t_dec]. rewrite Hd. destruct (it_eqb it it_end); [done|]. destruct (it_deref it); [|done..]. apply Hc. Qed.

Lemma same_cons {A B} st (c c' : Codec A) (t t' : TupleCodec B) : c_default c = c_default c' -> (forall d, c_dec c d st = c_dec c' d st) -> same_reader st t t' -> same_reader st (c &: t) (c' &: t').
Proof.
  intros Hd Hc (H1 & H2 & H3). split_and!; [cbn [tuple_cons t_size]; by rewrite H1|cbn [tuple_cons t_default]; by rewrite Hd, H2|]. intros it. cbn [tuple_cons t_dec]. rewrite Hd, H2.
  destruct (it_eqb it it_end); [done|]. destruct (it_deref it) as [d| |]; [|done..]. cbn [rbind]. rewrite Hc. destruct (c_dec c' d st) as [a| |]; [|done..]. cbn [rbind].
  destruct (it_next it) as [it'| |]; [|done..]. cbn [rbind]. by rewrite H3.
Qed.

Lemma same_tuple {A} st (t t' : TupleCodec A) d : same_reader st t t' -> c_dec (rlp_tuple t) d st = c_dec (rlp_tuple t') d st.
Proof.
  intros (H1 & _ & H3). cbn [rlp_tuple c_dec]. destruct (itemCount d) as [n| |]; [|done..]. cbn [rbind]. rewrite H1. destruct (negb _); [done|]. destruct (it_begin d) as [it| |]; [|done..]. apply H3.
Qed.

Lemma lax_system d : c_dec system_codec d LaissezFaire =
  c_dec (rlp_tuple (uint 256 &: uint 256 &: uint 64 &: optional (hash 20) &: uint 256 &: bytes_codec &: uint 8 &: lax_hash &: tuple1 lax_hash)) d LaissezFaire.
Proof. apply same_tuple. repeat (apply same_cons; [reflexivity|intros ?; reflexivity|]). apply same_tuple1; [reflexivity|intros ?; reflexivity]. Qed.

(** A system transaction without chain id, as the node makes them, is read back from the
    database as the same transaction; a chain id would be read as the signature. *)
Theorem system_transaction_roundtrip t : transaction_ok t -> tx_chain_id t = 0 -> tx_v t = 0 -> tx_r t = 0 -> tx_s t = 0 ->
  exists d, system_transaction_rlp t = Ok d /\ system_transaction_from d false = Ok t.
Proof.
  intros Ht Hc Hv Hr Hsg. destruct (fields_small_list t [int_item (tx_chain_id t); int_item 0; int_item 0] Ht) as (Hf & Hs & _); [rewrite Hc; smalls|simpl; lia|].
  exists (encode (Items (system_fields t))). destruct Ht as (H1 & H2 & H3 & H4 & H5 & _). split.
  - unfold base_fields in Hf. cbn [app] in Hf. rewrite !Forall_cons in Hf. destruct Hf as ((S1 & _) & (S2 & _) & (S3 & _) & _ & (S5 & _) & _ & (S7 & _) & (S8 & _) & _).
    unfold system_transaction_rlp. apply write_list; [done|done|]. intros s. unfold system_fields, base_fields. cbn [app]. write_items. apply write_receiver. intros ?. rewrite Hc in *. write_items.
  - unfold system_transaction_from. rewrite newRLP_encode by done. cbn [rbind].
    assert (c_dec system_codec (encode (Items (system_fields t))) LaissezFaire
      = Ok (tx_nonce t, (tx_gas_price t, (tx_gas t, (tx_receiver t, (tx_value t, (tx_data t, (tx_chain_id t, (replicate 32 0, replicate 32 0)))))))) ) as ->.
    { rewrite lax_system. eapply dec_as; [repeat first [apply rlp_tuple_ok|apply tuple_cons_ok|apply tuple1_ok|apply lax_hash_ok|codec_law]; simpl; lia| | |done].
      - cbn [fst snd]. assert (match tx_receiver t with Some a => length a = 20%nat | None => True end) by (destruct (tx_receiver t); [by destruct H4|done]). rewrite Hc. split_and!; done || lia.
      - unfold system_fields, base_fields, receiver_item. cbn [app fst snd]. by destruct (tx_receiver t). }
    cbn [rbind]. rewrite Hc. destruct t. simpl in *. subst. done.
Qed.

Definition sample_system : SerialTransaction := mkSerialTransaction 3 0 315000000 (Some (replicate 20 9)) 0 [100; 200] 0 0 0 0.

Lemma system_transaction_roundtrip_witness : exists d, system_transaction_rlp sample_system = Ok d /\ system_transaction_from d false = Ok sample_system.
Proof.
  apply (system_transaction_roundtrip sample_system); [|reflexivity..]. unfold transaction_ok. cbn [sample_system tx_nonce tx_gas_price tx_gas tx_receiver tx_value tx_data tx_chain_id tx_v tx_r tx_s].
  split_and!; try lia; try done; try (apply Forall_replicate; unfold byte_ok; lia). repeat (apply List.Forall_cons; [unfold byte_ok; lia|]). constructor.
Defined.

(** With a chain id that does not fit a byte the transaction that is read differs from the one that was written. *)
Example system_chain_id_lost :
  exists d t, system_transaction_rlp (mkSerialTransaction 3 0 315000000 None 0 [] 841 0 0 0) = Ok d /\ system_transaction_from d false = Ok t /\ tx_chain_id t = 0 /\ tx_v t = 841 mod 2 ^ 8.
Proof. eexists _, _. split_and!; [vm_compute; reflexivity|vm_compute; reflexivity|reflexivity|vm_compute; reflexivity]. Qed.
