(* ===== verification/PbftBlockRlp.v ===== *)
(** * Serialisation of PBFT blocks

    PBFT blocks with their optional extra data (types/pbft_block/src: pbft_block.cpp,
    pbft_block_extra_data.cpp).  The hash function and the recovery of the signer are
    parameters; a block keeps the hash and the beneficiary that its constructor computes. *)

From S2P Require Import Prelude Rlp RlpStream RlpRead RlpItems RlpCodec DagBlockRlp.
Local Open Scope Z_scope.
Local Open Scope rlp_scope.

(** ** Extra data *)

Record SerialExtraData := mkSerialExtraData {
  ed_major_version : Z;
  ed_minor_version : Z;
  ed_patch_version : Z;
  ed_net_version : Z;
  ed_node_implementation : bytes;
  ed_pillar_block_hash : option bytes;
}.

Definition kExtraDataMaxSize : Z := 1024.

Definition extra_data_codec : Codec (Z * (Z * (Z * (Z * (bytes * option bytes))))) :=
  rlp_tuple (uint 16 &: uint 16 &: uint 16 &: uint 16 &: bytes_codec &: tuple1 (optional (hash 32))).

(** [PbftBlockExtraData::fromBytes]: an exception while the fields are read gives no data, one of the constructor of the reader is passed on. *)
Definition extra_data_from (data : bytes) : res (option SerialExtraData) :=
  if kExtraDataMaxSize <? bsize data then Throw RuntimeError
  else
    let* d := newRLP data VeryStrict in
    match c_dec extra_data_codec d VeryStrict with
    | Ok (major, (minor, (patch, (net, (node, pillar))))) => Ok (Some (mkSerialExtraData major minor patch net node pillar))
    | Throw _ => Ok None
    | OutOfBounds => OutOfBounds
    end.

Definition extra_data_rlp (e : SerialExtraData) : res bytes :=
  rlp_enc extra_data_codec (ed_major_version e, (ed_minor_version e, (ed_patch_version e, (ed_net_version e, (ed_node_implementation e, ed_pillar_block_hash e))))).

(** ** Blocks *)

Record SerialPbftBlock := mkSerialPbftBlock {
  pb_prev_block_hash : bytes;
  pb_dag_block_hash_as_pivot : bytes;
  pb_order_hash : bytes;
  pb_final_chain_hash : bytes;
  pb_period : Z;
  pb_timestamp : Z;
  pb_reward_votes : list bytes;
  pb_extra_data : option SerialExtraData;
  pb_signature : bytes;
}.

(** A block that was constructed. *)
Record PbftBlockObject := mkPbftBlockObject { po_block : SerialPbftBlock; po_block_hash : bytes; po_beneficiary : bytes }.

(** [PbftBlock::streamRLP] and [PbftBlock::rlp]. *)
Definition pbft_block_rlp (include_sig : bool) (b : SerialPbftBlock) : res bytes :=
  let* s := appendList newRLPStream ((if include_sig then 8 else 7) + (if bool_decide (is_Some (pb_extra_data b)) then 1 else 0)) in
  let* s := append s (pb_prev_block_hash b) false in
  let* s := append s (pb_dag_block_hash_as_pivot b) false in
  let* s := append s (pb_order_hash b) false in
  let* s := append s (pb_final_chain_hash b) false in
  let* s := append_int_ s (pb_period b) in
  let* s := append_int_ s (pb_timestamp b) in
  let* s := appendVector s (pb_reward_votes b) in
  let* s := (match pb_extra_data b with Some e => let* x := extra_data_rlp e in append s x false | None => Ok s end) in
  let* s := (if include_sig then append s (pb_signature b) false else Ok s) in
  stream_out s.

Definition pbft9_codec : Codec (bytes * (bytes * (bytes * (bytes * (Z * (Z * (list bytes * (bytes * bytes)))))))) :=
  rlp_tuple (hash 32 &: hash 32 &: hash 32 &: hash 32 &: uint 64 &: uint 64 &: sequence (hash 32) &: bytes_codec &: tuple1 (hash 65)).
Definition pbft8_codec : Codec (bytes * (bytes * (bytes * (bytes * (Z * (Z * (list bytes * bytes))))))) :=
  rlp_tuple (hash 32 &: hash 32 &: hash 32 &: hash 32 &: uint 64 &: uint 64 &: sequence (hash 32) &: tuple1 (hash 65)).

(** The fields that [PbftBlock::PbftBlock(RLP)] reads. *)
Definition pbft_block_fields (d : bytes) : res SerialPbftBlock :=
  let* n := itemCount d in
  if n =? 9 then
    let* (prev, (pivot, (order, (final, (period, (timestamp, (votes, (extra, sig)))))))) := c_dec pbft9_codec d VeryStrict in
    let* e := extra_data_from extra in
    Ok (mkSerialPbftBlock prev pivot order final period timestamp votes e sig)
  else
    let* (prev, (pivot, (order, (final, (period, (timestamp, (votes, sig))))))) := c_dec pbft8_codec d VeryStrict in
    Ok (mkSerialPbftBlock prev pivot order final period timestamp votes None sig).

(** [PbftBlock::checkUniqueRewardVotes]. *)
Fixpoint checkUniqueRewardVotes (set : gset bytes) (votes : list bytes) : res unit :=
  match votes with
  | [] => Ok tt
  | h :: votes => if decide (h ∈ set) then Throw RuntimeError else checkUniqueRewardVotes ({[h]} ∪ set) votes
  end.

Section crypto.
Context (sha3 : bytes -> bytes) (recover : bytes -> bytes -> bytes).

(** [PbftBlock::calculateHash_], of a block without hash: the assertion fails if no key is recovered. *)
Definition calculateHash_ (b : SerialPbftBlock) : res (bytes * bytes) :=
  let* d := pbft_block_rlp true b in
  let* m := pbft_block_rlp false b in
  let p := recover (pb_signature b) (sha3 m) in
  if forallb (fun x => x =? 0) p then Throw AssertionFailed else Ok (sha3 d, drop 12 (sha3 p)).

(** [PbftBlock::PbftBlock(RLP)]. *)
Definition pbft_block_from (d : bytes) : res PbftBlockObject :=
  let* b := pbft_block_fields d in
  let* (block_hash, beneficiary) := calculateHash_ b in
  let* _ := checkUniqueRewardVotes ∅ (pb_reward_votes b) in
  Ok (mkPbftBlockObject b block_hash beneficiary).
End crypto.

(** ** Well-formed blocks *)

Definition extra_data_item (e : SerialExtraData) : item :=
  Items [int_item (ed_major_version e); int_item (ed_minor_version e); int_item (ed_patch_version e); int_item (ed_net_version e); Data (ed_node_implementation e);
    match ed_pillar_block_hash e with Some h => Data h | None => Data [] end].

(** The name of the implementation leaves room for the versions and the hash within the size that is accepted. *)
Definition extra_data_ok (e : SerialExtraData) : Prop :=
  0 <= ed_major_version e < 2 ^ 16 /\ 0 <= ed_minor_version e < 2 ^ 16 /\ 0 <= ed_patch_version e < 2 ^ 16 /\ 0 <= ed_net_version e < 2 ^ 16 /\
  bytes_ok (ed_node_implementation e) /\ bsize (ed_node_implementation e) <= 200 /\ match ed_pillar_block_hash e with Some h => hash32_ok h | None => True end.

Definition pbft_block_ok (b : SerialPbftBlock) : Prop :=
  hash32_ok (pb_prev_block_hash b) /\ hash32_ok (pb_dag_block_hash_as_pivot b) /\ hash32_ok (pb_order_hash b) /\ hash32_ok (pb_final_chain_hash b) /\
  0 <= pb_period b < 2 ^ 64 /\ 0 <= pb_timestamp b < 2 ^ 64 /\ hashes_ok (pb_reward_votes b) /\ match pb_extra_data b with Some e => extra_data_ok e | None => True end /\
  length (pb_signature b) = 65%nat /\ bytes_ok (pb_signature b).

Definition pbft_items (include_sig : bool) (b : SerialPbftBlock) : list item :=
  [Data (pb_prev_block_hash b); Data (pb_dag_block_hash_as_pivot b); Data (pb_order_hash b); Data (pb_final_chain_hash b); int_item (pb_period b); int_item (pb_timestamp b);
    hashes_item (pb_reward_votes b)] ++
  (match pb_extra_data b with Some e => [Data (encode (extra_data_item e))] | None => [] end) ++ (if include_sig then [Data (pb_signature b)] else []).

(** A number of 16 bits takes at most three bytes. *)
Lemma small_u16 i : 0 <= i < 2 ^ 16 -> small (int_item i) /\ bsize (encode (int_item i)) <= 11.
Proof.
  intros Hi. destruct (pushInt_spec i ltac:(lia)) as (_ & Hb & _ & _). assert (bsize (pushInt i) <= 2) as Hs by (apply pushInt_size; [change (256 ^ 2) with (2 ^ 16)|]; lia).
  eapply weaken_small; [apply small_data; [done|lia]|lia].
Qed.

Lemma extra_data_small e : extra_data_ok e -> small (extra_data_item e) /\ bsize (encode (extra_data_item e)) <= kExtraDataMaxSize.
Proof.
  intros (H1 & H2 & H3 & H4 & H5 & H6 & H7). pose proof (small_u16 _ H1) as [S1 B1]. pose proof (small_u16 _ H2) as [S2 B2]. pose proof (small_u16 _ H3) as [S3 B3]. pose proof (small_u16 _ H4) as [S4 B4].
  pose proof (small_data _ H5 ltac:(lia)) as [S5 B5]. set (h := match ed_pillar_block_hash e with Some h => Data h | None => Data [] end).
  assert (small h /\ bsize (encode h) <= 41) as [S6 B6].
  { subst h. destruct (ed_pillar_block_hash e) as [x|]; [destruct H7 as [Hl Hb]; eapply weaken_small; [apply small_data; [done|unfold bsize; lia]|unfold bsize; lia]|by apply small_data]. }
  assert (bytes_ok (flat_map encode [int_item (ed_major_version e); int_item (ed_minor_version e); int_item (ed_patch_version e); int_item (ed_net_version e); Data (ed_node_implementation e); h]) /\
    bsize (flat_map encode [int_item (ed_major_version e); int_item (ed_minor_version e); int_item (ed_patch_version e); int_item (ed_net_version e); Data (ed_node_implementation e); h]) <= 300) as [Hok Hsz].
  { cbn [flat_map]. rewrite !bsize_app, !Forall_app. change (bsize []) with 0. split; [|lia]. split_and!; [apply S1|apply S2|apply S3|apply S4|apply S5|apply S6|constructor]. }
  unfold extra_data_item. fold h. unfold small. cbn [encode]. set (p := flat_map encode _) in *. pose proof (bsize_nonneg p). pose proof (header_size 192 247 (bsize p) ltac:(lia)). unfold kExtraDataMaxSize.
  rewrite bsize_app, Forall_app. split; [split; [split; [apply header_bytes; lia|done]|lia]|lia].
Qed.

Lemma extra_data_roundtrip e : extra_data_ok e -> extra_data_rlp e = Ok (encode (extra_data_item e)) /\ extra_data_from (encode (extra_data_item e)) = Ok (Some e).
Proof.
  intros He. destruct (extra_data_small e He) as [Hs Hb]. destruct He as (H1 & H2 & H3 & H4 & _ & _ & H7).
  set (a := (ed_major_version e, (ed_minor_version e, (ed_patch_version e, (ed_net_version e, (ed_node_implementation e, ed_pillar_block_hash e)))))).
  assert (rlp_enc extra_data_codec a = Ok (encode (extra_data_item e)) /\ c_dec extra_data_codec (encode (extra_data_item e)) VeryStrict = Ok a) as [E1 E2].
  { eapply codec_as; [unfold extra_data_codec; codec_law| |reflexivity|done]. subst a. cbn [fst snd]. split_and!; try done; try lia. destruct (ed_pillar_block_hash e); [by destruct H7|done]. }
  split; [exact E1|]. unfold extra_data_from. destruct (Z.ltb_spec kExtraDataMaxSize (bsize (encode (extra_data_item e)))); [lia|]. rewrite newRLP_encode by done. cbn [rbind].
  rewrite E2. by destruct e.
Qed.

Lemma pbft_items_small include_sig b : pbft_block_ok b ->
  Forall (fun i => small i /\ bsize (encode i) <= 2 ^ 29) (pbft_items include_sig b) /\ small (Items (pbft_items include_sig b)) /\ bsize (encode (Items (pbft_items include_sig b))) <= 2 ^ 33.
Proof.
  intros ([H1 H1'] & [H2 H2'] & [H3 H3'] & [H4 H4'] & H5 & H6 & Hv & He & H7 & H8). pose proof (hashes_small _ Hv).
  assert (Forall (fun i => small i /\ bsize (encode i) <= 2 ^ 29) (pbft_items include_sig b)) as Hf.
  { unfold pbft_items. rewrite !Forall_app. split_and!; [smalls| |destruct include_sig; smalls]. destruct (pb_extra_data b) as [e|]; [|smalls].
    destruct (extra_data_small e He) as [[Hb Hs] Hz]. unfold kExtraDataMaxSize in Hz. apply Forall_singleton. eapply weaken_small; [apply small_data; [done|lia]|lia]. }
  split; [done|]. assert (Z.of_nat (length (pbft_items include_sig b)) <= 9) as Hn by (unfold pbft_items; destruct (pb_extra_data b), include_sig; simpl; lia).
  destruct (small_items _ (2 ^ 29) Hf) as [Hs Hb]; [lia|lia|]. split; [done|lia].
Qed.

Lemma pbft_block_rlp_item include_sig b : pbft_block_ok b -> pbft_block_rlp include_sig b = Ok (encode (Items (pbft_items include_sig b))).
Proof.
  intros Hb. destruct (pbft_items_small include_sig b Hb) as (Hf & Hs & _). destruct Hb as (_ & _ & _ & _ & H5 & H6 & _ & He & _). unfold pbft_block_rlp. apply write_list; [done| |].
  - unfold pbft_items. by destruct (pb_extra_data b), include_sig.
  - intros s. unfold pbft_items in *. rewrite !Forall_app, !Forall_cons in Hf. destruct Hf as ((_ & _ & _ & _ & (S5 & _) & (S6 & _) & _) & _). cbn [app]. write_items.
    rewrite appendVector_item. apply write_item. intros ?. destruct (pb_extra_data b) as [e|].
    + destruct (extra_data_roundtrip e He) as [-> _]. cbn [rbind app]. destruct include_sig; cbn [app]; write_items.
    + cbn [rbind app]. destruct include_sig; cbn [app]; write_items.
Qed.

Lemma pbft_block_read b : pbft_block_ok b -> pbft_block_fields (encode (Items (pbft_items true b))) = Ok b.
Proof.
  intros Hb. destruct (pbft_items_small true b Hb) as (_ & Hs & _). destruct Hb as ([H1 _] & [H2 _] & [H3 _] & [H4 _] & H5 & H6 & [Hv _] & He & H7 & _). apply hashes_lengths in Hv.
  unfold pbft_block_fields. destruct (itemCount_encode _ Hs) as [-> _]. cbn [rbind]. destruct b as [prev pivot order final period timestamp votes [e|] sig].
  - set (b := mkSerialPbftBlock _ _ _ _ _ _ _ _ _) in *. change (Z.of_nat (length (pbft_items true b)) =? 9) with true. cbv iota.
    assert (c_dec pbft9_codec (encode (Items (pbft_items true b))) VeryStrict = Ok (prev, (pivot, (order, (final, (period, (timestamp, (votes, (encode (extra_data_item e), sig))))))))) as ->.
    { eapply dec_as; [unfold pbft9_codec; codec_law| |reflexivity|done]. cbn [fst snd]. subst b. cbn in *. split_and!; done || lia. }
    cbn [rbind]. destruct (extra_data_roundtrip e He) as [_ ->]. done.
  - set (b := mkSerialPbftBlock _ _ _ _ _ _ _ _ _) in *. change (Z.of_nat (length (pbft_items true b)) =? 9) with false. cbv iota.
    assert (c_dec pbft8_codec (encode (Items (pbft_items true b))) VeryStrict = Ok (prev, (pivot, (order, (final, (period, (timestamp, (votes, sig)))))))) as ->.
    { eapply dec_as; [unfold pbft8_codec; codec_law| |reflexivity|done]. cbn [fst snd]. subst b. cbn in *. split_and!; done || lia. }
    done.
Qed.

Lemma checkUnique_spec votes : forall set, checkUniqueRewardVotes set votes = (if bool_decide (NoDup votes /\ Forall (fun h => h ∉ set) votes) then Ok tt else Throw RuntimeError).
Proof.
  induction votes as [|h votes IH]; intros set; cbn [checkUniqueRewardVotes].
  - rewrite bool_decide_true; [done|]. split; constructor.
  - destruct (decide (h ∈ set)) as [Hin|Hout].
    + rewrite bool_decide_false; [done|]. intros [_ H]. by apply Forall_inv in H.
    + rewrite IH. apply (f_equal (fun b : bool => if b then Ok tt else Throw RuntimeError)), bool_decide_ext. rewrite NoDup_cons, Forall_cons, !Forall_forall. set_solver.
Qed.

Section roundtrip.
Context (sha3 : bytes -> bytes) (recover : bytes -> bytes -> bytes).

(** The key that is recovered from the signature of a block. *)
Definition signer (b : SerialPbftBlock) : bytes := recover (pb_signature b) (sha3 (encode (Items (pbft_items false b)))).

Lemma calculateHash_ok b : pbft_block_ok b -> calculateHash_ sha3 recover b =
  if forallb (fun x => x =? 0) (signer b) then Throw AssertionFailed else Ok (sha3 (encode (Items (pbft_items true b))), drop 12 (sha3 (signer b))).
Proof. intros Hb. unfold calculateHash_. rewrite !pbft_block_rlp_item by done. done. Qed.
End roundtrip.

(** A well-formed PBFT block that is serialised is read back as the same block, with or
    without extra data, its hash is that of the bytes and its beneficiary that of the key
    which is recovered; the same reward vote twice makes the reader throw, and a signature
    without key fails the assertion. *)
Theorem pbft_block_roundtrip sha3 recover b : pbft_block_ok b ->
  exists d, pbft_block_rlp true b = Ok d /\ newRLP d VeryStrict = Ok d /\
    pbft_block_from sha3 recover d =
      if forallb (fun x => x =? 0) (signer sha3 recover b) then Throw AssertionFailed
      else if bool_decide (NoDup (pb_reward_votes b)) then Ok (mkPbftBlockObject b (sha3 d) (drop 12 (sha3 (signer sha3 recover b)))) else Throw RuntimeError.
Proof.
  intros Hb. destruct (pbft_items_small true b Hb) as (_ & Hs & _). exists (encode (Items (pbft_items true b))). split_and!; [by apply pbft_block_rlp_item|by apply newRLP_encode|].
  unfold pbft_block_from. rewrite pbft_block_read by done. cbn [rbind]. rewrite calculateHash_ok by done. destruct (forallb _ _); [done|]. cbn [rbind]. rewrite checkUnique_spec.
  rewrite (bool_decide_ext _ (NoDup (pb_reward_votes b))) by (rewrite Forall_forall; set_solver). by destruct (bool_decide _).
Qed.

Definition sample_extra : SerialExtraData := mkSerialExtraData 1 2 300 4 [84; 97; 114] (Some (replicate 32 7)).
Definition sample_pbft_block (e : option SerialExtraData) (votes : list bytes) : SerialPbftBlock :=
  mkSerialPbftBlock (replicate 32 1) (replicate 32 2) (replicate 32 3) (replicate 32 4) 500 1700000000 votes e (replicate 65 5).

Lemma sample_pbft_block_ok e votes : match e with Some e => extra_data_ok e | None => True end -> hashes_ok votes -> pbft_block_ok (sample_pbft_block e votes).
Proof.
  intros He Hv. unfold pbft_block_ok. cbn [sample_pbft_block pb_prev_block_hash pb_dag_block_hash_as_pivot pb_order_hash pb_final_chain_hash pb_period pb_timestamp pb_reward_votes pb_extra_data pb_signature].
  split_and!; try done; try lia; try (apply hash32_replicate; unfold byte_ok; lia). apply Forall_replicate. unfold byte_ok. lia.
Qed.

Lemma sample_extra_ok : extra_data_ok sample_extra.
Proof.
  unfold extra_data_ok, sample_extra. cbn [ed_major_version ed_minor_version ed_patch_version ed_net_version ed_node_implementation ed_pillar_block_hash].
  split_and!; try lia; try done; try (apply hash32_replicate; unfold byte_ok; lia). repeat (apply List.Forall_cons; [unfold byte_ok; lia|]). apply List.Forall_nil.
Qed.

Lemma pbft_block_roundtrip_witness :
  exists d, pbft_block_rlp true (sample_pbft_block (Some sample_extra) [replicate 32 6]) = Ok d /\ newRLP d VeryStrict = Ok d /\
    pbft_block_from (fun m => take 32 m) (fun sig _ => take 64 sig) d = Ok (mkPbftBlockObject (sample_pbft_block (Some sample_extra) [replicate 32 6]) (take 32 d) (replicate 20 5)).
Proof.
  apply (pbft_block_roundtrip (fun m => take 32 m) (fun sig _ => take 64 sig) (sample_pbft_block (Some sample_extra) [replicate 32 6])). apply sample_pbft_block_ok; [apply sample_extra_ok|].
  split; [apply Forall_singleton, hash32_replicate; unfold byte_ok; lia|done].
Defined.

(** Extra data that is valid RLP but not the extra data of a block is dropped without an
    error: a block with such a field is the block without extra data, with the same hash. *)
Theorem extra_data_dropped : exists x d d', extra_data_from x = Ok None /\ d <> d' /\
  d = encode (Items (pbft_items true (sample_pbft_block None []))) /\ pbft_block_fields d = Ok (sample_pbft_block None []) /\ pbft_block_fields d' = Ok (sample_pbft_block None []).
Proof.
  exists [192], (encode (Items (pbft_items true (sample_pbft_block None [])))),
    (encode (Items (pbft_items false (sample_pbft_block None []) ++ [Data [192]; Data (replicate 65 5)]))).
  split_and!; [reflexivity|vm_compute; discriminate|reflexivity|vm_compute; reflexivity|vm_compute; reflexivity].
Qed.
