(* ===== verification/PeriodDataRlp.v ===== *)
(** * Serialisation of the data of a period

    A finalized period as it is stored and sent to syncing peers: the PBFT block, the cert
    votes of the previous block, the DAG blocks, the transactions and the pillar votes
    (types/pbft_block/src/period_data.cpp).  A transaction that was read keeps its bytes. *)

From S2P Require Import Prelude Rlp RlpStream RlpRead RlpItems RlpCodec VoteRlp DagBlockRlp DagBundleRlp TransactionRlp PbftBlockRlp.
Local Open Scope Z_scope.
Local Open Scope rlp_scope.

(** A transaction with the bytes it was read from. *)
Record TransactionObject := mkTransactionObject { to_transaction : SerialTransaction; to_cached_rlp : option bytes }.

(** [Transaction::rlp] and [Transaction::Transaction(RLP)]. *)
Definition object_rlp (o : TransactionObject) : res bytes := match to_cached_rlp o with Some d => Ok d | None => transaction_rlp (to_transaction o) end.
Definition object_from (d : bytes) : res TransactionObject := let* t := fromRLP d false in Ok (mkTransactionObject t (Some d)).

Record SerialPeriodData := mkSerialPeriodData {
  pd_pbft_blk : PbftBlockObject;
  pd_previous_block_cert_votes : list SerialVote;
  pd_dag_blocks : list SerialDagBlock;
  pd_transactions : list TransactionObject;
  pd_pillar_votes : option (list SerialPillarVote);
}.

Definition kBaseRlpItemCount : Z := 4.

(** [PeriodData::rlp]. *)
Definition period_data_rlp (p : SerialPeriodData) : res bytes :=
  let* s := appendList newRLPStream (match pd_pillar_votes p with Some _ => kBaseRlpItemCount + 1 | None => kBaseRlpItemCount end) in
  let* d := pbft_block_rlp true (po_block (pd_pbft_blk p)) in
  let* s := appendRaw s d 1 in
  let* s := (if 1 <? pb_period (po_block (pd_pbft_blk p)) then let* d := encodePbftVotesBundleRlp (pd_previous_block_cert_votes p) in appendRaw s d 1 else append s [] false) in
  let* s := (match pd_dag_blocks p with [] => append s [] false | _ => let* d := encodeDAGBlocksBundleRlp (pd_dag_blocks p) in appendRaw s d 1 end) in
  let* s := appendList s (Z.of_nat (length (pd_transactions p))) in
  let* s := rfold (fun s t => let* d := object_rlp t in appendRaw s d 1) (pd_transactions p) s in
  let* s := (match pd_pillar_votes p with Some votes => let* d := encodePillarVotesBundleRlp votes in appendRaw s d 1 | None => Ok s end) in
  stream_out s.

(** [*it++]: the iterator is advanced before its old value is read. *)
Definition take_item (it : iterator) : res (bytes * iterator) := let* it' := it_next it in let* d := it_deref it in Ok (d, it').

(** [PeriodData::PeriodData(RLP)]. *)
Definition period_data_from (sha3 : bytes -> bytes) (recover : bytes -> bytes -> bytes) (d : bytes) : res SerialPeriodData :=
  let* it := it_begin d in
  let* (d1, it) := take_item it in
  let* blk := pbft_block_from sha3 recover d1 in
  let* (d2, it) := take_item it in
  let* votes := (if 1 <? pb_period (po_block blk) then decodePbftVotesBundleRlp d2 else Ok []) in
  let* (d3, it) := take_item it in
  let* dag_blocks := decodeDAGBlocksBundleRlp d3 in
  let* (d4, it) := take_item it in
  let* transactions := rlp_for object_from d4 in
  let* n := itemCount d in
  let* pillar_votes := (if n =? 5 then let* d5 := it_deref it in let* votes := decodePillarVotesBundleRlp d5 in Ok (Some votes) else Ok None) in
  Ok (mkSerialPeriodData blk votes dag_blocks transactions pillar_votes).

(** ** Well-formed data *)

(** A transaction whose bytes are the encoding of an item that reads as the transaction. *)
Definition object_ok (o : TransactionObject) (it : item) : Prop :=
  small it /\ bsize (encode it) <= 2 ^ 29 /\ object_rlp o = Ok (encode it) /\ fromRLP (encode it) false = Ok (to_transaction o).

Lemma fresh_object_ok t : transaction_ok t -> signed t -> object_ok (mkTransactionObject t None) (Items (transaction_fields t)).
Proof.
  intros Ht Hsg. destruct (transaction_small t Ht) as (_ & Hs & Hb). split_and!; [done|done|by apply transaction_rlp_item|].
  unfold fromRLP. rewrite (transaction_dec t) by done. cbn [rbind]. rewrite split_join_v by done. by destruct t.
Qed.

(** ** The parts of the data *)

(** A part that is written as an item and read back from it. *)
Record part {A} (enc : res bytes) (dec : bytes -> res A) (a : A) (it : item) : Prop := {
  p_small : small it;
  p_size : bsize (encode it) <= 2 ^ 57;
  p_enc : enc = Ok (encode it);
  p_dec : dec (encode it) = Ok a;
}.

Definition votes_ok (votes : list SerialVote) : Prop :=
  votes <> [] /\ Forall vote_ok votes /\ (forall v v', v ∈ votes -> v' ∈ votes -> same_vote v v') /\ Z.of_nat (length votes) < 2 ^ 32.
Definition pillar_votes_ok (votes : list SerialPillarVote) : Prop :=
  votes <> [] /\ Forall pillar_vote_ok votes /\ (forall v v', v ∈ votes -> v' ∈ votes -> sp_period v = sp_period v' /\ sp_block_hash v = sp_block_hash v') /\ Z.of_nat (length votes) < 2 ^ 32.

Lemma last_in {A} (l : list A) : l <> [] -> exists a, last l = Some a /\ a ∈ l.
Proof. intros Hl. destruct (last l) as [a|] eqn:E; [|by apply last_None in E]. exists a. split; [done|]. apply last_Some in E as [l' ->]. apply elem_of_app. right. by left. Qed.

Lemma votes_part votes : votes_ok votes -> exists it, part (encodePbftVotesBundleRlp votes) decodePbftVotesBundleRlp (map (set_weight None) votes) it.
Proof.
  intros (Hne & Hv & Hsame & Hn). destruct (last_in votes Hne) as (r & El & Hr). assert (vote_ok r) as Hrok by (rewrite Forall_forall in Hv; auto). exists (Items (bundle_items r votes)).
  destruct (bundle_bound r votes Hrok Hv Hn) as [Hs Hb]. split; [done|lia|by apply bundle_rlp_item|]. apply bundle_read; [done|done| |done]. apply Forall_forall. intros v Hin. by apply Hsame.
Qed.

Lemma pillar_part votes : pillar_votes_ok votes -> exists it, part (encodePillarVotesBundleRlp votes) decodePillarVotesBundleRlp votes it.
Proof.
  intros (Hne & Hv & Hsame & Hn). destruct (last_in votes Hne) as (r & El & Hr). assert (pillar_vote_ok r) as Hrok by (rewrite Forall_forall in Hv; auto). exists (Items (pillar_bundle_items r votes)).
  destruct (pillar_bundle_bound r votes Hrok Hv Hn) as [Hs Hb]. destruct (pillar_bundle_item votes r El Hv) as [E1 E2]; [apply Forall_forall; intros v Hin; by apply Hsame|done|]. split; [done|lia|done|done].
Qed.

Lemma dag_part blocks : blocks <> [] -> bundle_ok blocks -> exists it, part (encodeDAGBlocksBundleRlp blocks) decodeDAGBlocksBundleRlp blocks it /\
  forall i b, blocks !! i = Some b -> decodeDAGBlockBundleRlp (Z.of_nat i) (encode it) = Ok (Some b).
Proof.
  intros Hne Hok. destruct (index_blocks start blocks) as [t indexes] eqn:E. exists (Items (bundle_fields t indexes blocks)). destruct (bundle_items_small blocks t indexes Hok E) as (Hs & _ & _ & _ & Hb).
  split; [|intros i b; by apply bundle_read_one]. split; [done|lia| |by apply bundle_read_back]. unfold encodeDAGBlocksBundleRlp. destruct blocks; [done|]. by apply bundle_written.
Qed.

(** An absent part is an empty string. *)
Lemma empty_part {A} (dec : bytes -> res A) a : dec [128] = Ok a -> part (Ok [128]) dec a (Data []).
Proof. intros Hd. split; [by apply small_data|done|done|done]. Qed.

Lemma write_part {A B} (enc : res bytes) (dec : bytes -> res A) a it l (K k : RLPStream -> res B) s : part enc dec a it -> (forall s, K s = let* s := rfold stream_item l s in k s) ->
  (let* s := (let* d := enc in appendRaw s d 1) in K s) = let* s := rfold stream_item (it :: l) s in k s.
Proof. intros [Hs _ -> _] HK. cbn [rbind]. by apply write_raw. Qed.

(** A block that the constructor accepts, with its hash and beneficiary. *)
Definition block_object_ok (sha3 : bytes -> bytes) (recover : bytes -> bytes -> bytes) (o : PbftBlockObject) : Prop :=
  pbft_block_ok (po_block o) /\ forallb (fun x => x =? 0) (signer sha3 recover (po_block o)) = false /\ NoDup (pb_reward_votes (po_block o)) /\
  po_block_hash o = sha3 (encode (Items (pbft_items true (po_block o)))) /\ po_beneficiary o = drop 12 (sha3 (signer sha3 recover (po_block o))).

Lemma block_part sha3 recover o : block_object_ok sha3 recover o -> part (pbft_block_rlp true (po_block o)) (pbft_block_from sha3 recover) o (Items (pbft_items true (po_block o))).
Proof.
  intros (Hb & Hk & Hn & Hh & Hbe). destruct (pbft_items_small true _ Hb) as (_ & Hs & Hz). split; [done|lia|by apply pbft_block_rlp_item|].
  unfold pbft_block_from. rewrite pbft_block_read by done. cbn [rbind]. rewrite calculateHash_ok, Hk by done. cbn [rbind]. rewrite checkUnique_spec, bool_decide_true by (split; [done|apply Forall_forall; set_solver]).
  cbn [rbind]. rewrite <- Hh, <- Hbe. by destruct o.
Qed.

(** ** The whole *)

(** What is appended to the stream for a part, and what is read from its item. *)
Definition appended {A} (w : RLPStream -> res RLPStream) (dec : bytes -> res A) (a : A) (it : item) : Prop :=
  small it /\ bsize (encode it) <= 2 ^ 57 /\ (forall s, w s = stream_item s it) /\ dec (encode it) = Ok a.

Lemma part_appended {A} (enc : res bytes) (dec : bytes -> res A) a it : part enc dec a it -> appended (fun s => let* d := enc in appendRaw s d 1) dec a it.
Proof. intros [Hs Hz -> Hd]. split_and!; [done|done| |done]. intros s. cbn [rbind]. by apply raw_item. Qed.

Lemma write_appended {A B} w (dec : bytes -> res A) a it l (K k : RLPStream -> res B) s : appended w dec a it -> (forall s, K s = let* s := rfold stream_item l s in k s) ->
  (let* s := w s in K s) = let* s := rfold stream_item (it :: l) s in k s.
Proof. intros (_ & _ & Hw & _) HK. rewrite Hw. by apply write_item. Qed.

Section objects.
Context (os : list TransactionObject) (its : list item) (Ht : Forall2 object_ok os its).

Lemma objects_small : Forall (fun i => small i /\ bsize (encode i) <= 2 ^ 29) its.
Proof using Ht. induction Ht as [|o i os' its' (H1 & H2 & _) Ht' IH]; [apply List.Forall_nil|apply List.Forall_cons; [by split|by apply IH]]. Qed.

Lemma objects_written s : rfold (fun s t => let* d := object_rlp t in appendRaw s d 1) os s = rfold stream_item its s.
Proof using Ht.
  revert s. induction Ht as [|o i os' its' (H1 & _ & H3 & _) Ht' IH]; intros s; [done|]. cbn [rfold]. rewrite H3. cbn [rbind]. rewrite raw_item by done. destruct (stream_item s i); [|done..]. by apply IH.
Qed.

Lemma objects_read : small (Items its) -> rlp_for object_from (encode (Items its)) = Ok (zip_with (fun o it => mkTransactionObject (to_transaction o) (Some (encode it))) os its).
Proof using Ht.
  intros Hs. rewrite rlp_for_encode by done. clear Hs. induction Ht as [|o i os' its' (_ & _ & _ & H4) Ht' IH]; [done|]. cbn [map rmap zip_with]. unfold object_from at 1. rewrite H4. cbn [rbind]. by rewrite IH.
Qed.
End objects.

Section period.
Context (sha3 : bytes -> bytes) (recover : bytes -> bytes -> bytes).

Definition period_data_ok (p : SerialPeriodData) (its : list item) : Prop :=
  block_object_ok sha3 recover (pd_pbft_blk p) /\
  (if 1 <? pb_period (po_block (pd_pbft_blk p)) then votes_ok (pd_previous_block_cert_votes p) else pd_previous_block_cert_votes p = []) /\
  bundle_ok (pd_dag_blocks p) /\ Forall2 object_ok (pd_transactions p) its /\ Z.of_nat (length its) < 2 ^ 27 /\
  match pd_pillar_votes p with Some votes => pillar_votes_ok votes | None => True end.

(** The data after it was written and read. *)
Definition read_back (p : SerialPeriodData) (its : list item) : SerialPeriodData :=
  mkSerialPeriodData (pd_pbft_blk p) (map (set_weight None) (pd_previous_block_cert_votes p)) (pd_dag_blocks p)
    (zip_with (fun o it => mkTransactionObject (to_transaction o) (Some (encode it))) (pd_transactions p) its) (pd_pillar_votes p).

Context (p : SerialPeriodData) (its : list item).
Hypothesis ok : period_data_ok p its.

Lemma votes_appended : exists it, appended
  (fun s => if 1 <? pb_period (po_block (pd_pbft_blk p)) then let* d := encodePbftVotesBundleRlp (pd_previous_block_cert_votes p) in appendRaw s d 1 else append s [] false)
  (fun d => if 1 <? pb_period (po_block (pd_pbft_blk p)) then decodePbftVotesBundleRlp d else Ok []) (map (set_weight None) (pd_previous_block_cert_votes p)) it /\
  (1 <? pb_period (po_block (pd_pbft_blk p)) = false -> it = Data []).
Proof using ok.
  destruct ok as (_ & Hv & _). destruct (1 <? _); [|rewrite Hv; exists (Data []); split; [split_and!; [by apply small_data|done|done|done]|done]].
  destruct (votes_part _ Hv) as [it Hp]. exists it. split; [by apply part_appended|done].
Qed.

Lemma dag_appended : exists it, appended (fun s => match pd_dag_blocks p with [] => append s [] false | _ => let* d := encodeDAGBlocksBundleRlp (pd_dag_blocks p) in appendRaw s d 1 end)
  decodeDAGBlocksBundleRlp (pd_dag_blocks p) it /\ forall i b, pd_dag_blocks p !! i = Some b -> decodeDAGBlockBundleRlp (Z.of_nat i) (encode it) = Ok (Some b).
Proof using ok.
  destruct ok as (_ & _ & Hd & _). destruct (pd_dag_blocks p) as [|b blocks] eqn:E; [exists (Data []); split; [split_and!; [by apply small_data|done|done|done]|done]|].
  destruct (dag_part (b :: blocks) ltac:(done) Hd) as (it & Hp & H1). exists it. split; [by apply part_appended|done].
Qed.

Lemma transactions_small : small (Items its) /\ bsize (encode (Items its)) <= 2 ^ 57.
Proof using ok.
  destruct ok as (_ & _ & _ & Ht & Hn & _). destruct (small_items its (2 ^ 29)) as [Hs Hb]; [by eapply objects_small|lia|nia|split; [done|nia]].
Qed.

Lemma pillar_appended : match pd_pillar_votes p with
  | Some votes => exists it, appended (fun s => let* d := encodePillarVotesBundleRlp votes in appendRaw s d 1) decodePillarVotesBundleRlp votes it
  | None => True
  end.
Proof using ok.
  destruct ok as (_ & _ & _ & _ & _ & Hp). destruct (pd_pillar_votes p) as [votes|]; [|done]. destruct (pillar_part votes Hp) as [it H]. exists it. by apply part_appended.
Qed.

Lemma take_items i l : fits (i :: l) -> take_item (iter_at (i :: l)) = Ok (encode i, iter_at l) /\ fits l.
Proof. intros Hf. destruct (it_deref_items i l Hf) as [_ E]. unfold take_item. rewrite it_next_items by done. cbn [rbind]. rewrite E. split; [done|]. by destruct (fits_cons i l Hf). Qed.

(** The items of the data and what is read from each. *)
Record period_layout (i2 i3 : item) (l5 : list item) : Prop := {
  pl_small : small (Items (Items (pbft_items true (po_block (pd_pbft_blk p))) :: i2 :: i3 :: Items its :: l5));
  pl_rlp : period_data_rlp p = Ok (encode (Items (Items (pbft_items true (po_block (pd_pbft_blk p))) :: i2 :: i3 :: Items its :: l5)));
  pl_block : pbft_block_from sha3 recover (encode (Items (pbft_items true (po_block (pd_pbft_blk p))))) = Ok (pd_pbft_blk p);
  pl_votes : (if 1 <? pb_period (po_block (pd_pbft_blk p)) then decodePbftVotesBundleRlp (encode i2) else Ok []) = Ok (map (set_weight None) (pd_previous_block_cert_votes p));
  pl_no_votes : 1 <? pb_period (po_block (pd_pbft_blk p)) = false -> i2 = Data [];
  pl_dag : decodeDAGBlocksBundleRlp (encode i3) = Ok (pd_dag_blocks p);
  pl_dag_one i b : pd_dag_blocks p !! i = Some b -> decodeDAGBlockBundleRlp (Z.of_nat i) (encode i3) = Ok (Some b);
  pl_trxs : small (Items its) /\ rlp_for object_from (encode (Items its)) = Ok (pd_transactions (read_back p its));
  pl_pillar : match pd_pillar_votes p with Some votes => exists i5, l5 = [i5] /\ decodePillarVotesBundleRlp (encode i5) = Ok votes | None => l5 = [] end;
}.

Lemma period_items : exists i2 i3 l5, period_layout i2 i3 l5.
Proof using ok.
  destruct votes_appended as (i2 & A2 & Hno), dag_appended as (i3 & A3 & H1). pose proof pillar_appended as A5. pose proof transactions_small as [S4 B4]. pose proof ok as (Hblk & _ & _ & Ht & Hn & _).
  destruct (block_part _ _ _ Hblk) as [S1 B1 E1 D1]. set (i1 := Items (pbft_items true (po_block (pd_pbft_blk p)))) in *. pose proof A2 as (S2 & B2 & _ & D2). pose proof A3 as (S3 & B3 & _ & D3).
  assert (exists l5, (forall s, (match pd_pillar_votes p with Some votes => let* d := encodePillarVotesBundleRlp votes in appendRaw s d 1 | None => Ok s end) = rfold stream_item l5 s) /\
    length l5 = match pd_pillar_votes p with Some _ => 1%nat | None => 0%nat end /\ Forall (fun i => small i /\ bsize (encode i) <= 2 ^ 57) l5 /\
    match pd_pillar_votes p with Some votes => exists i5, l5 = [i5] /\ decodePillarVotesBundleRlp (encode i5) = Ok votes | None => l5 = [] end) as (l5 & W5 & L5 & S5 & D5).
  { destruct (pd_pillar_votes p) as [votes|]; [|exists []; split_and!; [done|done|apply List.Forall_nil|done]]. destruct A5 as (i5 & S5 & B5 & W5 & D5). exists [i5]. split_and!.
    - intros s. rewrite W5. apply write_last.
    - done.
    - by apply Forall_singleton.
    - by exists i5. }
  exists i2, i3, l5. fold i1. set (l := i1 :: i2 :: i3 :: Items its :: l5). assert (small (Items l)) as Hs.
  { apply (small_items _ (2 ^ 57)); [|lia|subst l; simpl; rewrite L5; destruct (pd_pillar_votes p); simpl; lia]. subst l. repeat (apply List.Forall_cons; [done|]). done. }
  split; fold i1; fold l; try done.
  - unfold period_data_rlp. apply write_list; [done|subst l; simpl; rewrite L5; by destruct (pd_pillar_votes p)|]. intros s. rewrite E1. cbn [rbind]. subst l. apply write_raw; [|done|done]. intros s1.
    apply (write_appended _ _ _ _ _ _ _ s1 A2). intros s2. apply (write_appended _ _ _ _ _ _ _ s2 A3). intros s3. rewrite <- (write_sub l5 (fun s => let* s := rfold stream_item l5 s in stream_out s) stream_out) with (n := Z.of_nat (length (pd_transactions p))); [|done|by rewrite (Forall2_length _ _ _ Ht)].
    destruct (appendList s3 _) as [s4| |]; [|done..]. cbn [rbind]. rewrite (objects_written _ _ Ht). destruct (rfold stream_item its s4) as [s5| |]; [|done..]. cbn [rbind]. by rewrite W5.
  - split; [done|]. by apply objects_read.
Qed.

Lemma period_written : exists d, period_data_rlp p = Ok d /\ newRLP d VeryStrict = Ok d /\ period_data_from sha3 recover d = Ok (read_back p its).
Proof using ok.
  destruct period_items as (i2 & i3 & l5 & [Hs Hr D1 D2 _ D3 _ [S4 D4] D5]). eexists. split_and!; [exact Hr|by apply newRLP_encode|].
  pose proof (small_fits _ Hs) as F1. unfold period_data_from. rewrite it_begin_items by done. cbn [rbind]. destruct (take_items _ _ F1) as [-> F2]. cbn [rbind]. rewrite D1. cbn [rbind].
  destruct (take_items _ _ F2) as [-> F3]. cbn [rbind]. rewrite D2. cbn [rbind]. destruct (take_items _ _ F3) as [-> F4]. cbn [rbind]. rewrite D3. cbn [rbind].
  destruct (take_items _ _ F4) as [-> F5]. cbn [rbind]. rewrite D4. cbn [rbind]. destruct (itemCount_encode _ Hs) as [-> _]. cbn [rbind].
  destruct (pd_pillar_votes p) as [votes|] eqn:Ep.
  - destruct D5 as (i5 & -> & D5). change (Z.of_nat _ =? 5) with true. cbv iota. destruct (it_deref_items i5 [] F5) as [_ ->]. cbn [rbind]. rewrite D5. cbn [rbind]. unfold read_back. by rewrite Ep.
  - subst l5. change (Z.of_nat _ =? 5) with false. cbv iota. cbn [rbind]. unfold read_back. by rewrite Ep.
Qed.
End period.

Lemma rbind_ext {A B} (m : res A) (k k' : A -> res B) : (forall a, k a = k' a) -> rbind m k = rbind m k'.
Proof. intros H. destruct m; cbn [rbind]; [apply H|done|done]. Qed.

Lemma bundle_without_weights votes : encodePbftVotesBundleRlp (map (set_weight None) votes) = encodePbftVotesBundleRlp votes.
Proof.
  unfold encodePbftVotesBundleRlp. rewrite fmap_last. destruct (last votes) as [r|]; [|done]. cbn [fmap option_fmap option_map set_weight sv_block_hash sv_sortition]. rewrite length_map.
  do 6 (apply rbind_ext; intros ?). f_equal. revert a4. induction votes as [|v votes IH]; intros s; [done|]. cbn [map rfold]. change (optimizedRlp (set_weight None v)) with (optimizedRlp v).
  apply rbind_ext. intros s'. apply IH.
Qed.

(** Reading leaves the bytes of the transactions as they are. *)
Lemma objects_read_ok os its : Forall2 object_ok os its -> Forall2 object_ok (zip_with (fun o it => mkTransactionObject (to_transaction o) (Some (encode it))) os its) its.
Proof. intros Ht. induction Ht as [|o i os its (H1 & H2 & H3 & H4) Ht IH]; [constructor|]. cbn [zip_with]. constructor; [|done]. by split_and!. Qed.

Lemma period_rewritten sha3 recover p its : period_data_ok sha3 recover p its -> period_data_rlp (read_back p its) = period_data_rlp p.
Proof.
  intros (_ & _ & _ & Ht & _). unfold period_data_rlp. cbn [read_back pd_pbft_blk pd_previous_block_cert_votes pd_dag_blocks pd_transactions pd_pillar_votes].
  rewrite bundle_without_weights. assert (length (zip_with (fun o it => mkTransactionObject (to_transaction o) (Some (encode it))) (pd_transactions p) its) = length (pd_transactions p)) as ->
    by (rewrite length_zip_with, (Forall2_length _ _ _ Ht); lia).
  do 6 (apply rbind_ext; intros ?). rewrite (objects_written _ _ (objects_read_ok _ _ Ht)), (objects_written _ _ Ht). done.
Qed.

(** C22: The data of a period that is written and read again is the same but for the weights of
    the votes, which are not written, and the bytes that a read transaction keeps; what was
    read is written as the same bytes again. *)
Theorem period_data_roundtrip sha3 recover p its : period_data_ok sha3 recover p its ->
  exists d, period_data_rlp p = Ok d /\ newRLP d VeryStrict = Ok d /\ period_data_from sha3 recover d = Ok (read_back p its) /\ period_data_rlp (read_back p its) = Ok d.
Proof.
  intros Hok. destruct (period_written sha3 recover p its Hok) as (d & E1 & E2 & E3). exists d. split_and!; [done|done|done|]. by rewrite (period_rewritten _ _ _ _ Hok).
Qed.

Definition sample_sha3 (m : bytes) : bytes := take 32 m.
Definition sample_recover (sig _ : bytes) : bytes := take 64 sig.
Definition sample_block_object : PbftBlockObject :=
  mkPbftBlockObject (sample_pbft_block (Some sample_extra) []) (sample_sha3 (encode (Items (pbft_items true (sample_pbft_block (Some sample_extra) []))))) (replicate 20 5).
Definition sample_period : SerialPeriodData :=
  mkSerialPeriodData sample_block_object [sample_vote (Some 5)] [sample_dag_block 7 []] [mkTransactionObject (sample_transaction None 841) None] (Some [sample_pillar_vote 1]).

Lemma period_data_roundtrip_witness :
  exists d, period_data_rlp sample_period = Ok d /\ newRLP d VeryStrict = Ok d /\
    period_data_from sample_sha3 sample_recover d = Ok (read_back sample_period [Items (transaction_fields (sample_transaction None 841))]) /\
    period_data_rlp (read_back sample_period [Items (transaction_fields (sample_transaction None 841))]) = Ok d.
Proof.
  apply (period_data_roundtrip sample_sha3 sample_recover sample_period). split_and!.
  - split_and!; [|vm_compute; reflexivity|constructor|done|vm_compute; reflexivity]. apply sample_pbft_block_ok; [apply sample_extra_ok|]. split; [apply List.Forall_nil|done].
  - split_and!; [done|apply Forall_singleton, sample_vote_ok; simpl; lia|intros v v' ->%list_elem_of_singleton ->%list_elem_of_singleton; by split_and!|done].
  - split_and!; [apply Forall_singleton, sample_dag_block_ok; [lia|split; [apply List.Forall_nil|done]]|done|done].
  - constructor; [|constructor]. apply fresh_object_ok; [apply sample_transaction_ok; [done|lia]|left; discriminate].
  - done.
  - split_and!; [done| |intros v v' ->%list_elem_of_singleton ->%list_elem_of_singleton; done|done]. apply Forall_singleton. repeat split; try done; apply Forall_replicate; unfold byte_ok; lia.
Defined.
