(* ===== verification/LogBloom.v ===== *)
(** * Bloom filters of logs and their index

    The filters over the addresses and topics of logs (types/transaction/src/receipt.cpp,
    aleth/libdevcore/FixedHash.h) and the two-level index over the blocks of the final chain
    ([appendBlock] and [withBlockBloom] of consensus/src/final_chain/final_chain.cpp).  A filter
    of 2048 bits is the number its bytes denote; the hash function is a parameter. *)

From S2P Require Import Prelude.
Local Open Scope Z_scope.
#[local] Ltac Zify.zify_post_hook ::= Z.to_euclidean_division_equations.

(** ** Filters *)

Abbreviation LogBloom := Z.

(** [FixedHash::bloomPart<3, 256>] of a hash of 32 bytes. *)
Definition bloom_index (h : list Z) (i : nat) : Z := Z.land (Z.lor (Z.shiftl (nth (2 * i) h 0) 8) (nth (2 * i + 1) h 0)) 2047.
Definition bloomPart (h : list Z) : LogBloom := fold_left (fun ret i => Z.lor ret (Z.shiftl 1 (bloom_index h i))) [0; 1; 2]%nat 0.

(** [FixedHash::contains]. *)
Definition contains (b c : LogBloom) : bool := Z.land b c =? c.

(** ** Logs *)

Record LogEntry := mkLogEntry { le_address : Z; le_topics : list Z; le_data : list Z }.
Record TransactionReceipt := mkTransactionReceipt { tr_status_code : Z; tr_gas_used : Z; tr_cumulative_gas_used : Z; tr_logs : list LogEntry; tr_new_contract_address : option Z }.

Section blooms.
Context (sha3 : Z -> list Z).

Definition shiftBloom (b : LogBloom) (x : Z) : LogBloom := Z.lor b (bloomPart (sha3 x)).
Definition containsBloom (b : LogBloom) (x : Z) : bool := contains b (bloomPart (sha3 x)).

Definition log_bloom (l : LogEntry) : LogBloom := fold_left shiftBloom (le_topics l) (shiftBloom 0 (le_address l)).
Definition receipt_bloom (r : TransactionReceipt) : LogBloom := fold_left (fun b l => Z.lor b (log_bloom l)) (tr_logs r) 0.

(** The bloom of the header of a block and the one that is put into the index. *)
Definition header_bloom (receipts : list TransactionReceipt) : LogBloom := fold_left (fun b r => Z.lor b (receipt_bloom r)) receipts 0.
Definition log_bloom_for_index (receipts : list TransactionReceipt) (author : Z) : LogBloom := shiftBloom (header_bloom receipts) author.
End blooms.

(** ** The index *)

Definition c_bloomIndexSize : Z := 16.
Definition c_bloomIndexLevels : Z := 2.

(** [int_pow]: the loop squares [x]. *)
Fixpoint int_pow_loop (n : nat) (x : Z) : Z := match n with O => x | S n => int_pow_loop n (x * x) end.
Definition int_pow (x y : Z) : Z := if y =? 0 then 1 else int_pow_loop (Z.to_nat (y - 1)) x.

(** The column of the index: chunks of 16 filters. *)
Abbreviation LogBloomsIndex := (gmap Z (list LogBloom)).

Definition blockBlooms (db : LogBloomsIndex) (chunk_id : Z) : list LogBloom := default (replicate 16 0) (db !! chunk_id).
Definition blockBloomsChunkId (level index : Z) : Z := u64 (index * 255 + level).

(** The loop over the levels in [appendBlock]. *)
Fixpoint index_levels (n : nat) (db : LogBloomsIndex) (level index : Z) (b : LogBloom) : LogBloomsIndex :=
  match n with
  | O => db
  | S n =>
      let chunk_id := blockBloomsChunkId level (index / c_bloomIndexSize) in
      let db := <[chunk_id := alter (fun x => Z.lor x b) (Z.to_nat (index mod c_bloomIndexSize)) (blockBlooms db chunk_id)]> db in
      index_levels n db (level + 1) (index / c_bloomIndexSize) b
  end.
Definition index_block (db : LogBloomsIndex) (number : Z) (b : LogBloom) : LogBloomsIndex := index_levels (Z.to_nat c_bloomIndexLevels) db 0 number b.

(** [withBlockBloom] of one chunk; a recursion over the level. *)
Fixpoint withBlockBloom_level (db : LogBloomsIndex) (b : LogBloom) (from to : Z) (level : nat) (index : Z) : list Z :=
  let uCourse := int_pow c_bloomIndexSize (Z.of_nat level + 1) in
  let uFine := int_pow c_bloomIndexSize (Z.of_nat level) in
  let obegin := if index =? from / uCourse then (from / uFine) mod c_bloomIndexSize else 0 in
  let oend := if index =? to / uCourse then (to / uFine) mod c_bloomIndexSize + 1 else c_bloomIndexSize in
  let bb := blockBlooms db (blockBloomsChunkId (Z.of_nat level) index) in
  flat_map
    (fun o =>
       if contains (nth (Z.to_nat o) bb 0) b then
         match level with
         | S level => withBlockBloom_level db b from to level (u64 (o + index * c_bloomIndexSize))
         | O => let blockNumber := u64 (o + index * c_bloomIndexSize) in if (from <=? blockNumber) && (blockNumber <=? to) then [blockNumber] else []
         end
       else [])
    (seqZ obegin (oend - obegin)).

Definition withBlockBloom (db : LogBloomsIndex) (b : LogBloom) (from to : Z) : list Z :=
  let u := int_pow c_bloomIndexSize c_bloomIndexLevels in
  let last := u64 (to + u - 1) / u in
  flat_map (withBlockBloom_level db b from to (Z.to_nat (c_bloomIndexLevels - 1))) (seqZ (from / u) (last - from / u + 1)).

(** ** Bits *)

Lemma contains_spec b c : contains b c = true <-> (forall n, 0 <= n -> Z.testbit c n = true -> Z.testbit b n = true).
Proof.
  unfold contains. rewrite Z.eqb_eq. split.
  - intros E n Hn Hc. rewrite <- E, Z.land_spec in Hc. by apply andb_true_iff in Hc as [? _].
  - intros H. apply Z.bits_inj'. intros n Hn. rewrite Z.land_spec. destruct (Z.testbit c n) eqn:Ec; [by rewrite (H n Hn Ec)|by rewrite andb_false_r].
Qed.

Lemma contains_refl b : contains b b = true.
Proof. by apply contains_spec. Qed.
Lemma contains_zero b : contains b 0 = true.
Proof. apply contains_spec. intros n _. by rewrite Z.bits_0. Qed.
Lemma contains_trans a b c : contains a b = true -> contains b c = true -> contains a c = true.
Proof. rewrite !contains_spec. auto. Qed.
Lemma contains_lor_l a b c : contains a c = true -> contains (Z.lor a b) c = true.
Proof. rewrite !contains_spec. intros H n Hn Hc. by rewrite Z.lor_spec, (H n Hn Hc). Qed.
Lemma contains_lor_r a b c : contains b c = true -> contains (Z.lor a b) c = true.
Proof. rewrite Z.lor_comm. apply contains_lor_l. Qed.
Lemma contains_both a b c : contains a b = true -> contains a c = true -> contains a (Z.lor b c) = true.
Proof. rewrite !contains_spec. intros H1 H2 n Hn. rewrite Z.lor_spec, orb_true_iff. intros [H|H]; auto. Qed.

Create HintDb bloom.
#[export] Hint Resolve contains_refl contains_zero contains_lor_l contains_lor_r contains_both : bloom.

(** A filter that is built by adding is above all that was added. *)
Lemma fold_contains_acc {A} (f : A -> Z) l b c : contains b c = true -> contains (fold_left (fun b a => Z.lor b (f a)) l b) c = true.
Proof. revert b. induction l as [|a l IH]; intros b Hb; [done|]. apply IH. by apply contains_lor_l. Qed.

Lemma fold_contains {A} (f : A -> Z) l a b c : a ∈ l -> contains (f a) c = true -> contains (fold_left (fun b a => Z.lor b (f a)) l b) c = true.
Proof.
  revert b. induction l as [|a' l IH]; intros b Hin Hc; [by apply elem_of_nil in Hin|]. apply elem_of_cons in Hin as [->|Hin]; simpl; [|by apply IH]. apply fold_contains_acc. by apply contains_lor_r.
Qed.

(** ** What the index holds *)

Record indexed (db : LogBloomsIndex) (B : Z -> LogBloom) : Prop := {
  ix_length id : length (blockBlooms db id) = 16%nat;
  ix_block n : 0 <= n < 2 ^ 60 -> nth (Z.to_nat (n mod 16)) (blockBlooms db (blockBloomsChunkId 0 (n / 16))) 0 = B n;
  ix_group n : 0 <= n < 2 ^ 60 -> contains (nth (Z.to_nat (n / 16 mod 16)) (blockBlooms db (blockBloomsChunkId 1 (n / 16 / 16))) 0) (B n) = true;
}.

Lemma blockBlooms_insert db id id' l : blockBlooms (<[id := l]> db) id' = if decide (id = id') then l else blockBlooms db id'.
Proof. unfold blockBlooms. case_decide; subst; [by rewrite lookup_insert_eq|by rewrite lookup_insert_ne]. Qed.

Lemma chunk_id_inj l l' i i' : 0 <= l < 255 -> 0 <= l' < 255 -> 0 <= i < 2 ^ 56 -> 0 <= i' < 2 ^ 56 -> blockBloomsChunkId l i = blockBloomsChunkId l' i' -> l = l' /\ i = i'.
Proof. intros Hl Hl' Hi Hi'. unfold blockBloomsChunkId. rewrite !wrap_id by (unfold in_range, modulus; lia). lia. Qed.

Lemma nth_alter (f : Z -> Z) i j l : (i < length l)%nat -> nth j (alter f i l) 0 = if decide (i = j) then f (nth j l 0) else nth j l 0.
Proof.
  intros Hi. rewrite !nth_lookup. case_decide as E; [subst j|by rewrite list_lookup_alter_ne]. rewrite list_lookup_alter_eq. destruct (lookup_lt_is_Some_2 l i Hi) as [x ->]. done.
Qed.

Lemma index_block_unfold db n b : index_block db n b =
  (let id0 := blockBloomsChunkId 0 (n / 16) in let id1 := blockBloomsChunkId 1 (n / 16 / 16) in
   let db0 := <[id0 := alter (fun x => Z.lor x b) (Z.to_nat (n mod 16)) (blockBlooms db id0)]> db in
   <[id1 := alter (fun x => Z.lor x b) (Z.to_nat (n / 16 mod 16)) (blockBlooms db0 id1)]> db0).
Proof. reflexivity. Qed.

(** One more block. *)
Definition add_bloom (B : Z -> LogBloom) (n : Z) (b : LogBloom) : Z -> LogBloom := fun m => if m =? n then Z.lor (B m) b else B m.

Lemma index_block_indexed db B n b : indexed db B -> 0 <= n < 2 ^ 60 -> indexed (index_block db n b) (add_bloom B n b).
Proof.
  intros [Hl Hb Hg] Hn. rewrite index_block_unfold. cbv zeta.
  assert (0 <= n / 16 < 2 ^ 56 /\ 0 <= n / 16 / 16 < 2 ^ 56 /\ 0 <= n mod 16 < 16 /\ 0 <= n / 16 mod 16 < 16) as (Q1 & Q2 & Q3 & Q4) by (pose proof (Z.mod_pos_bound n 16); pose proof (Z.mod_pos_bound (n / 16) 16); lia).
  assert (blockBloomsChunkId 0 (n / 16) <> blockBloomsChunkId 1 (n / 16 / 16)) as Hne by (intros E; apply chunk_id_inj in E; lia).
  rewrite (blockBlooms_insert _ (blockBloomsChunkId 0 (n / 16)) (blockBloomsChunkId 1 (n / 16 / 16))), decide_False by done. split.
  - intros id. rewrite !blockBlooms_insert. repeat case_decide; rewrite ?length_alter; apply Hl.
  - intros m Hm. assert (0 <= m / 16 < 2 ^ 56 /\ 0 <= m mod 16 < 16) as (M1 & M2) by (pose proof (Z.mod_pos_bound m 16); lia). rewrite blockBlooms_insert, decide_False by (intros E; apply chunk_id_inj in E; lia).
    rewrite blockBlooms_insert. unfold add_bloom. case_decide as E.
    + apply chunk_id_inj in E as [_ E]; [|lia..]. rewrite nth_alter by (rewrite Hl; lia). rewrite E, Hb by done. destruct (Z.eqb_spec m n) as [->|Hne']; [by rewrite decide_True|].
      rewrite decide_False; [done|]. intros E2. apply Hne'. pose proof (Z.div_mod m 16 ltac:(lia)). pose proof (Z.div_mod n 16 ltac:(lia)). lia.
    + rewrite Hb by done. destruct (Z.eqb_spec m n) as [->|]; [done|done].
  - intros m Hm. assert (0 <= m / 16 / 16 < 2 ^ 56 /\ 0 <= m / 16 mod 16 < 16) as (M1 & M2) by (pose proof (Z.mod_pos_bound (m / 16) 16); lia). specialize (Hg m Hm). rewrite blockBlooms_insert. unfold add_bloom. case_decide as E.
    + apply chunk_id_inj in E as [_ E]; [|lia..]. rewrite nth_alter by (rewrite Hl; lia). rewrite E. case_decide as E2; [|].
      * destruct (m =? n); [apply contains_both|]; auto with bloom.
      * destruct (Z.eqb_spec m n) as [->|]; [done|done].
    + rewrite blockBlooms_insert, decide_False by (intros E2; apply chunk_id_inj in E2; lia). destruct (Z.eqb_spec m n) as [->|]; done.
Qed.

(** ** Loops over ranges *)

Lemma flat_map_nil {A B} (g : A -> list B) l : (forall x, x ∈ l -> g x = []) -> flat_map g l = [].
Proof. induction l as [|x l IH]; intros H; [done|]. simpl. rewrite H by (by left). apply IH. intros y Hy. apply H. by right. Qed.

Lemma flat_map_ext_in {A B} (g h : A -> list B) l : (forall x, x ∈ l -> g x = h x) -> flat_map g l = flat_map h l.
Proof. induction l as [|x l IH]; intros H; [done|]. simpl. rewrite H by (by left). f_equal. apply IH. intros y Hy. apply H. by right. Qed.

(** Leaving out the ends of a range where nothing is found. *)
Lemma flat_map_range {B} (g : Z -> list B) lo hi a b : lo <= a -> b <= hi -> lo <= hi -> (forall o, lo <= o < hi -> o < a \/ b <= o -> g o = []) ->
  flat_map g (seqZ a (b - a)) = flat_map g (seqZ lo (hi - lo)).
Proof.
  intros Ha Hb Hlh Hg. destruct (decide (a <= b)) as [Hab|Hab].
  - replace (hi - lo) with ((a - lo) + ((b - a) + (hi - b))) by lia. rewrite !seqZ_app by lia. replace (lo + (a - lo)) with a by lia. replace (a + (b - a)) with b by lia. rewrite !flat_map_app.
    rewrite (flat_map_nil g (seqZ lo (a - lo))), (flat_map_nil g (seqZ b (hi - b))); [by rewrite app_nil_r|intros o Ho..]; apply elem_of_seqZ in Ho; apply Hg; lia.
  - rewrite !flat_map_nil; [done|intros o Ho..]; apply elem_of_seqZ in Ho; [|lia]. apply Hg; lia.
Qed.

(** Blocks of [k] numbers one after the other. *)
Lemma flat_map_blocks {B} (h : Z -> list B) k a (n : nat) : 0 <= k -> flat_map (fun o => flat_map h (seqZ (k * o) k)) (seqZ a (Z.of_nat n)) = flat_map h (seqZ (k * a) (k * Z.of_nat n)).
Proof.
  intros Hk. revert a. induction n as [|n IH]; intros a; [by rewrite !Z.mul_0_r|]. rewrite Nat2Z.inj_succ, seqZ_cons by lia. cbn [flat_map]. replace (Z.pred (Z.succ (Z.of_nat n))) with (Z.of_nat n) by lia. rewrite IH.
  replace (k * Z.succ (Z.of_nat n)) with (k + k * Z.of_nat n) by lia. rewrite (seqZ_app (k * a) k (k * Z.of_nat n)) by lia. rewrite flat_map_app. do 3 f_equal. lia.
Qed.

Lemma flat_map_shift {B} (h : Z -> list B) a n : flat_map (fun o => h (a + o)) (seqZ 0 n) = flat_map h (seqZ a n).
Proof.
  replace (seqZ a n) with (Z.add a <$> seqZ 0 n) by (by rewrite fmap_add_seqZ, Z.add_0_r). generalize (seqZ 0 n) as l. induction l as [|x l IH]; [done|]. cbn [flat_map fmap list_fmap]. by rewrite IH.
Qed.

(** ** The search *)

Section search.
Context (db : LogBloomsIndex) (B : Z -> LogBloom) (b : LogBloom) (from to : Z).
Hypothesis ix : indexed db B.
Hypothesis from_range : 0 <= from.
Hypothesis to_range : 0 <= to < 2 ^ 59.

(** A block that is found. *)
Definition hit (n : Z) : list Z := if (from <=? n) && (n <=? to) && contains (B n) b then [n] else [].

Lemma hit_out n : n < from \/ to < n -> hit n = [].
Proof using from_range to_range. intros Hn. unfold hit. destruct (Z.leb_spec from n), (Z.leb_spec n to); try lia; done. Qed.

Lemma search_blocks index : 0 <= index < 2 ^ 56 -> withBlockBloom_level db b from to 0 index = flat_map hit (seqZ (16 * index) 16).
Proof using ix from_range to_range.
  intros Hi. cbn [withBlockBloom_level]. change (int_pow c_bloomIndexSize (Z.of_nat 0 + 1)) with 16. change (int_pow c_bloomIndexSize (Z.of_nat 0)) with 1. rewrite !Z.div_1_r. unfold c_bloomIndexSize.
  rewrite (flat_map_ext_in _ (fun o => hit (16 * index + o))).
  - rewrite (flat_map_range _ 0 16); [|destruct (index =? _); lia|destruct (index =? _); lia|lia|].
    + apply flat_map_shift.
    + intros o Ho Hout. apply hit_out. destruct (Z.eqb_spec index (from / 16)), (Z.eqb_spec index (to / 16)); lia.
  - intros o Ho. apply elem_of_seqZ in Ho. assert (0 <= o < 16) as Hr by (destruct (index =? from / 16), (index =? to / 16); lia).
    assert (nth (Z.to_nat o) (blockBlooms db (blockBloomsChunkId (Z.of_nat 0) index)) 0 = B (16 * index + o)) as ->.
    { rewrite <- (ix_block _ _ ix) by lia. replace ((16 * index + o) mod 16) with o by lia. by replace ((16 * index + o) / 16) with index by lia. }
    rewrite wrap_id by (unfold in_range, modulus; lia). replace (o + index * 16) with (16 * index + o) by lia. unfold hit. destruct (contains _ _); [by rewrite andb_true_r|by rewrite andb_false_r].
Qed.

Lemma search_groups index : 0 <= index < 2 ^ 52 -> withBlockBloom_level db b from to 1 index = flat_map hit (seqZ (256 * index) 256).
Proof using ix from_range to_range.
  intros Hi. cbn [withBlockBloom_level]. change (int_pow c_bloomIndexSize (Z.of_nat 1 + 1)) with 256. change (int_pow c_bloomIndexSize (Z.of_nat 1)) with 16.
  transitivity (flat_map (fun o => flat_map hit (seqZ (16 * (16 * index + o)) 16)) (seqZ 0 16)).
  - rewrite (flat_map_ext_in _ (fun o => flat_map hit (seqZ (16 * (16 * index + o)) 16))).
    + unfold c_bloomIndexSize. rewrite (flat_map_range _ 0 16); [done|destruct (index =? _); lia|destruct (index =? _); lia|lia|]. intros o Ho Hout. apply flat_map_nil. intros n Hn. apply elem_of_seqZ in Hn. apply hit_out.
      destruct (Z.eqb_spec index (from / 256)), (Z.eqb_spec index (to / 256)); lia.
    + intros o Ho. apply elem_of_seqZ in Ho. unfold c_bloomIndexSize in *. assert (0 <= o < 16) as Hr by (destruct (index =? from / 256), (index =? to / 256); lia).
      destruct (contains (nth _ _ _) b) eqn:Ec.
      * fold (withBlockBloom_level db b from to 0). rewrite wrap_id by (unfold in_range, modulus; lia). replace (o + index * 16) with (16 * index + o) by lia. apply search_blocks. lia.
      * symmetry. apply flat_map_nil. intros n Hn. apply elem_of_seqZ in Hn. unfold hit. assert (contains (B n) b = false) as ->; [|by rewrite andb_false_r]. apply not_true_is_false. intros Hc.
        apply not_true_iff_false in Ec. apply Ec. eapply contains_trans; [|exact Hc]. pose proof (ix_group _ _ ix n ltac:(lia)) as Hg. replace (n / 16 mod 16) with o in Hg by lia. by replace (n / 16 / 16) with index in Hg by lia.
  - replace (256 * index) with (16 * (16 * index)) by lia. change 256 with (16 * Z.of_nat 16). rewrite <- flat_map_blocks by lia. apply (flat_map_shift (fun o => flat_map hit (seqZ (16 * o) 16))).
Qed.

Lemma search_spec : withBlockBloom db b from to = flat_map hit (seqZ from (to - from + 1)).
Proof using ix from_range to_range.
  unfold withBlockBloom. change (int_pow c_bloomIndexSize c_bloomIndexLevels) with 256. change (Z.to_nat (c_bloomIndexLevels - 1)) with 1%nat. rewrite wrap_id by (unfold in_range, modulus; lia).
  destruct (decide (from <= to)) as [Hle|Hgt].
  - set (lo := from / 256). set (last := (to + 256 - 1) / 256). rewrite (flat_map_ext_in _ (fun index => flat_map hit (seqZ (256 * index) 256))).
    + replace (last - lo + 1) with (Z.of_nat (Z.to_nat (last - lo + 1))) by lia. rewrite flat_map_blocks by lia. replace (to - from + 1) with (to + 1 - from) by lia.
      rewrite (flat_map_range hit (256 * lo) (256 * (last + 1)) from (to + 1)); [f_equal; f_equal; lia|lia|lia|lia|]. intros o Ho Hout. apply hit_out. lia.
    + intros index Hin. apply elem_of_seqZ in Hin. apply search_groups. lia.
  - rewrite (flat_map_nil hit) by (intros n Hn; apply elem_of_seqZ in Hn; lia). apply flat_map_nil. intros index Hin. apply elem_of_seqZ in Hin.
    rewrite search_groups by lia. apply flat_map_nil. intros n Hn. apply hit_out. lia.
Qed.
End search.

(** ** The index of a chain *)

Definition index_chain (blocks : list (Z * LogBloom)) : LogBloomsIndex := fold_left (fun db x => index_block db x.1 x.2) blocks ∅.

(** The filter of a block. *)
Definition recorded (blocks : list (Z * LogBloom)) (n : Z) : LogBloom := fold_left (fun B x => add_bloom B x.1 x.2) blocks (fun _ => 0) n.

Lemma index_chain_indexed blocks : Forall (fun x => 0 <= x.1 < 2 ^ 60) blocks -> indexed (index_chain blocks) (recorded blocks).
Proof.
  unfold index_chain, recorded. assert (indexed ∅ (fun _ => 0)) as Hs.
  { assert (forall i, nth i (replicate 16 0) 0 = 0) as H0 by (intros i; rewrite nth_lookup; destruct (replicate 16 0 !! i) eqn:E; [by apply lookup_replicate in E as [-> _]|done]).
    split; [done| |]; intros n _; unfold blockBlooms; rewrite lookup_empty; cbn [default]; rewrite H0; [done|apply contains_zero]. }
  revert Hs. generalize (∅ : LogBloomsIndex) (fun _ : Z => 0). induction blocks as [|[n b] blocks IH]; intros db B Hs Hn; [done|]. apply Forall_cons in Hn as [Hn Hb]. cbn [fold_left]. apply IH; [|done].
  by apply index_block_indexed.
Qed.

Lemma flat_map_hit B b from to l : (forall n, n ∈ l -> from <= n <= to) -> flat_map (hit B b from to) l = filter (fun n => contains (B n) b = true) l.
Proof.
  induction l as [|n l IH]; intros Hl; [done|]. cbn [flat_map]. rewrite IH by (intros m Hm; apply Hl; by right). unfold hit. pose proof (Hl n ltac:(by left)).
  destruct (Z.leb_spec from n), (Z.leb_spec n to); try lia. cbn [andb]. destruct (contains (B n) b) eqn:E; [by rewrite filter_cons_True|by rewrite filter_cons_False by congruence].
Qed.

(** The search through the two levels of the index finds exactly the blocks of the range
    whose filter contains the one that is searched for, in increasing order and each once:
    the groups of blocks that are skipped hold none, and the ends of the range are met. *)
Theorem bloom_search_exact blocks b from to : Forall (fun x => 0 <= x.1 < 2 ^ 60) blocks -> 0 <= from -> 0 <= to < 2 ^ 59 ->
  withBlockBloom (index_chain blocks) b from to = filter (fun n => contains (recorded blocks n) b = true) (seqZ from (to - from + 1)).
Proof.
  intros Hb Hf Ht. rewrite (search_spec _ _ _ _ _ (index_chain_indexed blocks Hb) Hf Ht). apply flat_map_hit. intros n Hn. apply elem_of_seqZ in Hn. lia.
Qed.

Lemma bloom_search_exact_witness :
  withBlockBloom (index_chain [(15, 5); (16, 2); (300, 7)]) 5 10 400 = filter (fun n => contains (recorded [(15, 5); (16, 2); (300, 7)] n) 5 = true) (seqZ 10 (400 - 10 + 1)).
Proof. apply (bloom_search_exact [(15, 5); (16, 2); (300, 7)] 5 10 400); [|lia|lia]. repeat (apply List.Forall_cons; [simpl; lia|]). apply List.Forall_nil. Defined.

Example bloom_search_sample : withBlockBloom (index_chain [(15, 5); (16, 2); (300, 7)]) 5 10 400 = [15; 300].
Proof. vm_compute. reflexivity. Qed.

(** [int_pow] is the power only for the exponents up to two, which the two levels of the index use. *)
Lemma int_pow_small x y : 0 <= y <= 2 -> int_pow x y = x ^ y.
Proof. intros Hy. assert (y = 0 \/ y = 1 \/ y = 2) as [-> | [-> | ->]] by lia; unfold int_pow; simpl; lia. Qed.
Example int_pow_three : int_pow 16 3 = 16 ^ 4.
Proof. reflexivity. Qed.
