(* ===== verification/LogFilter.v ===== *)
(** * The filter of logs

    The filter behind [eth_getLogs] (core_libs/network/rpc/eth/LogFilter.cpp): it searches the index
    of the final chain for blocks that may hold matching logs and looks at their receipts.
    An unordered set is the list of its elements in the order of its iteration; what the final
    chain returns for a block is a record of functions. *)

From S2P Require Import Prelude LogBloom.
Local Open Scope Z_scope.
Local Open Scope outcome_scope.

Record LogFilter := mkLogFilter { from_block_ : Z; to_block_ : option Z; addresses_ : list Z; topics_ : list (list Z) }.

Definition is_nil {A} (l : list A) : bool := match l with [] => true | _ => false end.

Definition is_range_only_ (f : LogFilter) : bool := is_nil (addresses_ f) && forallb is_nil (topics_ f).

(** The final chain as the filter sees it. *)
Record ChainView := mkChainView {
  cv_lastBlockNumber : Z;
  cv_blockHash : Z -> option Z;
  cv_blockReceipts : Z -> option (list TransactionReceipt);
  cv_transaction : Z -> Z -> option Z;
  cv_transactionHashes : Z -> list Z;
  cv_transactionReceipt : Z -> Z -> Z -> option TransactionReceipt;
  cv_index : LogBloomsIndex;
}.

Record LocalisedLogEntry := mkLocalisedLogEntry { ll_log : LogEntry; ll_period : Z; ll_position : Z; ll_blk_h : Z; ll_trx_hash : Z; ll_position_in_receipt : nat }.

Section filter.
Context (sha3 : Z -> list Z).
Abbreviation shiftBloom := (shiftBloom sha3).
Abbreviation containsBloom := (containsBloom sha3).

Definition add_topic (ret : list LogBloom) (topic : list Z) : list LogBloom :=
  if is_nil topic then ret else flat_map (fun bloom => map (shiftBloom bloom) topic) ret.
Definition bloomPossibilities (f : LogFilter) : list LogBloom :=
  fold_left add_topic (topics_ f) (if is_nil (addresses_ f) then [0] else map (shiftBloom 0) (addresses_ f)).

(** [LogFilter::matches]. *)
Definition matches (f : LogFilter) (b : LogBloom) : bool :=
  if negb (is_nil (addresses_ f)) && negb (existsb (containsBloom b) (addresses_ f)) then false
  else forallb (fun t => is_nil t || existsb (containsBloom b) t) (topics_ f).

(** The loop over the topics in [match_one]; [i] is the position of the first of [topics]. *)
Fixpoint topics_match (topics : list (list Z)) (i : nat) (e : LogEntry) : outcome bool :=
  match topics with
  | [] => Done true
  | t :: topics =>
      if is_nil t then topics_match topics (S i) e
      else if bool_decide (length (le_topics e) < i)%nat then Done false
      else
        match le_topics e !! i with
        | None => Undefined
        | Some x => if bool_decide (x ∈ t) then topics_match topics (S i) e else Done false
        end
  end.

(** The positions of the logs of a receipt for which the callback runs. *)
Fixpoint match_logs (f : LogFilter) (logs : list LogEntry) (log_i : nat) : outcome (list nat) :=
  match logs with
  | [] => Done []
  | e :: logs =>
      if negb (is_nil (addresses_ f)) && negb (bool_decide (le_address e ∈ addresses_ f)) then match_logs f logs (S log_i)
      else
        let* ok := topics_match (topics_ f) 0 e in
        let* rest := match_logs f logs (S log_i) in
        Done (if ok then log_i :: rest else rest)
  end.
Definition match_one (f : LogFilter) (r : TransactionReceipt) : outcome (list nat) :=
  if negb (matches f (receipt_bloom sha3 r)) then Done [] else match_logs f (tr_logs r) 0.

Definition blk_number_matches (f : LogFilter) (blk_n : Z) : bool := (from_block_ f <=? blk_n) && match to_block_ f with Some t => blk_n <=? t | None => true end.

(** [match_one] with a location: the logs of a receipt. *)
Definition match_at (f : LogFilter) (period position blk_h trx_hash : Z) (r : TransactionReceipt) : outcome (list LocalisedLogEntry) :=
  let entries is' := omap (fun i => (fun l => mkLocalisedLogEntry l period position blk_h trx_hash i) <$> tr_logs r !! i) is' in
  if negb (blk_number_matches f period) then Done []
  else if negb (is_range_only_ f) then let* found := match_one f r in Done (entries found)
  else Done (entries (seq 0 (length (tr_logs r)))).

Definition with_hash (trx_hash : Z) (l : LocalisedLogEntry) : LocalisedLogEntry :=
  mkLocalisedLogEntry (ll_log l) (ll_period l) (ll_position l) (ll_blk_h l) trx_hash (ll_position_in_receipt l).

(** The receipts of a block that are stored together. *)
Fixpoint match_receipts (f : LogFilter) (cv : ChainView) (blk_n blk_h : Z) (receipts : list TransactionReceipt) (i : Z) : outcome (list (Z * LocalisedLogEntry)) :=
  match receipts with
  | [] => Done []
  | r :: receipts =>
      let* found := match_at f blk_n i blk_h 0 r in
      let* rest := match_receipts f cv blk_n blk_h receipts (i + 1) in
      Done (map (pair i) found ++ rest)
  end.

(** The receipts of a block that are stored by transaction. *)
Fixpoint match_hashes (f : LogFilter) (cv : ChainView) (blk_n blk_h : Z) (hashes : list Z) (position : Z) : outcome (list LocalisedLogEntry) :=
  match hashes with
  | [] => Done []
  | h :: hashes =>
      match cv_transactionReceipt cv blk_n position h with
      | None => Undefined
      | Some r =>
          let* found := match_at f blk_n position blk_h h r in
          let* rest := match_hashes f cv blk_n blk_h hashes (position + 1) in
          Done (found ++ rest)
      end
  end.

(** [action] of [match_all]. *)
Definition match_block (f : LogFilter) (cv : ChainView) (blk_n : Z) : outcome (list LocalisedLogEntry) :=
  match cv_blockHash cv blk_n with
  | None => Undefined
  | Some blk_h =>
      match cv_blockReceipts cv blk_n with
      | Some (r :: receipts) =>
          let* ret_block := match_receipts f cv blk_n blk_h (r :: receipts) 0 in
          Done (omap (fun x => (fun h => with_hash h x.2) <$> cv_transaction cv blk_n x.1) ret_block)
      | _ => match_hashes f cv blk_n blk_h (cv_transactionHashes cv blk_n) 0
      end
  end.

Definition match_blocks (f : LogFilter) (cv : ChainView) (blocks : list Z) : outcome (list LocalisedLogEntry) :=
  ofold (fun ret n => let* found := match_block f cv n in Done (ret ++ found)) blocks [].

Definition to_blk (f : LogFilter) (cv : ChainView) : Z := Z.min (default (cv_lastBlockNumber cv) (to_block_ f)) (cv_lastBlockNumber cv).

(** The ordered set of the blocks that are found for one of the filters. *)
Definition matchingBlocks (f : LogFilter) (cv : ChainView) : list Z :=
  merge_sort Z.le (elements (list_to_set (C := gset Z) (flat_map (fun bloom => withBlockBloom (cv_index cv) bloom (from_block_ f) (to_blk f cv)) (bloomPossibilities f)))).

Definition match_all (f : LogFilter) (cv : ChainView) : outcome (list LocalisedLogEntry) :=
  if is_range_only_ f then match_blocks f cv (seqZ (from_block_ f) (to_blk f cv - from_block_ f + 1))
  else match_blocks f cv (matchingBlocks f cv).
End filter.

(** ** What a filter means *)

Definition address_ok (f : LogFilter) (e : LogEntry) : bool := is_nil (addresses_ f) || bool_decide (le_address e ∈ addresses_ f).
Fixpoint topics_ok (topics : list (list Z)) (i : nat) (e : LogEntry) : bool :=
  match topics with
  | [] => true
  | t :: topics => (is_nil t || match le_topics e !! i with Some x => bool_decide (x ∈ t) | None => false end) && topics_ok topics (S i) e
  end.

(** A log matches if its address is one of those of the filter and each of its topics is one of those at its position, where the filter gives any. *)
Definition log_matches (f : LogFilter) (e : LogEntry) : bool := address_ok f e && topics_ok (topics_ f) 0 e.

Fixpoint positions (f : LogFilter) (logs : list LogEntry) (i : nat) : list nat :=
  match logs with [] => [] | e :: logs => if log_matches f e then i :: positions f logs (S i) else positions f logs (S i) end.

Definition logs_at (f : LogFilter) (period position blk_h trx_hash : Z) (r : TransactionReceipt) : list LocalisedLogEntry :=
  omap (fun i => (fun l => mkLocalisedLogEntry l period position blk_h trx_hash i) <$> tr_logs r !! i) (positions f (tr_logs r) 0).

Fixpoint receipts_logs (f : LogFilter) (cv : ChainView) (n blk_h : Z) (receipts : list TransactionReceipt) (i : Z) : list LocalisedLogEntry :=
  match receipts with
  | [] => []
  | r :: receipts => match cv_transaction cv n i with Some x => logs_at f n i blk_h x r | None => [] end ++ receipts_logs f cv n blk_h receipts (i + 1)
  end.
Fixpoint hashes_logs (f : LogFilter) (cv : ChainView) (n blk_h : Z) (hashes : list Z) (i : Z) : list LocalisedLogEntry :=
  match hashes with
  | [] => []
  | h :: hashes => match cv_transactionReceipt cv n i h with Some r => logs_at f n i blk_h h r | None => [] end ++ hashes_logs f cv n blk_h hashes (i + 1)
  end.

(** The matching logs of a block. *)
Definition block_logs (f : LogFilter) (cv : ChainView) (n : Z) : list LocalisedLogEntry :=
  match cv_blockHash cv n with
  | None => []
  | Some blk_h => match cv_blockReceipts cv n with Some (r :: receipts) => receipts_logs f cv n blk_h (r :: receipts) 0 | _ => hashes_logs f cv n blk_h (cv_transactionHashes cv n) 0 end
  end.

(** The receipts of a block; [None] if one is missing. *)
Fixpoint hashes_receipts (cv : ChainView) (n : Z) (hashes : list Z) (i : Z) : option (list TransactionReceipt) :=
  match hashes with
  | [] => Some []
  | h :: hashes => match cv_transactionReceipt cv n i h, hashes_receipts cv n hashes (i + 1) with Some r, Some l => Some (r :: l) | _, _ => None end
  end.
Definition block_receipts (cv : ChainView) (n : Z) : option (list TransactionReceipt) :=
  match cv_blockReceipts cv n with Some (r :: receipts) => Some (r :: receipts) | _ => hashes_receipts cv n (cv_transactionHashes cv n) 0 end.

(** The filter has no topic at the position behind the last topic of the log. *)
Definition readable (f : LogFilter) (e : LogEntry) : Prop := forall i t, topics_ f !! i = Some t -> t <> [] -> length (le_topics e) <> i.

(** ** Looking at logs *)

Lemma is_nil_spec {A} (l : list A) : is_nil l = true <-> l = [].
Proof. by destruct l. Qed.

Lemma topics_match_spec topics e : forall i, (forall k t, topics !! k = Some t -> t <> [] -> length (le_topics e) <> (i + k)%nat) -> topics_match topics i e = Done (topics_ok topics i e).
Proof.
  induction topics as [|t topics IH]; intros i Hr; [done|]. cbn [topics_match topics_ok].
  assert (topics_match topics (S i) e = Done (topics_ok topics (S i) e)) as IH' by (apply IH; intros k t' Hk Hne; replace (S i + k)%nat with (i + S k)%nat by lia; by apply (Hr (S k) t')).
  destruct t as [|x t]; [done|]. cbn [is_nil orb]. pose proof (Hr 0%nat (x :: t) eq_refl ltac:(done)) as Hlen. case_bool_decide as Hlt; [by rewrite (lookup_ge_None_2 (le_topics e) i) by lia|].
  destruct (lookup_lt_is_Some_2 (le_topics e) i ltac:(lia)) as [y ->]. by case_bool_decide.
Qed.

Lemma match_logs_spec f logs : Forall (readable f) logs -> forall i, match_logs f logs i = Done (positions f logs i).
Proof.
  induction logs as [|e logs IH]; intros Hr i; [done|]. apply Forall_cons in Hr as [He Hr]. cbn [match_logs positions]. rewrite IH by done. unfold log_matches, address_ok.
  destruct (is_nil (addresses_ f)); cbn [negb andb orb]; [|case_bool_decide; cbn [negb andb]; [|done]]; (rewrite topics_match_spec by done); cbn [obind]; by destruct (topics_ok _ _ _).
Qed.

Section complete.
Context (sha3 : Z -> list Z).

(** The filter of a log holds its address and topics. *)
Lemma log_bloom_address e : containsBloom sha3 (log_bloom sha3 e) (le_address e) = true.
Proof. unfold containsBloom, log_bloom, shiftBloom. apply fold_contains_acc. auto with bloom. Qed.
Lemma log_bloom_topic e x : x ∈ le_topics e -> containsBloom sha3 (log_bloom sha3 e) x = true.
Proof. intros Hx. unfold containsBloom, log_bloom, shiftBloom. eapply (fold_contains (fun x => bloomPart (sha3 x))); [done|apply contains_refl]. Qed.
Lemma receipt_bloom_log r e : e ∈ tr_logs r -> contains (receipt_bloom sha3 r) (log_bloom sha3 e) = true.
Proof. intros He. unfold receipt_bloom. eapply fold_contains; [done|apply contains_refl]. Qed.

(** What a matching log has. *)
Lemma topics_ok_in topics e : forall i, topics_ok topics i e = true -> Forall (fun t => t = [] \/ exists x, x ∈ t /\ x ∈ le_topics e) topics.
Proof.
  induction topics as [|t topics IH]; intros i H; [constructor|]. cbn [topics_ok] in H. apply andb_true_iff in H as [Ht H]. constructor; [|by eapply IH].
  apply orb_true_iff in Ht as [Ht%is_nil_spec|Ht]; [by left|right]. destruct (le_topics e !! i) as [x|] eqn:E; [|done]. apply bool_decide_eq_true in Ht. exists x. split; [done|]. by eapply list_elem_of_lookup_2.
Qed.

Lemma matches_complete f b e : log_matches f e = true -> contains b (log_bloom sha3 e) = true -> matches sha3 f b = true.
Proof.
  intros [Ha Ht]%andb_true_iff Hb. assert (forall x, containsBloom sha3 (log_bloom sha3 e) x = true -> containsBloom sha3 b x = true) as Hin by (intros x Hx; unfold containsBloom in *; by eapply contains_trans).
  assert (forallb (fun t => is_nil t || existsb (containsBloom sha3 b) t) (topics_ f) = true) as Hts.
  { apply forallb_forall. intros t Hin'. apply topics_ok_in in Ht. rewrite Forall_forall in Ht. apply list_elem_of_In, Ht in Hin' as [->|(x & H1 & H2)]; [done|]. apply orb_true_iff. right. apply existsb_exists.
    exists x. split; [by apply list_elem_of_In|]. by apply Hin, log_bloom_topic. }
  unfold matches, address_ok in *. rewrite Hts. destruct (is_nil (addresses_ f)); cbn [negb andb orb] in *; [done|]. apply bool_decide_eq_true in Ha.
  assert (existsb (containsBloom sha3 b) (addresses_ f) = true) as ->; [|done]. apply existsb_exists. exists (le_address e). split; [by apply list_elem_of_In|]. apply Hin, log_bloom_address.
Qed.

Lemma positions_none f logs : (forall e, e ∈ logs -> log_matches f e = false) -> forall i, positions f logs i = [].
Proof. induction logs as [|e logs IH]; intros H i; [done|]. cbn [positions]. rewrite H by (by left). apply IH. intros e' He. apply H. by right. Qed.

Lemma match_one_spec f r : Forall (readable f) (tr_logs r) -> match_one sha3 f r = Done (positions f (tr_logs r) 0).
Proof.
  intros Hr. unfold match_one. destruct (matches sha3 f (receipt_bloom sha3 r)) eqn:Em; cbn [negb]; [by apply match_logs_spec|]. rewrite positions_none; [done|]. intros e He. apply not_true_is_false. intros Hm.
  rewrite (matches_complete f _ e Hm) in Em; [done|]. by apply receipt_bloom_log.
Qed.

Lemma range_only_matches f e : is_range_only_ f = true -> log_matches f e = true.
Proof.
  intros [Ha Ht]%andb_true_iff. unfold log_matches, address_ok. rewrite Ha. cbn [orb andb]. revert Ht. generalize 0%nat. induction (topics_ f) as [|t topics IH]; intros i Ht; [done|]. cbn [forallb topics_ok] in *.
  apply andb_true_iff in Ht as [-> Ht]. by apply IH.
Qed.

Lemma positions_all f logs : (forall e, log_matches f e = true) -> forall i, positions f logs i = seq i (length logs).
Proof. intros H. induction logs as [|e logs IH]; intros i; [done|]. cbn [positions length seq]. by rewrite H, IH. Qed.

Lemma match_at_spec f period position blk_h trx_hash r : Forall (readable f) (tr_logs r) -> blk_number_matches f period = true ->
  match_at sha3 f period position blk_h trx_hash r = Done (logs_at f period position blk_h trx_hash r).
Proof.
  intros Hr Hn. unfold match_at, logs_at. rewrite Hn. cbn [negb]. destruct (is_range_only_ f) eqn:Er; cbn [negb].
  - by rewrite (positions_all f) by (intros e; by apply range_only_matches).
  - by rewrite match_one_spec.
Qed.

(** The filters that are searched for. *)
Lemma possibilities_complete f e : log_matches f e = true -> exists b, b ∈ bloomPossibilities sha3 f /\ contains (log_bloom sha3 e) b = true.
Proof.
  intros [Ha Ht]%andb_true_iff. unfold bloomPossibilities. apply topics_ok_in in Ht.
  assert (exists b, b ∈ (if is_nil (addresses_ f) then [0] else map (shiftBloom sha3 0) (addresses_ f)) /\ contains (log_bloom sha3 e) b = true) as H.
  { unfold address_ok in Ha. destruct (is_nil (addresses_ f)); cbn [orb] in Ha; [exists 0; split; [by left|apply contains_zero]|]. apply bool_decide_eq_true in Ha. exists (shiftBloom sha3 0 (le_address e)).
    split; [by apply list_elem_of_fmap_2|]. unfold shiftBloom. apply contains_both; [apply contains_zero|apply log_bloom_address]. }
  revert H. generalize (if is_nil (addresses_ f) then [0] else map (shiftBloom sha3 0) (addresses_ f)). induction Ht as [|t topics Ht Hts IH]; intros ret (b & Hb & Hc); [by exists b|]. cbn [fold_left]. apply IH. unfold add_topic.
  destruct Ht as [->|(x & Hx & Hex)]; [by exists b|]. destruct (is_nil t) eqn:En; [by exists b|]. exists (shiftBloom sha3 b x). split.
  - apply list_elem_of_In, in_flat_map. exists b. split; [by apply list_elem_of_In|]. apply list_elem_of_In. by apply list_elem_of_fmap_2.
  - unfold shiftBloom. apply contains_both; [done|by apply log_bloom_topic].
Qed.
End complete.

(** ** Looking at blocks *)

Section blocks.
Context (sha3 : Z -> list Z) (f : LogFilter) (cv : ChainView).

Lemma with_hash_logs n i h x r : map (with_hash x) (logs_at f n i h 0 r) = logs_at f n i h x r.
Proof. unfold logs_at. induction (positions f (tr_logs r) 0) as [|k l IH]; [done|]. cbn [omap list_omap]. destruct (tr_logs r !! k); cbn [fmap option_fmap option_map map]; [by rewrite IH|done]. Qed.

Lemma match_receipts_spec n blk_h receipts : blk_number_matches f n = true -> Forall (fun r => Forall (readable f) (tr_logs r)) receipts -> forall i, exists l,
  match_receipts sha3 f cv n blk_h receipts i = Done l /\ omap (fun x => (fun h => with_hash h x.2) <$> cv_transaction cv n x.1) l = receipts_logs f cv n blk_h receipts i.
Proof.
  intros Hn. induction receipts as [|r receipts IH]; intros Hr i; [by exists []|]. apply Forall_cons in Hr as [H1 Hr]. destruct (IH Hr (i + 1)) as (l & E1 & E2). cbn [match_receipts receipts_logs].
  rewrite match_at_spec by done. cbn [obind]. rewrite E1. cbn [obind]. eexists. split; [done|]. rewrite omap_app, E2. f_equal. destruct (cv_transaction cv n i) as [x|] eqn:Ex.
  - rewrite <- (with_hash_logs n i blk_h x r). induction (logs_at f n i blk_h 0 r) as [|y ys IHy]; [done|]. cbn [map omap list_omap fst snd]. rewrite Ex. cbn [fmap option_fmap option_map]. f_equal. exact IHy.
  - induction (logs_at f n i blk_h 0 r) as [|y ys IHy]; [done|]. cbn [map omap list_omap fst snd]. rewrite Ex. cbn [fmap option_fmap option_map]. exact IHy.
Qed.

Lemma match_hashes_spec n blk_h hashes : blk_number_matches f n = true -> forall i rs, hashes_receipts cv n hashes i = Some rs -> Forall (fun r => Forall (readable f) (tr_logs r)) rs ->
  match_hashes sha3 f cv n blk_h hashes i = Done (hashes_logs f cv n blk_h hashes i).
Proof.
  intros Hn. induction hashes as [|h hashes IH]; intros i rs Hrs Hr; [done|]. cbn [hashes_receipts match_hashes hashes_logs] in *. destruct (cv_transactionReceipt cv n i h) as [r|]; [|done].
  destruct (hashes_receipts cv n hashes (i + 1)) as [l|] eqn:E; [|done]. injection Hrs as <-. apply Forall_cons in Hr as [H1 Hr]. rewrite match_at_spec by done. cbn [obind]. by rewrite (IH _ _ E Hr).
Qed.

(** A block that can be looked at. *)
Definition block_ok (n : Z) : Prop := is_Some (cv_blockHash cv n) /\ exists rs, block_receipts cv n = Some rs /\ Forall (fun r => Forall (readable f) (tr_logs r)) rs.

Lemma match_block_spec n : blk_number_matches f n = true -> block_ok n -> match_block sha3 f cv n = Done (block_logs f cv n).
Proof.
  intros Hn [[h Hh] (rs & Hrs & Hr)]. unfold match_block, block_logs, block_receipts in *. rewrite Hh. destruct (cv_blockReceipts cv n) as [[|r receipts]|]; [by eapply match_hashes_spec| |by eapply match_hashes_spec].
  injection Hrs as <-. destruct (match_receipts_spec n h (r :: receipts) Hn Hr 0) as (l & -> & E). cbn [obind]. by rewrite E.
Qed.

Lemma match_blocks_spec blocks : (forall n, n ∈ blocks -> blk_number_matches f n = true /\ block_ok n) -> match_blocks sha3 f cv blocks = Done (flat_map (block_logs f cv) blocks).
Proof.
  unfold match_blocks. intros Hb. rewrite <- (app_nil_l (flat_map _ _)). generalize (@nil LocalisedLogEntry). induction blocks as [|n blocks IH]; intros ret; cbn [ofold flat_map]; [by rewrite app_nil_r|].
  destruct (Hb n ltac:(by left)) as [H1 H2]. rewrite match_block_spec by done. cbn [obind]. rewrite IH by (intros m Hm; apply Hb; by right). by rewrite <- app_assoc.
Qed.
End blocks.

(** A block with a matching log is found for one of the filters. *)
Lemma logs_at_none f n i h x r : (forall e, e ∈ tr_logs r -> log_matches f e = false) -> logs_at f n i h x r = [].
Proof. intros H. unfold logs_at. by rewrite positions_none. Qed.

Lemma block_logs_none f cv n rs : block_receipts cv n = Some rs -> (forall r e, r ∈ rs -> e ∈ tr_logs r -> log_matches f e = false) -> block_logs f cv n = [].
Proof.
  unfold block_receipts, block_logs. intros Hrs H. destruct (cv_blockHash cv n) as [h|]; [|done].
  assert (forall hashes i rs, hashes_receipts cv n hashes i = Some rs -> (forall r e, r ∈ rs -> e ∈ tr_logs r -> log_matches f e = false) -> hashes_logs f cv n h hashes i = []) as Hh.
  { clear. induction hashes as [|x hashes IH]; intros i rs Hrs H; [done|]. cbn [hashes_receipts hashes_logs] in *. destruct (cv_transactionReceipt cv n i x) as [r|]; [|done].
    destruct (hashes_receipts cv n hashes (i + 1)) as [l|] eqn:E; [|done]. injection Hrs as <-. rewrite logs_at_none by (intros e He; apply (H r); [by left|done]). apply (IH _ _ E). intros r' e Hr. apply H. by right. }
  destruct (cv_blockReceipts cv n) as [[|r0 receipts]|]; [by eapply Hh| |by eapply Hh]. injection Hrs as <-. revert H. generalize (r0 :: receipts) 0. clear. intros l. induction l as [|r l IH]; intros i H; [done|].
  cbn [receipts_logs]. rewrite IH by (intros r' e Hr; apply H; by right). destruct (cv_transaction cv n i); [|done]. by rewrite logs_at_none by (intros e He; apply (H r); [by left|done]).
Qed.

(** ** The blocks that are found *)

Lemma seqZ_sorted a n : StronglySorted Z.le (seqZ a n).
Proof.
  destruct (decide (0 <= n)) as [Hn|Hn]; [|rewrite seqZ_nil by lia; constructor]. rewrite <- (Z2Nat.id n) by done. generalize (Z.to_nat n). clear Hn. intros k. revert a. induction k as [|k IH]; intros a; [constructor|].
  rewrite Nat2Z.inj_succ, seqZ_cons, Z.pred_succ by lia. constructor; [apply IH|]. apply Forall_forall. intros x Hx. apply elem_of_seqZ in Hx. lia.
Qed.

Lemma filter_sorted (P : Z -> Prop) `{forall x, Decision (P x)} l : StronglySorted Z.le l -> StronglySorted Z.le (filter P l).
Proof.
  induction 1 as [|x l Hs IH Hx]; [constructor|]. destruct (decide (P x)); [rewrite filter_cons_True by done|by rewrite filter_cons_False by done]. constructor; [done|]. rewrite Forall_forall in *. intros y Hy.
  apply list_elem_of_filter in Hy as [_ Hy]. auto.
Qed.

Lemma in_range_matches f cv n : from_block_ f <= n <= to_blk f cv -> blk_number_matches f n = true.
Proof. intros Hn. unfold blk_number_matches, to_blk in *. apply andb_true_iff. split; [apply Z.leb_le; lia|]. destruct (to_block_ f) as [t|]; [|done]. simpl in Hn. apply Z.leb_le. lia. Qed.

Section search.
Context (sha3 : Z -> list Z) (f : LogFilter) (cv : ChainView) (B : Z -> LogBloom).
Hypothesis ix : indexed (cv_index cv) B.
Hypothesis from_range : 0 <= from_block_ f.
Hypothesis to_range : 0 <= to_blk f cv < 2 ^ 59.

Lemma matchingBlocks_spec : matchingBlocks sha3 f cv =
  filter (fun n => existsb (contains (B n)) (bloomPossibilities sha3 f) = true) (seqZ (from_block_ f) (to_blk f cv - from_block_ f + 1)).
Proof using ix from_range to_range.
  unfold matchingBlocks. apply (StronglySorted_unique Z.le); [apply (StronglySorted_merge_sort Z.le)|apply filter_sorted, seqZ_sorted|]. rewrite merge_sort_Permutation.
  apply NoDup_Permutation; [apply NoDup_elements|apply NoDup_filter, NoDup_seqZ|]. intros n. rewrite elem_of_elements, elem_of_list_to_set, list_elem_of_filter, existsb_exists. rewrite list_elem_of_In, in_flat_map. split.
  - intros (b & Hb & Hin). rewrite (search_spec _ _ _ _ _ ix from_range to_range) in Hin. rewrite flat_map_hit in Hin by (intros m Hm; apply elem_of_seqZ in Hm; lia). apply list_elem_of_In, list_elem_of_filter in Hin as [Hc Hin].
    split; [by exists b|done].
  - intros [(b & Hb & Hc) Hin]. exists b. split; [done|]. rewrite (search_spec _ _ _ _ _ ix from_range to_range), flat_map_hit by (intros m Hm; apply elem_of_seqZ in Hm; lia). apply list_elem_of_In, list_elem_of_filter. done.
Qed.

(** The index covers the receipts. *)
Hypothesis covered : forall n rs r, from_block_ f <= n <= to_blk f cv -> block_receipts cv n = Some rs -> r ∈ rs -> contains (B n) (receipt_bloom sha3 r) = true.
Hypothesis blocks_ok : forall n, from_block_ f <= n <= to_blk f cv -> block_ok f cv n.

Lemma match_all_spec : match_all sha3 f cv = Done (flat_map (block_logs f cv) (seqZ (from_block_ f) (to_blk f cv - from_block_ f + 1))).
Proof using ix from_range to_range covered blocks_ok.
  assert (forall n, n ∈ seqZ (from_block_ f) (to_blk f cv - from_block_ f + 1) -> blk_number_matches f n = true /\ block_ok f cv n) as Hall.
  { intros n Hn. apply elem_of_seqZ in Hn. split; [apply (in_range_matches f cv)|apply blocks_ok]; lia. }
  unfold match_all. destruct (is_range_only_ f); [by apply match_blocks_spec|]. rewrite matchingBlocks_spec, match_blocks_spec by (intros n Hn; apply list_elem_of_filter in Hn as [_ Hn]; auto). f_equal.
  assert (forall n, n ∈ seqZ (from_block_ f) (to_blk f cv - from_block_ f + 1) -> existsb (contains (B n)) (bloomPossibilities sha3 f) = false -> block_logs f cv n = []) as Hnone.
  { intros n Hn He. apply elem_of_seqZ in Hn. destruct (blocks_ok n ltac:(lia)) as [_ (rs & Hrs & _)]. apply (block_logs_none f cv n rs Hrs). intros r e Hr Hin. apply not_true_is_false. intros Hm.
    destruct (possibilities_complete sha3 f e Hm) as (b & Hb & Hc). apply not_true_iff_false in He. apply He. apply existsb_exists. exists b. split; [by apply list_elem_of_In|].
    eapply contains_trans; [by apply (covered n rs r); [lia|..]|]. eapply contains_trans; [by apply receipt_bloom_log|done]. }
  clear Hall. induction (seqZ (from_block_ f) (to_blk f cv - from_block_ f + 1)) as [|n l IH]; [done|]. cbn [flat_map]. destruct (existsb (contains (B n)) (bloomPossibilities sha3 f)) eqn:E.
  - rewrite filter_cons_True by done. cbn [flat_map]. f_equal. apply IH. intros m Hm. apply Hnone. by right.
  - rewrite filter_cons_False by congruence. rewrite (Hnone n) by (done || by left). apply IH. intros m Hm. apply Hnone. by right.
Qed.
End search.

(** ** The index that the final chain builds *)

Lemma recorded_acc blocks b : forall B n, contains (B n) b = true -> contains (fold_left (fun B x => add_bloom B x.1 x.2) blocks B n) b = true.
Proof. induction blocks as [|[m c] blocks IH]; intros B n Hb; [done|]. cbn [fold_left]. apply IH. unfold add_bloom. cbn [fst snd]. destruct (n =? m); auto with bloom. Qed.

Lemma recorded_contains blocks n b : (n, b) ∈ blocks -> contains (recorded blocks n) b = true.
Proof.
  unfold recorded. generalize (fun _ : Z => 0). induction blocks as [|[m c] blocks IH]; intros B Hin; [by apply elem_of_nil in Hin|]. cbn [fold_left]. apply elem_of_cons in Hin as [[= -> ->]|Hin]; [|by apply IH].
  apply recorded_acc. unfold add_bloom. cbn [fst snd]. rewrite Z.eqb_refl. auto with bloom.
Qed.

Lemma index_bloom_receipt sha3 receipts author r : r ∈ receipts -> contains (log_bloom_for_index sha3 receipts author) (receipt_bloom sha3 r) = true.
Proof. intros Hr. unfold log_bloom_for_index, shiftBloom, header_bloom. apply contains_lor_l. eapply fold_contains; [done|apply contains_refl]. Qed.

(** The chain of which block [n] has the receipts [receipts n] and the author [author n]. *)
Record chain_of (sha3 : Z -> list Z) (receipts : Z -> list TransactionReceipt) (author : Z -> Z) (cv : ChainView) : Prop := {
  co_last : 0 <= cv_lastBlockNumber cv < 2 ^ 59;
  co_hash n : 0 <= n <= cv_lastBlockNumber cv -> is_Some (cv_blockHash cv n);
  co_receipts n : 0 <= n <= cv_lastBlockNumber cv -> block_receipts cv n = Some (receipts n);
  co_index : cv_index cv = index_chain (map (fun n => (n, log_bloom_for_index sha3 (receipts n) (author n))) (seqZ 0 (cv_lastBlockNumber cv + 1)));
}.

(** C39: On a chain whose blocks were indexed as they were appended, the filter returns exactly
    the logs of the blocks of its range that match its addresses and topics, in the
    order of the chain: the search by filters loses none, whatever the hash function.  The
    logs of the range have no number of topics at which the filter asks for a topic. *)
Theorem log_filter_exact sha3 receipts author f cv : chain_of sha3 receipts author cv -> 0 <= from_block_ f -> 0 <= default 0 (to_block_ f) ->
  (forall n r e, 0 <= n <= cv_lastBlockNumber cv -> r ∈ receipts n -> e ∈ tr_logs r -> readable f e) ->
  match_all sha3 f cv = Done (flat_map (block_logs f cv) (seqZ (from_block_ f) (to_blk f cv - from_block_ f + 1))).
Proof.
  intros [Hlast Hh Hr Hix] Hf Ht Hread. assert (0 <= to_blk f cv <= cv_lastBlockNumber cv) as Hto by (unfold to_blk; destruct (to_block_ f); simpl in *; lia). eapply match_all_spec.
  - rewrite Hix. apply index_chain_indexed. apply Forall_forall. intros x (n & -> & Hn)%list_elem_of_fmap. apply elem_of_seqZ in Hn. simpl. lia.
  - done.
  - lia.
  - intros n rs r Hn Hrs Hin. rewrite Hr in Hrs by lia. injection Hrs as <-. apply (contains_trans _ (log_bloom_for_index sha3 (receipts n) (author n))); [|by apply index_bloom_receipt].
    apply recorded_contains, list_elem_of_fmap. exists n. split; [done|]. apply elem_of_seqZ. lia.
  - intros n Hn. split; [apply Hh; lia|]. exists (receipts n). split; [apply Hr; lia|]. apply Forall_forall. intros r Hin. apply Forall_forall. intros e He. apply (Hread n r e); [lia|done|done].
Qed.

Definition sample_hash (x : Z) : list Z := [0; x; 0; x + 1; 0; x + 2].
Definition sample_receipt : TransactionReceipt := mkTransactionReceipt 1 21000 21000 [mkLogEntry 7 [40; 41] []; mkLogEntry 9 [50; 41; 3] []] None.
Definition sample_receipts (n : Z) : list TransactionReceipt := if n =? 20 then [sample_receipt] else [].
Definition sample_view : ChainView :=
  mkChainView 30 (fun n => Some n) (fun n => Some (sample_receipts n)) (fun _ _ => Some 77) (fun _ => []) (fun _ _ _ => None)
    (index_chain (map (fun n => (n, log_bloom_for_index sample_hash (sample_receipts n) 5)) (seqZ 0 31))).
Definition sample_filter : LogFilter := mkLogFilter 3 None [7; 8] [[40]; [41; 42]; []; []].

Lemma log_filter_exact_witness :
  match_all sample_hash sample_filter sample_view = Done (flat_map (block_logs sample_filter sample_view) (seqZ 3 (30 - 3 + 1))).
Proof.
  apply (log_filter_exact sample_hash sample_receipts (fun _ => 5) sample_filter sample_view); [split; [simpl; lia|intros n _; by exists n| |reflexivity]|simpl; lia|simpl; lia|].
  - intros n _. unfold block_receipts, sample_view, sample_receipts. cbn. by destruct (n =? 20).
  - intros n r e _ Hr He. unfold sample_receipts in Hr. destruct (n =? 20); [|by apply elem_of_nil in Hr]. apply list_elem_of_singleton in Hr as ->. intros i t Hi Hne.
    assert (i < 2)%nat as Hlt by (destruct i as [|[|[|[|i]]]]; simpl in Hi; [lia|lia|naive_solver|naive_solver|done]). cbn in He. rewrite !elem_of_cons, elem_of_nil in He. destruct He as [->|[->|[]]]; simpl; lia.
Defined.

Example log_filter_sample : exists l, match_all sample_hash sample_filter sample_view = Done [mkLocalisedLogEntry l 20 0 20 77 0] /\ le_topics l = [40; 41].
Proof. eexists. split; [vm_compute; reflexivity|reflexivity]. Qed.

(** ** Reading behind the topics *)

(** The filter reads behind the topics of a log which has exactly as many topics as the
    position of the next topic the filter asks for, if it matches up to there: the size
    is compared with the position by "less than". *)
Theorem short_log_out_of_bounds sha3 f r e logs i t : tr_logs r = e :: logs -> matches sha3 f (receipt_bloom sha3 r) = true -> address_ok f e = true ->
  topics_ f !! i = Some t -> t <> [] -> length (le_topics e) = i -> topics_ok (take i (topics_ f)) 0 e = true -> match_one sha3 f r = Undefined.
Proof.
  intros Hl Hm Ha Hi Hne Hlen Hpre. unfold match_one. rewrite Hm, Hl. cbn [negb match_logs]. unfold address_ok in Ha.
  assert (negb (is_nil (addresses_ f)) && negb (bool_decide (le_address e ∈ addresses_ f)) = false) as -> by (destruct (is_nil (addresses_ f)), (bool_decide (le_address e ∈ addresses_ f)); done).
  assert (forall topics k, topics !! i = Some t -> topics_ok (take i topics) k e = true -> length (le_topics e) = (k + i)%nat -> topics_match topics k e = Undefined) as H; [|by rewrite (H _ 0%nat)].
  clear -Hne. induction i as [|i IH]; intros topics k Hi Hpre Hlen; destruct topics as [|t' topics]; try done; cbn [topics_match].
  - injection Hi as ->. destruct (is_nil t) eqn:En; [by apply is_nil_spec in En|]. rewrite bool_decide_false, lookup_ge_None_2 by lia. done.
  - cbn [take topics_ok] in Hpre. apply andb_true_iff in Hpre as [Ht Hpre]. specialize (IH topics (S k) Hi Hpre ltac:(lia)). destruct (is_nil t'); [done|]. cbn [orb] in Ht. rewrite bool_decide_false by lia.
    destruct (le_topics e !! k); [|done]. by rewrite Ht.
Qed.

Definition anonymous_receipt : TransactionReceipt := mkTransactionReceipt 1 21000 21000 [mkLogEntry 7 [] []; mkLogEntry 7 [40] []] None.

Lemma short_log_out_of_bounds_witness : match_one sample_hash (mkLogFilter 0 None [] [[40]; []; []; []]) anonymous_receipt = Undefined.
Proof.
  apply (short_log_out_of_bounds sample_hash (mkLogFilter 0 None [] [[40]; []; []; []]) anonymous_receipt (mkLogEntry 7 [] []) [mkLogEntry 7 [40] []] 0 [40]);
    [reflexivity|vm_compute; reflexivity|reflexivity|reflexivity|discriminate|reflexivity|reflexivity].
Defined.
