(* ===== verification/VdfSortition.v ===== *)
(** * VRF thresholds and VDF difficulty of DAG blocks

    [VrfSortitionBase] (common/vrf_wrapper.hpp, .cpp), [VdfSortition]
    (vdf/src/sortition.cpp) and the messages of a DAG block that they sign and delay
    ([DagManager::getVdfMessage], [DagBlock::verifyVdf]).  The VRF itself (libsodium) and
    the Wesolowski prover are parameters.  An exception that nothing catches
    is [AssertFailed]. *)

From S2P Require Import Prelude Rlp RlpStream RlpRead RlpItems RlpCodec DagBlockRlp.
Local Open Scope Z_scope.

Abbreviation u16 := (wrap 16).

(** ** Data *)

Record VdfParams := mkVdfParams { difficulty_min : Z; difficulty_max : Z; difficulty_stale : Z; lambda_bound : Z }.
Record SortitionParams := mkSortitionParams { threshold_upper : Z; sp_vdf : VdfParams }.

(** The libraries that compute and check the VRF and the VDF. *)
Record SortitionCrypto := mkSortitionCrypto {
  crypto_vrf_sk_to_pk : Z -> Z;
  crypto_vrf_is_valid_key : Z -> bool;
  crypto_vrf_prove : Z -> bytes -> option bytes;
  crypto_vrf_verify : Z -> bytes -> bytes -> option bytes;
  crypto_vrf_proof_to_hash : bytes -> bytes;
  prover_wesolowski : Z -> Z -> bytes -> bytes * bytes;
  verifier_wesolowski : Z -> Z -> bytes -> bytes * bytes -> bool;
}.

Record VrfSortitionBase := mkVrfSortitionBase { proof_ : bytes; output_ : bytes; threshold_ : Z }.
Record VdfSortition := mkVdfSortition { vrf_base : VrfSortitionBase; vdf_sol_ : bytes * bytes; difficulty_ : Z }.

Inductive InvalidVdfSortition := VrfVerifyFailed | IncorrectDifficulty | VdfVerifyFailed.

Definition kVotesProportion : Z := 1000.
Definition kThresholdCorrection : Z := 10.

(** ** Messages *)

Definition makeVrfInput (level : Z) (period_hash : bytes) : res bytes :=
  (let* s := append_int_ newRLPStream level in
   let* s := append s period_hash false in
   stream_out s)%rlp.

Definition getVdfMessage (hash : bytes) (trxs : list bytes) : res bytes :=
  (let* s := append newRLPStream hash false in
   let* s := rfold (fun s h => append s h false) trxs s in
   stream_out s)%rlp.

(** ** Thresholds *)

Local Open Scope outcome_scope.

(** Both operands of the product are promoted to [int]. *)
Definition int_mul (a b : Z) : outcome Z := if a * b <? 2 ^ 31 then Done (a * b) else Undefined.

Definition kMultiplier : Z := 48271.

(** [n] more candidates. *)
Fixpoint threshold_loop (n : nat) (min_threshold threshold_candidate : Z) : outcome Z :=
  match n with
  | O => Done min_threshold
  | S n =>
      let* product := int_mul threshold_candidate kMultiplier in
      let threshold_candidate := u16 product in
      threshold_loop n (if threshold_candidate <? min_threshold then threshold_candidate else min_threshold) threshold_candidate
  end.

Definition output_seed (output : bytes) : Z := Z.lor (Z.shiftl (nth 1 output 0) 8) (nth 0 output 0).

Definition thresholdFromOutput (output : bytes) (vote_count : Z) : outcome Z :=
  let threshold := output_seed output in
  if 1 <? vote_count then threshold_loop (Z.to_nat (vote_count - 1)) threshold threshold else Done threshold.

Section sortition.
Context (crypto : SortitionCrypto).

Definition getVrfOutput (pk : Z) (proof msg : bytes) (strict : bool) : option bytes :=
  if strict then crypto_vrf_verify crypto pk proof msg else Some (crypto_vrf_proof_to_hash crypto proof).

(** The constructor that makes a proof. *)
Definition newVrfSortitionBase (sk : Z) (msg : bytes) (vote_count : Z) : outcome VrfSortitionBase :=
  let pk := crypto_vrf_sk_to_pk crypto sk in
  let* _ := oassert (crypto_vrf_is_valid_key crypto pk) in
  match crypto_vrf_prove crypto sk msg with
  | None => AssertFailed
  | Some proof =>
      match getVrfOutput pk proof msg true with
      | None => AssertFailed
      | Some output => let* t := thresholdFromOutput output vote_count in Done (mkVrfSortitionBase proof output t)
      end
  end.

(** [verify] stores the output and the threshold in the object. *)
Definition vrf_verify (v : VrfSortitionBase) (pk : Z) (msg : bytes) (vote_count : Z) (strict : bool) : outcome (VrfSortitionBase * bool) :=
  match getVrfOutput pk (proof_ v) msg strict with
  | Some output => let* t := thresholdFromOutput output vote_count in Done (mkVrfSortitionBase (proof_ v) output t, true)
  | None => Done (v, false)
  end.

(** ** Difficulty *)

Definition number_of_difficulties (config : SortitionParams) : Z := difficulty_max (sp_vdf config) - difficulty_min (sp_vdf config) + 1.

Definition calculateDifficulty (config : SortitionParams) (threshold : Z) : outcome Z :=
  let corrected_threshold := u32 (threshold * kThresholdCorrection) in
  if threshold_upper config <=? corrected_threshold then Done (difficulty_stale (sp_vdf config))
  else if number_of_difficulties config =? 0 then Undefined
  else
    let step := u32 (Z.quot (threshold_upper config) (number_of_difficulties config)) in
    if step =? 0 then Undefined
    else Done (u16 (difficulty_min (sp_vdf config) + corrected_threshold / step)).

(** The normalised votes are passed as [uint16_t]. *)
Definition normalised_votes (vote_count total_vote_count : Z) : outcome Z :=
  if total_vote_count =? 0 then Undefined else Done (u16 (u64 (vote_count * kVotesProportion) / total_vote_count)).

Definition newVdfSortition (config : SortitionParams) (sk : Z) (vrf_input : bytes) (vote_count total_vote_count : Z) : outcome VdfSortition :=
  let* votes := normalised_votes vote_count total_vote_count in
  let* base := newVrfSortitionBase sk vrf_input votes in
  let* difficulty := calculateDifficulty config (threshold_ base) in
  Done (mkVdfSortition base ([], []) difficulty).

Definition isStale (v : VdfSortition) (config : SortitionParams) : bool := difficulty_ v =? difficulty_stale (sp_vdf config).

Definition computeVdfSolution (v : VdfSortition) (config : SortitionParams) (msg : bytes) : VdfSortition :=
  mkVdfSortition (vrf_base v) (prover_wesolowski crypto (lambda_bound (sp_vdf config)) (difficulty_ v) msg) (difficulty_ v).

(** [None]: the sortition is valid. *)
Definition verifyVdf (v : VdfSortition) (config : SortitionParams) (vrf_input : bytes) (pk : Z) (vdf_input : bytes)
    (vote_count total_vote_count : Z) : outcome (option InvalidVdfSortition) :=
  let* votes := normalised_votes vote_count total_vote_count in
  let* (base, ok) := vrf_verify (vrf_base v) pk vrf_input votes true in
  if negb ok then Done (Some VrfVerifyFailed)
  else
    let* expected := calculateDifficulty config (threshold_ base) in
    if negb (difficulty_ v =? expected) then Done (Some IncorrectDifficulty)
    else if negb (verifier_wesolowski crypto (lambda_bound (sp_vdf config)) (difficulty_ v) vdf_input (vdf_sol_ v)) then Done (Some VdfVerifyFailed)
    else Done None.
End sortition.

(** What [DagBlock::verifyVdf] passes to the sortition: the messages are made from the block. *)
Definition dag_block_verifyVdf (crypto : SortitionCrypto) (blk : SerialDagBlock) (v : VdfSortition) (config : SortitionParams)
    (proposal_period_hash : bytes) (pk vote_count total_vote_count : Z) : res (outcome (option InvalidVdfSortition)) :=
  (let* s := append newRLPStream (sd_pivot blk) false in
   let* s := rfold (fun s trx => append s trx false) (sd_trxs blk) s in
   let* vdf_msg := stream_out s in
   let* vrf_input := makeVrfInput (sd_level blk) proposal_period_hash in
   Ok (verifyVdf crypto v config vrf_input pk vdf_msg vote_count total_vote_count))%rlp.

(** ** The messages *)

Lemma append_top out d : bsize d < 2 ^ 64 -> append (mkRLPStream out []) d false = Ok (mkRLPStream (out ++ encode_data d) []).
Proof. intros Hd. by rewrite append_encode. Qed.

Lemma append_all_top l out : Forall hash32_ok l ->
  rfold (fun s h => append s h false) l (mkRLPStream out []) = Ok (mkRLPStream (out ++ flat_map encode_data l) []).
Proof.
  intros Hl. revert out. induction Hl as [|h l [Hh _] _ IH]; intros out; cbn [rfold flat_map]; [by rewrite app_nil_r|].
  rewrite append_top by (unfold bsize; rewrite Hh; lia). cbn [rbind]. by rewrite IH, app_assoc.
Qed.

Lemma getVdfMessage_ok hash trxs : hash32_ok hash -> Forall hash32_ok trxs ->
  getVdfMessage hash trxs = Ok (encode_data hash ++ flat_map encode_data trxs).
Proof.
  intros [Hh _] Ht. unfold getVdfMessage, newRLPStream. rewrite append_top by (unfold bsize; rewrite Hh; lia). cbn [rbind].
  by rewrite append_all_top.
Qed.

Lemma makeVrfInput_ok level period_hash : 0 <= level < 2 ^ 64 -> hash32_ok period_hash ->
  makeVrfInput level period_hash = Ok (encode (int_item level) ++ encode_data period_hash).
Proof.
  intros Hl [Hh _]. unfold makeVrfInput, newRLPStream. rewrite append_int_encode; [|lia|].
  2: { apply Z.le_lt_trans with 8; [|lia]. apply pushInt_size; [change (256 ^ 8) with (2 ^ 64); lia|lia]. }
  cbn [m_listStack m_out note_loop rbind app]. rewrite append_top by (unfold bsize; rewrite Hh; lia). done.
Qed.

(** A hash takes 33 bytes. *)
Lemma encode_hash h : length h = 32%nat -> encode_data h = 160 :: h.
Proof.
  intros Hh. unfold encode_data, header. assert (bsize h = 32) as -> by (unfold bsize; lia).
  destruct h as [|b [|c h]]; done.
Qed.

Lemma hash_list_inj l1 : forall l2, Forall hash32_ok l1 -> Forall hash32_ok l2 ->
  flat_map encode_data l1 = flat_map encode_data l2 -> l1 = l2.
Proof.
  induction l1 as [|h1 l1 IH]; intros [|h2 l2] H1 H2; [done|apply Forall_cons in H2 as [[H2 _] _]|apply Forall_cons in H1 as [[H1 _] _]|].
  - cbn [flat_map]. by rewrite encode_hash.
  - cbn [flat_map]. by rewrite encode_hash.
  - apply Forall_cons in H1 as [[Hh1 _] H1]. apply Forall_cons in H2 as [[Hh2 _] H2]. cbn [flat_map]. rewrite !encode_hash by done.
    intros [= E]. apply app_inj_1 in E as [-> E]; [|by rewrite Hh1, Hh2]. f_equal. by apply IH.
Qed.

Lemma last_hash_inj a b h1 h2 : length h1 = 32%nat -> length h2 = 32%nat -> a ++ encode_data h1 = b ++ encode_data h2 -> a = b /\ h1 = h2.
Proof. intros H1 H2. rewrite !encode_hash by done. intros E. apply app_inj_2 in E as [-> [= ->]]; [done|]. simpl. by rewrite H1, H2. Qed.

Lemma encode_int_inj i j : 0 <= i < 2 ^ 64 -> 0 <= j < 2 ^ 64 -> encode (int_item i) = encode (int_item j) -> i = j.
Proof.
  intros Hi Hj E. apply encode_inj in E; [|by apply (small_int 64)..]. injection E as E.
  destruct (pushInt_spec i) as (Vi & _); [lia|]. destruct (pushInt_spec j) as (Vj & _); [lia|]. congruence.
Qed.

(** The VRF input determines the level and the hash of the proposal period, and the
    VDF message determines the pivot and the transactions in their order: a proof that is
    made for one block is not one of another level, period, pivot or list of transactions. *)
Theorem sortition_messages_injective level level' period_hash period_hash' pivot pivot' trxs trxs' :
  0 <= level < 2 ^ 64 -> 0 <= level' < 2 ^ 64 -> hash32_ok period_hash -> hash32_ok period_hash' ->
  hash32_ok pivot -> hash32_ok pivot' -> Forall hash32_ok trxs -> Forall hash32_ok trxs' ->
  (exists m, makeVrfInput level period_hash = Ok m) /\ (exists m, getVdfMessage pivot trxs = Ok m) /\
  (makeVrfInput level period_hash = makeVrfInput level' period_hash' -> level = level' /\ period_hash = period_hash') /\
  (getVdfMessage pivot trxs = getVdfMessage pivot' trxs' -> pivot = pivot' /\ trxs = trxs').
Proof.
  intros Hl Hl' Hp Hp' Hv Hv' Ht Ht'. rewrite !makeVrfInput_ok, !getVdfMessage_ok by done. split_and!; [by eexists..| |].
  - intros [= E]. apply last_hash_inj in E as [E ->]; [|apply Hp|apply Hp']. split; [|done]. by apply encode_int_inj in E.
  - intros [= E]. assert (pivot :: trxs = pivot' :: trxs') as [= -> ->]; [|done]. by apply hash_list_inj; [by constructor..|].
Qed.

Lemma sortition_messages_injective_witness :
  getVdfMessage (replicate 32 1) [replicate 32 2; replicate 32 3] <> getVdfMessage (replicate 32 1) [replicate 32 3; replicate 32 2].
Proof.
  assert (forall b, 0 <= b < 256 -> hash32_ok (replicate 32 b)) as H.
  { intros b Hb. split; [done|]. by apply Forall_replicate. }
  intros E. eapply (sortition_messages_injective 1 1 (replicate 32 1) (replicate 32 1) (replicate 32 1) (replicate 32 1)
    [replicate 32 2; replicate 32 3] [replicate 32 3; replicate 32 2]) in E as [_ E]; [discriminate|lia|lia|by apply H..| |]; (constructor; [by apply H|constructor; [by apply H|constructor]]).
Defined.

(** ** Thresholds *)

(** The [k]-th candidate of a seed. *)
Definition candidate (seed : Z) (k : nat) : Z := u16 (seed * kMultiplier ^ Z.of_nat k).

Lemma candidate_0 seed : 0 <= seed < 2 ^ 16 -> candidate seed 0 = seed.
Proof. intros Hs. unfold candidate. rewrite Z.pow_0_r, Z.mul_1_r. by apply wrap_id. Qed.

Lemma candidate_S seed k : candidate seed (S k) = candidate (u16 (seed * kMultiplier)) k.
Proof.
  unfold candidate, wrap, modulus. rewrite Zmult_mod_idemp_l. f_equal. rewrite Nat2Z.inj_succ, Z.pow_succ_r by lia. lia.
Qed.

Lemma candidate_range seed k : 0 <= candidate seed k < 2 ^ 16.
Proof. apply wrap_range. lia. Qed.

(** The loop returns the least candidate, and is undefined exactly when a product leaves [int]. *)
Lemma threshold_loop_spec n : forall m c, 0 <= c < 2 ^ 16 ->
  match threshold_loop n m c with
  | Done t => (t = m \/ exists k, (1 <= k <= n)%nat /\ t = candidate c k) /\ t <= m /\ forall k, (1 <= k <= n)%nat -> t <= candidate c k
  | AssertFailed => False
  | Undefined => exists k, (k < n)%nat /\ 2 ^ 31 <= candidate c k * kMultiplier
  end.
Proof.
  induction n as [|n IH]; intros m c Hc; cbn [threshold_loop].
  { split; [by left|]. split; [lia|]. intros; lia. }
  unfold int_mul. destruct (Z.ltb_spec (c * kMultiplier) (2 ^ 31)) as [Hm|Hm]; cbn [obind].
  2: { exists 0%nat. split; [lia|]. by rewrite candidate_0. }
  assert (0 <= u16 (c * kMultiplier) < 2 ^ 16) as Hc' by (apply wrap_range; lia).
  set (c' := u16 (c * kMultiplier)) in *. assert (candidate c 1 = c') as H1 by (rewrite candidate_S; by apply candidate_0).
  specialize (IH (if c' <? m then c' else m) c' Hc'). destruct (threshold_loop n _ c') as [t| |]; [|done|].
  - destruct IH as (Hex & Hle & Hall). assert (t <= c' /\ t <= m) as [Hc1 Hm1] by (destruct (Z.ltb_spec c' m); lia). split_and!; [|done|].
    + destruct Hex as [->|(k & Hk & ->)].
      * destruct (Z.ltb_spec c' m); [right; exists 1%nat; split; [lia|done]|by left].
      * right. exists (S k). split; [lia|]. by rewrite candidate_S.
    + intros [|[|k]] Hk; [lia|lia|]. rewrite candidate_S. apply Hall. lia.
  - destruct IH as (k & Hk & Hp). exists (S k). split; [lia|]. by rewrite candidate_S.
Qed.

Lemma output_seed_range output : Forall byte_ok output -> 0 <= output_seed output < 2 ^ 16.
Proof.
  intros Ho. unfold output_seed. assert (forall i, 0 <= nth i output 0 < 256) as Hb.
  { intros i. destruct (nth_in_or_default i output 0) as [Hi| ->]; [|lia]. by apply (proj1 (List.Forall_forall _ _) Ho). }
  pose proof (Hb 0%nat). pose proof (Hb 1%nat). rewrite Z.shiftl_mul_pow2 by lia. split; [apply Z.lor_nonneg; lia|].
  destruct (Z.eq_dec (Z.lor (nth 1 output 0 * 2 ^ 8) (nth 0 output 0)) 0) as [->|Hn]; [lia|].
  apply Z.log2_lt_pow2; [assert (0 <= Z.lor (nth 1 output 0 * 2 ^ 8) (nth 0 output 0)) by (apply Z.lor_nonneg; lia); lia|].
  rewrite Z.log2_lor by lia. apply Z.max_lub_lt.
  - destruct (Z.eq_dec (nth 1 output 0) 0) as [->|]; [done|]. apply Z.log2_lt_pow2; lia.
  - destruct (Z.eq_dec (nth 0 output 0) 0) as [->|]; [done|]. apply Z.log2_lt_pow2; lia.
Qed.

(** With [n] normalised votes the threshold of a VRF output is the least of the [n]
    candidates [seed * 48271^k mod 2^16], when it is defined; it is undefined exactly when a
    product of a candidate other than the last and the multiplier is not an [int]. *)
Theorem threshold_is_minimum output n : Forall byte_ok output -> 1 <= n < 2 ^ 16 ->
  let seed := output_seed output in
  match thresholdFromOutput output n with
  | Done t => (exists k, Z.of_nat k < n /\ t = candidate seed k) /\ forall k, Z.of_nat k < n -> t <= candidate seed k
  | AssertFailed => False
  | Undefined => exists k, Z.of_nat k < n - 1 /\ 2 ^ 31 <= candidate seed k * kMultiplier
  end.
Proof.
  intros Ho Hn seed. pose proof (output_seed_range output Ho) as Hs. unfold thresholdFromOutput. fold seed in Hs |- *.
  destruct (Z.ltb_spec 1 n) as [H1|H1]; last first.
  { split; [exists 0%nat; split; [lia|by rewrite candidate_0]|]. intros [|k] Hk; [rewrite candidate_0 by done|]; lia. }
  pose proof (threshold_loop_spec (Z.to_nat (n - 1)) seed seed Hs) as H. destruct (threshold_loop _ _ _) as [t| |]; [|done|].
  - destruct H as (Hex & Hle & Hall). split.
    + destruct Hex as [->|(k & Hk & ->)]; [exists 0%nat; split; [lia|by rewrite candidate_0]|exists k; split; [lia|done]].
    + intros [|k] Hk; [by rewrite candidate_0|]. apply Hall. lia.
  - destruct H as (k & Hk & Hp). exists k. split; [lia|done].
Qed.

Lemma threshold_is_minimum_witness : thresholdFromOutput [16; 39; 5] 3 = Done 10000 /\ forall k, Z.of_nat k < 3 -> 10000 <= candidate 10000 k.
Proof.
  split; [vm_compute; reflexivity|].
  assert (Forall byte_ok [16; 39; 5]) as Ho by (repeat constructor; unfold byte_ok; lia).
  exact (proj2 (threshold_is_minimum [16; 39; 5] 3 Ho ltac:(lia))).
Defined.

(** The product of a candidate above 44488 and the multiplier does not fit an [int]: two votes make
    the threshold of such an output undefined. *)
Theorem threshold_overflows : thresholdFromOutput [201; 173] 1 = Done 44489 /\ thresholdFromOutput [201; 173] 2 = Undefined.
Proof. split; vm_compute; reflexivity. Qed.

(** ** Difficulty *)

Record params_ok (config : SortitionParams) : Prop := {
  po_upper : 0 < threshold_upper config < 2 ^ 16;
  po_min : 0 <= difficulty_min (sp_vdf config);
  po_max : difficulty_min (sp_vdf config) <= difficulty_max (sp_vdf config) < 2 ^ 8;
  po_steps : number_of_difficulties config <= threshold_upper config;
}.

Lemma corrected_small t : 0 <= t < 2 ^ 16 -> u32 (t * kThresholdCorrection) = t * 10.
Proof. intros Ht. unfold kThresholdCorrection. apply wrap_id. unfold in_range, modulus. lia. Qed.

Lemma difficulty_of_step config t : params_ok config -> 0 <= t < 2 ^ 16 -> t * 10 < threshold_upper config ->
  let step := threshold_upper config / number_of_difficulties config in
  0 < step /\ calculateDifficulty config t = Done (u16 (difficulty_min (sp_vdf config) + t * 10 / step)).
Proof.
  intros [Hu Hmin Hmax Hs] Ht Hlt step. set (nd := number_of_difficulties config) in *. assert (0 < nd) as Hnd by (subst nd; unfold number_of_difficulties; lia).
  assert (0 < step) as Hstep by (apply Z.div_str_pos; lia). split; [done|]. unfold calculateDifficulty. rewrite corrected_small by done. fold nd.
  destruct (Z.leb_spec (threshold_upper config) (t * 10)); [lia|]. destruct (Z.eqb_spec nd 0); [lia|].
  assert (u32 (Z.quot (threshold_upper config) nd) = step) as ->.
  { rewrite Z.quot_div_nonneg by lia. apply wrap_id. unfold in_range, modulus, step. split; [lia|]. apply Z.le_lt_trans with (threshold_upper config); [|lia].
    apply Z.div_le_upper_bound; nia. }
  destruct (Z.eqb_spec step 0); [lia|done].
Qed.

(** The difficulty of a threshold is defined; it is the difficulty of a stale block exactly from the upper
    bound on, and below it, it grows with the threshold from the smallest difficulty to at
    most one more than the largest, and not more than the largest when the number of
    difficulties divides the upper bound. *)
Theorem difficulty_bounds config t : params_ok config -> 0 <= t < 2 ^ 16 ->
  let nd := number_of_difficulties config in
  nd * nd <= threshold_upper config ->
  exists d, calculateDifficulty config t = Done d /\
    (threshold_upper config <= t * 10 -> d = difficulty_stale (sp_vdf config)) /\
    (t * 10 < threshold_upper config ->
      difficulty_min (sp_vdf config) <= d <= difficulty_max (sp_vdf config) + 1 /\
      (threshold_upper config mod nd = 0 -> d <= difficulty_max (sp_vdf config)) /\
      forall t' d', 0 <= t' <= t -> calculateDifficulty config t' = Done d' -> d' <= d).
Proof.
  intros Hok Ht nd Hsq. destruct (Z.le_gt_cases (threshold_upper config) (t * 10)) as [Hst|Hlt].
  { exists (difficulty_stale (sp_vdf config)). split; [|split; [done|lia]]. unfold calculateDifficulty. rewrite corrected_small by done.
    by destruct (Z.leb_spec (threshold_upper config) (t * 10)); [|lia]. }
  destruct (difficulty_of_step config t Hok Ht Hlt) as [Hstep E]. pose proof Hok as [Hu Hmin Hmax Hs]. fold nd in Hstep, E, Hs. set (step := threshold_upper config / nd) in *.
  assert (nd = difficulty_max (sp_vdf config) - difficulty_min (sp_vdf config) + 1) as Hnd by done.
  assert (nd <= step) as Hle by (apply Z.div_le_lower_bound; nia).
  assert (threshold_upper config = nd * step + threshold_upper config mod nd) as Hdm by (apply Z.div_mod; lia).
  assert (0 <= threshold_upper config mod nd < nd) as Hmod by (apply Z.mod_pos_bound; lia).
  assert (0 <= t * 10 / step <= nd) as Hq by (split; [apply Z.div_pos; lia|apply Z.lt_succ_r, Z.div_lt_upper_bound; nia]).
  assert (forall q, 0 <= q <= nd -> u16 (difficulty_min (sp_vdf config) + q) = difficulty_min (sp_vdf config) + q) as Hw.
  { intros q Hqq. apply wrap_id. unfold in_range, modulus. lia. }
  rewrite Hw in E by done. eexists. split; [exact E|]. split; [lia|]. intros _. split_and!; [lia|lia| |].
  - intros H0. assert (t * 10 / step < nd) by (apply Z.div_lt_upper_bound; nia). lia.
  - intros t' d' Ht' E'. destruct (difficulty_of_step config t' Hok ltac:(lia) ltac:(lia)) as [_ E2]. fold nd step in E2.
    assert (0 <= t' * 10 / step <= t * 10 / step) as Hm by (split; [apply Z.div_pos; lia|apply Z.div_le_mono; lia]).
    rewrite Hw in E2 by lia. rewrite E' in E2. injection E2 as ->. lia.
Qed.

Definition ex_params (upper : Z) : SortitionParams := mkSortitionParams upper (mkVdfParams 16 21 23 100).

Lemma difficulty_bounds_witness : exists d, calculateDifficulty (ex_params 48000) 4799 = Done d /\ d <= 21.
Proof.
  destruct (difficulty_bounds (ex_params 48000) 4799) as (d & E & _ & H); [by constructor; vm_compute|lia|by vm_compute|].
  exists d. split; [exact E|]. apply H; vm_compute; done.
Defined.

(** The largest difficulty of the configuration is exceeded for other upper bounds. *)
Theorem difficulty_above_maximum : calculateDifficulty (ex_params 45061) 4506 = Done 22 /\ difficulty_max (sp_vdf (ex_params 45061)) = 21.
Proof. split; vm_compute; reflexivity. Qed.

(** ** Proposed sortitions verify *)

(** The VRF verifies its own proofs, and the verifier of the VDF accepts what the prover
    computes. *)
Record crypto_ok (crypto : SortitionCrypto) : Prop := {
  co_key : forall sk, crypto_vrf_is_valid_key crypto (crypto_vrf_sk_to_pk crypto sk) = true;
  co_vrf : forall sk msg, exists proof output, crypto_vrf_prove crypto sk msg = Some proof /\
    crypto_vrf_verify crypto (crypto_vrf_sk_to_pk crypto sk) proof msg = Some output;
  co_vdf : forall lambda difficulty msg, verifier_wesolowski crypto lambda difficulty msg (prover_wesolowski crypto lambda difficulty msg) = true;
}.

(** C19: The sortition of a proposer, with the computed solution, passes the verification of the DAG block that carries it:
    the verifier, who knows the votes of the proposer, its VRF key and the parameters of the period, computes the same
    threshold and difficulty from the proof. *)
Theorem proposed_sortition_verifies crypto config sk blk period_hash vrf_input vdf_msg votes total v :
  crypto_ok crypto -> makeVrfInput (sd_level blk) period_hash = Ok vrf_input -> getVdfMessage (sd_pivot blk) (sd_trxs blk) = Ok vdf_msg ->
  newVdfSortition crypto config sk vrf_input votes total = Done v ->
  dag_block_verifyVdf crypto blk (computeVdfSolution crypto v config vdf_msg) config period_hash (crypto_vrf_sk_to_pk crypto sk) votes total = Ok (Done None).
Proof.
  intros [Hk Hvrf Hvdf] Hi Hm. unfold getVdfMessage in Hm. unfold dag_block_verifyVdf.
  destruct (append newRLPStream (sd_pivot blk) false) as [s0| |]; [|done|done]. cbn [rbind] in Hm |- *.
  destruct (rfold _ (sd_trxs blk) s0) as [s1| |]; [|done|done]. cbn [rbind] in Hm |- *. rewrite Hm. cbn [rbind]. rewrite Hi. cbn [rbind].
  unfold newVdfSortition, verifyVdf. destruct (normalised_votes votes total) as [n| |]; [|done|done]. cbn [obind].
  unfold newVrfSortitionBase. rewrite Hk. cbn [oassert obind]. destruct (Hvrf sk vrf_input) as (proof & output & -> & Hv).
  unfold getVrfOutput. rewrite Hv. destruct (thresholdFromOutput output n) as [t| |] eqn:Et; [|done|done]. cbn [obind threshold_].
  destruct (calculateDifficulty config t) as [d| |] eqn:Ed; [|done|done]. cbn [obind]. intros [= <-].
  unfold computeVdfSolution, vrf_verify, getVrfOutput. cbn [vrf_base proof_ difficulty_ vdf_sol_]. rewrite Hv, Et. cbn [obind threshold_ negb].
  rewrite Ed. cbn [obind]. rewrite Z.eqb_refl, Hvdf. done.
Qed.

Definition ex_crypto : SortitionCrypto :=
  mkSortitionCrypto (fun sk => sk + 1) (fun _ => true) (fun sk msg => Some (sk + 1 :: msg))
    (fun pk proof msg => if decide (proof = pk :: msg) then Some [nth 3 msg 0; 1] else None) id
    (fun _ d msg => (msg, [d])) (fun _ d msg s => bool_decide (s = (msg, [d]))).

Lemma ex_crypto_ok : crypto_ok ex_crypto.
Proof.
  split; [done| |].
  - intros sk msg. exists (sk + 1 :: msg), [nth 3 msg 0; 1]. split; [done|]. cbn. by rewrite decide_True.
  - intros. cbn. by apply bool_decide_true.
Qed.

Lemma proposed_sortition_verifies_witness :
  exists v vdf_msg, newVdfSortition ex_crypto (ex_params 48000) 5 (7 :: encode_data (replicate 32 1)) 2 1000 = Done v /\
    getVdfMessage (replicate 32 1) [replicate 32 2] = Ok vdf_msg /\
    dag_block_verifyVdf ex_crypto (sample_dag_block 7 [replicate 32 2]) (computeVdfSolution ex_crypto v (ex_params 48000) vdf_msg) (ex_params 48000)
      (replicate 32 1) 6 2 1000 = Ok (Done None).
Proof.
  eexists _, _. split; [vm_compute; reflexivity|]. split; [vm_compute; reflexivity|].
  apply (proposed_sortition_verifies ex_crypto (ex_params 48000) 5 (sample_dag_block 7 [replicate 32 2]) (replicate 32 1) (7 :: encode_data (replicate 32 1)) _ 2 1000);
    [exact ex_crypto_ok|vm_compute; reflexivity|vm_compute; reflexivity|vm_compute; reflexivity].
Defined.
