(* ===== verification/DagBlockProposer.v ===== *)
(** * Proposal of DAG blocks

    [DagBlockProposer] (consensus/src/dag/dag_block_proposer.cpp): when a wallet of the node
    proposes a block, with which level, tips and transactions, and what happens while
    the delay function is computed.  The DAG manager is the model of [DagManager]; the
    sortition is that of [VdfSortition]; the answers of the other components are
    collected in [ProposeEnv]. *)

From S2P Require Import Prelude Votes Caches TransactionQueue Dag DagManager Rlp DagBlockRlp VdfSortition.
Local Open Scope Z_scope.
Local Open Scope outcome_scope.

(** ** Data *)

Definition kMaxNonFinalizedTransactions : Z := 1000000.
Definition kMaxNonFinalizedDagBlocks : Z := 100.
Definition kMaxNonFinalizedDagBlocksLowDifficulty : Z := 5.
Definition kShardProposePeriodInterval : Z := 10.
Definition max_num_tries_ : Z := 20.

(** The wallet is its address, VRF keys and secret (which signs as the address). *)
Record NodeDagProposerData := mkNodeDagProposerData {
  node_addr : addr_t;
  vrf_secret : Z;
  vrf_pk : Z;
  max_num_tries : Z;
  trx_shard : Z;
  num_tries : Z;
  last_propose_level : Z;
}.

(** The first [n] hexadecimal digits of an address of 160 bits, as a number. *)
Definition addr_digits (n : Z) (a : addr_t) : Z := Z.shiftr a (160 - 4 * n).

Definition newNodeDagProposerData (addr : addr_t) (sk pk max_tries shard : Z) : outcome NodeDagProposerData :=
  if (max_tries =? 0) || (shard =? 0) then Undefined
  else Done (mkNodeDagProposerData addr sk pk (wrap 16 (max_tries + addr_digits 2 addr mod (10 * max_tries)))
               (wrap 16 (addr_digits 6 addr mod shard)) 0 0).

Definition reset_tries (d : NodeDagProposerData) (propose_level : Z) : NodeDagProposerData :=
  mkNodeDagProposerData (node_addr d) (vrf_secret d) (vrf_pk d) (max_num_tries d) (trx_shard d) 0 propose_level.
Definition count_try (d : NodeDagProposerData) : NodeDagProposerData :=
  mkNodeDagProposerData (node_addr d) (vrf_secret d) (vrf_pk d) (max_num_tries d) (trx_shard d)
    (wrap 16 (num_tries d + 1)) (last_propose_level d).

Record ProposerConfig := mkProposerConfig {
  total_trx_shards_ : Z;
  kDagProposeGasLimit : Z;
  kPbftGasLimit : Z;
  kDagGasLimit : Z;
  magnolia_block_num : Z;
  kValidatorMaxVote : Z;
}.

(** The constructor: [gas_limits] are those of the last block, the maximum stake is counted in votes. *)
Definition newProposerConfig (shard propose_dag_gas_limit : Z) (gas_limits : Z * Z) (magnolia maximum_stake balance_step : Z) :
    outcome ProposerConfig :=
  if balance_step =? 0 then Undefined
  else Done (mkProposerConfig (Z.max shard 1) (Z.min propose_dag_gas_limit gas_limits.1) gas_limits.2 gas_limits.1 magnolia
               (u64 (maximum_stake / balance_step))).

(** What one attempt asks other components.  [pe_polls] are the managers seen while the
    delay function runs, [pe_after_sleep] and [pe_at_add] the managers after the sleep of a stale block and when the
    block is added. *)
Record ProposeEnv := mkProposeEnv {
  pe_transaction_pool_size : Z;
  pe_nonfinalized_trx_size : Z;
  pe_syncing : bool;
  pe_lastBlockNumber : PbftPeriod;
  pe_getProposalPeriodForDagLevel : Z -> option PbftPeriod;
  pe_getPeriodBlockHash : PbftPeriod -> bytes;
  pe_dposIsEligible : PbftPeriod -> addr_t -> option bool;   (* None: ErrFutureBlock *)
  pe_dposEligibleVoteCount : PbftPeriod -> addr_t -> Z;
  pe_dposEligibleTotalVoteCount : PbftPeriod -> Z;
  pe_getVrfKey : PbftPeriod -> addr_t -> option Z;
  pe_getSortitionParams : PbftPeriod -> SortitionParams;
  pe_packTrxs : PbftPeriod -> Z -> list (Transaction * Z);
  pe_polls : list DagManager;
  pe_after_sleep : DagManager;
  pe_at_add : DagManager;
}.

Section proposer.
Context (iter : gset blk_hash_t -> list blk_hash_t) (genesis_block_ : DagBlock).
Context (crypto : SortitionCrypto) (hash_bytes : Z -> bytes).
(** The hash of a signed block. *)
Context (block_hash : blk_hash_t -> Z -> list blk_hash_t -> list trx_hash_t -> Z -> VdfSortition -> addr_t -> blk_hash_t).
Context (cfg : ProposerConfig).

(** ** Level *)

Fixpoint max_tip_level (m : DagManager) (tips : list blk_hash_t) (max_level : Z) : option Z :=
  match tips with
  | [] => Some max_level
  | t :: rest =>
      match getDagBlock genesis_block_ m t with
      | None => None
      | Some tip_blk => max_tip_level m rest (Z.max (db_level tip_blk) max_level)
      end
  end.

Definition getProposeLevel (m : DagManager) (pivot : blk_hash_t) (tips : list blk_hash_t) : Z :=
  match getDagBlock genesis_block_ m pivot with
  | None => 0
  | Some pivot_blk => default 0 (max_tip_level m tips (Z.max (db_level pivot_blk) 0))
  end.

(** ** Tips *)

(** The blocks of the known tips and the proposers of more than one of them. *)
Fixpoint collect_tips (m : DagManager) (tips : list blk_hash_t) (proposers duplicate_proposers : gset addr_t)
    (tips_blocks : gmap blk_hash_t DagBlock) : gset addr_t * gmap blk_hash_t DagBlock :=
  match tips with
  | [] => (duplicate_proposers, tips_blocks)
  | t :: rest =>
      match getDagBlock genesis_block_ m t with
      | None => collect_tips m rest proposers duplicate_proposers tips_blocks
      | Some tip_block =>
          let tips_blocks := match tips_blocks !! t with Some _ => tips_blocks | None => <[t := tip_block]> tips_blocks end in
          if decide (db_sender tip_block ∈ proposers)
          then collect_tips m rest proposers ({[db_sender tip_block]} ∪ duplicate_proposers) tips_blocks
          else collect_tips m rest ({[db_sender tip_block]} ∪ proposers) duplicate_proposers tips_blocks
      end
  end.

(** [std::multimap] with [std::greater]: a new entry goes behind those of the same key. *)
Fixpoint tips_insert (e : Z * blk_hash_t) (l : list (Z * blk_hash_t)) : list (Z * blk_hash_t) :=
  match l with
  | [] => [e]
  | x :: l' => if x.1 <? e.1 then e :: l else x :: tips_insert e l'
  end.

(** [operator[]] gives a null pointer for a tip that is not in the map. *)
Fixpoint split_tips (tips_blocks : gmap blk_hash_t DagBlock) (duplicate_proposers : gset addr_t) (tips : list blk_hash_t)
    (unique duplicate : list (Z * blk_hash_t)) : outcome (list (Z * blk_hash_t) * list (Z * blk_hash_t)) :=
  match tips with
  | [] => Done (unique, duplicate)
  | t :: rest =>
      match tips_blocks !! t with
      | None => Undefined
      | Some tip_block =>
          if decide (db_sender tip_block ∈ duplicate_proposers)
          then split_tips tips_blocks duplicate_proposers rest unique (tips_insert (db_level tip_block, t) duplicate)
          else split_tips tips_blocks duplicate_proposers rest (tips_insert (db_level tip_block, t) unique) duplicate
      end
  end.

(** One of the two loops that select tips; the first component tells whether the function returned. *)
Fixpoint take_tips (tips_blocks : gmap blk_hash_t DagBlock) (gas_limit : Z) (ordered : list (Z * blk_hash_t)) (gas_estimation : Z)
    (tips : list blk_hash_t) : outcome (bool * Z * list blk_hash_t) :=
  match ordered with
  | [] => Done (false, gas_estimation, tips)
  | tip :: rest =>
      match tips_blocks !! tip.2 with
      | None => Undefined
      | Some b =>
          let gas_estimation := u64 (gas_estimation + db_gas_estimation b) in
          if (gas_limit <? gas_estimation) || (Z.of_nat (length tips) =? kDagBlockMaxTips) then Done (true, gas_estimation, tips)
          else take_tips tips_blocks gas_limit rest gas_estimation (tips ++ [tip.2])
      end
  end.

Definition selectDagBlockTips (m : DagManager) (frontier_tips : list blk_hash_t) (gas_limit : Z) : outcome (list blk_hash_t) :=
  let '(duplicate_proposers, tips_blocks) := collect_tips m frontier_tips ∅ ∅ ∅ in
  let* (unique, duplicate) := split_tips tips_blocks duplicate_proposers frontier_tips [] [] in
  let* (returned, gas, tips) := take_tips tips_blocks gas_limit unique 0 [] in
  if returned then Done tips
  else let* (_, _, tips) := take_tips tips_blocks gas_limit duplicate gas tips in Done tips.

(** ** Transactions *)

Definition trx_shard_of (t : Transaction) (proposal_period : PbftPeriod) : Z :=
  u64 (addr_digits 10 (trx_sender t) + proposal_period / kShardProposePeriodInterval) mod total_trx_shards_ cfg.

Definition getShardedTrxs (env : ProposeEnv) (proposal_period : PbftPeriod) (weight_limit node_trx_shard : Z) : list (Transaction * Z) :=
  if pe_syncing env then []
  else if total_trx_shards_ cfg =? 1 then pe_packTrxs env proposal_period weight_limit
  else filter (fun e => trx_shard_of e.1 proposal_period = node_trx_shard) (pe_packTrxs env proposal_period weight_limit).

(** ** The block *)

(** [std::accumulate] with the initial value [0], an [int]. *)
Definition accumulate_int (l : list Z) : Z := fold_left (fun acc e => to_signed 32 (u64 (acc + e))) l 0.

Definition createDagBlock (m : DagManager) (frontier : blk_hash_t * list blk_hash_t) (level : Z) (trxs : list (Transaction * Z))
    (vdf : VdfSortition) (sender : addr_t) : outcome DagBlock :=
  let trx_hashes := map (fun e => trx_hash e.1) trxs in
  let block_estimation := u64 (accumulate_int (map snd trxs)) in
  let size := Z.of_nat (length frontier.2) in
  let* over_limit :=
    if kDagBlockMaxTips <? size then Done true
    else if kDagGasLimit cfg =? 0 then Undefined
    else Done (kPbftGasLimit cfg / kDagGasLimit cfg <? size + 1) in
  let* tips := if over_limit : bool then selectDagBlockTips m frontier.2 (u64 (kPbftGasLimit cfg - block_estimation)) else Done frontier.2 in
  Done (mkDagBlock (block_hash frontier.1 level tips trx_hashes block_estimation vdf sender) frontier.1 level tips trx_hashes
          block_estimation sender (difficulty_ vdf)).

Definition isValidDposProposer (env : ProposeEnv) (propose_period : PbftPeriod) (addr : addr_t) : bool :=
  if pe_lastBlockNumber env <? propose_period then false
  else match pe_dposIsEligible env propose_period addr with Some b => b | None => false end.

(** ** An attempt *)

(** The level that a manager would propose now. *)
Definition latest_level (m : DagManager) : Z := u64 (getProposeLevel m (frontier_ m).1 (frontier_ m).2 + 1).

(** The checks before the sortition: the proposal period and the votes. *)
Definition proposal_votes (env : ProposeEnv) (d : NodeDagProposerData) (propose_level : Z) : option (PbftPeriod * Z * Z) :=
  match pe_getProposalPeriodForDagLevel env propose_level with
  | None => None
  | Some proposal_period =>
      if negb (isValidDposProposer env proposal_period (node_addr d)) then None
      else if match pe_getVrfKey env proposal_period (node_addr d) with Some pk => negb (pk =? vrf_pk d) | None => false end then None
      else
        let vote_count := pe_dposEligibleVoteCount env proposal_period (node_addr d) in
        let max_vote_count :=
          if proposal_period <? magnolia_block_num cfg then pe_dposEligibleTotalVoteCount env proposal_period else kValidatorMaxVote cfg in
        if max_vote_count =? 0 then None else Some (proposal_period, vote_count, max_vote_count)
  end.

(** Too many blocks wait to be finalized. *)
Definition dag_is_full (m : DagManager) (difficulty : Z) : bool :=
  if (frontier_ m).1 =? anchor_ m then false
  else
    let size := (getNonFinalizedBlocksSize m).2 in
    (kMaxNonFinalizedDagBlocks <? size) ||
    ((getNonFinalizedBlocksMinDifficulty m <? difficulty) && (kMaxNonFinalizedDagBlocksLowDifficulty <? size)).

(** A stale block waits: [Some d] when the attempt ends with the data [d]. *)
Definition stale_wait (d : NodeDagProposerData) (propose_level : Z) : option NodeDagProposerData :=
  if last_propose_level d =? propose_level then
    if num_tries d <? max_num_tries d then Some (count_try d) else None
  else Some (reset_tries d propose_level).

(** The loop that waits for the delay function. *)
Definition cancelled (propose_level difficulty minimum : Z) (polls : list DagManager) : bool :=
  existsb (fun m => (u64 (propose_level + 1) <? latest_level m) && (minimum <? difficulty)) polls.

(** The rest of an attempt after the transactions were chosen. *)
Definition compute_and_add (env : ProposeEnv) (m : DagManager) (d : NodeDagProposerData) (count propose_level : Z)
    (params : SortitionParams) (vdf : VdfSortition) (vdf_msg : bytes) (trxs : list (Transaction * Z)) :
    outcome (bool * NodeDagProposerData * Z * option (DagBlock * DagManager)) :=
  let d := reset_tries d propose_level in
  if cancelled propose_level (difficulty_ vdf) (difficulty_min (sp_vdf params)) (pe_polls env) then Done (true, d, count, None)
  else
    let vdf := computeVdfSolution crypto vdf params vdf_msg in
    if isStale vdf params && (propose_level <? latest_level (pe_after_sleep env)) then Done (false, d, count, None)
    else
      let* dag_block := createDagBlock (pe_at_add env) (frontier_ m) propose_level trxs vdf (node_addr d) in
      let* (m', (added, _)) := addDagBlock iter genesis_block_ (pe_at_add env) dag_block (map fst trxs) true true in
      Done (true, d, if added : bool then u64 (count + 1) else count, Some (dag_block, m')).

(** The answer, the data of the wallet, the counter of proposed blocks and what was passed to the DAG.
    An exception of the writer of a message ends the node. *)
Definition proposeDagBlock (env : ProposeEnv) (m : DagManager) (d : NodeDagProposerData) (proposed_blocks_count_ : Z) :
    outcome (bool * NodeDagProposerData * Z * option (DagBlock * DagManager)) :=
  let stop d := Done (false, d, proposed_blocks_count_, None) in
  if pe_transaction_pool_size env =? 0 then stop d
  else if kMaxNonFinalizedTransactions <? pe_nonfinalized_trx_size env then stop d
  else
    let* _ := oassert (negb ((frontier_ m).1 =? 0)) in
    let propose_level := latest_level m in
    match proposal_votes env d propose_level with
    | None => stop d
    | Some (proposal_period, vote_count, max_vote_count) =>
        let params := pe_getSortitionParams env proposal_period in
        match makeVrfInput propose_level (pe_getPeriodBlockHash env proposal_period) with
        | Ok vrf_input =>
            let* vdf := newVdfSortition crypto params (vrf_secret d) vrf_input vote_count max_vote_count in
            if dag_is_full m (difficulty_ vdf) then stop d
            else
              match (if isStale vdf params then stale_wait d propose_level else None) with
              | Some d => stop d
              | None =>
                  let trxs := getShardedTrxs env proposal_period (kDagProposeGasLimit cfg) (trx_shard d) in
                  match trxs with
                  | [] => stop (reset_tries d propose_level)
                  | _ :: _ =>
                      match getVdfMessage (hash_bytes (frontier_ m).1) (map (fun e => hash_bytes (trx_hash e.1)) trxs) with
                      | Ok vdf_msg => compute_and_add env m d proposed_blocks_count_ propose_level params vdf vdf_msg trxs
                      | _ => AssertFailed
                      end
                  end
              end
        | _ => AssertFailed
        end
    end.
End proposer.

(** ** Selected tips *)

Section tips.
Context (genesis : DagBlock) (m : DagManager).

(** Level, gas estimation and sender of a known block. *)
Definition tip_level (t : blk_hash_t) : Z := default 0 (db_level <$> getDagBlock genesis m t).
Definition tip_gas (t : blk_hash_t) : Z := default 0 (db_gas_estimation <$> getDagBlock genesis m t).
Definition tip_sender (t : blk_hash_t) : addr_t := default 0 (db_sender <$> getDagBlock genesis m t).
Definition sum_gas (l : list blk_hash_t) : Z := sum_list_Z tip_gas l.
Definition known_tips (l : list blk_hash_t) : Prop := forall t, t ∈ l -> is_Some (getDagBlock genesis m t).

(** No other tip is of the same proposer. *)
Definition unique_proposer (tips : list blk_hash_t) (t : blk_hash_t) : Prop := forall t', t' ∈ tips -> tip_sender t' = tip_sender t -> t' = t.

(** The order of the choice: tips whose proposer has no other tip first, then by level. *)
Definition preferred (tips : list blk_hash_t) (t1 t2 : blk_hash_t) : Prop :=
  (unique_proposer tips t1 /\ ~ unique_proposer tips t2) \/
  ((unique_proposer tips t1 <-> unique_proposer tips t2) /\ tip_level t2 <= tip_level t1).

Lemma sum_gas_app l1 l2 : sum_gas (l1 ++ l2) = sum_gas l1 + sum_gas l2.
Proof. apply sum_list_Z_app. Qed.

(** The proposers of several tips of a list, when [P] proposed others and [D] did already propose several. *)
Definition repeated (P D : gset addr_t) (tips : list blk_hash_t) (s : addr_t) : Prop :=
  s ∈ D \/ (s ∈ P /\ exists t, t ∈ tips /\ tip_sender t = s) \/
  exists t t', t ∈ tips /\ t' ∈ tips /\ t <> t' /\ tip_sender t = s /\ tip_sender t' = s.

Lemma repeated_seen P D t tips s : t ∉ tips -> tip_sender t ∈ P -> repeated P ({[tip_sender t]} ∪ D) tips s <-> repeated P D (t :: tips) s.
Proof.
  intros Hnt Hp. unfold repeated. setoid_rewrite elem_of_cons. rewrite elem_of_union, elem_of_singleton. split.
  - intros [[->|H]|[(H & t' & ? & ?)|(t1 & t2 & ? & ? & ? & ? & ?)]]; [right; left; split; [done|by exists t; auto]|by left|right; left; split; [done|by exists t'; auto]|].
    right. right. exists t1, t2. auto.
  - intros [H|[(H & t' & [->|?] & ?)|(t1 & t2 & [->|?] & [->|?] & ? & ? & ?)]]; [by left; right|by left; left|right; left; by eauto|done|by left; left|by left; left|].
    right. right. exists t1, t2. auto.
Qed.

Lemma repeated_new P D t tips s : t ∉ tips -> tip_sender t ∉ P -> repeated ({[tip_sender t]} ∪ P) D tips s <-> repeated P D (t :: tips) s.
Proof.
  intros Hnt Hp. unfold repeated. setoid_rewrite elem_of_cons. rewrite elem_of_union, elem_of_singleton. split.
  - intros [H|[([->|H] & t' & ? & ?)|(t1 & t2 & ? & ? & ? & ? & ?)]]; [by left| |right; left; split; [done|by exists t'; auto]|].
    + right. right. exists t, t'. split_and!; try done; [by left|by right|]. by intros ->.
    + right. right. exists t1, t2. auto.
  - intros [H|[(H & t' & [->|?] & ?)|(t1 & t2 & [->|?] & [->|?] & ? & ? & ?)]]; [by left|by subst s|right; left; by eauto|done|right; left; by eauto|right; left; by eauto|].
    right. right. exists t1, t2. auto.
Qed.

(** The first loop. *)
Lemma collect_tips_spec tips : forall P D M, NoDup tips -> known_tips tips ->
  (forall t b, M !! t = Some b -> getDagBlock genesis m t = Some b) ->
  let '(D', M') := collect_tips genesis m tips P D M in
  (forall t b, M' !! t = Some b -> getDagBlock genesis m t = Some b) /\ M ⊆ M' /\ (forall t, t ∈ tips -> is_Some (M' !! t)) /\
  forall s, s ∈ D' <-> repeated P D tips s.
Proof.
  induction tips as [|t tips IH]; intros P D M Hnd Hk HM; cbn [collect_tips].
  { split_and!; [done|done|by intros t ?%not_elem_of_nil|]. intros s. unfold repeated. setoid_rewrite elem_of_nil. naive_solver. }
  apply NoDup_cons in Hnd as [Hnt Hnd]. destruct (Hk t (list_elem_of_here _ _)) as [b Hb]. rewrite Hb.
  assert (tip_sender t = db_sender b) as Hts by (unfold tip_sender; by rewrite Hb).
  set (M1 := match M !! t with Some _ => M | None => <[t:=b]> M end).
  assert ((forall t b, M1 !! t = Some b -> getDagBlock genesis m t = Some b) /\ M ⊆ M1 /\ is_Some (M1 !! t)) as (HM1 & Hsub & Hin).
  { subst M1. destruct (M !! t) as [b'|] eqn:E; [split_and!; [done|done|by eexists]|]. split_and!.
    - intros t' b' [[-> ->]|[_ H]]%lookup_insert_Some; [done|by apply HM].
    - by apply insert_subseteq.
    - rewrite lookup_insert_eq. by eexists. }
  assert (known_tips tips) as Hk' by (intros t' Ht'; apply Hk; by right).
  assert (forall M', M1 ⊆ M' -> (forall t', t' ∈ tips -> is_Some (M' !! t')) -> forall t', t' ∈ t :: tips -> is_Some (M' !! t')) as Hcons.
  { intros M' HS HI t' [->|H]%elem_of_cons; [|by apply HI]. destruct Hin as [x Hx]. exists x. by eapply lookup_weaken. }
  rewrite <- Hts. case_decide as Hd.
  - specialize (IH P ({[tip_sender t]} ∪ D) M1 Hnd Hk' HM1). destruct (collect_tips genesis m tips P ({[tip_sender t]} ∪ D) M1) as [D' M'].
    destruct IH as (I1 & I2 & I3 & I4). split_and!; [done|by etrans|by apply Hcons|]. intros s. rewrite I4. by apply repeated_seen.
  - specialize (IH ({[tip_sender t]} ∪ P) D M1 Hnd Hk' HM1). destruct (collect_tips genesis m tips ({[tip_sender t]} ∪ P) D M1) as [D' M'].
    destruct IH as (I1 & I2 & I3 & I4). split_and!; [done|by etrans|by apply Hcons|]. intros s. rewrite I4. by apply repeated_new.
Qed.

(** ** The ordered tips *)

Definition level_ge (a b : Z * blk_hash_t) : Prop := b.1 <= a.1.

Lemma tips_insert_perm e l : tips_insert e l ≡ₚ e :: l.
Proof. induction l as [|x l IH]; simpl; [done|]. case_match; [done|]. rewrite IH. apply Permutation_swap. Qed.

Lemma tips_insert_sorted e l : StronglySorted level_ge l -> StronglySorted level_ge (tips_insert e l).
Proof.
  induction 1 as [|x l Hs IH Hf]; simpl; [by repeat constructor|]. destruct (Z.ltb_spec x.1 e.1).
  - constructor; [by constructor|]. constructor; [unfold level_ge; lia|]. eapply Forall_impl; [exact Hf|]. unfold level_ge. intros y ?. lia.
  - constructor; [done|]. rewrite tips_insert_perm. constructor; [unfold level_ge; lia|done].
Qed.

Lemma split_tips_spec M D tips : forall u d, (forall t, t ∈ tips -> M !! t = getDagBlock genesis m t) -> known_tips tips ->
  StronglySorted level_ge u -> StronglySorted level_ge d ->
  exists u' d', split_tips M D tips u d = Done (u', d') /\ StronglySorted level_ge u' /\ StronglySorted level_ge d' /\
    u' ≡ₚ u ++ map (fun t => (tip_level t, t)) (filter (fun t => tip_sender t ∉ D) tips) /\
    d' ≡ₚ d ++ map (fun t => (tip_level t, t)) (filter (fun t => tip_sender t ∈ D) tips).
Proof.
  induction tips as [|t tips IH]; intros u d HM Hk Hu Hd; cbn [split_tips]; [exists u, d; by rewrite !app_nil_r|].
  rewrite HM by by left. destruct (Hk t (list_elem_of_here _ _)) as [b Hb]. rewrite Hb.
  assert (db_sender b = tip_sender t /\ db_level b = tip_level t) as [-> ->] by (unfold tip_sender, tip_level; by rewrite Hb).
  assert (forall t', t' ∈ tips -> M !! t' = getDagBlock genesis m t') by (intros; apply HM; by right).
  assert (known_tips tips) by (intros t' Ht'; apply Hk; by right). case_decide as Hdec.
  - destruct (IH u (tips_insert (tip_level t, t) d)) as (u' & d' & E & ? & ? & Pu & Pd); [done|done|done|by apply tips_insert_sorted|].
    exists u', d'. split_and!; [done|done|done| |].
    + rewrite filter_cons_False; [done|]. by intros ?.
    + rewrite filter_cons_True by done. cbn [map]. by rewrite Pd, tips_insert_perm, <- Permutation_middle.
  - destruct (IH (tips_insert (tip_level t, t) u) d) as (u' & d' & E & ? & ? & Pu & Pd); [done|done|by apply tips_insert_sorted|done|].
    exists u', d'. split_and!; [done|done|done| |].
    + rewrite filter_cons_True by done. cbn [map]. by rewrite Pu, tips_insert_perm, <- Permutation_middle.
    + by rewrite filter_cons_False.
Qed.

(** One loop of the choice continues a choice [tips] by a prefix of its list. *)
Lemma take_tips_spec M limit l : forall tips, (forall e, e ∈ l -> M !! e.2 = getDagBlock genesis m e.2) -> known_tips (map snd l) ->
  (forall t, t ∈ tips ++ map snd l -> 0 <= tip_gas t) -> sum_gas (tips ++ map snd l) < 2 ^ 64 ->
  Z.of_nat (length tips) <= kDagBlockMaxTips -> sum_gas tips <= limit ->
  exists returned g sel rest, take_tips M limit l (sum_gas tips) tips = Done (returned, g, tips ++ sel) /\ map snd l = sel ++ rest /\
    Z.of_nat (length (tips ++ sel)) <= kDagBlockMaxTips /\ sum_gas (tips ++ sel) <= limit /\
    (if returned : bool then exists t rest', rest = t :: rest' /\ (Z.of_nat (length (tips ++ sel)) = kDagBlockMaxTips \/ limit < sum_gas (tips ++ sel) + tip_gas t)
     else rest = [] /\ g = sum_gas (tips ++ sel)).
Proof.
  induction l as [|[lv t] l IH]; intros tips HM Hk Hg Hs Hlen Hlim; cbn [take_tips map].
  { exists false, (sum_gas tips), [], []. rewrite app_nil_r. split_and!; try done. }
  cbn [snd map] in *. rewrite (HM (lv, t) (list_elem_of_here _ _) : M !! t = getDagBlock genesis m t). destruct (Hk t (list_elem_of_here _ _)) as [b Hb]. rewrite Hb. cbn [fst snd].
  assert (db_gas_estimation b = tip_gas t) as -> by (unfold tip_gas; by rewrite Hb).
  assert (sum_gas (tips ++ t :: map snd l) = sum_gas tips + tip_gas t + sum_gas (map snd l)) as Esum by (rewrite sum_gas_app; simpl; lia).
  assert (0 <= sum_gas tips) by (apply sum_list_Z_nonneg; intros; apply Hg; apply elem_of_app; by left).
  assert (0 <= sum_gas (map snd l)) by (apply sum_list_Z_nonneg; intros; apply Hg; apply elem_of_app; right; by right).
  assert (0 <= tip_gas t) by (apply Hg; apply elem_of_app; right; by left).
  assert (u64 (sum_gas tips + tip_gas t) = sum_gas (tips ++ [t])) as ->.
  { rewrite sum_gas_app. simpl. rewrite Z.add_0_r. apply wrap_id. unfold in_range, modulus. lia. }
  destruct (Z.ltb_spec limit (sum_gas (tips ++ [t]))) as [Hl|Hl]; [|destruct (Z.eqb_spec (Z.of_nat (length tips)) kDagBlockMaxTips) as [He|He]]; cbn [orb].
  - exists true, (sum_gas (tips ++ [t])), [], (t :: map snd l). rewrite app_nil_r. split_and!; try done. exists t, (map snd l). split; [done|]. right. rewrite sum_gas_app in Hl. simpl in Hl. lia.
  - exists true, (sum_gas (tips ++ [t])), [], (t :: map snd l). rewrite app_nil_r. split_and!; try done. exists t, (map snd l). split; [done|by left].
  - destruct (IH (tips ++ [t])) as (r & g & sel & rest & E & El & ? & ? & Hr).
    + intros e He'. apply HM. by right.
    + intros t' Ht'. apply Hk. by right.
    + intros t' Ht'. apply Hg. rewrite <- app_assoc in Ht'. done.
    + rewrite <- app_assoc. simpl. lia.
    + rewrite length_app. simpl. lia.
    + done.
    + exists r, g, (t :: sel), rest. rewrite <- (app_assoc tips [t] sel) in *. cbn [app] in *. split_and!; try done. by rewrite El.
Qed.
Lemma unique_not_repeated tips t : t ∈ tips -> unique_proposer tips t <-> ~ repeated ∅ ∅ tips (tip_sender t).
Proof.
  intros Ht. unfold unique_proposer, repeated. split.
  - intros Hu [?|[[? _]|(t1 & t2 & H1 & H2 & Hne & E1 & E2)]]; [set_solver..|]. apply Hne. by rewrite (Hu t1 H1 E1), (Hu t2 H2 E2).
  - intros Hn t' Ht' E. destruct (decide (t' = t)) as [|Hne]; [done|]. destruct Hn. right. right. by exists t', t.
Qed.

Lemma perm_snd (l : list (Z * blk_hash_t)) k : l ≡ₚ map (fun t => (tip_level t, t)) k -> map snd l ≡ₚ k.
Proof. intros ->. rewrite map_map. cbn [snd]. by rewrite map_id. Qed.

Lemma perm_entry (l : list (Z * blk_hash_t)) k e : l ≡ₚ map (fun t => (tip_level t, t)) k -> e ∈ l -> e = (tip_level e.2, e.2) /\ e.2 ∈ k.
Proof. intros -> (t & -> & Ht)%list_elem_of_fmap. done. Qed.

Lemma sorted_snd l k : StronglySorted level_ge l -> l ≡ₚ map (fun t => (tip_level t, t)) k -> StronglySorted (fun t1 t2 => tip_level t2 <= tip_level t1) (map snd l).
Proof.
  intros Hs Hp. assert (Forall (fun e => e.1 = tip_level e.2) l) as Hl.
  { apply Forall_forall. intros e He. destruct (perm_entry l k e Hp He) as [-> _]. done. }
  clear Hp. induction Hs as [|e l Hs IH Hf]; cbn [map]; [constructor|]. apply Forall_cons in Hl as [He Hl]. constructor; [by apply IH|].
  apply Forall_forall. intros t (e' & -> & He')%list_elem_of_fmap. rewrite Forall_forall in Hf, Hl. rewrite <- He, <- (Hl e' He'). by apply Hf.
Qed.

Lemma sorted_app {A} (R1 R : A -> A -> Prop) l1 l2 : StronglySorted R1 l1 -> StronglySorted R1 l2 ->
  (forall x y, x ∈ l1 -> y ∈ l1 -> R1 x y -> R x y) -> (forall x y, x ∈ l2 -> y ∈ l2 -> R1 x y -> R x y) -> (forall x y, x ∈ l1 -> y ∈ l2 -> R x y) -> StronglySorted R (l1 ++ l2).
Proof.
  intros H1 H2 A1 A2 A12. induction H1 as [|x l1 H1 IH Hf]; cbn [app].
  - induction H2 as [|y l2 H2 IH Hf]; [constructor|]. constructor.
    + apply IH; [intros; apply A2; by try right|by intros ?? ?%not_elem_of_nil].
    + rewrite Forall_forall in Hf |- *. intros z Hz. apply A2; [by left|by right|by apply Hf].
  - constructor; [apply IH; [intros; apply A1; by try right|intros; apply A12; by try right]|].
    apply Forall_app. rewrite Forall_forall in Hf. split; apply Forall_forall; intros z Hz; [apply A1; [by left|by right|by apply Hf]|apply A12; [by left|done]].
Qed.

(** The choice in terms of the whole order. *)
Lemma select_tips_spec tips limit : NoDup tips -> known_tips tips -> (forall t, t ∈ tips -> 0 <= tip_gas t) -> sum_gas tips < 2 ^ 64 -> 0 <= limit ->
  exists sel rest, selectDagBlockTips genesis m tips limit = Done sel /\ sel ++ rest ≡ₚ tips /\ StronglySorted (preferred tips) (sel ++ rest) /\
    Z.of_nat (length sel) <= kDagBlockMaxTips /\ sum_gas sel <= limit /\
    (rest = [] \/ exists t rest', rest = t :: rest' /\ (Z.of_nat (length sel) = kDagBlockMaxTips \/ limit < sum_gas sel + tip_gas t)).
Proof.
  intros Hnd Hk Hg Hs Hlim. unfold selectDagBlockTips. pose proof (collect_tips_spec tips ∅ ∅ ∅ Hnd Hk (fun t b H => ltac:(by rewrite lookup_empty in H))) as Hc.
  destruct (collect_tips genesis m tips ∅ ∅ ∅) as [D M]. destruct Hc as (HM & _ & Hin & HD).
  assert (forall t, t ∈ tips -> M !! t = getDagBlock genesis m t) as HMB.
  { intros t Ht. destruct (Hin t Ht) as [b Hb]. rewrite Hb. symmetry. by apply HM. }
  destruct (split_tips_spec M D tips [] [] HMB Hk) as (u & d & -> & Su & Sd & Pu & Pd); [constructor..|]. cbn [app obind] in *.
  set (lu := filter (fun t => tip_sender t ∉ D) tips) in *. set (ld := filter (fun t => tip_sender t ∈ D) tips) in *.
  pose proof (perm_snd u lu Pu) as Qu. pose proof (perm_snd d ld Pd) as Qd.
  assert (map snd u ++ map snd d ≡ₚ tips) as Hperm.
  { rewrite Qu, Qd. subst lu ld. rewrite Permutation_app_comm. apply filter_app_complement. }
  assert (forall t, t ∈ lu -> t ∈ tips /\ unique_proposer tips t) as Hlu.
  { intros t [Ht1 Ht2]%list_elem_of_filter. split; [done|]. apply unique_not_repeated; [done|]. by rewrite <- HD. }
  assert (forall t, t ∈ ld -> t ∈ tips /\ ~ unique_proposer tips t) as Hld.
  { intros t [Ht1 Ht2]%list_elem_of_filter. split; [done|]. rewrite unique_not_repeated by done. rewrite <- HD. by intros ?. }
  assert (StronglySorted (preferred tips) (map snd u ++ map snd d)) as Hsort.
  { eapply sorted_app; [by eapply sorted_snd|by eapply sorted_snd| | |]; intros t1 t2 H1 H2; rewrite ?Qu, ?Qd in H1; rewrite ?Qu, ?Qd in H2.
    - intros Hle. right. split; [|done]. destruct (Hlu t1 H1), (Hlu t2 H2). tauto.
    - intros Hle. right. split; [|done]. destruct (Hld t1 H1), (Hld t2 H2). tauto.
    - left. split; [by apply Hlu|by apply Hld]. }
  assert (forall l : list (Z * blk_hash_t), (forall t, t ∈ map snd l -> t ∈ tips) -> forall e, e ∈ l -> M !! e.2 = getDagBlock genesis m e.2) as HMl.
  { intros l Hl e He. apply HMB, Hl. by apply list_elem_of_fmap_2. }
  assert (forall t, t ∈ map snd u -> t ∈ tips) as Iu by (intros t; rewrite <- Hperm; intros; apply elem_of_app; by left).
  assert (forall t, t ∈ map snd d -> t ∈ tips) as Id by (intros t; rewrite <- Hperm; intros; apply elem_of_app; by right).
  assert (sum_gas (map snd u) + sum_gas (map snd d) = sum_gas tips) as Esum by (by rewrite <- sum_gas_app, (sum_list_Z_perm tip_gas _ _ Hperm : sum_gas _ = sum_gas tips)).
  assert (0 <= sum_gas (map snd d)) as Hd0 by (apply sum_list_Z_nonneg; intros; by apply Hg, Id).
  destruct (take_tips_spec M limit u []) as (r & g & sel & rest & E & El & Hn & Hgs & Hr); [by apply HMl|by intros t Ht; apply Hk, Iu|by intros t Ht; apply Hg, Iu|cbn [app]; lia|done|done|].
  cbn [app] in *. change (sum_gas []) with 0 in E. rewrite E. cbn [obind]. destruct r.
  - destruct Hr as (t & rest' & -> & Hstop). exists sel, (t :: rest' ++ map snd d). split; [done|].
    replace (sel ++ t :: rest' ++ map snd d) with (map snd u ++ map snd d) by (rewrite El; by simplify_list_eq). split_and!; [done|done|done|done|]. right. by exists t, (rest' ++ map snd d).
  - destruct Hr as [-> ->]. rewrite app_nil_r in El. rewrite <- El in *.
    destruct (take_tips_spec M limit d (map snd u)) as (r2 & g2 & sel2 & rest2 & -> & El2 & Hn2 & Hgs2 & Hr2); [by apply HMl|by intros t Ht; apply Hk, Id|by intros t [?|?]%elem_of_app; apply Hg; [apply Iu|apply Id]|rewrite sum_gas_app; lia|done|done|].
    cbn [obind]. exists (map snd u ++ sel2), rest2. split; [done|]. rewrite <- app_assoc, <- El2. split_and!; [done|done|done|done|].
    destruct r2; [right|left; apply Hr2]. destruct Hr2 as (t & rest' & -> & Hstop). by exists t, rest'.
Qed.
End tips.

(** When the frontier has too many tips for a block, the tips that are selected are the longest
    beginning that has at most 16 tips and keeps the gas limit, of the frontier in the order of preference: tips of proposers
    with one tip first, and by decreasing level. *)
Theorem selected_tips_correct genesis m tips limit :
  NoDup tips -> known_tips genesis m tips -> (forall t, t ∈ tips -> 0 <= tip_gas genesis m t) -> sum_gas genesis m tips < 2 ^ 64 -> 0 <= limit ->
  exists sel rest, selectDagBlockTips genesis m tips limit = Done sel /\ sel ++ rest ≡ₚ tips /\
    StronglySorted (preferred genesis m tips) (sel ++ rest) /\
    Z.of_nat (length sel) <= kDagBlockMaxTips /\ sum_gas genesis m sel <= limit /\
    (rest = [] \/ exists t rest', rest = t :: rest' /\
       (Z.of_nat (length sel) = kDagBlockMaxTips \/ limit < sum_gas genesis m sel + tip_gas genesis m t)).
Proof. apply select_tips_spec. Qed.
