(* ===== verification/DagProposal.v ===== *)
(** * Proposed DAG blocks are valid

    The proposer against the DAG manager: the block that [createDagBlock] makes from
    the frontier passes [verifyBlock]; when [addDagBlock] accepts its level, and when
    not; the shards of the transactions; data of the proposer over its attempts. *)

From S2P Require Import Prelude Votes Caches TransactionQueue Dag DagOrder DagGhost DagManager DagManagerInv DagReorder DagPeriods Rlp DagBlockRlp VdfSortition DagBlockProposer.
Local Open Scope Z_scope.
Local Open Scope outcome_scope.

(** ** The frontier *)

Lemma ghost_path_last blk anchor d v path x :
  dag_ok blk anchor d -> v ∈ dom (pivot_tree_ d) -> ghost_path (pivot_tree_ d) (descendants (pivot_tree_ d)) v path -> last path = Some x ->
  x ∈ dom (pivot_tree_ d).
Proof.
  intros Hok Hv Hp. revert Hv. induction Hp as [v _|v c path He _ Hp IH]; intros Hv Hl; [by injection Hl as <-|].
  apply IH.
  - apply (g_tree_dom _ _ _ Hok). right. by apply (g_tree_edge _ _ _ Hok) in He as [? _].
  - destruct path as [|y path]; [inversion Hp|]. by rewrite last_cons_cons in Hl.
Qed.

Lemma frontier_facts iter genesis m pivot tips :
  iteration iter -> dm_inv genesis m -> getFrontier iter (dag m) (anchor_ m) = Done (pivot, tips) ->
  Z.of_nat (size (pivot_tree_ (dag m))) < 2 ^ 31 ->
  NoDup (pivot :: tips) /\ known_tips genesis m (pivot :: tips).
Proof.
  intros Hi Hinv Hf Hsz. assert (forall v, v ∈ dom (total_dag_ (dag m)) -> is_Some (getDagBlock genesis m v)) as Hk.
  { intros v [->|(l & X & Hl & Hv)]%(g_total_dom _ _ _ (m_dag _ _ Hinv)); rewrite getDagBlock_effect by done; [apply (m_anchor _ _ Hinv)|].
    destruct (g_level _ _ _ (m_dag _ _ Hinv) l X v Hl Hv) as (b & -> & _). by eexists. }
  destruct (getFrontier_effect _ _ _ (m_dag _ _ Hinv) iter Hi Hsz) as (path & pv & ts & E & Hp & Hl & Ht). rewrite Hf in E. injection E as <- <-.
  split.
  - apply NoDup_cons. split; [by intros [? _]%Ht|]. clear Ht. unfold getFrontier in Hf. destruct (getGhostPath _ _ _) as [p| |]; cbn [obind] in Hf; [|done|done].
    destruct (last p); [|injection Hf as <- <-; constructor]. unfold getLeaves, collectLeafVertices in Hf. destruct (bool_decide _); cbn [obind oassert] in Hf; [|done].
    injection Hf as _ <-. apply NoDup_filter, NoDup_filter. by apply NoDup_iter.
  - intros t [->|H]%elem_of_cons; [|apply Ht in H as [_ H]; apply Hk; apply elem_of_dom; by eexists].
    apply Hk. apply (g_total_dom _ _ _ (m_dag _ _ Hinv)), (g_tree_dom _ _ _ (m_dag _ _ Hinv)). eapply ghost_path_last; [apply Hinv| |done|done]. apply (g_tree_dom _ _ _ (m_dag _ _ Hinv)). by left.
Qed.

(** ** Gas of the block *)

Lemma accumulate_exact l : (forall e, e ∈ l -> 0 <= e) -> sum_list_Z id l < 2 ^ 31 -> accumulate_int l = sum_list_Z id l.
Proof.
  intros Hl Hs. assert (forall l acc, (forall e, e ∈ l -> 0 <= e) -> 0 <= acc -> acc + sum_list_Z id l < 2 ^ 31 ->
    fold_left (fun acc e => to_signed 32 (u64 (acc + e))) l acc = acc + sum_list_Z id l) as H; [|by apply (H l 0)].
  clear. induction l as [|e l IH]; intros acc Hl Ha Hs; cbn [fold_left]; [simpl; lia|]. unfold id in Hs. simpl in Hs. fold (@id Z) in Hs.
  assert (0 <= e) by (apply Hl; by left). assert (0 <= sum_list_Z id l) by (apply sum_list_Z_nonneg; intros; apply Hl; by right).
  assert (to_signed 32 (u64 (acc + e)) = acc + e) as ->.
  { unfold to_signed. rewrite (wrap_id 64) by (unfold in_range, modulus; unfold id in *; lia). rewrite wrap_id by (unfold in_range, modulus; unfold id in *; lia).
    destruct (Z.ltb_spec (acc + e) (2 ^ (32 - 1))); [done|]. unfold id in *. lia. }
  rewrite IH; [simpl; unfold id; lia|intros; apply Hl; by right|lia|simpl in Hs; unfold id in *; lia].
Qed.

Lemma tips_gas_sum genesis m l : tips_gas genesis m l = sum_gas genesis m l.
Proof. unfold tips_gas, sum_gas. induction l as [|t l IH]; [done|]. simpl. rewrite IH. unfold tip_gas. by destruct (getDagBlock genesis m t). Qed.

(** The limits and estimations with which a block is made. *)
Record proposal_ok (cfg : ProposerConfig) (genesis : DagBlock) (m : DagManager) (trxs : list (Transaction * Z)) : Prop := {
  o_limits : 0 < kDagGasLimit cfg < 2 ^ 31 /\ kDagGasLimit cfg <= kPbftGasLimit cfg < 2 ^ 64;
  o_estimations : forall e, e ∈ trxs -> 0 <= e.2;
  o_block : sum_list_Z snd trxs <= kDagGasLimit cfg;
  o_tips : forall t, t ∈ (frontier_ m).2 -> 0 <= tip_gas genesis m t;
  o_sum : sum_gas genesis m (frontier_ m).2 < 2 ^ 64;
}.

Lemma estimation_exact cfg genesis m trxs : proposal_ok cfg genesis m trxs ->
  u64 (accumulate_int (map snd trxs)) = sum_list_Z snd trxs /\ 0 <= sum_list_Z snd trxs < 2 ^ 31.
Proof.
  intros [[H1 H2] H3 H4 _ _]. assert (0 <= sum_list_Z snd trxs) by (by apply sum_list_Z_nonneg).
  assert (sum_list_Z id (map snd trxs) = sum_list_Z snd trxs) as E by (clear; induction trxs as [|e l IH]; [done|]; simpl; by rewrite IH).
  rewrite accumulate_exact, E; [|by intros e (x & -> & Hx)%list_elem_of_fmap; apply H3|lia]. split; [|lia]. apply wrap_id. unfold in_range, modulus. lia.
Qed.

Section created.
Context (iter : gset blk_hash_t -> list blk_hash_t) (genesis : DagBlock).
Context (block_hash : blk_hash_t -> Z -> list blk_hash_t -> list trx_hash_t -> Z -> VdfSortition -> addr_t -> blk_hash_t).
Context (cfg : ProposerConfig) (m : DagManager) (trxs : list (Transaction * Z)).
Context (Hi : iteration iter) (Hinv : dm_inv genesis m) (Hf : getFrontier iter (dag m) (anchor_ m) = Done (frontier_ m)).
Context (Hsz : Z.of_nat (size (pivot_tree_ (dag m))) < 2 ^ 31) (Hok : proposal_ok cfg genesis m trxs).

(** The block that is made: all tips of the frontier, or the selected ones. *)
Lemma createDagBlock_spec level vdf sender :
  exists blk, createDagBlock genesis block_hash cfg m (frontier_ m) level trxs vdf sender = Done blk /\
    db_pivot blk = (frontier_ m).1 /\ db_level blk = level /\ db_trxs blk = map (fun e => trx_hash e.1) trxs /\
    db_gas_estimation blk = sum_list_Z snd trxs /\ db_sender blk = sender /\
    (forall t, t ∈ db_tips blk -> t ∈ (frontier_ m).2) /\ NoDup (db_tips blk) /\ Z.of_nat (length (db_tips blk)) <= kDagBlockMaxTips /\
    (kPbftGasLimit cfg / kDagGasLimit cfg < Z.of_nat (length (db_tips blk)) + 1 ->
       db_gas_estimation blk + sum_gas genesis m (db_tips blk) <= kPbftGasLimit cfg) /\
    (Z.of_nat (length (frontier_ m).2) <= kDagBlockMaxTips -> Z.of_nat (length (frontier_ m).2) + 1 <= kPbftGasLimit cfg / kDagGasLimit cfg ->
       db_tips blk = (frontier_ m).2).
Proof using Hi Hinv Hf Hsz Hok.
  destruct (estimation_exact _ _ _ _ Hok) as [Hest Hr]. pose proof Hok as [[H1 H2] _ Hb Ht Hs].
  destruct (frontier_facts iter genesis m (frontier_ m).1 (frontier_ m).2 Hi Hinv ltac:(by rewrite <- surjective_pairing) Hsz) as [Hnd Hk].
  apply NoDup_cons in Hnd as [_ Hnd]. assert (known_tips genesis m (frontier_ m).2) as Hk2 by (intros t ?; apply Hk; by right).
  unfold createDagBlock. rewrite Hest.
  assert (u64 (kPbftGasLimit cfg - sum_list_Z snd trxs) = kPbftGasLimit cfg - sum_list_Z snd trxs) as -> by (apply wrap_id; unfold in_range, modulus; lia).
  destruct (select_tips_spec genesis m (frontier_ m).2 (kPbftGasLimit cfg - sum_list_Z snd trxs) Hnd Hk2 Ht Hs ltac:(lia)) as (sel & rest & Esel & Hp & _ & Hlen & Hgas & _).
  assert (NoDup sel /\ forall t, t ∈ sel -> t ∈ (frontier_ m).2) as [Hnds Hin].
  { rewrite <- Hp in Hnd. split; [by apply NoDup_app in Hnd as [? _]|]. intros t ?. rewrite <- Hp. apply elem_of_app. by left. }
  assert (forall l, l = Done true -> exists blk, (let* over := l in let* tips := if over : bool then Done sel else Done (frontier_ m).2 in
     Done (mkDagBlock (block_hash (frontier_ m).1 level tips (map (fun e => trx_hash e.1) trxs) (sum_list_Z snd trxs) vdf sender) (frontier_ m).1 level tips
       (map (fun e => trx_hash e.1) trxs) (sum_list_Z snd trxs) sender (difficulty_ vdf))) = Done blk /\
    db_pivot blk = (frontier_ m).1 /\ db_level blk = level /\ db_trxs blk = map (fun e => trx_hash e.1) trxs /\
    db_gas_estimation blk = sum_list_Z snd trxs /\ db_sender blk = sender /\ db_tips blk = sel) as Hsel.
  { intros l ->. cbn [obind]. eexists. split; [done|]. done. }
  rewrite Esel. destruct (Z.ltb_spec kDagBlockMaxTips (Z.of_nat (length (frontier_ m).2))) as [Hl|Hl].
  { destruct (Hsel _ eq_refl) as (blk & -> & ? & ? & ? & Hg & ? & Et). exists blk. rewrite Et. split_and!; try done; [rewrite Hg; lia|lia]. }
  destruct (Z.eqb_spec (kDagGasLimit cfg) 0); [lia|].
  destruct (Z.ltb_spec (kPbftGasLimit cfg / kDagGasLimit cfg) (Z.of_nat (length (frontier_ m).2) + 1)) as [Hr2|Hr2].
  { destruct (Hsel _ eq_refl) as (blk & -> & ? & ? & ? & Hg & ? & Et). exists blk. rewrite Et. split_and!; try done; [rewrite Hg; lia|lia]. }
  cbn [obind]. eexists. split; [done|]. cbn [db_pivot db_level db_trxs db_gas_estimation db_sender db_tips]. split_and!; try done. lia.
Qed.
End created.

(** ** Verification of proposed blocks *)

(** The other components of a peer accept the sender, the level and the estimations. *)
Record peer_accepts (env : VerifyEnv) (cfg : ProposerConfig) (m : DagManager) (blk : DagBlock) (trxs : list (Transaction * Z)) (p : PbftPeriod) : Prop := {
  a_period : getProposalPeriodForDagLevel env (db_level blk) = Some p;
  a_level : dag_expiry_level_ m <= db_level blk;
  a_vdf : exists pk, getVrfKey env p (db_sender blk) = Some pk /\ DagManager.verifyVdf env blk p pk = true;
  a_dpos : dposIsEligible env p (db_sender blk) = Some true;
  a_limits : getGasLimits env p = (kDagGasLimit cfg, kPbftGasLimit cfg);
  a_estimate : estimateTransactions env (map fst trxs) p = sum_list_Z snd trxs;
  a_no_query : ve_getTransactions env [] p = [];
}.

Definition trx_map (trxs : list (Transaction * Z)) : gmap trx_hash_t Transaction := list_to_map (map (fun e => (trx_hash e.1, e.1)) trxs).

Lemma trx_map_lookup trxs e : NoDup (map (fun e => trx_hash e.1) trxs) -> e ∈ trxs -> trx_map trxs !! trx_hash e.1 = Some e.1.
Proof.
  intros Hnd He. apply elem_of_list_to_map.
  - change (NoDup (map fst (map (fun e : Transaction * Z => (trx_hash e.1, e.1)) trxs))). by rewrite map_map.
  - apply list_elem_of_fmap. by exists e.
Qed.

Lemma trx_map_found trxs : NoDup (map (fun e => trx_hash e.1) trxs) ->
  omap (fun h => trx_map trxs !! h) (map (fun e => trx_hash e.1) trxs) = map fst trxs /\
  filter (fun h => trx_map trxs !! h = None) (map (fun e => trx_hash e.1) trxs) = [].
Proof.
  intros Hnd. assert (forall l, (forall e, e ∈ l -> e ∈ trxs) ->
    omap (fun h => trx_map trxs !! h) (map (fun e => trx_hash e.1) l) = map fst l /\
    filter (fun h => trx_map trxs !! h = None) (map (fun e => trx_hash e.1) l) = []) as H; [|by apply H].
  induction l as [|e l IH]; intros Hl; [done|]. destruct IH as [I1 I2]; [intros; apply Hl; by right|].
  assert (trx_map trxs !! trx_hash e.1 = Some e.1) as E by (apply trx_map_lookup; [done|apply Hl; by left]).
  cbn [map]. rewrite filter_cons_False by (rewrite E; done). split; [|done]. cbn [omap list_omap]. rewrite E. f_equal. exact I1.
Qed.

(** C18: The block that a proposer makes from the frontier of its DAG, of transactions within the gas limit of a block, is verified by a peer
    with the same DAG that has the proposer as eligible, its sortition as valid and the same limits and estimations:
    number and uniqueness of the tips and all limits of gas are respected, whether or not the tips had to be
    selected. *)
Theorem proposed_block_verified iter genesis block_hash cfg env m level trxs vdf sender p :
  iteration iter -> dm_inv genesis m -> getFrontier iter (dag m) (anchor_ m) = Done (frontier_ m) ->
  Z.of_nat (size (pivot_tree_ (dag m))) < 2 ^ 31 -> proposal_ok cfg genesis m trxs -> NoDup (map (fun e => trx_hash e.1) trxs) ->
  exists blk, createDagBlock genesis block_hash cfg m (frontier_ m) level trxs vdf sender = Done blk /\
    (peer_accepts env cfg m blk trxs p -> verifyBlock genesis env m blk (trx_map trxs) = Done (m, (Verified, map fst trxs))).
Proof.
  intros Hi Hinv Hf Hsz Hok Hnd. destruct (createDagBlock_spec iter genesis block_hash cfg m trxs Hi Hinv Hf Hsz Hok level vdf sender)
    as (blk & E & Hp & _ & Htx & Hg & _ & Htips & Hndt & Hlen & Hgas & _). exists blk. split; [done|].
  intros [P1 P2 (pk & P3 & P4) P5 P6 P7 P8]. destruct (estimation_exact _ _ _ _ Hok) as [_ Hr]. pose proof Hok as [[L1 L2] _ Hb Ht Hs].
  destruct (frontier_facts iter genesis m (frontier_ m).1 (frontier_ m).2 Hi Hinv ltac:(by rewrite <- surjective_pairing) Hsz) as [Hndf Hk]. apply NoDup_cons in Hndf as [Hpiv _].
  unfold verifyBlock. rewrite (proj2 (Z.ltb_ge _ _)) by done. rewrite (proj2 (tips_unique_spec _ _)).
  2: { split; [done|]. intros t Hin ->%elem_of_singleton. apply Hpiv. rewrite <- Hp. by apply Htips. }
  cbn [negb]. rewrite P1, collect_trxs, Htx. destruct (trx_map_found trxs Hnd) as [-> ->]. rewrite P8. cbn [length Nat.ltb Nat.leb app].
  rewrite app_nil_r. rewrite (proj2 (Z.ltb_ge _ _)) by done. rewrite P3, P4, P5. cbn [negb].
  assert (verify_gas genesis env m blk p (map fst trxs) = Done (Verified, map fst trxs)) as ->; [|done].
  apply verify_gas_spec; rewrite ?P6; cbn [fst snd]; [lia|lia|]. split_and!; [done|lia|by rewrite Hg|].
  intros Hover. split; [intros t Hin; apply Hk; right; by apply Htips|]. rewrite tips_gas_sum.
  assert (0 <= sum_gas genesis m (db_tips blk)) by (apply sum_list_Z_nonneg; intros t Hin; by apply Ht, Htips).
  specialize (Hgas Hover). rewrite wrap_id; [done|]. unfold in_range, modulus. lia.
Qed.

(** ** Level of proposed blocks *)

Definition highest_level (genesis : DagBlock) (m : DagManager) : Z :=
  foldr (fun t l => Z.max (tip_level genesis m t) l) 0 ((frontier_ m).1 :: (frontier_ m).2).

Lemma max_tip_level_spec genesis m tips : known_tips genesis m tips -> forall l,
  max_tip_level genesis m tips l = Some (foldr (fun t l => Z.max (tip_level genesis m t) l) l tips).
Proof.
  induction tips as [|t tips IH]; intros Hk l; [done|]. cbn [max_tip_level foldr]. destruct (Hk t (list_elem_of_here _ _)) as [b Hb]. rewrite Hb.
  rewrite IH by (intros ??; apply Hk; by right). assert (tip_level genesis m t = db_level b) as -> by (unfold tip_level; by rewrite Hb). f_equal.
  clear. induction tips as [|t tips IH]; cbn [foldr]; [done|]. lia.
Qed.

Lemma getProposeLevel_highest genesis m : known_tips genesis m ((frontier_ m).1 :: (frontier_ m).2) ->
  getProposeLevel genesis m (frontier_ m).1 (frontier_ m).2 = highest_level genesis m.
Proof.
  intros Hk. unfold getProposeLevel, highest_level. destruct (Hk (frontier_ m).1 (list_elem_of_here _ _)) as [b Hb]. rewrite Hb, max_tip_level_spec by (intros ??; apply Hk; by right).
  cbn [foldr default id]. assert (tip_level genesis m (frontier_ m).1 = db_level b) as -> by (unfold tip_level; by rewrite Hb).
  clear. induction (frontier_ m).2 as [|t tips IH]; cbn [foldr]; [done|]. unfold id in *. lia.
Qed.

Lemma foldr_max_le (f : blk_hash_t -> Z) l t : t ∈ l -> f t <= foldr (fun t l => Z.max (f t) l) 0 l.
Proof. induction 1 as [|x t l _ IH]; cbn [foldr]; lia. Qed.

Lemma highest_reached genesis m : (forall t, 0 <= tip_level genesis m t) ->
  exists t, t ∈ (frontier_ m).1 :: (frontier_ m).2 /\ tip_level genesis m t = highest_level genesis m.
Proof.
  intros H0. unfold highest_level. generalize (frontier_ m).2 as l, (frontier_ m).1 as p. induction l as [|t l IH]; intros p; cbn [foldr] in *.
  - exists p. split; [by left|]. specialize (H0 p). lia.
  - destruct (IH t) as (x & Hx & E). destruct (Z.le_gt_cases (tip_level genesis m p) (tip_level genesis m x)).
    + exists x. split; [by right|]. lia.
    + exists p. split; [by left|]. lia.
Qed.

(** The DAG finds the level of the proposed block right, and can add the block, exactly when its pivot or a tip that was kept
    has the highest level of the frontier; that holds when no tips had to be left out. *)
Theorem proposed_level_accepted iter genesis block_hash cfg m trxs vdf sender :
  iteration iter -> dm_inv genesis m -> getFrontier iter (dag m) (anchor_ m) = Done (frontier_ m) ->
  Z.of_nat (size (pivot_tree_ (dag m))) < 2 ^ 31 -> proposal_ok cfg genesis m trxs ->
  exists blk, createDagBlock genesis block_hash cfg m (frontier_ m) (latest_level genesis m) trxs vdf sender = Done blk /\
    (pivotAndTipsAvailable genesis m blk = (true, []) <->
       exists u, u ∈ parents blk /\ tip_level genesis m u = highest_level genesis m) /\
    (Z.of_nat (length (frontier_ m).2) <= kDagBlockMaxTips -> Z.of_nat (length (frontier_ m).2) + 1 <= kPbftGasLimit cfg / kDagGasLimit cfg ->
       pivotAndTipsAvailable genesis m blk = (true, [])).
Proof.
  intros Hi Hinv Hf Hsz Hok. destruct (createDagBlock_spec iter genesis block_hash cfg m trxs Hi Hinv Hf Hsz Hok (latest_level genesis m) vdf sender)
    as (blk & E & Hp & Hl & _ & _ & _ & Htips & _ & _ & _ & Hall). exists blk. split; [done|].
  destruct (frontier_facts iter genesis m (frontier_ m).1 (frontier_ m).2 Hi Hinv ltac:(by rewrite <- surjective_pairing) Hsz) as [_ Hk].
  assert (forall u, u ∈ parents blk -> u ∈ (frontier_ m).1 :: (frontier_ m).2) as Hpar.
  { unfold parents. rewrite Hp. intros u [->|Hu]%elem_of_cons; [by left|right; by apply Htips]. }
  assert (forall u b, getDagBlock genesis m u = Some b -> tip_level genesis m u = db_level b) as Hlev by (intros u b Hb; unfold tip_level; by rewrite Hb).
  assert (forall u, 0 <= tip_level genesis m u < 2 ^ 64 - 1) as Hlr.
  { intros u. unfold tip_level. rewrite (getDagBlock_effect genesis m u Hinv). destruct (blk_of genesis (dm_db m) u) as [b|] eqn:Eb; [|done]. apply (s_level _ _ _ (m_store _ _ Hinv) _ _ Eb). }
  destruct (highest_reached genesis m ltac:(intros; apply Hlr)) as (x & Hx & Ehigh).
  assert (latest_level genesis m = highest_level genesis m + 1) as Elev.
  { unfold latest_level. rewrite getProposeLevel_highest by done. apply wrap_id. unfold in_range, modulus. rewrite <- Ehigh. specialize (Hlr x). lia. }
  assert (pivotAndTipsAvailable genesis m blk = (true, []) <-> exists u, u ∈ parents blk /\ tip_level genesis m u = highest_level genesis m) as Hiff.
  { destruct (pivotAndTips_effect genesis m blk Hinv) as (ok & -> & Hiff).
    assert (filter (fun u => blk_of genesis (dm_db m) u = None) (parents blk) = []) as Hmiss.
    { apply elem_of_nil_inv. intros u [Hn Hu]%list_elem_of_filter. rewrite <- (getDagBlock_effect genesis m u Hinv) in Hn. destruct (Hk u (Hpar u Hu)). congruence. }
    rewrite Hmiss in *. split.
    - intros [= ->]. destruct (proj1 Hiff eq_refl) as (_ & _ & u & bu & Hu & Hb & Hlu). exists u. split; [done|]. rewrite <- getDagBlock_effect in Hb by done. rewrite (Hlev u bu Hb). lia.
    - intros (u & Hu & Eu). f_equal. apply Hiff. split; [done|]. destruct (Hk u (Hpar u Hu)) as [bu Hbu]. split.
      + intros v bv Hv Hbv. rewrite <- getDagBlock_effect in Hbv by done. rewrite Hl, Elev, <- (Hlev v bv Hbv).
        pose proof (foldr_max_le (tip_level genesis m) _ v (Hpar v Hv)). unfold highest_level. lia.
      + exists u, bu. rewrite <- getDagBlock_effect by done. split_and!; [done|done|]. rewrite Hl, Elev, <- Eu, (Hlev u bu Hbu). done. }
  split; [done|]. intros H1 H2. apply Hiff. exists x. split; [|done]. unfold parents. by rewrite Hp, (Hall H1 H2).
Qed.

(** ** Shards *)

Lemma partition_by_key {A} (f : A -> Z) (l : list A) n : 0 <= n -> (forall x, x ∈ l -> 0 <= f x < n) ->
  concat (map (fun k => filter (fun x => f x = k) l) (seqZ 0 n)) ≡ₚ l.
Proof.
  intros Hn. induction l as [|x l IH]; intros Hf.
  { induction (seqZ 0 n) as [|k ks IHk]; [done|]. cbn [map concat]. by rewrite IHk. }
  assert (forall ks, NoDup ks -> concat (map (fun k => filter (fun y => f y = k) (x :: l)) ks) ≡ₚ
    (if decide (f x ∈ ks) then [x] else []) ++ concat (map (fun k => filter (fun y => f y = k) l) ks)) as H.
  { clear. induction ks as [|k ks IHk]; intros Hnd; cbn [map concat]; [done|]. apply NoDup_cons in Hnd as [Hk Hnd]. rewrite IHk by done. destruct (decide (f x = k)) as [<-|Hne].
    - rewrite filter_cons_True by done. destruct (decide (f x ∈ ks)); [done|]. by rewrite decide_True by by left.
    - rewrite filter_cons_False by done. destruct (decide (f x ∈ ks)) as [Hin|Hin].
      + rewrite decide_True by by right. cbn [app]. by rewrite <- Permutation_middle.
      + rewrite decide_False; [done|]. by intros [?|?]%elem_of_cons. }
  rewrite H by apply NoDup_seqZ. rewrite decide_True; [cbn [app]; by rewrite IH by (intros; apply Hf; by right)|]. apply elem_of_seqZ. specialize (Hf x ltac:(by left)). lia.
Qed.

(** In every proposal period the shards share the packed transactions out: each transaction is in the list of exactly one
    of the shards. *)
Theorem shards_partition cfg env period limit :
  pe_syncing env = false -> 2 <= total_trx_shards_ cfg ->
  concat (map (getShardedTrxs cfg env period limit) (seqZ 0 (total_trx_shards_ cfg))) ≡ₚ pe_packTrxs env period limit.
Proof.
  intros Hs Hn. unfold getShardedTrxs. rewrite Hs. destruct (Z.eqb_spec (total_trx_shards_ cfg) 1); [lia|].
  apply (partition_by_key (fun e => trx_shard_of cfg e.1 period)); [lia|]. intros x _. unfold trx_shard_of. apply Z.mod_pos_bound. lia.
Qed.

(** ** Stale blocks *)

(** The data of a wallet after [n] attempts to propose a stale block at a level. *)
Definition stale_attempts (level : Z) (n : nat) (d : NodeDagProposerData) : NodeDagProposerData :=
  Nat.iter n (fun d => default d (stale_wait d level)) d.

Lemma stale_attempts_S level n d : stale_attempts level (S n) d = default (stale_attempts level n d) (stale_wait (stale_attempts level n d) level).
Proof. done. Qed.

Lemma stale_attempts_spec level d n : last_propose_level d <> level -> 0 <= max_num_tries d < 2 ^ 16 -> Z.of_nat n <= max_num_tries d ->
  let d' := stale_attempts level (S n) d in
  last_propose_level d' = level /\ num_tries d' = Z.of_nat n /\ max_num_tries d' = max_num_tries d.
Proof.
  intros Hl Hm. induction n as [|n IH]; intros Hn.
  - rewrite stale_attempts_S. cbn [stale_attempts Nat.iter]. unfold stale_wait. by rewrite (proj2 (Z.eqb_neq _ _)).
  - destruct IH as (I1 & I2 & I3); [lia|]. rewrite stale_attempts_S. set (d1 := stale_attempts level (S n) d) in *. unfold stale_wait. rewrite I1, Z.eqb_refl, I2, I3.
    rewrite (proj2 (Z.ltb_lt _ _)) by lia. cbn [default]. unfold count_try, id. cbn [last_propose_level num_tries max_num_tries]. split_and!; [done| |done].
    rewrite I2. rewrite wrap_id by (unfold in_range, modulus; lia). lia.
Qed.

(** A stale block is not proposed at the first attempt at its level nor at the next [max_num_tries], and is
    proposed at the one after these; a wallet of a node waits 20 to 219 attempts. *)
Theorem stale_block_waits level d n : last_propose_level d <> level -> 0 <= max_num_tries d < 2 ^ 16 ->
  Z.of_nat n <= max_num_tries d + 1 ->
  (stale_wait (stale_attempts level n d) level = None <-> Z.of_nat n = max_num_tries d + 1).
Proof.
  intros Hl Hm Hn. destruct n as [|n].
  - cbn [stale_attempts Nat.iter]. unfold stale_wait. rewrite (proj2 (Z.eqb_neq _ _)) by done. split; [done|lia].
  - destruct (stale_attempts_spec level d n Hl Hm ltac:(lia)) as (H1 & H2 & H3). unfold stale_wait. rewrite H1, Z.eqb_refl, H2, H3.
    destruct (Z.ltb_spec (Z.of_nat n) (max_num_tries d)); split; (done || lia).
Qed.

Lemma proposer_data_ranges addr sk pk shard d : 0 <= addr < 2 ^ 160 -> 0 < shard < 2 ^ 16 ->
  newNodeDagProposerData addr sk pk max_num_tries_ shard = Done d -> 20 <= max_num_tries d < 220 /\ 0 <= trx_shard d < shard.
Proof.
  intros Ha Hs. unfold newNodeDagProposerData, max_num_tries_. cbn [Z.eqb orb]. destruct (Z.eqb_spec shard 0); [lia|]. intros [= <-]. cbn [max_num_tries trx_shard].
  pose proof (Z.mod_pos_bound (addr_digits 2 addr) (10 * 20) ltac:(lia)). pose proof (Z.mod_pos_bound (addr_digits 6 addr) shard ltac:(lia)).
  rewrite !wrap_id by (unfold in_range, modulus; lia). lia.
Qed.

Lemma stale_block_waits_witness :
  exists d, newNodeDagProposerData (3 * 2 ^ 152) 5 6 20 4 = Done d /\ max_num_tries d = 23 /\
    stale_wait (stale_attempts 9 23 d) 9 <> None /\ stale_wait (stale_attempts 9 24 d) 9 = None.
Proof.
  exists (mkNodeDagProposerData (3 * 2 ^ 152) 5 6 23 0 0 0).
  split; [vm_compute; reflexivity|]. split; [reflexivity|]. split.
  - intros H. apply (stale_block_waits 9 (mkNodeDagProposerData (3 * 2 ^ 152) 5 6 23 0 0 0) 23) in H; cbn [last_propose_level max_num_tries] in *; lia.
  - apply (stale_block_waits 9 (mkNodeDagProposerData (3 * 2 ^ 152) 5 6 23 0 0 0) 24); cbn [last_propose_level max_num_tries] in *; lia.
Defined.

Definition ex_trx (h sender : Z) : Transaction := mkTransaction h sender 0 1 21000 0.
Definition ex_propose_env (trxs : list (Transaction * Z)) : ProposeEnv :=
  mkProposeEnv 1 0 false 5 (fun _ => Some 1) (fun _ => replicate 32 1) (fun _ _ => Some true) (fun _ _ => 1) (fun _ => 10) (fun _ _ => Some 6)
    (fun _ => ex_params 48000) (fun _ _ => trxs) [] no_dag no_dag.

Lemma shards_partition_witness :
  let env := ex_propose_env [(ex_trx 1 (2 ^ 120), 21000); (ex_trx 2 (2 * 2 ^ 120), 21000); (ex_trx 3 (3 * 2 ^ 120), 21000)] in
  let cfg := mkProposerConfig 2 100000 1000000 100000 0 10 in
  getShardedTrxs cfg env 1 100000 1 = [(ex_trx 1 (2 ^ 120), 21000); (ex_trx 3 (3 * 2 ^ 120), 21000)] /\
  concat (map (getShardedTrxs cfg env 1 100000) [0; 1]) ≡ₚ pe_packTrxs env 1 100000.
Proof.
  split; [vm_compute; reflexivity|]. apply (shards_partition (mkProposerConfig 2 100000 1000000 100000 0 10)); [reflexivity|simpl; lia].
Defined.

(** ** Examples *)

Definition ex_cfg : ProposerConfig := mkProposerConfig 1 100 250 100 0 1000.
Definition ex_vdf : VdfSortition := mkVdfSortition (mkVrfSortitionBase [] [] 0) ([], []) 16.
Definition ex_hash (pivot level : Z) (tips trxs : list Z) (gas : Z) (v : VdfSortition) (sender : Z) : Z := 1000 + level.
Definition ex_packed : list (Transaction * Z) := [(ex_trx 70 7, 60); (ex_trx 71 7, 40)].
Definition ex_peer : VerifyEnv :=
  mkVerifyEnv (fun _ => Some 1) (fun _ _ => []) (fun _ _ => Some 9) (fun _ _ _ => true) (fun _ _ => Some true) (fun _ => (100, 250)) (fun _ _ => 100).

Lemma ex_frontier : getFrontier elements (dag ex_manager) (anchor_ ex_manager) = Done (frontier_ ex_manager) /\ frontier_ ex_manager = (4, [5]).
Proof. split; vm_compute; reflexivity. Qed.

Lemma ex_proposal_ok : proposal_ok ex_cfg ex_genesis ex_manager ex_packed.
Proof.
  constructor.
  - simpl. lia.
  - intros e [->|[->|H%elem_of_nil]%elem_of_cons]%elem_of_cons; [simpl; lia..|done].
  - by vm_compute.
  - rewrite (proj2 ex_frontier). cbn [snd]. intros t Ht. apply list_elem_of_singleton in Ht as ->. vm_compute. discriminate.
  - by vm_compute.
Qed.

Lemma ex_small : Z.of_nat (size (pivot_tree_ (dag ex_manager))) < 2 ^ 31.
Proof. by vm_compute. Qed.

Lemma ex_created : createDagBlock ex_genesis ex_hash ex_cfg ex_manager (frontier_ ex_manager) 3 ex_packed ex_vdf 7 =
  Done (mkDagBlock 1003 4 3 [5] [70; 71] 100 7 16).
Proof. vm_compute. reflexivity. Qed.

Lemma proposed_block_verified_witness :
  exists blk, createDagBlock ex_genesis ex_hash ex_cfg ex_manager (frontier_ ex_manager) 3 ex_packed ex_vdf 7 = Done blk /\
    verifyBlock ex_genesis ex_peer ex_manager blk (trx_map ex_packed) = Done (ex_manager, (Verified, map fst ex_packed)).
Proof.
  destruct (proposed_block_verified elements ex_genesis ex_hash ex_cfg ex_peer ex_manager 3 ex_packed ex_vdf 7 1 iteration_elements (proj1 (proj1 ex_manager_ok))
    (proj1 ex_frontier) ex_small ex_proposal_ok) as (blk & E & H).
  { repeat constructor; set_solver. }
  exists blk. split; [exact E|]. apply H. rewrite ex_created in E. injection E as <-.
  split.
  - reflexivity.
  - vm_compute. discriminate.
  - exists 9. split; reflexivity.
  - reflexivity.
  - reflexivity.
  - reflexivity.
  - reflexivity.
Defined.

Lemma proposed_level_accepted_witness :
  exists blk, createDagBlock ex_genesis ex_hash ex_cfg ex_manager (frontier_ ex_manager) (latest_level ex_genesis ex_manager) ex_packed ex_vdf 7 = Done blk /\
    pivotAndTipsAvailable ex_genesis ex_manager blk = (true, []).
Proof.
  destruct (proposed_level_accepted elements ex_genesis ex_hash ex_cfg ex_manager ex_packed ex_vdf 7 iteration_elements (proj1 (proj1 ex_manager_ok))
    (proj1 ex_frontier) ex_small ex_proposal_ok) as (blk & E & _ & H).
  exists blk. split; [exact E|]. apply H; vm_compute; done.
Defined.

Lemma selected_tips_correct_witness :
  exists sel rest, selectDagBlockTips ex_genesis ex_manager [2; 3; 4; 5] 0 = Done sel /\ sel ++ rest ≡ₚ [2; 3; 4; 5] /\
    StronglySorted (preferred ex_genesis ex_manager [2; 3; 4; 5]) (sel ++ rest).
Proof.
  assert (forall t, t ∈ [2; 3; 4; 5] -> t = 2 \/ t = 3 \/ t = 4 \/ t = 5) as Hfour by set_solver.
  destruct (selected_tips_correct ex_genesis ex_manager [2; 3; 4; 5] 0) as (sel & rest & E & Hp & Hs & _).
  - repeat constructor; set_solver.
  - intros t Ht. apply Hfour in Ht as [->|[->|[->| ->]]]; vm_compute; eexists; reflexivity.
  - intros t Ht. apply Hfour in Ht as [->|[->|[->| ->]]]; vm_compute; discriminate.
  - by vm_compute.
  - lia.
  - exists sel, rest. split; [exact E|]. split; [exact Hp|exact Hs].
Defined.

(** Blocks 5, 6 and 9 on block 2, and a longer branch of fewer blocks: 8 on 7 on 3.  Blocks 6 and 8 are of one
    proposer. *)
Definition gas_block (hash pivot level gas sender : Z) : DagBlock := mkDagBlock hash pivot level [] [] gas sender hash.
Definition fork_blocks : list DagBlock :=
  [gas_block 2 1 1 10 1; gas_block 3 1 1 10 2; gas_block 5 2 2 100 3; gas_block 6 2 2 100 4; gas_block 9 2 2 100 5; gas_block 7 3 2 10 6; gas_block 8 7 3 100 4].
Definition fork_manager : DagManager := outcome_get no_dag (ex_run fork_blocks).

(** The level of a proposed block is that of the whole frontier, although the tip of the highest level may be left out of the
    block: from the frontier with pivot 5 and tips 6, 8, 9 of levels 2, 3, 2, where 6 and 8 are of one
    proposer, the block keeps the tip 9 alone; verification by a peer passes, but [addDagBlock] of the proposer refuses the block. *)
Theorem proposed_block_rejected :
  frontier_ fork_manager = (5, [9; 6; 8]) /\
  exists blk, createDagBlock ex_genesis ex_hash ex_cfg fork_manager (frontier_ fork_manager) (latest_level ex_genesis fork_manager) ex_packed ex_vdf 7 = Done blk /\
    db_tips blk = [9] /\ db_level blk = 4 /\
    verifyBlock ex_genesis ex_peer fork_manager blk (trx_map ex_packed) = Done (fork_manager, (Verified, map fst ex_packed)) /\
    addDagBlock elements ex_genesis fork_manager blk (map fst ex_packed) true true = Done (fork_manager, (false, [])).
Proof.
  split; [vm_compute; reflexivity|]. eexists. split; [vm_compute; reflexivity|]. split; [reflexivity|]. split; [reflexivity|].
  split; vm_compute; reflexivity.
Qed.

(** A tip that is no longer known makes the selection read a null pointer, although the first loop means to leave it out. *)
Theorem missing_tip_crashes : getDagBlock ex_genesis fork_manager 77 = None /\ selectDagBlockTips ex_genesis fork_manager [77] 1000 = Undefined.
Proof. split; vm_compute; reflexivity. Qed.

(** Estimations that add up to [2^31] give a block with another estimation. *)
Theorem estimation_overflows : accumulate_int [2 ^ 30; 2 ^ 30] = - 2 ^ 31 /\ u64 (accumulate_int [2 ^ 30; 2 ^ 30]) = 2 ^ 64 - 2 ^ 31.
Proof. split; vm_compute; reflexivity. Qed.

(** A configuration without shards counts as one shard, but the shard of a wallet is then a remainder by zero. *)
Theorem zero_shards_undefined : newNodeDagProposerData 5 1 1 max_num_tries_ 0 = Undefined /\
  exists c, newProposerConfig 0 100 (100, 250) 0 1000 100 = Done c /\ total_trx_shards_ c = 1.
Proof. split; [reflexivity|]. eexists. split; vm_compute; reflexivity. Qed.

(** ** What is proposed *)

(** The conditions under which an attempt passes a block to the DAG. *)
Record proposed (crypto : SortitionCrypto) (cfg : ProposerConfig) (genesis : DagBlock) (env : ProposeEnv) (m : DagManager) (d : NodeDagProposerData) (blk : DagBlock) : Prop := {
  w_pool : pe_transaction_pool_size env <> 0 /\ pe_nonfinalized_trx_size env <= kMaxNonFinalizedTransactions;
  w_level : db_level blk = latest_level genesis m /\ db_pivot blk = (frontier_ m).1;
  w_sender : db_sender blk = node_addr d;
  w_period : exists p, pe_getProposalPeriodForDagLevel env (db_level blk) = Some p /\ p <= pe_lastBlockNumber env /\
    pe_dposIsEligible env p (node_addr d) = Some true /\ (forall pk, pe_getVrfKey env p (node_addr d) = Some pk -> pk = vrf_pk d) /\
    db_trxs blk = map (fun e => trx_hash e.1) (getShardedTrxs cfg env p (kDagProposeGasLimit cfg) (trx_shard d)) /\ db_trxs blk <> [] /\
    exists total vrf_input vdf, total <> 0 /\ makeVrfInput (db_level blk) (pe_getPeriodBlockHash env p) = Ok vrf_input /\
      newVdfSortition crypto (pe_getSortitionParams env p) (vrf_secret d) vrf_input (pe_dposEligibleVoteCount env p (node_addr d)) total = Done vdf /\
      db_difficulty blk = difficulty_ vdf /\
      (isStale vdf (pe_getSortitionParams env p) = true ->
         last_propose_level d = db_level blk /\ max_num_tries d <= num_tries d /\ latest_level genesis (pe_after_sleep env) <= db_level blk);
  w_not_full : (frontier_ m).1 = anchor_ m \/ ((getNonFinalizedBlocksSize m).2 <= kMaxNonFinalizedDagBlocks /\
    ((getNonFinalizedBlocksSize m).2 <= kMaxNonFinalizedDagBlocksLowDifficulty \/ db_difficulty blk <= getNonFinalizedBlocksMinDifficulty m));
}.

Lemma dag_is_full_false m difficulty : dag_is_full m difficulty = false <->
  (frontier_ m).1 = anchor_ m \/ ((getNonFinalizedBlocksSize m).2 <= kMaxNonFinalizedDagBlocks /\
    ((getNonFinalizedBlocksSize m).2 <= kMaxNonFinalizedDagBlocksLowDifficulty \/ difficulty <= getNonFinalizedBlocksMinDifficulty m)).
Proof.
  unfold dag_is_full. destruct (Z.eqb_spec (frontier_ m).1 (anchor_ m)); [tauto|]. rewrite orb_false_iff, andb_false_iff, !Z.ltb_ge. tauto.
Qed.

Lemma proposal_votes_some cfg env d level p votes total : proposal_votes cfg env d level = Some (p, votes, total) ->
  pe_getProposalPeriodForDagLevel env level = Some p /\ p <= pe_lastBlockNumber env /\ pe_dposIsEligible env p (node_addr d) = Some true /\
  (forall pk, pe_getVrfKey env p (node_addr d) = Some pk -> pk = vrf_pk d) /\ votes = pe_dposEligibleVoteCount env p (node_addr d) /\ total <> 0.
Proof.
  unfold proposal_votes, isValidDposProposer. destruct (pe_getProposalPeriodForDagLevel env level) as [q|]; [|done].
  destruct (Z.ltb_spec (pe_lastBlockNumber env) q) as [|Hle]; [done|]. destruct (pe_dposIsEligible env q (node_addr d)) as [[]|] eqn:Ee; [|done|done]. cbn [negb].
  intros H. assert (forall pk, pe_getVrfKey env q (node_addr d) = Some pk -> pk = vrf_pk d) as Hk.
  { intros pk Hpk. rewrite Hpk in H. destruct (Z.eqb_spec pk (vrf_pk d)); [done|]. done. }
  destruct (match pe_getVrfKey env q (node_addr d) with Some pk => negb (pk =? vrf_pk d) | None => false end); [done|].
  destruct (Z.eqb_spec (if q <? magnolia_block_num cfg then pe_dposEligibleTotalVoteCount env q else kValidatorMaxVote cfg) 0); [done|]. by injection H as <- <- <-.
Qed.

Lemma createDagBlock_fields genesis block_hash cfg m frontier level trxs vdf sender blk :
  createDagBlock genesis block_hash cfg m frontier level trxs vdf sender = Done blk ->
  db_level blk = level /\ db_pivot blk = frontier.1 /\ db_sender blk = sender /\ db_trxs blk = map (fun e => trx_hash e.1) trxs /\ db_difficulty blk = difficulty_ vdf.
Proof.
  unfold createDagBlock. destruct (if kDagBlockMaxTips <? Z.of_nat (length frontier.2) then Done true else _) as [over| |]; cbn [obind]; [|done|done].
  destruct (if over then _ else _) as [tips| |]; cbn [obind]; [|done|done]. by intros [= <-].
Qed.

(** A node passes a block to its DAG only of an eligible wallet whose VRF key is not another one, at the level after the frontier,
    with the non-empty transactions of the shard of the wallet and the sortition of its votes, while the DAG is not full; and a stale block only after the configured number of
    attempts at its level and if no block came in meanwhile.  The wallet then starts over, and the block counts as proposed exactly when the DAG added it. *)
Theorem proposal_guards iter genesis crypto hash_bytes block_hash cfg env m d count r d' count' blk m' :
  proposeDagBlock iter genesis crypto hash_bytes block_hash cfg env m d count = Done (r, d', count', Some (blk, m')) ->
  proposed crypto cfg genesis env m d blk /\ r = true /\ d' = reset_tries d (db_level blk) /\
  exists added missing, addDagBlock iter genesis (pe_at_add env) blk
      (map fst (getShardedTrxs cfg env (default 0 (pe_getProposalPeriodForDagLevel env (db_level blk))) (kDagProposeGasLimit cfg) (trx_shard d))) true true = Done (m', (added, missing)) /\
    count' = if added : bool then u64 (count + 1) else count.
Proof.
  unfold proposeDagBlock. destruct (Z.eqb_spec (pe_transaction_pool_size env) 0); [done|].
  destruct (Z.ltb_spec kMaxNonFinalizedTransactions (pe_nonfinalized_trx_size env)); [done|].
  destruct (oassert _) as [[]| |]; cbn [obind]; [|done|done].
  destruct (proposal_votes cfg env d (latest_level genesis m)) as [[[p votes] total]|] eqn:Ev; [|done]. apply proposal_votes_some in Ev as (V1 & V2 & V3 & V4 & -> & V6).
  destruct (makeVrfInput _ _) as [vrf_input| |] eqn:Ei; [|done|done]. destruct (newVdfSortition _ _ _ _ _ _) as [vdf| |] eqn:En; cbn [obind]; [|done|done].
  destruct (dag_is_full m (difficulty_ vdf)) eqn:Efull; [done|]. apply dag_is_full_false in Efull.
  destruct (if isStale vdf (pe_getSortitionParams env p) then stale_wait d (latest_level genesis m) else None) as [dw|] eqn:Est; [done|].
  destruct (getShardedTrxs cfg env p (kDagProposeGasLimit cfg) (trx_shard d)) as [|t ts] eqn:Etr; [done|]. rewrite <- Etr.
  destruct (getVdfMessage _ _) as [vdf_msg| |]; [|done|done]. unfold compute_and_add. destruct (cancelled _ _ _ _); [done|].
  destruct (isStale (computeVdfSolution crypto vdf (pe_getSortitionParams env p) vdf_msg) (pe_getSortitionParams env p) && (latest_level genesis m <? latest_level genesis (pe_after_sleep env))) eqn:Esl; [done|].
  destruct (createDagBlock _ _ _ _ _ _ _ _ _) as [b| |] eqn:Ec; cbn [obind]; [|done|done].
  destruct (addDagBlock _ _ _ _ _ _ _) as [[m1 [added missing]]| |] eqn:Ea; cbn [obind]; [|done|done]. intros [= <- <- <- <- <-].
  apply createDagBlock_fields in Ec as (F1 & F2 & F3 & F4 & F5). split_and!; [|done|by rewrite F1|].
  - split; [lia|done|done| |by rewrite F5]. exists p. rewrite F1, F4, Etr. split_and!; try done. exists total, vrf_input, vdf. split_and!; try done.
    intros Hst. rewrite Hst in Est. change (isStale (computeVdfSolution crypto vdf (pe_getSortitionParams env p) vdf_msg) (pe_getSortitionParams env p)) with (isStale vdf (pe_getSortitionParams env p)) in Esl.
    rewrite Hst in Esl. cbn [andb] in Esl. unfold stale_wait in Est. destruct (Z.eqb_spec (last_propose_level d) (latest_level genesis m)); [|done].
    destruct (Z.ltb_spec (num_tries d) (max_num_tries d)); [done|]. split_and!; [done|lia|by apply Z.ltb_ge].
  - exists added, missing. rewrite F1, V1. cbn [default]. unfold id. split; [exact Ea|done].
Qed.

Lemma proposal_guards_witness :
  let env := mkProposeEnv 1 0 false 5 (fun _ => Some 1) (fun _ => replicate 32 1) (fun _ _ => Some true) (fun _ _ => 1) (fun _ => 10) (fun _ _ => Some 6)
    (fun _ => ex_params 48000) (fun _ _ => ex_packed) [] ex_manager ex_manager in
  let d := mkNodeDagProposerData 7 5 6 20 0 0 0 in
  exists r d' count blk m', proposeDagBlock elements ex_genesis ex_crypto (fun z => replicate 32 (z mod 256)) ex_hash ex_cfg env ex_manager d 0 = Done (r, d', count, Some (blk, m')) /\
    db_trxs blk = [70; 71] /\ proposed ex_crypto ex_cfg ex_genesis env ex_manager d blk.
Proof.
  intros env d. eexists _, _, _, _, _. split; [vm_compute; reflexivity|]. split; [reflexivity|].
  eapply (proposal_guards elements ex_genesis ex_crypto (fun z => replicate 32 (z mod 256)) ex_hash ex_cfg env ex_manager d 0). vm_compute. reflexivity.
Defined.
