(* ===== verification/TaraxaPeer.v ===== *)
(** * Peers

    [TaraxaPeer] (network/src/tarcap/taraxa_peer.cpp): what a node keeps about a peer, with
    the blocks, votes and transactions that the peer knows; the answers of packet handlers;
    the part of [PacketHandler] (latest/common/packet_handler.cpp) that maps exceptions to
    disconnections. *)

From S2P Require Import Prelude Votes Caches.
Local Open Scope Z_scope.
Local Open Scope outcome_scope.

Import Caches.BlockNumber.

Abbreviation known_cache := (ExpirationBlockNumberCache Z).

(** ** Data *)

Record PeerStatus := mkPeerStatus {
  syncing_ : bool;
  dag_level_ : Z;
  pbft_chain_size_ : PbftPeriod;
  pbft_period_ : PbftPeriod;
  pbft_round_ : Z;
  last_status_pbft_chain_size_ : PbftPeriod;
  peer_light_node : bool;
  peer_light_node_history : PbftPeriod;
}.

Record PeerDagSync := mkPeerDagSync {
  peer_dag_synced_ : bool;
  peer_dag_synced_time_ : Z;
  peer_dag_syncing_ : bool;
  peer_requested_dag_syncing_ : bool;
  peer_requested_dag_syncing_time_ : Z;
}.

Record PeerKnown := mkPeerKnown {
  known_dag_blocks_ : known_cache;
  known_transactions_ : known_cache;
  known_pbft_blocks_ : known_cache;
  known_votes_ : known_cache;
}.

Record TaraxaPeer := mkTaraxaPeer {
  id_ : Z;
  peer_status : PeerStatus;
  peer_sync : PeerDagSync;
  peer_known : PeerKnown;
  timestamp_suspicious_packet_ : Z;
  suspicious_packet_count_ : Z;
}.

Definition kMaxSuspiciousPacketPerMinute : Z := 50000.
Definition kDagSyncingLimit : Z := 60.

(** The initialiser of [pbft_period_] assigns 1 to [pbft_chain_size_] also. *)
Definition new_status : PeerStatus := mkPeerStatus false 0 1 1 1 0 false 0.

Definition newTaraxaPeer (id : Z) (transaction_pool_size : nat) : TaraxaPeer :=
  mkTaraxaPeer id new_status (mkPeerDagSync false 0 false false 0)
    (mkPeerKnown (newBlockNumberCache 10000 1000 10)
       (newBlockNumberCache (transaction_pool_size * 6 / 5) (transaction_pool_size / 10) 10)
       (newBlockNumberCache 10000 1000 10) (newBlockNumberCache 10000 1000 10)) 0 0.

Definition set_status (p : TaraxaPeer) (s : PeerStatus) : TaraxaPeer :=
  mkTaraxaPeer (id_ p) s (peer_sync p) (peer_known p) (timestamp_suspicious_packet_ p) (suspicious_packet_count_ p).
Definition set_dag_sync (p : TaraxaPeer) (s : PeerDagSync) : TaraxaPeer :=
  mkTaraxaPeer (id_ p) (peer_status p) s (peer_known p) (timestamp_suspicious_packet_ p) (suspicious_packet_count_ p).
Definition set_known (p : TaraxaPeer) (k : PeerKnown) : TaraxaPeer :=
  mkTaraxaPeer (id_ p) (peer_status p) (peer_sync p) k (timestamp_suspicious_packet_ p) (suspicious_packet_count_ p).

(** Assignments of the handlers. *)
Definition set_dag_level (p : TaraxaPeer) (l : Z) : TaraxaPeer :=
  let s := peer_status p in
  set_status p (mkPeerStatus (syncing_ s) l (pbft_chain_size_ s) (pbft_period_ s) (pbft_round_ s) (last_status_pbft_chain_size_ s)
    (peer_light_node s) (peer_light_node_history s)).
Definition set_chain_size (p : TaraxaPeer) (n : PbftPeriod) : TaraxaPeer :=
  let s := peer_status p in
  set_status p (mkPeerStatus (syncing_ s) (dag_level_ s) n (pbft_period_ s) (pbft_round_ s) (last_status_pbft_chain_size_ s)
    (peer_light_node s) (peer_light_node_history s)).
Definition set_syncing (p : TaraxaPeer) (b : bool) : TaraxaPeer :=
  let s := peer_status p in
  set_status p (mkPeerStatus b (dag_level_ s) (pbft_chain_size_ s) (pbft_period_ s) (pbft_round_ s) (last_status_pbft_chain_size_ s)
    (peer_light_node s) (peer_light_node_history s)).
Definition set_dag_synced (p : TaraxaPeer) (b : bool) : TaraxaPeer :=
  let s := peer_sync p in
  set_dag_sync p (mkPeerDagSync b (peer_dag_synced_time_ s) (peer_dag_syncing_ s) (peer_requested_dag_syncing_ s) (peer_requested_dag_syncing_time_ s)).
Definition set_dag_syncing (p : TaraxaPeer) (b : bool) : TaraxaPeer :=
  let s := peer_sync p in
  set_dag_sync p (mkPeerDagSync (peer_dag_synced_ s) (peer_dag_synced_time_ s) b (peer_requested_dag_syncing_ s) (peer_requested_dag_syncing_time_ s)).
Definition set_dag_synced_at (p : TaraxaPeer) (now : Z) : TaraxaPeer :=
  let s := peer_sync p in
  set_dag_sync p (mkPeerDagSync true now false (peer_requested_dag_syncing_ s) (peer_requested_dag_syncing_time_ s)).
Definition set_requested_at (p : TaraxaPeer) (now : Z) : TaraxaPeer :=
  let s := peer_sync p in
  set_dag_sync p (mkPeerDagSync (peer_dag_synced_ s) (peer_dag_synced_time_ s) (peer_dag_syncing_ s) true now).

(** ** Operations *)

Definition markDagBlockAsKnown (p : TaraxaPeer) (hash : Z) : outcome (TaraxaPeer * bool) :=
  let k := peer_known p in
  let* (c, r) := bn_insert (known_dag_blocks_ k) hash (pbft_chain_size_ (peer_status p)) in
  Done (set_known p (mkPeerKnown c (known_transactions_ k) (known_pbft_blocks_ k) (known_votes_ k)), r).
Definition isDagBlockKnown (p : TaraxaPeer) (hash : Z) : bool := bool_decide (hash ∈ cache_ (known_dag_blocks_ (peer_known p))).

Definition markTransactionAsKnown (p : TaraxaPeer) (hash : Z) : outcome (TaraxaPeer * bool) :=
  let k := peer_known p in
  let* (c, r) := bn_insert (known_transactions_ k) hash (pbft_chain_size_ (peer_status p)) in
  Done (set_known p (mkPeerKnown (known_dag_blocks_ k) c (known_pbft_blocks_ k) (known_votes_ k)), r).
Definition isTransactionKnown (p : TaraxaPeer) (hash : Z) : bool := bool_decide (hash ∈ cache_ (known_transactions_ (peer_known p))).

Definition markPbftBlockAsKnown (p : TaraxaPeer) (hash : Z) : outcome (TaraxaPeer * bool) :=
  let k := peer_known p in
  let* (c, r) := bn_insert (known_pbft_blocks_ k) hash (pbft_chain_size_ (peer_status p)) in
  Done (set_known p (mkPeerKnown (known_dag_blocks_ k) (known_transactions_ k) c (known_votes_ k)), r).
Definition isPbftBlockKnown (p : TaraxaPeer) (hash : Z) : bool := bool_decide (hash ∈ cache_ (known_pbft_blocks_ (peer_known p))).

Definition markPbftVoteAsKnown (p : TaraxaPeer) (hash : Z) : outcome (TaraxaPeer * bool) :=
  let k := peer_known p in
  let* (c, r) := bn_insert (known_votes_ k) hash (pbft_chain_size_ (peer_status p)) in
  Done (set_known p (mkPeerKnown (known_dag_blocks_ k) (known_transactions_ k) (known_pbft_blocks_ k) c), r).
Definition isPbftVoteKnown (p : TaraxaPeer) (hash : Z) : bool := bool_decide (hash ∈ cache_ (known_votes_ (peer_known p))).

(** [now] in minutes. *)
Definition reportSuspiciousPacket (p : TaraxaPeer) (now : Z) : TaraxaPeer * bool :=
  let '(count, time) :=
    if timestamp_suspicious_packet_ p <? now then (1, now) else (u64 (suspicious_packet_count_ p + 1), timestamp_suspicious_packet_ p) in
  (mkTaraxaPeer (id_ p) (peer_status p) (peer_sync p) (peer_known p) time count, kMaxSuspiciousPacketPerMinute <? count).

(** [now] in seconds; the difference of a signed count and an unsigned time is unsigned. *)
Definition dagSyncingAllowed (p : TaraxaPeer) (now : Z) : bool :=
  negb (peer_dag_synced_ (peer_sync p)) || (kDagSyncingLimit <? u64 (now - peer_dag_synced_time_ (peer_sync p))).
Definition requestDagSyncingAllowed (p : TaraxaPeer) (now : Z) : bool :=
  negb (peer_requested_dag_syncing_ (peer_sync p)) || (kDagSyncingLimit <? u64 (now - peer_requested_dag_syncing_time_ (peer_sync p))).

Definition resetKnownCaches (p : TaraxaPeer) : TaraxaPeer :=
  let k := peer_known p in
  set_known p (mkPeerKnown (bn_clear (known_dag_blocks_ k)) (bn_clear (known_transactions_ k)) (bn_clear (known_pbft_blocks_ k)) (bn_clear (known_votes_ k))).

(** ** Exceptions of handlers *)

Inductive PacketException :=
| MaliciousPeer          (* MaliciousPeerException without a peer of its own *)
| MaliciousOther (peer : Z)
| PacketProcessing       (* such as a wrong number of items *)
| RlpError
| OtherException.

(** Who is disconnected by [processPacket], and whether the peer is marked as malicious. *)
Definition handle_exception (e : PacketException) (sender : Z) : Z * bool :=
  match e with
  | MaliciousPeer => (sender, true)
  | MaliciousOther peer => (peer, true)
  | PacketProcessing => (sender, true)
  | RlpError => (sender, true)
  | OtherException => (sender, false)
  end.

(** ** The caches of known hashes *)

(** The queue has the keys of the cache, once each; sizes are those of a constructed cache. *)
Record known_ok (c : known_cache) : Prop := {
  ko_nodup : NoDup (block_expiration_ c).*1;
  ko_keys : forall k, k ∈ cache_ c <-> k ∈ (block_expiration_ c).*1;
  ko_bound : (size (cache_ c) <= kMaxSize c)%nat;
  ko_step : (1 <= kDeleteStep c <= kMaxSize c)%nat;
}.

Lemma known_ok_new max_size step keep : (1 <= step <= max_size)%nat -> known_ok (newBlockNumberCache max_size step keep).
Proof. intros Hs. split; [apply NoDup_nil_2|intros k; simpl; set_solver|apply Nat.le_0_l|done]. Qed.

(** The size of a cache is the length of its queue. *)
Lemma keys_size (cache : gset Z) (l : list Z) : NoDup l -> (forall k, k ∈ cache <-> k ∈ l) -> size cache = length l.
Proof.
  intros Hnd Hk. rewrite <- (size_list_to_set (C := gset Z)) by done. f_equal. apply set_eq. intros k. by rewrite Hk, elem_of_list_to_set.
Qed.

(** Expiration leaves a new key, which is not in the queue yet. *)
Lemma expire_keys keep number (key : Z) exp : NoDup exp.*1 -> key ∉ exp.*1 -> forall cache, (forall k, k ∈ cache <-> k = key \/ k ∈ exp.*1) ->
  let '(cache', exp') := expire keep number cache exp in
  NoDup exp'.*1 /\ (forall k, k ∈ cache' <-> k = key \/ k ∈ exp'.*1) /\ exp' `suffix_of` exp.
Proof.
  induction exp as [|[k n] exp IH]; intros Hnd Hke cache Hc; cbn [expire]; [by split_and!|]. destruct ((keep <? number) && (n <? number - keep)); [|by split_and!].
  rewrite fmap_cons in Hnd, Hke, Hc. apply NoDup_cons in Hnd as [Hnk Hnd]. apply not_elem_of_cons in Hke as [Hne Hke]. specialize (IH Hnd Hke (cache ∖ {[k]})).
  assert (forall x, x ∈ cache ∖ {[k]} <-> x = key \/ x ∈ exp.*1) as Hc'.
  { intros x. rewrite elem_of_difference, elem_of_singleton, Hc, elem_of_cons. simpl in *. split; [tauto|]. intros [->|Hx]; [split; [by left|done]|]. split; [by right; right|]. by intros ->. }
  specialize (IH Hc'). destruct (expire keep number (cache ∖ {[k]}) exp) as [cache' exp']. destruct IH as (I1 & I2 & I3). split_and!; [done|done|by apply suffix_cons_r].
Qed.

Lemma bn_evict_keys n : forall (cache : gset Z) exp, (n <= length exp)%nat -> NoDup exp.*1 -> (forall k, k ∈ cache <-> k ∈ exp.*1) ->
  exists cache', bn_evict n cache exp = Done (cache', drop n exp) /\ forall k, k ∈ cache' <-> k ∈ (drop n exp).*1.
Proof.
  induction n as [|n IH]; intros cache exp Hl Hnd Hk; cbn [bn_evict]; [exists cache; by rewrite drop_0|].
  destruct exp as [|[k m] exp]; [simpl in Hl; lia|]. rewrite fmap_cons in Hnd, Hk. apply NoDup_cons in Hnd as [Hnk Hnd]. simpl in Hl.
  destruct (IH (cache ∖ {[k]}) exp) as (cache' & E & Hc); [lia|done| |by exists cache'].
  intros x. rewrite elem_of_difference, elem_of_singleton, Hk, elem_of_cons. simpl in *. split; [tauto|]. intros Hx. split; [by right|]. by intros ->.
Qed.

(** An insertion is always defined and the key is known afterwards, whatever the block number. *)
Lemma bn_insert_total (c : known_cache) key number : known_ok c ->
  exists c' r, bn_insert c key number = Done (c', r) /\ known_ok c' /\ key ∈ cache_ c' /\ kMaxSize c' = kMaxSize c.
Proof.
  intros [Hnd Hk Hb Hs]. unfold bn_insert. case_decide as Hin; [exists c, false; split_and!; [done|by split|done|done]|].
  assert (exists last cache0 exp0, (if last_block_number_ c <? number then (number, expire (kBlocksToKeep c) number ({[key]} ∪ cache_ c) (block_expiration_ c))
    else (last_block_number_ c, ({[key]} ∪ cache_ c, block_expiration_ c))) = (last, (cache0, exp0)) /\
    NoDup exp0.*1 /\ (forall k, k ∈ cache0 <-> k = key \/ k ∈ exp0.*1) /\ key ∉ exp0.*1 /\ (length exp0 <= length (block_expiration_ c))%nat) as (last & cache0 & exp0 & -> & N0 & K0 & Kn & L0).
  { assert (key ∉ (block_expiration_ c).*1) as Hke by (by rewrite <- Hk). destruct (last_block_number_ c <? number); [|do 3 eexists; split; [done|]; split_and!; [done| |done|done]].
    - pose proof (expire_keys (kBlocksToKeep c) number key (block_expiration_ c) Hnd Hke ({[key]} ∪ cache_ c)) as He.
      destruct (expire _ _ ({[key]} ∪ cache_ c) (block_expiration_ c)) as [cache' exp'].
      destruct He as (I1 & I2 & I3); [intros k; by rewrite elem_of_union, elem_of_singleton, Hk|]. do 3 eexists. split; [done|]. split_and!; [done|done| |by apply suffix_length].
      destruct I3 as [l Hl]. rewrite Hl, fmap_app in Hke. by apply not_elem_of_app in Hke as [_ ?].
    - intros k. by rewrite elem_of_union, elem_of_singleton, Hk. }
  set (exp := exp0 ++ [(key, number)]). assert (NoDup exp.*1) as Hnd1.
  { unfold exp. rewrite fmap_app. apply NoDup_app. split_and!; [done| |by apply NoDup_singleton]. intros x Hx ->%list_elem_of_singleton. done. }
  assert (forall k, k ∈ cache0 <-> k ∈ exp.*1) as Hk1 by (intros k; unfold exp; rewrite fmap_app, elem_of_app, K0; simpl; rewrite list_elem_of_singleton; tauto).
  pose proof (keys_size _ _ Hnd1 Hk1) as Hsz. rewrite length_fmap in Hsz. pose proof (keys_size _ _ Hnd Hk) as Hsz0. rewrite length_fmap in Hsz0.
  assert (length exp = S (length exp0)) as Hle by (unfold exp; rewrite length_app; simpl; lia).
  case_bool_decide as Hfull; cbn [obind].
  - destruct (bn_evict_keys (kDeleteStep c) cache0 exp) as (cache1 & -> & Hc1); [lia|done|done|]. cbn [obind]. do 2 eexists. split; [done|].
    assert (NoDup (drop (kDeleteStep c) exp).*1) as Hnd2 by (rewrite fmap_drop; rewrite <- (take_drop (kDeleteStep c) exp.*1) in Hnd1; by apply NoDup_app in Hnd1 as (_ & _ & ?)).
    split_and!; [|cbn|done].
    + split; cbn; [done|done| |done]. rewrite (keys_size _ _ Hnd2 Hc1), length_fmap, length_drop. lia.
    + apply Hc1. apply list_elem_of_fmap. exists (key, number). split; [done|]. apply list_elem_of_lookup. exists (length exp0 - kDeleteStep c)%nat.
      rewrite lookup_drop. unfold exp. rewrite lookup_app_r by lia. by replace (_ - _)%nat with 0%nat by lia.
  - do 2 eexists. split; [done|]. split_and!; [split; cbn; [done|done|lia|done]| |done]. cbn. apply K0. by left.
Qed.
