(* ===== verification/TransactionGossip.v ===== *)
(** * Gossip of transactions

    [ITransactionPacketHandler] (packets_handlers/interface/transaction_packet_handler.cpp):
    which transactions of the pool, and which hashes of further ones, are sent to which
    peer; [TransactionPacketHandler] (latest/transaction_packet_handler.cpp): what is
    done with a received packet. *)

From S2P Require Import Prelude Votes Caches TransactionQueue TransactionPool TransactionOrder TransactionQueueOps TransactionManager TransactionManagerInv TransactionManagerSteps TaraxaPeer.
Local Open Scope Z_scope.
Local Open Scope outcome_scope.

(** ** Data *)

Definition kMaxTransactionsInPacket : Z := 500.
Definition kMaxHashesInPacket : Z := 5000.
Definition kMaxTransactionsSizeInPacket : Z := 500000.

Record TransactionPacket := mkTransactionPacket {
  tp_transactions : list Transaction;
  tp_extra_transactions_hashes : list trx_hash_t;
}.

(** ** Choice *)

(** [result], [trx_max_reached] and [next_peer_account_index]. *)
Record Choice := mkChoice {
  c_first : list Transaction;
  c_second : list trx_hash_t;
  trx_max_reached : bool;
  next_peer_account_index : Z;
}.

Definition next_account (accounts_size account : Z) : Z := u32 (account + 1) mod accounts_size.

(** The transactions of one account; the answer tells whether the function returned. *)
Fixpoint account_loop (peer : TaraxaPeer) (accounts_size account_iterator : Z) (trxs : list Transaction) (c : Choice) : Choice * bool :=
  match trxs with
  | [] => (c, false)
  | trx :: rest =>
      if TaraxaPeer.isTransactionKnown peer (trx_hash trx) then account_loop peer accounts_size account_iterator rest c
      else if trx_max_reached c then
        let c := mkChoice (c_first c) (c_second c ++ [trx_hash trx]) (trx_max_reached c) (next_peer_account_index c) in
        if Z.of_nat (length (c_second c)) =? kMaxHashesInPacket then (c, true)
        else account_loop peer accounts_size account_iterator rest c
      else
        let first := c_first c ++ [trx] in
        let c := if Z.of_nat (length first) =? kMaxTransactionsInPacket
                 then mkChoice first (c_second c) true (next_account accounts_size account_iterator)
                 else mkChoice first (c_second c) false (next_peer_account_index c) in
        account_loop peer accounts_size account_iterator rest c
  end.

(** One round over the accounts is enough fuel. *)
Fixpoint accounts_loop (fuel : nat) (peer : TaraxaPeer) (transactions : list (list Transaction)) (account_start_index account_iterator : Z) (c : Choice) :
    outcome Choice :=
  match fuel with
  | O => Undefined
  | S fuel =>
      match transactions !! Z.to_nat account_iterator with
      | None => Undefined
      | Some account =>
          let accounts_size := Z.of_nat (length transactions) in
          let (c, returned) := account_loop peer accounts_size account_iterator account c in
          if returned : bool then Done c
          else
            let account_iterator := next_account accounts_size account_iterator in
            if account_iterator =? account_start_index then Done c
            else accounts_loop fuel peer transactions account_start_index account_iterator c
      end
  end.

Definition transactionsToSendToPeer (peer : TaraxaPeer) (transactions : list (list Transaction)) (account_start_index : Z) :
    outcome (Z * TransactionPacket) :=
  let accounts_size := Z.of_nat (length transactions) in
  let* c := accounts_loop (length transactions) peer transactions account_start_index account_start_index
              (mkChoice [] [] false (next_account accounts_size account_start_index)) in
  Done (next_peer_account_index c, mkTransactionPacket (c_first c) (c_second c)).

(** [peers] is the order in which the map of the peers is visited. *)
Fixpoint peers_loop (transactions : list (list Transaction)) (peers : list TaraxaPeer) (account_index : Z) :
    outcome (list (TaraxaPeer * TransactionPacket)) :=
  match peers with
  | [] => Done []
  | peer :: rest =>
      if syncing_ (peer_status peer) then peers_loop transactions rest account_index
      else
        let* (account_index, packet) := transactionsToSendToPeer peer transactions account_index in
        let* l := peers_loop transactions rest account_index in
        Done (match tp_transactions packet with [] => l | _ :: _ => (peer, packet) :: l end)
  end.

Definition transactionsToSendToPeers (transactions : list (list Transaction)) (peers : list TaraxaPeer) :
    outcome (list (TaraxaPeer * TransactionPacket)) :=
  match transactions with
  | [] => Done []
  | _ :: _ => peers_loop transactions peers 0
  end.

(** The packets in the order they are sent; [random] is the answer of [rand]. *)
Definition periodicSendTransactions (transactions : list (list Transaction)) (peers : list TaraxaPeer) (random : nat) :
    outcome (list (TaraxaPeer * TransactionPacket)) :=
  let* l := transactionsToSendToPeers transactions peers in
  let start_with := (random mod length l)%nat in
  Done (drop start_with l ++ take start_with l).

Definition mark_transactions (peer : TaraxaPeer) (hashes : list trx_hash_t) : outcome TaraxaPeer :=
  ofold (fun p h => let* (p, _) := markTransactionAsKnown p h in Done p) hashes peer.

(** [sent] is the answer of [sealAndSend]. *)
Definition sendTransactions (peer : TaraxaPeer) (packet : TransactionPacket) (sent : bool) : outcome TaraxaPeer :=
  if sent then mark_transactions peer (map trx_hash (tp_transactions packet)) else Done peer.

(** ** A received packet *)

Section receive.
Context (cfg : TrxConfig) (iterate : gmap addr_t (gmap Z Transaction) -> list (addr_t * gmap Z Transaction)).
Context (env : TrxEnv) (minute : Z).

Fixpoint receive_loop (trxs : list Transaction) (peer : TaraxaPeer) (m : TransactionManager) (data_size : Z) :
    outcome (TaraxaPeer * TransactionManager * Z * option PacketException) :=
  match trxs with
  | [] => Done (peer, m, data_size, None)
  | t :: rest =>
      let data_size := u64 (data_size + trx_data_size t) in
      let* (peer, _) := markTransactionAsKnown peer (trx_hash t) in
      if TransactionQueue.isTransactionKnown (transactions_pool_ m) (trx_hash t) then receive_loop rest peer m data_size
      else
        match verifyTransaction cfg env t with
        | Some _ => Done (peer, m, data_size, Some MaliciousPeer)
        | None =>
            let* (m, status) := insertValidatedTransaction cfg iterate env m t true in
            if bool_decide (status = Overflow) then
              let (peer, suspicious) := reportSuspiciousPacket peer minute in
              if suspicious && nonProposableTransactionsOverTheLimit (transactions_pool_ m) then Done (peer, m, data_size, Some MaliciousPeer)
              else receive_loop rest peer m data_size
            else receive_loop rest peer m data_size
        end
  end.

(** [kMaxTransactionsSizeInPacket * 1.3] is 650000. *)
Definition processTransactionPacket (peer : TaraxaPeer) (m : TransactionManager) (packet : TransactionPacket) :
    outcome (TaraxaPeer * TransactionManager * option PacketException) :=
  if kMaxTransactionsInPacket <? Z.of_nat (length (tp_transactions packet)) then Done (peer, m, Some PacketProcessing)
  else if kMaxHashesInPacket <? Z.of_nat (length (tp_extra_transactions_hashes packet)) then Done (peer, m, Some PacketProcessing)
  else
    let* peer := mark_transactions peer (tp_extra_transactions_hashes packet) in
    let* (peer, m, data_size, e) := receive_loop (tp_transactions packet) peer m 0 in
    match e with
    | Some e => Done (peer, m, Some e)
    | None => Done (peer, m, if kMaxTransactionsSizeInPacket * 13 / 10 <? data_size then Some MaliciousPeer else None)
    end.
End receive.

(** ** What is chosen *)

(** The transactions that the peer does not know, from the account [start] on. *)
Definition unknown_to (peer : TaraxaPeer) (l : list Transaction) : list Transaction :=
  filter (fun t => TaraxaPeer.isTransactionKnown peer (trx_hash t) = false) l.
Definition offered (peer : TaraxaPeer) (transactions : list (list Transaction)) (start : Z) : list Transaction :=
  concat (map (unknown_to peer) (drop (Z.to_nat start) transactions ++ take (Z.to_nat start) transactions)).

Abbreviation max_trxs := (Z.to_nat kMaxTransactionsInPacket).
Abbreviation max_hashes := (Z.to_nat kMaxHashesInPacket).

(** A choice that saw the transactions [l]. *)
Record chose (n : Z) (l : list Transaction) (c : Choice) : Prop := {
  ch_first : c_first c = take max_trxs l;
  ch_second : c_second c = map trx_hash (take max_hashes (drop max_trxs l));
  ch_max : trx_max_reached c = bool_decide (max_trxs <= length l)%nat;
  ch_next : 0 <= next_peer_account_index c < n;
}.

Lemma next_account_range n i : 0 < n -> 0 <= next_account n i < n.
Proof. intros Hn. by apply Z.mod_pos_bound. Qed.

(** One more transaction. *)
Lemma chose_more n l c t i : 0 < n -> chose n l c -> (length l < max_trxs + max_hashes)%nat ->
  let c' := if trx_max_reached c then mkChoice (c_first c) (c_second c ++ [trx_hash t]) true (next_peer_account_index c)
    else if Z.of_nat (length (c_first c ++ [t])) =? kMaxTransactionsInPacket then mkChoice (c_first c ++ [t]) (c_second c) true (next_account n i)
    else mkChoice (c_first c ++ [t]) (c_second c) false (next_peer_account_index c) in
  chose n (l ++ [t]) c' /\ (trx_max_reached c = true -> (Z.of_nat (length (c_second c')) =? kMaxHashesInPacket) = bool_decide (max_trxs + max_hashes <= length (l ++ [t]))%nat) /\
  (trx_max_reached c = false -> (length (l ++ [t]) < max_trxs + max_hashes)%nat).
Proof.
  intros Hn [H1 H2 H3 H4] Hl. assert (length (l ++ [t]) = S (length l)) as Hlen by (rewrite length_app; simpl; lia).
  assert (Z.of_nat max_trxs = kMaxTransactionsInPacket /\ Z.of_nat max_hashes = kMaxHashesInPacket) as [Et Eh] by done. assert (0 < kMaxHashesInPacket) as H0 by done. rewrite H3. case_bool_decide as Hb; cbv zeta.
  - split_and!; [|intros _|done].
    + split; cbn [c_first c_second trx_max_reached next_peer_account_index]; [by rewrite take_app_le, H1 by lia| |by rewrite bool_decide_true by lia|done].
      rewrite drop_app_le by lia. rewrite H2, !firstn_all2 by (rewrite ?length_app, length_drop; simpl; lia). by rewrite map_app.
    + cbn [c_second]. rewrite H2, length_app, length_map, length_take, length_drop. cbn [length]. case_bool_decide; [apply Z.eqb_eq|apply Z.eqb_neq]; lia.
  - assert (c_first c ++ [t] = l ++ [t]) as E1 by (rewrite H1, firstn_all2 by lia; done).
    assert (c_second c = []) as E2 by (rewrite H2, drop_ge by lia; by rewrite take_nil).
    rewrite E1. split_and!; [|done|intros _; lia]. destruct (Z.eqb_spec (Z.of_nat (length (l ++ [t]))) kMaxTransactionsInPacket) as [Ek|Ek].
    + split; cbn [c_first c_second trx_max_reached next_peer_account_index]; [by rewrite firstn_all2 by lia|by rewrite E2, drop_ge, take_nil by lia|by rewrite bool_decide_true by lia|by apply next_account_range].
    + split; cbn [c_first c_second trx_max_reached next_peer_account_index]; [by rewrite firstn_all2 by lia|by rewrite E2, drop_ge, take_nil by lia|by rewrite bool_decide_false by lia|done].
Qed.

(** The result does not change any more once all places are taken. *)
Lemma chose_full n l l' c : chose n l c -> (max_trxs + max_hashes <= length l)%nat -> chose n (l ++ l') c.
Proof.
  intros [H1 H2 H3 H4] Hl. split; [by rewrite take_app_le by lia| |rewrite H3; rewrite !bool_decide_true by (rewrite ?length_app; lia); done|done].
  rewrite drop_app_le, take_app_le by (rewrite ?length_drop; lia). done.
Qed.

Lemma account_loop_spec peer n i trxs : 0 < n -> forall l c, chose n l c -> (length l < max_trxs + max_hashes)%nat ->
  let '(c', returned) := account_loop peer n i trxs c in
  chose n (l ++ unknown_to peer trxs) c' /\
  (returned = false -> (length (l ++ unknown_to peer trxs) < max_trxs + max_hashes)%nat) /\
  (returned = true -> (max_trxs + max_hashes <= length (l ++ unknown_to peer trxs))%nat).
Proof.
  intros Hn. induction trxs as [|t trxs IH]; intros l c Hc Hl; cbn [account_loop]; unfold unknown_to in *.
  { rewrite app_nil_r. by split_and!. }
  destruct (TaraxaPeer.isTransactionKnown peer (trx_hash t)) eqn:Ek.
  { rewrite filter_cons_False by congruence. by apply IH. }
  rewrite filter_cons_True by done. pose proof (chose_more n l c t i Hn Hc Hl) as (Hm & Ht & Hf). cbv zeta in Hm, Ht.
  destruct (trx_max_reached c) eqn:Em.
  - specialize (Ht eq_refl). cbn [c_second] in Ht |- *. rewrite Ht. case_bool_decide as Hfull.
    + split_and!; [|done|intros _; rewrite length_app in Hfull |- *; simpl in *; lia]. rewrite (cons_middle t l). rewrite app_assoc. by apply chose_full.
    + specialize (IH (l ++ [t]) _ Hm ltac:(lia)). rewrite <- (app_assoc l [t]) in IH. exact IH.
  - specialize (Hf eq_refl). destruct (Z.of_nat (length (c_first c ++ [t])) =? kMaxTransactionsInPacket); specialize (IH (l ++ [t]) _ Hm Hf); rewrite <- (app_assoc l [t]) in IH; exact IH.
Qed.

(** The accounts from [start] on, the first [i] of them. *)
Definition rotated (transactions : list (list Transaction)) (start : Z) : list (list Transaction) :=
  drop (Z.to_nat start) transactions ++ take (Z.to_nat start) transactions.

Lemma rotated_lookup transactions start i : 0 <= start < Z.of_nat (length transactions) -> (i < length transactions)%nat ->
  rotated transactions start !! i = transactions !! Z.to_nat ((start + Z.of_nat i) mod Z.of_nat (length transactions)).
Proof.
  intros Hs Hi. unfold rotated. destruct (Nat.lt_ge_cases i (length transactions - Z.to_nat start)) as [Hlt|Hge].
  - rewrite lookup_app_l by (rewrite length_drop; lia). rewrite lookup_drop, Z.mod_small by lia. f_equal. lia.
  - rewrite lookup_app_r by (rewrite length_drop; lia). rewrite length_drop, lookup_take_lt by lia. f_equal.
    rewrite (Z.mod_eq _ (Z.of_nat (length transactions))) by lia. assert ((start + Z.of_nat i) / Z.of_nat (length transactions) = 1) as ->; [|lia].
    symmetry. apply (Z.div_unique _ _ 1 (start + Z.of_nat i - Z.of_nat (length transactions))); lia.
Qed.

Section choice.
Context (peer : TaraxaPeer) (transactions : list (list Transaction)) (start : Z).
Context (Hs : 0 <= start < Z.of_nat (length transactions)) (Hn : Z.of_nat (length transactions) < 2 ^ 32).
Let n := Z.of_nat (length transactions).

Lemma next_rotated i : (i < length transactions)%nat -> next_account n ((start + Z.of_nat i) mod n) = (start + Z.of_nat (S i)) mod n.
Proof using Hs Hn.
  intros Hi. unfold next_account. assert (0 <= (start + Z.of_nat i) mod n < n) by (apply Z.mod_pos_bound; unfold n; lia).
  rewrite wrap_id by (unfold in_range, modulus, n in *; lia). rewrite Zplus_mod_idemp_l. f_equal. lia.
Qed.

Lemma accounts_loop_spec k : forall i c, (i + k = length transactions)%nat -> (0 < k)%nat ->
  chose n (concat (map (unknown_to peer) (take i (rotated transactions start)))) c ->
  (length (concat (map (unknown_to peer) (take i (rotated transactions start)))) < max_trxs + max_hashes)%nat ->
  exists c', accounts_loop k peer transactions start ((start + Z.of_nat i) mod n) c = Done c' /\
    chose n (concat (map (unknown_to peer) (rotated transactions start))) c'.
Proof using Hs Hn.
  induction k as [|k IH]; intros i c Hik Hk Hc Hl; [lia|]. cbn [accounts_loop].
  assert (i < length transactions)%nat as Hi by lia. assert (0 < n) as Hn0 by (unfold n; lia).
  assert (length (rotated transactions start) = length transactions) as Hlen by (unfold rotated; rewrite length_app, length_drop, length_take; lia).
  pose proof (rotated_lookup transactions start i Hs Hi) as Hr. fold n in Hr. destruct (lookup_lt_is_Some_2 (rotated transactions start) i ltac:(lia)) as [acc Ha].
  rewrite <- Hr, Ha. fold n. pose proof (account_loop_spec peer n ((start + Z.of_nat i) mod n) acc Hn0 _ _ Hc Hl) as Hacc.
  destruct (account_loop peer n ((start + Z.of_nat i) mod n) acc c) as [c1 returned].
  assert (concat (map (unknown_to peer) (take i (rotated transactions start))) ++ unknown_to peer acc = concat (map (unknown_to peer) (take (S i) (rotated transactions start)))) as Etake.
  { rewrite (take_S_r _ _ _ Ha), map_app, concat_app. cbn [map concat]. by rewrite app_nil_r. }
  rewrite Etake in Hacc. destruct Hacc as (Hc1 & Hnot & Hret). destruct returned.
  - exists c1. split; [done|]. rewrite <- (take_drop (S i) (rotated transactions start)), map_app, concat_app. apply chose_full; [done|by apply Hret].
  - rewrite next_rotated by done. destruct (Z.eqb_spec ((start + Z.of_nat (S i)) mod n) start) as [Ez|Ez].
    + exists c1. split; [done|]. assert (S i = length transactions) as Hend.
      { destruct (Nat.eq_dec (S i) (length transactions)) as [|Hne]; [done|]. exfalso.
        destruct (Z.lt_ge_cases (start + Z.of_nat (S i)) n) as [Hlt|Hge]; [rewrite Z.mod_small in Ez by lia; lia|].
        rewrite (Z.mod_eq _ n) in Ez by lia. assert ((start + Z.of_nat (S i)) / n = 1) as E1; [|unfold n in *; lia].
        symmetry. apply (Z.div_unique _ _ 1 (start + Z.of_nat (S i) - n)); unfold n in *; lia. }
      by rewrite firstn_all2 in Hc1 by lia.
    + destruct k as [|k].
      * exfalso. apply Ez. replace (Z.of_nat (S i)) with n by (unfold n; lia). rewrite Z.add_comm, <- Zplus_mod_idemp_l, Z.mod_same, Z.add_0_l by lia. by apply Z.mod_small.
      * apply (IH (S i) c1); [lia|lia|done|by apply Hnot].
Qed.
End choice.

(** The choice for a peer, in terms of the transactions it does not know. *)
Lemma choice_spec peer transactions start : 0 <= start < Z.of_nat (length transactions) -> Z.of_nat (length transactions) < 2 ^ 32 ->
  exists next, transactionsToSendToPeer peer transactions start =
      Done (next, mkTransactionPacket (take max_trxs (offered peer transactions start))
                    (map trx_hash (take max_hashes (drop max_trxs (offered peer transactions start))))) /\
    0 <= next < Z.of_nat (length transactions).
Proof.
  intros Hs Hn. unfold transactionsToSendToPeer. set (n := Z.of_nat (length transactions)) in *.
  destruct (accounts_loop_spec peer transactions start Hs Hn (length transactions) 0 (mkChoice [] [] false (next_account n start))) as (c & E & [H1 H2 _ H4]).
  - lia.
  - lia.
  - rewrite take_0. cbn [map concat]. assert (0 < kMaxTransactionsInPacket) by done. split; cbn [c_first c_second trx_max_reached next_peer_account_index]; [by rewrite take_nil|by rewrite drop_nil, take_nil|by rewrite bool_decide_false by (cbn [length]; lia)|apply next_account_range; lia].
  - rewrite take_0. cbn [map concat length]. assert (0 < kMaxTransactionsInPacket) by done. lia.
  - fold n in E. rewrite Z.add_0_r, Z.mod_small in E by lia. rewrite E. cbn [obind]. exists (next_peer_account_index c). split; [|done]. by rewrite H1, H2.
Qed.

Lemma offered_elem peer transactions start t : t ∈ offered peer transactions start -> TaraxaPeer.isTransactionKnown peer (trx_hash t) = false.
Proof.
  unfold offered. intros (l & Hin & Hl)%list_elem_of_In%in_concat. apply in_map_iff in Hin as (acc & <- & _). apply list_elem_of_In in Hl.
  unfold unknown_to in Hl. by apply list_elem_of_filter in Hl as [? _].
Qed.

(** The transactions of an account are next to each other in the order of the choice. *)
Lemma offered_account peer transactions start account : 0 <= start -> account ∈ transactions ->
  exists before behind, offered peer transactions start = before ++ unknown_to peer account ++ behind.
Proof.
  intros Hs Ha. unfold offered. assert (account ∈ drop (Z.to_nat start) transactions ++ take (Z.to_nat start) transactions) as Hin.
  { apply elem_of_app. rewrite <- (take_drop (Z.to_nat start) transactions) in Ha. apply elem_of_app in Ha. tauto. }
  apply list_elem_of_split in Hin as (l1 & l2 & ->). exists (concat (map (unknown_to peer) l1)), (concat (map (unknown_to peer) l2)).
  rewrite map_app, concat_app. cbn [map concat]. done.
Qed.

Lemma unknown_nodup peer transactions start : NoDup (concat transactions) -> NoDup (offered peer transactions start).
Proof.
  intros Hnd. assert (concat (drop (Z.to_nat start) transactions ++ take (Z.to_nat start) transactions) ≡ₚ concat transactions) as Hp.
  { rewrite concat_app, Permutation_app_comm, <- concat_app. by rewrite take_drop. }
  rewrite <- Hp in Hnd. unfold offered. assert (forall l, concat (map (unknown_to peer) l) = unknown_to peer (concat l)) as ->.
  { intros l. induction l as [|x l IH]; [done|]. cbn [map concat]. unfold unknown_to in *. by rewrite IH, filter_app. }
  by apply NoDup_filter.
Qed.

(** A peer is sent the first 500 of the transactions it does not know, in the order of the accounts from the given one on, and
    the hashes of the next 5000: the loop over the accounts ends, the limits of a packet are kept, nothing known to
    the peer is sent, and of every account a transaction is sent only with all those before it that the peer does not know. *)
Theorem gossip_choice_correct peer transactions start :
  0 <= start < Z.of_nat (length transactions) -> Z.of_nat (length transactions) < 2 ^ 32 -> NoDup (concat transactions) ->
  exists next packet, transactionsToSendToPeer peer transactions start = Done (next, packet) /\
    0 <= next < Z.of_nat (length transactions) /\
    tp_transactions packet = take max_trxs (offered peer transactions start) /\
    tp_extra_transactions_hashes packet = map trx_hash (take max_hashes (drop max_trxs (offered peer transactions start))) /\
    (forall t, t ∈ tp_transactions packet -> TaraxaPeer.isTransactionKnown peer (trx_hash t) = false) /\
    (forall account l1 t l2, account ∈ transactions -> unknown_to peer account = l1 ++ t :: l2 ->
       t ∈ tp_transactions packet -> forall t', t' ∈ l1 -> t' ∈ tp_transactions packet).
Proof.
  intros Hs Hn Hnd. destruct (choice_spec peer transactions start Hs Hn) as (next & E & Hr). eexists next, _. split; [exact E|]. cbn [tp_transactions tp_extra_transactions_hashes].
  split_and!; [lia|lia|done|done| |].
  - intros t Ht. apply (offered_elem peer transactions start). rewrite <- (take_drop max_trxs (offered peer transactions start)). apply elem_of_app. by left.
  - intros account l1 t l2 Ha El Ht t' Ht'. destruct (offered_account peer transactions start account ltac:(lia) Ha) as (before & behind & Eo).
    pose proof (unknown_nodup peer transactions start Hnd) as Hndo. rewrite Eo, El in *.
    replace (before ++ (l1 ++ t :: l2) ++ behind) with ((before ++ l1) ++ t :: l2 ++ behind) in * by (by rewrite <- !app_assoc).
    assert (length (before ++ l1) < max_trxs)%nat as Hpos.
    { destruct (Nat.lt_ge_cases (length (before ++ l1)) max_trxs) as [|Hge]; [done|]. exfalso. rewrite take_app_le in Ht by done.
      apply NoDup_app in Hndo as (_ & Hdis & _). apply (Hdis t); [|by left]. rewrite <- (take_drop max_trxs (before ++ l1)). apply elem_of_app. by left. }
    rewrite take_app_ge by lia. apply elem_of_app. left. apply elem_of_app. by right.
Qed.

(** ** Received packets *)

Definition trxs_ok (p : TaraxaPeer) : Prop := known_ok (known_transactions_ (peer_known p)).
Definition total_data (l : list Transaction) : Z := sum_list_Z trx_data_size l.

Lemma mark_transaction_total p h : trxs_ok p ->
  exists p' r, markTransactionAsKnown p h = Done (p', r) /\ trxs_ok p' /\
    timestamp_suspicious_packet_ p' = timestamp_suspicious_packet_ p /\ suspicious_packet_count_ p' = suspicious_packet_count_ p.
Proof.
  intros Hp. unfold markTransactionAsKnown. destruct (bn_insert_total _ h (pbft_chain_size_ (peer_status p)) Hp) as (c & r & -> & Hc & _). cbn [obind].
  do 2 eexists. split; [done|]. by split_and!.
Qed.

Lemma mark_transactions_total hashes : forall p, trxs_ok p ->
  exists p', mark_transactions p hashes = Done p' /\ trxs_ok p' /\
    timestamp_suspicious_packet_ p' = timestamp_suspicious_packet_ p /\ suspicious_packet_count_ p' = suspicious_packet_count_ p.
Proof.
  induction hashes as [|h hashes IH]; intros p Hp; [by exists p|]. unfold mark_transactions. cbn [ofold].
  destruct (mark_transaction_total p h Hp) as (p1 & r & -> & H1 & T1 & C1). cbn [obind]. destruct (IH p1 H1) as (p2 & E & H2 & T2 & C2).
  exists p2. unfold mark_transactions in E. rewrite E. split_and!; [done|done|congruence|congruence].
Qed.

Section honest.
Context (known : trx_hash_t -> Transaction) (cfg : TrxConfig) (est_key : trx_hash_t -> PbftPeriod -> Z)
  (iterate : gmap addr_t (gmap Z Transaction) -> list (addr_t * gmap Z Transaction)).
Context (iterate_perm : forall m, iterate m ≡ₚ map_to_list m) (env : TrxEnv) (minute : Z).

(** Genuine transactions that pass verification, with data of a possible size. *)
Definition good (t : Transaction) : Prop := genuine known t /\ verifyTransaction cfg env t = None /\ 0 <= trx_data_size t.

Lemma receive_loop_good n trxs : forall p m size, Forall good trxs -> trxs_ok p -> trx_inv known est_key n m ->
  0 <= size -> size + total_data trxs < 2 ^ 64 ->
  0 <= suspicious_packet_count_ p -> suspicious_packet_count_ p + Z.of_nat (length trxs) <= kMaxSuspiciousPacketPerMinute ->
  exists p' m', receive_loop cfg iterate env minute trxs p m size = Done (p', m', size + total_data trxs, None) /\ trxs_ok p' /\ trx_inv known est_key n m'.
Proof using iterate_perm.
  induction trxs as [|t trxs IH]; intros p m size Hg Hp Hm Hs Hsz Hc0 Hc; cbn [receive_loop].
  { exists p, m. unfold total_data. simpl. rewrite Z.add_0_r. by split_and!. }
  apply Forall_cons in Hg as [(G1 & G2 & G3) Hg]. assert (0 <= total_data trxs) as Hd.
  { apply sum_list_Z_nonneg. intros x Hx. by apply (proj1 (Forall_forall _ _) Hg) in Hx as (_ & _ & ?). }
  assert (total_data (t :: trxs) = trx_data_size t + total_data trxs) as Et by done. rewrite Et in *.
  rewrite wrap_id by (unfold in_range, modulus; lia). cbn [length] in Hc. rewrite Z.add_assoc.
  destruct (mark_transaction_total p (trx_hash t) Hp) as (p1 & r & -> & H1 & T1 & C1). cbn [obind].
  assert (kMaxSuspiciousPacketPerMinute = 50000) as Ek by done.
  destruct (TransactionQueue.isTransactionKnown _ _); [apply IH; try done; lia|]. rewrite G2.
  destruct (insertValidated_inv known cfg est_key iterate iterate_perm n env m t true Hm G1) as (m1 & st & -> & Hm1). cbn [obind].
  case_bool_decide; [|apply IH; try done; lia]. unfold reportSuspiciousPacket. destruct (Z.ltb_spec (timestamp_suspicious_packet_ p1) minute).
  - rewrite (proj2 (Z.ltb_ge _ _)) by lia. cbn [andb]. apply IH; try done; cbn [suspicious_packet_count_]; lia.
  - rewrite wrap_id by (unfold in_range, modulus; lia). rewrite (proj2 (Z.ltb_ge _ _)) by lia. cbn [andb].
    apply IH; try done; cbn [suspicious_packet_count_]; lia.
Qed.
End honest.

(** A packet within the limits of a packet, of genuine transactions that pass verification, keeps the invariant of the transaction manager, and its
    sender is taken for malicious exactly when the data of the transactions is larger than 650000 bytes. *)
Theorem honest_packet_verdict known cfg est_key iterate env minute n peer m packet :
  (forall m, iterate m ≡ₚ map_to_list m) -> trx_inv known est_key n m -> trxs_ok peer ->
  Forall (good known cfg env) (tp_transactions packet) -> total_data (tp_transactions packet) < 2 ^ 64 ->
  Z.of_nat (length (tp_transactions packet)) <= kMaxTransactionsInPacket ->
  Z.of_nat (length (tp_extra_transactions_hashes packet)) <= kMaxHashesInPacket ->
  0 <= suspicious_packet_count_ peer <= kMaxSuspiciousPacketPerMinute - kMaxTransactionsInPacket ->
  exists peer' m', processTransactionPacket cfg iterate env minute peer m packet =
      Done (peer', m', if 650000 <? total_data (tp_transactions packet) then Some MaliciousPeer else None) /\ trx_inv known est_key n m'.
Proof.
  intros Hi Hm Hp Hg Hsz Hl1 Hl2 Hc. unfold processTransactionPacket. rewrite !(proj2 (Z.ltb_ge _ _)) by done.
  destruct (mark_transactions_total (tp_extra_transactions_hashes packet) peer Hp) as (p1 & -> & H1 & T1 & C1). cbn [obind].
  destruct (receive_loop_good known cfg est_key iterate Hi env minute n (tp_transactions packet) p1 m 0) as (p2 & m2 & -> & _ & Hm2); [done|done|done|lia|lia|lia|lia|].
  cbn [obind]. exists p2, m2. split; [|done]. by rewrite Z.add_0_l.
Qed.

(** ** Examples *)

Definition big_trx (h nonce : Z) : Transaction := mkTransaction h 7 nonce 5 30000000 400000.
Definition big_known (h : Z) : Transaction := big_trx h (h - 1).
Definition honest_env : TrxEnv :=
  mkTrxEnv (fun _ => Some (mkAccount 0 (10 ^ 30))) (fun _ _ => None) 0 5 (fun _ _ => 21000) (fun _ => 841) (fun _ => 0) (fun _ => true) (fun _ => true) (fun _ => None) 0.
Definition fresh_peer (id : Z) : TaraxaPeer := newTaraxaPeer id 200.

Lemma fresh_peer_ok id : trxs_ok (fresh_peer id).
Proof. apply known_ok_new. vm_compute. lia. Qed.

Lemma gossip_choice_correct_witness :
  exists next packet, transactionsToSendToPeer (fresh_peer 1) [[ex_known 1; ex_known 2]; [ex_known 3]] 1 = Done (next, packet) /\
    tp_transactions packet = [ex_known 3; ex_known 1; ex_known 2].
Proof.
  destruct (gossip_choice_correct (fresh_peer 1) [[ex_known 1; ex_known 2]; [ex_known 3]] 1) as (next & packet & E & _ & Ht & _); [cbn [length]; lia|cbn [length]; lia| |].
  - apply (bool_decide_unpack _). vm_compute. done.
  - exists next, packet. split; [exact E|]. rewrite Ht. vm_compute. reflexivity.
Defined.

Lemma big_start_inv : exists n, trx_inv big_known ex_key n ex_start.
Proof.
  destruct (reach_wf big_known ex_cfg ex_key map_to_list ltac:(done) ltac:(by intros) ex_start ltac:(simpl; lia) (rtc_refl _ _)) as (n & _ & [H _ _]). by exists n.
Qed.

Lemma honest_packet_verdict_witness :
  exists peer' m', processTransactionPacket ex_cfg map_to_list honest_env 5 (fresh_peer 1) ex_start (mkTransactionPacket [big_trx 1 0] [9]) = Done (peer', m', None).
Proof.
  destruct big_start_inv as [n Hn].
  destruct (honest_packet_verdict big_known ex_cfg ex_key map_to_list honest_env 5 n (fresh_peer 1) ex_start (mkTransactionPacket [big_trx 1 0] [9])) as (p & m & E & _);
    [done|exact Hn|apply fresh_peer_ok|repeat constructor; vm_compute; done|vm_compute; done|vm_compute; done|vm_compute; done|vm_compute; split; discriminate|].
  exists p, m. exact E.
Defined.

(** An honest node is taken for malicious: of a pool with two transactions of 400000 bytes, which pass verification, both are sent in one
    packet, since only their number is limited, and the receiver refuses the packet because of its size. *)
Theorem honest_sender_blamed :
  verifyTransaction ex_cfg honest_env (big_trx 1 0) = None /\ verifyTransaction ex_cfg honest_env (big_trx 2 1) = None /\
  exists next packet, transactionsToSendToPeer (fresh_peer 2) [[big_trx 1 0; big_trx 2 1]] 0 = Done (next, packet) /\
  exists peer' m', processTransactionPacket ex_cfg map_to_list honest_env 5 (fresh_peer 1) ex_start packet = Done (peer', m', Some MaliciousPeer) /\
    handle_exception MaliciousPeer 1 = (1, true).
Proof.
  split; [vm_compute; reflexivity|]. split; [vm_compute; reflexivity|]. eexists _, _. split; [vm_compute; reflexivity|]. eexists _, _. split; [|reflexivity].
  vm_compute. reflexivity.
Qed.
