(* ===== verification/DagSync.v ===== *)
(** * Synchronisation of DAG blocks

    The handlers of the packets that carry DAG blocks
    (network/src/tarcap/packets_handlers/latest: dag_block_packet_handler.cpp,
    dag_sync_packet_handler.cpp, get_dag_sync_packet_handler.cpp,
    common/ext_syncing_packet_handler.cpp) and the choice of a peer
    (shared_states/peers_state.cpp).  What a node asks its transaction manager is a parameter of the
    handlers; the DAG manager is the model of [DagManager]. *)

From S2P Require Import Prelude Votes Caches TransactionQueue Dag DagOrder DagGhost DagManager DagManagerInv DagReorder DagPeriods TaraxaPeer.
Local Open Scope Z_scope.
Local Open Scope outcome_scope.

(** ** Packets *)

Record GetDagSyncPacket := mkGetDagSyncPacket { gp_peer_period : PbftPeriod; gp_blocks_hashes : list blk_hash_t }.
Record DagSyncPacket := mkDagSyncPacket {
  ds_request_period : PbftPeriod;
  ds_response_period : PbftPeriod;
  ds_transactions : list Transaction;
  ds_dag_blocks : list DagBlock;
}.
Record DagBlockPacket := mkDagBlockPacket { bp_transactions : list Transaction; bp_dag_block : DagBlock }.

(** What a handler does besides changing the peer and the DAG. *)
Inductive sync_action :=
| SendGetDagSync (p : GetDagSyncPacket)
| StartSyncingPbft
| Disconnect.

(** ** The peer with the longest chain *)

(** [size] and [level] of the best peer so far; peers that are disconnected are collected. *)
Fixpoint max_chain_peer (sync_period : PbftPeriod) (filter_func : TaraxaPeer -> bool) (peers : list TaraxaPeer)
    (best : option TaraxaPeer) (max_size max_level : Z) : option TaraxaPeer * list Z :=
  match peers with
  | [] => (best, [])
  | p :: rest =>
      let s := peer_status p in
      if negb (filter_func p) then max_chain_peer sync_period filter_func rest best max_size max_level
      else if max_size <? pbft_chain_size_ s then
        if peer_light_node s && (u64 (sync_period + peer_light_node_history s) <? pbft_chain_size_ s) then
          let (r, dropped) := max_chain_peer sync_period filter_func rest best max_size max_level in (r, id_ p :: dropped)
        else max_chain_peer sync_period filter_func rest (Some p) (pbft_chain_size_ s) (dag_level_ s)
      else if (pbft_chain_size_ s =? max_size) && (max_level <? dag_level_ s) then
        max_chain_peer sync_period filter_func rest (Some p) max_size (dag_level_ s)
      else max_chain_peer sync_period filter_func rest best max_size max_level
  end.

Definition getMaxChainPeer (sync_period : PbftPeriod) (filter_func : TaraxaPeer -> bool) (peers : list TaraxaPeer) : option TaraxaPeer * list Z :=
  max_chain_peer sync_period filter_func peers None 0 0.

Section handlers.
Context (iter : gset blk_hash_t -> list blk_hash_t) (genesis : DagBlock).

(** ** Requests *)

(** [sync_period] is read before the DAG [m]. *)
Definition requestPendingDagBlocks (sync_period : PbftPeriod) (m : DagManager) (peer : TaraxaPeer) : TaraxaPeer * list sync_action :=
  if peer_dag_synced_ (peer_sync peer) then (peer, [])
  else if sync_period =? pbft_chain_size_ (peer_status peer) then
    if peer_dag_syncing_ (peer_sync peer) then (peer, [])
    else
      let '(period, blocks) := getNonFinalizedBlocks m in
      (set_dag_syncing peer true, [SendGetDagSync (mkGetDagSyncPacket period (non_finalized_list iter blocks))])
  else (peer, []).

(** Without a peer the one with the longest chain is asked; the light nodes that the search disconnects are the second result. *)
Definition requestPendingDagBlocksFromBest (sync_period : PbftPeriod) (m : DagManager) (now : Z) (peers : list TaraxaPeer) :
    option (TaraxaPeer * list sync_action) * list Z :=
  let '(best, dropped) := getMaxChainPeer sync_period (fun p => negb (peer_dag_synced_ (peer_sync p)) && dagSyncingAllowed p now) peers in
  (option_map (requestPendingDagBlocks sync_period m) best, dropped).

(** The answer to a request; [get_trxs] gives the transactions of the hashes. *)
Definition processGetDagSync (get_trxs : list trx_hash_t -> list Transaction) (m : DagManager) (now : Z) (peer : TaraxaPeer) (packet : GetDagSyncPacket) :
    outcome (TaraxaPeer * (PacketException + DagSyncPacket)) :=
  if negb (requestDagSyncingAllowed peer now) then Done (peer, inl MaliciousPeer)
  else
    let* (period, blocks, trxs) := getNonFinalizedBlocksWithTransactions iter genesis m (list_to_set (gp_blocks_hashes packet)) in
    if gp_peer_period packet =? period then
      Done (set_requested_at (set_syncing peer false) now, inr (mkDagSyncPacket (gp_peer_period packet) period (get_trxs trxs) blocks))
    else Done (peer, inr (mkDagSyncPacket (gp_peer_period packet) period [] [])).

(** ** Received blocks *)

Context (trx_known : trx_hash_t -> bool) (trx_verified : Transaction -> bool) (env : VerifyEnv).

Definition trxs_map (trxs : list Transaction) : gmap trx_hash_t Transaction :=
  foldl (fun mp t => match mp !! trx_hash t with Some _ => mp | None => <[trx_hash t := t]> mp end) ∅ trxs.

Fixpoint sync_trxs (peer : TaraxaPeer) (trxs : list Transaction) : outcome (TaraxaPeer * option PacketException) :=
  match trxs with
  | [] => Done (peer, None)
  | t :: rest =>
      let* (peer, _) := markTransactionAsKnown peer (trx_hash t) in
      if trx_known (trx_hash t) then sync_trxs peer rest
      else if negb (trx_verified t) then Done (peer, Some MaliciousPeer)
      else sync_trxs peer rest
  end.

Fixpoint sync_blocks (trxs : gmap trx_hash_t Transaction) (m : DagManager) (peer : TaraxaPeer) (blocks : list DagBlock) :
    outcome (DagManager * TaraxaPeer * option PacketException) :=
  match blocks with
  | [] => Done (m, peer, None)
  | block :: rest =>
      let* (peer, _) := markDagBlockAsKnown peer (db_hash block) in
      if DagManager.isDagBlockKnown m (db_hash block) then sync_blocks trxs m peer rest
      else
        let* (m, (verdict, block_trxs)) := verifyBlock genesis env m block trxs in
        if negb (bool_decide (verdict = Verified)) then Done (m, peer, Some MaliciousPeer)
        else
          let peer := if dag_level_ (peer_status peer) <? db_level block then set_dag_level peer (db_level block) else peer in
          let* (m, (added, _)) := addDagBlock iter genesis m block block_trxs false true in
          if negb added then Done (m, peer, Some MaliciousPeer) else sync_blocks trxs m peer rest
  end.

Definition processDagSync (m : DagManager) (now : Z) (peer : TaraxaPeer) (packet : DagSyncPacket) :
    outcome (DagManager * TaraxaPeer * list sync_action * option PacketException) :=
  if ds_request_period packet <? ds_response_period packet then
    let peer := if pbft_chain_size_ (peer_status peer) <? ds_response_period packet then set_chain_size peer (ds_response_period packet) else peer in
    Done (m, set_dag_syncing peer false, [StartSyncingPbft], None)
  else if ds_response_period packet <? ds_request_period packet then Done (m, peer, [], Some MaliciousPeer)
  else
    let* (peer, e) := sync_trxs peer (ds_transactions packet) in
    match e with
    | Some e => Done (m, peer, [], Some e)
    | None =>
        let* (m, peer, e) := sync_blocks (trxs_map (ds_transactions packet)) m peer (ds_dag_blocks packet) in
        match e with
        | Some e => Done (m, peer, [], Some e)
        | None => Done (m, set_dag_synced_at peer now, [], None)
        end
    end.

(** [now] in seconds; [pbft_syncing] and [sync_period] are answers of the PBFT manager. *)
Definition onNewBlockReceived (pbft_syncing : bool) (sync_period : PbftPeriod) (now : Z) (m : DagManager) (peer : TaraxaPeer)
    (block : DagBlock) (trxs : gmap trx_hash_t Transaction) : outcome (DagManager * TaraxaPeer * list sync_action * option PacketException) :=
  let* (m, (verdict, block_trxs)) := verifyBlock genesis env m block trxs in
  let synced := peer_dag_synced_ (peer_sync peer) in
  let restart peer := let '(peer, a) := requestPendingDagBlocks sync_period m peer in Done (m, peer, a, None) in
  match verdict with
  | IncorrectTransactionsEstimation | BlockTooBig | FailedVdfVerification | NotEligible | FailedTipsVerification =>
      Done (m, peer, [], Some MaliciousPeer)
  | MissingTransaction => if dagSyncingAllowed peer now then restart (set_dag_synced peer false) else Done (m, peer, [Disconnect], None)
  | MissingTip =>
      if synced then
        if dagSyncingAllowed peer now then restart (set_dag_synced peer false) else Done (m, peer, [], Some MaliciousPeer)
      else restart peer
  | AheadBlock | FutureBlock => Done (m, peer, if synced then [Disconnect] else [], None)
  | Verified =>
      let* (m, (added, _)) := addDagBlock iter genesis m block block_trxs false true in
      if added : bool then Done (m, peer, [], None)
      else if pbft_syncing then Done (m, peer, [], None)
      else if peer_dag_syncing_ (peer_sync peer) then Done (m, peer, [], None)
      else if synced then Done (m, peer, [], Some MaliciousPeer)
      else let '(peer, a) := requestPendingDagBlocks sync_period m peer in Done (m, peer, a, None)
  | ExpiredBlock => Done (m, peer, [], None)
  end.

Definition mark_all (peer : TaraxaPeer) (hashes : list trx_hash_t) : outcome TaraxaPeer :=
  ofold (fun p h => let* (p, _) := markTransactionAsKnown p h in Done p) hashes peer.

Definition processDagBlock (pbft_syncing : bool) (sync_period : PbftPeriod) (now : Z) (m : DagManager) (peer : TaraxaPeer) (packet : DagBlockPacket) :
    outcome (DagManager * TaraxaPeer * list sync_action * option PacketException) :=
  let block := bp_dag_block packet in
  let* peer := mark_all peer (map trx_hash (bp_transactions packet)) in
  let* (peer, _) := markDagBlockAsKnown peer (db_hash block) in
  let peer := if dag_level_ (peer_status peer) <? db_level block then set_dag_level peer (db_level block) else peer in
  if DagManager.isDagBlockKnown m (db_hash block) then Done (m, peer, [], None)
  else onNewBlockReceived pbft_syncing sync_period now m peer block (trxs_map (bp_transactions packet)).
End handlers.

(** ** The peer that is chosen *)

(** The order of peers: by the size of the chain, then by the DAG level; no peer ranks as an empty chain and DAG. *)
Definition rank_of (p : option TaraxaPeer) : Z * Z :=
  match p with Some p => (pbft_chain_size_ (peer_status p), dag_level_ (peer_status p)) | None => (0, 0) end.
Definition rank_le (a b : Z * Z) : Prop := a.1 < b.1 \/ (a.1 = b.1 /\ a.2 <= b.2).

#[export] Instance rank_le_preorder : PreOrder rank_le.
Proof. split; [intros a; right; lia|intros a b c; unfold rank_le; lia]. Qed.

(** A light node that no longer has the history the node needs. *)
Definition lacks_history (sync_period : PbftPeriod) (p : TaraxaPeer) : bool :=
  peer_light_node (peer_status p) && (u64 (sync_period + peer_light_node_history (peer_status p)) <? pbft_chain_size_ (peer_status p)).

Section chosen.
Context (sync_period : PbftPeriod) (filter_func : TaraxaPeer -> bool).
Let scan peers best := max_chain_peer sync_period filter_func peers best (rank_of best).1 (rank_of best).2.

Lemma max_chain_step q rest best :
  exists best1, (scan (q :: rest) best).1 = (scan rest best1).1 /\ (best1 = best \/ (best1 = Some q /\ filter_func q = true)) /\
    rank_le (rank_of best) (rank_of best1) /\
    (filter_func q = true -> lacks_history sync_period q = false -> rank_le (rank_of (Some q)) (rank_of best1)) /\
    (forall i, i ∈ (scan (q :: rest) best).2 -> i ∈ (scan rest best1).2 \/ (i = id_ q /\ lacks_history sync_period q = true)).
Proof.
  unfold scan; cbn [max_chain_peer]. destruct (filter_func q) eqn:Ef; cbn [negb].
  2: { exists best. split_and!; [done|by left|done|done|by left]. }
  destruct (Z.ltb_spec (rank_of best).1 (pbft_chain_size_ (peer_status q))) as [Hlt|Hge].
  - fold (lacks_history sync_period q). destruct (lacks_history sync_period q) eqn:Es.
    + exists best. destruct (max_chain_peer _ _ rest best _ _) as [r dropped]. split_and!; [done|by left|done|done|].
      intros i [->|Hi]%elem_of_cons; [by right|by left].
    + exists (Some q). split_and!; [done|by right|by left|done|by left].
  - destruct ((pbft_chain_size_ (peer_status q) =? _) && _) eqn:Ee.
    + apply andb_true_iff in Ee as [E1%Z.eqb_eq E2%Z.ltb_lt]. exists (Some q). cbn [rank_of fst snd]. rewrite <-E1.
      split_and!; [done|by right|right; cbn; lia|done|by left].
    + exists best. split_and!; [done|by left|done| |by left]. intros _ _.
      apply andb_false_iff in Ee as [E1%Z.eqb_neq|E2%Z.ltb_ge]; unfold rank_le; cbn [rank_of fst snd]; lia.
Qed.

Lemma max_chain_scan peers : forall best,
  ((scan peers best).1 = best \/ exists p, (scan peers best).1 = Some p /\ p ∈ peers /\ filter_func p = true) /\
  rank_le (rank_of best) (rank_of (scan peers best).1) /\
  (forall p, p ∈ peers -> filter_func p = true -> lacks_history sync_period p = false -> rank_le (rank_of (Some p)) (rank_of (scan peers best).1)) /\
  (forall i, i ∈ (scan peers best).2 -> exists p, p ∈ peers /\ id_ p = i /\ lacks_history sync_period p = true).
Proof.
  induction peers as [|q rest IH]; intros best.
  { split_and!; [by left|done|by intros p ?%elem_of_nil|by intros i ?%elem_of_nil]. }
  destruct (max_chain_step q rest best) as (best1 & -> & Hb & Hle & Hq & Hd). destruct (IH best1) as (I1 & I2 & I3 & I4). split_and!.
  - destruct I1 as [->|(p & -> & Hp & Hfp)]; [|right; exists p; split_and!; [done|by right|done]].
    destruct Hb as [->|[-> Hfq]]; [by left|]. right. exists q. split_and!; [done|by left|done].
  - by etrans.
  - intros p [->|Hp]%elem_of_cons Hfp Hsp; [etrans; [by apply Hq|done]|by apply I3].
  - intros i [Hi|[-> Hs]]%Hd; [|exists q; split_and!; [by left|done|done]].
    destruct (I4 i Hi) as (p & Hp & ? & ?). exists p. split_and!; [by right|done|done].
Qed.

(** GetMaxChainPeer of PeersState: the chosen peer passes the filter and is the best, by the size of its chain and then its DAG level, of
    the peers that pass it and have the history the node needs; when it chooses none, every such peer has an empty chain and DAG; and the
    peers it disconnects are light nodes without the needed history. *)
Theorem max_chain_peer_correct peers :
  let (best, dropped) := getMaxChainPeer sync_period filter_func peers in
  (forall p, best = Some p -> p ∈ peers /\ filter_func p = true) /\
  (forall p, p ∈ peers -> filter_func p = true -> lacks_history sync_period p = false -> rank_le (rank_of (Some p)) (rank_of best)) /\
  (forall i, i ∈ dropped -> exists p, p ∈ peers /\ id_ p = i /\ lacks_history sync_period p = true).
Proof.
  pose proof (max_chain_scan peers None) as (H1 & _ & H3 & H4). unfold scan in *. cbn [rank_of fst snd] in *. unfold getMaxChainPeer.
  destruct (max_chain_peer sync_period filter_func peers None 0 0) as [best dropped]. cbn [fst snd] in *.
  split_and!; [|done|done]. intros p ->. destruct H1 as [|(p' & [= <-] & ? & ?)]; done.
Qed.
End chosen.

(** ** One exchange of DAG blocks *)

Lemma mark_block_total peer h : known_ok (known_dag_blocks_ (peer_known peer)) ->
  exists peer' r, markDagBlockAsKnown peer h = Done (peer', r) /\ known_ok (known_dag_blocks_ (peer_known peer')).
Proof. intros Hk. unfold markDagBlockAsKnown. destruct (bn_insert_total _ h (pbft_chain_size_ (peer_status peer)) Hk) as (c & r & -> & Hc & _). by do 2 eexists. Qed.

Lemma mark_trx_total peer h : known_ok (known_transactions_ (peer_known peer)) ->
  exists peer' r, markTransactionAsKnown peer h = Done (peer', r) /\ known_ok (known_transactions_ (peer_known peer')) /\
    known_dag_blocks_ (peer_known peer') = known_dag_blocks_ (peer_known peer).
Proof. intros Hk. unfold markTransactionAsKnown. destruct (bn_insert_total _ h (pbft_chain_size_ (peer_status peer)) Hk) as (c & r & -> & Hc & _). by do 2 eexists. Qed.

(** The transactions of an honest answer are accepted. *)
Lemma sync_trxs_total trx_known trx_verified trxs : (forall t, t ∈ trxs -> trx_known (trx_hash t) = true \/ trx_verified t = true) -> forall peer,
  known_ok (known_transactions_ (peer_known peer)) ->
  exists peer', sync_trxs trx_known trx_verified peer trxs = Done (peer', None) /\ known_dag_blocks_ (peer_known peer') = known_dag_blocks_ (peer_known peer).
Proof.
  induction trxs as [|t rest IH]; intros Ht peer Hk; cbn [sync_trxs]; [by exists peer|].
  destruct (mark_trx_total peer (trx_hash t) Hk) as (p1 & r & -> & Hk1 & <-). cbn [obind].
  destruct (IH ltac:(intros x Hx; apply Ht; by right) p1 Hk1) as (p2 & -> & Hd). exists p2. split; [|done].
  destruct (Ht t ltac:(by left)) as [->| ->]; [done|]. by destruct (trx_known (trx_hash t)).
Qed.

(** A new block above the expiry level with known parents enters the DAG. *)
Lemma addDagBlock_enters iter genesis m b trxs proposed :
  iteration iter -> dm_inv genesis m -> block_ok genesis b -> Z.of_nat (size (pivot_tree_ (dag m))) < 2 ^ 31 - 1 ->
  storage_getDagBlock (dm_db m) (db_hash b) = None -> dag_expiry_level_ m <= db_level b -> (pivotAndTipsAvailable genesis m b).1 = true ->
  exists m', addDagBlock iter genesis m b trxs proposed true = Done (m', (true, [])) /\ dm_inv genesis m' /\
    (forall v, NF (dag m') v <-> NF (dag m) v \/ v = db_hash b) /\ dm_db m' = saveDagBlock (dm_db m) b /\
    dag_expiry_level_ m' = dag_expiry_level_ m /\ anchor_ m' = anchor_ m /\ period_ m' = period_ m.
Proof.
  intros Hi Hinv Hb Hsz Hnone Hexp Hav. destruct (addDagBlock_effect iter genesis m b trxs proposed Hi Hinv Hb Hsz) as (m' & r & Hadd & Hinv' & Hr).
  assert (r = (true, []) /\ dag_expiry_level_ m' = dag_expiry_level_ m) as [-> He].
  { revert Hadd. unfold addDagBlock. rewrite (proj2 (dagBlockInDb_false _ _) Hnone). destruct (Z.ltb_spec (db_level b) (dag_expiry_level_ m)); [lia|]. rewrite Hav. cbn [negb].
    unfold enter_dag. destruct (CacheMap.cm_insert _ _ _) as [[s ?]| |]; [|done|done]; cbn [obind]. destruct (addToDag _ _ _ _ _ _) as [d| |]; [|done|done]; cbn [obind].
    destruct (getFrontier _ _ _) as [f| |]; [|done|done]; cbn [obind]. by intros [= <- <-]. }
  exists m'. destruct Hr as [[-> Hr]|(_ & _ & _ & ? & ? & ? & ? & _)]; [|by split_and!]. exfalso. rewrite Hnone in Hr. destruct (proj1 Hr eq_refl) as [? [=]].
Qed.

Lemma isDagBlockKnown_stored genesis m h : dm_inv genesis m -> DagManager.isDagBlockKnown m h = bool_decide (is_Some (storage_getDagBlock (dm_db m) h)).
Proof.
  intros [_ Hs _]. unfold DagManager.isDagBlockKnown, CacheMap.cm_count.
  destruct (dagBlockInDb (dm_db m) h) eqn:E.
  - rewrite bool_decide_eq_true_2; [by destruct (_ =? 0)%nat|]. destruct (storage_getDagBlock (dm_db m) h) eqn:E'; [done|]. apply dagBlockInDb_false in E'. congruence.
  - apply dagBlockInDb_false in E. rewrite E. rewrite bool_decide_eq_false_2 by (by intros []).
    destruct (CacheMap.cache_ (seen_blocks_ m) !! h) eqn:Ec; [|done].
    by rewrite (s_seen _ _ _ Hs _ _ Ec) in E.
Qed.

#[export] Instance NF_dec (d : DagState) v : Decision (NF d v).
Proof.
  refine (cast_if (decide (v ∈ non_finalized_list elements (non_finalized_blks_ d)))); unfold NF; by rewrite <- (elem_of_non_finalized elements) by apply iteration_elements.
Defined.

(** [mA] and [mB] finalized the same period: a finalized parent of a block of [mB] is stored in [mA], a block [mA] has
    stored is not one [mA] alone finalized, blocks with the same hash are the same, and the blocks of [mB] were added at
    their level and have not expired in [mA]. *)
Record same_chain (genesis : DagBlock) (mA mB : DagManager) : Prop := {
  sc_period : period_ mA = period_ mB;
  sc_agree : forall h a b, blk_of genesis (dm_db mA) h = Some a -> blk_of genesis (dm_db mB) h = Some b -> a = b;
  sc_settled : forall v b u, NF (dag mB) v -> blk_of genesis (dm_db mB) v = Some b -> u ∈ parents b -> ~ NF (dag mB) u -> is_Some (blk_of genesis (dm_db mA) u);
  sc_stored : forall v, NF (dag mB) v -> is_Some (storage_getDagBlock (dm_db mA) v) -> NF (dag mA) v;
  sc_added : forall v b, NF (dag mB) v -> blk_of genesis (dm_db mB) v = Some b -> (pivotAndTipsAvailable genesis mB b).1 = true;
  sc_alive : forall v b, NF (dag mB) v -> blk_of genesis (dm_db mB) v = Some b -> dag_expiry_level_ mA <= db_level b;
  sc_genesis : ~ NF (dag mB) (db_hash genesis);
}.

Section exchange.
Context (iter : gset blk_hash_t -> list blk_hash_t) (genesis : DagBlock) (Hiter : iteration iter).
Context (env : VerifyEnv) (mA mB : DagManager) (HA : dm_inv genesis mA) (HB : dm_inv genesis mB) (Hsame : same_chain genesis mA mB).

(** The blocks the peer lacks, by increasing level. *)
Record answer_ok (bs : list DagBlock) : Prop := {
  an_blocks : forall b, b ∈ bs -> NF (dag mB) (db_hash b) /\ blk_of genesis (dm_db mB) (db_hash b) = Some b /\ ~ NF (dag mA) (db_hash b);
  an_all : forall v, NF (dag mB) v -> ~ NF (dag mA) v -> exists b, b ∈ bs /\ db_hash b = v;
  an_sorted : StronglySorted (fun a b => db_level a <= db_level b) bs;
  an_NoDup : NoDup (map db_hash bs);
}.

Lemma unknown_blocks_effect (known : gset blk_hash_t) hashes :
  (forall v, v ∈ hashes -> exists b, blk_of genesis (dm_db mB) v = Some b /\ db_hash b = v) ->
  exists bs, unknown_blocks genesis mB known hashes = Done bs /\ map db_hash bs = filter (fun h => h ∉ known) hashes /\
    forall b, b ∈ bs -> blk_of genesis (dm_db mB) (db_hash b) = Some b.
Proof using HB.
  induction hashes as [|h rest IH]; intros Hh; cbn [unknown_blocks]; [exists []; split_and!; [done|done|by intros b ?%elem_of_nil]|].
  destruct (IH ltac:(intros v Hv; apply Hh; by right)) as (bs & E & Hm & Hb). case_decide as Hin.
  - exists bs. rewrite filter_cons_False by tauto. by split_and!.
  - destruct (Hh h ltac:(by left)) as (b & Hbl & Hbh). rewrite (getDagBlock_effect _ _ _ HB), Hbl, E. cbn [obind]. exists (b :: bs).
    rewrite filter_cons_True by done. cbn [map]. rewrite Hbh, Hm. split_and!; [done|done|]. intros x [->|Hx]%elem_of_cons; [by rewrite Hbh|by apply Hb].
Qed.

Lemma sorted_blocks (bs : list DagBlock) :
  (forall b, b ∈ bs -> blk_of genesis (dm_db mB) (db_hash b) = Some b) ->
  StronglySorted (fun u v => level_of (blk_of genesis (dm_db mB)) u <= level_of (blk_of genesis (dm_db mB)) v) (map db_hash bs) ->
  StronglySorted (fun a b => db_level a <= db_level b) bs.
Proof using.
  induction bs as [|b bs IH]; intros Hb Hs; [constructor|]. cbn [map] in Hs. apply StronglySorted_inv in Hs as [Hs Hall]. constructor; [apply IH; [intros x Hx; apply Hb; by right|done]|].
  apply Forall_forall. intros x Hx. rewrite Forall_forall in Hall. specialize (Hall (db_hash x) ltac:(by apply list_elem_of_fmap_2)). unfold level_of in Hall.
  rewrite (Hb b), (Hb x) in Hall; [done|by right|by left].
Qed.

Lemma answer_effect : exists bs trxs,
  getNonFinalizedBlocksWithTransactions iter genesis mB (list_to_set (non_finalized_list iter (non_finalized_blks_ (dag mA)))) = Done (period_ mB, bs, trxs) /\ answer_ok bs.
Proof using Hiter HA HB.
  destruct (nf_list_facts iter genesis mB Hiter HB) as (Hin & Hs & Hnd & Hbl & _). unfold getNonFinalizedBlocksWithTransactions.
  set (known := list_to_set (non_finalized_list iter (non_finalized_blks_ (dag mA))) : gset blk_hash_t).
  assert (forall v, v ∈ known <-> NF (dag mA) v) as Hk by (intros v; unfold known; rewrite elem_of_list_to_set; by apply elem_of_non_finalized).
  destruct (unknown_blocks_effect known (non_finalized_list iter (non_finalized_blks_ (dag mB)))) as (bs & -> & Hm & Hb).
  { intros v Hv. destruct (Hbl v Hv) as (b & ? & ? & _). by exists b. }
  cbn [obind]. exists bs, (unique_trxs ∅ (bs ≫= db_trxs)). split; [done|]. split.
  - intros b Hbin. assert (db_hash b ∈ map db_hash bs) as Hm' by (by apply list_elem_of_fmap_2). rewrite Hm, list_elem_of_filter, Hin, Hk in Hm'. split_and!; [tauto|by apply Hb|tauto].
  - intros v Hv Hn. assert (v ∈ map db_hash bs) as Hm' by (by rewrite Hm, list_elem_of_filter, Hin, Hk). apply list_elem_of_fmap in Hm' as (b & -> & ?). by exists b.
  - apply sorted_blocks; [done|]. rewrite Hm. clear -Hs. induction Hs as [|x l Hs IH Hall]; [constructor|]. rewrite filter_cons. case_decide; [|done]. constructor; [done|].
    rewrite Forall_forall in *. intros y [_ Hy]%list_elem_of_filter. by apply Hall.
  - rewrite Hm. by apply NoDup_filter.
Qed.

(** The node after it added the blocks [added]. *)
Record synced (added : list DagBlock) (m : DagManager) : Prop := {
  sy_inv : dm_inv genesis m;
  sy_expiry : dag_expiry_level_ m = dag_expiry_level_ mA;
  sy_old : forall h b, blk_of genesis (dm_db mA) h = Some b -> blk_of genesis (dm_db m) h = Some b;
  sy_new : forall b, b ∈ added -> blk_of genesis (dm_db m) (db_hash b) = Some b;
  sy_stored : forall h, is_Some (storage_getDagBlock (dm_db m) h) <-> is_Some (storage_getDagBlock (dm_db mA) h) \/ h ∈ map db_hash added;
  sy_nf : forall v, NF (dag m) v <-> NF (dag mA) v \/ v ∈ map db_hash added;
  sy_size : (size (pivot_tree_ (dag m)) <= size (pivot_tree_ (dag mA)) + length added)%nat;
}.

(** The parents of the next block are known, as the peer knows them. *)
Lemma parents_known added b rest m : answer_ok (added ++ b :: rest) -> synced added m ->
  forall u, u ∈ parents b -> exists bu, blk_of genesis (dm_db mB) u = Some bu /\ blk_of genesis (dm_db m) u = Some bu /\ db_level bu < db_level b.
Proof using HA HB Hsame.
  intros Ha Hs u Hu. destruct (an_blocks _ Ha b) as (Hnf & Hb & _); [apply elem_of_app; right; by left|].
  pose proof (sc_added _ _ _ Hsame _ _ Hnf Hb) as Hadd. destruct (pivotAndTips_effect genesis mB b HB) as (ok & Hp & Hok). rewrite Hp in Hadd. cbn [fst] in Hadd. subst ok.
  destruct (proj1 Hok eq_refl) as (Hmiss & Hlow & _). destruct (blk_of genesis (dm_db mB) u) as [bu|] eqn:Eu.
  2: { assert (u ∈ filter (fun u => blk_of genesis (dm_db mB) u = None) (parents b)) as Hf by (by rewrite list_elem_of_filter). rewrite Hmiss in Hf. by apply elem_of_nil in Hf. }
  specialize (Hlow u bu Hu Eu). exists bu. split_and!; [done| |done].
  assert (is_Some (blk_of genesis (dm_db mA) u) -> blk_of genesis (dm_db m) u = Some bu) as Hold.
  { intros [a Ea]. rewrite (sc_agree _ _ _ Hsame _ _ _ Ea Eu) in Ea. by apply (sy_old _ _ Hs). }
  assert (NF (dag mA) u -> is_Some (blk_of genesis (dm_db mA) u)) as HnfA.
  { intros (l & X & Hl & HX). destruct (g_level _ _ _ (m_dag _ _ HA) _ _ _ Hl HX) as (a & Ea & _). by exists a. }
  destruct (NF_dec (dag mB) u) as [HuB|HuB]; [|by apply Hold, (sc_settled _ _ _ Hsame _ _ _ Hnf Hb Hu)].
  destruct (NF_dec (dag mA) u) as [HuA|HuA]; [by apply Hold, HnfA|].
  destruct (an_all _ Ha u HuB HuA) as (x & Hx & Hxu). destruct (an_blocks _ Ha x Hx) as (_ & Ex & _). assert (x = bu) as -> by (subst u; congruence).
  pose proof (an_sorted _ Ha) as Hsorted. apply StronglySorted_app_1_r in Hsorted as Hr. apply StronglySorted_inv in Hr as [_ Hall]. rewrite Forall_forall in Hall.
  apply elem_of_app in Hx as [Hx|[->|Hx]%elem_of_cons]; [rewrite <- Hxu; by apply (sy_new _ _ Hs)|lia|]. specialize (Hall _ Hx). lia.
Qed.
(** The next block is not stored yet. *)
Lemma next_unknown added b rest m : answer_ok (added ++ b :: rest) -> synced added m -> storage_getDagBlock (dm_db m) (db_hash b) = None.
Proof using Hsame.
  intros Ha Hs. destruct (an_blocks _ Ha b) as (Hnf & _ & HnA); [apply elem_of_app; right; by left|]. apply eq_None_not_Some.
  intros [H|H]%(sy_stored _ _ Hs); [by apply HnA, (sc_stored _ _ _ Hsame)|]. pose proof (an_NoDup _ Ha) as Hnd. rewrite map_app in Hnd. cbn [map] in Hnd.
    apply NoDup_app in Hnd as (_ & Hd & _). apply (Hd _ H). by left.
Qed.

(** The next block is verified and enters the DAG. *)
Lemma synced_step added b rest m txs : answer_ok (added ++ b :: rest) -> synced added m ->
  Z.of_nat (size (pivot_tree_ (dag mA)) + length (added ++ b :: rest)) < 2 ^ 31 - 1 ->
  exists m', addDagBlock iter genesis m b txs false true = Done (m', (true, [])) /\ synced (added ++ [b]) m'.
Proof using Hiter HA HB Hsame.
  intros Ha Hs Hsz. rewrite length_app in Hsz. cbn [length] in Hsz. destruct (an_blocks _ Ha b) as (Hnf & Hb & _); [apply elem_of_app; right; by left|].
  pose proof (sy_inv _ _ Hs) as Hinv. pose proof (parents_known _ _ _ _ Ha Hs) as Hpar.
  pose proof (next_unknown _ _ _ _ Ha Hs) as Hnone.
  assert (block_ok genesis b) as Hbok.
  { split_and!; [by apply (g_nonzero _ _ _ (m_dag _ _ HB))|intros E; rewrite E in Hnf; by apply (sc_genesis _ _ _ Hsame)|by apply (s_level _ _ _ (m_store _ _ HB) _ _ Hb)..]. }
  destruct (addDagBlock_enters iter genesis m b txs false) as (m' & -> & Hinv' & Hnf' & Hdb & He & Han & _); [done|done|done| |done| | |].
  - pose proof (sy_size _ _ Hs). lia.
  - rewrite (sy_expiry _ _ Hs). by apply (sc_alive _ _ _ Hsame (db_hash b)).
  - destruct (pivotAndTips_effect genesis m b Hinv) as (ok & -> & Hok). cbn [fst]. apply Hok.
    pose proof (sc_added _ _ _ Hsame _ _ Hnf Hb) as Hadd. destruct (pivotAndTips_effect genesis mB b HB) as (okB & Hp & HokB). rewrite Hp in Hadd. cbn [fst] in Hadd. subst okB.
    destruct (proj1 HokB eq_refl) as (_ & _ & u & bu & Hu & Eu & Hl). split_and!.
    + apply elem_of_nil_inv. intros x [Hx Hxp]%list_elem_of_filter. destruct (Hpar x Hxp) as (bx & _ & ? & _). congruence.
    + intros x bx Hx Ex. destruct (Hpar x Hx) as (bx' & _ & ? & ?). by assert (bx' = bx) as -> by congruence.
    + exists u, bu. destruct (Hpar u Hu) as (bu' & ? & ? & _). assert (bu' = bu) as -> by congruence. by split_and!.
  - exists m'. split; [done|]. assert (forall h x, blk_of genesis (dm_db m) h = Some x -> blk_of genesis (dm_db m') h = Some x) as Hext.
    { intros h x Hx. rewrite Hdb. unfold blk_of in *. rewrite storage_save. destruct (decide (h = db_hash b)) as [->|D]; [|done]. rewrite Hnone, decide_False in Hx; [done|]. apply Hbok. }
    split; [done|by rewrite He, (sy_expiry _ _ Hs)|intros h x Hx; by apply Hext, (sy_old _ _ Hs)| | | |].
    + intros x [Hx| ->%list_elem_of_singleton]%elem_of_app; [by apply Hext, (sy_new _ _ Hs)|]. rewrite Hdb. unfold blk_of. by rewrite storage_save, decide_True.
    + intros h. rewrite Hdb, storage_save, map_app, elem_of_app. cbn [map]. rewrite list_elem_of_singleton. case_decide as D; [split; [intros _; right; by right|intros _; by eexists]|]. rewrite (sy_stored _ _ Hs). tauto.
    + intros v. rewrite Hnf', (sy_nf _ _ Hs), map_app, elem_of_app. cbn [map]. rewrite list_elem_of_singleton. tauto.
    + rewrite length_app. cbn [length]. pose proof (sy_size _ _ Hs). 
      pose proof (tree_size_step _ _ _ _ _ _ (db_hash b) (m_dag _ _ Hinv) (m_dag _ _ Hinv') ltac:(intros v; rewrite Hnf', Han; tauto)). lia.
Qed.

(** What the node's checks of blocks ask of its other components. *)
Context (trxs : gmap trx_hash_t Transaction).
Definition verifies (b : DagBlock) : Prop := forall m, dm_inv genesis m -> dag_expiry_level_ m = dag_expiry_level_ mA ->
  (forall u, u ∈ parents b -> blk_of genesis (dm_db m) u = blk_of genesis (dm_db mB) u) ->
  exists txs, verifyBlock genesis env m b trxs = Done (m, (Verified, txs)).

Lemma sync_blocks_effect rest : forall added m peer, answer_ok (added ++ rest) -> synced added m -> (forall b, b ∈ rest -> verifies b) ->
  Z.of_nat (size (pivot_tree_ (dag mA)) + length (added ++ rest)) < 2 ^ 31 - 1 -> known_ok (known_dag_blocks_ (peer_known peer)) ->
  exists m' peer', sync_blocks iter genesis env trxs m peer rest = Done (m', peer', None) /\ synced (added ++ rest) m'.
Proof using Hiter HA HB Hsame.
  induction rest as [|b rest IH]; intros added m peer Ha Hs Hv Hsz Hk; cbn [sync_blocks]; [exists m, peer; by rewrite app_nil_r|].
  destruct (mark_block_total peer (db_hash b) Hk) as (p1 & r & -> & Hk1). cbn [obind].
  destruct (Hv b ltac:(by left) m (sy_inv _ _ Hs) (sy_expiry _ _ Hs)) as (txs & Hver); [intros u Hu; destruct (parents_known _ _ _ _ Ha Hs u Hu) as (bu & -> & -> & _); done|].
  destruct (synced_step _ _ _ _ txs Ha Hs Hsz) as (m' & Hadd & Hs').
  assert (forall p, known_ok (known_dag_blocks_ (peer_known p)) -> exists m2 p2, sync_blocks iter genesis env trxs m' p rest = Done (m2, p2, None) /\ synced (added ++ b :: rest) m2) as Hgo.
  { intros p Hp. replace (added ++ b :: rest) with ((added ++ [b]) ++ rest) in * by (by rewrite <- app_assoc). apply IH; [done|done|intros x Hx; apply Hv; by right|done|done]. }
  rewrite (isDagBlockKnown_stored genesis m _ (sy_inv _ _ Hs)), (next_unknown _ _ _ _ Ha Hs), bool_decide_eq_false_2 by (by intros []).
  rewrite Hver. cbn [obind]. rewrite bool_decide_eq_true_2 by done. cbn [negb]. rewrite Hadd. cbn [obind negb]. apply Hgo. by destruct (_ <? _).
Qed.
End exchange.

Lemma elem_of_unique_trxs t l : forall seen, t ∈ unique_trxs seen l <-> t ∈ l /\ t ∉ seen.
Proof.
  induction l as [|x l IH]; intros seen; cbn [unique_trxs]; [split; [by intros ?%elem_of_nil|by intros [?%elem_of_nil _]]|].
  case_decide as Hin; rewrite ?elem_of_cons, IH; [set_solver|]. rewrite not_elem_of_union, elem_of_singleton. destruct (decide (t = x)) as [->|]; tauto.
Qed.

(** C14: One exchange of DAG blocks between honest nodes: a node that finalized the same period as its peer asks it for its
    DAG; the peer answers with the blocks the node lacks; the node accepts the answer without an exception, every block finds its pivot
    and tips, and afterwards the node has exactly its own and the peer's non-finalized blocks, keeps the invariant of the
    manager and marks the peer as synchronised. *)
Theorem dag_sync_complete iter genesis env mA mB peerA peerB get_trxs trx_known trx_verified now nowB :
  iteration iter -> dm_inv genesis mA -> dm_inv genesis mB -> same_chain genesis mA mB ->
  Z.of_nat (size (pivot_tree_ (dag mA)) + length (non_finalized_list iter (non_finalized_blks_ (dag mB)))) < 2 ^ 31 - 1 ->
  peer_dag_synced_ (peer_sync peerB) = false -> peer_dag_syncing_ (peer_sync peerB) = false ->
  known_ok (known_dag_blocks_ (peer_known peerB)) -> known_ok (known_transactions_ (peer_known peerB)) ->
  requestDagSyncingAllowed peerA nowB = true ->
  (forall hs t, t ∈ get_trxs hs -> trx_known (trx_hash t) = true \/ trx_verified t = true) ->
  (forall b hs, NF (dag mB) (db_hash b) -> blk_of genesis (dm_db mB) (db_hash b) = Some b -> (forall t, t ∈ db_trxs b -> t ∈ hs) ->
     verifies genesis env mA mB (trxs_map (get_trxs hs)) b) ->
  exists request asked peerA' answer mA' peerB',
    requestPendingDagBlocks iter (pbft_chain_size_ (peer_status peerB)) mA peerB = (asked, [SendGetDagSync request]) /\
    processGetDagSync iter genesis get_trxs mB nowB peerA request = Done (peerA', inr answer) /\
    processDagSync iter genesis trx_known trx_verified env mA now asked answer = Done (mA', peerB', [], None) /\
    dm_inv genesis mA' /\ (forall v, NF (dag mA') v <-> NF (dag mA) v \/ NF (dag mB) v) /\
    peer_dag_synced_ (peer_sync peerB') = true /\ peer_dag_syncing_ (peer_sync peerB') = false.
Proof.
  intros Hi HA HB Hsame Hsz Hns Hns' Hk1 Hk2 Hallow Htr Hver. unfold requestPendingDagBlocks. rewrite Hns, Hns', Z.eqb_refl. cbn [getNonFinalizedBlocks].
  do 2 eexists. destruct (answer_effect iter genesis Hi mA mB HA HB) as (bs & hs & Hans & Hok).
  set (request := mkGetDagSyncPacket _ _). set (answer := mkDagSyncPacket (period_ mA) (period_ mB) (get_trxs hs) bs).
  destruct (sync_trxs_total trx_known trx_verified (get_trxs hs) (Htr hs) (set_dag_syncing peerB true) Hk2) as (p1 & Htrx & Hp1).
  assert (synced genesis mA [] mA) as Hs0 by (split; [done|done|done|by intros b ?%elem_of_nil|set_solver|set_solver|cbn; lia]).
  destruct (sync_blocks_effect iter genesis Hi env mA mB HA HB Hsame (trxs_map (get_trxs hs)) bs [] mA p1 Hok Hs0) as (mA' & p2 & Hblk & Hs').
  - intros b Hb. destruct (an_blocks _ _ _ _ Hok b Hb) as (Hnf & Hbl & _). apply Hver; [done|done|]. intros t Ht.
    revert Hans. unfold getNonFinalizedBlocksWithTransactions. destruct (unknown_blocks _ _ _ _) as [bs'| |]; cbn [obind]; [|done|done]. intros [= <- <-].
    apply elem_of_unique_trxs. split; [apply list_elem_of_bind; by exists b|set_solver].
  - assert (length bs <= length (non_finalized_list iter (non_finalized_blks_ (dag mB))))%nat; [|cbn [app]; lia].
    rewrite <- (length_map db_hash). apply submseteq_length, NoDup_submseteq; [apply (an_NoDup _ _ _ _ Hok)|]. intros v (b & -> & Hb)%list_elem_of_fmap.
    apply elem_of_non_finalized; [done|]. apply (an_blocks _ _ _ _ Hok b Hb).
  - by rewrite Hp1.
  - exists (set_requested_at (set_syncing peerA false) nowB), answer, mA', (set_dag_synced_at p2 now). split_and!.
    + done.
    + unfold processGetDagSync. rewrite Hallow. cbn [negb]. unfold request, answer. cbn [gp_blocks_hashes gp_peer_period]. rewrite Hans. cbn [obind]. by rewrite (sc_period _ _ _ Hsame), Z.eqb_refl.
    + unfold processDagSync, answer. cbn [ds_request_period ds_response_period ds_transactions ds_dag_blocks]. rewrite (sc_period _ _ _ Hsame), Z.ltb_irrefl, Htrx. cbn [obind]. rewrite Hblk. done.
    + apply (sy_inv _ _ _ _ Hs').
    + intros v. rewrite (sy_nf _ _ _ _ Hs'). cbn [app]. split; [intros [?|(b & -> & Hb)%list_elem_of_fmap]; [by left|right; apply (an_blocks _ _ _ _ Hok b Hb)]|].
      intros [?|Hv]; [by left|]. destruct (NF_dec (dag mA) v) as [?|Hn]; [by left|]. right. destruct (an_all _ _ _ _ Hok v Hv Hn) as (b & Hb & <-). by apply list_elem_of_fmap_2.
    + done.
    + done.
Qed.

(** C40: The periods of a request are read in two steps: a node that finalizes a period between reading its synchronised period and
    reading its DAG asks a peer, whose period it took for its own, for a period the peer does not have yet; the peer's answer, which is
    honest, is then treated as that of a malicious peer. *)
Theorem dag_sync_race iter genesis env mA mB peerA peerB get_trxs trx_known trx_verified now nowB :
  iteration iter -> dm_inv genesis mA -> dm_inv genesis mB ->
  pbft_chain_size_ (peer_status peerB) = period_ mB -> period_ mA = period_ mB + 1 ->
  peer_dag_synced_ (peer_sync peerB) = false -> peer_dag_syncing_ (peer_sync peerB) = false -> requestDagSyncingAllowed peerA nowB = true ->
  exists request asked answer,
    requestPendingDagBlocks iter (period_ mB) mA peerB = (asked, [SendGetDagSync request]) /\
    processGetDagSync iter genesis get_trxs mB nowB peerA request = Done (peerA, inr answer) /\
    processDagSync iter genesis trx_known trx_verified env mA now asked answer = Done (mA, asked, [], Some MaliciousPeer).
Proof.
  intros Hi HA HB Hc Hp Hns Hns' Hallow. unfold requestPendingDagBlocks. rewrite Hns, Hns', Hc, Z.eqb_refl. cbn [getNonFinalizedBlocks].
  destruct (answer_effect iter genesis Hi mA mB HA HB) as (bs & hs & Hans & _). do 2 eexists. exists (mkDagSyncPacket (period_ mA) (period_ mB) [] []).
  split_and!; [done| |].
  - unfold processGetDagSync. rewrite Hallow. cbn [negb gp_blocks_hashes gp_peer_period]. rewrite Hans. cbn [obind]. rewrite Hp.
    by destruct (Z.eqb_spec (period_ mB + 1) (period_ mB)); [lia|].
  - unfold processDagSync. cbn [ds_request_period ds_response_period]. rewrite Hp. destruct (Z.ltb_spec (period_ mB + 1) (period_ mB)); [lia|]. by destruct (Z.ltb_spec (period_ mB) (period_ mB + 1)); [|lia].
Qed.

(** ** Example: a node at genesis asks a peer with four blocks *)

Definition ex_new_node : DagManager := outcome_get no_dag ex_start.

Definition ex_fetch (hs : list trx_hash_t) : list Transaction := map (fun h => mkTransaction h 0 0 0 0 0) hs.
Definition ex_sync_env : VerifyEnv :=
  mkVerifyEnv (fun _ => Some 1) (fun hs _ => ex_fetch hs) (fun _ _ => Some 9) (fun _ _ _ => true) (fun _ _ => Some true)
    (fun _ => (100, 1000)) (fun _ _ => 0).

Lemma ex_new_node_ok : dm_inv ex_genesis ex_new_node.
Proof.
  destruct (new_dag_ok elements ex_genesis iteration_elements ltac:(done) ltac:(done) 10 1 ltac:(lia)) as (m & Hm & [Hok _] & _).
  unfold ex_new_node, ex_start. rewrite Hm. exact Hok.
Qed.

Lemma ex_peer_blocks v b : NF (dag ex_manager) v -> blk_of ex_genesis (dm_db ex_manager) v = Some b -> b ∈ ex_blocks /\ db_hash b = v.
Proof.
  unfold NF. rewrite <- (elem_of_non_finalized elements) by apply iteration_elements. intros Hv.
  assert (non_finalized_list elements (non_finalized_blks_ (dag ex_manager)) = [3; 2; 5; 4]) as E by (vm_compute; reflexivity). rewrite E in Hv. clear E.
  repeat (apply elem_of_cons in Hv as [->|Hv]; [intros Hb; vm_compute in Hb; injection Hb as <-; split; [unfold ex_blocks; rewrite !elem_of_cons; tauto|reflexivity]|]).
  exfalso. exact (proj1 (elem_of_nil _) Hv).
Qed.

Lemma ex_new_node_db h : storage_getDagBlock (dm_db ex_new_node) h = None.
Proof. assert (dm_db ex_new_node = mkDagStorage ∅ ∅ ∅ 0 0) as -> by (vm_compute; reflexivity). reflexivity. Qed.

Lemma ex_same_chain : same_chain ex_genesis ex_new_node ex_manager.
Proof.
  pose proof ex_manager_ok as [[HB _] _].
  assert (forall v, NF (dag ex_manager) v -> exists b, blk_of ex_genesis (dm_db ex_manager) v = Some b /\ b ∈ ex_blocks /\ db_hash b = v) as Hall.
  { intros v (l & X & Hl & HX). destruct (g_level _ _ _ (m_dag _ _ HB) _ _ _ Hl HX) as (b & Hb & _ & _). exists b. split; [exact Hb|]. apply ex_peer_blocks; [exact (ex_intro _ l (ex_intro _ X (conj Hl HX)))|exact Hb]. }
  assert (forall P : DagBlock -> Prop, Forall P ex_blocks -> forall v b, NF (dag ex_manager) v -> blk_of ex_genesis (dm_db ex_manager) v = Some b -> P b) as Hex.
  { intros P HP v b Hv Hb. rewrite Forall_forall in HP. apply HP, (ex_peer_blocks v b Hv Hb). }
  split.
  - vm_compute. reflexivity.
  - intros h a b Ha Hb. unfold blk_of in Ha. rewrite ex_new_node_db in Ha. destruct (decide (h = db_hash ex_genesis)) as [E|_]; [|discriminate Ha].
    rewrite E in Hb. vm_compute in Hb. injection Ha as <-. injection Hb as <-. reflexivity.
  - intros v b u Hv Hb Hu Hn. assert (u = 1) as ->; [|eexists; vm_compute; reflexivity].
    revert u Hu Hn. apply (Hex (fun b => forall u, u ∈ parents b -> ~ NF (dag ex_manager) u -> u = 1)) with (v := v); [|exact Hv|exact Hb].
    repeat constructor; intros u Hu Hn; unfold parents in Hu; cbn [db_pivot db_tips ex_block] in Hu;
      repeat (apply elem_of_cons in Hu as [->|Hu]; [first [reflexivity|exfalso; apply Hn, ex_NF; lia]|]); exfalso; exact (proj1 (elem_of_nil _) Hu).
  - intros v _ Hs. rewrite ex_new_node_db in Hs. destruct Hs as [? [=]].
  - apply Hex. repeat constructor; vm_compute; reflexivity.
  - apply Hex. repeat constructor; vm_compute; discriminate.
  - intros Hn. destruct (Hall _ Hn) as (b & _ & Hb & Hh). unfold ex_blocks in Hb. repeat (apply elem_of_cons in Hb as [->|Hb]; [discriminate Hh|]). exact (proj1 (elem_of_nil _) Hb).
Qed.

Lemma ex_verifies trxs b : b ∈ ex_blocks -> verifies ex_genesis ex_sync_env ex_new_node ex_manager trxs b.
Proof.
  intros Hb m _ He _. assert (dag_expiry_level_ m = 0) as He0 by (rewrite He; vm_compute; reflexivity). clear He.
  unfold verifyBlock. cbn [getProposalPeriodForDagLevel ve_getTransactions getVrfKey verifyVdf dposIsEligible ex_sync_env negb].
  assert (kDagBlockMaxTips <? Z.of_nat (length (db_tips b)) = false /\ tips_unique {[db_pivot b]} (db_tips b) = true /\ 0 <= db_level b /\ db_gas_estimation b = 0 /\
    1000 / 100 <? Z.of_nat (length (db_tips b)) + 1 = false) as (-> & -> & Hl & Hg & Ht).
  { revert b Hb. apply Forall_forall. repeat constructor; vm_compute; first [reflexivity|discriminate]. }
  cbn [negb]. rewrite He0. destruct (Z.ltb_spec (db_level b) 0) as [?|_]; [lia|].
  destruct (if decide (trxs = ∅) then _ else _) as [found query]. unfold ex_fetch at 1. rewrite length_map, Nat.ltb_irrefl.
  unfold verify_gas. cbn [getGasLimits estimateTransactions ex_sync_env]. rewrite Hg, Ht. cbn. by eexists.
Qed.

Lemma dag_sync_complete_witness : exists answer mA' peerB',
  processDagSync elements ex_genesis (fun _ => false) (fun _ => true) ex_sync_env ex_new_node 1000 (set_dag_syncing (newTaraxaPeer 7 1000) true) answer = Done (mA', peerB', [], None) /\
  NF (dag mA') 4.
Proof.
  pose proof ex_manager_ok as [[HB _] _].
  destruct (dag_sync_complete elements ex_genesis ex_sync_env ex_new_node ex_manager (newTaraxaPeer 8 1000) (newTaraxaPeer 7 1000) ex_fetch (fun _ => false) (fun _ => true) 1000 1000
    iteration_elements ex_new_node_ok HB ex_same_chain) as (req & asked & pA & ans & mA' & pB & Hreq & _ & Hans & _ & Hnf & _).
  - vm_compute. reflexivity.
  - reflexivity.
  - reflexivity.
  - apply known_ok_new. split; apply Nat.leb_le; vm_compute; reflexivity.
  - apply known_ok_new. split; apply Nat.leb_le; vm_compute; reflexivity.
  - reflexivity.
  - intros hs t _. right. reflexivity.
  - intros b hs Hn Hb _. apply ex_verifies, (ex_peer_blocks _ _ Hn Hb).
  - exists ans, mA', pB. cbn in Hreq. injection Hreq as <- _. split; [exact Hans|]. apply Hnf. right. apply ex_NF. lia.
Defined.

(** A node that finalized blocks 2, 3 and 4 as period 1; its peer did not yet. *)
Definition ex_ahead : DagManager := fst (outcome_get (no_dag, 0) (setDagBlockOrder elements ex_genesis 1 ex_manager 4 1 [2; 3; 4] (fun _ => false))).

Lemma ex_ahead_ok : dm_inv ex_genesis ex_ahead.
Proof.
  destruct ex_manager_ok as [[Hinv Hc] Hsm].
  assert (exists m', setDagBlockOrder elements ex_genesis 1 ex_manager 4 (u64 (period_ ex_manager + 1)) [2; 3; 4] (fun _ => false) = Done (m', 3) /\ dm_inv ex_genesis m') as (m' & Hs & Hi).
  { edestruct (setDagBlockOrder_effect elements ex_genesis 1 ex_manager) as (m' & Hs & Hi & _); [exact iteration_elements|exact Hinv|exact Hc|exact Hsm|lia| | | |exists m'; split; [exact Hs|exact Hi]].
    - set_solver.
    - lia.
    - intros v Hv. apply (proj1 (Forall_forall (fun v => is_Some (blk_of ex_genesis (dm_db ex_manager) v)) [2; 3; 4])); [|exact Hv].
      repeat constructor; vm_compute; by eexists. }
  rewrite ex_period in Hs. unfold ex_ahead. rewrite Hs. exact Hi.
Qed.

Lemma dag_sync_race_witness : exists request asked answer,
  requestPendingDagBlocks elements 0 ex_ahead (set_chain_size (newTaraxaPeer 7 1000) 0) = (asked, [SendGetDagSync request]) /\
  processDagSync elements ex_genesis (fun _ => false) (fun _ => true) ex_sync_env ex_ahead 1000 asked answer = Done (ex_ahead, asked, [], Some MaliciousPeer).
Proof.
  destruct (dag_sync_race elements ex_genesis ex_sync_env ex_ahead ex_manager (newTaraxaPeer 8 1000) (set_chain_size (newTaraxaPeer 7 1000) 0) ex_fetch (fun _ => false) (fun _ => true) 1000 1000
    iteration_elements ex_ahead_ok (proj1 (proj1 ex_manager_ok))) as (req & asked & ans & H1 & _ & H2); [vm_compute; reflexivity..|].
  exists req, asked, ans. exact (conj H1 H2).
Defined.
