(* ===== verification/PeersState.v ===== *)
(** * Connected peers and the state of synchronisation

    The peers of a node and the peer it synchronises with (network/src/tarcap/shared_states: peers_state.cpp,
    pbft_syncing_state.cpp), connections and the first checks of packets (taraxa_capability.cpp), status packets
    (packets_handlers/latest/status_packet_handler.cpp) and the start of a synchronisation
    (packets_handlers/interface/sync_packet_handler.cpp).  A peer is an object that several owners share: the maps and
    the state of synchronisation hold references into a store.  Clocks, the size of the queue of packets and the statistics
    of peers are arguments; the host and the sessions are alive. *)

From S2P Require Import Prelude Votes PbftChain Caches TransactionQueue ThreadPool Dag DagOrder DagManager DagManagerInv DagPeriods TaraxaPeer DagSync.
Local Open Scope Z_scope.
Local Open Scope outcome_scope.

(** ** Data *)

Record InitialData := mkInitialData {
  peer_chain_id : Z;
  genesis_hash : blk_hash_t;
  sp_is_light_node : bool;
  node_history : PbftPeriod;
}.

Record StatusPacket := mkStatusPacket {
  peer_pbft_chain_size : PbftPeriod;
  peer_pbft_round : Z;
  peer_dag_level : Z;
  peer_syncing : bool;
  initial_data : option InitialData;
}.

Inductive net_packet :=
| PktStatus (s : StatusPacket)
| PktGetPbftSync (height_to_sync : PbftPeriod)
| PktGetDagSync (p : GetDagSyncPacket)
| PktGetNextVotes (period : PbftPeriod) (round : Z)
| PktDagBlock (p : DagBlockPacket)
| PktVote (vote : PbftVote) (optional_data : option (PbftBlock * PbftPeriod))
| PktVotesBundle (votes : list PbftVote).

Definition net_packet_type (p : net_packet) : SubprotocolPacketType :=
  match p with
  | PktStatus _ => kStatusPacket
  | PktGetPbftSync _ => kGetPbftSyncPacket
  | PktGetDagSync _ => kGetDagSyncPacket
  | PktGetNextVotes _ _ => kGetNextVotesSyncPacket
  | PktDagBlock _ => kDagBlockPacket
  | PktVote _ _ => kVotePacket
  | PktVotesBundle _ => kVotesBundlePacket
  end.

(** Calls of the host, the thread pool and the database. *)
Inductive net_action :=
| HostDisconnect (node : Z)
| HostSend (node : Z) (p : net_packet)
| PoolPush (node : Z) (t : SubprotocolPacketType)
| DisableSnapshots
| EnableSnapshots.

(** [kDeepSyncingThreshold] and times in nanoseconds. *)
Record PbftSyncingState := mkPbftSyncingState {
  deep_pbft_syncing_ : bool;
  pbft_syncing_ : bool;
  last_received_sync_packet_time_ : Z;
  peer_ : option nat;
  last_syncing_peer_ : option nat;
}.

(** Members of [TaraxaCapability] for queues over the limit. *)
Record QueueLimit := mkQueueLimit {
  last_ddos_disconnect_time_ : Z;
  queue_over_limit_start_time_ : Z;
  queue_over_limit_ : bool;
  last_disconnect_number_of_peers_ : Z;
}.

Record Net := mkNet {
  store : gmap nat TaraxaPeer;
  next_ref : nat;
  peers_ : gmap Z nat;
  pending_peers_ : gmap Z nat;
  malicious_peers_ : gmap Z Z;
  sync_state : PbftSyncingState;
  queue_limit : QueueLimit;
  net_out : list net_action;
}.

Record NetConfig := mkNetConfig {
  transactions_pool_size : nat;
  disable_peer_blacklist : bool;
  peer_blacklist_timeout : Z;
  kDeepSyncingThreshold : Z;
  chain_id : Z;
  kGenesisHash : blk_hash_t;
  is_light_node : bool;
  light_node_history : Z;
  packets_stats_time_period_ms : Z;
  peer_max_packets_processing_time_us : Z;
  peer_max_packets_queue_size_limit : Z;
  max_packets_queue_size : Z;
  queue_limit_time : Z;             (* nanoseconds *)
  peer_disconnect_interval : Z;     (* nanoseconds *)
}.

(** The steady clock in nanoseconds and the system clock in nanoseconds. *)
Record Clock := mkClock { steady_now : Z; system_now : Z }.
Definition system_seconds (c : Clock) : Z := Z.quot (system_now c) (10 ^ 9).

Definition kSyncingInactivityThreshold : Z := 60.

Definition with_store (n : Net) (s : gmap nat TaraxaPeer) : Net :=
  mkNet s (next_ref n) (peers_ n) (pending_peers_ n) (malicious_peers_ n) (sync_state n) (queue_limit n) (net_out n).
Definition with_peers (n : Net) (peers pending : gmap Z nat) : Net :=
  mkNet (store n) (next_ref n) peers pending (malicious_peers_ n) (sync_state n) (queue_limit n) (net_out n).
Definition with_malicious (n : Net) (m : gmap Z Z) : Net :=
  mkNet (store n) (next_ref n) (peers_ n) (pending_peers_ n) m (sync_state n) (queue_limit n) (net_out n).
Definition with_sync (n : Net) (s : PbftSyncingState) : Net :=
  mkNet (store n) (next_ref n) (peers_ n) (pending_peers_ n) (malicious_peers_ n) s (queue_limit n) (net_out n).
Definition with_queue (n : Net) (q : QueueLimit) : Net :=
  mkNet (store n) (next_ref n) (peers_ n) (pending_peers_ n) (malicious_peers_ n) (sync_state n) q (net_out n).
Definition act (n : Net) (l : list net_action) : Net :=
  mkNet (store n) (next_ref n) (peers_ n) (pending_peers_ n) (malicious_peers_ n) (sync_state n) (queue_limit n) (net_out n ++ l).

(** The object behind a reference. *)
Definition deref (n : Net) (r : nat) : outcome TaraxaPeer := match store n !! r with Some p => Done p | None => Undefined end.
Definition assign (n : Net) (r : nat) (p : TaraxaPeer) : Net := with_store n (<[r := p]> (store n)).

Section network.
Context (conf : NetConfig).
(** Iteration order of the map of peers. *)
Context (iter_peers : gmap Z nat -> list (Z * nat)).

(** ** PeersState *)

Definition getPeer (n : Net) (node_id : Z) : option nat := peers_ n !! node_id.
Definition getPendingPeer (n : Net) (node_id : Z) : option nat := pending_peers_ n !! node_id.

Definition getPacketSenderPeer (n : Net) (node_id : Z) (packet_type : SubprotocolPacketType) : option nat :=
  match peers_ n !! node_id with
  | Some r => Some r
  | None =>
      match pending_peers_ n !! node_id with
      | Some r => if bool_decide (packet_type = kStatusPacket) then Some r else None
      | None => None
      end
  end.

Definition getPeersCount (n : Net) : Z := Z.of_nat (size (peers_ n)).

Definition addPendingPeer (n : Net) (node_id : Z) : Net :=
  match pending_peers_ n !! node_id with
  | Some _ => n
  | None =>
      mkNet (<[next_ref n := newTaraxaPeer node_id (transactions_pool_size conf)]> (store n)) (S (next_ref n)) (peers_ n)
        (<[node_id := next_ref n]> (pending_peers_ n)) (malicious_peers_ n) (sync_state n) (queue_limit n) (net_out n)
  end.

Definition erasePeer (n : Net) (node_id : Z) : Net := with_peers n (delete node_id (peers_ n)) (delete node_id (pending_peers_ n)).

Definition setPeerAsReadyToSendMessages (n : Net) (node_id : Z) (r : nat) : Net :=
  with_peers n (match peers_ n !! node_id with Some _ => peers_ n | None => <[node_id := r]> (peers_ n) end) (delete node_id (pending_peers_ n)).

Definition set_peer_malicious (n : Net) (c : Clock) (node_id : Z) : Net :=
  match malicious_peers_ n !! node_id with
  | Some _ => n
  | None => with_malicious n (<[node_id := steady_now c]> (malicious_peers_ n))
  end.

Definition seconds_since (c : Clock) (t : Z) : Z := Z.quot (steady_now c - t) (10 ^ 9).

Definition is_peer_malicious (n : Net) (c : Clock) (node_id : Z) : Net * bool :=
  let expire n :=
    if 0 <? peer_blacklist_timeout conf
    then with_malicious n (filter (fun e => ~ peer_blacklist_timeout conf < seconds_since c e.2) (malicious_peers_ n)) else n in
  if disable_peer_blacklist conf then (n, false)
  else
    match malicious_peers_ n !! node_id with
    | Some t =>
        if (peer_blacklist_timeout conf =? 0) || (seconds_since c t <=? peer_blacklist_timeout conf) then (n, true)
        else (expire (with_malicious n (delete node_id (malicious_peers_ n))), false)
    | None => (expire n, false)
    end.

Definition disconnectPeer (n : Net) (node_id : Z) : Net := act n [HostDisconnect node_id].
Definition handleMaliciousSyncPeer (n : Net) (c : Clock) (node_id : Z) : Net := disconnectPeer (set_peer_malicious n c node_id) node_id.

(** The objects of the connected peers. *)
Fixpoint peer_objects (n : Net) (l : list (Z * nat)) : outcome (list TaraxaPeer) :=
  match l with
  | [] => Done []
  | (_, r) :: l' => let* p := deref n r in let* ps := peer_objects n l' in Done (p :: ps)
  end.

(** The chosen peer is found again by its id, the key of the map. *)
Definition maxChainPeer (n : Net) (sync_period : PbftPeriod) (filter_func : TaraxaPeer -> bool) : outcome (Net * option nat) :=
  let* objects := peer_objects n (iter_peers (peers_ n)) in
  let '(best, dropped) := getMaxChainPeer sync_period filter_func objects in
  Done (act n (map HostDisconnect dropped), match best with Some p => peers_ n !! id_ p | None => None end).

Definition sealAndSend (n : Net) (node_id : Z) (p : net_packet) : Net * bool :=
  match getPacketSenderPeer n node_id (net_packet_type p) with
  | None => (act n [HostDisconnect node_id], false)
  | Some _ => (act n [HostSend node_id p], true)
  end.

(** ** PbftSyncingState *)

Definition syncingPeer (n : Net) : option nat := peer_ (sync_state n).
Definition lastSyncingPeer (n : Net) : option nat := last_syncing_peer_ (sync_state n).
Definition isDeepPbftSyncing (n : Net) : bool := deep_pbft_syncing_ (sync_state n).

(** The difference of the periods is unsigned. *)
Definition is_deep (p : TaraxaPeer) (period : PbftPeriod) : bool := kDeepSyncingThreshold conf <=? u64 (pbft_chain_size_ (peer_status p) - period).

Definition set_deep (n : Net) (deep : bool) : Net :=
  let s := sync_state n in
  with_sync n (mkPbftSyncingState deep (pbft_syncing_ s) (last_received_sync_packet_time_ s) (peer_ s) (last_syncing_peer_ s)).

(** The part of [setSyncStatePeriod] after the flag was read as true. *)
Definition set_deep_of_peer (n : Net) (period : PbftPeriod) : outcome Net :=
  match peer_ (sync_state n) with
  | None => Undefined
  | Some r => let* p := deref n r in Done (set_deep n (is_deep p period))
  end.
Definition setSyncStatePeriod (n : Net) (period : PbftPeriod) : outcome Net :=
  if pbft_syncing_ (sync_state n) then set_deep_of_peer n period else Done (set_deep n false).

Definition setLastSyncPacketTime (n : Net) (c : Clock) : Net :=
  let s := sync_state n in
  with_sync n (mkPbftSyncingState (deep_pbft_syncing_ s) (pbft_syncing_ s) (steady_now c) (peer_ s) (last_syncing_peer_ s)).

Definition setPbftSyncing (n : Net) (c : Clock) (syncing : bool) (current_period : PbftPeriod) (peer : option nat) : outcome (Net * bool) :=
  let s := sync_state n in
  if negb (syncing && bool_decide (is_Some peer) || negb syncing) then AssertFailed
  else if pbft_syncing_ s && syncing then Done (n, false)
  else
    match peer with
    | Some r =>
        if syncing then
          let* p := deref n r in
          let p := if dagSyncingAllowed p (system_seconds c) then set_dag_synced p false else p in
          let n := assign n r p in
          Done (with_sync n (mkPbftSyncingState (is_deep p current_period) true (steady_now c) (Some r) (Some r)), true)
        else Done (with_sync n (mkPbftSyncingState false false (last_received_sync_packet_time_ s) (Some r) (last_syncing_peer_ s)), true)
    | None => Done (with_sync n (mkPbftSyncingState false false (last_received_sync_packet_time_ s) None (last_syncing_peer_ s)), true)
    end.

Definition stop_syncing (n : Net) (c : Clock) : outcome Net := let* (n, _) := setPbftSyncing n c false 0 None in Done n.

Definition isActivelySyncing (n : Net) (c : Clock) : bool :=
  seconds_since c (last_received_sync_packet_time_ (sync_state n)) <=? kSyncingInactivityThreshold.

Definition isPbftSyncing (n : Net) (c : Clock) : outcome (Net * bool) :=
  let* n := if isActivelySyncing n c then Done n else stop_syncing n c in
  Done (n, pbft_syncing_ (sync_state n)).

(** ** The start of a synchronisation *)

Definition syncPeerPbft (n : Net) (request_period : PbftPeriod) : outcome (Net * bool) :=
  match syncingPeer n with
  | None => Done (n, false)
  | Some r =>
      let* p := deref n r in
      if pbft_chain_size_ (peer_status p) <? request_period then Done (n, false)
      else Done (sealAndSend n (id_ p) (PktGetPbftSync request_period))
  end.

Definition startSyncingPbft (n : Net) (c : Clock) (sync_period : PbftPeriod) : outcome Net :=
  let* (n, already) := isPbftSyncing n c in
  if already : bool then Done n
  else
    let* (n, peer) := maxChainPeer n sync_period (fun _ => true) in
    match peer with
    | None => Done n
    | Some r =>
        let* p := deref n r in
        if sync_period <? pbft_chain_size_ (peer_status p) then
          let* (n, changed) := setPbftSyncing n c true sync_period (Some r) in
          if negb changed then Done n
          else
            let* (n, sent) := syncPeerPbft n (u64 (sync_period + 1)) in
            if sent : bool then Done (if isDeepPbftSyncing n then act n [DisableSnapshots] else n) else stop_syncing n c
        else Done (act n [EnableSnapshots])
    end.

(** ** Status packets *)

(** What the other managers answer: the synchronised period, the size of the chain, round and period of the manager, and the DAG. *)
Record NodeView := mkNodeView {
  view_sync_period : PbftPeriod;
  view_chain_size : PbftPeriod;
  view_round : Z;
  view_period : PbftPeriod;
  view_dag : DagManager;
}.
Context (iter : gset blk_hash_t -> list blk_hash_t).

Definition sendStatus (n : Net) (c : Clock) (v : NodeView) (node_id : Z) (initial : bool) : outcome (Net * bool) :=
  if initial then
    let* (n, syncing) := isPbftSyncing n c in
    Done (sealAndSend n node_id (PktStatus (mkStatusPacket (view_chain_size v) (view_round v) (max_level_ (view_dag v)) syncing
      (Some (mkInitialData (chain_id conf) (kGenesisHash conf) (is_light_node conf) (light_node_history conf))))))
  else Done (sealAndSend n node_id (PktStatus (mkStatusPacket (view_chain_size v) (view_round v) (max_level_ (view_dag v)) (isDeepPbftSyncing n) None))).

Definition sendStatusToPeers (n : Net) (c : Clock) (v : NodeView) : outcome Net :=
  ofold (fun n e => let* (n, _) := sendStatus n c v e.1 false in Done n) (iter_peers (peers_ n)) n.

(** Fields that a status packet sets. *)
Definition status_of (s : PeerStatus) (packet : StatusPacket) : PeerStatus :=
  mkPeerStatus (peer_syncing packet) (peer_dag_level packet) (peer_pbft_chain_size packet) (u64 (peer_pbft_chain_size packet + 1))
    (peer_pbft_round packet) (last_status_pbft_chain_size_ s) (peer_light_node s) (peer_light_node_history s).
Definition set_light_node (s : PeerStatus) (history : PbftPeriod) : PeerStatus :=
  mkPeerStatus (syncing_ s) (dag_level_ s) (pbft_chain_size_ s) (pbft_period_ s) (pbft_round_ s) (last_status_pbft_chain_size_ s) true history.
Definition set_last_status (s : PeerStatus) : PeerStatus :=
  mkPeerStatus (syncing_ s) (dag_level_ s) (pbft_chain_size_ s) (pbft_period_ s) (pbft_round_ s) (pbft_chain_size_ s) (peer_light_node s) (peer_light_node_history s).

(** A request to a peer is sent if it is a connected one. *)
Definition requestPendingDagBlocksOf (n : Net) (v : NodeView) (r : nat) : outcome Net :=
  let* p := deref n r in
  let '(p', actions) := requestPendingDagBlocks iter (view_sync_period v) (view_dag v) p in
  let n := assign n r p' in
  Done (foldl (fun n a => match a with SendGetDagSync q => (sealAndSend n (id_ p) (PktGetDagSync q)).1 | _ => n end) n actions).

Definition processInitialStatus (n : Net) (v : NodeView) (r : nat) (packet : StatusPacket) (initial : InitialData) : outcome Net :=
  let* p := deref n r in
  let node_id := id_ p in
  if negb (peer_chain_id initial =? chain_id conf) then Done (act n [HostDisconnect node_id])
  else if negb (genesis_hash initial =? kGenesisHash conf) then Done (act n [HostDisconnect node_id])
  else
    let p := if sp_is_light_node initial then set_status p (set_light_node (peer_status p) (node_history initial)) else p in
    let n := assign n r p in
    if sp_is_light_node initial && (u64 (view_sync_period v + node_history initial) <? peer_pbft_chain_size packet) then Done (act n [HostDisconnect node_id])
    else
      let p := set_status p (status_of (peer_status p) packet) in
      Done (setPeerAsReadyToSendMessages (assign n r p) node_id r).

Definition processStandardStatus (n : Net) (c : Clock) (v : NodeView) (r : nat) (packet : StatusPacket) : outcome Net :=
  let* p := deref n r in
  let p := set_status p (status_of (peer_status p) packet) in
  let s := peer_status p in
  let* (n, syncing) := isPbftSyncing (assign n r p) c in
  let* n :=
    if syncing : bool then Done n
    else
      let* n :=
        if view_sync_period v <? pbft_chain_size_ s then
          if u64 (view_sync_period v + 1) <? pbft_chain_size_ s then startSyncingPbft n c (view_sync_period v)
          else if last_status_pbft_chain_size_ s =? pbft_chain_size_ s then startSyncingPbft n c (view_sync_period v)
          else Done n
        else if (view_sync_period v =? pbft_chain_size_ s) && negb (peer_dag_synced_ (peer_sync p)) then requestPendingDagBlocksOf n v r
        else Done n in
      if (view_period v =? pbft_period_ s) && (view_round v <? pbft_round_ s)
      then Done (sealAndSend n (id_ p) (PktGetNextVotes (view_period v) (view_round v))).1 else Done n in
  let* p := deref n r in
  Done (assign n r (set_status p (set_last_status (peer_status p)))).

Definition processStatus (n : Net) (c : Clock) (v : NodeView) (r : nat) (packet : StatusPacket) : outcome Net :=
  match initial_data packet with
  | Some initial => processInitialStatus n v r packet initial
  | None => processStandardStatus n c v r packet
  end.

(** ** Connections *)

Definition onConnect (n : Net) (c : Clock) (v : NodeView) (node_id : Z) : outcome Net :=
  let '(n, malicious) := is_peer_malicious n c node_id in
  if malicious : bool then Done (act n [HostDisconnect node_id])
  else if queue_over_limit_ (queue_limit n) && (last_disconnect_number_of_peers_ (queue_limit n) <=? getPeersCount n)
  then Done (act n [HostDisconnect node_id])
  else let* (n, _) := sendStatus (addPendingPeer n node_id) c v node_id true in Done n.

Definition onDisconnect (n : Net) (c : Clock) (sync_period : PbftPeriod) (node_id : Z) : outcome Net :=
  let n := erasePeer n node_id in
  let syncing_peer := syncingPeer n in
  let* (n, syncing) := isPbftSyncing n c in
  match syncing_peer with
  | Some r =>
      let* p := deref n r in
      if syncing && (id_ p =? node_id) then
        let* n := stop_syncing n c in
        if 0 <? getPeersCount n then startSyncingPbft n c sync_period else Done n
      else Done n
  | None => Done n
  end.

Definition filterSyncIrrelevantPackets (t : SubprotocolPacketType) : bool :=
  match t with kStatusPacket | kGetPbftSyncPacket | kPbftSyncPacket => false | _ => true end.

(** The peer with the highest processing time, of those above 0. *)
Fixpoint highest_processing (stats : Z -> Z) (l : list (Z * nat)) (best : Z * Z) : Z * Z :=
  match l with
  | [] => best
  | (node, _) :: l' => highest_processing stats l' (if best.1 <? stats node then (stats node, node) else best)
  end.

(** [stats]: processing time of a peer's packets. The peer with the highest is found and logged; the sender is disconnected. *)
Definition handlePacketQueueOverLimit (n : Net) (c : Clock) (stats : Z -> Z) (node_id : Z) : Net :=
  let q := queue_limit n in
  let q := if queue_over_limit_ q then q
           else mkQueueLimit (last_ddos_disconnect_time_ q) (system_now c) true (last_disconnect_number_of_peers_ q) in
  let n := with_queue n q in
  if queue_limit_time conf <? system_now c - queue_over_limit_start_time_ q then
    if peer_disconnect_interval conf <? system_now c - last_ddos_disconnect_time_ q then
      let connected_peers := peers_ n in
      let count := Z.of_nat (size connected_peers) in
      let n := with_queue n (mkQueueLimit (system_now c) (queue_over_limit_start_time_ q) (queue_over_limit_ q) (u32 count)) in
      if 5 <? count then
        let peer_max_processing_time := highest_processing stats (iter_peers connected_peers) (0, 0) in
        act n [HostDisconnect node_id]
      else n
    else n
  else n.

(** [queue_size]: packets in the thread pool; [start_time] and [processing]: statistics of the sender. *)
Definition interpretCapabilityPacket (n : Net) (c : Clock) (queue_size : Z) (stats : Z -> Z) (start_time processing : Z)
    (node_id : Z) (packet_type : SubprotocolPacketType) : Net :=
  match getPacketSenderPeer n node_id packet_type with
  | None => act n [HostDisconnect node_id]
  | Some _ =>
      if isDeepPbftSyncing n && filterSyncIrrelevantPackets packet_type then n
      else
        let limit := peer_max_packets_queue_size_limit conf in
        let current_time_period := Z.quot (system_now c - start_time - 250 * 10 ^ 6) (10 ^ 6) in
        if negb (limit =? 0) && (limit <? queue_size) && (current_time_period <=? packets_stats_time_period_ms conf) &&
           (peer_max_packets_processing_time_us conf <? processing) then act n [HostDisconnect node_id]
        else
          let max := max_packets_queue_size conf in
          let n := if negb (max =? 0) && (max <? queue_size) then handlePacketQueueOverLimit n c stats node_id
                   else with_queue n (mkQueueLimit (last_ddos_disconnect_time_ (queue_limit n)) (queue_over_limit_start_time_ (queue_limit n)) false 0) in
          act n [PoolPush node_id packet_type]
  end.
End network.

(** ** Events *)

Definition newNet : Net := mkNet ∅ 0 ∅ ∅ ∅ (mkPbftSyncingState false false 0 None None) (mkQueueLimit 0 0 false 0) [].

(** What happens to the shared state, one event after another. *)
Inductive net_event :=
| Connected (c : Clock) (v : NodeView) (node : Z)
| Disconnected (c : Clock) (sync_period : PbftPeriod) (node : Z)
| PacketArrived (c : Clock) (queue_size : Z) (stats : Z -> Z) (start_time processing : Z) (node : Z) (t : SubprotocolPacketType)
| StatusProcessed (c : Clock) (v : NodeView) (node : Z) (packet : StatusPacket)
| PacketFailed (c : Clock) (e : PacketException) (sender : Z)
| SyncStarted (c : Clock) (sync_period : PbftPeriod)
| SyncStopped (c : Clock)
| SyncRequested (request_period : PbftPeriod)
| SyncPacketArrived (c : Clock)
| PeriodSynced (period : PbftPeriod)
| StatusTimer (c : Clock) (v : NodeView).

Section events.
Context (conf : NetConfig) (iter_peers : gmap Z nat -> list (Z * nat)) (iter : gset blk_hash_t -> list blk_hash_t).

(** [processPacket] for a status packet. *)
Definition processStatusPacket (n : Net) (c : Clock) (v : NodeView) (node : Z) (packet : StatusPacket) : outcome Net :=
  match getPacketSenderPeer n node kStatusPacket with
  | None => Done (act n [HostDisconnect node])
  | Some r => processStatus conf iter_peers iter n c v r packet
  end.

Definition handle_caught_exception (n : Net) (c : Clock) (e : PacketException) (sender : Z) : Net :=
  let '(peer, malicious) := handle_exception e sender in
  act (if malicious : bool then set_peer_malicious n c peer else n) [HostDisconnect peer].

Definition net_handle (n : Net) (e : net_event) : outcome Net :=
  match e with
  | Connected c v node => onConnect conf n c v node
  | Disconnected c sp node => onDisconnect conf iter_peers n c sp node
  | PacketArrived c q stats st pr node t => Done (interpretCapabilityPacket conf iter_peers n c q stats st pr node t)
  | StatusProcessed c v node packet => processStatusPacket n c v node packet
  | PacketFailed c x sender => Done (handle_caught_exception n c x sender)
  | SyncStarted c sp => startSyncingPbft conf iter_peers n c sp
  | SyncStopped c => stop_syncing conf n c
  | SyncRequested p => let* (n, _) := syncPeerPbft n p in Done n
  | SyncPacketArrived c => Done (setLastSyncPacketTime n c)
  | PeriodSynced p => setSyncStatePeriod conf n p
  | StatusTimer c v => sendStatusToPeers conf iter_peers n c v
  end.
End events.

(** ** The invariant *)

Record net_ok (n : Net) : Prop := {
  no_peers : forall id r, peers_ n !! id = Some r -> exists p, store n !! r = Some p /\ id_ p = id;
  no_pending : forall id r, pending_peers_ n !! id = Some r -> exists p, store n !! r = Some p /\ id_ p = id;
  no_sync : forall r, peer_ (sync_state n) = Some r -> is_Some (store n !! r);
  no_last : forall r, last_syncing_peer_ (sync_state n) = Some r -> is_Some (store n !! r);
  no_flag : pbft_syncing_ (sync_state n) = bool_decide (is_Some (peer_ (sync_state n)));
  no_deep : deep_pbft_syncing_ (sync_state n) = true -> pbft_syncing_ (sync_state n) = true;
  no_fresh : forall r, is_Some (store n !! r) -> (r < next_ref n)%nat;
}.

Create HintDb net.

Lemma net_ok_new : net_ok newNet.
Proof. split; simpl; try done. intros r [? H]. by rewrite lookup_empty in H. Qed.

Lemma net_ok_act n l : net_ok n -> net_ok (act n l).
Proof. by intros []; split. Qed.
Lemma net_ok_queue n q : net_ok n -> net_ok (with_queue n q).
Proof. by intros []; split. Qed.
Lemma net_ok_malicious n m : net_ok n -> net_ok (with_malicious n m).
Proof. by intros []; split. Qed.
Lemma net_ok_erase n id : net_ok n -> net_ok (erasePeer n id).
Proof. intros []; split; simpl; try done; intros id' r [_ ?]%lookup_delete_Some; eauto. Qed.
Lemma net_ok_time n c : net_ok n -> net_ok (setLastSyncPacketTime n c).
Proof. by intros []; split. Qed.
Lemma net_ok_deep n deep : net_ok n -> (deep = true -> pbft_syncing_ (sync_state n) = true) -> net_ok (set_deep n deep).
Proof. by intros [] Hd; split. Qed.
#[export] Hint Resolve net_ok_new net_ok_act net_ok_queue net_ok_malicious net_ok_erase net_ok_time : net.

(** An object keeps its id. *)
Lemma net_ok_assign n r p p' : store n !! r = Some p -> id_ p' = id_ p -> net_ok n -> net_ok (assign n r p').
Proof.
  intros Hr Hid []. assert (forall r0 q, store n !! r0 = Some q -> exists q', <[r := p']> (store n) !! r0 = Some q' /\ id_ q' = id_ q) as Hs.
  { intros r0 q Hq. destruct (decide (r = r0)) as [<-|Hne]; [rewrite lookup_insert_eq; eexists; split; [done|]; congruence|]. rewrite lookup_insert_ne by done. by eexists. }
  split; simpl; try done.
  - intros id r0 (q & Hq & <-)%no_peers0. by apply Hs.
  - intros id r0 (q & Hq & <-)%no_pending0. by apply Hs.
  - intros r0 [q Hq]%no_sync0. destruct (Hs _ _ Hq) as (q' & ? & _). by eexists.
  - intros r0 [q Hq]%no_last0. destruct (Hs _ _ Hq) as (q' & ? & _). by eexists.
  - intros r0 [q [[<- _]|[_ Hq]]%lookup_insert_Some]; apply no_fresh0; by eexists.
Qed.

Lemma net_ok_set_malicious n c id : net_ok n -> net_ok (set_peer_malicious n c id).
Proof. unfold set_peer_malicious. destruct (malicious_peers_ n !! id); auto with net. Qed.
Lemma net_ok_is_malicious conf n c id : net_ok n -> net_ok (is_peer_malicious conf n c id).1.
Proof. intros H. unfold is_peer_malicious. repeat (case_match; simpl; auto with net). Qed.
Lemma net_ok_send n id p : net_ok n -> net_ok (sealAndSend n id p).1.
Proof. intros H. unfold sealAndSend. case_match; simpl; auto with net. Qed.
#[export] Hint Resolve net_ok_set_malicious net_ok_is_malicious net_ok_send : net.

Lemma net_ok_pending conf n id : net_ok n -> net_ok (addPendingPeer conf n id).
Proof.
  intros Hn. pose proof Hn as []. unfold addPendingPeer. destruct (pending_peers_ n !! id) eqn:E; [done|].
  assert (store n !! next_ref n = None) as Hf by (apply eq_None_not_Some; intros H%no_fresh0; lia).
  assert (forall r q, store n !! r = Some q -> <[next_ref n := newTaraxaPeer id (transactions_pool_size conf)]> (store n) !! r = Some q) as Hs.
  { intros r q Hq. rewrite lookup_insert_ne; [done|]. intros <-. congruence. }
  split; simpl; try done.
  - intros id' r (q & Hq & <-)%no_peers0. eauto.
  - intros id' r [[<- <-]|[_ (q & Hq & <-)%no_pending0]]%lookup_insert_Some; [rewrite lookup_insert_eq; by eexists|eauto].
  - intros r [q Hq]%no_sync0. eauto.
  - intros r [q Hq]%no_last0. eauto.
  - intros r [q [[<- _]|[_ Hq]]%lookup_insert_Some]; [lia|]. assert (r < next_ref n)%nat by eauto. lia.
Qed.

Lemma net_ok_ready n id r p : store n !! r = Some p -> id_ p = id -> net_ok n -> net_ok (setPeerAsReadyToSendMessages n id r).
Proof.
  intros Hr Hid Hn. pose proof Hn as []. split; simpl; try done.
  - intros id' r'. destruct (peers_ n !! id) eqn:E; [apply no_peers0|]. intros [[<- <-]|[_ ?]]%lookup_insert_Some; eauto.
  - intros id' r' [_ ?]%lookup_delete_Some. eauto.
Qed.
#[export] Hint Resolve net_ok_pending : net.

(** A step of the state keeps the invariant and the objects. *)
Record evolves (n n' : Net) : Prop := {
  ev_ok : net_ok n';
  ev_store : forall r p, store n !! r = Some p -> exists p', store n' !! r = Some p' /\ id_ p' = id_ p;
}.

Lemma evolves_refl n : net_ok n -> evolves n n.
Proof. intros H. split; [done|]. intros r p Hr. by exists p. Qed.
Lemma evolves_trans n1 n2 n3 : evolves n1 n2 -> evolves n2 n3 -> evolves n1 n3.
Proof. intros [_ H1] [? H2]. split; [done|]. intros r p (p2 & Hp2 & <-)%H1. by apply H2. Qed.
Lemma evolves_same n n' : net_ok n' -> store n' = store n -> evolves n n'.
Proof. intros H E. split; [done|]. rewrite E. intros r p Hr. by exists p. Qed.
Lemma evolves_assign n r p p' : store n !! r = Some p -> id_ p' = id_ p -> net_ok n -> evolves n (assign n r p').
Proof.
  intros Hr Hid Hn. split; [by eapply net_ok_assign|]. intros r0 q Hq. simpl. destruct (decide (r = r0)) as [<-|Hne]; [rewrite lookup_insert_eq; eexists; split; [done|]; congruence|].
  rewrite lookup_insert_ne by done. by eexists.
Qed.
Lemma evolves_is_malicious conf n c id : net_ok n -> evolves n (is_peer_malicious conf n c id).1.
Proof. intros H. apply evolves_same; [auto with net|]. unfold is_peer_malicious. by repeat (case_match; simpl). Qed.
Lemma evolves_pending conf n id : net_ok n -> evolves n (addPendingPeer conf n id).
Proof.
  intros H. split; [auto with net|]. intros r p Hr. unfold addPendingPeer. case_match; [by exists p|]. exists p. split; [|done]. simpl.
  rewrite lookup_insert_ne; [done|]. intros <-. pose proof (no_fresh _ H (next_ref n) ltac:(by eexists)). lia.
Qed.
Lemma evolves_act n l : net_ok n -> evolves n (act n l).
Proof. intros H. by apply evolves_same; [auto with net|]. Qed.
Lemma evolves_send n id p : net_ok n -> evolves n (sealAndSend n id p).1.
Proof. intros H. apply evolves_same; [auto with net|]. unfold sealAndSend. by case_match. Qed.
#[export] Hint Resolve evolves_refl evolves_act evolves_send evolves_is_malicious evolves_pending ev_ok : net.

Lemma deref_some n r p : store n !! r = Some p -> deref n r = Done p.
Proof. unfold deref. by intros ->. Qed.

Section operations.
Context (conf : NetConfig) (iter_peers : gmap Z nat -> list (Z * nat)) (iter : gset blk_hash_t -> list blk_hash_t).
Context (Hiter : forall m, iter_peers m ≡ₚ map_to_list m).

Lemma setPbftSyncing_effect n c syncing period peer : net_ok n -> (syncing = true <-> is_Some peer) -> (forall r, peer = Some r -> is_Some (store n !! r)) ->
  exists n' b, setPbftSyncing conf n c syncing period peer = Done (n', b) /\ evolves n n' /\ peers_ n' = peers_ n /\ pending_peers_ n' = pending_peers_ n /\
    net_out n' = net_out n /\ b = negb (pbft_syncing_ (sync_state n) && syncing) /\ (b = true -> pbft_syncing_ (sync_state n') = syncing /\ peer_ (sync_state n') = peer) /\
    (forall r, store n' !! r = store n !! r \/ (peer = Some r /\ exists p b, store n !! r = Some p /\ store n' !! r = Some (set_dag_synced p b))).
Proof using.
  intros Hn Hs Hp. pose proof Hn as []. unfold setPbftSyncing.
  destruct peer as [r|]; [|destruct syncing; [by destruct (proj1 Hs eq_refl)|]].
  - assert (syncing = true) as -> by (apply Hs; by eexists). rewrite bool_decide_eq_true_2 by (by eexists). cbn [andb orb negb]. rewrite andb_true_r.
    destruct (pbft_syncing_ (sync_state n)) eqn:Ef; [exists n, false; split_and!; try done; [by apply evolves_refl|by left]|].
    destruct (Hp r eq_refl) as [p Hr]. rewrite (deref_some _ _ _ Hr). cbn [obind]. do 2 eexists. split; [done|].
    set (p' := if dagSyncingAllowed p (system_seconds c) then set_dag_synced p false else p).
    assert (id_ p' = id_ p) as Hid by (unfold p'; by destruct (dagSyncingAllowed _ _)).
    split_and!; try done.
    + apply (evolves_trans _ (assign n r p')); [by eapply evolves_assign|]. pose proof (net_ok_assign n r p p' Hr Hid Hn) as [].
      apply evolves_same; [|done]. split; simpl; try done; intros r0 [= <-]; rewrite lookup_insert_eq; by eexists.
    + intros r0. destruct (decide (r = r0)) as [<-|Hne]; [|left; simpl; by rewrite lookup_insert_ne]. right. split; [done|]. simpl. rewrite lookup_insert_eq.
      exists p. unfold p'. destruct (dagSyncingAllowed _ _); [by exists false|]. exists (peer_dag_synced_ (peer_sync p)). split; [done|]. by destruct p as [? ? [] ? ? ?].
  - cbn [andb orb negb]. rewrite andb_false_r. do 2 eexists. split; [done|]. split_and!; try done; [|by left]. apply evolves_same; [|done]. by split.
Qed.

Lemma stop_syncing_effect n c : net_ok n ->
  exists n', stop_syncing conf n c = Done n' /\ evolves n n' /\ peers_ n' = peers_ n /\ pending_peers_ n' = pending_peers_ n /\ store n' = store n /\ net_out n' = net_out n /\ pbft_syncing_ (sync_state n') = false.
Proof using.
  intros Hn. unfold stop_syncing. destruct (setPbftSyncing_effect n c false 0 None Hn) as (n' & b & -> & He & Hp & Hq & Ho & -> & Hb & Hst); [by split; [|intros []]|done|].
  cbn [obind]. exists n'. rewrite andb_false_r in Hb. destruct (Hb eq_refl). split_and!; try done. apply map_eq. intros r. by destruct (Hst r) as [?|[? _]].
Qed.

Lemma isPbftSyncing_effect n c : net_ok n ->
  exists n' b, isPbftSyncing conf n c = Done (n', b) /\ evolves n n' /\ peers_ n' = peers_ n /\ pending_peers_ n' = pending_peers_ n /\ store n' = store n /\ net_out n' = net_out n /\
    b = pbft_syncing_ (sync_state n') /\ b = pbft_syncing_ (sync_state n) && isActivelySyncing n c.
Proof using.
  intros Hn. unfold isPbftSyncing. destruct (isActivelySyncing n c); cbn [obind].
  - do 2 eexists. split; [done|]. rewrite andb_true_r. split_and!; try done. by apply evolves_refl.
  - destruct (stop_syncing_effect n c Hn) as (n' & -> & ? & ? & ? & ? & ? & Hf). cbn [obind]. do 2 eexists. split; [done|]. rewrite andb_false_r. by split_and!.
Qed.

Lemma peer_objects_effect n l : net_ok n -> (forall e, e ∈ l -> peers_ n !! e.1 = Some e.2) ->
  exists ps, peer_objects n l = Done ps /\ (forall p, p ∈ ps -> exists r, peers_ n !! id_ p = Some r /\ store n !! r = Some p) /\ (forall e p, e ∈ l -> store n !! e.2 = Some p -> p ∈ ps).
Proof using.
  intros Hn. induction l as [|[id r] l IH]; intros Hl; cbn [peer_objects]; [exists []; split_and!; [done|by intros p ?%elem_of_nil|by intros e p ?%elem_of_nil]|].
  pose proof (Hl (id, r) ltac:(by left)) as Hr. cbn [fst snd] in Hr. destruct (no_peers _ Hn _ _ Hr) as (p & Hp & <-). rewrite (deref_some _ _ _ Hp). cbn [obind].
  destruct IH as (ps & -> & Hin & Hall); [intros e He; apply Hl; by right|]. cbn [obind]. exists (p :: ps). split_and!; [done| |].
  - intros q [->|Hq]%elem_of_cons; [by exists r|by apply Hin].
  - intros e q [->|He]%elem_of_cons Hq; [simpl in Hq; assert (q = p) as -> by congruence; by left|right; by eapply Hall].
Qed.

(** The best of the connected peers, as [getMaxChainPeer] chooses it. *)
Lemma maxChainPeer_effect n sp f : net_ok n ->
  exists n' best dropped, maxChainPeer iter_peers n sp f = Done (n', best) /\ n' = act n (map HostDisconnect dropped) /\
    (forall r, best = Some r -> exists p, store n !! r = Some p /\ peers_ n !! id_ p = Some r /\ f p = true) /\
    (forall id r p, peers_ n !! id = Some r -> store n !! r = Some p -> f p = true -> lacks_history sp p = false ->
       rank_le (rank_of (Some p)) (rank_of (best ≫= (store n !!.)))).
Proof using Hiter.
  intros Hn. unfold maxChainPeer. destruct (peer_objects_effect n (iter_peers (peers_ n)) Hn) as (ps & -> & Hin & Hall).
  { intros [id r] He. rewrite Hiter in He. cbn [fst snd]. by apply elem_of_map_to_list in He. }
  cbn [obind]. destruct (max_chain_scan sp f ps None) as (H1 & _ & H3 & _). cbn [rank_of fst snd] in H1, H3. unfold getMaxChainPeer.
  destruct (max_chain_peer sp f ps None 0 0) as [best dropped]. cbn [fst] in H1, H3.
  exists (act n (map HostDisconnect dropped)), (match best with Some p => peers_ n !! id_ p | None => None end), dropped. split_and!; [done|done| |].
  - intros r Hr. destruct H1 as [->|(p & -> & Hp & Hf)]; [done|]. destruct (Hin p Hp) as (r' & Hr' & Hst). rewrite Hr in Hr'. injection Hr' as <-. by exists p.
  - intros id r p Hr Hp Hf Hl. assert (p ∈ ps) as Hps by (apply (Hall (id, r)); [rewrite Hiter; by apply elem_of_map_to_list|done]). specialize (H3 p Hps Hf Hl).
    destruct H1 as [->|(q & -> & Hq & _)]; [done|]. destruct (Hin q Hq) as (r' & Hr' & Hst). rewrite Hr'. simpl. by rewrite Hst.
Qed.
Lemma syncPeerPbft_total n period : net_ok n -> exists n' b, syncPeerPbft n period = Done (n', b) /\ evolves n n'.
Proof using.
  intros Hn. unfold syncPeerPbft, syncingPeer. destruct (peer_ (sync_state n)) as [r|] eqn:E; [|do 2 eexists; auto with net].
  destruct (no_sync _ Hn r E) as [p Hp]. rewrite (deref_some _ _ _ Hp). cbn [obind]. case_match; [do 2 eexists; auto with net|].
  rewrite (surjective_pairing (sealAndSend _ _ _)). do 2 eexists. split; [done|]. auto with net.
Qed.

(** A synchronisation starts with the best peer and asks it for the next period. *)
Lemma startSyncing_effect n c sp : net_ok n -> 0 <= sp < 2 ^ 64 - 1 ->
  exists n', startSyncingPbft conf iter_peers n c sp = Done n' /\ evolves n n' /\
    (pbft_syncing_ (sync_state n) && isActivelySyncing n c = false -> forall id r p, peers_ n !! id = Some r -> store n !! r = Some p ->
       lacks_history sp p = false -> sp < pbft_chain_size_ (peer_status p) ->
       exists r' p', peers_ n !! id_ p' = Some r' /\ store n !! r' = Some p' /\ rank_le (rank_of (Some p)) (rank_of (Some p')) /\
         pbft_syncing_ (sync_state n') = true /\ peer_ (sync_state n') = Some r' /\ HostSend (id_ p') (PktGetPbftSync (sp + 1)) ∈ net_out n').
Proof using Hiter.
  intros Hn Hsp. unfold startSyncingPbft. destruct (isPbftSyncing_effect n c Hn) as (n1 & b & -> & He1 & Hp1 & _ & Hs1 & _ & Hb1 & Hb2). cbn [obind].
  destruct b; [exists n1; rewrite <- Hb2; by split_and!|].
  destruct (maxChainPeer_effect n1 sp (fun _ => true) (ev_ok _ _ He1)) as (n2 & best & dropped & -> & -> & Hbest & Hmax). cbn [obind]. rewrite Hp1, Hs1 in Hbest, Hmax.
  set (n2 := act n1 (map HostDisconnect dropped)). assert (evolves n n2) as He2 by (apply (evolves_trans _ n1); [done|]; apply evolves_act, (ev_ok _ _ He1)).
  destruct best as [r'|].
  2: { exists n2. split_and!; [done|done|]. intros _ id r p Hr Hp Hl Hlt. specialize (Hmax _ _ _ Hr Hp eq_refl Hl). destruct Hmax as [Hm|[Hm _]]; cbn [rank_of fst mbind option_bind] in Hm; lia. }
  destruct (Hbest r' eq_refl) as (p' & Hp' & Hr' & _). assert (store n2 = store n) as Hs2 by done. rewrite (deref_some n2 r' p') by (by rewrite Hs2). cbn [obind].
  destruct (Z.ltb_spec sp (pbft_chain_size_ (peer_status p'))) as [Hlt|Hge].
  2: { eexists. split_and!; [done|apply (evolves_trans _ n2); [done|]; apply evolves_act, (ev_ok _ _ He2)|]. intros _ id r p Hr Hp Hl Hlt. specialize (Hmax _ _ _ Hr Hp eq_refl Hl).
       cbn [mbind option_bind] in Hmax. rewrite Hp' in Hmax. destruct Hmax as [Hm|[Hm _]]; cbn [rank_of fst] in Hm; lia. }
  destruct (setPbftSyncing_effect n2 c true sp (Some r') (ev_ok _ _ He2)) as (n3 & b3 & -> & He3 & Hpe & _ & Ho3 & Hb3 & Hon & Hst); [done|intros r [= <-]; rewrite Hs2, Hp'; by eexists|].
  cbn [obind]. assert (b3 = true) as -> by (rewrite Hb3; change (sync_state n2) with (sync_state n1); by rewrite <- Hb1). cbn [negb]. destruct (Hon eq_refl) as [Hon1 Hon2].
  assert (exists p3, store n3 !! r' = Some p3 /\ id_ p3 = id_ p' /\ pbft_chain_size_ (peer_status p3) = pbft_chain_size_ (peer_status p')) as (p3 & Hp3 & Hid3 & Hc3).
  { destruct (Hst r') as [E|(_ & q & b & Hq & E)]; rewrite E, ?Hs2; [by exists p'|]. rewrite Hs2, Hp' in Hq. injection Hq as <-. by eexists. }
  assert (u64 (sp + 1) = sp + 1) as Hu by (apply wrap_id; unfold in_range, modulus; lia).
  unfold syncPeerPbft, syncingPeer. rewrite Hon2, (deref_some _ _ _ Hp3). cbn [obind]. rewrite Hc3, Hu. destruct (Z.ltb_spec (pbft_chain_size_ (peer_status p')) (sp + 1)); [lia|].
  assert (peers_ n3 !! id_ p' = Some r') as Hpn by (rewrite Hpe; change (peers_ n2) with (peers_ n1); by rewrite Hp1).
  unfold sealAndSend, getPacketSenderPeer. rewrite Hid3, Hpn. cbn [obind]. set (n4 := act n3 _).
  assert (evolves n n4) as He4 by (apply (evolves_trans _ n2); [done|]; apply (evolves_trans _ n3); [done|]; apply evolves_act, (ev_ok _ _ He3)).
  assert (forall n', n' = n4 \/ n' = act n4 [DisableSnapshots] -> evolves n n' /\ pbft_syncing_ (sync_state n') = true /\ peer_ (sync_state n') = Some r' /\ HostSend (id_ p') (PktGetPbftSync (sp + 1)) ∈ net_out n') as Hend.
  { intros n' [->| ->]; (split; [try done|split; [done|split; [done|]]]); [|apply (evolves_trans _ n4); [done|]; apply evolves_act, (ev_ok _ _ He4)|]; simpl; rewrite !elem_of_app, list_elem_of_singleton; tauto. }
  exists (if isDeepPbftSyncing n4 then act n4 [DisableSnapshots] else n4). destruct (Hend (if isDeepPbftSyncing n4 then act n4 [DisableSnapshots] else n4)) as (Hev & ? & ? & ?); [destruct (isDeepPbftSyncing n4); tauto|].
  split_and!; [done|done|]. intros _ id r p Hr Hp Hl Hlt'. specialize (Hmax _ _ _ Hr Hp eq_refl Hl). cbn [mbind option_bind] in Hmax. rewrite Hp' in Hmax. exists r', p'. by split_and!.
Qed.
Lemma sendStatus_total n c v id initial : net_ok n -> exists n' b, sendStatus conf n c v id initial = Done (n', b) /\ evolves n n' /\ peers_ n' = peers_ n.
Proof using.
  intros Hn. unfold sendStatus. destruct initial.
  - destruct (isPbftSyncing_effect n c Hn) as (n1 & b & -> & He & Hp & _). cbn [obind]. rewrite (surjective_pairing (sealAndSend _ _ _)). do 2 eexists. split; [done|].
    split; [apply (evolves_trans _ n1); [done|]; apply evolves_send, (ev_ok _ _ He)|]. rewrite <- Hp. unfold sealAndSend. by case_match.
  - rewrite (surjective_pairing (sealAndSend _ _ _)). do 2 eexists. split; [done|]. split; [auto with net|]. unfold sealAndSend. by case_match.
Qed.

Lemma sendStatusToPeers_total n c v : net_ok n -> exists n', sendStatusToPeers conf iter_peers n c v = Done n' /\ evolves n n'.
Proof using.
  intros Hn. unfold sendStatusToPeers. generalize (iter_peers (peers_ n)) as l. intros l. revert n Hn. induction l as [|e l IH]; intros n Hn; cbn [ofold]; [exists n; auto with net|].
  destruct (sendStatus_total n c v e.1 false Hn) as (n1 & b & -> & He & _). cbn [obind]. destruct (IH n1 (ev_ok _ _ He)) as (n2 & -> & He2). exists n2. split; [done|]. by apply (evolves_trans _ n1).
Qed.

Lemma requestPending_id sp m p : id_ (requestPendingDagBlocks iter sp m p).1 = id_ p.
Proof using. unfold requestPendingDagBlocks. by repeat case_match. Qed.

Lemma requestPendingOf_total n v r p : net_ok n -> store n !! r = Some p -> exists n', requestPendingDagBlocksOf iter n v r = Done n' /\ evolves n n'.
Proof using.
  intros Hn Hp. unfold requestPendingDagBlocksOf. rewrite (deref_some _ _ _ Hp). cbn [obind]. pose proof (requestPending_id (view_sync_period v) (view_dag v) p) as Hid.
  destruct (requestPendingDagBlocks _ _ _ p) as [p' actions]. cbn [fst] in Hid. eexists. split; [done|]. pose proof (evolves_assign n r p p' Hp Hid Hn) as He. revert He. generalize (assign n r p') as n1.
  induction actions as [|a l IH]; intros n1 He; [done|]. cbn [foldl]. apply IH. destruct a; [|done|done]. apply (evolves_trans _ n1); [done|]. apply evolves_send, (ev_ok _ _ He).
Qed.

Lemma processInitialStatus_total n v r packet initial : net_ok n -> is_Some (store n !! r) -> exists n', processInitialStatus conf n v r packet initial = Done n' /\ evolves n n'.
Proof using.
  intros Hn [p Hp]. unfold processInitialStatus. rewrite (deref_some _ _ _ Hp). cbn [obind]. case_match; [eexists; auto with net|]. case_match; [eexists; auto with net|].
  set (p1 := if sp_is_light_node initial then _ else p). assert (id_ p1 = id_ p) as Hid by (unfold p1; by case_match).
  pose proof (evolves_assign n r p p1 Hp Hid Hn) as He. assert (store (assign n r p1) !! r = Some p1) as Hp1 by (simpl; by rewrite lookup_insert_eq).
  case_match; [eexists; split; [done|]; apply (evolves_trans _ _ _ He), evolves_act, (ev_ok _ _ He)|].
  eexists. split; [done|]. set (p2 := set_status p1 _). pose proof (evolves_assign _ r p1 p2 Hp1 eq_refl (ev_ok _ _ He)) as He2. apply (evolves_trans _ _ _ He), (evolves_trans _ _ _ He2).
  apply evolves_same; [|done]. apply (net_ok_ready _ _ _ p2); [simpl; by rewrite lookup_insert_eq|done|apply (ev_ok _ _ He2)].
Qed.

Lemma processStandardStatus_total n c v r packet : net_ok n -> is_Some (store n !! r) -> 0 <= view_sync_period v < 2 ^ 64 - 1 ->
  exists n', processStandardStatus conf iter_peers iter n c v r packet = Done n' /\ evolves n n'.
Proof using Hiter.
  intros Hn [p Hp] Hsp. unfold processStandardStatus. rewrite (deref_some _ _ _ Hp). cbn [obind]. set (p1 := set_status p _).
  pose proof (evolves_assign n r p p1 Hp eq_refl Hn) as He. destruct (isPbftSyncing_effect (assign n r p1) c (ev_ok _ _ He)) as (n1 & b & -> & He1 & _). cbn [obind].
  pose proof (evolves_trans _ _ _ He He1) as He01.
  assert (forall o, (exists n', o = Done n' /\ evolves n n') -> exists n', (let* n := o in let* p := deref n r in Done (assign n r (set_status p (set_last_status (peer_status p))))) = Done n' /\ evolves n n') as Hend.
  { intros o (n' & -> & He'). cbn [obind]. destruct (ev_store _ _ He' r p Hp) as (p' & Hp' & _). rewrite (deref_some _ _ _ Hp'). cbn [obind]. eexists. split; [done|].
    apply (evolves_trans _ _ _ He'). by apply (evolves_assign _ _ p'); [| |apply (ev_ok _ _ He')]. }
  apply Hend. destruct b; [by exists n1|].
  assert (exists n2, (if view_sync_period v <? pbft_chain_size_ (peer_status p1) then
    if u64 (view_sync_period v + 1) <? pbft_chain_size_ (peer_status p1) then startSyncingPbft conf iter_peers n1 c (view_sync_period v)
    else if last_status_pbft_chain_size_ (peer_status p1) =? pbft_chain_size_ (peer_status p1) then startSyncingPbft conf iter_peers n1 c (view_sync_period v) else Done n1
    else if (view_sync_period v =? pbft_chain_size_ (peer_status p1)) && negb (peer_dag_synced_ (peer_sync p1)) then requestPendingDagBlocksOf iter n1 v r else Done n1) = Done n2 /\ evolves n n2) as (n2 & -> & He2).
  { destruct (startSyncing_effect n1 c (view_sync_period v) (ev_ok _ _ He1) Hsp) as (ns & -> & Hes & _). destruct (ev_store _ _ He01 r p Hp) as (pr & Hpr & _).
    destruct (requestPendingOf_total n1 v r pr (ev_ok _ _ He1) Hpr) as (nr & -> & Her).
    repeat case_match; eexists; (split; [done|]); first [exact He01|exact (evolves_trans _ _ _ He01 Hes)|exact (evolves_trans _ _ _ He01 Her)]. }
  cbn [obind]. case_match; [|by exists n2]. eexists. split; [done|]. apply (evolves_trans _ _ _ He2), evolves_send, (ev_ok _ _ He2).
Qed.

Lemma onDisconnect_total n c sp id : net_ok n -> 0 <= sp < 2 ^ 64 - 1 -> exists n', onDisconnect conf iter_peers n c sp id = Done n' /\ evolves n n'.
Proof using Hiter.
  intros Hn Hsp. unfold onDisconnect. assert (evolves n (erasePeer n id)) as He by (apply evolves_same; [auto with net|done]).
  destruct (isPbftSyncing_effect (erasePeer n id) c (ev_ok _ _ He)) as (n1 & b & -> & He1 & _). cbn [obind]. pose proof (evolves_trans _ _ _ He He1) as He01.
  destruct (syncingPeer (erasePeer n id)) as [r|] eqn:E; [|by exists n1]. destruct (no_sync _ Hn r E) as [p Hp]. destruct (ev_store _ _ He01 r p Hp) as (p' & Hp' & _).
  rewrite (deref_some _ _ _ Hp'). cbn [obind]. case_match; [|by exists n1]. destruct (stop_syncing_effect n1 c (ev_ok _ _ He1)) as (n2 & -> & He2 & _). cbn [obind]. pose proof (evolves_trans _ _ _ He01 He2) as He02.
  case_match; [|by exists n2]. destruct (startSyncing_effect n2 c sp (ev_ok _ _ He2) Hsp) as (n3 & -> & He3 & _). exists n3. split; [done|]. by apply (evolves_trans _ n2).
Qed.

Lemma onConnect_total n c v id : net_ok n -> exists n', onConnect conf n c v id = Done n' /\ evolves n n'.
Proof using.
  intros Hn. unfold onConnect. pose proof (evolves_is_malicious conf n c id Hn) as He. destruct (is_peer_malicious conf n c id) as [n1 b]. cbn [fst] in He. pose proof (ev_ok _ _ He) as Hn1.
  destruct b; [eexists; split; [done|]; by apply (evolves_trans _ _ _ He), evolves_act|]. case_match; [eexists; split; [done|]; by apply (evolves_trans _ _ _ He), evolves_act|].
  pose proof (evolves_pending conf n1 id Hn1) as He2. destruct (sendStatus_total (addPendingPeer conf n1 id) c v id true (ev_ok _ _ He2)) as (n3 & b & -> & He3 & _). cbn [obind].
  exists n3. split; [done|]. by apply (evolves_trans _ _ _ He), (evolves_trans _ _ _ He2).
Qed.

Lemma interpret_ok n c q stats st pr id t : net_ok n -> net_ok (interpretCapabilityPacket conf iter_peers n c q stats st pr id t).
Proof using.
  intros Hn. unfold interpretCapabilityPacket, handlePacketQueueOverLimit. case_match; [|auto with net]. case_match; [done|]. case_match; [auto with net|]. apply net_ok_act.
  repeat case_match; auto with net.
Qed.

(** Periods are machine integers. *)
Definition event_ok (e : net_event) : Prop :=
  match e with
  | Disconnected _ sp _ | SyncStarted _ sp => 0 <= sp < 2 ^ 64 - 1
  | StatusProcessed _ v _ _ => 0 <= view_sync_period v < 2 ^ 64 - 1
  | _ => True
  end.

Lemma net_handle_total n e : net_ok n -> event_ok e -> exists n', net_handle conf iter_peers iter n e = Done n' /\ net_ok n'.
Proof using Hiter.
  intros Hn He.
  assert (forall o, (exists n', o = Done n' /\ evolves n n') -> exists n', o = Done n' /\ net_ok n') as Hev by (intros o (n' & -> & ?); exists n'; eauto with net).
  destruct e as [c v id|c sp id|c q stats st pr id t|c v id packet|c x sender|c sp|c|p|c|p|c v]; cbn [net_handle event_ok] in *.
  - by apply Hev, onConnect_total.
  - by apply Hev, onDisconnect_total.
  - eexists. split; [done|]. by apply interpret_ok.
  - apply Hev. unfold processStatusPacket, processStatus. destruct (getPacketSenderPeer n id kStatusPacket) as [r|] eqn:E; [|eexists; auto with net].
    assert (is_Some (store n !! r)) as Hr.
    { unfold getPacketSenderPeer in E. destruct (peers_ n !! id) as [r1|] eqn:E1; [injection E as <-; destruct (no_peers _ Hn _ _ E1) as (p & ? & _); by exists p|].
      destruct (pending_peers_ n !! id) as [r1|] eqn:E2; [|done]. case_match; [|done]. injection E as <-. destruct (no_pending _ Hn _ _ E2) as (p & ? & _). by exists p. }
    destruct (initial_data packet); [by apply processInitialStatus_total|by apply processStandardStatus_total].
  - eexists. split; [done|]. unfold handle_caught_exception. case_match. case_match; auto with net.
  - destruct (startSyncing_effect n c sp Hn He) as (n' & -> & ? & _). eauto with net.
  - destruct (stop_syncing_effect n c Hn) as (n' & -> & ? & _). eauto with net.
  - destruct (syncPeerPbft_total n p Hn) as (n' & b & -> & ?). cbn [obind]. eauto with net.
  - eauto with net.
  - unfold setSyncStatePeriod, set_deep_of_peer. pose proof (no_flag _ Hn) as Hf. destruct (pbft_syncing_ (sync_state n)) eqn:E; [|eexists; split; [done|]; by apply net_ok_deep].
    destruct (peer_ (sync_state n)) as [r|] eqn:E'; [|done]. destruct (no_sync _ Hn r E') as [q Hq]. rewrite (deref_some _ _ _ Hq). cbn [obind]. eexists. split; [done|]. by apply net_ok_deep.
  - apply Hev. by apply sendStatusToPeers_total.
Qed.
End operations.

Lemma net_run_total conf iter_peers iter events :
  (forall m, iter_peers m ≡ₚ map_to_list m) -> Forall event_ok events -> forall n, net_ok n ->
  exists n', ofold (net_handle conf iter_peers iter) events n = Done n' /\ net_ok n'.
Proof.
  intros Hiter Hev. induction Hev as [|e events He _ IH]; intros n Hn; cbn [ofold]; [by exists n|].
  destruct (net_handle_total conf iter_peers iter Hiter n e Hn He) as (n' & -> & Hn'). cbn [obind]. by apply IH.
Qed.

(** C13: The shared state of the network: whatever connections, disconnections, packets, status packets, exceptions and events of a synchronisation follow
    each other, every handler ends without a null or dangling peer and without a failed assertion; the node synchronises exactly when it has a peer to do so,
    the deep flag is set only then, and an entry of the maps of ready and of pending peers is an object with the id of its key. *)
Theorem network_state_safe conf iter_peers iter events :
  (forall m, iter_peers m ≡ₚ map_to_list m) -> Forall event_ok events ->
  exists n, ofold (net_handle conf iter_peers iter) events newNet = Done n /\ net_ok n.
Proof. intros Hiter Hev. apply net_run_total; [done|done|exact net_ok_new]. Qed.

(** [startSyncingPbft] on a node that is not synchronising: if some connected peer with the needed history has a longer chain than the node,
    the node synchronises afterwards with a connected peer that is at least as good as every such one, and has sent it a request for the next period. *)
Theorem start_syncing_correct conf iter_peers n c sp id r p :
  (forall m, iter_peers m ≡ₚ map_to_list m) -> net_ok n -> 0 <= sp < 2 ^ 64 - 1 -> pbft_syncing_ (sync_state n) && isActivelySyncing n c = false ->
  peers_ n !! id = Some r -> store n !! r = Some p -> lacks_history sp p = false -> sp < pbft_chain_size_ (peer_status p) ->
  exists n' r' p', startSyncingPbft conf iter_peers n c sp = Done n' /\ net_ok n' /\ peers_ n !! id_ p' = Some r' /\ store n !! r' = Some p' /\
    rank_le (rank_of (Some p)) (rank_of (Some p')) /\ pbft_syncing_ (sync_state n') = true /\ peer_ (sync_state n') = Some r' /\
    HostSend (id_ p') (PktGetPbftSync (sp + 1)) ∈ net_out n'.
Proof.
  intros Hi Hn Hsp Hns Hr Hp Hl Hlt. destruct (startSyncing_effect conf iter_peers Hi n c sp Hn Hsp) as (n' & Hs & He & Hgo).
  destruct (Hgo Hns id r p Hr Hp Hl Hlt) as (r' & p' & ? & ? & ? & ? & ? & ?). exists n', r', p'. split_and!; try done. apply (ev_ok _ _ He).
Qed.

(** [setSyncStatePeriod] reads the flag before it takes the lock: when another thread stops the synchronisation in between,
    it goes on with no peer and dereferences null, although each of the two calls on its own is defined. *)
Theorem sync_period_race conf n c period :
  net_ok n -> pbft_syncing_ (sync_state n) = true ->
  exists n', stop_syncing conf n c = Done n' /\ set_deep_of_peer conf n' period = Undefined /\
    (exists n1, setSyncStatePeriod conf n period = Done n1) /\ (exists n2, setSyncStatePeriod conf n' period = Done n2).
Proof.
  intros Hn Hs. destruct (stop_syncing_effect conf n c Hn) as (n' & Hst & He & _ & _ & _ & _ & Hf). exists n'.
  pose proof (no_flag _ (ev_ok _ _ He)) as Hfl. rewrite Hf in Hfl. symmetry in Hfl. apply bool_decide_eq_false in Hfl. apply eq_None_not_Some in Hfl.
  split_and!; [done|by unfold set_deep_of_peer; rewrite Hfl| |by unfold setSyncStatePeriod; rewrite Hf; eexists].
  destruct (net_handle_total conf map_to_list elements ltac:(done) n (PeriodSynced period) Hn I) as (n1 & H1 & _). by exists n1.
Qed.

(** A node that overtakes the peer it synchronises with: the unsigned difference of the periods wraps, the node takes itself for deeply behind, and
    drops every packet, votes and DAG blocks among them, that is not a status or a PBFT sync packet. *)
Theorem overtaken_peer_filters_packets conf iter_peers n r p period :
  net_ok n -> pbft_syncing_ (sync_state n) = true -> peer_ (sync_state n) = Some r -> store n !! r = Some p ->
  0 <= pbft_chain_size_ (peer_status p) < period -> period < 2 ^ 63 -> 0 <= kDeepSyncingThreshold conf < 2 ^ 16 ->
  exists n', setSyncStatePeriod conf n period = Done n' /\ isDeepPbftSyncing n' = true /\
    forall c q stats st pr node t, is_Some (getPacketSenderPeer n' node t) -> t <> kStatusPacket -> t <> kGetPbftSyncPacket -> t <> kPbftSyncPacket ->
      interpretCapabilityPacket conf iter_peers n' c q stats st pr node t = n'.
Proof.
  intros Hn Hs Hr Hp Hc Hper Ht. unfold setSyncStatePeriod, set_deep_of_peer. rewrite Hs, Hr, (deref_some _ _ _ Hp). cbn [obind].
  assert (is_deep conf p period = true) as Hd.
  { unfold is_deep. apply Z.leb_le. unfold u64, wrap, modulus. rewrite <- (Z_mod_plus_full _ 1), Z.mod_small; lia. }
  eexists. split_and!; [done|done|]. intros c q stats st pr node t [r0 Hr0] H1 H2 H3. unfold interpretCapabilityPacket. rewrite Hr0. cbn [isDeepPbftSyncing sync_state set_deep with_sync deep_pbft_syncing_]. rewrite Hd.
  by destruct t.
Qed.

(** When the queue of packets stays over its limit and more than five peers are connected, the peer that is disconnected is the sender of the packet
    that happened to arrive, whatever the processing times: also when it caused the least and another peer, which the code has found, the most. *)
Theorem queue_limit_disconnects_sender conf iter_peers n c stats node :
  queue_over_limit_ (queue_limit n) = true -> queue_limit_time conf < system_now c - queue_over_limit_start_time_ (queue_limit n) ->
  peer_disconnect_interval conf < system_now c - last_ddos_disconnect_time_ (queue_limit n) -> (5 < size (peers_ n))%nat ->
  net_out (handlePacketQueueOverLimit conf iter_peers n c stats node) = net_out n ++ [HostDisconnect node].
Proof.
  intros Hq H1 H2 H3. unfold handlePacketQueueOverLimit. rewrite Hq. apply Z.ltb_lt in H1, H2. rewrite H1, H2. cbn [peers_ with_queue].
  destruct (Z.ltb_spec 5 (Z.of_nat (size (peers_ n)))); [done|lia].
Qed.

(** A peer that was reported as malicious is refused when it connects again within the timeout, and is a pending peer that gets a status packet when it
    connects later and the queue is not over its limit. *)
Theorem malicious_peer_refused conf n c v node t :
  disable_peer_blacklist conf = false -> 0 < peer_blacklist_timeout conf -> net_ok n -> malicious_peers_ n !! node = Some t ->
  (seconds_since c t <= peer_blacklist_timeout conf -> onConnect conf n c v node = Done (act n [HostDisconnect node])) /\
  (peer_blacklist_timeout conf < seconds_since c t -> queue_over_limit_ (queue_limit n) = false ->
     exists n', onConnect conf n c v node = Done n' /\ is_Some (pending_peers_ n' !! node) /\ malicious_peers_ n' !! node = None /\
       (exists packet, HostSend node (PktStatus packet) ∈ net_out n' /\ is_Some (initial_data packet))).
Proof.
  intros Hd Ht Hn Hm. unfold onConnect, is_peer_malicious. rewrite Hd, Hm. destruct (Z.eqb_spec (peer_blacklist_timeout conf) 0); [lia|]. cbn [orb]. split; intros Hs.
  - apply Z.leb_le in Hs. by rewrite Hs.
  - intros Hq. destruct (Z.leb_spec (seconds_since c t) (peer_blacklist_timeout conf)); [lia|]. apply Z.ltb_lt in Ht. rewrite Ht. set (n1 := with_malicious _ _). change (queue_limit n1) with (queue_limit n). rewrite Hq. cbn [andb].
    assert (net_ok n1) as Hn1 by (unfold n1; auto with net). assert (net_ok (addPendingPeer conf n1 node)) as Hn2 by auto with net.
    assert (is_Some (pending_peers_ (addPendingPeer conf n1 node) !! node)) as [r Hr].
    { unfold addPendingPeer. destruct (pending_peers_ n1 !! node) as [r|] eqn:E; [by exists r|]. simpl. rewrite lookup_insert_eq. by eexists. }
    assert (malicious_peers_ (addPendingPeer conf n1 node) !! node = None) as Hmn.
    { assert (malicious_peers_ n1 !! node = None) as E by (unfold n1; simpl; rewrite map_lookup_filter, lookup_delete_eq; done). unfold addPendingPeer. by destruct (pending_peers_ n1 !! node). }
    unfold sendStatus, isPbftSyncing. destruct (isPbftSyncing_effect conf _ c Hn2) as (n3 & b & Hsy & He & Hp3 & Hp4 & _). unfold isPbftSyncing in Hsy.
    assert (malicious_peers_ n3 = malicious_peers_ (addPendingPeer conf n1 node)) as Hm3 by (revert Hsy; unfold stop_syncing, setPbftSyncing; case_match; cbn; [by intros [= <- _]|rewrite andb_false_r; by intros [= <- _]]).
    rewrite Hsy. cbn [obind]. unfold sealAndSend, getPacketSenderPeer. rewrite Hp4, Hr. destruct (peers_ n3 !! node); cbn [net_packet_type bool_decide decide_rel]; eexists; (split_and!;
      [done|simpl; rewrite Hp4; by exists r|simpl; by rewrite Hm3|eexists; split; [simpl; rewrite elem_of_app, list_elem_of_singleton; by right|by eexists]]).
Qed.

(** ** Example: six peers, one of which is ahead *)

Definition ex_net_conf : NetConfig := mkNetConfig 100 false 600 10 841 1 false 0 60000 1000 0 10 5000000000 5000000000.
Definition ex_view : NodeView := mkNodeView 5 5 1 6 no_dag.
Definition ex_initial (chain_size : PbftPeriod) : StatusPacket := mkStatusPacket chain_size 1 0 false (Some (mkInitialData 841 1 false 0)).
Definition ex_clock (seconds : Z) : Clock := mkClock (seconds * 10 ^ 9) (seconds * 10 ^ 9).
Definition ex_join (node : Z) (chain_size : PbftPeriod) : list net_event :=
  [Connected (ex_clock 1000) ex_view node; StatusProcessed (ex_clock 1001) ex_view node (ex_initial chain_size)].
Definition ex_events : list net_event :=
  ex_join 1 5 ++ ex_join 2 5 ++ ex_join 3 4 ++ ex_join 4 5 ++ ex_join 5 3 ++ ex_join 7 9 ++ [PacketFailed (ex_clock 1002) RlpError 8].

Definition ex_net : Net := outcome_get newNet (ofold (net_handle ex_net_conf map_to_list elements) ex_events newNet).
Definition ex_syncing_net : Net := outcome_get newNet (ofold (net_handle ex_net_conf map_to_list elements) [SyncStarted (ex_clock 1003) 5] ex_net).

Lemma ex_events_ok : Forall event_ok ex_events.
Proof. unfold ex_events, ex_join. cbn [app]. repeat (constructor; [cbn [event_ok view_sync_period ex_view]; first [exact I|lia]|]). constructor. Qed.

Lemma ex_net_run : ofold (net_handle ex_net_conf map_to_list elements) ex_events newNet = Done ex_net.
Proof. vm_compute. reflexivity. Qed.
Lemma ex_syncing_run : ofold (net_handle ex_net_conf map_to_list elements) [SyncStarted (ex_clock 1003) 5] ex_net = Done ex_syncing_net.
Proof. vm_compute. reflexivity. Qed.

Lemma run_unique {A} (o : outcome A) a b : o = Done a -> o = Done b -> a = b.
Proof. congruence. Qed.

Lemma ex_net_ok : net_ok ex_net.
Proof.
  destruct (net_run_total ex_net_conf map_to_list elements ex_events ltac:(reflexivity) ex_events_ok newNet net_ok_new) as (n & Hr & Hn). rewrite (run_unique _ _ _ ex_net_run Hr). exact Hn.
Qed.
Lemma ex_syncing_ok : net_ok ex_syncing_net.
Proof.
  destruct (net_run_total ex_net_conf map_to_list elements [SyncStarted (ex_clock 1003) 5] ltac:(reflexivity) ltac:(constructor; [cbn [event_ok]; lia|constructor]) ex_net ex_net_ok) as (n & Hr & Hn).
  rewrite (run_unique _ _ _ ex_syncing_run Hr). exact Hn.
Qed.

Lemma network_state_safe_witness : exists n, ofold (net_handle ex_net_conf map_to_list elements) ex_events newNet = Done n /\ net_ok n.
Proof. apply (network_state_safe ex_net_conf map_to_list elements ex_events); [reflexivity|exact ex_events_ok]. Defined.

Definition ex_ahead_peer : TaraxaPeer := default (newTaraxaPeer 0 0) (store ex_net !! 5%nat).

Lemma start_syncing_correct_witness : exists n' r', startSyncingPbft ex_net_conf map_to_list ex_net (ex_clock 1003) 5 = Done n' /\ peer_ (sync_state n') = Some r'.
Proof.
  destruct (start_syncing_correct ex_net_conf map_to_list ex_net (ex_clock 1003) 5 7 5%nat ex_ahead_peer) as (n' & r' & p' & Hs & _ & _ & _ & _ & _ & Hp & _);
    [reflexivity|exact ex_net_ok|lia|vm_compute; reflexivity..|]. exists n', r'. exact (conj Hs Hp).
Defined.

Lemma sync_period_race_witness : exists n', stop_syncing ex_net_conf ex_syncing_net (ex_clock 1004) = Done n' /\ set_deep_of_peer ex_net_conf n' 6 = Undefined.
Proof.
  destruct (sync_period_race ex_net_conf ex_syncing_net (ex_clock 1004) 6 ex_syncing_ok ltac:(vm_compute; reflexivity)) as (n' & H1 & H2 & _). exists n'. exact (conj H1 H2).
Defined.

Definition ex_syncing_peer : TaraxaPeer := default (newTaraxaPeer 0 0) (store ex_syncing_net !! 5%nat).

Lemma overtaken_peer_filters_packets_witness : exists n', setSyncStatePeriod ex_net_conf ex_syncing_net 10 = Done n' /\ isDeepPbftSyncing n' = true.
Proof.
  destruct (overtaken_peer_filters_packets ex_net_conf map_to_list ex_syncing_net 5%nat ex_syncing_peer 10) as (n' & H1 & H2 & _);
    [exact ex_syncing_ok|vm_compute; reflexivity..|split; [apply Z.leb_le; vm_compute; reflexivity|apply Z.ltb_lt; vm_compute; reflexivity]|reflexivity|split; [apply Z.leb_le; reflexivity|reflexivity]|].
  exists n'. exact (conj H1 H2).
Defined.

(** Peer 3 is disconnected although peer 7 has the highest processing time. *)
Definition ex_busy_net : Net := with_queue ex_net (mkQueueLimit 0 (1000 * 10 ^ 9) true 0).
Lemma queue_limit_disconnects_sender_witness :
  net_out (handlePacketQueueOverLimit ex_net_conf map_to_list ex_busy_net (ex_clock 1010) (fun id => if id =? 7 then 900 else 1) 3) = net_out ex_busy_net ++ [HostDisconnect 3] /\
  highest_processing (fun id => if id =? 7 then 900 else 1) (map_to_list (peers_ ex_busy_net)) (0, 0) = (900, 7).
Proof.
  split; [|vm_compute; reflexivity].
  apply (queue_limit_disconnects_sender ex_net_conf map_to_list ex_busy_net (ex_clock 1010) (fun id => if id =? 7 then 900 else 1) 3); [vm_compute; reflexivity..|apply Nat.ltb_lt; vm_compute; reflexivity].
Defined.

Lemma malicious_peer_refused_witness : onConnect ex_net_conf ex_net (ex_clock 1100) ex_view 8 = Done (act ex_net [HostDisconnect 8]).
Proof.
  destruct (malicious_peer_refused ex_net_conf ex_net (ex_clock 1100) ex_view 8 (1002 * 10 ^ 9)) as [H _]; [reflexivity|reflexivity|exact ex_net_ok|vm_compute; reflexivity|].
  apply H. apply Z.leb_le. vm_compute. reflexivity.
Defined.
