(* ===== verification/VotePackets.v ===== *)
(** * Packets with votes

    The handlers of votes, of bundles of votes and of requests for the next votes of a round
    (network/src/tarcap/packets_handlers: latest/vote_packet_handler.cpp, latest/votes_bundle_packet_handler.cpp,
    latest/get_next_votes_bundle_packet_handler.cpp, latest/common/ext_votes_packet_handler.cpp,
    interface/vote_packet_handler.cpp).  The vote manager is the model of [VoteManager], validation that of
    [PbftBlocks]; the node id of a voter, which is recovered from a signature, is a parameter. *)

From S2P Require Import Prelude Votes VerifiedVotes VoteManager VoteQuorum PbftChain PbftBlocks Caches TaraxaPeer DagSync PeersState.
Local Open Scope Z_scope.
Local Open Scope outcome_scope.

(** ** State *)

Definition kMaxVotesInBundleRlp : nat := 1000.
(** Nanoseconds. *)
Definition kSyncRequestInterval : Z := 10 * 10 ^ 9.

(** Members of [DdosProtectionConfig] for votes. *)
Record VoteLimits := mkVoteLimits { vote_accepting_periods : Z; vote_accepting_rounds : Z; vote_accepting_steps : Z }.

(** Period, round and step of the PBFT manager, and the size of its chain. *)
Record PbftView := mkPbftView { pv_period : PbftPeriod; pv_round : PbftRound; pv_step : PbftStep; pv_chain_size : PbftPeriod }.

(** Calls of other components. *)
Inductive vote_call :=
| SubmitDoubleVotingProof (vote existing : PbftVote)
| ProcessProposedBlock (block : PbftBlock)
| GossipVote (vote : PbftVote) (block : option PbftBlock).

Record VoteHandler := mkVoteHandler {
  vh_net : Net;
  vh_vm : VoteManager;
  already_validated_votes_ : @Expiration.ExpirationCache vote_hash_t _ _;
  last_votes_sync_request_time_ : Z;
  last_pbft_block_sync_request_time_ : Z;
  vh_calls : list vote_call;
}.

Definition with_net (h : VoteHandler) (n : Net) : VoteHandler :=
  mkVoteHandler n (vh_vm h) (already_validated_votes_ h) (last_votes_sync_request_time_ h) (last_pbft_block_sync_request_time_ h) (vh_calls h).
Definition with_vm (h : VoteHandler) (vm : VoteManager) : VoteHandler :=
  mkVoteHandler (vh_net h) vm (already_validated_votes_ h) (last_votes_sync_request_time_ h) (last_pbft_block_sync_request_time_ h) (vh_calls h).
Definition with_validated (h : VoteHandler) (c : @Expiration.ExpirationCache vote_hash_t _ _) : VoteHandler :=
  mkVoteHandler (vh_net h) (vh_vm h) c (last_votes_sync_request_time_ h) (last_pbft_block_sync_request_time_ h) (vh_calls h).
Definition with_votes_time (h : VoteHandler) (t : Z) : VoteHandler :=
  mkVoteHandler (vh_net h) (vh_vm h) (already_validated_votes_ h) t (last_pbft_block_sync_request_time_ h) (vh_calls h).
Definition with_block_time (h : VoteHandler) (t : Z) : VoteHandler :=
  mkVoteHandler (vh_net h) (vh_vm h) (already_validated_votes_ h) (last_votes_sync_request_time_ h) t (vh_calls h).
Definition call (h : VoteHandler) (c : vote_call) : VoteHandler :=
  mkVoteHandler (vh_net h) (vh_vm h) (already_validated_votes_ h) (last_votes_sync_request_time_ h) (last_pbft_block_sync_request_time_ h) (vh_calls h ++ [c]).

Section votes.
Context (limits : VoteLimits) (vcfg : PbftConfig) (env : VoteEnv) (getVoter : PbftVote -> Z).
Context (iter_peers : gmap Z nat -> list (Z * nat)).

(** ** Checks *)

Definition isPbftRelevantVote (v : PbftView) (vote : PbftVote) : bool :=
  if (pv_period v <=? getPeriod vote) && (pv_round v <=? getRound vote) then true
  else if (getPeriod vote =? pv_period v) && (getRound vote =? u32 (pv_round v - 1)) && bool_decide (getType vote = next_vote) then true
  else if (getPeriod vote =? u64 (pv_period v - 1)) && bool_decide (getType vote = cert_vote) then true
  else false.

Definition validateVoteAndBlock (vote : PbftVote) (block : PbftBlock) : bool :=
  (pb_period block =? getPeriod vote) && (pb_hash block =? getBlockHash vote).

Definition requestPbftNextVotesAtPeriodRound (h : VoteHandler) (node : Z) (period : PbftPeriod) (round : PbftRound) : VoteHandler :=
  with_net h (sealAndSend (vh_net h) node (PktGetNextVotes period round)).1.

(** [now]: the system clock in nanoseconds; [peer]: the sender. *)
Definition validateVotePeriodRoundStep (h : VoteHandler) (v : PbftView) (now : Z) (vote : PbftVote) (peer : TaraxaPeer)
    (validate_max_round_step : bool) : VoteHandler * bool :=
  let period := getPeriod vote in
  if (period <? u64 (pv_period v - 1)) || ((period =? u64 (pv_period v - 1)) && negb (bool_decide (getType vote = cert_vote))) then (h, false)
  else if negb (vote_accepting_periods limits =? 0) && (u64 (pv_period v + vote_accepting_periods limits) <? u64 (period - 1)) then
    if (getVoter vote =? id_ peer) && (kSyncRequestInterval <? now - last_pbft_block_sync_request_time_ h) then
      (with_block_time (with_net h (sealAndSend (vh_net h) (id_ peer) (PktGetPbftSync (Z.max (u64 (period - 1)) (pbft_chain_size_ (peer_status peer))))).1) now, false)
    else (h, false)
  else
    let checking_round := if pv_period v =? period then pv_round v else 1 in
    if (getRound vote <? u32 (checking_round - 1)) || ((getRound vote =? u32 (checking_round - 1)) && negb (bool_decide (getType vote = next_vote))) then (h, false)
    else if validate_max_round_step && negb (vote_accepting_rounds limits =? 0) && (u32 (checking_round + vote_accepting_rounds limits) <=? getRound vote) then
      if (pv_period v =? period) && (getVoter vote =? id_ peer) && (kSyncRequestInterval <? now - last_votes_sync_request_time_ h) then
        (with_votes_time (requestPbftNextVotesAtPeriodRound h (id_ peer) (pv_period v) (pv_round v)) now, false)
      else (h, false)
    else
      let checking_step := if negb (pv_period v =? period) || negb (pv_round v =? getRound vote) then 1 else pv_step v in
      if validate_max_round_step && negb (vote_accepting_steps limits =? 0) && (u32 (checking_step + vote_accepting_steps limits) <=? getStep vote) then (h, false)
      else (h, true).

(** ** One vote *)

Definition processVote (h : VoteHandler) (v : PbftView) (now : Z) (vote : PbftVote) (block : option PbftBlock) (peer : TaraxaPeer)
    (validate_max_round_step : bool) : outcome (VoteHandler * (PacketException + bool)) :=
  if match block with Some b => negb (validateVoteAndBlock vote b) | None => false end then Done (h, inl MaliciousPeer)
  else if voteInVerifiedMap (vh_vm h) vote then Done (h, inr false)
  else
    let '(h, valid) := validateVotePeriodRoundStep h v now vote peer validate_max_round_step in
    if negb valid then Done (h, inr false)
    else
      match isUniqueVote (vh_vm h) vote with
      | (false, Some existing) => Done (call h (SubmitDoubleVotingProof vote existing), inl (MaliciousOther (getVoter vote)))
      | (false, None) => Undefined
      | (true, _) =>
          let '(mark, validated) := validateVote vcfg env vote true in
          let* h := if mark : bool then let* (c, _) := Expiration.insert (already_validated_votes_ h) (getHash vote) in Done (with_validated h c) else Done h in
          match validated with
          | None => Done (h, inr false)
          | Some vote =>
              let* (vm, added) := addVerifiedVote vcfg (dposEligibleTotalVoteCount env) (pv_chain_size v) (vh_vm h) vote in
              let h := with_vm h vm in
              if negb added then Done (h, inr false)
              else Done (match block with Some b => call h (ProcessProposedBlock b) | None => h end, inr true)
          end
      end.

Definition voteAlreadyValidated (h : VoteHandler) (hash : vote_hash_t) : bool := Expiration.contains (already_validated_votes_ h) hash.

(** The peer behind a reference, and an assignment to it. *)
Definition vh_peer (h : VoteHandler) (r : nat) : outcome TaraxaPeer := deref (vh_net h) r.
Definition vh_mark (h : VoteHandler) (r : nat) (mark : TaraxaPeer -> outcome (TaraxaPeer * bool)) : outcome VoteHandler :=
  let* p := vh_peer h r in let* (p, _) := mark p in Done (with_net h (assign (vh_net h) r p)).

Definition processVotePacket (h : VoteHandler) (v : PbftView) (now : Z) (r : nat) (vote : PbftVote) (optional_data : option (PbftBlock * PbftPeriod)) :
    outcome (VoteHandler * option PacketException) :=
  let* p := vh_peer h r in
  let h := match optional_data with
    | Some (_, peer_chain_size) =>
        if pbft_chain_size_ (peer_status p) <? peer_chain_size then with_net h (assign (vh_net h) r (set_chain_size p peer_chain_size)) else h
    | None => h end in
  if negb (isPbftRelevantVote v vote) then Done (h, None)
  else if voteAlreadyValidated h (getHash vote) then Done (h, None)
  else
    let* (h, wrong) := match optional_data with
      | Some (b, _) => if negb (pb_hash b =? getBlockHash vote) then Done (h, true)
                       else let* h := vh_mark h r (fun p => markPbftBlockAsKnown p (pb_hash b)) in Done (h, false)
      | None => Done (h, false) end in
    if wrong : bool then Done (h, Some MaliciousPeer)
    else
      let block := option_map fst optional_data in
      let* p := vh_peer h r in
      let* (h, res) := processVote h v now vote block p true in
      match res with
      | inl e => Done (h, Some e)
      | inr false => Done (h, None)
      | inr true =>
          let* h := vh_mark h r (fun p => markPbftVoteAsKnown p (getHash vote)) in
          Done (call h (GossipVote vote block), None)
      end.

(** ** Bundles *)

(** One packet; the votes are known to the peer if it was sent. *)
Definition sendVotes (n : Net) (r : nat) (votes : list PbftVote) : outcome Net :=
  let* p := deref n r in
  let '(n, sent) := sealAndSend n (id_ p) (PktVotesBundle votes) in
  if sent : bool then
    let* p := deref n r in
    let* p := ofold (fun p vote => let* (p, _) := markPbftVoteAsKnown p (getHash vote) in Done p) votes p in
    Done (assign n r p)
  else Done n.

(** The loop over the beginning of the rest. *)
Fixpoint split_votes (fuel : nat) (votes : list PbftVote) : list (list PbftVote) :=
  match fuel with
  | O => []
  | S fuel => match votes with [] => [] | _ => take kMaxVotesInBundleRlp votes :: split_votes fuel (drop kMaxVotesInBundleRlp votes) end
  end.

Definition votes_bundles (votes : list PbftVote) : list (list PbftVote) :=
  if bool_decide (votes = []) then []
  else if bool_decide (length votes <= kMaxVotesInBundleRlp)%nat then [votes] else split_votes (length votes) votes.

Definition sendPbftVotesBundle (n : Net) (r : nat) (votes : list PbftVote) : outcome Net :=
  ofold (fun n bundle => sendVotes n r bundle) (votes_bundles votes) n.

(** Bundles for all peers but one. *)
Definition onNewPbftVotesBundle (n : Net) (votes : list PbftVote) (rebroadcast : bool) (exclude_node : option Z) : outcome Net :=
  ofold (fun n '(node, r) =>
    let* p := deref n r in
    if syncing_ (peer_status p) then Done n
    else if bool_decide (exclude_node = Some node) then Done n
    else sendPbftVotesBundle n r (filter (fun vote => rebroadcast = true \/ isPbftVoteKnown p (getHash vote) = false) votes)) (iter_peers (peers_ n)) n.

Definition sendPbftVote (n : Net) (v : PbftView) (r : nat) (vote : PbftVote) (block : option PbftBlock) : outcome Net :=
  if match block with Some b => negb (pb_hash b =? getBlockHash vote) | None => false end then Done n
  else
    let* p := deref n r in
    let '(n, sent) := sealAndSend n (id_ p) (PktVote vote (option_map (fun b => (b, pv_chain_size v)) block)) in
    if sent : bool then
      let* (p, _) := markPbftVoteAsKnown p (getHash vote) in
      let* p := match block with Some b => let* (p, _) := markPbftBlockAsKnown p (pb_hash b) in Done p | None => Done p end in
      Done (assign n r p)
    else Done n.

Definition onNewPbftVote (n : Net) (v : PbftView) (vote : PbftVote) (block : option PbftBlock) (rebroadcast : bool) : outcome Net :=
  ofold (fun n '(_, r) =>
    let* p := deref n r in
    if syncing_ (peer_status p) then Done n
    else if negb rebroadcast && isPbftVoteKnown p (getHash vote) then Done n
    else sendPbftVote n v r vote (if rebroadcast || negb (isPbftBlockKnown p (getBlockHash vote)) then block else None)) (iter_peers (peers_ n)) n.

Fixpoint bundle_loop (h : VoteHandler) (v : PbftView) (now : Z) (r : nat) (check_max_round_step : bool) (votes : list PbftVote) (count : Z) :
    outcome (VoteHandler * (PacketException + Z)) :=
  match votes with
  | [] => Done (h, inr count)
  | vote :: rest =>
      let* h := vh_mark h r (fun p => markPbftVoteAsKnown p (getHash vote)) in
      if voteAlreadyValidated h (getHash vote) then bundle_loop h v now r check_max_round_step rest count
      else
        let* p := vh_peer h r in
        let* (h, res) := processVote h v now vote None p check_max_round_step in
        match res with
        | inl e => Done (h, inl e)
        | inr processed => bundle_loop h v now r check_max_round_step rest (if processed : bool then count + 1 else count)
        end
  end.

Definition processVotesBundle (h : VoteHandler) (v : PbftView) (now : Z) (r : nat) (votes : list PbftVote) : outcome (VoteHandler * option PacketException) :=
  match votes with
  | [] => Done (h, Some PacketProcessing)
  | reference_vote :: _ =>
      if bool_decide (kMaxVotesInBundleRlp < length votes)%nat then Done (h, Some PacketProcessing)
      else if negb (isPbftRelevantVote v reference_vote) then Done (h, None)
      else
        let* p := vh_peer h r in
        if bool_decide (getType reference_vote = propose_vote) then Done (with_net h (act (vh_net h) [HostDisconnect (id_ p)]), None)
        else
          let check_max_round_step := negb (bool_decide (getType reference_vote = cert_vote) || bool_decide (getType reference_vote = next_vote)) in
          let* (h, res) := bundle_loop h v now r check_max_round_step votes 0 in
          match res with
          | inl e => Done (h, Some e)
          | inr _ => let* n := onNewPbftVotesBundle (vh_net h) votes false (Some (id_ p)) in Done (with_net h n, None)
          end
  end.

(** ** Requests for next votes *)

(** Round and period are read twice and the votes too, the second time for the values of the first reading:
    [v1], [vm1] and [v2], [vm2]. *)
Definition next_votes_of (vm : VoteManager) (v : PbftView) : outcome (list PbftVote * list PbftVote) :=
  let* next_votes := getTwoTPlusOneVotedBlockVotes (verified_votes_ vm) (pv_period v) (u32 (pv_round v - 1)) NextVotedBlock in
  let* next_null_votes := getTwoTPlusOneVotedBlockVotes (verified_votes_ vm) (pv_period v) (u32 (pv_round v - 1)) NextVotedNullBlock in
  Done (next_votes, next_null_votes).

Definition processGetNextVotes (n : Net) (vm1 vm2 : VoteManager) (v1 v2 : PbftView) (r : nat) (peer_pbft_period : PbftPeriod) (peer_pbft_round : PbftRound) : outcome Net :=
  if negb (pv_period v1 =? peer_pbft_period) || (pv_round v1 =? 1) || (pv_round v1 <? peer_pbft_round) then Done n
  else
    let send votes :=
      let '(next_votes, next_null_votes) := votes in
      let* n := sendPbftVotesBundle n r next_votes in sendPbftVotesBundle n r next_null_votes in
    let* votes := next_votes_of vm1 v1 in
    if bool_decide (votes = ([], [])) then
      if (pv_period v1 =? pv_period v2) && (pv_round v1 =? pv_round v2) then Done n
      else if pv_round v2 =? 1 then Done n
      else let* votes := next_votes_of vm2 v1 in if bool_decide (votes = ([], [])) then Done n else send votes
    else send votes.
End votes.

(** ** A next vote in the store *)

Lemma scan_rounds_finds l k rv r : StronglySorted (flip key_le) l -> (k, rv) ∈ l -> r <= k -> next_voted rv ->
  exists k', k <= k' /\ (exists rv', (k', rv') ∈ l) /\ scan_rounds l r = Some (u32 (k' + 1)).
Proof.
  induction 1 as [|[k0 rv0] l Hs IH Hall]; intros Hin Hr Hn; [by apply elem_of_nil in Hin|]. cbn [scan_rounds].
  assert (k <= k0) as Hk by (apply elem_of_cons in Hin as [[= <- <-]|Hin]; [lia|]; rewrite Forall_forall in Hall; apply (Hall _ Hin)).
  destruct (Z.ltb_spec k0 r); [lia|]. pose proof (next_voted_lookup rv0) as Hl. destruct (match _ with Some b => Some b | None => _ end) as [b|] eqn:E.
  - exists k0. split_and!; [done|exists rv0; by left|done].
  - apply elem_of_cons in Hin as [[= <- <-]|Hin]; [apply Hl in Hn; by destruct Hn|]. destruct (IH Hin Hr Hn) as (k' & ? & [rv' ?] & ?). exists k'. split_and!; [done|exists rv'; by right|done].
Qed.

Lemma determineNewRound_finds vm p k rv r : getRoundVotes (verified_votes_ vm) p k = Some rv -> next_voted rv -> r <= k ->
  exists k', k <= k' /\ is_Some (getRoundVotes (verified_votes_ vm) p k') /\ determineNewRound vm p r = Some (u32 (k' + 1)).
Proof.
  unfold getRoundVotes, determineNewRound, getPeriodVotes. destruct (verified_votes_ vm !! p) as [pm|]; [|done]. intros Hk Hn Hr.
  destruct (scan_rounds_finds (reverse (map_items pm)) k rv r (reverse_items_sorted pm)) as (k' & ? & [rv' Hin] & ?); [by apply elem_of_reverse_items|done|done|].
  exists k'. split_and!; [done| |done]. apply elem_of_reverse_items in Hin. by exists rv'.
Qed.

(** The two-t-plus-one kind of a next vote. *)
Definition next_type (h : blk_hash_t) : TwoTPlusOneVotedBlockType := if h =? kNullBlockHash then NextVotedNullBlock else NextVotedBlock.

Section next_votes.
Context (cfg : PbftConfig) (total : PbftPeriod -> Z) (dpos : PbftPeriod -> option Z) (size : PbftPeriod).
Context (p : PbftPeriod) (k : PbftRound) (s : PbftStep) (h : blk_hash_t).
Context (Hdpos : dpos_ok total dpos) (Hknown : dpos (u64 (p - 1)) = Some (total (u64 (p - 1)))) (Hstep : step_type s = next_vote).

(** The node may store its part of the votes; what it has recorded is for the same block, and recorded if there are enough. *)
Record catching_up (vm : VoteManager) : Prop := {
  cu_inv : vm_inv cfg total vm;
  cu_period : current_pbft_period_ vm <= p;
  cu_block : forall b, getTwoTPlusOneVotedBlock (verified_votes_ vm) p k (next_type h) = Some b -> vb_hash b = h;
  cu_recorded : has_quorum cfg total (verified_votes_ vm) p k s h -> is_Some (getTwoTPlusOneVotedBlock (verified_votes_ vm) p k (next_type h));
}.

Lemma threshold_known vm : vm_inv cfg total vm ->
  exists vm', getPbftTwoTPlusOne cfg dpos size vm (u64 (p - 1)) next_vote = (vm', Some (threshold cfg total (u64 (p - 1)) next_vote)) /\
    vm_inv cfg total vm' /\ verified_votes_ vm' = verified_votes_ vm /\ current_pbft_period_ vm' = current_pbft_period_ vm.
Proof using Hdpos Hknown.
  intros Hinv. pose proof (getPbftTwoTPlusOne_inv cfg total dpos size vm (u64 (p - 1)) next_vote Hinv Hdpos) as H.
  assert (is_Some (getPbftTwoTPlusOne cfg dpos size vm (u64 (p - 1)) next_vote).2 /\ current_pbft_period_ (getPbftTwoTPlusOne cfg dpos size vm (u64 (p - 1)) next_vote).1 = current_pbft_period_ vm) as [[q Hq] Hc].
  { unfold getPbftTwoTPlusOne. rewrite Hknown. by repeat case_match. }
  destruct (getPbftTwoTPlusOne _ _ _ _ _ _) as [vm' o]. cbn [fst snd] in *. subst o. destruct H as (? & ? & H). rewrite (H q eq_refl). by exists vm'.
Qed.

(** The weight that is compared is the sum of the stored weights. *)
Lemma stored_weight vm : vm_inv cfg total vm -> map_sum weight_of (votes (voted_at (verified_votes_ vm) p k s h)) < 2 ^ 64 ->
  weight (voted_at (verified_votes_ vm) p k s h) = map_sum weight_of (votes (voted_at (verified_votes_ vm) p k s h)).
Proof using.
  intros Hinv Hb. assert (vw_wf p k s h (voted_at (verified_votes_ vm) p k s h)) as Hw by (rewrite voted_at_default; apply vw_wf_default, step_wf_default, round_wf_default, Hinv).
  rewrite (vw_weight _ _ _ _ _ Hw). apply wrap_id. split; [|done]. apply map_sum_nonneg. intros. by eapply inv_weights.
Qed.

Lemma update_next vm vote : vm_inv cfg total vm -> at_coord p k s vote -> getBlockHash vote = h ->
  (forall b, getTwoTPlusOneVotedBlock (verified_votes_ vm) p k (next_type h) = Some b -> vb_hash b = h) ->
  is_Some (votes (voted_at (verified_votes_ vm) p k s h) !! getHash vote) ->
  map_sum weight_of (votes (voted_at (verified_votes_ vm) p k s h)) < 2 ^ 64 ->
  exists vm', update_two_t_plus_one cfg dpos size vm vote (voted_at (verified_votes_ vm) p k s h) = Done (vm', true) /\
    current_pbft_period_ vm' = current_pbft_period_ vm /\ (forall h', voted_at (verified_votes_ vm') p k s h' = voted_at (verified_votes_ vm) p k s h') /\
    (forall b, getTwoTPlusOneVotedBlock (verified_votes_ vm') p k (next_type h) = Some b -> vb_hash b = h) /\
    (has_quorum cfg total (verified_votes_ vm') p k s h -> is_Some (getTwoTPlusOneVotedBlock (verified_votes_ vm') p k (next_type h))).
Proof using Hdpos Hknown Hstep.
  intros Hinv (Ep & Ek & Es) Eh Hblk Hin Hb. unfold update_two_t_plus_one. rewrite getType_step_type, Es, Hstep, Ep, Ek, Eh.
  destruct (threshold_known vm Hinv) as (vm1 & -> & Hinv1 & Hvv1 & Hc1). rewrite Hvv1.
  assert (is_Some (getRoundVotes (verified_votes_ vm) p k)) as [rv Erv].
  { destruct Hin as [v Hv]. unfold voted_at in Hv. rewrite getStepVotes_round in Hv. destruct (getRoundVotes _ p k); [by eexists|]. simpl in Hv. by rewrite lookup_empty in Hv. }
  rewrite Erv. set (vm2 := if bool_decide _ && _ && _ then set_vv _ _ else _).
  assert (current_pbft_period_ vm2 = current_pbft_period_ vm) as Hc2 by (subst vm2; by case_match).
  assert (forall s' h', voted_at (verified_votes_ vm2) p k s' h' = voted_at (verified_votes_ vm) p k s' h') as Hat by (intros; subst vm2; case_match; simpl; rewrite ?setNetworkTPlusOneStep_voted_at; congruence).
  assert (forall t, getTwoTPlusOneVotedBlock (verified_votes_ vm2) p k t = getTwoTPlusOneVotedBlock (verified_votes_ vm) p k t) as Hbl by (intros; subst vm2; case_match; simpl; rewrite ?setNetworkTPlusOneStep_blocks; congruence).
  clearbody vm2. rewrite (stored_weight vm Hinv Hb). destruct (Z.ltb_spec (map_sum weight_of (votes (voted_at (verified_votes_ vm) p k s h))) (threshold cfg total (u64 (p - 1)) next_vote)) as [Hlt|Hge].
  { exists vm2. split_and!; [done|done|done|by intros b; rewrite Hbl; apply Hblk|]. unfold has_quorum. rewrite Hat, Hstep. lia. }
  assert (exists vm3, saveTwoTPlusOneVotesInDb vm2 rv (voted_at (verified_votes_ vm) p k s h) (next_type h) vote = Done vm3 /\ current_pbft_period_ vm3 = current_pbft_period_ vm /\
    (forall h', voted_at (verified_votes_ vm3) p k s h' = voted_at (verified_votes_ vm) p k s h') /\
    (exists b, getTwoTPlusOneVotedBlock (verified_votes_ vm3) p k (next_type h) = Some b /\ vb_hash b = h)) as (vm3 & Hsave & Hc3 & Hat3 & b3 & Hb3 & Hh3).
  { unfold saveTwoTPlusOneVotesInDb. assert (two_t_plus_one_voted_blocks_ rv !! next_type h = getTwoTPlusOneVotedBlock (verified_votes_ vm) p k (next_type h)) as -> by (by rewrite two_t_block_round, Erv).
    destruct (getTwoTPlusOneVotedBlock (verified_votes_ vm) p k (next_type h)) as [b|] eqn:Eb.
    - rewrite (Hblk b eq_refl), Eh, Z.eqb_refl. cbn [oassert obind]. exists vm2. split; [unfold next_type; by destruct (_ =? _)|]. split_and!; [done|done|]. exists b. rewrite Hbl, Eb. split; [done|by apply Hblk].
    - set (vm3 := set_vv vm2 _). assert (getTwoTPlusOneVotedBlock (verified_votes_ vm3) p k (next_type h) = Some (mkVotedBlock h s)) as Hnew.
      { subst vm3. simpl. unfold insertTwoTPlusOneVotedBlock. rewrite Ep, Ek, Es, Eh. specialize (Hbl (next_type h)). rewrite Eb, two_t_block_round in Hbl.
        assert (is_Some (getRoundVotes (verified_votes_ vm2) p k)) as [rv2 Erv2].
        { destruct Hin as [v Hv]. rewrite <- Hat in Hv. unfold voted_at in Hv. rewrite getStepVotes_round in Hv. destruct (getRoundVotes (verified_votes_ vm2) p k); [by eexists|]. simpl in Hv. by rewrite lookup_empty in Hv. }
        rewrite Erv2 in Hbl |- *. simpl in Hbl. rewrite Hbl, two_t_block_round, getRoundVotes_put, decide_True by done. simpl. by rewrite lookup_insert_eq. }
      assert (forall h', voted_at (verified_votes_ vm3) p k s h' = voted_at (verified_votes_ vm) p k s h') as Hat3 by (intros; subst vm3; simpl; by rewrite insertTwoTPlusOneVotedBlock_voted_at, Hat).
      destruct (_ && _ && _); [exists (set_db vm3 (replaceTwoTPlusOneVotes (db_ vm3) (next_type h) ((map_to_list (votes (voted_at (verified_votes_ vm) p k s h))).*2)))|exists vm3];
        (split_and!; [done|done|done|exists (mkVotedBlock h s); by split]). }
  exists vm3. split; [|split_and!; [done|done|intros b Hbb; congruence|intros _; by exists b3]].
  unfold next_type in Hsave. destruct (h =? kNullBlockHash); by rewrite Hsave.
Qed.
Lemma insertUniqueVoter_others vv vote a : a <> getVoterAddr vote ->
  voters_at (insertUniqueVoter vv vote).1 (getPeriod vote) (getRound vote) (getStep vote) !! a = voters_at vv (getPeriod vote) (getRound vote) (getStep vote) !! a.
Proof using.
  intros Ha. unfold insertUniqueVoter. destruct (getRoundVotes vv _ _) as [rv|] eqn:Erv; [|done]. destruct (step_votes rv !! getStep vote) as [sv|] eqn:Esv; [|done].
  destruct (voter_entry _ _) as [entry existing]. simpl. unfold voters_at. rewrite getStepVotes_put, decide_True, getStepVotes_round, Erv by done. simpl. rewrite lookup_insert_eq, Esv. simpl. by rewrite lookup_insert_ne.
Qed.

Lemma add_next vm vote w : catching_up vm -> at_coord p k s vote -> getBlockHash vote = h -> getWeight vote = Some w -> 0 < w -> in_range 64 w ->
  (isUniqueVote vm vote).1 = true -> votes (voted_at (verified_votes_ vm) p k s h) !! getHash vote = None ->
  map_sum weight_of (votes (voted_at (verified_votes_ vm) p k s h)) + w < 2 ^ 64 ->
  exists vm', addVerifiedVote cfg dpos size vm vote = Done (vm', true) /\ catching_up vm' /\
    votes (voted_at (verified_votes_ vm') p k s h) = <[getHash vote := vote]> (votes (voted_at (verified_votes_ vm) p k s h)) /\
    (forall a, a <> getVoterAddr vote -> voters_at (verified_votes_ vm') p k s !! a = voters_at (verified_votes_ vm) p k s !! a).
Proof using Hdpos Hknown Hstep.
  intros Hcu Hat Eh Ew Hw Hr Hu Hnew Hb. pose proof (cu_inv _ Hcu) as Hinv. pose proof Hat as (Ep & Ek & Es).
  pose proof (addVerifiedVote_cases cfg total dpos size vm vote Hinv Hdpos) as Hcases. unfold addVerifiedVote in *. rewrite Ew in *. destruct (Z.eqb_spec w 0); [lia|].
  rewrite isUniqueVote_agrees in Hu. pose proof (insertUniqueVoter_others (verified_votes_ vm) vote) as Hoth. pose proof (insertUniqueVoter_voted_at (verified_votes_ vm) vote) as Huat. pose proof (insertUniqueVoter_blocks (verified_votes_ vm) vote) as Hubl.
  pose proof (vm_inv_insertUniqueVoter cfg total vm vote Hinv) as Hinv1.
  destruct (insertUniqueVoter (verified_votes_ vm) vote) as [vv1 [ex|]]; [done|]. cbn [fst snd] in *. cbn [verified_votes_ set_vv current_pbft_period_] in *.
  destruct (Z.ltb_spec (getPeriod vote) (current_pbft_period_ vm)) as [Hold|_]; [pose proof (cu_period _ Hcu); lia|]. cbn [andb] in *.
  destruct (insertVotedValue_effect vv1 vote w Ew) as (vv2 & res & Hi & Hother & Hres). pose proof (insertVotedValue_voters vv1 vote vv2 res p k s Hi) as Hvo2. pose proof (fun p r t => insertVotedValue_blocks vv1 vote vv2 res p r t Hi) as Hbl2.
  rewrite Hi in *. cbn [obind] in *. rewrite Ep, Ek, Es, Eh in *. rewrite Huat, Hnew in Hres. destruct Hres as (-> & Hvotes & _).
  pose proof (vm_inv_insertVotedValue cfg total (set_vv vm vv1) vote vv2 (Some (voted_at vv2 p k s h)) Hinv1) as Hinv2.
  assert (vote_ok vote) as Hvok by (intros w' Hw'; congruence). specialize (Hinv2 Hvok ltac:(by exists w)). cbn [verified_votes_ set_vv] in Hinv2. specialize (Hinv2 Hi). change (set_vv (set_vv vm vv1) vv2) with (set_vv vm vv2) in *.
  destruct (update_next (set_vv vm vv2) vote Hinv2 Hat Eh) as (vm' & Hup & Hc' & Hat' & Hblk' & Hrec').
  - intros b. cbn [verified_votes_ set_vv]. rewrite Hbl2, Hubl. apply (cu_block _ Hcu).
  - cbn [verified_votes_ set_vv]. rewrite Hvotes, lookup_insert_eq. by eexists.
  - cbn [verified_votes_ set_vv]. rewrite Hvotes, map_sum_insert by done. unfold weight_of at 1. rewrite Ew. simpl. lia.
  - cbn [verified_votes_ set_vv] in Hup. pose proof (update_two_t_plus_one_voters cfg dpos size (set_vv vm vv2) vote _ vm' true p k s Hup) as Hvo. rewrite Hup in *. exists vm'. cbn [verified_votes_ set_vv] in *.
    specialize (Hcases Hvok). split_and!; [done| | |].
    + split; [done|rewrite Hc'; apply (cu_period _ Hcu)|done|done].
    + by rewrite Hat', Hvotes.
    + intros a Ha. rewrite Hvo, Hvo2. by apply Hoth.
Qed.
End next_votes.

(** ** Sending bundles *)

(** The caches of known votes of all peers are as constructed. *)
Record net_good (n : Net) : Prop := {
  ng_ok : net_ok n;
  ng_known : forall r p, store n !! r = Some p -> known_ok (known_votes_ (peer_known p));
}.

Lemma net_good_act n l : net_good n -> net_good (act n l).
Proof. intros [H1 H2]. split; [by apply net_ok_act|done]. Qed.
Lemma net_good_send n id p : net_good n -> net_good (sealAndSend n id p).1.
Proof. intros H. unfold sealAndSend. case_match; by apply net_good_act. Qed.
Lemma net_good_assign n r p p' : store n !! r = Some p -> id_ p' = id_ p -> known_ok (known_votes_ (peer_known p')) -> net_good n -> net_good (assign n r p').
Proof. intros Hr Hid Hk [H1 H2]. split; [by eapply net_ok_assign|]. intros r0 q. simpl. intros [[_ <-]|[_ Hq]]%lookup_insert_Some; [done|by eapply H2]. Qed.

Lemma mark_vote_total p h : known_ok (known_votes_ (peer_known p)) ->
  exists p' b, markPbftVoteAsKnown p h = Done (p', b) /\ known_ok (known_votes_ (peer_known p')) /\ id_ p' = id_ p /\ peer_status p' = peer_status p.
Proof. intros Hk. unfold markPbftVoteAsKnown. destruct (bn_insert_total _ h (pbft_chain_size_ (peer_status p)) Hk) as (c & b & -> & Hc & _). by do 2 eexists. Qed.

Lemma mark_votes_total votes : forall p, known_ok (known_votes_ (peer_known p)) ->
  exists p', ofold (fun p vote => let* (p, _) := markPbftVoteAsKnown p (getHash vote) in Done p) votes p = Done p' /\ known_ok (known_votes_ (peer_known p')) /\ id_ p' = id_ p.
Proof.
  induction votes as [|vote votes IH]; intros p Hk; cbn [ofold]; [by exists p|].
  destruct (mark_vote_total p (getHash vote) Hk) as (p1 & b & -> & Hk1 & Hid & _). cbn [obind]. destruct (IH p1 Hk1) as (p2 & -> & ? & ?). exists p2. split_and!; [done|done|congruence].
Qed.

(** The packets go out, and nothing but the peer's cache changes. *)
Lemma sendVotes_total n r p votes : net_good n -> store n !! r = Some p ->
  exists n', sendVotes n r votes = Done n' /\ net_good n' /\ (forall r, is_Some (store n !! r) -> is_Some (store n' !! r)) /\
    peers_ n' = peers_ n /\ (exists p', store n' !! r = Some p' /\ id_ p' = id_ p) /\ net_out n `prefix_of` net_out n' /\
    (is_Some (peers_ n !! id_ p) -> net_out n' = net_out n ++ [HostSend (id_ p) (PktVotesBundle votes)]).
Proof.
  intros Hn Hp. unfold sendVotes. rewrite (deref_some _ _ _ Hp). cbn [obind]. pose proof (net_good_send n (id_ p) (PktVotesBundle votes) Hn) as Hn1.
  assert (store (sealAndSend n (id_ p) (PktVotesBundle votes)).1 = store n /\ peers_ (sealAndSend n (id_ p) (PktVotesBundle votes)).1 = peers_ n /\
    net_out n `prefix_of` net_out (sealAndSend n (id_ p) (PktVotesBundle votes)).1 /\
    (is_Some (peers_ n !! id_ p) -> net_out (sealAndSend n (id_ p) (PktVotesBundle votes)).1 = net_out n ++ [HostSend (id_ p) (PktVotesBundle votes)])) as (Hs & Hpe & Hpre & Hout).
  { unfold sealAndSend, getPacketSenderPeer. destruct (peers_ n !! id_ p); [by split_and!; [| |by eexists|]|]. repeat case_match; (split_and!; [done|done|by eexists|by intros []]). }
  destruct (sealAndSend n (id_ p) (PktVotesBundle votes)) as [n1 sent]. cbn [fst] in *. destruct sent.
  2: { exists n1. rewrite Hs, Hpe. split_and!; try done. by exists p. }
  assert (store n1 !! r = Some p) as Hp1 by (by rewrite Hs). rewrite (deref_some _ _ _ Hp1). cbn [obind]. destruct (mark_votes_total votes p (ng_known _ Hn _ _ Hp)) as (p' & -> & Hk' & Hid). cbn [obind].
  eexists. split; [done|]. split_and!; [by eapply net_good_assign| |done| |done|done].
  - intros r0 Hr0. simpl. rewrite Hs. destruct (decide (r = r0)) as [<-|]; [rewrite lookup_insert_eq; by eexists|by rewrite lookup_insert_ne].
  - simpl. rewrite lookup_insert_eq. by exists p'.
Qed.

Lemma sendBundle_total votes r : forall n p, net_good n -> store n !! r = Some p ->
  exists n', sendPbftVotesBundle n r votes = Done n' /\ net_good n' /\ (forall r, is_Some (store n !! r) -> is_Some (store n' !! r)) /\ peers_ n' = peers_ n /\
    (exists p', store n' !! r = Some p' /\ id_ p' = id_ p) /\ net_out n `prefix_of` net_out n' /\
    (is_Some (peers_ n !! id_ p) -> net_out n' = net_out n ++ map (fun b => HostSend (id_ p) (PktVotesBundle b)) (votes_bundles votes)).
Proof.
  unfold sendPbftVotesBundle. induction (votes_bundles votes) as [|b bundles IH]; intros n p Hn Hp; cbn [ofold].
  { exists n. split_and!; try done; [by exists p|by rewrite app_nil_r]. }
  destruct (sendVotes_total n r p b Hn Hp) as (n1 & -> & Hn1 & Hs1 & Hpe1 & (p1 & Hp1 & Hid1) & Hpre1 & Hout1). cbn [obind].
  destruct (IH n1 p1 Hn1 Hp1) as (n2 & -> & Hn2 & Hs2 & Hpe2 & (p2 & Hp2 & Hid2) & Hpre2 & Hout2). exists n2. split_and!; [done|done|by intros r0 H0; apply Hs2, Hs1|congruence|exists p2; split; [done|congruence]|by etrans|].
  intros Hr. rewrite Hid1, Hpe1 in Hout2. rewrite (Hout2 Hr), (Hout1 Hr), <- app_assoc. done.
Qed.

Section gossip.
Context (iter_peers : gmap Z nat -> list (Z * nat)) (Hiter : forall m, iter_peers m ≡ₚ map_to_list m).

Lemma onNewBundle_total n votes rebroadcast exclude : net_good n ->
  exists n', onNewPbftVotesBundle iter_peers n votes rebroadcast exclude = Done n' /\ net_good n' /\ (forall r, is_Some (store n !! r) -> is_Some (store n' !! r)).
Proof using Hiter.
  intros Hn. unfold onNewPbftVotesBundle. assert (forall e, e ∈ iter_peers (peers_ n) -> is_Some (store n !! e.2)) as Hall.
  { intros [id r] He. rewrite Hiter in He. apply elem_of_map_to_list in He. destruct (no_peers _ (ng_ok _ Hn) _ _ He) as (p & ? & _). by exists p. }
  revert Hall. generalize (iter_peers (peers_ n)) as l. intros l Hall. revert n Hn Hall. induction l as [|[id r] l IH]; intros n Hn Hall; cbn [ofold]; [exists n; by split_and!|].
  destruct (Hall (id, r) ltac:(by left)) as [p Hp]. simpl in Hp. rewrite (deref_some _ _ _ Hp). cbn [obind].
  assert (exists n1, (if syncing_ (peer_status p) then Done n else if bool_decide (exclude = Some id) then Done n
    else sendPbftVotesBundle n r (filter (fun vote => rebroadcast = true \/ isPbftVoteKnown p (getHash vote) = false) votes)) = Done n1 /\ net_good n1 /\ (forall r, is_Some (store n !! r) -> is_Some (store n1 !! r))) as (n1 & -> & Hn1 & Hs1).
  { case_match; [by exists n|]. case_match; [by exists n|]. destruct (sendBundle_total (filter (fun vote => rebroadcast = true \/ isPbftVoteKnown p (getHash vote) = false) votes) r n p Hn Hp) as (n1 & ? & ? & ? & _). by exists n1. }
  cbn [obind]. destruct (IH n1 Hn1) as (n2 & -> & Hn2 & Hs2); [intros e He; apply Hs1, Hall; by right|]. exists n2. split_and!; [done|done|]. intros r0 H0. by apply Hs2, Hs1.
Qed.
End gossip.

(** The bundles of votes that are sent: all votes in order, and as many in each as a receiver accepts. *)
Lemma split_votes_spec fuel : forall votes, (length votes <= fuel)%nat ->
  mjoin (split_votes fuel votes) = votes /\ Forall (fun b => b <> [] /\ (length b <= kMaxVotesInBundleRlp)%nat) (split_votes fuel votes).
Proof.
  induction fuel as [|fuel IH]; intros votes Hf; cbn [split_votes]; [by destruct votes; [split; [|constructor]|simpl in Hf; lia]|].
  destruct votes as [|v votes]; [split; [done|constructor]|]. destruct (IH (drop kMaxVotesInBundleRlp (v :: votes))) as [Hj Hall]; [rewrite length_drop; unfold kMaxVotesInBundleRlp; simpl in *; lia|]. split.
  - change (mjoin (?a :: ?l)) with (a ++ mjoin l). by rewrite Hj, take_drop.
  - constructor; [|done]. split; [done|]. rewrite length_take. lia.
Qed.

Lemma votes_bundles_spec votes :
  mjoin (votes_bundles votes) = votes /\ Forall (fun b => b <> [] /\ (length b <= kMaxVotesInBundleRlp)%nat) (votes_bundles votes).
Proof.
  unfold votes_bundles. case_bool_decide as E; [by subst; split; [|constructor]|]. case_bool_decide as L; [|by apply split_votes_spec].
  split; [change (mjoin [votes]) with (votes ++ []); by rewrite app_nil_r|]. by constructor.
Qed.

(** The packets of one bundle after another. *)
Fixpoint receive_bundles limits vcfg env getVoter iter_peers (h : VoteHandler) (v : PbftView) (now : Z) (r : nat) (bundles : list (list PbftVote)) :
    outcome (VoteHandler * option PacketException) :=
  match bundles with
  | [] => Done (h, None)
  | b :: rest =>
      let* (h, e) := processVotesBundle limits vcfg env getVoter iter_peers h v now r b in
      match e with Some e => Done (h, Some e) | None => receive_bundles limits vcfg env getVoter iter_peers h v now r rest end
  end.

Lemma voteInVerifiedMap_at vm vote :
  voteInVerifiedMap vm vote = bool_decide (is_Some (votes (voted_at (verified_votes_ vm) (getPeriod vote) (getRound vote) (getStep vote) (getBlockHash vote)) !! getHash vote)).
Proof.
  unfold voteInVerifiedMap, voted_at. destruct (getStepVotes _ _ _ _) as [sv|]; simpl; [|by rewrite lookup_empty].
  destruct (voted_values sv !! getBlockHash vote) as [vw|]; simpl; [done|]. by rewrite lookup_empty.
Qed.

Lemma isUniqueVote_fresh vm vote : voters_at (verified_votes_ vm) (getPeriod vote) (getRound vote) (getStep vote) !! getVoterAddr vote = None -> isUniqueVote vm vote = (true, None).
Proof. unfold isUniqueVote, voters_at. destruct (getStepVotes _ _ _ _) as [sv|]; simpl; [|done]. by intros ->. Qed.

(** Stored votes with distinct hashes weigh at most as much as all that are stored. *)
Lemma stored_sum (m : gmap vote_hash_t PbftVote) l : (forall h v, m !! h = Some v -> 0 <= weight_of v) -> NoDup (getHash <$> l) -> (forall v, v ∈ l -> m !! getHash v = Some v) ->
  sum_list_Z weight_of l <= map_sum weight_of m.
Proof.
  revert m. induction l as [|v l IH]; intros m Hpos Hnd Hin; [apply map_sum_nonneg, Hpos|]. rewrite fmap_cons in Hnd. apply NoDup_cons in Hnd as [Hni Hnd].
  assert (m !! getHash v = Some v) as Hv by (apply Hin; by left). rewrite <- (insert_delete_id m (getHash v) v Hv), map_sum_insert by apply lookup_delete_eq. change (sum_list_Z weight_of (v :: l)) with (weight_of v + sum_list_Z weight_of l).
  enough (sum_list_Z weight_of l <= map_sum weight_of (delete (getHash v) m)) by lia. apply IH; [intros h x [_ Hx]%lookup_delete_Some; by eapply Hpos|done|].
  intros x Hx. rewrite lookup_delete_ne; [apply Hin; by right|]. intros E. apply Hni. rewrite E. by apply list_elem_of_fmap_2.
Qed.

Section catch_up.
Context (limits : VoteLimits) (vcfg : PbftConfig) (env : VoteEnv) (getVoter : PbftVote -> Z) (iter_peers : gmap Z nat -> list (Z * nat)).
Context (Hiter : forall m, iter_peers m ≡ₚ map_to_list m).
Context (total : PbftPeriod -> Z) (p : PbftPeriod) (k r : PbftRound) (s : PbftStep) (h : blk_hash_t) (v : PbftView) (now : Z) (r0 : nat).
Context (Hdpos : dpos_ok total (dposEligibleTotalVoteCount env)) (Hknown : dposEligibleTotalVoteCount env (u64 (p - 1)) = Some (total (u64 (p - 1)))) (Hstep : step_type s = next_vote).
Context (Hp : 1 <= p /\ p + vote_accepting_periods limits < 2 ^ 64 /\ 0 <= vote_accepting_periods limits) (Hr : 1 <= r <= k /\ k < 2 ^ 32) (Hv : pv_period v = p /\ pv_round v = r).

(** A valid vote of the step, with the weight its validation gives it. *)
Record good_vote (vote : PbftVote) : Prop := {
  gv_coord : at_coord p k s vote;
  gv_hash : getBlockHash vote = h;
  gv_weight : exists w, getWeight vote = Some w /\ 0 < w /\ in_range 64 w;
  gv_valid : validateVote vcfg env vote true = (true, Some vote);
}.

Abbreviation stored_votes hd := (votes (voted_at (verified_votes_ (vh_vm hd)) p k s h)).

(** A vote the node has, or one of a voter it has no vote of in this step. *)
Definition expected (hd : VoteHandler) (vote : PbftVote) : Prop :=
  stored_votes hd !! getHash vote = Some vote \/
  (stored_votes hd !! getHash vote = None /\ voters_at (verified_votes_ (vh_vm hd)) p k s !! getVoterAddr vote = None /\ getHash vote ∉ Expiration.cache_ (already_validated_votes_ hd)).

Record progress (todo : list PbftVote) (hd : VoteHandler) : Prop := {
  pg_net : net_good (vh_net hd);
  pg_peer : is_Some (store (vh_net hd) !! r0);
  pg_cache : Expiration.tracked (already_validated_votes_ hd) /\ Expiration.params_ok (already_validated_votes_ hd);
  pg_cu : catching_up vcfg total p k s h (vh_vm hd);
  pg_todo : forall vote, vote ∈ todo -> good_vote vote /\ expected hd vote;
  pg_sum : map_sum weight_of (stored_votes hd) + sum_list_Z weight_of todo < 2 ^ 64;
  pg_hashes : NoDup (getHash <$> todo);
  pg_voters : NoDup (getVoterAddr <$> todo);
}.

Lemma window_accepts hd vote peer : good_vote vote -> validateVotePeriodRoundStep limits getVoter hd v now vote peer false = (hd, true).
Proof using Hp Hr Hv.
  intros [(Ep & Ek & Es) _ _ _]. unfold validateVotePeriodRoundStep. destruct Hv as [-> ->]. rewrite Ep, Ek, Z.eqb_refl.
  assert (u64 (p - 1) = p - 1) as -> by (apply wrap_id; unfold in_range, modulus; lia). assert (u32 (r - 1) = r - 1) as -> by (apply wrap_id; unfold in_range, modulus; lia).
  assert (u64 (p + vote_accepting_periods limits) = p + vote_accepting_periods limits) as -> by (apply wrap_id; unfold in_range, modulus; lia).
  destruct (Z.ltb_spec p (p - 1)); [lia|]. destruct (Z.eqb_spec p (p - 1)); [lia|]. cbn [orb andb]. destruct (Z.ltb_spec (p + vote_accepting_periods limits) (p - 1)); [lia|]. rewrite andb_false_r.
  destruct (Z.ltb_spec k (r - 1)); [lia|]. destruct (Z.eqb_spec k (r - 1)); [lia|]. done.
Qed.

Lemma contains_after (c : @Expiration.ExpirationCache vote_hash_t _ _) key c' b x : Expiration.tracked c -> Expiration.params_ok c -> Expiration.insert c key = Done (c', b) -> x ∈ Expiration.cache_ c' -> x = key \/ x ∈ Expiration.cache_ c.
Proof using.
  intros Ht Hpar Hi Hx. destruct (decide (key ∈ Expiration.cache_ c)) as [Hk|Hk]; [rewrite Expiration.insert_old in Hi by done; injection Hi as <- _; by right|].
  destruct (Expiration.insert_new c key Ht Hpar Hk) as (n & E & _). rewrite E in Hi. injection Hi as <- _. simpl in Hx. apply elem_of_difference in Hx as [[->%elem_of_singleton|?]%elem_of_union _]; auto.
Qed.

(** One vote: it is stored afterwards. *)
Lemma process_step vote todo hd peer : progress (vote :: todo) hd -> voteAlreadyValidated hd (getHash vote) = false \/ stored_votes hd !! getHash vote = Some vote ->
  exists hd' b, processVote limits vcfg env getVoter hd v now vote None peer false = Done (hd', inr b) /\ progress todo hd' /\
    stored_votes hd' !! getHash vote = Some vote /\ (forall x, stored_votes hd !! getHash x = Some x -> stored_votes hd' !! getHash x = Some x).
Proof using Hiter Hdpos Hknown Hstep Hp Hr Hv.
  intros [Hn Hpe [Ht Hpar] Hcu Htodo Hsum Hh Ha] Hval. destruct (Htodo vote ltac:(by left)) as [Hg Hexp]. pose proof Hg as [Hat Eh (w & Ew & Hw & Hwr) Hvalid].
  rewrite fmap_cons in Hh, Ha. apply NoDup_cons in Hh as [Hhn Hh]. apply NoDup_cons in Ha as [Han Ha]. change (sum_list_Z weight_of (vote :: todo)) with (weight_of vote + sum_list_Z weight_of todo) in Hsum.
  assert (weight_of vote = w) as Hwo by (unfold weight_of; by rewrite Ew). pose proof Hat as (Ep & Ek & Es). unfold processVote. rewrite voteInVerifiedMap_at, Ep, Ek, Es, Eh.
  destruct Hexp as [Hst|(Hst & Hvo & Hca)].
  { rewrite bool_decide_eq_true_2 by (by eexists). exists hd, false. split_and!; [done| |done|done]. split; [done|done|done|done|intros x Hx; apply Htodo; by right|lia|done|done]. }
  rewrite bool_decide_eq_false_2 by (rewrite Hst; by intros []). rewrite (window_accepts hd vote peer Hg). cbn [negb]. rewrite isUniqueVote_fresh by (by rewrite Ep, Ek, Es). rewrite Hvalid.
  destruct (Expiration.insert_tracked (already_validated_votes_ hd) (getHash vote) Ht Hpar) as (c & b & Hi & Ht' & Hpar' & _). rewrite Hi. cbn [obind].
  destruct (add_next vcfg total (dposEligibleTotalVoteCount env) (pv_chain_size v) p k s h Hdpos Hknown Hstep (vh_vm hd) vote w Hcu Hat Eh Ew Hw Hwr) as (vm' & Hadd & Hcu' & Hvotes' & Hvo'); [by rewrite isUniqueVote_fresh by (by rewrite Ep, Ek, Es)|done| |].
  { assert (0 <= sum_list_Z weight_of todo); [|lia]. apply sum_list_Z_nonneg. intros x Hx. destruct (Htodo x ltac:(by right)) as [[_ _ (wx & Ewx & ? & ?) _] _]. unfold weight_of. rewrite Ewx. simpl. lia. }
  change (vh_vm (with_validated hd c)) with (vh_vm hd). rewrite Hadd. cbn [obind negb]. eexists _, true. split; [done|].
  assert (forall x, stored_votes hd !! getHash x = Some x -> votes (voted_at (verified_votes_ vm') p k s h) !! getHash x = Some x) as Hkeep.
  { intros x Hx. rewrite Hvotes'. destruct (decide (getHash vote = getHash x)) as [E|]; [rewrite <- E in Hx; congruence|by rewrite lookup_insert_ne]. }
  split_and!; [|simpl; by rewrite Hvotes', lookup_insert_eq|done]. split; simpl; [done|done|done|done| |rewrite Hvotes', map_sum_insert by done; lia|done|done].
  intros x Hx. destruct (Htodo x ltac:(by right)) as [Hgx [Hsx|(Hsx & Hvx & Hcx)]]; (split; [done|]); [left; by apply Hkeep|right; simpl].
  assert (getHash x <> getHash vote) by (intros E; apply Hhn; rewrite <- E; by apply list_elem_of_fmap_2). assert (getVoterAddr x <> getVoterAddr vote) by (intros E; apply Han; rewrite <- E; by apply list_elem_of_fmap_2).
  split_and!; [rewrite Hvotes', lookup_insert_ne by done; done|by rewrite Hvo'|]. intros Hin. by destruct (contains_after _ _ _ _ _ Ht Hpar Hi Hin).
Qed.
(** The network part of the state may change. *)
Lemma progress_net todo hd n : progress todo hd -> net_good n -> is_Some (store n !! r0) -> progress todo (with_net hd n).
Proof using. by intros [] ? ?; split. Qed.

Lemma progress_mark todo hd hash : progress todo hd -> exists hd', vh_mark hd r0 (fun q => markPbftVoteAsKnown q hash) = Done hd' /\ progress todo hd' /\
  vh_vm hd' = vh_vm hd /\ already_validated_votes_ hd' = already_validated_votes_ hd.
Proof using.
  intros Hpg. destruct (pg_peer _ _ Hpg) as [q Hq]. unfold vh_mark, vh_peer. rewrite (deref_some _ _ _ Hq). cbn [obind].
  destruct (mark_vote_total q hash (ng_known _ (pg_net _ _ Hpg) _ _ Hq)) as (q' & b & -> & Hk & Hid & _). cbn [obind]. eexists. split; [done|]. split_and!; [|done|done].
  apply progress_net; [done|by eapply net_good_assign; [| | |apply (pg_net _ _ Hpg)]|simpl; rewrite lookup_insert_eq; by eexists].
Qed.

Lemma progress_tail vote todo hd : progress (vote :: todo) hd -> stored_votes hd !! getHash vote = Some vote -> progress todo hd.
Proof using.
  intros [Hn Hpe Hc Hcu Htodo Hsum Hh Ha] _. destruct (Htodo vote ltac:(by left)) as [[_ _ (w & Ew & Hw & _) _] _]. rewrite fmap_cons in Hh, Ha. apply NoDup_cons in Hh as [_ Hh]. apply NoDup_cons in Ha as [_ Ha].
  change (sum_list_Z weight_of (vote :: todo)) with (weight_of vote + sum_list_Z weight_of todo) in Hsum. assert (weight_of vote = w) by (unfold weight_of; by rewrite Ew).
  split; [done|done|done|done|intros x Hx; apply Htodo; by right|lia|done|done].
Qed.

Lemma bundle_loop_effect bundle : forall later hd count, progress (bundle ++ later) hd ->
  exists hd' c, bundle_loop limits vcfg env getVoter hd v now r0 false bundle count = Done (hd', inr c) /\ progress later hd' /\
    (forall x, x ∈ bundle -> stored_votes hd' !! getHash x = Some x) /\ (forall x, stored_votes hd !! getHash x = Some x -> stored_votes hd' !! getHash x = Some x).
Proof using Hiter Hdpos Hknown Hstep Hp Hr Hv.
  induction bundle as [|vote bundle IH]; intros later hd count Hpg; cbn [bundle_loop].
  { exists hd, count. split_and!; [done|done|by intros x ?%elem_of_nil|done]. }
  destruct (progress_mark _ _ (getHash vote) Hpg) as (h1 & -> & Hpg1 & Hvm1 & Hca1). cbn [obind].
  assert (forall h2, progress (bundle ++ later) h2 -> stored_votes h2 !! getHash vote = Some vote -> (forall x, stored_votes hd !! getHash x = Some x -> stored_votes h2 !! getHash x = Some x) -> forall c,
    exists hd' c', bundle_loop limits vcfg env getVoter h2 v now r0 false bundle c = Done (hd', inr c') /\ progress later hd' /\
    (forall x, x ∈ vote :: bundle -> stored_votes hd' !! getHash x = Some x) /\ (forall x, stored_votes hd !! getHash x = Some x -> stored_votes hd' !! getHash x = Some x)) as Hgo.
  { intros h2 Hpg2 Hst Hkeep c. destruct (IH later h2 c Hpg2) as (hd' & c' & -> & Hpg' & Hall & Hkeep'). exists hd', c'. split_and!; [done|done| |auto].
    intros x [->|Hx]%elem_of_cons; [by apply Hkeep'|by apply Hall]. }
  destruct (pg_todo _ _ Hpg1 vote ltac:(by left)) as [_ Hexp].
  destruct (voteAlreadyValidated h1 (getHash vote)) eqn:Eval.
  - destruct Hexp as [Hst|(_ & _ & Hn)]; [|unfold voteAlreadyValidated, Expiration.contains in Eval; by apply bool_decide_eq_true in Eval].
    apply Hgo; [by apply (progress_tail vote)|done|by rewrite Hvm1].
  - destruct (pg_peer _ _ Hpg1) as [q Hq]. unfold vh_peer. rewrite (deref_some _ _ _ Hq). cbn [obind].
    destruct (process_step vote (bundle ++ later) h1 q Hpg1 ltac:(by left)) as (h2 & b & -> & Hpg2 & Hst2 & Hkeep2). cbn [obind]. apply Hgo; [done|done|]. intros x Hx. apply Hkeep2. by rewrite Hvm1.
Qed.

Lemma bundle_effect bundle later hd : progress (bundle ++ later) hd -> bundle <> [] -> (length bundle <= kMaxVotesInBundleRlp)%nat ->
  exists hd', processVotesBundle limits vcfg env getVoter iter_peers hd v now r0 bundle = Done (hd', None) /\ progress later hd' /\
    (forall x, x ∈ bundle -> stored_votes hd' !! getHash x = Some x) /\ (forall x, stored_votes hd !! getHash x = Some x -> stored_votes hd' !! getHash x = Some x).
Proof using Hiter Hdpos Hknown Hstep Hp Hr Hv.
  intros Hpg Hne Hlen. destruct bundle as [|vote bundle]; [done|]. unfold processVotesBundle. rewrite bool_decide_eq_false_2 by lia.
  destruct (pg_todo _ _ Hpg vote ltac:(by left)) as [[(Ep & Ek & Es) _ _ _] _].
  assert (isPbftRelevantVote v vote = true) as ->. { unfold isPbftRelevantVote. rewrite Ep, Ek. destruct Hv as [-> ->]. destruct (Z.leb_spec p p); [|lia]. by destruct (Z.leb_spec r k); [|lia]. }
  cbn [negb]. destruct (pg_peer _ _ Hpg) as [q Hq]. unfold vh_peer. rewrite (deref_some _ _ _ Hq). cbn [obind]. rewrite getType_step_type, Es, Hstep. rewrite bool_decide_eq_false_2, bool_decide_eq_false_2, bool_decide_eq_true_2 by done. cbn [orb negb].
  destruct (bundle_loop_effect (vote :: bundle) later hd 0 Hpg) as (h1 & c & -> & Hpg1 & Hall & Hkeep). cbn [obind].
  destruct (onNewBundle_total iter_peers Hiter (vh_net h1) (vote :: bundle) false (Some (id_ q)) (pg_net _ _ Hpg1)) as (n & -> & Hn & Hs). cbn [obind].
  eexists. split; [done|]. split_and!; [|done|done]. apply progress_net; [done|done|]. apply Hs, (pg_peer _ _ Hpg1).
Qed.

Lemma receive_bundles_effect bundles : forall hd, progress (mjoin bundles) hd -> Forall (fun b => b <> [] /\ (length b <= kMaxVotesInBundleRlp)%nat) bundles ->
  exists hd', receive_bundles limits vcfg env getVoter iter_peers hd v now r0 bundles = Done (hd', None) /\ progress [] hd' /\
    (forall x, x ∈ mjoin bundles -> stored_votes hd' !! getHash x = Some x) /\ (forall x, stored_votes hd !! getHash x = Some x -> stored_votes hd' !! getHash x = Some x).
Proof using Hiter Hdpos Hknown Hstep Hp Hr Hv.
  induction bundles as [|b bundles IH]; intros hd Hpg Hall; cbn [receive_bundles].
  { exists hd. split_and!; [done|done|by intros x ?%elem_of_nil|done]. }
  apply Forall_cons in Hall as [[Hne Hlen] Hall']. change (mjoin (b :: bundles)) with (b ++ mjoin bundles) in *.
  destruct (bundle_effect b (mjoin bundles) hd Hpg Hne Hlen) as (h1 & -> & Hpg1 & H1 & K1). cbn [obind]. destruct (IH h1 Hpg1 Hall') as (h2 & -> & Hpg2 & H2 & K2).
  exists h2. split_and!; [done|done| |auto]. intros x [Hx|Hx]%elem_of_app; [by apply K2, H1|by apply H2].
Qed.

(** All votes are stored; with 2t+1 of them the round is next voted. *)
Lemma catch_up_effect l hd : progress l hd -> threshold vcfg total (u64 (p - 1)) next_vote <= sum_list_Z weight_of l ->
  exists hd' k', receive_bundles limits vcfg env getVoter iter_peers hd v now r0 (votes_bundles l) = Done (hd', None) /\ k <= k' /\
    is_Some (getRoundVotes (verified_votes_ (vh_vm hd')) p k') /\ determineNewRound (vh_vm hd') p r = Some (u32 (k' + 1)).
Proof using Hiter Hdpos Hknown Hstep Hp Hr Hv.
  intros Hpg Hq. destruct (votes_bundles_spec l) as [Hj Hall]. destruct (receive_bundles_effect (votes_bundles l) hd) as (hd' & -> & Hpg' & Hst & _); [by rewrite Hj|done|]. rewrite Hj in Hst. exists hd'.
  pose proof (pg_cu _ _ Hpg') as Hcu. destruct (cu_recorded _ _ _ _ _ _ _ Hcu) as [b Hb].
  { unfold has_quorum. rewrite Hstep. etrans; [exact Hq|]. apply stored_sum; [intros; by eapply inv_weights; [apply (cu_inv _ _ _ _ _ _ _ Hcu)|]|apply (pg_hashes _ _ Hpg)|done]. }
  rewrite two_t_block_round in Hb. destruct (getRoundVotes (verified_votes_ (vh_vm hd')) p k) as [rv|] eqn:Erv; [|done]. simpl in Hb.
  destruct (determineNewRound_finds (vh_vm hd') p k rv r Erv) as (k' & ? & ? & ?); [unfold next_voted, next_type in *; destruct (h =? kNullBlockHash); rewrite Hb; [right|left]; by eexists|lia|]. by exists k'.
Qed.
End catch_up.

(** ** One exchange of next votes *)

Lemma two_t_votes_done cfg total vm p k t : vm_inv cfg total vm -> exists l, getTwoTPlusOneVotedBlockVotes (verified_votes_ vm) p k t = Done l.
Proof.
  intros Hinv. destruct (getTwoTPlusOneVotedBlock (verified_votes_ vm) p k t) as [b|] eqn:E.
  - destruct (quorum_votes cfg total vm p k t b Hinv E) as (_ & l & Hl & _). by exists l.
  - exists []. unfold getTwoTPlusOneVotedBlockVotes. by rewrite E.
Qed.

Lemma two_t_plus_one_positive cfg n t : 1 <= two_t_plus_one_of cfg n t.
Proof.
  unfold two_t_plus_one_of. set (x := u64 (getPbftSortitionThreshold cfg n t * 2)). assert (0 <= x < 2 ^ 64) by (apply (wrap_range 64); lia).
  assert (0 <= x / 3 <= x) by (split; [apply Z.div_pos; lia|apply Z.div_le_upper_bound; lia]). assert (x / 3 < 2 ^ 63) by (apply Z.div_lt_upper_bound; lia).
  assert (u64 (x / 3 + 1) = x / 3 + 1) as ->; [apply wrap_id; unfold in_range, modulus; lia|lia].
Qed.


(** A vote of a later period whose round is below the node's round in its own period: [isPbftRelevantVote] drops it, although
    [validateVotePeriodRoundStep], which takes the round of a later period to start at 1, accepts it. *)
Theorem future_vote_dropped limits getVoter h v now vote peer :
  1 <= pv_period v < getPeriod vote -> getPeriod vote < 2 ^ 64 -> 1 <= getRound vote < pv_round v -> 0 <= getStep vote ->
  0 <= vote_accepting_periods limits -> pv_period v + vote_accepting_periods limits < 2 ^ 64 -> getPeriod vote - 1 <= pv_period v + vote_accepting_periods limits ->
  getRound vote < 1 + vote_accepting_rounds limits < 2 ^ 32 -> getStep vote < 1 + vote_accepting_steps limits < 2 ^ 32 ->
  isPbftRelevantVote v vote = false /\ validateVotePeriodRoundStep limits getVoter h v now vote peer true = (h, true).
Proof.
  intros Hp Hp64 Hr Hs Ha Hw Hper Hrr Hss. assert (u64 (pv_period v - 1) = pv_period v - 1) as E1 by (apply wrap_id; unfold in_range, modulus; lia). split.
  - unfold isPbftRelevantVote. rewrite E1. destruct (Z.leb_spec (pv_round v) (getRound vote)); [lia|]. rewrite andb_false_r.
    destruct (Z.eqb_spec (getPeriod vote) (pv_period v)); [lia|]. by destruct (Z.eqb_spec (getPeriod vote) (pv_period v - 1)); [lia|].
  - unfold validateVotePeriodRoundStep. rewrite E1. destruct (Z.ltb_spec (getPeriod vote) (pv_period v - 1)); [lia|]. destruct (Z.eqb_spec (getPeriod vote) (pv_period v - 1)); [lia|]. cbn [orb andb].
    assert (u64 (pv_period v + vote_accepting_periods limits) = pv_period v + vote_accepting_periods limits) as -> by (apply wrap_id; unfold in_range, modulus; lia).
    assert (u64 (getPeriod vote - 1) = getPeriod vote - 1) as -> by (apply wrap_id; unfold in_range, modulus; lia).
    destruct (Z.ltb_spec (pv_period v + vote_accepting_periods limits) (getPeriod vote - 1)); [lia|]. rewrite andb_false_r. destruct (Z.eqb_spec (pv_period v) (getPeriod vote)); [lia|]. cbn [negb orb].
    assert (u32 (1 - 1) = 0) as -> by (apply wrap_id; unfold in_range, modulus; lia). destruct (Z.ltb_spec (getRound vote) 0); [lia|]. destruct (Z.eqb_spec (getRound vote) 0); [lia|]. cbn [orb andb].
    assert (u32 (1 + vote_accepting_rounds limits) = 1 + vote_accepting_rounds limits) as -> by (apply wrap_id; unfold in_range, modulus; lia).
    destruct (Z.leb_spec (1 + vote_accepting_rounds limits) (getRound vote)); [lia|]. rewrite andb_false_r.
    assert (u32 (1 + vote_accepting_steps limits) = 1 + vote_accepting_steps limits) as -> by (apply wrap_id; unfold in_range, modulus; lia).
    destruct (Z.leb_spec (1 + vote_accepting_steps limits) (getStep vote)); [lia|]. by rewrite andb_false_r.
Qed.

(** A vote that a handler reports as processed was within the limits, unique among the stored votes and valid, and is what the vote manager stored. *)
Theorem processed_vote_valid limits vcfg env getVoter h v now vote block peer max h' :
  processVote limits vcfg env getVoter h v now vote block peer max = Done (h', inr true) ->
  voteInVerifiedMap (vh_vm h) vote = false /\ (validateVotePeriodRoundStep limits getVoter h v now vote peer max).2 = true /\ isUniqueVote (vh_vm h) vote = (true, None) /\
  (match block with Some b => pb_period b = getPeriod vote /\ pb_hash b = getBlockHash vote | None => True end) /\
  exists validated, (validateVote vcfg env vote true).2 = Some validated /\ addVerifiedVote vcfg (dposEligibleTotalVoteCount env) (pv_chain_size v) (vh_vm h) validated = Done (vh_vm h', true).
Proof.
  unfold processVote. destruct (match block with Some b => negb (validateVoteAndBlock vote b) | None => false end) eqn:Eb; [done|]. destruct (voteInVerifiedMap (vh_vm h) vote) eqn:Ev; [done|].
  assert (vh_vm (validateVotePeriodRoundStep limits getVoter h v now vote peer max).1 = vh_vm h) as Hvm by (unfold validateVotePeriodRoundStep; by repeat case_match).
  destruct (validateVotePeriodRoundStep limits getVoter h v now vote peer max) as [h1 valid]. cbn [fst snd] in *. destruct valid; [|done]. cbn [negb]. rewrite Hvm, isUniqueVote_agrees.
  destruct (insertUniqueVoter (verified_votes_ (vh_vm h)) vote).2 as [e|] eqn:Eu; [done|]. cbn zeta.
  destruct (validateVote vcfg env vote true) as [mark validated].
  destruct (if mark then _ else Done h1) as [h2| |] eqn:Em; cbn [obind]; [|done|done].
  assert (vh_vm h2 = vh_vm h) as Hvm2 by (destruct mark; [destruct (Expiration.insert _ _) as [[c ?]| |]; [|done|done]; cbn [obind] in Em; by injection Em as <-|by injection Em as <-]).
  destruct validated as [vote'|]; [|done]. rewrite Hvm2. destruct (addVerifiedVote _ _ _ _ _) as [[vm' added]| |] eqn:Ea; cbn [obind]; [|done|done]. destruct added; [|done]. cbn [negb].
  intros [= <-]. split_and!; [done|done|done| |].
  - destruct block as [b|]; [|done]. apply negb_false_iff in Eb. unfold validateVoteAndBlock in Eb. by apply andb_true_iff in Eb as [?%Z.eqb_eq ?%Z.eqb_eq].
  - exists vote'. split; [done|]. by destruct block.
Qed.

(** ** Example: the two next votes of the first round of period 5 *)

Definition next_a : PbftVote := mkPbftVote 70 (mkVrfPbftMsg 5 1 4) 0 0 31 3 (Some 2).
Definition next_b : PbftVote := mkPbftVote 70 (mkVrfPbftMsg 5 1 4) 0 0 32 4 (Some 1).
Definition ex_next_vm : VoteManager := (run_add (run_add (fresh_manager empty_db) next_a).1 next_b).1.
Definition ex_limits : VoteLimits := mkVoteLimits 5 5 10.
Definition ex_packet_env : VoteEnv := mkVoteEnv (fun _ _ => Some 1) sample_dpos (fun _ _ => Some 0) (fun _ => true) (fun _ _ _ => true) (fun v _ _ _ => weight_of v).
Definition ex_behind : VoteHandler := mkVoteHandler ex_net (fresh_manager empty_db) (Expiration.newCache 10 1) 0 0 [].

Lemma ex_next_vm_inv : vm_inv sample_cfg sample_total ex_next_vm.
Proof.
  apply reachable_inv. apply (reach_step _ _ (run_add (fresh_manager empty_db) next_a).1).
  - apply (reach_step _ _ (fresh_manager empty_db)); [apply sample_fresh_reachable|].
    apply (step_add _ _ sample_dpos 9 next_a _ _ true); [apply sample_dpos_ok|by intros w [= <-]|vm_compute; reflexivity].
  - apply (step_add _ _ sample_dpos 9 next_b _ _ true); [apply sample_dpos_ok|by intros w [= <-]|vm_compute; reflexivity].
Qed.

Lemma ex_net_caches : map (fun e => known_votes_ (peer_known e.2)) (map_to_list (store ex_net)) = replicate 6 (BlockNumber.newBlockNumberCache 10000 1000 10).
Proof. vm_compute. reflexivity. Qed.

Lemma ex_net_good : net_good ex_net.
Proof.
  split; [exact ex_net_ok|]. intros r p Hp. apply elem_of_map_to_list in Hp. apply (list_elem_of_fmap_2 (fun e => known_votes_ (peer_known e.2))) in Hp.
  change (fmap ?f ?l) with (map f l) in Hp. rewrite ex_net_caches in Hp. apply elem_of_replicate_inv in Hp. simpl in Hp. rewrite Hp. apply known_ok_new. split; apply Nat.leb_le; vm_compute; reflexivity.
Qed.

Lemma ex_good_vote (vote : PbftVote) : vote = next_a \/ vote = next_b -> good_vote sample_cfg ex_packet_env 5 1 4 70 vote.
Proof. intros [-> | ->]; (split; [by split_and!|done| |vm_compute; reflexivity]); eexists; (split; [reflexivity|split; [lia|split; [lia|reflexivity]]]). Qed.

Lemma ex_progress : progress sample_cfg ex_packet_env sample_total 5 1 4 70 5 [next_a; next_b] ex_behind.
Proof.
  split; [exact ex_net_good| | | | |vm_compute; reflexivity|apply (bool_decide_unpack _); vm_compute; exact I|apply (bool_decide_unpack _); vm_compute; exact I].
  - exists ex_ahead_peer. vm_compute. reflexivity.
  - split; [intros x Hx; by apply elem_of_empty in Hx|unfold Expiration.params_ok; simpl; lia].
  - split; [apply reachable_inv, sample_fresh_reachable|simpl; lia|done|]. unfold has_quorum. vm_compute. intros H. by destruct H.
  - intros vote Hin. split; [apply ex_good_vote; set_solver|]. right. apply elem_of_cons in Hin as [-> |Hin]; [|apply list_elem_of_singleton in Hin as ->]; vm_compute; (split; [reflexivity|split; [reflexivity|intros H; by inversion H]]).
Qed.


Definition ex_future_vote : PbftVote := mkPbftVote 70 (mkVrfPbftMsg 6 1 3) 0 0 33 3 (Some 1).

Lemma future_vote_dropped_witness : isPbftRelevantVote (mkPbftView 5 2 1 4) ex_future_vote = false /\
  validateVotePeriodRoundStep ex_limits getVoterAddr ex_behind (mkPbftView 5 2 1 4) 0 ex_future_vote ex_ahead_peer true = (ex_behind, true).
Proof. apply (future_vote_dropped ex_limits getVoterAddr ex_behind (mkPbftView 5 2 1 4) 0 ex_future_vote ex_ahead_peer); cbn; lia. Defined.
