(* ===== verification/BlockCache.v ===== *)
(** * Caches by block number

    [ValueByBlockCache] and [MapByBlockCache] (consensus/include/final_chain/cache.hpp), which the
    final chain puts in front of its database and of the state.  A getter is a function of the
    block number (and a key); the empty answers of a type are those of [is_empty]. *)

From S2P Require Import Prelude.
Local Open Scope Z_scope.

(** The entry of the smallest and of the greatest key. *)
Definition map_begin {A} (m : gmap Z A) : option (Z * A) := head (map_items m).
Definition map_rbegin {A} (m : gmap Z A) : option (Z * A) := last (map_items m).

(** [std::map::erase] of the first entry. *)
Definition erase_begin {A} (m : gmap Z A) : gmap Z A := match map_begin m with Some (k, _) => delete k m | None => m end.

(** ** One value per block *)

Record ValueByBlockCache (V : Type) := mkValueCache { kBlocksToKeep : Z; data_by_block_ : gmap Z V }.
Arguments mkValueCache {V} _ _.
Arguments kBlocksToKeep {V} _.
Arguments data_by_block_ {V} _.

Section value_cache.
Context {V : Type} (is_empty : V -> bool) (empty : V).

Definition append (c : ValueByBlockCache V) (block_num : Z) (value : V) : ValueByBlockCache V :=
  let data := match data_by_block_ c !! block_num with Some _ => data_by_block_ c | None => <[block_num := value]> (data_by_block_ c) end in
  mkValueCache (kBlocksToKeep c) (if kBlocksToKeep c <? Z.of_nat (size data) then erase_begin data else data).

Definition getFromCache (c : ValueByBlockCache V) (block_num : Z) : option V := data_by_block_ c !! block_num.

Definition lastBlockNum (c : ValueByBlockCache V) : Z := match map_rbegin (data_by_block_ c) with Some (k, _) => k | None => 0 end.
Definition cache_last (c : ValueByBlockCache V) : V := match map_rbegin (data_by_block_ c) with Some (_, v) => v | None => empty end.

Definition cache_get (getter_fn : Z -> V) (c : ValueByBlockCache V) (block_num : Z) : ValueByBlockCache V * V :=
  match getFromCache c block_num with
  | Some v => (c, v)
  | None =>
      let value := getter_fn block_num in
      if is_empty value then (c, empty)
      else
        let last_num := lastBlockNum c in
        if (last_num <? kBlocksToKeep c) || (u64 (last_num - kBlocksToKeep c) <=? block_num) then (append c block_num value, value) else (c, value)
  end.
End value_cache.

(** ** Values per block and key *)

Record MapByBlockCache (K V : Type) `{Countable K} := mkMapCache { mc_kBlocksToKeep : Z; mc_data_by_block_ : gmap Z (gmap K V) }.
Arguments mkMapCache {K V _ _} _ _.
Arguments mc_kBlocksToKeep {K V _ _} _.
Arguments mc_data_by_block_ {K V _ _} _.

Section map_cache.
Context {K V : Type} `{Countable K} (is_empty : V -> bool) (empty : V).

Definition mc_append (c : MapByBlockCache K V) (block_num : Z) (key : K) (value : V) : MapByBlockCache K V :=
  let entry := default ∅ (mc_data_by_block_ c !! block_num) in
  let entry := match entry !! key with Some _ => entry | None => <[key := value]> entry end in
  let data := <[block_num := entry]> (mc_data_by_block_ c) in
  mkMapCache (mc_kBlocksToKeep c) (if mc_kBlocksToKeep c <? Z.of_nat (size data) then erase_begin data else data).

Definition mc_lastBlockNum (c : MapByBlockCache K V) : Z := match map_rbegin (mc_data_by_block_ c) with Some (k, _) => k | None => 0 end.

Definition mc_get (getter_fn : Z -> K -> V) (c : MapByBlockCache K V) (blk_num : Z) (key : K) : MapByBlockCache K V * V :=
  match mc_data_by_block_ c !! blk_num ≫= (.!! key) with
  | Some v => (c, v)
  | None =>
      let value := getter_fn blk_num key in
      if is_empty value then (c, empty)
      else
        let last_num := mc_lastBlockNum c in
        if (last_num <? mc_kBlocksToKeep c) || (u64 (last_num - mc_kBlocksToKeep c) <=? blk_num) then (mc_append c blk_num key value, value) else (c, value)
  end.
End map_cache.

(** ** First and last entries *)

Section ends.
Context {A : Type} (m : gmap Z A).

Lemma map_begin_lookup k x : map_begin m = Some (k, x) -> m !! k = Some x /\ forall k' x', m !! k' = Some x' -> k <= k'.
Proof.
  unfold map_begin. intros Hh. pose proof (map_items_sorted m) as Hs. destruct (map_items m) as [|[k0 x0] l] eqn:E; [done|]. injection Hh as -> ->.
  split; [apply elem_of_map_items; rewrite E; by left|]. intros k' x' Hk'. apply elem_of_map_items in Hk'. rewrite E in Hk'. apply elem_of_cons in Hk' as [[= -> ->]|Hk']; [done|].
  apply StronglySorted_inv in Hs as [_ Hs]. by apply (proj1 (Forall_forall _ _) Hs (k', x')).
Qed.

Lemma map_begin_some k x : m !! k = Some x -> exists e, map_begin m = Some e.
Proof. intros Hk. apply elem_of_map_items in Hk. unfold map_begin. destruct (map_items m) as [|e l]; [by apply elem_of_nil in Hk|by exists e]. Qed.

Lemma map_rbegin_lookup k x : map_rbegin m = Some (k, x) -> m !! k = Some x /\ forall k' x', m !! k' = Some x' -> k' <= k.
Proof.
  unfold map_rbegin. intros Hl. pose proof (map_items_sorted m) as Hs. apply last_Some in Hl as [l E]. rewrite E in Hs.
  split; [apply elem_of_map_items; rewrite E, elem_of_app, list_elem_of_singleton; by right|].
  intros k' x' Hk'. apply elem_of_map_items in Hk'. rewrite E in Hk'. apply elem_of_app in Hk' as [Hk'|Hk'%list_elem_of_singleton]; [|by injection Hk' as -> _].
  by apply (StronglySorted_app_1_elem_of key_le l [(k, x)] (k', x') (k, x)); [|done|apply list_elem_of_singleton].
Qed.

Lemma map_rbegin_some k x : m !! k = Some x -> exists e, map_rbegin m = Some e.
Proof.
  intros Hk. apply elem_of_map_items in Hk. unfold map_rbegin.
  destruct (last (map_items m)) as [e|] eqn:E; [by exists e|]. apply last_None in E. rewrite E in Hk. by apply elem_of_nil in Hk.
Qed.

(** The greatest key determines the last entry. *)
Lemma map_rbegin_max k x : m !! k = Some x -> (forall k' x', m !! k' = Some x' -> k' <= k) -> map_rbegin m = Some (k, x).
Proof.
  intros Hk Hmax. destruct (map_rbegin_some k x Hk) as [[k' x'] E]. rewrite E. destruct (map_rbegin_lookup k' x' E) as [Hk' Hmax'].
  assert (k' = k) as -> by (pose proof (Hmax _ _ Hk'); pose proof (Hmax' _ _ Hk); lia). by rewrite Hk in Hk'; injection Hk' as ->.
Qed.
End ends.

Lemma erase_begin_lookup {A} (m : gmap Z A) k : (exists k' x', m !! k' = Some x' /\ k' < k) -> erase_begin m !! k = m !! k.
Proof.
  intros (k' & x' & Hk' & Hlt). unfold erase_begin. destruct (map_begin m) as [[k0 x0]|] eqn:E; [|done]. destruct (map_begin_lookup m _ _ E) as [_ Hmin].
  rewrite lookup_delete_ne; [done|]. pose proof (Hmin _ _ Hk'). lia.
Qed.

Lemma erase_begin_sub {A} (m : gmap Z A) k x : erase_begin m !! k = Some x -> m !! k = Some x.
Proof. unfold erase_begin. destruct (map_begin m) as [[k0 x0]|]; [|done]. by intros [_ ?]%lookup_delete_Some. Qed.

Lemma erase_begin_size {A} (m : gmap Z A) : m <> ∅ -> S (size (erase_begin m)) = size m.
Proof.
  intros Hne. apply map_choose in Hne as (k & x & Hk). destruct (map_begin_some m k x Hk) as [[k0 x0] E]. unfold erase_begin. rewrite E.
  destruct (map_begin_lookup m _ _ E) as [Hk0 _]. rewrite <- (insert_delete_id m k0 x0 Hk0) at 2. by rewrite map_size_insert_None by apply lookup_delete_eq.
Qed.

(** ** The caches are transparent *)

Section value_ok.
Context {V : Type} (is_empty : V -> bool) (empty : V) (Hempty : forall v, is_empty v = true -> v = empty).

Record cache_ok (getter : Z -> V) (c : ValueByBlockCache V) : Prop := {
  co_keep : 0 <= kBlocksToKeep c;
  co_size : Z.of_nat (size (data_by_block_ c)) <= kBlocksToKeep c;
  co_data : forall k v, data_by_block_ c !! k = Some v -> getter k = v /\ is_empty v = false;
}.

Lemma append_ok getter c n : cache_ok getter c -> is_empty (getter n) = false -> cache_ok getter (append c n (getter n)).
Proof using.
  intros [Hk Hs Hd] Hn. unfold append. set (data := match data_by_block_ c !! n with Some _ => _ | None => _ end).
  assert (forall k v, data !! k = Some v -> getter k = v /\ is_empty v = false) as Hdata.
  { unfold data. intros k v. destruct (data_by_block_ c !! n) eqn:E; [apply Hd|]. intros [[<- <-]|[_ ?]]%lookup_insert_Some; [done|by apply Hd]. }
  split; simpl; [done| |].
  - destruct (Z.ltb_spec (kBlocksToKeep c) (Z.of_nat (size data))); [|lia]. assert (data <> ∅) as Hne by (intros E; rewrite E, map_size_empty in *; lia).
    pose proof (erase_begin_size data Hne). assert (size data <= S (size (data_by_block_ c)))%nat; [|lia].
    unfold data. destruct (data_by_block_ c !! n) eqn:E; [lia|]. rewrite map_size_insert_None by done. lia.
  - intros k v Hv. apply Hdata. destruct (_ <? _); [by apply erase_begin_sub|done].
Qed.

Lemma get_ok getter c n : cache_ok getter c -> (cache_get is_empty empty getter c n).2 = getter n /\ cache_ok getter (cache_get is_empty empty getter c n).1.
Proof using Hempty.
  intros Hc. unfold cache_get, getFromCache. destruct (data_by_block_ c !! n) as [v|] eqn:E; [by destruct (co_data _ _ Hc n v E) as [-> _]|].
  cbn zeta. destruct (is_empty (getter n)) eqn:Ee; [by rewrite (Hempty _ Ee)|]. destruct (_ || _); simpl; (split; [done|]); [by apply append_ok|done].
Qed.

(** Answers that are not empty do not change. *)
Definition stable (g g' : Z -> V) : Prop := forall n, is_empty (g n) = false -> g' n = g n.

Lemma cache_ok_stable g g' c : cache_ok g c -> stable g g' -> cache_ok g' c.
Proof using. intros [? ? Hd] Hs. split; [done|done|]. intros k v Hv. destruct (Hd k v Hv) as [<- He]. split; [by apply Hs|done]. Qed.

Fixpoint run_gets (c : ValueByBlockCache V) (l : list ((Z -> V) * Z)) : list V :=
  match l with [] => [] | (getter, n) :: l => let '(c, v) := cache_get is_empty empty getter c n in v :: run_gets c l end.

Lemma run_gets_ok l : forall g c, cache_ok g c -> Forall (fun e => stable g e.1) l -> ForallOrdPairs (fun a b => stable a.1 b.1) l ->
  run_gets c l = map (fun e => e.1 e.2) l.
Proof using Hempty.
  induction l as [|[g' n] l IH]; intros g c Hc Hg Hl; cbn [run_gets map]; [done|]. apply Forall_cons in Hg as [Hg' _]. inversion Hl; subst.
  destruct (get_ok g' c n (cache_ok_stable g g' c Hc Hg')) as [Hv Hc']. destruct (cache_get is_empty empty g' c n) as [c' v]. cbn [fst snd] in *. subst v. f_equal. by apply (IH g').
Qed.

(** What is appended with a number above all others is the last value. *)
Lemma append_last c n v : 1 <= kBlocksToKeep c -> (forall k x, data_by_block_ c !! k = Some x -> k < n) -> cache_last empty (append c n v) = v /\ data_by_block_ (append c n v) !! n = Some v.
Proof using.
  intros Hk Hmax. assert (data_by_block_ c !! n = None) as Hn by (apply eq_None_not_Some; intros [x Hx]; pose proof (Hmax _ _ Hx); lia).
  unfold cache_last, append. rewrite Hn. cbn [data_by_block_]. set (data := <[n := v]> (data_by_block_ c)).
  assert (data !! n = Some v) as Hd by apply lookup_insert_eq. assert (forall k x, data !! k = Some x -> k <= n) as Hle.
  { intros k x [[<- _]|[_ Hx]]%lookup_insert_Some; [lia|]. pose proof (Hmax _ _ Hx). lia. }
  destruct (Z.ltb_spec (kBlocksToKeep c) (Z.of_nat (size data))) as [Hsz|]; [|split; [by rewrite (map_rbegin_max data n v)|done]].
  assert (exists k x, data !! k = Some x /\ k < n) as Hold.
  { assert (data_by_block_ c <> ∅) as Hne. { intros E. unfold data in Hsz. rewrite E, map_size_insert_None, map_size_empty in Hsz by done. lia. }
    apply map_choose in Hne as (k & x & Hx). exists k, x. pose proof (Hmax _ _ Hx). split; [|done]. unfold data. rewrite lookup_insert_ne by lia. done. }
  assert (erase_begin data !! n = Some v) as He by (by rewrite erase_begin_lookup).
  split; [|done]. rewrite (map_rbegin_max (erase_begin data) n v); [done|done|]. intros k x Hx. by eapply Hle, erase_begin_sub.
Qed.
End value_ok.

Section map_ok.
Context {K V : Type} `{Countable K} (is_empty : V -> bool) (empty : V) (Hempty : forall v, is_empty v = true -> v = empty).

Record map_cache_ok (getter : Z -> K -> V) (c : MapByBlockCache K V) : Prop := {
  mo_keep : 0 <= mc_kBlocksToKeep c;
  mo_size : Z.of_nat (size (mc_data_by_block_ c)) <= mc_kBlocksToKeep c;
  mo_data : forall n m k v, mc_data_by_block_ c !! n = Some m -> m !! k = Some v -> getter n k = v;
}.

Lemma mc_append_ok getter c n k : map_cache_ok getter c -> map_cache_ok getter (mc_append c n k (getter n k)).
Proof using.
  intros [Hk Hs Hd]. unfold mc_append. set (entry := match default ∅ _ !! k with Some _ => _ | None => _ end). set (data := <[n := entry]> (mc_data_by_block_ c)).
  assert (forall n' m k' v, data !! n' = Some m -> m !! k' = Some v -> getter n' k' = v) as Hdata.
  { intros n' m k' v [[<- <-]|[_ Hm]]%lookup_insert_Some Hv; [|by eapply Hd]. assert (forall x, default ∅ (mc_data_by_block_ c !! n) !! k' = Some x -> getter n k' = x) as Hold.
    { intros x Hx. destruct (mc_data_by_block_ c !! n) as [m|] eqn:E; [by eapply Hd|]. simpl in Hx. by rewrite lookup_empty in Hx. }
    unfold entry in Hv. destruct (default ∅ (mc_data_by_block_ c !! n) !! k); [by apply Hold|]. apply lookup_insert_Some in Hv as [[<- <-]|[_ Hv]]; [done|by apply Hold]. }
  split; simpl; [done| |].
  - destruct (Z.ltb_spec (mc_kBlocksToKeep c) (Z.of_nat (size data))); [|lia]. assert (data <> ∅) as Hne by (apply insert_non_empty).
    pose proof (erase_begin_size data Hne). assert (size data <= S (size (mc_data_by_block_ c)))%nat; [|lia].
    unfold data. rewrite map_size_insert. destruct (mc_data_by_block_ c !! n); simpl; lia.
  - intros n' m k' v Hm. apply Hdata. destruct (_ <? _); [by apply erase_begin_sub|done].
Qed.

Lemma mc_get_ok getter c n k : map_cache_ok getter c -> (mc_get is_empty empty getter c n k).2 = getter n k /\ map_cache_ok getter (mc_get is_empty empty getter c n k).1.
Proof using Hempty.
  intros Hc. unfold mc_get. destruct (mc_data_by_block_ c !! n ≫= (.!! k)) as [v|] eqn:E.
  { apply bind_Some in E as (m & Hm & Hv). split; [symmetry; by eapply (mo_data _ _ Hc)|done]. }
  cbn zeta. destruct (is_empty (getter n k)) eqn:Ee; [by rewrite (Hempty _ Ee)|]. destruct (_ || _); simpl; (split; [done|]); [by apply mc_append_ok|done].
Qed.
End map_ok.

(** The caches of the final chain are transparent: whatever the limit is and whichever blocks are asked for, each answer is the
    one of the getter, as long as answers of the getter that are not empty do not change. *)
Theorem cache_transparent {V} (is_empty : V -> bool) (empty : V) keep (l : list ((Z -> V) * Z)) :
  (forall v, is_empty v = true -> v = empty) -> 0 <= keep -> ForallOrdPairs (fun a b => stable is_empty a.1 b.1) l ->
  run_gets is_empty empty (mkValueCache keep ∅) l = map (fun e => e.1 e.2) l.
Proof.
  intros He Hk Hl. destruct l as [|[g n] l]; [done|]. apply (run_gets_ok is_empty empty He ((g, n) :: l) g); [| |done].
  - split; simpl; [done|by rewrite map_size_empty|intros k v Hv; by rewrite lookup_empty in Hv].
  - constructor; [by intros m _|]. by inversion Hl.
Qed.

Definition ex_getter (last n : Z) : option Z := if (0 <=? n) && (n <=? last) then Some (n * n) else None.

Lemma cache_transparent_witness :
  run_gets (fun v => negb (bool_decide (is_Some v))) None (mkValueCache 2 ∅) [(ex_getter 3, 3); (ex_getter 3, 4); (ex_getter 4, 4); (ex_getter 5, 5); (ex_getter 5, 1); (ex_getter 5, 4)] =
    [Some 9; None; Some 16; Some 25; Some 1; Some 16].
Proof.
  apply (cache_transparent (fun v => negb (bool_decide (is_Some v))) None 2 [(ex_getter 3, 3); (ex_getter 3, 4); (ex_getter 4, 4); (ex_getter 5, 5); (ex_getter 5, 1); (ex_getter 5, 4)]); [|lia|].
  - intros [v|]; done.
  - assert (forall a b, a <= b -> stable (fun v => negb (bool_decide (is_Some v))) (ex_getter a) (ex_getter b)) as Hs.
    { intros a b Hab n. unfold ex_getter. destruct (Z.leb_spec 0 n), (Z.leb_spec n a); simpl; try done. destruct (Z.leb_spec n b); [done|lia]. }
    repeat (constructor; [repeat (constructor; [apply Hs; simpl; lia|]); constructor|]). constructor.
Defined.
