(* ===== verification/FinalChain.v ===== *)
(** * The final chain

    [FinalChain] (consensus/src/final_chain/final_chain.cpp, data.cpp): the finalization of a period with
    its two commits, the start of a node with the recovery from a crash between them, headers and their
    cache, system transactions, pruning.  The EVM, a Go library behind a C interface, is a record of
    functions over states; hash functions, the root of a trie and the encodings that are hashed are
    parameters. *)

From S2P Require Import Prelude Votes Rewards LogBloom PillarChain BlockCache.
Local Open Scope Z_scope.
Local Open Scope outcome_scope.

(** ** Data *)

Record BlockHeaderData := mkBlockHeaderData {
  parent_hash : Z;
  state_root : Z;
  transactions_root : Z;
  receipts_root : Z;
  hd_log_bloom : LogBloom;
  gas_used : Z;
  total_reward : Z;
}.

Record BlockHeader := mkBlockHeader {
  bh_data : BlockHeaderData;
  bh_hash : Z;
  author : addr_t;
  gas_limit : Z;
  timestamp : Z;
  number : Z;
  extra_data : list Z;
}.

(** What the final chain reads of a PBFT block, a transaction and a period. *)
Record ChainPbftBlock := mkChainPbftBlock { cp_hash : Z; cp_period : Z; cp_beneficiary : addr_t; cp_timestamp : Z; cp_extra_data : list Z }.
Record ChainTrx := mkChainTrx {
  ct_hash : Z;
  ct_sender : addr_t;
  ct_gas_price : Z;
  ct_receiver : option addr_t;
  ct_nonce : Z;
  ct_value : Z;
  ct_gas : Z;
  ct_data : list Z;
}.
Record ChainPeriod := mkChainPeriod {
  cd_block : ChainPbftBlock;
  cd_transactions : list ChainTrx;
  cd_dag_blocks : list (Z * RewardDagBlock);
  cd_cert_votes : list PbftVote;
}.

Record EVMTransaction := mkEVMTransaction {
  evm_from : addr_t;
  evm_gas_price : Z;
  evm_to : option addr_t;
  evm_nonce : Z;
  evm_value : Z;
  evm_gas : Z;
  evm_input : list Z;
}.
Record EVMBlock := mkEVMBlock { evm_author : addr_t; evm_gas_limit : Z; evm_time : Z; evm_difficulty : Z }.
Record ExecutionResult := mkExecutionResult {
  code_retval : list Z;
  new_contract_addr : Z;
  er_logs : list LogEntry;
  er_gas_used : Z;
  code_err : list Z;
  consensus_err : list Z;
}.
Record StateAccount := mkStateAccount { sa_nonce : Z; sa_code_size : Z }.

(** The state API: functions of a state. *)
Record StateApi (St : Type) := mkStateApi {
  execute_transactions : St -> EVMBlock -> list EVMTransaction -> St * list ExecutionResult;
  distribute_rewards : St -> list BlockStats -> St * (Z * Z);
  state_root_of : St -> Z;
  get_account : St -> addr_t -> option StateAccount;
  dry_run_transaction : St -> EVMBlock -> EVMTransaction -> ExecutionResult;
}.
Arguments execute_transactions {St} _.
Arguments distribute_rewards {St} _.
Arguments state_root_of {St} _.
Arguments get_account {St} _.
Arguments dry_run_transaction {St} _.

(** The database of states: the last committed block and the states of the blocks. *)
Record StateDb (St : Type) := mkStateDb { blk_num : Z; committed : gmap Z St }.
Arguments mkStateDb {St} _ _.
Arguments blk_num {St} _.
Arguments committed {St} _.

(** Columns of the database. *)
Record FinalDb := mkFinalDb {
  final_chain_blk_by_number : gmap Z BlockHeaderData;
  final_chain_blk_hash_by_number : gmap Z Z;
  final_chain_blk_number_by_hash : gmap Z Z;
  final_chain_receipt_by_period : gmap Z (list TransactionReceipt);
  final_chain_log_blooms_index : LogBloomsIndex;
  last_number : option Z;
  executed_blk_count : Z;
  executed_trx_count : Z;
  proposal_period_levels_map : gmap Z Z;
  period_system_transactions : gmap Z (list Z);
  system_transaction : gmap Z ChainTrx;
  trx_period : gmap Z (Z * Z * bool);
  period_data_column : gmap Z ChainPeriod;
}.

Record FinalChain (St : Type) := mkFinalChain {
  fc_db : FinalDb;
  fc_state : StateDb St;
  rewards_ : Stats;
  num_executed_dag_blk_ : Z;
  num_executed_trx_ : Z;
  block_headers_cache_ : ValueByBlockCache (option BlockHeader);
  last_block_number_ : Z;
}.
Arguments mkFinalChain {St} _ _ _ _ _ _ _.
Arguments fc_db {St} _.
Arguments fc_state {St} _.
Arguments rewards_ {St} _.
Arguments num_executed_dag_blk_ {St} _.
Arguments num_executed_trx_ {St} _.
Arguments block_headers_cache_ {St} _.
Arguments last_block_number_ {St} _.

Record ChainConfig := mkChainConfig {
  kBlockGasLimit : Z;
  kMaxLevelsPerPeriod : Z;
  fc_delegation_delay : Z;
  ficus_hf : FicusHardforkConfig;
  bridge_contract_address : addr_t;
  kTaraxaSystemAccount : addr_t;
  cornus_block_num : Z;
  genesis_timestamp : Z;
  final_chain_cache_in_blocks : Z;
  rewards_cfg : RewardsConfig;
}.

(** The items of the encoding whose hash is the hash of a block. *)
Inductive rlp_item := Word (z : Z) | Bytes (b : list Z).

Definition with_cache {St} (fc : FinalChain St) (c : ValueByBlockCache (option BlockHeader)) : FinalChain St :=
  mkFinalChain (fc_db fc) (fc_state fc) (rewards_ fc) (num_executed_dag_blk_ fc) (num_executed_trx_ fc) c (last_block_number_ fc).

Definition none {A} (o : option A) : bool := match o with Some _ => false | None => true end.

Section final_chain.
Context {St : Type} (api : StateApi St) (cfg : ChainConfig).
(** Hash functions and the encodings they are applied to. *)
Context (sha3 : list rlp_item -> Z) (bloom_sha3 : Z -> list Z) (hash256 : gmap Z (list Z) -> Z).
Context (trx_rlp : ChainTrx -> list Z) (receipt_rlp : TransactionReceipt -> list Z) (system_trx_hash : EVMTransaction -> Z).
Context (finalize_method should_finalize_method : list Z).
Context (iter : gmap Z BlockStats -> list (Z * BlockStats)).
(** The total vote count of a block, an answer of the state. *)
Context (dpos : Z -> Z).

(** ** Headers *)

Definition unclesHash : Z := sha3 [].
Definition difficulty : Z := 0.
Definition mixHash : Z := 0.
Definition nonce : Z := 0.

Definition ethereumRlp (h : BlockHeader) : list rlp_item :=
  let d := bh_data h in
  [Word (parent_hash d); Word unclesHash; Word (author h); Word (state_root d); Word (transactions_root d); Word (receipts_root d); Word (hd_log_bloom d);
   Word difficulty; Word (number h); Word (gas_limit h); Word (gas_used d); Word (timestamp h); Bytes (extra_data h); Word mixHash; Word nonce].

Definition with_hash (h : BlockHeader) : BlockHeader :=
  mkBlockHeader (bh_data h) (sha3 (ethereumRlp h)) (author h) (gas_limit h) (timestamp h) (number h) (extra_data h).

Definition no_header_data : BlockHeaderData := mkBlockHeaderData 0 0 0 0 0 0 0.

(** A header of the database with the fields of its PBFT block. *)
Definition header_from_pbft (d : BlockHeaderData) (pbft : ChainPbftBlock) (limit : Z) : BlockHeader :=
  with_hash (mkBlockHeader d 0 (cp_beneficiary pbft) limit (cp_timestamp pbft) (cp_period pbft) (cp_extra_data pbft)).

Definition makeGenesisHeader_raw (d : BlockHeaderData) : BlockHeader := with_hash (mkBlockHeader d 0 0 (kBlockGasLimit cfg) (genesis_timestamp cfg) 0 []).
Definition makeGenesisHeader (root : Z) : BlockHeader := makeGenesisHeader_raw (mkBlockHeaderData 0 root 0 0 0 0 0).

Definition getBlockHeader (db : FinalDb) (n : Z) : option BlockHeader :=
  match final_chain_blk_by_number db !! n with
  | None => None
  | Some raw =>
      if n =? 0 then Some (makeGenesisHeader_raw raw)
      else match period_data_column db !! n with None => None | Some p => Some (header_from_pbft raw (cd_block p) (kBlockGasLimit cfg)) end
  end.

Definition lastIfAbsent (fc : FinalChain St) (n : option Z) : Z := match n with Some n => n | None => last_block_number_ fc end.

Definition blockHeader (fc : FinalChain St) (n : option Z) : FinalChain St * option BlockHeader :=
  match n with
  | None => (fc, cache_last None (block_headers_cache_ fc))
  | Some n => let '(c, h) := cache_get none None (getBlockHeader (fc_db fc)) (block_headers_cache_ fc) n in (with_cache fc c, h)
  end.

Definition finalChainHash (fc : FinalChain St) (n : Z) : FinalChain St * option Z :=
  let delay := fc_delegation_delay cfg in
  if n <=? delay then (fc, Some 0)
  else
    let '(fc, header) := blockHeader fc (Some (n - delay)) in
    match header with
    | None => (fc, None)
    | Some h => (fc, Some (if cornus_block_num cfg <=? n then bh_hash h else state_root (bh_data h)))
    end.

(** ** Blocks *)

(** The loop over the transactions: the two tries, the receipts that are written and the filter of the logs. *)
Fixpoint trie_loop (i : Z) (transactions : list ChainTrx) (receipts : list TransactionReceipt) (trxs_trie receipts_trie : gmap Z (list Z))
    (bloom : LogBloom) : outcome (gmap Z (list Z) * gmap Z (list Z) * LogBloom) :=
  match transactions, receipts with
  | [], [] => Done (trxs_trie, receipts_trie, bloom)
  | trx :: transactions, receipt :: receipts =>
      trie_loop (i + 1) transactions receipts (<[i := trx_rlp trx]> trxs_trie) (<[i := receipt_rlp receipt]> receipts_trie) (Z.lor bloom (receipt_bloom bloom_sha3 receipt))
  | _ :: _, [] => Undefined   (* receipts[trx_idx] *)
  | [], _ :: _ => Undefined   (* the list of receipts stays open *)
  end.

Definition appendBlock_header (db : FinalDb) (header : BlockHeader) (transactions : list ChainTrx) (receipts : list TransactionReceipt) :
    outcome (FinalDb * BlockHeader) :=
  let d := bh_data header in
  let* (trxs_trie, receipts_trie, bloom) := trie_loop 0 transactions receipts ∅ ∅ (hd_log_bloom d) in
  let d := mkBlockHeaderData (parent_hash d) (state_root d) (hash256 trxs_trie) (hash256 receipts_trie) bloom (gas_used d) (total_reward d) in
  let h := with_hash (mkBlockHeader d (bh_hash header) (author header) (gas_limit header) (timestamp header) (number header) (extra_data header)) in
  Done (mkFinalDb (<[number h := d]> (final_chain_blk_by_number db)) (<[number h := bh_hash h]> (final_chain_blk_hash_by_number db))
    (<[bh_hash h := number h]> (final_chain_blk_number_by_hash db)) (<[number h := receipts]> (final_chain_receipt_by_period db))
    (index_block (final_chain_log_blooms_index db) (number h) (shiftBloom bloom_sha3 bloom (author h))) (Some (number h))
    (executed_blk_count db) (executed_trx_count db) (proposal_period_levels_map db) (period_system_transactions db) (system_transaction db)
    (trx_period db) (period_data_column db), h).

Definition appendBlock (fc : FinalChain St) (db : FinalDb) (pbft_blk : ChainPbftBlock) (root reward : Z) (transactions : list ChainTrx)
    (receipts : list TransactionReceipt) : outcome (FinalDb * BlockHeader) :=
  let '(num, parent) := match (blockHeader fc None).2 with
    | Some last_block => (u64 (number last_block + 1), bh_hash last_block)
    | None => (cp_period pbft_blk, 0) end in
  let used := match last receipts with Some r => tr_cumulative_gas_used r | None => 0 end in
  appendBlock_header db (mkBlockHeader (mkBlockHeaderData parent root 0 0 0 used reward) 0 (cp_beneficiary pbft_blk) (kBlockGasLimit cfg)
    (cp_timestamp pbft_blk) num (cp_extra_data pbft_blk)) transactions receipts.

(** ** System transactions *)

(** An account of the last block; an unknown state is an exception that nothing catches. *)
Definition getAccount (fc : FinalChain St) (addr : addr_t) : outcome (option StateAccount) :=
  match committed (fc_state fc) !! last_block_number_ fc with None => AssertFailed | Some s => Done (get_account api s addr) end.

Definition call (fc : FinalChain St) (trx : EVMTransaction) (blk_n : Z) : outcome (FinalChain St * ExecutionResult) :=
  let '(fc, header) := blockHeader fc (Some blk_n) in
  match header with
  | None => AssertFailed
  | Some h =>
      match committed (fc_state fc) !! number h with
      | None => AssertFailed
      | Some s => Done (fc, dry_run_transaction api s (mkEVMBlock (author h) (gas_limit h) (timestamp h) difficulty) trx)
      end
  end.

Definition isNeedToFinalize (fc : FinalChain St) (blk_n : Z) : outcome (FinalChain St * bool) :=
  let* (fc, r) := call fc (mkEVMTransaction 0 1 (Some (bridge_contract_address cfg)) 0 0 10000000 should_finalize_method) blk_n in
  Done (fc, existsb (fun b => negb (b =? 0)) (code_retval r)).

Definition makeBridgeFinalizationTransaction (fc : FinalChain St) : outcome ChainTrx :=
  let* account := getAccount fc (kTaraxaSystemAccount cfg) in
  let account := default (mkStateAccount 0 0) account in
  let hash := system_trx_hash (mkEVMTransaction (kTaraxaSystemAccount cfg) 0 (Some (bridge_contract_address cfg)) (sa_nonce account) 0 (kBlockGasLimit cfg) finalize_method) in
  Done (mkChainTrx hash (kTaraxaSystemAccount cfg) 0 (Some (bridge_contract_address cfg)) (sa_nonce account) 0 (kBlockGasLimit cfg) finalize_method).

Definition makeSystemTransactions (fc : FinalChain St) (blk_n : Z) : outcome (FinalChain St * list ChainTrx) :=
  if isPillarBlockPeriod (ficus_hf cfg) (u64 (blk_n + fc_delegation_delay cfg)) false then
    let* bridge_contract := getAccount fc (bridge_contract_address cfg) in
    match bridge_contract with
    | None => Done (fc, [])
    | Some acc =>
        if sa_code_size acc =? 0 then Done (fc, [])
        else
          let* (fc, need) := isNeedToFinalize fc (u64 (blk_n - 1)) in
          if need : bool then let* trx := makeBridgeFinalizationTransaction fc in Done (fc, [trx]) else Done (fc, [])
    end
  else Done (fc, []).

Definition toEvmTransaction (trx : ChainTrx) : EVMTransaction :=
  mkEVMTransaction (ct_sender trx) (ct_gas_price trx) (ct_receiver trx) (ct_nonce trx) (ct_value trx) (ct_gas trx) (ct_data trx).

(** ** Finalization *)

Fixpoint make_receipts (cumulative : Z) (results : list ExecutionResult) : list TransactionReceipt :=
  match results with
  | [] => []
  | r :: rest =>
      let cumulative := u64 (cumulative + er_gas_used r) in
      mkTransactionReceipt (if bool_decide (code_err r = []) && bool_decide (consensus_err r = []) then 1 else 0) (er_gas_used r) cumulative (er_logs r)
        (if new_contract_addr r =? 0 then None else Some (new_contract_addr r)) :: make_receipts cumulative rest
  end.

Definition reward_period (p : ChainPeriod) : RewardPeriod :=
  mkRewardPeriod (cp_period (cd_block p)) (cp_beneficiary (cd_block p)) (map (fun t => (ct_hash t, ct_gas_price t)) (cd_transactions p)) (cd_dag_blocks p).*2 (cd_cert_votes p).

(** System transactions and their locations behind the other transactions of the period. *)
Fixpoint system_locations (position period : Z) (trxs : list ChainTrx) (locations : gmap Z (Z * Z * bool)) : gmap Z (Z * Z * bool) :=
  match trxs with
  | [] => locations
  | t :: trxs => system_locations (position + 1) period trxs (<[ct_hash t := (period, position, true)]> locations)
  end.

Definition with_counts (db : FinalDb) (blocks trxs : Z) : FinalDb :=
  mkFinalDb (final_chain_blk_by_number db) (final_chain_blk_hash_by_number db) (final_chain_blk_number_by_hash db) (final_chain_receipt_by_period db)
    (final_chain_log_blooms_index db) (last_number db) blocks trxs (proposal_period_levels_map db) (period_system_transactions db) (system_transaction db)
    (trx_period db) (period_data_column db).
Definition with_level (db : FinalDb) (level period : Z) : FinalDb :=
  mkFinalDb (final_chain_blk_by_number db) (final_chain_blk_hash_by_number db) (final_chain_blk_number_by_hash db) (final_chain_receipt_by_period db)
    (final_chain_log_blooms_index db) (last_number db) (executed_blk_count db) (executed_trx_count db) (<[level := period]> (proposal_period_levels_map db))
    (period_system_transactions db) (system_transaction db) (trx_period db) (period_data_column db).
Definition with_system_transactions (db : FinalDb) (period position : Z) (trxs : list ChainTrx) : FinalDb :=
  mkFinalDb (final_chain_blk_by_number db) (final_chain_blk_hash_by_number db) (final_chain_blk_number_by_hash db) (final_chain_receipt_by_period db)
    (final_chain_log_blooms_index db) (last_number db) (executed_blk_count db) (executed_trx_count db) (proposal_period_levels_map db)
    (<[period := ct_hash <$> trxs]> (period_system_transactions db)) (foldl (fun m t => <[ct_hash t := t]> m) (system_transaction db) trxs)
    (system_locations position period trxs (trx_period db)) (period_data_column db).

(** The rows of the batch besides the block: counts, proposal period of a level, system transactions. *)
Definition rest_of_batch (db : FinalDb) (finalized_dag_blk_hashes : list Z) (blocks trxs : Z) (anchor : option Z) (period position : Z) (system_transactions : list ChainTrx) : FinalDb :=
  let db := if bool_decide (finalized_dag_blk_hashes = []) then db else with_counts db blocks trxs in
  let db := match anchor with Some level => with_level db (u64 (level + kMaxLevelsPerPeriod cfg)) period | None => db end in
  match system_transactions with [] => db | _ => with_system_transactions db period position system_transactions end.

(** What is computed before the first commit: the database after the batch, the statistics of rewards, the state and the counts. *)
Record Prepared := mkPrepared {
  pr_db : FinalDb;
  pr_rewards : Stats;
  pr_state : St;
  pr_header : BlockHeader;
  pr_dag_blk : Z;
  pr_trx : Z;
}.

(** [finalize_] up to the commits; the header of the last block must be cached. [anchor]: the level of the anchor block. *)
Definition prepare (fc : FinalChain St) (new_blk : ChainPeriod) (finalized_dag_blk_hashes : list Z) (blocks_per_year : Z) (anchor : option Z) :
    outcome (FinalChain St * Prepared) :=
  match (blockHeader fc None).2 with
  | None => Undefined
  | Some _ =>
      let pbft := cd_block new_blk in
      let* (fc, system_transactions) := makeSystemTransactions fc (cp_period pbft) in
      let all_transactions := cd_transactions new_blk ++ system_transactions in
      match committed (fc_state fc) !! blk_num (fc_state fc) with
      | None => AssertFailed
      | Some s =>
          let '(s, results) := execute_transactions api s (mkEVMBlock (cp_beneficiary pbft) (kBlockGasLimit cfg) (cp_timestamp pbft) difficulty) (toEvmTransaction <$> all_transactions) in
          let receipts := make_receipts 0 results in
          let* (stats, distributed) := processStats (rewards_cfg cfg) dpos iter (rewards_ fc) (reward_period new_blk) blocks_per_year (er_gas_used <$> results) in
          let '(s, (root, reward)) := distribute_rewards api s (stored <$> distributed.*2) in
          let* (db, header) := appendBlock fc (fc_db fc) pbft root reward all_transactions receipts in
          let blocks := u64 (num_executed_dag_blk_ fc + Z.of_nat (length finalized_dag_blk_hashes)) in
          let trxs := u64 (num_executed_trx_ fc + Z.of_nat (length all_transactions)) in
          let db := rest_of_batch db finalized_dag_blk_hashes blocks trxs anchor (cp_period pbft) (Z.of_nat (length (cd_transactions new_blk))) system_transactions in
          Done (fc, mkPrepared db stats s header blocks trxs)
      end
  end.

(** The three lines whose order must not change, and the rest. *)
Definition commit_db (fc : FinalChain St) (p : Prepared) : FinalChain St :=
  mkFinalChain (pr_db p) (fc_state fc) (pr_rewards p) (num_executed_dag_blk_ fc) (num_executed_trx_ fc) (block_headers_cache_ fc) (last_block_number_ fc).
Definition commit_state (fc : FinalChain St) (p : Prepared) : FinalChain St :=
  let n := blk_num (fc_state fc) + 1 in
  mkFinalChain (fc_db fc) (mkStateDb n (<[n := pr_state p]> (committed (fc_state fc)))) (rewards_ fc) (num_executed_dag_blk_ fc) (num_executed_trx_ fc)
    (block_headers_cache_ fc) (last_block_number_ fc).
Definition finish (fc : FinalChain St) (p : Prepared) (period : Z) : FinalChain St :=
  mkFinalChain (fc_db fc) (fc_state fc) (clear (rewards_cfg cfg) (rewards_ fc) period) (pr_dag_blk p) (pr_trx p)
    (append (block_headers_cache_ fc) (number (pr_header p)) (Some (pr_header p))) (number (pr_header p)).

Definition finalize_ (fc : FinalChain St) (new_blk : ChainPeriod) (finalized_dag_blk_hashes : list Z) (blocks_per_year : Z) (anchor : option Z) :
    outcome (FinalChain St) :=
  let* (fc, p) := prepare fc new_blk finalized_dag_blk_hashes blocks_per_year anchor in
  Done (finish (commit_state (commit_db fc p) p) p (cp_period (cd_block new_blk))).

(** ** Start *)

(** The counts without the blocks that the state does not have. *)
Fixpoint recover_counts (fuel : nat) (db : FinalDb) (block_n target blocks trxs : Z) : outcome (Z * Z) :=
  match fuel with
  | O => AssertFailed
  | S fuel =>
      if block_n =? target then Done (blocks, trxs)
      else
        match period_data_column db !! block_n with
        | None => AssertFailed
        | Some p =>
            let '(blocks, trxs) :=
              if bool_decide (cd_transactions p = []) then (blocks, trxs)
              else (u64 (blocks - Z.of_nat (length (cd_dag_blocks p))), u64 (trxs - Z.of_nat (length (cd_transactions p)))) in
            let trxs := u64 (trxs - Z.of_nat (length (default [] (period_system_transactions db !! block_n)))) in
            recover_counts fuel db (u64 (block_n - 1)) target blocks trxs
        end
  end.

Definition with_last (db : FinalDb) (n : Z) : FinalDb :=
  mkFinalDb (final_chain_blk_by_number db) (final_chain_blk_hash_by_number db) (final_chain_blk_number_by_hash db) (final_chain_receipt_by_period db)
    (final_chain_log_blooms_index db) (Some n) (executed_blk_count db) (executed_trx_count db) (proposal_period_levels_map db) (period_system_transactions db)
    (system_transaction db) (trx_period db) (period_data_column db).

Definition fill_cache (db : FinalDb) (c : ValueByBlockCache (option BlockHeader)) (numbers : list Z) : ValueByBlockCache (option BlockHeader) :=
  foldl (fun c n => (cache_get none None (getBlockHeader db) c n).1) c numbers.

(** The constructor, with the column of statistics of rewards. *)
Definition newFinalChain (db : FinalDb) (sdb : StateDb St) (block_rewards : gmap Z BlockStats) : outcome (FinalChain St) :=
  let stats := recoverFromDb (rewards_cfg cfg) (mkStats ∅ block_rewards) (blk_num sdb) in
  let cache := mkValueCache (final_chain_cache_in_blocks cfg) ∅ in
  let blocks := executed_blk_count db in
  let trxs := executed_trx_count db in
  match last_number db with
  | None =>
      match committed sdb !! blk_num sdb with
      | None => AssertFailed
      | Some s =>
          let* (db, header) := appendBlock_header db (makeGenesisHeader (state_root_of api s)) [] [] in
          Done (mkFinalChain db sdb stats blocks trxs (append cache (number header) (Some header)) (number header))
      end
  | Some last_blk_num =>
      let* (db, blocks, trxs, last_blk_num) :=
        if last_blk_num =? blk_num sdb then Done (db, blocks, trxs, last_blk_num)
        else
          let* (blocks, trxs) := recover_counts (Z.to_nat (last_blk_num + 3)) db last_blk_num (blk_num sdb) blocks trxs in
          Done (with_last (with_counts db blocks trxs) (blk_num sdb), blocks, trxs, blk_num sdb) in
      let start := if 5 <? last_blk_num then last_blk_num - 5 else 0 in
      Done (mkFinalChain db sdb stats blocks trxs (fill_cache db cache (seqZ start (last_blk_num - start + 1))) last_blk_num)
  end.

Definition restart_chain (fc : FinalChain St) : outcome (FinalChain St) := newFinalChain (fc_db fc) (fc_state fc) (block_rewards_stats (rewards_ fc)).

(** A node that stops in [finalize_]: before the first commit, between the two, or before the rest; then it starts again. *)
Inductive crash_point := BeforeCommits | BetweenCommits | AfterCommits.
Definition crash_finalize (where_ : crash_point) (fc : FinalChain St) (new_blk : ChainPeriod) (finalized_dag_blk_hashes : list Z) (blocks_per_year : Z)
    (anchor : option Z) : outcome (FinalChain St) :=
  let* (fc, p) := prepare fc new_blk finalized_dag_blk_hashes blocks_per_year anchor in
  restart_chain (match where_ with
    | BeforeCommits => fc
    | BetweenCommits => commit_db fc p
    | AfterCommits => commit_state (commit_db fc p) p end).

(** ** Pruning *)

(** Blocks up to the last one, whose state roots are kept. *)
Fixpoint roots_to_keep (fuel : nat) (db : FinalDb) (n : Z) : list Z :=
  match fuel with
  | O => []
  | S fuel => match getBlockHeader db n with None => [] | Some h => state_root (bh_data h) :: roots_to_keep fuel db (u64 (number h + 1)) end
  end.

Definition remove_block (db : FinalDb) (h : BlockHeader) : FinalDb :=
  mkFinalDb (delete (number h) (final_chain_blk_by_number db)) (delete (number h) (final_chain_blk_hash_by_number db)) (delete (bh_hash h) (final_chain_blk_number_by_hash db))
    (final_chain_receipt_by_period db) (final_chain_log_blooms_index db) (last_number db) (executed_blk_count db) (executed_trx_count db)
    (proposal_period_levels_map db) (period_system_transactions db) (system_transaction db) (trx_period db) (period_data_column db).

(** The batch is written after the loop: headers are read from [db0]. *)
Fixpoint prune_loop (fuel : nat) (db0 db : FinalDb) (block_to_prune : option BlockHeader) : FinalDb :=
  match fuel with
  | O => db
  | S fuel =>
      match block_to_prune with
      | None => db
      | Some h => if number h <=? 0 then db else prune_loop fuel db0 (remove_block db h) (getBlockHeader db0 (u64 (number h - 1)))
      end
  end.

(** The database and what the state API is asked to keep. *)
Definition prune (db : FinalDb) (blk_n : Z) : FinalDb * option (list Z * Z) :=
  match getBlockHeader db blk_n with
  | None => (db, None)
  | Some h => (prune_loop (Z.to_nat blk_n) db db (getBlockHeader db (u64 (number h - 1))), Some (roots_to_keep (S (size (final_chain_blk_by_number db))) db blk_n, number h))
  end.
End final_chain.
