(* ===== verification/FinalChainInv.v ===== *)
(** * The final chain: invariant

    Headers are linked, readable from the database and agree with the cache, whatever finalizations, restarts and crashes
    happened. *)

From S2P Require Import Prelude Votes Rewards LogBloom PillarChain BlockCache FinalChain.
Local Open Scope Z_scope.
Local Open Scope outcome_scope.

Section invariant.
Context {St : Type} (api : StateApi St) (cfg : ChainConfig).
Context (sha3 : list rlp_item -> Z) (bloom_sha3 : Z -> list Z) (hash256 : gmap Z (list Z) -> Z).
Context (trx_rlp : ChainTrx -> list Z) (receipt_rlp : TransactionReceipt -> list Z) (system_trx_hash : EVMTransaction -> Z).
Context (finalize_method should_finalize_method : list Z).
Context (iter : gmap Z BlockStats -> list (Z * BlockStats)) (dpos : Z -> Z).
(** The hash has no collisions, the EVM answers every transaction, the cache has room for a block. *)
Context (sha3_inj : Inj (=) (=) sha3) (evm_answers : forall s b l, length (execute_transactions api s b l).2 = length l).
Context (cache_room : 1 <= final_chain_cache_in_blocks cfg).

Notation getBlockHeader := (getBlockHeader cfg sha3).
Notation blockHeader := (@blockHeader St cfg sha3).
Notation prepare := (prepare api cfg sha3 bloom_sha3 hash256 trx_rlp receipt_rlp system_trx_hash finalize_method should_finalize_method iter dpos).
Notation finalize_ := (finalize_ api cfg sha3 bloom_sha3 hash256 trx_rlp receipt_rlp system_trx_hash finalize_method should_finalize_method iter dpos).
Notation newFinalChain := (newFinalChain api cfg sha3 bloom_sha3 hash256 trx_rlp receipt_rlp).
Notation restart_chain := (restart_chain api cfg sha3 bloom_sha3 hash256 trx_rlp receipt_rlp).
Notation crash_finalize := (crash_finalize api cfg sha3 bloom_sha3 hash256 trx_rlp receipt_rlp system_trx_hash finalize_method should_finalize_method iter dpos).
Notation makeSystemTransactions := (makeSystemTransactions api cfg sha3 system_trx_hash finalize_method should_finalize_method).
Notation appendBlock_header := (appendBlock_header sha3 bloom_sha3 hash256 trx_rlp receipt_rlp).
Notation trie_loop := (trie_loop bloom_sha3 trx_rlp receipt_rlp).

(** ** Blocks *)

Lemma trie_loop_done : forall transactions receipts i t1 t2 b, length transactions = length receipts ->
  exists t1' t2', trie_loop i transactions receipts t1 t2 b = Done (t1', t2', fold_left (fun b r => Z.lor b (receipt_bloom bloom_sha3 r)) receipts b).
Proof using.
  induction transactions as [|t transactions IH]; intros [|r receipts] i t1 t2 b Hl; try done; [by exists t1, t2|]. simpl. apply IH. simpl in Hl. lia.
Qed.

Lemma trie_loop_lengths : forall transactions receipts i t1 t2 b r, trie_loop i transactions receipts t1 t2 b = Done r -> length transactions = length receipts.
Proof using. induction transactions as [|t transactions IH]; intros [|r receipts] i t1 t2 b res; simpl; try done. intros H. f_equal. by eapply IH. Qed.

(** A header depends on its row and on the period. *)
Lemma getBlockHeader_ext db db' n : final_chain_blk_by_number db !! n = final_chain_blk_by_number db' !! n -> period_data_column db !! n = period_data_column db' !! n ->
  getBlockHeader db n = getBlockHeader db' n.
Proof using. unfold FinalChain.getBlockHeader. by intros -> ->. Qed.

Lemma header_hash db n h : getBlockHeader db n = Some h -> bh_hash h = sha3 (ethereumRlp sha3 h).
Proof using. unfold FinalChain.getBlockHeader. repeat case_match; intros [= <-]; done. Qed.

Lemma hash_number h h' : bh_hash h = sha3 (ethereumRlp sha3 h) -> bh_hash h' = sha3 (ethereumRlp sha3 h') -> bh_hash h = bh_hash h' -> number h = number h'.
Proof using sha3_inj. intros -> -> E. apply sha3_inj in E. by injection E. Qed.

(** Everything known about the block [k]. *)
Record block_ok (db : FinalDb) (k : Z) (h : BlockHeader) : Prop := {
  bo_header : getBlockHeader db k = Some h;
  bo_number : number h = k;
  bo_hash : final_chain_blk_hash_by_number db !! k = Some (bh_hash h);
  bo_by_hash : final_chain_blk_number_by_hash db !! bh_hash h = Some k;
  bo_receipts : exists rs, final_chain_receipt_by_period db !! k = Some rs /\ hd_log_bloom (bh_data h) = header_bloom bloom_sha3 rs /\
    gas_used (bh_data h) = (match last rs with Some r => tr_cumulative_gas_used r | None => 0 end);
}.

Record chain_ok (db : FinalDb) (n : Z) : Prop := {
  ch_blocks : forall k, 0 <= k <= n -> exists h, block_ok db k h;
  ch_linked : forall k h h', 0 < k <= n -> getBlockHeader db (k - 1) = Some h' -> getBlockHeader db k = Some h -> parent_hash (bh_data h) = bh_hash h';
}.

Lemma chain_ok_less db n m : chain_ok db n -> m <= n -> chain_ok db m.
Proof using. intros [H1 H2] Hm. split; [intros k Hk; apply H1; lia|intros k h h' Hk; apply H2; lia]. Qed.

(** Databases with the same blocks. *)
Record same_blocks (db db' : FinalDb) : Prop := {
  sb_rows : final_chain_blk_by_number db' = final_chain_blk_by_number db;
  sb_hashes : final_chain_blk_hash_by_number db' = final_chain_blk_hash_by_number db;
  sb_numbers : final_chain_blk_number_by_hash db' = final_chain_blk_number_by_hash db;
  sb_receipts : final_chain_receipt_by_period db' = final_chain_receipt_by_period db;
}.

Lemma chain_ok_same db db' n : same_blocks db db' -> (forall k, 0 <= k <= n -> period_data_column db' !! k = period_data_column db !! k) -> chain_ok db n -> chain_ok db' n.
Proof using.
  intros [E1 E2 E3 E4] Hp [H1 H2].
  assert (forall k, 0 <= k <= n -> getBlockHeader db' k = getBlockHeader db k) as Hh by (intros k Hk; apply getBlockHeader_ext; [by rewrite E1|by apply Hp]).
  split.
  - intros k Hk. destruct (H1 k Hk) as [h []]. exists h. split; [by rewrite Hh|done|by rewrite E2|by rewrite E3|by rewrite E4].
  - intros k h h' Hk. rewrite !Hh by lia. by apply H2.
Qed.

(** A block is written behind the last one. *)
Lemma append_effect db n header transactions receipts db' h :
  chain_ok db n -> number header = n + 1 -> hd_log_bloom (bh_data header) = 0 ->
  gas_used (bh_data header) = (match last receipts with Some r => tr_cumulative_gas_used r | None => 0 end) ->
  (forall h0, 0 <= n -> getBlockHeader db n = Some h0 -> parent_hash (bh_data header) = bh_hash h0) ->
  (forall d, getBlockHeader (mkFinalDb (<[n + 1 := d]> (final_chain_blk_by_number db)) ∅ ∅ ∅ ∅ None 0 0 ∅ ∅ ∅ ∅ (period_data_column db)) (n + 1) =
    Some (with_hash sha3 (mkBlockHeader d 0 (author header) (gas_limit header) (timestamp header) (n + 1) (extra_data header)))) ->
  appendBlock_header db header transactions receipts = Done (db', h) ->
  chain_ok db' (n + 1) /\ getBlockHeader db' (n + 1) = Some h /\ number h = n + 1 /\ last_number db' = Some (n + 1) /\ period_data_column db' = period_data_column db /\
  (forall k, k <= n -> getBlockHeader db' k = getBlockHeader db k) /\ executed_blk_count db' = executed_blk_count db /\ executed_trx_count db' = executed_trx_count db.
Proof using sha3_inj.
  destruct header as [dat hash0 aut lim ts num ex]. cbn [bh_data author gas_limit timestamp number extra_data]. intros [H1 H2] -> Hb0 Hgas Hpar Hnew. unfold FinalChain.appendBlock_header.
  cbn [bh_data author gas_limit timestamp number extra_data bh_hash].
  destruct (trie_loop 0 transactions receipts ∅ ∅ (hd_log_bloom dat)) as [[[t1 t2] b]| |] eqn:Et; [|done|done].
  pose proof (trie_loop_lengths _ _ _ _ _ _ _ Et) as Hlen. destruct (trie_loop_done transactions receipts 0 ∅ ∅ (hd_log_bloom dat) Hlen) as (u1 & u2 & Et'). rewrite Et in Et'. injection Et' as <- <- ->.
  cbn [obind]. rewrite Hb0. set (d := mkBlockHeaderData _ _ _ _ _ _ _). set (hd := with_hash sha3 _). change (number hd) with (n + 1). intros E. injection E as <- <-.
  assert (number hd = n + 1) as Hhn by done.
  assert (hd = with_hash sha3 (mkBlockHeader d 0 aut lim ts (n + 1) ex)) as Ehd by done.
  assert (forall db'', final_chain_blk_by_number db'' = <[n + 1 := d]> (final_chain_blk_by_number db) -> period_data_column db'' = period_data_column db -> getBlockHeader db'' (n + 1) = Some hd) as Hget.
  { intros db'' E1 E2. rewrite Ehd, <- (Hnew d). apply getBlockHeader_ext; simpl; [by rewrite E1|by rewrite E2]. }
  assert (forall db'', final_chain_blk_by_number db'' = <[n + 1 := d]> (final_chain_blk_by_number db) -> period_data_column db'' = period_data_column db -> forall k, k <= n -> getBlockHeader db'' k = getBlockHeader db k) as Hold.
  { intros db'' E1 E2 k Hk. apply getBlockHeader_ext; [rewrite E1, lookup_insert_ne by lia; done|by rewrite E2]. }
  match goal with |- chain_ok ?D _ /\ _ => set (db1 := D) end. pose proof (Hget db1 eq_refl eq_refl) as Hg1. pose proof (Hold db1 eq_refl eq_refl) as Ho1.
  split_and!; try done. split.
  - intros k Hk. destruct (decide (k = n + 1)) as [->|Hne].
    + exists hd. split; [done|done|simpl; by rewrite lookup_insert_eq|simpl; by rewrite lookup_insert_eq|]. exists receipts. simpl. rewrite lookup_insert_eq. by split_and!.
    + destruct (H1 k ltac:(lia)) as [h0 [A1 A2 A3 A4 A5]]. exists h0. split; [rewrite Ho1 by lia; done|done|simpl; rewrite lookup_insert_ne by lia; done| |].
      * simpl. rewrite lookup_insert_ne; [done|]. intros E. apply Hne. rewrite <- A2, <- Hhn. apply hash_number; [by eapply header_hash|done|done].
      * destruct A5 as (rs & Hrs & ?). exists rs. simpl. by rewrite lookup_insert_ne by lia.
  - intros k h0 h1 Hk. destruct (decide (k = n + 1)) as [->|Hne].
    + replace (n + 1 - 1) with n by lia. rewrite Ho1, Hg1 by lia. intros Hh1 E. injection E as <-. simpl. apply Hpar; [lia|done].
    + rewrite !Ho1 by lia. apply H2. lia.
Qed.

(** ** The cache of headers *)

(** The cache agrees with the database up to the block [n]. *)
Record cached (db : FinalDb) (n : Z) (c : ValueByBlockCache (option BlockHeader)) : Prop := {
  cc_ok : cache_ok none (getBlockHeader db) c;
  cc_keys : forall k v, data_by_block_ c !! k = Some v -> k <= n;
  cc_room : 1 <= kBlocksToKeep c;
}.

Lemma none_spec {A} (v : option A) : none v = true -> v = None.
Proof using. by destruct v. Qed.

Lemma get_cached db n c k : cached db n c -> k <= n ->
  let r := cache_get none None (getBlockHeader db) c k in
  r.2 = getBlockHeader db k /\ cached db n r.1 /\ (is_Some (data_by_block_ c !! n) -> is_Some (data_by_block_ r.1 !! n)).
Proof using.
  intros [Hok Hk Hroom] Hkn. cbn zeta. destruct (get_ok none None none_spec (getBlockHeader db) c k Hok) as [Hv Hok']. split; [done|].
  unfold cache_get, getFromCache in *. destruct (data_by_block_ c !! k) as [v|] eqn:E; [done|]. cbn zeta in *. destruct (none (getBlockHeader db k)); [done|].
  destruct (_ || _); [|done]. cbn [fst] in *. unfold append in *. rewrite E in *. cbn [data_by_block_ kBlocksToKeep] in *. set (data := <[k := _]> (data_by_block_ c)) in *.
  assert (forall k' v, data !! k' = Some v -> k' <= n) as Hdata by (intros k' v [[<- _]|[_ ?]]%lookup_insert_Some; [done|by eapply Hk]).
  split; [split; [done| |done]|].
  - intros k' v. cbn [data_by_block_]. destruct (_ <? _); [intros ?%erase_begin_sub|]; by eapply Hdata.
  - intros [x Hx]. destruct (decide (k = n)) as [->|Hne]; [congruence|]. assert (data !! n = Some x) as Hd by (unfold data; by rewrite lookup_insert_ne).
    exists x. destruct (_ <? _); [|done]. rewrite erase_begin_lookup; [done|]. exists k. eexists. split; [apply lookup_insert_eq|lia].
Qed.

(** A header that was asked for as the last one stays. *)
Lemma get_newest db n c : cached db n c -> 0 <= n < 2 ^ 64 -> is_Some (getBlockHeader db n) -> is_Some (data_by_block_ (cache_get none None (getBlockHeader db) c n).1 !! n).
Proof using.
  intros [Hok Hk Hroom] Hn [h Hh]. unfold cache_get, getFromCache. destruct (data_by_block_ c !! n) as [v|] eqn:E; [by exists v|]. cbn zeta. rewrite Hh. simpl none. cbv iota.
  assert (0 <= lastBlockNum c <= n \/ lastBlockNum c < kBlocksToKeep c) as Hlast.
  { unfold lastBlockNum. destruct (map_rbegin (data_by_block_ c)) as [[k v]|] eqn:El; [|right; lia]. destruct (map_rbegin_lookup _ _ _ El) as [Hkv _]. pose proof (Hk _ _ Hkv). lia. }
  assert ((lastBlockNum c <? kBlocksToKeep c) || (u64 (lastBlockNum c - kBlocksToKeep c) <=? n) = true) as ->.
  { apply orb_true_iff. destruct (Z.ltb_spec (lastBlockNum c) (kBlocksToKeep c)); [by left|]. right. apply Z.leb_le. destruct Hlast; [|lia].
    assert (u64 (lastBlockNum c - kBlocksToKeep c) = lastBlockNum c - kBlocksToKeep c) as -> by (apply wrap_id; unfold in_range, modulus; lia). lia. }
  simpl. destruct (append_last None c n (Some h) Hroom) as [_ Hd]; [|by exists (Some h)].
  intros k x Hx. pose proof (Hk _ _ Hx). assert (k <> n) by (intros ->; congruence). lia.
Qed.

Lemma cached_last db n c : cached db n c -> is_Some (data_by_block_ c !! n) -> cache_last None c = getBlockHeader db n.
Proof using.
  intros [Hok Hk _] [v Hv]. unfold cache_last. rewrite (map_rbegin_max _ n v Hv); [by destruct (co_data _ _ _ Hok _ _ Hv)|]. intros k' x' Hx. by eapply Hk.
Qed.

Lemma cached_db db db' n c : cached db n c -> (forall k, k <= n -> getBlockHeader db' k = getBlockHeader db k) -> cached db' n c.
Proof using.
  intros [[Hkeep Hsize Hd] Hk Hroom] Hsame. split; [split; [done|done|]|done|done]. intros k v Hv. rewrite (Hsame k ltac:(by eapply Hk)). by apply Hd.
Qed.

(** Filling the cache up to [n]. *)
Lemma fill_cached db n l : forall c, cached db n c -> Forall (fun k => k <= n) l ->
  cached db n (fill_cache cfg sha3 db c l) /\ (is_Some (data_by_block_ c !! n) -> is_Some (data_by_block_ (fill_cache cfg sha3 db c l) !! n)).
Proof using.
  unfold fill_cache. induction l as [|k l IH]; intros c Hc Hl; [done|]. apply Forall_cons in Hl as [Hk Hl]. cbn [foldl].
  destruct (get_cached db n c k Hc Hk) as (_ & Hc' & Hn). destruct (IH _ Hc' Hl) as [H1 H2]. split; [done|]. intros H. by apply H2, Hn.
Qed.

(** A block that is appended behind the others. *)
Lemma append_cached db db' n c h : cached db n c -> (forall k, k <= n -> getBlockHeader db' k = getBlockHeader db k) -> getBlockHeader db' (n + 1) = Some h ->
  cached db' (n + 1) (append c (n + 1) (Some h)) /\ is_Some (data_by_block_ (append c (n + 1) (Some h)) !! (n + 1)).
Proof using.
  intros Hc Hsame Hh. pose proof (cached_db _ _ _ _ Hc Hsame) as [Hok Hk Hroom]. pose proof (append_ok none (getBlockHeader db') c (n + 1) Hok) as Ha. rewrite Hh in Ha. specialize (Ha eq_refl).
  destruct (append_last None c (n + 1) (Some h) Hroom) as [_ Hd]; [intros k x Hx; pose proof (Hk _ _ Hx); lia|]. split; [|by eexists]. split; [done| |done].
  intros k v Hv. unfold append in Hv. cbn [data_by_block_] in Hv. assert (data_by_block_ c !! (n + 1) = None) as En by (apply eq_None_not_Some; intros [x Hx]; pose proof (Hk _ _ Hx); lia). rewrite En in Hv.
  assert (<[n + 1 := Some h]> (data_by_block_ c) !! k = Some v) as [[<- _]|[_ Hx]]%lookup_insert_Some by (destruct (_ <? _); [by apply erase_begin_sub|done]); [lia|]. pose proof (Hk _ _ Hx). lia.
Qed.

(** ** The chain *)

Record fc_ok (fc : FinalChain St) : Prop := {
  fo_range : 0 <= last_block_number_ fc < 2 ^ 64;
  fo_last : last_number (fc_db fc) = Some (last_block_number_ fc);
  fo_state : blk_num (fc_state fc) = last_block_number_ fc;
  fo_states : forall k, 0 <= k <= last_block_number_ fc -> is_Some (committed (fc_state fc) !! k);
  fo_chain : chain_ok (fc_db fc) (last_block_number_ fc);
  fo_cached : cached (fc_db fc) (last_block_number_ fc) (block_headers_cache_ fc);
  fo_newest : is_Some (data_by_block_ (block_headers_cache_ fc) !! last_block_number_ fc);
}.

Lemma fc_ok_cache fc c : fc_ok fc -> cached (fc_db fc) (last_block_number_ fc) c -> is_Some (data_by_block_ c !! last_block_number_ fc) -> fc_ok (with_cache fc c).
Proof using. intros [] Hc Hn. by split. Qed.

Lemma blockHeader_effect fc k : fc_ok fc -> k <= last_block_number_ fc ->
  exists c, blockHeader fc (Some k) = (with_cache fc c, getBlockHeader (fc_db fc) k) /\ fc_ok (with_cache fc c).
Proof using.
  intros Hfc Hk. unfold FinalChain.blockHeader. destruct (get_cached _ _ _ k (fo_cached _ Hfc) Hk) as (Hv & Hc & Hn). destruct (cache_get none None _ _ k) as [c v]. cbn [fst snd] in *. subst v.
  exists c. split; [done|]. apply fc_ok_cache; [done|done|]. apply Hn, (fo_newest _ Hfc).
Qed.

Lemma last_header fc : fc_ok fc -> exists h, (blockHeader fc None).2 = Some h /\ block_ok (fc_db fc) (last_block_number_ fc) h.
Proof using.
  intros Hfc. destruct (ch_blocks _ _ (fo_chain _ Hfc) (last_block_number_ fc)) as [h Hh]; [pose proof (fo_range _ Hfc); lia|]. exists h. split; [|done].
  simpl. rewrite (cached_last _ _ _ (fo_cached _ Hfc) (fo_newest _ Hfc)). apply (bo_header _ _ _ Hh).
Qed.

(** The system transactions as a function of the last state and header. *)
Definition system_spec (s : St) (h : BlockHeader) (blk_n : Z) : list ChainTrx :=
  if isPillarBlockPeriod (ficus_hf cfg) (u64 (blk_n + fc_delegation_delay cfg)) false then
    match get_account api s (bridge_contract_address cfg) with
    | None => []
    | Some acc =>
        if sa_code_size acc =? 0 then []
        else
          let r := dry_run_transaction api s (mkEVMBlock (author h) (gas_limit h) (timestamp h) difficulty)
            (mkEVMTransaction 0 1 (Some (bridge_contract_address cfg)) 0 0 10000000 should_finalize_method) in
          if existsb (fun b => negb (b =? 0)) (code_retval r) then
            let n := sa_nonce (default (mkStateAccount 0 0) (get_account api s (kTaraxaSystemAccount cfg))) in
            [mkChainTrx (system_trx_hash (mkEVMTransaction (kTaraxaSystemAccount cfg) 0 (Some (bridge_contract_address cfg)) n 0 (kBlockGasLimit cfg) finalize_method))
               (kTaraxaSystemAccount cfg) 0 (Some (bridge_contract_address cfg)) n 0 (kBlockGasLimit cfg) finalize_method]
          else []
    end
  else [].

Lemma system_effect fc s h : fc_ok fc -> last_block_number_ fc + 1 < 2 ^ 64 -> committed (fc_state fc) !! last_block_number_ fc = Some s -> getBlockHeader (fc_db fc) (last_block_number_ fc) = Some h ->
  exists c, makeSystemTransactions fc (last_block_number_ fc + 1) = Done (with_cache fc c, system_spec s h (last_block_number_ fc + 1)) /\ fc_ok (with_cache fc c).
Proof using.
  intros Hfc Hlt Hs Hh. pose proof (fo_range _ Hfc) as Hr.
  assert (exists c, Done (fc, @nil ChainTrx) = Done (with_cache fc c, []) /\ fc_ok (with_cache fc c)) as Hnil by (exists (block_headers_cache_ fc); by destruct fc).
  unfold FinalChain.makeSystemTransactions, system_spec. destruct (isPillarBlockPeriod _ _ _); [|done]. unfold getAccount. rewrite Hs. cbn [obind].
  destruct (get_account api s (bridge_contract_address cfg)) as [acc|]; [|done]. destruct (sa_code_size acc =? 0); [done|]. unfold isNeedToFinalize, call.
  assert (u64 (last_block_number_ fc + 1 - 1) = last_block_number_ fc) as -> by (replace (last_block_number_ fc + 1 - 1) with (last_block_number_ fc) by lia; apply wrap_id; unfold in_range, modulus; lia).
  destruct (blockHeader_effect fc (last_block_number_ fc) Hfc ltac:(lia)) as (c & -> & Hc). rewrite Hh. cbn [with_cache fc_state]. destruct (ch_blocks _ _ (fo_chain _ Hfc) (last_block_number_ fc) ltac:(lia)) as [h' Hb].
  pose proof (bo_header _ _ _ Hb) as E. rewrite Hh in E. injection E as <-. rewrite (bo_number _ _ _ Hb), Hs. cbn [obind].
  destruct (existsb _ _); [|by exists c]. unfold makeBridgeFinalizationTransaction, getAccount. cbn [with_cache fc_state last_block_number_]. rewrite Hs. cbn [obind]. by exists c.
Qed.

(** What is prepared, as a function of the database, the statistics, the counts and the last state and header. *)
Definition prepare_spec (db : FinalDb) (rw : Stats) (blocks trxs : Z) (s : St) (h : BlockHeader) (new_blk : ChainPeriod) (hashes : list Z) (blocks_per_year : Z)
    (anchor : option Z) : outcome (@Prepared St) :=
  let pbft := cd_block new_blk in
  let sys := system_spec s h (cp_period pbft) in
  let all_transactions := cd_transactions new_blk ++ sys in
  let '(s, results) := execute_transactions api s (mkEVMBlock (cp_beneficiary pbft) (kBlockGasLimit cfg) (cp_timestamp pbft) difficulty) (toEvmTransaction <$> all_transactions) in
  let receipts := make_receipts 0 results in
  let* (stats, distributed) := processStats (rewards_cfg cfg) dpos iter rw (reward_period new_blk) blocks_per_year (er_gas_used <$> results) in
  let '(s, (root, reward)) := distribute_rewards api s (stored <$> distributed.*2) in
  let* (db, header) := appendBlock_header db (mkBlockHeader (mkBlockHeaderData (bh_hash h) root 0 0 0
    (match last receipts with Some r => tr_cumulative_gas_used r | None => 0 end) reward) 0 (cp_beneficiary pbft) (kBlockGasLimit cfg) (cp_timestamp pbft) (u64 (number h + 1)) (cp_extra_data pbft))
    all_transactions receipts in
  let blocks := u64 (blocks + Z.of_nat (length hashes)) in
  let trxs := u64 (trxs + Z.of_nat (length all_transactions)) in
  let db := rest_of_batch cfg db hashes blocks trxs anchor (cp_period pbft) (Z.of_nat (length (cd_transactions new_blk))) sys in
  Done (mkPrepared db stats s header blocks trxs).

(** The period that is finalized is the next one and in the database. *)
Definition next_period (fc : FinalChain St) (new_blk : ChainPeriod) : Prop :=
  last_block_number_ fc + 1 < 2 ^ 64 /\ cp_period (cd_block new_blk) = last_block_number_ fc + 1 /\
  period_data_column (fc_db fc) !! (last_block_number_ fc + 1) = Some new_blk.

Lemma prepare_unfold fc new_blk hashes bpy anchor s h : fc_ok fc -> next_period fc new_blk -> committed (fc_state fc) !! last_block_number_ fc = Some s ->
  getBlockHeader (fc_db fc) (last_block_number_ fc) = Some h ->
  exists c, prepare fc new_blk hashes bpy anchor =
    (let* p := prepare_spec (fc_db fc) (rewards_ fc) (num_executed_dag_blk_ fc) (num_executed_trx_ fc) s h new_blk hashes bpy anchor in Done (with_cache fc c, p)) /\ fc_ok (with_cache fc c).
Proof using.
  intros Hfc (Hlt & Hp & _) Hs Hh. destruct (system_effect fc s h Hfc Hlt Hs Hh) as (c & Hsys & Hc). exists c. split; [|done]. unfold FinalChain.prepare, prepare_spec.
  destruct (last_header fc Hfc) as (h' & -> & Hb). pose proof (bo_header _ _ _ Hb) as E. rewrite Hh in E. injection E as <-. cbn zeta. rewrite Hp, Hsys. cbn [obind]. cbn [with_cache fc_state].
  rewrite (fo_state _ Hfc), Hs. destruct (execute_transactions _ _ _ _) as [s1 results]. cbn [with_cache rewards_ fc_db num_executed_dag_blk_ num_executed_trx_].
  destruct (processStats _ _ _ _ _ _ _) as [[stats distributed]| |]; cbn [obind]; [|done|done]. destruct (distribute_rewards _ _ _) as [s2 [root reward]].
  unfold FinalChain.appendBlock. destruct (last_header (with_cache fc c) Hc) as (h2 & -> & Hb2). pose proof (bo_header _ _ _ Hb2) as E. cbn [with_cache fc_db last_block_number_] in E. rewrite Hh in E. injection E as <-.
  destruct (FinalChain.appendBlock_header _ _ _ _ _ _ _ _ _) as [[db header]| |]; done.
Qed.

(** ** Steps *)

(** Rows besides the blocks. *)
Lemma batch_same db hashes blocks trxs anchor period position sys (db' := rest_of_batch cfg db hashes blocks trxs anchor period position sys) :
  same_blocks db db' /\ last_number db' = last_number db /\ period_data_column db' = period_data_column db.
Proof using. unfold db', rest_of_batch. destruct sys, anchor, (bool_decide (hashes = [])); by split_and!. Qed.

Lemma make_receipts_length results : forall c, length (make_receipts c results) = length results.
Proof using. induction results as [|r results IH]; intros c; simpl; [done|]. by rewrite IH. Qed.

(** The next block is written behind the chain. *)
Record prepared_ok (db : FinalDb) (n : Z) (p : @Prepared St) : Prop := {
  po_chain : chain_ok (pr_db p) (n + 1);
  po_header : getBlockHeader (pr_db p) (n + 1) = Some (pr_header p);
  po_number : number (pr_header p) = n + 1;
  po_last : last_number (pr_db p) = Some (n + 1);
  po_periods : period_data_column (pr_db p) = period_data_column db;
  po_old : forall k, k <= n -> getBlockHeader (pr_db p) k = getBlockHeader db k;
}.

Lemma prepared_effect fc new_blk hashes bpy anchor s h rw blocks trxs p : fc_ok fc -> next_period fc new_blk -> getBlockHeader (fc_db fc) (last_block_number_ fc) = Some h ->
  prepare_spec (fc_db fc) rw blocks trxs s h new_blk hashes bpy anchor = Done p -> prepared_ok (fc_db fc) (last_block_number_ fc) p.
Proof using sha3_inj.
  intros Hfc (Hlt & Hp & Hper) Hh. pose proof (fo_range _ Hfc) as Hr. unfold prepare_spec. cbn zeta. destruct (execute_transactions _ _ _ _) as [s1 results].
  destruct (processStats _ _ _ _ _ _ _) as [[stats distributed]| |]; cbn [obind]; [|done|done]. destruct (distribute_rewards _ _ _) as [s2 [root reward]].
  destruct (FinalChain.appendBlock_header _ _ _ _ _ _ _ _ _) as [[db header]| |] eqn:Ea; cbn [obind]; [|done|done].
  destruct (ch_blocks _ _ (fo_chain _ Hfc) (last_block_number_ fc) ltac:(lia)) as [h' Hb]. pose proof (bo_header _ _ _ Hb) as E. rewrite Hh in E. injection E as <-.
  assert (u64 (number h + 1) = last_block_number_ fc + 1) as En by (rewrite (bo_number _ _ _ Hb); apply wrap_id; unfold in_range, modulus; lia). rewrite En in Ea.
  apply (append_effect _ (last_block_number_ fc)) in Ea; [|exact (fo_chain _ Hfc)|done|done|done| |].
  2: { intros h0 _ H0. cbn. congruence. }
  2: { intros d. unfold FinalChain.getBlockHeader. cbn [final_chain_blk_by_number period_data_column]. rewrite lookup_insert_eq, Hper. destruct (Z.eqb_spec (last_block_number_ fc + 1) 0); [lia|]. unfold header_from_pbft. by rewrite Hp. }
  destruct Ea as (A1 & A2 & A3 & A4 & A5 & A6 & _). intros E. injection E as <-.
  destruct (batch_same db hashes (u64 (blocks + Z.of_nat (length hashes))) (u64 (trxs + Z.of_nat (length (cd_transactions new_blk ++ system_spec s h (cp_period (cd_block new_blk)))))) anchor
    (cp_period (cd_block new_blk)) (Z.of_nat (length (cd_transactions new_blk))) (system_spec s h (cp_period (cd_block new_blk)))) as (B1 & B2 & B3).
  set (db' := rest_of_batch _ _ _ _ _ _ _ _ _) in *.
  assert (forall k, getBlockHeader db' k = getBlockHeader db k) as Hsame by (intros k; apply getBlockHeader_ext; [by rewrite (sb_rows _ _ B1)|by rewrite B3]).
  split; cbn [pr_db pr_header]; [by apply (chain_ok_same db); [|intros; rewrite B3|]|by rewrite Hsame|done|by rewrite B2|by rewrite B3|]. intros k Hk. rewrite Hsame. by apply A6.
Qed.

Lemma prepare_spec_total db rw blocks trxs s h new_blk hashes bpy anchor :
  (forall gas, length gas = length (cd_transactions new_blk ++ system_spec s h (cp_period (cd_block new_blk))) -> exists r, processStats (rewards_cfg cfg) dpos iter rw (reward_period new_blk) bpy gas = Done r) ->
  exists p, prepare_spec db rw blocks trxs s h new_blk hashes bpy anchor = Done p.
Proof using evm_answers.
  intros Hrw. unfold prepare_spec. cbn zeta. set (all := cd_transactions new_blk ++ _) in *.
  pose proof (evm_answers s (mkEVMBlock (cp_beneficiary (cd_block new_blk)) (kBlockGasLimit cfg) (cp_timestamp (cd_block new_blk)) difficulty) (toEvmTransaction <$> all)) as Hlen.
  destruct (execute_transactions _ _ _ _) as [s1 results]. cbn [snd] in Hlen. rewrite length_fmap in Hlen.
  destruct (Hrw (er_gas_used <$> results)) as [[stats distributed] ->]; [by rewrite length_fmap|]. cbn [obind]. destruct (distribute_rewards _ _ _) as [s2 [root reward]].
  unfold FinalChain.appendBlock_header. cbn [bh_data hd_log_bloom].
  destruct (trie_loop_done all (make_receipts 0 results) 0 ∅ ∅ 0) as (t1 & t2 & ->); [by rewrite make_receipts_length|]. cbn [obind]. by eexists.
Qed.

Lemma finish_ok fc new_blk p c : fc_ok fc -> next_period fc new_blk -> prepared_ok (fc_db fc) (last_block_number_ fc) p -> fc_ok (with_cache fc c) ->
  fc_ok (finish cfg (commit_state (commit_db (with_cache fc c) p) p) p (cp_period (cd_block new_blk))).
Proof using.
  intros Hfc (Hlt & Hp & _) Hpo Hc. pose proof (fo_range _ Hfc) as Hr. destruct (append_cached (fc_db fc) (pr_db p) (last_block_number_ fc) c (pr_header p)) as [H1 H2]; [apply (fo_cached _ Hc)|apply (po_old _ _ _ Hpo)|apply (po_header _ _ _ Hpo)|].
  pose proof (po_number _ _ _ Hpo) as En. unfold finish, commit_state, commit_db. split; cbn; rewrite ?En; [lia|apply (po_last _ _ _ Hpo)|by rewrite (fo_state _ Hfc)| |apply (po_chain _ _ _ Hpo)|exact H1|exact H2].
  intros k Hk. rewrite (fo_state _ Hfc). destruct (decide (k = last_block_number_ fc + 1)) as [->|Hne]; [rewrite lookup_insert_eq; by eexists|]. rewrite lookup_insert_ne by done. apply (fo_states _ Hfc). lia.
Qed.

Lemma empty_cached db n : cached db n (mkValueCache (final_chain_cache_in_blocks cfg) ∅).
Proof using cache_room. split; cbn [data_by_block_ kBlocksToKeep]; [split; cbn [data_by_block_ kBlocksToKeep]; [lia|rewrite map_size_empty; lia|intros k v Hv; by rewrite lookup_empty in Hv]|intros k v Hv; by rewrite lookup_empty in Hv|done]. Qed.

(** The cache that the constructor fills. *)
Lemma start_cached db n : chain_ok db n -> 0 <= n < 2 ^ 64 ->
  let start := if 5 <? n then n - 5 else 0 in
  let c := fill_cache cfg sha3 db (mkValueCache (final_chain_cache_in_blocks cfg) ∅) (seqZ start (n - start + 1)) in cached db n c /\ is_Some (data_by_block_ c !! n).
Proof using cache_room.
  intros Hc Hn. cbn zeta. set (start := if 5 <? n then n - 5 else 0). assert (0 <= start <= n) as Hst by (unfold start; destruct (Z.ltb_spec 5 n); lia).
  replace (n - start + 1) with ((n - start) + 1) by lia. rewrite seqZ_app by lia. unfold fill_cache. rewrite foldl_app.
  set (c0 := foldl _ _ (seqZ start (n - start))). assert (cached db n c0) as Hc0.
  { refine (proj1 (fill_cached db n (seqZ start (n - start)) _ (empty_cached db n) _)). apply Forall_forall. intros k Hk. apply elem_of_seqZ in Hk. lia. }
  replace (start + (n - start)) with n by lia. change (seqZ n 1) with [n]. cbn [foldl]. replace (n + 0) with n by lia.
  split; [apply get_cached; [done|lia]|]. apply get_newest; [done|done|]. destruct (ch_blocks _ _ Hc n ltac:(lia)) as [h Hh]. exists h. apply (bo_header _ _ _ Hh).
Qed.

(** A node that starts on the database of a chain, possibly with one block more than the state has. *)
Lemma start_ok db sdb rw m : chain_ok db (blk_num sdb) -> 0 <= blk_num sdb < 2 ^ 64 -> (forall k, 0 <= k <= blk_num sdb -> is_Some (committed sdb !! k)) -> last_number db = Some m ->
  m = blk_num sdb \/ (m = blk_num sdb + 1 /\ m < 2 ^ 64 /\ is_Some (period_data_column db !! m)) ->
  exists fc, newFinalChain db sdb rw = Done fc /\ fc_ok fc /\ last_block_number_ fc = blk_num sdb /\ fc_state fc = sdb /\ same_blocks db (fc_db fc) /\
    period_data_column (fc_db fc) = period_data_column db /\ rewards_ fc = recoverFromDb (rewards_cfg cfg) (mkStats ∅ rw) (blk_num sdb).
Proof using cache_room.
  intros Hch Hn Hst Hm Hor. unfold FinalChain.newFinalChain. rewrite Hm. destruct Hor as [->|(-> & Hlt & [pd Hpd])].
  - rewrite Z.eqb_refl. cbn [obind]. destruct (start_cached db (blk_num sdb) Hch Hn) as [Hc1 Hc2]. eexists. split; [done|]. by split_and!.
  - destruct (Z.eqb_spec (blk_num sdb + 1) (blk_num sdb)); [lia|]. replace (Z.to_nat (blk_num sdb + 1 + 3)) with (S (S (Z.to_nat (blk_num sdb + 2)))) by lia. cbn [recover_counts].
    destruct (Z.eqb_spec (blk_num sdb + 1) (blk_num sdb)); [lia|]. rewrite Hpd. assert (u64 (blk_num sdb + 1 - 1) = blk_num sdb) as -> by (replace (blk_num sdb + 1 - 1) with (blk_num sdb) by lia; apply wrap_id; unfold in_range, modulus; lia).
    destruct (if bool_decide (cd_transactions pd = []) then _ else _) as [bl tr]. rewrite Z.eqb_refl. cbn [obind].
    match goal with |- context [fill_cache _ _ ?D _ _] => set (db' := D) end. assert (chain_ok db' (blk_num sdb)) as Hch' by (by apply (chain_ok_same db)).
    destruct (start_cached db' (blk_num sdb) Hch' Hn) as [Hc1 Hc2]. eexists. split; [done|]. by split_and!.
Qed.
End invariant.
