(* ===== verification/FinalChainRuns.v ===== *)
(** * The final chain: runs and crashes

    Sequences of finalizations, crashes and restarts; a block whose finalization was interrupted between the two commits is
    executed again with the same result. *)

From S2P Require Import Prelude Votes Rewards RewardsRuns LogBloom PillarChain BlockCache FinalChain FinalChainInv.
Local Open Scope Z_scope.
Local Open Scope outcome_scope.

(** ** Statistics of rewards after a crash *)

Lemma map_items_fmap {A B} (f : A -> B) (m : gmap Z A) : map_items (f <$> m) = prod_map id f <$> map_items m.
Proof.
  apply (StronglySorted_unique_strong key_le).
  - intros [a u] [b v] H1 H2. unfold key_le. simpl. intros H3 H4. assert (a = b) as <- by lia. f_equal. apply elem_of_map_items in H1.
    apply list_elem_of_fmap in H2 as ([c w] & [= -> ->] & H2%elem_of_map_items). rewrite lookup_fmap, H2 in H1. simpl in H1. congruence.
  - apply map_items_sorted.
  - pose proof (map_items_sorted m) as Hs. induction Hs as [|e l Hs IH Hf]; simpl; constructor; [done|]. apply Forall_fmap. eapply Forall_impl; [exact Hf|]. by intros [].
  - rewrite !map_items_perm. by rewrite map_to_list_fmap.
Qed.

Section rewards.
Context (rc : RewardsConfig) (dpos : Z -> Z) (iter : gmap Z BlockStats -> list (Z * BlockStats)).
(** Frequencies are unsigned. *)
Context (frequencies_ok : forall b f, rewards_distribution_frequency rc !! b = Some f -> 0 <= f).

Abbreviation distributes := (RewardsRuns.distributes rc).

(** The column has the statistics in memory; after a distribution there are none. *)
Record stats_ok (n : Z) (s : Stats) : Prop := {
  so_column : block_rewards_stats s = stored <$> blocks_stats_ s;
  so_cleared : n <> 0 -> distributes n = true -> blocks_stats_ s = ∅;
}.


Lemma recover_stats n col : recoverFromDb rc (mkStats ∅ col) n = let c := if negb (n =? 0) && distributes n then ∅ else col in mkStats c c.
Proof using. unfold recoverFromDb, clear. fold (distributes n). by destruct (n =? 0), (distributes n). Qed.

(** The column of the next period: the same, or with its entry. *)
Definition next_column (s s' : Stats) : Prop := block_rewards_stats s' = block_rewards_stats s \/ exists k x, block_rewards_stats s' = <[k := stored x]> (block_rewards_stats s).

Lemma recover_ok n s s' : stats_ok n s -> next_column s s' -> stats_ok n (recoverFromDb rc (mkStats ∅ (block_rewards_stats s')) n).
Proof using.
  intros [Hc Hd] Hcol. rewrite recover_stats. cbn zeta. destruct (negb (n =? 0) && distributes n) eqn:E; split; cbn; [by rewrite fmap_empty|done| |].
  - destruct Hcol as [->|(k & x & ->)]; rewrite Hc; [by rewrite stored_idemp|]. by rewrite fmap_insert, stored_idemp.
  - intros Hn Hdi. rewrite Hdi in E. destruct (Z.eqb_spec n 0); [done|]. done.
Qed.

(** The finalization keeps the invariant, also with a crash before the statistics are cleared. *)
Lemma cleared_ok n t : 0 <= n -> (distributes (n + 1) = false -> block_rewards_stats t = stored <$> blocks_stats_ t) ->
  stats_ok (n + 1) (clear rc t (n + 1)) /\ stats_ok (n + 1) (recoverFromDb rc (mkStats ∅ (block_rewards_stats t)) (n + 1)).
Proof using.
  intros Hn Ht. split.
  - unfold clear. fold (distributes (n + 1)). destruct (distributes (n + 1)) eqn:Ed; [split; cbn; [by rewrite fmap_empty|done]|]. split; [by apply Ht|]. intros _ Hx. congruence.
  - rewrite recover_stats. cbn zeta. destruct (Z.eqb_spec (n + 1) 0); [lia|]. destruct (distributes (n + 1)) eqn:Ed; cbn; split; cbn; [by rewrite fmap_empty|done|rewrite Ht by done; by rewrite stored_idemp|congruence].
Qed.

(** The cases of [processStats]. *)
Lemma process_cases n s b bpy gas s' out : rp_period b = n + 1 -> processStats rc dpos iter s b bpy gas = Done (s', out) ->
  exists stats, getBlockStats rc dpos b bpy gas = Done stats /\
    ((getRewardsDistributionFrequency rc (n + 1) = 1 /\ distributes (n + 1) = false /\ s' = s /\ out = [(n + 1, stats)]) \/
     (distributes (n + 1) = false /\ getRewardsDistributionFrequency rc (n + 1) <> 1 /\ s' = mkStats (<[n + 1 := stats]> (blocks_stats_ s)) (<[n + 1 := stored stats]> (block_rewards_stats s)) /\ out = []) \/
     (distributes (n + 1) = true /\ s' = mkStats (<[n + 1 := stats]> (blocks_stats_ s)) (block_rewards_stats s) /\
      out = if n + 1 <? aspen_block_num_part_one rc then iter (<[n + 1 := stats]> (blocks_stats_ s)) else map_items (<[n + 1 := stats]> (blocks_stats_ s)))).
Proof using frequencies_ok.
  intros Hp. unfold processStats. rewrite Hp. destruct (getBlockStats _ _ _ _ _) as [stats| |]; cbn [obind]; [|done|done]. cbn zeta. intros E. exists stats. split; [done|]. revert E.
  unfold RewardsRuns.distributes. pose proof (frequency_nonneg rc frequencies_ok (n + 1)) as Hf. set (f := getRewardsDistributionFrequency rc (n + 1)) in *.
  destruct (Z.eqb_spec f 1) as [E1|E1]; [rewrite E1; intros [= <- <-]; left; by split_and!|]. destruct (Z.eqb_spec f 0) as [|E0]; [done|].
  assert (1 <? f = true) as -> by (apply Z.ltb_lt; lia). cbn [andb]. destruct ((n + 1) mod f =? 0); cbn [negb blocks_stats_ block_rewards_stats].
  - intros E. right. right. destruct (_ <? _); injection E as <- <-; by split_and!.
  - intros [= <- <-]. right. left. by split_and!.
Qed.

Lemma process_ok n s b bpy gas s' out : 0 <= n -> stats_ok n s -> rp_period b = n + 1 -> processStats rc dpos iter s b bpy gas = Done (s', out) ->
  stats_ok (n + 1) (clear rc s' (n + 1)) /\ stats_ok (n + 1) (recoverFromDb rc (mkStats ∅ (block_rewards_stats s')) (n + 1)) /\ next_column s s'.
Proof using frequencies_ok.
  intros Hn [Hc Hd] Hp E. destruct (process_cases _ _ _ _ _ _ _ Hp E) as (stats & _ & [(_ & Hdi & -> & _)|[(Hdi & _ & -> & _)|(Hdi & -> & _)]]).
  - destruct (cleared_ok n s Hn) as [? ?]; [done|]. split_and!; [done|done|by left].
  - destruct (cleared_ok n (mkStats (<[n + 1 := stats]> (blocks_stats_ s)) (<[n + 1 := stored stats]> (block_rewards_stats s))) Hn) as [? ?]; [intros _; cbn; by rewrite fmap_insert, Hc|].
    split_and!; [done|done|right; by exists (n + 1), stats].
  - destruct (cleared_ok n (mkStats (<[n + 1 := stats]> (blocks_stats_ s)) (block_rewards_stats s)) Hn) as [? ?]; [congruence|]. split_and!; [done|done|by left].
Qed.

(** Once more after a crash before the block was committed to the state: the same column and the same statistics for the contract. *)
Lemma process_again n s b bpy gas s' out : stats_ok n s -> rp_period b = n + 1 -> aspen_block_num_part_one rc <= n + 1 -> processStats rc dpos iter s b bpy gas = Done (s', out) ->
  exists s2 out2, processStats rc dpos iter (recoverFromDb rc (mkStats ∅ (block_rewards_stats s')) n) b bpy gas = Done (s2, out2) /\ stored <$> out2.*2 = stored <$> out.*2 /\
    block_rewards_stats (clear rc s2 (n + 1)) = block_rewards_stats (clear rc s' (n + 1)).
Proof using frequencies_ok.
  intros [Hc Hd] Hp Ha E. destruct (process_cases _ _ _ _ _ _ _ Hp E) as (stats & Hg & Hcases). unfold processStats. rewrite Hg, Hp. cbn [obind]. cbn zeta. rewrite recover_stats. cbn zeta.
  assert (forall t, n <> 0 -> distributes n = true -> block_rewards_stats s = t -> t = ∅) as Hempty by (intros t Hn Hdi <-; by rewrite Hc, Hd, fmap_empty).
  assert (negb (n =? 0) && distributes n = true -> block_rewards_stats s = ∅) as Hz.
  { intros [Hn%negb_true_iff%Z.eqb_neq Hdi]%andb_true_iff. by apply Hempty. }
  unfold clear. fold (distributes (n + 1)). cbn [blocks_stats_ block_rewards_stats].
  destruct Hcases as [(Hf & Hdi & -> & ->)|[(Hdi & Hf & -> & ->)|(Hdi & -> & ->)]]; rewrite Hdi.
  - rewrite Hf, Z.eqb_refl. eexists _, _. split_and!; [done|done|]. cbn. destruct (negb (n =? 0) && distributes n) eqn:Ez; [by rewrite Hz|done].
  - pose proof Hdi as Hdi'. unfold RewardsRuns.distributes in Hdi'. pose proof (frequency_nonneg rc frequencies_ok (n + 1)) as Hnn. revert E. unfold processStats. rewrite Hg, Hp. cbn [obind]. cbn zeta.
    destruct (Z.eqb_spec (getRewardsDistributionFrequency rc (n + 1)) 1); [done|]. destruct (Z.eqb_spec (getRewardsDistributionFrequency rc (n + 1)) 0); [done|]. intros _.
    assert (1 <? getRewardsDistributionFrequency rc (n + 1) = true) as H1 by (apply Z.ltb_lt; lia). rewrite H1 in Hdi'. cbn [andb] in Hdi'. rewrite Hdi'. cbn [negb].
    eexists _, _. split_and!; [done|done|]. cbn. destruct (negb (n =? 0) && distributes n) eqn:Ez; [by rewrite Hz|]. by rewrite insert_insert_eq.
  - pose proof Hdi as Hdi'. unfold RewardsRuns.distributes in Hdi'. apply andb_true_iff in Hdi' as [H1 H2]. apply Z.ltb_lt in H1. rewrite H2. cbn [negb].
    destruct (Z.eqb_spec (getRewardsDistributionFrequency rc (n + 1)) 1); [lia|]. destruct (Z.eqb_spec (getRewardsDistributionFrequency rc (n + 1)) 0); [lia|].
    destruct (Z.ltb_spec (n + 1) (aspen_block_num_part_one rc)); [lia|]. eexists _, _. split_and!; [done| |done]. cbn [blocks_stats_].
    cbn [block_rewards_stats]. assert ((if negb (n =? 0) && distributes n then ∅ else block_rewards_stats s) = stored <$> blocks_stats_ s) as -> by ( destruct (negb (n =? 0) && distributes n) eqn:Ez; [by rewrite <- Hc, Hz|done]).
    assert (forall m : gmap Z BlockStats, stored <$> (map_items m).*2 = (map_items (stored <$> m)).*2) as Hi.
    { intros m. rewrite map_items_fmap. rewrite <- !list_fmap_compose. by apply list_fmap_ext. }
    rewrite !Hi. f_equal. f_equal. rewrite !fmap_insert. f_equal. apply stored_idemp.
Qed.
End rewards.

(** ** The index of logs, once more *)

(** The chunk has the filter already. *)
Definition absorbed (db : LogBloomsIndex) (c : Z) (i : nat) (b : LogBloom) : Prop := exists l, db !! c = Some l /\ alter (fun x => Z.lor x b) i l = l.

Lemma alter_lor_idemp (l : list LogBloom) i b : alter (fun x => Z.lor x b) i (alter (fun x => Z.lor x b) i l) = alter (fun x => Z.lor x b) i l.
Proof. rewrite list_alter_alter_eq. apply list_alter_ext; [|done]. intros x _. simpl. by rewrite <- Z.lor_assoc, Z.lor_diag. Qed.

Lemma absorbed_insert db c i b : absorbed (<[c := alter (fun x => Z.lor x b) i (blockBlooms db c)]> db) c i b.
Proof. eexists. rewrite lookup_insert_eq. split; [done|]. apply alter_lor_idemp. Qed.

Lemma absorbed_keep db c i b c' j : absorbed db c i b -> absorbed (<[c' := alter (fun x => Z.lor x b) j (blockBlooms db c')]> db) c i b.
Proof.
  intros (l & Hl & Ha). destruct (decide (c' = c)) as [->|Hne]; [|exists l; by rewrite lookup_insert_ne].
  eexists. rewrite lookup_insert_eq. split; [done|]. unfold blockBlooms. rewrite Hl. simpl. destruct (decide (i = j)) as [<-|Hij]; [apply alter_lor_idemp|]. rewrite list_alter_alter_ne by done. by rewrite Ha.
Qed.

Lemma absorbed_same db c i b : absorbed db c i b -> <[c := alter (fun x => Z.lor x b) i (blockBlooms db c)]> db = db.
Proof. intros (l & Hl & Ha). apply insert_id. unfold blockBlooms. rewrite Hl. simpl. by rewrite Ha. Qed.

Lemma index_block_idemp db n b : index_block (index_block db n b) n b = index_block db n b.
Proof.
  unfold index_block. change (Z.to_nat c_bloomIndexLevels) with 2%nat. cbn [index_levels]. set (c0 := blockBloomsChunkId 0 _). set (i0 := Z.to_nat (n mod _)). set (c1 := blockBloomsChunkId _ _). set (i1 := Z.to_nat (_ mod _)).
  set (db1 := <[c0 := _]> db). set (db2 := <[c1 := _]> db1). assert (absorbed db2 c0 i0 b) as H0 by (apply absorbed_keep, absorbed_insert). assert (absorbed db2 c1 i1 b) as H1 by apply absorbed_insert.
  rewrite (absorbed_same _ _ _ _ H0). by apply absorbed_same.
Qed.

Section runs.
Context {St : Type} (api : StateApi St) (cfg : ChainConfig).
Context (sha3 : list rlp_item -> Z) (bloom_sha3 : Z -> list Z) (hash256 : gmap Z (list Z) -> Z).
Context (trx_rlp : ChainTrx -> list Z) (receipt_rlp : TransactionReceipt -> list Z) (system_trx_hash : EVMTransaction -> Z).
Context (finalize_method should_finalize_method : list Z).
Context (iter : gmap Z BlockStats -> list (Z * BlockStats)) (dpos : Z -> Z).
Context (sha3_inj : Inj (=) (=) sha3) (evm_answers : forall s b l, length (execute_transactions api s b l).2 = length l).
Context (cache_room : 1 <= final_chain_cache_in_blocks cfg).
Context (frequencies_ok : forall b f, rewards_distribution_frequency (rewards_cfg cfg) !! b = Some f -> 0 <= f).

Abbreviation getBlockHeader := (getBlockHeader cfg sha3).
Abbreviation blockHeader := (@blockHeader St cfg sha3).
Abbreviation prepare := (prepare api cfg sha3 bloom_sha3 hash256 trx_rlp receipt_rlp system_trx_hash finalize_method should_finalize_method iter dpos).
Abbreviation finalize_ := (finalize_ api cfg sha3 bloom_sha3 hash256 trx_rlp receipt_rlp system_trx_hash finalize_method should_finalize_method iter dpos).
Abbreviation newFinalChain := (newFinalChain api cfg sha3 bloom_sha3 hash256 trx_rlp receipt_rlp).
Abbreviation restart_chain := (restart_chain api cfg sha3 bloom_sha3 hash256 trx_rlp receipt_rlp).
Abbreviation crash_finalize := (crash_finalize api cfg sha3 bloom_sha3 hash256 trx_rlp receipt_rlp system_trx_hash finalize_method should_finalize_method iter dpos).
Abbreviation prepare_spec := (prepare_spec api cfg sha3 bloom_sha3 hash256 trx_rlp receipt_rlp system_trx_hash finalize_method should_finalize_method iter dpos).
Abbreviation system_spec := (system_spec api cfg system_trx_hash finalize_method should_finalize_method).
Abbreviation fc_ok := (fc_ok cfg sha3 bloom_sha3).
Abbreviation stats_ok := (stats_ok (rewards_cfg cfg)).

(** ** Runs *)

(** The data of a period is written before the period is finalized. *)
Definition save_period (fc : FinalChain St) (p : ChainPeriod) : FinalChain St :=
  let db := fc_db fc in
  mkFinalChain (mkFinalDb (final_chain_blk_by_number db) (final_chain_blk_hash_by_number db) (final_chain_blk_number_by_hash db) (final_chain_receipt_by_period db)
    (final_chain_log_blooms_index db) (last_number db) (executed_blk_count db) (executed_trx_count db) (proposal_period_levels_map db) (period_system_transactions db)
    (system_transaction db) (trx_period db) (<[cp_period (cd_block p) := p]> (period_data_column db)))
    (fc_state fc) (rewards_ fc) (num_executed_dag_blk_ fc) (num_executed_trx_ fc) (block_headers_cache_ fc) (last_block_number_ fc).

Inductive fc_reach : FinalChain St -> Prop :=
| reach_genesis db s fc : last_number db = None -> newFinalChain db (mkStateDb 0 {[ 0 := s ]}) ∅ = Done fc -> fc_reach fc
| reach_save fc p : fc_reach fc -> last_block_number_ fc < cp_period (cd_block p) -> fc_reach (save_period fc p)
| reach_finalize fc p hashes bpy anchor fc' : fc_reach fc -> next_period fc p -> finalize_ fc p hashes bpy anchor = Done fc' -> fc_reach fc'
| reach_crash fc at_ p hashes bpy anchor fc' : fc_reach fc -> next_period fc p -> crash_finalize at_ fc p hashes bpy anchor = Done fc' -> fc_reach fc'
| reach_restart fc fc' : fc_reach fc -> restart_chain fc = Done fc' -> fc_reach fc'
| reach_query fc k : fc_reach fc -> k <= last_block_number_ fc -> fc_reach (blockHeader fc (Some k)).1.

Lemma genesis_ok db s : last_number db = None -> exists fc, newFinalChain db (mkStateDb 0 {[ 0 := s ]}) ∅ = Done fc /\ fc_ok fc /\ last_block_number_ fc = 0 /\ rewards_ fc = mkStats ∅ ∅.
Proof using sha3_inj cache_room.
  intros Hl. unfold FinalChain.newFinalChain. rewrite Hl. cbn [committed blk_num]. rewrite lookup_singleton_eq.
  destruct (appendBlock_header sha3 bloom_sha3 hash256 trx_rlp receipt_rlp db (makeGenesisHeader cfg sha3 (state_root_of api s)) [] []) as [[db' h]| |] eqn:Ea; [|done|done]. cbn [obind].
  apply (append_effect cfg sha3 bloom_sha3 hash256 trx_rlp receipt_rlp sha3_inj db (-1)) in Ea; [|split; intros; lia|done|done|done|intros; lia|].
  2: { intros d. unfold FinalChain.getBlockHeader. cbn [final_chain_blk_by_number]. change (-1 + 1) with 0. by rewrite lookup_insert_eq. }
  change (-1 + 1) with 0 in Ea. destruct Ea as (A1 & A2 & A3 & A4 & _ & A6 & _). eexists. split; [done|].
  destruct (append_cached cfg sha3 db db' (-1) (mkValueCache (final_chain_cache_in_blocks cfg) ∅) h) as [C1 C2]; [by apply empty_cached|done|done|]. change (-1 + 1) with 0 in C1, C2.
  split_and!; [|done|done]. split; cbn; rewrite ?A3; [lia|done|done| |done|done|done]. intros k Hk. replace k with 0 by lia. rewrite lookup_singleton_eq. by eexists.
Qed.

Lemma save_ok fc p : fc_ok fc -> last_block_number_ fc < cp_period (cd_block p) -> fc_ok (save_period fc p).
Proof using.
  intros Hfc Hp. pose proof Hfc as []. assert (forall k, k <= last_block_number_ fc -> period_data_column (fc_db (save_period fc p)) !! k = period_data_column (fc_db fc) !! k) as Hsame.
  { intros k Hk. cbn. rewrite lookup_insert_ne by lia. done. }
  split; try done; cbn.
  - apply (chain_ok_same cfg sha3 bloom_sha3 (fc_db fc)); [done| |done]. intros k Hk. apply Hsame. lia.
  - apply (cached_db cfg sha3 (fc_db fc)); [done|]. intros k Hk. apply getBlockHeader_ext; [done|]. by apply Hsame.
Qed.

(** The statistics that were computed. *)
Lemma prepare_spec_rewards db rw blocks trxs s h new_blk hashes bpy anchor p : prepare_spec db rw blocks trxs s h new_blk hashes bpy anchor = Done p ->
  exists gas out, processStats (rewards_cfg cfg) dpos iter rw (reward_period new_blk) bpy gas = Done (pr_rewards p, out).
Proof using.
  unfold FinalChainInv.prepare_spec. cbn zeta. destruct (execute_transactions _ _ _ _) as [s1 results]. destruct (processStats _ _ _ _ _ _ _) as [[stats distributed]| |] eqn:E; cbn [obind]; [|done|done].
  destruct (distribute_rewards _ _ _) as [s2 [root reward]]. destruct (appendBlock_header _ _ _ _ _ _ _ _ _) as [[db' header]| |]; cbn [obind]; [|done|done]. intros Ep. injection Ep as <-. by exists (er_gas_used <$> results), distributed.
Qed.

(** What a finalization prepares in a consistent chain. *)
Lemma prepare_effect fc p hashes bpy anchor fc1 pr : fc_ok fc -> stats_ok (last_block_number_ fc) (rewards_ fc) -> next_period fc p -> prepare fc p hashes bpy anchor = Done (fc1, pr) ->
  exists c s h, fc1 = with_cache fc c /\ fc_ok fc1 /\ prepared_ok cfg sha3 bloom_sha3 (fc_db fc) (last_block_number_ fc) pr /\
    committed (fc_state fc) !! last_block_number_ fc = Some s /\ getBlockHeader (fc_db fc) (last_block_number_ fc) = Some h /\
    prepare_spec (fc_db fc) (rewards_ fc) (num_executed_dag_blk_ fc) (num_executed_trx_ fc) s h p hashes bpy anchor = Done pr /\
    stats_ok (last_block_number_ fc + 1) (clear (rewards_cfg cfg) (pr_rewards pr) (last_block_number_ fc + 1)) /\
    stats_ok (last_block_number_ fc + 1) (recoverFromDb (rewards_cfg cfg) (mkStats ∅ (block_rewards_stats (pr_rewards pr))) (last_block_number_ fc + 1)) /\
    next_column (rewards_ fc) (pr_rewards pr).
Proof using sha3_inj frequencies_ok.
  intros Hfc Hst Hnext. pose proof (fo_range _ _ _ _ Hfc) as Hr. destruct (fo_states _ _ _ _ Hfc (last_block_number_ fc) ltac:(lia)) as [s Hs]. destruct (last_header cfg sha3 bloom_sha3 fc Hfc) as (h & _ & Hb). pose proof (bo_header _ _ _ _ _ _ Hb) as Hh.
  destruct (prepare_unfold api cfg sha3 bloom_sha3 hash256 trx_rlp receipt_rlp system_trx_hash finalize_method should_finalize_method iter dpos fc p hashes bpy anchor s h Hfc Hnext Hs Hh) as (c & -> & Hc).
  destruct (prepare_spec _ _ _ _ _ _ _ _ _ _) as [pr'| |] eqn:Ep; cbn [obind]; [|done|done]. intros E. injection E as <- <-. exists c, s, h.
  destruct (prepare_spec_rewards _ _ _ _ _ _ _ _ _ _ _ Ep) as (gas & out & Hproc). destruct (process_ok (rewards_cfg cfg) dpos iter frequencies_ok (last_block_number_ fc) _ (reward_period p) _ _ _ _ (proj1 Hr) Hst (proj1 (proj2 Hnext)) Hproc) as (R1 & R2 & R3).
  split_and!; try done. by eapply prepared_effect.
Qed.

Lemma reach_ok fc : fc_reach fc -> fc_ok fc /\ stats_ok (last_block_number_ fc) (rewards_ fc).
Proof using sha3_inj cache_room frequencies_ok.
  induction 1 as [db s fc Hl Hn|fc p _ [Hfc Hst] Hp|fc p hashes bpy anchor fc' _ [Hfc Hst] Hp Hf|fc at_ p hashes bpy anchor fc' _ [Hfc Hst] Hp Hf|fc fc' _ [Hfc Hst] Hf|fc k _ [Hfc Hst] Hk].
  - destruct (genesis_ok db s Hl) as (fc0 & E & H1 & H2 & H3). rewrite Hn in E. injection E as <-. split; [done|]. rewrite H2, H3. split; cbn; [by rewrite fmap_empty|done].
  - split; [by apply save_ok|done].
  - unfold FinalChain.finalize_ in Hf. destruct (prepare fc p hashes bpy anchor) as [[fc1 pr]| |] eqn:Ep; cbn [obind] in Hf; [|done|done]. injection Hf as <-.
    destruct (prepare_effect _ _ _ _ _ _ _ Hfc Hst Hp Ep) as (c & s & h & -> & Hc & Hpo & _ & _ & _ & R1 & _). split; [by eapply finish_ok|]. cbn. rewrite (po_number _ _ _ _ _ _ Hpo). destruct Hp as (_ & -> & _). done.
  - unfold FinalChain.crash_finalize in Hf. destruct (prepare fc p hashes bpy anchor) as [[fc1 pr]| |] eqn:Ep; cbn [obind] in Hf; [|done|done].
    destruct (prepare_effect _ _ _ _ _ _ _ Hfc Hst Hp Ep) as (c & s & h & -> & Hc & Hpo & _ & _ & _ & R1 & R2 & R3). destruct Hp as (Hlt & Hpp & Hper). pose proof (fo_range _ _ _ _ Hfc) as Hr. pose proof (fo_state _ _ _ _ Hfc) as Hbn.
    destruct at_; unfold FinalChain.restart_chain in Hf; cbn in Hf.
    + destruct (start_ok api cfg sha3 bloom_sha3 hash256 trx_rlp receipt_rlp cache_room (fc_db fc) (fc_state fc) (block_rewards_stats (rewards_ fc)) (last_block_number_ fc)) as (fc2 & E & S1 & S2 & _ & _ & _ & S6);
        [rewrite Hbn; apply (fo_chain _ _ _ _ Hfc)|lia|rewrite Hbn; apply (fo_states _ _ _ _ Hfc)|apply (fo_last _ _ _ _ Hfc)|by left|]. rewrite Hf in E. injection E as <-. split; [done|]. rewrite S2, S6, Hbn. apply (recover_ok _ _ (rewards_ fc)); [done|by left].
    + destruct (start_ok api cfg sha3 bloom_sha3 hash256 trx_rlp receipt_rlp cache_room (pr_db pr) (fc_state fc) (block_rewards_stats (pr_rewards pr)) (last_block_number_ fc + 1)) as (fc2 & E & S1 & S2 & _ & _ & _ & S6);
        [rewrite Hbn; apply (chain_ok_less _ _ _ _ (last_block_number_ fc + 1)); [apply (po_chain _ _ _ _ _ _ Hpo)|lia]|lia|rewrite Hbn; apply (fo_states _ _ _ _ Hfc)|apply (po_last _ _ _ _ _ _ Hpo)
        |right; rewrite Hbn; split_and!; [done|done|rewrite (po_periods _ _ _ _ _ _ Hpo), Hper; by eexists]|]. rewrite Hf in E. injection E as <-. split; [done|]. rewrite S2, S6, Hbn. by apply (recover_ok _ _ (rewards_ fc)).
    + destruct (start_ok api cfg sha3 bloom_sha3 hash256 trx_rlp receipt_rlp cache_room (pr_db pr) (mkStateDb (blk_num (fc_state fc) + 1) (<[blk_num (fc_state fc) + 1 := pr_state pr]> (committed (fc_state fc)))) (block_rewards_stats (pr_rewards pr)) (last_block_number_ fc + 1)) as (fc2 & E & S1 & S2 & _ & _ & _ & S6); cbn [blk_num committed].
      * rewrite Hbn. apply (po_chain _ _ _ _ _ _ Hpo).
      * lia.
      * rewrite Hbn. intros k Hk. destruct (decide (k = last_block_number_ fc + 1)) as [->|]; [rewrite lookup_insert_eq; by eexists|]. rewrite lookup_insert_ne by lia. apply (fo_states _ _ _ _ Hfc). lia.
      * apply (po_last _ _ _ _ _ _ Hpo).
      * left. by rewrite Hbn.
      * rewrite Hf in E. injection E as <-. split; [done|]. rewrite S2, S6. cbn [blk_num]. by rewrite Hbn.
  - unfold FinalChain.restart_chain in Hf. pose proof (fo_range _ _ _ _ Hfc) as Hr. pose proof (fo_state _ _ _ _ Hfc) as Hbn.
    destruct (start_ok api cfg sha3 bloom_sha3 hash256 trx_rlp receipt_rlp cache_room (fc_db fc) (fc_state fc) (block_rewards_stats (rewards_ fc)) (last_block_number_ fc)) as (fc2 & E & S1 & S2 & _ & _ & _ & S6);
      [rewrite Hbn; apply (fo_chain _ _ _ _ Hfc)|lia|rewrite Hbn; apply (fo_states _ _ _ _ Hfc)|apply (fo_last _ _ _ _ Hfc)|by left|]. rewrite Hf in E. injection E as <-. split; [done|]. rewrite S2, S6, Hbn. apply (recover_ok _ _ (rewards_ fc)); [done|by left].
  - destruct (blockHeader_effect cfg sha3 bloom_sha3 fc k Hfc Hk) as (c & -> & Hc). done.
Qed.


(** ** Crashes between the commits *)

Definition same_but_counts (db db' : FinalDb) : Prop := db' = with_counts db (executed_blk_count db') (executed_trx_count db').

Lemma with_counts_twice db a b a' b' : with_counts (with_counts db a b) a' b' = with_counts db a' b'.
Proof using. done. Qed.

(** The block is written again over itself. *)
Lemma append_again db header transactions receipts db1 h1 m a b : appendBlock_header sha3 bloom_sha3 hash256 trx_rlp receipt_rlp db header transactions receipts = Done (db1, h1) ->
  forall db2, final_chain_blk_by_number db2 = final_chain_blk_by_number db1 -> final_chain_blk_hash_by_number db2 = final_chain_blk_hash_by_number db1 ->
  final_chain_blk_number_by_hash db2 = final_chain_blk_number_by_hash db1 -> final_chain_receipt_by_period db2 = final_chain_receipt_by_period db1 ->
  final_chain_log_blooms_index db2 = final_chain_log_blooms_index db1 ->
  exists db3, appendBlock_header sha3 bloom_sha3 hash256 trx_rlp receipt_rlp (with_last (with_counts db2 a b) m) header transactions receipts = Done (db3, h1) /\ db3 = with_counts (with_last db2 (number h1)) a b.
Proof using.
  intros E db2 E1 E2 E3 E4 E5. unfold FinalChain.appendBlock_header in *. destruct (FinalChain.trie_loop _ _ _ _ _ _ _ _ _) as [[[t1 t2] bl]| |]; cbn [obind] in *; [|done|done]. injection E as <- <-. cbn in E1, E2, E3, E4, E5.
  eexists. split; [done|]. unfold with_last, with_counts. cbn. f_equal.
  - rewrite E1. by rewrite insert_insert_eq.
  - rewrite E2. by rewrite insert_insert_eq.
  - rewrite E3. by rewrite insert_insert_eq.
  - rewrite E4. by rewrite insert_insert_eq.
  - rewrite E5. apply index_block_idemp.
Qed.

(** The counts after the recovery of one block. *)
Definition recovered_blocks (db : FinalDb) (p : ChainPeriod) : Z :=
  if bool_decide (cd_transactions p = []) then executed_blk_count db else u64 (executed_blk_count db - Z.of_nat (length (cd_dag_blocks p))).
Definition recovered_trxs (db : FinalDb) (n : Z) (p : ChainPeriod) : Z :=
  u64 ((if bool_decide (cd_transactions p = []) then executed_trx_count db else u64 (executed_trx_count db - Z.of_nat (length (cd_transactions p)))) -
    Z.of_nat (length (default [] (period_system_transactions db !! n)))).

Lemma start_between db sdb rw n p : blk_num sdb = n -> 0 <= n -> n + 1 < 2 ^ 64 -> last_number db = Some (n + 1) -> period_data_column db !! (n + 1) = Some p ->
  exists fc, newFinalChain db sdb rw = Done fc /\ fc_db fc = with_last (with_counts db (recovered_blocks db p) (recovered_trxs db (n + 1) p)) n /\
    num_executed_dag_blk_ fc = recovered_blocks db p /\ num_executed_trx_ fc = recovered_trxs db (n + 1) p.
Proof using.
  intros <- Hn Hlt Hl Hp. unfold FinalChain.newFinalChain. rewrite Hl. destruct (Z.eqb_spec (blk_num sdb + 1) (blk_num sdb)); [lia|].
  replace (Z.to_nat (blk_num sdb + 1 + 3)) with (S (S (Z.to_nat (blk_num sdb + 2)))) by lia. cbn [recover_counts].
  destruct (Z.eqb_spec (blk_num sdb + 1) (blk_num sdb)); [lia|]. rewrite Hp. assert (u64 (blk_num sdb + 1 - 1) = blk_num sdb) as -> by (replace (blk_num sdb + 1 - 1) with (blk_num sdb) by lia; apply wrap_id; unfold in_range, modulus; lia).
  unfold recovered_blocks, recovered_trxs. destruct (bool_decide (cd_transactions p = [])); rewrite Z.eqb_refl; cbn [obind]; by eexists.
Qed.

Lemma system_spec_short s h n : (length (system_spec s h n) <= 1)%nat.
Proof using. unfold FinalChainInv.system_spec. repeat (case_match; simpl; try lia). Qed.

(** The other rows are written again over themselves. *)
Lemma level_again db l period a b : with_level (with_counts (with_level db l period) a b) l period = with_counts (with_level db l period) a b.
Proof using. unfold with_level, with_counts. cbn [proposal_period_levels_map]. by rewrite insert_insert_eq. Qed.
Lemma system_again db period position t a b :
  with_system_transactions (with_counts (with_system_transactions db period position [t]) a b) period position [t] = with_counts (with_system_transactions db period position [t]) a b.
Proof using. unfold with_system_transactions, with_counts. cbn [period_system_transactions system_transaction trx_period foldl system_locations]. by rewrite !insert_insert_eq. Qed.
Lemma counts_level db l period a b : with_counts (with_level db l period) a b = with_level (with_counts db a b) l period.
Proof using. done. Qed.
Lemma counts_system db period position sys a b : with_counts (with_system_transactions db period position sys) a b = with_system_transactions (with_counts db a b) period position sys.
Proof using. done. Qed.
Lemma level_system db l p period position sys : with_level (with_system_transactions db period position sys) l p = with_system_transactions (with_level db l p) period position sys.
Proof using. done. Qed.

Lemma rest_again db hashes bl tr anchor period position sys a b bl' tr' : (length sys <= 1)%nat ->
  let db1 := rest_of_batch cfg db hashes bl tr anchor period position sys in
  rest_of_batch cfg (with_counts db1 a b) hashes bl' tr' anchor period position sys = with_counts db1 (if bool_decide (hashes = []) then a else bl') (if bool_decide (hashes = []) then b else tr').
Proof using.
  intros Hs. cbn zeta. unfold rest_of_batch. cbn zeta. set (X := if bool_decide (hashes = []) then db else with_counts db bl tr).
  assert (forall D, (if bool_decide (hashes = []) then with_counts D a b else with_counts (with_counts D a b) bl' tr') =
    with_counts D (if bool_decide (hashes = []) then a else bl') (if bool_decide (hashes = []) then b else tr')) as Hcounts by (intros D; by destruct (bool_decide (hashes = []))).
  destruct sys as [|t [|]]; [| |simpl in Hs; lia]; rewrite Hcounts; (destruct anchor as [level|]; [generalize (u64 (level + kMaxLevelsPerPeriod cfg)); intros l|]).
  - apply level_again.
  - done.
  - rewrite <- (level_system X l period), level_again, (level_system X l period). apply system_again.
  - apply system_again.
Qed.

(** The node after the restart. *)
Record between (fc fc2 : FinalChain St) (pr : @Prepared St) (p : ChainPeriod) : Prop := {
  bt_reach : fc_reach fc2;
  bt_next : next_period fc2 p;
  bt_last : last_block_number_ fc2 = last_block_number_ fc;
  bt_state : fc_state fc2 = fc_state fc;
  bt_rewards : rewards_ fc2 = recoverFromDb (rewards_cfg cfg) (mkStats ∅ (block_rewards_stats (pr_rewards pr))) (last_block_number_ fc);
  bt_db : fc_db fc2 = with_last (with_counts (pr_db pr) (recovered_blocks (pr_db pr) p) (recovered_trxs (pr_db pr) (last_block_number_ fc + 1) p)) (last_block_number_ fc);
  bt_blocks : num_executed_dag_blk_ fc2 = recovered_blocks (pr_db pr) p;
  bt_trxs : num_executed_trx_ fc2 = recovered_trxs (pr_db pr) (last_block_number_ fc + 1) p;
  bt_header : getBlockHeader (fc_db fc2) (last_block_number_ fc) = getBlockHeader (fc_db fc) (last_block_number_ fc);
}.

Lemma crash_effect fc p hashes bpy anchor fc1 pr : fc_reach fc -> next_period fc p -> prepare fc p hashes bpy anchor = Done (fc1, pr) ->
  exists fc2, crash_finalize BetweenCommits fc p hashes bpy anchor = Done fc2 /\ between fc fc2 pr p.
Proof using sha3_inj cache_room frequencies_ok.
  intros Hreach Hnext Ep. destruct (reach_ok fc Hreach) as [Hfc Hst]. pose proof (fo_range _ _ _ _ Hfc) as Hr. pose proof Hnext as (Hlt & Hpp & Hper). pose proof (fo_state _ _ _ _ Hfc) as Hbn.
  destruct (prepare_effect _ _ _ _ _ _ _ Hfc Hst Hnext Ep) as (c & s & h & -> & Hc & Hpo & _).
  destruct (start_between (pr_db pr) (fc_state fc) (block_rewards_stats (pr_rewards pr)) (last_block_number_ fc) p Hbn (proj1 Hr) Hlt (po_last _ _ _ _ _ _ Hpo)) as (fc2 & E2 & Hdb2 & Hb2 & Ht2); [by rewrite (po_periods _ _ _ _ _ _ Hpo)|].
  assert (crash_finalize BetweenCommits fc p hashes bpy anchor = Done fc2) as Ecr by (unfold FinalChain.crash_finalize; rewrite Ep; exact E2). exists fc2. split; [done|].
  destruct (start_ok api cfg sha3 bloom_sha3 hash256 trx_rlp receipt_rlp cache_room (pr_db pr) (fc_state fc) (block_rewards_stats (pr_rewards pr)) (last_block_number_ fc + 1)) as (fc2' & E2' & _ & Hl2 & Hs2 & Hsb & Hpd & Hrw2);
    [rewrite Hbn; apply (chain_ok_less _ _ _ _ (last_block_number_ fc + 1)); [apply (po_chain _ _ _ _ _ _ Hpo)|lia]|lia|rewrite Hbn; apply (fo_states _ _ _ _ Hfc)|apply (po_last _ _ _ _ _ _ Hpo)
    |right; rewrite Hbn; split_and!; [done|done|rewrite (po_periods _ _ _ _ _ _ Hpo), Hper; by eexists]|].
  rewrite E2 in E2'. injection E2' as <-. rewrite Hbn in Hl2, Hrw2.
  split; try done; [exact (reach_crash fc BetweenCommits p hashes bpy anchor fc2 Hreach Hnext Ecr)|split; [lia|split; [lia|]]; by rewrite Hl2, Hpd, (po_periods _ _ _ _ _ _ Hpo)|].
  rewrite <- (po_old _ _ _ _ _ _ Hpo (last_block_number_ fc)) by lia. apply getBlockHeader_ext; [by rewrite (sb_rows _ _ Hsb)|by rewrite Hpd].
Qed.

(** The period is prepared again. *)
Lemma spec_again (fc : FinalChain St) s h p hashes bpy anchor pr n a b : stats_ok n (rewards_ fc) -> cp_period (cd_block p) = n + 1 -> aspen_block_num_part_one (rewards_cfg cfg) <= n + 1 -> 
  prepare_spec (fc_db fc) (rewards_ fc) (num_executed_dag_blk_ fc) (num_executed_trx_ fc) s h p hashes bpy anchor = Done pr -> last_number (pr_db pr) = Some (number (pr_header pr)) ->
  exists pr3, prepare_spec (with_last (with_counts (pr_db pr) a b) n) (recoverFromDb (rewards_cfg cfg) (mkStats ∅ (block_rewards_stats (pr_rewards pr))) n) a b s h p hashes bpy anchor = Done pr3 /\
    same_but_counts (pr_db pr) (pr_db pr3) /\ pr_state pr3 = pr_state pr /\ pr_header pr3 = pr_header pr /\
    block_rewards_stats (clear (rewards_cfg cfg) (pr_rewards pr3) (n + 1)) = block_rewards_stats (clear (rewards_cfg cfg) (pr_rewards pr) (n + 1)).
Proof using frequencies_ok.
  intros Hst Hpp Haspen. unfold FinalChainInv.prepare_spec. cbn zeta. destruct (execute_transactions _ _ _ _) as [s1 results].
  destruct (processStats _ _ _ (rewards_ fc) _ _ _) as [[stats distributed]| |] eqn:Eproc; cbn [obind]; [|done|done].
  destruct (distribute_rewards api s1 (stored <$> distributed.*2)) as [s2 [root reward]] eqn:Ed.
  destruct (appendBlock_header sha3 bloom_sha3 hash256 trx_rlp receipt_rlp (fc_db fc) _ _ _) as [[db1 h1]| |] eqn:Ea; cbn [obind]; [|done|done]. intros E. injection E as <-. cbn [pr_db pr_rewards pr_header pr_state]. intros Hlast.
  destruct (process_again (rewards_cfg cfg) dpos iter frequencies_ok n _ (reward_period p) _ _ _ _ Hst Hpp Haspen Eproc) as (st3 & out3 & -> & Hout3 & Hcol3). cbn [obind]. rewrite Hout3, Ed.
  match goal with |- context [with_last (with_counts ?D _ _) _] => set (R := D) in * end. pose proof (batch_same cfg db1 hashes) as Hsame. destruct (Hsame _ _ _ _ _ _ : same_blocks db1 R /\ _) as ([E1 E2 E3 E4] & _ & _).
  destruct (append_again _ _ _ _ _ _ n a b Ea R E1 E2 E3 E4) as (db3 & -> & ->); [unfold R, rest_of_batch; by destruct (system_spec s h _), anchor, (bool_decide (hashes = []))|]. cbn [obind].
  eexists. split; [done|]. cbn [pr_db pr_state pr_header pr_rewards]. split_and!; try done.
  assert (with_last R (number h1) = R) as -> by (unfold with_last; rewrite <- Hlast; by destruct R). unfold R. rewrite rest_again by apply system_spec_short. done.
Qed.


(** C17: The counts after a crash between the commits.  If the period has DAG blocks and transactions, they are the counts before the period.  The DAG blocks
    of a period without transactions stay counted, and of a period without DAG blocks the system transactions are subtracted although they were not counted;
    with a count of 0 the subtraction wraps. *)
Theorem recovered_counts fc p bpy anchor fc2 :
  fc_reach fc -> next_period fc p -> num_executed_dag_blk_ fc = executed_blk_count (fc_db fc) -> num_executed_trx_ fc = executed_trx_count (fc_db fc) ->
  in_range 64 (executed_blk_count (fc_db fc)) -> in_range 64 (executed_trx_count (fc_db fc)) -> period_system_transactions (fc_db fc) !! (last_block_number_ fc + 1) = None ->
  crash_finalize BetweenCommits fc p (cd_dag_blocks p).*1 bpy anchor = Done fc2 ->
  let sys := length (default [] (period_system_transactions (fc_db fc2) !! (last_block_number_ fc + 1))) in
  num_executed_dag_blk_ fc2 = (if bool_decide (cd_transactions p = []) then u64 (num_executed_dag_blk_ fc + Z.of_nat (length (cd_dag_blocks p))) else num_executed_dag_blk_ fc) /\
  num_executed_trx_ fc2 = (if bool_decide (cd_dag_blocks p = []) then u64 (num_executed_trx_ fc - Z.of_nat (length (cd_transactions p) + sys)) else num_executed_trx_ fc).
Proof using sha3_inj cache_room frequencies_ok.
  intros Hreach Hnext HB HT RB RT Hnone Hcr. destruct (reach_ok fc Hreach) as [Hfc Hst]. cbn zeta.
  destruct (prepare fc p (cd_dag_blocks p).*1 bpy anchor) as [[fc1 pr]| |] eqn:Ep; [|by unfold FinalChain.crash_finalize in Hcr; rewrite Ep in Hcr..].
  destruct (prepare_effect _ _ _ _ _ _ _ Hfc Hst Hnext Ep) as (c & s & h & -> & _ & _ & _ & _ & Hspec & _). destruct (crash_effect _ _ _ _ _ _ _ Hreach Hnext Ep) as (fc2' & Ecr & Hbt).
  assert (fc2' = fc2) as -> by (rewrite Hcr in Ecr; by injection Ecr). rewrite (bt_blocks _ _ _ _ Hbt), (bt_trxs _ _ _ _ Hbt), (bt_db _ _ _ _ Hbt), HB, HT. destruct Hnext as (_ & Hpp & _). cbn [with_last with_counts period_system_transactions].
  revert Hspec. unfold FinalChainInv.prepare_spec. cbn zeta. destruct (execute_transactions _ _ _ _) as [s1 results]. destruct (processStats _ _ _ _ _ _ _) as [[stats distributed]| |]; cbn [obind]; [|done|done].
  destruct (distribute_rewards _ _ _) as [s2 [root reward]]. destruct (appendBlock_header _ _ _ _ _ _ _ _ _) as [[db1 h1]| |] eqn:Ea; cbn [obind]; [|done|done].
  assert (executed_blk_count db1 = executed_blk_count (fc_db fc) /\ executed_trx_count db1 = executed_trx_count (fc_db fc) /\ period_system_transactions db1 = period_system_transactions (fc_db fc)) as (E1 & E2 & E3).
  { unfold FinalChain.appendBlock_header in Ea. destruct (FinalChain.trie_loop _ _ _ _ _ _ _ _ _) as [[[t1 t2] bl]| |]; cbn [obind] in Ea; [|done|done]. injection Ea as <- _. done. }
  intros E. injection E as <-. cbn [pr_db]. rewrite Hpp. set (sys := system_spec s h (last_block_number_ fc + 1)). rewrite HB, HT. set (B := executed_blk_count (fc_db fc)) in *. set (T := executed_trx_count (fc_db fc)) in *.
  match goal with |- context [rest_of_batch ?a ?b ?c ?d ?e ?f ?g ?i ?j] => set (R := rest_of_batch a b c d e f g i j) end.
  assert (length (default [] (period_system_transactions R !! (last_block_number_ fc + 1))) = length sys) as Hsys.
  { unfold R, rest_of_batch. destruct sys as [|t sys']; [|cbn [with_system_transactions period_system_transactions]; rewrite lookup_insert_eq; simpl; by rewrite length_fmap]. destruct anchor, (bool_decide _); cbn; by rewrite E3, Hnone. }
  assert (executed_blk_count R = (if bool_decide (cd_dag_blocks p = []) then B else u64 (B + Z.of_nat (length (cd_dag_blocks p)))) /\
    executed_trx_count R = (if bool_decide (cd_dag_blocks p = []) then T else u64 (T + Z.of_nat (length (cd_transactions p ++ sys))))) as [HRB HRT].
  { assert (bool_decide ((cd_dag_blocks p).*1 = []) = bool_decide (cd_dag_blocks p = [])) as Hb by (by destruct (cd_dag_blocks p)). unfold R, rest_of_batch. rewrite Hb, length_fmap. destruct sys, anchor, (bool_decide (cd_dag_blocks p = [])); done. }
  unfold recovered_blocks, recovered_trxs. rewrite Hsys, HRB, HRT, length_app. clear - RB RT. set (d := length (cd_dag_blocks p)). set (t := length (cd_transactions p)). set (y := length sys).
  assert (forall x k, in_range 64 x -> u64 (u64 (x + k) - k) = x) as Hback by (intros x k Hx; unfold Z.sub; rewrite wrap_add_l; replace (x + k + - k) with x by lia; by apply wrap_id).
  assert (cd_transactions p = [] -> t = 0%nat) as Ht by (unfold t; by intros ->). assert (cd_dag_blocks p = [] -> d = 0%nat) as Hd by (unfold d; by intros ->).
  split.
  - destruct (bool_decide_reflect (cd_transactions p = [])), (bool_decide_reflect (cd_dag_blocks p = [])); [rewrite Hd by done; rewrite Z.add_0_r; symmetry; by apply wrap_id|done|rewrite Hd by done; rewrite Z.sub_0_r; by apply wrap_id|by apply Hback].
  - destruct (bool_decide_reflect (cd_transactions p = [])), (bool_decide_reflect (cd_dag_blocks p = [])).
    + rewrite Ht by done. done.
    + rewrite Ht by done. cbn [Nat.add]. by apply Hback.
    + unfold Z.sub. rewrite wrap_add_l. f_equal. lia.
    + unfold Z.sub at 2. rewrite wrap_add_l. unfold Z.sub. rewrite wrap_add_l. replace (T + Z.of_nat (t + y) + - Z.of_nat t + - Z.of_nat y) with T by lia. by apply wrap_id.
Qed.

(** ** Pruning *)

Abbreviation prune_loop := (prune_loop cfg sha3).
Abbreviation chain_ok := (chain_ok cfg sha3 bloom_sha3).

(** The blocks 1 to [j] are removed, the others stay. *)
Record pruned_to (db0 db db' : FinalDb) (j : Z) : Prop := {
  pt_rows : forall k, final_chain_blk_by_number db' !! k = if decide (1 <= k <= j) then None else final_chain_blk_by_number db !! k;
  pt_hashes : forall k, final_chain_blk_hash_by_number db' !! k = if decide (1 <= k <= j) then None else final_chain_blk_hash_by_number db !! k;
  pt_gone : forall k h, 1 <= k <= j -> getBlockHeader db0 k = Some h -> final_chain_blk_number_by_hash db' !! bh_hash h = None;
  pt_kept : forall x, (forall k h, 1 <= k <= j -> getBlockHeader db0 k = Some h -> bh_hash h <> x) -> final_chain_blk_number_by_hash db' !! x = final_chain_blk_number_by_hash db !! x;
  pt_periods : period_data_column db' = period_data_column db;
}.

Lemma prune_loop_effect db0 n j : chain_ok db0 n -> n < 2 ^ 64 -> 0 <= j <= n -> forall fuel db, (Z.to_nat j < fuel)%nat -> pruned_to db0 db (prune_loop fuel db0 db (getBlockHeader db0 j)) j.
Proof using.
  intros Hch Hn Hj. pose proof (proj1 Hj) as Hj0. revert Hj. pattern j. apply natlike_ind; [| |exact Hj0].
  - intros Hj fuel db Hf. destruct fuel as [|fuel]; [lia|]. cbn [FinalChain.prune_loop]. destruct (ch_blocks _ _ _ _ _ Hch 0 ltac:(lia)) as [h Hb]. rewrite (bo_header _ _ _ _ _ _ Hb), (bo_number _ _ _ _ _ _ Hb).
    split; cbn; [intros k; by rewrite decide_False by lia|intros k; by rewrite decide_False by lia|intros; lia|done|done].
  - clear j Hj0. intros j Hj0 IH Hj fuel db Hf. destruct fuel as [|fuel]; [lia|]. cbn [FinalChain.prune_loop]. destruct (ch_blocks _ _ _ _ _ Hch (Z.succ j) ltac:(lia)) as [h Hb].
    rewrite (bo_header _ _ _ _ _ _ Hb). pose proof (bo_number _ _ _ _ _ _ Hb) as En. rewrite En. destruct (Z.leb_spec (Z.succ j) 0); [lia|].
    assert (u64 (Z.succ j - 1) = j) as -> by (replace (Z.succ j - 1) with j by lia; apply wrap_id; unfold in_range, modulus; lia).
    destruct (IH ltac:(lia) fuel (remove_block db h) ltac:(lia)) as [P1 P2 P3 P4 P5]. cbn [remove_block final_chain_blk_by_number final_chain_blk_hash_by_number final_chain_blk_number_by_hash period_data_column] in *. rewrite En in P1, P2. split.
    + intros k. rewrite P1, lookup_delete. repeat case_decide; try done; lia.
    + intros k. rewrite P2, lookup_delete. repeat case_decide; try done; lia.
    + intros k h' Hk Hh'. destruct (decide (k <= j)) as [Hle|Hgt]; [by apply (P3 k h'); [lia|]|]. replace k with (Z.succ j) in Hh' by lia. rewrite (bo_header _ _ _ _ _ _ Hb) in Hh'. injection Hh' as <-.
      set (x := bh_hash h) in *. destruct (final_chain_blk_number_by_hash (prune_loop fuel db0 (remove_block db h) (getBlockHeader db0 j)) !! x) as [v|] eqn:E; [|done].
      exfalso. assert (forall k h0, 1 <= k <= j -> getBlockHeader db0 k = Some h0 -> bh_hash h0 <> x) as Hne.
      { intros k' h0 Hk' Hh0 Ex. rewrite <- Ex, (P3 k' h0 Hk' Hh0) in E. done. }
      rewrite (P4 x Hne), lookup_delete_eq in E. done.
    + intros x Hx. rewrite P4; [|intros k h' Hk; apply Hx; lia]. rewrite lookup_delete_ne; [done|]. by apply (Hx (Z.succ j) h); [lia|apply (bo_header _ _ _ _ _ _ Hb)].
    + done.
Qed.

Lemma roots_effect db n k : chain_ok db n -> n < 2 ^ 64 -> 0 <= k <= n -> forall fuel, (Z.to_nat (n - k) < fuel)%nat ->
  forall i h, k <= i <= n -> getBlockHeader db i = Some h -> roots_to_keep cfg sha3 fuel db k !! Z.to_nat (i - k) = Some (state_root (bh_data h)).
Proof using.
  intros Hch Hn Hk fuel. revert k Hk. induction fuel as [|fuel IH]; intros k Hk Hf i h Hi Hh; [lia|]. cbn [roots_to_keep]. destruct (ch_blocks _ _ _ _ _ Hch k ltac:(lia)) as [h0 Hb]. rewrite (bo_header _ _ _ _ _ _ Hb).
  destruct (decide (i = k)) as [->|Hne]; [replace (Z.to_nat (k - k)) with 0%nat by lia; rewrite (bo_header _ _ _ _ _ _ Hb) in Hh; by injection Hh as <-|].
  rewrite (bo_number _ _ _ _ _ _ Hb). assert (u64 (k + 1) = k + 1) as -> by (apply wrap_id; unfold in_range, modulus; lia). replace (Z.to_nat (i - k)) with (S (Z.to_nat (i - (k + 1)))) by lia. cbn. apply IH; [lia|lia|lia|done].
Qed.

(** Pruning at a block of the chain: the headers of the blocks between the genesis block and this one are removed, with their hashes, and all others stay
    readable; the state roots of the block and of all later ones are kept. *)
Theorem prune_correct fc blk_n : fc_reach fc -> 1 <= blk_n <= last_block_number_ fc ->
  exists db' roots, prune cfg sha3 (fc_db fc) blk_n = (db', Some (roots, blk_n)) /\
    (forall k, 0 <= k <= last_block_number_ fc -> getBlockHeader db' k = if decide (1 <= k < blk_n) then None else getBlockHeader (fc_db fc) k) /\
    (forall k h, 0 <= k <= last_block_number_ fc -> getBlockHeader (fc_db fc) k = Some h -> final_chain_blk_number_by_hash db' !! bh_hash h = if decide (1 <= k < blk_n) then None else Some k) /\
    (forall k h, blk_n <= k <= last_block_number_ fc -> getBlockHeader (fc_db fc) k = Some h -> state_root (bh_data h) ∈ roots).
Proof using sha3_inj cache_room frequencies_ok.
  intros Hreach Hn. destruct (reach_ok fc Hreach) as [Hfc _]. pose proof (fo_range _ _ _ _ Hfc) as Hr. pose proof (fo_chain _ _ _ _ Hfc) as Hch. unfold prune.
  destruct (ch_blocks _ _ _ _ _ Hch blk_n ltac:(lia)) as [h Hb]. rewrite (bo_header _ _ _ _ _ _ Hb), (bo_number _ _ _ _ _ _ Hb).
  assert (u64 (blk_n - 1) = blk_n - 1) as -> by (apply wrap_id; unfold in_range, modulus; lia). eexists _, _. split; [done|].
  destruct (prune_loop_effect (fc_db fc) (last_block_number_ fc) (blk_n - 1) Hch ltac:(lia) ltac:(lia) (Z.to_nat blk_n) (fc_db fc) ltac:(lia)) as [P1 P2 P3 P4 P5]. set (db' := FinalChain.prune_loop _ _ _ _ _ _) in *. split_and!.
  - intros k Hk. unfold FinalChain.getBlockHeader at 1. rewrite P1, P5. repeat case_decide; try lia; done.
  - intros k h' Hk Hh'. destruct (ch_blocks _ _ _ _ _ Hch k Hk) as [h0 [B1 B2 _ B4 _]]. rewrite Hh' in B1. injection B1 as <-. case_decide as Hd; [apply (P3 k); [lia|done]|]. rewrite P4; [done|].
    intros k' h1 Hk' Hh1 E. apply Hd. replace k with k'; [lia|]. destruct (ch_blocks _ _ _ _ _ Hch k' ltac:(lia)) as [h2 [C1 C2 _ _ _]]. rewrite Hh1 in C1. injection C1 as <-. rewrite <- B2, <- C2.
    apply (hash_number sha3 sha3_inj); [by eapply header_hash|by eapply header_hash|done].
  - intros k h' Hk Hh'. eapply list_elem_of_lookup_2, (roots_effect _ _ blk_n Hch); [lia|lia| |exact Hk|done].
    assert (Z.to_nat (last_block_number_ fc + 1) <= size (final_chain_blk_by_number (fc_db fc)))%nat; [|lia]. rewrite <- (length_seqZ 0 (last_block_number_ fc + 1)), <- size_dom, <- (size_list_to_set (C := gset Z)) by apply NoDup_seqZ.
    apply subseteq_size. intros x Hx. apply elem_of_list_to_set, elem_of_seqZ in Hx. apply elem_of_dom. destruct (ch_blocks _ _ _ _ _ Hch x ltac:(lia)) as [hx Hbx]. pose proof (bo_header _ _ _ _ _ _ Hbx) as E. unfold FinalChain.getBlockHeader in E.
    destruct (final_chain_blk_by_number (fc_db fc) !! x); [by eexists|done].
Qed.
End runs.
