(* ===== verification/FinalChainExample.v ===== *)
(** * The final chain: examples

    A chain over a small state: the state counts executed transactions. *)

From S2P Require Import Prelude Votes Rewards RewardsRuns LogBloom PillarChain BlockCache FinalChain FinalChainInv FinalChainRuns.
Local Open Scope Z_scope.
Local Open Scope outcome_scope.

Definition item_code (i : rlp_item) : Z + list Z := match i with Word z => inl z | Bytes b => inr b end.
Definition ex_sha3 (l : list rlp_item) : Z := Z.pos (encode (item_code <$> l)).

#[export] Instance ex_sha3_inj : Inj (=) (=) ex_sha3.
Proof.
  intros l l' E. unfold ex_sha3 in E. injection E as E. apply (inj encode) in E. revert E. apply list_fmap_eq_inj. intros [] []; simpl; congruence.
Qed.

Definition ex_api : StateApi Z := mkStateApi Z
  (fun s _ trxs => (s + Z.of_nat (length trxs), map (fun _ => mkExecutionResult [] 0 [] 21000 [] []) trxs))
  (fun s stats => (s + Z.of_nat (length stats), (s, 5))) (fun s => s) (fun _ _ => Some (mkStateAccount 0 100)) (fun _ _ _ => mkExecutionResult [1] 0 [] 0 [] []).
Definition ex_chain_cfg : ChainConfig := mkChainConfig 1000000 100 3 (mkFicusHardforkConfig 4 4) 50 51 0 7 5 (mkRewardsConfig {[ 0 := 2 ]} 0 0 1000).
Definition ex_bloom_sha3 (x : Z) : list Z := [0; x].

Abbreviation ex_new := (newFinalChain ex_api ex_chain_cfg ex_sha3 ex_bloom_sha3 (fun m => Z.of_nat (size m)) (fun t => [ct_hash t]) (fun r => [tr_gas_used r])).
Abbreviation ex_final := (finalize_ ex_api ex_chain_cfg ex_sha3 ex_bloom_sha3 (fun m => Z.of_nat (size m)) (fun t => [ct_hash t]) (fun r => [tr_gas_used r]) evm_nonce [1] [2] map_to_list (fun _ => 10)).
Abbreviation ex_crash := (crash_finalize ex_api ex_chain_cfg ex_sha3 ex_bloom_sha3 (fun m => Z.of_nat (size m)) (fun t => [ct_hash t]) (fun r => [tr_gas_used r]) evm_nonce [1] [2] map_to_list (fun _ => 10)).
Abbreviation ex_reach := (fc_reach ex_api ex_chain_cfg ex_sha3 ex_bloom_sha3 (fun m => Z.of_nat (size m)) (fun t => [ct_hash t]) (fun r => [tr_gas_used r]) evm_nonce [1] [2] map_to_list (fun _ => 10)).

Definition no_rows : FinalDb := mkFinalDb ∅ ∅ ∅ ∅ ∅ None 0 0 ∅ ∅ ∅ ∅ ∅.
Definition no_chain : FinalChain Z := mkFinalChain no_rows (mkStateDb 0 ∅) (mkStats ∅ ∅) 0 0 (mkValueCache 0 ∅) 0.
Definition chain_of (o : outcome (FinalChain Z)) : FinalChain Z := match o with Done fc => fc | _ => no_chain end.

Definition ex_trx (h : Z) : ChainTrx := mkChainTrx h 9 1 (Some 8) 0 1 21000 [].
Definition ex_chain_period (n : Z) (trxs : list ChainTrx) (blocks : list (Z * RewardDagBlock)) : ChainPeriod := mkChainPeriod (mkChainPbftBlock (500 + n) n 60 (1000 + n) []) trxs blocks [].
Definition ex_full : ChainPeriod := ex_chain_period 1 [ex_trx 31; ex_trx 32] [(90, mkRewardDagBlock 60 [31; 32] 16)].
(** A period without DAG blocks; in period 1, three periods before the pillar block, the node adds a transaction of its own. *)
Definition ex_empty : ChainPeriod := ex_chain_period 1 [] [].

Definition ex_genesis : FinalChain Z := chain_of (ex_new no_rows (mkStateDb 0 {[ 0 := 0 ]}) ∅).
Definition ex_one : FinalChain Z := chain_of (ex_final (save_period ex_genesis ex_full) ex_full [90] 1000 (Some 3)).
Definition ex_crashed : FinalChain Z := chain_of (ex_crash BetweenCommits (save_period ex_genesis ex_empty) ex_empty [] 1000 None).

Lemma ex_genesis_run : ex_new no_rows (mkStateDb 0 {[ 0 := 0 ]}) ∅ = Done ex_genesis.
Proof. vm_compute. reflexivity. Qed.
Lemma ex_one_run : ex_final (save_period ex_genesis ex_full) ex_full [90] 1000 (Some 3) = Done ex_one.
Proof. vm_compute. reflexivity. Qed.
Lemma ex_crashed_run : ex_crash BetweenCommits (save_period ex_genesis ex_empty) ex_empty [] 1000 None = Done ex_crashed.
Proof. vm_compute. reflexivity. Qed.

Lemma ex_answers s b l : length (execute_transactions ex_api s b l).2 = length l.
Proof. simpl. by rewrite length_map. Qed.
Lemma ex_frequencies b f : rewards_distribution_frequency (rewards_cfg ex_chain_cfg) !! b = Some f -> 0 <= f.
Proof. cbn [ex_chain_cfg rewards_cfg rewards_distribution_frequency]. intros [_ <-]%lookup_singleton_Some. lia. Qed.

Lemma ex_genesis_number : last_block_number_ ex_genesis = 0.
Proof. vm_compute. reflexivity. Qed.

Lemma ex_saved_reach p : cp_period (cd_block p) = 1 -> ex_reach (save_period ex_genesis p).
Proof. intros Hp. apply reach_save; [exact (reach_genesis _ _ _ _ _ _ _ _ _ _ _ _ no_rows 0 ex_genesis eq_refl ex_genesis_run)|]. rewrite ex_genesis_number, Hp. lia. Qed.
Lemma ex_saved_next p : cp_period (cd_block p) = 1 -> next_period (save_period ex_genesis p) p.
Proof. intros Hp. unfold next_period. cbn [save_period last_block_number_ fc_db period_data_column]. rewrite ex_genesis_number, Hp. split_and!; [lia|lia|]. by rewrite lookup_insert_eq. Qed.
Lemma ex_one_reach : ex_reach ex_one.
Proof. exact (reach_finalize _ _ _ _ _ _ _ _ _ _ _ _ _ ex_full [90] 1000 (Some 3) ex_one (ex_saved_reach ex_full eq_refl) (ex_saved_next ex_full eq_refl) ex_one_run). Qed.
Lemma ex_one_number : last_block_number_ ex_one = 1.
Proof. vm_compute. reflexivity. Qed.



Lemma recovered_counts_witness : num_executed_trx_ (save_period ex_genesis ex_empty) = 0 /\ num_executed_trx_ ex_crashed = 2 ^ 64 - 1.
Proof.
  split; [vm_compute; reflexivity|].
  destruct (recovered_counts ex_api ex_chain_cfg ex_sha3 ex_bloom_sha3 (fun m => Z.of_nat (size m)) (fun t => [ct_hash t]) (fun r => [tr_gas_used r]) evm_nonce [1] [2] map_to_list (fun _ => 10)
    ex_sha3_inj ltac:(simpl; lia) ex_frequencies (save_period ex_genesis ex_empty) ex_empty 1000 None ex_crashed (ex_saved_reach ex_empty eq_refl) (ex_saved_next ex_empty eq_refl)) as [_ H];
    [vm_compute; reflexivity|vm_compute; reflexivity|vm_compute; split; [discriminate|reflexivity]|vm_compute; split; [discriminate|reflexivity]|vm_compute; reflexivity|exact ex_crashed_run|].
  rewrite H. vm_compute. reflexivity.
Defined.

Lemma prune_correct_witness : exists db' roots, prune ex_chain_cfg ex_sha3 (fc_db ex_one) 1 = (db', Some (roots, 1)).
Proof.
  destruct (prune_correct ex_api ex_chain_cfg ex_sha3 ex_bloom_sha3 (fun m => Z.of_nat (size m)) (fun t => [ct_hash t]) (fun r => [tr_gas_used r]) evm_nonce [1] [2] map_to_list (fun _ => 10)
    ex_sha3_inj ltac:(simpl; lia) ex_frequencies ex_one 1 ex_one_reach) as (db' & roots & H & _); [rewrite ex_one_number; lia|]. exists db', roots. exact H.
Defined.
