(* ===== verification/Solidity.v ===== *)
(** * Solidity encoding of arguments

    [EncodingSolidity] (common/encoding_solidity.hpp): the words that are passed to
    contracts.  Static arguments are one word; strings are appended behind the words
    and replaced by their position. *)

From S2P Require Import Prelude Rlp RlpStream RlpRead RlpItems RlpCodec.
Local Open Scope Z_scope.
Local Open Scope rlp_scope.
#[local] Hint Resolve bsize_nonneg : core.

(** [toBigEndian] into [n] bytes. *)
Fixpoint to_big_endian (n : nat) (val : Z) (out : bytes) : bytes :=
  match n with O => out | S n => to_big_endian n (Z.shiftr val 8) (Z.land val 255 :: out) end.
Definition toBigEndian (val : Z) : bytes := to_big_endian 32 (wrap 256 val) [].

(** ** Packing *)

Definition kWordSize : Z := 32.
Definition kStartPrefix : Z := 32.
Definition kStartPrefixSize : Z := 1.

(** Arguments: hashes of at most 32 bytes, integers and flags, byte strings. *)
Inductive element := EHash (h : bytes) | EInt (num : Z) | EBool (flag : bool) | EBytes (value : bytes).

Definition packElemement (e : element) : bytes :=
  match e with
  | EHash h => replicate (32 - length h) 0 ++ h
  | EInt num => toBigEndian num
  | EBool flag => toBigEndian (if flag then 1 else 0)
  | EBytes value =>
      let data := match value with [] => [] | _ => toBigEndian (bsize value) end in
      data ++ value ++ replicate (Z.to_nat (kWordSize - bsize value mod kWordSize)) 0
  end.

Definition pack_process (st : bytes * bytes * Z) (e : element) : bytes * bytes * Z :=
  let '(output, offset_data, current_offset) := st in
  let data := packElemement e in
  if kWordSize <? bsize data then (output ++ packElemement (EInt current_offset), offset_data ++ data, u64 (current_offset + bsize data))
  else (output ++ data, offset_data, current_offset).

Definition pack (args : list element) : bytes :=
  let '(output, offset_data, _) := foldl pack_process ([], [], kWordSize * Z.of_nat (length args)) args in
  output ++ offset_data.

(** ** Unpacking *)

(** The range [bytes(begin + i * kWordSize, begin + (i + 1) * kWordSize)]. *)
Definition word (input : bytes) (i : Z) : res bytes :=
  if (i + 1) * kWordSize <=? bsize input then Ok (take 32 (drop (Z.to_nat (i * kWordSize)) input)) else OutOfBounds.
Definition unpack_uint (w : Z) (input : bytes) (i : Z) : res Z := let* d := word input i in Ok (fromBigEndian w d).
Definition unpack_int (w : Z) (input : bytes) (i : Z) : res Z := let* d := word input i in Ok (to_signed w (fromBigEndian w d)).
Definition unpack_hash (n : nat) (input : bytes) (i : Z) : res bytes := let* d := word input i in Ok (drop (32 - n) d).

(** The range from [pos] to the end. *)
Definition bytes_from (input : bytes) (pos : Z) : res bytes := if pos <=? bsize input then Ok (drop (Z.to_nat pos) input) else OutOfBounds.

(** What a contract reads for a string argument: the word of the argument is the position of length and content. *)
Definition abi_bytes (input : bytes) (i : Z) : res bytes :=
  let* pos := unpack_uint 256 input i in
  let* tail := bytes_from input pos in
  let* len := unpack_uint 256 tail 0 in
  if kWordSize + len <=? bsize tail then Ok (take (Z.to_nat len) (drop 32 tail)) else OutOfBounds.

(** ** Numbers in words *)

Lemma to_signed_wider w v x : 0 <= w <= v -> to_signed w (wrap v x) = to_signed w x.
Proof.
  intros Hw. unfold to_signed. assert (wrap w (wrap v x) = wrap w x) as ->; [|done]. unfold wrap, modulus.
  apply Z.mod_mod_divide. exists (2 ^ (v - w)). rewrite <- Z.pow_add_r by lia. f_equal. lia.
Qed.

Lemma be_value_app d : forall e, be_value (d ++ e) = be_value d * 256 ^ bsize e + be_value e.
Proof.
  intros e. induction e as [|b e IH] using rev_ind; [rewrite app_nil_r; change (bsize []) with 0; change (be_value []) with 0; lia|].
  rewrite app_assoc, !be_value_snoc, IH, bsize_app, Z.pow_add_r by done. change (256 ^ bsize [b]) with 256. ring.
Qed.

Lemma to_big_endian_spec n : forall v out, 0 <= v -> bytes_ok out ->
  length (to_big_endian n v out) = (n + length out)%nat /\ bytes_ok (to_big_endian n v out) /\
  be_value (to_big_endian n v out) = (v mod 256 ^ Z.of_nat n) * 256 ^ bsize out + be_value out.
Proof.
  induction n as [|n IH]; intros v out Hv Hout; cbn [to_big_endian].
  - split_and!; [done|done|]. rewrite Z.mod_1_r. lia.
  - assert (Z.land v 255 = v mod 256) as Hl by (change 255 with (Z.ones 8); by rewrite Z.land_ones).
    assert (byte_ok (Z.land v 255)) as Hb by (rewrite Hl; unfold byte_ok; apply Z.mod_pos_bound; lia).
    destruct (IH (Z.shiftr v 8) (Z.land v 255 :: out)) as (H1 & H2 & H3); [by apply Z.shiftr_nonneg|by constructor|].
    split_and!; [rewrite H1; simpl; lia|done|]. rewrite H3, bsize_cons, Z.pow_add_r by (done || lia). rewrite Hl, Z.shiftr_div_pow2 by lia. change (2 ^ 8) with 256.
    replace (be_value (v mod 256 :: out)) with ((v mod 256) * 256 ^ bsize out + be_value out) by (symmetry; apply (be_value_app [v mod 256] out)).
    rewrite (Nat2Z.inj_succ n), Z.pow_succ_r, Z.rem_mul_r by lia. ring_simplify. lia.
Qed.

Lemma toBigEndian_spec v : length (toBigEndian v) = 32%nat /\ bytes_ok (toBigEndian v) /\ be_value (toBigEndian v) = wrap 256 v.
Proof.
  unfold toBigEndian. pose proof (Z.mod_pos_bound v (2 ^ 256) ltac:(lia)) as Hb. change (v mod 2 ^ 256) with (wrap 256 v) in Hb.
  destruct (to_big_endian_spec 32 (wrap 256 v) [] (proj1 Hb) ltac:(constructor)) as (H1 & H2 & H3). split_and!; [by rewrite H1|done|].
  rewrite H3. change (256 ^ Z.of_nat 32) with (2 ^ 256). change (256 ^ bsize []) with 1. change (be_value []) with 0. rewrite Z.mod_small by done. lia.
Qed.

Lemma toBigEndian_size v : bsize (toBigEndian v) = 32.
Proof. unfold bsize. by rewrite (proj1 (toBigEndian_spec v)). Qed.

(** A number is read at any width as its value modulo that width. *)
Lemma fromBigEndian_toBigEndian w v : 8 <= w <= 256 -> fromBigEndian w (toBigEndian v) = wrap w v.
Proof.
  intros Hw. destruct (toBigEndian_spec v) as (_ & H2 & H3). rewrite fromBigEndian_spec, H3 by (done || lia). unfold wrap, modulus. apply Z.mod_mod_divide.
  exists (2 ^ (256 - w)). rewrite <- Z.pow_add_r by lia. f_equal. lia.
Qed.

(** ** The layout of packed arguments *)

Definition dynamic (e : element) : bool := kWordSize <? bsize (packElemement e).
Definition element_ok (e : element) : Prop :=
  match e with EHash h => (length h <= 32)%nat /\ bytes_ok h | EInt _ | EBool _ => True | EBytes v => v <> [] /\ bytes_ok v /\ bsize v < 2 ^ 62 end.

Fixpoint heads (offset : Z) (args : list element) : bytes :=
  match args with
  | [] => []
  | e :: args => if dynamic e then toBigEndian offset ++ heads (offset + bsize (packElemement e)) args else packElemement e ++ heads offset args
  end.
Definition tails (args : list element) : bytes := flat_map (fun e => if dynamic e then packElemement e else []) args.

Lemma bsize_replicate n x : bsize (replicate n x) = Z.of_nat n.
Proof. unfold bsize. by rewrite length_replicate. Qed.

Lemma pack_element_size e : element_ok e ->
  bsize (packElemement e) = match e with EBytes v => 32 + bsize v + (32 - bsize v mod 32) | _ => 32 end.
Proof.
  destruct e as [h|n|b|v]; cbn [packElemement element_ok]; intros He.
  - rewrite bsize_app, bsize_replicate. unfold bsize. lia.
  - apply toBigEndian_size.
  - apply toBigEndian_size.
  - destruct He as (Hv & _). rewrite !bsize_app, bsize_replicate. unfold kWordSize. pose proof (Z.mod_pos_bound (bsize v) 32 ltac:(lia)).
    destruct v as [|b v]; [done|]. rewrite toBigEndian_size. lia.
Qed.

Lemma dynamic_ok e : element_ok e -> dynamic e = match e with EBytes _ => true | _ => false end.
Proof.
  intros He. unfold dynamic. rewrite (pack_element_size e He). unfold kWordSize. destruct e as [h|n|b|v]; [done..|]. pose proof (bsize_nonneg v). pose proof (Z.mod_pos_bound (bsize v) 32 ltac:(lia)).
  apply Z.ltb_lt. lia.
Qed.

Lemma pack_fold args : forall output data offset, offset + bsize (tails args) < 2 ^ 64 -> 0 <= offset ->
  foldl pack_process (output, data, offset) args = (output ++ heads offset args, data ++ tails args, offset + bsize (tails args)).
Proof.
  induction args as [|e args IH]; intros output data offset Hs H0; cbn [foldl heads tails flat_map] in *.
  - rewrite !app_nil_r. change (bsize []) with 0. by rewrite Z.add_0_r.
  - rewrite bsize_app in *. fold (tails args) in *. pose proof (bsize_nonneg (tails args)). unfold pack_process at 2. fold (dynamic e). destruct (dynamic e).
    + pose proof (bsize_nonneg (packElemement e)). replace (u64 (offset + bsize (packElemement e))) with (offset + bsize (packElemement e)) by (symmetry; apply Z.mod_small; unfold modulus; lia).
      rewrite IH by lia. cbn [packElemement]. rewrite !app_assoc. f_equal. lia.
    + change (bsize []) with 0 in *. rewrite IH by lia. rewrite !app_assoc, app_nil_r. f_equal.
Qed.

Lemma pack_layout args : kWordSize * Z.of_nat (length args) + bsize (tails args) < 2 ^ 64 -> pack args = heads (kWordSize * Z.of_nat (length args)) args ++ tails args.
Proof. intros Hs. unfold pack. rewrite pack_fold; [done|done|unfold kWordSize; lia]. Qed.

Lemma heads_size args : Forall element_ok args -> forall offset, bsize (heads offset args) = 32 * Z.of_nat (length args).
Proof.
  induction 1 as [|e args He Ha IH]; intros offset; [done|]. cbn [heads length]. pose proof (dynamic_ok e He) as Hd. pose proof (pack_element_size e He) as Hs.
  destruct e; rewrite Hd, bsize_app, IH, ?toBigEndian_size, ?Hs; lia.
Qed.

Lemma heads_app pre : forall offset post, heads offset (pre ++ post) = heads offset pre ++ heads (offset + bsize (tails pre)) post.
Proof.
  induction pre as [|e pre IH]; intros offset post; cbn [app heads tails flat_map]; [change (bsize []) with 0; by rewrite Z.add_0_r|]. fold (tails pre). rewrite bsize_app, !IH.
  destruct (dynamic e); rewrite <- app_assoc; [by rewrite Z.add_assoc|]. change (bsize []) with 0. done.
Qed.

(** Words at their position. *)
Lemma word_at a w b i : bsize a = 32 * i -> 0 <= i -> bsize w = 32 -> word (a ++ w ++ b) i = Ok w.
Proof.
  intros Ha Hi Hw. unfold word, kWordSize. rewrite !bsize_app. destruct (Z.leb_spec ((i + 1) * 32) (bsize a + (bsize w + bsize b))); [|pose proof (bsize_nonneg b); lia].
  assert (Z.to_nat (i * 32) = length a) as -> by (unfold bsize in Ha; lia). rewrite drop_app_length. assert (32%nat = length w) as -> by (unfold bsize in Hw; lia). by rewrite take_app_length.
Qed.

Lemma bytes_from_app a b pos : bsize a = pos -> bytes_from (a ++ b) pos = Ok b.
Proof.
  intros <-. unfold bytes_from. rewrite bsize_app. destruct (Z.leb_spec (bsize a) (bsize a + bsize b)); [|pose proof (bsize_nonneg b); lia].
  unfold bsize. by rewrite Nat2Z.id, drop_app_length.
Qed.

(** ** Sequences of words *)

Definition static (e : element) : Prop := element_ok e /\ match e with EBytes _ => False | _ => True end.

Lemma static_word e : static e -> bsize (packElemement e) = 32 /\ dynamic e = false.
Proof. intros [He Hs]. rewrite (pack_element_size e He), (dynamic_ok e He). by destruct e. Qed.

Lemma pack_static args : Forall static args -> Z.of_nat (length args) < 2 ^ 58 -> pack args = concat (packElemement <$> args).
Proof.
  intros Hs Hn. assert (tails args = [] /\ forall offset, heads offset args = concat (packElemement <$> args)) as [Ht Hh].
  { clear Hn. induction Hs as [|e args He _ [IH1 IH2]]; [done|]. destruct (static_word e He) as [_ Hd]. cbn [tails flat_map heads fmap list_fmap concat]. fold (tails args).
    rewrite Hd, IH1. split; [done|]. intros offset. by rewrite IH2. }
  rewrite pack_layout, Hh, Ht, app_nil_r; [done|]. rewrite Ht. change (bsize []) with 0. unfold kWordSize. lia.
Qed.

Lemma words_size ws : Forall (fun w => bsize w = 32) ws -> bsize (concat ws) = 32 * Z.of_nat (length ws).
Proof. induction 1 as [|w ws Hw _ IH]; [done|]. cbn [concat length]. rewrite bsize_app, IH. lia. Qed.

Lemma words_at ws rest i w : Forall (fun w => bsize w = 32) ws -> ws !! i = Some w -> word (concat ws ++ rest) (Z.of_nat i) = Ok w.
Proof.
  intros Hw Hi. apply take_drop_middle in Hi as E. rewrite <- E in Hw |- *. apply Forall_app in Hw as [Hp [Hw _]%Forall_cons]. rewrite concat_app, <- app_assoc. cbn [concat]. rewrite <- app_assoc.
  apply word_at; [|lia|done]. rewrite (words_size _ Hp). f_equal. f_equal. apply length_take_le. apply lookup_lt_Some in Hi. lia.
Qed.

Lemma words_from ws rest pos : Forall (fun w => bsize w = 32) ws -> pos = 32 * Z.of_nat (length ws) -> bytes_from (concat ws ++ rest) pos = Ok rest.
Proof. intros Hw ->. apply bytes_from_app. by apply words_size. Qed.

Lemma static_words args : Forall static args -> Forall (fun w => bsize w = 32) (packElemement <$> args).
Proof. intros Hs. apply Forall_fmap. eapply Forall_impl; [exact Hs|]. intros e He. apply (static_word e He). Qed.

(** Arguments of a static encoding are unpacked as they were packed. *)
Lemma unpack_static args rest i e : Forall static args -> args !! i = Some e ->
  match e with
  | EHash h => unpack_hash (length h) (concat (packElemement <$> args) ++ rest) (Z.of_nat i) = Ok h
  | EInt num => (forall w, 8 <= w <= 256 -> unpack_uint w (concat (packElemement <$> args) ++ rest) (Z.of_nat i) = Ok (wrap w num)) /\
      (forall w, 8 <= w <= 256 -> unpack_int w (concat (packElemement <$> args) ++ rest) (Z.of_nat i) = Ok (to_signed w num))
  | _ => True
  end.
Proof.
  intros Hs Hi. assert ((packElemement <$> args) !! i = Some (packElemement e)) as Hw by (by rewrite list_lookup_fmap, Hi). pose proof (words_at _ rest _ _ (static_words args Hs) Hw) as Hword.
  rewrite Forall_forall in Hs. destruct (Hs e (list_elem_of_lookup_2 _ _ _ Hi)) as [He _]. destruct e as [h|num|b|v]; [|split; intros w Hw2|done|done]; unfold unpack_hash, unpack_uint, unpack_int; rewrite Hword; cbn [rbind packElemement].
  - f_equal. apply drop_app_length'. by rewrite length_replicate.
  - by rewrite fromBigEndian_toBigEndian.
  - rewrite fromBigEndian_toBigEndian by done. by rewrite to_signed_wider by lia.
Qed.

(** ** What a contract reads *)

(** What a contract reads: the word of an argument that is not a string is the argument, and a string that is not empty is found
    through its position.  Sizes stay below 2^64. *)
Theorem packed_arguments args i e : Forall element_ok args -> args !! i = Some e -> kWordSize * Z.of_nat (length args) + bsize (tails args) < 2 ^ 64 ->
  match e with EBytes v => abi_bytes (pack args) (Z.of_nat i) = Ok v | _ => word (pack args) (Z.of_nat i) = Ok (packElemement e) end.
Proof.
  intros Hok Hi Hs. rewrite pack_layout by done. set (n := kWordSize * Z.of_nat (length args)) in *. apply take_drop_middle in Hi as Hargs.
  set (pre := take i args) in *. set (post := drop (S i) args) in *. assert (length pre = i) as Hlen by (apply length_take_le; apply lookup_lt_Some in Hi; lia).
  rewrite <- Hargs in Hok. apply Forall_app in Hok as [Hpre [He Hpost]%Forall_cons].
  assert (heads n args = heads n pre ++ heads (n + bsize (tails pre)) (e :: post)) as Eh by (rewrite <- Hargs at 1; apply heads_app).
  assert (tails args = tails pre ++ tails (e :: post)) as Et by (rewrite <- Hargs at 1; unfold tails; by rewrite flat_map_app).
  pose proof (heads_size pre Hpre n) as Hhp. rewrite Hlen in Hhp. pose proof (dynamic_ok e He) as Hd. pose proof (pack_element_size e He) as Hsz.
  destruct e as [h|z|b|v]; [rewrite Eh; cbn [heads]; rewrite Hd, <- !app_assoc; by apply word_at; [|lia|]..|].
  destruct He as (Hv & Hvok & Hvs). unfold abi_bytes, unpack_uint. assert (word (heads n args ++ tails args) (Z.of_nat i) = Ok (toBigEndian (n + bsize (tails pre)))) as ->
    by (rewrite Eh; cbn [heads]; rewrite Hd, <- !app_assoc; apply word_at; [done|lia|apply toBigEndian_size]).
  cbn [rbind]. rewrite fromBigEndian_toBigEndian by lia. assert (bsize (tails pre) + bsize (tails (EBytes v :: post)) = bsize (tails args)) as Hts by (by rewrite Et, bsize_app).
  pose proof (bsize_nonneg (tails pre)). pose proof (bsize_nonneg (tails (EBytes v :: post))). assert (0 <= n) by (unfold n, kWordSize; lia).
  rewrite wrap_id by (unfold in_range, modulus; lia). rewrite Et, app_assoc, bytes_from_app; cbn [rbind].
  2: { rewrite bsize_app. f_equal. unfold n, kWordSize. apply heads_size. rewrite <- Hargs. apply Forall_app. by split; [|constructor]. }
  cbn [tails flat_map]. rewrite Hd. fold (tails post). cbn [packElemement]. destruct v as [|b0 v0] eqn:Ev; [done|]. rewrite <- Ev in *. clear Hv.
  rewrite <- !app_assoc. match goal with |- context[word (toBigEndian (bsize v) ++ ?r) 0] => pose proof (word_at [] (toBigEndian (bsize v)) r 0 eq_refl ltac:(lia) (toBigEndian_size _)) as Hw end.
  cbn [app] in Hw. rewrite Hw. cbn [rbind]. rewrite fromBigEndian_toBigEndian by lia. pose proof (bsize_nonneg v).
  rewrite wrap_id by (unfold in_range, modulus; lia). rewrite !bsize_app, toBigEndian_size. unfold kWordSize at 1. pose proof (bsize_nonneg (tails post)).
  match goal with |- context[32 + bsize v <=? ?x] => destruct (Z.leb_spec (32 + bsize v) x) as [_|Hx] end.
  - rewrite (drop_app_length' (toBigEndian (bsize v))) by (symmetry; apply toBigEndian_spec). unfold bsize. by rewrite Nat2Z.id, take_app_length.
  - match type of Hx with context[bsize (replicate ?k ?z)] => pose proof (bsize_nonneg (replicate k z)) end. lia.
Qed.

(** An empty string is packed as one word of zeros in place of its position, so what is read as its length is the first argument. *)
Theorem empty_string_misread num : 0 < num < 2 ^ 64 -> word (pack [EInt num; EBytes []]) 1 = Ok (toBigEndian 0) /\ abi_bytes (pack [EInt num; EBytes []]) 1 = (if num <=? 32 then Ok (replicate (Z.to_nat num) 0) else OutOfBounds).
Proof.
  intros Hn. assert (pack [EInt num; EBytes []] = toBigEndian num ++ toBigEndian 0) as Ep.
  { assert (bsize (tails [EInt num; EBytes []]) = 0 /\ dynamic (EBytes []) = false) as [Ht Hd].
    { unfold tails, flat_map. rewrite (dynamic_ok (EInt num)) by done. done. }
    assert (tails [EInt num; EBytes []] = []) as Et by (apply nil_length_inv; unfold bsize in Ht; lia).
    rewrite pack_layout by (rewrite Ht; done). rewrite Et, app_nil_r. cbn [heads]. rewrite (dynamic_ok (EInt num)), Hd by done. by rewrite app_nil_r. }
  rewrite Ep. pose proof (word_at (toBigEndian num) (toBigEndian 0) [] 1) as Hw. rewrite app_nil_r in Hw. specialize (Hw (toBigEndian_size _) ltac:(lia) (toBigEndian_size _)).
  split; [done|]. unfold abi_bytes, unpack_uint. rewrite Hw. cbn [rbind]. rewrite fromBigEndian_toBigEndian by lia. change (wrap 256 0) with 0.
  pose proof (bytes_from_app [] (toBigEndian num ++ toBigEndian 0) 0 eq_refl) as Hf. cbn [app] in Hf. rewrite Hf. cbn [rbind]. pose proof (word_at [] (toBigEndian num) (toBigEndian 0) 0 eq_refl ltac:(lia) (toBigEndian_size _)) as Hw0.
  cbn [app] in Hw0. rewrite Hw0. cbn [rbind]. rewrite fromBigEndian_toBigEndian, wrap_id by (lia || unfold in_range, modulus; lia). rewrite bsize_app, !toBigEndian_size. unfold kWordSize.
  destruct (Z.leb_spec num 32), (Z.leb_spec (32 + num) (32 + 32)); try lia; [|done]. f_equal. rewrite (drop_app_length' (toBigEndian num)) by (symmetry; apply toBigEndian_spec).
  change (toBigEndian 0) with (replicate 32 0 : bytes). rewrite take_replicate. f_equal. lia.
Qed.

Lemma packed_arguments_witness : abi_bytes (pack [EBytes [1; 2; 3]; EInt 7; EBytes (replicate 40 9)]) 2 = Ok (replicate 40 9).
Proof.
  apply (packed_arguments [EBytes [1; 2; 3]; EInt 7; EBytes (replicate 40 9)] 2 (EBytes (replicate 40 9))); [|reflexivity|vm_compute; reflexivity].
  repeat constructor; try done; unfold byte_ok; lia.
Defined.
