(* ===== verification/PillarBlockRlp.v ===== *)
(** * Serialisation of pillar blocks

    [PillarBlock], [PillarBlockData] and [CurrentPillarBlockDataDb] (pillar_chain/pillar_block.cpp)
    as they are stored and sent, and the Solidity encoding whose hash is the hash of the block. *)

From S2P Require Import Prelude Rlp RlpStream RlpRead RlpItems RlpCodec Solidity VoteRlp.
Local Open Scope Z_scope.
Local Open Scope rlp_scope.
#[local] Hint Resolve bsize_nonneg : core.

(** ** Signed numbers *)

(** [RLPStream::append] of a signed type: a negative number is a list of its absolute value. *)
Definition append_signed (s : RLPStream) (i : Z) : res RLPStream :=
  if i <? 0 then let* s := appendList s 1 in append_int_ s (- i) else append_int_ s i.

(** [RLP::toInt] of a signed type of [w] bits; lists may be nested. *)
Fixpoint read_signed (fuel : nat) (w : Z) (d : bytes) (st : Strictness) : res Z :=
  match fuel with
  | O => OutOfBounds
  | S fuel =>
      let* _ := requireGood d in
      if isList d then
        let* _ := (if ThrowOnFail st || FailIfTooBig st then let* n := itemCount d in require (n =? 1) BadCast else Ok tt) in
        let* i := rlp_at d 0 in
        let* v := read_signed fuel w i st in
        Ok (to_signed w (- v))
      else let* v := toInt w d st in Ok (to_signed w v)
  end.
Definition toSigned (w : Z) (d : bytes) (st : Strictness) : res Z := read_signed (S (length d)) w d st.
Definition sint (w : Z) : Codec Z := mkCodec append_signed (toSigned w) 0.

(** ** The block *)

Record ValidatorVoteCountChange := mkVoteCountChange { addr_ : bytes; vote_count_change_ : Z }.
Record SerialPillarBlock := mkSerialPillarBlock {
  pbft_period_ : Z;
  state_root_ : bytes;
  previous_pillar_block_hash_ : bytes;
  bridge_root_ : bytes;
  epoch_ : Z;
  validators_votes_count_changes_ : list ValidatorVoteCountChange;
}.

(** A type whose fields are those of a tuple. *)
Definition codec_map {A B} (make : A -> B) (fields : B -> A) (c : Codec A) : Codec B :=
  mkCodec (fun s b => c_enc c s (fields b)) (fun d st => let* a := c_dec c d st in Ok (make a)) (make (c_default c)).

Definition change_codec : Codec ValidatorVoteCountChange :=
  codec_map (fun '(a, n) => mkVoteCountChange a n) (fun c => (addr_ c, vote_count_change_ c)) (rlp_tuple (hash 20 &: tuple1 (sint 32))).

Definition make_pillar_block : Z * (bytes * (bytes * (bytes * (Z * list ValidatorVoteCountChange)))) -> SerialPillarBlock :=
  fun '(p, (s, (h, (b, (e, cs))))) => mkSerialPillarBlock p s h b e cs.
Definition pillar_block_fields (b : SerialPillarBlock) : Z * (bytes * (bytes * (bytes * (Z * list ValidatorVoteCountChange)))) :=
  (pbft_period_ b, (state_root_ b, (previous_pillar_block_hash_ b, (bridge_root_ b, (epoch_ b, validators_votes_count_changes_ b))))).
Definition pillar_block_codec : Codec SerialPillarBlock :=
  codec_map make_pillar_block pillar_block_fields
    (rlp_tuple (uint 64 &: hash 32 &: hash 32 &: hash 32 &: uint 64 &: tuple1 (sequence change_codec))).

(** [getRlp] and the constructor from RLP. *)
Definition getRlp (b : SerialPillarBlock) : res bytes := rlp_enc pillar_block_codec b.
Definition pillar_block_from (d : bytes) : res SerialPillarBlock := c_dec pillar_block_codec d LaissezFaire.

(** ** Blocks with their votes, and the database entry *)

Definition kRlpItemCount : Z := 2.

Record PillarBlockData := mkPillarBlockData { block_ : SerialPillarBlock; pillar_votes_ : list SerialPillarVote }.

Definition block_data_rlp (p : PillarBlockData) : res bytes :=
  let* s := appendList newRLPStream kRlpItemCount in
  let* b := getRlp (block_ p) in
  let* s := appendRaw s b 1 in
  let* v := encodePillarVotesBundleRlp (pillar_votes_ p) in
  let* s := appendRaw s v 1 in
  stream_out s.

Definition block_data_from (d : bytes) : res PillarBlockData :=
  let* n := itemCount d in
  if negb (n =? kRlpItemCount) then Throw RuntimeError
  else
    let* d0 := rlp_at d 0 in let* b := pillar_block_from d0 in
    let* d1 := rlp_at d 1 in let* v := decodePillarVotesBundleRlp d1 in
    Ok (mkPillarBlockData b v).

(** [state_api::ValidatorVoteCount]: address and vote count. *)
Definition vote_count_codec : Codec (bytes * Z) := rlp_tuple (hash 20 &: tuple1 (uint 64)).
Definition current_block_codec : Codec (option SerialPillarBlock * list (bytes * Z)) := rlp_tuple (optional pillar_block_codec &: tuple1 (sequence vote_count_codec)).

(** ** Solidity encoding *)

Definition kFieldsSize : Z := 5.
Definition kArrayPosAndSize : Z := 2.
Definition kFieldsInVoteCount : Z := 2.

Definition encodeSolidity (b : SerialPillarBlock) : bytes :=
  let start := pack [EInt kStartPrefix] in
  let body := pack [EInt (pbft_period_ b); EHash (state_root_ b); EHash (previous_pillar_block_hash_ b); EHash (bridge_root_ b); EInt (epoch_ b)] in
  let array_position := wrap 8 ((kStartPrefixSize + kFieldsSize) * kWordSize) in
  let array_data := pack [EInt array_position; EInt (Z.of_nat (length (validators_votes_count_changes_ b)))] in
  start ++ body ++ array_data ++ flat_map (fun c => pack [EHash (addr_ c); EInt (vote_count_change_ c)]) (validators_votes_count_changes_ b).

Fixpoint decode_changes (n : nat) (array_data : bytes) : res (list ValidatorVoteCountChange) :=
  match n with
  | O => Ok []
  | S n =>
      let* addr := unpack_hash 20 array_data 0 in
      let* vote_count_change := unpack_int 64 array_data 1 in
      let* array_data := bytes_from array_data (2 * kWordSize) in
      let* l := decode_changes n array_data in
      Ok (mkVoteCountChange addr (to_signed 32 vote_count_change) :: l)
  end.

Definition decodeSolidity (enc : bytes) : res SerialPillarBlock :=
  let* _ := unpack_uint 64 enc 0 in
  let* period := unpack_uint 64 enc 1 in
  let* state_root := unpack_hash 32 enc 2 in
  let* previous := unpack_hash 32 enc 3 in
  let* bridge_root := unpack_hash 32 enc 4 in
  let* epoch := unpack_uint 64 enc 5 in
  let array_pos := (kStartPrefixSize + kFieldsSize) * kWordSize in
  let* array_data := bytes_from enc array_pos in
  let* _ := unpack_uint 64 array_data 0 in
  let* array_size := unpack_uint 64 array_data 1 in
  let* array_data := bytes_from array_data (kFieldsInVoteCount * kWordSize) in
  let* changes := decode_changes (Z.to_nat array_size) array_data in
  Ok (mkSerialPillarBlock period state_root previous bridge_root epoch changes).

(** ** Laws of the fields *)

Definition sint_item (i : Z) : item := if i <? 0 then Items [int_item (- i)] else int_item i.

Lemma int_item_isList i st w : 8 <= w <= 256 -> w mod 8 = 0 -> 0 <= i < 2 ^ w -> small (int_item i) ->
  requireGood (encode (int_item i)) = Ok tt /\ isList (encode (int_item i)) = false /\ toInt w (encode (int_item i)) st = Ok i.
Proof.
  intros Hw Hm Hi Hs. pose proof Hs as [Hok Hlt]. pose proof (encode_framed (int_item i) Hok) as Hf. cbn [int_item item_list item_payload] in Hf.
  pose proof (framed_read _ _ _ _ Hf Hok Hlt) as [HL _ _ HG _ _ _ _ _]. split_and!; [done|done|by apply toInt_item].
Qed.

Lemma read_signed_int fuel w i st : 8 <= w <= 256 -> w mod 8 = 0 -> 0 <= i < 2 ^ (w - 1) -> small (int_item i) -> read_signed (S fuel) w (encode (int_item i)) st = Ok i.
Proof.
  intros Hw Hm Hi Hs. pose proof (Z.pow_le_mono_r 2 (w - 1) w ltac:(lia) ltac:(lia)). destruct (int_item_isList i st w Hw Hm ltac:(lia) Hs) as (H1 & H2 & H3).
  cbn [read_signed]. rewrite H1, H2, H3. cbn [rbind]. f_equal. apply to_signed_id; lia.
Qed.

Lemma sint_ok w : 8 <= w <= 256 -> w mod 8 = 0 -> CodecOk (sint w) sint_item (fun i => - 2 ^ (w - 1) < i < 2 ^ (w - 1)).
Proof.
  intros Hw Hm. pose proof (Z.pow_le_mono_r 2 (w - 1) w ltac:(lia) ltac:(lia)) as Hp. split.
  - intros s i Hi Hs. cbn [sint c_enc]. unfold append_signed, sint_item in *. destruct (Z.ltb_spec i 0) as [Hn|Hn]; [|by apply (append_int_item s w); [..|lia|]].
    pose proof (Forall_inv (small_Items _ Hs)) as Hs1. rewrite <- (appendList_items s [int_item (- i)] 1 eq_refl). destruct (appendList s 1) as [s'| |]; [|done..]. cbn [rbind].
    rewrite <- write_last. apply (append_int_item s' w); [lia|done|lia|done].
  - intros i st Hi Hs. cbn [sint c_dec]. unfold toSigned, sint_item in *. destruct (Z.ltb_spec i 0) as [Hn|Hn]; [|apply read_signed_int; [lia|done|lia|done]].
    pose proof (Forall_inv (small_Items _ Hs)) as Hs1. pose proof Hs as [Hok Hlt]. pose proof (encode_framed _ Hok) as Hf. cbn [item_list item_payload] in Hf.
    pose proof (framed_read _ _ _ _ Hf Hok Hlt) as [HL _ _ HG _ _ _ _ _]. destruct (itemCount_encode _ Hs) as [Hc _].
    destruct (length (encode (Items [int_item (- i)]))) as [|n] eqn:El; [apply nil_length_inv in El; by apply encode_nonempty in El|].
    remember (S n) as fuel. cbn [read_signed]. rewrite HG, HL, Hc. cbn [rbind]. read_at Hs 0 0%nat. subst fuel. rewrite read_signed_int by (done || lia). cbn [rbind].
    replace (if ThrowOnFail st || FailIfTooBig st then require (Z.of_nat (length [int_item (- i)]) =? 1) BadCast else Ok tt) with (Ok tt : res unit) by (by destruct (_ || _)).
    cbn [rbind]. f_equal. rewrite Z.opp_involutive. apply to_signed_id; lia.
Qed.

Lemma codec_map_ok {A B} (make : A -> B) (fields : B -> A) c f ok okb : CodecOk c f ok -> (forall b, okb b -> ok (fields b) /\ make (fields b) = b) ->
  CodecOk (codec_map make fields c) (fun b => f (fields b)) okb.
Proof.
  intros [He Hd] Hb. split.
  - intros s b Hok Hs. cbn [codec_map c_enc]. apply He; [by apply Hb|done].
  - intros b st Hok Hs. cbn [codec_map c_dec]. destruct (Hb b Hok) as [Hf Hm]. rewrite Hd by done. cbn [rbind]. by rewrite Hm.
Qed.

(** ** Well-formed blocks and their items *)

Definition change_ok (c : ValidatorVoteCountChange) : Prop := length (addr_ c) = 20%nat /\ bytes_ok (addr_ c) /\ - 2 ^ 31 < vote_count_change_ c < 2 ^ 31.
Definition pillar_block_ok (b : SerialPillarBlock) : Prop :=
  0 <= pbft_period_ b < 2 ^ 64 /\ length (state_root_ b) = 32%nat /\ bytes_ok (state_root_ b) /\ length (previous_pillar_block_hash_ b) = 32%nat /\ bytes_ok (previous_pillar_block_hash_ b) /\
  length (bridge_root_ b) = 32%nat /\ bytes_ok (bridge_root_ b) /\ 0 <= epoch_ b < 2 ^ 64 /\ Forall change_ok (validators_votes_count_changes_ b) /\
  Z.of_nat (length (validators_votes_count_changes_ b)) < 2 ^ 32.

Definition change_item (c : ValidatorVoteCountChange) : item := Items [Data (addr_ c); sint_item (vote_count_change_ c)].
Definition pillar_block_items (b : SerialPillarBlock) : list item :=
  [int_item (pbft_period_ b); Data (state_root_ b); Data (previous_pillar_block_hash_ b); Data (bridge_root_ b); int_item (epoch_ b); Items (map change_item (validators_votes_count_changes_ b))].

Lemma change_codec_ok : CodecOk change_codec change_item change_ok.
Proof.
  refine (codec_map_ok (fun '(a, n) => mkVoteCountChange a n) (fun c => (addr_ c, vote_count_change_ c)) (rlp_tuple (hash 20 &: tuple1 (sint 32))) (fun ab => Items [Data ab.1; sint_item ab.2]) (fun ab => length ab.1 = 20%nat /\ - 2 ^ 31 < ab.2 < 2 ^ 31) change_ok _ _).
  - apply rlp_tuple_ok; [|simpl; lia]. exact (tuple_cons_ok _ _ _ _ _ _ (hash_ok 20) (tuple1_ok _ _ _ (sint_ok 32 ltac:(lia) eq_refl)) ltac:(simpl; lia)).
  - intros [a n] (H1 & H2 & H3). done.
Qed.

Lemma pillar_block_codec_ok : CodecOk pillar_block_codec (fun b => Items (pillar_block_items b)) pillar_block_ok.
Proof.
  pose proof change_codec_ok as Hch.
  assert (exists f ok, CodecOk (rlp_tuple (uint 64 &: hash 32 &: hash 32 &: hash 32 &: uint 64 &: tuple1 (sequence change_codec))) f ok /\
    (forall b, f (pillar_block_fields b) = Items (pillar_block_items b)) /\
    (forall b, pillar_block_ok b -> ok (pillar_block_fields b))) as (f & ok & Hc & Hf & Hok).
  { eexists _, _. split_and!; [codec_law; exact Hch|reflexivity|]. intros b (H1 & H2 & _ & H3 & _ & H4 & _ & H5 & H6 & _). simpl. done. }
  assert (forall b, pillar_block_ok b -> ok (pillar_block_fields b) /\ make_pillar_block (pillar_block_fields b) = b) as Hb by (intros b Hb; split; [by apply Hok|by destruct b]).
  destruct (codec_map_ok make_pillar_block pillar_block_fields _ f ok pillar_block_ok Hc Hb) as [He Hd].
  split.
  - intros s b Hbo Hs. rewrite <- Hf in *. by apply He.
  - intros b st Hbo Hs. rewrite <- Hf in *. by apply Hd.
Qed.

Lemma sint_small i : - 2 ^ 31 < i < 2 ^ 31 -> small (sint_item i) /\ bsize (encode (sint_item i)) <= 50.
Proof.
  intros Hi. unfold sint_item. destruct (Z.ltb_spec i 0).
  - destruct (small_items [int_item (- i)] 41) as [Hs Hb]; [|lia|simpl; lia|split; [done|etrans; [exact Hb|simpl; lia]]]. apply List.Forall_cons; [apply (small_int 32); lia|constructor].
  - destruct (small_int 32 i) as [Hs Hb]; [lia|lia|]. split; [done|lia].
Qed.

Lemma change_small c : change_ok c -> small (change_item c) /\ bsize (encode (change_item c)) <= 700.
Proof.
  intros (H1 & H2 & H3). destruct (small_items [Data (addr_ c); sint_item (vote_count_change_ c)] 300) as [Hs Hb]; [|lia|simpl; lia|split; [done|etrans; [exact Hb|simpl; lia]]].
  apply List.Forall_cons; [small1|]. apply List.Forall_cons; [|constructor]. eapply weaken_small; [by apply sint_small|lia].
Qed.

Lemma pillar_block_small b : pillar_block_ok b -> small (Items (pillar_block_items b)) /\ bsize (encode (Items (pillar_block_items b))) <= 2 ^ 56.
Proof.
  intros (H1 & H2 & H2' & H3 & H3' & H4 & H4' & H5 & H6 & H7). destruct (small_items (pillar_block_items b) (2 ^ 53)) as [Hs Hb]; [|lia|simpl; lia|split; [done|etrans; [exact Hb|simpl; lia]]].
  unfold pillar_block_items. assert (small (Items (map change_item (validators_votes_count_changes_ b))) /\ bsize (encode (Items (map change_item (validators_votes_count_changes_ b)))) <= 2 ^ 53); [|smalls].
  apply (map_small _ _ 700); [|lia|done]. eapply Forall_impl; [exact H6|]. apply change_small.
Qed.

Lemma pillar_block_rw b : pillar_block_ok b ->
  getRlp b = Ok (encode (Items (pillar_block_items b))) /\ newRLP (encode (Items (pillar_block_items b))) VeryStrict = Ok (encode (Items (pillar_block_items b))) /\ pillar_block_from (encode (Items (pillar_block_items b))) = Ok b.
Proof. intros Hb. apply (codec_roundtrip pillar_block_codec _ _ b LaissezFaire pillar_block_codec_ok Hb). by apply pillar_block_small. Qed.

(** ** Round trips *)

(** A pillar block is read back as it was written, also together with the votes for it. *)
Theorem pillar_block_data_roundtrip b votes : pillar_block_ok b -> votes <> [] -> Forall pillar_vote_ok votes -> (exists period h, Forall (fun v => sp_period v = period /\ sp_block_hash v = h) votes) ->
  Z.of_nat (length votes) < 2 ^ 32 ->
  (exists d, getRlp b = Ok d /\ newRLP d VeryStrict = Ok d /\ pillar_block_from d = Ok b) /\
  exists d, block_data_rlp (mkPillarBlockData b votes) = Ok d /\ newRLP d VeryStrict = Ok d /\ block_data_from d = Ok (mkPillarBlockData b votes).
Proof.
  intros Hb Hne Hv (period & h & Hsame) Hn. destruct (pillar_block_rw b Hb) as (E1 & E2 & E3). split; [by eexists|].
  destruct (last votes) as [r|] eqn:El; [|by apply last_None in El]. assert (r ∈ votes) as Hr by (apply last_Some in El as [l ->]; apply elem_of_app; right; by left).
  rewrite Forall_forall in Hsame. destruct (Hsame r Hr) as [<- <-]. rewrite <- Forall_forall in Hsame. pose proof (proj1 (Forall_forall _ _) Hv r Hr) as Hrok.
  destruct (pillar_bundle_item votes r El Hv Hsame Hn) as [V1 V2]. destruct (pillar_bundle_bound r votes Hrok Hv Hn) as [Hvs Hvb], (pillar_block_small b Hb) as [Hbs Hbb].
  assert (small (Items [Items (pillar_block_items b); Items (pillar_bundle_items r votes)])) as Hs.
  { apply (small_items _ (2 ^ 56)); [|lia|simpl; lia]. repeat (apply List.Forall_cons; [by split|]). constructor. }
  exists (encode (Items [Items (pillar_block_items b); Items (pillar_bundle_items r votes)])). split_and!.
  - unfold block_data_rlp. apply write_list; [done|done|]. intros s. cbn [block_ pillar_votes_]. rewrite E1, V1. cbn [rbind]. apply write_raw; [|done|done]. intros s'. by apply write_raw.
  - by apply newRLP_encode.
  - unfold block_data_from. destruct (itemCount_encode _ Hs) as [-> _]. cbn [rbind length]. change (negb (Z.of_nat 2 =? kRlpItemCount)) with false. cbv iota.
    read_at Hs 0 0%nat. rewrite E3. cbn [rbind]. read_at Hs 1 1%nat. rewrite V2. done.
Qed.

Definition vote_count_ok (c : bytes * Z) : Prop := length c.1 = 20%nat /\ bytes_ok c.1 /\ 0 <= c.2 < 2 ^ 64.

(** The entry of the database with the current pillar block and the vote counts of its period. *)
Theorem current_pillar_block_roundtrip b counts : (forall x, b = Some x -> pillar_block_ok x) -> Forall vote_count_ok counts -> Z.of_nat (length counts) < 2 ^ 32 ->
  exists d, rlp_enc current_block_codec (b, counts) = Ok d /\ newRLP d VeryStrict = Ok d /\ c_dec current_block_codec d LaissezFaire = Ok (b, counts).
Proof.
  intros Hb Hc Hn. set (block_item := match b with Some x => Items (pillar_block_items x) | None => Data [] end). set (count_item := fun c : bytes * Z => Items [Data c.1; int_item c.2]).
  assert (small block_item /\ bsize (encode block_item) <= 2 ^ 56) as Hbi. { unfold block_item. destruct b as [x|]; [by apply pillar_block_small, Hb|]. split; [split; [repeat constructor|]; done|done]. }
  assert (Forall (fun c => small (count_item c) /\ bsize (encode (count_item c)) <= 700) counts) as Hci.
  { eapply Forall_impl; [exact Hc|]. intros c (H1 & H2 & H3). destruct (small_items [Data c.1; int_item c.2] 300) as [Hs Hz]; [smalls|lia|simpl; lia|split; [done|etrans; [exact Hz|simpl; lia]]]. }
  destruct (map_small count_item counts 700 Hci ltac:(lia) Hn) as [Hcs Hcb]. assert (small (Items [block_item; Items (map count_item counts)])) as Hs.
  { apply (small_items _ (2 ^ 56)); [|lia|simpl; lia]. apply List.Forall_cons; [done|]. apply List.Forall_cons; [split; [done|lia]|constructor]. }
  exists (encode (Items [block_item; Items (map count_item counts)])).
  assert (exists f ok, CodecOk current_block_codec f ok /\ ok (b, counts) /\ f (b, counts) = Items [block_item; Items (map count_item counts)]) as (f & ok & Hco & Hok & Hf).
  { eexists _, _. split_and!.
    - unfold current_block_codec, vote_count_codec. apply rlp_tuple_ok; [|simpl; lia]. apply tuple_cons_ok; [|codec_law|simpl; lia].
      eapply optional_ok; [exact pillar_block_codec_ok|]. intros x Hx [Hxo Hxs]. pose proof (encode_framed _ Hxo) as Hfr. cbn [item_list item_payload] in Hfr.
      unfold pillar_block_items. cbn [encode]. set (p := flat_map _ _). assert (0 < bsize p) as Hp.
      { unfold p. cbn [flat_map]. rewrite bsize_app. pose proof (encode_nonempty (int_item (pbft_period_ x))). destruct (encode (int_item (pbft_period_ x))) as [|y l]; [done|]. rewrite bsize_cons. pose proof (bsize_nonneg l).
        match goal with |- context[bsize ?r] => pose proof (bsize_nonneg r) end. match goal with |- 0 < _ + bsize ?r => pose proof (bsize_nonneg r) end. lia. }
      unfold header. destruct (Z.ltb_spec (bsize p) 56); cbn [app isEmpty]; consts.
      + destruct (Z.eqb_spec (192 + bsize p) 128), (Z.eqb_spec (192 + bsize p) 192); lia || done.
      + pose proof (bsize_nonneg (pushInt (bsize p))). destruct (Z.eqb_spec (247 + bsize (pushInt (bsize p))) 128), (Z.eqb_spec (247 + bsize (pushInt (bsize p))) 192); lia || done.
    - simpl. split; [destruct b as [x|]; [by apply Hb|done]|]. eapply Forall_impl; [exact Hc|]. intros c (H1 & H2 & H3). done.
    - unfold block_item. by destruct b. }
  rewrite <- Hf in *. by apply (codec_roundtrip _ _ _ (b, counts) LaissezFaire Hco).
Qed.

Lemma Items_longer l : (length (flat_map encode l) < length (encode (Items l)))%nat.
Proof. cbn [encode]. rewrite length_app. unfold header. destruct (_ <? 56); simpl; lia. Qed.

(** A list of a list of a number is read as the number: the encoding of a change is not unique. *)
Theorem signed_not_canonical i : 0 < i < 2 ^ 31 ->
  encode (Items [Items [int_item i]]) <> encode (sint_item i) /\ toSigned 32 (encode (Items [Items [int_item i]])) LaissezFaire = Ok i /\ toSigned 32 (encode (sint_item i)) LaissezFaire = Ok i.
Proof.
  intros Hi. destruct (small_int 32 i) as [Hs1 Hb1]; [lia..|]. destruct (sint_small (- i)) as [Hs2 Hb2]; [lia|]. destruct (sint_small i) as [Hs4 Hb4]; [lia|].
  unfold sint_item in Hs2, Hb2. destruct (Z.ltb_spec (- i) 0); [|lia]. rewrite Z.opp_involutive in *.
  destruct (small_items [Items [int_item i]] 50) as [Hs3 _]; [apply List.Forall_cons; [by split|constructor]|lia|simpl; lia|]. split_and!.
  - intros E%encode_inj; [|done|done]. unfold sint_item in E. by destruct (Z.ltb_spec i 0); [lia|].
  - pose proof (dec_item (CodecOk := sint_ok 32 ltac:(lia) eq_refl) (- i) LaissezFaire) as Hd. cbn beta in Hd. unfold sint_item in Hd. destruct (Z.ltb_spec (- i) 0); [|lia]. rewrite Z.opp_involutive in Hd.
    specialize (Hd ltac:(simpl; lia) Hs2). cbn [sint c_dec] in Hd. unfold toSigned in *. pose proof Hs3 as [Hok Hlt]. pose proof (encode_framed _ Hok) as Hf. cbn [item_list item_payload] in Hf.
    pose proof (framed_read _ _ _ _ Hf Hok Hlt) as [HL _ _ HG _ _ _ _ _]. cbn [read_signed]. rewrite HG, HL. cbn [rbind LaissezFaire ThrowOnFail FailIfTooBig orb]. read_at Hs3 0 0%nat.
    assert (exists n, length (encode (Items [Items [int_item i]])) = (S (length (encode (Items [int_item i]))) + n)%nat) as [n ->].
    { pose proof (Items_longer [Items [int_item i]]) as Hl. cbn [flat_map] in Hl. rewrite app_nil_r in Hl. exists (length (encode (Items [Items [int_item i]])) - S (length (encode (Items [int_item i]))))%nat. lia. }
    assert (forall m, read_signed (S (length (encode (Items [int_item i]))) + m) 32 (encode (Items [int_item i])) LaissezFaire = Ok (- i)) as ->.
    { intros m. rewrite <- Hd. pose proof Hs2 as [Hok2 Hlt2]. pose proof (encode_framed _ Hok2) as Hf2. cbn [item_list item_payload] in Hf2. pose proof (framed_read _ _ _ _ Hf2 Hok2 Hlt2) as [HL2 _ _ HG2 _ _ _ _ _].
      destruct (length (encode (Items [int_item i]))) as [|k] eqn:El; [apply nil_length_inv in El; by apply encode_nonempty in El|]. cbn [Nat.add read_signed]. rewrite HG2, HL2. cbn [rbind LaissezFaire ThrowOnFail FailIfTooBig orb].
      read_at Hs2 0 0%nat. destruct (int_item_isList i LaissezFaire 32) as (-> & -> & _); [lia|done|lia|done|]. done. }
    cbn [rbind]. f_equal. rewrite Z.opp_involutive. apply to_signed_id; simpl; lia.
  - apply (dec_item (CodecOk := sint_ok 32 ltac:(lia) eq_refl) i LaissezFaire); [simpl; lia|done].
Qed.

(** ** Solidity encoding *)

Definition change_words (c : ValidatorVoteCountChange) : list element := [EHash (addr_ c); EInt (vote_count_change_ c)].

Lemma change_static c : change_ok c -> Forall static (change_words c).
Proof. intros (H1 & H2 & _). apply List.Forall_cons; [split; [split; [lia|done]|done]|]. apply List.Forall_cons; [by split|constructor]. Qed.

Lemma decode_changes_ok cs rest : Forall change_ok cs -> decode_changes (length cs) (flat_map (fun c => pack (change_words c)) cs ++ rest) = Ok cs.
Proof.
  intros Hcs. induction Hcs as [|c cs Hc _ IH]; [done|]. cbn [length flat_map decode_changes]. pose proof (change_static c Hc) as Hs. rewrite pack_static, <- app_assoc by done.
  set (tl := flat_map _ cs ++ rest) in *. destruct Hc as (H1 & H2 & H3). pose proof (unpack_static (change_words c) tl 0 _ Hs eq_refl) as U0. pose proof (unpack_static (change_words c) tl 1 _ Hs eq_refl) as [_ U1].
  cbn beta iota in U0. rewrite H1 in U0. change (Z.of_nat 0) with 0 in U0. change (Z.of_nat 1) with 1 in U1. rewrite U0, (U1 64) by lia. cbn [rbind]. rewrite (words_from _ tl (2 * kWordSize) (static_words _ Hs) eq_refl). cbn [rbind]. rewrite IH. cbn [rbind].
  rewrite (to_signed_id 64), (to_signed_id 32) by (simpl; lia). by destruct c.
Qed.

(** The Solidity encoding of a pillar block is read back as the block; so the hash of a block, which is the hash of this encoding,
    determines the block as far as the hash function has no collision. *)
Theorem solidity_roundtrip b b' : pillar_block_ok b -> pillar_block_ok b' -> decodeSolidity (encodeSolidity b) = Ok b /\ (encodeSolidity b = encodeSolidity b' <-> b = b').
Proof.
  assert (forall b, pillar_block_ok b -> decodeSolidity (encodeSolidity b) = Ok b) as Hrt.
  { clear b b'. intros b (H1 & H2 & H2' & H3 & H3' & H4 & H4' & H5 & H6 & H7).
    set (args1 := [EInt kStartPrefix; EInt (pbft_period_ b); EHash (state_root_ b); EHash (previous_pillar_block_hash_ b); EHash (bridge_root_ b); EInt (epoch_ b)]).
    set (args2 := [EInt 192; EInt (Z.of_nat (length (validators_votes_count_changes_ b)))]). set (tl := flat_map (fun c => pack (change_words c)) (validators_votes_count_changes_ b) ++ []).
    assert (Forall static args1) as Hs1 by (repeat (apply List.Forall_cons; [split; [first [done|split; [lia|done]]|done]|]); constructor).
    assert (Forall static args2) as Hs2 by (repeat (apply List.Forall_cons; [by split|]); constructor).
    assert (encodeSolidity b = concat (packElemement <$> args1) ++ concat (packElemement <$> args2) ++ tl) as ->.
    { unfold encodeSolidity, tl. rewrite app_nil_r. inversion Hs1 as [|? ? X1 X2]; subst. rewrite (pack_static [EInt kStartPrefix]) by (by repeat constructor || done).
      rewrite (pack_static [EInt (pbft_period_ b); _; _; _; _]) by done. rewrite (pack_static [EInt _; EInt (Z.of_nat _)]) by done. unfold args1. cbn [fmap list_fmap concat]. by rewrite <- !app_assoc. }
    unfold decodeSolidity. set (tl2 := concat (packElemement <$> args2) ++ tl).
    pose proof (unpack_static args1 tl2 0 _ Hs1 eq_refl) as [U0 _]. pose proof (unpack_static args1 tl2 1 _ Hs1 eq_refl) as [U1 _]. pose proof (unpack_static args1 tl2 2 _ Hs1 eq_refl) as U2.
    pose proof (unpack_static args1 tl2 3 _ Hs1 eq_refl) as U3. pose proof (unpack_static args1 tl2 4 _ Hs1 eq_refl) as U4. pose proof (unpack_static args1 tl2 5 _ Hs1 eq_refl) as [U5 _].
    cbn beta iota in U2, U3, U4. rewrite H2 in U2. rewrite H3 in U3. rewrite H4 in U4. change (Z.of_nat 0) with 0 in U0. change (Z.of_nat 1) with 1 in U1. change (Z.of_nat 2) with 2 in U2.
    change (Z.of_nat 3) with 3 in U3. change (Z.of_nat 4) with 4 in U4. change (Z.of_nat 5) with 5 in U5. rewrite (U0 64), (U1 64), U2, U3, U4, (U5 64) by lia. cbn [rbind].
    rewrite (words_from _ tl2 ((kStartPrefixSize + kFieldsSize) * kWordSize) (static_words _ Hs1) eq_refl). cbn [rbind]. unfold tl2.
    pose proof (unpack_static args2 tl 0 _ Hs2 eq_refl) as [V0 _]. pose proof (unpack_static args2 tl 1 _ Hs2 eq_refl) as [V1 _]. change (Z.of_nat 0) with 0 in V0. change (Z.of_nat 1) with 1 in V1.
    rewrite (V0 64), (V1 64) by lia. cbn [rbind]. rewrite (words_from _ tl (kFieldsInVoteCount * kWordSize) (static_words _ Hs2) eq_refl). cbn [rbind].
    rewrite (wrap_id 64 (Z.of_nat _)) by (unfold in_range, modulus; lia). rewrite Nat2Z.id. unfold tl. rewrite decode_changes_ok by done. cbn [rbind].
    rewrite !wrap_id by (unfold in_range, modulus; lia). by destruct b. }
  intros Hb Hb'. split; [by apply Hrt|]. split; [|by intros ->]. intros E. pose proof (Hrt b Hb) as R. rewrite E, (Hrt b' Hb') in R. congruence.
Qed.

(** ** Witnesses *)

Definition sample_pillar_block : SerialPillarBlock :=
  mkSerialPillarBlock 4000 (replicate 32 1) (replicate 32 2) (replicate 32 3) 7 [mkVoteCountChange (replicate 20 4) (-5); mkVoteCountChange (replicate 20 5) 300].

Lemma sample_pillar_block_ok : pillar_block_ok sample_pillar_block.
Proof.
  assert (forall n b, 0 <= b < 256 -> length (replicate n b) = n /\ bytes_ok (replicate n b)) as Hr by (intros n b Hb; split; [apply length_replicate|by apply Forall_replicate]).
  assert (Forall change_ok (validators_votes_count_changes_ sample_pillar_block)) as Hc.
  { repeat (apply List.Forall_cons; [split_and!; [apply Hr; lia|apply Hr; lia|simpl; lia|simpl; lia]|]). constructor. }
  unfold pillar_block_ok. split_and!; try exact Hc; try (apply Hr; lia); simpl; lia.
Qed.

Lemma pillar_block_data_roundtrip_witness :
  exists d, block_data_rlp (mkPillarBlockData sample_pillar_block [sample_pillar_vote 1; sample_pillar_vote 2]) = Ok d /\ newRLP d VeryStrict = Ok d /\
    block_data_from d = Ok (mkPillarBlockData sample_pillar_block [sample_pillar_vote 1; sample_pillar_vote 2]).
Proof.
  apply (pillar_block_data_roundtrip sample_pillar_block [sample_pillar_vote 1; sample_pillar_vote 2] sample_pillar_block_ok); [done| | |done].
  - repeat (apply List.Forall_cons; [repeat split; try done; apply Forall_replicate; unfold byte_ok; lia|]); constructor.
  - exists 4000, (replicate 32 7). repeat (apply List.Forall_cons; [done|]). constructor.
Defined.

Lemma solidity_roundtrip_witness : decodeSolidity (encodeSolidity sample_pillar_block) = Ok sample_pillar_block.
Proof. apply (solidity_roundtrip sample_pillar_block sample_pillar_block sample_pillar_block_ok sample_pillar_block_ok). Defined.
