(* ===== verification/TrieHash.v ===== *)
(** * Roots of tries

    [hash256] (final_chain/trie_common.cpp): the root of the Merkle Patricia trie of a map, which the header of a
    block has for its transactions and for their receipts.  A [std::map] of byte strings is the list of
    its entries in their order; the hash function is an argument. *)

From Stdlib Require Import Sorting.Sorted.
From S2P Require Import Prelude Rlp RlpStream RlpRead RlpItems RlpCodec.
Local Open Scope Z_scope.
Local Open Scope rlp_scope.
#[local] Hint Resolve bsize_nonneg : core.

Abbreviation entry := (bytes * bytes)%type.

(** ** Maps of byte strings *)

Fixpoint bytes_ltb (a b : bytes) : bool :=
  match a, b with
  | _, [] => false
  | [], _ :: _ => true
  | x :: a, y :: b => (x <? y) || ((x =? y) && bytes_ltb a b)
  end.

(** [m[k] = v]. *)
Fixpoint map_assign (k v : bytes) (m : list entry) : list entry :=
  match m with
  | [] => [(k, v)]
  | (k', v') :: m' => if bytes_ltb k k' then (k, v) :: m else if bool_decide (k = k') then (k, v) :: m' else (k', v') :: map_assign k v m'
  end.

Definition asNibbles (s : bytes) : bytes := flat_map (fun i => [i / 16; i mod 16]) s.

(** ** Nodes *)

(** The nibbles of a path, two in a byte. *)
Fixpoint nibble_pairs (l : bytes) : bytes := match l with a :: b :: l => wrap 8 (a * 16 + b) :: nibble_pairs l | _ => [] end.

Definition hexPrefixEncode (hexVector : bytes) (leaf : bool) (begin_ end_ : Z) : res bytes :=
  if (end_ <? begin_) || (bsize hexVector <? end_) then OutOfBounds
  else
    let path := take (Z.to_nat (end_ - begin_)) (drop (Z.to_nat begin_) hexVector) in
    let odd := negb ((end_ - begin_) mod 2 =? 0) in
    let first := wrap 8 (Z.lor (if leaf then 2 else 0) (if odd then 1 else 0) * 16) in
    match odd, path with
    | true, x :: path => Ok (Z.lor first x :: nibble_pairs path)
    | _, _ => Ok (first :: nibble_pairs path)
    end.

(** The nibbles that two keys share, from [shared] on and below [x]. *)
Fixpoint shared_nibbles (fuel : nat) (k k' : bytes) (shared x : Z) : Z :=
  match fuel with
  | O => shared
  | S fuel => if (shared <? x) && bool_decide (k !! Z.to_nat shared = k' !! Z.to_nat shared) then shared_nibbles fuel k k' (shared + 1) x else shared
  end.

Fixpoint shared_pre (k : bytes) (preLen sharedPre : Z) (rest : list entry) : Z :=
  match rest with
  | [] => sharedPre
  | (k', _) :: rest =>
      if sharedPre =? 0 then sharedPre
      else
        let x := Z.min sharedPre (Z.min (bsize k) (bsize k')) in
        shared_pre k preLen (Z.min (shared_nibbles (length k) k k' preLen x) sharedPre) rest
  end.

(** Entries with the nibble [i] at [preLen], and the entries behind them. *)
Fixpoint same_nibble (i preLen : Z) (b : list entry) : res (list entry * list entry) :=
  match b with
  | [] => Ok ([], [])
  | (k, v) :: b' =>
      let* x := byte_at k preLen in
      if x =? i then let* (g, n) := same_nibble i preLen b' in Ok ((k, v) :: g, n) else Ok ([], b)
  end.

Section hash.
Variable sha3 : bytes -> bytes.

Fixpoint hash256rlp (fuel : nat) (s : list entry) (preLen : Z) (rlp : RLPStream) : res RLPStream :=
  match fuel with
  | O => OutOfBounds
  | S fuel =>
      let hash256aux (s : list entry) (preLen : Z) (rlp : RLPStream) : res RLPStream :=
        let* r := hash256rlp fuel s preLen newRLPStream in
        let* out := stream_out r in
        if bsize out <? 32 then appendRaw rlp out 1 else append rlp (sha3 out) false in
      match s with
      | [] => append rlp [] false
      | [(k, v)] =>
          let* rlp := appendList rlp 2 in
          let* h := hexPrefixEncode k true preLen (bsize k) in
          let* rlp := append rlp h false in
          append rlp v false
      | (k, v) :: rest =>
          let sharedPre := shared_pre k preLen (2 ^ 32 - 1) rest in
          if preLen <? sharedPre then
            let* rlp := appendList rlp 2 in
            let* h := hexPrefixEncode k false preLen sharedPre in
            let* rlp := append rlp h false in
            hash256aux s sharedPre rlp
          else
            let* rlp := appendList rlp 17 in
            let b := if preLen =? bsize k then rest else s in
            let* (rlp, _) :=
              rfold (fun '(rlp, b) i =>
                let* (g, n) := same_nibble i preLen b in
                let* rlp := (match g with [] => append rlp [] false | _ => hash256aux g (preLen + 1) rlp end) in
                Ok (rlp, n)) (seqZ 0 16) (rlp, b) in
            append rlp (if preLen =? bsize k then v else []) false
      end
  end.

(** The length of the longest key bounds the depth. *)
Definition depth (s : list entry) : nat := S (max_list (map (fun e => length e.1) s)).

Definition hash256 (s : list entry) : res bytes :=
  match s with
  | [] => let* e := append newRLPStream [] false in let* out := stream_out e in Ok (sha3 out)
  | _ =>
      let hexMap := foldl (fun m '(k, v) => map_assign (asNibbles k) v m) [] (rev s) in
      let* r := hash256rlp (depth hexMap) hexMap 0 newRLPStream in
      let* out := stream_out r in
      Ok (sha3 out)
  end.

(** The trie of a block: the entries by the encoding of their index. *)
Definition block_trie (values : list bytes) : res (list entry) :=
  let* keys := rmap (fun i => rlp_enc (uint 64) i) (seqZ 0 (Z.of_nat (length values))) in
  Ok (foldl (fun m '(k, v) => map_assign k v m) [] (zip keys values)).
End hash.

Example hash_of_one : hash256 (fun b => b) [([1], [2; 3])] = Ok [198; 130; 32; 1; 130; 2; 3].
Proof. vm_compute. reflexivity. Qed.

(** ** The trie as items *)

Fixpoint common_prefix (a b : bytes) : bytes :=
  match a, b with x :: a, y :: b => if x =? y then x :: common_prefix a b else [] | _, _ => [] end.
Definition lcp (k : bytes) (rest : list entry) : bytes := foldl (fun p e => common_prefix p e.1) k rest.

(** The path of a leaf or of an extension. *)
Definition path_bytes (leaf : bool) (path : bytes) : bytes :=
  if Nat.even (length path) then (if leaf then 32 else 0) :: nibble_pairs path
  else match path with x :: path => (if leaf then 48 else 16) + x :: nibble_pairs path | [] => [] end.

(** Entries behind a nibble, and behind a path. *)
Definition group (i : Z) (l : list entry) : list entry := omap (fun e => match e.1 with x :: k => if x =? i then Some (k, e.2) else None | [] => None end) l.
Definition strip (n : nat) (l : list entry) : list entry := map (fun e => (drop n e.1, e.2)) l.
Definition value_here (l : list entry) : bytes := match l with ([], v) :: _ => v | _ => [] end.
Definition under (p : bytes) (l : list entry) : list entry := map (fun e => (p ++ e.1, e.2)) l.

Section items.
Variable sha3 : bytes -> bytes.

Definition ref_of (it : item) : item := if bsize (encode it) <? 32 then it else Data (sha3 (encode it)).

Fixpoint node (fuel : nat) (l : list entry) : item :=
  match fuel with
  | O => Data []
  | S fuel =>
      let ref (l : list entry) := match l with [] => Data [] | _ => ref_of (node fuel l) end in
      match l with
      | [] => Data []
      | [(k, v)] => Items [Data (path_bytes true k); Data v]
      | (k, v) :: rest =>
          match lcp k rest with
          | [] => Items (map (fun i => ref (group i l)) (seqZ 0 16) ++ [Data (value_here l)])
          | p => Items [Data (path_bytes false p); ref (strip (length p) l)]
          end
      end
  end.
Definition ref (fuel : nat) (l : list entry) : item := match l with [] => Data [] | _ => ref_of (node fuel l) end.
End items.

Lemma node_many sha3 fuel k v e rest : let l := (k, v) :: e :: rest in
  node sha3 (S fuel) l = match lcp k (e :: rest) with
    | [] => Items (map (fun i => ref sha3 fuel (group i l)) (seqZ 0 16) ++ [Data (value_here l)])
    | q => Items [Data (path_bytes false q); ref sha3 fuel (strip (length q) l)] end.
Proof. reflexivity. Qed.

(** ** Sorted entries *)

Definition nibbles_ok (k : bytes) : Prop := Forall (fun x => 0 <= x < 16) k.
Definition sorted (l : list entry) : Prop := StronglySorted (fun a b => bytes_ltb a.1 b.1 = true) l.
Definition keys_ok (l : list entry) : Prop := Forall (fun e => nibbles_ok e.1) l.

Lemma bytes_ltb_irrefl a : bytes_ltb a a = false.
Proof. induction a as [|x a IH]; [done|]. cbn [bytes_ltb]. by rewrite Z.ltb_irrefl, Z.eqb_refl, IH. Qed.

Lemma bytes_ltb_app p a b : bytes_ltb (p ++ a) (p ++ b) = bytes_ltb a b.
Proof. induction p as [|x p IH]; [done|]. cbn [app bytes_ltb]. by rewrite Z.ltb_irrefl, Z.eqb_refl, IH. Qed.

Lemma sorted_under p l : sorted (under p l) <-> sorted l.
Proof.
  unfold sorted, under. induction l as [|e l IH]; [done|]. cbn [map]. split; intros H; inversion H as [|? ? H1 H2]; subst; constructor; [by apply IH| |by apply IH|].
  - apply Forall_map in H2. eapply Forall_impl; [exact H2|]. intros e' He. cbn [fst] in He. by rewrite bytes_ltb_app in He.
  - apply Forall_map. eapply Forall_impl; [exact H2|]. intros e' He. cbn [fst]. by rewrite bytes_ltb_app.
Qed.

(** The entries by their first nibble: the one with the empty key, then those of nibble [i], [i + 1] and so on. *)
Lemma sorted_groups n : forall i l, sorted l -> Forall (fun e => exists x k, e.1 = x :: k /\ i <= x < i + Z.of_nat n) l ->
  l = flat_map (fun j => under [j] (group j l)) (seqZ i (Z.of_nat n)).
Proof.
  induction n as [|n IH]; intros i l Hs Hk.
  - destruct l as [|e l]; [done|]. apply Forall_inv in Hk as (x & k & _ & Hx). lia.
  - assert (exists g r, l = under [i] g ++ r /\ Forall (fun e => exists x k, e.1 = x :: k /\ i + 1 <= x < i + 1 + Z.of_nat n) r) as (g & r & -> & Hr).
    { induction Hs as [|e l Hs IHs Hlt]; [by exists [], []|]. apply Forall_cons in Hk as [(x & k & Ek & Hx) Hk]. destruct e as [k0 v]. cbn [fst] in *. subst k0.
      destruct (Z.eq_dec x i) as [->|Hne].
      - destruct (IHs Hk) as (g & r & -> & Hr). by exists ((k, v) :: g), r.
      - exists [], ((x :: k, v) :: l). split; [done|]. constructor; [exists x, k; split; [done|lia]|]. rewrite Forall_forall in *. intros e' He'. destruct (Hk e' He') as (y & k' & E' & Hy).
        exists y, k'. split; [done|]. specialize (Hlt e' He'). cbn [fst] in Hlt. rewrite E' in Hlt. cbn [bytes_ltb] in Hlt.
        destruct (Z.ltb_spec x y); [lia|]. destruct (Z.eqb_spec x y); [lia|done]. }
    assert (group i (under [i] g ++ r) = g) as Eg.
    { unfold group. rewrite omap_app. assert (omap (fun e => match e.1 with x :: k => if x =? i then Some (k, e.2) else None | [] => None end) r = []) as ->.
      - clear Hk Hs. induction Hr as [|e r (x & k & E & Hx) _ IHr]; [done|]. simpl. rewrite E. destruct (Z.eqb_spec x i); [lia|exact IHr].
      - rewrite app_nil_r. clear. induction g as [|[k v] g IH]; [done|]. simpl. rewrite Z.eqb_refl. f_equal. exact IH. }
    assert (forall j, i < j -> group j (under [i] g ++ r) = group j r) as Ej.
    { intros j Hj. unfold group. rewrite omap_app. assert (omap (fun e => match e.1 with x :: k => if x =? j then Some (k, e.2) else None | [] => None end) (under [i] g) = []) as ->; [|done].
      clear -Hj. induction g as [|[k v] g IH]; [done|]. simpl. destruct (Z.eqb_spec i j); [lia|exact IH]. }
    rewrite seqZ_cons by lia. cbn [flat_map]. rewrite Eg. f_equal. replace (Z.pred (Z.of_nat (S n))) with (Z.of_nat n) by lia.
    assert (sorted r) as Hsr. { clear -Hs. induction (under [i] g) as [|e l IH]; [done|]. inversion Hs; subst. by apply IH. }
    rewrite (IH (Z.succ i) r) at 1; [|done|eapply Forall_impl; [exact Hr|intros e (x & k & ? & ?); exists x, k; split; [done|lia]]].
    assert (Forall (fun j => i < j) (seqZ (Z.succ i) (Z.of_nat n))) as Hj by (apply Forall_forall; intros j Hj%elem_of_seqZ; lia).
    clear -Hj Ej. induction Hj as [|j js Hj _ IH]; [done|]. cbn [flat_map]. by rewrite Ej, IH.
Qed.

(** ** Paths *)

Lemma lor_nibble x : 0 <= x < 16 -> Z.lor 16 x = 16 + x /\ Z.lor 48 x = 48 + x.
Proof. intros Hx. destruct x as [|q|q]; [done| |lia]. do 4 (destruct q as [q|q|]; try done). all: lia. Qed.

Lemma even_mod (q : bytes) : (bsize q mod 2 =? 0) = Nat.even (length q).
Proof.
  unfold bsize. destruct (Nat.even (length q)) eqn:E.
  - apply Nat.even_spec in E as [m ->]. apply Z.eqb_eq. rewrite Nat2Z.inj_mul, Z.mul_comm. apply Z.mod_mul. lia.
  - rewrite <- Nat.negb_odd in E. apply negb_false_iff, Nat.odd_spec in E as [m ->]. apply Z.eqb_neq. replace (Z.of_nat (2 * m + 1)) with (1 + Z.of_nat m * 2) by lia. rewrite Z.mod_add by lia. done.
Qed.

Lemma hexPrefixEncode_path p q r leaf : nibbles_ok q -> hexPrefixEncode (p ++ q ++ r) leaf (bsize p) (bsize p + bsize q) = Ok (path_bytes leaf q).
Proof.
  intros Hq. unfold hexPrefixEncode. rewrite !bsize_app. pose proof (bsize_nonneg q). pose proof (bsize_nonneg r). destruct (Z.ltb_spec (bsize p + bsize q) (bsize p)); [lia|].
  destruct (Z.ltb_spec (bsize p + (bsize q + bsize r)) (bsize p + bsize q)); [lia|]. cbn [orb]. replace (bsize p + bsize q - bsize p) with (bsize q) by lia.
  assert (Z.to_nat (bsize p) = length p /\ Z.to_nat (bsize q) = length q) as [-> ->] by (unfold bsize; lia). rewrite drop_app_length, take_app_length, even_mod. unfold path_bytes.
  destruct (Nat.even (length q)) eqn:E; cbn [negb]; [by destruct leaf|]. destruct q as [|x q]; [done|]. apply Forall_cons in Hq as [Hx _].
  destruct (lor_nibble x Hx) as [Ho1 Ho2]. destruct leaf; cbn [Z.lor]; f_equal; f_equal; [exact Ho2|exact Ho1].
Qed.

(** ** Shared nibbles *)

Lemma common_prefix_le a : forall b, bsize (common_prefix a b) <= bsize a /\ bsize (common_prefix a b) <= bsize b.
Proof.
  induction a as [|x a IH]; intros b; cbn [common_prefix]; [change (bsize []) with 0; split; [done|apply bsize_nonneg]|]. destruct b as [|y b]; [split; [apply bsize_nonneg|done]|].
  destruct (x =? y); [|change (bsize []) with 0; split; apply bsize_nonneg]. rewrite !bsize_cons. specialize (IH b). lia.
Qed.

Lemma shared_nibbles_spec k : forall fuel a k' x, (length k <= fuel)%nat -> bsize a <= x -> x <= bsize a + bsize k -> x <= bsize a + bsize k' ->
  shared_nibbles fuel (a ++ k) (a ++ k') (bsize a) x = Z.min x (bsize a + bsize (common_prefix k k')).
Proof.
  induction k as [|y k IH]; intros fuel a k' x Hf Ha Hx Hx'.
  - change (bsize []) with 0 in Hx. change (bsize (common_prefix [] k')) with 0. destruct fuel; cbn [shared_nibbles]; [lia|]. destruct (Z.ltb_spec (bsize a) x); [lia|]. simpl. lia.
  - destruct fuel as [|fuel]; [simpl in Hf; lia|]. cbn [shared_nibbles]. destruct (Z.ltb_spec (bsize a) x) as [Hlt|Hge]; cbn [andb].
    2: { pose proof (bsize_nonneg (common_prefix (y :: k) k')) as Hc. assert (x = bsize a) as -> by lia. lia. }
    destruct k' as [|y' k']; [change (bsize []) with 0 in Hx'; lia|]. assert (Z.to_nat (bsize a) = length a) as -> by (unfold bsize; lia). rewrite !list_lookup_middle by done. cbn [common_prefix].
    destruct (Z.eqb_spec y y') as [<-|Hne].
    + rewrite bool_decide_true by done. pose proof (IH fuel (a ++ [y]) k' x) as IH'. rewrite <- !app_assoc in IH'. cbn [app] in IH'. rewrite bsize_app in IH'. change (bsize [y]) with 1 in IH'. rewrite !bsize_cons in *.
      rewrite IH' by (simpl in Hf; lia). lia.
    + rewrite bool_decide_false by congruence. change (bsize []) with 0. lia.
Qed.

Lemma prefix_common q k k' : q `prefix_of` k -> common_prefix q k' `prefix_of` k /\ bsize (common_prefix q k') = Z.min (bsize q) (bsize (common_prefix k k')).
Proof.
  intros [r ->]. revert k'. induction q as [|x q IH]; intros k'; cbn [common_prefix app].
  - split; [by apply prefix_nil|]. change (bsize []) with 0. match goal with |- context[bsize ?c] => pose proof (bsize_nonneg c) end. lia.
  - destruct k' as [|y k']; [split; [apply prefix_nil|change (bsize []) with 0; pose proof (bsize_nonneg (x :: q)); lia]|]. destruct (x =? y); [|split; [apply prefix_nil|change (bsize []) with 0; pose proof (bsize_nonneg (x :: q)); lia]].
    destruct (IH k') as [IH1 IH2]. split; [by apply prefix_cons|]. rewrite !bsize_cons. lia.
Qed.

Lemma shared_step p k k' sp : bsize p <= sp ->
  Z.min (shared_nibbles (length (p ++ k)) (p ++ k) (p ++ k') (bsize p) (Z.min sp (Z.min (bsize (p ++ k)) (bsize (p ++ k'))))) sp = Z.min sp (bsize p + bsize (common_prefix k k')).
Proof.
  intros Hsp. pose proof (common_prefix_le k k'). pose proof (bsize_nonneg k). pose proof (bsize_nonneg k'). rewrite !bsize_app, shared_nibbles_spec by (rewrite ?length_app; lia). lia.
Qed.

Lemma shared_pre_prefix p k rest : forall q, q `prefix_of` k ->
  shared_pre (p ++ k) (bsize p) (bsize p + bsize q) (under p rest) = bsize p + bsize (foldl (fun p e => common_prefix p e.1) q rest).
Proof.
  induction rest as [|[k' v'] rest IH]; intros q Hq; [done|]. cbn [under map shared_pre foldl fst snd]. fold (under p rest). pose proof (bsize_nonneg p). pose proof (bsize_nonneg q).
  destruct (prefix_common q k k' Hq) as [Hq' Hlen]. rewrite shared_step by lia. rewrite <- (IH _ Hq'). rewrite Hlen. replace (Z.min (bsize p + bsize q) (bsize p + bsize (common_prefix k k'))) with (bsize p + Z.min (bsize q) (bsize (common_prefix k k'))) by lia.
  destruct (Z.eqb_spec (bsize p + bsize q) 0) as [E|]; [|done]. pose proof (bsize_nonneg (common_prefix k k')). replace (bsize p + Z.min (bsize q) (bsize (common_prefix k k'))) with 0 by lia. rewrite E.
  destruct rest as [|[k2 v2] rest]; done.
Qed.

Lemma shared_pre_lcp p k rest : rest <> [] -> bsize p + bsize k < 2 ^ 32 - 1 -> shared_pre (p ++ k) (bsize p) (2 ^ 32 - 1) (under p rest) = bsize p + bsize (lcp k rest).
Proof.
  intros Hne Hb. destruct rest as [|[k' v'] rest]; [done|]. unfold lcp. cbn [under map shared_pre foldl fst snd]. fold (under p rest). pose proof (bsize_nonneg p). pose proof (bsize_nonneg k).
  destruct (prefix_common k k k' (ex_intro _ [] (eq_sym (app_nil_r k)))) as [Hq' Hlen]. destruct (Z.eqb_spec (2 ^ 32 - 1) 0); [lia|]. rewrite shared_step by lia. rewrite <- (shared_pre_prefix p k rest _ Hq').
  f_equal. pose proof (common_prefix_le k k'). lia.
Qed.

(** ** Entries under a path *)

Record entries_ok (l : list entry) : Prop := {
  eo_sorted : sorted l;
  eo_entry : Forall (fun e => nibbles_ok e.1 /\ bytes_ok e.2 /\ bsize e.2 < 2 ^ 50 /\ bsize e.1 < 2 ^ 31) l;
}.

Lemma under_app p q l : under (p ++ q) l = under p (under q l).
Proof. unfold under. rewrite map_map. apply map_ext. intros [k v]. cbn. by rewrite app_assoc. Qed.

Lemma under_ok p l : entries_ok (under p l) -> entries_ok l.
Proof.
  intros [H1 H2]. split; [by apply sorted_under in H1|]. unfold under in H2. apply Forall_map in H2. eapply Forall_impl; [exact H2|]. intros [k v]. cbn [fst snd]. rewrite bsize_app.
  pose proof (bsize_nonneg p). intros ([_ Hk]%Forall_app & Hv & Hs & Hl). split_and!; [done|done|done|lia].
Qed.

Lemma app_ok l r : entries_ok (l ++ r) -> entries_ok l /\ entries_ok r.
Proof.
  intros [H1 H2]. apply Forall_app in H2 as [H2 H3]. unfold sorted in H1. split; split; try done; clear H2 H3.
  - induction l as [|e l IH]; [constructor|]. inversion H1 as [|? ? Ha Hb]; subst. constructor; [by apply IH|]. by apply Forall_app in Hb as [Hb _].
  - induction l as [|e l IH]; [done|]. inversion H1; subst. by apply IH.
Qed.

(** Entries that are not the only one and do not all go on with one nibble: the value at this place, then the groups. *)
Definition here (l : list entry) : list entry := match l with ([], v) :: _ => [([], v)] | _ => [] end.

Lemma branch_groups l : entries_ok l -> l = here l ++ flat_map (fun j => under [j] (group j l)) (seqZ 0 16).
Proof.
  intros [Hs He]. assert (forall l, sorted l -> Forall (fun e => nibbles_ok e.1) l -> Forall (fun e => e.1 <> []) l -> l = flat_map (fun j => under [j] (group j l)) (seqZ 0 16)) as Hg.
  { clear. intros l Hs Hk Hne. apply (sorted_groups 16); [done|]. rewrite Forall_forall in *. intros e Hin. specialize (Hk e Hin). specialize (Hne e Hin). destruct (e.1) as [|x k]; [done|].
    apply Forall_cons in Hk as [Hx _]. exists x, k. split; [done|lia]. }
  assert (Forall (fun e => nibbles_ok e.1) l) as Hk by (eapply Forall_impl; [exact He|by intros e (? & _)]). destruct l as [|[k v] l]; [done|]. inversion Hs as [|? ? Hs' Hlt]; subst.
  assert (Forall (fun e => e.1 <> []) l) as Hne. { rewrite Forall_forall in *. intros e Hin E. specialize (Hlt e Hin). rewrite E in Hlt. by destruct k. }
  apply Forall_cons in Hk as [Hk1 Hk]. destruct k as [|x k]; [|apply Hg; [exact Hs|apply List.Forall_cons; [exact Hk1|exact Hk]|apply List.Forall_cons; [discriminate|exact Hne]]]. cbn [here app]. f_equal.
  rewrite (Hg l Hs' Hk Hne) at 1. reflexivity.
Qed.

Lemma group_ok j l : entries_ok l -> 0 <= j < 16 -> entries_ok (group j l).
Proof.
  intros Hl Hj. pose proof (branch_groups l Hl) as E. rewrite E in Hl. apply app_ok in Hl as [_ Hl]. clear E.
  assert (forall js, j ∈ js -> entries_ok (flat_map (fun j => under [j] (group j l)) js) -> entries_ok (group j l)) as H; [|by apply (H (seqZ 0 16)); [apply elem_of_seqZ; lia|]].
  clear. intros js Hin. induction js as [|i js IH]; [by apply elem_of_nil in Hin|]. cbn [flat_map]. intros [H1 H2]%app_ok. apply elem_of_cons in Hin as [->|Hin]; [by apply under_ok in H1|by apply IH].
Qed.

Lemma lcp_under k v rest : exists l', (k, v) :: rest = under (lcp k rest) l' /\ strip (length (lcp k rest)) ((k, v) :: rest) = l'.
Proof.
  assert (forall q (rest : list entry), q `prefix_of` k -> foldl (fun p e => common_prefix p e.1) q rest `prefix_of` q /\ Forall (fun e => foldl (fun p e => common_prefix p e.1) q rest `prefix_of` e.1) rest) as Hp.
  { clear. intros q rest. revert q. induction rest as [|[k' v'] rest IH]; intros q Hq; cbn [foldl fst]; [split; [done|constructor]|].
    assert (common_prefix q k' `prefix_of` q /\ common_prefix q k' `prefix_of` k') as [H1 H2].
    { clear. revert k'. induction q as [|x q IH]; intros k'; cbn [common_prefix]; [split; apply prefix_nil|]. destruct k' as [|y k']; [split; apply prefix_nil|].
      destruct (Z.eqb_spec x y) as [->|]; [|split; apply prefix_nil]. destruct (IH k') as [IH1 IH2]. split; by apply prefix_cons. }
    destruct (IH (common_prefix q k')) as [H3 H4]; [by transitivity q|]. split; [by transitivity (common_prefix q k')|]. apply List.Forall_cons; [by transitivity (common_prefix q k')|done]. }
  destruct (Hp k rest) as [H1 H2]; [done|]. fold (lcp k rest) in *. eexists. split; [|reflexivity]. assert (Forall (fun e => lcp k rest `prefix_of` e.1) ((k, v) :: rest)) as H3 by (by constructor).
  revert H3. generalize (lcp k rest) as p, ((k, v) :: rest) as l. clear. intros p l H3. induction H3 as [|[k0 v0] l [r Er] _ IH]; [done|]. cbn [fst] in Er. subst k0. cbn [strip under map fst snd].
  rewrite drop_app_length. f_equal. exact IH.
Qed.

Lemma length_under p l : length (under p l) = length l.
Proof. apply length_map. Qed.

(** ** What is written is the trie *)

Lemma pairs_bound l : bytes_ok (nibble_pairs l) /\ bsize (nibble_pairs l) <= bsize l.
Proof.
  assert (forall n l, (length l <= n)%nat -> bytes_ok (nibble_pairs l) /\ bsize (nibble_pairs l) <= bsize l) as H; [|by apply (H (length l))].
  clear. assert (forall l, (length l <= 1)%nat -> bytes_ok (nibble_pairs l) /\ bsize (nibble_pairs l) <= bsize l) as H1.
  { intros [|a [|b l]] Hl; [split; [apply List.Forall_nil|done]|split; [apply List.Forall_nil|apply bsize_nonneg]|simpl in Hl; lia]. }
  intros n. induction n as [|n IH]; intros l Hl; [apply H1; lia|]. destruct l as [|a [|b l]]; [by apply H1; simpl; lia..|]. cbn [nibble_pairs].
  destruct (IH l) as [IH1 IH2]; [simpl in Hl; lia|]. rewrite !bsize_cons. split; [|lia]. apply List.Forall_cons; [|done]. unfold byte_ok, wrap, modulus. apply Z.mod_pos_bound. lia.
Qed.

Lemma path_bound leaf k : nibbles_ok k -> bytes_ok (path_bytes leaf k) /\ bsize (path_bytes leaf k) <= 1 + bsize k.
Proof.
  intros Hk. unfold path_bytes. destruct (Nat.even (length k)).
  - destruct (pairs_bound k) as [H1 H2]. rewrite bsize_cons. split; [|lia]. apply List.Forall_cons; [destruct leaf; unfold byte_ok; lia|done].
  - destruct k as [|x k]; [split; [apply List.Forall_nil|done]|]. apply Forall_cons in Hk as [Hx _]. destruct (pairs_bound k) as [H1 H2]. rewrite !bsize_cons. split; [|lia]. apply List.Forall_cons; [destruct leaf; unfold byte_ok; lia|done].
Qed.

Section refinement.
Variable sha3 : bytes -> bytes.
Hypothesis sha3_size : forall d, length (sha3 d) = 32%nat /\ bytes_ok (sha3 d).

Lemma ref_bound it : small it -> small (ref_of sha3 it) /\ bsize (encode (ref_of sha3 it)) <= 41.
Proof using sha3_size.
  intros Hs. unfold ref_of. destruct (Z.ltb_spec (bsize (encode it)) 32); [split; [done|lia]|]. destruct (sha3_size (encode it)) as [H1 H2].
  destruct (small_data (sha3 (encode it)) H2) as [H3 H4]; [unfold bsize; lia|]. split; [done|]. unfold bsize in *. lia.
Qed.

Lemma entry_small k v : nibbles_ok k /\ bytes_ok v /\ bsize v < 2 ^ 50 /\ bsize k < 2 ^ 31 ->
  (forall leaf, small (Data (path_bytes leaf k)) /\ bsize (encode (Data (path_bytes leaf k))) <= 2 ^ 51) /\ small (Data v) /\ bsize (encode (Data v)) <= 2 ^ 51.
Proof.
  intros (H1 & H2 & H3 & H4). split.
  - intros leaf. destruct (path_bound leaf k H1) as [P1 P2]. destruct (small_data _ P1) as [S1 S2]; [lia|]. split; [done|lia].
  - destruct (small_data v H2) as [S1 S2]; [lia|]. split; [done|lia].
Qed.

Lemma empty_small : small (Data []) /\ bsize (encode (Data [])) <= 2 ^ 51.
Proof. split; [split; [|done]|done]. apply List.Forall_cons; [split; vm_compute; congruence|apply List.Forall_nil]. Qed.

Lemma strip_ok k v rest : entries_ok ((k, v) :: rest) -> entries_ok (strip (length (lcp k rest)) ((k, v) :: rest)) /\ nibbles_ok (lcp k rest) /\ bsize (lcp k rest) < 2 ^ 31.
Proof.
  intros He. destruct (lcp_under k v rest) as (l' & E & ->). pose proof He as He'. rewrite E in He. split; [by apply under_ok in He|].
  destruct l' as [|[k0 v0] l']; [done|]. cbn in E. injection E as E1 _ _. destruct He' as [_ [(Hk & _ & _ & Hl) _]%Forall_cons]. cbn [fst] in *. rewrite E1 in Hk, Hl. apply Forall_app in Hk as [Hk _]. rewrite bsize_app in Hl.
  pose proof (bsize_nonneg k0). split; [done|lia].
Qed.

Lemma node_small fuel : forall l, entries_ok l -> small (node sha3 fuel l) /\ bsize (encode (node sha3 fuel l)) <= 2 ^ 56.
Proof using sha3_size.
  induction fuel as [|fuel IH]; intros l Hl; [split; [apply empty_small|pose proof empty_small; cbn [node]; lia]|].
  assert (forall l', entries_ok l' -> small (ref sha3 fuel l') /\ bsize (encode (ref sha3 fuel l')) <= 2 ^ 51) as Hr.
  { intros l' Hl'. unfold ref. destruct l'; [apply empty_small|]. destruct (ref_bound (node sha3 fuel (p :: l'))) as [H1 H2]; [by apply IH|]. split; [done|lia]. }
  cbn [node]. fold (ref sha3 fuel). destruct l as [|[k v] rest]; [split; [apply empty_small|pose proof empty_small; lia]|]. pose proof Hl as [_ [Hkv _]%Forall_cons]. cbn [fst snd] in Hkv. destruct (entry_small k v Hkv) as [Hp Hv].
  assert (forall its, Forall (fun i => small i /\ bsize (encode i) <= 2 ^ 51) its -> (length its <= 17)%nat -> small (Items its) /\ bsize (encode (Items its)) <= 2 ^ 56) as Hits.
  { intros its Hi Hn. destruct (small_items its (2 ^ 51) Hi) as [S1 S2]; [lia|lia|]. split; [done|]. lia. }
  destruct rest as [|e rest]; [apply Hits; [|simpl; lia]; apply List.Forall_cons; [apply Hp|]; by apply List.Forall_cons|]. set (r := e :: rest) in *.
  destruct (strip_ok k v r Hl) as (Hs & Hn & Hb). destruct (lcp k r) as [|x p] eqn:El.
  - apply Hits; [|rewrite length_app, length_map, length_seqZ; simpl; lia]. apply Forall_app. split.
    + apply Forall_map, Forall_forall. intros j Hj%elem_of_seqZ. apply Hr, group_ok; [done|lia].
    + apply List.Forall_cons; [|constructor]. unfold value_here. by destruct k; [|apply empty_small].
  - apply Hits; [|simpl; lia]. apply List.Forall_cons; [|apply List.Forall_cons; [by apply Hr|constructor]]. apply (entry_small (x :: p) []); split_and!; [done|apply List.Forall_nil|done|done].
Qed.

(** [hash256aux], given that the node is written. *)
Lemma aux_item fuel l p n (rlp : RLPStream) : entries_ok l -> l <> [] -> (forall r, hash256rlp sha3 fuel (under p l) n r = stream_item r (node sha3 fuel l)) ->
  (let* r := hash256rlp sha3 fuel (under p l) n newRLPStream in let* out := stream_out r in if bsize out <? 32 then appendRaw rlp out 1 else append rlp (sha3 out) false)
  = stream_item rlp (ref sha3 fuel l).
Proof using sha3_size.
  intros Hl Hne Hn. destruct (node_small fuel l Hl) as [Hs _]. pose proof (stream_out_item _ Hs) as Ho. rewrite Hn. destruct (stream_item newRLPStream (node sha3 fuel l)) as [r| |]; [|done..]. cbn [rbind] in *. rewrite Ho.
  cbn [rbind]. unfold ref. destruct l; [done|]. unfold ref_of. destruct (bsize (encode (node sha3 fuel (p0 :: l))) <? 32); [by apply raw_item|done].
Qed.

Lemma byte_at_under p x k : byte_at (p ++ x :: k) (bsize p) = Ok x.
Proof. unfold byte_at. assert (Z.to_nat (bsize p) = length p) as -> by (unfold bsize; lia). by rewrite list_lookup_middle. Qed.

Lemma same_nibble_group p i g r : (forall x k v r', r = (x :: k, v) :: r' -> x <> i) -> Forall (fun e => e.1 <> []) r ->
  same_nibble i (bsize p) (under p (under [i] g ++ r)) = Ok (under p (under [i] g), under p r).
Proof.
  intros Hr Hne. induction g as [|[k v] g IH].
  - destruct r as [|[k v] r]; [done|]. apply Forall_inv in Hne. destruct k as [|x k]; [done|]. cbn [under map app same_nibble fst snd]. rewrite byte_at_under. cbn [rbind]. destruct (Z.eqb_spec x i) as [->|]; [|done]. by destruct (Hr i k v r eq_refl).
  - change (under p (under [i] ((k, v) :: g) ++ r)) with ((p ++ i :: k, v) :: under p (under [i] g ++ r)). cbn [same_nibble]. rewrite byte_at_under. cbn [rbind]. rewrite Z.eqb_refl, IH. done.
Qed.

Lemma branch_loop (aux : list entry -> Z -> RLPStream -> res RLPStream) (rf : list entry -> item) p (gs : Z -> list entry) n : forall i rlp,
  rf [] = Data [] -> (forall j r, i <= j < i + Z.of_nat n -> gs j <> [] -> aux (under p (under [j] (gs j))) (bsize p + 1) r = stream_item r (rf (gs j))) ->
  rfold (fun '(rlp, b) i =>
      let* (g, n) := same_nibble i (bsize p) b in
      let* rlp := (match g with [] => append rlp [] false | _ => aux g (bsize p + 1) rlp end) in
      Ok (rlp, n)) (seqZ i (Z.of_nat n)) (rlp, under p (flat_map (fun j => under [j] (gs j)) (seqZ i (Z.of_nat n)))) =
  let* rlp := rfold stream_item (map (fun j => rf (gs j)) (seqZ i (Z.of_nat n))) rlp in Ok (rlp, []).
Proof.
  induction n as [|n IH]; intros i rlp He Ha; [done|]. rewrite seqZ_cons by lia. replace (Z.pred (Z.of_nat (S n))) with (Z.of_nat n) by lia. cbn [flat_map map rfold].
  assert (Forall (fun e => exists x k, e.1 = x :: k /\ i < x) (flat_map (fun j => under [j] (gs j)) (seqZ (Z.succ i) (Z.of_nat n)))) as Hr.
  { apply Forall_forall. intros e (j & Hj%list_elem_of_In%elem_of_seqZ & He')%list_elem_of_In%in_flat_map. apply in_map_iff in He' as (e0 & <- & _). exists j, e0.1. split; [done|lia]. }
  rewrite same_nibble_group.
  - cbn [rbind]. assert ((match under p (under [i] (gs i)) with [] => append rlp [] false | _ :: _ => aux (under p (under [i] (gs i))) (bsize p + 1) rlp end) = stream_item rlp (rf (gs i))) as ->.
    { destruct (gs i) as [|e g] eqn:Eg; [by rewrite He|]. rewrite <- Eg in *. destruct (under p (under [i] (gs i))) eqn:Eu; [by rewrite Eg in Eu|]. rewrite <- Eu. apply Ha; [lia|by rewrite Eg]. }
    destruct (stream_item rlp (rf (gs i))) as [rlp'| |]; [|done..]. cbn [rbind]. apply IH; [done|]. intros j r Hj. apply Ha. lia.
  - intros x k v r' E. rewrite E in Hr. apply Forall_inv in Hr as (y & k' & [= <- <-] & Hy). lia.
  - eapply Forall_impl; [exact Hr|]. intros e (x & k & -> & _). done.
Qed.

Lemma group_length j l fuel : Forall (fun e => (length e.1 < S fuel)%nat) l -> Forall (fun e => (length e.1 < fuel)%nat) (group j l).
Proof.
  induction 1 as [|[k v] l Hk _ IH]; [constructor|]. cbn [group omap list_omap fst snd]. destruct k as [|x k]; [done|]. destruct (x =? j); [|done]. apply List.Forall_cons; [cbn in *; lia|done].
Qed.

(** What [hash256rlp] writes for entries under a common path is the node of the entries. *)
Lemma hash256rlp_item fuel : forall l p rlp, entries_ok l -> Forall (fun e => (length e.1 < fuel)%nat) l -> Forall (fun e => bsize p + bsize e.1 < 2 ^ 32 - 1) l -> (0 < fuel)%nat ->
  hash256rlp sha3 fuel (under p l) (bsize p) rlp = stream_item rlp (node sha3 fuel l).
Proof using sha3_size.
  induction fuel as [|fuel IH]; intros l p rlp Hl Hf Hb H0; [lia|]. destruct l as [|[k v] rest]; [done|]. pose proof Hl as [_ [(Hk & _) _]%Forall_cons]. cbn [fst] in Hk.
  destruct rest as [|e rest].
  - cbn [under map hash256rlp node fst snd]. rewrite <- (appendList_items rlp [Data (path_bytes true k); Data v] 2 eq_refl). destruct (appendList rlp 2) as [s| |]; [|done..]. cbn [rbind].
    pose proof (hexPrefixEncode_path p k [] true Hk) as Hh. rewrite app_nil_r, <- bsize_app in Hh. rewrite Hh. cbn [rbind rfold]. change (append s (path_bytes true k) false) with (stream_item s (Data (path_bytes true k))).
    destruct (stream_item s (Data (path_bytes true k))) as [s'| |]; [|done..]. cbn [rbind]. by rewrite rbind_ok.
  - set (r := e :: rest) in *. set (l := (k, v) :: r) in *. assert (exists y ys, under p r = y :: ys) as (y & ys & Ey) by (unfold r; cbn; by eexists _, _).
    assert (hash256rlp sha3 (S fuel) (under p l) (bsize p) rlp =
      (let aux := fun s preLen rlp => let* r := hash256rlp sha3 fuel s preLen newRLPStream in let* out := stream_out r in if bsize out <? 32 then appendRaw rlp out 1 else append rlp (sha3 out) false in
       let sharedPre := shared_pre (p ++ k) (bsize p) (2 ^ 32 - 1) (under p r) in
       if bsize p <? sharedPre then
         let* rlp := appendList rlp 2 in let* h := hexPrefixEncode (p ++ k) false (bsize p) sharedPre in let* rlp := append rlp h false in aux (under p l) sharedPre rlp
       else
         let* rlp := appendList rlp 17 in let b := if bsize p =? bsize (p ++ k) then under p r else under p l in
         let* (rlp, _) := rfold (fun '(rlp, b) i => let* (g, n) := same_nibble i (bsize p) b in let* rlp := (match g with [] => append rlp [] false | _ => aux g (bsize p + 1) rlp end) in Ok (rlp, n)) (seqZ 0 16) (rlp, b) in
         append rlp (if bsize p =? bsize (p ++ k) then v else []) false)) as ->.
    { unfold l, r. cbn [under map fst snd hash256rlp]. reflexivity. }
    cbv zeta. pose proof Hb as [Hb1 _]%Forall_cons. cbn [fst] in Hb1. rewrite shared_pre_lcp by done. destruct (lcp_under k v r) as (l' & El' & Est). fold l in El', Est. destruct (strip_ok k v r Hl) as (Hso & Hnib & _).
    pose proof (node_many sha3 fuel k v e rest) as Hnode. cbv zeta in Hnode. fold r in Hnode. fold l in Hnode. rewrite Hnode. pose proof (bsize_nonneg p) as Hp0. destruct (lcp k r) as [|x q] eqn:Eq.
    + change (bsize []) with 0. rewrite Z.add_0_r, Z.ltb_irrefl. rewrite <- (appendList_items rlp (map (fun i => ref sha3 fuel (group i l)) (seqZ 0 16) ++ [Data (value_here l)]) 17)
        by (rewrite length_app, length_map, length_seqZ; done).
      destruct (appendList rlp 17) as [s| |]; [|done..]. cbn [rbind]. pose proof (branch_groups l Hl) as Eb. 
      assert ((if bsize p =? bsize (p ++ k) then under p r else under p l) = under p (flat_map (fun j => under [j] (group j l)) (seqZ 0 16)) /\ (if bsize p =? bsize (p ++ k) then v else []) = value_here l) as [-> ->].
      { rewrite bsize_app. destruct k as [|y0 k0].
        - change (bsize []) with 0. rewrite Z.add_0_r, Z.eqb_refl. split; [|done]. unfold l in Eb at 1. cbn [here app] in Eb. injection Eb as Eb. f_equal. exact Eb.
        - rewrite bsize_cons. pose proof (bsize_nonneg k0). destruct (Z.eqb_spec (bsize p) (bsize p + (1 + bsize k0))); [lia|]. split; [|done]. f_equal. exact Eb. }
      pose proof (branch_loop (fun s preLen rlp => let* r := hash256rlp sha3 fuel s preLen newRLPStream in let* out := stream_out r in if bsize out <? 32 then appendRaw rlp out 1 else append rlp (sha3 out) false)
        (ref sha3 fuel) p (fun j => group j l) 16 0 s eq_refl) as HB. change (Z.of_nat 16) with 16 in HB. rewrite HB.
      * assert (forall its, rfold stream_item (its ++ [Data (value_here l)]) s = let* s := rfold stream_item its s in stream_item s (Data (value_here l))) as ->.
        { intros its. revert s HB. clear. intros s _. revert s. induction its as [|it its IH]; intros s; cbn [app rfold]; [by rewrite rbind_ok|]. destruct (stream_item s it) as [s'| |]; [|done..]. cbn [rbind]. apply IH. }
        destruct (rfold stream_item _ s) as [s'| |]; [|done..]. done.
      * intros j rr Hj Hne. rewrite <- under_app. replace (bsize p + 1) with (bsize (p ++ [j])) by (rewrite bsize_app; done).
        assert (entries_ok (group j l)) as Hg by (apply group_ok; [done|lia]). assert (Forall (fun e => (length e.1 < fuel)%nat) (group j l)) as Hgf by (by apply group_length).
        apply aux_item; [done|done|]. intros r0. apply IH; [done|done| |].
        -- clear -Hb. induction l as [|[k0 v0] l0 IHl]; [constructor|]. apply Forall_cons in Hb as [Hb1 Hb2]. cbn [group omap list_omap fst snd] in *. destruct k0 as [|z k0]; [by apply IHl|]. destruct (z =? j); [|by apply IHl].
           apply List.Forall_cons; [cbn [fst]; rewrite bsize_app, bsize_cons in *; change (bsize []) with 0; cbn [fst] in Hb1; lia|by apply IHl].
        -- destruct (group j l) as [|e0 g0]; [done|]. apply Forall_inv in Hgf. lia.
    + rewrite bsize_cons. pose proof (bsize_nonneg q). destruct (Z.ltb_spec (bsize p) (bsize p + (1 + bsize q))); [|lia]. rewrite <- (appendList_items rlp [Data (path_bytes false (x :: q)); ref sha3 fuel (strip (length (x :: q)) l)] 2 eq_refl).
      destruct (appendList rlp 2) as [s| |]; [|done..]. cbn [rbind]. rewrite Est. destruct l' as [|[k0 v0] l'']; [done|]. cbn [under map fst snd] in El'. unfold l in El'. injection El' as Ek Ev Er.
      assert (1 + bsize q = bsize (x :: q)) as Hxq by (by rewrite bsize_cons). rewrite Ek, Hxq. cbn [app]. change (x :: q ++ k0) with ((x :: q) ++ k0). rewrite hexPrefixEncode_path by done. cbn [rbind rfold]. change (append s (path_bytes false (x :: q)) false) with (stream_item s (Data (path_bytes false (x :: q)))).
      destruct (stream_item s (Data (path_bytes false (x :: q)))) as [s'| |]; [|done..]. cbn [rbind]. rewrite rbind_ok. fold l in Hso. rewrite Est in Hso.
      assert (l = under (x :: q) ((k0, v0) :: l'')) as El by (unfold l; cbn [under map fst snd]; by rewrite Ek, Ev, Er).
      rewrite El, <- under_app, <- bsize_app. apply aux_item; [done|done|]. intros r0. rewrite El in Hf, Hb. unfold under in Hf, Hb. apply Forall_map in Hf. apply Forall_map in Hb. apply IH; [done| | |].
      * eapply Forall_impl; [exact Hf|]. intros [k1 v1] Hk1. cbn [fst] in *. rewrite length_app in Hk1. simpl in Hk1. lia.
      * eapply Forall_impl; [exact Hb|]. intros [k1 v1] Hk1. cbn [fst] in *. rewrite bsize_app in *. lia.
      * apply Forall_inv in Hf. cbn [fst] in Hf. rewrite length_app in Hf. simpl in Hf. lia.
Qed.
End refinement.

(** ** The root determines the map *)

Lemma nibble_pairs_inj n : forall a b, (length a <= n)%nat -> nibbles_ok a -> nibbles_ok b -> Nat.even (length a) = true -> Nat.even (length b) = true -> nibble_pairs a = nibble_pairs b -> a = b.
Proof.
  induction n as [|n IH]; intros a b Hn Ha Hb Ea Eb H.
  - destruct a; [|simpl in Hn; lia]. destruct b as [|y [|y' b]]; done.
  - destruct a as [|x [|x' a]], b as [|y [|y' b]]; try done. cbn [nibble_pairs] in H. injection H as H1 H2. apply Forall_cons in Ha as [Hx [Hx' Ha]%Forall_cons]. apply Forall_cons in Hb as [Hy [Hy' Hb]%Forall_cons].
    unfold wrap, modulus in H1. rewrite !Z.mod_small in H1 by lia. assert (x = y /\ x' = y') as [-> ->] by lia. f_equal. f_equal. apply IH; [simpl in Hn; lia|done..].
Qed.

Lemma path_bytes_inj leaf leaf' k k' : nibbles_ok k -> nibbles_ok k' -> path_bytes leaf k = path_bytes leaf' k' -> leaf = leaf' /\ k = k'.
Proof.
  intros Hk Hk'. unfold path_bytes. destruct (Nat.even (length k)) eqn:E, (Nat.even (length k')) eqn:E'.
  - intros [= H1 H2]. split; [by destruct leaf, leaf'|]. by apply (nibble_pairs_inj (length k)).
  - destruct k' as [|x k']; [done|]. apply Forall_cons in Hk' as [Hx _]. intros [= H1 _]. destruct leaf, leaf'; lia.
  - destruct k as [|x k]; [done|]. apply Forall_cons in Hk as [Hx _]. intros [= H1 _]. destruct leaf, leaf'; lia.
  - destruct k as [|x k]; [done|]. destruct k' as [|x' k']; [done|]. apply Forall_cons in Hk as [Hx Hk]. apply Forall_cons in Hk' as [Hx' Hk']. intros [= H1 H2].
    assert (leaf = leaf' /\ x = x') as [-> ->] by (destruct leaf, leaf'; split; lia || done). split; [done|]. f_equal. cbn [length] in E, E'. rewrite Nat.even_succ, <- Nat.negb_even in E, E'.
    apply negb_false_iff in E, E'. by apply (nibble_pairs_inj (length k)).
Qed.

Section injective.
Variable sha3 : bytes -> bytes.
Hypothesis sha3_size : forall d, length (sha3 d) = 32%nat /\ bytes_ok (sha3 d).

(** The encodings of the nodes of a trie, some of which are hashed. *)
Fixpoint hashed (fuel : nat) (l : list entry) : list bytes :=
  encode (node sha3 fuel l) ::
  match fuel, l with
  | S fuel, (k, v) :: (_ :: _) as rest =>
      match lcp k rest with [] => flat_map (fun i => hashed fuel (group i l)) (seqZ 0 16) | p => hashed fuel (strip (length p) l) end
  | _, _ => []
  end.

Definition no_collision (l l' : list bytes) : Prop := forall x y, x ∈ l -> y ∈ l' -> sha3 x = sha3 y -> x = y.

Lemma no_collision_sub l l' m m' : no_collision l l' -> (forall x, x ∈ m -> x ∈ l) -> (forall x, x ∈ m' -> x ∈ l') -> no_collision m m'.
Proof. intros H Hm Hm' x y Hx Hy. apply H; auto. Qed.

Lemma hashed_node fuel l : encode (node sha3 fuel l) ∈ hashed fuel l.
Proof. destruct fuel; cbn [hashed]; by left. Qed.

Definition values_ok (l : list entry) : Prop := Forall (fun e => e.2 <> []) l.

Lemma node_list fuel l : l <> [] -> (0 < fuel)%nat -> exists its, node sha3 fuel l = Items its.
Proof.
  intros Hl Hf. destruct fuel as [|fuel]; [lia|]. destruct l as [|[k v] [|e rest]]; [done|by eexists|]. rewrite node_many. destruct (lcp k (e :: rest)); by eexists.
Qed.

Lemma ref_inj fuel l l' : entries_ok l -> entries_ok l' -> (l <> [] -> 0 < fuel)%nat -> (l' <> [] -> 0 < fuel)%nat -> no_collision (hashed fuel l) (hashed fuel l') ->
  ref sha3 fuel l = ref sha3 fuel l' -> (l = [] /\ l' = []) \/ (l <> [] /\ l' <> [] /\ node sha3 fuel l = node sha3 fuel l').
Proof using sha3_size.
  intros Hl Hl' Hf Hf' Hc. unfold ref. destruct (decide (l = [])) as [->|Hne], (decide (l' = [])) as [->|Hne']; [by left|..].
  - destruct l' as [|e' l']; [done|]. destruct (node_list fuel (e' :: l') Hne' (Hf' Hne')) as [its E]. rewrite E. unfold ref_of. destruct (_ <? 32); [done|]. intros H. apply (f_equal (fun i => match i with Data d => length d | _ => 0%nat end)) in H. by rewrite (proj1 (sha3_size _)) in H.
  - destruct l as [|e l]; [done|]. destruct (node_list fuel (e :: l) Hne (Hf Hne)) as [its E]. rewrite E. unfold ref_of. destruct (_ <? 32); [done|]. intros H. apply (f_equal (fun i => match i with Data d => length d | _ => 0%nat end)) in H. by rewrite (proj1 (sha3_size _)) in H.
  - intros H. right. split_and!; [done|done|]. destruct (node_list fuel l Hne (Hf Hne)) as [its E], (node_list fuel l' Hne' (Hf' Hne')) as [its' E'].
    assert (ref_of sha3 (node sha3 fuel l) = ref_of sha3 (node sha3 fuel l')) as H' by (by destruct l, l'). clear H. pose proof (hashed_node fuel l) as Hin. pose proof (hashed_node fuel l') as Hin'.
    destruct (node_small sha3 sha3_size fuel l Hl) as [Hs _], (node_small sha3 sha3_size fuel l' Hl') as [Hs' _]. unfold ref_of in H'. rewrite E, E' in *.
    destruct (_ <? 32), (_ <? 32); [done..|]. apply (f_equal (fun i => match i with Data d => d | _ => [] end)) in H'. cbv beta iota in H'. apply encode_inj; [done|done|]. by apply Hc.
Qed.

Lemma group_values j l : values_ok l -> values_ok (group j l).
Proof. induction 1 as [|[k v] l Hv _ IH]; [constructor|]. cbn [group omap list_omap fst snd]. destruct k as [|x k]; [done|]. destruct (x =? j); [|done]. apply List.Forall_cons; [exact Hv|exact IH]. Qed.

Lemma here_value l : entries_ok l -> values_ok l -> here l = match value_here l with [] => [] | v => [([], v)] end.
Proof. intros _ Hv. destruct l as [|[[|x k] v] l]; [done| |done]. apply Forall_inv in Hv. cbn [here value_here snd] in *. by destruct v. Qed.

Lemma node_inj fuel : forall l l', entries_ok l -> entries_ok l' -> values_ok l -> values_ok l' -> l <> [] -> l' <> [] ->
  Forall (fun e => (length e.1 < fuel)%nat) l -> Forall (fun e => (length e.1 < fuel)%nat) l' -> no_collision (hashed fuel l) (hashed fuel l') ->
  node sha3 fuel l = node sha3 fuel l' -> l = l'.
Proof using sha3_size.
  induction fuel as [|fuel IH]; intros l l' Hl Hl' Hv Hv' Hne Hne' Hf Hf' Hc; [destruct l; [done|]; apply Forall_inv in Hf; lia|].
  assert (forall l l', entries_ok l -> entries_ok l' -> values_ok l -> values_ok l' -> Forall (fun e => (length e.1 < fuel)%nat) l -> Forall (fun e => (length e.1 < fuel)%nat) l' -> no_collision (hashed fuel l) (hashed fuel l') ->
    ref sha3 fuel l = ref sha3 fuel l' -> l = l') as Href.
  { clear -IH sha3_size. intros l l' H1 H2 H3 H4 H5 H6 H7 H. assert (forall l : list entry, Forall (fun e => (length e.1 < fuel)%nat) l -> l <> [] -> (0 < fuel)%nat) as Hp by (intros [|e m] Hm Hn; [done|]; apply Forall_inv in Hm; lia).
    destruct (ref_inj fuel l l' H1 H2 (Hp l H5) (Hp l' H6) H7 H) as [[-> ->]|(N1 & N2 & N3)]; [done|]. by apply IH. }
  destruct l as [|[k v] [|e rest]]; [done|..]; destruct l' as [|[k' v'] [|e' rest']]; try done.
  - cbn [node]. intros [= H1 ->]. destruct Hl as [_ [(Hk & _) _]%Forall_cons], Hl' as [_ [(Hk' & _) _]%Forall_cons]. by destruct (path_bytes_inj true true k k' Hk Hk' H1) as [_ ->].
  - rewrite node_many. destruct (lcp k' (e' :: rest')) as [|x q] eqn:Eq; [done|]. cbn [node]. intros [= H1 _]. destruct (strip_ok k' v' _ Hl') as (_ & Hn & _). rewrite Eq in Hn.
    destruct Hl as [_ [(Hk & _) _]%Forall_cons]. by destruct (path_bytes_inj true false k (x :: q) Hk Hn H1).
  - rewrite node_many. destruct (lcp k (e :: rest)) as [|x q] eqn:Eq; [done|]. cbn [node]. intros [= H1 _]. destruct (strip_ok k v _ Hl) as (_ & Hn & _). rewrite Eq in Hn.
    destruct Hl' as [_ [(Hk & _) _]%Forall_cons]. by destruct (path_bytes_inj false true (x :: q) k' Hn Hk H1).
  - rewrite !node_many. set (l := (k, v) :: e :: rest) in *. set (l' := (k', v') :: e' :: rest') in *. destruct (strip_ok k v _ Hl) as (Hs & Hn & _), (strip_ok k' v' _ Hl') as (Hs' & Hn' & _). fold l in Hs. fold l' in Hs'.
    destruct (lcp_under k v (e :: rest)) as (m & Em & Es), (lcp_under k' v' (e' :: rest')) as (m' & Em' & Es'). fold l in Em, Es. fold l' in Em', Es'. rewrite Es in Hs. rewrite Es' in Hs'.
    assert (hashed (S fuel) l = encode (node sha3 (S fuel) l) :: match lcp k (e :: rest) with [] => flat_map (fun i => hashed fuel (group i l)) (seqZ 0 16) | p => hashed fuel (strip (length p) l) end) as Eh by reflexivity.
    assert (hashed (S fuel) l' = encode (node sha3 (S fuel) l') :: match lcp k' (e' :: rest') with [] => flat_map (fun i => hashed fuel (group i l')) (seqZ 0 16) | p => hashed fuel (strip (length p) l') end) as Eh' by reflexivity.
    rewrite Eh, Eh' in Hc. destruct (lcp k (e :: rest)) as [|x q] eqn:Eq, (lcp k' (e' :: rest')) as [|x' q'] eqn:Eq'; [|done|done|].
    + intros H. apply (f_equal (fun i => match i with Items its => its | _ => [] end)) in H. cbv beta iota in H. apply app_inj_tail in H as [H Hval]. apply (f_equal (fun i => match i with Data d => d | _ => [] end)) in Hval. cbv beta iota in Hval. rewrite (branch_groups l Hl), (branch_groups l' Hl'), (here_value l Hl Hv), (here_value l' Hl' Hv'), Hval. f_equal.
      assert (forall j, 0 <= j < 16 -> group j l = group j l') as Hg.
      { intros j Hj. assert (j ∈ seqZ 0 16) as Hin by (apply elem_of_seqZ; lia). apply Href; [by apply group_ok|by apply group_ok|by apply group_values|by apply group_values|by apply group_length|by apply group_length| |].
        - eapply no_collision_sub; [exact Hc|..]; intros y Hy; right; apply list_elem_of_In, in_flat_map; exists j; (split; [by apply list_elem_of_In|by apply list_elem_of_In]).
        - assert (forall js, map (fun i => ref sha3 fuel (group i l)) js = map (fun i => ref sha3 fuel (group i l')) js -> j ∈ js -> ref sha3 fuel (group j l) = ref sha3 fuel (group j l')) as Hm; [|by apply (Hm (seqZ 0 16))].
          clear. intros js. induction js as [|i js IHj]; [by intros _ ?%elem_of_nil|]. cbn [map]. intros [= Hi Hjs] [->|Hin]%elem_of_cons; [done|by apply IHj]. }
      assert (forall js, (forall j, j ∈ js -> group j l = group j l') -> flat_map (fun j => under [j] (group j l)) js = flat_map (fun j => under [j] (group j l')) js) as Hm; [|apply Hm; intros j Hj%elem_of_seqZ; apply Hg; lia].
      clear. intros js Hg. induction js as [|i js IHj]; [done|]. cbn [flat_map]. rewrite (Hg i) by (by left). f_equal. apply IHj. intros j Hj. apply Hg. by right.
    + cbv zeta. rewrite Es, Es'. intros [= H1 H2]. destruct (path_bytes_inj false false _ _ Hn Hn' H1) as [_ Hq]. rewrite Hq in *. rewrite Em, Em'. f_equal. apply Href; [done|done|..].
      * rewrite <- Es. unfold strip. apply Forall_map. exact Hv.
      * rewrite <- Es'. unfold strip. apply Forall_map. exact Hv'.
      * rewrite Em in Hf. unfold under in Hf. apply Forall_map in Hf. eapply Forall_impl; [exact Hf|]. intros [k1 v1] Hk1. cbn [fst] in *. rewrite length_app in Hk1. simpl in Hk1. lia.
      * rewrite Em' in Hf'. unfold under in Hf'. apply Forall_map in Hf'. eapply Forall_impl; [exact Hf'|]. intros [k1 v1] Hk1. cbn [fst] in *. rewrite length_app in Hk1. simpl in Hk1. lia.
      * eapply no_collision_sub; [exact Hc|..]; intros y Hy; right; [by rewrite Es|by rewrite Es'].
      * done.
Qed.
End injective.

Lemma hashed_many sha3 fuel k v e rest : let l := (k, v) :: e :: rest in
  hashed sha3 (S fuel) l = encode (node sha3 (S fuel) l) ::
    match lcp k (e :: rest) with [] => flat_map (fun i => hashed sha3 fuel (group i l)) (seqZ 0 16) | p => hashed sha3 fuel (strip (length p) l) end.
Proof. reflexivity. Qed.

Lemma node_fuel sha3 f : forall f' l, Forall (fun e => (length e.1 < f)%nat) l -> Forall (fun e => (length e.1 < f')%nat) l -> node sha3 f l = node sha3 f' l /\ hashed sha3 f l = hashed sha3 f' l.
Proof.
  induction f as [|f IH]; intros f' l Hf Hf'.
  - destruct l; [by destruct f'|]. apply Forall_inv in Hf. lia.
  - destruct f' as [|f']; [destruct l; [done|]; apply Forall_inv in Hf'; lia|]. destruct l as [|[k v] [|e rest]]; [done..|]. set (l := (k, v) :: e :: rest) in *.
    assert (forall j, node sha3 f (group j l) = node sha3 f' (group j l) /\ hashed sha3 f (group j l) = hashed sha3 f' (group j l)) as Hg by (intros j; apply IH; by apply group_length).
    assert (lcp k (e :: rest) <> [] -> node sha3 f (strip (length (lcp k (e :: rest))) l) = node sha3 f' (strip (length (lcp k (e :: rest))) l) /\ hashed sha3 f (strip (length (lcp k (e :: rest))) l) = hashed sha3 f' (strip (length (lcp k (e :: rest))) l)) as Hs.
    { intros Hne. destruct (lcp_under k v (e :: rest)) as (m & Em & Es). fold l in Em, Es. rewrite Es. assert (0 < length (lcp k (e :: rest)))%nat by (destruct (lcp _ _); [done|simpl; lia]).
      rewrite Em in Hf, Hf'. unfold under in Hf, Hf'. apply Forall_map in Hf. apply Forall_map in Hf'.
      assert (forall g, Forall (fun e0 : entry => (length (lcp k (e :: rest) ++ e0.1, e0.2).1 < S g)%nat) m -> Forall (fun e => (length e.1 < g)%nat) m) as Hm; [|apply IH; by apply Hm].
      intros g Hg'. eapply Forall_impl; [exact Hg'|]. intros [k1 v1] Hk1. cbn [fst] in *. rewrite length_app in Hk1. lia. }
    assert (node sha3 (S f) l = node sha3 (S f') l) as En.
    { unfold l. rewrite !node_many. fold l. destruct (lcp k (e :: rest)) as [|x q].
      - f_equal. f_equal. apply map_ext. intros j. unfold ref. destruct (group j l) eqn:Eg; [done|]. rewrite <- Eg. f_equal. apply Hg.
      - cbv zeta. f_equal. f_equal. f_equal. unfold ref. destruct (Hs ltac:(done)) as [Hs1 _]. rewrite Hs1. done. }
    split; [done|]. pose proof (hashed_many sha3 f k v e rest) as H1. pose proof (hashed_many sha3 f' k v e rest) as H2. cbv zeta in H1, H2. fold l in H1, H2. rewrite H1, H2, En. f_equal.
    destruct (lcp k (e :: rest)) as [|x q]; [apply flat_map_ext; intros j; apply Hg|by apply Hs].
Qed.

(** ** Maps that are built by assignment *)

Lemma bytes_ltb_trans a : forall b c, bytes_ltb a b = true -> bytes_ltb b c = true -> bytes_ltb a c = true.
Proof.
  induction a as [|x a IH]; intros [|y b] [|z c]; cbn [bytes_ltb]; try done. destruct (Z.ltb_spec x y), (Z.ltb_spec y z), (Z.ltb_spec x z); try done; try lia; cbn [orb].
  all: destruct (Z.eqb_spec x y), (Z.eqb_spec y z), (Z.eqb_spec x z); try done; try lia. cbn [andb]. apply IH.
Qed.

Lemma bytes_ltb_total a : forall b, bytes_ltb a b = false -> a <> b -> bytes_ltb b a = true.
Proof.
  induction a as [|x a IH]; intros [|y b]; cbn [bytes_ltb]; try done. destruct (Z.ltb_spec x y), (Z.ltb_spec y x); try done; try lia. cbn [orb]. assert (x = y) as -> by lia. rewrite Z.eqb_refl. cbn [andb].
  intros H1 H2. apply IH; [done|]. congruence.
Qed.

Lemma map_assign_sorted k v m : sorted m -> sorted (map_assign k v m) /\ forall e, e ∈ map_assign k v m -> e = (k, v) \/ e ∈ m.
Proof.
  unfold sorted. induction 1 as [|[k' v'] m Hs [IH1 IH2] Hlt]; cbn [map_assign].
  - split; [repeat constructor|]. intros e [->|?%elem_of_nil]%elem_of_cons; [by left|done].
  - destruct (bytes_ltb k k') eqn:E1; [|destruct (bool_decide_reflect (k = k')) as [->|Hne]].
    + split; [|intros e [->|?]%elem_of_cons; [by left|by right]]. constructor; [by constructor|]. apply List.Forall_cons; [exact E1|]. eapply Forall_impl; [exact Hlt|]. intros e. cbn [fst]. by apply bytes_ltb_trans.
    + split; [by constructor|]. intros e [->|?]%elem_of_cons; [by left|right; by right].
    + split; [|intros e [->|He]%elem_of_cons; [right; by left|]; destruct (IH2 e He) as [?|?]; [by left|right; by right]]. constructor; [done|]. apply Forall_forall. intros e He. cbn [fst].
      destruct (IH2 e He) as [-> |Hin]; [by apply bytes_ltb_total|]. rewrite Forall_forall in Hlt. exact (Hlt e Hin).
Qed.

Lemma map_assign_perm k v m : (k ∉ m.*1) -> map_assign k v m ≡ₚ (k, v) :: m.
Proof.
  induction m as [|[k' v'] m IH]; cbn [map_assign]; intros Hk; [done|]. destruct (bytes_ltb k k'); [done|]. rewrite fmap_cons, not_elem_of_cons in Hk. destruct Hk as [Hne Hk]. cbn [fst] in Hne.
  rewrite bool_decide_false by done. rewrite (IH Hk). constructor.
Qed.

Definition assign_all (f : bytes -> bytes) (l : list entry) : list entry := foldl (fun m '(k, v) => map_assign (f k) v m) [] l.

Lemma assign_all_spec f l : NoDup (f <$> l.*1) -> sorted (assign_all f l) /\ assign_all f l ≡ₚ map (fun e => (f e.1, e.2)) l.
Proof.
  unfold assign_all. assert (forall l m, NoDup (m.*1 ++ (f <$> l.*1)) -> sorted m -> sorted (foldl (fun m '(k, v) => map_assign (f k) v m) m l) /\ foldl (fun m '(k, v) => map_assign (f k) v m) m l ≡ₚ m ++ map (fun e => (f e.1, e.2)) l) as H.
  { clear l. intros l. induction l as [|[k v] l IH]; intros m Hnd Hs; cbn [foldl]; [by rewrite app_nil_r|]. cbn [fmap list_fmap fst] in Hnd. assert (f k ∉ m.*1) as Hk.
    { intros Hin. apply NoDup_app in Hnd as (_ & Hd & _). by apply (Hd _ Hin), elem_of_cons; left. }
    pose proof (map_assign_perm (f k) v m Hk) as Hp. destruct (IH (map_assign (f k) v m)) as [H1 H2].
    - assert (m.*1 ++ f k :: (f <$> l.*1) ≡ₚ (map_assign (f k) v m).*1 ++ (f <$> l.*1)) as <-; [|exact Hnd]. rewrite Hp. cbn [fmap list_fmap fst app]. by rewrite Permutation_middle.
    - by apply map_assign_sorted.
    - split; [done|]. rewrite H2, Hp. cbn [map fst snd app]. by rewrite Permutation_middle. }
  intros Hnd. apply (H l []); [done|constructor].
Qed.

(** ** Tries of blocks *)

Definition block_entries (values : list bytes) : list entry := zip (map (fun i => encode (int_item i)) (seqZ 0 (Z.of_nat (length values)))) values.
Lemma block_entries_length values : length (block_entries values) = length values.
Proof. unfold block_entries. rewrite length_zip, length_map, length_seqZ. lia. Qed.
Definition hex_of (values : list bytes) : list entry := assign_all asNibbles (rev (assign_all id (block_entries values))).

(** The encodings that are hashed for the root of a block. *)
Definition trie_nodes (sha3 : bytes -> bytes) (values : list bytes) : list bytes :=
  match values with [] => [[128]] | _ => hashed sha3 (depth (hex_of values)) (hex_of values) end.

Definition trie_value_ok (v : bytes) : Prop := v <> [] /\ bytes_ok v /\ bsize v < 2 ^ 50.

Lemma asNibbles_inj a : forall b, bytes_ok a -> bytes_ok b -> asNibbles a = asNibbles b -> a = b.
Proof.
  induction a as [|x a IH]; intros [|y b]; try done. intros [Hx Ha]%Forall_cons [Hy Hb]%Forall_cons. cbn [asNibbles flat_map app]. intros [= H1 H2 H3]. unfold byte_ok in *.
  f_equal; [rewrite (Z.div_mod x 16), (Z.div_mod y 16) by lia; congruence|by apply IH].
Qed.

Lemma asNibbles_ok a : bytes_ok a -> nibbles_ok (asNibbles a) /\ bsize (asNibbles a) = 2 * bsize a.
Proof.
  induction 1 as [|x a Hx _ [IH1 IH2]]; [split; [apply List.Forall_nil|done]|]. cbn [asNibbles flat_map app]. fold (asNibbles a). unfold byte_ok in Hx. rewrite !bsize_cons, IH2. split; [|lia].
  apply List.Forall_cons; [split; [apply Z.div_pos; lia|apply Z.div_lt_upper_bound; lia]|]. apply List.Forall_cons; [apply Z.mod_pos_bound; lia|done].
Qed.

Lemma key_facts i : 0 <= i < 2 ^ 64 -> rlp_enc (uint 64) i = Ok (encode (int_item i)) /\ bytes_ok (encode (int_item i)) /\ bsize (encode (int_item i)) <= 41.
Proof.
  intros Hi. destruct (small_int 64 i) as [Hs Hb]; [lia|done|]. destruct (codec_roundtrip (uint 64) _ _ i Strict (uint_ok 64 ltac:(lia) eq_refl) Hi Hs) as (E & _ & _). split_and!; [done|apply Hs|done].
Qed.

Lemma key_inj i j : 0 <= i < 2 ^ 64 -> 0 <= j < 2 ^ 64 -> asNibbles (encode (int_item i)) = asNibbles (encode (int_item j)) -> i = j.
Proof.
  intros Hi Hj E. destruct (key_facts i Hi) as (_ & Hbi & _), (key_facts j Hj) as (_ & Hbj & _). apply asNibbles_inj in E; [|done|done]. apply encode_inj in E; [|by apply (small_int 64); [lia|]..].
  unfold int_item in E. apply (f_equal (fun i => match i with Data d => be_value d | _ => 0 end)) in E. cbv beta iota in E. destruct (pushInt_spec i) as (Ei & _); [lia|]. destruct (pushInt_spec j) as (Ej & _); [lia|]. congruence.
Qed.

Lemma rmap_ok {A B} (f : A -> res B) (g : A -> B) l : (forall a, a ∈ l -> f a = Ok (g a)) -> rmap f l = Ok (map g l).
Proof. induction l as [|a l IH]; intros H; [done|]. cbn [rmap map]. rewrite H by (by left). cbn [rbind]. rewrite IH; [done|]. intros b Hb. apply H. by right. Qed.

Section root.
Variable sha3 : bytes -> bytes.
Hypothesis sha3_size : forall d, length (sha3 d) = 32%nat /\ bytes_ok (sha3 d).
Variable values : list bytes.
Hypothesis values_fit : Forall trie_value_ok values.
Hypothesis count_fits : Z.of_nat (length values) < 2 ^ 32.

Lemma entries_keys : (block_entries values).*1 = map (fun i => encode (int_item i)) (seqZ 0 (Z.of_nat (length values))).
Proof. unfold block_entries. rewrite fst_zip; [done|]. rewrite length_map, length_seqZ. lia. Qed.

Lemma nibble_keys_NoDup : NoDup (asNibbles <$> (block_entries values).*1).
Proof using count_fits.
  rewrite entries_keys. change (map (fun i => encode (int_item i))) with (fmap (M := list) (fun i => encode (int_item i))). rewrite <- list_fmap_compose. apply NoDup_fmap_2_strong; [|apply NoDup_seqZ].
  intros i j Hi%elem_of_seqZ Hj%elem_of_seqZ E. apply key_inj; [lia|lia|exact E].
Qed.

Lemma hex_of_spec : sorted (hex_of values) /\ hex_of values ≡ₚ map (fun e => (asNibbles e.1, e.2)) (block_entries values) /\ block_trie values = Ok (assign_all id (block_entries values)) /\
  assign_all id (block_entries values) ≡ₚ block_entries values.
Proof using count_fits.
  assert (NoDup (id <$> (block_entries values).*1)) as Hn by (rewrite list_fmap_id; eapply NoDup_fmap_1, nibble_keys_NoDup). destruct (assign_all_spec id _ Hn) as [_ Hp].
  assert (map (fun e : entry => (id e.1, e.2)) (block_entries values) = block_entries values) as Hid by (rewrite <- (map_id (block_entries values)) at 2; apply map_ext; by intros []). rewrite Hid in Hp.
  assert (NoDup (asNibbles <$> (rev (assign_all id (block_entries values))).*1)) as Hn2.
  { assert (rev (assign_all id (block_entries values)) ≡ₚ block_entries values) as -> by (rewrite <- Permutation_rev; exact Hp). apply nibble_keys_NoDup. }
  destruct (assign_all_spec asNibbles _ Hn2) as [Hs Hp2]. split_and!; [done| | |done].
  - unfold hex_of. rewrite Hp2. apply Permutation_map. by rewrite <- Permutation_rev.
  - unfold block_trie. rewrite (rmap_ok _ (fun i => encode (int_item i))); [done|]. intros i Hi%elem_of_seqZ. apply key_facts. lia.
Qed.

Lemma hex_of_ok : entries_ok (hex_of values) /\ values_ok (hex_of values) /\ Forall (fun e => (length e.1 < depth (hex_of values))%nat) (hex_of values) /\ Forall (fun e => bsize [] + bsize e.1 < 2 ^ 32 - 1) (hex_of values).
Proof using values_fit count_fits.
  destruct hex_of_spec as (Hs & Hp & _). assert (Forall (fun e => nibbles_ok e.1 /\ bytes_ok e.2 /\ bsize e.2 < 2 ^ 50 /\ bsize e.1 < 2 ^ 31 /\ e.2 <> []) (hex_of values)) as Hall.
  { rewrite Hp. apply Forall_map, Forall_forall. intros [k v] Hin. cbn [fst snd]. pose proof (elem_of_zip_l _ _ _ _ Hin) as Hk. pose proof (elem_of_zip_r _ _ _ _ Hin) as Hv. rewrite Forall_forall in values_fit. destruct (values_fit v Hv) as (V1 & V2 & V3).
    apply list_elem_of_fmap in Hk as (i & -> & Hi%elem_of_seqZ). destruct (key_facts i ltac:(lia)) as (_ & K1 & K2). destruct (asNibbles_ok _ K1) as [N1 N2]. split_and!; [done|done|done|lia|done]. }
  split_and!; [split; [done|]| | |]; try (eapply Forall_impl; [exact Hall|]; intros e (? & ? & ? & ? & ?); change (bsize []) with 0; tauto || lia).
  apply Forall_forall. intros e He. unfold depth. apply Nat.lt_succ_r, max_list_elem_of_le. exact (list_elem_of_fmap_2 (fun e : entry => length e.1) _ _ He).
Qed.

(** The root of the trie of a block is computed, as the hash of its node. *)
Lemma root_hash : exists t, block_trie values = Ok t /\
  hash256 sha3 t = Ok (sha3 (match values with [] => [128] | _ => encode (node sha3 (depth (hex_of values)) (hex_of values)) end)).
Proof using sha3_size values_fit count_fits.
  destruct hex_of_spec as (_ & _ & Hb & Hp). destruct hex_of_ok as (He & _ & Hf & Hl). eexists. split; [exact Hb|]. destruct (decide (values = [])) as [E|Hne]; [rewrite E; reflexivity|].
  assert (assign_all id (block_entries values) <> []) as Ht.
  { intros E. rewrite E in Hp. apply Permutation_nil_l in Hp || apply Permutation_nil in Hp. apply (f_equal length) in Hp. rewrite block_entries_length in Hp. by destruct values. }
  unfold hash256. destruct (assign_all id (block_entries values)) as [|e0 t0] eqn:Et; [done|]. rewrite <- Et. change (foldl (fun m '(k, v) => map_assign (asNibbles k) v m) [] (rev (assign_all id (block_entries values)))) with (hex_of values).
  pose proof (hash256rlp_item sha3 sha3_size (depth (hex_of values)) (hex_of values) [] newRLPStream He Hf Hl ltac:(unfold depth; lia)) as Hr. change (bsize []) with 0 in Hr.
  assert (under [] (hex_of values) = hex_of values) as Eu by (unfold under; rewrite <- (map_id (hex_of values)) at 2; apply map_ext; by intros []). rewrite Eu in Hr. rewrite Hr.
  destruct (node_small sha3 sha3_size (depth (hex_of values)) (hex_of values) He) as [Hs _]. pose proof (stream_out_item _ Hs) as Ho. destruct (stream_item newRLPStream _) as [r| |]; [|done..]. cbn [rbind] in *. rewrite Ho. cbn [rbind].
  by destruct values.
Qed.
End root.

(** The root of a block, for its transactions or its receipts, is always computed and determines them: two lists of non-empty encodings
    with one root are equal, provided the hash function has no collision among the nodes of the two tries. *)
Theorem trie_root_binding sha3 values values' : (forall d, length (sha3 d) = 32%nat /\ bytes_ok (sha3 d)) ->
  Forall trie_value_ok values -> Z.of_nat (length values) < 2 ^ 32 -> Forall trie_value_ok values' -> Z.of_nat (length values') < 2 ^ 32 ->
  no_collision sha3 (trie_nodes sha3 values) (trie_nodes sha3 values') ->
  exists t t' root root', block_trie values = Ok t /\ hash256 sha3 t = Ok root /\ block_trie values' = Ok t' /\ hash256 sha3 t' = Ok root' /\ (root = root' <-> values = values').
Proof.
  intros Hsha Hv Hn Hv' Hn' Hc. destruct (root_hash sha3 Hsha values Hv Hn) as (t & Ht & Hr), (root_hash sha3 Hsha values' Hv' Hn') as (t' & Ht' & Hr'). do 4 eexists. split_and!; [exact Ht|exact Hr|exact Ht'|exact Hr'|].
  split; [|by intros ->]. intros Heq. destruct (hex_of_ok values Hv Hn) as (He & Hvo & Hf & _), (hex_of_ok values' Hv' Hn') as (He' & Hvo' & Hf' & _).
  destruct (hex_of_spec values Hn) as (_ & Hp & _), (hex_of_spec values' Hn') as (_ & Hp' & _).
  assert (forall vs, vs <> [] -> hex_of vs ≡ₚ map (fun e => (asNibbles e.1, e.2)) (block_entries vs) -> hex_of vs <> []) as Hne.
  { clear. intros vs Hvs Hp E. rewrite E in Hp. apply Permutation_length in Hp. rewrite length_map, block_entries_length in Hp. by destruct vs. }
  assert (forall vs fuel, entries_ok (hex_of vs) -> hex_of vs <> [] -> (0 < fuel)%nat -> [128] <> encode (node sha3 fuel (hex_of vs))) as Hempty.
  { clear -Hsha. intros vs fuel He Hne Hf E. destruct (node_list sha3 fuel _ Hne Hf) as [its En]. destruct (node_small sha3 Hsha fuel _ He) as [Hs _]. rewrite En in *.
    change [128] with (encode (Data [])) in E. apply encode_inj in E; [done|apply empty_small|done]. }
  unfold trie_nodes in Hc. destruct values as [|v vs], values' as [|v' vs']; [done|..].
  - exfalso. apply (Hempty (v' :: vs') (depth (hex_of (v' :: vs')))); [done|by apply Hne|unfold depth; lia|]. apply Hc; [by left|apply hashed_node|done].
  - exfalso. apply (Hempty (v :: vs) (depth (hex_of (v :: vs)))); [done|by apply Hne|unfold depth; lia|]. symmetry. apply Hc; [apply hashed_node|by left|done].
  - set (values := v :: vs) in *. set (values' := v' :: vs') in *. set (f := Nat.max (depth (hex_of values)) (depth (hex_of values'))).
    assert (Forall (fun e => (length e.1 < f)%nat) (hex_of values)) as Hff by (eapply Forall_impl; [exact Hf|intros e Hlt; exact (Nat.lt_le_trans _ _ _ Hlt (Nat.le_max_l _ _))]).
    assert (Forall (fun e => (length e.1 < f)%nat) (hex_of values')) as Hff' by (eapply Forall_impl; [exact Hf'|intros e Hlt; exact (Nat.lt_le_trans _ _ _ Hlt (Nat.le_max_r _ _))]).
    destruct (node_fuel sha3 _ f _ Hf Hff) as [N H1], (node_fuel sha3 _ f _ Hf' Hff') as [N' H2]. rewrite H1, H2 in Hc. rewrite N, N' in Heq.
    destruct (node_small sha3 Hsha f _ He) as [Hs _], (node_small sha3 Hsha f _ He') as [Hs' _].
    assert (hex_of values = hex_of values') as Hhex.
    { apply (node_inj sha3 Hsha f); [done|done|done|done|by apply Hne|by apply Hne|done|done|done|]. apply encode_inj; [done|done|]. apply Hc; [apply hashed_node|apply hashed_node|done]. }
    rewrite Hhex, Hp' in Hp. clear -Hp Hn Hn'. assert (length values = length values') as Hlen.
    { apply Permutation_length in Hp. rewrite !length_map, !block_entries_length in Hp. done. }
    apply list_eq_same_length with (length values); [done|done|]. intros i x y Hi Hx Hy.
    assert ((asNibbles (encode (int_item (Z.of_nat i))), x) ∈ map (fun e => (asNibbles e.1, e.2)) (block_entries values')) as Hin.
    { rewrite Hp. apply list_elem_of_fmap. exists (encode (int_item (Z.of_nat i)), x). split; [done|]. apply list_elem_of_lookup. exists i. unfold block_entries. apply lookup_zip_Some. split; [|done].
      change (map (fun i => encode (int_item i))) with (fmap (M := list) (fun i => encode (int_item i))). rewrite list_lookup_fmap, lookup_seqZ_lt by lia. done. }
    apply list_elem_of_fmap in Hin as ([k w] & [= Ek <-] & (j & Hj)%list_elem_of_lookup). unfold block_entries in Hj. apply lookup_zip_Some in Hj as [Hk Hw].
    change (map (fun i => encode (int_item i))) with (fmap (M := list) (fun i => encode (int_item i))) in Hk. rewrite list_lookup_fmap in Hk. apply fmap_Some in Hk as (z & [-> Hz]%lookup_seqZ & ->). cbn [fst] in Ek.
    apply key_inj in Ek; [|lia|lia]. assert (i = j) as <- by lia. congruence.
Qed.

(** A function of the size of a hash for the witness: the last 32 bytes. *)
Definition sample_hash (d : bytes) : bytes := map (fun b => b mod 256) (take 32 (rev d ++ replicate 32 0)).

Lemma trie_root_binding_witness : exists t t' root root',
  block_trie [[1; 2]; replicate 40 3] = Ok t /\ hash256 sample_hash t = Ok root /\ block_trie [[1; 2]; replicate 40 4] = Ok t' /\ hash256 sample_hash t' = Ok root' /\
  (root = root' <-> [[1; 2]; replicate 40 3] = [[1; 2]; replicate 40 4]).
Proof.
  apply (trie_root_binding sample_hash [[1; 2]; replicate 40 3] [[1; 2]; replicate 40 4]).
  - intros d. unfold sample_hash. rewrite length_map, length_take, length_app, length_replicate. split; [lia|]. apply Forall_map, Forall_forall. intros b _. apply Z.mod_pos_bound. lia.
  - repeat (apply List.Forall_cons; [split_and!; [done| |vm_compute; reflexivity]; repeat (apply List.Forall_cons; [split; vm_compute; congruence|]); apply List.Forall_nil|]). apply List.Forall_nil.
  - reflexivity.
  - repeat (apply List.Forall_cons; [split_and!; [done| |vm_compute; reflexivity]; repeat (apply List.Forall_cons; [split; vm_compute; congruence|]); apply List.Forall_nil|]). apply List.Forall_nil.
  - reflexivity.
  - assert (forallb (fun x => forallb (fun y => negb (bool_decide (sample_hash x = sample_hash y)) || bool_decide (x = y)) (trie_nodes sample_hash [[1; 2]; replicate 40 4])) (trie_nodes sample_hash [[1; 2]; replicate 40 3]) = true) as Hb
      by (vm_compute; reflexivity).
    intros x y Hx Hy Hs. rewrite forallb_forall in Hb. specialize (Hb x (proj1 (list_elem_of_In _ _) Hx)). rewrite forallb_forall in Hb. specialize (Hb y (proj1 (list_elem_of_In _ _) Hy)).
    rewrite (bool_decide_true _ Hs) in Hb. cbn [negb orb] in Hb. by apply bool_decide_eq_true in Hb.
Defined.
