(* ===== verification/PeriodDataDb.v ===== *)
(** * Finalized periods in the database

    The rows that [DbStorage::savePeriodData] (storage.cpp) writes for a finalized period, and the functions that read parts
    of a period without decoding all of it: by period, by position and by hash.  Values are the bytes that are stored; a
    missing row is the empty string. *)

From S2P Require Import Prelude Rlp RlpStream RlpRead RlpItems RlpCodec VoteRlp DagBlockRlp DagBundleRlp TransactionRlp PbftBlockRlp PeriodDataRlp.
Local Open Scope Z_scope.
Local Open Scope rlp_scope.
#[local] Hint Resolve bsize_nonneg : core.

(** ** Columns *)

Record PeriodDb := mkPeriodDb {
  col_period_data : gmap Z bytes;
  col_pbft_block_period : gmap bytes Z;
  col_dag_blocks : gmap bytes bytes;
  col_dag_block_period : gmap bytes bytes;
  col_transactions : gmap bytes bytes;
  col_trx_period : gmap bytes bytes;
  col_system_transaction : gmap bytes bytes;
  col_period_system_transactions : gmap Z bytes;
}.

Definition PBFT_BLOCK_POS_IN_PERIOD_DATA : Z := 0.
Definition CERT_VOTES_POS_IN_PERIOD_DATA : Z := 1.
Definition DAG_BLOCKS_POS_IN_PERIOD_DATA : Z := 2.
Definition TRANSACTIONS_POS_IN_PERIOD_DATA : Z := 3.
Definition PILLAR_VOTES_POS_IN_PERIOD_DATA : Z := 4.
Definition PREV_BLOCK_HASH_POS_IN_PBFT_BLOCK : Z := 0.

Section db.
Variable sha3 : bytes -> bytes.
Variable recover : bytes -> bytes -> bytes.

Definition dag_block_hash (b : SerialDagBlock) : res bytes := let* d := dag_block_rlp true true b in Ok (sha3 d).
Definition object_hash (o : TransactionObject) : res bytes := let* d := object_rlp o in Ok (sha3 d).

(** ** Locations *)

Definition dag_location_rlp (period position : Z) : res bytes :=
  let* s := appendList newRLPStream 2 in let* s := append_int_ s period in let* s := append_int_ s position in stream_out s.

Definition getDagBlockPeriod (db : PeriodDb) (hash : bytes) : res (option (Z * Z)) :=
  match default [] (col_dag_block_period db !! hash) with
  | [] => Ok None
  | data =>
      let* d := newRLP data VeryStrict in
      let* it := it_begin d in
      let* (d1, it) := take_item it in let* period := toInt 64 d1 Strict in
      let* (d2, it) := take_item it in let* position := toInt 32 d2 Strict in
      Ok (Some (period, position))
  end.

Definition trx_location_rlp (period position : Z) (is_system : bool) : res bytes :=
  let* s := appendList newRLPStream (2 + (if is_system then 1 else 0)) in
  let* s := append_int_ s period in
  let* s := append_int_ s position in
  let* s := (if is_system then append_int_ s 1 else Ok s) in
  stream_out s.

(** [TransactionLocation::fromRlp]. *)
Definition location_from (d : bytes) : res (Z * Z * bool) :=
  let* it := it_begin d in
  let* (d1, it) := take_item it in let* period := toInt 64 d1 Strict in
  let* (d2, it) := take_item it in let* position := toInt 32 d2 Strict in
  let* n := itemCount d in
  if n =? 3 then let* (d3, it) := take_item it in let* v := toInt 8 d3 Strict in Ok (period, position, negb (v =? 0)) else Ok (period, position, false).

Definition getTransactionLocation (db : PeriodDb) (hash : bytes) : res (option (Z * Z * bool)) :=
  match default [] (col_trx_period db !! hash) with
  | [] => Ok None
  | data => let* d := newRLP data VeryStrict in let* l := location_from d in Ok (Some l)
  end.

(** ** Writing a period *)

Definition add_dag_block (period : Z) (st : PeriodDb * Z) (b : SerialDagBlock) : res (PeriodDb * Z) :=
  let '(db, block_pos) := st in
  let* h := dag_block_hash b in
  let* loc := dag_location_rlp period block_pos in
  Ok (mkPeriodDb (col_period_data db) (col_pbft_block_period db) (delete h (col_dag_blocks db)) (<[h := loc]> (col_dag_block_period db)) (col_transactions db) (col_trx_period db)
    (col_system_transaction db) (col_period_system_transactions db), block_pos + 1).

Definition add_transaction (period : Z) (st : PeriodDb * Z) (o : TransactionObject) : res (PeriodDb * Z) :=
  let '(db, trx_pos) := st in
  let* h := object_hash o in
  let* loc := trx_location_rlp period trx_pos false in
  Ok (mkPeriodDb (col_period_data db) (col_pbft_block_period db) (col_dag_blocks db) (col_dag_block_period db) (delete h (col_transactions db)) (<[h := loc]> (col_trx_period db))
    (col_system_transaction db) (col_period_system_transactions db), trx_pos + 1).

Definition savePeriodData (db : PeriodDb) (p : SerialPeriodData) : res PeriodDb :=
  let period := pb_period (po_block (pd_pbft_blk p)) in
  let db := mkPeriodDb (col_period_data db) (<[po_block_hash (pd_pbft_blk p) := period]> (col_pbft_block_period db)) (col_dag_blocks db) (col_dag_block_period db) (col_transactions db)
    (col_trx_period db) (col_system_transaction db) (col_period_system_transactions db) in
  let* (db, _) := rfold (add_dag_block period) (pd_dag_blocks p) (db, 0) in
  let* (db, _) := rfold (add_transaction period) (pd_transactions p) (db, 0) in
  let* data := period_data_rlp p in
  Ok (mkPeriodDb (<[period := data]> (col_period_data db)) (col_pbft_block_period db) (col_dag_blocks db) (col_dag_block_period db) (col_transactions db) (col_trx_period db)
    (col_system_transaction db) (col_period_system_transactions db)).

(** ** Reading *)

Definition getPeriodDataRaw (db : PeriodDb) (period : Z) : bytes := default [] (col_period_data db !! period).

(** The reader of the row of a period, or [none] without a row. *)
Definition with_period {A} (db : PeriodDb) (period : Z) (none : A) (f : bytes -> res A) : res A :=
  match getPeriodDataRaw db period with [] => Ok none | data => let* d := newRLP data VeryStrict in f d end.

Definition getPeriodData (db : PeriodDb) (period : Z) : res (option SerialPeriodData) :=
  with_period db period None (fun d => let* p := period_data_from sha3 recover d in Ok (Some p)).

Definition getPbftBlock (db : PeriodDb) (period : Z) : res (option PbftBlockObject) :=
  with_period db period None (fun d => let* r := rlp_at d PBFT_BLOCK_POS_IN_PERIOD_DATA in let* b := pbft_block_from sha3 recover r in Ok (Some b)).

Definition getPeriodBlockHash (db : PeriodDb) (period : Z) : res bytes :=
  let* b := getPbftBlock db period in Ok (match b with Some b => po_block_hash b | None => replicate 32 0 end).

Definition getPeriodFromPbftHash (db : PeriodDb) (hash : bytes) : bool * Z :=
  match col_pbft_block_period db !! hash with Some p => (true, p) | None => (false, 0) end.

Definition getPbftBlockByHash (db : PeriodDb) (hash : bytes) : res (option PbftBlockObject) :=
  let '(found, period) := getPeriodFromPbftHash db hash in if found then getPbftBlock db period else Ok None.

Definition getTransactionAt (db : PeriodDb) (period position : Z) : res (option TransactionObject) :=
  with_period db period None (fun d =>
    let* r := rlp_at d TRANSACTIONS_POS_IN_PERIOD_DATA in let* t := rlp_at r position in let* o := object_from t in Ok (Some o)).

Definition getTransactionCount (db : PeriodDb) (period : Z) : res Z :=
  with_period db period 0 (fun d => let* r := rlp_at d TRANSACTIONS_POS_IN_PERIOD_DATA in itemCount r).

Definition getSystemTransaction (db : PeriodDb) (hash : bytes) : res (option TransactionObject) :=
  match default [] (col_system_transaction db !! hash) with
  | [] => Ok None
  | data => let* t := system_transaction_from data false in Ok (Some (mkTransactionObject t (Some data)))
  end.

Definition getTransaction (db : PeriodDb) (hash : bytes) : res (option TransactionObject) :=
  match default [] (col_transactions db !! hash) with
  | [] =>
      let* location := getTransactionLocation db hash in
      match location with
      | Some (period, position, false) => getTransactionAt db period position
      | _ => getSystemTransaction db hash
      end
  | data => let* t := transaction_from data false in Ok (Some (mkTransactionObject t (Some data)))
  end.

(** Positions by period: [std::map] of sets, visited in order. *)
Definition location_le (a b : Z * Z) : Prop := a.1 < b.1 \/ (a.1 = b.1 /\ a.2 <= b.2).
#[global] Instance location_le_dec a b : Decision (location_le a b) := ltac:(unfold location_le; apply _).

Definition getFinalizedTransactions (db : PeriodDb) (trx_hashes : list bytes) : res (list TransactionObject) :=
  let* locations := rmap (getTransactionLocation db) trx_hashes in
  let positions := merge_sort location_le (remove_dups (omap (fun l => match l with Some (period, position, _) => Some (period, position) | None => None end) locations)) in
  rmap (fun '(period, position) => let* o := getTransactionAt db period position in match o with Some o => Ok o | None => Throw AssertionFailed end) positions.

Definition getPeriodCertVotes (db : PeriodDb) (period : Z) : res (list SerialVote) :=
  with_period db period [] (fun d =>
    let* r := rlp_at d CERT_VOTES_POS_IN_PERIOD_DATA in let* n := itemCount r in if n =? 0 then Ok [] else decodePbftVotesBundleRlp r).

Definition getPeriodPillarVotes (db : PeriodDb) (period : Z) : res (list SerialPillarVote) :=
  with_period db period [] (fun d =>
    let* n := itemCount d in
    if n <? PILLAR_VOTES_POS_IN_PERIOD_DATA then Ok [] else let* r := rlp_at d PILLAR_VOTES_POS_IN_PERIOD_DATA in decodePillarVotesBundleRlp r).

Definition getFinalizedDagBlockByPeriod (db : PeriodDb) (period : Z) : res (list SerialDagBlock) :=
  with_period db period [] (fun d => let* r := rlp_at d DAG_BLOCKS_POS_IN_PERIOD_DATA in decodeDAGBlocksBundleRlp r).

Definition getFinalizedDagBlockHashesByPeriod (db : PeriodDb) (period : Z) : res (list bytes) :=
  let* blocks := getFinalizedDagBlockByPeriod db period in rmap dag_block_hash blocks.

Definition getLastPbftBlockHashAndFinalizedDagBlockByPeriod (db : PeriodDb) (period : Z) : res (bytes * list SerialDagBlock) :=
  with_period db period (replicate 32 0, []) (fun d =>
    let* r := rlp_at d DAG_BLOCKS_POS_IN_PERIOD_DATA in
    let* blocks := decodeDAGBlocksBundleRlp r in
    let* b := rlp_at d PBFT_BLOCK_POS_IN_PERIOD_DATA in
    let* h := rlp_at b PREV_BLOCK_HASH_POS_IN_PBFT_BLOCK in
    let* h := toHash 32 h Strict in
    Ok (h, blocks)).

Definition getDagBlock (db : PeriodDb) (hash : bytes) : res (option SerialDagBlock) :=
  match default [] (col_dag_blocks db !! hash) with
  | [] =>
      let* data := getDagBlockPeriod db hash in
      match data with
      | None => Ok None
      | Some (period, position) => with_period db period None (fun d => let* r := rlp_at d DAG_BLOCKS_POS_IN_PERIOD_DATA in decodeDAGBlockBundleRlp position r)
      end
  | block_data => let* d := newRLP block_data VeryStrict in let* b := dag_block_from d in Ok (Some b)
  end.

Definition transactionFinalized (db : PeriodDb) (hash : bytes) : bool := negb (bool_decide (default [] (col_trx_period db !! hash) = [])).
Definition transactionInDb (db : PeriodDb) (hash : bytes) : bool :=
  negb (bool_decide (default [] (col_transactions db !! hash) = [])) || negb (bool_decide (default [] (col_trx_period db !! hash) = [])).
Definition dagBlockInDb (db : PeriodDb) (hash : bytes) : bool :=
  negb (bool_decide (default [] (col_dag_blocks db !! hash) = [])) || negb (bool_decide (default [] (col_dag_block_period db !! hash) = [])).
End db.

(** ** Locations are read back *)

Definition location_item (period position : Z) (is_system : bool) : item := Items ([int_item period; int_item position] ++ (if is_system then [int_item 1] else [])).

Lemma location_small period position is_system : 0 <= period < 2 ^ 64 -> 0 <= position < 2 ^ 32 -> small (location_item period position is_system).
Proof. intros H1 H2. apply (small_items _ 300); [|lia|destruct is_system; simpl; lia]. destruct is_system; cbn [app]; smalls. Qed.

Lemma dag_location_written period position : 0 <= period < 2 ^ 64 -> 0 <= position < 2 ^ 32 -> dag_location_rlp period position = Ok (encode (location_item period position false)).
Proof.
  intros H1 H2. pose proof (location_small period position false H1 H2) as Hs. pose proof (small_Items _ Hs) as Hi. cbn [app] in Hi. rewrite !Forall_cons in Hi. destruct Hi as (S1 & S2 & _).
  apply write_list; [done|done|]. intros s. cbn [app]. write_items.
Qed.

Lemma trx_location_written period position is_system : 0 <= period < 2 ^ 64 -> 0 <= position < 2 ^ 32 -> trx_location_rlp period position is_system = Ok (encode (location_item period position is_system)).
Proof.
  intros H1 H2. pose proof (location_small period position is_system H1 H2) as Hs. pose proof (small_Items _ Hs) as Hi. unfold location_item, trx_location_rlp in *.
  apply write_list; [done|by destruct is_system|]. intros s. destruct is_system; cbn [app] in *; rewrite !Forall_cons in Hi; destruct Hi as (S1 & S2 & Hi); write_items.
  apply write_int; [intros ?; reflexivity|lia|apply Hi].
Qed.

Lemma encode_list_cons l : exists b d, encode (Items l) = b :: d.
Proof. destruct (encode (Items l)) as [|b d] eqn:E; [by apply encode_nonempty in E|by eexists _, _]. Qed.

Lemma dag_location_read db h period position : 0 <= period < 2 ^ 64 -> 0 <= position < 2 ^ 32 -> col_dag_block_period db !! h = Some (encode (location_item period position false)) ->
  getDagBlockPeriod db h = Ok (Some (period, position)).
Proof.
  intros H1 H2 Hl. pose proof (location_small period position false H1 H2) as Hs. pose proof (small_fits _ Hs) as F1. cbn [app] in F1. unfold getDagBlockPeriod. rewrite Hl. change (default [] (Some (encode (location_item period position false)))) with (encode (location_item period position false)).
  destruct (encode_list_cons ([int_item period; int_item position] ++ [])) as (b & d & E). fold (location_item period position false) in E. rewrite E. cbv beta iota zeta. rewrite <- E. rewrite newRLP_encode by done. cbn [rbind].
  unfold location_item in *. cbn [app] in *. rewrite it_begin_items by done. cbn [rbind]. destruct (take_items _ _ F1) as [-> F2]. cbn [rbind]. destruct (fits_cons _ _ F1) as [S1 _], (fits_cons _ _ F2) as [S2 _].
  rewrite (toInt_item 64) by (done || lia). cbn [rbind]. destruct (take_items _ _ F2) as [-> F3]. cbn [rbind]. by rewrite (toInt_item 32) by (done || lia).
Qed.

Lemma trx_location_read db h period position is_system : 0 <= period < 2 ^ 64 -> 0 <= position < 2 ^ 32 -> col_trx_period db !! h = Some (encode (location_item period position is_system)) ->
  getTransactionLocation db h = Ok (Some (period, position, is_system)).
Proof.
  intros H1 H2 Hl. pose proof (location_small period position is_system H1 H2) as Hs. pose proof (small_fits _ Hs) as F1. cbn [app] in F1. unfold getTransactionLocation. rewrite Hl. change (default [] (Some (encode (location_item period position is_system)))) with (encode (location_item period position is_system)).
  destruct (encode_list_cons ([int_item period; int_item position] ++ (if is_system then [int_item 1] else []))) as (b & d & E). fold (location_item period position is_system) in E. rewrite E. cbv beta iota zeta. rewrite <- E. rewrite newRLP_encode by done. cbn [rbind].
  unfold location_from, location_item in *. cbn [app] in *. rewrite it_begin_items by done. cbn [rbind]. destruct (take_items _ _ F1) as [-> F2]. cbn [rbind]. destruct (fits_cons _ _ F1) as [S1 _], (fits_cons _ _ F2) as [S2 _].
  rewrite (toInt_item 64) by (done || lia). cbn [rbind]. destruct (take_items _ _ F2) as [-> F3]. cbn [rbind]. rewrite (toInt_item 32) by (done || lia). cbn [rbind]. destruct (itemCount_encode _ Hs) as [-> _]. cbn [rbind].
  destruct is_system; [|done]. change (Z.of_nat (length _) =? 3) with true. cbv iota. destruct (take_items _ _ F3) as [-> _]. cbn [rbind]. destruct (fits_cons _ _ F3) as [S3 _]. by rewrite (toInt_item 8) by (done || lia).
Qed.

(** ** What is saved is found *)

Section saved.
Variable sha3 : bytes -> bytes.
Variable recover : bytes -> bytes -> bytes.

(** The rows of the DAG blocks and of the transactions; the other columns stay. *)
Lemma dag_rows period : 0 <= period < 2 ^ 64 -> forall bs hs db pos, Forall2 (fun b h => dag_block_hash sha3 b = Ok h) bs hs -> NoDup hs -> 0 <= pos -> pos + Z.of_nat (length bs) < 2 ^ 32 ->
  exists db', rfold (add_dag_block sha3 period) bs (db, pos) = Ok (db', pos + Z.of_nat (length bs)) /\
    col_period_data db' = col_period_data db /\ col_pbft_block_period db' = col_pbft_block_period db /\ col_transactions db' = col_transactions db /\ col_trx_period db' = col_trx_period db /\
    col_system_transaction db' = col_system_transaction db /\ col_period_system_transactions db' = col_period_system_transactions db /\
    (forall i h, hs !! i = Some h -> col_dag_blocks db' !! h = None /\ col_dag_block_period db' !! h = Some (encode (location_item period (pos + Z.of_nat i) false))) /\
    (forall h, h ∉ hs -> col_dag_blocks db' !! h = col_dag_blocks db !! h /\ col_dag_block_period db' !! h = col_dag_block_period db !! h).
Proof.
  intros Hp bs. induction bs as [|b bs IH]; intros hs db pos Hh Hnd H0 Hn; inversion Hh as [|? h ? hs' Hb Hbs]; subst.
  - exists db. cbn [rfold length]. rewrite Z.add_0_r. split_and!; try done.
  - apply NoDup_cons in Hnd as [Hni Hnd]. cbn [rfold add_dag_block length] in *. rewrite Hb. cbn [rbind]. rewrite dag_location_written by lia. cbn [rbind].
    match goal with |- context[rfold _ bs (?d, _)] => destruct (IH hs' d (pos + 1) Hbs Hnd ltac:(lia) ltac:(lia)) as (db' & E & C1 & C2 & C3 & C4 & C5 & C6 & Hin & Hout) end.
    exists db'. cbn [col_period_data col_pbft_block_period col_transactions col_trx_period col_system_transaction col_period_system_transactions col_dag_blocks col_dag_block_period] in *.
    split_and!; try done; [rewrite E; f_equal; f_equal; lia| |].
    + intros [|i] h' Hi.
      * injection Hi as <-. destruct (Hout h Hni) as [-> ->]. rewrite lookup_delete_eq, lookup_insert_eq. by rewrite Z.add_0_r.
      * destruct (Hin i h' Hi) as [-> ->]. split; [done|]. do 3 f_equal. lia.
    + intros h' Hh'. apply not_elem_of_cons in Hh' as [Hne Hh']. destruct (Hout h' Hh') as [-> ->]. by rewrite lookup_delete_ne, lookup_insert_ne.
Qed.

Lemma trx_rows period : 0 <= period < 2 ^ 64 -> forall os hs db pos, Forall2 (fun o h => object_hash sha3 o = Ok h) os hs -> NoDup hs -> 0 <= pos -> pos + Z.of_nat (length os) < 2 ^ 32 ->
  exists db', rfold (add_transaction sha3 period) os (db, pos) = Ok (db', pos + Z.of_nat (length os)) /\
    col_period_data db' = col_period_data db /\ col_pbft_block_period db' = col_pbft_block_period db /\ col_dag_blocks db' = col_dag_blocks db /\ col_dag_block_period db' = col_dag_block_period db /\
    col_system_transaction db' = col_system_transaction db /\ col_period_system_transactions db' = col_period_system_transactions db /\
    (forall i h, hs !! i = Some h -> col_transactions db' !! h = None /\ col_trx_period db' !! h = Some (encode (location_item period (pos + Z.of_nat i) false))) /\
    (forall h, h ∉ hs -> col_transactions db' !! h = col_transactions db !! h /\ col_trx_period db' !! h = col_trx_period db !! h).
Proof.
  intros Hp os. induction os as [|b bs IH]; intros hs db pos Hh Hnd H0 Hn; inversion Hh as [|? h ? hs' Hb Hbs]; subst.
  - exists db. cbn [rfold length]. rewrite Z.add_0_r. split_and!; try done.
  - apply NoDup_cons in Hnd as [Hni Hnd]. cbn [rfold add_transaction length] in *. rewrite Hb. cbn [rbind]. rewrite trx_location_written by lia. cbn [rbind].
    match goal with |- context[rfold _ bs (?d, _)] => destruct (IH hs' d (pos + 1) Hbs Hnd ltac:(lia) ltac:(lia)) as (db' & E & C1 & C2 & C3 & C4 & C5 & C6 & Hin & Hout) end.
    exists db'. cbn [col_period_data col_pbft_block_period col_transactions col_trx_period col_system_transaction col_period_system_transactions col_dag_blocks col_dag_block_period] in *.
    split_and!; try done; [rewrite E; f_equal; f_equal; lia| |].
    + intros [|i] h' Hi.
      * injection Hi as <-. destruct (Hout h Hni) as [-> ->]. rewrite lookup_delete_eq, lookup_insert_eq. by rewrite Z.add_0_r.
      * destruct (Hin i h' Hi) as [-> ->]. split; [done|]. do 3 f_equal. lia.
    + intros h' Hh'. apply not_elem_of_cons in Hh' as [Hne Hh']. destruct (Hout h' Hh') as [-> ->]. by rewrite lookup_delete_ne, lookup_insert_ne.
Qed.

Lemma Ok_inj {A} (a b : A) : Ok a = Ok b -> a = b.
Proof. congruence. Qed.

Lemma with_row {A} db period l (none : A) f : small (Items l) -> col_period_data db !! period = Some (encode (Items l)) -> with_period db period none f = f (encode (Items l)).
Proof.
  intros Hs Hl. unfold with_period, getPeriodDataRaw. rewrite Hl. change (default [] (Some (encode (Items l)))) with (encode (Items l)). destruct (encode_list_cons l) as (b & d & E). rewrite E. cbv beta iota. rewrite <- E.
  by rewrite newRLP_encode.
Qed.

(** Parts of the row of a period. *)
Lemma parts_read db p its : period_data_ok sha3 recover p its -> (exists d, period_data_rlp p = Ok d /\ col_period_data db !! pb_period (po_block (pd_pbft_blk p)) = Some d) ->
  let n := pb_period (po_block (pd_pbft_blk p)) in
  getPeriodData sha3 recover db n = Ok (Some (read_back p its)) /\ getPbftBlock sha3 recover db n = Ok (Some (pd_pbft_blk p)) /\
  getPeriodCertVotes db n = Ok (map (set_weight None) (pd_previous_block_cert_votes p)) /\ getFinalizedDagBlockByPeriod db n = Ok (pd_dag_blocks p) /\
  getLastPbftBlockHashAndFinalizedDagBlockByPeriod db n = Ok (pb_prev_block_hash (po_block (pd_pbft_blk p)), pd_dag_blocks p) /\
  getTransactionCount db n = Ok (Z.of_nat (length (pd_transactions p))) /\
  (forall i o, pd_transactions (read_back p its) !! i = Some o -> getTransactionAt db n (Z.of_nat i) = Ok (Some o)) /\
  (forall i b, pd_dag_blocks p !! i = Some b -> with_period db n None (fun d => let* r := rlp_at d DAG_BLOCKS_POS_IN_PERIOD_DATA in decodeDAGBlockBundleRlp (Z.of_nat i) r) = Ok (Some b)) /\
  getPeriodPillarVotes db n = match pd_pillar_votes p with Some votes => Ok votes | None => Throw AssertionFailed end.
Proof.
  intros Hok (d & Hd & Hrow) n. destruct (period_written sha3 recover p its Hok) as (d' & E1 & _ & E3). pose proof Hok as ((Hblk & _) & _ & _ & Ht & Hcnt & _).
  destruct (period_items sha3 recover p its Hok) as (i2 & i3 & l5 & [Hs Hr D1 D2 Hno D3 Done [S4 D4] D5]). fold n in Hrow. rewrite Hr in Hd, E1. apply Ok_inj in Hd. apply Ok_inj in E1. subst d d'.
  set (i1 := Items (pbft_items true (po_block (pd_pbft_blk p)))) in *. set (l := i1 :: i2 :: i3 :: Items its :: l5) in *.
  assert (small i1) as S1 by (exact (Forall_inv (small_Items _ Hs))). split_and!.
  - unfold getPeriodData. rewrite (with_row db n l) by done. by rewrite E3.
  - unfold getPbftBlock. rewrite (with_row db n l) by done. unfold PBFT_BLOCK_POS_IN_PERIOD_DATA. read_at Hs 0 0%nat. by rewrite D1.
  - unfold getPeriodCertVotes. rewrite (with_row db n l) by done. unfold CERT_VOTES_POS_IN_PERIOD_DATA. read_at Hs 1 1%nat. destruct (1 <? _) eqn:E.
    + assert (itemCount (encode i2) = Ok kPbftVotesBundleRlpSize) as Hc.
      { unfold decodePbftVotesBundleRlp in D2. destruct (itemCount (encode i2)) as [c| |]; [|done..]. cbn [rbind] in D2. destruct (Z.eqb_spec c kPbftVotesBundleRlpSize); [by subst c|done]. }
      rewrite Hc. cbn [rbind]. done.
    + rewrite (Hno eq_refl). done.
  - unfold getFinalizedDagBlockByPeriod. rewrite (with_row db n l) by done. unfold DAG_BLOCKS_POS_IN_PERIOD_DATA. by read_at Hs 2 2%nat.
  - unfold getLastPbftBlockHashAndFinalizedDagBlockByPeriod. rewrite (with_row db n l) by done. unfold DAG_BLOCKS_POS_IN_PERIOD_DATA, PBFT_BLOCK_POS_IN_PERIOD_DATA, PREV_BLOCK_HASH_POS_IN_PBFT_BLOCK.
    read_at Hs 2 2%nat. rewrite D3. cbn [rbind]. read_at Hs 0 0%nat. unfold i1. read_at S1 0 0%nat. destruct Hblk as ((Hl & Hb) & _). pose proof (Forall_inv (small_Items _ S1)) as S0. by rewrite toHash_item.
  - unfold getTransactionCount. rewrite (with_row db n l) by done. unfold TRANSACTIONS_POS_IN_PERIOD_DATA. read_at Hs 3 3%nat. destruct (itemCount_encode _ S4) as [-> _]. by rewrite (Forall2_length _ _ _ Ht).
  - intros i o Hi. unfold getTransactionAt. rewrite (with_row db n l) by done. unfold TRANSACTIONS_POS_IN_PERIOD_DATA. read_at Hs 3 3%nat. cbn [read_back pd_transactions] in Hi.
    apply lookup_zip_with_Some in Hi as (o0 & it & -> & Ho & Hit). rewrite (rlp_at_encode its i it S4 Hit). cbn [rbind]. destruct (Forall2_lookup_lr _ _ _ _ _ _ Ht Ho Hit) as (_ & _ & _ & H4).
    unfold object_from. by rewrite H4.
  - intros i b Hi. rewrite (with_row db n l) by done. unfold DAG_BLOCKS_POS_IN_PERIOD_DATA. read_at Hs 2 2%nat. by apply Done.
  - unfold getPeriodPillarVotes. rewrite (with_row db n l) by done. destruct (itemCount_encode _ Hs) as [-> _]. cbn [rbind]. unfold PILLAR_VOTES_POS_IN_PERIOD_DATA. destruct (pd_pillar_votes p) as [votes|].
    + destruct D5 as (i5 & El5 & D5). unfold l in *. rewrite El5 in *. change (Z.of_nat _ <? 4) with false. cbv iota. read_at Hs 4 4%nat. done.
    + unfold l in *. rewrite D5 in *. change (Z.of_nat _ <? 4) with false. cbv iota. pose proof Hs as [Hbok Hbs]. pose proof (encode_framed _ Hbok) as Hf. cbn [item_list item_payload] in Hf.
      destruct (payload_frame _ _ _ Hf Hbok Hbs) as (Hp & Hpok & Hps & Hlt). specialize (Hlt eq_refl). pose proof (split_encode _ Hpok Hps _ ltac:(exact (Nat.le_refl _))) as Hsp.
      destruct (rlp_index_spec _ _ _ Hp Hpok Hps Hsp ltac:(lia) 4 no_cache) as (c' & E & _); [lia|by left|]. unfold rlp_at. rewrite E. done.
Qed.
End saved.

(** A finalized period that is saved is found: the data of the period, its block by period and by hash, its cert votes and their number, the
    hash of the block before, every DAG block and every transaction by its hash and every transaction by its position; a DAG block or transaction
    of the period is no longer among those that are not finalized; rows of other periods and hashes stay. *)
Theorem saved_period_found sha3 recover db p its dag_hashes trx_hashes : period_data_ok sha3 recover p its ->
  Forall2 (fun b h => dag_block_hash sha3 b = Ok h) (pd_dag_blocks p) dag_hashes -> NoDup dag_hashes ->
  Forall2 (fun o h => object_hash sha3 o = Ok h) (pd_transactions p) trx_hashes -> NoDup trx_hashes ->
  let n := pb_period (po_block (pd_pbft_blk p)) in
  exists db', savePeriodData sha3 db p = Ok db' /\
    getPeriodData sha3 recover db' n = Ok (Some (read_back p its)) /\ getPbftBlock sha3 recover db' n = Ok (Some (pd_pbft_blk p)) /\
    getPbftBlockByHash sha3 recover db' (po_block_hash (pd_pbft_blk p)) = Ok (Some (pd_pbft_blk p)) /\
    getPeriodCertVotes db' n = Ok (map (set_weight None) (pd_previous_block_cert_votes p)) /\
    getLastPbftBlockHashAndFinalizedDagBlockByPeriod db' n = Ok (pb_prev_block_hash (po_block (pd_pbft_blk p)), pd_dag_blocks p) /\
    getFinalizedDagBlockHashesByPeriod sha3 db' n = Ok dag_hashes /\ getTransactionCount db' n = Ok (Z.of_nat (length trx_hashes)) /\
    (forall i b h, pd_dag_blocks p !! i = Some b -> dag_hashes !! i = Some h -> getDagBlock db' h = Ok (Some b) /\ col_dag_blocks db' !! h = None) /\
    (forall i o h, pd_transactions (read_back p its) !! i = Some o -> trx_hashes !! i = Some h ->
       getTransaction db' h = Ok (Some o) /\ getTransactionAt db' n (Z.of_nat i) = Ok (Some o) /\ transactionFinalized db' h = true /\ col_transactions db' !! h = None) /\
    (forall m, m <> n -> getPeriodDataRaw db' m = getPeriodDataRaw db m) /\
    (forall h, h ∉ dag_hashes -> col_dag_blocks db' !! h = col_dag_blocks db !! h /\ getDagBlockPeriod db' h = getDagBlockPeriod db h) /\
    (forall h, h ∉ trx_hashes -> col_transactions db' !! h = col_transactions db !! h /\ getTransactionLocation db' h = getTransactionLocation db h).
Proof.
  intros Hok Hdh Hdn Hth Htn n. pose proof Hok as ((Hblk & _) & _ & (_ & Hbl & _) & Ht & Hcnt & _). assert (0 <= n < 2 ^ 64) as Hn by apply Hblk. pose proof (Forall2_length _ _ _ Ht) as Hlen.
  set (db0 := mkPeriodDb (col_period_data db) (<[po_block_hash (pd_pbft_blk p) := n]> (col_pbft_block_period db)) (col_dag_blocks db) (col_dag_block_period db) (col_transactions db) (col_trx_period db)
    (col_system_transaction db) (col_period_system_transactions db)).
  destruct (dag_rows sha3 n Hn _ _ db0 0 Hdh Hdn ltac:(lia) ltac:(lia)) as (db1 & E1 & A1 & A2 & A3 & A4 & A5 & A6 & Hin1 & Hout1).
  destruct (trx_rows sha3 n Hn _ _ db1 0 Hth Htn ltac:(lia) ltac:(lia)) as (db2 & E2 & B1 & B2 & B3 & B4 & B5 & B6 & Hin2 & Hout2).
  destruct (period_written sha3 recover p its Hok) as (d & Ed & _). eexists. split.
  { unfold savePeriodData. fold n db0. rewrite E1. cbn [rbind]. rewrite E2. cbn [rbind]. rewrite Ed. reflexivity. }
  set (db' := mkPeriodDb _ _ _ _ _ _ _ _).
  destruct (parts_read sha3 recover db' p its Hok) as (P1 & P2 & P3 & P4 & P5 & P6 & P7 & P8 & _); [exists d; split; [done|]; unfold db'; cbn [col_period_data]; apply lookup_insert_eq|]. fold n in P1, P2, P3, P4, P5, P6, P7, P8.
  split_and!; try done.
  - unfold getPbftBlockByHash, getPeriodFromPbftHash, db'. cbn [col_pbft_block_period]. rewrite B2, A2. unfold db0. cbn [col_pbft_block_period]. rewrite lookup_insert_eq. exact P2.
  - unfold getFinalizedDagBlockHashesByPeriod. rewrite P4. cbn [rbind]. clear -Hdh. induction Hdh as [|b h bs hs Hb _ IH]; [done|]. cbn [rmap]. rewrite Hb. cbn [rbind]. by rewrite IH.
  - rewrite P6. by rewrite (Forall2_length _ _ _ Hth).
  - intros i b h Hb Hh. destruct (Hin1 i h Hh) as [D1 D2]. assert (col_dag_blocks db' !! h = None) as D3 by (unfold db'; cbn [col_dag_blocks]; by rewrite B3). split; [|done].
    assert (getDagBlockPeriod db' h = Ok (Some (n, Z.of_nat i))) as D4.
    { apply dag_location_read; [done|apply lookup_lt_Some in Hb; lia|]. unfold db'. cbn [col_dag_block_period]. by rewrite B4, D2. }
    unfold getDagBlock. rewrite D3. cbn [default]. rewrite D4. cbn [rbind]. by apply P8.
  - intros i o h Ho Hh. destruct (Hin2 i h Hh) as [D1 D2]. assert (col_transactions db' !! h = None) as D3 by done. assert (Z.of_nat i < 2 ^ 32) as Hi.
    { cbn [read_back pd_transactions] in Ho. apply lookup_lt_Some in Ho. rewrite length_zip_with in Ho. lia. }
    assert (getTransactionLocation db' h = Ok (Some (n, Z.of_nat i, false))) as D4 by (apply trx_location_read; [done|lia|exact D2]). split_and!; [|by apply P7| |done].
    + unfold getTransaction. rewrite D3. cbn [default]. rewrite D4. cbn [rbind]. by apply P7.
    + unfold transactionFinalized, db'. cbn [col_trx_period]. rewrite D2. change (default [] (Some (encode (location_item n (0 + Z.of_nat i) false)))) with (encode (location_item n (0 + Z.of_nat i) false)).
      rewrite bool_decide_false; [done|apply encode_nonempty].
  - intros m Hm. unfold getPeriodDataRaw, db'. cbn [col_period_data]. rewrite lookup_insert_ne by done. by rewrite B1, A1.
  - intros h Hh. destruct (Hout1 h Hh) as [D1 D2]. unfold getDagBlockPeriod, db'. cbn [col_dag_blocks col_dag_block_period]. rewrite B3, B4, D1, D2. done.
  - intros h Hh. destruct (Hout2 h Hh) as [D1 D2]. unfold getTransactionLocation, db'. cbn [col_transactions col_trx_period]. rewrite D1, D2, A3, A4. done.
Qed.

(** The pillar votes of a period: a comment says that a period without pillar votes is handled, but the test is off by one; for such a
    period the reader looks at a part that is not there and fails instead of returning an empty list. *)
Theorem pillar_votes_of_period sha3 recover db p its : period_data_ok sha3 recover p its -> (exists d, period_data_rlp p = Ok d /\ col_period_data db !! pb_period (po_block (pd_pbft_blk p)) = Some d) ->
  getPeriodPillarVotes db (pb_period (po_block (pd_pbft_blk p))) = match pd_pillar_votes p with Some votes => Ok votes | None => Throw AssertionFailed end.
Proof. intros Hok Hrow. apply (parts_read sha3 recover db p its Hok Hrow). Qed.

(** A transaction that was finalized is found by its hash among others; but the position of a system transaction is behind the transactions of its
    period, and a request for its hash fails, as a peer can cause with a DAG block that names it. *)
Theorem finalized_transaction_by_hash sha3 recover db p its h pos is_system : period_data_ok sha3 recover p its ->
  (exists d, period_data_rlp p = Ok d /\ col_period_data db !! pb_period (po_block (pd_pbft_blk p)) = Some d) ->
  0 <= pos < 2 ^ 32 -> col_trx_period db !! h = Some (encode (location_item (pb_period (po_block (pd_pbft_blk p))) pos is_system)) ->
  match pd_transactions (read_back p its) !! Z.to_nat pos with
  | Some o => getFinalizedTransactions db [h] = Ok [o]
  | None => getFinalizedTransactions db [h] = Throw InvalidEncodingSize
  end.
Proof.
  intros Hok Hrow Hpos Hloc. pose proof Hok as ((Hblk & _) & _ & _ & Ht & _). assert (0 <= pb_period (po_block (pd_pbft_blk p)) < 2 ^ 64) as Hn by apply Hblk.
  pose proof (trx_location_read db h _ pos is_system Hn Hpos Hloc) as Hl. set (n := pb_period (po_block (pd_pbft_blk p))) in *.
  assert (getFinalizedTransactions db [h] = let* o := getTransactionAt db n pos in match o with Some o => Ok [o] | None => Throw AssertionFailed end) as ->.
  { unfold getFinalizedTransactions. cbn [rmap]. rewrite Hl. cbn [rbind rmap]. change (merge_sort location_le (remove_dups (omap _ [Some (n, pos, is_system)]))) with [(n, pos)]. cbn [rmap].
    destruct (getTransactionAt db n pos) as [[o|]| |]; done. }
  destruct (pd_transactions (read_back p its) !! Z.to_nat pos) as [o|] eqn:Eo.
  - destruct (parts_read sha3 recover db p its Hok Hrow) as (_ & _ & _ & _ & _ & _ & P7 & _). specialize (P7 _ _ Eo). rewrite Z2Nat.id in P7 by lia. fold n in P7. by rewrite P7.
  - destruct Hrow as (d & Hd & Hrow). destruct (period_items sha3 recover p its Hok) as (i2 & i3 & l5 & [Hs Hr _ _ _ _ _ [S4 _] _]). rewrite Hr in Hd. apply Ok_inj in Hd. subst d.
    unfold getTransactionAt. rewrite (with_row db n _ _ _ Hs Hrow). unfold TRANSACTIONS_POS_IN_PERIOD_DATA. read_at Hs 3 3%nat.
    pose proof S4 as [Hbok Hbs]. pose proof (encode_framed _ Hbok) as Hf. cbn [item_list item_payload] in Hf. destruct (payload_frame _ _ _ Hf Hbok Hbs) as (Hp & Hpok & Hps & Hlt). specialize (Hlt eq_refl).
    pose proof (split_encode _ Hpok Hps _ ltac:(exact (Nat.le_refl _))) as Hsp. destruct (rlp_index_spec _ _ _ Hp Hpok Hps Hsp ltac:(lia) pos no_cache) as (c' & E & _); [lia|by left|].
    unfold rlp_at. rewrite E. cbn [rbind]. rewrite list_lookup_fmap. cbn [read_back pd_transactions] in Eo. apply lookup_ge_None in Eo. rewrite length_zip_with, (Forall2_length _ _ _ Ht), Nat.min_id in Eo.
    rewrite (lookup_ge_None_2 its) by lia. reflexivity.
Qed.

(** ** Witnesses *)

Definition empty_period_db : PeriodDb := mkPeriodDb ∅ ∅ ∅ ∅ ∅ ∅ ∅ ∅.
Definition sample_items : list item := [Items (transaction_fields (sample_transaction None 841))].
Definition sample_period_of (votes : option (list SerialPillarVote)) : SerialPeriodData :=
  mkSerialPeriodData sample_block_object [sample_vote (Some 5)] [sample_dag_block 7 []] [mkTransactionObject (sample_transaction None 841) None] votes.

Lemma sample_period_ok votes : votes = None \/ votes = Some [sample_pillar_vote 1] -> period_data_ok sample_sha3 sample_recover (sample_period_of votes) sample_items.
Proof.
  intros Hv. split_and!.
  - split_and!; [|vm_compute; reflexivity|constructor|done|vm_compute; reflexivity]. apply sample_pbft_block_ok; [apply sample_extra_ok|]. split; [apply List.Forall_nil|done].
  - split_and!; [done|apply Forall_singleton, sample_vote_ok; simpl; lia|intros v v' ->%list_elem_of_singleton ->%list_elem_of_singleton; by split_and!|done].
  - split_and!; [apply Forall_singleton, sample_dag_block_ok; [lia|split; [apply List.Forall_nil|done]]|done|done].
  - constructor; [|constructor]. apply fresh_object_ok; [apply sample_transaction_ok; [done|lia]|left; discriminate].
  - done.
  - destruct Hv as [-> | ->]; [done|]. split_and!; [done| |intros v v' ->%list_elem_of_singleton ->%list_elem_of_singleton; done|done]. apply Forall_singleton. repeat split; try done; apply Forall_replicate; unfold byte_ok; lia.
Qed.

Definition res_get {A} (a : A) (r : res A) : A := match r with Ok a => a | _ => a end.
Definition sample_dag_hash : bytes := res_get [] (dag_block_hash sample_sha3 (sample_dag_block 7 [])).
Definition sample_trx_hash : bytes := res_get [] (object_hash sample_sha3 (mkTransactionObject (sample_transaction None 841) None)).

Lemma saved_period_found_witness : exists db', savePeriodData sample_sha3 empty_period_db (sample_period_of None) = Ok db' /\
  getDagBlock db' sample_dag_hash = Ok (Some (sample_dag_block 7 [])) /\ transactionFinalized db' sample_trx_hash = true.
Proof.
  destruct (saved_period_found sample_sha3 sample_recover empty_period_db (sample_period_of None) sample_items [sample_dag_hash] [sample_trx_hash] (sample_period_ok None (or_introl eq_refl)))
    as (db' & E & _ & _ & _ & _ & _ & _ & _ & Hd & Ht & _).
  - constructor; [vm_compute; reflexivity|constructor].
  - apply NoDup_singleton.
  - constructor; [vm_compute; reflexivity|constructor].
  - apply NoDup_singleton.
  - exists db'. split_and!; [exact E|apply (Hd 0%nat); reflexivity|apply (Ht 0%nat (mkTransactionObject (sample_transaction None 841) (Some (encode (Items (transaction_fields (sample_transaction None 841))))))); reflexivity].
Defined.

Lemma pillar_votes_of_period_witness :
  getPeriodPillarVotes (mkPeriodDb {[pb_period (po_block sample_block_object) := res_get [] (period_data_rlp (sample_period_of None))]} ∅ ∅ ∅ ∅ ∅ ∅ ∅) (pb_period (po_block sample_block_object)) = Throw AssertionFailed.
Proof.
  apply (pillar_votes_of_period sample_sha3 sample_recover _ (sample_period_of None) sample_items (sample_period_ok None (or_introl eq_refl))).
  exists (res_get [] (period_data_rlp (sample_period_of None))). split; [vm_compute; reflexivity|apply lookup_singleton_eq].
Defined.

Lemma finalized_transaction_by_hash_witness :
  getFinalizedTransactions (mkPeriodDb {[pb_period (po_block sample_block_object) := res_get [] (period_data_rlp (sample_period_of None))]} ∅ ∅ ∅ ∅
    {[replicate 32 8 := encode (location_item (pb_period (po_block sample_block_object)) 1 true)]} ∅ ∅) [replicate 32 8] = Throw InvalidEncodingSize.
Proof.
  apply (finalized_transaction_by_hash sample_sha3 sample_recover _ (sample_period_of None) sample_items (replicate 32 8) 1 true (sample_period_ok None (or_introl eq_refl))).
  - exists (res_get [] (period_data_rlp (sample_period_of None))). split; [vm_compute; reflexivity|apply lookup_singleton_eq].
  - lia.
  - apply lookup_singleton_eq.
Defined.
