(* ===== verification/LightNode.v ===== *)
(** * Light nodes

    The plugin that deletes the history of a light node (plugin/light/src/light.cpp) with the functions of the database it uses
    (storage.cpp, storage.hpp): periods below a bound, the rows that locate their blocks and transactions, and levels of the DAG.
    A row is reduced to what the deletion depends on. *)

From S2P Require Import Prelude.
Local Open Scope Z_scope.

(** ** Columns *)

Record LightPeriod := mkLightPeriod { lp_pbft_blk : Z; lp_dag_blocks : list Z; lp_transactions : list Z }.

Record LightDb := mkLightDb {
  ld_period_data : gmap Z LightPeriod;
  ld_trx_period : gmap Z (Z * Z * bool);
  ld_receipt_by_trx_hash : gmap Z Z;
  ld_dag_block_period : gmap Z (Z * Z);
  ld_pbft_block_period : gmap Z Z;
  ld_pillar_block : gmap Z Z;
  ld_receipt_by_period : gmap Z Z;
  ld_period_lambda : gmap Z Z;
  ld_dag_blocks_level : gmap Z (list Z);
  ld_proposal_period_levels_map : gmap Z Z;
}.

Definition kPeriodsToKeepNonBlockData : Z := 1000.
Definition kDagExpiryLevelLimit : Z := 1000.
Definition kMaxLevels : Z := 100.

(** [DbStorage::DeleteRange]: keys from [begin] to before [end_]. *)
Definition DeleteRange {A} (col : gmap Z A) (begin_ end_ : Z) : gmap Z A := filter (fun kv => ~ (begin_ <= kv.1 < end_)) col.

(** [DbStorage::clearColumnHistory]. *)
Definition clearColumnHistory {A} (to_keep : gset Z) (col : gmap Z A) : gmap Z A := filter (fun kv => kv.1 ∈ to_keep) col.

(** [SeekToFirst] and [Seek]. *)
Definition first_key {A} (col : gmap Z A) : option Z := head (map_items col).*1.
Definition getProposalPeriodForDagLevel (db : LightDb) (level : Z) : option Z :=
  head (filter (fun kv => level <= kv.1) (map_items (ld_proposal_period_levels_map db))).*2.

(** ** Rows of periods *)

Definition remove_rows (db : LightDb) (p : LightPeriod) : LightDb :=
  mkLightDb (ld_period_data db) (foldl (fun c t => delete t c) (ld_trx_period db) (lp_transactions p)) (foldl (fun c t => delete t c) (ld_receipt_by_trx_hash db) (lp_transactions p))
    (foldl (fun c d => delete d c) (ld_dag_block_period db) (lp_dag_blocks p)) (delete (lp_pbft_blk p) (ld_pbft_block_period db)) (ld_pillar_block db) (ld_receipt_by_period db)
    (ld_period_lambda db) (ld_dag_blocks_level db) (ld_proposal_period_levels_map db).

Fixpoint clear_loop (n : nat) (period : Z) (db : LightDb) : LightDb :=
  match n with
  | O => db
  | S n => match ld_period_data db !! period with None => db | Some p => clear_loop n (period + 1) (remove_rows db p) end
  end.

(** Periods from [period] on, up to the first that is missing; there are at most as many as rows. *)
Fixpoint periods_from (n : nat) (period : Z) (db : LightDb) : list LightPeriod :=
  match n with
  | O => []
  | S n => match ld_period_data db !! period with None => [] | Some p => p :: periods_from n (period + 1) db end
  end.

Definition recreateNonBlockData (db : LightDb) (last_block_number : Z) : LightDb :=
  let ps := periods_from (S (size (ld_period_data db))) (u64 (last_block_number - kPeriodsToKeepNonBlockData)) db in
  let trxs : gset Z := list_to_set (flat_map lp_transactions ps) in
  let dag_blocks : gset Z := list_to_set (flat_map lp_dag_blocks ps) in
  let pbft_blocks : gset Z := list_to_set (map lp_pbft_blk ps) in
  mkLightDb (ld_period_data db) (clearColumnHistory trxs (ld_trx_period db)) (clearColumnHistory trxs (ld_receipt_by_trx_hash db)) (clearColumnHistory dag_blocks (ld_dag_block_period db))
    (clearColumnHistory pbft_blocks (ld_pbft_block_period db)) (ld_pillar_block db) (ld_receipt_by_period db) (ld_period_lambda db) (ld_dag_blocks_level db) (ld_proposal_period_levels_map db).

Definition clearNonBlockData (db : LightDb) (start end_ : Z) (live_cleanup : bool) : LightDb :=
  if negb live_cleanup && (2 * kPeriodsToKeepNonBlockData <? end_ - start) then recreateNonBlockData db end_ else clear_loop (Z.to_nat (end_ - start)) start db.

(** ** The history *)

Definition delete_levels (db : LightDb) (dag_level_to_keep : Z) : LightDb :=
  match first_key (ld_dag_blocks_level db) with
  | None => db
  | Some start_level =>
      let dag_level_end := u64 (dag_level_to_keep - 1) in
      if dag_level_end <=? start_level then db
      else mkLightDb (ld_period_data db) (ld_trx_period db) (ld_receipt_by_trx_hash db) (ld_dag_block_period db) (ld_pbft_block_period db) (ld_pillar_block db) (ld_receipt_by_period db)
        (ld_period_lambda db) (DeleteRange (ld_dag_blocks_level db) start_level dag_level_end) (ld_proposal_period_levels_map db)
  end.

Definition delete_periods (db : LightDb) (start_period end_period : Z) : LightDb :=
  mkLightDb (DeleteRange (ld_period_data db) start_period end_period) (ld_trx_period db) (ld_receipt_by_trx_hash db) (ld_dag_block_period db) (ld_pbft_block_period db)
    (DeleteRange (ld_pillar_block db) start_period end_period) (DeleteRange (ld_receipt_by_period db) start_period end_period) (DeleteRange (ld_period_lambda db) start_period end_period)
    (ld_dag_blocks_level db) (ld_proposal_period_levels_map db).

Definition clearHistory (db : LightDb) (end_period dag_level_to_keep : Z) (live_cleanup : bool) : LightDb :=
  match first_key (ld_period_data db) with
  | None => db
  | Some start_period =>
      if end_period <=? start_period then db
      else delete_levels (delete_periods (clearNonBlockData db start_period end_period live_cleanup) start_period end_period) dag_level_to_keep
  end.

Definition getCleanupPeriod (history dag_period proposal_period : Z) : Z := Z.min (u64 (dag_period - history)) proposal_period.

Definition clearLightNodeHistory (db : LightDb) (history dag_period dag_expiry_level max_levels_per_period : Z) (live_cleanup : bool) : outcome LightDb :=
  if (history <? dag_period) && (u64 (max_levels_per_period + 1) <? dag_expiry_level) then
    match getProposalPeriodForDagLevel db (u64 (dag_expiry_level - max_levels_per_period - 1)) with
    | None => AssertFailed
    | Some proposal_period =>
        let end_ := getCleanupPeriod history dag_period proposal_period in
        let dag_level_to_keep := if max_levels_per_period <? dag_expiry_level then u64 (dag_expiry_level - max_levels_per_period) else 1 in
        Done (clearHistory db end_ dag_level_to_keep live_cleanup)
    end
  else Done db.

(** [pruneStateDb]: the block that the final chain is asked to prune to. *)
Definition kPruneBlocksToKeep : Z := kDagExpiryLevelLimit + kMaxLevels + 1.
Definition kPruneStateDbThreshold : Z := 3 * kPruneBlocksToKeep / 2.
Definition prune_block_num (last_blk_num : Z) (has_header : Z -> bool) : option Z :=
  if kPruneStateDbThreshold <? last_blk_num then let n := last_blk_num - kPruneStateDbThreshold in if has_header n then Some n else None else None.

(** The read that fails for a location without its period ([DbStorage::getFinalizedTransactions] for one hash). *)
Definition find_finalized (db : LightDb) (hash : Z) : outcome (option Z) :=
  match ld_trx_period db !! hash with
  | None => Done None
  | Some (period, position, _) =>
      match ld_period_data db !! period with
      | None => AssertFailed
      | Some p => match lp_transactions p !! Z.to_nat position with Some t => Done (Some t) | None => AssertFailed end
      end
  end.

(** ** The lambda of a period

    A row is written only when the lambda of a block differs from that of the last row before it; the lambda of a period is the last row up to it. *)

Definition getPeriodLambda (col : gmap Z Z) (period : Z) (find_closest : bool) : option Z :=
  if find_closest then last (filter (fun kv => kv.1 <= period) (map_items col)).*2 else col !! period.

(** What [PbftManager::pushPbftBlock_] writes for a block. *)
Definition write_lambda (col : gmap Z Z) (period block_lambda : Z) : gmap Z Z :=
  match getPeriodLambda col (u64 (period - 1)) true with
  | Some last_saved => if last_saved =? block_lambda then col else <[period := block_lambda]> col
  | None => <[period := block_lambda]> col
  end.

(** What the constructor of [PbftManager] reads for a period that the final chain has not executed. *)
Definition replay_lambda (col : gmap Z Z) (period : Z) : outcome Z :=
  match getPeriodLambda col period true with Some l => Done l | None => AssertFailed end.

(** ** Columns after deletions *)

Lemma DeleteRange_lookup {A} (col : gmap Z A) a b k : DeleteRange col a b !! k = if decide (a <= k < b) then None else col !! k.
Proof.
  unfold DeleteRange. destruct (decide (a <= k < b)) as [Hk|Hk].
  - apply map_lookup_filter_None. right. intros x _ H. by apply H.
  - destruct (col !! k) as [x|] eqn:E; [by apply map_lookup_filter_Some|]. apply map_lookup_filter_None. by left.
Qed.

Lemma clearColumnHistory_lookup {A} keep (col : gmap Z A) k : clearColumnHistory keep col !! k = if decide (k ∈ keep) then col !! k else None.
Proof.
  unfold clearColumnHistory. destruct (decide (k ∈ keep)) as [Hk|Hk].
  - destruct (col !! k) as [x|] eqn:E; [by apply map_lookup_filter_Some|]. apply map_lookup_filter_None. by left.
  - apply map_lookup_filter_None. right. intros x _ H. by apply Hk.
Qed.

Lemma delete_keys_lookup {A} (l : list Z) : forall (col : gmap Z A) k, foldl (fun c t => delete t c) col l !! k = if decide (k ∈ l) then None else col !! k.
Proof.
  induction l as [|t l IH]; intros col k; cbn [foldl]; [by rewrite decide_False by apply not_elem_of_nil|]. rewrite IH. destruct (decide (k = t)) as [->|Hne].
  - rewrite lookup_delete_eq. rewrite (decide_True (P := t ∈ t :: l)) by (by left). by destruct (decide (t ∈ l)).
  - rewrite lookup_delete_ne by done. destruct (decide (k ∈ l)) as [Hin|Hni]; [by rewrite decide_True by (by right)|]. by rewrite decide_False by (by rewrite elem_of_cons; intros [?|?]).
Qed.

Lemma first_key_min {A} (col : gmap Z A) k : first_key col = Some k -> is_Some (col !! k) /\ forall k', is_Some (col !! k') -> k <= k'.
Proof.
  unfold first_key. pose proof (map_items_sorted col) as Hs. pose proof (fun k x => elem_of_map_items col k x) as Hin. destruct (map_items col) as [|[k0 x0] l]; [done|]. cbn. intros [= <-].
  split; [exists x0; apply Hin; by left|]. intros k' [x' Hk']. apply Hin, elem_of_cons in Hk' as [[= -> _]|Hk']; [done|]. inversion Hs as [|? ? _ Hall]; subst. rewrite Forall_forall in Hall. apply (Hall _ Hk').
Qed.

Lemma first_key_none {A} (col : gmap Z A) : first_key col = None -> forall k, col !! k = None.
Proof.
  unfold first_key. intros H k. destruct (col !! k) as [x|] eqn:E; [|done]. apply elem_of_map_items in E. destruct (map_items col); [by apply elem_of_nil in E|done].
Qed.

(** ** Periods without gaps *)

Definition no_gap (db : LightDb) : Prop := forall p q r, is_Some (ld_period_data db !! p) -> is_Some (ld_period_data db !! r) -> p <= q <= r -> is_Some (ld_period_data db !! q).

Lemma periods_from_elem db n : forall s r, r ∈ periods_from n s db -> exists p, s <= p < s + Z.of_nat n /\ ld_period_data db !! p = Some r.
Proof.
  induction n as [|n IH]; intros s r; cbn [periods_from]; [by intros ?%elem_of_nil|]. destruct (ld_period_data db !! s) as [r0|] eqn:E; [|by intros ?%elem_of_nil].
  intros [->|Hr]%elem_of_cons; [exists s; split; [lia|done]|]. destruct (IH _ _ Hr) as (p & Hp & Ep). exists p. split; [lia|done].
Qed.

Lemma periods_from_all db : forall n s p r, (forall q, s <= q <= p -> is_Some (ld_period_data db !! q)) -> s <= p < s + Z.of_nat n -> ld_period_data db !! p = Some r -> r ∈ periods_from n s db.
Proof.
  intros n. induction n as [|n IH]; intros s p r Hall Hp Er; [lia|]. cbn [periods_from]. destruct (Hall s ltac:(lia)) as [r0 E0]. rewrite E0. destruct (decide (s = p)) as [->|Hne].
  - rewrite Er in E0. injection E0 as ->. by left.
  - right. apply (IH (s + 1) p r); [|lia|done]. intros q Hq. apply Hall. lia.
Qed.

(** As many periods in a row as there are rows. *)
Lemma run_size db s p : s <= p -> (forall q, s <= q <= p -> is_Some (ld_period_data db !! q)) -> p - s < Z.of_nat (size (ld_period_data db)).
Proof.
  intros Hsp Hall. assert (list_to_set (seqZ s (p - s + 1)) ⊆ dom (ld_period_data db)) as Hsub.
  { intros q Hq. apply elem_of_list_to_set, elem_of_seqZ in Hq. apply elem_of_dom, Hall. lia. }
  apply subseteq_size in Hsub. rewrite size_list_to_set, length_seqZ, size_dom in Hsub by apply NoDup_seqZ. lia.
Qed.

Lemma clear_loop_rows n : forall s db,
  ld_period_data (clear_loop n s db) = ld_period_data db /\ ld_dag_blocks_level (clear_loop n s db) = ld_dag_blocks_level db /\
  ld_trx_period (clear_loop n s db) = foldl (fun c t => delete t c) (ld_trx_period db) (flat_map lp_transactions (periods_from n s db)) /\
  ld_dag_block_period (clear_loop n s db) = foldl (fun c t => delete t c) (ld_dag_block_period db) (flat_map lp_dag_blocks (periods_from n s db)) /\
  ld_pbft_block_period (clear_loop n s db) = foldl (fun c t => delete t c) (ld_pbft_block_period db) (map lp_pbft_blk (periods_from n s db)).
Proof.
  assert (forall n s db db', ld_period_data db' = ld_period_data db -> periods_from n s db' = periods_from n s db) as Hpf.
  { clear. intros n. induction n as [|n IH]; intros s db db' E; [done|]. cbn [periods_from]. rewrite E. destruct (_ !! s); [|done]. f_equal. by apply IH. }
  induction n as [|n IH]; intros s db; cbn [clear_loop periods_from]; [done|]. destruct (ld_period_data db !! s) as [p|]; [|done]. destruct (IH (s + 1) (remove_rows db p)) as (-> & -> & -> & -> & ->).
  rewrite (Hpf n (s + 1) db (remove_rows db p) eq_refl). cbn [remove_rows ld_period_data ld_trx_period ld_dag_block_period ld_pbft_block_period ld_dag_blocks_level flat_map map]. rewrite !foldl_app. done.
Qed.

(** ** Rows and periods *)

(** Every block and transaction of a period has its row, and every row of one that is not a system transaction belongs to a period. *)
Record indexed (db : LightDb) : Prop := {
  ix_trx p r i h : ld_period_data db !! p = Some r -> lp_transactions r !! i = Some h -> ld_trx_period db !! h = Some (p, Z.of_nat i, false);
  ix_dag p r i h : ld_period_data db !! p = Some r -> lp_dag_blocks r !! i = Some h -> ld_dag_block_period db !! h = Some (p, Z.of_nat i);
  ix_pbft p r : ld_period_data db !! p = Some r -> ld_pbft_block_period db !! lp_pbft_blk r = Some p;
  ix_trx_back h p i : ld_trx_period db !! h = Some (p, i, false) -> 0 <= i /\ exists r, ld_period_data db !! p = Some r /\ lp_transactions r !! Z.to_nat i = Some h;
  ix_dag_back h p i : ld_dag_block_period db !! h = Some (p, i) -> 0 <= i /\ exists r, ld_period_data db !! p = Some r /\ lp_dag_blocks r !! Z.to_nat i = Some h;
  ix_pbft_back h p : ld_pbft_block_period db !! h = Some p -> exists r, ld_period_data db !! p = Some r /\ lp_pbft_blk r = h;
}.

(** A row of an indexed database belongs to a period of a list of its periods exactly if its own period is among them. *)
Lemma indexed_members db s e ps : indexed db -> (forall r, r ∈ ps <-> exists p, s <= p < e /\ ld_period_data db !! p = Some r) ->
  (forall h p i, ld_trx_period db !! h = Some (p, i, false) -> h ∈ flat_map lp_transactions ps <-> s <= p < e) /\
  (forall h p i, ld_trx_period db !! h = Some (p, i, true) -> h ∉ flat_map lp_transactions ps) /\
  (forall h p i, ld_dag_block_period db !! h = Some (p, i) -> h ∈ flat_map lp_dag_blocks ps <-> s <= p < e) /\
  (forall h p, ld_pbft_block_period db !! h = Some p -> h ∈ map lp_pbft_blk ps <-> s <= p < e).
Proof.
  intros Hix Hps.
  assert (forall h, h ∈ flat_map lp_transactions ps -> exists p i, s <= p < e /\ ld_trx_period db !! h = Some (p, i, false)) as Ht.
  { intros h (r & Hr & Hh)%list_elem_of_In%in_flat_map. apply list_elem_of_In, Hps in Hr as (p & Hp & Er). apply list_elem_of_In, list_elem_of_lookup in Hh as [i Hi]. exists p, (Z.of_nat i). split; [done|]. by eapply ix_trx. }
  split_and!.
  - intros h p i Hh. split.
    + intros (p' & i' & Hp & E)%Ht. rewrite Hh in E. by injection E as <- _.
    + intros Hp. destruct (ix_trx_back db Hix h p i Hh) as (_ & r & Er & Hr). apply list_elem_of_In, in_flat_map. exists r. split; apply list_elem_of_In; [apply Hps; by exists p|by apply list_elem_of_lookup_2 in Hr].
  - intros h p i Hh (p' & i' & Hp & E)%Ht. congruence.
  - intros h p i Hh. split.
    + intros (r & Hr & Hin)%list_elem_of_In%in_flat_map. apply list_elem_of_In, Hps in Hr as (p' & Hp & Er). apply list_elem_of_In, list_elem_of_lookup in Hin as [j Hj]. pose proof (ix_dag db Hix _ _ _ _ Er Hj) as E.
      rewrite Hh in E. by injection E as <- _.
    + intros Hp. destruct (ix_dag_back db Hix h p i Hh) as (_ & r & Er & Hr). apply list_elem_of_In, in_flat_map. exists r. split; apply list_elem_of_In; [apply Hps; by exists p|by apply list_elem_of_lookup_2 in Hr].
  - intros h p Hh. split.
    + intros (r & -> & Hr)%list_elem_of_fmap. apply Hps in Hr as (p' & Hp & Er). pose proof (ix_pbft db Hix _ _ Er) as E. rewrite Hh in E. by injection E as <-.
    + intros Hp. destruct (ix_pbft_back db Hix h p Hh) as (r & Er & <-). apply list_elem_of_fmap. exists r. split; [done|]. apply Hps. by exists p.
Qed.

(** ** Deleting history *)

Section history.
Variable db : LightDb.
Hypothesis ix : indexed db.
Hypothesis gapless : no_gap db.
Variables start e keep : Z.
Hypothesis first : first_key (ld_period_data db) = Some start.
Hypothesis below : start < e.

Lemma run_of s p r : start <= s -> ld_period_data db !! p = Some r -> s <= p -> forall q, s <= q <= p -> is_Some (ld_period_data db !! q).
Proof using gapless first.
  intros Hs Hp Hle q Hq. destruct (first_key_min _ _ first) as [Hst _]. apply (gapless start q p); [done|by eexists|lia].
Qed.

Lemma deleted_periods : forall r, r ∈ periods_from (Z.to_nat (e - start)) start db <-> exists p, start <= p < e /\ ld_period_data db !! p = Some r.
Proof using gapless first below.
  intros r. split.
  - intros (p & Hp & Er)%periods_from_elem. exists p. split; [lia|done].
  - intros (p & Hp & Er). apply (periods_from_all db _ _ p); [|lia|done]. by apply (run_of start p r); [| |lia].
Qed.

Lemma kept_periods s : start <= s -> forall r, r ∈ periods_from (S (size (ld_period_data db))) s db <-> exists p, s <= p /\ ld_period_data db !! p = Some r.
Proof using gapless first.
  intros Hs r. split.
  - intros (p & Hp & Er)%periods_from_elem. exists p. split; [lia|done].
  - intros (p & Hp & Er). pose proof (run_of s p r Hs Er Hp) as Hrun. pose proof (run_size db s p Hp Hrun). apply (periods_from_all db _ _ p); [done|lia|done].
Qed.

Lemma history_columns live : let db1 := clearNonBlockData db start e live in let db' := clearHistory db e keep live in
  ld_period_data db1 = ld_period_data db /\ (forall p, ld_period_data db' !! p = if decide (p < e) then None else ld_period_data db !! p) /\
  ld_trx_period db' = ld_trx_period db1 /\ ld_dag_block_period db' = ld_dag_block_period db1 /\ ld_pbft_block_period db' = ld_pbft_block_period db1 /\
  (forall l, u64 (keep - 1) <= l -> ld_dag_blocks_level db' !! l = ld_dag_blocks_level db !! l).
Proof using first below.
  intros db1 db'. assert (ld_period_data db1 = ld_period_data db /\ ld_dag_blocks_level db1 = ld_dag_blocks_level db) as [E1 E2].
  { unfold db1, clearNonBlockData. destruct (_ && _); [done|]. destruct (clear_loop_rows (Z.to_nat (e - start)) start db) as (H1 & H2 & _). done. }
  assert (db' = delete_levels (delete_periods db1 start e) keep) as Edb by (unfold db', clearHistory; rewrite first; destruct (Z.leb_spec e start); [lia|done]).
  assert (ld_period_data db' = DeleteRange (ld_period_data db1) start e /\ ld_trx_period db' = ld_trx_period db1 /\ ld_dag_block_period db' = ld_dag_block_period db1 /\ ld_pbft_block_period db' = ld_pbft_block_period db1 /\
    (forall l, u64 (keep - 1) <= l -> ld_dag_blocks_level db' !! l = ld_dag_blocks_level db1 !! l)) as (P1 & P2 & P3 & P4 & P5).
  { rewrite Edb. clearbody db1. unfold delete_levels. destruct (first_key (ld_dag_blocks_level (delete_periods db1 start e))) as [sl|]; [|split_and!; [reflexivity..|intros l _; reflexivity]]. generalize (u64 (keep - 1)) as le. intros le. destruct (le <=? sl); [split_and!; [reflexivity..|intros l _; reflexivity]|].
    cbn [ld_period_data ld_trx_period ld_dag_block_period ld_pbft_block_period ld_dag_blocks_level delete_periods]. split_and!; try done. intros l Hl. rewrite DeleteRange_lookup. by rewrite decide_False by lia. }
  split_and!; try done; [|intros l Hl; by rewrite P5, E2]. intros p. rewrite P1, DeleteRange_lookup, E1. destruct (decide (start <= p < e)), (decide (p < e)); try done; try lia.
  destruct (ld_period_data db !! p) as [r|] eqn:E; [|done]. destruct (first_key_min _ _ first) as [_ Hmin]. specialize (Hmin p ltac:(by eexists)). lia.
Qed.

(** The rows that go with the periods. *)
Lemma live_rows :
  let db' := clearHistory db e keep true in
  (forall h, ld_trx_period db' !! h = match ld_trx_period db !! h with Some (p, i, false) => if decide (p < e) then None else Some (p, i, false) | o => o end) /\
  (forall h, ld_dag_block_period db' !! h = match ld_dag_block_period db !! h with Some (p, i) => if decide (p < e) then None else Some (p, i) | None => None end) /\
  (forall h, ld_pbft_block_period db' !! h = match ld_pbft_block_period db !! h with Some p => if decide (p < e) then None else Some p | None => None end).
Proof using ix gapless first below.
  cbv zeta. destruct (history_columns true) as (_ & _ & -> & -> & -> & _). unfold clearNonBlockData. cbn [negb andb].
  destruct (clear_loop_rows (Z.to_nat (e - start)) start db) as (_ & _ & -> & -> & ->). destruct (indexed_members db start e _ ix deleted_periods) as (M1 & M2 & M3 & M4).
  assert (forall p r, ld_period_data db !! p = Some r -> start <= p) as Hlow by (intros p r Er; destruct (first_key_min _ _ first) as [_ Hmin]; apply Hmin; by eexists).
  split_and!; intros h; rewrite delete_keys_lookup.
  - destruct (ld_trx_period db !! h) as [[[p i] []]|] eqn:E; [|specialize (M1 _ _ _ E)|by destruct (decide _)].
    + by rewrite decide_False by (by eapply M2).
    + destruct (ix_trx_back db ix _ _ _ E) as (_ & r & Er & _). specialize (Hlow _ _ Er). destruct (decide (h ∈ _)) as [Hin|Hni], (decide (p < e)); try done; [apply M1 in Hin; lia|exfalso; apply Hni, M1; lia].
  - destruct (ld_dag_block_period db !! h) as [[p i]|] eqn:E; [specialize (M3 _ _ _ E)|by destruct (decide _)].
    destruct (ix_dag_back db ix _ _ _ E) as (_ & r & Er & _). specialize (Hlow _ _ Er). destruct (decide (h ∈ _)) as [Hin|Hni], (decide (p < e)); try done; [apply M3 in Hin; lia|exfalso; apply Hni, M3; lia].
  - destruct (ld_pbft_block_period db !! h) as [p|] eqn:E; [specialize (M4 _ _ E)|by destruct (decide _)].
    destruct (ix_pbft_back db ix _ _ E) as (r & Er & _). specialize (Hlow _ _ Er). destruct (decide (h ∈ _)) as [Hin|Hni], (decide (p < e)); try done; [apply M4 in Hin; lia|exfalso; apply Hni, M4; lia].
Qed.

Lemma live_indexed : indexed (clearHistory db e keep true).
Proof using ix gapless first below.
  destruct (history_columns true) as (_ & Hp & _). destruct live_rows as (R1 & R2 & R3).
  assert (forall p r, ld_period_data (clearHistory db e keep true) !! p = Some r -> e <= p /\ ld_period_data db !! p = Some r) as Hk by (intros p r; rewrite Hp; destruct (decide (p < e)); [done|]; split; [lia|done]).
  split.
  - intros p r i h [Hle Er]%Hk Hi. rewrite R1, (ix_trx db ix _ _ _ _ Er Hi). by rewrite decide_False by lia.
  - intros p r i h [Hle Er]%Hk Hi. rewrite R2, (ix_dag db ix _ _ _ _ Er Hi). by rewrite decide_False by lia.
  - intros p r [Hle Er]%Hk. rewrite R3, (ix_pbft db ix _ _ Er). by rewrite decide_False by lia.
  - intros h p i. rewrite R1. destruct (ld_trx_period db !! h) as [[[p' i'] []]|] eqn:E; [done| |done]. destruct (decide (p' < e)); [done|]. intros [= <- <-]. destruct (ix_trx_back db ix _ _ _ E) as (Hi & r & Er & Hr).
    split; [done|]. exists r. rewrite Hp, decide_False by lia. done.
  - intros h p i. rewrite R2. destruct (ld_dag_block_period db !! h) as [[p' i']|] eqn:E; [|done]. destruct (decide (p' < e)); [done|]. intros [= <- <-]. destruct (ix_dag_back db ix _ _ _ E) as (Hi & r & Er & Hr).
    split; [done|]. exists r. rewrite Hp, decide_False by lia. done.
  - intros h p. rewrite R3. destruct (ld_pbft_block_period db !! h) as [p'|] eqn:E; [|done]. destruct (decide (p' < e)); [done|]. intros [= <-]. destruct (ix_pbft_back db ix _ _ E) as (r & Er & Hr).
    exists r. rewrite Hp, decide_False by lia. done.
Qed.

(** The deletion of many periods at the start of the node. *)
Lemma bulk_rows : start + 2 * kPeriodsToKeepNonBlockData < e -> e < 2 ^ 64 -> 0 <= start ->
  let db' := clearHistory db e keep false in
  forall h, ld_trx_period db' !! h = match ld_trx_period db !! h with Some (p, i, false) => if decide (p < e - kPeriodsToKeepNonBlockData) then None else Some (p, i, false) | _ => None end.
Proof using ix gapless first below.
  unfold kPeriodsToKeepNonBlockData. intros Hlong He H0. cbv zeta. intros h. destruct (history_columns false) as (_ & _ & -> & _). unfold clearNonBlockData, kPeriodsToKeepNonBlockData. cbn [negb andb].
  destruct (Z.ltb_spec (2 * 1000) (e - start)); [|lia]. unfold recreateNonBlockData. cbn [ld_trx_period]. rewrite clearColumnHistory_lookup. unfold kPeriodsToKeepNonBlockData.
  replace (u64 (e - 1000)) with (e - 1000) by (symmetry; apply Z.mod_small; unfold modulus; lia). pose proof (kept_periods (e - 1000) ltac:(lia)) as Hk.
  assert (exists top, forall p r, ld_period_data db !! p = Some r -> p < top) as [top Htop].
  { exists (start + Z.of_nat (size (ld_period_data db))). intros p r Er. destruct (first_key_min _ _ first) as [_ Hmin]. pose proof (Hmin p ltac:(by eexists)) as Hge. pose proof (run_size db start p Hge (run_of start p r ltac:(lia) Er Hge)). lia. }
  destruct (indexed_members db (e - 1000) top (periods_from (S (size (ld_period_data db))) (e - 1000) db) ix) as (M1 & M2 & _).
  { intros r. rewrite Hk. split; intros (p & Hp & Er); exists p; (split; [|done]); [specialize (Htop _ _ Er)|]; lia. }
  destruct (ld_trx_period db !! h) as [[[p i] []]|] eqn:E; [| |by destruct (decide _)].
  - rewrite decide_False; [done|]. rewrite elem_of_list_to_set. by eapply M2.
  - specialize (M1 _ _ _ E). destruct (ix_trx_back db ix _ _ _ E) as (_ & r & Er & _). specialize (Htop _ _ Er).
    destruct (decide (h ∈ _)) as [Hin|Hni], (decide (p < e - 1000)); try done; [rewrite elem_of_list_to_set in Hin; apply M1 in Hin; lia|exfalso; apply Hni; rewrite elem_of_list_to_set; apply M1; lia].
Qed.
End history.

(** Live cleanup: a light node deletes exactly the periods that are older than its history and not needed for the proposal period of an expired
    level of the DAG, together with the rows of their blocks and transactions; everything of a later period is still found, and no row points to
    a deleted period, except the rows of system transactions, which are never deleted; levels of the DAG that did not expire stay. *)
Theorem live_cleanup_exact db history dag_period expiry max_levels proposal : indexed db -> no_gap db ->
  0 <= history < dag_period -> dag_period < 2 ^ 64 -> 0 <= max_levels -> max_levels + 1 < expiry -> expiry < 2 ^ 64 ->
  getProposalPeriodForDagLevel db (expiry - max_levels - 1) = Some proposal ->
  let e := Z.min (dag_period - history) proposal in
  exists db', clearLightNodeHistory db history dag_period expiry max_levels true = Done db' /\ indexed db' /\
    (forall p, ld_period_data db' !! p = if decide (p < e) then None else ld_period_data db !! p) /\
    (forall h p i, ld_trx_period db !! h = Some (p, i, false) -> ld_trx_period db' !! h = if decide (p < e) then None else Some (p, i, false)) /\
    (forall h p i, ld_trx_period db !! h = Some (p, i, true) -> ld_trx_period db' !! h = Some (p, i, true)) /\
    (forall l, expiry - max_levels - 1 <= l -> ld_dag_blocks_level db' !! l = ld_dag_blocks_level db !! l).
Proof.
  intros ix Hg Hh Hd Hm Hx Hx2 Hp e. unfold clearLightNodeHistory.
  replace (u64 (max_levels + 1)) with (max_levels + 1) by (symmetry; apply Z.mod_small; unfold modulus; lia).
  replace (u64 (expiry - max_levels - 1)) with (expiry - max_levels - 1) by (symmetry; apply Z.mod_small; unfold modulus; lia).
  replace (u64 (expiry - max_levels)) with (expiry - max_levels) by (symmetry; apply Z.mod_small; unfold modulus; lia).
  destruct (Z.ltb_spec history dag_period); [|lia]. destruct (Z.ltb_spec (max_levels + 1) expiry); [|lia]. destruct (Z.ltb_spec max_levels expiry); [|lia]. cbn [andb]. rewrite Hp. cbn beta iota zeta.
  unfold getCleanupPeriod. replace (u64 (dag_period - history)) with (dag_period - history) by (symmetry; apply Z.mod_small; unfold modulus; lia). fold e. eexists. split; [reflexivity|].
  assert (u64 (expiry - max_levels - 1) = expiry - max_levels - 1) as Hk by (apply Z.mod_small; unfold modulus; lia).
  assert (first_key (ld_period_data db) = None \/ (exists s, first_key (ld_period_data db) = Some s /\ e <= s) -> clearHistory db e (expiry - max_levels) true = db) as Hsame.
  { unfold clearHistory. intros [->|(s & -> & Hs)]; [done|]. by rewrite (proj2 (Z.leb_le _ _) Hs). }
  destruct (first_key (ld_period_data db)) as [s|] eqn:Ef.
  - destruct (decide (e <= s)) as [Hle|Hlt].
    + rewrite Hsame by (right; by exists s). assert (forall p r, ld_period_data db !! p = Some r -> e <= p) as Hlow by (intros p r Er; destruct (first_key_min _ _ Ef) as [_ Hmin]; specialize (Hmin p ltac:(by eexists)); lia).
      split_and!; try done.
      * intros p. destruct (decide (p < e)); [|done]. destruct (ld_period_data db !! p) as [r|] eqn:Er; [|done]. specialize (Hlow _ _ Er). lia.
      * intros h p i E. destruct (ix_trx_back db ix _ _ _ E) as (_ & r & Er & _). specialize (Hlow _ _ Er). by rewrite decide_False by lia.
    + destruct (history_columns db s e (expiry - max_levels) Ef ltac:(lia) true) as (_ & H2 & _ & _ & _ & H6). destruct (live_rows db ix Hg s e (expiry - max_levels) Ef ltac:(lia)) as (R1 & _ & _).
      split_and!; [by apply (live_indexed db ix Hg s); [|lia]|done| | |intros l Hl; apply H6; lia].
      * intros h p i E. by rewrite R1, E.
      * intros h p i E. by rewrite R1, E.
  - rewrite Hsame by (by left). pose proof (first_key_none _ Ef) as Hnone. split_and!; try done.
    + intros p. rewrite Hnone. by destruct (decide (p < e)).
    + intros h p i E. destruct (ix_trx_back db ix _ _ _ E) as (_ & r & Er & _). by rewrite Hnone in Er.
Qed.

(** Cleanup of more than 2000 periods at the start of a node: the rows of the last 1000 deleted periods stay, and a request for one of their
    transactions fails an assertion; the locations of all system transactions are lost, also of periods that are kept. *)
Theorem bulk_cleanup_stale db start e keep : indexed db -> no_gap db -> first_key (ld_period_data db) = Some start -> 0 <= start -> start + 2000 < e -> e < 2 ^ 64 ->
  let db' := clearHistory db e keep false in
  (forall p, ld_period_data db' !! p = if decide (p < e) then None else ld_period_data db !! p) /\
  (forall h p i, ld_trx_period db !! h = Some (p, i, false) -> e - 1000 <= p < e -> find_finalized db h = Done (Some h) /\ find_finalized db' h = AssertFailed) /\
  (forall h p i, ld_trx_period db !! h = Some (p, i, false) -> p < e - 1000 -> find_finalized db' h = Done None) /\
  (forall h p i, ld_trx_period db !! h = Some (p, i, false) -> e <= p -> find_finalized db' h = Done (Some h)) /\
  (forall h p i, ld_trx_period db !! h = Some (p, i, true) -> ld_trx_period db' !! h = None).
Proof.
  intros ix Hg Hf H0 Hl He. pose proof (bulk_rows db ix Hg start e keep Hf ltac:(lia) ltac:(unfold kPeriodsToKeepNonBlockData; lia) He H0) as R. cbv zeta in R. unfold kPeriodsToKeepNonBlockData in R.
  destruct (history_columns db start e keep Hf ltac:(lia) false) as (_ & H2 & _). cbv zeta. split_and!; [done|..]; intros h p i E.
  - intros Hp. destruct (ix_trx_back db ix _ _ _ E) as (Hi & r & Er & Hr). unfold find_finalized. rewrite R, E, Er, Hr. split; [done|]. rewrite decide_False by lia. rewrite H2. by rewrite decide_True by lia.
  - intros Hp. unfold find_finalized. rewrite R, E. by rewrite decide_True by lia.
  - intros Hp. destruct (ix_trx_back db ix _ _ _ E) as (Hi & r & Er & Hr). unfold find_finalized. rewrite R, E, decide_False by lia. rewrite H2, decide_False by lia. by rewrite Er, Hr.
  - by rewrite R, E.
Qed.

(** ** The lambda of a period *)

Lemma closest_lambda col p k l : k <= p -> col !! k = Some l -> (forall k', k < k' <= p -> col !! k' = None) -> getPeriodLambda col p true = Some l.
Proof.
  intros Hk Hl Hnone. unfold getPeriodLambda. pose proof (StronglySorted_filter key_le (fun kv => kv.1 <= p) (map_items col) (map_items_sorted col)) as Hs.
  assert ((k, l) ∈ filter (fun kv => kv.1 <= p) (map_items col)) as Hin by (apply list_elem_of_filter; split; [done|by apply elem_of_map_items]).
  rewrite fmap_last. destruct (last _) as [[k' l']|] eqn:El; [|by apply last_None in El; rewrite El in Hin; apply elem_of_nil in Hin].
  pose proof (last_Some_elem_of _ _ El) as (Hp' & Hl'%elem_of_map_items)%list_elem_of_filter. cbn in Hp'. apply last_Some in El as [pre El]. rewrite El in Hs, Hin. cbn. f_equal.
  apply elem_of_app in Hin as [Hin|[= <- <-]%list_elem_of_singleton]; [|done]. pose proof (StronglySorted_app_1_elem_of key_le pre [(k', l')] (k, l) (k', l') Hs Hin ltac:(by apply list_elem_of_singleton)) as Hle.
  unfold key_le in Hle. cbn in Hle. destruct (decide (k = k')) as [->|Hne]; [congruence|]. rewrite Hnone in Hl' by lia. done.
Qed.

Lemma no_lambda col p : (forall k, k <= p -> col !! k = None) -> getPeriodLambda col p true = None.
Proof.
  intros Hnone. unfold getPeriodLambda. rewrite fmap_last. destruct (last _) as [[k l]|] eqn:El; [|done].
  pose proof (last_Some_elem_of _ _ El) as (Hp & Hl%elem_of_map_items)%list_elem_of_filter. by rewrite Hnone in Hl.
Qed.

(** Rows below [bound]: the closest row of a period, if any. *)
Lemma some_lambda col p l : getPeriodLambda col p true = Some l -> exists k, k <= p /\ col !! k = Some l /\ forall k', k < k' <= p -> col !! k' = None.
Proof.
  unfold getPeriodLambda. rewrite fmap_last. pose proof (StronglySorted_filter key_le (fun kv => kv.1 <= p) (map_items col) (map_items_sorted col)) as Hs.
  destruct (last _) as [[k l']|] eqn:El; [|done]. cbn. intros [= ->]. pose proof (last_Some_elem_of _ _ El) as (Hp & Hl%elem_of_map_items)%list_elem_of_filter. exists k. split_and!; [done|done|].
  intros k' Hk'. destruct (col !! k') as [x|] eqn:E; [|done]. apply elem_of_map_items in E. apply last_Some in El as [pre El]. rewrite El in Hs.
  assert ((k', x) ∈ pre ++ [(k, l)]) as Hin by (rewrite <- El; apply list_elem_of_filter; split; [cbn; lia|done]). apply elem_of_app in Hin as [Hin|[= -> _]%list_elem_of_singleton]; [|lia].
  pose proof (StronglySorted_app_1_elem_of key_le pre [(k, l)] (k', x) (k, l) Hs Hin ltac:(by apply list_elem_of_singleton)) as Hle. unfold key_le in Hle. cbn in Hle. lia.
Qed.

Lemma clearHistory_lambda db start e keep live : first_key (ld_period_data db) = Some start -> start < e ->
  ld_period_lambda (clearHistory db e keep live) = DeleteRange (ld_period_lambda db) start e.
Proof.
  intros Hf Hlt. unfold clearHistory. rewrite Hf. destruct (Z.leb_spec e start); [lia|]. transitivity (ld_period_lambda (delete_periods (clearNonBlockData db start e live) start e)).
  - unfold delete_levels. destruct (first_key (ld_dag_blocks_level _)) as [sl|]; [|done]. by destruct (_ <=? sl).
  - cbn [delete_periods ld_period_lambda]. f_equal. unfold clearNonBlockData. destruct (_ && _); [done|]. generalize (Z.to_nat (e - start)) as n. intros n. clear. revert start db.
    induction n as [|n IH]; intros start db; cbn [clear_loop]; [done|]. destruct (_ !! start); [|done]. by rewrite IH.
Qed.

(** The lambda of a block is read back after the block is pushed, and later blocks do not change it; but the cleanup of a light node deletes the row
    that was last written even when it is still the lambda of the periods that are kept: none is found for them, a restart that has to execute one of
    them fails an assertion, and only the next block that is pushed writes a row again. *)
Theorem cleanup_loses_lambda col p l : 0 < p < 2 ^ 64 -> (forall k, is_Some (col !! k) -> 0 <= k < p) ->
  replay_lambda (write_lambda col p l) p = Done l /\
  (forall q l', p < q -> q < 2 ^ 64 -> replay_lambda (write_lambda (write_lambda col p l) q l') p = Done l) /\
  forall db start e keep live, ld_period_lambda db = write_lambda col p l -> getPeriodLambda col (p - 1) true = Some l -> first_key (ld_period_data db) = Some start ->
    (forall k, is_Some (col !! k) -> start <= k < e) -> start < e -> e <= p ->
    let col' := ld_period_lambda (clearHistory db e keep live) in replay_lambda col' p = AssertFailed /\ replay_lambda (write_lambda col' (p + 1) l) p = AssertFailed /\
    (p + 1 < 2 ^ 64 -> replay_lambda (write_lambda col' (p + 1) l) (p + 1) = Done l).
Proof.
  intros Hp Hk. assert (u64 (p - 1) = p - 1) as Hu by (apply Z.mod_small; unfold modulus; lia).
  assert (forall k, p <= k -> col !! k = None) as Habove by (intros k Hge; destruct (col !! k) eqn:E; [|done]; specialize (Hk k ltac:(by eexists)); lia).
  assert (getPeriodLambda (write_lambda col p l) p true = Some l /\ forall k, p < k -> write_lambda col p l !! k = None) as [Hread Hlow].
  { unfold write_lambda. rewrite Hu.
    assert (forall k, p < k -> <[p := l]> col !! k = None) as Hins by (intros k Hgt; rewrite lookup_insert_ne by lia; apply Habove; lia).
    destruct (getPeriodLambda col (p - 1) true) as [ls|] eqn:E; [destruct (Z.eqb_spec ls l) as [->|_]|].
    2,3: split; [apply (closest_lambda _ p p); [lia|apply lookup_insert_eq|intros; lia]|done].
    split; [|intros k Hgt; apply Habove; lia]. apply some_lambda in E as (k & Hle & Hl & Hn). apply (closest_lambda _ p k); [lia|done|]. intros k' Hk'. destruct (decide (k' = p)) as [->|]; [by apply Habove|apply Hn; lia]. }
  split_and!; [unfold replay_lambda; by rewrite Hread| |].
  - intros q l' Hq _. unfold replay_lambda. enough (getPeriodLambda (write_lambda (write_lambda col p l) q l') p true = Some l) as -> by done. clear Hu. revert Hread. generalize (write_lambda col p l). intros c Hread.
    assert (getPeriodLambda (<[q := l']> c) p true = Some l) as Hi.
    { apply some_lambda in Hread as (k & Hle & Hl & Hn). apply (closest_lambda _ p k); [done|by rewrite lookup_insert_ne by lia|]. intros k' Hk'. rewrite lookup_insert_ne by lia. by apply Hn. }
    unfold write_lambda. destruct (getPeriodLambda c (u64 (q - 1)) true) as [x|]; [|done]. by destruct (x =? l').
  - intros db start e keep live Edb El Hf Hrange Hlt Hle col'. unfold write_lambda in Edb. rewrite Hu, El, Z.eqb_refl in Edb.
    assert (forall k, col' !! k = None) as Hempty.
    { intros k. unfold col'. rewrite (clearHistory_lambda _ start) by done. rewrite Edb, DeleteRange_lookup. destruct (decide _) as [|Hd]; [done|]. destruct (col !! k) eqn:E; [|done]. exfalso. apply Hd, Hrange. by eexists. }
    assert (forall q, getPeriodLambda col' q true = None) as Hno by (intros q; by apply no_lambda). unfold replay_lambda at 1. rewrite Hno. split; [done|]. unfold write_lambda. rewrite Hno. split.
    + unfold replay_lambda. rewrite no_lambda; [done|]. intros k Hkp. rewrite lookup_insert_ne by lia. apply Hempty.
    + intros _. unfold replay_lambda. rewrite (closest_lambda _ (p + 1) (p + 1) l); [done|lia|apply lookup_insert_eq|intros; lia].
Qed.

(** ** A node for the witnesses *)

Definition seq_map {A} (f : Z -> A) (n : Z) : gmap Z A := set_to_map (fun k => (k, f k)) (list_to_set (seqZ 1 n) : gset Z).

Lemma seq_map_lookup {A} (f : Z -> A) n k : seq_map f n !! k = if decide (1 <= k <= n) then Some (f k) else None.
Proof.
  unfold seq_map. apply option_eq. intros x. transitivity (exists y, y ∈ (list_to_set (seqZ 1 n) : gset Z) /\ (y, f y) = (k, x)).
  - apply (lookup_set_to_map (fun k => (k, f k))). intros y y' Hy Hy' E. cbn in E. congruence.
  - setoid_rewrite elem_of_list_to_set. setoid_rewrite elem_of_seqZ. destruct (decide (1 <= k <= n)); split.
    + intros (y & Hy & [= -> <-]). done.
    + intros [= <-]. exists k. split; [lia|done].
    + intros (y & Hy & [= -> <-]). lia.
    + done.
Qed.

Definition sample_light (n : Z) : LightDb :=
  mkLightDb (seq_map (fun p => mkLightPeriod p [p] [p]) n) (seq_map (fun p => (p, 0, false)) n) ∅ (seq_map (fun p => (p, 0)) n) (seq_map (fun p => p) n) ∅ ∅ ∅ ∅ {[5000 := 8]}.

Lemma sample_light_ok n : 1 <= n -> indexed (sample_light n) /\ no_gap (sample_light n) /\ first_key (ld_period_data (sample_light n)) = Some 1.
Proof.
  intros Hn. assert (forall p r, ld_period_data (sample_light n) !! p = Some r -> 1 <= p <= n /\ r = mkLightPeriod p [p] [p]) as Hr by (intros p r; unfold sample_light; cbn [ld_period_data]; rewrite seq_map_lookup; destruct (decide _); [by intros [= <-]|done]).
  split_and!.
  - split; unfold sample_light; cbn [ld_period_data ld_trx_period ld_dag_block_period ld_pbft_block_period].
    + intros p r i h [Hp ->]%Hr Hi. apply list_lookup_singleton_Some in Hi as [-> <-]. rewrite seq_map_lookup. by rewrite decide_True by lia.
    + intros p r i h [Hp ->]%Hr Hi. apply list_lookup_singleton_Some in Hi as [-> <-]. rewrite seq_map_lookup. by rewrite decide_True by lia.
    + intros p r [Hp ->]%Hr. cbn. rewrite seq_map_lookup. by rewrite decide_True by lia.
    + intros h p i. rewrite !seq_map_lookup. destruct (decide _) as [Hd|]; [|done]. intros [= <- <-]. split; [lia|]. rewrite decide_True by lia. by eexists.
    + intros h p i. rewrite !seq_map_lookup. destruct (decide _) as [Hd|]; [|done]. intros [= <- <-]. split; [lia|]. rewrite decide_True by lia. by eexists.
    + intros h p. rewrite !seq_map_lookup. destruct (decide _) as [Hd|]; [|done]. intros [= <-]. rewrite decide_True by lia. by eexists.
  - intros p q r [x [Hx _]%Hr] [y [Hy _]%Hr] Hq. unfold sample_light. cbn [ld_period_data]. rewrite seq_map_lookup, decide_True by lia. by eexists.
  - assert (is_Some (ld_period_data (sample_light n) !! 1)) as H1 by (unfold sample_light; cbn [ld_period_data]; rewrite seq_map_lookup, decide_True by lia; by eexists).
    destruct (first_key (ld_period_data (sample_light n))) as [k|] eqn:E.
    + destruct (first_key_min _ _ E) as [[x [Hk _]%Hr] Hmin]. specialize (Hmin 1 H1). f_equal. lia.
    + destruct H1 as [x Hx]. by rewrite (first_key_none _ E) in Hx.
Qed.

Lemma live_cleanup_exact_witness : exists db', clearLightNodeHistory (sample_light 20) 5 20 200 100 true = Done db' /\ indexed db' /\ ld_trx_period db' !! 7 = None /\ ld_trx_period db' !! 8 = Some (8, 0, false).
Proof.
  destruct (sample_light_ok 20 ltac:(lia)) as (H1 & H2 & _).
  destruct (live_cleanup_exact (sample_light 20) 5 20 200 100 8 H1 H2) as (db' & E & Hi & _ & Ht & _); [lia..|vm_compute; reflexivity|].
  exists db'. split_and!; [exact E|exact Hi|rewrite (Ht 7 7 0); [reflexivity|vm_compute; reflexivity]|rewrite (Ht 8 8 0); [reflexivity|vm_compute; reflexivity]].
Defined.

Lemma bulk_cleanup_stale_witness : find_finalized (sample_light 3000) 2400 = Done (Some 2400) /\ find_finalized (clearHistory (sample_light 3000) 2500 1 false) 2400 = AssertFailed.
Proof.
  destruct (sample_light_ok 3000 ltac:(lia)) as (H1 & H2 & H3).
  destruct (bulk_cleanup_stale (sample_light 3000) 1 2500 1 H1 H2 H3) as (_ & Ha & _); [lia..|]. apply (Ha 2400 2400 0); [|lia].
  unfold sample_light. cbn [ld_trx_period]. rewrite seq_map_lookup. by rewrite decide_True by lia.
Defined.

Lemma cleanup_loses_lambda_witness : let db := mkLightDb (ld_period_data (sample_light 20)) ∅ ∅ ∅ ∅ ∅ ∅ (write_lambda {[3 := 1500]} 15 1500) ∅ ∅ in
  replay_lambda (ld_period_lambda db) 15 = Done 1500 /\ replay_lambda (ld_period_lambda (clearHistory db 10 1 true)) 15 = AssertFailed.
Proof.
  intros db. destruct (cleanup_loses_lambda {[3 := 1500]} 15 1500) as (H1 & _ & H3).
  - lia.
  - intros k [x [<- _]%lookup_singleton_Some]. lia.
  - split; [exact H1|]. apply (H3 db 1 10 1 true); [reflexivity|vm_compute; reflexivity|apply (sample_light_ok 20); lia| |lia..]. intros k [x [<- _]%lookup_singleton_Some]. lia.
Defined.
